(* ===== verification/_CoqProject ===== *)
-Q . S2P
Prelude.v
JsDate.v
Assoc.v
NodeLib.v
Effects.v
JsonText.v
Sha256.v
ShellEscape.v
SseParser.v
InboxLine.v
StreamSession.v
StreamSpec.v
StreamAuthority.v
LeaseFs.v
StreamOwner.v
LeaseRuns.v
LeaseOps.v
LeaseProtocol.v
LeaseSpec.v
RunLoop.v
RunLoopSpec.v
Heartbeat.v
LockedFile.v
LocalServerCursor.v
CursorSpec.v
LifecycleLogGuard.v
Args.v
Names.v
CodexResolve.v
CodexWake.v
CodexWakeSafety.v
InboxMonitor.v
MonitorSafety.v
MonitorLock.v
MonitorOnce.v
InboxGc.v
StreamWitness.v
RepDb.v
RepCore.v
RepSend.v
RepRead.v
RepDeliveryFacts.v
RepLedger.v
RepProtocol.v
RepInvariant.v
RepSpec.v
RepReadSpec.v
RepRound.v
RepWitness.v
RepPush.v
PushDocument.v
PushFacts.v
PushOutside.v
PushWorld.v
PushSchedule.v
PushSafety.v
PushSpec.v
PushWitness.v
SeatStore.v
StoreWorld.v
Seats.v
SeatsFacts.v
SeatsCommits.v
StoreReads.v
SeatsSpec.v
SeatsWitness.v
Cubes.v
CubesSpec.v
OpenCode.v
OpenCodeApi.v
OpenCodeFacts.v
OpenCodeSafety.v
OpenCodeOnce.v
OpenCodeWitness.v
Enrollment.v
EnrollmentOps.v
EnrollmentTrust.v
EnrollmentFacts.v
EnrollmentSpec.v
EnrollmentRecovery.v
