(* ===== verification/Prelude.v ===== *)
(** * Verification of the Borg MCP client

    Borg runs the agent CLI a developer has installed (Claude Code, Codex,
    OpenCode) and connects its sessions, called drones, through a coordination
    server.  This library models parts of the client under [src/] and proves what
    makes them correct.  A definition that translates code carries a comment with
    the file, the lines and the symbol it translates.

    ** The program and its parts

    A drone's process holds one long-lived stream of its cube's log.  It acquires
    the lease of its seat ([stream-owner.ts]), opens the stream, parses it, writes
    each routed entry to an inbox file and wakes the agent ([log-stream.ts]); a
    monitor beside the agent prints the file's new entries ([inbox-monitor.ts]); for a
    Codex session a wake is a turn started through the app server
    ([codex-app-wake.ts]), for an OpenCode session a prompt that is submitted to its
    server ([opencode-drone.ts]).  How far the agent has read, and what it has announced,
    is kept in small JSON files that several processes change under a lock file
    ([local-server-cursor.ts], [lifecycle-log-guard.ts]); so are the seats themselves,
    each with the credential of one drone ([seats.ts]).  A representative is a
    restricted drone for an outside host: it sends messages to one Coordinator and
    reads the replies, with its request ledger and its delivery checkpoint in a
    database ([representative-*.ts]).  The commands ([borg assimilate], ...) parse
    their arguments and derive names of cubes, roles and worktrees.

    ** Files

    Foundations.
    - [Prelude]: strings, comparisons, generic lemmas, tactics.
    - [Effects]: programs over atomic operations ([prog]), their runs alone ([run],
      [nrun], [passes]), interleaved ([pool_step], [pool_moves]), traced ([traces]) and to
      their end ([will]), with an invariant at every state on the way ([safely]); [pool_simulation] carries the invariants of an abstract
      transition system over to every interleaving of the programs.
    - [Assoc]: objects used as maps.  [NodeLib]: [path.posix] and base64url.
    - [JsDate], [JsonText]: dates, JSON values, [JSON.stringify],
      [JSON.parse] and the round trip between them.  [Sha256]: FIPS 180-4.

    The stream ([log-stream.ts] unless said otherwise).
    - [SseParser]: [parseSSE]; its frames do not depend on how the body
      is cut into chunks, and a frame beyond the limit ends the stream.
    - [InboxLine]: the inbox line, the capped file; the file refines a
      bounded list of lines.
    - [StreamSession], [StreamSpec], [StreamAuthority]: one session,
      [streamOnce].  The resume cursor never passes an entry that is not accounted for; what
      is not the drone's is silent; the session's state only moves forward; a
      session is ended for good by the server's verdict and by nothing else.
    - [RunLoop], [RunLoopSpec]: [runLoop] around the
      sessions.  It streams only under a lease taken for the seat, leaves none behind,
      gives up only by a verdict, and comes back from every failure short of one.
    - [LeaseFs], [StreamOwner], [LeaseRuns], [LeaseOps], [LeaseProtocol],
      [LeaseSpec]: the lease as directories of a POSIX file system.
      At most one process holds a current lease as long as operations do not overlap;
      of simultaneous creators exactly one wins; what each operation does in every
      state of the lock.  [overlapping_refresh_shares_the_lease] is a run in which a
      refresh and an acquisition overlap and both end with a current lease.

    Waking a Codex session.
    - [CodexResolve] ([codex-wake-resolve.ts]): the thread that is woken, the
      back-off, the age cap.
    - [CodexWake], [CodexWakeSafety]: the three
      paths that start a turn.  One conversation with the app server at a time,
      each wake that is owed written off only for itself, and a retry loop that ends
      when it runs alone.
    - [Heartbeat]: the two timers of the heartbeat.

    Waking an OpenCode session ([opencode-drone.ts]).
    - [OpenCode]: what the server says, the connection, the binding file with the
      markers of pending submissions, one delivery.  [OpenCodeApi]: the queue, the
      reconciliation, the exported functions.
    - [OpenCodeFacts], [OpenCodeSafety]: what each stretch of code keeps, and the
      flows as processes that keep it.
    - [OpenCodeOnce], [OpenCodeWitness]: over any interleaving and any number of
      restarts an entry is submitted again only after the earlier submission was
      refused, listed or settled, and its marker is in every binding file until then;
      a launch is bound to the one session that holds its identity.
      [opencode_replaced_connection_unmarked] shows what a second connection in the
      same process can break.

    The inbox monitor ([inbox-monitor.ts]), which prints what arrives in the inbox.
    - [InboxMonitor]: the shape of a line, the replay cursor, the plan
      of an arm, one line with its effects; a stored cursor reads back.
    - [MonitorSafety]: the file, the cursor and the monitors that run
      one after the other.  No live entry is missed but by the replacement of a stalled
      tail ([stalled_tail_passes_an_entry]); a position that was handed over lasts
      while writes succeed.
    - [MonitorLock], [MonitorOnce]: the pidfile, the heartbeat and the
      mutation lock.  Two monitors follow one inbox only if one was told to stop or its
      heartbeat was found stale; [fresh_monitor_replaced] shows how a fresh one can be,
      [successor_of_a_stopping_monitor] two that meet when one stops.
    - [InboxGc] ([gc-orphan-inboxes.ts]): the sweep at the end of an assimilation.  It
      removes exactly the inboxes that nothing it can see holds, that nobody wrote for
      thirty days and that may be unlinked; [other_worktree_needs_pgrep] shows whose monitor it cannot see.

    Files under a lock.
    - [LockedFile]: the lock file, the temporary file and the rename; changes made
      under the lock serialize.
    - [LocalServerCursor], [CursorSpec]: the stored
      cursors; they only advance, the file is a map, the import fails closed.
    - [LifecycleLogGuard]: announcements that are logged once.

    The seats ([seat-store.ts], [seats.ts]): credential, state and worktree in one
    record, in a private file under a lock that nobody takes from its holder.
    - [SeatStore]: the locked private store - paths, checks of ownership and mode,
      the atomic write, the lock, transactions.  [StoreWorld]: a
      transaction among other processes is a sequence of steps of [LockedFile].
      [StoreReads]: private reads, and files that do not parse.
    - [Seats]: records, their JSON form, the repair of superseded bindings, every
      operation.  [SeatsFacts], [SeatsCommits]: the
      round trip, the repair, what a commit leaves and removes.
    - [SeatsSpec], [SeatsWitness]: the commits of interleaved calls
      serialize, none is lost; one active seat per worktree; a credential nobody asked
      to discard stays; an activation takes effect.
    - [Cubes], [CubesSpec] ([cubes.ts], [reset-local-seat-cmd.ts]): the cube a worktree
      connects to, over the calls of the seat store.  A launch gets the seat its parent
      chose or none, a process keeps the seat it has pinned, the reset command removes
      the record it showed, after consent.

    Enrollments ([config.ts], [token-store.ts], [server-trust.ts]): the credential of the
    machine at a server, in one file of accounts, and the certificate authority it
    trusts for it, which a pointer on the disk names.
    - [Enrollment], [EnrollmentOps]: the accounts, their records, every operation on
      them; a pending tuple becomes the credential in one replacement that also
      records how to undo it.
    - [EnrollmentTrust]: generations of certificates, the pointer, the commit that moves
      accounts and pointer, its recovery, [borg recover-enrollment]
      ([recover-enrollment-cmd.ts]).
    - [EnrollmentFacts], [EnrollmentSpec]: a commit that fails or is stopped anywhere leaves
      the state before, the state after, or a marker.
    - [EnrollmentRecovery]: the marker stops what checks for it, recovery completes or undoes,
      the command touches one origin; [recovery_undoes_a_finished_enrollment] shows a
      recovery that a misreported write leads astray.

    Names and arguments.
    - [Args]: [borg assimilate] and [borg quickstart]; what parses can be printed
      and parsed again.
    - [Names]: cube names, role slugs, the choice of a role, the tools of a role.

    The representative.
    - [RepDb]: the tables and the transactions over them.
    - [RepCore], [RepSend], [RepRead]: the tools of the connection.
    - [RepLedger], [RepDeliveryFacts]: the ledger as a map, the delivery
      window, the scan of the log.
    - [RepProtocol], [RepInvariant], [RepSpec]: any number of connections at once.
      A post whose answer is lost stays unresolved, no two unconfirmed copies of a
      message are in flight, a record listed as sent is in the server's log, the
      checkpoint only advances.
    - [RepReadSpec], [RepRound]: reading and delivering, a whole
      drain of the log, the binding and who it talks to.  [ShellEscape]: the
      recovery command a POSIX shell reads back.

    The representative's push engine ([representative-push.ts]).
    - [RepPush]: the wake document, its table of replies and the transactions over
      them ([discardInvalidWakeState], [merge], [tick], [nextDueAt], [ack], ...);
      the methods, which are programs over the transactions, the discovery requests
      and the engine's chain and flags.
    - [PushDocument], [PushFacts]: printed instants are ordered as the instants are;
      the document's round trip; what each transaction keeps.  [PushOutside]: what the representative's tools do to the
      wake state.
    - [PushWorld], [PushSafety]: the engine's programs interleaved with one another,
      the tools, a growing log and damage to the wake state; discovery misses no
      direct reply.  [PushSchedule], [PushSpec]: the timer is exact, a
      scan ends, a backlog is announced, a refusal is not counted.

    [StreamWitness], [RepWitness], [PushWitness], [SeatsWitness] and [OpenCodeWitness]
    instantiate the theorems that have hypotheses at concrete inputs; the others have their instances beside them.

    ** How the code is translated

    - A string is its UTF-8 bytes; a lone surrogate has no such form and is out of
      scope.  [js_length] counts UTF-16 units.  [trim] and [to_lower] are those of
      ASCII except where [trim_spaces] is used or [Names] says more.
    - A number is an integer ([Z]) where the code uses it as one, with [NaN] where
      a parsed date can be one ([jnum]).  Dates of the format [toISOString] prints
      are parsed here; of others [Date.parse] is the field [other_parse].
    - An [async] function is a program whose operations are the calls it awaits and
      the reads of clock and randomness; a stretch without [await] that changes
      shared variables is one operation.  [try]/[catch]/[finally] are [pcatch] and
      [pfinally]; an error is [js_error].
    - Code that is not in the repository - the shared package, the server, the
      runtime's decoders - is a field of a class ([StreamEnv], [RepEnv], [UrlEnv],
      [CertEnv], [JsDate]) or an operation whose answer is not determined, with what is
      assumed of it as named hypotheses.
    - The content of the lease, cursor, lifecycle and seat files is the value
      [JSON.parse] gives for it, or text that does not parse.  A JSON column of the
      database is its parsed value.
    - Test hooks and injected replacements of defaults are absent.

    ** Bounds and fuel

    - [body_fuel] is the number of chunks a session reads; every theorem about
      [streamOnce] and [runLoop] holds for each of them, so for a body of any
      length.  [maxIterations] of [runLoop] is the code's own parameter.
    - The loops over a set or a queue that other paths extend ([prune],
      [drainCodexWakeQueue]) stop performing operations when their fuel is used up;
      the safety theorems hold for every fuel, and [retry_drain_ends] says how much
      is enough.
    - The lock of [LockedFile] is taken over after thirty seconds by design; the
      theorems about interleaved changes are for runs within that window, outside
      which the code itself gives no guarantee.
    - The loops of discovery take the number of scans and of pages; the safety of the
      engine holds for each of them, and [scan_records_everything] needs only as many
      pages as the log has.
    - A run of the loop over OpenCode's queue takes as many deliveries as its fuel
      says; the safety theorems hold for every fuel.  The theorems about OpenCode have
      one connection in the life of a process, as in [index.ts], and a wake's source
      determined by its identity, as in [log-stream.ts].  The depth of
      [injectOpenCodeEntry] at which the stack overflows is a parameter.
    - The disk of [EnrollmentSpec] is that of one process with the origin's lock: a read
      gives what is there or fails, a write takes place or does not, and unless writes
      are honest it may report an error although it took place.  The home directory is
      an absolute path in normal form other than the root.
    - New identifiers (UUIDs, inode numbers) are distinct from those in use.

    ** Not modelled

    - Of [log-stream.ts]: the representative's [consumer].  Of [stream-owner.ts]:
      leases below a private root.  Of the representative: its listener,
      its command, the migration of the old state files and the
      publication of a database generation on disk.
    - Of [cubes.ts]: the write of the launch file.  Of the seats: the listing and the
      launch by label ([seat-commands.ts]).
    - Of [opencode-drone.ts]: the diagnostic log, the choice of a port and the secrets
      of a launch; the other files of the OpenCode integration start and configure
      OpenCode.
    - The server's side of a call: [remote-client.ts], [server-handshake.ts] and
      [server-facade.ts] mostly pass requests to the server.  Of [server-trust.ts]: the
      pinned [fetch] and the TLS connection.  A commit is verified against crashes,
      failures and misreported writes, the process having the origin's lock; the lock
      itself is that of [SeatStore].
    - The commands' orchestration of other programs ([assimilate-cmd.ts],
      [launch-all-cmd.ts], [update-cmd.ts], [hermes-plugin-install.ts], ...), the
      MCP server in [index.ts] with its tool schemas, the text of help and prompts.
    - [dist/] is generated from [src/]; scripts and tests are not part of the
      program. *)

From Stdlib Require Export Ascii String ZArith Lia.
From stdpp Require Export sorting.
From stdpp Require Export base gmap sets strings option.
From stdpp Require Export list.

(** [String.length] and [List.last] stay qualified. *)
Abbreviation length := Datatypes.length.
Abbreviation last := stdpp.list_basics.list.last.

Declare Scope js_scope.
Delimit Scope js_scope with js.

(** ** Tactics shared by the development *)

(** Destruct every [match] and [if] the goal is blocked on. *)
Ltac case_all := repeat (case_match; simplify_eq/=).

(** Turn boolean comparisons in hypotheses and goal into propositions. *)
Ltac bool_to_prop :=
  repeat match goal with
  | H : (_ && _)%bool = true |- _ => apply andb_prop in H as [? ?]
  | H : (_ || _)%bool = false |- _ => apply orb_false_elim in H as [? ?]
  | H : negb _ = true |- _ => apply negb_true_iff in H
  | H : negb _ = false |- _ => apply negb_false_iff in H
  | H : (_ <? _)%Z = true |- _ => apply Z.ltb_lt in H
  | H : (_ <? _)%Z = false |- _ => apply Z.ltb_ge in H
  | H : (_ <=? _)%Z = true |- _ => apply Z.leb_le in H
  | H : (_ <=? _)%Z = false |- _ => apply Z.leb_gt in H
  | H : (_ =? _)%Z = true |- _ => apply Z.eqb_eq in H
  | H : (_ =? _)%Z = false |- _ => apply Z.eqb_neq in H
  | H : bool_decide _ = true |- _ => apply bool_decide_eq_true in H
  | H : bool_decide _ = false |- _ => apply bool_decide_eq_false in H
  | H : String.eqb _ _ = true |- _ => apply String.eqb_eq in H
  | H : String.eqb _ _ = false |- _ => apply String.eqb_neq in H
  end.

(** ** An optional value *)

Definition in_option {A} (P : A -> Prop) (v : option A) : Prop := match v with Some x => P x | None => True end.

Lemma in_option_fmap {A B} (P : B -> Prop) (f : A -> B) v : in_option P (f <$> v) <-> in_option (fun x => P (f x)) v.
Proof. by destruct v. Qed.

Lemma in_option_mono {A} (P Q : A -> Prop) v : (forall x, P x -> Q x) -> in_option P v -> in_option Q v.
Proof. destruct v; cbn; auto. Qed.

#[export] Instance in_option_dec {A} (P : A -> Prop) `{forall x, Decision (P x)} v : Decision (in_option P v).
Proof. destruct v; apply _. Defined.

(** ** JavaScript numbers

    The program's numbers are integers in the safe range, [Infinity] or [NaN]
    (milliseconds, process ids, counters, byte counts); [jnum] keeps the two
    special values because the guards of the code depend on how they compare. *)

Inductive jnum :=
| Fin (z : Z)
| PosInf
| NaN.

#[export] Instance jnum_eq_dec : EqDecision jnum.
Proof. solve_decision. Defined.

(** [Number.MAX_SAFE_INTEGER]. *)
Definition max_safe_integer : Z := 9007199254740991.

Definition is_safe_integer (z : Z) : bool :=
  ((- max_safe_integer <=? z) && (z <=? max_safe_integer))%Z.

(** [a > b], [a <= b] and [a >= b] of the language: every comparison with NaN
    is false. *)
Definition jnum_gt (a b : jnum) : bool :=
  match a, b with
  | Fin x, Fin y => (y <? x)%Z
  | PosInf, Fin _ => true
  | _, _ => false
  end.

Definition jnum_le (a b : jnum) : bool :=
  match a, b with
  | Fin x, Fin y => (x <=? y)%Z
  | Fin _, PosInf => true
  | PosInf, PosInf => true
  | _, _ => false
  end.

Definition jnum_ge (a b : jnum) : bool := jnum_le b a.

(** [Number.isFinite]. *)
Definition is_finite (a : jnum) : bool :=
  match a with Fin _ => true | _ => false end.

(** ** JavaScript strings

    A string is the sequence of its UTF-8 bytes, so that
    [Buffer.byteLength(s, 'utf8')] is [String.length] and [s.length] counts
    UTF-16 code units.  Lone surrogates have no such representation and are out
    of scope. *)

Definition utf16_units (c : ascii) : nat :=
  let n := nat_of_ascii c in
  if (n <? 128)%nat then 1
  else if (n <? 192)%nat then 0
  else if (n <? 240)%nat then 1 else 2.

(** [s.length] *)
Fixpoint js_length (s : string) : nat :=
  match s with
  | EmptyString => 0
  | String c s' => utf16_units c + js_length s'
  end.

Definition ascii_between (lo hi : nat) (c : ascii) : bool :=
  let n := nat_of_ascii c in ((lo <=? n) && (n <=? hi))%nat.

Definition is_digit : ascii -> bool := ascii_between 48 57.
Definition is_lower_hex (c : ascii) : bool := is_digit c || ascii_between 97 102 c.
Definition is_lower : ascii -> bool := ascii_between 97 122.
Definition is_upper : ascii -> bool := ascii_between 65 90.
Definition is_alpha (c : ascii) : bool := is_lower c || is_upper c.
Definition is_alnum (c : ascii) : bool := is_alpha c || is_digit c.

(** [[0-9a-f]] under the [i] flag *)
Definition is_hex (c : ascii) : bool :=
  is_digit c || ascii_between 97 102 c || ascii_between 65 70 c.

(** [[\u0000-\u001f\u007f]] *)
Definition is_c0_or_del (c : ascii) : bool :=
  ascii_between 0 31 c || ascii_between 127 127 c.

(** The ASCII members of [\s]: TAB, LF, VT, FF, CR and space. *)
Definition is_ascii_space (c : ascii) : bool :=
  ascii_between 9 13 c || ascii_between 32 32 c.

(** The members of [\s] beyond ASCII, as the two or three bytes they are. *)
Definition space2 (a b : ascii) : bool := Ascii.eqb a "194" && Ascii.eqb b "160".
Definition space3 (a b c : ascii) : bool :=
  (Ascii.eqb a "225" && Ascii.eqb b "154" && Ascii.eqb c "128") ||
  (Ascii.eqb a "226" && Ascii.eqb b "128" &&
     (ascii_between 128 138 c || Ascii.eqb c "168" || Ascii.eqb c "169" || Ascii.eqb c "175")) ||
  (Ascii.eqb a "226" && Ascii.eqb b "129" && Ascii.eqb c "159") ||
  (Ascii.eqb a "227" && Ascii.eqb b "128" && Ascii.eqb c "128") ||
  (Ascii.eqb a "239" && Ascii.eqb b "187" && Ascii.eqb c "191").

Definition to_lower_char (c : ascii) : ascii :=
  if is_upper c then ascii_of_nat (nat_of_ascii c + 32) else c.

Fixpoint string_map (f : ascii -> ascii) (s : string) : string :=
  match s with
  | EmptyString => EmptyString
  | String c s' => String (f c) (string_map f s')
  end.

(** [s.toLowerCase()] on the ASCII letters. *)
Definition to_lower : string -> string := string_map to_lower_char.

Create Rewrite HintDb js_str.

Lemma append_nil_l (b : string) : "" +:+ b = b.
Proof. reflexivity. Qed.

Lemma append_cons c (a b : string) : String c a +:+ b = String c (a +:+ b).
Proof. reflexivity. Qed.

Lemma append_assoc (a b c : string) : (a +:+ b) +:+ c = a +:+ (b +:+ c).
Proof. induction a as [|x a IH]; [done|]. by rewrite !append_cons, IH. Qed.

Lemma append_nil_r (a : string) : a +:+ "" = a.
Proof. induction a as [|x a IH]; [done|]. by rewrite append_cons, IH. Qed.

Lemma append_length (a b : string) :
  String.length (a +:+ b) = (String.length a + String.length b)%nat.
Proof. induction a as [|x a IH]; [done|]. rewrite append_cons. simpl. by rewrite IH. Qed.

#[export] Hint Rewrite append_nil_l append_cons append_assoc append_nil_r append_length : js_str.

Fixpoint string_forallb (p : ascii -> bool) (s : string) : bool :=
  match s with
  | EmptyString => true
  | String c s' => p c && string_forallb p s'
  end.

Fixpoint string_existsb (p : ascii -> bool) (s : string) : bool :=
  match s with
  | EmptyString => false
  | String c s' => p c || string_existsb p s'
  end.

Fixpoint string_filter (p : ascii -> bool) (s : string) : string :=
  match s with
  | EmptyString => EmptyString
  | String c s' => if p c then String c (string_filter p s') else string_filter p s'
  end.

(** Everything after the first [n] bytes: [s.slice(n)] for an ASCII prefix. *)
Fixpoint string_drop (n : nat) (s : string) : string :=
  match n, s with
  | O, _ => s
  | S n', String _ s' => string_drop n' s'
  | S _, EmptyString => EmptyString
  end.

Fixpoint string_take (n : nat) (s : string) : string :=
  match n, s with
  | S n', String c s' => String c (string_take n' s')
  | _, _ => EmptyString
  end.

(** [s.startsWith(p)] *)
Definition starts_with (p s : string) : bool := String.prefix p s.

(** [s.includes(p)] *)
Fixpoint includes (p s : string) : bool :=
  starts_with p s ||
  match s with
  | EmptyString => false
  | String _ s' => includes p s'
  end.

Fixpoint trim_start (s : string) : string :=
  match s with
  | String c s' => if is_ascii_space c then trim_start s' else s
  | EmptyString => EmptyString
  end.

Fixpoint trim_end (s : string) : string :=
  match s with
  | String c s' =>
      match trim_end s' with
      | EmptyString => if is_ascii_space c then EmptyString else String c EmptyString
      | t => String c t
      end
  | EmptyString => EmptyString
  end.

(** [s.trim()] for ASCII white space. *)
Definition trim (s : string) : string := trim_end (trim_start s).

(** [s.trim()] for all of [\s]. *)
Fixpoint skip_spaces (s : string) : string :=
  match s with
  | EmptyString => ""
  | String a r1 =>
      if is_ascii_space a then skip_spaces r1
      else
        match r1 with
        | EmptyString => s
        | String b r2 =>
            if space2 a b then skip_spaces r2
            else match r2 with String c r3 => if space3 a b c then skip_spaces r3 else s | EmptyString => s end
        end
  end.

Fixpoint drop_trailing_spaces (s : string) : string :=
  match s with
  | EmptyString => ""
  | String a r => if String.eqb (skip_spaces s) "" then "" else String a (drop_trailing_spaces r)
  end.

Definition trim_spaces (s : string) : string := drop_trailing_spaces (skip_spaces s).

(** [arr.join(sep)] *)
Fixpoint join (sep : string) (l : list string) : string :=
  match l with
  | [] => EmptyString
  | [x] => x
  | x :: l' => x +:+ sep +:+ join sep l'
  end.

(** Relational comparison [a < b] of strings: byte order is code-unit order
    outside the surrogate range. *)
Fixpoint string_ltb (a b : string) : bool :=
  match a, b with
  | _, EmptyString => false
  | EmptyString, String _ _ => true
  | String x a', String y b' =>
      if Ascii.eqb x y then string_ltb a' b'
      else (nat_of_ascii x <? nat_of_ascii y)%nat
  end.

Definition string_leb (a b : string) : bool := negb (string_ltb b a).

Lemma string_ltb_irrefl a : string_ltb a a = false.
Proof. induction a as [|c a IH]; [done|]. simpl. by rewrite Ascii.eqb_refl. Qed.

Lemma ascii_nat_inj (x y : ascii) : nat_of_ascii x = nat_of_ascii y -> x = y.
Proof. intros H. by rewrite <-(ascii_nat_embedding x), H, ascii_nat_embedding. Qed.

Lemma ascii_eqb_false_nat x y : Ascii.eqb x y = false -> nat_of_ascii x <> nat_of_ascii y.
Proof. intros H E. apply ascii_nat_inj in E. by apply Ascii.eqb_neq in H. Qed.

Lemma string_ltb_trans a b c : string_ltb a b = true -> string_ltb b c = true -> string_ltb a c = true.
Proof.
  revert b c. induction a as [|x a IH]; intros [|y b] [|z c]; simpl; try done.
  destruct (Ascii.eqb x y) eqn:Exy; destruct (Ascii.eqb y z) eqn:Eyz;
    destruct (Ascii.eqb x z) eqn:Exz;
    repeat match goal with H : Ascii.eqb _ _ = true |- _ => apply Ascii.eqb_eq in H end; subst;
    rewrite ?Nat.ltb_lt; try done; try (rewrite Ascii.eqb_refl in *; done); eauto; try lia.
Qed.

(** The order is total: exactly one of [<], [=] and [>] holds. *)
Lemma string_ltb_total a b :
  string_ltb a b = true \/ a = b \/ string_ltb b a = true.
Proof.
  revert b. induction a as [|x a IH]; intros [|y b]; simpl; [by right; left|by left|by do 2 right|].
  rewrite (Ascii.eqb_sym y x). destruct (Ascii.eqb x y) eqn:E.
  - apply Ascii.eqb_eq in E as ->. destruct (IH b) as [?|[->|?]]; auto.
  - apply ascii_eqb_false_nat in E. rewrite !Nat.ltb_lt. lia.
Qed.

Lemma string_ltb_asym a b : string_ltb a b = true -> string_ltb b a = false.
Proof.
  intros H. destruct (string_ltb b a) eqn:E; [|done].
  pose proof (string_ltb_trans _ _ _ H E). pose proof (string_ltb_irrefl a). congruence.
Qed.

(** The UUID expression the modules share:
    [/^[0-9a-f]{8}-[0-9a-f]{4}-[0-9a-f]{4}-[0-9a-f]{4}-[0-9a-f]{12}$/i]. *)
Fixpoint match_shape (shape : list (ascii -> bool)) (s : string) : bool :=
  match shape, s with
  | [], EmptyString => true
  | p :: shape', String c s' => p c && match_shape shape' s'
  | _, _ => false
  end.

Definition is_dash (c : ascii) : bool := Ascii.eqb c "-"%char.

Definition uuid_shape : list (ascii -> bool) :=
  replicate 8 is_hex ++ [is_dash] ++ replicate 4 is_hex ++ [is_dash] ++
  replicate 4 is_hex ++ [is_dash] ++ replicate 4 is_hex ++ [is_dash] ++
  replicate 12 is_hex.

Definition is_uuid (s : string) : bool := match_shape uuid_shape s.

(** ** A bounded memory

    A set whose members are also kept in order of arrival, so that the oldest can
    be dropped. *)

(** [while (order.length > CAP) keys.delete(order.shift())] *)
Fixpoint drop_oldest (excess : nat) (keys : gset string) (order : list string) : gset string * list string :=
  match excess, order with
  | S n, k :: rest => drop_oldest n (keys ∖ {[k]}) rest
  | _, _ => (keys, order)
  end.

Lemma drop_oldest_spec n order : forall keys, keys = list_to_set order -> NoDup order ->
  let '(keys', order') := drop_oldest n keys order in
  keys' = list_to_set order' /\ NoDup order' /\ length order' = (length order - n)%nat.
Proof.
  revert order. induction n as [|n IH]; intros order keys Hk Hn; cbn [drop_oldest].
  - destruct order; cbn; auto.
  - destruct order as [|k rest]; [done|]. apply NoDup_cons in Hn as [Hk' Hn]. cbn [length]. apply IH; [|done].
    rewrite Hk. cbn [list_to_set]. assert (k ∉ (list_to_set rest : gset string)) by (by rewrite elem_of_list_to_set). set_solver.
Qed.

