(* ===== verification/JsDate.v ===== *)
(** * Dates and JSON values of the language

    [Date.prototype.toISOString], [Date.parse] on the format it prints, and the
    values [JSON.parse] returns.  [Date.parse] also accepts formats the standard
    leaves to the implementation; those are the field [other_parse] of the class
    [JsDate], on which no theorem depends except where it says so. *)

From S2P Require Import Prelude.

Open Scope Z_scope.

(** ** Decimal fields of fixed width *)

Definition digit (d : Z) : ascii := ascii_of_nat (48 + Z.to_nat d).
Definition digit_value (c : ascii) : option Z :=
  if is_digit c then Some (Z.of_nat (nat_of_ascii c) - 48) else None.

Fixpoint pad (w : nat) (n : Z) : string :=
  match w with
  | O => ""
  | S w' => pad w' (n / 10) +:+ String (digit (n mod 10)) ""
  end.

Fixpoint num (w : nat) (acc : Z) (s : string) : option (Z * string) :=
  match w, s with
  | O, _ => Some (acc, s)
  | S w', String c s' =>
      match digit_value c with
      | Some d => num w' (acc * 10 + d) s'
      | None => None
      end
  | S _, EmptyString => None
  end.

Lemma digit_value_digit d : 0 <= d < 10 -> digit_value (digit d) = Some d.
Proof.
  intros H. unfold digit_value, digit, is_digit, ascii_between.
  rewrite nat_ascii_embedding by lia.
  assert (((48 <=? 48 + Z.to_nat d) && (48 + Z.to_nat d <=? 57))%nat = true) as ->
    by (apply andb_true_intro; split; apply Nat.leb_le; lia).
  f_equal. lia.
Qed.

Lemma num_app w1 w2 acc s :
  num (w1 + w2) acc s =
  match num w1 acc s with Some (a, s') => num w2 a s' | None => None end.
Proof.
  revert acc s. induction w1 as [|w1 IH]; intros acc s; [done|].
  simpl. destruct s as [|c s]; [done|]. destruct (digit_value c); [apply IH|done].
Qed.

Lemma num_pad w n acc s :
  num w acc (pad w n +:+ s) = Some (acc * 10 ^ Z.of_nat w + n mod 10 ^ Z.of_nat w, s).
Proof.
  revert n acc s. induction w as [|w IH]; intros n acc s.
  - simpl. f_equal. f_equal. rewrite Z.mod_1_r. lia.
  - replace (S w) with (w + 1)%nat at 1 by lia. rewrite num_app. cbn [pad].
    rewrite append_assoc, IH, append_cons. cbn [num].
    rewrite digit_value_digit by (apply Z.mod_pos_bound; lia).
    f_equal. f_equal. rewrite Nat2Z.inj_succ, Z.pow_succ_r by lia.
    assert (0 < 10 ^ Z.of_nat w) by (apply Z.pow_pos_nonneg; lia).
    rewrite (Z.rem_mul_r n 10) by lia. ring.
Qed.

Definition lit (c : ascii) (s : string) : option string :=
  match s with String d s' => if Ascii.eqb c d then Some s' else None | _ => None end.

Lemma lit_cons c s : lit c (String c s) = Some s.
Proof. unfold lit. by rewrite Ascii.eqb_refl. Qed.

(** ** The proleptic Gregorian calendar *)

(** Day number (1970-01-01 is day 0) of a civil date, and back. *)
Definition days_from_civil (y m d : Z) : Z :=
  let y := if m <=? 2 then y - 1 else y in
  let era := y / 400 in
  let yoe := y mod 400 in
  let mp := (m + 9) mod 12 in
  let doy := (153 * mp + 2) / 5 + d - 1 in
  let doe := yoe * 365 + yoe / 4 - yoe / 100 + doy in
  era * 146097 + doe - 719468.

Definition civil_from_days (z : Z) : Z * Z * Z :=
  let z := z + 719468 in
  let era := z / 146097 in
  let doe := z mod 146097 in
  let yoe := (doe - doe / 1460 + doe / 36524 - doe / 146096) / 365 in
  let doy := doe - (365 * yoe + yoe / 4 - yoe / 100) in
  let mp := (5 * doy + 2) / 153 in
  let d := doy - (153 * mp + 2) / 5 + 1 in
  let m := if mp <? 10 then mp + 3 else mp - 9 in
  let y := yoe + era * 400 in
  (if m <=? 2 then y + 1 else y, m, d).

Definition ms_per_day : Z := 86400000.

Lemma yoe_bounds doe :
  0 <= doe < 146097 ->
  let yoe := (doe - doe / 1460 + doe / 36524 - doe / 146096) / 365 in
  let doy := doe - (365 * yoe + yoe / 4 - yoe / 100) in
  0 <= yoe < 400 /\ 0 <= doy <= 365.
Proof. intros H. cbv zeta. Z.div_mod_to_equations. lia. Qed.

Lemma civil_bounds z :
  let '(y, m, d) := civil_from_days z in 1 <= m <= 12 /\ 1 <= d <= 31.
Proof.
  unfold civil_from_days. cbv zeta.
  set (z' := z + 719468).
  assert (H : 0 <= z' mod 146097 < 146097) by (apply Z.mod_pos_bound; lia).
  apply yoe_bounds in H. cbv zeta in H. destruct H as [_ H].
  set (doy := z' mod 146097 - _) in *. clearbody doy.
  destruct (_ <? 10) eqn:E; bool_to_prop; Z.div_mod_to_equations; lia.
Qed.

Lemma civil_round_trip z :
  let '(y, m, d) := civil_from_days z in days_from_civil y m d = z.
Proof.
  unfold civil_from_days. cbv zeta.
  set (z' := z + 719468).
  assert (H : 0 <= z' mod 146097 < 146097) by (apply Z.mod_pos_bound; lia).
  apply yoe_bounds in H. cbv zeta in H.
  set (doe := z' mod 146097) in *.
  set (yoe := (doe - _ + _ - _) / 365) in *.
  set (doy := doe - (365 * yoe + yoe / 4 - yoe / 100)) in *.
  destruct H as [Hy Hd].
  set (mp := (5 * doy + 2) / 153).
  assert (Hmp : 0 <= mp <= 11) by (subst mp; Z.div_mod_to_equations; lia).
  assert (Hdiv : z' = 146097 * (z' / 146097) + doe) by (apply Z.div_mod; lia).
  set (era := z' / 146097) in *.
  assert (Hm : ((if mp <? 10 then mp + 3 else mp - 9) + 9) mod 12 = mp).
  { destruct (mp <? 10) eqn:E; bool_to_prop; Z.div_mod_to_equations; lia. }
  set (m := if mp <? 10 then mp + 3 else mp - 9) in *.
  unfold days_from_civil. cbv zeta.
  replace (if m <=? 2 then (if m <=? 2 then yoe + era * 400 + 1 else yoe + era * 400) - 1
           else (if m <=? 2 then yoe + era * 400 + 1 else yoe + era * 400))
    with (yoe + era * 400) by (destruct (m <=? 2); lia).
  rewrite Hm, Z.div_add, Z.mod_add by lia.
  rewrite Z.div_small, Z.mod_small by lia.
  subst doy. lia.
Qed.

(** ** [new Date(t).toISOString()] and [Date.parse] *)

Definition to_iso (t : Z) : string :=
  let day := t / ms_per_day in
  let ms := t mod ms_per_day in
  let '(y, m, d) := civil_from_days day in
  let year :=
    if (0 <=? y) && (y <=? 9999) then pad 4 y
    else if y <? 0 then "-" +:+ pad 6 (- y) else "+" +:+ pad 6 y in
  year +:+ "-" +:+ pad 2 m +:+ "-" +:+ pad 2 d +:+ "T" +:+
  pad 2 (ms / 3600000) +:+ ":" +:+ pad 2 (ms / 60000 mod 60) +:+ ":" +:+
  pad 2 (ms / 1000 mod 60) +:+ "." +:+ pad 3 (ms mod 1000) +:+ "Z".

Definition in_range (lo hi n : Z) : bool := (lo <=? n) && (n <=? hi).

(** [YYYY-MM-DDTHH:mm:ss.sssZ] *)
Definition parse_iso (s : string) : option Z :=
  '(y, s) ← num 4 0 s; s ← lit "-" s;
  '(m, s) ← num 2 0 s; s ← lit "-" s;
  '(d, s) ← num 2 0 s; s ← lit "T" s;
  '(h, s) ← num 2 0 s; s ← lit ":" s;
  '(mi, s) ← num 2 0 s; s ← lit ":" s;
  '(se, s) ← num 2 0 s; s ← lit "." s;
  '(f, s) ← num 3 0 s; s ← lit "Z" s;
  match s with
  | EmptyString =>
      if in_range 1 12 m && in_range 1 31 d && in_range 0 59 mi && in_range 0 59 se &&
         (in_range 0 23 h || (h =? 24) && (mi =? 0) && (se =? 0) && (f =? 0))
      then Some (days_from_civil y m d * ms_per_day +
                 h * 3600000 + mi * 60000 + se * 1000 + f)
      else None
  | _ => None
  end.

(** The dates whose year prints with four digits: 0000-01-01 to 9999-12-31. *)
Definition four_digit_year (t : Z) : Prop :=
  let '(y, _, _) := civil_from_days (t / ms_per_day) in 0 <= y <= 9999.

Lemma num_pad_small w n acc s :
  0 <= n < 10 ^ Z.of_nat w ->
  num w acc (pad w n +:+ s) = Some (acc * 10 ^ Z.of_nat w + n, s).
Proof. intros H. by rewrite num_pad, Z.mod_small. Qed.

Lemma parse_to_iso t : four_digit_year t -> parse_iso (to_iso t) = Some t.
Proof.
  unfold four_digit_year, to_iso.
  pose proof (civil_bounds (t / ms_per_day)) as Hb.
  pose proof (civil_round_trip (t / ms_per_day)) as Hr.
  destruct (civil_from_days (t / ms_per_day)) as [[y m] d].
  destruct Hb as [Hm Hd]. intros Hy.
  assert (Hms : 0 <= t mod ms_per_day < ms_per_day)
    by (apply Z.mod_pos_bound; unfold ms_per_day; lia).
  set (ms := t mod ms_per_day) in *.
  assert (Ht : t = ms_per_day * (t / ms_per_day) + ms)
    by (apply Z.div_mod; unfold ms_per_day; lia).
  unfold ms_per_day in Hms.
  replace ((0 <=? y) && (y <=? 9999)) with true
    by (symmetry; apply andb_true_intro; split; apply Z.leb_le; lia).
  assert (0 <= ms / 3600000 < 24) by (Z.div_mod_to_equations; lia).
  assert (0 <= ms / 60000 mod 60 < 60) by (apply Z.mod_pos_bound; lia).
  assert (0 <= ms / 1000 mod 60 < 60) by (apply Z.mod_pos_bound; lia).
  assert (0 <= ms mod 1000 < 1000) by (apply Z.mod_pos_bound; lia).
  unfold parse_iso.
  repeat (rewrite num_pad_small by (simpl; lia); cbn [mbind option_bind];
          rewrite ?append_cons, ?append_nil_l, lit_cons; cbn [mbind option_bind]).
  match goal with |- (if ?b then _ else _) = _ => replace b with true end.
  - f_equal. rewrite !Z.mul_0_l, !Z.add_0_l, Hr. clearbody ms.
    unfold ms_per_day in *. Z.div_mod_to_equations. lia.
  - symmetry. unfold in_range. rewrite !Z.mul_0_l, !Z.add_0_l.
    repeat (apply andb_true_intro; split); try (apply Z.leb_le; lia).
    apply orb_true_intro. left. apply andb_true_intro. split; apply Z.leb_le; lia.
Qed.

(** What the implementation accepts beyond the format above. *)
Class JsDate := { other_parse : string -> option Z }.

(** [Date.parse]: milliseconds, or [None] for NaN. *)
Definition date_parse `{JsDate} (s : string) : option Z :=
  match parse_iso s with Some t => Some t | None => other_parse s end.

Lemma date_parse_to_iso `{JsDate} t :
  four_digit_year t -> date_parse (to_iso t) = Some t.
Proof. intros Ht. unfold date_parse. by rewrite parse_to_iso. Qed.

(** ** JSON values *)

Inductive json :=
| JNull
| JBool (b : bool)
| JNum (z : Z)
| JFrac (literal : string)
| JStr (s : string)
| JArr (l : list json)
| JObj (fields : list (string * json)).

Fixpoint assoc {A} (k : string) (l : list (string * A)) : option A :=
  match l with
  | [] => None
  | (k', v) :: l' => if String.eqb k k' then Some v else assoc k l'
  end.

(** [v.k] of a parsed value; [None] is [undefined]. *)
Definition jget (k : string) (v : json) : option json :=
  match v with JObj fields => assoc k fields | _ => None end.

Definition jstr (v : option json) : option string :=
  match v with Some (JStr s) => Some s | _ => None end.

Definition jint (v : option json) : option Z :=
  match v with Some (JNum z) => Some z | _ => None end.
