(* ===== verification/Assoc.v ===== *)
(** * Objects used as maps

    A JS object, or a [Map], as the list of its members in the order of their
    insertion: writing, deleting and reading a key.  Decidable equality of JSON
    values. *)

From S2P Require Import Prelude JsDate.

(** [o[k] = v] and [delete o[k]] *)
Fixpoint put {A} (k : string) (v : A) (l : list (string * A)) : list (string * A) :=
  match l with
  | [] => [(k, v)]
  | (k', v') :: rest => if String.eqb k k' then (k, v) :: rest else (k', v') :: put k v rest
  end.

Definition drop_key {A} (k : string) (l : list (string * A)) : list (string * A) :=
  List.filter (fun kv => negb (String.eqb k (fst kv))) l.

#[export] Instance json_eq_dec : EqDecision json.
Proof.
  refine (fix go (x y : json) {struct x} : Decision (x = y) :=
    match x, y with
    | JNull, JNull => left _
    | JBool a, JBool b => cast_if (decide (a = b))
    | JNum a, JNum b => cast_if (decide (a = b))
    | JFrac a, JFrac b => cast_if (decide (a = b))
    | JStr a, JStr b => cast_if (decide (a = b))
    | JArr a, JArr b => cast_if (@list_eq_dec json go a b)
    | JObj a, JObj b => cast_if (@list_eq_dec (string * json) (@prod_eq_dec string _ json go) a b)
    | _, _ => right _
    end); congruence.
Defined.

Section Assoc.
Context {A : Type}.
Implicit Types (l : list (string * A)) (k : string).

Lemma assoc_app k l1 l2 : assoc k (l1 ++ l2) = match assoc k l1 with Some v => Some v | None => assoc k l2 end.
Proof. induction l1 as [|[k' v] l1 IH]; cbn; [done|]. by destruct (String.eqb k k'). Qed.

Lemma assoc_in k v l : assoc k l = Some v -> (k, v) ∈ l.
Proof.
  induction l as [|[k' v'] l IH]; cbn; [done|]. destruct (String.eqb_spec k k') as [->|]; [intros [= ->]; left|].
  intros H. right. auto.
Qed.

Lemma assoc_none k l : assoc k l = None <-> k ∉ map fst l.
Proof.
  induction l as [|[k' v] l IH]; cbn; [split; [intros _ []%elem_of_nil|done]|].
  destruct (String.eqb_spec k k') as [->|Hne]; [split; [done|set_solver]|]. rewrite IH. set_solver.
Qed.

Lemma in_assoc k v l : NoDup (map fst l) -> (k, v) ∈ l -> assoc k l = Some v.
Proof.
  induction l as [|[k' v'] l IH]; cbn; [intros _ []%elem_of_nil|]. intros [Hk Hn]%NoDup_cons [[= -> ->]|Hin]%elem_of_cons.
  - by rewrite String.eqb_refl.
  - destruct (String.eqb_spec k k') as [->|]; [|auto]. destruct Hk. apply list_elem_of_fmap. by exists (k', v).
Qed.

Lemma assoc_put k k' v l : assoc k (put k' v l) = if String.eqb k k' then Some v else assoc k l.
Proof.
  induction l as [|[k1 v1] l IH]; cbn; [done|]. destruct (String.eqb_spec k' k1) as [->|Hne]; cbn.
  - by destruct (String.eqb k k1).
  - rewrite IH. destruct (String.eqb_spec k k1) as [->|]; [|done]. by destruct (String.eqb_spec k1 k') as [->|].
Qed.

Lemma keys_put k k' v l : k ∈ map fst (put k' v l) <-> k = k' \/ k ∈ map fst l.
Proof.
  induction l as [|[k1 v1] l IH]; cbn; [set_solver|]. destruct (String.eqb_spec k' k1) as [->|Hne]; cbn; set_solver.
Qed.

Lemma put_nodup k v l : NoDup (map fst l) -> NoDup (map fst (put k v l)).
Proof.
  induction l as [|[k1 v1] l IH]; cbn; [intros _; apply NoDup_singleton|]. intros [Hk Hn]%NoDup_cons.
  destruct (String.eqb_spec k k1) as [->|Hne]; cbn; apply NoDup_cons; [done|]. split; [rewrite keys_put; set_solver|auto].
Qed.

Lemma in_put k v k' v' l : NoDup (map fst l) -> (k, v) ∈ put k' v' l <-> (k = k' /\ v = v') \/ (k <> k' /\ (k, v) ∈ l).
Proof.
  intros Hn. assert (Hn' := put_nodup k' v' l Hn). split.
  - intros Hin%in_assoc; [|done]. rewrite assoc_put in Hin. destruct (String.eqb_spec k k') as [->|]; [left; by injection Hin|].
    right. split; [done|]. by apply assoc_in.
  - intros Hc. apply assoc_in. rewrite assoc_put. destruct Hc as [[-> ->]|[Hne Hin]]; [by rewrite String.eqb_refl|].
    destruct (String.eqb_spec k k'); [done|]. by apply in_assoc.
Qed.

Lemma Forall_put (P : string * A -> Prop) k v l : P (k, v) -> Forall P l -> Forall P (put k v l).
Proof.
  intros Hk Hl. induction Hl as [|[k1 v1] l H1 Hl IH]; cbn; [by constructor|]. by destruct (String.eqb k k1); constructor.
Qed.

Lemma member_filter {B} (f : B -> bool) x (m : list B) : x ∈ List.filter f m <-> x ∈ m /\ f x = true.
Proof. by rewrite !list_elem_of_In, List.filter_In. Qed.

Lemma in_drop k v k' l : (k, v) ∈ drop_key k' l <-> k <> k' /\ (k, v) ∈ l.
Proof.
  unfold drop_key. rewrite member_filter. cbn.
  destruct (String.eqb_spec k' k); naive_solver.
Qed.

Lemma assoc_drop k k' l : assoc k (drop_key k' l) = if String.eqb k k' then None else assoc k l.
Proof.
  unfold drop_key. induction l as [|[k1 v1] l IH]; cbn; [by destruct (String.eqb k k')|].
  destruct (String.eqb_spec k' k1) as [->|Hne]; cbn.
  - rewrite IH. by destruct (String.eqb_spec k k1).
  - rewrite IH. destruct (String.eqb_spec k k1) as [->|]; [|done]. by destruct (String.eqb_spec k1 k') as [->|].
Qed.

Lemma Forall_filter (P : string * A -> Prop) f l : Forall P l -> Forall P (List.filter f l).
Proof. rewrite !Forall_forall. intros H x [Hx _]%member_filter. auto. Qed.

Lemma filter_keys_nodup (f : string * A -> bool) l : NoDup (map fst l) -> NoDup (map fst (List.filter f l)).
Proof.
  induction l as [|[k v] l IH]; cbn; [done|]. intros [Hk Hn]%NoDup_cons. destruct (f (k, v)); cbn; [|auto].
  apply NoDup_cons. split; [|auto]. intros ([k' v'] & -> & Hin)%list_elem_of_fmap. apply Hk.
  apply member_filter in Hin as [Hin _]. apply list_elem_of_fmap. by exists (k', v').
Qed.

Lemma filter_filter (f h : string * A -> bool) l : List.filter f (List.filter h l) = List.filter (fun x => h x && f x) l.
Proof. induction l as [|x l IH]; cbn; [done|]. destruct (h x); cbn; [|done]. by rewrite IH. Qed.

Lemma filter_ext_in (f h : string * A -> bool) l : (forall x, x ∈ l -> f x = h x) -> List.filter f l = List.filter h l.
Proof.
  induction l as [|x l IH]; cbn; intros Hfh; [done|]. rewrite (Hfh x) by left. rewrite IH; [done|]. intros y Hy. apply Hfh. by right.
Qed.

(** Dropping several keys. *)
Lemma drop_keys (keys : list string) l :
  foldl (fun st k => drop_key k st) l keys = List.filter (fun kv => negb (bool_decide (fst kv ∈ keys))) l.
Proof.
  revert l. induction keys as [|k keys IH]; intros l; cbn.
  - induction l as [|x l IHl]; cbn; [done|]. by rewrite <-IHl.
  - rewrite IH. unfold drop_key. rewrite filter_filter. apply filter_ext_in. intros [k' v] _. cbn.
    destruct (String.eqb_spec k k') as [->|Hne]; cbn.
    + by rewrite bool_decide_eq_true_2 by left.
    + f_equal. apply bool_decide_ext. set_solver.
Qed.
End Assoc.

(** Writing several members. *)
Lemma foldl_put_keys {A} (l m : list (string * A)) k :
  k ∈ map fst (foldl (fun m kv => put (fst kv) (snd kv) m) m l) <-> k ∈ map fst m \/ k ∈ map fst l.
Proof.
  revert m. induction l as [|[k1 v] l IH]; intros m; cbn; [set_solver|]. rewrite IH, keys_put. set_solver.
Qed.

Lemma foldl_put_Forall {A} (P : string * A -> Prop) l m :
  Forall P l -> Forall P m -> Forall P (foldl (fun m kv => put (fst kv) (snd kv) m) m l).
Proof. intros Hl. revert m. induction Hl as [|[k v] l Hk _ IH]; intros m Hm; cbn; [done|]. apply IH. by apply Forall_put. Qed.
