(* ===== verification/NodeLib.v ===== *)
(** * What the program uses of Node's library

    [path.posix]: the normal form of a path, [resolve], [join] and [dirname]; a
    path is a string of segments between slashes.  The base64url form of bytes. *)

From S2P Require Import Prelude.

Open Scope Z_scope.

(** ** Paths *)

Definition slash : ascii := ascii_of_nat 47.

(** The segments between slashes. *)
Fixpoint segments (s : string) : list string :=
  match s with
  | EmptyString => [EmptyString]
  | String c s' =>
      if Ascii.eqb c slash then EmptyString :: segments s'
      else match segments s' with
           | seg :: rest => String c seg :: rest
           | [] => [String c EmptyString]
           end
  end.

Definition real_segment (s : string) : bool :=
  negb (String.eqb s "" || String.eqb s "." || String.eqb s "..").

Definition isAbsolute (p : string) : bool := starts_with "/" p.

(** [isAbsolute(p) && resolve(p) === p] *)
Definition resolved_path (p : string) : bool :=
  match segments p with
  | first :: rest => String.eqb first "" && (String.eqb p "/" || (negb (bool_decide (rest = [])) && forallb real_segment rest))
  | [] => false
  end.

(** [dirname(p)] of a resolved path *)
Definition dirname (p : string) : string :=
  let parent := join "/" (removelast (segments p)) in
  if String.eqb parent "" then "/" else parent.

(** One segment of a path, on the segments before it, the last first; [above]:
    the path may lead out of where it starts. *)
Definition push_segment (above : bool) (before : list string) (seg : string) : list string :=
  if String.eqb seg "" || String.eqb seg "." then before
  else if String.eqb seg ".." then
    match before with
    | top :: rest => if String.eqb top ".." then (if above then ".." :: before else before) else rest
    | [] => if above then [".."] else []
    end
  else seg :: before.

Definition normal_segments (above : bool) (p : string) : list string :=
  rev (foldl (push_segment above) [] (segments p)).

(** [path.resolve(p)] in the absolute directory [cwd] *)
Definition path_resolve (cwd p : string) : string :=
  "/" +:+ join "/" (normal_segments false (if isAbsolute p then p else cwd +:+ "/" +:+ p)).

Definition ends_with_slash (p : string) : bool :=
  match last (segments p) with Some "" => negb (String.eqb p "") | _ => false end.

(** [path.normalize(p)] *)
Definition path_normalize (p : string) : string :=
  if String.eqb p "" then "."
  else
    let body := join "/" (normal_segments (negb (isAbsolute p)) p) in
    let tail := if ends_with_slash p then "/" else "" in
    if isAbsolute p then "/" +:+ body +:+ (if String.eqb body "" then "" else tail)
    else if String.eqb body "" then "." +:+ tail
    else body +:+ tail.

(** [path.join(...parts)] *)
Definition path_join (parts : list string) : string :=
  path_normalize (join "/" (List.filter (fun s => negb (String.eqb s "")) parts)).

(** ** Segments and their joins *)

Definition no_slash (s : string) : bool := string_forallb (fun c => negb (Ascii.eqb c slash)) s.

Lemma segments_cons c s : segments (String c s) =
  if Ascii.eqb c slash then "" :: segments s
  else match segments s with seg :: rest => String c seg :: rest | [] => [String c ""] end.
Proof. done. Qed.

Lemma no_slash_cons c s : no_slash (String c s) = negb (Ascii.eqb c slash) && no_slash s.
Proof. done. Qed.

Lemma segments_no_slash s : no_slash s = true -> segments s = [s].
Proof.
  induction s as [|c s IH]; [done|]. rewrite no_slash_cons, segments_cons. intros [Hc%negb_true_iff Hs]%andb_true_iff.
  by rewrite Hc, (IH Hs).
Qed.

Lemma segments_app_slash a b : no_slash a = true -> segments (a +:+ "/" +:+ b) = a :: segments b.
Proof.
  induction a as [|c a IH]; [done|]. rewrite no_slash_cons, append_cons, segments_cons.
  intros [Hc%negb_true_iff Ha]%andb_true_iff. by rewrite Hc, (IH Ha).
Qed.

Lemma segments_nonempty s : segments s <> [].
Proof. destruct s as [|c s]; [done|]. rewrite segments_cons. by destruct (Ascii.eqb c slash), (segments s). Qed.

Lemma segments_all_no_slash s : Forall (fun x => no_slash x = true) (segments s).
Proof.
  induction s as [|c s IH]; [by repeat constructor|]. rewrite segments_cons. destruct (Ascii.eqb c slash) eqn:Hc; [by constructor|].
  destruct IH as [|seg rest Hseg Hrest]; constructor; rewrite ?no_slash_cons, ?Hc, ?Hseg; done.
Qed.

Lemma segments_join l : l <> [] -> Forall (fun x => no_slash x = true) l -> segments (join "/" l) = l.
Proof.
  intros Hl Hn. induction Hn as [|x l Hx Hn IH]; [done|]. destruct l as [|y l]; [by apply segments_no_slash|].
  cbn [join]. rewrite segments_app_slash by done. f_equal. by apply IH.
Qed.

Lemma join_segments s : join "/" (segments s) = s.
Proof.
  induction s as [|c s IH]; [done|]. rewrite segments_cons. destruct (Ascii.eqb_spec c slash) as [->|Hc].
  - destruct (segments s) as [|x l] eqn:E; [by apply segments_nonempty in E|]. by rewrite <- IH.
  - destruct (segments s) as [|x l] eqn:E; [by apply segments_nonempty in E|]. rewrite <- IH. by destruct l.
Qed.

(** ** The normal form *)

Definition normal (x : string) : Prop := real_segment x = true /\ no_slash x = true.

Lemma push_normal before seg : Forall normal before -> no_slash seg = true -> Forall normal (push_segment false before seg).
Proof.
  intros Hb Hs. unfold push_segment. destruct (String.eqb seg "" || String.eqb seg ".") eqn:E1; [done|].
  destruct (String.eqb seg "..") eqn:E2.
  - destruct Hb as [|top rest Ht Hb]; [constructor|]. destruct (String.eqb top ".."); [by constructor|done].
  - constructor; [|done]. split; [|done]. unfold real_segment. by rewrite E1, E2.
Qed.

Lemma foldl_push_normal l before : Forall normal before -> Forall (fun x => no_slash x = true) l ->
  Forall normal (foldl (push_segment false) before l).
Proof. intros Hb Hl. revert before Hb. induction Hl as [|x l Hx _ IH]; intros before Hb; [done|]. cbn. by apply IH, push_normal. Qed.

Lemma normal_segments_normal p : Forall normal (normal_segments false p).
Proof. apply Forall_rev, foldl_push_normal; [done|apply segments_all_no_slash]. Qed.

Lemma push_real above before seg : real_segment seg = true -> push_segment above before seg = seg :: before.
Proof.
  unfold real_segment, push_segment. intros H%negb_true_iff. apply orb_false_iff in H as [-> ->]. done.
Qed.

Lemma foldl_push_real above l before : Forall normal l -> foldl (push_segment above) before l = rev l ++ before.
Proof.
  intros Hl. revert before. induction Hl as [|x l [Hx _] _ IH]; intros before; [done|]. cbn. rewrite push_real, IH by done.
  by rewrite <- app_assoc.
Qed.

(** The segments of an absolute path made of [l]. *)
Lemma normal_segments_join above l : Forall normal l -> normal_segments above ("/" +:+ join "/" l) = l.
Proof.
  intros Hl. unfold normal_segments. change ("/" +:+ join "/" l) with ("" +:+ "/" +:+ join "/" l).
  rewrite segments_app_slash by done. cbn [foldl].
  destruct l as [|x l]; [done|]. rewrite segments_join; [|done|].
  - change (push_segment above [] "") with (@nil string). rewrite foldl_push_real, app_nil_r by done. apply rev_involutive.
  - eapply Forall_impl; [exact Hl|]. by intros ? [].
Qed.

Lemma prefix_nil s : String.prefix "" s = true.
Proof. by destruct s. Qed.

Lemma resolve_normal cwd p : exists l, Forall normal l /\ path_resolve cwd p = "/" +:+ join "/" l.
Proof. eexists. split; [apply normal_segments_normal|done]. Qed.

Lemma resolve_absolute_normal cwd l : Forall normal l -> path_resolve cwd ("/" +:+ join "/" l) = "/" +:+ join "/" l.
Proof. intros Hl. unfold path_resolve. change (isAbsolute ("/" +:+ join "/" l)) with (starts_with "" (join "/" l)). unfold starts_with. rewrite prefix_nil. by rewrite normal_segments_join. Qed.

(** Resolving twice is resolving once, in whatever directory. *)
Lemma path_resolve_idempotent cwd cwd' p : path_resolve cwd' (path_resolve cwd p) = path_resolve cwd p.
Proof. destruct (resolve_normal cwd p) as (l & Hl & ->). by apply resolve_absolute_normal. Qed.

Lemma resolved_resolve cwd p : resolved_path (path_resolve cwd p) = true.
Proof.
  destruct (resolve_normal cwd p) as (l & Hl & ->). unfold resolved_path.
  change (segments ("/" +:+ join "/" l)) with (segments ("" +:+ "/" +:+ join "/" l)). rewrite segments_app_slash by done.
  change (String.eqb "" "") with true. destruct l as [|x l]; [done|]. rewrite segments_join; [|done|by eapply Forall_impl; [exact Hl|intros ? []]].
  rewrite bool_decide_eq_false_2 by done. cbn [negb andb]. apply orb_true_intro. right. apply forallb_forall.
  intros y Hy%list_elem_of_In. by eapply Forall_forall in Hl as [? _].
Qed.

(** An absolute path in normal form. *)
Definition path_of (l : list string) : string := "/" +:+ join "/" l.

Lemma join_snoc l x : l <> [] -> join "/" (l ++ [x]) = join "/" l +:+ "/" +:+ x.
Proof.
  induction l as [|y l IH]; [done|]. intros _. destruct l as [|z l]; [done|].
  change (join "/" ((y :: z :: l) ++ [x])) with (y +:+ "/" +:+ join "/" ((z :: l) ++ [x])).
  change (join "/" (y :: z :: l)) with (y +:+ "/" +:+ join "/" (z :: l)). rewrite IH by done. by rewrite !append_assoc.
Qed.

Lemma join_more l parts : l <> [] -> join "/" (path_of l :: parts) = path_of (l ++ parts).
Proof.
  revert l. induction parts as [|x parts IH]; intros l Hl; [by rewrite app_nil_r|].
  change (l ++ x :: parts) with (l ++ [x] ++ parts). rewrite app_assoc, <-IH by (by intros []%app_eq_nil).
  unfold path_of. rewrite join_snoc by done. destruct parts as [|y parts]; cbn [join]; by rewrite <-?append_assoc.
Qed.

Lemma last_normal l : Forall normal l -> l <> [] -> exists x, last l = Some x /\ x <> "".
Proof.
  intros Hl Hne. destruct (last l) as [x|] eqn:El; [|by apply last_None in El]. exists x. split; [done|].
  apply last_Some in El as [l' ->]. apply Forall_app in Hl as [_ Hx]. apply Forall_singleton in Hx as [Hx _]. by intros ->.
Qed.

(** Joining names to a directory. *)
Lemma path_join_normal l parts : Forall normal l -> l <> [] -> Forall normal parts -> path_join (path_of l :: parts) = path_of (l ++ parts).
Proof.
  intros Hl Hne Hp. unfold path_join. replace (List.filter _ (path_of l :: parts)) with (path_of l :: parts).
  - rewrite join_more by done. assert (Ha : Forall normal (l ++ parts)) by by apply Forall_app.
    assert (Hn : l ++ parts <> []) by by intros []%app_eq_nil. revert Ha Hn. generalize (l ++ parts). clear. intros l Hl Hne.
    unfold path_normalize, path_of. change (isAbsolute ("/" +:+ join "/" l)) with (starts_with "" (join "/" l)).
    unfold starts_with. rewrite prefix_nil. cbn [negb]. rewrite normal_segments_join by done.
    replace (ends_with_slash ("/" +:+ join "/" l)) with false; [cbn; by destruct (String.eqb (join "/" l) ""); rewrite append_nil_r|].
    unfold ends_with_slash. change ("/" +:+ join "/" l) with ("" +:+ "/" +:+ join "/" l). rewrite segments_app_slash by done.
    rewrite segments_join; [|done|eapply Forall_impl; [exact Hl|by intros ? []]].
    destruct (last_normal l Hl Hne) as (x & Hx & Hxe). destruct l as [|y l]; [done|]. change (last ("" :: y :: l)) with (last (y :: l)).
    rewrite Hx. by destruct x.
  - cbn. f_equal. induction Hp as [|x parts [Hx _] _ IH]; [done|]. cbn. destruct x; [done|]. cbn. by rewrite <-IH.
Qed.

Lemma hex_normal s : string_forallb is_lower_hex s = true -> s <> "" -> normal s.
Proof.
  intros Hs Hne. split.
  - unfold real_segment. destruct s as [|c s]; [done|]. cbn in Hs. apply andb_true_iff in Hs as [Hc _].
    destruct (String.eqb_spec (String c s) ".") as [[= -> ->]|_]; [done|]. destruct (String.eqb_spec (String c s) "..") as [[= -> ->]|_]; done.
  - clear Hne. unfold no_slash. induction s as [|c s IH]; [done|]. cbn in *. apply andb_true_iff in Hs as [Hc Hs]. rewrite IH by done.
    destruct (Ascii.eqb_spec c slash) as [->|]; done.
Qed.

(** ** Base64url

    [Buffer.from(s).toString('base64url')] on bytes, and the inverse on what it
    gives. *)

Definition base64url_value (c : ascii) : option Z :=
  let n := Z.of_nat (nat_of_ascii c) in
  if (65 <=? n) && (n <=? 90) then Some (n - 65)
  else if (97 <=? n) && (n <=? 122) then Some (n - 71)
  else if (48 <=? n) && (n <=? 57) then Some (n + 4)
  else if n =? 45 then Some 62
  else if n =? 95 then Some 63
  else None.

Definition base64url_digit (n : Z) : ascii :=
  ascii_of_nat (Z.to_nat (if n <? 26 then n + 65 else if n <? 52 then n + 71 else if n <? 62 then n - 4 else if n =? 62 then 45 else 95)).

Definition byte_of (c : ascii) : Z := Z.of_nat (nat_of_ascii c).
Definition of_byte (n : Z) : ascii := ascii_of_nat (Z.to_nat n).

(** Three bytes are four digits; one or two at the end are two or three. *)
Fixpoint base64url (s : string) : string :=
  match s with
  | EmptyString => ""
  | String a EmptyString => let v := byte_of a * 16 in
      String (base64url_digit (v / 64)) (String (base64url_digit (v mod 64)) "")
  | String a (String b EmptyString) => let v := byte_of a * 1024 + byte_of b * 4 in
      String (base64url_digit (v / 4096)) (String (base64url_digit (v / 64 mod 64)) (String (base64url_digit (v mod 64)) ""))
  | String a (String b (String c rest)) => let v := byte_of a * 65536 + byte_of b * 256 + byte_of c in
      String (base64url_digit (v / 262144)) (String (base64url_digit (v / 4096 mod 64))
        (String (base64url_digit (v / 64 mod 64)) (String (base64url_digit (v mod 64)) (base64url rest))))
  end.

Fixpoint base64url_bytes (s : string) : option string :=
  match s with
  | EmptyString => Some ""
  | String _ EmptyString => None
  | String p (String q EmptyString) =>
      x ← base64url_value p; y ← base64url_value q;
      Some (String (of_byte ((x * 64 + y) / 16)) "")
  | String p (String q (String r EmptyString)) =>
      x ← base64url_value p; y ← base64url_value q; z ← base64url_value r;
      let v := x * 4096 + y * 64 + z in
      Some (String (of_byte (v / 1024)) (String (of_byte (v / 4 mod 256)) ""))
  | String p (String q (String r (String t rest))) =>
      x ← base64url_value p; y ← base64url_value q; z ← base64url_value r; u ← base64url_value t;
      let v := x * 262144 + y * 4096 + z * 64 + u in
      tail ← base64url_bytes rest;
      Some (String (of_byte (v / 65536)) (String (of_byte (v / 256 mod 256)) (String (of_byte (v mod 256)) tail)))
  end.

Lemma base64url_value_digit n : 0 <= n < 64 -> base64url_value (base64url_digit n) = Some n.
Proof.
  intros Hn. assert (H : forallb (fun k => bool_decide (base64url_value (base64url_digit (Z.of_nat k)) = Some (Z.of_nat k))) (seq 0 64) = true)
    by (vm_compute; reflexivity).
  rewrite forallb_forall in H. specialize (H (Z.to_nat n)). rewrite in_seq, Z2Nat.id in H by lia.
  by apply bool_decide_eq_true in H; [|lia].
Qed.

Lemma byte_bound c : 0 <= byte_of c < 256.
Proof. unfold byte_of. pose proof (nat_ascii_bounded c). lia. Qed.

Lemma of_byte_of c n : n = byte_of c -> of_byte n = c.
Proof. intros ->. unfold of_byte, byte_of. by rewrite Nat2Z.id, ascii_nat_embedding. Qed.

Lemma base64url_three a b c rest : base64url (String a (String b (String c rest))) =
  let v := byte_of a * 65536 + byte_of b * 256 + byte_of c in
  String (base64url_digit (v / 262144)) (String (base64url_digit (v / 4096 mod 64))
    (String (base64url_digit (v / 64 mod 64)) (String (base64url_digit (v mod 64)) (base64url rest)))).
Proof. done. Qed.

Lemma base64url_bytes_four p q r t rest : base64url_bytes (String p (String q (String r (String t rest)))) =
  (x ← base64url_value p; y ← base64url_value q; z ← base64url_value r; u ← base64url_value t;
   let v := x * 262144 + y * 4096 + z * 64 + u in
   tail ← base64url_bytes rest;
   Some (String (of_byte (v / 65536)) (String (of_byte (v / 256 mod 256)) (String (of_byte (v mod 256)) tail)))).
Proof. done. Qed.

Lemma base64url_round_trip n : forall s, (String.length s <= n)%nat -> base64url_bytes (base64url s) = Some s.
Proof.
  induction n as [|n IH]; intros s Hs; [by destruct s; cbn in Hs; [|lia]|].
  destruct s as [|a [|b [|c rest]]]; [done|..].
  - pose proof (byte_bound a). cbn [base64url base64url_bytes]. cbv zeta.
    rewrite !base64url_value_digit by (Z.to_euclidean_division_equations; lia). cbn [mbind option_bind].
    rewrite (of_byte_of a); [done|]. Z.to_euclidean_division_equations; lia.
  - pose proof (byte_bound a). pose proof (byte_bound b). cbn [base64url base64url_bytes]. cbv zeta.
    rewrite !base64url_value_digit by (Z.to_euclidean_division_equations; lia). cbn [mbind option_bind].
    rewrite (of_byte_of a), (of_byte_of b); [done|Z.to_euclidean_division_equations; lia..].
  - pose proof (byte_bound a). pose proof (byte_bound b). pose proof (byte_bound c). rewrite base64url_three. cbv zeta.
    rewrite base64url_bytes_four. rewrite !base64url_value_digit by (Z.to_euclidean_division_equations; lia). cbn [mbind option_bind].
    cbv zeta. rewrite IH by (cbn in Hs; lia). cbn [mbind option_bind].
    rewrite (of_byte_of a), (of_byte_of b), (of_byte_of c); [done|Z.to_euclidean_division_equations; lia..].
Qed.
