(* ===== verification/Effects.v ===== *)
(** * Effectful programs

    The asynchronous functions of the client are programs over atomic
    operations of the operating system.  [prog E A] is the type of such a
    program: it returns, throws, or performs one operation of the family [E]
    and continues with the answer.  One definition of a function serves two
    semantics: [run], where nothing else happens in between, and [step], where
    the operations of several processes interleave. *)

From S2P Require Import Prelude.

(** What a [throw] carries: a Node error with a [code], an [Error] with a
    message, or an instance of one of the program's error classes with its
    [code], [status], [message] and [details]. *)
Inductive js_error :=
| Errno (code : string)
| JsError (message : string)
| ErrorOf (cls : string) (code : option string) (status : option Z) (message : string)
    (details : list (string * (string + Z))).

#[export] Instance js_error_eq_dec : EqDecision js_error.
Proof. solve_decision. Defined.

(** [error?.code === c] *)
Definition has_code (c : string) (e : js_error) : bool :=
  match e with
  | Errno d | ErrorOf _ (Some d) _ _ _ => String.eqb c d
  | _ => false
  end.

(** [e instanceof C] for a class no other class of the program extends *)
Definition instance_of (c : string) (e : js_error) : bool :=
  match e with ErrorOf c' _ _ _ _ => String.eqb c c' | _ => false end.

(** [error.message] *)
Definition message_of (e : js_error) : string :=
  match e with Errno c => c | JsError m | ErrorOf _ _ _ m _ => m end.

(** [error.status] *)
Definition status_of (e : js_error) : option Z :=
  match e with ErrorOf _ _ st _ _ => st | _ => None end.

Inductive prog (E : Type -> Type) (A : Type) : Type :=
| Ret (a : A)
| Throw (e : js_error)
| Vis {X : Type} (op : E X) (k : X -> prog E A).

Arguments Ret {E A} a.
Arguments Throw {E A} e.
Arguments Vis {E A X} op k.

Section Prog.
Context {E : Type -> Type}.

Fixpoint pbind {A B} (p : prog E A) (f : A -> prog E B) : prog E B :=
  match p with
  | Ret a => f a
  | Throw e => Throw e
  | Vis op k => Vis op (fun x => pbind (k x) f)
  end.

(** [try p catch (e) { h e }] *)
Fixpoint pcatch {A} (p : prog E A) (h : js_error -> prog E A) : prog E A :=
  match p with
  | Ret a => Ret a
  | Throw e => h e
  | Vis op k => Vis op (fun x => pcatch (k x) h)
  end.

(** One operation whose answer may be an error, which is thrown. *)
Definition perform {X} (op : E (js_error + X)) : prog E X :=
  Vis op (fun r => match r with inl e => Throw e | inr x => Ret x end).

(** The outcome of [p] as a value: what [try]/[catch] without a rethrow and
    [.catch(() => ...)] inspect. *)
Definition attempt {A} (p : prog E A) : prog E (js_error + A) :=
  pcatch (pbind p (fun a => Ret (inr a))) (fun e => Ret (inl e)).

(** [try { p } finally { q }] *)
Definition pfinally {A} (p : prog E A) (q : prog E unit) : prog E A :=
  pbind (attempt p) (fun r =>
    pbind q (fun _ => match r with inl e => Throw e | inr a => Ret a end)).

(** One operation that cannot fail. *)
Definition ask {X} (op : E X) : prog E X := Vis op Ret.
End Prog.

Declare Scope prog_scope.
Delimit Scope prog_scope with prog.
Notation "'let!' x ':=' p 'in' q" := (pbind p (fun x => q))
  (at level 10, x pattern, p at level 100, q at level 200) : prog_scope.
Notation "'do!' p ';' q" := (pbind p (fun _ => q))
  (at level 10, p at level 100, q at level 200) : prog_scope.

(** ** Running a program alone *)

(** The result of a finished call. *)
Inductive outcome (A : Type) :=
| Done (a : A)
| Failed (e : js_error).
Arguments Done {A} a.
Arguments Failed {A} e.

Section Run.
Context {E : Type -> Type} {W : Type}.
Variable handle : forall X, E X -> W -> X * W.

Fixpoint run {A} (p : prog E A) (w : W) : outcome A * W :=
  match p with
  | Ret a => (Done a, w)
  | Throw e => (Failed e, w)
  | Vis op k => let (x, w') := handle _ op w in run (k x) w'
  end.

Lemma run_bind {A B} (p : prog E A) (f : A -> prog E B) w :
  run (pbind p f) w =
  match run p w with
  | (Done a, w') => run (f a) w'
  | (Failed e, w') => (Failed e, w')
  end.
Proof.
  revert w. induction p as [a|e|X op k IH]; intros w; simpl; [done..|].
  destruct (handle X op w) as [x w']. apply IH.
Qed.

Lemma run_catch {A} (p : prog E A) h w :
  run (pcatch p h) w =
  match run p w with
  | (Done a, w') => (Done a, w')
  | (Failed e, w') => run (h e) w'
  end.
Proof.
  revert w. induction p as [a|e|X op k IH]; intros w; simpl; [done..|].
  destruct (handle X op w) as [x w']. apply IH.
Qed.

Lemma run_perform {X} (op : E (js_error + X)) w :
  run (perform op) w =
  match handle _ op w with
  | (inl e, w') => (Failed e, w')
  | (inr x, w') => (Done x, w')
  end.
Proof. unfold perform. simpl. by destruct (handle _ op w) as [[e|x] w']. Qed.

Lemma run_attempt {A} (p : prog E A) w :
  run (attempt p) w =
  match run p w with
  | (Done a, w') => (Done (inr a), w')
  | (Failed e, w') => (Done (inl e), w')
  end.
Proof.
  unfold attempt. rewrite run_catch, run_bind.
  by destruct (run p w) as [[a|e] w'].
Qed.

Lemma run_ask {X} (op : E X) w :
  run (ask op) w = (let (x, w') := handle _ op w in (Done x, w')).
Proof. unfold ask. simpl. by destruct (handle _ op w). Qed.
End Run.

(** ** Interleaving several programs

    A pool maps a process id to the program it still has to run; one step lets
    one process perform its next operation atomically. *)
Section Pool.
Context {E : Type -> Type} {W A : Type}.
Variable handle : forall X, E X -> W -> X * W.

(** The next operation of one program. *)
Definition pstep (p : prog E A) (w : W) : option (prog E A * W) :=
  match p with
  | Vis op k => let (x, w') := handle _ op w in Some (k x, w')
  | _ => None
  end.

Inductive pool_step : list (prog E A) * W -> list (prog E A) * W -> Prop :=
| pool_step_at (ps : list (prog E A)) i p p' w w' :
    ps !! i = Some p -> pstep p w = Some (p', w') ->
    pool_step (ps, w) (<[i := p']> ps, w').

Definition finished (p : prog E A) : bool :=
  match p with Vis _ _ => false | _ => true end.

(** A process run alone from some state of the pool reaches its result by
    steps of the pool: [run] is one of the interleavings. *)
Lemma run_is_steps (p : prog E A) ps i w r w' :
  ps !! i = Some p ->
  run handle p w = (r, w') ->
  exists p', rtc pool_step (ps, w) (<[i := p']> ps, w') /\
    match r with Done a => p' = Ret a | Failed e => p' = Throw e end.
Proof.
  revert ps w. induction p as [a|e|X op k IH]; intros ps w Hi Hrun; simpl in Hrun.
  - simplify_eq. exists (Ret a). rewrite list_insert_id by done. split; [apply rtc_refl|done].
  - simplify_eq. exists (Throw e). rewrite list_insert_id by done. split; [apply rtc_refl|done].
  - destruct (handle X op w) as [x w1] eqn:Hh.
    assert (Hlt : i < length ps) by (by eapply lookup_lt_Some).
    destruct (IH x (<[i := k x]> ps) w1) as (p' & Hsteps & Hr);
      [by rewrite list_lookup_insert_eq|done|].
    rewrite list_insert_insert_eq in Hsteps.
    exists p'. split; [|done].
    eapply rtc_l; [|exact Hsteps]. apply pool_step_at with (p := Vis op k); [done|].
    simpl. by rewrite Hh.
Qed.
End Pool.

(** ** Operations whose answer is not determined

    [act op w x w'] says that performing [op] in [w] may answer [x] and leave
    [w']: a remote server, a lost reply, another process's write. *)
Section Nondeterminism.
Context {E : Type -> Type} {W : Type}.
Variable act : forall X, E X -> W -> X -> W -> Prop.

Inductive may_run {A} : prog E A -> W -> outcome A -> W -> Prop :=
| may_ret a w : may_run (Ret a) w (Done a) w
| may_throw e w : may_run (Throw e) w (Failed e) w
| may_vis X (op : E X) k w x w' r w'' :
    act X op w x w' -> may_run (k x) w' r w'' -> may_run (Vis op k) w r w''.

(** [nrun p w r w']: [may_run] with the equations of the three forms. *)
Fixpoint nrun {A} (p : prog E A) (w : W) (r : outcome A) (w' : W) : Prop :=
  match p with
  | Ret a => r = Done a /\ w' = w
  | Throw e => r = Failed e /\ w' = w
  | Vis op k => exists x w1, act _ op w x w1 /\ nrun (k x) w1 r w'
  end.

Lemma may_run_nrun {A} (p : prog E A) w r w' : may_run p w r w' <-> nrun p w r w'.
Proof.
  split.
  - induction 1; simpl; eauto.
  - revert w. induction p as [a|e|X op k IH]; intros w; simpl.
    + intros [-> ->]. constructor.
    + intros [-> ->]. constructor.
    + intros (x & w1 & Ha & Hr). econstructor; [done|]. by apply IH.
Qed.

Lemma nrun_bind {A B} (p : prog E A) (f : A -> prog E B) w r w' :
  nrun (pbind p f) w r w' <->
  exists r1 w1, nrun p w r1 w1 /\
    match r1 with
    | Done a => nrun (f a) w1 r w'
    | Failed e => r = Failed e /\ w' = w1
    end.
Proof.
  revert w. induction p as [a|e|X op k IH]; intros w; simpl.
  - split; [intros H; by exists (Done a), w|]. by intros (? & ? & [-> ->] & H).
  - split; [intros [-> ->]; by exists (Failed e), w|]. by intros (? & ? & [-> ->] & H).
  - split.
    + intros (x & w1 & Ha & Hr). apply IH in Hr as (r1 & w2 & H1 & H2). eauto 10.
    + intros (r1 & w2 & (x & w1 & Ha & H1) & H2). exists x, w1. split; [done|].
      apply IH. eauto.
Qed.

Lemma nrun_perform {X} (op : E (js_error + X)) w r w' :
  nrun (perform op) w r w' <->
  exists x, act _ op w x w' /\
    r = match x with inl e => Failed e | inr a => Done a end.
Proof.
  unfold perform. cbn. split.
  - intros (x & w1 & Ha & Hr). exists x. destruct x; destruct Hr as [-> ->]; done.
  - intros (x & Ha & ->). exists x, w'. destruct x; done.
Qed.

(** What every operation keeps, every run keeps. *)
Lemma nrun_keeps (P : W -> Prop) {A} (p : prog E A) w r w' :
  (forall X (op : E X) w x w', act X op w x w' -> P w -> P w') -> nrun p w r w' -> P w -> P w'.
Proof.
  intros Hact. revert w. induction p as [a|e|X op k IH]; intros w; cbn.
  - by intros [_ ->].
  - by intros [_ ->].
  - intros (x & w1 & Ha & Hr) Hw. eapply IH; [exact Hr|]. by eapply Hact.
Qed.

Lemma nrun_attempt_perform {X} (op : E (js_error + X)) w r w' :
  nrun (attempt (perform op)) w r w' <-> exists x, act _ op w x w' /\ r = Done x.
Proof.
  unfold attempt, perform. cbn. split.
  - intros (x & w1 & Ha & Hr). exists x. destruct x; cbn in Hr; by destruct Hr as [-> ->].
  - intros (x & Ha & ->). exists x, w'. by destruct x.
Qed.

Lemma nrun_ask {X} (op : E X) w r w' : nrun (ask op) w r w' <-> exists x, act _ op w x w' /\ r = Done x.
Proof.
  unfold ask. cbn. split; [intros (x & w1 & Ha & -> & ->); eauto|]. intros (x & Ha & ->). by exists x, w'.
Qed.
End Nondeterminism.

(** ** Termination

    [will p w Q]: every operation of [p] has an answer, and whatever the answers
    are, [p] ends, with an outcome and a world in [Q]. *)
Section Termination.
Context {E : Type -> Type} {W : Type}.
Variable act : forall X, E X -> W -> X -> W -> Prop.

Fixpoint will {A} (p : prog E A) (w : W) (Q : outcome A -> W -> Prop) : Prop :=
  match p with
  | Ret a => Q (Done a) w
  | Throw e => Q (Failed e) w
  | Vis op k => (exists x w', act _ op w x w') /\ forall x w', act _ op w x w' -> will (k x) w' Q
  end.

Lemma will_mono {A} (p : prog E A) w (Q Q' : outcome A -> W -> Prop) :
  will p w Q -> (forall r w', Q r w' -> Q' r w') -> will p w Q'.
Proof.
  intros Hp HQ. revert w Hp. induction p as [a|e|X op k IH]; intros w; cbn; [auto..|]. intros [Hex Hk]. eauto.
Qed.

Lemma will_bind {A B} (p : prog E A) (f : A -> prog E B) w Q :
  will p w (fun r w' => match r with Done a => will (f a) w' Q | Failed e => Q (Failed e) w' end) -> will (pbind p f) w Q.
Proof. revert w. induction p as [a|e|X op k IH]; intros w; cbn; [done..|]. intros [Hex Hk]. eauto. Qed.

Lemma will_catch {A} (p : prog E A) h w Q :
  will p w (fun r w' => match r with Done a => Q (Done a) w' | Failed e => will (h e) w' Q end) -> will (pcatch p h) w Q.
Proof. revert w. induction p as [a|e|X op k IH]; intros w; cbn; [done..|]. intros [Hex Hk]. eauto. Qed.

Lemma will_attempt {A} (p : prog E A) w Q :
  will p w (fun r w' => match r with Done a => Q (Done (inr a)) w' | Failed e => Q (Done (inl e)) w' end) -> will (attempt p) w Q.
Proof.
  intros Hp. unfold attempt. apply will_catch, will_bind. eapply will_mono; [exact Hp|]. by intros [a|e] w'.
Qed.

Lemma will_finally {A} (p : prog E A) (q : prog E unit) w Q :
  will p w (fun r w' => will q w' (fun r' w'' => match r' with Done _ => Q r w'' | Failed e => Q (Failed e) w'' end)) ->
  will (pfinally p q) w Q.
Proof.
  intros Hp. unfold pfinally. apply will_bind, will_attempt. eapply will_mono; [exact Hp|].
  intros [a|e] w' Hq; apply will_bind; (eapply will_mono; [exact Hq|]); by intros [[]|e'] w''.
Qed.

Lemma will_perform {X} (op : E (js_error + X)) w Q :
  (exists x w', act _ op w x w') ->
  (forall x w', act _ op w x w' -> Q (match x with inl e => Failed e | inr a => Done a end) w') -> will (perform op) w Q.
Proof. intros Hex Hop. split; [done|]. intros x w' Ha. specialize (Hop x w' Ha). by destruct x. Qed.

Lemma will_ask {X} (op : E X) w Q :
  (exists x w', act _ op w x w') -> (forall x w', act _ op w x w' -> Q (Done x) w') -> will (ask op) w Q.
Proof. intros Hex Hop. by split. Qed.

(** There is a run, and all of them end so. *)
Lemma will_runs {A} (p : prog E A) w Q : will p w Q ->
  (exists r w', nrun act p w r w' /\ Q r w') /\ (forall r w', nrun act p w r w' -> Q r w').
Proof.
  revert w. induction p as [a|e|X op k IH]; intros w; cbn.
  - intros HQ. split; [by exists (Done a), w|]. by intros r w' [-> ->].
  - intros HQ. split; [by exists (Failed e), w|]. by intros r w' [-> ->].
  - intros [(x & w1 & Ha) Hk]. split.
    + destruct (IH x w1 (Hk x w1 Ha)) as [(r & w' & Hr & HQ) _]. exists r, w'. split; [by exists x, w1|done].
    + intros r w' (x' & w1' & Ha' & Hr). by apply (IH x' w1' (Hk x' w1' Ha')).
Qed.
End Termination.

(** ** What a program passes through

    [safely p w Q]: whatever the operations answer, every state [p] is in from [w]
    on satisfies an invariant, and it ends in [Q]. *)

Section Safely.
Context {E : Type -> Type} {W : Type}.
Variable act : forall X, E X -> W -> X -> W -> Prop.
Variable I : W -> Prop.

Fixpoint safely {A} (p : prog E A) (w : W) (Q : outcome A -> W -> Prop) : Prop :=
  match p with
  | Ret a => Q (Done a) w
  | Throw e => Q (Failed e) w
  | Vis op k => forall x w', act _ op w x w' -> I w' /\ safely (k x) w' Q
  end.

Lemma safely_mono {A} (p : prog E A) w (Q Q' : outcome A -> W -> Prop) :
  safely p w Q -> (forall r w', Q r w' -> Q' r w') -> safely p w Q'.
Proof.
  intros Hp HQ. revert w Hp. induction p as [a|e|X op k IH]; intros w; cbn; [auto..|]. intros Hk x w' Ha. destruct (Hk x w' Ha). eauto.
Qed.

Lemma safely_bind {A B} (p : prog E A) (f : A -> prog E B) w Q :
  safely p w (fun r w' => match r with Done a => safely (f a) w' Q | Failed e => Q (Failed e) w' end) -> safely (pbind p f) w Q.
Proof. revert w. induction p as [a|e|X op k IH]; intros w; cbn; [done..|]. intros Hk x w' Ha. destruct (Hk x w' Ha). eauto. Qed.

Lemma safely_catch {A} (p : prog E A) h w Q :
  safely p w (fun r w' => match r with Done a => Q (Done a) w' | Failed e => safely (h e) w' Q end) -> safely (pcatch p h) w Q.
Proof. revert w. induction p as [a|e|X op k IH]; intros w; cbn; [done..|]. intros Hk x w' Ha. destruct (Hk x w' Ha). eauto. Qed.

Lemma safely_attempt {A} (p : prog E A) w Q :
  safely p w (fun r w' => match r with Done a => Q (Done (inr a)) w' | Failed e => Q (Done (inl e)) w' end) -> safely (attempt p) w Q.
Proof.
  intros Hp. unfold attempt. apply safely_catch, safely_bind. eapply safely_mono; [exact Hp|]. by intros [a|e] w'.
Qed.

Lemma safely_finally {A} (p : prog E A) (q : prog E unit) w Q :
  safely p w (fun r w' => safely q w' (fun r' w'' => match r' with Done _ => Q r w'' | Failed e => Q (Failed e) w'' end)) ->
  safely (pfinally p q) w Q.
Proof.
  intros Hp. unfold pfinally. apply safely_bind, safely_attempt. eapply safely_mono; [exact Hp|].
  intros [a|e] w' Hq; apply safely_bind; (eapply safely_mono; [exact Hq|]); by intros [[]|e'] w''.
Qed.

Lemma safely_perform {X} (op : E (js_error + X)) w Q :
  (forall x w', act _ op w x w' -> I w' /\ Q (match x with inl e => Failed e | inr a => Done a end) w') -> safely (perform op) w Q.
Proof. intros Hop x w' Ha. destruct (Hop x w' Ha) as [HI HQ]. by destruct x. Qed.

(** The states a run passes, the one it starts in included. *)
Inductive passes {A} : prog E A -> W -> W -> Prop :=
| passes_here p w : passes p w w
| passes_on X (op : E X) k w x w1 w' : act X op w x w1 -> passes (k x) w1 w' -> passes (Vis op k) w w'.

Lemma safely_passes {A} (p : prog E A) w Q w' : safely p w Q -> I w -> passes p w w' -> I w'.
Proof. intros Hp HI H. induction H as [|X op k w x w1 w' Ha _ IH]; [done|]. destruct (Hp x w1 Ha). auto. Qed.

Lemma safely_ends {A} (p : prog E A) w Q r w' : safely p w Q -> nrun act p w r w' -> Q r w'.
Proof.
  revert w. induction p as [a|e|X op k IH]; intros w; cbn; [by intros ? [-> ->]..|].
  intros Hp (x & w1 & Ha & Hr). destruct (Hp x w1 Ha). eauto.
Qed.

Lemma safely_keeps {A} (p : prog E A) w Q : I w -> safely p w Q -> safely p w (fun r w' => I w' /\ Q r w').
Proof. revert w. induction p as [a|e|X op k IH]; intros w HI; cbn; [done..|]. intros Hk x w' Ha. destruct (Hk x w' Ha). auto. Qed.

Lemma nrun_passes {A} (p : prog E A) w r w' : nrun act p w r w' -> passes p w w'.
Proof.
  revert w. induction p as [a|e|X op k IH]; intros w; cbn; [intros [_ ->]; constructor..|].
  intros (x & w1 & Ha & Hr). econstructor; [exact Ha|by apply IH].
Qed.

(** A program that keeps the invariant, whatever it ends in. *)
Definition maintains {A} (p : prog E A) : Prop := forall w, I w -> safely p w (fun _ _ => True).

Lemma maintains_bind {A B} (p : prog E A) (f : A -> prog E B) : maintains p -> (forall a, maintains (f a)) -> maintains (pbind p f).
Proof.
  intros Hp Hf w HI. apply safely_bind. eapply safely_mono; [apply safely_keeps, Hp; done|]. intros [a|e] w' [HI' _]; [by apply Hf|done].
Qed.

Lemma maintains_catch {A} (p : prog E A) h : maintains p -> (forall e, maintains (h e)) -> maintains (pcatch p h).
Proof.
  intros Hp Hh w HI. apply safely_catch. eapply safely_mono; [apply safely_keeps, Hp; done|]. intros [a|e] w' [HI' _]; [done|by apply Hh].
Qed.

Lemma maintains_attempt {A} (p : prog E A) : maintains p -> maintains (attempt p).
Proof. intros Hp w HI. apply safely_attempt. eapply safely_mono; [by apply Hp|]. by intros [a|e]. Qed.

Lemma maintains_finally {A} (p : prog E A) (q : prog E unit) : maintains p -> maintains q -> maintains (pfinally p q).
Proof.
  intros Hp Hq w HI. apply safely_finally. eapply safely_mono; [apply safely_keeps, Hp; done|]. intros r w' [HI' _].
  eapply safely_mono; [by apply Hq|]. by intros [u|e].
Qed.

Lemma maintains_perform {X} (op : E (js_error + X)) : (forall w x w', act _ op w x w' -> I w -> I w') -> maintains (perform op).
Proof. intros Hop w HI. apply safely_perform. eauto. Qed.

Lemma maintains_ask {X} (op : E X) : (forall w x w', act _ op w x w' -> I w -> I w') -> maintains (ask op).
Proof. intros Hop w HI x w' Ha. split; [by eapply Hop|done]. Qed.

Lemma maintains_value {A} (p : prog E A) : match p with Vis _ _ => False | _ => True end -> maintains p.
Proof. by destruct p. Qed.

(** A program that only looks. *)
Fixpoint looks {A} (p : prog E A) : Prop :=
  match p with
  | Vis op k => (forall w x w', act _ op w x w' -> w' = w) /\ forall x, looks (k x)
  | _ => True
  end.

Lemma looks_bind {A B} (p : prog E A) (f : A -> prog E B) : looks p -> (forall a, looks (f a)) -> looks (pbind p f).
Proof. intros Hp Hf. induction p as [a|e|X op k IH]; cbn; [auto..|]. destruct Hp. auto. Qed.

Lemma looks_catch {A} (p : prog E A) h : looks p -> (forall e, looks (h e)) -> looks (pcatch p h).
Proof. intros Hp Hh. induction p as [a|e|X op k IH]; cbn; [auto..|]. destruct Hp. auto. Qed.

Lemma looks_attempt {A} (p : prog E A) : looks p -> looks (attempt p).
Proof. intros Hp. unfold attempt. apply looks_catch; [|done]. by apply looks_bind. Qed.

Lemma looks_finally {A} (p : prog E A) (q : prog E unit) : looks p -> looks q -> looks (pfinally p q).
Proof.
  intros Hp Hq. unfold pfinally. apply looks_bind; [by apply looks_attempt|]. intros r. apply looks_bind; [done|]. by intros ?; destruct r.
Qed.

Lemma looks_perform {X} (op : E (js_error + X)) : (forall w x w', act _ op w x w' -> w' = w) -> looks (perform op).
Proof. intros Hop. split; [done|]. by intros [e|a]. Qed.

Lemma safely_looks {A} (p : prog E A) w Q : looks p -> I w -> (forall r, nrun act p w r w -> Q r w) -> safely p w Q.
Proof.
  intros Hp HI. revert Q. induction p as [a|e|X op k IH]; intros Q HQ; cbn.
  - by apply HQ.
  - by apply HQ.
  - destruct Hp as [Hop Hk]. intros x w' Ha. assert (w' = w) as -> by (by eapply Hop). split; [done|].
    apply IH; [done|]. intros r Hr. apply HQ. by exists x, w.
Qed.

(** What a program returns, whatever happens. *)
Fixpoint returns {A} (P : A -> Prop) (p : prog E A) : Prop :=
  match p with Ret a => P a | Throw _ => True | Vis op k => forall x, returns P (k x) end.

Lemma returns_bind {A B} (P : B -> Prop) (p : prog E A) (f : A -> prog E B) : (forall a, returns P (f a)) -> returns P (pbind p f).
Proof. intros Hf. induction p as [a|e|X op k IH]; cbn; auto. Qed.

Lemma returns_catch {A} (P : A -> Prop) (p : prog E A) h : returns P p -> (forall e, returns P (h e)) -> returns P (pcatch p h).
Proof. intros Hp Hh. induction p as [a|e|X op k IH]; cbn; auto. Qed.

Lemma safely_returns {A} (P : A -> Prop) (p : prog E A) w Q : safely p w Q -> returns P p ->
  safely p w (fun r w' => Q r w' /\ match r with Done a => P a | Failed _ => True end).
Proof. revert w. induction p as [a|e|X op k IH]; intros w; cbn; [done..|]. intros Hk Hr x w' Ha. destruct (Hk x w' Ha). auto. Qed.
End Safely.

(** A stronger invariant will do. *)
Lemma safely_weaken {E W} (act : forall X, E X -> W -> X -> W -> Prop) (I I' : W -> Prop) {A} (p : prog E A) w Q :
  (forall w, I w -> I' w) -> safely act I p w Q -> safely act I' p w Q.
Proof. intros HI. revert w. induction p as [a|e|X op k IH]; intros w; cbn; [done..|]. intros Hk x w' Ha. destruct (Hk x w' Ha). auto. Qed.

(** ** Simulation by an abstract transition system

    [simulates s p Q R]: whatever the operations of [p] answer, each of them is
    a step of the abstract system, starting from the state [s]; [Q] holds of the
    result and the state [p] ends in, [R] of what it throws. *)
Section Simulation.
Context {E : Type -> Type} {W S : Type}.
Variable act : forall X, E X -> W -> X -> W -> Prop.
Variable step : S -> W -> S -> W -> Prop.

Fixpoint simulates {A} (s : S) (p : prog E A) (Q : A -> S -> Prop) (R : js_error -> S -> Prop) : Prop :=
  match p with
  | Ret a => Q a s
  | Throw e => R e s
  | Vis op k => forall w x w', act _ op w x w' ->
      exists s', step s w s' w' /\ simulates s' (k x) Q R
  end.

Lemma simulates_bind {A B} s (p : prog E A) (f : A -> prog E B) Q R :
  simulates s p (fun a s' => simulates s' (f a) Q R) R -> simulates s (pbind p f) Q R.
Proof.
  revert s. induction p as [a|e|X op k IH]; intros s; simpl; [done..|].
  intros H w x w' Ha. destruct (H w x w' Ha) as (s' & Hs & Hk). eauto.
Qed.

Lemma simulates_catch {A} s (p : prog E A) h Q R :
  simulates s p Q (fun e s' => simulates s' (h e) Q R) -> simulates s (pcatch p h) Q R.
Proof.
  revert s. induction p as [a|e|X op k IH]; intros s; simpl; [done..|].
  intros H w x w' Ha. destruct (H w x w' Ha) as (s' & Hs & Hk). eauto.
Qed.

Lemma simulates_attempt {A} s (p : prog E A) Q R :
  simulates s p (fun a => Q (inr a)) (fun e => Q (inl e)) -> simulates s (attempt p) Q R.
Proof. intros H. unfold attempt. by apply simulates_catch, simulates_bind. Qed.

Lemma simulates_mono {A} s (p : prog E A) (Q Q' : A -> S -> Prop) (R R' : js_error -> S -> Prop) :
  simulates s p Q R -> (forall a s', Q a s' -> Q' a s') -> (forall e s', R e s' -> R' e s') ->
  simulates s p Q' R'.
Proof.
  intros Hp HQ HR. revert s Hp. induction p as [a|e|X op k IH]; intros s; simpl; [auto..|].
  intros H w x w' Ha. destruct (H w x w' Ha) as (s' & Hs & Hk). eauto.
Qed.

Lemma simulates_perform {X} s (op : E (js_error + X)) Q R :
  (forall w x w', act _ op w x w' -> exists s', step s w s' w' /\
     match x with inl e => R e s' | inr a => Q a s' end) ->
  simulates s (perform op) Q R.
Proof.
  intros H w x w' Ha. destruct (H w x w' Ha) as (s' & Hs & Hk).
  exists s'. split; [done|]. by destruct x.
Qed.

(** Several processes: each performs its next operation at some point, new ones
    start, and the environment changes the world in between. *)
Context {A : Type}.
Variable starts : W -> prog E A -> Prop.
Variable env : W -> W -> Prop.

Inductive pool_moves : list (prog E A) * W -> list (prog E A) * W -> Prop :=
| moves_op ps i X (op : E X) k w x w' :
    ps !! i = Some (Vis op k) -> act X op w x w' ->
    pool_moves (ps, w) (<[i := k x]> ps, w')
| moves_start ps p w : starts w p -> pool_moves (ps, w) (ps ++ [p], w)
| moves_env ps w w' : env w w' -> pool_moves (ps, w) (ps, w').

Inductive abstract_moves (initial : W -> S -> Prop) : list S * W -> list S * W -> Prop :=
| abstract_op ss i s s' w w' :
    ss !! i = Some s -> step s w s' w' ->
    abstract_moves initial (ss, w) (<[i := s']> ss, w')
| abstract_start ss s w : initial w s -> abstract_moves initial (ss, w) (ss ++ [s], w)
| abstract_env ss w w' : env w w' -> abstract_moves initial (ss, w) (ss, w').

(** What a process that has returned, or thrown, leaves in its abstract state. *)
Section Post.
Variable post : A -> S -> Prop.
Variable post_error : js_error -> S -> Prop.

Definition abstracts_to (ss : list S) (ps : list (prog E A)) : Prop :=
  Forall2 (fun s p => simulates s p post post_error) ss ps.

(** One move of the processes is one move of what they abstract to. *)
Lemma pool_move_to initial ps w c ss :
  (forall w p, starts w p -> exists s, initial w s /\ simulates s p post post_error) ->
  abstracts_to ss ps -> pool_moves (ps, w) c ->
  exists ss', abstract_moves initial (ss, w) (ss', snd c) /\ abstracts_to ss' (fst c).
Proof.
  intros Hinit Hss Hstep. inversion Hstep as [ps0 i X op k w0 x w1 Hi Ha|ps0 p w0 Hp|ps0 w0 w1 He]; subst; simpl.
  - destruct (Forall2_lookup_r _ _ _ _ _ Hss Hi) as (s & Hs & Hsim).
    destruct (Hsim w x w1 Ha) as (s' & Hst & Hk).
    exists (<[i := s']> ss). split; [by eapply abstract_op|]. by apply Forall2_insert.
  - destruct (Hinit w p Hp) as (s & Hs & Hsim).
    exists (ss ++ [s]). split; [by apply abstract_start|]. apply Forall2_app; [done|]. by constructor.
  - exists ss. split; [by apply abstract_env|done].
Qed.

Lemma pool_simulation_to initial ps w ps' w' ss :
  (forall w p, starts w p -> exists s, initial w s /\ simulates s p post post_error) ->
  abstracts_to ss ps -> rtc pool_moves (ps, w) (ps', w') ->
  exists ss', rtc (abstract_moves initial) (ss, w) (ss', w') /\ abstracts_to ss' ps'.
Proof.
  intros Hinit Hss Hrtc. remember (ps, w) as c eqn:Ec. remember (ps', w') as c' eqn:Ec'.
  revert ps w ss Hss Ec Ec'. induction Hrtc as [c|c c1 c2 Hstep Hrtc IH]; intros ps w ss Hss -> Ec'.
  - simplify_eq. exists ss. split; [apply rtc_refl|done].
  - destruct (pool_move_to initial ps w c1 ss Hinit Hss Hstep) as (ss1 & Hm & Hss1).
    destruct c1 as [ps1 w1]. destruct (IH ps1 w1 ss1 Hss1 eq_refl Ec') as (ss' & H1 & H2).
    exists ss'. split; [|done]. by eapply rtc_l.
Qed.
End Post.

Definition abstracts (ss : list S) (ps : list (prog E A)) : Prop :=
  abstracts_to (fun _ _ => True) (fun _ _ => True) ss ps.

Lemma pool_simulation initial ps w ps' w' ss :
  (forall w p, starts w p -> exists s, initial w s /\ simulates s p (fun _ _ => True) (fun _ _ => True)) ->
  abstracts ss ps -> rtc pool_moves (ps, w) (ps', w') ->
  exists ss', rtc (abstract_moves initial) (ss, w) (ss', w') /\ abstracts ss' ps'.
Proof. apply pool_simulation_to. Qed.
End Simulation.

(** ** Traces

    [traces p tr Q R]: whatever the operations of [p] answer, it returns a result
    and a trace in [Q], or throws an error with a trace in [R]; the trace starts
    with [tr] and lists each operation with its answer. *)
Section Traces.
Context {E : Type -> Type}.

Inductive entry : Type :=
| Did (X : Type) (op : E X) (x : X).

Arguments Did {X} op x.

Fixpoint traces {A} (p : prog E A) (tr : list entry) (Q : A -> list entry -> Prop)
    (R : js_error -> list entry -> Prop) : Prop :=
  match p with
  | Ret a => Q a tr
  | Throw e => R e tr
  | Vis op k => forall x, traces (k x) (tr ++ [Did op x]) Q R
  end.

Lemma traces_bind {A B} (p : prog E A) (f : A -> prog E B) tr Q R :
  traces p tr (fun a tr' => traces (f a) tr' Q R) R -> traces (pbind p f) tr Q R.
Proof. revert tr. induction p as [a|e|X op k IH]; intros tr; cbn; [done..|]. intros Hp x. apply IH, Hp. Qed.

Lemma traces_catch {A} (p : prog E A) h tr Q R :
  traces p tr Q (fun e tr' => traces (h e) tr' Q R) -> traces (pcatch p h) tr Q R.
Proof. revert tr. induction p as [a|e|X op k IH]; intros tr; cbn; [done..|]. intros Hp x. apply IH, Hp. Qed.

Lemma traces_attempt {A} (p : prog E A) tr (Q : js_error + A -> list entry -> Prop) R :
  traces p tr (fun a => Q (inr a)) (fun e => Q (inl e)) -> traces (attempt p) tr Q R.
Proof. intros Hp. unfold attempt. by apply traces_catch, traces_bind. Qed.

Lemma traces_mono {A} (p : prog E A) tr (Q Q' : A -> list entry -> Prop) (R R' : js_error -> list entry -> Prop) :
  traces p tr Q R -> (forall a tr', Q a tr' -> Q' a tr') -> (forall e tr', R e tr' -> R' e tr') -> traces p tr Q' R'.
Proof.
  intros Hp HQ HR. revert tr Hp. induction p as [a|e|X op k IH]; intros tr; cbn; [auto..|].
  intros Hp x. apply IH, Hp.
Qed.

Lemma traces_and {A} (p : prog E A) tr (Q Q' : A -> list entry -> Prop) (R R' : js_error -> list entry -> Prop) :
  traces p tr Q R -> traces p tr Q' R' -> traces p tr (fun a t => Q a t /\ Q' a t) (fun e t => R e t /\ R' e t).
Proof. revert tr. induction p as [a|e|X op k IH]; intros tr; cbn; [done..|]. intros H H' x. by apply IH. Qed.

Lemma traces_grow {A} (p : prog E A) tr Q R :
  traces p tr Q R ->
  traces p tr (fun a tr' => Q a tr' /\ exists u, tr' = tr ++ u) (fun e tr' => R e tr' /\ exists u, tr' = tr ++ u).
Proof.
  revert tr. induction p as [a|e|X op k IH]; intros tr; cbn.
  - intros Hq. split; [done|]. exists []. by rewrite app_nil_r.
  - intros Hr. split; [done|]. exists []. by rewrite app_nil_r.
  - intros Hp x. eapply traces_mono; [by apply IH| |].
    + intros a tr' [Hq [u ->]]. split; [done|]. rewrite <- app_assoc. by eexists.
    + intros e tr' [Hr [u ->]]. split; [done|]. rewrite <- app_assoc. by eexists.
Qed.

Lemma traces_perform {X} (op : E (js_error + X)) tr Q R :
  (forall a, Q a (tr ++ [Did op (inr a)])) -> (forall e, R e (tr ++ [Did op (inl e)])) -> traces (perform op) tr Q R.
Proof. intros HQ HR. unfold perform. cbn. intros [e|a]; [apply HR|apply HQ]. Qed.

Lemma traces_ask {X} (op : E X) tr Q R : (forall x, Q x (tr ++ [Did op x])) -> traces (ask op) tr Q R.
Proof. intros HQ. unfold ask. cbn. auto. Qed.
End Traces.

#[global] Arguments Did {E X} op x.

(** ** What precedes the operations that matter

    [mark] picks some operations of a trace.  [silently T p tr P]: from the trace
    [tr], [p] performs no marked operation, returns only with [P], and throws only
    if [T].  [marks_justified J t]: [J] holds of every marked operation and of the
    trace before it. *)
Section Marked.
Context {E : Type -> Type} {M : Type}.
Local Abbreviation log := (list (@entry E)).
Variable mark : @entry E -> option M.

Definition silent (tr t : log) : Prop := exists u, t = tr ++ u /\ Forall (fun e => mark e = None) u.

Lemma silent_refl tr : silent tr tr.
Proof. exists []. by rewrite app_nil_r. Qed.

Lemma silent_trans a b c : silent a b -> silent b c -> silent a c.
Proof. intros (u & -> & Hu) (v & -> & Hv). exists (u ++ v). rewrite app_assoc. split; [done|]. by apply Forall_app. Qed.

Lemma silent_extend tr e : mark e = None -> silent tr (tr ++ [e]).
Proof. intros He. exists [e]. by repeat constructor. Qed.

Lemma silent_subseteq a b : silent a b -> a ⊆ b.
Proof. intros (u & -> & _). set_solver. Qed.

Definition silently {A} (T : Prop) (p : prog E A) (tr : log) (P : A -> log -> Prop) : Prop :=
  traces p tr (fun a t => silent tr t /\ P a t) (fun _ t => silent tr t /\ T).

Lemma silently_ret {A} T (a : A) tr (P : A -> log -> Prop) : P a tr -> silently T (Ret a) tr P.
Proof. intros HP. split; [apply silent_refl|done]. Qed.

Lemma silently_throw {A} (T : Prop) e tr (P : A -> log -> Prop) : T -> silently T (Throw e) tr P.
Proof. intros HT. split; [apply silent_refl|done]. Qed.

Lemma silently_bind {A B} T (p : prog E A) (f : A -> prog E B) tr P Q :
  silently T p tr P -> (forall a t, silent tr t -> P a t -> silently T (f a) t Q) -> silently T (pbind p f) tr Q.
Proof.
  intros Hp Hf. apply traces_bind. eapply traces_mono; [exact Hp| |done]. intros a t [Hg HP].
  eapply traces_mono; [by apply Hf|..].
  - intros b t' [Hg' HQ]. split; [by eapply silent_trans|done].
  - intros e t' [Hg' HT]. split; [by eapply silent_trans|done].
Qed.

Lemma silently_mono {A} T (p : prog E A) tr (P Q : A -> log -> Prop) :
  silently T p tr P -> (forall a t, silent tr t -> P a t -> Q a t) -> silently T p tr Q.
Proof. intros Hp HPQ. eapply traces_mono; [exact Hp| |done]. intros a t [Hg HP]. auto. Qed.

Lemma silently_ask {X} T (op : E X) tr : (forall x, mark (Did op x) = None) -> silently T (ask op) tr (fun x t => Did op x ∈ t).
Proof. intros Hr. apply traces_ask. intros x. split; [by apply silent_extend|set_solver]. Qed.

Lemma silently_perform {X} (T : Prop) (op : E (js_error + X)) tr : T ->
  (forall x, mark (Did op x) = None) -> silently T (perform op) tr (fun x t => Did op (inr x) ∈ t).
Proof.
  intros HT Hr. apply traces_perform; intros x; (split; [by apply silent_extend|set_solver]).
Qed.

Lemma silently_try {X} T (op : E (js_error + X)) tr :
  (forall x, mark (Did op x) = None) -> silently T (attempt (perform op)) tr (fun r t => Did op r ∈ t).
Proof.
  intros Hr. apply traces_attempt, traces_perform; intros x; (split; [by apply silent_extend|set_solver]).
Qed.

Lemma silently_attempt {A} T (p : prog E A) tr (P : A -> log -> Prop) :
  silently True p tr P -> silently T (attempt p) tr (fun r t => match r with inr a => P a t | inl _ => True end).
Proof.
  intros Hp. apply traces_attempt. eapply traces_mono; [exact Hp|..]; [by intros a t [Hg HP]|by intros e t [Hg _]].
Qed.

Definition marks_justified (J : M -> log -> Prop) (t : log) : Prop :=
  forall before e after m, t = before ++ e :: after -> mark e = Some m -> J m before.

Lemma justified_silent J t : silent [] t -> marks_justified J t.
Proof.
  intros (u & -> & Hu) before e after m Heq He. cbn in Heq. subst u. rewrite Forall_app, Forall_cons in Hu.
  destruct Hu as (_ & Hu & _). congruence.
Qed.
End Marked.

(** Facts about a trace that stay true as it grows. *)
Class Lasting {E : Type -> Type} (P : list (@entry E) -> Prop) := lasting : forall t t', t ⊆ t' -> P t -> P t'.

Lemma justified_split {E M} (mark : @entry E -> option M) (J : M -> list entry -> Prop) `{forall m, Lasting (J m)} t0 u (S : M -> Prop) :
  silent mark [] t0 -> (forall m, S m -> J m t0) ->
  Forall (fun e => forall m, mark e = Some m -> S m) u -> marks_justified mark J (t0 ++ u).
Proof.
  intros H0 HJ Hu before e after m Heq He. apply app_eq_app in Heq as (l & [[-> Hl]|[-> ->]]).
  - destruct l as [|x l]; cbn in Hl; [|injection Hl as <- _].
    + subst u. apply Forall_cons in Hu as [Hu _]. eapply lasting; [|by apply HJ, Hu]. set_solver.
    + destruct H0 as (v & Hv & H0). cbn in Hv. subst v. rewrite Forall_app, Forall_cons in H0. destruct H0 as (_ & H0 & _). congruence.
  - eapply lasting; [|apply HJ]; [set_solver|]. rewrite Forall_app, Forall_cons in Hu. destruct Hu as (_ & Hu & _). by apply Hu.
Qed.

(** ** One scripted interleaving

    A handler picks one answer for every operation and world; where its answers
    are among those [act] allows, running a program under it is one of the
    moves of the pool. *)
Section Scripted.
Context {E : Type -> Type} {W A : Type}.
Variable act : forall X, E X -> W -> X -> W -> Prop.
Variable starts : W -> prog E A -> Prop.
Variable env : W -> W -> Prop.
Variable script : forall X, E X -> W -> X * W.
Variable allowed : forall X, E X -> W -> bool.
Hypothesis script_act : forall X (op : E X) w,
  allowed X op w = true -> act X op w (fst (script X op w)) (snd (script X op w)).

Fixpoint checked (p : prog E A) (w : W) : bool :=
  match p with
  | Vis op k => allowed _ op w && (let (x, w') := script _ op w in checked (k x) w')
  | _ => true
  end.

Lemma checked_moves ps i p w :
  ps !! i = Some p -> checked p w = true ->
  exists p', rtc (pool_moves act starts env) (ps, w) (<[i := p']> ps, snd (run script p w)).
Proof.
  revert ps w. induction p as [a|e|X op k IH]; intros ps w Hi Hc.
  - exists (Ret a). rewrite list_insert_id by done. apply rtc_refl.
  - exists (Throw e). rewrite list_insert_id by done. apply rtc_refl.
  - cbn [checked run] in *. apply andb_true_iff in Hc as [Ha Hc]. apply script_act in Ha.
    destruct (script X op w) as [x w1]. cbn [fst snd] in Ha.
    assert (Hlt : (i < length ps)%nat) by (by eapply lookup_lt_Some).
    destruct (IH x (<[i := k x]> ps) w1) as (p' & Hr); [by rewrite list_lookup_insert_eq|done|].
    rewrite list_insert_insert_eq in Hr. exists p'. eapply rtc_l; [|exact Hr]. by eapply moves_op.
Qed.

(** The first [n] operations of one program. *)
Fixpoint advance (n : nat) (p : prog E A) (w : W) : prog E A * W :=
  match n, p with
  | S m, Vis op k => let (x, w') := script _ op w in advance m (k x) w'
  | _, _ => (p, w)
  end.

Fixpoint advance_allowed (n : nat) (p : prog E A) (w : W) : bool :=
  match n, p with
  | S m, Vis op k => allowed _ op w && (let (x, w') := script _ op w in advance_allowed m (k x) w')
  | _, _ => true
  end.

Lemma advance_moves n ps i p w :
  ps !! i = Some p -> advance_allowed n p w = true ->
  rtc (pool_moves act starts env) (ps, w) (<[i := (advance n p w).1]> ps, (advance n p w).2).
Proof.
  revert ps p w. induction n as [|n IH]; intros ps p w Hi Hc; [rewrite list_insert_id by done; apply rtc_refl|].
  destruct p as [a|e|X op k]; [rewrite list_insert_id by done; apply rtc_refl..|].
  cbn [advance advance_allowed] in *. apply andb_true_iff in Hc as [Ha Hc]. apply script_act in Ha.
  destruct (script X op w) as [x w1]. cbn [fst snd] in Ha.
  assert (Hlt : (i < length ps)%nat) by (by eapply lookup_lt_Some).
  specialize (IH (<[i := k x]> ps) (k x) w1). rewrite list_insert_insert_eq in IH.
  eapply rtc_l; [by eapply moves_op|]. apply IH; [by rewrite list_lookup_insert_eq|done].
Qed.

(** A list of calls, each started and run to its end. *)
Fixpoint run_all (calls : list (prog E A)) (w : W) : W :=
  match calls with [] => w | p :: rest => run_all rest (snd (run script p w)) end.

Fixpoint all_checked (calls : list (prog E A)) (w : W) : bool :=
  match calls with [] => true | p :: rest => checked p w && all_checked rest (snd (run script p w)) end.

Lemma run_all_moves calls ps w :
  (forall w p, p ∈ calls -> starts w p) -> all_checked calls w = true ->
  exists ps', rtc (pool_moves act starts env) (ps, w) (ps', run_all calls w).
Proof.
  revert ps w. induction calls as [|p calls IH]; intros ps w Hs Hc; cbn [run_all all_checked] in *.
  - exists ps. apply rtc_refl.
  - apply andb_true_iff in Hc as [Hc Hrest].
    destruct (checked_moves (ps ++ [p]) (length ps) p w) as (p' & Hr); [|done|].
    { rewrite lookup_app_r, Nat.sub_diag by lia. done. }
    destruct (IH (<[length ps := p']> (ps ++ [p])) _ (fun w q Hq => Hs w q ltac:(by right)) Hrest) as (ps' & Hr').
    exists ps'. eapply rtc_l; [apply moves_start, Hs; left|]. by etrans.
Qed.
End Scripted.
