(* ===== verification/JsonText.v ===== *)
(** * [JSON.stringify] and [JSON.parse]

    The printed forms, the parser, and the round trip between them.  The compact form and the form with an indent of two, for the values the
    program serializes.  Strings are UTF-8 bytes, so the length of the result is
    [Buffer.byteLength]. *)

From stdpp Require Import pretty.
From S2P Require Import Prelude JsDate.

Open Scope Z_scope.

Definition dquote : ascii := ascii_of_nat 34.
Definition backslash : ascii := ascii_of_nat 92.
Definition newline : string := String (ascii_of_nat 10) "".
Definition nul : string := String (ascii_of_nat 0) "".

Definition hex_digit (n : nat) : ascii :=
  ascii_of_nat (if (n <? 10)%nat then 48 + n else 87 + n)%nat.

(** The escape of one character inside a JSON string. *)
Definition json_escape_char (c : ascii) : string :=
  let n := nat_of_ascii c in
  if Ascii.eqb c dquote then String backslash (String dquote "")
  else if Ascii.eqb c backslash then String backslash (String backslash "")
  else if (n =? 8)%nat then String backslash "b"
  else if (n =? 9)%nat then String backslash "t"
  else if (n =? 10)%nat then String backslash "n"
  else if (n =? 12)%nat then String backslash "f"
  else if (n =? 13)%nat then String backslash "r"
  else if (n <? 32)%nat then
    String backslash ("u00" +:+ String (hex_digit (n / 16)) (String (hex_digit (n mod 16)) ""))
  else String c "".

Fixpoint json_escape (s : string) : string :=
  match s with
  | EmptyString => ""
  | String c s' => json_escape_char c +:+ json_escape s'
  end.

Definition json_quote (s : string) : string :=
  String dquote (json_escape s +:+ String dquote "").

(** [JSON.stringify(v)] *)
Fixpoint json_compact (v : json) : string :=
  match v with
  | JNull => "null"
  | JBool b => if b then "true" else "false"
  | JNum z => pretty z
  | JFrac literal => literal
  | JStr s => json_quote s
  | JArr l => "[" +:+ join "," (map json_compact l) +:+ "]"
  | JObj fields =>
      "{" +:+ join "," (map (fun kv => json_quote (fst kv) +:+ ":" +:+ json_compact (snd kv)) fields)
      +:+ "}"
  end.

(** [JSON.stringify(v, null, 2)]; [ind] is the indent of the enclosing line. *)
Fixpoint json_indented (ind : string) (v : json) : string :=
  let deeper := ind +:+ "  " in
  let lines l := newline +:+ deeper +:+ join ("," +:+ newline +:+ deeper) l +:+ newline +:+ ind in
  match v with
  | JArr [] => "[]"
  | JObj [] => "{}"
  | JArr l => "[" +:+ lines (map (json_indented deeper) l) +:+ "]"
  | JObj fields =>
      "{" +:+ lines (map (fun kv => json_quote (fst kv) +:+ ": " +:+ json_indented deeper (snd kv)) fields)
      +:+ "}"
  | v => json_compact v
  end.

(** [String(v)] *)
Fixpoint js_String (v : json) : string :=
  match v with
  | JNull => "null"
  | JBool b => if b then "true" else "false"
  | JNum z => pretty z
  | JFrac literal => literal
  | JStr s => s
  | JArr l => join "," (map (fun x => match x with JNull => "" | _ => js_String x end) l)
  | JObj _ => "[object Object]"
  end.

(** An object literal with optional members: those that are [undefined] are
    left out by the serializer and by the spread of [{...}]. *)
Definition optional_field (k : string) (v : option json) : list (string * json) :=
  match v with Some x => [(k, x)] | None => [] end.

(** [Object.keys(v)]: indices for an array or a string. *)
Definition object_keys (v : json) : list string :=
  match v with
  | JObj fields => map fst fields
  | JArr l => map pretty (seq 0 (length l))
  | JStr s => map pretty (seq 0 (js_length s))
  | _ => []
  end.

(** [Object.keys(v).filter(k => !allowed.includes(k) && v[k] !== undefined)]:
    the value of a present member of a parsed object is never [undefined]. *)
Definition unknown_fields (allowed : list string) (v : json) : list string :=
  filter (fun k => k ∉ allowed) (object_keys v).

Example json_indented_example :
  json_indented "" (JObj [("a", JArr [JNum 1; JNull]); ("b", JArr [])]) =
  "{" +:+ newline +:+ "  " +:+ json_quote "a" +:+ ": [" +:+ newline +:+ "    1," +:+ newline +:+
  "    null" +:+ newline +:+ "  ]," +:+ newline +:+ "  " +:+ json_quote "b" +:+ ": []" +:+ newline +:+ "}".
Proof. reflexivity. Qed.

(** ** Escaping loses nothing *)

Definition hex_value (c : ascii) : nat :=
  let n := nat_of_ascii c in if (n <? 97)%nat then (n - 48)%nat else (n - 87)%nat.

(** The first character of an escaped string, and the rest. *)
Definition json_unescape_char (s : string) : option (ascii * string) :=
  match s with
  | String c s' =>
      if negb (Ascii.eqb c backslash) then Some (c, s')
      else match s' with
           | String e s'' =>
               if Ascii.eqb e "b" then Some (ascii_of_nat 8, s'')
               else if Ascii.eqb e "t" then Some (ascii_of_nat 9, s'')
               else if Ascii.eqb e "n" then Some (ascii_of_nat 10, s'')
               else if Ascii.eqb e "f" then Some (ascii_of_nat 12, s'')
               else if Ascii.eqb e "r" then Some (ascii_of_nat 13, s'')
               else if Ascii.eqb e "u" then
                 match s'' with
                 | String _ (String _ (String h (String l r))) =>
                     Some (ascii_of_nat (16 * hex_value h + hex_value l), r)
                 | _ => None
                 end
               else Some (e, s'')
           | EmptyString => None
           end
  | EmptyString => None
  end.

Lemma json_unescape_escape c s : json_unescape_char (json_escape_char c +:+ s) = Some (c, s).
Proof. destruct c as [[] [] [] [] [] [] [] []]; reflexivity. Qed.

(** An escape starts with no quote, so the closing quote ends the string. *)
Lemma json_escape_char_head c s :
  exists x r, json_escape_char c +:+ s = String x r /\ x <> dquote.
Proof.
  destruct c as [[] [] [] [] [] [] [] []]; eexists _, _; (split; [reflexivity|discriminate]).
Qed.

Lemma json_quote_inj s1 s2 r1 r2 :
  json_quote s1 +:+ r1 = json_quote s2 +:+ r2 -> s1 = s2 /\ r1 = r2.
Proof.
  unfold json_quote. rewrite !append_cons. intros [= H]. revert s2 H.
  induction s1 as [|c1 s1 IH]; intros [|c2 s2]; cbn [json_escape]; intros H.
  - rewrite !append_nil_l, !append_cons in H. by injection H.
  - rewrite append_nil_l, append_cons, !append_assoc in H.
    destruct (json_escape_char_head c2 (json_escape s2 +:+ String dquote "" +:+ r2)) as (x & r & E & Hx).
    rewrite E in H. injection H as <- _. by destruct Hx.
  - rewrite append_nil_l, append_cons, !append_assoc in H.
    destruct (json_escape_char_head c1 (json_escape s1 +:+ String dquote "" +:+ r1)) as (x & r & E & Hx).
    rewrite E in H. injection H as -> _. by destruct Hx.
  - rewrite !append_assoc in H.
    apply (f_equal json_unescape_char) in H. rewrite !json_unescape_escape in H.
    injection H as -> H. rewrite <-!append_assoc in H. apply IH in H as [-> ->]. done.
Qed.

(** Two arrays of strings of the same length that serialize alike are equal. *)
Lemma join_quotes_inj l1 l2 r :
  length l1 = length l2 ->
  join "," (map json_quote l1) +:+ r = join "," (map json_quote l2) +:+ r -> l1 = l2.
Proof.
  revert l2. induction l1 as [|s1 l1 IH]; intros [|s2 l2]; simpl; [done..|]. intros [= Hl] H.
  destruct l1 as [|t1 l1], l2 as [|t2 l2]; simpl in *; try done.
  - apply json_quote_inj in H as [-> _]. done.
  - rewrite !append_assoc in H. apply json_quote_inj in H as [-> H].
    rewrite !append_cons, !append_nil_l in H. injection H as H.
    f_equal. apply IH; [simpl; lia|done].
Qed.

Lemma json_compact_strings_inj (l1 l2 : list string) :
  length l1 = length l2 ->
  json_compact (JArr (map JStr l1)) = json_compact (JArr (map JStr l2)) -> l1 = l2.
Proof.
  intros Hl. cbn [json_compact]. rewrite !map_map. cbn [json_compact].
  rewrite !append_cons, !append_nil_l. intros [= H]. by eapply join_quotes_inj.
Qed.

(** * [JSON.parse]

    The grammar of the language's [JSON.parse]: white space, literals, numbers,
    strings with their escapes, arrays and objects, where a repeated key keeps its
    place and takes the last value.  A number without fraction or exponent is the
    integer it denotes; any other is kept as its text.  What [JSON.stringify]
    prints is read back. *)

Definition is_json_space (c : ascii) : bool :=
  let n := nat_of_ascii c in ((n =? 9) || (n =? 10) || (n =? 13) || (n =? 32))%nat.

Fixpoint skip_space (s : string) : string :=
  match s with
  | String c s' => if is_json_space c then skip_space s' else s
  | EmptyString => s
  end.

(** ** Strings *)

Definition utf8_byte (n : Z) : ascii := ascii_of_nat (Z.to_nat n).

(** The UTF-8 bytes of a code point. *)
Definition utf8 (cp : Z) : string :=
  if cp <? 128 then String (utf8_byte cp) ""
  else if cp <? 2048 then String (utf8_byte (192 + cp / 64)) (String (utf8_byte (128 + cp mod 64)) "")
  else if cp <? 65536 then
    String (utf8_byte (224 + cp / 4096)) (String (utf8_byte (128 + cp / 64 mod 64)) (String (utf8_byte (128 + cp mod 64)) ""))
  else
    String (utf8_byte (240 + cp / 262144)) (String (utf8_byte (128 + cp / 4096 mod 64))
      (String (utf8_byte (128 + cp / 64 mod 64)) (String (utf8_byte (128 + cp mod 64)) ""))).

Definition hex_code (c : ascii) : option Z :=
  let n := Z.of_nat (nat_of_ascii c) in
  if is_digit c then Some (n - 48)
  else if ascii_between 97 102 c then Some (n - 87)
  else if ascii_between 65 70 c then Some (n - 55)
  else None.

(** Four hexadecimal digits. *)
Definition hex4 (s : string) : option (Z * string) :=
  match s with
  | String a (String b (String c (String d r))) =>
      x ← hex_code a; y ← hex_code b; z ← hex_code c; w ← hex_code d;
      Some (4096 * x + 256 * y + 16 * z + w, r)
  | _ => None
  end.

Definition is_high (u : Z) : bool := (55296 <=? u) && (u <? 56320).
Definition is_low (u : Z) : bool := (56320 <=? u) && (u <? 57344).

(** After [\u]: one code unit, or a surrogate pair. *)
Definition unicode_escape (s : string) : option (string * string) :=
  '(u, r) ← hex4 s;
  if is_high u then
    match r with
    | String b (String k r') =>
        if Ascii.eqb b backslash && Ascii.eqb k "u" then
          '(l, r'') ← hex4 r';
          if is_low l then Some (utf8 (65536 + (u - 55296) * 1024 + (l - 56320)), r'')
          else Some (utf8 u, r)
        else Some (utf8 u, r)
    | _ => Some (utf8 u, r)
    end
  else Some (utf8 u, r).

Definition simple_escape (e : ascii) : option ascii :=
  if Ascii.eqb e "b" then Some (ascii_of_nat 8)
  else if Ascii.eqb e "t" then Some (ascii_of_nat 9)
  else if Ascii.eqb e "n" then Some (ascii_of_nat 10)
  else if Ascii.eqb e "f" then Some (ascii_of_nat 12)
  else if Ascii.eqb e "r" then Some (ascii_of_nat 13)
  else if Ascii.eqb e dquote || Ascii.eqb e backslash || Ascii.eqb e "/" then Some e
  else None.

(** The rest of a string literal after its opening quote. *)
Fixpoint string_rest (fuel : nat) (s : string) : option (string * string) :=
  match fuel, s with
  | S n, String c s' =>
      if Ascii.eqb c dquote then Some ("", s')
      else if Ascii.eqb c backslash then
        match s' with
        | String e s'' =>
            if Ascii.eqb e "u" then
              '(u, r) ← unicode_escape s'';
              '(t, r') ← string_rest n r;
              Some (u +:+ t, r')
            else
              x ← simple_escape e;
              '(t, r) ← string_rest n s'';
              Some (String x t, r)
        | EmptyString => None
        end
      else if (nat_of_ascii c <? 32)%nat then None
      else '(t, r) ← string_rest n s'; Some (String c t, r)
  | _, _ => None
  end.

Definition string_literal (s : string) : option (string * string) :=
  match s with
  | String c s' => if Ascii.eqb c dquote then string_rest (S (String.length s')) s' else None
  | EmptyString => None
  end.

(** ** Numbers *)

Fixpoint digits (s : string) : string * string :=
  match s with
  | String c s' => if is_digit c then let (d, r) := digits s' in (String c d, r) else ("", s)
  | EmptyString => ("", "")
  end.

Fixpoint digits_value (acc : Z) (d : string) : Z :=
  match d with
  | String c d' => digits_value (10 * acc + (Z.of_nat (nat_of_ascii c) - 48)) d'
  | EmptyString => acc
  end.

Definition fraction (s : string) : option (string * string) :=
  match s with
  | String c s' =>
      if Ascii.eqb c "." then
        match digits s' with
        | (EmptyString, _) => None
        | (d, r) => Some (String "." d, r)
        end
      else Some ("", s)
  | EmptyString => Some ("", "")
  end.

Definition exponent (s : string) : option (string * string) :=
  match s with
  | String c s' =>
      if Ascii.eqb c "e" || Ascii.eqb c "E" then
        let '(sign, s'') := match s' with
          | String k t => if Ascii.eqb k "+" || Ascii.eqb k "-" then (String k "", t) else ("", s')
          | EmptyString => ("", s')
          end in
        match digits s'' with
        | (EmptyString, _) => None
        | (d, r) => Some (String c (sign +:+ d), r)
        end
      else Some ("", s)
  | EmptyString => Some ("", "")
  end.

(** The integer part: [0] or digits that do not start with [0]. *)
Definition number (s : string) : option (json * string) :=
  let '(neg, body) := match s with
    | String c s' => if Ascii.eqb c "-" then (true, s') else (false, s)
    | EmptyString => (false, s)
    end in
  let '(int, r) := match body with
    | String c s' => if Ascii.eqb c "0" then ("0", s') else digits body
    | EmptyString => ("", body)
    end in
  match int with
  | EmptyString => None
  | _ =>
      '(frac, r1) ← fraction r;
      '(exp, r2) ← exponent r1;
      let v := digits_value 0 int in
      match frac, exp with
      | EmptyString, EmptyString => Some (JNum (if neg then - v else v), r2)
      | _, _ => Some (JFrac ((if neg then "-" else "") +:+ int +:+ frac +:+ exp), r2)
      end
  end.

(** ** Values *)

(** Assignment of a member: a key that is present keeps its place. *)
Fixpoint set_member (k : string) (v : json) (fields : list (string * json)) : list (string * json) :=
  match fields with
  | [] => [(k, v)]
  | (k', v') :: rest => if String.eqb k k' then (k, v) :: rest else (k', v') :: set_member k v rest
  end.

Definition expect (w : string) (s : string) : option string :=
  if starts_with w s then Some (string_drop (String.length w) s) else None.

(** One unit of fuel per value, element and member. *)
Fixpoint value (fuel : nat) (s : string) : option (json * string) :=
  match fuel with
  | O => None
  | S n =>
      let s := skip_space s in
      match s with
      | EmptyString => None
      | String c s' =>
          if Ascii.eqb c dquote then '(t, r) ← string_literal s; Some (JStr t, r)
          else if Ascii.eqb c "[" then
            match skip_space s' with
            | String d r => if Ascii.eqb d "]" then Some (JArr [], r) else '(l, r') ← elements n s'; Some (JArr l, r')
            | EmptyString => None
            end
          else if Ascii.eqb c "{" then
            match skip_space s' with
            | String d r => if Ascii.eqb d "}" then Some (JObj [], r) else '(l, r') ← members n [] s'; Some (JObj l, r')
            | EmptyString => None
            end
          else if Ascii.eqb c "t" then r ← expect "true" s; Some (JBool true, r)
          else if Ascii.eqb c "f" then r ← expect "false" s; Some (JBool false, r)
          else if Ascii.eqb c "n" then r ← expect "null" s; Some (JNull, r)
          else number s
      end
  end
with elements (fuel : nat) (s : string) : option (list json * string) :=
  match fuel with
  | O => None
  | S n =>
      '(v, r) ← value n s;
      match skip_space r with
      | String c r' =>
          if Ascii.eqb c "]" then Some ([v], r')
          else if Ascii.eqb c "," then '(l, r'') ← elements n r'; Some (v :: l, r'')
          else None
      | EmptyString => None
      end
  end
with members (fuel : nat) (acc : list (string * json)) (s : string) : option (list (string * json) * string) :=
  match fuel with
  | O => None
  | S n =>
      '(k, r) ← string_literal (skip_space s);
      match skip_space r with
      | String c r' =>
          if Ascii.eqb c ":" then
            '(v, r'') ← value n r';
            let acc' := set_member k v acc in
            match skip_space r'' with
            | String d r3 =>
                if Ascii.eqb d "}" then Some (acc', r3)
                else if Ascii.eqb d "," then members n acc' r3
                else None
            | EmptyString => None
            end
          else None
      | EmptyString => None
      end
  end.

(** [JSON.parse(s)]; [None] is a [SyntaxError]. *)
Definition parse_text (s : string) : option json :=
  match value (S (2 * String.length s)) s with
  | Some (v, r) => match skip_space r with EmptyString => Some v | _ => None end
  | None => None
  end.

Example parse_text_example :
  parse_text ("{" +:+ json_quote "a" +:+ ": [1, -20, 3.50, true ]," +:+ json_quote "b" +:+ ":" +:+
    json_quote ("x" +:+ newline) +:+ "," +:+ json_quote "a" +:+ ":null}") =
  Some (JObj [("a", JNull); ("b", JStr ("x" +:+ newline))]).
Proof. vm_compute. reflexivity. Qed.

Example parse_text_escape : parse_text (String dquote ("\u00e9\ud83d\ude00" +:+ String dquote "")) =
  Some (JStr "é😀").
Proof. vm_compute. reflexivity. Qed.

(** ** What is printed is read back *)

Lemma digits_value_app acc a b : digits_value acc (a +:+ b) = digits_value (digits_value acc a) b.
Proof. revert acc. induction a as [|c a IH]; intros acc; [done|]. rewrite append_cons. apply IH. Qed.

Lemma string_forallb_app p a b : string_forallb p (a +:+ b) = string_forallb p a && string_forallb p b.
Proof. induction a as [|c a IH]; [done|]. rewrite append_cons. cbn. by rewrite IH, andb_assoc. Qed.

Lemma pretty_N_char_digit m : (m < 10)%N ->
  is_digit (pretty_N_char m) = true /\ Z.of_nat (nat_of_ascii (pretty_N_char m)) - 48 = Z.of_N m /\
  ((0 < m)%N -> pretty_N_char m <> "0"%char).
Proof.
  intros Hm. assert (m = 0 \/ m = 1 \/ m = 2 \/ m = 3 \/ m = 4 \/ m = 5 \/ m = 6 \/ m = 7 \/ m = 8 \/ m = 9)%N as Hc by lia.
  repeat (destruct Hc as [->|Hc]; [by split; [done|split; [done|intros; try lia; discriminate]]|]).
  subst. split; [done|split; [done|discriminate]].
Qed.

Lemma pretty_N_go_digits x :
  exists d, (forall s, pretty_N_go x s = d +:+ s) /\ string_forallb is_digit d = true /\
    digits_value 0 d = Z.of_N x /\ ((0 < x)%N -> exists c d', d = String c d' /\ c <> "0"%char).
Proof.
  induction (N.lt_wf_0 x) as [x _ IH]. destruct (N.eq_dec x 0%N) as [->|Hx].
  { exists "". split; [by intros s; rewrite pretty_N_go_0|]. split; [done|]. split; [done|lia]. }
  assert (Hm : (x mod 10 < 10)%N) by (apply N.mod_lt; lia).
  destruct (pretty_N_char_digit _ Hm) as (Hd & Hv & Hz).
  assert (Hdiv : x = (10 * (x / 10) + x mod 10)%N) by (apply N.div_mod; lia).
  destruct (IH (x / 10)%N ltac:(apply N.div_lt; lia)) as (d & Hs & Hall & Hval & Hhead).
  exists (d +:+ String (pretty_N_char (x mod 10)) "").
  split; [|split; [|split]].
  - intros s. rewrite pretty_N_go_step by lia. rewrite Hs, append_assoc. done.
  - rewrite string_forallb_app, Hall. cbn. by rewrite Hd.
  - rewrite digits_value_app, Hval. cbn. lia.
  - intros _. destruct (N.eq_dec (x / 10)%N 0%N) as [E|E].
    + rewrite E in *. destruct d as [|c d]; [|].
      * eexists _, _. split; [reflexivity|]. apply Hz. lia.
      * exfalso. assert (pretty_N_go 0%N "" = String c d +:+ "") as Hbad by apply Hs. by rewrite pretty_N_go_0 in Hbad.
    + destruct Hhead as (c & d' & -> & Hc); [lia|]. eexists _, _. split; [rewrite append_cons; reflexivity|done].
Qed.

Definition no_digit_head (r : string) : bool := match r with String c _ => negb (is_digit c) | EmptyString => true end.

Lemma digits_app d r : string_forallb is_digit d = true -> no_digit_head r = true -> digits (d +:+ r) = (d, r).
Proof.
  intros Hd Hr. induction d as [|c d IH].
  - rewrite append_nil_l. destruct r as [|c r]; [done|]. cbn in *. by destruct (is_digit c).
  - rewrite append_cons. cbn in *. apply andb_true_iff in Hd as [-> Hd]. by rewrite IH.
Qed.

(** What may follow a number. *)
Definition ends_number (r : string) : bool :=
  match r with
  | String c _ => negb (is_digit c || Ascii.eqb c "." || Ascii.eqb c "e" || Ascii.eqb c "E")
  | EmptyString => true
  end.

Lemma number_tail r : ends_number r = true -> no_digit_head r = true /\ fraction r = Some ("", r) /\ exponent r = Some ("", r).
Proof.
  destruct r as [|c r]; [done|]. cbn. rewrite !negb_true_iff, !orb_false_iff.
  intros [[[-> ->] ->] ->]. done.
Qed.

(** The digits of a natural number, read in the integer part. *)
Lemma integer_part x r : ends_number r = true ->
  exists c d, pretty x = String c d /\ Ascii.eqb c "-" = false /\
    (if Ascii.eqb c "0" then (String "0" "", d +:+ r) else digits (String c d +:+ r)) = (pretty x, r) /\
    digits_value 0 (pretty x) = Z.of_N x.
Proof.
  intros Hr. destruct (number_tail r Hr) as (Hh & _ & _). unfold pretty, pretty_N.
  destruct (decide (x = 0)%N) as [->|Hx].
  { exists "0"%char, "". done. }
  destruct (pretty_N_go_digits x) as (d & Hs & Hall & Hval & Hhead).
  destruct Hhead as (c & d' & -> & Hc); [lia|]. rewrite Hs, append_nil_r.
  exists c, d'. split; [done|]. assert (Hcd : is_digit c = true) by (cbn in Hall; by apply andb_true_iff in Hall as [? _]).
  split. { destruct (Ascii.eqb_spec c "-") as [->|]; [done|done]. }
  split; [|done]. apply Ascii.eqb_neq in Hc as ->. by apply digits_app.
Qed.

Lemma number_pretty z r : ends_number r = true -> number (pretty z +:+ r) = Some (JNum z, r).
Proof.
  intros Hr. destruct (number_tail r Hr) as (_ & Hf & He).
  assert (Hpos : forall (neg : bool) x, (if neg then - Z.of_N x else Z.of_N x) = z ->
    pretty z = (if neg then "-" else "") +:+ pretty x -> number (pretty z +:+ r) = Some (JNum z, r)).
  { intros neg x Hz ->. destruct (integer_part x r Hr) as (c & d & Hx & Hc & Hint & Hval).
    unfold number. rewrite append_assoc, Hx.
    assert (Hhead : (match (if neg then "-" else "") +:+ String c d +:+ r with
      | String c0 s' => if Ascii.eqb c0 "-" then (true, s') else (false, (if neg then "-" else "") +:+ String c d +:+ r)
      | EmptyString => (false, (if neg then "-" else "") +:+ String c d +:+ r) end) = (neg, String c d +:+ r)).
    { destruct neg; [done|]. rewrite append_nil_l, append_cons. by rewrite Hc. }
    rewrite Hhead. rewrite append_cons in *. rewrite Hint, Hx. cbn [mbind option_bind]. rewrite Hf. cbn [mbind option_bind].
    rewrite He. cbn [mbind option_bind]. rewrite <-Hx, Hval. by rewrite Hz. }
  destruct z as [|p|p].
  - by apply (Hpos false 0%N).
  - by apply (Hpos false (N.pos p)).
  - by apply (Hpos true (N.pos p)).
Qed.

Lemma string_rest_char n c t :
  string_rest (S n) (json_escape_char c +:+ t) =
  '(u, r) ← string_rest n t; Some (String c u, r).
Proof. destruct c as [[] [] [] [] [] [] [] []]; reflexivity. Qed.

Lemma string_rest_quoted n s r :
  (String.length s < n)%nat -> string_rest n (json_escape s +:+ String dquote r) = Some (s, r).
Proof.
  revert n. induction s as [|c s IH]; intros [|n] Hn; try (cbn in Hn; lia); [done|].
  cbn [json_escape]. rewrite append_assoc, string_rest_char, IH by (cbn in Hn; lia). done.
Qed.

Lemma json_escape_length s : (String.length s <= String.length (json_escape s))%nat.
Proof.
  induction s as [|c s IH]; [done|]. cbn [json_escape]. rewrite append_length. cbn [String.length].
  assert (1 <= String.length (json_escape_char c))%nat by (apply Nat.leb_le; destruct c as [[] [] [] [] [] [] [] []]; reflexivity).
  lia.
Qed.

Lemma string_literal_quote s r : string_literal (json_quote s +:+ r) = Some (s, r).
Proof.
  unfold json_quote. rewrite append_cons, append_assoc, append_cons, append_nil_l. cbn [string_literal].
  change (Ascii.eqb dquote dquote) with true. cbv iota. apply string_rest_quoted.
  rewrite append_length. assert (Hl := json_escape_length s). lia.
Qed.

(** Values [JSON.stringify] is given: no number kept as text, no repeated key. *)
Fixpoint plain (v : json) : Prop :=
  match v with
  | JFrac _ => False
  | JArr l => foldr (fun x P => plain x /\ P) True l
  | JObj fields => NoDup (map fst fields) /\ foldr (fun kv P => plain (snd kv) /\ P) True fields
  | _ => True
  end.

(** The fuel a value needs. *)
Fixpoint depth (v : json) : nat :=
  match v with
  | JArr l => S (foldr (fun x n => S (Nat.max (depth x) n)) 0 l)
  | JObj fields => S (foldr (fun kv n => S (Nat.max (depth (snd kv)) n)) 0 fields)
  | _ => 1
  end%nat.

Definition member_text (kv : string * json) : string := json_quote (fst kv) +:+ ":" +:+ json_compact (snd kv).

Lemma skip_space_char c s : is_json_space c = false -> skip_space (String c s) = String c s.
Proof. intros Hc. cbn. by rewrite Hc. Qed.

(** A character that starts a printed value. *)
Definition value_head (c : ascii) : bool :=
  is_digit c || Ascii.eqb c "-" || Ascii.eqb c dquote || Ascii.eqb c "[" || Ascii.eqb c "{" ||
  Ascii.eqb c "t" || Ascii.eqb c "f" || Ascii.eqb c "n".

Lemma number_head (z : Z) : exists c t, pretty z = String c t /\ (is_digit c || Ascii.eqb c "-") = true.
Proof.
  assert (Hn : forall x : N, exists c t, pretty x = String c t /\ is_digit c = true).
  { intros x. unfold pretty, pretty_N. destruct (decide (x = 0)%N) as [->|Hx]; [by eexists _, _|].
    destruct (pretty_N_go_digits x) as (d & Hs & Hall & _ & Hhead). destruct Hhead as (c & d' & -> & _); [lia|].
    rewrite Hs, append_nil_r. exists c, d'. split; [done|]. cbn in Hall. by apply andb_true_iff in Hall as [? _]. }
  destruct z as [|p|p].
  - by eexists _, _.
  - destruct (Hn (N.pos p)) as (c & t & He & Hd). exists c, t. split; [exact He|]. by rewrite Hd.
  - eexists _, _. split; [reflexivity|done].
Qed.

Lemma compact_head v : plain v -> exists c t, json_compact v = String c t /\ value_head c = true.
Proof.
  destruct v as [|[]|z|l|s|l|l]; cbn [plain json_compact]; intros Hp;
    try (eexists _, _; split; [reflexivity|reflexivity]); [|done].
  destruct (number_head z) as (c & t & He & Hc). exists c, t. split; [done|]. unfold value_head. by rewrite Hc.
Qed.

Lemma value_head_facts c : value_head c = true ->
  is_json_space c = false /\ Ascii.eqb c "]" = false /\ Ascii.eqb c "}" = false.
Proof. destruct c as [[] [] [] [] [] [] [] []]; vm_compute; done. Qed.

Lemma number_head_facts c : (is_digit c || Ascii.eqb c "-") = true ->
  Ascii.eqb c dquote = false /\ Ascii.eqb c "[" = false /\ Ascii.eqb c "{" = false /\
  Ascii.eqb c "t" = false /\ Ascii.eqb c "f" = false /\ Ascii.eqb c "n" = false.
Proof. destruct c as [[] [] [] [] [] [] [] []]; vm_compute; done. Qed.

Lemma set_member_fresh k v fields : k ∉ map fst fields -> set_member k v fields = fields ++ [(k, v)].
Proof.
  induction fields as [|[k' v'] l IH]; [done|]. cbn [map fst set_member]. intros [Hne Hin]%not_elem_of_cons.
  apply String.eqb_neq in Hne as ->. by rewrite IH.
Qed.

(** The three parsers at one fuel. *)
Record reads_back (n : nat) : Prop := {
  rb_value : forall v r, plain v -> (depth v <= n)%nat -> ends_number r = true ->
    value n (json_compact v +:+ r) = Some (v, r);
  rb_elements : forall l r, l <> [] -> foldr (fun x P => plain x /\ P) True l ->
    (foldr (fun x n => S (Nat.max (depth x) n)) 0 l <= n)%nat ->
    elements n (join "," (map json_compact l) +:+ String "]" r) = Some (l, r);
  rb_members : forall fields acc r, fields <> [] -> foldr (fun kv P => plain (snd kv) /\ P) True fields ->
    NoDup (map fst (acc ++ fields)) ->
    (foldr (fun kv n => S (Nat.max (depth (snd kv)) n)) 0 fields <= n)%nat ->
    members n acc (join "," (map member_text fields) +:+ String "}" r) = Some (acc ++ fields, r)
}.

Lemma elements_step n l r : reads_back n -> l <> [] ->
  foldr (fun x P => plain x /\ P) True l ->
  (foldr (fun x n => S (Nat.max (depth x) n)) 0 l <= S n)%nat ->
  elements (S n) (join "," (map json_compact l) +:+ String "]" r) = Some (l, r).
Proof.
  intros Hn Hl Hp Hd. destruct l as [|v l]; [done|]. cbn [foldr] in Hp, Hd. destruct Hp as [Hv Hp].
  destruct l as [|v2 l].
  - cbn [map join elements]. rewrite (rb_value n Hn) by (try done; lia). done.
  - change (join "," (map json_compact (v :: v2 :: l))) with
      (json_compact v +:+ "," +:+ join "," (map json_compact (v2 :: l))).
    rewrite !append_assoc, append_cons, append_nil_l. cbn [elements].
    rewrite (rb_value n Hn) by (try done; lia). cbn [mbind option_bind].
    rewrite skip_space_char by done. change (Ascii.eqb "," "]") with false. change (Ascii.eqb "," ",") with true. cbv iota.
    rewrite (rb_elements n Hn) by (try done; lia). done.
Qed.

Lemma members_step n fields acc r : reads_back n -> fields <> [] ->
  foldr (fun kv P => plain (snd kv) /\ P) True fields -> NoDup (map fst (acc ++ fields)) ->
  (foldr (fun kv n => S (Nat.max (depth (snd kv)) n)) 0 fields <= S n)%nat ->
  members (S n) acc (join "," (map member_text fields) +:+ String "}" r) = Some (acc ++ fields, r).
Proof.
  intros Hn Hl Hp Hnd Hd. destruct fields as [|[k v] l]; [done|]. cbn [foldr snd] in Hp, Hd. destruct Hp as [Hv Hp].
  assert (Hfresh : k ∉ map fst acc).
  { rewrite map_app in Hnd. apply NoDup_app in Hnd as (_ & Hdis & _). intros Hin. apply (Hdis k Hin). left. }
  assert (Hstart : forall tail, members (S n) acc (member_text (k, v) +:+ tail) =
    '(v', r'') ← value n (json_compact v +:+ tail);
    match skip_space r'' with
    | String d r3 => if Ascii.eqb d "}" then Some (set_member k v' acc, r3)
                     else if Ascii.eqb d "," then members n (set_member k v' acc) r3 else None
    | EmptyString => None
    end).
  { intros tail. unfold member_text. cbn [fst snd members]. rewrite !append_assoc.
    unfold json_quote at 1. rewrite append_cons, skip_space_char by done. rewrite <-append_cons. fold (json_quote k).
    rewrite string_literal_quote. cbn [mbind option_bind]. rewrite append_cons, append_nil_l.
    rewrite skip_space_char by done. done. }
  destruct l as [|kv2 l].
  - cbn [map join]. rewrite Hstart, (rb_value n Hn) by (try done; lia). cbn [mbind option_bind].
    rewrite skip_space_char by done. by rewrite set_member_fresh.
  - change (join "," (map member_text ((k, v) :: kv2 :: l))) with
      (member_text (k, v) +:+ "," +:+ join "," (map member_text (kv2 :: l))).
    rewrite !append_assoc, Hstart, append_cons, append_nil_l, (rb_value n Hn) by (try done; lia). cbn [mbind option_bind].
    rewrite skip_space_char by done. change (Ascii.eqb "," "}") with false. change (Ascii.eqb "," ",") with true. cbv iota.
    rewrite set_member_fresh by done. rewrite (rb_members n Hn); [|done|done| |lia].
    + by rewrite <-app_assoc.
    + by rewrite <-app_assoc.
Qed.

Lemma prefix_app w s : String.prefix w (w +:+ s) = true.
Proof. induction w as [|c w IH]; [by destruct s|]. rewrite append_cons. cbn. by destruct (ascii_dec c c). Qed.

Lemma string_drop_app w s : string_drop (String.length w) (w +:+ s) = s.
Proof. induction w as [|c w IH]; [by destruct s|]. rewrite append_cons. apply IH. Qed.

Lemma expect_app w s : expect w (w +:+ s) = Some s.
Proof. unfold expect, starts_with. by rewrite prefix_app, string_drop_app. Qed.

Lemma value_step n v r : reads_back n -> plain v -> (depth v <= S n)%nat -> ends_number r = true ->
  value (S n) (json_compact v +:+ r) = Some (v, r).
Proof.
  intros Hn Hp Hd Hr. destruct v as [|[]|z|l|s|l|l].
  - cbn [json_compact value]. rewrite append_cons, skip_space_char by done.
    rewrite <-(append_cons "n" "ull"). change (String "n" "ull") with "null". by rewrite expect_app.
  - cbn [json_compact value]. rewrite append_cons, skip_space_char by done.
    rewrite <-(append_cons "t" "rue"). change (String "t" "rue") with "true". by rewrite expect_app.
  - cbn [json_compact value]. rewrite append_cons, skip_space_char by done.
    rewrite <-(append_cons "f" "alse"). change (String "f" "alse") with "false". by rewrite expect_app.
  - cbn [json_compact]. destruct (number_head z) as (c & t & He & Hc).
    assert (Hv := number_pretty z r Hr). rewrite He in *. rewrite append_cons in *. cbn [value].
    rewrite skip_space_char by (apply value_head_facts; unfold value_head; by rewrite Hc).
    destruct (number_head_facts c Hc) as (-> & -> & -> & -> & -> & ->). exact Hv.
  - done.
  - cbn [json_compact]. unfold json_quote. rewrite append_cons. cbn [value]. rewrite skip_space_char by done.
    change (Ascii.eqb dquote dquote) with true. cbv iota. rewrite <-append_cons. fold (json_quote s).
    by rewrite string_literal_quote.
  - cbn [json_compact plain depth] in *. rewrite !append_assoc, !append_cons, !append_nil_l. cbn [value].
    rewrite skip_space_char by done. cbv iota.
    change (Ascii.eqb "[" dquote) with false. change (Ascii.eqb "[" "[") with true. cbv iota.
    destruct l as [|v l]; [done|].
    assert (Hhead : exists c t, join "," (map json_compact (v :: l)) +:+ String "]" r = String c t /\ value_head c = true).
    { cbn [foldr] in Hp. destruct (compact_head v) as (c & t & He & Hc); [apply Hp|].
      destruct l; cbn [map join]; rewrite He, append_cons; by eexists _, _. }
    assert (He := rb_elements n Hn (v :: l) r ltac:(done) Hp ltac:(lia)).
    destruct Hhead as (c & t & Hct & Hc). rewrite Hct in *.
    destruct (value_head_facts c Hc) as (Hs & Hb & _). rewrite skip_space_char, Hb by done. by rewrite He.
  - cbn [json_compact plain depth] in *. rewrite !append_assoc, !append_cons, !append_nil_l. cbn [value].
    rewrite skip_space_char by done. cbv iota.
    change (Ascii.eqb "{" dquote) with false. change (Ascii.eqb "{" "[") with false.
    change (Ascii.eqb "{" "{") with true. cbv iota.
    destruct l as [|kv l]; [done|]. destruct Hp as [Hnd Hp].
    assert (Hm := rb_members n Hn (kv :: l) [] r ltac:(done) Hp Hnd ltac:(lia)).
    unfold member_text in Hm.
    assert (Hhead : exists t, join "," (map (fun kv => json_quote (fst kv) +:+ ":" +:+ json_compact (snd kv)) (kv :: l)) +:+
      String "}" r = String dquote t).
    { destruct l; cbn [map join]; unfold json_quote; rewrite !append_cons; by eexists. }
    destruct Hhead as [t Ht]. rewrite Ht in *. rewrite skip_space_char by done. by rewrite Hm.
Qed.

Lemma depth_positive v : (1 <= depth v)%nat.
Proof. destruct v; cbn; lia. Qed.

Lemma reads_back_all n : reads_back n.
Proof.
  induction n as [|n IH].
  - split.
    + intros v r _ Hd. assert (Hv := depth_positive v). lia.
    + intros [|v l] r Hl _ Hd; [done|]. cbn in Hd. lia.
    + intros [|kv l] acc r Hl _ _ Hd; [done|]. cbn in Hd. lia.
  - split; intros; [by apply value_step|by apply elements_step|by apply members_step].
Qed.

(** The text of a value is long enough for the fuel of [parse_text]. *)
Definition short_enough (v : json) : Prop := (depth v <= S (2 * String.length (json_compact v)))%nat.

Lemma compact_nonempty v : plain v -> (1 <= String.length (json_compact v))%nat.
Proof. intros Hp. destruct (compact_head v Hp) as (c & t & -> & _). cbn. lia. Qed.

Lemma joined_depth {A} (d : A -> nat) (text : A -> string) l :
  (forall x, x ∈ l -> (d x <= S (2 * String.length (text x)))%nat /\ (1 <= String.length (text x))%nat) ->
  (foldr (fun x n => S (Nat.max (d x) n)) 0 l <= 2 * String.length (join "," (map text l)) + 2)%nat.
Proof.
  induction l as [|x l IH]; intros Hl; [cbn; lia|]. cbn [foldr].
  destruct (Hl x ltac:(left)) as [Hx H1]. specialize (IH (fun y Hy => Hl y ltac:(by right))).
  destruct l as [|y l]; [cbn [foldr map join] in *; lia|].
  change (join "," (map text (x :: y :: l))) with (text x +:+ "," +:+ join "," (map text (y :: l))).
  rewrite !append_length. cbn [String.length]. lia.
Qed.

Lemma foldr_plain {A} (P : A -> Prop) l : foldr (fun x Q => P x /\ Q) True l -> forall x, x ∈ l -> P x.
Proof.
  induction l as [|y l IH]; [by intros _ x ?%elem_of_nil|]. intros [Hy Hl] x [->|Hx]%elem_of_cons; [done|by apply IH].
Qed.

Lemma elem_depth {A} (d : A -> nat) l x : x ∈ l -> (d x < foldr (fun x n => S (Nat.max (d x) n)) 0 l)%nat.
Proof. induction l as [|y l IH]; [by intros ?%elem_of_nil|]. cbn [foldr]. intros [->|Hx%IH]%elem_of_cons; lia. Qed.

Lemma depth_bound v : plain v -> short_enough v.
Proof.
  remember (depth v) as k eqn:Ek. assert (Hk : (depth v <= k)%nat) by lia. clear Ek. revert v Hk.
  induction k as [|k IH]; intros v Hk Hp; [assert (Hv := depth_positive v); lia|].
  unfold short_enough. destruct v as [|[]|z|l|s|l|l]; try (cbn; lia).
  - cbn [depth json_compact plain] in *. rewrite !append_length. cbn [String.length].
    assert (Hj := joined_depth depth json_compact l). enough (forall x, x ∈ l -> _) as Hl by (specialize (Hj Hl); lia).
    intros x Hx. assert (Hpx := foldr_plain plain l Hp x Hx). split; [|by apply compact_nonempty].
    apply IH; [|done]. assert (Hd := elem_depth depth l x Hx). lia.
  - cbn [depth json_compact plain] in *. rewrite !append_length. cbn [String.length]. destruct Hp as [_ Hp].
    assert (Hj := joined_depth (fun kv => depth (snd kv)) (fun kv => json_quote (fst kv) +:+ ":" +:+ json_compact (snd kv)) l).
    enough (forall x, x ∈ l -> _) as Hl by (specialize (Hj Hl); lia).
    intros x Hx. assert (Hpx := foldr_plain (fun kv => plain (snd kv)) l Hp x Hx).
    assert (Hs : short_enough (snd x)).
    { apply IH; [|done]. assert (Hd := elem_depth (fun kv => depth (snd kv)) l x Hx). cbn in Hd. lia. }
    unfold short_enough in Hs. cbv beta. rewrite !append_length. cbn [String.length]. lia.
Qed.

(** [JSON.parse(JSON.stringify(v))] is [v]. *)
Lemma parse_compact v : plain v -> parse_text (json_compact v) = Some v.
Proof.
  intros Hp. unfold parse_text. rewrite <-(append_nil_r (json_compact v)) at 2.
  assert (Hd := depth_bound v Hp). unfold short_enough in Hd.
  rewrite (rb_value _ (reads_back_all _)); done.
Qed.

(** A file of one line of JSON. *)
Lemma parse_compact_line v : plain v -> parse_text (json_compact v +:+ newline) = Some v.
Proof.
  intros Hp. unfold parse_text. assert (Hd := depth_bound v Hp). unfold short_enough in Hd.
  rewrite (rb_value _ (reads_back_all _)); [done|done| |done]. rewrite append_length. lia.
Qed.

(** ** Members *)

Lemma assoc_set_member k k' v fields :
  assoc k (set_member k' v fields) = if String.eqb k k' then Some v else assoc k fields.
Proof.
  induction fields as [|[k1 v1] rest IH]; cbn; [done|].
  destruct (String.eqb_spec k' k1) as [->|Hne]; cbn.
  - by destruct (String.eqb k k1).
  - rewrite IH. destruct (String.eqb_spec k k1) as [->|]; [|done].
    destruct (String.eqb_spec k1 k') as [->|]; done.
Qed.

Lemma forallb_set_member (P : json -> bool) k v fields :
  P v = true -> forallb (fun kv => P (snd kv)) fields = true ->
  forallb (fun kv => P (snd kv)) (set_member k v fields) = true.
Proof.
  intros Hv. induction fields as [|[k1 v1] rest IH]; cbn; [by rewrite Hv|].
  intros [H1 H2]%andb_true_iff. destruct (String.eqb k k1); cbn; [by rewrite Hv|]. by rewrite H1, IH.
Qed.
