(* ===== verification/Sha256.v ===== *)
(** * SHA-256

    [createHash('sha256').update(s).digest('hex')] of node:crypto on the UTF-8
    bytes of [s] (FIPS 180-4).  The constants are computed from their
    definition: fractional bits of the roots of the first primes. *)

From S2P Require Import Prelude.

Open Scope Z_scope.

(** ** 32-bit words *)

Definition word_mod : Z := 2 ^ 32.
Definition wadd (a b : Z) : Z := (a + b) mod word_mod.
Definition wnot (a : Z) : Z := Z.lxor a (word_mod - 1).
Definition rotr (n a : Z) : Z :=
  Z.lor (Z.shiftr a n) (Z.land (Z.shiftl a (32 - n)) (word_mod - 1)).

(** ** Constants *)

Definition primes : list Z :=
  [2; 3; 5; 7; 11; 13; 17; 19; 23; 29; 31; 37; 41; 43; 47; 53; 59; 61; 67; 71; 73; 79; 83; 89;
   97; 101; 103; 107; 109; 113; 127; 131; 137; 139; 149; 151; 157; 163; 167; 173; 179; 181; 191;
   193; 197; 199; 211; 223; 227; 229; 233; 239; 241; 251; 257; 263; 269; 271; 277; 281; 283; 293;
   307; 311].

(** The integer cube root, bit by bit from [2^(n-1)]. *)
Fixpoint cbrt_bits (n : nat) (r a : Z) : Z :=
  match n with
  | O => r
  | S n' =>
      let c := r + 2 ^ Z.of_nat n' in
      cbrt_bits n' (if c * c * c <=? a then c else r) a
  end.

Definition initial_hash : list Z :=
  Eval vm_compute in map (fun p => Z.sqrt (p * 2 ^ 64) mod word_mod) (firstn 8 primes).

Definition round_constants : list Z :=
  Eval vm_compute in map (fun p => cbrt_bits 40 0 (p * 2 ^ 96) mod word_mod) primes.

(** ** Padding and blocks *)

Fixpoint bytes_of (s : string) : list Z :=
  match s with
  | EmptyString => []
  | String c s' => Z.of_nat (nat_of_ascii c) :: bytes_of s'
  end.

(** [n] as [w] big-endian bytes. *)
Fixpoint be_bytes (w : nat) (n : Z) : list Z :=
  match w with
  | O => []
  | S w' => be_bytes w' (n / 256) ++ [n mod 256]
  end.

Definition padded (bytes : list Z) : list Z :=
  let len := Z.of_nat (length bytes) in
  let zeros := Z.to_nat ((55 - len) mod 64) in
  bytes ++ [128] ++ replicate zeros 0 ++ be_bytes 8 (8 * len).

Fixpoint words_of (bytes : list Z) : list Z :=
  match bytes with
  | a :: b :: c :: d :: rest => a * 16777216 + b * 65536 + c * 256 + d :: words_of rest
  | _ => []
  end.

(** ** Compression *)

(** The message schedule, newest word first. *)
Fixpoint schedule (n : nat) (ws : list Z) : list Z :=
  match n with
  | O => ws
  | S n' =>
      let at_ i := nth i ws 0 in
      let w15 := at_ 14%nat in
      let w2 := at_ 1%nat in
      let s0 := Z.lxor (Z.lxor (rotr 7 w15) (rotr 18 w15)) (Z.shiftr w15 3) in
      let s1 := Z.lxor (Z.lxor (rotr 17 w2) (rotr 19 w2)) (Z.shiftr w2 10) in
      schedule n' ((at_ 15%nat + s0 + at_ 6%nat + s1) mod word_mod :: ws)
  end.

Record hash_state := HashState { ha : Z; hb : Z; hc : Z; hd : Z; he : Z; hf : Z; hg : Z; hh : Z }.

Definition hash_round (s : hash_state) (kw : Z * Z) : hash_state :=
  let '(HashState a b c d e f g h) := s in
  let s1 := Z.lxor (Z.lxor (rotr 6 e) (rotr 11 e)) (rotr 25 e) in
  let ch := Z.lxor (Z.land e f) (Z.land (wnot e) g) in
  let t1 := (h + s1 + ch + fst kw + snd kw) mod word_mod in
  let s0 := Z.lxor (Z.lxor (rotr 2 a) (rotr 13 a)) (rotr 22 a) in
  let maj := Z.lxor (Z.lxor (Z.land a b) (Z.land a c)) (Z.land b c) in
  HashState (wadd t1 (wadd s0 maj)) a b c (wadd d t1) e f g.

Definition state_words (s : hash_state) : list Z :=
  [ha s; hb s; hc s; hd s; he s; hf s; hg s; hh s].

Definition state_of (l : list Z) : hash_state :=
  let at_ i := nth i l 0 in
  HashState (at_ 0%nat) (at_ 1%nat) (at_ 2%nat) (at_ 3%nat) (at_ 4%nat) (at_ 5%nat) (at_ 6%nat) (at_ 7%nat).

Definition compress (h : list Z) (block : list Z) : list Z :=
  let ws := rev (schedule 48 (rev block)) in
  let out := fold_left hash_round (combine round_constants ws) (state_of h) in
  map (fun xy => wadd (fst xy) (snd xy)) (combine h (state_words out)).

(** One block of 16 words per unit of fuel. *)
Fixpoint digest_blocks (fuel : nat) (h : list Z) (ws : list Z) : list Z :=
  match fuel, ws with
  | S n, _ :: _ => digest_blocks n (compress h (firstn 16 ws)) (skipn 16 ws)
  | _, _ => h
  end.

Definition hex_char (n : Z) : ascii :=
  ascii_of_nat (Z.to_nat (if n <? 10 then 48 + n else 87 + n)).

Fixpoint hex (bytes : list Z) : string :=
  match bytes with
  | [] => ""
  | b :: rest => String (hex_char (b / 16)) (String (hex_char (b mod 16)) (hex rest))
  end.

Definition sha256_hex (s : string) : string :=
  let ws := words_of (padded (bytes_of s)) in
  hex (mjoin (map (be_bytes 4) (digest_blocks (length ws) initial_hash ws))).

#[global] Arguments sha256_hex : simpl never.

Lemma bytes_of_length s : length (bytes_of s) = String.length s.
Proof. induction s; simpl; congruence. Qed.

Lemma be_bytes_length w n : length (be_bytes w n) = w.
Proof. revert n. induction w; intros n; simpl; rewrite ?length_app, ?IHw; simpl; lia. Qed.

(** The padded message is a whole number of 64-byte blocks. *)
Lemma padded_blocks bytes : (Z.of_nat (length (padded bytes))) mod 64 = 0.
Proof.
  unfold padded. rewrite !length_app, length_replicate, be_bytes_length. cbn [length].
  set (len := Z.of_nat (length bytes)).
  assert (0 <= (55 - len) mod 64) by (apply Z.mod_pos_bound; lia).
  rewrite !Nat2Z.inj_add, Z2Nat.id by done. fold len. Z.div_mod_to_equations. lia.
Qed.

Lemma compress_length h block : length h = 8%nat -> length (compress h block) = 8%nat.
Proof. intros H. unfold compress. rewrite length_map, length_combine, H. done. Qed.

Lemma digest_blocks_length n h ws : length h = 8%nat -> length (digest_blocks n h ws) = 8%nat.
Proof.
  revert h ws. induction n as [|n IH]; intros h ws H; [done|]. simpl.
  destruct ws as [|w ws]; [done|]. apply IH. by apply compress_length.
Qed.

Lemma hex_length bytes : String.length (hex bytes) = (2 * length bytes)%nat.
Proof. induction bytes; simpl; lia. Qed.

(** A digest prints as 64 characters. *)
Lemma sha256_hex_length s : String.length (sha256_hex s) = 64%nat.
Proof.
  unfold sha256_hex. set (ws := words_of _). rewrite hex_length.
  assert (H : length (digest_blocks (length ws) initial_hash ws) = 8%nat)
    by (by apply digest_blocks_length).
  destruct (digest_blocks _ _ _) as [|? [|? [|? [|? [|? [|? [|? [|? [|]]]]]]]]]; done.
Qed.

(** ... of lower-case hexadecimal digits. *)
Lemma is_lower_hex_char n : 0 <= n < 16 -> is_lower_hex (hex_char n) = true.
Proof.
  intros Hn. pose proof (eq_refl : forallb (fun m => is_lower_hex (hex_char (Z.of_nat m))) (seq 0 16) = true) as Hall.
  rewrite forallb_forall in Hall. specialize (Hall (Z.to_nat n)). rewrite Z2Nat.id in Hall by lia.
  apply Hall, in_seq. lia.
Qed.

Lemma hex_lower bytes : Forall (fun b => 0 <= b < 256) bytes -> string_forallb is_lower_hex (hex bytes) = true.
Proof.
  induction 1 as [|b bytes Hb _ IH]; cbn [hex string_forallb]; [done|]. rewrite !is_lower_hex_char, IH; [done|..].
  - apply Z.mod_pos_bound. lia.
  - split; [apply Z.div_pos; lia|apply Z.div_lt_upper_bound; lia].
Qed.

Lemma be_bytes_range w n : Forall (fun b => 0 <= b < 256) (be_bytes w n).
Proof.
  revert n. induction w as [|w IH]; intros n; cbn [be_bytes]; [done|]. apply Forall_app. split; [apply IH|].
  repeat constructor; apply Z.mod_pos_bound; lia.
Qed.

Lemma sha256_hex_lower s : string_forallb is_lower_hex (sha256_hex s) = true.
Proof.
  unfold sha256_hex. apply hex_lower. apply Forall_forall. intros b Hb. apply list_elem_of_join in Hb as (l & Hb & Hl).
  apply list_elem_of_fmap in Hl as (n & -> & _). pose proof (be_bytes_range 4 n) as Hr. rewrite Forall_forall in Hr. auto.
Qed.

Example sha256_abc : sha256_hex "abc" =
  "ba7816bf8f01cfea414140de5dae2223b00361a396177a9cb410ff61f20015ad".
Proof. vm_compute. reflexivity. Qed.

Example sha256_empty : sha256_hex "" =
  "e3b0c44298fc1c149afbf4c8996fb92427ae41e4649b934ca495991b7852b855".
Proof. vm_compute. reflexivity. Qed.

Example sha256_two_blocks :
  sha256_hex "abcdbcdecdefdefgefghfghighijhijkijkljklmklmnlmnomnopnopq" =
  "248d6a61d20638b8e5c026930c3e6039a33ce45964ff2167f6ecedd419db06c1".
Proof. vm_compute. reflexivity. Qed.
