(* ===== verification/ShellEscape.v ===== *)
(** * Shell quoting ([src/shell-escape.ts])

    The commands the client prints for the operator to paste quote every
    argument with [shellEscape].  [sh_words] reads a command line the way a
    POSIX shell splits and unquotes it; a quoted argument is one word, whatever
    characters it holds. *)

From S2P Require Import Prelude.

Definition squote : ascii := ascii_of_nat 39.
Definition sh_backslash : ascii := ascii_of_nat 92.

(** [s.replace(/'/g, r)] *)
Fixpoint replace_squotes (r s : string) : string :=
  match s with
  | EmptyString => ""
  | String c s' =>
      if Ascii.eqb c squote then r +:+ replace_squotes r s' else String c (replace_squotes r s')
  end.

(** The four characters a quote inside the argument becomes: close, escaped
    quote, open. *)
Definition quote_escape : string :=
  String squote (String sh_backslash (String squote (String squote ""))).

(* src/src/shell-escape.ts 20-22 shellEscape *)
Definition shellEscape (s : string) : string :=
  String squote (replace_squotes quote_escape s +:+ String squote "").

(** ** A POSIX shell's reading of the characters the client prints

    Outside quotes a space ends a word, [&&] ends a command and a backslash takes
    the next character literally; inside single quotes every character but the
    closing quote is literal.  [cur] is the word being read, [None] between
    words; [ws] the words of the command so far; [cs] the finished commands.  A
    character with another meaning to the shell outside quotes makes the result
    [None]. *)
Definition sh_plain (c : ascii) : bool :=
  is_alnum c || Ascii.eqb c "-"%char || Ascii.eqb c "_"%char || Ascii.eqb c "/"%char ||
  Ascii.eqb c "."%char || Ascii.eqb c ":"%char || Ascii.eqb c "@"%char || Ascii.eqb c ","%char.

Definition word_char (cur : option string) (c : ascii) : option string :=
  Some (default "" cur +:+ String c "").

Inductive sh_mode := Bare | Quoted | Escaped | Ampersand.

Fixpoint sh_scan (mode : sh_mode) (cur : option string) (ws : list string) (cs : list (list string))
    (s : string) : option (list (list string)) :=
  match s with
  | EmptyString =>
      match mode with
      | Bare => Some (cs ++ [ws ++ option_list cur])
      | _ => None
      end
  | String c s' =>
      match mode with
      | Quoted =>
          if Ascii.eqb c squote then sh_scan Bare cur ws cs s'
          else sh_scan Quoted (word_char cur c) ws cs s'
      | Escaped => sh_scan Bare (word_char cur c) ws cs s'
      | Ampersand =>
          if Ascii.eqb c "&"%char then sh_scan Bare None [] (cs ++ [ws ++ option_list cur]) s' else None
      | Bare =>
          if Ascii.eqb c squote then sh_scan Quoted (Some (default "" cur)) ws cs s'
          else if Ascii.eqb c sh_backslash then sh_scan Escaped cur ws cs s'
          else if Ascii.eqb c "&"%char then sh_scan Ampersand cur ws cs s'
          else if Ascii.eqb c " "%char then sh_scan Bare None (ws ++ option_list cur) cs s'
          else if sh_plain c then sh_scan Bare (word_char cur c) ws cs s'
          else None
      end
  end.

(** The commands of a line, each a list of words. *)
Definition sh_commands (s : string) : option (list (list string)) := sh_scan Bare None [] [] s.

Lemma sh_scan_quote_escape w ws cs r :
  sh_scan Quoted (Some w) ws cs (quote_escape +:+ r) =
  sh_scan Quoted (Some (w +:+ String squote "")) ws cs r.
Proof. reflexivity. Qed.

Lemma sh_scan_quoted s w ws cs rest :
  sh_scan Quoted (Some w) ws cs (replace_squotes quote_escape s +:+ rest) =
  sh_scan Quoted (Some (w +:+ s)) ws cs rest.
Proof.
  revert w. induction s as [|c s IH]; intros w.
  - by rewrite append_nil_r.
  - cbn [replace_squotes]. destruct (Ascii.eqb c squote) eqn:E.
    + apply Ascii.eqb_eq in E as ->. rewrite append_assoc, sh_scan_quote_escape, IH.
      by rewrite append_assoc, append_cons, append_nil_l.
    + rewrite append_cons. cbn [sh_scan]. rewrite E. unfold word_char. cbn [default].
      rewrite IH. by rewrite append_assoc, append_cons, append_nil_l.
Qed.

(** An escaped argument is read back as itself, wherever it stands. *)
Lemma sh_scan_shellEscape s ws cs rest :
  sh_scan Bare None ws cs (shellEscape s +:+ rest) = sh_scan Bare (Some s) ws cs rest.
Proof.
  unfold shellEscape. rewrite append_cons, append_assoc. cbn [sh_scan].
  change (Ascii.eqb squote squote) with true. cbn match. cbn [default].
  rewrite sh_scan_quoted, append_cons, !append_nil_l. reflexivity.
Qed.
