(* ===== verification/SseParser.v ===== *)
(** * The event stream parser ([parseSSE], [parseEventBlock] of [src/log-stream.ts])

    The response body arrives in chunks whose decoded texts are the input here.
    [frames] is the specification: cut the whole text at the first blank line,
    again and again. *)

From S2P Require Import Prelude JsDate JsonText.

Open Scope Z_scope.

(** What the stream takes from [borgmcp-shared]: the citation decoder, the code
    of a protocol error envelope, and the order of broadcast positions. *)
Record hwm := Hwm { h_id : string; h_created_at : string }.

#[export] Instance hwm_eq_dec : EqDecision hwm.
Proof. solve_decision. Defined.

Class StreamEnv := {
  decodeDocumentCitations : json -> option json;
  protocol_error_code : json -> option string;
  compareBroadcastHwm : hwm -> hwm -> Z
}.

(* src/src/log-stream.ts 1344-1352 ParsedEvent *)
Inductive parsed_event :=
| EvLog (id : string) (data : json) (wake_nonce : option string) (cursor : option json)
| EvHeartbeat (ts : option string) (h : option hwm)
| EvBookmark (as_of : option string)
| EvEviction (id cube_id reason : option string)
| EvError (code : string)
| EvUnknown (raw : string).

(** ** Text *)

Definition lf : ascii := ascii_of_nat 10.

Definition is_lf (c : ascii) : bool := Ascii.eqb c lf.

(** [s.split('\n')] *)
Fixpoint split_lines (s : string) : list string :=
  match s with
  | EmptyString => [""]
  | String c s' =>
      if is_lf c then "" :: split_lines s'
      else match split_lines s' with
           | l :: rest => String c l :: rest
           | [] => [String c ""]
           end
  end.

(** [s.endsWith('\n')] *)
Fixpoint ends_lf (s : string) : bool :=
  match s with
  | EmptyString => false
  | String c EmptyString => is_lf c
  | String _ s' => ends_lf s'
  end.

(** [s.slice(0, -1)] of a string that ends with an ASCII character *)
Fixpoint drop_last (s : string) : string :=
  match s with
  | EmptyString | String _ EmptyString => ""
  | String c s' => String c (drop_last s')
  end.

Definition starts_lf (s : string) : bool := match s with String c _ => is_lf c | EmptyString => false end.

(** [idx = s.indexOf('\n\n')] with [s.slice(0, idx)] and [s.slice(idx + 2)] *)
Fixpoint blank_line (s : string) : option (string * string) :=
  match s with
  | EmptyString => None
  | String c s' =>
      if is_lf c && starts_lf s' then Some ("", string_drop 1 s')
      else match blank_line s' with Some (a, b) => Some (String c a, b) | None => None end
  end.

Section Parser.
Context `{StreamEnv}.

(** ** One block *)

Record block_fields := BlockFields { bf_event : option string; bf_id : option string; bf_data : list string }.

Definition block_line (f : block_fields) (line : string) : block_fields :=
  if starts_with "event:" line then BlockFields (Some (trim (string_drop 6 line))) (bf_id f) (bf_data f)
  else if starts_with "id:" line then BlockFields (bf_event f) (Some (trim (string_drop 3 line))) (bf_data f)
  else if starts_with "data:" line then BlockFields (bf_event f) (bf_id f) (bf_data f ++ [trim (string_drop 5 line)])
  else f.

(** [candidate.k] is a non-empty string *)
Definition nonempty_member (k : string) (v : json) : option string :=
  match jget k v with Some (JStr s) => if String.eqb s "" then None else Some s | _ => None end.

(* src/src/log-stream.ts 1543-1552 parseHeartbeatHwm *)
Definition parseHeartbeatHwm (v : option json) : option hwm :=
  match v with
  | Some (JObj _ as o) =>
      match nonempty_member "id" o, nonempty_member "created_at" o with
      | Some id, Some at_ => Some (Hwm id at_)
      | _, _ => None
      end
  | _ => None
  end.

(** [x ?? y] *)
Definition nullish (x : option json) (y : json) : json :=
  match x with None | Some JNull => y | Some v => v end.

(** The two string members an entry's cursor needs. *)
Definition cursor_member (parsed : json) : option json :=
  match jget "cursor" parsed with
  | Some c =>
      match jstr (jget "id" c), jstr (jget "created_at" c) with
      | Some _, Some _ => Some c
      | _, _ => None
      end
  | None => None
  end.

Definition with_documents (entry : json) : option json :=
  match jget "documents" entry with
  | None => Some entry
  | Some d =>
      match decodeDocumentCitations d, entry with
      | Some d', JObj fields => Some (JObj (set_member "documents" d' fields))
      | _, _ => None
      end
  end.

Definition log_event (id : string) (block dataStr : string) : option parsed_event :=
  match parse_text dataStr with
  | None => None
  | Some parsed =>
      match with_documents (nullish (jget "entry" parsed) parsed) with
      | None => Some (EvUnknown block)
      | Some entry => Some (EvLog id entry (jstr (jget "wake_nonce" entry)) (cursor_member parsed))
      end
  end.

(** A parsed value that is not [null]: reading a member of [null] throws. *)
Definition object_or_primitive (s : string) : option json :=
  match parse_text s with Some JNull | None => None | Some v => Some v end.

(* src/src/log-stream.ts 1438-1527 parseEventBlock *)
Definition parseEventBlock (block : string) : option parsed_event :=
  let f := fold_left block_line (split_lines block) (BlockFields None None []) in
  let dataStr := join newline (bf_data f) in
  match bf_event f with
  | None => None
  | Some name =>
      if String.eqb name "" then None
      else if String.eqb name "log" then
        match bf_id f with
        | None => None
        | Some id => if String.eqb id "" then None else log_event id block dataStr
        end
      else if String.eqb name "heartbeat" then
        match object_or_primitive dataStr with
        | Some v => Some (EvHeartbeat (jstr (jget "ts" v)) (parseHeartbeatHwm (jget "hwm" v)))
        | None => Some (EvHeartbeat None None)
        end
      else if String.eqb name "bookmark" then
        match object_or_primitive dataStr with
        | Some v => Some (EvBookmark (jstr (jget "as_of" v)))
        | None => Some (EvBookmark None)
        end
      else if String.eqb name "eviction" then
        let id := match bf_id f with Some i => if String.eqb i "" then None else Some i | None => None end in
        match object_or_primitive dataStr with
        | Some v => Some (EvEviction id (jstr (jget "cube_id" v)) (jstr (jget "reason" v)))
        | None => Some (EvEviction id None None)
        end
      else if String.eqb name "error" then
        match parse_text dataStr with
        | Some v => match protocol_error_code v with Some code => Some (EvError code) | None => Some (EvUnknown block) end
        | None => Some (EvUnknown block)
        end
      else Some (EvUnknown block)
  end.

(** ** The body *)

(** The partial frame and its size. *)
Record sse_state := SseState { ss_buffer : string; ss_bytes : Z }.

Definition sse_empty : sse_state := SseState "" 0.

(** [None]: the frame exceeds the limit, which throws. *)
(* src/src/log-stream.ts 1368-1375 appendFragment *)
Definition appendFragment (max : option Z) (st : sse_state) (fragment : string) : option sse_state :=
  let nextBytes := ss_bytes st + Z.of_nat (String.length fragment) in
  if match max with Some m => m <? nextBytes | None => false end then None
  else Some (SseState (ss_buffer st +:+ fragment) nextBytes).

Definition yield (e : option parsed_event) (rest : list parsed_event) : list parsed_event :=
  match e with Some x => x :: rest | None => rest end.

(** One iteration of the loop per unit of fuel; each consumes a character, so
    [S (String.length text)] is enough.  The events yielded, and the state or a
    throw. *)
(* src/src/log-stream.ts 1377-1406 drainText *)
Fixpoint drainText (fuel : nat) (max : option Z) (st : sse_state) (remaining : string)
    : list parsed_event * option sse_state :=
  match fuel with
  | O => ([], Some st)
  | S n =>
      if String.eqb remaining "" then ([], Some st)
      else if ends_lf (ss_buffer st) && starts_lf remaining then
        let '(es, r) := drainText n max sse_empty (string_drop 1 remaining) in
        (yield (parseEventBlock (drop_last (ss_buffer st))) es, r)
      else
        match blank_line remaining with
        | None => ([], appendFragment max st remaining)
        | Some (before, after_) =>
            match appendFragment max st before with
            | None => ([], None)
            | Some st' =>
                let '(es, r) := drainText n max sse_empty after_ in
                (yield (parseEventBlock (ss_buffer st')) es, r)
            end
        end
  end.

Definition drain (max : option Z) (st : sse_state) (text : string) := drainText (S (String.length text)) max st text.

(** How the generator ends: after the last chunk, or by a throw. *)
Inductive sse_end := Closed | LimitExceeded.

(** [chunks] are the decoded texts of the reads, the decoder's tail included. *)
(* src/src/log-stream.ts 1359-1436 parseSSE *)
Fixpoint parse_chunks (max : option Z) (st : sse_state) (chunks : list string) : list parsed_event * sse_end :=
  match chunks with
  | [] => (if String.eqb (trim (ss_buffer st)) "" then [] else yield (parseEventBlock (ss_buffer st)) [], Closed)
  | text :: rest =>
      match drain max st text with
      | (es, Some st') => let '(es', r) := parse_chunks max st' rest in (es ++ es', r)
      | (es, None) => (es, LimitExceeded)
      end
  end.

Definition parseSSE (max : option Z) (chunks : list string) : list parsed_event * sse_end :=
  parse_chunks max sse_empty chunks.
End Parser.

(** * The event stream is the same in any chunks

    [frames] cuts a text at blank lines one character at a time, so that it does
    not see where a chunk ends.  Without a limit [parseSSE] is [frames]; with one
    it is [frames] up to the frame that does not fit. *)

(** ** The specification *)

(** The finished frames, and the frame under way. *)
Fixpoint frames (cur : string) (s : string) : list string * string :=
  match s with
  | EmptyString => ([], cur)
  | String c s' =>
      if ends_lf cur && is_lf c then
        let '(fs, last_frame) := frames "" s' in (drop_last cur :: fs, last_frame)
      else frames (cur +:+ String c "") s'
  end.

Lemma ends_lf_snoc s c : ends_lf (s +:+ String c "") = is_lf c.
Proof. induction s as [|x s IH]; [done|]. rewrite append_cons. cbn. rewrite IH. by destruct (s +:+ String c "") eqn:E; destruct s. Qed.

Lemma drop_last_snoc s c : drop_last (s +:+ String c "") = s.
Proof.
  induction s as [|x s IH]; [done|]. rewrite append_cons. cbn. rewrite IH.
  destruct s; [done|by rewrite append_cons].
Qed.

Lemma frames_app cur a b :
  frames cur (a +:+ b) =
  let '(fs, cur') := frames cur a in let '(fs', last_frame) := frames cur' b in (fs ++ fs', last_frame).
Proof.
  revert cur. induction a as [|c a IH]; intros cur.
  - cbn [frames]. rewrite append_nil_l. by destruct (frames cur b).
  - rewrite append_cons. cbn [frames]. destruct (_ && _); [|apply IH].
    rewrite IH. destruct (frames "" a) as [fs cur']. by destruct (frames cur' b).
Qed.

(** No blank line in the text, nor across its start. *)
Lemma frames_quiet cur text :
  blank_line text = None -> ends_lf cur && starts_lf text = false -> frames cur text = ([], cur +:+ text).
Proof.
  revert cur. induction text as [|c s IH]; intros cur Hb Hs; [by rewrite append_nil_r|].
  cbn [frames starts_lf] in *. rewrite Hs. cbn [blank_line] in Hb.
  destruct (is_lf c && starts_lf s) eqn:E; [done|]. rewrite IH.
  - by rewrite append_assoc.
  - destruct (blank_line s) as [[]|]; done.
  - by rewrite ends_lf_snoc.
Qed.

Lemma blank_line_split text before after_ :
  blank_line text = Some (before, after_) ->
  text = before +:+ String lf (String lf after_) /\ blank_line (before +:+ String lf "") = None.
Proof.
  revert before. induction text as [|c s IH]; intros before; [done|]. cbn [blank_line].
  destruct (is_lf c && starts_lf s) eqn:E.
  - intros [= <- <-]. apply andb_true_iff in E as [Hc Hs]. apply Ascii.eqb_eq in Hc as ->.
    destruct s as [|d s]; [done|]. cbn in Hs. apply Ascii.eqb_eq in Hs as ->. done.
  - destruct (blank_line s) as [[a b]|]; [|done]. intros [= <- <-]. destruct (IH a eq_refl) as [-> Hn].
    split; [done|]. rewrite append_cons. cbn [blank_line]. rewrite Hn.
    assert (Hst : starts_lf (a +:+ String lf (String lf b)) = starts_lf (a +:+ String lf "")) by (by destruct a).
    rewrite <-Hst, E. done.
Qed.

Lemma frames_cut cur before after_ :
  blank_line (before +:+ String lf "") = None -> ends_lf cur && starts_lf (before +:+ String lf "") = false ->
  frames cur (before +:+ String lf (String lf after_)) =
  let '(fs, last_frame) := frames "" after_ in ((cur +:+ before) :: fs, last_frame).
Proof.
  intros Hb Hs.
  assert (E : before +:+ String lf (String lf after_) = (before +:+ String lf "") +:+ String lf after_)
    by (by rewrite append_assoc).
  rewrite E, frames_app, frames_quiet by done. cbn [frames].
  rewrite <-append_assoc, ends_lf_snoc, drop_last_snoc. change (is_lf lf) with true. cbn [andb].
  by destruct (frames "" after_).
Qed.

Section Spec.
Context `{StreamEnv}.

Definition parse_all (fs : list string) : list parsed_event := omap parseEventBlock fs.

Lemma yield_parse b es fs : es = parse_all fs -> yield (parseEventBlock b) es = parse_all (b :: fs).
Proof. intros ->. unfold parse_all. cbn. by destruct (parseEventBlock b). Qed.

(** The state of the parser: its counter is the size of its buffer. *)
Definition sized (st : sse_state) : Prop := ss_bytes st = Z.of_nat (String.length (ss_buffer st)).

(** Every frame cut from the text, and the one under way, fit strictly. *)
Definition fits (max : option Z) (s : string) : Prop :=
  match max with Some m => Z.of_nat (String.length s) < m | None => True end.
Definition within (max : option Z) (s : string) : Prop :=
  match max with Some m => Z.of_nat (String.length s) <= m | None => True end.

Lemma append_fragment max st fragment :
  sized st ->
  match appendFragment max st fragment with
  | Some st' => sized st' /\ ss_buffer st' = ss_buffer st +:+ fragment /\ within max (ss_buffer st')
  | None => ~ within max (ss_buffer st +:+ fragment)
  end.
Proof.
  unfold sized, appendFragment, within. intros Hs. rewrite Hs.
  assert (Hlen : Z.of_nat (String.length (ss_buffer st)) + Z.of_nat (String.length fragment) =
    Z.of_nat (String.length (ss_buffer st +:+ fragment))) by (rewrite append_length; lia).
  rewrite Hlen. destruct max as [m|]; [|done]. destruct (Z.ltb_spec m (Z.of_nat (String.length (ss_buffer st +:+ fragment)))); cbn; [lia|done].
Qed.

(** One chunk. *)
Lemma drain_frames fuel max st text :
  within max "" -> sized st -> (String.length text < fuel)%nat ->
  let '(fs, cur) := frames (ss_buffer st) text in
  match drainText fuel max st text with
  | (es, Some st') => es = parse_all fs /\ ss_buffer st' = cur /\ sized st' /\ (within max (ss_buffer st) -> within max cur)
  | (es, None) => exists fs1 fs2, fs = fs1 ++ fs2 /\ es = parse_all fs1 /\
      ((exists f, f ∈ fs2 /\ ~ within max f) \/ ~ within max cur)
  end.
Proof.
  intros Hmax. revert st text. induction fuel as [|n IH]; intros st text Hs Hf; [lia|]. cbn [drainText].
  destruct (String.eqb_spec text "") as [->|Hne]; [done|].
  assert (Hrec : forall before rest, (String.length rest < n)%nat ->
    let '(fs, cur) := (let '(fs, last_frame) := frames "" rest in (before :: fs, last_frame)) in
    match (let '(es, r) := drainText n max sse_empty rest in (yield (parseEventBlock before) es, r)) with
    | (es, Some st') => es = parse_all fs /\ ss_buffer st' = cur /\ sized st' /\ (within max (ss_buffer st) -> within max cur)
    | (es, None) => exists fs1 fs2, fs = fs1 ++ fs2 /\ es = parse_all fs1 /\
        ((exists f, f ∈ fs2 /\ ~ within max f) \/ ~ within max cur)
    end).
  { intros before rest Hr. specialize (IH sse_empty rest eq_refl Hr). cbn [ss_buffer sse_empty] in IH.
    destruct (frames "" rest) as [fs cur]. destruct (drainText n max sse_empty rest) as [es [st'|]].
    - destruct IH as (He & Hb & Hz & Hw). split; [by apply yield_parse|]. split; [done|]. split; [done|].
      intros _. by apply Hw.
    - destruct IH as (fs1 & fs2 & -> & He & Hbad). exists (before :: fs1), fs2. split; [done|].
      split; [by apply yield_parse|done]. }
  destruct (ends_lf (ss_buffer st) && starts_lf text) eqn:Ecut.
  - destruct text as [|c text]; [done|]. cbn [starts_lf String.length frames string_drop] in *. rewrite Ecut.
    apply Hrec. destruct text; cbn in *; lia.
  - destruct (blank_line text) as [[before after_]|] eqn:Eb.
    + destruct (blank_line_split _ _ _ Eb) as [-> Hq].
      assert (Hst : starts_lf (before +:+ String lf (String lf after_)) = starts_lf (before +:+ String lf ""))
        by (by destruct before).
      rewrite Hst in Ecut. rewrite frames_cut; [|done|done].
      assert (Happ := append_fragment max st before Hs).
      destruct (appendFragment max st before) as [st'|].
      * destruct Happ as (_ & Hb & _). rewrite Hb. apply Hrec.
        rewrite append_length in Hf. cbn in Hf. lia.
      * destruct (frames "" after_) as [fs cur]. exists [], ((ss_buffer st +:+ before) :: fs).
        split; [done|]. split; [done|]. left. exists (ss_buffer st +:+ before). split; [left|done].
    + rewrite frames_quiet by done. assert (Happ := append_fragment max st text Hs).
      destruct (appendFragment max st text) as [st'|].
      * destruct Happ as (? & ? & Hw). split; [done|]. split; [done|]. split; [done|].
        intros _. by match goal with E : ss_buffer st' = _ |- _ => rewrite <-E end.
      * exists [], []. split; [done|]. split; [done|]. by right.
Qed.

(** A frame under way is at most one character longer than what becomes of it. *)
Lemma frames_grow cur s :
  let '(fs, rest) := frames cur s in
  exists f, head (fs ++ [rest]) = Some f /\ (String.length cur <= S (String.length f))%nat.
Proof.
  revert cur. induction s as [|c s IH]; intros cur; cbn [frames]; [exists cur; split; [done|lia]|].
  destruct (ends_lf cur && is_lf c).
  - destruct (frames "" s) as [fs rest]. exists (drop_last cur). split; [done|].
    clear IH. induction cur as [|x [|y t] IHc]; cbn [drop_last String.length] in *; lia.
  - specialize (IH (cur +:+ String c "")). destruct (frames (cur +:+ String c "") s) as [fs rest].
    destruct IH as (f & Hf & Hl). exists f. split; [done|]. rewrite append_length in Hl. cbn in Hl. lia.
Qed.

Lemma frames_oversize max cur s :
  ~ within max cur -> let '(fs, rest) := frames cur s in exists f, f ∈ fs ++ [rest] /\ ~ fits max f.
Proof.
  intros Hw. assert (Hg := frames_grow cur s). destruct (frames cur s) as [fs rest].
  destruct Hg as (f & Hf & Hl). exists f. split; [by apply head_Some_elem_of|].
  unfold within, fits in *. destruct max as [m|]; [lia|done].
Qed.

Lemma not_within_fits max f : ~ within max f -> ~ fits max f.
Proof. unfold within, fits. destruct max; [lia|done]. Qed.

Definition concat_text (chunks : list string) : string := fold_right String.append "" chunks.

(** The events of a whole body that starts with the frame [cur] under way. *)
Definition finish (fs : list string) (rest : string) : list parsed_event :=
  parse_all fs ++ (if String.eqb (trim rest) "" then [] else parse_all [rest]).

Lemma parse_all_app fs1 fs2 : parse_all (fs1 ++ fs2) = parse_all fs1 ++ parse_all fs2.
Proof. apply omap_app. Qed.

Lemma parse_chunks_frames max st chunks :
  within max "" -> sized st ->
  let '(fs, rest) := frames (ss_buffer st) (concat_text chunks) in
  match parse_chunks max st chunks with
  | (es, Closed) => es = finish fs rest
  | (es, LimitExceeded) => exists fs1 fs2, fs = fs1 ++ fs2 /\ es = parse_all fs1 /\
      exists f, f ∈ fs2 ++ [rest] /\ ~ fits max f
  end.
Proof.
  intros Hmax. revert st. induction chunks as [|text chunks IH]; intros st Hs.
  - cbn. unfold finish, parse_all. cbn. destruct (String.eqb _ ""); [done|]. by destruct (parseEventBlock _).
  - cbn [concat_text fold_right parse_chunks]. rewrite frames_app.
    assert (Hd := drain_frames (S (String.length text)) max st text Hmax Hs ltac:(lia)).
    destruct (frames (ss_buffer st) text) as [fs cur]. unfold drain.
    destruct (drainText _ max st text) as [es [st'|]].
    + destruct Hd as (-> & <- & Hs' & _). specialize (IH st' Hs').
      fold (concat_text chunks). destruct (frames (ss_buffer st') (concat_text chunks)) as [fs' rest].
      destruct (parse_chunks max st' chunks) as [es' []].
      * rewrite IH. unfold finish. by rewrite parse_all_app, app_assoc.
      * destruct IH as (fs1 & fs2 & -> & -> & Hbad). exists (fs ++ fs1), fs2.
        split; [by rewrite app_assoc|]. split; [by rewrite parse_all_app|done].
    + destruct Hd as (fs1 & fs2 & -> & -> & Hbad). fold (concat_text chunks).
      assert (Hover := frames_oversize max cur (concat_text chunks)).
      destruct (frames cur (concat_text chunks)) as [fs' rest].
      exists fs1, (fs2 ++ fs'). split; [by rewrite app_assoc|]. split; [done|].
      destruct Hbad as [(f & Hf & Hw)|Hw].
      * exists f. split; [rewrite !elem_of_app; by left; left|by apply not_within_fits].
      * destruct (Hover Hw) as (f & Hf & Hfit). exists f. split; [|done].
        rewrite elem_of_app in Hf. rewrite !elem_of_app. tauto.
Qed.

Lemma sse_chunking_core chunks :
  parseSSE None chunks =
  (let '(fs, rest) := frames "" (concat_text chunks) in finish fs rest, Closed).
Proof.
  assert (Hp := parse_chunks_frames None sse_empty chunks I eq_refl). unfold parseSSE.
  cbn [ss_buffer sse_empty] in Hp. destruct (frames "" (concat_text chunks)) as [fs rest].
  destruct (parse_chunks None sse_empty chunks) as [es []]; [by rewrite Hp|].
  destruct Hp as (_ & _ & _ & _ & f & _ & Hf). by destruct Hf.
Qed.

(** C33. The event stream does not depend on how the network cuts it.  Without a
    limit the parser yields, for any chunks of one text, the parsed frames of
    that text - cut at the first blank line, again and again - and of what is
    left when the body ends. *)
Theorem sse_chunking chunks :
  parseSSE None chunks =
  (let '(fs, rest) := frames "" (concat_text chunks) in finish fs rest, Closed).
Proof. apply sse_chunking_core. Qed.

(** The frame limit only refuses.  With a limit, a body that is read to its
    end gives exactly the events it gives without one; a body cut short gives
    the events of its first frames, and holds a frame that does not fit; and a
    body whose frames are all smaller than the limit is read to its end, however
    it is cut into chunks. *)
Theorem sse_frame_limit limit chunks :
  0 <= limit ->
  match parseSSE (Some limit) chunks with
  | (es, Closed) => es = fst (parseSSE None chunks)
  | (es, LimitExceeded) =>
      (exists more, fst (parseSSE None chunks) = es ++ more) /\
      exists f, f ∈ fst (frames "" (concat_text chunks)) ++ [snd (frames "" (concat_text chunks))] /\
                limit <= Z.of_nat (String.length f)
  end.
Proof.
  intros Hl. rewrite sse_chunking_core. cbn [fst].
  assert (Hp := parse_chunks_frames (Some limit) sse_empty chunks Hl eq_refl). unfold parseSSE.
  cbn [ss_buffer sse_empty] in Hp. destruct (frames "" (concat_text chunks)) as [fs rest].
  destruct (parse_chunks (Some limit) sse_empty chunks) as [es []]; [done|].
  destruct Hp as (fs1 & fs2 & -> & -> & f & Hf & Hfit). split.
  - unfold finish. rewrite parse_all_app, <-app_assoc. by eexists.
  - exists f. split; [|cbn in Hfit; lia]. cbn [fst snd]. rewrite elem_of_app in Hf. rewrite !elem_of_app. tauto.
Qed.
End Spec.
