(* ===== verification/InboxLine.v ===== *)
(** * Inbox lines ([formatInboxLine], [formatEvictionSentinelLine],
    [inboxRawHasEntry], [trimInboxFileToRecentLines] of [src/log-stream.ts])

    One entry is one physical line of the drone's inbox file.  The file is its
    text. *)

From stdpp Require Import pretty.
From S2P Require Import Prelude JsDate JsonText Effects SseParser.

Open Scope Z_scope.

(** ** Lines *)

Definition cr : ascii := ascii_of_nat 13.
Definition is_cr (c : ascii) : bool := Ascii.eqb c cr.

(** [' ⏎ '] *)
Definition return_symbol : string := " ⏎ ".

(** [s.replace(/\r\n|\r|\n/g, r)] *)
Fixpoint replace_breaks (r s : string) : string :=
  match s with
  | EmptyString => ""
  | String c s' =>
      if is_lf c then r +:+ replace_breaks r s'
      else if is_cr c then
        match s' with
        | String d s'' => if is_lf d then r +:+ replace_breaks r s'' else r +:+ replace_breaks r s'
        | EmptyString => r
        end
      else String c (replace_breaks r s')
  end.

(** [s.split(/\r?\n/)] *)
Fixpoint split_rows (s : string) : list string :=
  match s with
  | EmptyString => [""]
  | String c s' =>
      if is_lf c then "" :: split_rows s'
      else
        let plain := match split_rows s' with
                     | l :: rest => String c l :: rest
                     | [] => [String c ""]
                     end in
        if is_cr c then
          match s' with
          | String d s'' => if is_lf d then "" :: split_rows s'' else plain
          | EmptyString => plain
          end
        else plain
  end.

(** [s.replace(p, r)] with a string pattern: the first occurrence. *)
Fixpoint replace_first (p r s : string) : string :=
  if starts_with p s then r +:+ string_drop (String.length p) s
  else match s with
       | EmptyString => ""
       | String c s' => String c (replace_first p r s')
       end.

(* src/src/log-stream.ts 1577-1582 firstNonEmptyString *)
Definition firstNonEmptyString (candidates : list (option json)) : string :=
  default "" (head (omap (fun c => match jstr c with Some s => if String.eqb s "" then None else Some s | None => None end) candidates)).

(* src/src/log-stream.ts 1566-1570 withSseEventId *)
Definition withSseEventId (entry : json) (eventId : string) : json :=
  match entry with
  | JObj fields =>
      match nonempty_member "id" entry with
      | Some _ => entry
      | None => JObj (set_member "id" (JStr eventId) fields)
      end
  | JArr _ => JObj [("id", JStr eventId)]
  | _ => JObj [("id", JStr eventId)]
  end.

(** [`${v.k}`]: a missing member prints as [undefined]. *)
Definition interpolate (v : option json) : string := match v with Some x => js_String x | None => "undefined" end.

(* src/src/document-render.ts 35-37 formatDocumentCitation *)
Definition formatDocumentCitation (c : json) : string :=
  interpolate (jget "id" c) +:+ " (" +:+ interpolate (jget "state" c) +:+ ", " +:+
  interpolate (jget "size_bytes" c) +:+ " UTF-8 bytes): " +:+ interpolate (jget "title" c).

(* src/src/document-render.ts 39-41 formatDocumentCitations *)
Definition formatDocumentCitations (citations : option json) : js_error + list string :=
  match citations with
  | None | Some JNull => inr []
  | Some (JArr l) => inr (map formatDocumentCitation l)
  | Some _ => inl (JsError "citations?.map is not a function")
  end.

Definition entry_id_prefix (entryId : string) : string :=
  if String.eqb entryId "" then "" else "[entry_id: " +:+ entryId +:+ "] ".

Section Format.
Context `{JsDate}.

(** [now] is the time of a [new Date()] of this call. *)
(* src/src/log-stream.ts 1599-1620 formatInboxLine *)
Definition formatInboxLine (now : Z) (entry : json) : js_error + string :=
  let ts := match jget "created_at" entry with
            | Some (JStr s) => match date_parse s with
                               | Some t => inr (to_iso t)
                               | None => inl (ErrorOf "RangeError" None None "Invalid time value" [])
                               end
            | _ => inr (to_iso now)
            end in
  match ts with
  | inl e => inl e
  | inr ts =>
      let label := js_String (nullish (jget "drone_label" entry) (JStr "?")) in
      let role := js_String (nullish (jget "role_name" entry) (JStr "?")) in
      let rawMessage := default "" (jstr (jget "message" entry)) in
      let entryId := firstNonEmptyString [jget "id" entry; jget "entry_id" entry] in
      match formatDocumentCitations (jget "documents" entry) with
      | inl e => inl e
      | inr citations =>
          let withDocuments := match citations with
                               | [] => rawMessage
                               | _ => rawMessage +:+ newline +:+ "Documents: " +:+ join "; " citations
                               end in
          inr (ts +:+ " " +:+ label +:+ " (" +:+ role +:+ "): " +:+ entry_id_prefix entryId +:+
               replace_breaks return_symbol withDocuments)
      end
  end.
End Format.

(* src/src/log-stream.ts 1631-1638 formatEvictionSentinelLine *)
Definition formatEvictionSentinelLine (now : Z) (reason : option string) : string :=
  let detail := match reason with
                | Some r => if String.eqb (trim r) "" then "evicted from cube" else r
                | None => "evicted from cube"
                end in
  to_iso now +:+ " SYSTEM (eviction): [CUBE-EVICTED] " +:+ detail +:+
  " — confirm with any borg_* call; on typed DRONE_EVICTED, stop this session without retrying or restarting the loop.".

(* src/src/cube-activity-wake-copy.ts 1-6 formatCubeActivityWakeMessage *)
Definition formatCubeActivityWakeMessage (detail : string) : string :=
  "Borg cube activity arrived while you were busy." +:+ newline +:+
  "1. Drain `borg_read_log unread_only=true` until caught up." +:+ newline +:+
  "2. Peer `ARRIVAL:` and `READY`-only entries are lifecycle-only and non-actionable. Do not reply to them." +:+ newline +:+
  "3. Resume interrupted or assigned work." +:+ newline +:+
  "4. If none remains, do not run a full regen. Make no reply/status/liveness `borg_log`. Wait." +:+ newline +:+ detail.

(* src/src/log-stream.ts 1717-1732 inboxRawHasEntry *)
Definition inboxRawHasEntry (raw entryId renderedLine : string) : bool :=
  if negb (String.eqb entryId "") && includes ("[entry_id: " +:+ entryId +:+ "]") raw then true
  else
    let legacyForm := if String.eqb entryId "" then renderedLine
                      else replace_first ("[entry_id: " +:+ entryId +:+ "] ") "" renderedLine in
    negb (String.eqb legacyForm "") && bool_decide (legacyForm ∈ split_rows raw).

(** ** The file *)

(* src/src/log-stream.ts 160-161 INBOX_TAIL_LINES_CAP *)
Definition INBOX_TAIL_LINES_CAP : nat := 512.

(** [if (lines.at(-1) === '') lines.pop()] *)
Definition drop_empty_last (l : list string) : list string :=
  match last l with Some "" => take (length l - 1) l | _ => l end.

(** The new text of a file: its last [maxLines] lines when it holds more than
    [trimThresholdLines].  Both are positive integers here, so the two argument
    checks pass. *)
(* src/src/log-stream.ts 1660-1692 trimInboxFileToRecentLines *)
Definition trimInboxFileToRecentLines (raw : string) (maxLines trimThresholdLines : nat) : string :=
  let lines := drop_empty_last (split_rows raw) in
  if (length lines <=? trimThresholdLines)%nat then raw
  else join newline (drop (length lines - maxLines) lines) +:+ newline.

(* src/src/log-stream.ts 1649-1658 appendCappedInboxLine *)
Definition appendCappedInboxLine (raw line : string) (maxLines trimThresholdLines : nat) : string :=
  trimInboxFileToRecentLines (raw +:+ line +:+ newline) maxLines trimThresholdLines.

(** * The inbox file is a bounded list of lines

    An entry's line has no line break of its own, appending and trimming act on
    the file as on a list of lines, and an entry that was written is recognized
    when it comes again. *)

(** ** One physical line *)

Definition is_break (c : ascii) : bool := is_lf c || is_cr c.
Definition one_line (s : string) : bool := string_forallb (fun c => negb (is_break c)) s.

Lemma one_line_app a b : one_line (a +:+ b) = one_line a && one_line b.
Proof. apply string_forallb_app. Qed.

Lemma replace_breaks_one_line r s : one_line r = true -> one_line (replace_breaks r s) = true.
Proof.
  intros Hr. remember (String.length s) as n eqn:En. assert (Hn : (String.length s <= n)%nat) by lia. clear En.
  revert s Hn. induction n as [|n IH]; intros [|c s] Hn; try done; [cbn in Hn; lia|]. cbn [replace_breaks String.length] in *.
  destruct (is_lf c) eqn:El; [by rewrite one_line_app, Hr, IH by lia|].
  destruct (is_cr c) eqn:Ec.
  - destruct s as [|d s]; [done|]. cbn [String.length] in Hn.
    destruct (is_lf d); rewrite one_line_app, Hr; apply IH; cbn [String.length]; lia.
  - unfold one_line. cbn. unfold is_break. rewrite El, Ec. cbn. apply IH. lia.
Qed.

Lemma digit_one_line d : 0 <= d < 10 -> negb (is_break (digit d)) = true.
Proof.
  intros Hd. assert (d = 0 \/ d = 1 \/ d = 2 \/ d = 3 \/ d = 4 \/ d = 5 \/ d = 6 \/ d = 7 \/ d = 8 \/ d = 9) as Hc by lia.
  by repeat (destruct Hc as [->|Hc]; [done|]); subst.
Qed.

Lemma pad_one_line w n : one_line (pad w n) = true.
Proof.
  revert n. induction w as [|w IH]; intros n; [done|]. cbn [pad]. rewrite one_line_app, IH. cbn.
  rewrite digit_one_line by (apply Z.mod_pos_bound; lia). done.
Qed.

Lemma to_iso_one_line t : one_line (to_iso t) = true.
Proof.
  unfold to_iso. destruct (civil_from_days _) as [[y m] d]. cbv zeta.
  rewrite !one_line_app, !pad_one_line. destruct ((0 <=? y) && (y <=? 9999)); [by rewrite pad_one_line|].
  destruct (y <? 0); by rewrite one_line_app, pad_one_line.
Qed.

Section Lines.
Context `{JsDate}.

(** The parts of an entry that are written as they are. *)
Definition plain_names (entry : json) : Prop :=
  one_line (js_String (nullish (jget "drone_label" entry) (JStr "?"))) = true /\
  one_line (js_String (nullish (jget "role_name" entry) (JStr "?"))) = true /\
  one_line (firstNonEmptyString [jget "id" entry; jget "entry_id" entry]) = true.

Lemma format_one_line now entry line :
  plain_names entry -> formatInboxLine now entry = inr line -> one_line line = true.
Proof.
  intros (Hl & Hr & Hi). unfold formatInboxLine.
  destruct (match jget "created_at" entry with Some (JStr s) => _ | _ => _ end) as [e|ts] eqn:Ets; [done|].
  assert (Hts : one_line ts = true).
  { destruct (jget "created_at" entry) as [[]|]; try (injection Ets as <-; apply to_iso_one_line).
    destruct (date_parse _); [injection Ets as <-; apply to_iso_one_line|done]. }
  cbv zeta. destruct (formatDocumentCitations _) as [e|citations]; [done|]. intros [= <-].
  rewrite !one_line_app, Hts, Hl, Hr, (replace_breaks_one_line return_symbol) by done.
  unfold entry_id_prefix. destruct (String.eqb _ ""); [done|]. by rewrite !one_line_app, Hi.
Qed.

(** ** The file as a list of lines *)

Definition file_of (l : list string) : string := foldr (fun x s => x +:+ newline +:+ s) "" l.

Lemma file_of_app l1 l2 : file_of (l1 ++ l2) = file_of l1 +:+ file_of l2.
Proof. unfold file_of. induction l1 as [|x l1 IH]; [done|]. cbn [foldr app]. by rewrite IH, !append_assoc. Qed.

Lemma split_rows_line x rest : one_line x = true -> split_rows (x +:+ newline +:+ rest) = x :: split_rows rest.
Proof.
  induction x as [|c x IH]; [done|]. unfold one_line. cbn [string_forallb]. intros [Hc Hx]%andb_true_iff.
  unfold is_break in Hc. rewrite negb_orb in Hc. apply andb_true_iff in Hc as [Hl Hcr].
  apply negb_true_iff in Hl, Hcr. rewrite append_cons. cbn [split_rows]. rewrite Hl, Hcr. by rewrite IH.
Qed.

Lemma split_rows_file l : Forall (fun x => one_line x = true) l -> split_rows (file_of l) = l ++ [""].
Proof. unfold file_of. induction 1 as [|x l Hx _ IH]; [done|]. cbn [foldr app]. by rewrite split_rows_line, IH. Qed.

Lemma drop_empty_last_snoc l : drop_empty_last (l ++ [""]) = l.
Proof.
  unfold drop_empty_last. rewrite last_snoc, length_app. cbn.
  replace (length l + 1 - 1)%nat with (length l) by lia. apply take_app_length.
Qed.

Lemma join_file l : l <> [] -> join newline l +:+ newline = file_of l.
Proof.
  induction l as [|x l IH]; [done|]. intros _. destruct l as [|y l]; [cbn; by rewrite ?append_nil_r|].
  change (join newline (x :: y :: l)) with (x +:+ newline +:+ join newline (y :: l)).
  rewrite !append_assoc, IH by done. done.
Qed.

(** The abstract file: a list whose oldest lines are dropped. *)
Definition capped (maxLines threshold : nat) (l : list string) : list string :=
  if (length l <=? threshold)%nat then l else drop (length l - maxLines) l.

Lemma append_capped l line maxLines threshold :
  (0 < maxLines)%nat -> Forall (fun x => one_line x = true) l -> one_line line = true ->
  appendCappedInboxLine (file_of l) line maxLines threshold = file_of (capped maxLines threshold (l ++ [line])).
Proof.
  intros Hmax Hl Hline. unfold appendCappedInboxLine, trimInboxFileToRecentLines, capped.
  assert (E : file_of l +:+ line +:+ newline = file_of (l ++ [line])).
  { rewrite file_of_app. cbn. by rewrite append_nil_r. }
  rewrite E, split_rows_file by (apply Forall_app; split; [done|by apply Forall_singleton]).
  rewrite drop_empty_last_snoc. destruct (_ <=? _)%nat; [done|]. apply join_file.
  intros Hnil. apply (f_equal length) in Hnil. rewrite length_drop, length_app in Hnil. cbn in Hnil. lia.
Qed.

(** ** Recognizing an entry *)

Lemma includes_app p s : includes p (p +:+ s) = true.
Proof. destruct p as [|c p]; [by destruct s|]. rewrite append_cons. cbn [includes]. rewrite <-append_cons. unfold starts_with. by rewrite prefix_app. Qed.

Lemma includes_after p a s : includes p s = true -> includes p (a +:+ s) = true.
Proof.
  intros Hs. induction a as [|c a IH]; [done|]. rewrite append_cons. cbn [includes]. by rewrite IH, orb_true_r.
Qed.

Lemma starts_with_before p s t : starts_with p s = true -> starts_with p (s +:+ t) = true.
Proof.
  unfold starts_with. revert s. induction p as [|d p IH]; intros [|e s]; cbn [String.prefix]; try done.
  - by destruct ("" +:+ t).
  - rewrite append_cons. cbn [String.prefix]. destruct (ascii_dec d e); [apply IH|done].
Qed.

Lemma includes_before p s t : includes p s = true -> includes p (s +:+ t) = true.
Proof.
  induction s as [|c s IH].
  - cbn. rewrite orb_false_r. destruct p; [|done]. intros _. by destruct t.
  - rewrite append_cons. cbn [includes]. intros [Hp|Hs]%orb_true_iff; [|by rewrite (IH Hs), orb_true_r].
    by rewrite <-append_cons, starts_with_before.
Qed.

Lemma includes_file p l line : line ∈ l -> includes p line = true -> includes p (file_of l) = true.
Proof.
  intros Hin Hp. apply list_elem_of_split in Hin as (l1 & l2 & ->). rewrite file_of_app.
  apply includes_after. cbn [file_of foldr]. by apply includes_before.
Qed.

(** A line with the entry's id is found, wherever it stands in the file. *)
Lemma has_entry_marked l now entry line id :
  firstNonEmptyString [jget "id" entry; jget "entry_id" entry] = id -> id <> "" ->
  formatInboxLine now entry = inr line -> line ∈ l ->
  inboxRawHasEntry (file_of l) id line = true.
Proof.
  intros Hid Hne Hf Hin. unfold inboxRawHasEntry. apply String.eqb_neq in Hne as E. rewrite E. cbn [negb andb].
  assert (Hp : includes ("[entry_id: " +:+ id +:+ "]") line = true).
  { unfold formatInboxLine in Hf.
    destruct (match jget "created_at" entry with Some (JStr s) => _ | _ => _ end) as [e|ts]; [done|]. cbv zeta in Hf.
    destruct (formatDocumentCitations _) as [e|citations]; [done|]. injection Hf as <-. rewrite Hid.
    unfold entry_id_prefix. rewrite E. do 6 apply includes_after. apply includes_before.
    assert (Hs : ("[entry_id: " +:+ id +:+ "] ") = ("[entry_id: " +:+ id +:+ "]") +:+ " ") by (by rewrite !append_assoc).
    rewrite Hs. apply includes_app. }
  by rewrite (includes_file _ _ _ Hin Hp).
Qed.

(** C35. The inbox file holds whole entries, newest last, and is bounded.  For a
    file of lines and an entry whose label, role and id hold no line break - its
    message and citations may - appending the entry's line gives the file of the
    old lines followed by that one line; past twice the cap only the newest cap
    lines are kept, so that a file never holds more than twice the cap, keeps its
    newest lines, and the entry is recognized if it comes again. *)
Theorem inbox_file_refines_bounded_list l now entry line :
  Forall (fun x => one_line x = true) l -> plain_names entry -> formatInboxLine now entry = inr line ->
  exists kept,
    appendCappedInboxLine (file_of l) line INBOX_TAIL_LINES_CAP (2 * INBOX_TAIL_LINES_CAP) = file_of (kept ++ [line]) /\
    Forall (fun x => one_line x = true) (kept ++ [line]) /\
    kept `suffix_of` l /\ (length (kept ++ [line]) <= 2 * INBOX_TAIL_LINES_CAP)%nat /\
    ((length l < 2 * INBOX_TAIL_LINES_CAP)%nat -> kept = l) /\
    ((2 * INBOX_TAIL_LINES_CAP <= length l)%nat -> length (kept ++ [line]) = INBOX_TAIL_LINES_CAP) /\
    (forall id, firstNonEmptyString [jget "id" entry; jget "entry_id" entry] = id -> id <> "" ->
       inboxRawHasEntry (file_of (kept ++ [line])) id line = true).
Proof.
  intros Hl Hn Hf. assert (Hline := format_one_line _ _ _ Hn Hf).
  set (k := if (length l <? 2 * INBOX_TAIL_LINES_CAP)%nat then 0%nat else (length l + 1 - INBOX_TAIL_LINES_CAP)%nat).
  assert (Hcap : capped INBOX_TAIL_LINES_CAP (2 * INBOX_TAIL_LINES_CAP) (l ++ [line]) = drop k l ++ [line]).
  { unfold capped, k. rewrite length_app. cbn [length].
    destruct (Nat.leb_spec (length l + 1) (2 * INBOX_TAIL_LINES_CAP)), (Nat.ltb_spec (length l) (2 * INBOX_TAIL_LINES_CAP));
      try lia; [done|]. apply drop_app_le. unfold INBOX_TAIL_LINES_CAP in *. lia. }
  assert (Hk : (length (drop k l) = length l - k)%nat) by apply length_drop.
  exists (drop k l). rewrite append_capped, Hcap by (try done; unfold INBOX_TAIL_LINES_CAP; lia).
  split; [done|]. split; [|split; [|split; [|split; [|split]]]].
  - apply Forall_app. split; [by apply Forall_drop|by apply Forall_singleton].
  - exists (take k l). by rewrite take_drop.
  - rewrite length_app, Hk. cbn [length]. unfold k, INBOX_TAIL_LINES_CAP in *.
    destruct (Nat.ltb_spec (length l) (2 * 512)); lia.
  - intros Hlt. unfold k. by rewrite (proj2 (Nat.ltb_lt _ _) Hlt).
  - intros Hge. rewrite length_app, Hk. cbn [length]. unfold k. rewrite (proj2 (Nat.ltb_ge _ _) Hge).
    unfold INBOX_TAIL_LINES_CAP in *. lia.
  - intros id Hid Hne. eapply has_entry_marked; [done|done|done|]. apply elem_of_app. right. left.
Qed.
End Lines.
