(* ===== verification/StreamSession.v ===== *)
(** * One stream session ([streamOnce] of [src/log-stream.ts])

    From the request to the end of the body: what each event of the stream makes
    the session do, with the inbox append, the wake attempts and the cursor
    advances as operations whose answers are not determined.  The two timers are
    part of the state: the watchdog as the operation that restarts it, the
    divergence timer as [se_pending], which [divergence_fires] reads.  The
    dependency [consumer], which only the representative's listener passes, is
    absent. *)

From S2P Require Import Prelude JsDate JsonText Effects SseParser InboxLine.

Open Scope Z_scope.
Open Scope prog_scope.

Definition LOCAL_SERVER_SSE_FRAME_LIMIT_BYTES : Z := 64 * 1024.
(* src/src/log-stream.ts 154-154 RECENT_IDS_CAP *)
Definition RECENT_IDS_CAP : nat := 50.

(** The drone of the session. *)
Record active_cube := ActiveCube {
  ac_cubeId : string;
  ac_droneId : string;
  ac_serverTrustIdentity : option string;
  ac_credentialRef : option string
}.

Record response := Response { rp_status : Z; rp_ok : bool; rp_error_body : string }.

Inductive stream_op : Type -> Type :=
| LoadTrust : stream_op (js_error + string)
| GetCursor : stream_op (js_error + option hwm)
| Fetch (cursor : option hwm) : stream_op (js_error + response)
| ReadChunk : stream_op (js_error + option string)
| ClearCursor : stream_op (js_error + unit)
| AdvanceCursor (cursor : json) : stream_op (js_error + unit)
| AppendLine (line : string) : stream_op (js_error + unit)
| HasInboxEntryId (id line : string) : stream_op (js_error + bool)
| HasPendingWakeEntry (id : string) : stream_op (js_error + bool)
| SettleOpenCodeEntry (id : string) : stream_op unit
| InjectOpenCode (text entryId : string) (sourceEntryId : option string) : stream_op (js_error + bool)
| WakeCodex (prompt : string) (nonce : option string) (sourceEntryId : string) : stream_op unit
| MarkSeatRejected (ref : string) : stream_op unit
| OnEventId (id : string) : stream_op unit
| SetConnected (b : bool) : stream_op unit
| NoteActivity (content heartbeat : bool) : stream_op unit
| BumpWatchdog : stream_op unit
| Now : stream_op Z.

Definition stream := prog stream_op.

(** The variables of one call. *)
Record session := Session {
  se_lastPersistedEventId : option string;
  se_lastPersistedHwm : option hwm;
  se_lastBroadcastHwm : option hwm;
  se_pending : option hwm;
  se_recent : gset string;
  se_recentOrder : list string;
  se_catchingUp : bool
}.

Definition set_persisted (id : string) (h : hwm) (s : session) : session :=
  Session (Some id) (Some h) (se_lastBroadcastHwm s) (se_pending s) (se_recent s) (se_recentOrder s) (se_catchingUp s).
Definition set_broadcast (h pending : option hwm) (s : session) : session :=
  Session (se_lastPersistedEventId s) (se_lastPersistedHwm s) h pending (se_recent s) (se_recentOrder s) (se_catchingUp s).
Definition set_pending (p : option hwm) (s : session) : session := set_broadcast (se_lastBroadcastHwm s) p s.
Definition set_recent (r : gset string) (o : list string) (s : session) : session :=
  Session (se_lastPersistedEventId s) (se_lastPersistedHwm s) (se_lastBroadcastHwm s) (se_pending s) r o (se_catchingUp s).
Definition set_catchingUp (b : bool) (s : session) : session :=
  Session (se_lastPersistedEventId s) (se_lastPersistedHwm s) (se_lastBroadcastHwm s) (se_pending s)
    (se_recent s) (se_recentOrder s) b.

Section Stream.
Context `{StreamEnv} `{JsDate}.
Variable active : active_cube.

(** ** Cursors *)

(** [ev.data?.created_at ?? ''] *)
Definition created_at_of (data : json) : string := default "" (jstr (jget "created_at" data)).

(** Reporting a position sets [streamState.lastPersistedEventId] and calls the
    run loop's callback. *)
(* src/src/log-stream.ts 812-826 markEventPersisted *)
Definition markEventPersisted (s : session) (id createdAt : string) : stream session :=
  let next := Hwm id createdAt in
  let blocked := match se_lastPersistedHwm s with
                 | Some l => negb (String.eqb createdAt "") && negb (String.eqb (h_created_at l) "") &&
                             (compareBroadcastHwm next l <=? 0)
                 | None => false
                 end in
  if blocked then Ret s
  else do! ask (OnEventId id); Ret (set_persisted id next s).

(* src/src/log-stream.ts 828-840 markBroadcastPersisted *)
Definition markBroadcastPersisted (s : session) (h : option hwm) : session :=
  match h with
  | None => s
  | Some h =>
      let last_ := match se_lastBroadcastHwm s with
                   | None => h
                   | Some l => if 0 <? compareBroadcastHwm h l then h else l
                   end in
      let pending := match se_pending s with
                     | Some p => if 0 <=? compareBroadcastHwm last_ p then None else Some p
                     | None => None
                     end in
      set_broadcast (Some last_) pending s
  end.

(** A timer already set for this position is kept. *)
(* src/src/log-stream.ts 842-857 scheduleHwmDivergenceReconnect *)
Definition scheduleHwmDivergenceReconnect (s : session) (h : hwm) : session :=
  match se_pending s with
  | Some p => if String.eqb (h_id p) (h_id h) then s else set_pending (Some h) s
  | None => set_pending (Some h) s
  end.

(** What the timer set for [h] does when it fires: whether it aborts the stream. *)
(* src/src/log-stream.ts 845-855 timer *)
Definition divergence_fires (s : session) (h : hwm) : session * bool :=
  match se_lastBroadcastHwm s with
  | Some l => if 0 <=? compareBroadcastHwm l h then (set_pending None s, false) else (s, true)
  | None => (s, true)
  end.

(* src/src/log-stream.ts 1554-1564 broadcastHwmFromLogEvent *)
Definition broadcastHwmFromLogEvent (id : string) (data : json) : option hwm :=
  if bool_decide (jstr (jget "visibility" data) = Some "direct") || bool_decide (jstr (jget "kind" data) = Some "ack")
  then None
  else match nonempty_member "created_at" data with Some at_ => Some (Hwm id at_) | None => None end.

(* src/src/log-stream.ts 859-869 shouldDeliverWakeRetry *)
Definition shouldDeliverWakeRetry (entryId : string) : stream bool :=
  let! answer := attempt (perform (HasPendingWakeEntry entryId)) in
  match answer with
  | inr true => Ret true
  | inr false => do! ask (SettleOpenCodeEntry entryId); Ret false
  | inl _ => Ret false
  end.

(** [let line = formatInboxLine(withSseEventId(ev.data, ev.id))] *)
Definition inbox_line (id : string) (data : json) : stream string :=
  let! now := ask Now in
  match formatInboxLine now (withSseEventId data id) with
  | inl e => Throw e
  | inr line => Ret line
  end.

(** One wake attempt: OpenCode, and Codex when that did not take it. *)
Definition wake (line deliveryId : string) (nonce : option string) (id : string) : stream unit :=
  let! delivered := perform (InjectOpenCode (formatCubeActivityWakeMessage line) deliveryId (Some id)) in
  if (delivered : bool) then Ret tt else ask (WakeCodex (formatCubeActivityWakeMessage line) nonce id).

Inductive write_result := PersistedSkip | Written.

Definition at_or_before_cursor (s : session) (id createdAt : string) : bool :=
  se_catchingUp s && negb (String.eqb createdAt "") &&
  match se_lastPersistedHwm s with Some l => compareBroadcastHwm (Hwm id createdAt) l <=? 0 | None => false end.

(* src/src/log-stream.ts 889-948 writeInboxLine *)
Definition writeInboxLine (s : session) (id : string) (data : json) (nonce : option string)
    : stream (session * write_result) :=
  let! line := inbox_line id data in
  let createdAt := created_at_of data in
  let deliveryId := default id nonce in
  let skip s := (let! s' := markEventPersisted s id createdAt in Ret (s', PersistedSkip)) in
  let! retry := match nonce with Some _ => shouldDeliverWakeRetry id | None => Ret true end in
  if negb retry then skip s
  else
    let covered := at_or_before_cursor s id createdAt in
    let consult := bool_decide (is_Some nonce) || se_catchingUp s && bool_decide (se_lastPersistedHwm s = None) in
    let! alreadyPersisted :=
      if covered then Ret true else if consult then perform (HasInboxEntryId id line) else Ret false in
    if (alreadyPersisted : bool) then
      do! match nonce with Some _ => wake line deliveryId nonce id | None => Ret tt end;
      skip s
    else
      do! perform (AppendLine line);
      do! wake line deliveryId nonce id;
      Ret (s, Written).

(** [while (order.length > cap) set.delete(order.shift())] *)
Fixpoint shift_recent (n : nat) (r : gset string) (o : list string) : gset string * list string :=
  match n, o with
  | S n', old :: rest => shift_recent n' (r ∖ {[old]}) rest
  | _, _ => (r, o)
  end.

Definition record_recent (s : session) (id : string) : session :=
  let o := se_recentOrder s ++ [id] in
  let '(r, o') := shift_recent (length o - RECENT_IDS_CAP) ({[id]} ∪ se_recent s) o in
  set_recent r o' s.

(* src/src/log-stream.ts 960-983 recordSeen *)
Definition recordSeen (s : session) (id : string) (data : json) (cursor : option json) : stream session :=
  let! s := markEventPersisted (record_recent s id) id (created_at_of data) in
  let s := markBroadcastPersisted s (broadcastHwmFromLogEvent id data) in
  do! match cursor with Some c => perform (AdvanceCursor c) | None => Ret tt end;
  Ret s.

(** ** Events *)

(** The next step of the loop: [continue] or [break]. *)
Inductive next := Continue (s : session) | Break (s : session).

Definition is_ack (data : json) : bool := bool_decide (jstr (jget "kind" data) = Some "ack").
Definition is_heartbeat_ping (data : json) : bool :=
  match jget "message" data with Some (JStr m) => starts_with "[HEARTBEAT-PING]" m | _ => false end.

(** A direct entry without this drone among its recipients. *)
Definition not_addressed (data : json) : bool :=
  bool_decide (jstr (jget "visibility" data) = Some "direct") &&
  negb (match jget "recipient_drone_ids" data with
        | Some (JArr l) => existsb (fun r => match r with JStr d => String.eqb d (ac_droneId active) | _ => false end) l
        | _ => false
        end).

Definition is_own (data : json) : bool :=
  bool_decide (jstr (jget "drone_id" data) = Some (ac_droneId active)) && negb (is_heartbeat_ping data).

(** Write the line, then the cursors, unless it was there already. *)
Definition deliver (s : session) (id : string) (data : json) (nonce : option string) (cursor : option json)
    : stream next :=
  let! (s', written) := writeInboxLine s id data nonce in
  match written with
  | PersistedSkip => Ret (Continue s')
  | Written => let! s'' := recordSeen s' id data cursor in Ret (Continue s'')
  end.

(** What is left after the check of the recent ids: routing and delivery. *)
(* src/src/log-stream.ts 1235-1292 event.type === 'log' *)
Definition route_log (replay : bool) (s : session) (id : string) (data : json) (nonce : option string)
    (cursor : option json) : stream next :=
  let record := (let! s' := recordSeen s id data cursor in Ret (Continue s')) in
  if is_ack data then
    if replay then record
    else if bool_decide (jstr (jget "author_drone_id" data) = Some (ac_droneId active)) then deliver s id data nonce cursor
    else record
  else if not_addressed data then record
  else if is_own data then record
  else if replay then
    let! line := inbox_line id data in
    match nonce with
    | Some n =>
        let! retry := shouldDeliverWakeRetry id in
        if (retry : bool) then do! wake line n nonce id; Ret (Continue s) else Ret (Continue s)
    | None => Ret (Continue s)
    end
  else deliver s id data nonce cursor.

(* src/src/log-stream.ts 1177-1204 event.type === 'log' *)
Definition handle_log (s : session) (id : string) (data : json) (nonce : option string) (cursor : option json)
    : stream next :=
  if bool_decide (id ∈ se_recent s) then
    let! s' := markEventPersisted s id (created_at_of data) in
    let s'' := markBroadcastPersisted s' (broadcastHwmFromLogEvent id data) in
    match nonce with
    | None => Ret (Continue s'')
    | Some _ => route_log true s'' id data nonce cursor
    end
  else route_log false s id data nonce cursor.

(* src/src/log-stream.ts 1127-1162 event.type === 'heartbeat' *)
Definition handle_heartbeat (s : session) (h : option hwm) : stream next :=
  match h, se_lastBroadcastHwm s with
  | None, _ => Ret (Continue s)
  | Some h, None =>
      let s1 := markBroadcastPersisted s (Some h) in
      match se_lastPersistedEventId s1 with
      | None => let! s2 := markEventPersisted s1 (h_id h) (h_created_at h) in Ret (Continue s2)
      | Some _ => Ret (Continue s1)
      end
  | Some h, Some l =>
      if compareBroadcastHwm h l <=? 0 then Ret (Continue (set_pending None s))
      else Ret (Continue (scheduleHwmDivergenceReconnect s h))
  end.

Definition mark_rejected : stream unit :=
  match ac_credentialRef active with Some ref => ask (MarkSeatRejected ref) | None => Ret tt end.

Definition cube_deleted : js_error := ErrorOf "CubeDeletedError" None None "This cube was deleted." [].
Definition drone_evicted : js_error :=
  ErrorOf "DroneEvictedError" None None "This drone was removed from the cube." [].
Definition server_error (code message : string) : js_error := ErrorOf "BorgServerError" (Some code) None message [].

(** The eviction frame: a sentinel line and a wake, both best effort. *)
(* src/src/log-stream.ts 1099-1118 event.type === 'eviction' *)
Definition handle_eviction (s : session) (id reason : option string) : stream next :=
  do! ask (NoteActivity true false);
  do! attempt (
    let! now := ask Now in
    let line := formatEvictionSentinelLine now reason in
    do! perform (AppendLine line);
    let entryId := default ("control:eviction:" +:+ ac_cubeId active +:+ ":" +:+ ac_droneId active +:+ ":" +:+
      default "" reason) id in
    perform (InjectOpenCode (formatCubeActivityWakeMessage line) entryId None));
  Ret (Break s).

(* src/src/log-stream.ts 1073-1126 event *)
Definition handle_event (s : session) (e : parsed_event) : stream next :=
  do! ask BumpWatchdog;
  do! ask (NoteActivity (match e with EvLog _ _ _ _ | EvBookmark _ => true | _ => false end) false);
  match e with
  | EvEviction id _ reason => handle_eviction s id reason
  | EvError code =>
      do! mark_rejected;
      if String.eqb code "CUBE_DELETED" then Throw cube_deleted
      else if String.eqb code "DRONE_EVICTED" then Throw drone_evicted
      else Throw (server_error "CREDENTIAL_REJECTED" "Borg server terminated the stream")
  | EvHeartbeat _ h => do! ask (NoteActivity false true); handle_heartbeat s h
  | EvBookmark _ => Ret (Continue (set_catchingUp false s))
  | EvLog id data nonce cursor => handle_log s id data nonce cursor
  | EvUnknown _ => Ret (Continue s)
  end.

(** The events one chunk yields. *)
Fixpoint handle_events (s : session) (es : list parsed_event) : stream next :=
  match es with
  | [] => Ret (Continue s)
  | e :: rest =>
      let! n := handle_event s e in
      match n with
      | Continue s' => handle_events s' rest
      | Break s' => Ret (Break s')
      end
  end.

(** One read per unit of fuel; [None]: the stream is still open. *)
(* src/src/log-stream.ts 1069-1078 for await *)
Fixpoint stream_body (fuel : nat) (st : sse_state) (s : session) : stream (option session) :=
  match fuel with
  | O => Ret None
  | S n =>
      let! chunk := perform ReadChunk in
      match chunk with
      | Some text =>
          let '(es, r) := drain (Some LOCAL_SERVER_SSE_FRAME_LIMIT_BYTES) st text in
          let! after_ := handle_events s es in
          match after_, r with
          | Break s', _ => Ret (Some s')
          | Continue s', Some st' => stream_body n st' s'
          | Continue _, None => Throw (JsError "Local Borg server SSE frame exceeded the response limit")
          end
      | None =>
          let es := if String.eqb (trim (ss_buffer st)) "" then [] else yield (parseEventBlock (ss_buffer st)) [] in
          let! after_ := handle_events s es in
          match after_ with Continue s' | Break s' => Ret (Some s') end
      end
  end.

(** ** The request *)

(** [decodeProtocolErrorEnvelope(JSON.parse(body)).error.code] *)
Definition envelope_code (body : string) : option string :=
  match parse_text body with Some v => protocol_error_code v | None => None end.

(* src/src/drone-lifecycle.ts 78-87 errorCodeFromBody *)
Definition errorCodeFromBody (body : string) : option string :=
  match parse_text body with
  | Some v =>
      match jstr (jget "code" v) with
      | Some c => Some c
      | None => match jget "error" v with Some e => jstr (jget "code" e) | None => None end
      end
  | None => None
  end.

Definition cursor_expired : js_error :=
  ErrorOf "StreamCursorExpiredError" None None "stream resume cursor expired — reset for catchup, reconnecting" [].

(** A response that is not a stream. *)
(* src/src/log-stream.ts 996-1067 !response.ok *)
Definition handle_refusal (r : response) : stream unit :=
  if rp_status r =? 401 then
    do! mark_rejected;
    if bool_decide (envelope_code (rp_error_body r) = Some "SESSION_REJECTED") then
      Throw (server_error "SESSION_REJECTED" "Borg server session was rejected")
    else if bool_decide (envelope_code (rp_error_body r) = Some "SESSION_REVOKED") then
      Throw (server_error "SESSION_REVOKED" "Borg server session was revoked")
    else Throw (server_error "CREDENTIAL_REJECTED" "Borg server rejected the stream credential")
  else if rp_status r =? 410 then
    let code := errorCodeFromBody (rp_error_body r) in
    if bool_decide (code = Some "DRONE_EVICTED") then do! mark_rejected; Throw drone_evicted
    else if bool_decide (code = Some "CUBE_DELETED") then do! mark_rejected; Throw cube_deleted
    else if bool_decide (code = Some "CURSOR_EXPIRED") then do! perform ClearCursor; Throw cursor_expired
    else Throw (JsError "stream HTTP 410")
  else Throw (JsError ("stream HTTP " +:+ js_String (JNum (rp_status r)))).

(* src/src/log-stream.ts 776-811 streamOnce *)
Definition start_session (lastEventId : option string) (cursor : option hwm) : session :=
  Session (match cursor with Some c => Some (h_id c) | None => lastEventId end) cursor None None ∅ []
    (bool_decide (is_Some lastEventId) || bool_decide (is_Some cursor)).

(* src/src/log-stream.ts 696-775 streamOnce *)
Definition streamOnce (fuel : nat) (lastEventId : option string) : stream unit :=
  if negb (is_uuid (ac_cubeId active)) then
    Throw (JsError ("cube_id " +:+ json_quote (ac_cubeId active) +:+ " is not a UUID"))
  else if negb (is_uuid (ac_droneId active)) then
    Throw (JsError ("drone_id " +:+ json_quote (ac_droneId active) +:+ " is not a UUID"))
  else
    match ac_serverTrustIdentity active with
    | None => Throw (JsError "Selected Borg server authority state is missing or unreadable")
    | Some identity =>
        let! trusted := perform LoadTrust in
        if negb (String.eqb trusted identity) then
          Throw (JsError "Borg server trust identity changed; refusing the stream")
        else
          let! cursor := perform GetCursor in
          do! ask BumpWatchdog;
          let! r := perform (Fetch cursor) in
          if negb (rp_ok r) then handle_refusal r
          else
            do! ask (SetConnected true);
            pfinally (do! stream_body fuel sse_empty (start_session lastEventId cursor); Ret tt)
              (ask (SetConnected false))
    end.
End Stream.
