(* ===== verification/StreamSpec.v ===== *)
(** * What a stream session promises

    Which events reach the drone's inbox and wake it, that the resume cursor
    never moves past an entry of the drone that is not accounted for, that cursors only
    move forward, when a heartbeat makes the session reconnect, and which answers
    of the server end it for good. *)

From S2P Require Import Prelude JsDate JsonText Effects SseParser InboxLine StreamSession.

Open Scope Z_scope.
Open Scope prog_scope.

(** The documented order of broadcast positions: by [created_at], then by id. *)
Class HwmOrder `{StreamEnv} := {
  compare_trans a b c : 0 < compareBroadcastHwm a b -> 0 < compareBroadcastHwm b c -> 0 < compareBroadcastHwm a c;
  compare_flip a b : 0 < compareBroadcastHwm a b <-> compareBroadcastHwm b a < 0
}.

(** Walk through a program's operations. *)
Ltac tstep :=
  match goal with
  | |- traces (pbind _ _) _ _ _ => apply traces_bind
  | |- traces (attempt _) _ _ _ => apply traces_attempt
  | |- traces (perform _) _ _ _ => apply traces_perform; [intros ?|intros ?]
  | |- traces (ask _) _ _ _ => apply traces_ask; intros ?
  end; cbv beta.

Section Spec.
Context `{StreamEnv} `{JsDate}.
Variable active : active_cube.

Local Abbreviation tr := (list (@entry stream_op)).

(** ** Operations that reach the drone, and that move its cursor *)

Definition delivering (e : @entry stream_op) : bool :=
  match e with
  | Did op _ => match op with AppendLine _ | InjectOpenCode _ _ _ | WakeCodex _ _ _ => true | _ => false end
  end.

Definition advances (e : @entry stream_op) : bool :=
  match e with Did op _ => match op with OnEventId _ | AdvanceCursor _ => true | _ => false end end.

Definition silent (t : tr) : Prop := Forall (fun e => delivering e = false) t.
Definition still (t : tr) : Prop := Forall (fun e => advances e = false) t.

Lemma silent_snoc t e : silent t -> delivering e = false -> silent (t ++ [e]).
Proof. intros Ht He. apply Forall_app. split; [done|by apply Forall_singleton]. Qed.
Lemma still_snoc t e : still t -> advances e = false -> still (t ++ [e]).
Proof. intros Ht He. apply Forall_app. split; [done|by apply Forall_singleton]. Qed.

#[local] Hint Resolve silent_snoc still_snoc : stream.

(** An ack for its author; an entry that names the drone or everybody and is not
    the drone's own. *)
Definition routed (data : json) : bool :=
  if is_ack data then bool_decide (jstr (jget "author_drone_id" data) = Some (ac_droneId active))
  else negb (not_addressed active data) && negb (is_own active data).

(** ** Silence *)

Lemma silent_persisted s id at_ t Q R :
  silent t -> (forall s' t', silent t' -> Q s' t') -> traces (markEventPersisted s id at_) t Q R.
Proof. intros Ht HQ. unfold markEventPersisted. cbv zeta. destruct (match se_lastPersistedHwm s with Some l => _ | None => _ end); [by apply HQ|]. tstep. tstep. apply HQ. auto with stream. Qed.

Lemma silent_record s id data cursor t Q (R : js_error -> tr -> Prop) :
  silent t -> (forall s' t', silent t' -> Q s' t') ->
  (forall e t' c, cursor = Some c -> silent t' -> Did (AdvanceCursor c) (inl e) ∈ t' -> R e t') ->
  traces (recordSeen s id data cursor) t Q R.
Proof.
  intros Ht HQ HR. unfold recordSeen. tstep. apply silent_persisted; [done|]. intros s' t' Ht'. tstep.
  destruct cursor as [c|]; [|by apply HQ]. tstep.
  - apply HQ. auto with stream.
  - apply (HR _ _ c); [done|auto with stream|]. apply elem_of_app. right. left.
Qed.

(** What the silent branches end in. *)
Definition quiet_end (n : next) (t : tr) : Prop := silent t /\ exists s', n = Continue s'.
Definition cursor_failed (cursor : option json) (e : js_error) (t : tr) : Prop :=
  silent t /\ exists c, cursor = Some c /\ Did (AdvanceCursor c) (inl e) ∈ t.

Lemma silent_route replay s id data nonce cursor t :
  routed data = false -> silent t ->
  traces (route_log active replay s id data nonce cursor) t quiet_end (cursor_failed cursor).
Proof.
  intros Hr Ht. unfold route_log, routed in *. cbv zeta.
  assert (Hrec : traces (let! s' := recordSeen s id data cursor in Ret (Continue s')) t quiet_end (cursor_failed cursor)).
  { tstep. apply silent_record; [done|intros s' t' Ht'; split; [done|by eexists]|].
    intros e t' c Hc Ht' Hin. split; [done|by exists c]. }
  destruct (is_ack data); [destruct replay; [done|by rewrite Hr]|].
  destruct (not_addressed active data); [done|]. cbn [negb andb] in Hr.
  apply negb_false_iff in Hr as ->. done.
Qed.

(** The stream is silent for what is not the drone's.  Whatever is answered,
    an entry addressed to others, the drone's own post, an acknowledgement of
    somebody else's entry and a repeated entry are never written to the inbox and
    wake nothing; the session goes on, and only a failed write of the cursor file
    ends it. *)
Theorem stream_not_routed_is_silent s id data nonce cursor :
  routed data = false \/ (id ∈ se_recent s /\ nonce = None) ->
  traces (handle_log active s id data nonce cursor) [] quiet_end (cursor_failed cursor).
Proof.
  intros Hr. unfold handle_log. case_bool_decide as Hrec.
  - tstep. apply silent_persisted; [constructor|]. intros s' t' Ht'. destruct nonce as [n|]; [|split; [done|by eexists]].
    apply silent_route; [destruct Hr as [?|[_ ?]]; done|done].
  - destruct Hr as [Hr|[? _]]; [|done]. by apply silent_route; [|constructor].
Qed.
End Spec.

(** The persisted position carries a date, as every event of the server does. *)
Definition dated (s : session) : Prop :=
  forall l, se_lastPersistedHwm s = Some l -> h_created_at l <> "".

(** Events as the server sends them: every position has a date. *)
Definition dated_event (e : parsed_event) : Prop :=
  match e with
  | EvLog _ data _ _ => created_at_of data <> ""
  | EvHeartbeat _ (Some h) => h_created_at h <> ""
  | _ => True
  end.

(** * The inbox before the cursor

    A session handles a list of events.  Each time the resume cursor moves, in
    memory or on disk, it moves to the position of one of them, and that event and
    all before it are accounted for. *)

Section Cursor.
Context `{StreamEnv} `{JsDate}.
Variable active : active_cube.
Variable resumed : option hwm.

Local Abbreviation tr := (list (@entry stream_op)).

(** The entry's line is in the inbox, written now or found there; or the entry is
    a repeated wake and the drone no longer has it pending. *)
Definition evidence (id : string) (data : json) (nonce : option string) (e : @entry stream_op) : Prop :=
  (exists now line, formatInboxLine now (withSseEventId data id) = inr line /\
     (e = Did (AppendLine line) (inr tt) \/ e = Did (HasInboxEntryId id line) (inr true))) \/
  (is_Some nonce /\ e = Did (HasPendingWakeEntry id) (inr false)).

(** The entry is a repeated wake, and whether it is pending could not be read. *)
Definition unanswered (id : string) (nonce : option string) (e : @entry stream_op) : Prop :=
  is_Some nonce /\ exists err, e = Did (HasPendingWakeEntry id) (inl err).

Definition position_of (e : parsed_event) : option hwm :=
  match e with EvLog id data _ _ => Some (Hwm id (created_at_of data)) | EvHeartbeat _ h => h | _ => None end.

Definition is_bookmark (e : parsed_event) : bool := match e with EvBookmark _ => true | _ => false end.

(** At or before the position the catch-up resumed from, or has come to. *)
Definition behind (before : list parsed_event) (h : hwm) : Prop :=
  Forall (fun e => is_bookmark e = false) before /\
  exists l, (resumed = Some l \/ Exists (fun e => position_of e = Some l) before) /\ compareBroadcastHwm h l <= 0.

(** What makes it safe to pass an event that came after [before]. *)
Definition accounted (before : list parsed_event) (t : tr) (e : parsed_event) : Prop :=
  match e with
  | EvLog id data nonce _ =>
      routed active data = false \/ Exists (evidence id data nonce) t \/ Exists (unanswered id nonce) t \/
      (exists data' nonce' cursor', EvLog id data' nonce' cursor' ∈ before) \/ behind before (Hwm id (created_at_of data))
  | _ => True
  end.

Definition all_accounted (done : list parsed_event) (t : tr) : Prop :=
  forall before e after, done = before ++ e :: after -> accounted before t e.

(** The operation moves the cursor to the event. *)
Definition moves_to (e : parsed_event) (o : @entry stream_op) : Prop :=
  match e with
  | EvLog id _ _ cursor => o = Did (OnEventId id) tt \/ exists c x, cursor = Some c /\ o = Did (AdvanceCursor c) x
  | EvHeartbeat _ (Some h) => o = Did (OnEventId (h_id h)) tt
  | _ => False
  end.

Definition justified (done : list parsed_event) (t : tr) : Prop :=
  forall t1 o t2, t = t1 ++ o :: t2 -> advances o = true ->
    exists before e after, done = before ++ e :: after /\ moves_to e o /\ all_accounted (before ++ [e]) t1.

Lemma exists_snoc {A} (P : A -> Prop) t e : Exists P t -> Exists P (t ++ [e]).
Proof. intros Ht. apply Exists_app. by left. Qed.

Lemma exists_last {A} (P : A -> Prop) t e : P e -> Exists P (t ++ [e]).
Proof. intros He. apply Exists_app. right. by apply Exists_cons_hd. Qed.

Lemma accounted_snoc before t e o : accounted before t e -> accounted before (t ++ [o]) e.
Proof.
  destruct e as [id data nonce cursor| | | | |]; [|done..]. intros [H1|[H1|[H1|H1]]]; [by left| | |by right; right; right].
  - right. left. by apply exists_snoc.
  - right. right. left. by apply exists_snoc.
Qed.

Lemma all_accounted_snoc done t o : all_accounted done t -> all_accounted done (t ++ [o]).
Proof. intros Ha before e after Heq. by eapply accounted_snoc, Ha. Qed.

Lemma all_accounted_more done t e : all_accounted done t -> accounted done t e -> all_accounted (done ++ [e]) t.
Proof.
  intros Ha He before x after Heq. destruct after as [|y after _] using rev_ind.
  - by apply app_inj_tail in Heq as [<- <-].
  - rewrite app_comm_cons, app_assoc in Heq. apply app_inj_tail in Heq as [Heq _]. by eapply Ha.
Qed.

Lemma justified_more done more t : justified done t -> justified (done ++ more) t.
Proof.
  intros Hj t1 o t2 Ht Ho. destruct (Hj t1 o t2 Ht Ho) as (before & e & after & -> & Hm & Ha).
  exists before, e, (after ++ more). by rewrite <-app_assoc.
Qed.

Lemma justified_snoc done t o :
  justified done t ->
  (advances o = true -> exists before e after, done = before ++ e :: after /\ moves_to e o /\ all_accounted (before ++ [e]) t) ->
  justified done (t ++ [o]).
Proof.
  intros Hj Ho t1 x t2 Heq Hx. destruct t2 as [|y t2 _] using rev_ind.
  - apply app_inj_tail in Heq as [<- <-]. by apply Ho.
  - rewrite app_comm_cons, app_assoc in Heq. apply app_inj_tail in Heq as [Heq _]. by eapply Hj.
Qed.

(** ** One event

    [ready] is kept by every operation; the operations that move the cursor need
    the event to be accounted for. *)
Section Event.
Variable before : list parsed_event.
Variable event : parsed_event.

Definition ready (t : tr) : Prop := all_accounted before t /\ justified (before ++ [event]) t.
Local Abbreviation safe t := (accounted before t event).

Lemma ready_still t o : ready t -> advances o = false -> ready (t ++ [o]).
Proof.
  intros [H1 H2] Ho. split; [by apply all_accounted_snoc|]. apply justified_snoc; [done|by rewrite Ho].
Qed.

Lemma ready_move t o : ready t -> safe t -> moves_to event o -> ready (t ++ [o]).
Proof.
  intros [H1 H2] Hs Hm. split; [by apply all_accounted_snoc|]. apply justified_snoc; [done|]. intros _.
  exists before, event, []. split; [done|]. split; [done|by apply all_accounted_more].
Qed.
End Event.

#[local] Hint Resolve ready_still accounted_snoc : stream.

Section Log.
Variable before : list parsed_event.
Variables (id : string) (data : json) (nonce : option string) (cursor : option json).
Hypothesis Hdated : created_at_of data <> "".
Local Abbreviation event := (EvLog id data nonce cursor).
Local Abbreviation ready := (ready before event).
Local Abbreviation safe t := (accounted before t event).
Local Abbreviation at_ := (created_at_of data).

(** What the entry may change of the session. *)
Record follows (s s' : session) : Prop := {
  fl_persisted : se_lastPersistedHwm s' = se_lastPersistedHwm s \/ se_lastPersistedHwm s' = Some (Hwm id at_);
  fl_recent : se_recent s' ⊆ {[id]} ∪ se_recent s;
  fl_catching : se_catchingUp s' = se_catchingUp s
}.

Lemma follows_refl s : follows s s.
Proof. split; [by left|set_solver|done]. Qed.

Lemma follows_trans a b c : follows a b -> follows b c -> follows a c.
Proof.
  intros [A1 A2 A3] [B1 B2 B3]. split; [|set_solver|congruence]. destruct B1 as [->|B1]; [done|by right].
Qed.

Lemma follows_broadcast s h : follows s (markBroadcastPersisted s h).
Proof. destruct h as [h|]; [|apply follows_refl]. split; [by left|cbn; set_solver|done]. Qed.

Lemma shift_recent_subset n r o : (shift_recent n r o).1 ⊆ r.
Proof.
  revert r o. induction n as [|n IH]; intros r o; cbn [shift_recent]; [by destruct o|]. destruct o as [|x o]; [done|].
  etrans; [apply IH|]. set_solver.
Qed.

Lemma follows_recent s : follows s (record_recent s id).
Proof.
  unfold record_recent. assert (Hs := shift_recent_subset (length (se_recentOrder s ++ [id]) - RECENT_IDS_CAP) ({[id]} ∪ se_recent s) (se_recentOrder s ++ [id])).
  destruct (shift_recent _ _ _) as [r o]. split; [by left|exact Hs|done].
Qed.

Lemma safe_evidence t o : evidence id data nonce o -> safe (t ++ [o]).
Proof. intros Ho. right. left. by apply exists_last. Qed.

Lemma safe_unanswered t o : unanswered id nonce o -> safe (t ++ [o]).
Proof. intros Ho. right. right. left. by apply exists_last. Qed.

Lemma walk_persisted s t Q R :
  ready t -> safe t -> (forall s' t', follows s s' -> ready t' -> safe t' -> Q s' t') -> traces (markEventPersisted s id at_) t Q R.
Proof.
  intros Ht Hs HQ. unfold markEventPersisted. cbv zeta.
  destruct (match se_lastPersistedHwm s with Some l => _ | None => _ end); [by apply HQ; [apply follows_refl|..]|].
  tstep. tstep. destruct x. apply HQ; [|by apply ready_move; [..|left]|by apply accounted_snoc].
  split; [by right|cbn; set_solver|done].
Qed.

(** An entry behind the cursor leaves it where it is. *)
Lemma walk_covered s t (Q : session -> tr -> Prop) R :
  dated s -> at_or_before_cursor s id at_ = true -> Q s t -> traces (markEventPersisted s id at_) t Q R.
Proof.
  intros Hs Hc HQ. unfold markEventPersisted, at_or_before_cursor in *. cbv zeta. bool_to_prop.
  destruct (se_lastPersistedHwm s) as [l|] eqn:El; [|done]. specialize (Hs l El).
  apply String.eqb_neq in Hs, Hdated. rewrite Hs, Hdated. cbn [negb andb].
  match goal with |- traces (if ?b then _ else _) _ _ _ => assert (b = true) as -> by assumption || (apply Z.leb_le; assumption) end. exact HQ.
Qed.

Lemma walk_wake line d t Q (R : js_error -> tr -> Prop) :
  ready t -> (forall t', ready t' -> (safe t -> safe t') -> Q tt t') ->
  (forall e t', ready t' -> R e t') -> traces (wake line d nonce id) t Q R.
Proof.
  intros Ht HQ HR. unfold wake. tstep. tstep.
  - destruct a; [apply HQ; auto with stream|]. tstep. destruct x. apply HQ; auto with stream.
  - apply HR. auto with stream.
Qed.

Lemma walk_record s t Q (R : js_error -> tr -> Prop) :
  ready t -> safe t -> (forall s' t', follows s s' -> ready t' -> safe t' -> Q s' t') -> (forall e t', ready t' -> R e t') ->
  traces (recordSeen s id data cursor) t Q R.
Proof.
  intros Ht Hs HQ HR. unfold recordSeen. tstep. apply walk_persisted; [done|done|]. intros s' t' Hf Ht' Hs'. tstep.
  assert (Hall : follows s (markBroadcastPersisted s' (broadcastHwmFromLogEvent id data))).
  { eapply follows_trans; [apply follows_recent|]. by eapply follows_trans; [|apply follows_broadcast]. }
  destruct cursor as [c|] eqn:Ec; [|by apply HQ]. rewrite <-Ec in *.
  assert (Hmv : forall x, moves_to event (Did (AdvanceCursor c) x)) by (intros x; right; by exists c, x).
  tstep; [apply HQ; [done|by apply ready_move|by apply accounted_snoc]|apply HR; by apply ready_move].
Qed.

Lemma walk_retry t Q R :
  is_Some nonce -> ready t ->
  (forall b t', ready t' -> (safe t -> safe t') -> (b = false -> safe t') -> Q b t') ->
  traces (shouldDeliverWakeRetry id) t Q R.
Proof.
  intros Hn Ht HQ. unfold shouldDeliverWakeRetry. tstep. tstep. tstep; cbn beta iota.
  - destruct a; [apply HQ; [auto with stream|auto with stream|done]|]. tstep. tstep.
    apply HQ; [auto with stream|auto with stream|]. intros _. by apply accounted_snoc, safe_evidence; right.
  - apply HQ; [auto with stream|auto with stream|]. intros _. apply safe_unanswered. split; [done|by eexists].
Qed.

Lemma walk_write s t Q (R : js_error -> tr -> Prop) :
  dated s -> ready t ->
  (forall s' w t', follows s s' -> ready t' -> safe t' \/ (w = PersistedSkip /\ at_or_before_cursor s id at_ = true) -> Q (s', w) t') ->
  (forall e t', ready t' -> R e t') -> traces (writeInboxLine s id data nonce) t Q R.
Proof.
  intros Hs Ht HQ HR. unfold writeInboxLine, inbox_line. tstep. tstep. tstep.
  destruct (formatInboxLine x (withSseEventId data id)) as [e|line] eqn:Hf; [apply HR; auto with stream|].
  cbn [traces]. cbv zeta. tstep. set (covered := at_or_before_cursor s id at_) in *.
  assert (Hskip : forall t', ready t' -> safe t' \/ covered = true ->
    traces (let! s' := markEventPersisted s id at_ in Ret (s', PersistedSkip)) t' Q R).
  { intros t' Hr Ho. tstep. destruct Ho as [Ho|Ho].
    - apply walk_persisted; [done|done|]. intros s' t'' H1 H2 H3. apply HQ; auto.
    - apply walk_covered; [done|done|]. apply HQ; [apply follows_refl|done|by right]. }
  assert (Hnew : forall t', ready t' ->
    traces (do! perform (AppendLine line); do! wake line (default id nonce) nonce id; Ret (s, Written)) t' Q R).
  { intros t' Hr. tstep. tstep; [|apply HR; auto with stream]. tstep. destruct a.
    assert (He : safe (t' ++ [Did (AppendLine line) (inr tt)])).
    { apply safe_evidence. left. exists x, line. auto. }
    apply walk_wake; [auto with stream| |auto]. intros t2 H2 Hk. apply HQ; [apply follows_refl|done|left; auto]. }
  assert (Hold : forall t', ready t' -> safe t' \/ covered = true ->
    traces (do! match nonce with Some _ => wake line (default id nonce) nonce id | None => Ret tt end;
      let! s' := markEventPersisted s id at_ in Ret (s', PersistedSkip)) t' Q R).
  { intros t' Hr Ho. tstep. destruct nonce as [n|] eqn:En; [rewrite <-En in *|by apply Hskip].
    apply walk_wake; [done| |auto]. intros t2 H2 Hk. apply Hskip; [done|]. destruct Ho; auto. }
  assert (Hmain : forall t', ready t' ->
    traces (let! alreadyPersisted := if covered then Ret true
        else if bool_decide (is_Some nonce) || se_catchingUp s && bool_decide (se_lastPersistedHwm s = None)
             then perform (HasInboxEntryId id line) else Ret false in
      if (alreadyPersisted : bool) then
        do! match nonce with Some _ => wake line (default id nonce) nonce id | None => Ret tt end;
        let! s' := markEventPersisted s id at_ in Ret (s', PersistedSkip)
      else do! perform (AppendLine line); do! wake line (default id nonce) nonce id; Ret (s, Written)) t' Q R).
  { intros t' Hr. tstep. destruct covered eqn:Ec; [apply Hold; auto|].
    destruct (_ || _); [|by apply Hnew]. tstep; [|apply HR; auto with stream].
    destruct a; [|apply Hnew; auto with stream]. apply Hold; [auto with stream|left].
    apply safe_evidence. left. exists x, line. auto. }
  destruct nonce as [n|] eqn:En; [rewrite <-En in *|cbn [traces negb]; apply Hmain; auto with stream].
  apply walk_retry; [rewrite En; by eexists|auto with stream|]. intros b t' Hr _ Hb.
  destruct b; cbn [negb]; [by apply Hmain|apply Hskip; auto].
Qed.

(** Where the entry leaves the session. *)
Definition left_at (s : session) (n : next) (t : tr) : Prop :=
  exists s', n = Continue s' /\ follows s s' /\ ready t /\ (safe t \/ at_or_before_cursor s id at_ = true).

Lemma walk_route replay s t :
  dated s -> ready t -> (routed active data = false \/ replay = true -> safe t) ->
  traces (route_log active replay s id data nonce cursor) t (left_at s) (fun _ t' => ready t').
Proof.
  intros Hs Ht Hsafe. unfold route_log. cbv zeta.
  assert (Hrec : safe t -> traces (let! s' := recordSeen s id data cursor in Ret (Continue s')) t (left_at s) (fun _ t' => ready t')).
  { intros Ho. tstep. apply walk_record; [done|done| |done]. intros s' t' H1 H2 H3. exists s'. auto. }
  assert (Hdel : traces (deliver s id data nonce cursor) t (left_at s) (fun _ t' => ready t')).
  { unfold deliver. tstep. apply walk_write; [done|done| |done]. intros s' w t' H1 H2 H3. destruct w.
    - exists s'. destruct H3 as [?|[_ ?]]; auto.
    - tstep. destruct H3 as [H3|[? _]]; [|done]. apply walk_record; [done|done| |done]. intros s'' t'' K1 K2 K3.
      exists s''. split; [done|]. split; [by eapply follows_trans|]. auto. }
  unfold routed in Hsafe. destruct (is_ack data).
  - destruct replay; [apply Hrec; auto|]. destruct (bool_decide _); [done|apply Hrec; auto].
  - destruct (not_addressed active data); [apply Hrec; auto|]. destruct (is_own active data); [apply Hrec; auto|].
    destruct replay; [|done]. assert (Ho : safe t) by auto. unfold inbox_line. tstep. tstep. tstep.
    destruct (formatInboxLine _ _) as [e|line]; [cbn; auto with stream|]. cbn [traces].
    assert (Hend : forall t', ready t' -> (safe t -> safe t') -> left_at s (Continue s) t').
    { intros t' H1 H2. exists s. split; [done|]. split; [apply follows_refl|]. auto. }
    destruct nonce as [n|] eqn:En; [rewrite <-En in *|apply Hend; auto with stream].
    tstep. apply walk_retry; [rewrite En; by eexists|auto with stream|]. intros b t' H1 H2 _.
    destruct b; [|cbn [traces]; apply Hend; auto with stream]. tstep. apply walk_wake; [done| |done].
    intros t'' K1 K2. cbn [traces]. apply Hend; auto with stream.
Qed.

Lemma dated_follows s s' : dated s -> follows s s' -> dated s'.
Proof. intros Hs [[Hp|Hp] _ _] l; rewrite Hp; [apply Hs|by intros [= <-]]. Qed.

Lemma walk_log s t :
  dated s -> ready t -> (id ∈ se_recent s -> exists data' nonce' cursor', EvLog id data' nonce' cursor' ∈ before) ->
  traces (handle_log active s id data nonce cursor) t
    (fun n t' => exists s', n = Continue s' /\ follows s s' /\ ready t' /\ (safe t' \/ at_or_before_cursor s id at_ = true))
    (fun _ t' => ready t').
Proof.
  intros Hs Ht Hrec. unfold handle_log. case_bool_decide as Hin.
  - assert (Ho : forall t', safe t') by (intros t'; right; right; right; left; by apply Hrec).
    tstep. apply walk_persisted; [done|done|]. intros s' t' H1 H2 _. cbv zeta.
    set (s1 := markBroadcastPersisted s' _). assert (Hf : follows s s1) by (eapply follows_trans; [exact H1|apply follows_broadcast]).
    assert (Hd1 : dated s1) by (by eapply dated_follows).
    destruct nonce as [n|] eqn:En; [rewrite <-En in *|exists s1; auto].
    eapply traces_mono; [by apply walk_route| |done]. intros n' t'' (s2 & -> & K1 & K2 & _). exists s2.
    split; [done|]. split; [by eapply follows_trans|]. auto.
  - apply walk_route; [done|done|]. intros [Hr|?]; [by left|done].
Qed.
End Log.

(** ** The events of a session *)

Record tracked (before : list parsed_event) (s : session) (t : tr) : Prop := {
  tk_dated : dated s;
  tk_persisted : forall l, se_lastPersistedHwm s = Some l -> resumed = Some l \/ Exists (fun e => position_of e = Some l) before;
  tk_recent : forall id, id ∈ se_recent s -> exists data nonce cursor, EvLog id data nonce cursor ∈ before;
  tk_catching : se_catchingUp s = true -> Forall (fun e => is_bookmark e = false) before;
  tk_accounted : all_accounted before t;
  tk_justified : justified before t
}.

Lemma tracked_ready before e s t : tracked before s t -> ready before e t.
Proof. intros Ht. split; [apply Ht|]. apply justified_more, Ht. Qed.

(** An event that leaves what is tracked of the session alone. *)
Lemma tracked_other before e s s' t :
  tracked before s t -> se_lastPersistedHwm s' = se_lastPersistedHwm s -> se_recent s' = se_recent s ->
  (se_catchingUp s' = true -> se_catchingUp s = true /\ is_bookmark e = false) ->
  forall t', ready before e t' -> accounted before t' e -> tracked (before ++ [e]) s' t'.
Proof.
  intros [T1 T2 T3 T4 T5 T6] Hp Hr Hc t' [H1 H2] Ho. split; try done.
  - intros l. rewrite Hp. apply T1.
  - intros l. rewrite Hp. intros Hl. destruct (T2 l Hl) as [?|?]; [by left|right; apply Exists_app; by left].
  - intros id. rewrite Hr. intros Hid. destruct (T3 id Hid) as (d & n & c & Hin). exists d, n, c. apply elem_of_app. by left.
  - intros Hs. destruct (Hc Hs) as [Hs' Hb]. apply Forall_app. split; [by apply T4|by apply Forall_singleton].
  - by apply all_accounted_more.
Qed.

Lemma tracked_log before id data nonce cursor s s' t t' :
  created_at_of data <> "" -> tracked before s t -> follows id data s s' -> ready before (EvLog id data nonce cursor) t' ->
  accounted before t' (EvLog id data nonce cursor) \/ at_or_before_cursor s id (created_at_of data) = true ->
  tracked (before ++ [EvLog id data nonce cursor]) s' t'.
Proof.
  intros Hd [T1 T2 T3 T4 T5 T6] [F1 F2 F3] [H1 H2] Ho. split; try done.
  - intros l. destruct F1 as [->| ->]; [apply T1|by intros [= <-]].
  - intros l. rewrite Exists_app. destruct F1 as [->| ->].
    + intros Hl. destruct (T2 l Hl); auto.
    + intros [= <-]. right. right. by apply Exists_cons_hd.
  - intros i Hi. apply F2 in Hi. apply elem_of_union in Hi as [->%elem_of_singleton|Hi].
    + exists data, nonce, cursor. apply elem_of_app. right. by apply list_elem_of_singleton.
    + destruct (T3 i Hi) as (d & n & c & Hin). exists d, n, c. apply elem_of_app. by left.
  - rewrite F3. intros Hc. apply Forall_app. split; [by apply T4|by apply Forall_singleton].
  - apply all_accounted_more; [done|]. destruct Ho as [Ho|Ho]; [done|]. right. right. right. right.
    unfold at_or_before_cursor in Ho. bool_to_prop. split; [by apply T4|].
    destruct (se_lastPersistedHwm s) as [l|] eqn:El; [|done]. exists l. split; [by apply T2|by apply Z.leb_le].
Qed.

Lemma walk_event before s e t :
  dated_event e -> tracked before s t ->
  traces (handle_event active s e) t
    (fun n t' => match n with Continue s' => tracked (before ++ [e]) s' t' | Break _ => justified (before ++ [e]) t' end)
    (fun _ t' => justified (before ++ [e]) t').
Proof.
  intros Hd Ht. assert (Hr := tracked_ready before e s t Ht). unfold handle_event. tstep. tstep. tstep. tstep.
  apply (ready_still before e _ (Did BumpWatchdog x)) in Hr; [|done].
  apply (ready_still before e _ (Did (NoteActivity (match e with EvLog _ _ _ _ | EvBookmark _ => true | _ => false end) false) x0)) in Hr; [|done].
  match type of Hr with ready _ _ ?u => set (t1 := u) in * end.
  assert (Hj : forall t', ready before e t' -> justified (before ++ [e]) t') by (by intros t' [_ ?]).
  destruct e as [id data nonce cursor|ts h|as_of|id cube reason|code|raw].
  - eapply traces_mono; [apply (walk_log before id data nonce cursor); [done|apply Ht|done|apply Ht]| |intros err t' Hn; by apply Hj].
    intros n t' (s' & -> & H1 & H2 & H3). by eapply tracked_log.
  - tstep. tstep. apply (ready_still before _ _ (Did (NoteActivity false true) x1)) in Hr; [|done].
    match type of Hr with ready _ _ ?u => set (t2 := u) in * end.
    assert (Hsame : forall s', se_lastPersistedHwm s' = se_lastPersistedHwm s -> se_recent s' = se_recent s ->
      se_catchingUp s' = se_catchingUp s -> tracked (before ++ [EvHeartbeat ts h]) s' t2).
    { intros s' H1 H2 H3. eapply tracked_other; [exact Ht|done|done|by rewrite H3|done|done]. }
    unfold handle_heartbeat. destruct h as [h|]; [|by apply Hsame].
    destruct (se_lastBroadcastHwm s) as [l|].
    + destruct (compareBroadcastHwm h l <=? 0); [by apply Hsame|]. unfold scheduleHwmDivergenceReconnect.
      destruct (se_pending s) as [p|]; [destruct (String.eqb _ _)|]; by apply Hsame.
    + cbv zeta. set (s1 := markBroadcastPersisted s (Some h)). destruct (se_lastPersistedEventId s1); [by apply Hsame|].
      tstep. unfold markEventPersisted. cbv zeta. destruct (match se_lastPersistedHwm s1 with Some l => _ | None => _ end); [by apply Hsame|].
      tstep. tstep. destruct x2. cbn [traces].
      assert (Hr2 : ready before (EvHeartbeat ts (Some h)) (t2 ++ [Did (OnEventId (h_id h)) tt])) by (by apply ready_move).
      destruct h as [hi ha]. cbn in Hd. destruct Ht as [T1 T2 T3 T4 T5 T6], Hr2 as [K1 K2]. split; try done.
      * by intros l [= <-].
      * intros l [= <-]. right. apply Exists_app. right. by apply Exists_cons_hd.
      * intros i Hi. destruct (T3 i Hi) as (d & n & c & Hin). exists d, n, c. apply elem_of_app. by left.
      * intros Hc. apply Forall_app. split; [by apply T4|by apply Forall_singleton].
      * by apply all_accounted_more.
  - eapply tracked_other; [exact Ht|done|done|done|done|done].
  - unfold handle_eviction. tstep. tstep. tstep. tstep. tstep. tstep. tstep. tstep; [tstep|]; cbn; apply Hj; auto 10 with stream.
  - tstep. unfold mark_rejected. destruct (ac_credentialRef active); [tstep|cbn];
      (destruct (String.eqb code _); [cbn; apply Hj; auto with stream|]; destruct (String.eqb code _); cbn; apply Hj; auto with stream).
  - eapply tracked_other; [exact Ht|done|done|done|done|done].
Qed.

Lemma walk_events es before s t :
  Forall dated_event es -> tracked before s t ->
  traces (handle_events active s es) t (fun _ t' => justified (before ++ es) t') (fun _ t' => justified (before ++ es) t').
Proof.
  intros Hes. revert before s t. induction Hes as [|e es He _ IH]; intros before s t Ht; cbn [handle_events].
  - cbn. rewrite app_nil_r. apply Ht.
  - tstep. replace (before ++ e :: es) with ((before ++ [e]) ++ es) by (by rewrite <-app_assoc).
    eapply traces_mono; [by apply walk_event| |intros err t' Hn; by apply justified_more].
    intros n t' Hn. destruct n as [s'|s']; [by apply IH|by apply justified_more].
Qed.
End Cursor.

(** C10. In a session the resume cursor never passes an entry of the drone that is
    not accounted for.  For any dated events of a session, and in whatever way the
    appends, the wake attempts, the reads of the inbox and the writes of the cursor
    file are answered: each time the cursor moves, in memory or on disk, it moves to
    the position of one of the events, and each entry routed to the drone among that
    event and those before it had by then its line appended or found in the inbox;
    or is a repeated wake that the drone was found to have read; or is a repeated
    wake and the read of its unread entries failed; or repeats the id of an entry
    before it; or lies, before the end of the catch-up, at or before a position the
    session resumed from or had come to.  A failed append therefore leaves the
    cursor where it was. *)
Theorem stream_cursor_follows_inbox `{StreamEnv} `{JsDate} (active : active_cube) (resumed : option hwm) lastEventId es :
  (forall c, resumed = Some c -> h_created_at c <> "") -> Forall dated_event es ->
  traces (handle_events active (start_session lastEventId resumed) es) []
    (fun _ t => justified active resumed es t) (fun _ t => justified active resumed es t).
Proof.
  intros Hc Hes. apply (walk_events active resumed es []); [done|]. split.
  - exact Hc.
  - intros l Hl. by left.
  - intros id Hid. exfalso. by apply not_elem_of_empty in Hid.
  - intros _. constructor.
  - by intros [|? ?].
  - by intros [|? ?].
Qed.

(** * The state of a stream session only moves forward

    An invariant of the session and a preorder on sessions that every event
    respects, whatever the operations answer: the list of recent ids is bounded,
    the two cursors never go back, and a pending divergence is one the session
    has not caught up with. *)

Section Order.
Context `{HwmOrder} `{JsDate}.
Variable active : active_cube.

(** [b] is [a] or after it. *)
Definition forward (a b : option hwm) : Prop :=
  match a, b with
  | None, _ => True
  | Some x, Some y => y = x \/ 0 < compareBroadcastHwm y x
  | Some _, None => False
  end.

#[export] Instance forward_refl : Reflexive forward.
Proof. intros [x|]; cbn; auto. Qed.

#[export] Instance forward_trans : Transitive forward.
Proof.
  intros [x|] [y|] [z|]; cbn; try done. intros [->|Hxy] [->|Hyz]; auto.
  right. by eapply compare_trans.
Qed.

(** The invariant. *)
Record session_ok (s : session) : Prop := {
  so_cap : (length (se_recentOrder s) <= RECENT_IDS_CAP)%nat;
  so_recent : se_recent s ⊆ list_to_set (se_recentOrder s);
  so_behind : forall p, se_pending s = Some p ->
    exists l, se_lastBroadcastHwm s = Some l /\ compareBroadcastHwm l p < 0
}.

Record moves (s s' : session) : Prop := {
  mv_ok : session_ok s -> session_ok s';
  mv_dated : dated s -> dated s';
  mv_persisted : dated s -> forward (se_lastPersistedHwm s) (se_lastPersistedHwm s');
  mv_broadcast : forward (se_lastBroadcastHwm s) (se_lastBroadcastHwm s')
}.

#[export] Instance moves_refl : Reflexive moves.
Proof. intros s. split; auto; reflexivity. Qed.

#[export] Instance moves_trans : Transitive moves.
Proof.
  intros a b c [A1 A2 A3 A4] [B1 B2 B3 B4].
  split; [auto|auto|intros Ha; etrans; [by apply A3|by apply B3, A2]|by etrans].
Qed.

(** ** The parts of an event *)

Lemma moves_set_persisted s id at_ :
  at_ <> "" ->
  match se_lastPersistedHwm s with
  | Some l => negb (String.eqb at_ "") && negb (String.eqb (h_created_at l) "") && (compareBroadcastHwm (Hwm id at_) l <=? 0)
  | None => false
  end = false ->
  moves s (set_persisted id (Hwm id at_) s).
Proof.
  intros Hat Hb. split.
  - intros [? ? ?]. by split.
  - intros _ l [= <-]. done.
  - intros Hd. cbn. destruct (se_lastPersistedHwm s) as [l|] eqn:El; [|done]. right.
    apply String.eqb_neq in Hat. assert (Hl := Hd l El). apply String.eqb_neq in Hl.
    rewrite Hat, Hl in Hb. cbn in Hb. by apply Z.leb_gt in Hb.
  - reflexivity.
Qed.

Lemma moves_markEventPersisted s id at_ t Q R :
  at_ <> "" -> (forall s' t', moves s s' -> Q s' t') -> traces (markEventPersisted s id at_) t Q R.
Proof.
  intros Hat HQ. unfold markEventPersisted. cbv zeta.
  destruct (match se_lastPersistedHwm s with Some l => _ | None => _ end) eqn:Eb; [apply HQ; reflexivity|].
  tstep. tstep. apply HQ. by apply moves_set_persisted.
Qed.

Lemma moves_markBroadcast s h : moves s (markBroadcastPersisted s h).
Proof.
  destruct h as [h|]; [|reflexivity]. unfold markBroadcastPersisted.
  set (l' := match se_lastBroadcastHwm s with None => h | Some l => if 0 <? compareBroadcastHwm h l then h else l end).
  split; cbn.
  - intros [? ? Hbeh]. split; cbn; [done|done|]. intros p.
    destruct (se_pending s) as [q|]; [|done]. destruct (0 <=? compareBroadcastHwm l' q) eqn:E; [done|].
    intros [= <-]. exists l'. split; [done|]. by apply Z.leb_gt in E.
  - done.
  - reflexivity.
  - unfold l'. destruct (se_lastBroadcastHwm s) as [l|]; [|done]. cbn.
    destruct (Z.ltb_spec 0 (compareBroadcastHwm h l)); auto.
Qed.

Lemma shift_recent_ok n r o :
  (n <= length o)%nat -> r ⊆ list_to_set o ->
  let '(r', o') := shift_recent n r o in
  length o' = (length o - n)%nat /\ r' ⊆ list_to_set o'.
Proof.
  revert r o. induction n as [|n IH]; intros r o Hn Hr; cbn [shift_recent].
  - destruct o; (split; [cbn; lia|done]).
  - destruct o as [|x o]; cbn in Hn; [lia|]. specialize (IH (r ∖ {[x]}) o ltac:(lia)).
    destruct (shift_recent n (r ∖ {[x]}) o) as [r' o']. destruct IH as [Hl Hs]; [|split; [cbn; lia|done]].
    intros y. cbn in Hr. specialize (Hr y). set_solver.
Qed.

Lemma moves_record_recent s id : moves s (record_recent s id).
Proof.
  unfold record_recent.
  assert (Hs := shift_recent_ok (length (se_recentOrder s ++ [id]) - RECENT_IDS_CAP) ({[id]} ∪ se_recent s) (se_recentOrder s ++ [id])).
  destruct (shift_recent _ _ _) as [r o]. split; try reflexivity; [|done].
  intros [Hcap Hrec Hbeh]. destruct Hs as [Hl Hsub]; [lia| |].
  { rewrite list_to_set_app_L. set_solver. }
  split; cbn; [rewrite Hl, length_app in *; cbn; unfold RECENT_IDS_CAP in *; lia|done|done].
Qed.

Lemma moves_recordSeen s id data cursor t Q (R : js_error -> list (@entry stream_op) -> Prop) :
  created_at_of data <> "" -> (forall s' t', moves s s' -> Q s' t') -> (forall e t', R e t') ->
  traces (recordSeen s id data cursor) t Q R.
Proof.
  intros Hd HQ HR. unfold recordSeen. tstep. apply moves_markEventPersisted; [done|]. intros s' t' Hm.
  assert (Hall : moves s (markBroadcastPersisted s' (broadcastHwmFromLogEvent id data))).
  { etrans; [apply (moves_record_recent s id)|]. etrans; [exact Hm|apply moves_markBroadcast]. }
  tstep. destruct cursor as [c|]; [tstep; [by apply HQ|apply HR]|by apply HQ].
Qed.

(** Operations that leave the session alone. *)
Lemma traces_wake line d nonce id t Q (R : js_error -> list (@entry stream_op) -> Prop) :
  (forall t', Q tt t') -> (forall e t', R e t') -> traces (wake line d nonce id) t Q R.
Proof.
  intros HQ HR. unfold wake. tstep. tstep; [|apply HR]. destruct a; [apply HQ|]. tstep. destruct x. apply HQ.
Qed.

Lemma traces_retry id t Q R : (forall b t', Q b t') -> traces (shouldDeliverWakeRetry id) t Q R.
Proof.
  intros HQ. unfold shouldDeliverWakeRetry. tstep. tstep. tstep; cbn beta iota; [|apply HQ].
  destruct a; [apply HQ|]. tstep. tstep. apply HQ.
Qed.

Lemma traces_inbox_line id data t Q (R : js_error -> list (@entry stream_op) -> Prop) :
  (forall l t', Q l t') -> (forall e t', R e t') -> traces (inbox_line id data) t Q R.
Proof. intros HQ HR. unfold inbox_line. tstep. tstep. destruct (formatInboxLine _ _); [apply HR|apply HQ]. Qed.

Lemma moves_write s id data nonce t Q (R : js_error -> list (@entry stream_op) -> Prop) :
  created_at_of data <> "" -> (forall s' w t', moves s s' -> Q (s', w) t') -> (forall e t', R e t') ->
  traces (writeInboxLine s id data nonce) t Q R.
Proof.
  intros Hd HQ HR. unfold writeInboxLine. tstep. apply traces_inbox_line; [|done]. intros line t1. cbv zeta.
  assert (Hskip : forall t', traces (let! s' := markEventPersisted s id (created_at_of data) in Ret (s', PersistedSkip)) t' Q R).
  { intros t'. tstep. apply moves_markEventPersisted; [done|]. intros s' t'' Hm. by apply HQ. }
  assert (Hnew : forall t', traces (do! perform (AppendLine line); do! wake line (default id nonce) nonce id; Ret (s, Written)) t' Q R).
  { intros t'. tstep. tstep; [|apply HR]. tstep. apply traces_wake; [|done]. intros t''. apply HQ. reflexivity. }
  assert (Hmain : forall (b : bool) t', traces (if b then do! match nonce with Some _ => wake line (default id nonce) nonce id | None => Ret tt end;
      let! s' := markEventPersisted s id (created_at_of data) in Ret (s', PersistedSkip)
      else do! perform (AppendLine line); do! wake line (default id nonce) nonce id; Ret (s, Written)) t' Q R).
  { intros [] t'; [|apply Hnew]. tstep. destruct nonce as [n|]; [|apply Hskip]. apply traces_wake; [apply Hskip|done]. }
  tstep. assert (Hretry : forall b t', traces
    (if negb b then let! s' := markEventPersisted s id (created_at_of data) in Ret (s', PersistedSkip)
     else
       let! alreadyPersisted := if at_or_before_cursor s id (created_at_of data) then Ret true
         else if bool_decide (is_Some nonce) || se_catchingUp s && bool_decide (se_lastPersistedHwm s = None)
              then perform (HasInboxEntryId id line) else Ret false in
       if (alreadyPersisted : bool) then
         do! match nonce with Some _ => wake line (default id nonce) nonce id | None => Ret tt end;
         let! s' := markEventPersisted s id (created_at_of data) in Ret (s', PersistedSkip)
       else do! perform (AppendLine line); do! wake line (default id nonce) nonce id; Ret (s, Written)) t' Q R).
  { intros [] t'; [|apply Hskip]. cbn [negb]. tstep. destruct (at_or_before_cursor _ _ _); [apply Hmain|].
    destruct (_ || _); [tstep; [apply Hmain|apply HR]|apply Hmain]. }
  destruct nonce as [n|]; [|apply Hretry]. apply traces_retry. intros b t'. apply Hretry.
Qed.

(** ** Events *)

Definition state_of (n : next) : session := match n with Continue s | Break s => s end.

Local Abbreviation ends s := (fun n (_ : list (@entry stream_op)) => moves s (state_of n)).
Local Abbreviation anything := (fun (_ : js_error) (_ : list (@entry stream_op)) => True).

Lemma moves_route replay s id data nonce cursor t :
  created_at_of data <> "" -> traces (route_log active replay s id data nonce cursor) t (ends s) anything.
Proof.
  intros Hd. unfold route_log. cbv zeta.
  assert (Hrec : traces (let! s' := recordSeen s id data cursor in Ret (Continue s')) t (ends s) anything).
  { tstep. apply moves_recordSeen; [done| |done]. intros s' t' Hm. exact Hm. }
  assert (Hdel : traces (deliver s id data nonce cursor) t (ends s) anything).
  { unfold deliver. tstep. apply moves_write; [done| |done]. intros s' w t' Hm. destruct w; [exact Hm|].
    tstep. apply moves_recordSeen; [done| |done]. intros s'' t'' Hm'. cbn. by etrans. }
  destruct (is_ack data); [destruct replay; [done|by case_bool_decide]|].
  destruct (not_addressed active data); [done|]. destruct (is_own active data); [done|].
  destruct replay; [|done]. tstep. apply traces_inbox_line; [|done]. intros line t'.
  destruct nonce as [n|]; [|cbn; reflexivity]. tstep. apply traces_retry. intros [] t''; [|cbn; reflexivity].
  tstep. apply traces_wake; [|done]. intros t3. cbn. reflexivity.
Qed.

Lemma moves_log s id data nonce cursor t :
  created_at_of data <> "" -> traces (handle_log active s id data nonce cursor) t (ends s) anything.
Proof.
  intros Hd. unfold handle_log. case_bool_decide; [|by apply moves_route].
  tstep. apply moves_markEventPersisted; [done|]. intros s' t' Hm.
  assert (Hm' : moves s (markBroadcastPersisted s' (broadcastHwmFromLogEvent id data)))
    by (etrans; [exact Hm|apply moves_markBroadcast]).
  cbv zeta. destruct nonce as [n|]; [|exact Hm'].
  eapply traces_mono; [by apply moves_route| |done]. intros n' t'' Hn. cbn in *. by etrans.
Qed.

Lemma moves_pending s p :
  (forall q, p = Some q -> exists l, se_lastBroadcastHwm s = Some l /\ compareBroadcastHwm l q < 0) ->
  moves s (set_pending p s).
Proof. intros Hp. split; try reflexivity; [|done]. intros [? ? ?]. by split. Qed.

Lemma moves_heartbeat s h t :
  match h with Some x => h_created_at x <> "" | None => True end ->
  traces (handle_heartbeat s h) t (ends s) anything.
Proof.
  intros Hd. unfold handle_heartbeat. destruct h as [h|]; [|cbn; reflexivity].
  destruct (se_lastBroadcastHwm s) as [l|] eqn:El.
  - destruct (Z.leb_spec (compareBroadcastHwm h l) 0) as [Hle|Hgt]; cbn.
    + by apply moves_pending.
    + unfold scheduleHwmDivergenceReconnect.
      assert (Hnew : moves s (set_pending (Some h) s)).
      { apply moves_pending. intros q [= <-]. exists l. split; [done|]. by apply compare_flip. }
      destruct (se_pending s) as [p|]; [|done]. by destruct (String.eqb _ _).
  - cbv zeta. assert (Hb := moves_markBroadcast s (Some h)).
    destruct (se_lastPersistedEventId _); [exact Hb|].
    tstep. apply moves_markEventPersisted; [done|]. intros s' t' Hm. cbn. by etrans.
Qed.

Lemma moves_event s e t : dated_event e -> traces (handle_event active s e) t (ends s) anything.
Proof.
  intros Hd. unfold handle_event. tstep. tstep. tstep. tstep. destruct e as [id data nonce cursor|ts h|as_of|id cube reason|code|raw].
  - by apply moves_log.
  - tstep. tstep. by apply moves_heartbeat.
  - cbn. split; try reflexivity; [|done]. intros [? ? ?]. by split.
  - unfold handle_eviction. tstep. tstep. tstep. tstep. tstep. tstep. tstep.
    tstep; [|cbn; reflexivity]. tstep; cbn; reflexivity.
  - tstep. unfold mark_rejected. destruct (ac_credentialRef active); [tstep|cbn];
      (destruct (String.eqb code _); [done|]; by destruct (String.eqb code _)).
  - cbn. reflexivity.
Qed.

Lemma moves_events s es t :
  Forall dated_event es -> traces (handle_events active s es) t (ends s) anything.
Proof.
  intros Hes. revert s t. induction Hes as [|e es He _ IH]; intros s t; cbn [handle_events]; [cbn; reflexivity|].
  tstep. eapply traces_mono; [by apply moves_event| |done]. intros n t' Hn. destruct n as [s'|s']; [|exact Hn].
  eapply traces_mono; [apply IH| |done]. intros n t'' Hn'. cbn in *. by etrans.
Qed.

(** A stream session only moves forward, in bounded memory.  For any events
    of the server, each position carrying its date, and whatever the inbox, the
    wake sinks and the cursor file answer: the remembered ids stay within their
    cap and in step with their queue; neither the resume position nor the
    broadcast position is ever replaced by an older one, so that an out-of-order
    or replayed entry cannot widen the next catch-up; and a reconnect for
    divergence is pending only for a position the session is still behind. *)
Theorem stream_session_moves_forward lastEventId cursor es :
  (forall c, cursor = Some c -> h_created_at c <> "") -> Forall dated_event es ->
  traces (handle_events active (start_session lastEventId cursor) es) []
    (fun n _ =>
       let s := state_of n in
       (length (se_recentOrder s) <= RECENT_IDS_CAP)%nat /\ se_recent s ⊆ list_to_set (se_recentOrder s) /\
       forward cursor (se_lastPersistedHwm s) /\
       (forall p, se_pending s = Some p ->
          exists l, se_lastBroadcastHwm s = Some l /\ compareBroadcastHwm l p < 0 /\ divergence_fires s p = (s, true)))
    (fun _ _ => True).
Proof.
  intros Hc Hes. eapply traces_mono; [by apply moves_events| |done]. intros n t [Hok Hd Hp _]. cbv zeta.
  assert (Hs : session_ok (start_session lastEventId cursor)).
  { split; cbn; [unfold RECENT_IDS_CAP; lia|set_solver|done]. }
  destruct (Hok Hs) as [Hcap Hrec Hbeh]. split; [done|]. split; [done|]. split; [by apply Hp|].
  intros p Hpen. destruct (Hbeh p Hpen) as (l & Hl & Hlt). exists l. split; [done|]. split; [done|].
  unfold divergence_fires. rewrite Hl. by apply Z.leb_gt in Hlt as ->.
Qed.
End Order.
