(* ===== verification/StreamAuthority.v ===== *)
(** * What ends a stream session for good

    The errors after which the run loop stops reconnecting - the cube is deleted,
    the drone is evicted, the server refuses the session - come from the server's
    own verdict and from nothing else, and with the seat marked rejected. *)

From S2P Require Import Prelude JsDate JsonText Effects SseParser InboxLine StreamSession StreamSpec.

Open Scope Z_scope.
Open Scope prog_scope.

(** [err instanceof CubeDeletedError || err instanceof DroneEvictedError || err
    instanceof BorgServerError], the test of the run loop. *)
Definition gone (e : js_error) : bool :=
  instance_of "CubeDeletedError" e || instance_of "DroneEvictedError" e || instance_of "BorgServerError" e.

Section Authority.
Context `{StreamEnv} `{JsDate}.
Variable active : active_cube.

Local Abbreviation tr := (list (@entry stream_op)).

(** ** Traces without a rejection *)

Definition rejects (e : @entry stream_op) : bool :=
  match e with Did op _ => match op with MarkSeatRejected _ => true | _ => false end end.

(** The text of one read of the body. *)
Definition chunk_of (e : @entry stream_op) : option string :=
  match e with
  | Did op x =>
      match op in stream_op X return X -> option string with
      | ReadChunk => fun x => match x with inr (Some text) => Some text | _ => None end
      | _ => fun _ => None
      end x
  end.

Definition chunks_of (t : tr) : list string := omap chunk_of t.

(** An operation answered with the error. *)
Definition answered (e : js_error) (t : tr) : Prop :=
  exists X (op : stream_op (js_error + X)), Did op (inl e) ∈ t.

Definition quiet (e : @entry stream_op) : Prop := rejects e = false /\ chunk_of e = None.
Definition adds_quiet (t t' : tr) : Prop := exists u, t' = t ++ u /\ Forall quiet u.

#[export] Instance adds_quiet_refl : Reflexive adds_quiet.
Proof. intros t. exists []. by rewrite app_nil_r. Qed.
#[export] Instance adds_quiet_trans : Transitive adds_quiet.
Proof.
  intros a b c (u & -> & Hu) (v & -> & Hv). exists (u ++ v). split; [by rewrite app_assoc|by apply Forall_app].
Qed.

Lemma adds_quiet_snoc t e : quiet e -> adds_quiet t (t ++ [e]).
Proof. intros He. exists [e]. split; [done|by apply Forall_singleton]. Qed.

Lemma adds_quiet_chunks t t' : adds_quiet t t' -> chunks_of t' = chunks_of t.
Proof.
  intros (u & -> & Hu). unfold chunks_of. rewrite omap_app. replace (omap chunk_of u) with (@nil string); [apply app_nil_r|].
  induction Hu as [|e u [_ He] _ IH]; [done|]. cbn. by rewrite He.
Qed.

Definition unrejected (t : tr) : Prop := Forall (fun e => rejects e = false) t.

Lemma adds_quiet_unrejected t t' : adds_quiet t t' -> unrejected t -> unrejected t'.
Proof. intros (u & -> & Hu) Ht. apply Forall_app. split; [done|]. eapply Forall_impl; [exact Hu|]. by intros ? []. Qed.

(** ** Programs that never reject the seat *)

Definition tame {A} (p : stream A) : Prop :=
  forall t, traces p t (fun _ t' => adds_quiet t t') (fun e t' => adds_quiet t t' /\ (gone e = true -> answered e t')).

Lemma tame_ret {A} (a : A) : tame (Ret a).
Proof. intros t. cbn. reflexivity. Qed.

Lemma tame_throw {A} e : gone e = false -> tame (Throw e : stream A).
Proof. intros He t. cbn. split; [reflexivity|by rewrite He]. Qed.

Lemma tame_bind {A B} (p : stream A) (f : A -> stream B) : tame p -> (forall a, tame (f a)) -> tame (pbind p f).
Proof.
  intros Hp Hf t. apply traces_bind. eapply traces_mono; [apply Hp| |done].
  intros a t1 H1. eapply traces_mono; [apply Hf| |].
  - intros b t2 H2. exact (transitivity H1 H2).
  - intros e t2 [H2 He]. split; [exact (transitivity H1 H2)|done].
Qed.

Lemma tame_attempt {A} (p : stream A) : tame p -> tame (attempt p).
Proof.
  intros Hp t. apply traces_attempt. eapply traces_mono; [apply Hp|done|]. by intros e t' [Ht _].
Qed.

Lemma tame_perform {X} (op : stream_op (js_error + X)) : (forall x, quiet (Did op x)) -> tame (perform op).
Proof.
  intros Hop t. apply traces_perform.
  - intros a. by apply adds_quiet_snoc, Hop.
  - intros e. split; [by apply adds_quiet_snoc, Hop|]. intros _. exists X, op. apply elem_of_app. right. left.
Qed.

Lemma tame_ask {X} (op : stream_op X) : (forall x, quiet (Did op x)) -> tame (ask op).
Proof. intros Hop t. apply traces_ask. intros x. by apply adds_quiet_snoc, Hop. Qed.

#[local] Create HintDb tame.

(** Follow the program. *)
Ltac tame_step :=
  first
    [ solve [auto with tame nocore]
    | apply tame_ret
    | apply tame_throw; reflexivity
    | apply tame_perform; intros ?; split; reflexivity
    | apply tame_ask; intros ?; split; reflexivity
    | apply tame_attempt
    | apply tame_bind; [|intros ?]
    | progress cbn beta iota zeta
    | match goal with |- tame (match ?x with _ => _ end) => destruct x eqn:? end ].
Ltac tame := repeat tame_step; try done.

Lemma format_line_not_gone now entry e : formatInboxLine now entry = inl e -> gone e = false.
Proof.
  unfold formatInboxLine, formatDocumentCitations. intros Hf.
  repeat (case_match; simplify_eq/=; try done).
Qed.

Lemma tame_inbox_line id data : tame (inbox_line id data).
Proof.
  unfold inbox_line. tame_step; [tame_step|]. destruct (formatInboxLine _ _) eqn:Hf; [|tame_step].
  apply tame_throw. by eapply format_line_not_gone.
Qed.
Lemma tame_persisted s id at_ : tame (markEventPersisted s id at_).
Proof. unfold markEventPersisted. tame. Qed.
Lemma tame_retry id : tame (shouldDeliverWakeRetry id).
Proof. unfold shouldDeliverWakeRetry. tame. Qed.
Lemma tame_wake line d nonce id : tame (wake line d nonce id).
Proof. unfold wake. tame. Qed.
#[local] Hint Resolve tame_inbox_line tame_persisted tame_retry tame_wake : tame.
Lemma tame_record s id data cursor : tame (recordSeen s id data cursor).
Proof. unfold recordSeen. tame. Qed.
Lemma tame_write s id data nonce : tame (writeInboxLine s id data nonce).
Proof. unfold writeInboxLine. tame. Qed.
#[local] Hint Resolve tame_record tame_write : tame.
Lemma tame_log s id data nonce cursor : tame (handle_log active s id data nonce cursor).
Proof. unfold handle_log, route_log, deliver. tame. Qed.
Lemma tame_heartbeat s h : tame (handle_heartbeat s h).
Proof. unfold handle_heartbeat. tame. Qed.
Lemma tame_eviction s id reason : tame (handle_eviction active s id reason).
Proof. unfold handle_eviction. tame. Qed.
#[local] Hint Resolve tame_log tame_heartbeat tame_eviction : tame.

(** ** The verdicts *)

(** The errors an answer that is not a stream ends the session with for good. *)
Definition refusal_verdict (r : response) : option js_error :=
  if rp_status r =? 401 then
    let code := envelope_code (rp_error_body r) in
    Some (if bool_decide (code = Some "SESSION_REJECTED") then
            server_error "SESSION_REJECTED" "Borg server session was rejected"
          else if bool_decide (code = Some "SESSION_REVOKED") then
            server_error "SESSION_REVOKED" "Borg server session was revoked"
          else server_error "CREDENTIAL_REJECTED" "Borg server rejected the stream credential")
  else if rp_status r =? 410 then
    let code := errorCodeFromBody (rp_error_body r) in
    if bool_decide (code = Some "DRONE_EVICTED") then Some drone_evicted
    else if bool_decide (code = Some "CUBE_DELETED") then Some cube_deleted
    else None
  else None.

(** The error of an error frame. *)
Definition frame_verdict (code : string) : js_error :=
  if String.eqb code "CUBE_DELETED" then cube_deleted
  else if String.eqb code "DRONE_EVICTED" then drone_evicted
  else server_error "CREDENTIAL_REJECTED" "Borg server terminated the stream".

(** The events of what was read of the body. *)
Definition events_read (t : tr) : list parsed_event :=
  fst (parseSSE (Some LOCAL_SERVER_SSE_FRAME_LIMIT_BYTES) (chunks_of t)).

Definition verdict (e : js_error) (t : tr) : Prop :=
  (exists cursor r, Did (Fetch cursor) (inr r) ∈ t /\ rp_ok r = false /\ refusal_verdict r = Some e) \/
  (exists code, EvError code ∈ events_read t /\ e = frame_verdict code).

Definition marked (t : tr) : Prop :=
  forall ref, ac_credentialRef active = Some ref -> Did (MarkSeatRejected ref) tt ∈ t.

(** How a session may end with an error. *)
Definition ended (e : js_error) (t : tr) : Prop :=
  unrejected t /\ (gone e = true -> answered e t) \/ gone e = true /\ verdict e t /\ marked t.

Lemma mark_rejected_trace t Q R : 
  (forall t', marked t' -> chunks_of t' = chunks_of t -> (exists u, t' = t ++ u) -> Q tt t') -> traces (mark_rejected active) t Q R.
Proof.
  intros HQ. unfold mark_rejected. destruct (ac_credentialRef active) as [ref|] eqn:Hr.
  - apply traces_ask. intros []. apply HQ; [|unfold chunks_of; by rewrite omap_app, app_nil_r|by eexists].
    intros ref' Hr'. simplify_eq. apply elem_of_app. right. left.
  - cbn. apply HQ; [intros ? ?; congruence|done|exists []; by rewrite app_nil_r].
Qed.

Lemma marked_snoc t e : marked t -> marked (t ++ [e]).
Proof. intros Hm ref Hr. apply elem_of_app. left. by apply Hm. Qed.

Lemma unrejected_snoc t e : unrejected t -> rejects e = false -> unrejected (t ++ [e]).
Proof. intros Ht He. apply Forall_app. split; [done|by apply Forall_singleton]. Qed.

(** A tame program in a session that has not been rejected. *)
Lemma tame_traces {A} (p : stream A) t (Q : A -> tr -> Prop) (R : js_error -> tr -> Prop) :
  tame p -> unrejected t -> (forall a t', adds_quiet t t' -> unrejected t' -> Q a t') ->
  (forall e t', ended e t' -> R e t') -> traces p t Q R.
Proof.
  intros Hp Ht HQ HR. eapply traces_mono; [apply Hp| |].
  - intros a t' Hq. apply HQ; [done|exact (adds_quiet_unrejected _ _ Hq Ht)].
  - intros e t' [Hq He]. apply HR. left. split; [exact (adds_quiet_unrejected _ _ Hq Ht)|done].
Qed.

(** A refusal: the verdict's error with the seat marked, or one that is not final. *)
Lemma handle_refusal_ends r t :
  unrejected t ->
  traces (handle_refusal active r) t (fun _ _ => False)
    (fun e t' => (unrejected t' /\ (gone e = true -> answered e t')) \/
                 (refusal_verdict r = Some e /\ gone e = true /\ marked t' /\ exists u, t' = t ++ u)).
Proof.
  intros Ht. unfold handle_refusal, refusal_verdict.
  destruct (rp_status r =? 401).
  - tstep. apply mark_rejected_trace. intros t' Hm _ Hu. cbv zeta.
    repeat case_bool_decide; right; auto.
  - destruct (rp_status r =? 410); [|by left]. cbv zeta.
    case_bool_decide; [tstep; apply mark_rejected_trace; intros; right; auto|].
    case_bool_decide; [tstep; apply mark_rejected_trace; intros; right; auto|].
    case_bool_decide; [|by left]. tstep. tstep.
    + left. split; [by apply unrejected_snoc|done].
    + left. split; [by apply unrejected_snoc|]. intros _. eexists _, _. apply elem_of_app. right. left.
Qed.

(** One event. *)
Lemma handle_event_ends s e t :
  unrejected t ->
  traces (handle_event active s e) t (fun _ t' => unrejected t' /\ chunks_of t' = chunks_of t)
    (fun err t' => (unrejected t' /\ (gone err = true -> answered err t')) \/
       exists code, e = EvError code /\ err = frame_verdict code /\ gone err = true /\ marked t' /\
                    chunks_of t' = chunks_of t /\ exists u, t' = t ++ u).
Proof.
  intros Ht.
  assert (Htame : forall (p : stream next), tame p -> traces p t (fun _ t' => unrejected t' /\ chunks_of t' = chunks_of t)
    (fun err t' => (unrejected t' /\ (gone err = true -> answered err t')) \/
       exists code, e = EvError code /\ err = frame_verdict code /\ gone err = true /\ marked t' /\
                    chunks_of t' = chunks_of t /\ exists u, t' = t ++ u)).
  { intros p Hp. eapply traces_mono; [apply Hp| |].
    - intros a t' Hq. split; [exact (adds_quiet_unrejected _ _ Hq Ht)|by apply adds_quiet_chunks].
    - intros err t' [Hq He]. left. split; [exact (adds_quiet_unrejected _ _ Hq Ht)|done]. }
  destruct e as [id data nonce cursor|ts h|as_of|id cube reason|code|raw];
    [apply Htame; unfold handle_event; tame..| |apply Htame; unfold handle_event; tame].
  unfold handle_event. tstep. tstep. tstep. tstep. tstep. apply mark_rejected_trace. intros t' Hm Hc [u ->].
  assert (Hlong : exists v, ((t ++ [Did BumpWatchdog x]) ++ [Did (NoteActivity false false) x0]) ++ u = t ++ v)
    by (rewrite <- !app_assoc; by eexists).
  assert (Hch : chunks_of (((t ++ [Did BumpWatchdog x]) ++ [Did (NoteActivity false false) x0]) ++ u) = chunks_of t).
  { rewrite Hc. unfold chunks_of. by rewrite !omap_app, !app_nil_r. }
  destruct (String.eqb code "CUBE_DELETED") eqn:E1;
    [|destruct (String.eqb code "DRONE_EVICTED") eqn:E2]; right; exists code;
    unfold frame_verdict; rewrite ?E1, ?E2; auto 10.
Qed.

(** The events of one read, [t] being what happened before them. *)
Definition events_end (es : list parsed_event) (t : tr) (err : js_error) (t' : tr) : Prop :=
  (unrejected t' /\ (gone err = true -> answered err t')) \/
  exists code, EvError code ∈ es /\ err = frame_verdict code /\ gone err = true /\ marked t' /\
               chunks_of t' = chunks_of t /\ exists u, t' = t ++ u.

Lemma handle_events_ends es s t :
  unrejected t ->
  traces (handle_events active s es) t (fun _ t' => unrejected t' /\ chunks_of t' = chunks_of t /\ exists u, t' = t ++ u)
    (events_end es t).
Proof.
  revert s t. induction es as [|e es IH]; intros s t Ht; cbn [handle_events].
  { split; [done|]. split; [done|]. exists []. by rewrite app_nil_r. }
  tstep. eapply traces_mono; [apply (traces_grow _ t), (handle_event_ends s e t Ht)| |].
  - intros n t' ((Ht' & Hc) & u & ->). destruct n as [s'|s']; [|split; [done|split; [done|by eexists]]].
    eapply traces_mono; [by apply IH| |].
    + intros n t'' (H1 & H2 & v & ->). split; [done|]. split; [congruence|]. exists (u ++ v). by rewrite app_assoc.
    + intros err t'' [Hl|(code & Hin & He & Hg & Hm & Hch & v & ->)]; [by left|]. right. exists code.
      split; [by right|]. repeat split; try done; [congruence|]. exists (u ++ v). by rewrite app_assoc.
  - intros err t' [[Hl|(code & -> & He & Hg & Hm & Hch & Hu)] _]; [by left|]. right. exists code. split; [left|done].
Qed.

Local Abbreviation limit := (Some LOCAL_SERVER_SSE_FRAME_LIMIT_BYTES).

Lemma parse_chunks_cons st text rest :
  fst (parse_chunks limit st (text :: rest)) =
  fst (drain limit st text) ++ match snd (drain limit st text) with
                               | Some st' => fst (parse_chunks limit st' rest)
                               | None => []
                               end.
Proof.
  cbn [parse_chunks]. destruct (drain limit st text) as [es [st'|]]; cbn; [by destruct (parse_chunks limit st' rest)|].
  by rewrite app_nil_r.
Qed.

(** The state of the parser after the reads of [t]. *)
Definition parsed_so_far (t : tr) (st : sse_state) : Prop :=
  exists es, forall rest, fst (parse_chunks limit sse_empty (chunks_of t ++ rest)) = es ++ fst (parse_chunks limit st rest).

Lemma stream_body_ends fuel st s t :
  unrejected t -> parsed_so_far t st ->
  traces (stream_body active fuel st s) t (fun _ t' => unrejected t')
    (fun e t' => unrejected t' /\ (gone e = true -> answered e t') \/
       gone e = true /\ marked t' /\ (exists u, t' = t ++ u) /\
       exists code, EvError code ∈ events_read t' /\ e = frame_verdict code).
Proof.
  revert st s t. induction fuel as [|n IH]; intros st s t Ht [es0 Hst]; cbn [stream_body]; [done|].
  tstep. tstep.
  2: { left. split; [by apply unrejected_snoc|]. intros _. eexists _, _. apply elem_of_app. right. left. }
  assert (Hread : unrejected (t ++ [Did ReadChunk (inr a)])) by (by apply unrejected_snoc).
  assert (Hdone : forall es e t', (forall ev, ev ∈ es -> ev ∈ events_read (t ++ [Did ReadChunk (inr a)])) ->
    events_end es (t ++ [Did ReadChunk (inr a)]) e t' ->
    unrejected t' /\ (gone e = true -> answered e t') \/
       gone e = true /\ marked t' /\ (exists u, t' = t ++ u) /\
       exists code, EvError code ∈ events_read t' /\ e = frame_verdict code).
  { intros es e t' Hes [Hl|(code & Hin & He & Hg & Hm & Hch & v & Hv)]; [by left|right].
    split; [done|]. split; [done|]. split; [subst t'; rewrite <- app_assoc; by eexists|].
    exists code. split; [|done]. unfold events_read. rewrite Hch. by apply Hes. }
  destruct a as [text|].
  - assert (Hcs : chunks_of (t ++ [Did ReadChunk (inr (Some text))]) = chunks_of t ++ [text])
      by (unfold chunks_of; by rewrite omap_app).
    assert (Hev : forall rest, fst (parse_chunks limit sse_empty ((chunks_of t ++ [text]) ++ rest)) =
      (es0 ++ fst (drain limit st text)) ++ match snd (drain limit st text) with
        | Some st' => fst (parse_chunks limit st' rest) | None => [] end).
    { intros rest. rewrite <- !app_assoc. cbn [app]. by rewrite Hst, parse_chunks_cons. }
    assert (Hin : forall ev, ev ∈ fst (drain limit st text) -> ev ∈ events_read (t ++ [Did ReadChunk (inr (Some text))])).
    { intros ev Hin. unfold events_read, parseSSE. rewrite Hcs. specialize (Hev []). rewrite app_nil_r in Hev. rewrite Hev.
      set_solver. }
    destruct (drain limit st text) as [es r]. cbn [fst snd] in *. tstep.
    eapply traces_mono; [by apply handle_events_ends| |intros e t' He; exact (Hdone es e t' Hin He)].
    intros n' t' (Ht' & Hc & u & ->). destruct n' as [s'|s']; [|done]. destruct r as [st'|]; [|by left].
    eapply traces_mono; [apply IH; [done|]|done|].
    + exists (es0 ++ es). intros rest. rewrite Hc, Hcs. apply Hev.
    + intros e t'' [Hl|(Hg & Hm & (v & ->) & Hv)]; [by left|right]. split; [done|]. split; [done|].
      split; [rewrite <- !app_assoc; by eexists|done].
  - cbv zeta. tstep. eapply traces_mono; [by apply handle_events_ends| |].
    + intros n' t' (Ht' & _). by destruct n'.
    + intros e t' He. refine (Hdone _ e t' _ He). intros ev Hin. unfold events_read, parseSSE, chunks_of.
      rewrite omap_app. cbn. fold (chunks_of t). rewrite Hst. cbn [parse_chunks fst]. set_solver.
Qed.

Lemma ended_quiet e t t' : adds_quiet t t' -> ended e t -> ended e t'.
Proof.
  intros Hq [[Hu Ha]|(Hg & Hv & Hm)].
  - left. split; [exact (adds_quiet_unrejected _ _ Hq Hu)|]. intros Hg. destruct (Ha Hg) as (X & op & Hin).
    destruct Hq as (u & -> & _). exists X, op. apply elem_of_app. by left.
  - right. split; [done|]. assert (Hc := adds_quiet_chunks _ _ Hq). destruct Hq as (u & -> & _). split.
    + destruct Hv as [(c & r & Hin & Hr)|(code & Hin & He)]; [left; exists c, r; split; [apply elem_of_app; by left|done]|].
      right. exists code. split; [|done]. unfold events_read. by rewrite Hc.
    + intros ref Hr. apply elem_of_app. left. by apply Hm.
Qed.

Lemma streamOnce_ends fuel lastEventId :
  traces (streamOnce active fuel lastEventId) [] (fun _ t => unrejected t) ended.
Proof.
  assert (Hnil : unrejected []) by constructor.
  assert (Hjs : forall m t, unrejected t -> ended (JsError m) t) by (by left).
  unfold streamOnce. case_match; [by apply Hjs|]. case_match; [by apply Hjs|].
  destruct (ac_serverTrustIdentity active) as [identity|]; [|by apply Hjs].
  tstep. apply tame_traces; [tame|done| |done].
  intros trusted t1 Hq1 Ht1. destruct (negb (String.eqb trusted identity)); [by apply Hjs|].
  tstep. apply tame_traces; [tame|done| |done]. intros cursor t2 Hq2 Ht2.
  tstep. apply tame_traces; [tame|done| |done]. intros [] t3 Hq3 Ht3.
  tstep. tstep.
  2: { left. split; [by apply unrejected_snoc|]. intros _. eexists _, _. apply elem_of_app. right. left. }
  destruct (rp_ok a) eqn:Hok; cbn [negb].
  2: { eapply traces_mono; [apply handle_refusal_ends; by apply unrejected_snoc|done|].
       intros e t' [Hl|(Hv & Hg & Hm & u & ->)]; [by left|right]. split; [done|]. split; [|done].
       left. exists cursor, a. split; [|done]. apply elem_of_app. left. apply elem_of_app. right. left. }
  tstep. apply tame_traces; [tame|by apply unrejected_snoc| |done]. intros [] t4 Hq4 Ht4.
  assert (Hc4 : chunks_of t4 = []).
  { rewrite (adds_quiet_chunks _ _ Hq4). unfold chunks_of at 1. rewrite omap_app, app_nil_r. fold (chunks_of t3).
    by rewrite (adds_quiet_chunks _ _ Hq3), (adds_quiet_chunks _ _ Hq2), (adds_quiet_chunks _ _ Hq1). }
  unfold pfinally. tstep. tstep. tstep. eapply traces_mono; [apply stream_body_ends; [done|]| |].
  - exists []. intros rest. by rewrite Hc4.
  - intros r t5 Ht5. cbn [traces]. tstep. tstep. by apply unrejected_snoc.
  - intros e t5 He. tstep. tstep. cbn [traces].
    apply (ended_quiet e t5); [by apply adds_quiet_snoc|].
    destruct He as [Hl|(Hg & Hm & _ & code & Hin & He)]; [by left|right]. split; [done|]. split; [|done].
    right. by exists code.
Qed.
(** A stream session ends for good only by the server's verdict, and then
    with the seat marked rejected.  Whatever the server sends and the other
    operations answer, a session that returns - at the end of the body, or at an
    eviction frame - has rejected nothing.  A session that throws one of the
    errors after which the run loop gives up either repeats one that an operation
    threw, without having rejected the seat, or was told so by the server: by a
    401, by a 410 that names an eviction or a deleted cube, or by an error frame
    in what was read of the body; and then the seat was marked.  A 410 without
    such a code and an expired cursor are no verdict. *)
Theorem stream_ends_by_verdict fuel lastEventId :
  traces (streamOnce active fuel lastEventId) [] (fun _ t => unrejected t) ended.
Proof. apply streamOnce_ends. Qed.
End Authority.
