(* ===== verification/LeaseFs.v ===== *)
(** * The file system, clock and processes the stream lease runs on

    The lease directory holds one directory per lease ([<drone>.lock]), the
    directory it is renamed to while it is claimed ([<drone>.lock.takeover]) and
    directories set aside after a failed start.  A directory is an inode with a
    modification time and leaf files; a name maps to an inode, so a rename moves
    the identity and not the content.  A file's content is kept as the value
    [JSON.parse] gives for it, or as raw text that does not parse.

    Every operation is atomic and behaves as POSIX describes: [mkdir] fails on
    an existing name, [rename] of a directory replaces an existing directory only
    when that one is empty.  A new directory gets an inode number no existing
    directory has; the number of a removed directory may come back. *)

From S2P Require Import Prelude JsDate Effects.

Inductive content :=
| Json (v : json)
| Raw (text : string).

(** [JSON.parse(raw)]; [None] is a throw. *)
Definition json_parse (c : content) : option json :=
  match c with Json v => Some v | Raw _ => None end.

(** [raw ? .. : ..] of a string read from a file *)
Definition raw_truthy (c : content) : bool :=
  match c with Raw EmptyString => false | _ => true end.

Record dir := Dir { d_mtime : Z; d_files : gmap string content }.

Record stat := Stat { st_dev : Z; st_ino : positive; st_mtimeMs : Z }.

Record world := World {
  w_names : gmap string positive;
  w_dirs : gmap positive dir;
  w_dev : Z;
  w_now : Z;
  w_alive : gset Z;
  w_foreign : gset Z
}.

Inductive fs_op : Type -> Type :=
| MkdirP (p : string) : fs_op (js_error + unit)
| Mkdir (p : string) : fs_op (js_error + unit)
| Rename (p q : string) : fs_op (js_error + unit)
| Access (p : string) : fs_op (js_error + unit)
| StatPath (p : string) : fs_op (js_error + stat)
| Open (p : string) : fs_op (js_error + positive)
| HandleStat (h : positive) : fs_op (js_error + stat)
| Close (h : positive) : fs_op (js_error + unit)
| ReadFile (p leaf : string) : fs_op (js_error + content)
| WriteFile (exclusive : bool) (p leaf : string) (c : content) : fs_op (js_error + unit)
| RenameLeaf (p from to : string) : fs_op (js_error + unit)
| Unlink (p leaf : string) : fs_op (js_error + unit)
| RmRf (p : string) : fs_op (js_error + unit)
| Kill0 (pid : Z) : fs_op (js_error + unit)
| Now : fs_op Z
| Sleep (ms : Z) : fs_op unit.

Definition with_fs (w : world) (names : gmap string positive) (dirs : gmap positive dir) : world :=
  World names dirs (w_dev w) (w_now w) (w_alive w) (w_foreign w).

Definition ENOENT := "ENOENT".
Definition EEXIST := "EEXIST".
Definition ENOTEMPTY := "ENOTEMPTY".
Definition EPERM := "EPERM".
Definition ESRCH := "ESRCH".

Definition fail {A} (code : string) (w : world) : (js_error + A) * world := (inl (Errno code), w).
Definition ok {A} (a : A) (w : world) : (js_error + A) * world := (inr a, w).

Definition stat_of (w : world) (i : positive) (d : dir) : stat := Stat (w_dev w) i (d_mtime d).

(** The directory a path names. *)
Definition resolve (w : world) (p : string) : option (positive * dir) :=
  i ← w_names w !! p; d ← w_dirs w !! i; Some (i, d).

Definition set_files (w : world) (i : positive) (files : gmap string content) : world :=
  with_fs w (w_names w) (<[i := Dir (w_now w) files]> (w_dirs w)).

Definition new_ino (w : world) : positive := fresh (dom (w_dirs w)).

Definition handle (X : Type) (op : fs_op X) : world -> X * world :=
  match op in fs_op X return world -> X * world with
  | MkdirP _ => fun w => ok tt w
  | Mkdir p => fun w =>
      match w_names w !! p with
      | Some _ => fail EEXIST w
      | None =>
          let i := new_ino w in
          ok tt (with_fs w (<[p := i]> (w_names w)) (<[i := Dir (w_now w) ∅]> (w_dirs w)))
      end
  | Rename p q => fun w =>
      match w_names w !! p, resolve w q with
      | None, _ => fail ENOENT w
      | Some i, None => ok tt (with_fs w (<[q := i]> (delete p (w_names w))) (w_dirs w))
      | Some i, Some (j, d) =>
          if bool_decide (i = j) then ok tt w
          else if bool_decide (d_files d = ∅) then
            ok tt (with_fs w (<[q := i]> (delete p (w_names w))) (delete j (w_dirs w)))
          else fail ENOTEMPTY w
      end
  | Access p => fun w =>
      match w_names w !! p with Some _ => ok tt w | None => fail ENOENT w end
  | StatPath p => fun w =>
      match resolve w p with
      | Some (i, d) => ok (stat_of w i d) w
      | None => fail ENOENT w
      end
  | Open p => fun w =>
      match w_names w !! p with Some i => ok i w | None => fail ENOENT w end
  | HandleStat h => fun w =>
      ok (Stat (w_dev w) h (match w_dirs w !! h with Some d => d_mtime d | None => 0 end)) w
  | Close _ => fun w => ok tt w
  | ReadFile p leaf => fun w =>
      match resolve w p with
      | Some (_, d) =>
          match d_files d !! leaf with Some c => ok c w | None => fail ENOENT w end
      | None => fail ENOENT w
      end
  | WriteFile exclusive p leaf c => fun w =>
      match resolve w p with
      | Some (i, d) =>
          match d_files d !! leaf with
          | Some _ =>
              if exclusive then fail EEXIST w
              else ok tt (with_fs w (w_names w)
                            (<[i := Dir (d_mtime d) (<[leaf := c]> (d_files d))]> (w_dirs w)))
          | None => ok tt (set_files w i (<[leaf := c]> (d_files d)))
          end
      | None => fail ENOENT w
      end
  | RenameLeaf p from to => fun w =>
      match resolve w p with
      | Some (i, d) =>
          match d_files d !! from with
          | Some c => ok tt (set_files w i (<[to := c]> (delete from (d_files d))))
          | None => fail ENOENT w
          end
      | None => fail ENOENT w
      end
  | Unlink p leaf => fun w =>
      match resolve w p with
      | Some (i, d) =>
          match d_files d !! leaf with
          | Some _ => ok tt (set_files w i (delete leaf (d_files d)))
          | None => fail ENOENT w
          end
      | None => fail ENOENT w
      end
  | RmRf p => fun w =>
      match w_names w !! p with
      | Some i => ok tt (with_fs w (delete p (w_names w)) (delete i (w_dirs w)))
      | None => ok tt w
      end
  | Kill0 pid => fun w =>
      if bool_decide (pid ∈ w_alive w) then ok tt w
      else if bool_decide (pid ∈ w_foreign w) then fail EPERM w
      else fail ESRCH w
  | Now => fun w => (w_now w, w)
  | Sleep ms => fun w =>
      (tt, World (w_names w) (w_dirs w) (w_dev w) (w_now w + ms) (w_alive w) (w_foreign w))
  end.

Abbreviation io := (prog fs_op).
Abbreviation runw := (run handle).
