(* ===== verification/StreamOwner.v ===== *)
(** * The stream lease ([src/stream-owner.ts])

    One process per seat consumes the log stream.  Ownership is a directory
    [<locks>/<cube>/<drone>.lock] holding [owner.json]; whoever renames it to
    [<drone>.lock.takeover] may inspect it, rewrite it or remove it.  This file
    is the module's data and every operation of it, as programs over
    [LeaseFs.fs_op].  [deps.privateRoot] and the test seams ([beforeX] hooks,
    [writeRecord]) are absent, as they are for an ordinary drone. *)

From stdpp Require Import pretty.
From S2P Require Import Prelude JsDate Effects LeaseFs.

Open Scope Z_scope.
Open Scope prog_scope.

(* src/src/stream-owner.ts 9-9 OWNER_FILE *)
Definition OWNER_FILE := "owner.json".
(* src/src/stream-owner.ts 10-10 TAKEOVER_FILE *)
Definition TAKEOVER_FILE := "takeover.json".
(* src/src/stream-owner.ts 11-11 SCHEMA_VERSION *)
Definition SCHEMA_VERSION : Z := 1.
(* src/src/stream-owner.ts 13-13 STREAM_OWNER_STALE_MS *)
Definition STREAM_OWNER_STALE_MS : Z := 70000.
(* src/src/stream-owner.ts 14-15 STREAM_OWNER_INIT_STALE_MS *)
Definition STREAM_OWNER_INIT_STALE_MS : Z := 5000.
(* src/src/stream-owner.ts 16-16 STREAM_OWNER_TAKEOVER_STALE_MS *)
Definition STREAM_OWNER_TAKEOVER_STALE_MS : Z := 5000.

(* src/src/stream-owner.ts 21-31 StreamOwnerRecord *)
Record owner_record := OwnerRecord {
  r_schemaVersion : Z;
  r_pid : Z;
  r_processNonce : string;
  r_cwd : string;
  r_startedAt : string;
  r_heartbeatAt : string;
  r_worktree : option string;
  r_droneLabel : option string;
  r_cubeName : option string
}.

#[export] Instance owner_record_eq_dec : EqDecision owner_record.
Proof. solve_decision. Defined.

Inductive ownership_state :=
| Owner
| OwnedByOtherProcess
| Initializing
| OrphanedInitialization
| Unowned.

#[export] Instance ownership_state_eq_dec : EqDecision ownership_state.
Proof. solve_decision. Defined.

(** The fields copied from the record are kept together: the code sets either
    all of them or none. *)
(* src/src/stream-owner.ts 33-48 StreamOwnershipSnapshot *)
Record snapshot := Snapshot {
  s_state : ownership_state;
  s_record : option owner_record;
  s_ageMs : option jnum;
  s_identity : option (Z * positive)
}.

Definition s_pid (s : snapshot) : option Z := r_pid <$> s_record s.
Definition s_nonce (s : snapshot) : option string := r_processNonce <$> s_record s.
Definition s_heartbeatAt (s : snapshot) : option string := r_heartbeatAt <$> s_record s.

Definition unowned : snapshot := Snapshot Unowned None None None.

(* src/src/stream-owner.ts 50-55 StreamLease *)
Record lease := Lease {
  l_lockPath : string;
  l_record : owner_record;
  l_identity : Z * positive
}.

(** What a caller and its process supply: [deps], [process.pid],
    [process.cwd()], and the module's nonce and start time. *)
(* src/src/stream-owner.ts 57-80 StreamOwnerDeps *)
Record owner_deps := OwnerDeps {
  dp_pid : option Z;
  dp_self_pid : Z;
  dp_nonce : string;
  dp_startedAt : string;
  dp_cwd : string;
  dp_worktree : option string;
  dp_droneLabel : option string;
  dp_cubeName : option string;
  dp_isPidAlive : option (Z -> io bool)
}.

(** [deps.pid ?? process.pid] *)
Definition own_pid (deps : owner_deps) : Z := default (dp_self_pid deps) (dp_pid deps).

Section Validation.
Context `{JsDate}.

(* src/src/stream-owner.ts 805-808 isSafeLeaseText *)
Definition isSafeLeaseText (v : option json) (maxLength : nat) : bool :=
  match v with
  | Some (JStr s) =>
      (0 <? js_length s)%nat && (js_length s <=? maxLength)%nat &&
      negb (string_existsb is_c0_or_del s)
  | _ => false
  end.

(* src/src/stream-owner.ts 810-812 isIsoTimestamp *)
Definition isIsoTimestamp (v : option json) : bool :=
  isSafeLeaseText v 64 &&
  match v with Some (JStr s) => bool_decide (is_Some (date_parse s)) | _ => false end.

(** [value === undefined || isSafeLeaseText(value, n)] *)
Definition optional_text (v : option json) (maxLength : nat) : bool :=
  match v with None => true | _ => isSafeLeaseText v maxLength end.

Definition is_pid (v : option json) : bool :=
  match v with Some (JNum z) => is_safe_integer z && (0 <? z) | _ => false end.

(* src/src/stream-owner.ts 788-803 isRecord *)
Definition isRecord (v : json) : bool :=
  bool_decide (jint (jget "schemaVersion" v) = Some SCHEMA_VERSION) &&
  is_pid (jget "pid" v) &&
  isSafeLeaseText (jget "processNonce" v) 128 &&
  isSafeLeaseText (jget "cwd" v) 4096 &&
  isIsoTimestamp (jget "startedAt" v) &&
  isIsoTimestamp (jget "heartbeatAt" v) &&
  optional_text (jget "worktree" v) 4096 &&
  optional_text (jget "droneLabel" v) 256 &&
  optional_text (jget "cubeName" v) 256.

(** The typed view of a value [isRecord] accepts. *)
Definition record_of_json (v : json) : owner_record :=
  OwnerRecord
    (default 0 (jint (jget "schemaVersion" v)))
    (default 0 (jint (jget "pid" v)))
    (default "" (jstr (jget "processNonce" v)))
    (default "" (jstr (jget "cwd" v)))
    (default "" (jstr (jget "startedAt" v)))
    (default "" (jstr (jget "heartbeatAt" v)))
    (jstr (jget "worktree" v))
    (jstr (jget "droneLabel" v))
    (jstr (jget "cubeName" v)).

(* src/src/stream-owner.ts 668-675 parseOwnershipRecord *)
Definition parseOwnershipRecord (raw : content) : option owner_record :=
  match json_parse raw with
  | Some v => if isRecord v then Some (record_of_json v) else None
  | None => None
  end.
End Validation.

(** [JSON.stringify] of a record: an undefined field is omitted. *)
Definition opt_field (k : string) (v : option string) : list (string * json) :=
  match v with Some s => [(k, JStr s)] | None => [] end.

Definition json_of_record (r : owner_record) : json :=
  JObj ([("schemaVersion", JNum (r_schemaVersion r)); ("pid", JNum (r_pid r));
         ("processNonce", JStr (r_processNonce r)); ("cwd", JStr (r_cwd r));
         ("startedAt", JStr (r_startedAt r)); ("heartbeatAt", JStr (r_heartbeatAt r))] ++
        opt_field "worktree" (r_worktree r) ++
        opt_field "droneLabel" (r_droneLabel r) ++
        opt_field "cubeName" (r_cubeName r)).

(** [{ schemaVersion: 1, pid, processNonce, claimedAt }] as both claimers write it *)
Definition claimant_json (deps : owner_deps) (now : Z) : json :=
  JObj [("schemaVersion", JNum 1); ("pid", JNum (own_pid deps));
        ("processNonce", JStr (dp_nonce deps)); ("claimedAt", JStr (to_iso now))].

(* src/src/stream-owner.ts 643-653 sameOwner *)
Definition sameOwner (left right : owner_record) : bool :=
  (r_schemaVersion left =? r_schemaVersion right) &&
  (r_pid left =? r_pid right) &&
  String.eqb (r_processNonce left) (r_processNonce right) &&
  String.eqb (r_cwd left) (r_cwd right) &&
  String.eqb (r_startedAt left) (r_startedAt right) &&
  String.eqb (r_heartbeatAt left) (r_heartbeatAt right) &&
  bool_decide (r_worktree left = r_worktree right) &&
  bool_decide (r_droneLabel left = r_droneLabel right) &&
  bool_decide (r_cubeName left = r_cubeName right).

(* src/src/stream-owner.ts 720-725 sameIdentity *)
Definition sameIdentity (left right : Z * positive) : bool :=
  (left.1 =? right.1) && Pos.eqb left.2 right.2.

Definition identity_of (s : stat) : Z * positive := (st_dev s, st_ino s).

(* src/src/stream-owner.ts 490-496 snapshotMatchesIdentity *)
Definition snapshotMatchesIdentity (s : snapshot) (st : stat) : bool :=
  match s_identity s with
  | Some i => sameIdentity i (identity_of st)
  | None => false
  end.

(* src/src/stream-owner.ts 375-377 takeoverPath *)
Definition takeoverPath (lockPath : string) : string := lockPath +:+ ".takeover".

(** [STREAM_LOCKS_DIR/cubeId/droneId.lock] *)
(* src/src/stream-owner.ts 82-90 streamLockPath *)
Definition streamLockPath (cubeId droneId locksDir : string) : js_error + string :=
  if negb (is_uuid cubeId) then inl (JsError ("Invalid cubeId: " +:+ cubeId))
  else if negb (is_uuid droneId) then inl (JsError ("Invalid droneId: " +:+ droneId))
  else inr (locksDir +:+ "/" +:+ cubeId +:+ "/" +:+ droneId +:+ ".lock").

(** [value ? { k: value } : {}] *)
Definition truthy (v : option string) : option string :=
  match v with Some EmptyString => None | _ => v end.

(* src/src/stream-owner.ts 773-786 makeRecord *)
Definition makeRecord (deps : owner_deps) (now : Z) : owner_record :=
  OwnerRecord SCHEMA_VERSION (own_pid deps) (dp_nonce deps) (dp_cwd deps)
    (dp_startedAt deps) (to_iso now)
    (truthy (dp_worktree deps)) (truthy (dp_droneLabel deps)) (truthy (dp_cubeName deps)).

(** ** Reading *)

Definition now_ms : io Z := ask Now.

(* src/src/stream-owner.ts 508-520 isPidAlive *)
Definition isPidAlive (pid : Z) (deps : owner_deps) : io bool :=
  match dp_isPidAlive deps with
  | Some probe => probe pid
  | None =>
      if bool_decide (is_Some (dp_pid deps)) then Ret true
      else
        let! r := attempt (perform (Kill0 pid)) in
        Ret (match r with inr _ => true | inl e => has_code EPERM e end)
  end.

(* src/src/stream-owner.ts 379-387 pathExists *)
Definition pathExists (filePath : string) : io bool :=
  let! r := attempt (perform (Access filePath)) in
  match r with
  | inr _ => Ret true
  | inl e => if has_code ENOENT e then Ret false else Throw e
  end.

(** [fs.stat(p).catch(() => null)] *)
Definition stat_or_null (p : string) : io (option stat) :=
  let! r := attempt (perform (StatPath p)) in
  Ret (match r with inr s => Some s | inl _ => None end).

Record bound_owner := BoundOwner { b_raw : option content; b_stat : stat }.

(** One attempt: [Some r] returns [r], [None] goes round the loop again. *)
Definition readBoundOwner_once (lockPath : string) : io (option (option bound_owner)) :=
  let! o := attempt (perform (Open lockPath)) in
  match o with
  | inl e => if has_code ENOENT e then Ret (Some None) else Throw e
  | inr h =>
      pfinally
        (let! openedStat := perform (HandleStat h) in
         let! f := attempt (perform (ReadFile lockPath OWNER_FILE)) in
         let checked (raw : option content) :=
           let! c := attempt (perform (StatPath lockPath)) in
           let! canonicalStat :=
             match c with
             | inr s => Ret (Some s)
             | inl e => if has_code ENOENT e then Ret None else Throw e
             end in
           let! finalOpenedStat := perform (HandleStat h) in
           Ret match canonicalStat with
               | Some c =>
                   if sameIdentity (identity_of openedStat) (identity_of finalOpenedStat) &&
                      sameIdentity (identity_of openedStat) (identity_of c)
                   then Some (Some (BoundOwner raw c)) else None
               | None => None
               end in
         match f with
         | inr c => checked (Some c)
         | inl e =>
             if has_code "STORE_FILE_IDENTITY_CHANGED" e then Ret None
             else if negb (has_code ENOENT e) then Throw e
             else checked None
         end)
        (perform (Close h))
  end.

Fixpoint readBoundOwner_loop (attempts : nat) (lockPath : string) : io (option bound_owner) :=
  match attempts with
  | O => Ret None
  | S attempts' =>
      let! r := readBoundOwner_once lockPath in
      match r with
      | Some result => Ret result
      | None => readBoundOwner_loop attempts' lockPath
      end
  end.

(* src/src/stream-owner.ts 677-718 readBoundOwner *)
Definition readBoundOwner (lockPath : string) : io (option bound_owner) :=
  readBoundOwner_loop 3 lockPath.

Section Lease.
Context `{JsDate}.

(** [inspected?.raw ? parseOwnershipRecord(inspected.raw) : null] *)
Definition bound_record (b : option bound_owner) : option owner_record :=
  match b with
  | Some (BoundOwner (Some c) _) => if raw_truthy c then parseOwnershipRecord c else None
  | _ => None
  end.

(* src/src/stream-owner.ts 655-666 readOwnershipRecord *)
Definition readOwnershipRecord (lockPath : string) : io (option owner_record) :=
  let! r := attempt (perform (ReadFile lockPath OWNER_FILE)) in
  Ret (match r with inr c => parseOwnershipRecord c | inl _ => None end).

Definition heartbeat_age (now : Z) (heartbeatAt : string) : jnum :=
  match date_parse heartbeatAt with Some t => Fin (now - t) | None => PosInf end.

(** The value of the snapshot, given the clock reading the code takes. *)
(* src/src/stream-owner.ts 168-235 snapshotFromOwner *)
Definition snapshotFromOwner (inspected : bound_owner) (deps : owner_deps) (now : Z) : snapshot :=
  let id := Some (identity_of (b_stat inspected)) in
  match b_raw inspected with
  | None =>
      let ageMs := Z.max 0 (now - st_mtimeMs (b_stat inspected)) in
      Snapshot (if STREAM_OWNER_INIT_STALE_MS <=? ageMs
                then OrphanedInitialization else Initializing)
               None (Some (Fin ageMs)) id
  | Some raw =>
      match parseOwnershipRecord raw with
      | None => Snapshot OwnedByOtherProcess None (Some PosInf) id
      | Some r =>
          Snapshot
            (if (r_pid r =? own_pid deps) && String.eqb (r_processNonce r) (dp_nonce deps)
             then Owner else OwnedByOtherProcess)
            (Some r) (Some (heartbeat_age now (r_heartbeatAt r))) id
      end
  end.

Fixpoint readOwnershipSnapshot_loop (attempts : nat) (initializing : option snapshot)
    (lockPath : string) (deps : owner_deps) : io snapshot :=
  match attempts with
  | O => Ret (default unowned initializing)
  | S attempts' =>
      let! inspected := readBoundOwner lockPath in
      match inspected with
      | Some b =>
          let! now := now_ms in
          let s := snapshotFromOwner b deps now in
          match b_raw b with
          | Some _ => Ret s
          | None => readOwnershipSnapshot_loop attempts' (Some s) lockPath deps
          end
      | None =>
          let! claimed := readBoundOwner (takeoverPath lockPath) in
          match claimed with
          | Some (BoundOwner (Some _) _ as b) =>
              let! now := now_ms in
              let s := snapshotFromOwner b deps now in
              let ageMs := default PosInf (s_ageMs s) in
              match s_pid s with
              | Some pid =>
                  if jnum_ge ageMs (Fin 0) && jnum_le ageMs (Fin STREAM_OWNER_STALE_MS) then
                    let! live := isPidAlive pid deps in
                    Ret (if live then s else unowned)
                  else Ret unowned
              | None => Ret unowned
              end
          | _ => readOwnershipSnapshot_loop attempts' initializing lockPath deps
          end
      end
  end.

(* src/src/stream-owner.ts 136-166 readOwnershipSnapshot *)
Definition readOwnershipSnapshot (lockPath : string) (deps : owner_deps) : io snapshot :=
  readOwnershipSnapshot_loop 3 None lockPath deps.

(** ** Writing *)

(* src/src/stream-owner.ts 764-771 writeRecord *)
Definition writeRecord (lockPath : string) (record : owner_record) : io unit :=
  let tmp := OWNER_FILE +:+ "." +:+ r_processNonce record +:+ ".tmp" in
  do! perform (WriteFile false lockPath tmp (Json (json_of_record record)));
  perform (RenameLeaf lockPath tmp OWNER_FILE).

(* src/src/stream-owner.ts 759-762 writeLeaseRecord *)
Definition writeLeaseRecord (directory : string) (record : owner_record) : io unit :=
  writeRecord directory record.

(* src/src/stream-owner.ts 281-311 cleanupFailedInitialization *)
Definition cleanupFailedInitialization (lockPath : string) (attempted : owner_record) : io unit :=
  let! now := now_ms in
  let cleanupPath :=
    lockPath +:+ ".failed-" +:+ r_processNonce attempted +:+ "-" +:+ pretty now in
  let! r := attempt (perform (Rename lockPath cleanupPath)) in
  match r with
  | inl e => if has_code ENOENT e then Ret tt else Throw e
  | inr _ =>
      let! current := readOwnershipRecord cleanupPath in
      let foreign := match current with
        | Some c => negb (r_pid c =? r_pid attempted) ||
                    negb (String.eqb (r_processNonce c) (r_processNonce attempted))
        | None => false
        end in
      if foreign then
        let! back := attempt (perform (Rename cleanupPath lockPath)) in
        match back with
        | inr _ => Ret tt
        | inl e => if negb (has_code EEXIST e) then Throw e else perform (RmRf cleanupPath)
        end
      else perform (RmRf cleanupPath)
  end.

(** [cleanupFailedInitialization(...).catch(() => {})] *)
Definition cleanup_quietly (lockPath : string) (record : owner_record) : io unit :=
  let! _ := attempt (cleanupFailedInitialization lockPath record) in Ret tt.

(* src/src/stream-owner.ts 237-279 tryCreateLease *)
Definition tryCreateLease (lockPath : string) (deps : owner_deps) : io (option lease) :=
  let! claimed := pathExists (takeoverPath lockPath) in
  if claimed : bool then Ret None else
  let! made := attempt (perform (Mkdir lockPath)) in
  match made with
  | inl e => if has_code EEXIST e then Ret None else Throw e
  | inr _ =>
      let! now := now_ms in
      let record := makeRecord deps now in
      let! written := attempt
        (do! writeLeaseRecord lockPath record;
         let! claimed := pathExists (takeoverPath lockPath) in
         if claimed : bool then
           do! cleanup_quietly lockPath record; Ret true
         else Ret false) in
      match written with
      | inl e => do! cleanup_quietly lockPath record; Throw e
      | inr true => Ret None
      | inr false =>
          let! created := readBoundOwner lockPath in
          match created, bound_record created with
          | Some b, Some createdRecord =>
              if sameOwner record createdRecord then
                Ret (Some (Lease lockPath record (identity_of (b_stat b))))
              else
                do! cleanup_quietly lockPath record;
                Throw (JsError "Borg stream lease initialization lost ownership")
          | _, _ =>
              do! cleanup_quietly lockPath record;
              Throw (JsError "Borg stream lease initialization lost ownership")
          end
      end
  end.

(* src/src/stream-owner.ts 460-488 isStillReclaimable *)
Definition isStillReclaimable (s : snapshot) (current : option owner_record)
    (currentLockStat : option stat) (staleMs : Z) (deps : owner_deps) : io bool :=
  match currentLockStat with
  | None => Ret false
  | Some st =>
      if negb (snapshotMatchesIdentity s st) then Ret false else
      match current with
      | None =>
          Ret (bool_decide (s_state s = OrphanedInitialization) ||
               bool_decide (s_ageMs s = Some PosInf))
      | Some c =>
          if negb (bool_decide (s_pid s = Some (r_pid c)) &&
                   bool_decide (s_nonce s = Some (r_processNonce c)) &&
                   bool_decide (s_heartbeatAt s = Some (r_heartbeatAt c)))
          then Ret false
          else
            let! now := now_ms in
            let stale := jnum_gt (heartbeat_age now (r_heartbeatAt c)) (Fin staleMs) in
            let! alive := isPidAlive (r_pid c) deps in
            Ret (stale || negb alive)
      end
  end.

(* src/src/stream-owner.ts 498-506 preserveDisplacedLock *)
Definition preserveDisplacedLock (claimPath lockPath : string) : io unit :=
  let! r := attempt (perform (Rename claimPath lockPath)) in
  match r with
  | inr _ => Ret tt
  | inl e => if has_code EEXIST e || has_code ENOTEMPTY e then Ret tt else Throw e
  end.

(** [fs.unlink(path.join(claimPath, TAKEOVER_FILE)).catch(() => {})] *)
Definition unlink_marker (claimPath : string) : io unit :=
  let! _ := attempt (perform (Unlink claimPath TAKEOVER_FILE)) in Ret tt.

(** The [wx] write of the claimant's marker. *)
Definition write_marker (claimPath : string) (deps : owner_deps) : io unit :=
  let! now := now_ms in
  perform (WriteFile true claimPath TAKEOVER_FILE (Json (claimant_json deps now))).

(* src/src/stream-owner.ts 313-373 moveStaleLockAside *)
Definition moveStaleLockAside (lockPath : string) (s : snapshot) (staleMs : Z)
    (deps : owner_deps) : io bool :=
  let claimPath := takeoverPath lockPath in
  let! moved := attempt (perform (Rename lockPath claimPath)) in
  match moved with
  | inl e =>
      if has_code ENOENT e || (has_code EEXIST e || has_code ENOTEMPTY e)
      then Ret false else Throw e
  | inr _ =>
      let! claimStat := stat_or_null claimPath in
      let matches := match claimStat with
        | Some st => snapshotMatchesIdentity s st | None => false end in
      if negb matches then
        let! back := attempt (perform (Rename claimPath lockPath)) in
        match back with
        | inr _ => Ret false
        | inl e =>
            if negb (has_code EEXIST e) && negb (has_code ENOTEMPTY e) then Throw e
            else do! preserveDisplacedLock claimPath lockPath; Ret false
        end
      else
        do! write_marker claimPath deps;
        let! verified := readOwnershipRecord claimPath in
        let! verifiedStat := stat_or_null claimPath in
        let! reclaimable := isStillReclaimable s verified verifiedStat staleMs deps in
        if negb reclaimable then
          do! unlink_marker claimPath;
          let! back := attempt (perform (Rename claimPath lockPath)) in
          match back with
          | inr _ => Ret false
          | inl e =>
              if negb (has_code EEXIST e) then Throw e
              else do! perform (RmRf claimPath); Ret false
          end
        else
          do! perform (RmRf claimPath); Ret true
  end.

Record claimant := Claimant { c_pid : Z; c_claimedAt : string }.

Definition claimant_of_json (v : json) : option claimant :=
  if bool_decide (jint (jget "schemaVersion" v) = Some 1) && is_pid (jget "pid" v) &&
     isSafeLeaseText (jget "processNonce" v) 128 && isIsoTimestamp (jget "claimedAt" v)
  then Some (Claimant (default 0 (jint (jget "pid" v)))
                      (default "" (jstr (jget "claimedAt" v))))
  else None.

(* src/src/stream-owner.ts 389-458 recoverTakeoverClaim *)
Definition recoverTakeoverClaim (lockPath : string) (staleMs : Z) (deps : owner_deps) : io bool :=
  let claimPath := takeoverPath lockPath in
  let! st := attempt (perform (StatPath claimPath)) in
  match st with
  | inl e => if has_code ENOENT e then Ret true else Throw e
  | inr claimStat =>
      let! now := now_ms in
      let! marker := attempt (perform (ReadFile claimPath TAKEOVER_FILE)) in
      let claimant := match marker with
        | inr c => json_parse c ≫= claimant_of_json
        | inl _ => None
        end in
      let! held :=
        match claimant with
        | Some c =>
            match date_parse (c_claimedAt c) with
            | Some t =>
                if now - t <=? STREAM_OWNER_TAKEOVER_STALE_MS
                then isPidAlive (c_pid c) deps else Ret false
            | None => Ret false
            end
        | None => Ret (now - st_mtimeMs claimStat <=? STREAM_OWNER_TAKEOVER_STALE_MS)
        end in
      if held : bool then Ret false else
      let! owner := readOwnershipRecord claimPath in
      let! reclaimable :=
        match owner with
        | None => Ret true
        | Some o =>
            if jnum_gt (heartbeat_age now (r_heartbeatAt o)) (Fin staleMs) then Ret true
            else let! alive := isPidAlive (r_pid o) deps in Ret (negb alive)
        end in
      if reclaimable : bool then
        do! perform (RmRf claimPath); Ret true
      else
        do! unlink_marker claimPath;
        let! back := attempt (perform (Rename claimPath lockPath)) in
        match back with
        | inr _ => Ret false
        | inl e =>
            if negb (has_code EEXIST e) && negb (has_code ENOTEMPTY e) then Throw e
            else do! perform (RmRf claimPath); Ret false
        end
  end.

(* src/src/stream-owner.ts 92-134 acquireStreamLease *)
Definition acquireStreamLease (cubeId droneId locksDir : string) (staleMs : Z)
    (deps : owner_deps) : io (option lease) :=
  match streamLockPath cubeId droneId locksDir with
  | inl e => Throw e
  | inr lockPath =>
      do! perform (MkdirP (locksDir +:+ "/" +:+ cubeId));
      let! recovered := recoverTakeoverClaim lockPath staleMs deps in
      if negb recovered then Ret None else
      let! first := tryCreateLease lockPath deps in
      match first with
      | Some l => Ret (Some l)
      | None =>
          let! s := readOwnershipSnapshot lockPath deps in
          match s_state s with
          | Unowned => tryCreateLease lockPath deps
          | Initializing => Ret None
          | OrphanedInitialization =>
              let! moved := moveStaleLockAside lockPath s staleMs deps in
              if negb moved then Ret None else tryCreateLease lockPath deps
          | Owner => Ret None
          | OwnedByOtherProcess =>
              let stale := jnum_gt (default (Fin 0) (s_ageMs s)) (Fin staleMs) in
              let! pidDead :=
                match s_pid s with
                | Some pid => let! alive := isPidAlive pid deps in Ret (negb alive)
                | None => Ret false
                end in
              if negb stale && negb pidDead then Ret None else
              let! moved := moveStaleLockAside lockPath s staleMs deps in
              if negb moved then Ret None else tryCreateLease lockPath deps
          end
      end
  end.

(** ** The lease object *)

Fixpoint restoreClaimedLease_loop (attempts : nat) (claimPath lockPath : string) : io bool :=
  match attempts with
  | O => Ret false
  | S attempts' =>
      let! r := attempt (perform (Rename claimPath lockPath)) in
      match r with
      | inr _ => Ret true
      | inl e =>
          if negb (has_code EEXIST e) && negb (has_code ENOTEMPTY e) then
            if has_code ENOENT e then Ret false else Throw e
          else
            do! ask (Sleep 5);
            restoreClaimedLease_loop attempts' claimPath lockPath
      end
  end.

(* src/src/stream-owner.ts 624-641 restoreClaimedLease *)
Definition restoreClaimedLease (claimPath lockPath : string) : io bool :=
  restoreClaimedLease_loop 20 claimPath lockPath.

Inductive disposition := Restore | Remove.

(* src/src/stream-owner.ts 563-622 mutateClaimedLease *)
Definition mutateClaimedLease (lockPath : string) (identity : Z * positive)
    (expected : owner_record) (deps : owner_deps) (mutation : string -> io disposition) : io bool :=
  let claimPath := takeoverPath lockPath in
  let! moved := attempt (perform (Rename lockPath claimPath)) in
  match moved with
  | inl e =>
      if has_code ENOENT e || has_code EEXIST e || has_code ENOTEMPTY e
      then Ret false else Throw e
  | inr _ =>
      let! movedStat := stat_or_null claimPath in
      let mine := match movedStat with
        | Some st => sameIdentity identity (identity_of st) | None => false end in
      if negb mine then
        do! restoreClaimedLease claimPath lockPath; Ret false
      else
        do! write_marker claimPath deps;
        let! inspected := readBoundOwner claimPath in
        let same := match inspected, bound_record inspected with
          | Some b, Some current =>
              sameIdentity identity (identity_of (b_stat b)) && sameOwner expected current
          | _, _ => false
          end in
        if negb same then
          do! unlink_marker claimPath;
          do! restoreClaimedLease claimPath lockPath; Ret false
        else
          let! d := mutation claimPath in
          match d with
          | Remove => do! perform (RmRf claimPath); Ret true
          | Restore =>
              do! unlink_marker claimPath;
              restoreClaimedLease claimPath lockPath
          end
  end.

Definition with_heartbeat (r : owner_record) (now : Z) : owner_record :=
  OwnerRecord (r_schemaVersion r) (r_pid r) (r_processNonce r) (r_cwd r) (r_startedAt r)
    (to_iso now) (r_worktree r) (r_droneLabel r) (r_cubeName r).

(** The answer, and the lease object afterwards. *)
(* src/src/stream-owner.ts 522-549 makeLease.refresh *)
Definition refresh (l : lease) (deps : owner_deps) : io (bool * lease) :=
  let! now := now_ms in
  let next := with_heartbeat (l_record l) now in
  let! refreshed :=
    mutateClaimedLease (l_lockPath l) (l_identity l) (l_record l) deps
      (fun claimPath => do! writeLeaseRecord claimPath next; Ret Restore) in
  Ret (if refreshed : bool then (true, Lease (l_lockPath l) next (l_identity l)) else (false, l)).

(* src/src/stream-owner.ts 550-561 makeLease.release *)
Definition release (l : lease) (deps : owner_deps) : io unit :=
  let! _ := mutateClaimedLease (l_lockPath l) (l_identity l) (l_record l) deps
              (fun _ => Ret Remove) in
  Ret tt.
End Lease.
