(* ===== verification/LeaseRuns.v ===== *)
(** * What the lease operations do when nothing interferes

    One equation per operation of [StreamOwner] and per state of the lock it
    distinguishes: the answer and the file system afterwards.  [LeaseProtocol]
    composes them over arbitrary sequences of operations. *)

From stdpp Require Import pretty.
From S2P Require Import Prelude JsDate Effects LeaseFs StreamOwner.

Open Scope Z_scope.

(** The directory [p] names is inode [i] holding [files]. *)
Definition holds (w : world) (p : string) (i : positive) (d : dir) : Prop :=
  w_names w !! p = Some i /\ w_dirs w !! i = Some d.

Lemma holds_resolve w p i d : holds w p i d -> resolve w p = Some (i, d).
Proof. intros [H1 H2]. unfold resolve. by rewrite H1; simpl; rewrite H2. Qed.

Lemma absent_resolve w p : w_names w !! p = None -> resolve w p = None.
Proof. intros H. unfold resolve. by rewrite H. Qed.

Lemma takeoverPath_ne p : takeoverPath p <> p.
Proof.
  unfold takeoverPath. intros H. apply (f_equal String.length) in H.
  rewrite append_length in H. simpl in H. lia.
Qed.

(** ** Evaluating programs *)

(** Decide the tests on error codes. *)
Ltac codes :=
  repeat match goal with
  | |- context [has_code ?c (Errno ?d)] =>
      let v := eval vm_compute in (has_code c (Errno d)) in
      change (has_code c (Errno d)) with v
  end; cbn [negb orb andb].

Ltac run_simpl :=
  repeat (rewrite ?run_bind, ?run_attempt, ?run_perform, ?run_ask;
          cbn [run pbind ask handle fail ok]; codes).

Ltac run_with H := run_simpl; rewrite H; run_simpl.

Section Reads.
Context `{JsDate}.

Lemma run_pathExists w p :
  runw (pathExists p) w = (Done (bool_decide (is_Some (w_names w !! p))), w).
Proof.
  unfold pathExists. run_simpl.
  destruct (w_names w !! p) as [i|]; run_simpl; [|done].
  by rewrite bool_decide_eq_true_2.
Qed.

Lemma run_stat_or_null w p :
  runw (stat_or_null p) w = (Done ((fun x => stat_of w x.1 x.2) <$> resolve w p), w).
Proof. unfold stat_or_null. run_simpl. by destruct (resolve w p) as [[i d]|]. Qed.

Lemma run_readOwnershipRecord w p :
  runw (readOwnershipRecord p) w =
  (Done (x ← resolve w p; d_files x.2 !! OWNER_FILE ≫= parseOwnershipRecord), w).
Proof.
  unfold readOwnershipRecord. run_simpl.
  destruct (resolve w p) as [[i d]|]; run_simpl; [|done].
  cbn [mbind option_bind snd]. by destruct (d_files d !! OWNER_FILE).
Qed.

Lemma run_readBoundOwner_absent w p :
  w_names w !! p = None -> runw (readBoundOwner p) w = (Done None, w).
Proof.
  intros Hp. unfold readBoundOwner. cbn [readBoundOwner_loop].
  unfold readBoundOwner_once. by run_with Hp.
Qed.

Lemma run_readBoundOwner w p i d :
  holds w p i d ->
  runw (readBoundOwner p) w =
  (Done (Some (BoundOwner (d_files d !! OWNER_FILE) (stat_of w i d))), w).
Proof.
  intros [Hn Hd]. pose proof (holds_resolve w p i d (conj Hn Hd)) as Hr.
  unfold readBoundOwner. cbn [readBoundOwner_loop].
  unfold readBoundOwner_once, pfinally. run_with Hn. run_with Hr.
  destruct (d_files d !! OWNER_FILE) as [c|]; run_with Hr;
    unfold sameIdentity; cbn [identity_of st_dev st_ino stat_of fst snd];
    by rewrite Z.eqb_refl, Pos.eqb_refl.
Qed.
End Reads.

(** ** Records survive being written and read back *)

Section Records.
Context `{JsDate}.

Definition record_ok (r : owner_record) : Prop := isRecord (json_of_record r) = true.

Lemma parse_json_of_record r :
  record_ok r -> parseOwnershipRecord (Json (json_of_record r)) = Some r.
Proof.
  unfold record_ok, parseOwnershipRecord. cbn [json_parse]. intros ->.
  by destruct r as [? ? ? ? ? ? [?|] [?|] [?|]].
Qed.

Definition text_ok (s : string) (n : nat) : bool := isSafeLeaseText (Some (JStr s)) n.

Definition opt_text_ok (s : option string) (n : nat) : bool :=
  match truthy s with Some t => text_ok t n | None => true end.

(** What a process must supply for its own record to be readable. *)
Definition deps_ok (deps : owner_deps) : bool :=
  is_pid (Some (JNum (own_pid deps))) &&
  text_ok (dp_nonce deps) 128 && text_ok (dp_cwd deps) 4096 &&
  isIsoTimestamp (Some (JStr (dp_startedAt deps))) &&
  opt_text_ok (dp_worktree deps) 4096 &&
  opt_text_ok (dp_droneLabel deps) 256 && opt_text_ok (dp_cubeName deps) 256.

Lemma js_length_append a b : js_length (a +:+ b) = (js_length a + js_length b)%nat.
Proof.
  induction a as [|c a IH]; [done|]. rewrite append_cons. cbn [js_length]. rewrite IH. lia.
Qed.

Lemma existsb_append f a b :
  string_existsb f (a +:+ b) = string_existsb f a || string_existsb f b.
Proof.
  induction a as [|c a IH]; [done|]. rewrite append_cons. cbn [string_existsb].
  by rewrite IH, orb_assoc.
Qed.

Lemma digit_plain d :
  0 <= d < 10 -> utf16_units (digit d) = 1%nat /\ is_c0_or_del (digit d) = false.
Proof.
  intros Hd. unfold utf16_units, is_c0_or_del, ascii_between, digit.
  rewrite nat_ascii_embedding by lia. split.
  - assert ((48 + Z.to_nat d <? 128)%nat = true) as -> by (apply Nat.ltb_lt; lia). done.
  - apply orb_false_intro; [apply andb_false_intro2|apply andb_false_intro1];
      apply Nat.leb_gt; lia.
Qed.

Lemma pad_plain w n :
  js_length (pad w n) = w /\ string_existsb is_c0_or_del (pad w n) = false.
Proof.
  revert n. induction w as [|w IH]; intros n; [done|]. cbn [pad].
  destruct (digit_plain (n mod 10)) as [H1 H2]; [apply Z.mod_pos_bound; lia|].
  destruct (IH (n / 10)) as [H3 H4].
  rewrite js_length_append, existsb_append. cbn [js_length string_existsb].
  rewrite H1, H2, H3, H4. split; [lia|done].
Qed.

Lemma to_iso_timestamp t :
  four_digit_year t -> isIsoTimestamp (Some (JStr (to_iso t))) = true.
Proof.
  intros Ht. unfold isIsoTimestamp. apply andb_true_intro. split;
    [|rewrite date_parse_to_iso by done; by apply bool_decide_eq_true_2].
  unfold four_digit_year in Ht. unfold isSafeLeaseText, to_iso.
  destruct (civil_from_days (t / ms_per_day)) as [[y m] d].
  assert ((0 <=? y) && (y <=? 9999) = true) as ->
    by (apply andb_true_intro; split; apply Z.leb_le; lia).
  rewrite !js_length_append, !existsb_append.
  rewrite !(proj1 (pad_plain _ _)), !(proj2 (pad_plain _ _)). done.
Qed.

Lemma isRecord_json r :
  isRecord (json_of_record r) =
  bool_decide (Some (r_schemaVersion r) = Some SCHEMA_VERSION) &&
  is_pid (Some (JNum (r_pid r))) &&
  text_ok (r_processNonce r) 128 && text_ok (r_cwd r) 4096 &&
  isIsoTimestamp (Some (JStr (r_startedAt r))) &&
  isIsoTimestamp (Some (JStr (r_heartbeatAt r))) &&
  optional_text (JStr <$> r_worktree r) 4096 &&
  optional_text (JStr <$> r_droneLabel r) 256 &&
  optional_text (JStr <$> r_cubeName r) 256.
Proof. by destruct r as [? ? ? ? ? ? [?|] [?|] [?|]]. Qed.

Lemma opt_text_ok_json v n : opt_text_ok v n = optional_text (JStr <$> truthy v) n.
Proof. unfold opt_text_ok. by destruct (truthy v). Qed.

Lemma makeRecord_ok deps now :
  deps_ok deps = true -> four_digit_year now -> record_ok (makeRecord deps now).
Proof.
  unfold deps_ok, record_ok. rewrite isRecord_json, !opt_text_ok_json.
  intros Hd Hn. pose proof (to_iso_timestamp now Hn). bool_to_prop.
  do 8 (apply andb_true_intro; split; [|assumption]). by apply bool_decide_eq_true_2.
Qed.

Lemma sameOwner_true a b : sameOwner a b = true <-> a = b.
Proof.
  split.
  - unfold sameOwner. intros Hs. bool_to_prop. destruct a, b; simpl in *; by subst.
  - intros ->. unfold sameOwner. destruct b; cbn.
    rewrite !Z.eqb_refl, !String.eqb_refl. cbn.
    by rewrite !bool_decide_eq_true_2.
Qed.

Lemma sameOwner_refl a : sameOwner a a = true.
Proof. by apply sameOwner_true. Qed.

Lemma sameIdentity_true a b : sameIdentity a b = true <-> a = b.
Proof.
  unfold sameIdentity. rewrite andb_true_iff, Z.eqb_eq, Pos.eqb_eq.
  destruct a, b; simpl. naive_solver.
Qed.
End Records.

(** ** Claiming and restoring a name *)

Definition claimed_names (names : gmap string positive) (p : string) (i : positive) :=
  <[takeoverPath p := i]> (delete p names).

Lemma restored_names (names : gmap string positive) p i :
  names !! p = Some i -> names !! takeoverPath p = None ->
  <[p := i]> (delete (takeoverPath p) (claimed_names names p i)) = names.
Proof.
  intros Hp Hc. unfold claimed_names.
  rewrite delete_insert_id by (rewrite lookup_delete_ne by (symmetry; apply takeoverPath_ne); done).
  rewrite insert_delete_eq. by apply insert_id.
Qed.

Lemma claimed_at names p i : claimed_names names p i !! takeoverPath p = Some i.
Proof. apply lookup_insert_eq. Qed.

Lemma claimed_gone names p i : claimed_names names p i !! p = None.
Proof.
  unfold claimed_names. rewrite lookup_insert_ne by apply takeoverPath_ne.
  apply lookup_delete_eq.
Qed.

Lemma with_fs_id w : with_fs w (w_names w) (w_dirs w) = w.
Proof. by destruct w. Qed.

Lemma with_fs_same w names dirs :
  names = w_names w -> dirs = w_dirs w -> with_fs w names dirs = w.
Proof. intros -> ->. apply with_fs_id. Qed.

Section Writes.
Context `{JsDate}.

Lemma set_files_holds w p i d files :
  holds w p i d -> holds (set_files w i files) p i (Dir (w_now w) files).
Proof. intros [Hn Hd]. split; [done|]. apply lookup_insert_eq. Qed.

Lemma set_files_twice w i f g : set_files (set_files w i f) i g = set_files w i g.
Proof. unfold set_files, with_fs. simpl. by rewrite insert_insert_eq. Qed.

Lemma run_write_new w p i d leaf c excl :
  holds w p i d -> d_files d !! leaf = None ->
  handle _ (WriteFile excl p leaf c) w = (inr tt, set_files w i (<[leaf := c]> (d_files d))).
Proof. intros Hh Hl. cbn [handle]. by rewrite (holds_resolve _ _ _ _ Hh), Hl. Qed.

Lemma run_unlink w p i d leaf c :
  holds w p i d -> d_files d !! leaf = Some c ->
  handle _ (Unlink p leaf) w = (inr tt, set_files w i (delete leaf (d_files d))).
Proof. intros Hh Hl. cbn [handle]. by rewrite (holds_resolve _ _ _ _ Hh), Hl. Qed.

Definition tmp_of (r : owner_record) : string :=
  OWNER_FILE +:+ "." +:+ r_processNonce r +:+ ".tmp".

Lemma run_writeRecord w p i d r :
  holds w p i d ->
  runw (writeRecord p r) w =
  (Done tt, set_files w i (<[OWNER_FILE := Json (json_of_record r)]>
                             (delete (tmp_of r) (d_files d)))).
Proof.
  intros Hh. pose proof (holds_resolve _ _ _ _ Hh) as Hr. destruct Hh as [Hn Hd].
  unfold writeRecord. fold (tmp_of r). run_simpl. rewrite Hr.
  destruct (d_files d !! tmp_of r) as [c|]; run_simpl;
    unfold resolve, set_files, with_fs; cbn [w_names w_dirs w_dev w_now w_alive w_foreign];
    rewrite Hn; cbn [mbind option_bind]; rewrite lookup_insert_eq;
    cbn [mbind option_bind d_files]; rewrite lookup_insert_eq; run_simpl;
    cbn [w_names w_dirs]; by rewrite insert_insert_eq, delete_insert_eq.
Qed.

(** [write_marker] on a claimed directory without one. *)
Lemma run_write_marker w p i d deps :
  holds w p i d -> d_files d !! TAKEOVER_FILE = None ->
  runw (write_marker p deps) w =
  (Done tt, set_files w i (<[TAKEOVER_FILE := Json (claimant_json deps (w_now w))]> (d_files d))).
Proof.
  intros Hh Hm. unfold write_marker, now_ms. rewrite run_bind, run_ask. cbn [handle].
  rewrite run_perform. by rewrite (run_write_new _ _ _ _ _ _ _ Hh Hm).
Qed.

Lemma run_unlink_marker w p i d c :
  holds w p i d -> d_files d !! TAKEOVER_FILE = Some c ->
  runw (unlink_marker p) w = (Done tt, set_files w i (delete TAKEOVER_FILE (d_files d))).
Proof.
  intros Hh Hm. unfold unlink_marker. rewrite run_bind, run_attempt, run_perform.
  by rewrite (run_unlink _ _ _ _ _ _ Hh Hm).
Qed.

(** A process whose liveness probe tells the truth. *)
Definition pid_alive (w : world) (pid : Z) : bool :=
  bool_decide (pid ∈ w_alive w) || bool_decide (pid ∈ w_foreign w).

Definition honest_probe (deps : owner_deps) : Prop :=
  forall pid w, runw (isPidAlive pid deps) w = (Done (pid_alive w pid), w).

Lemma default_probe_honest deps :
  dp_isPidAlive deps = None -> dp_pid deps = None -> honest_probe deps.
Proof.
  intros H1 H2 pid w. unfold isPidAlive, pid_alive. rewrite H1, H2.
  rewrite bool_decide_eq_false_2 by (intros [? ?]; done). run_simpl.
  destruct (bool_decide (pid ∈ w_alive w)); run_simpl; [done|].
  by destruct (bool_decide (pid ∈ w_foreign w)); run_simpl.
Qed.

(** *** tryCreateLease *)

Lemma run_tryCreateLease_held w p i deps :
  w_names w !! p = Some i -> w_names w !! takeoverPath p = None ->
  runw (tryCreateLease p deps) w = (Done None, w).
Proof.
  intros Hp Hc. unfold tryCreateLease. rewrite run_bind, run_pathExists, Hc.
  rewrite bool_decide_eq_false_2 by (intros [? ?]; done). by run_with Hp.
Qed.

(** The file system after a lease directory with record [r] was created. *)
Definition created (w : world) (p : string) (r : owner_record) : world :=
  with_fs w (<[p := new_ino w]> (w_names w))
    (<[new_ino w := Dir (w_now w) {[OWNER_FILE := Json (json_of_record r)]}]> (w_dirs w)).

Lemma created_holds w p r :
  holds (created w p r) p (new_ino w) (Dir (w_now w) {[OWNER_FILE := Json (json_of_record r)]}).
Proof. split; apply lookup_insert_eq. Qed.

Lemma run_tryCreateLease_free w p deps :
  w_names w !! p = None -> w_names w !! takeoverPath p = None ->
  record_ok (makeRecord deps (w_now w)) ->
  runw (tryCreateLease p deps) w =
  (Done (Some (Lease p (makeRecord deps (w_now w)) (w_dev w, new_ino w))),
   created w p (makeRecord deps (w_now w))).
Proof.
  intros Hp Hc Hok. unfold tryCreateLease. rewrite run_bind, run_pathExists, Hc.
  rewrite bool_decide_eq_false_2 by (intros [? ?]; done).
  run_with Hp. unfold now_ms. run_simpl. cbn [w_now with_fs].
  set (r := makeRecord deps (w_now w)) in *.
  set (i := new_ino w).
  set (w1 := with_fs w _ _).
  assert (Hh : holds w1 p i (Dir (w_now w) ∅)) by (split; apply lookup_insert_eq).
  unfold writeLeaseRecord. rewrite (run_writeRecord w1 p i _ r Hh). cbn [d_files].
  rewrite delete_empty, insert_empty.
  assert (Hw : set_files w1 i {[OWNER_FILE := Json (json_of_record r)]} = created w p r).
  { unfold set_files, created, w1, with_fs. cbn. by rewrite insert_insert_eq. }
  rewrite Hw. rewrite run_bind, run_pathExists.
  replace (w_names (created w p r) !! takeoverPath p) with (@None positive)
    by (cbn; by rewrite lookup_insert_ne by (symmetry; apply takeoverPath_ne)).
  rewrite bool_decide_eq_false_2 by (intros [? ?]; done). run_simpl.
  rewrite (run_readBoundOwner _ _ _ _ (created_holds w p r)).
  cbn [d_files]. rewrite lookup_singleton_eq. cbn [bound_record raw_truthy].
  rewrite parse_json_of_record by done. by rewrite sameOwner_refl.
Qed.

Lemma run_recoverTakeoverClaim_quiet w p staleMs deps :
  w_names w !! takeoverPath p = None ->
  runw (recoverTakeoverClaim p staleMs deps) w = (Done true, w).
Proof.
  intros Hc. unfold recoverTakeoverClaim. run_with (absent_resolve _ _ Hc). done.
Qed.
End Writes.
