(* ===== verification/LeaseOps.v ===== *)
(** * The lease operations, state by state

    Equations for [acquireStreamLease], [refresh] and [release] in every state
    of the lock that the operations themselves produce. *)

From S2P Require Import Prelude JsDate Effects LeaseFs StreamOwner LeaseRuns.

Open Scope Z_scope.

Section Ops.
Context `{JsDate}.

(** The lock directory of [p] holds the published record [r]. *)
Record published (w : world) (p : string) (i : positive) (d : dir) (r : owner_record) : Prop := {
  pub_holds : holds w p i d;
  pub_record : d_files d !! OWNER_FILE = Some (Json (json_of_record r));
  pub_ok : record_ok r;
  pub_unmarked : d_files d !! TAKEOVER_FILE = None;
  pub_unclaimed : w_names w !! takeoverPath p = None
}.

(** A published record may be taken over: its heartbeat is older than
    [staleMs], or its process is gone. *)
Definition reclaimable (w : world) (r : owner_record) (staleMs : Z) : bool :=
  jnum_gt (heartbeat_age (w_now w) (r_heartbeatAt r)) (Fin staleMs) ||
  negb (pid_alive w (r_pid r)).

Definition is_own (deps : owner_deps) (r : owner_record) : bool :=
  (r_pid r =? own_pid deps) && String.eqb (r_processNonce r) (dp_nonce deps).

Definition snapshot_of (w : world) (i : positive) (deps : owner_deps) (r : owner_record) : snapshot :=
  Snapshot (if is_own deps r then Owner else OwnedByOtherProcess) (Some r)
    (Some (heartbeat_age (w_now w) (r_heartbeatAt r))) (Some (w_dev w, i)).

Lemma run_readOwnershipSnapshot w p i d r deps :
  published w p i d r ->
  runw (readOwnershipSnapshot p deps) w = (Done (snapshot_of w i deps r), w).
Proof.
  intros [Hh Hf Hok _ _]. unfold readOwnershipSnapshot. cbn [readOwnershipSnapshot_loop].
  rewrite run_bind, (run_readBoundOwner _ _ _ _ Hh), Hf. unfold now_ms.
  rewrite run_bind, run_ask. cbn [handle b_raw]. unfold snapshotFromOwner. cbn [b_raw b_stat].
  by rewrite parse_json_of_record.
Qed.

(** The world while [p]'s directory is claimed, with the claimant's marker. *)
Definition claimed (w : world) (p : string) (i : positive) : world :=
  with_fs w (claimed_names (w_names w) p i) (w_dirs w).

Definition marked (w : world) (p : string) (i : positive) (d : dir) (deps : owner_deps) : world :=
  set_files (claimed w p i) i
    (<[TAKEOVER_FILE := Json (claimant_json deps (w_now w))]> (d_files d)).

Lemma run_claim w p i d :
  holds w p i d -> w_names w !! takeoverPath p = None ->
  handle _ (Rename p (takeoverPath p)) w = (inr tt, claimed w p i).
Proof. intros [Hn Hd] Hc. cbn [handle]. by rewrite Hn, (absent_resolve _ _ Hc). Qed.

Lemma claimed_holds w p i d : holds w p i d -> holds (claimed w p i) (takeoverPath p) i d.
Proof. intros [Hn Hd]. split; [apply claimed_at|done]. Qed.

Lemma marked_holds w p i d deps :
  holds w p i d ->
  holds (marked w p i d deps) (takeoverPath p) i
    (Dir (w_now w) (<[TAKEOVER_FILE := Json (claimant_json deps (w_now w))]> (d_files d))).
Proof. intros Hh. exact (set_files_holds _ _ _ _ _ (claimed_holds _ _ _ _ Hh)). Qed.

Lemma run_mark w p i d deps :
  holds w p i d -> d_files d !! TAKEOVER_FILE = None ->
  runw (write_marker (takeoverPath p) deps) (claimed w p i) = (Done tt, marked w p i d deps).
Proof. intros Hh Hm. by rewrite (run_write_marker _ _ _ _ _ (claimed_holds _ _ _ _ Hh) Hm). Qed.

(** Removing the claimed directory frees the name. *)
Definition removed (w : world) (p : string) (i : positive) : world :=
  with_fs w (delete p (w_names w)) (delete i (w_dirs w)).

Lemma run_remove w p i d deps :
  holds w p i d -> w_names w !! takeoverPath p = None ->
  handle _ (RmRf (takeoverPath p)) (marked w p i d deps) = (inr tt, removed w p i).
Proof.
  intros [Hn Hd] Hc. unfold marked, set_files, claimed, with_fs. cbn [handle w_names w_dirs].
  rewrite claimed_at. unfold ok, removed, with_fs. cbn. f_equal. f_equal.
  - unfold claimed_names. apply delete_insert_id.
    by rewrite lookup_delete_ne by (symmetry; apply takeoverPath_ne).
  - by rewrite delete_insert_eq.
Qed.

Lemma run_moveStaleLockAside w p i d r deps staleMs :
  published w p i d r -> honest_probe deps -> reclaimable w r staleMs = true ->
  runw (moveStaleLockAside p (snapshot_of w i deps r) staleMs deps) w =
  (Done true, removed w p i).
Proof.
  intros Hpub Hprobe Hrec. destruct Hpub as [Hh Hf Hok Hm Hc].
  unfold moveStaleLockAside. rewrite run_bind, run_attempt, run_perform, (run_claim _ _ _ _ Hh Hc).
  rewrite run_bind, run_stat_or_null, (holds_resolve _ _ _ _ (claimed_holds _ _ _ _ Hh)).
  cbn [fmap option_fmap option_map fst snd].
  unfold snapshotMatchesIdentity at 1. cbn [s_identity snapshot_of identity_of stat_of st_dev st_ino].
  rewrite (proj2 (sameIdentity_true _ _) eq_refl). cbn [negb].
  rewrite run_bind, (run_mark _ _ _ _ _ Hh Hm).
  pose proof (marked_holds _ _ _ _ deps Hh) as Hmk.
  rewrite run_bind, run_readOwnershipRecord, (holds_resolve _ _ _ _ Hmk).
  cbn [mbind option_bind snd d_files]. rewrite lookup_insert_ne by done. rewrite Hf.
  cbn [mbind option_bind]. rewrite parse_json_of_record by done.
  rewrite run_bind, run_stat_or_null, (holds_resolve _ _ _ _ Hmk).
  cbn [fmap option_fmap option_map fst snd].
  rewrite run_bind. unfold isStillReclaimable, snapshotMatchesIdentity.
  cbn [s_identity snapshot_of identity_of stat_of st_dev st_ino].
  rewrite (proj2 (sameIdentity_true _ _) eq_refl). cbn [negb].
  unfold s_pid, s_nonce, s_heartbeatAt. cbn [s_record snapshot_of fmap option_fmap option_map].
  rewrite !bool_decide_eq_true_2 by done. cbn [andb negb].
  unfold now_ms. rewrite run_bind, run_ask. cbn [handle]. rewrite run_bind, Hprobe.
  change (w_now (marked w p i d deps)) with (w_now w).
  change (pid_alive (marked w p i d deps) (r_pid r)) with (pid_alive w (r_pid r)).
  cbn [run]. unfold reclaimable in Hrec. rewrite Hrec. cbn [negb].
  rewrite run_bind, run_perform, (run_remove _ _ _ _ _ Hh Hc). done.
Qed.

(** *** acquireStreamLease *)

Section Acquire.
Variables (cubeId droneId locksDir p : string) (staleMs : Z) (deps : owner_deps).
Hypothesis Hpath : streamLockPath cubeId droneId locksDir = inr p.

Let acquire := acquireStreamLease cubeId droneId locksDir staleMs deps.

Lemma run_acquire_quiet w :
  w_names w !! takeoverPath p = None ->
  runw acquire w =
  runw (let! first := tryCreateLease p deps in
        match first with
        | Some l => Ret (Some l)
        | None =>
            let! s := readOwnershipSnapshot p deps in
            match s_state s with
            | Unowned => tryCreateLease p deps
            | Initializing => Ret None
            | OrphanedInitialization =>
                let! moved := moveStaleLockAside p s staleMs deps in
                if negb moved then Ret None else tryCreateLease p deps
            | Owner => Ret None
            | OwnedByOtherProcess =>
                let stale := jnum_gt (default (Fin 0) (s_ageMs s)) (Fin staleMs) in
                let! pidDead :=
                  match s_pid s with
                  | Some pid => let! alive := isPidAlive pid deps in Ret (negb alive)
                  | None => Ret false
                  end in
                if negb stale && negb pidDead then Ret None else
                let! moved := moveStaleLockAside p s staleMs deps in
                if negb moved then Ret None else tryCreateLease p deps
            end
        end)%prog w.
Proof.
  intros Hc. unfold acquire, acquireStreamLease. rewrite Hpath.
  rewrite run_bind, run_perform. cbn [handle ok].
  by rewrite run_bind, run_recoverTakeoverClaim_quiet.
Qed.

Lemma run_acquire_free w :
  w_names w !! p = None -> w_names w !! takeoverPath p = None ->
  record_ok (makeRecord deps (w_now w)) ->
  runw acquire w =
  (Done (Some (Lease p (makeRecord deps (w_now w)) (w_dev w, new_ino w))),
   created w p (makeRecord deps (w_now w))).
Proof.
  intros Hp Hc Hok. rewrite run_acquire_quiet by done.
  by rewrite run_bind, run_tryCreateLease_free.
Qed.

(** The lease is refused, and the file system untouched, while the holder's
    record is fresh and its process alive, and whenever it is our own. *)
Lemma run_acquire_held w i d r :
  published w p i d r -> honest_probe deps ->
  is_own deps r || negb (reclaimable w r staleMs) = true ->
  runw acquire w = (Done None, w).
Proof.
  intros Hpub Hprobe Hkeep. pose proof Hpub as [[Hn Hd] Hf Hok Hm Hc].
  rewrite run_acquire_quiet by done.
  rewrite run_bind, (run_tryCreateLease_held _ _ i) by done.
  rewrite run_bind, (run_readOwnershipSnapshot _ _ _ _ _ _ Hpub).
  unfold snapshot_of. cbn [s_state s_ageMs default].
  destruct (is_own deps r); [done|]. cbn [orb] in Hkeep. apply negb_true_iff in Hkeep.
  unfold reclaimable in Hkeep. apply orb_false_elim in Hkeep as [Hs Ha].
  unfold s_pid. cbn [s_record fmap option_fmap option_map].
  rewrite run_bind, run_bind, Hprobe. cbn [run]. simpl.
  rewrite Hs, Ha. done.
Qed.

Lemma run_acquire_reclaim w i d r :
  published w p i d r -> honest_probe deps ->
  is_own deps r = false -> reclaimable w r staleMs = true ->
  record_ok (makeRecord deps (w_now w)) ->
  runw acquire w =
  (Done (Some (Lease p (makeRecord deps (w_now w)) (w_dev w, new_ino (removed w p i)))),
   created (removed w p i) p (makeRecord deps (w_now w))).
Proof.
  intros Hpub Hprobe Hown Hrec Hnew. pose proof Hpub as [[Hn Hd] Hf Hok Hm Hc].
  rewrite run_acquire_quiet by done.
  rewrite run_bind, (run_tryCreateLease_held _ _ i) by done.
  rewrite run_bind, (run_readOwnershipSnapshot _ _ _ _ _ _ Hpub).
  unfold snapshot_of at 1. cbn [s_state]. rewrite Hown.
  unfold s_pid. cbn [s_record snapshot_of fmap option_fmap option_map s_ageMs].
  rewrite run_bind, run_bind, Hprobe. cbn [run].
  replace (negb _ && negb _) with false
    by (rewrite <- negb_orb; symmetry; apply negb_false_iff; exact Hrec).
  rewrite run_bind, (run_moveStaleLockAside _ _ _ d) by done. cbn [negb].
  apply (run_tryCreateLease_free (removed w p i)); [..|done].
  - apply lookup_delete_eq.
  - cbn. by rewrite lookup_delete_ne by (symmetry; apply takeoverPath_ne).
Qed.
End Acquire.

(** *** refresh and release *)

Lemma run_restore w p i d n :
  holds w p i d -> w_names w !! takeoverPath p = None ->
  forall dirs, runw (restoreClaimedLease_loop (S n) (takeoverPath p) p)
    (with_fs w (claimed_names (w_names w) p i) dirs) = (Done true, with_fs w (w_names w) dirs).
Proof.
  intros [Hn Hd] Hc dirs. cbn [restoreClaimedLease_loop].
  rewrite run_bind, run_attempt, run_perform. cbn [handle with_fs w_names].
  rewrite claimed_at. rewrite absent_resolve by apply claimed_gone.
  cbn [ok run]. unfold with_fs. cbn. by rewrite restored_names.
Qed.

(** Our name is gone: the lease is lost and nothing is touched. *)
Lemma run_mutate_absent w p identity expected deps m :
  w_names w !! p = None ->
  runw (mutateClaimedLease p identity expected deps m) w = (Done false, w).
Proof. intros Hp. unfold mutateClaimedLease. by run_with Hp. Qed.

(** Another directory has our name: it is put back as it was. *)
Lemma run_mutate_other_inode w p i d identity expected deps m :
  holds w p i d -> w_names w !! takeoverPath p = None -> identity <> (w_dev w, i) ->
  runw (mutateClaimedLease p identity expected deps m) w = (Done false, w).
Proof.
  intros Hh Hc Hne. unfold mutateClaimedLease.
  rewrite run_bind, run_attempt, run_perform, (run_claim _ _ _ _ Hh Hc).
  rewrite run_bind, run_stat_or_null, (holds_resolve _ _ _ _ (claimed_holds _ _ _ _ Hh)).
  cbn [fmap option_fmap option_map fst snd identity_of stat_of st_dev st_ino].
  destruct (sameIdentity identity _) eqn:E; [by apply sameIdentity_true in E|]. cbn [negb].
  rewrite run_bind. unfold claimed, restoreClaimedLease.
  rewrite (run_restore _ _ _ _ _ Hh Hc). cbn [run]. by rewrite with_fs_id.
Qed.

(** The claimed directory after our marker is written: it is still the one we
    inspect, with the same record. *)
Lemma run_mutate_marked w p i d r expected deps m :
  published w p i d r ->
  runw (mutateClaimedLease p (w_dev w, i) expected deps m) w =
  runw (if sameOwner expected r then
          let! dsp := m (takeoverPath p) in
          match dsp with
          | Remove => do! perform (RmRf (takeoverPath p)); Ret true
          | Restore =>
              do! unlink_marker (takeoverPath p);
              restoreClaimedLease (takeoverPath p) p
          end
        else
          do! unlink_marker (takeoverPath p);
          do! restoreClaimedLease (takeoverPath p) p; Ret false)%prog (marked w p i d deps).
Proof.
  intros [Hh Hf Hok Hm Hc]. unfold mutateClaimedLease.
  rewrite run_bind, run_attempt, run_perform, (run_claim _ _ _ _ Hh Hc).
  rewrite run_bind, run_stat_or_null, (holds_resolve _ _ _ _ (claimed_holds _ _ _ _ Hh)).
  cbn [fmap option_fmap option_map fst snd identity_of stat_of st_dev st_ino].
  rewrite (proj2 (sameIdentity_true _ _) eq_refl). cbn [negb].
  rewrite run_bind, (run_mark _ _ _ _ _ Hh Hm).
  rewrite run_bind, (run_readBoundOwner _ _ _ _ (marked_holds _ _ _ _ deps Hh)).
  cbn [d_files]. rewrite lookup_insert_ne by done. rewrite Hf.
  cbn [bound_record raw_truthy b_stat identity_of stat_of st_dev st_ino].
  rewrite parse_json_of_record by done.
  rewrite (proj2 (sameIdentity_true _ _) eq_refl). cbn [andb].
  by destruct (sameOwner expected r).
Qed.

(** Removing the marker and restoring the name of a marked directory. *)
Lemma run_unmark_restore w p i d files c :
  holds w p i d -> w_names w !! takeoverPath p = None -> files !! TAKEOVER_FILE = Some c ->
  runw (do! unlink_marker (takeoverPath p); restoreClaimedLease (takeoverPath p) p)%prog
    (set_files (claimed w p i) i files) =
  (Done true, set_files w i (delete TAKEOVER_FILE files)).
Proof.
  intros Hh Hc Hf.
  pose proof (set_files_holds _ _ _ _ files (claimed_holds _ _ _ _ Hh)) as Hs.
  rewrite run_bind, (run_unlink_marker _ _ _ _ _ Hs Hf). cbn [d_files].
  rewrite set_files_twice. unfold restoreClaimedLease, set_files, claimed.
  change (with_fs (with_fs w ?a ?b) ?c ?e) with (with_fs w c e). cbn [w_names w_dirs w_now with_fs].
  apply (run_restore _ _ _ _ _ Hh Hc).
Qed.

Definition touched (w : world) (i : positive) (d : dir) : world := set_files w i (d_files d).

(** The directory is ours but another record is published in it: the lease is
    lost and the record stays. *)
Lemma run_mutate_other_record w p i d r expected deps m :
  published w p i d r -> expected <> r ->
  runw (mutateClaimedLease p (w_dev w, i) expected deps m) w = (Done false, touched w i d).
Proof.
  intros Hpub Hne. rewrite (run_mutate_marked _ _ _ _ _ _ _ _ Hpub).
  destruct (sameOwner expected r) eqn:E; [by apply sameOwner_true in E|].
  destruct Hpub as [Hh Hf Hok Hm Hc].
  pose proof (run_unmark_restore w p i d _ _ Hh Hc (lookup_insert_eq (d_files d) TAKEOVER_FILE
    (Json (claimant_json deps (w_now w))))) as Hu.
  rewrite delete_insert_id in Hu by done. fold (marked w p i d deps) in Hu.
  rewrite run_bind in Hu |- *.
  destruct (runw (unlink_marker _) _) as [[?|?] w']; [|done]. by rewrite run_bind, Hu.
Qed.

Lemma run_refresh_mutate w l deps :
  runw (refresh l deps) w =
  let next := with_heartbeat (l_record l) (w_now w) in
  match runw (mutateClaimedLease (l_lockPath l) (l_identity l) (l_record l) deps
                (fun claimPath => do! writeLeaseRecord claimPath next; Ret Restore)%prog) w with
  | (Done true, w') => (Done (true, Lease (l_lockPath l) next (l_identity l)), w')
  | (Done false, w') => (Done (false, l), w')
  | (Failed e, w') => (Failed e, w')
  end.
Proof.
  unfold refresh, now_ms. rewrite run_bind, run_ask. cbn [handle].
  rewrite run_bind. by destruct (runw (mutateClaimedLease _ _ _ _ _) w) as [[[]|e] w'].
Qed.

Lemma run_release_mutate w l deps :
  runw (release l deps) w =
  match runw (mutateClaimedLease (l_lockPath l) (l_identity l) (l_record l) deps
                (fun _ => Ret Remove)) w with
  | (Done _, w') => (Done tt, w')
  | (Failed e, w') => (Failed e, w')
  end.
Proof.
  unfold release. rewrite run_bind.
  by destruct (runw (mutateClaimedLease _ _ _ _ _) w) as [[?|e] w'].
Qed.

Lemma run_refresh_held w p i d r deps :
  published w p i d r ->
  runw (refresh (Lease p r (w_dev w, i)) deps) w =
  (Done (true, Lease p (with_heartbeat r (w_now w)) (w_dev w, i)),
   set_files w i (<[OWNER_FILE := Json (json_of_record (with_heartbeat r (w_now w)))]>
                    (delete (tmp_of r) (d_files d)))).
Proof.
  intros Hpub. rewrite run_refresh_mutate. cbn [l_record l_lockPath l_identity].
  rewrite (run_mutate_marked _ _ _ _ _ _ _ _ Hpub), sameOwner_refl.
  destruct Hpub as [Hh Hf Hok Hm Hc].
  set (next := with_heartbeat r (w_now w)).
  rewrite run_bind, run_bind. unfold writeLeaseRecord.
  rewrite (run_writeRecord _ _ _ _ next (marked_holds _ _ _ _ deps Hh)). cbn [run d_files].
  unfold marked. rewrite set_files_twice.
  change (tmp_of next) with (tmp_of r).
  assert (Htmp : tmp_of r <> TAKEOVER_FILE) by (unfold tmp_of; by destruct (r_processNonce r)).
  rewrite delete_insert_ne by done.
  rewrite (run_unmark_restore _ _ _ _ _ (Json (claimant_json deps (w_now w))) Hh Hc).
  - do 2 f_equal. rewrite delete_insert_ne by done.
    rewrite delete_insert_id by (rewrite lookup_delete_ne by done; done). done.
  - rewrite lookup_insert_ne by done. apply lookup_insert_eq.
Qed.

Lemma run_release_held w p i d r deps :
  published w p i d r ->
  runw (release (Lease p r (w_dev w, i)) deps) w = (Done tt, removed w p i).
Proof.
  intros Hpub. rewrite run_release_mutate. cbn [l_record l_lockPath l_identity].
  rewrite (run_mutate_marked _ _ _ _ _ _ _ _ Hpub), sameOwner_refl.
  destruct Hpub as [Hh Hf Hok Hm Hc]. rewrite run_bind. cbn [run].
  by rewrite run_bind, run_perform, (run_remove _ _ _ _ _ Hh Hc).
Qed.
End Ops.
