(* ===== verification/LeaseProtocol.v ===== *)
(** * One seat, one stream consumer

    Any number of processes acquire, refresh and release the lease of one seat
    while time passes and processes die.  A step runs one whole operation of
    [StreamOwner]: the operations of different processes do not overlap here (the
    last section lets simultaneous creators overlap).  The state is the world and the lease object each process
    holds in memory.  The invariant is that a lease that is neither older than
    [STREAM_OWNER_STALE_MS] nor held by a dead process is the one published in
    the lock directory, so two such leases cannot coexist. *)

From S2P Require Import Prelude JsDate Effects LeaseFs StreamOwner LeaseRuns LeaseOps.

Open Scope Z_scope.

Section Protocol.
Context `{JsDate} {P : Type} `{EqDecision P}.
Variables (deps_of : P -> owner_deps) (cubeId droneId locksDir p : string).
Hypothesis Hpath : streamLockPath cubeId droneId locksDir = inr p.
(** Every process supplies readable data, a truthful probe and an identity of
    its own. *)
Hypothesis Hdeps : forall q, deps_ok (deps_of q) = true.
Hypothesis Hprobe : forall q, honest_probe (deps_of q).
Hypothesis Hdistinct : forall q1 q2,
  own_pid (deps_of q1) = own_pid (deps_of q2) ->
  dp_nonce (deps_of q1) = dp_nonce (deps_of q2) -> q1 = q2.

Record system := System { sys_world : world; sys_lease : P -> option lease }.

Definition upd (f : P -> option lease) (q : P) (l : option lease) : P -> option lease :=
  fun q' => if decide (q' = q) then l else f q'.

Definition acquired (r : outcome (option lease)) : option lease :=
  match r with Done l => l | Failed _ => None end.

Definition refreshed (r : outcome (bool * lease)) : option lease :=
  match r with Done (true, l) => Some l | _ => None end.

Definition at_time (w : world) (t : Z) : world :=
  World (w_names w) (w_dirs w) (w_dev w) t (w_alive w) (w_foreign w).

Definition without_pid (w : world) (pid : Z) : world :=
  World (w_names w) (w_dirs w) (w_dev w) (w_now w) (w_alive w ∖ {[pid]}) (w_foreign w).

Abbreviation stale := STREAM_OWNER_STALE_MS.

Inductive sys_step : system -> system -> Prop :=
| do_acquire w f q r w' :
    f q = None ->
    runw (acquireStreamLease cubeId droneId locksDir stale (deps_of q)) w = (r, w') ->
    sys_step (System w f) (System w' (upd f q (acquired r)))
| do_refresh w f q l r w' :
    f q = Some l -> runw (refresh l (deps_of q)) w = (r, w') ->
    sys_step (System w f) (System w' (upd f q (refreshed r)))
| do_release w f q l r w' :
    f q = Some l -> runw (release l (deps_of q)) w = (r, w') ->
    sys_step (System w f) (System w' (upd f q None))
| do_tick w f t :
    w_now w <= t -> four_digit_year t -> sys_step (System w f) (System (at_time w t) f)
| do_die w f pid :
    sys_step (System w f) (System (without_pid w pid) f).

(** ** The invariant *)

Definition beats (w : world) (r : owner_record) : Prop :=
  exists h, r_heartbeatAt r = to_iso h /\ four_digit_year h /\ h <= w_now w.

Definition owned_by (q : P) (r : owner_record) : Prop := is_own (deps_of q) r = true.

Definition lock_ok (w : world) : Prop :=
  w_names w !! takeoverPath p = None /\
  (w_names w !! p = None \/
   exists i d r q, published w p i d r /\ owned_by q r /\ beats w r).

Definition valid (w : world) (l : lease) : Prop :=
  exists i d, l_identity l = (w_dev w, i) /\ published w p i d (l_record l).

Definition lease_ok (w : world) (q : P) (l : lease) : Prop :=
  l_lockPath l = p /\ owned_by q (l_record l) /\ beats w (l_record l) /\
  (valid w l \/ reclaimable w (l_record l) stale = true).

Definition inv (s : system) : Prop :=
  four_digit_year (w_now (sys_world s)) /\
  lock_ok (sys_world s) /\
  forall q l, sys_lease s q = Some l -> lease_ok (sys_world s) q l.

Lemma owned_unique q1 q2 r : owned_by q1 r -> owned_by q2 r -> q1 = q2.
Proof.
  unfold owned_by, is_own. intros [H1 H2]%andb_prop [H3 H4]%andb_prop.
  apply Z.eqb_eq in H1, H3. apply String.eqb_eq in H2, H4.
  apply Hdistinct; congruence.
Qed.

Lemma published_unique w i1 d1 r1 i2 d2 r2 :
  published w p i1 d1 r1 -> published w p i2 d2 r2 -> i1 = i2 /\ d1 = d2 /\ r1 = r2.
Proof.
  intros [[Hn1 Hd1] Hf1 Hok1 _ _] [[Hn2 Hd2] Hf2 Hok2 _ _].
  assert (i1 = i2) as -> by congruence. assert (d1 = d2) as -> by congruence.
  apply (parse_json_of_record r1) in Hok1. apply (parse_json_of_record r2) in Hok2.
  repeat split. congruence.
Qed.

(** A valid lease carries the published record. *)
Lemma valid_record w l i d r :
  valid w l -> published w p i d r -> l_record l = r.
Proof. intros (j & e & _ & Hp) Hp'. apply (published_unique _ _ _ _ _ _ _ Hp Hp'). Qed.

Lemma reclaimable_mono w w' r :
  beats w r -> w_now w <= w_now w' ->
  (pid_alive w' (r_pid r) = true -> pid_alive w (r_pid r) = true) ->
  reclaimable w r stale = true -> reclaimable w' r stale = true.
Proof.
  intros (h & Hh & Hy & _) Hle Hal. unfold reclaimable, heartbeat_age.
  rewrite Hh, !date_parse_to_iso by done. cbn [jnum_gt].
  rewrite !orb_true_iff, !negb_true_iff, !Z.ltb_lt. intros [Hlt|Hd]; [left; lia|right].
  destruct (pid_alive w' _); [|done]. rewrite Hal in Hd; done.
Qed.

Lemma beats_mono w w' r : beats w r -> w_now w <= w_now w' -> beats w' r.
Proof. intros (h & ? & ? & ?) ?. exists h. split; [done|split; [done|lia]]. Qed.

(** An operation that leaves clock and processes alone keeps the leases that
    were not valid, and those it republishes. *)
Definition same_env (w w' : world) : Prop :=
  w_now w' = w_now w /\ w_alive w' = w_alive w /\ w_foreign w' = w_foreign w /\ w_dev w' = w_dev w.

Lemma same_env_refl w : same_env w w.
Proof. done. Qed.

Lemma lease_ok_env w w' q l :
  same_env w w' -> lease_ok w q l ->
  (valid w l -> valid w' l \/ reclaimable w (l_record l) stale = true) -> lease_ok w' q l.
Proof.
  intros (Hn & Ha & Hf & _) (Hl & Ho & Hb & Hval) Hkeep.
  assert (Hm : reclaimable w (l_record l) stale = true -> reclaimable w' (l_record l) stale = true).
  { apply reclaimable_mono; [done|lia|]. unfold pid_alive. by rewrite Ha, Hf. }
  split; [done|]. split; [done|].
  split; [apply (beats_mono w); [done|lia]|]. destruct Hval; [destruct Hkeep|]; auto.
Qed.

(** ** Preservation, operation by operation *)

Lemma created_published w r :
  w_names w !! takeoverPath p = None -> record_ok r ->
  published (created w p r) p (new_ino w)
    (Dir (w_now w) {[OWNER_FILE := Json (json_of_record r)]}) r.
Proof.
  intros Hc Hok. split; [apply created_holds|apply lookup_singleton_eq|done| |].
  - by apply lookup_singleton_ne.
  - cbn. by rewrite lookup_insert_ne by (symmetry; apply takeoverPath_ne).
Qed.

Lemma makeRecord_owned q now : owned_by q (makeRecord (deps_of q) now).
Proof. unfold owned_by, is_own, makeRecord. cbn. by rewrite Z.eqb_refl, String.eqb_refl. Qed.

Lemma makeRecord_beats w q :
  four_digit_year (w_now w) -> beats w (makeRecord (deps_of q) (w_now w)).
Proof. intros Hy. exists (w_now w). split; [done|split; [done|lia]]. Qed.

(** A lease created in a world [w1] that differs from [w] only in the lock. *)
Lemma inv_created w w1 f q :
  inv (System w f) -> same_env w w1 ->
  w_names w1 !! takeoverPath p = None ->
  (forall l q', f q' = Some l -> valid w l -> reclaimable w (l_record l) stale = true) ->
  inv (System (created w1 p (makeRecord (deps_of q) (w_now w)))
         (upd f q (Some (Lease p (makeRecord (deps_of q) (w_now w)) (w_dev w, new_ino w1))))).
Proof.
  intros (Hy & _ & Hl) Henv Hc Hgone. simpl in *.
  pose proof (makeRecord_ok (deps_of q) (w_now w) (Hdeps q) Hy) as Hok.
  set (r := makeRecord (deps_of q) (w_now w)) in *.
  assert (Henv' : same_env w (created w1 p r)) by exact Henv.
  destruct Henv as (Hn & _ & _ & Hdev).
  pose proof (created_published w1 r Hc Hok) as Hpub.
  assert (Hb : beats (created w1 p r) r).
  { apply (beats_mono w); [by apply makeRecord_beats|cbn; lia]. }
  split; [cbn; by rewrite Hn|]. split.
  - split; [apply Hpub|]. right. eexists _, _, r, q.
    split; [exact Hpub|]. split; [apply makeRecord_owned|done].
  - intros q' l. cbn. unfold upd. case_decide; intros Hq.
    + simplify_eq. split; [done|]. split; [apply makeRecord_owned|]. split; [done|].
      left. eexists _, _. split; [|exact Hpub]. cbn. by rewrite Hdev.
    + apply (lease_ok_env w); [done|by apply Hl|]. intros Hv. right. by apply (Hgone l q').
Qed.

Lemma inv_unchanged w f q :
  inv (System w f) -> inv (System w (upd f q None)).
Proof.
  intros (Hy & Hk & Hl). split; [done|]. split; [done|]. intros q' l. cbn. unfold upd.
  case_decide; [done|]. apply Hl.
Qed.

Lemma inv_acquire w f q r w' :
  inv (System w f) -> f q = None ->
  runw (acquireStreamLease cubeId droneId locksDir stale (deps_of q)) w = (r, w') ->
  inv (System w' (upd f q (acquired r))).
Proof.
  intros Hinv Hq Hrun. pose proof Hinv as (Hy & [Hc Hlock] & Hl). simpl in *.
  pose proof (makeRecord_ok (deps_of q) (w_now w) (Hdeps q) Hy) as Hok.
  destruct Hlock as [Hfree|(i & d & r0 & q0 & Hpub & Hown & Hb)].
  - rewrite (run_acquire_free _ _ _ _ _ _ Hpath) in Hrun by done. simplify_eq. cbn [acquired].
    apply inv_created; [done..|]. intros l q' _ (? & ? & _ & [[Hn _] _ _ _ _]). congruence.
  - destruct (is_own (deps_of q) r0 || negb (reclaimable w r0 stale)) eqn:Hkeep.
    + rewrite (run_acquire_held _ _ _ _ _ _ Hpath w i d r0) in Hrun by done.
      simplify_eq. by apply inv_unchanged.
    + apply orb_false_elim in Hkeep as [Hn Hrec%negb_false_iff].
      rewrite (run_acquire_reclaim _ _ _ _ _ _ Hpath w i d r0) in Hrun by done.
      simplify_eq. cbn [acquired]. apply inv_created; [done..| |].
      * cbn. by rewrite lookup_delete_ne by (symmetry; apply takeoverPath_ne).
      * intros l q' Hf Hv. by rewrite (valid_record w l i d r0).
Qed.

(** Rewriting files of the lock directory without touching the record. *)
Lemma touched_published w i d r :
  published w p i d r -> published (touched w i d) p i (Dir (w_now w) (d_files d)) r.
Proof.
  intros [Hh Hf Hok Hm Hc]. split; [by apply (set_files_holds w p i d)|done..].
Qed.

Lemma inv_touched w f q i d r :
  inv (System w f) -> published w p i d r -> inv (System (touched w i d) (upd f q None)).
Proof.
  intros (Hy & [Hc Hlock] & Hl) Hpub. simpl in *.
  pose proof (touched_published _ _ _ _ Hpub) as Hpub'.
  destruct Hlock as [Hfree|(i0 & d0 & r0 & q0 & Hpub0 & Hown & Hb)];
    [destruct Hpub as [[? _] _ _ _ _]; congruence|].
  destruct (published_unique _ _ _ _ _ _ _ Hpub Hpub0) as (-> & -> & ->).
  split; [done|]. split.
  - split; [done|]. right. by eexists _, _, r0, q0.
  - intros q' l. cbn. unfold upd. case_decide; [done|]. intros Hf.
    apply (lease_ok_env w); [done|by apply Hl|]. intros (j & e & Hid & Hp). left.
    destruct (published_unique _ _ _ _ _ _ _ Hp Hpub0) as (He & _ & Hr).
    subst j. exists i0, (Dir (w_now w) (d_files d0)). rewrite Hr. by split.
Qed.

Lemma inv_removed w f q l0 i d :
  inv (System w f) -> f q = Some l0 -> published w p i d (l_record l0) ->
  inv (System (removed w p i) (upd f q None)).
Proof.
  intros (Hy & [Hc Hlock] & Hl) Hf0 Hpub. simpl in *.
  split; [done|]. split.
  - split; [|left; apply lookup_delete_eq].
    cbn. by rewrite lookup_delete_ne by (symmetry; apply takeoverPath_ne).
  - intros q' l. cbn. unfold upd. case_decide as Hne; [done|]. intros Hf.
    apply (lease_ok_env w); [done|by apply Hl|]. intros Hv. exfalso. apply Hne.
    destruct (Hl _ _ Hf) as (_ & Ho & _). destruct (Hl _ _ Hf0) as (_ & Ho0 & _).
    pose proof (valid_record w l _ _ _ Hv Hpub) as Heq. rewrite Heq in Ho.
    by apply (owned_unique q' q (l_record l0)).
Qed.

(** The record of a refreshed lease. *)
Lemma with_heartbeat_owned q r now : owned_by q r -> owned_by q (with_heartbeat r now).
Proof. done. Qed.

Lemma with_heartbeat_ok r now :
  record_ok r -> four_digit_year now -> record_ok (with_heartbeat r now).
Proof.
  unfold record_ok. rewrite !isRecord_json. intros Hr Hy.
  pose proof (to_iso_timestamp now Hy). bool_to_prop.
  do 8 (apply andb_true_intro; split; [|assumption]). by apply bool_decide_eq_true_2.
Qed.

Definition refreshed_world (w : world) (i : positive) (d : dir) (r : owner_record) : world :=
  set_files w i (<[OWNER_FILE := Json (json_of_record (with_heartbeat r (w_now w)))]>
                   (delete (tmp_of r) (d_files d))).

Lemma refreshed_published w i d r :
  published w p i d r -> four_digit_year (w_now w) ->
  published (refreshed_world w i d r) p i
    (Dir (w_now w) (<[OWNER_FILE := Json (json_of_record (with_heartbeat r (w_now w)))]>
                      (delete (tmp_of r) (d_files d)))) (with_heartbeat r (w_now w)).
Proof.
  intros [Hh Hf Hok Hm Hc] Hy. split.
  - by apply (set_files_holds w p i d).
  - apply lookup_insert_eq.
  - by apply with_heartbeat_ok.
  - cbn [d_files]. rewrite lookup_insert_ne by done.
    destruct (decide (tmp_of r = TAKEOVER_FILE)) as [->|Hne];
      [apply lookup_delete_eq|by rewrite lookup_delete_ne].
  - done.
Qed.

Lemma inv_refreshed w f q l i d :
  inv (System w f) -> f q = Some l -> l_identity l = (w_dev w, i) ->
  published w p i d (l_record l) ->
  inv (System (refreshed_world w i d (l_record l))
         (upd f q (Some (Lease p (with_heartbeat (l_record l) (w_now w)) (l_identity l))))).
Proof.
  intros (Hy & [Hc Hlock] & Hl) Hf0 Hid Hpub. simpl in *.
  destruct (Hl _ _ Hf0) as (Hp & Ho & Hb & _).
  pose proof (refreshed_published _ _ _ _ Hpub Hy) as Hpub'.
  assert (Hb' : beats (refreshed_world w i d (l_record l)) (with_heartbeat (l_record l) (w_now w))).
  { exists (w_now w). split; [done|split; [done|cbn; lia]]. }
  split; [done|]. split.
  - split; [done|]. right. by eexists _, _, _, q.
  - intros q' l'. cbn. unfold upd. case_decide as Hne; intros Hf.
    + simplify_eq. split; [done|]. split; [done|]. split; [done|].
      left. by eexists _, _.
    + apply (lease_ok_env w); [done|by apply Hl|]. intros Hv. exfalso. apply Hne.
      destruct (Hl _ _ Hf) as (_ & Ho' & _).
      rewrite (valid_record w l' _ _ _ Hv Hpub) in Ho'.
      by apply (owned_unique q' q (l_record l)).
Qed.

(** What refresh and release do, for any lease of the protocol. *)
Inductive lease_case (w : world) (l : lease) : Prop :=
| case_absent : w_names w !! p = None -> lease_case w l
| case_other_inode i d r :
    published w p i d r -> l_identity l <> (w_dev w, i) -> lease_case w l
| case_other_record i d r :
    published w p i d r -> l_identity l = (w_dev w, i) -> l_record l <> r -> lease_case w l
| case_ours i d :
    published w p i d (l_record l) -> l_identity l = (w_dev w, i) -> lease_case w l.

Lemma lease_cases w l : lock_ok w -> lease_case w l.
Proof.
  intros [Hc [Hfree|(i & d & r & q & Hpub & _)]]; [by apply case_absent|].
  destruct (decide (l_identity l = (w_dev w, i))) as [Hid|Hid];
    [|by eapply case_other_inode].
  destruct (decide (l_record l = r)) as [<-|Hr];
    [by eapply case_ours|by eapply case_other_record].
Qed.

Lemma inv_refresh w f q l r w' :
  inv (System w f) -> f q = Some l -> runw (refresh l (deps_of q)) w = (r, w') ->
  inv (System w' (upd f q (refreshed r))).
Proof.
  intros Hinv Hf Hrun. pose proof Hinv as (_ & Hlock & Hl). cbn [sys_world sys_lease] in *.
  destruct (Hl _ _ Hf) as (Hp & _). rewrite run_refresh_mutate, Hp in Hrun. cbv zeta in Hrun.
  destruct (lease_cases w l Hlock) as [Hn|i d r0 Hpub Hid|i d r0 Hpub Hid Hne|i d Hpub Hid].
  - rewrite run_mutate_absent in Hrun by done. simplify_eq. by apply inv_unchanged.
  - pose proof Hpub as [Hh _ _ _ Hc].
    rewrite (run_mutate_other_inode _ _ _ _ _ _ _ _ Hh Hc Hid) in Hrun.
    simplify_eq. by apply inv_unchanged.
  - rewrite Hid, (run_mutate_other_record _ _ _ _ _ _ _ _ Hpub Hne) in Hrun.
    simplify_eq. by apply (inv_touched w f q i d r0).
  - pose proof (run_refresh_held _ _ _ _ _ (deps_of q) Hpub) as Hheld.
    rewrite run_refresh_mutate in Hheld. cbn [l_lockPath l_identity l_record] in Hheld.
    cbv zeta in Hheld. rewrite Hid in Hrun.
    destruct (runw (mutateClaimedLease _ _ _ _ _) w) as [[[]|e] w1]; simplify_eq.
    cbn [refreshed]. rewrite <- Hid. by apply (inv_refreshed w f q l i d).
Qed.

Lemma inv_release w f q l r w' :
  inv (System w f) -> f q = Some l -> runw (release l (deps_of q)) w = (r, w') ->
  inv (System w' (upd f q None)).
Proof.
  intros Hinv Hf Hrun. pose proof Hinv as (_ & Hlock & Hl). cbn [sys_world sys_lease] in *.
  destruct (Hl _ _ Hf) as (Hp & _). rewrite run_release_mutate, Hp in Hrun.
  destruct (lease_cases w l Hlock) as [Hn|i d r0 Hpub Hid|i d r0 Hpub Hid Hne|i d Hpub Hid].
  - rewrite run_mutate_absent in Hrun by done. simplify_eq. by apply inv_unchanged.
  - pose proof Hpub as [Hh _ _ _ Hc].
    rewrite (run_mutate_other_inode _ _ _ _ _ _ _ _ Hh Hc Hid) in Hrun.
    simplify_eq. by apply inv_unchanged.
  - rewrite Hid, (run_mutate_other_record _ _ _ _ _ _ _ _ Hpub Hne) in Hrun.
    simplify_eq. by apply (inv_touched w f q i d r0).
  - pose proof (run_release_held _ _ _ _ _ (deps_of q) Hpub) as Hheld.
    rewrite run_release_mutate in Hheld. cbn [l_lockPath l_identity l_record] in Hheld.
    rewrite Hid in Hrun.
    destruct (runw (mutateClaimedLease _ _ _ _ _) w) as [[?|e] w1]; simplify_eq.
    by apply (inv_removed w f q l i d).
Qed.

Lemma lease_ok_later w w' q l :
  w_names w' = w_names w -> w_dirs w' = w_dirs w -> w_dev w' = w_dev w ->
  w_now w <= w_now w' ->
  (forall pid, pid_alive w' pid = true -> pid_alive w pid = true) ->
  lease_ok w q l -> lease_ok w' q l.
Proof.
  intros Hn Hd Hdev Hle Hal (Hp & Ho & Hb & Hv). split; [done|]. split; [done|].
  split; [by apply (beats_mono w)|].
  destruct Hv as [(i & d & Hid & [[H1 H2] Hf Hok Hm Hc])|Hrec].
  - left. exists i, d. rewrite Hdev. split; [done|].
    split; [split; congruence|done..|congruence].
  - right. apply (reclaimable_mono w); auto.
Qed.

Lemma lock_ok_later w w' :
  w_names w' = w_names w -> w_dirs w' = w_dirs w -> w_now w <= w_now w' ->
  lock_ok w -> lock_ok w'.
Proof.
  intros Hn Hd Hle [Hc Hk]. split; [congruence|].
  destruct Hk as [Hfree|(i & d & r & q & [[H1 H2] Hf Hok Hm Hc'] & Ho & Hb)]; [left; congruence|].
  right. exists i, d, r, q. split; [|split; [done|by apply (beats_mono w)]].
  split; [split; congruence|done..|congruence].
Qed.

Theorem inv_step s s' : inv s -> sys_step s s' -> inv s'.
Proof.
  intros Hinv Hstep. destruct Hstep as [w f q r w' Hf Hr|w f q l r w' Hf Hr|w f q l r w' Hf Hr|w f t Hle Hy|w f pid].
  - by apply (inv_acquire w).
  - by apply (inv_refresh w f q l).
  - by apply (inv_release w f q l r).
  - destruct Hinv as (_ & Hk & Hl). split; [done|].
    split; [by apply (lock_ok_later w)|]. intros q l Hf.
    apply (lease_ok_later w); auto.
  - destruct Hinv as (Hy & Hk & Hl). split; [done|].
    split; [apply (lock_ok_later w); cbn; auto with lia|]. intros q l Hf.
    apply (lease_ok_later w); cbn; auto with lia. intros pid'. unfold pid_alive. cbn.
    rewrite !orb_true_iff, !bool_decide_eq_true. set_solver.
Qed.

Definition unlocked (w : world) : Prop :=
  w_names w !! p = None /\ w_names w !! takeoverPath p = None.

(** A state with no lock, no claim and no lease. *)
Definition initial (s : system) : Prop :=
  unlocked (sys_world s) /\ four_digit_year (w_now (sys_world s)) /\
  forall q, sys_lease s q = None.

Lemma inv_initial s : initial s -> inv s.
Proof.
  intros ([Hp Hc] & Hy & Hl). split; [done|]. split; [by split; [|left]|].
  intros q l Hq. by rewrite Hl in Hq.
Qed.

Lemma inv_reachable s s' : initial s -> rtc sys_step s s' -> inv s'.
Proof.
  intros Hi%inv_initial Hs. induction Hs as [|s1 s2 s3 H12 _ IH]; [done|].
  by apply IH, (inv_step s1).
Qed.

(** A lease its process may still act on. *)
Definition current (w : world) (l : lease) : Prop :=
  reclaimable w (l_record l) STREAM_OWNER_STALE_MS = false.

Lemma current_valid s q l :
  inv s -> sys_lease s q = Some l -> current (sys_world s) l -> valid (sys_world s) l.
Proof.
  intros (_ & _ & Hl) Hq Hcur. destruct (Hl _ _ Hq) as (_ & _ & _ & [Hv|Hr]); [done|].
  unfold current in Hcur. congruence.
Qed.
End Protocol.

(** * Simultaneous creation

    Several processes call [tryCreateLease] for the same free lock at the same
    time, their file-system operations interleaving in any order.  Exactly one
    of them gets the lease: creation is decided by one atomic [mkdir], and the
    losers change nothing. *)

Section Race.
Context `{JsDate}.
Variable p : string.

Definition lock_held (w : world) : Prop :=
  is_Some (w_names w !! p) /\ w_names w !! takeoverPath p = None.

Definition lock_free (w : world) : Prop :=
  w_names w !! p = None /\ w_names w !! takeoverPath p = None.

(** A program that, while the lock is held, changes nothing and ends without
    a lease. *)
Fixpoint harmless (pr : io (option lease)) : Prop :=
  match pr with
  | Ret r => r = None
  | Throw _ => False
  | Vis op k => forall w, lock_held w ->
      (handle _ op w).2 = w /\ harmless (k (handle _ op w).1)
  end.

(** A program that, run from [w], ends with a lease and keeps the lock held
    after each of its operations. *)
Fixpoint winning (pr : io (option lease)) (w : world) : Prop :=
  match pr with
  | Ret r => is_Some r
  | Throw _ => False
  | Vis op k => lock_held (handle _ op w).2 /\
      winning (k (handle _ op w).1) (handle _ op w).2
  end.

(** The program after its first test, which found no claim. *)
Definition tested (deps : owner_deps) : io (option lease) :=
  default (Ret None) (fst <$> pstep handle (tryCreateLease p deps) (World ∅ ∅ 0 0 ∅ ∅)).

Lemma handle_access_absent w q :
  w_names w !! q = None -> handle _ (Access q) w = (inl (Errno ENOENT), w).
Proof. intros Hq. cbn [handle]. by rewrite Hq. Qed.

Lemma tested_step w deps :
  w_names w !! takeoverPath p = None ->
  pstep handle (tryCreateLease p deps) w = Some (tested deps, w).
Proof.
  intros Hc. unfold tested, tryCreateLease, pathExists, perform, attempt.
  cbn [pbind pcatch pstep fmap option_fmap option_map default].
  by rewrite !handle_access_absent.
Qed.

Lemma tested_is_mkdir deps :
  exists k, tested deps = Vis (Mkdir p) k /\ k (inl (Errno EEXIST)) = Ret None.
Proof. eexists. split; [reflexivity|]. reflexivity. Qed.

Lemma tested_harmless deps : harmless (tested deps).
Proof.
  destruct (tested_is_mkdir deps) as (k & -> & Hk). cbn [harmless].
  intros w [[i Hi] _]. cbn [handle]. rewrite Hi. cbn. by rewrite Hk.
Qed.

Lemma tryCreateLease_harmless deps : harmless (tryCreateLease p deps).
Proof.
  destruct (tryCreateLease p deps) as [| |X op k] eqn:E; [discriminate E..|].
  cbn [harmless]. intros w [_ Hc].
  pose proof (tested_step w deps Hc) as Hs. rewrite E in Hs. cbn [pstep] in Hs.
  destruct (handle X op w) as [x w']. injection Hs as Hk ->. cbn. split; [done|].
  rewrite Hk. apply tested_harmless.
Qed.

(** ** The winner *)

(** [winning] is closed under sequencing with a prefix that keeps the lock. *)
Fixpoint keeping {A} (pr : io A) (w : world) (Q : A -> world -> Prop) : Prop :=
  match pr with
  | Ret a => Q a w
  | Throw _ => False
  | Vis op k => lock_held (handle _ op w).2 /\
      keeping (k (handle _ op w).1) (handle _ op w).2 Q
  end.

Lemma winning_bind {A} (pr : io A) (f : A -> io (option lease)) w :
  keeping pr w (fun a w' => winning (f a) w') -> winning (pbind pr f) w.
Proof.
  revert w. induction pr as [a|e|X op k IH]; intros w; cbn; [done..|].
  intros [Hl Hk]. split; [done|]. by apply IH.
Qed.

Lemma keeping_bind {A B} (pr : io A) (f : A -> io B) w Q :
  keeping pr w (fun a w' => keeping (f a) w' Q) -> keeping (pbind pr f) w Q.
Proof.
  revert w. induction pr as [a|e|X op k IH]; intros w; cbn; [done..|].
  intros [Hl Hk]. split; [done|]. by apply IH.
Qed.

Lemma keeping_attempt {A} (pr : io A) w Q :
  keeping pr w (fun a w' => Q (inr a) w') -> keeping (attempt pr) w Q.
Proof.
  unfold attempt. revert w. induction pr as [a|e|X op k IH]; intros w; cbn; [done..|].
  intros [Hl Hk]. split; [done|]. by apply IH.
Qed.

(** One operation that answers [x]. *)
Lemma keeping_perform {X} (op : fs_op (js_error + X)) w x w' Q :
  handle _ op w = (inr x, w') -> lock_held w' -> Q x w' -> keeping (perform op) w Q.
Proof. intros Hh Hl HQ. unfold perform. cbn. rewrite Hh. by split. Qed.

(** [pathExists] of a name that is absent. *)
Lemma keeping_absent w q (Q : bool -> world -> Prop) :
  w_names w !! q = None -> lock_held w -> Q false w ->
  keeping (attempt (perform (Access q))) w
    (fun r w' => keeping match r with
      | inr _ => Ret true
      | inl e => if has_code ENOENT e then Ret false else Throw e
      end w' Q).
Proof. intros Hq Hl HQ. unfold attempt, perform. cbn. rewrite Hq. by split. Qed.

Lemma keeping_writeRecord w i d r Q :
  holds w p i d -> w_names w !! takeoverPath p = None -> d_files d !! tmp_of r = None ->
  Q tt (set_files w i (<[OWNER_FILE := Json (json_of_record r)]> (d_files d))) ->
  keeping (writeRecord p r) w Q.
Proof.
  intros Hh Hc Ht HQ. pose proof (run_writeRecord w p i d r Hh) as Hrun.
  assert (Hheld : forall fs, lock_held (set_files w i fs)) by (intros fs; split; [by eexists; apply Hh|done]).
  unfold writeRecord in *. fold (tmp_of r) in *. apply keeping_bind.
  eapply keeping_perform; [by apply (run_write_new w p i d)|done|].
  rewrite run_bind, run_perform, (run_write_new w p i d _ _ _ Hh Ht) in Hrun.
  rewrite run_perform in Hrun. destruct (handle _ _ _) as [[e|[]] w1] eqn:E in Hrun; simplify_eq.
  rewrite delete_id in E by done. by eapply keeping_perform.
Qed.

Lemma keeping_readBoundOwner w i d Q :
  holds w p i d -> w_names w !! takeoverPath p = None ->
  Q (Some (BoundOwner (d_files d !! OWNER_FILE) (stat_of w i d))) w ->
  is_Some (d_files d !! OWNER_FILE) ->
  keeping (readBoundOwner p) w Q.
Proof.
  intros Hh Hc HQ [c Hf]. pose proof (holds_resolve _ _ _ _ Hh) as Hr.
  assert (Hheld : lock_held w) by (split; [by eexists; apply Hh|done]).
  unfold readBoundOwner. cbn [readBoundOwner_loop]. apply keeping_bind.
  unfold readBoundOwner_once. apply keeping_bind, keeping_attempt.
  eapply keeping_perform; [cbn [handle]; by rewrite (proj1 Hh)|done|].
  unfold pfinally. apply keeping_bind, keeping_attempt, keeping_bind.
  eapply keeping_perform; [reflexivity|done|].
  apply keeping_bind, keeping_attempt.
  eapply keeping_perform; [cbn [handle]; rewrite Hr, Hf; reflexivity|done|].
  apply keeping_bind, keeping_attempt.
  eapply keeping_perform; [cbn [handle]; rewrite Hr; reflexivity|done|].
  cbn [pbind]. apply keeping_bind. eapply keeping_perform; [reflexivity|done|].
  cbn [keeping]. apply keeping_bind. eapply keeping_perform; [reflexivity|done|].
  unfold sameIdentity. cbn [identity_of st_dev st_ino stat_of fst snd].
  rewrite Z.eqb_refl, Pos.eqb_refl. cbn [andb keeping]. by rewrite <- Hf.
Qed.

Lemma tested_wins w deps :
  lock_free w -> record_ok (makeRecord deps (w_now w)) ->
  exists k, tested deps = Vis (Mkdir p) k /\
    lock_held (handle _ (Mkdir p) w).2 /\
    winning (k (handle _ (Mkdir p) w).1) (handle _ (Mkdir p) w).2.
Proof.
  intros [Hp Hc] Hok. unfold tested. eexists. split; [reflexivity|].
  cbn [handle]. rewrite Hp. cbn [ok fst snd].
  set (w1 := with_fs w _ _). set (i := new_ino w) in *.
  assert (Hh : holds w1 p i (Dir (w_now w) ∅)) by (split; apply lookup_insert_eq).
  assert (Hc1 : w_names w1 !! takeoverPath p = None)
    by (cbn; by rewrite lookup_insert_ne by (symmetry; apply takeoverPath_ne)).
  assert (Hheld : lock_held w1) by (split; [by eexists; apply Hh|done]).
  split; [done|]. cbn [pbind pcatch]. cbn [winning handle fst snd]. split; [done|].
  change (w_now w1) with (w_now w).
  set (r := makeRecord deps (w_now w)) in *.
  cbn [handle fst snd pbind]. change (w_now w1) with (w_now w). fold r.
  pose (d2 := Dir (w_now w) {[OWNER_FILE := Json (json_of_record r)]}).
  pose (w2 := set_files w1 i {[OWNER_FILE := Json (json_of_record r)]}).
  assert (Hh2 : holds w2 p i d2) by (by apply (set_files_holds w1 p i (Dir (w_now w) ∅))).
  apply winning_bind, keeping_attempt, keeping_bind. unfold writeLeaseRecord.
  apply (keeping_writeRecord w1 i (Dir (w_now w) ∅)); [done..|].
  cbn [d_files]. rewrite insert_empty. fold w2.
  apply keeping_bind. unfold pathExists. apply keeping_bind.
  apply keeping_absent; [done|done|]. cbn [keeping].
  apply winning_bind. apply (keeping_readBoundOwner w2 i d2); [done..| |];
    [|by eexists; apply lookup_singleton_eq].
  unfold d2. cbn [d_files]. rewrite lookup_singleton_eq. cbn [bound_record raw_truthy].
  rewrite parse_json_of_record, sameOwner_refl by done. by eexists.
Qed.

(** ** Any interleaving *)

Definition waiting (deps : owner_deps) (pr : io (option lease)) : Prop :=
  pr = tryCreateLease p deps \/ pr = tested deps.

Variables (ps0 : list owner_deps) (w0 : world).
Hypothesis Hfree : lock_free w0.
Hypothesis Hok : Forall (fun deps => record_ok (makeRecord deps (w_now w0))) ps0.

Definition race_start : list (io (option lease)) := tryCreateLease p <$> ps0.

(** Before the first [mkdir] nobody has changed anything; after it one process
    is bound to win and the others to lose. *)
Inductive race_inv : list (io (option lease)) * world -> Prop :=
| race_open ps :
    Forall2 waiting ps0 ps -> race_inv (ps, w0)
| race_decided ps w o pr :
    lock_held w -> ps !! o = Some pr -> winning pr w ->
    (forall i pr', i <> o -> ps !! i = Some pr' -> harmless pr') ->
    race_inv (ps, w).

Lemma waiting_harmless deps pr : waiting deps pr -> harmless pr.
Proof. intros [->| ->]; [apply tryCreateLease_harmless|apply tested_harmless]. Qed.

Lemma harmless_step pr w pr' w' :
  harmless pr -> lock_held w -> pstep handle pr w = Some (pr', w') -> w' = w /\ harmless pr'.
Proof.
  destruct pr as [| |X op k]; [done..|]. cbn. intros Hh Hl Hs.
  destruct (Hh w Hl) as [Hw Hk]. destruct (handle X op w) as [x w1]. by simplify_eq/=.
Qed.

Lemma winning_step pr w pr' w' :
  winning pr w -> pstep handle pr w = Some (pr', w') -> lock_held w' /\ winning pr' w'.
Proof.
  destruct pr as [| |X op k]; [done..|]. cbn. intros [Hl Hw] Hs.
  destruct (handle X op w) as [x w1]. by simplify_eq/=.
Qed.

Lemma race_open_step ps i pr pr' w' :
  Forall2 waiting ps0 ps -> ps !! i = Some pr -> pstep handle pr w0 = Some (pr', w') ->
  race_inv (<[i := pr']> ps, w').
Proof.
  intros Hw Hi Hs. destruct (Forall2_lookup_r _ _ _ _ _ Hw Hi) as (deps & Hd & [->| ->]).
  - rewrite tested_step in Hs by apply Hfree. simplify_eq.
    apply race_open. rewrite <- (list_insert_id ps0 i deps) by done.
    apply Forall2_insert; [done|by right].
  - destruct (tested_wins w0 deps Hfree) as (k & Hk & Hl & Hwin);
      [by eapply (Forall_lookup_1 _ _ _ _ Hok)|].
    rewrite Hk in Hs. cbn [pstep] in Hs. destruct (handle _ (Mkdir p) w0) as [x w1].
    cbn in Hl, Hwin. simplify_eq. apply race_decided with (o := i) (pr := k x); [done| |done|].
    + apply list_lookup_insert_eq. by eapply lookup_lt_Some.
    + intros j pr'' Hne Hj. rewrite list_lookup_insert_ne in Hj by done.
      destruct (Forall2_lookup_r _ _ _ _ _ Hw Hj) as (deps' & _ & Hw').
      by apply (waiting_harmless deps').
Qed.

Lemma race_inv_step s s' : race_inv s -> pool_step handle s s' -> race_inv s'.
Proof.
  intros Hinv Hstep. destruct Hstep as [ps i pr pr' w w' Hi Hs].
  inversion Hinv as [ps1 Hw|ps1 w1 o pr0 Hl Ho Hwin Hothers]; subst;
    [by eapply race_open_step|].
  destruct (decide (i = o)) as [->|Hne].
  - rewrite Ho in Hi. simplify_eq. destruct (winning_step _ _ _ _ Hwin Hs) as [Hl' Hwin'].
    apply race_decided with (o := o) (pr := pr'); [done| |done|].
    + apply list_lookup_insert_eq. by eapply lookup_lt_Some.
    + intros j pr'' Hj. rewrite list_lookup_insert_ne by done. by apply Hothers.
  - destruct (harmless_step _ _ _ _ (Hothers _ _ Hne Hi) Hl Hs) as [-> Hh].
    apply race_decided with (o := o) (pr := pr0); [done| |done|].
    + by rewrite list_lookup_insert_ne.
    + intros j pr'' Hj. destruct (decide (j = i)) as [->|Hji].
      * rewrite list_lookup_insert_eq by (by eapply lookup_lt_Some). intros; by simplify_eq.
      * rewrite list_lookup_insert_ne by done. by apply Hothers.
Qed.

Lemma race_reachable s : rtc (pool_step handle) (race_start, w0) s -> race_inv s.
Proof.
  intros Hs. remember (race_start, w0) as s0 eqn:E.
  assert (Hinv : race_inv s0).
  { rewrite E. apply race_open. unfold race_start.
    apply Forall2_fmap_r, Forall_Forall2_diag, Forall_true. intros deps. by left. }
  clear E. induction Hs as [|s1 s2 s3 H12 _ IH]; [done|]. by apply IH, (race_inv_step s1).
Qed.

Lemma race_inv_unique ps w i j l1 l2 :
  race_inv (ps, w) -> ps !! i = Some (Ret (Some l1)) -> ps !! j = Some (Ret (Some l2)) -> i = j.
Proof.
  intros Hinv Hi Hj. inversion Hinv as [ps1 Hw|ps1 w1 o pr0 Hl Ho Hwin Hothers]; subst.
  - destruct (Forall2_lookup_r _ _ _ _ _ Hw Hi) as (deps & _ & [Hd|Hd]); discriminate Hd.
  - destruct (decide (i = o)) as [->|Hio]; [|by pose proof (Hothers _ _ Hio Hi)].
    destruct (decide (j = o)) as [->|Hjo]; [done|by pose proof (Hothers _ _ Hjo Hj)].
Qed.

Lemma race_inv_winner ps w :
  ps0 <> [] -> race_inv (ps, w) -> Forall (fun pr => finished pr = true) ps ->
  exists i l, ps !! i = Some (Ret (Some l)).
Proof.
  intros Hne Hinv Hfin. inversion Hinv as [ps1 Hw|ps1 w1 o pr0 Hl Ho Hwin Hothers]; subst.
  - destruct ps0 as [|deps ds]; [done|]. apply Forall2_cons_inv_l in Hw as (pr & ps' & Hd & _ & ->).
    apply Forall_cons_1 in Hfin as [Hf _]. destruct Hd as [->| ->]; discriminate Hf.
  - pose proof (Forall_lookup_1 _ _ _ _ Hfin Ho) as Hf.
    destruct pr0 as [[l|]|e|X op k]; [by eauto|by destruct Hwin|done|done].
Qed.
End Race.
