(* ===== verification/LeaseSpec.v ===== *)
(** * What the stream lease guarantees

    The properties of [src/stream-owner.ts], each with an instance.  Exclusion is
    proved for operations that do not overlap, the race of simultaneous creators
    for every interleaving of their file operations; a run in which a refresh and
    an acquisition overlap and both end with a current lease is at the end. *)

From stdpp Require Import pretty.
From S2P Require Import Prelude JsDate Effects LeaseFs StreamOwner LeaseRuns LeaseOps LeaseProtocol.

Open Scope Z_scope.

(** ** Helper equations: claims left behind and unreadable records *)

Section Recovery.
Context `{JsDate}.

Definition claim_marker (deps : owner_deps) (t : Z) : content := Json (claimant_json deps t).

Lemma claimant_json_round_trip deps t :
  deps_ok deps = true -> four_digit_year t ->
  json_parse (claim_marker deps t) ≫= claimant_of_json =
  Some (Claimant (own_pid deps) (to_iso t)).
Proof.
  unfold deps_ok. intros Hd Ht. pose proof (to_iso_timestamp t Ht) as Hiso. bool_to_prop.
  unfold claim_marker. cbn [json_parse mbind option_bind]. unfold claimant_of_json.
  match goal with |- (if ?b then _ else _) = _ => assert (b = true) as -> end; [|done].
  do 3 (apply andb_true_intro; split; [|assumption]). by apply bool_decide_eq_true_2.
Qed.

(** Whether a claim found at the takeover path is still somebody's. *)
Definition claim_held (w : world) (pid t : Z) : bool :=
  (w_now w - t <=? STREAM_OWNER_TAKEOVER_STALE_MS) && pid_alive w pid.

(** The claim: inode [i] under the takeover path, record [r], marker of
    [claimer] at [t]. *)
Record abandoned (w : world) (p : string) (i : positive) (d : dir) (r : owner_record)
    (claimer : owner_deps) (t : Z) : Prop := {
  ab_holds : holds w (takeoverPath p) i d;
  ab_record : d_files d !! OWNER_FILE = Some (Json (json_of_record r));
  ab_ok : record_ok r;
  ab_marker : d_files d !! TAKEOVER_FILE = Some (claim_marker claimer t);
  ab_claimer : deps_ok claimer = true;
  ab_time : four_digit_year t;
  ab_free : w_names w !! p = None
}.

Definition restored (w : world) (p : string) (i : positive) (d : dir) : world :=
  with_fs (set_files w i (delete TAKEOVER_FILE (d_files d)))
    (<[p := i]> (delete (takeoverPath p) (w_names w)))
    (w_dirs (set_files w i (delete TAKEOVER_FILE (d_files d)))).

Lemma run_recover w p i d r claimer t staleMs deps :
  abandoned w p i d r claimer t -> honest_probe deps ->
  runw (recoverTakeoverClaim p staleMs deps) w =
  if claim_held w (own_pid claimer) t then (Done false, w)
  else if reclaimable w r staleMs then
    (Done true, with_fs w (delete (takeoverPath p) (w_names w)) (delete i (w_dirs w)))
  else (Done false, restored w p i d).
Proof.
  intros [Hh Hf Hok Hm Hcl Ht Hp] Hprobe. pose proof (holds_resolve _ _ _ _ Hh) as Hr.
  unfold recoverTakeoverClaim. rewrite run_bind, run_attempt, run_perform.
  cbn [handle]. rewrite Hr. cbn [ok]. unfold now_ms. rewrite run_bind, run_ask. cbn [handle].
  rewrite run_bind, run_attempt, run_perform. cbn [handle]. rewrite Hr, Hm. cbn [ok].
  rewrite claimant_json_round_trip by done. cbn [c_claimedAt c_pid].
  rewrite date_parse_to_iso by done. unfold claim_held.
  assert (Hrest : runw (let! owner := readOwnershipRecord (takeoverPath p) in
       let! reclaimable :=
         match owner with
         | None => Ret true
         | Some o =>
             if jnum_gt (heartbeat_age (w_now w) (r_heartbeatAt o)) (Fin staleMs) then Ret true
             else let! alive := isPidAlive (r_pid o) deps in Ret (negb alive)
         end in
       if reclaimable : bool then do! perform (RmRf (takeoverPath p)); Ret true
       else
         do! unlink_marker (takeoverPath p);
         let! back := attempt (perform (Rename (takeoverPath p) p)) in
         match back with
         | inr _ => Ret false
         | inl e =>
             if negb (has_code EEXIST e) && negb (has_code ENOTEMPTY e) then Throw e
             else do! perform (RmRf (takeoverPath p)); Ret false
         end)%prog w =
     if reclaimable w r staleMs then
       (Done true, with_fs w (delete (takeoverPath p) (w_names w)) (delete i (w_dirs w)))
     else (Done false, restored w p i d)).
  { rewrite run_bind, run_readOwnershipRecord, Hr. cbn [mbind option_bind snd]. rewrite Hf.
    cbn [mbind option_bind]. rewrite parse_json_of_record by done.
    unfold reclaimable. rewrite run_bind.
    destruct (jnum_gt _ _); cbn [run orb].
    - rewrite run_bind, run_perform. cbn [handle]. by rewrite (proj1 Hh).
    - rewrite run_bind, Hprobe. cbn [run]. destruct (pid_alive w (r_pid r)); cbn [negb].
      + rewrite run_bind, (run_unlink_marker _ _ _ _ _ Hh Hm).
        rewrite run_bind, run_attempt, run_perform. cbn [handle].
        change (w_names (set_files w i ?f)) with (w_names w). rewrite (proj1 Hh).
        by rewrite absent_resolve.
      + rewrite run_bind, run_perform. cbn [handle]. by rewrite (proj1 Hh). }
  rewrite run_bind. destruct (_ <=? _); cbn [andb].
  - rewrite Hprobe. destruct (pid_alive w (own_pid claimer)); [done|]. exact Hrest.
  - exact Hrest.
Qed.

(** Where a failed start is set aside. *)
Definition cleanup_path (p : string) (deps : owner_deps) (now : Z) : string :=
  p +:+ ".failed-" +:+ dp_nonce deps +:+ "-" +:+ pretty now.

Lemma cleanup_path_ne p deps now : cleanup_path p deps now <> p.
Proof.
  unfold cleanup_path. intros Hp. apply (f_equal String.length) in Hp.
  rewrite append_length in Hp. simpl in Hp. lia.
Qed.

Lemma fresh_ino w : w_dirs w !! new_ino w = None.
Proof. unfold new_ino. apply not_elem_of_dom. apply (is_fresh (dom (w_dirs w))). Qed.

Lemma run_cleanup w p r deps :
  w_names w !! p = None ->
  w_names w !! cleanup_path p deps (w_now w) = None ->
  r = makeRecord deps (w_now w) -> parseOwnershipRecord (Json (json_of_record r)) = None ->
  runw (cleanup_quietly p r) (created w p r) = (Done tt, w).
Proof.
  intros Hp Hcl Hr Hbad. pose proof (cleanup_path_ne p deps (w_now w)) as Hne.
  unfold cleanup_quietly. rewrite run_bind, run_attempt. unfold cleanupFailedInitialization, now_ms.
  rewrite run_bind, run_ask. cbn [handle]. change (w_now (created w p r)) with (w_now w).
  set (cp := cleanup_path p deps (w_now w)) in *.
  assert (p +:+ ".failed-" +:+ r_processNonce r +:+ "-" +:+ pretty (w_now w) = cp) as ->
    by (by rewrite Hr).
  rewrite run_bind, run_attempt, run_perform. cbn [handle].
  rewrite (proj1 (created_holds w p r)).
  rewrite absent_resolve by (cbn; by rewrite lookup_insert_ne by done). cbn [ok].
  rewrite run_bind, run_readOwnershipRecord. unfold resolve. cbn [w_names w_dirs with_fs].
  rewrite lookup_insert_eq. cbn [mbind option_bind]. cbn [created w_dirs with_fs].
  rewrite lookup_insert_eq. cbn [mbind option_bind snd d_files]. rewrite lookup_singleton_eq.
  cbn [mbind option_bind]. rewrite Hbad. rewrite run_perform. cbn [handle with_fs w_names].
  rewrite lookup_insert_eq. cbn [ok run]. f_equal.
  transitivity (with_fs w (w_names w) (w_dirs w)); [|apply with_fs_id].
  unfold created, with_fs. cbn. f_equal.
  - rewrite delete_insert_id by (rewrite lookup_delete_ne, lookup_insert_ne by done; done).
    by rewrite delete_insert_id.
  - rewrite delete_insert_id; [done|apply fresh_ino].
Qed.

Lemma run_tryCreateLease_unreadable w p deps :
  w_names w !! p = None -> w_names w !! takeoverPath p = None ->
  w_names w !! cleanup_path p deps (w_now w) = None ->
  isRecord (json_of_record (makeRecord deps (w_now w))) = false ->
  runw (tryCreateLease p deps) w =
  (Failed (JsError "Borg stream lease initialization lost ownership"), w).
Proof.
  intros Hp Hc Hcl Hbad. unfold tryCreateLease. rewrite run_bind, run_pathExists, Hc.
  rewrite bool_decide_eq_false_2 by (intros [? ?]; done).
  run_with Hp. unfold now_ms. run_simpl. cbn [w_now with_fs].
  set (r := makeRecord deps (w_now w)) in *. set (i := new_ino w). set (w1 := with_fs w _ _).
  assert (Hh : holds w1 p i (Dir (w_now w) ∅)) by (split; apply lookup_insert_eq).
  unfold writeLeaseRecord. rewrite (run_writeRecord w1 p i _ r Hh). cbn [d_files].
  rewrite delete_empty, insert_empty.
  assert (Hw : set_files w1 i {[OWNER_FILE := Json (json_of_record r)]} = created w p r).
  { unfold set_files, created, w1, with_fs. cbn. by rewrite insert_insert_eq. }
  rewrite Hw. rewrite run_bind, run_pathExists.
  replace (w_names (created w p r) !! takeoverPath p) with (@None positive)
    by (cbn; by rewrite lookup_insert_ne by (symmetry; apply takeoverPath_ne)).
  rewrite bool_decide_eq_false_2 by (intros [? ?]; done). run_simpl.
  rewrite (run_readBoundOwner _ _ _ _ (created_holds w p r)).
  assert (Hparse : parseOwnershipRecord (Json (json_of_record r)) = None)
    by (unfold parseOwnershipRecord; cbn [json_parse]; by rewrite Hbad).
  cbn [d_files]. rewrite lookup_singleton_eq. cbn [bound_record raw_truthy]. rewrite Hparse.
  by rewrite run_bind, (run_cleanup w p r deps).
Qed.
End Recovery.

(** ** The properties *)

(** C2. As long as no two operations on the lease overlap in time - each acquisition,
    refresh or release runs from its first file operation to its last before
    another process begins one - whatever sequence of them, of process deaths and
    delays any number of processes go through, at most one process holds a lease
    that is still current: younger than [STREAM_OWNER_STALE_MS] and held by a live
    process.  It is not so for operations that overlap: two processes share a
    current lease in [LeaseExample.overlapping_refresh_shares_the_lease]. *)
Theorem stream_lease_exclusive `{JsDate} {P : Type} `{EqDecision P}
    (deps_of : P -> owner_deps) (cubeId droneId locksDir p : string) :
  streamLockPath cubeId droneId locksDir = inr p ->
  (forall q, deps_ok (deps_of q) = true) ->
  (forall q, honest_probe (deps_of q)) ->
  (forall q1 q2, own_pid (deps_of q1) = own_pid (deps_of q2) ->
     dp_nonce (deps_of q1) = dp_nonce (deps_of q2) -> q1 = q2) ->
  forall s s', initial p s -> rtc (sys_step deps_of cubeId droneId locksDir) s s' ->
  forall q1 q2 l1 l2,
    sys_lease s' q1 = Some l1 -> sys_lease s' q2 = Some l2 ->
    current (sys_world s') l1 -> current (sys_world s') l2 -> q1 = q2.
Proof.
  intros Hpath Hdeps Hprobe Hdist s s' Hi Hs q1 q2 l1 l2 H1 H2 Hc1 Hc2.
  pose proof (inv_reachable deps_of _ _ _ p Hpath Hdeps Hprobe Hdist s s' Hi Hs) as Hinv.
  destruct (current_valid deps_of p s' q1 l1 Hinv H1 Hc1) as (i1 & d1 & _ & Hp1).
  destruct (current_valid deps_of p s' q2 l2 Hinv H2 Hc2) as (i2 & d2 & _ & Hp2).
  destruct (published_unique p _ _ _ _ _ _ _ Hp1 Hp2) as (_ & _ & Heq).
  destruct Hinv as (_ & _ & Hl).
  destruct (Hl _ _ H1) as (_ & Ho1 & _). destruct (Hl _ _ H2) as (_ & Ho2 & _).
  rewrite Heq in Ho1. by apply (owned_unique deps_of Hdist q1 q2 (l_record l2)).
Qed.

(** A process whose lease is current is the owner on disk: the lock
    directory is the inode it created and holds exactly its record, so no
    takeover removed or replaced it. *)
Theorem stream_lease_current_is_published `{JsDate} {P : Type} `{EqDecision P}
    (deps_of : P -> owner_deps) (cubeId droneId locksDir p : string) :
  streamLockPath cubeId droneId locksDir = inr p ->
  (forall q, deps_ok (deps_of q) = true) ->
  (forall q, honest_probe (deps_of q)) ->
  (forall q1 q2, own_pid (deps_of q1) = own_pid (deps_of q2) ->
     dp_nonce (deps_of q1) = dp_nonce (deps_of q2) -> q1 = q2) ->
  forall s s', initial p s -> rtc (sys_step deps_of cubeId droneId locksDir) s s' ->
  forall q l, sys_lease s' q = Some l -> current (sys_world s') l ->
  exists i d, l_identity l = (w_dev (sys_world s'), i) /\
    published (sys_world s') p i d (l_record l).
Proof.
  intros Hpath Hdeps Hprobe Hdist s s' Hi Hs q l Hq Hc.
  pose proof (inv_reachable deps_of _ _ _ p Hpath Hdeps Hprobe Hdist s s' Hi Hs) as Hinv.
  exact (current_valid deps_of p s' q l Hinv Hq Hc).
Qed.

(** When any number of processes race to create a free lease, their file
    operations interleaving arbitrarily, at most one gets it, and once all have
    finished exactly one has. *)
Theorem stream_lease_single_creator `{JsDate} (p : string) (ps : list owner_deps) (w : world) :
  lock_free p w -> ps <> [] ->
  Forall (fun deps => record_ok (makeRecord deps (w_now w))) ps ->
  forall ps' w', rtc (pool_step handle) (tryCreateLease p <$> ps, w) (ps', w') ->
  (forall i j l1 l2, ps' !! i = Some (Ret (Some l1)) -> ps' !! j = Some (Ret (Some l2)) -> i = j) /\
  (Forall (fun pr => finished pr = true) ps' -> exists i l, ps' !! i = Some (Ret (Some l))).
Proof.
  intros Hfree Hne Hok ps' w' Hs.
  pose proof (race_reachable p ps w Hfree Hok _ Hs) as Hinv. split.
  - intros i j l1 l2 Hi Hj. by eapply race_inv_unique.
  - intros Hfin. by eapply race_inv_winner.
Qed.

(** [acquireStreamLease] on a lock nobody is claiming: a free lock is
    created with our record; a lock with a fresh record of a live process, or
    with our own, is refused and left untouched; a stale or dead owner's lock
    is replaced by ours. *)
Theorem stream_lease_acquire `{JsDate} (cubeId droneId locksDir p : string)
    (staleMs : Z) (deps : owner_deps) (w : world) :
  streamLockPath cubeId droneId locksDir = inr p ->
  deps_ok deps = true -> honest_probe deps -> four_digit_year (w_now w) ->
  let acquire := runw (acquireStreamLease cubeId droneId locksDir staleMs deps) w in
  let record := makeRecord deps (w_now w) in
  (unlocked p w -> acquire = (Done (Some (Lease p record (w_dev w, new_ino w))), created w p record)) /\
  (forall i d r, published w p i d r ->
     if is_own deps r || negb (reclaimable w r staleMs) then acquire = (Done None, w)
     else acquire = (Done (Some (Lease p record (w_dev w, new_ino (removed w p i)))),
                     created (removed w p i) p record)).
Proof.
  intros Hpath Hd Hprobe Hy. pose proof (makeRecord_ok deps (w_now w) Hd Hy) as Hok. split.
  - intros [Hp Hc]. by apply run_acquire_free.
  - intros i d r Hpub. destruct (is_own deps r || negb (reclaimable w r staleMs)) eqn:E.
    + by apply (run_acquire_held _ _ _ p staleMs deps Hpath w i d r).
    + apply orb_false_elim in E as [Ho Hr%negb_false_iff].
      by apply (run_acquire_reclaim _ _ _ p staleMs deps Hpath w i d r).
Qed.

(** [refresh]: the holder rewrites its heartbeat in place; a process whose
    directory or record was replaced is told so, and the successor's record and
    name are as they were. *)
Theorem stream_lease_refresh `{JsDate} (w : world) (p : string) (i : positive) (d : dir)
    (r : owner_record) (l : lease) (deps : owner_deps) :
  published w p i d r -> l_lockPath l = p -> four_digit_year (w_now w) ->
  let result := runw (refresh l deps) w in
  if decide (l_identity l = (w_dev w, i) /\ l_record l = r) then
    result.1 = Done (true, Lease p (with_heartbeat r (w_now w)) (w_dev w, i)) /\
    exists d', published result.2 p i d' (with_heartbeat r (w_now w))
  else
    result.1 = Done (false, l) /\ w_names result.2 = w_names w /\
    exists d', published result.2 p i d' r.
Proof.
  intros Hpub Hp Hy. cbv zeta. case_decide as Hours.
  - destruct Hours as [Hid Hr]. destruct l as [p' r' id]. cbn [l_lockPath l_record l_identity] in *. subst.
    rewrite (run_refresh_held _ _ _ _ _ _ Hpub). cbn [fst snd]. split; [done|].
    eexists. by apply (refreshed_published p w i d r).
  - rewrite run_refresh_mutate, Hp. cbv zeta.
    destruct (decide (l_identity l = (w_dev w, i))) as [Hid|Hid].
    + assert (Hr : l_record l <> r) by (intros Hr; by apply Hours).
      rewrite Hid, (run_mutate_other_record _ _ _ _ _ _ _ _ Hpub Hr). cbn [fst snd].
      split; [done|]. split; [done|]. eexists. by apply (touched_published p w i d r).
    + pose proof Hpub as [Hh _ _ _ Hc].
      rewrite (run_mutate_other_inode _ _ _ _ _ _ _ _ Hh Hc Hid). cbn [fst snd]. eauto.
Qed.

(** [release]: the holder's directory disappears; a process that no longer
    holds the lease removes nothing. *)
Theorem stream_lease_release `{JsDate} (w : world) (p : string) (i : positive) (d : dir)
    (r : owner_record) (l : lease) (deps : owner_deps) :
  published w p i d r -> l_lockPath l = p ->
  let result := runw (release l deps) w in
  result.1 = Done tt /\
  if decide (l_identity l = (w_dev w, i) /\ l_record l = r) then
    result.2 = removed w p i /\ unlocked p result.2
  else exists d', published result.2 p i d' r.
Proof.
  intros Hpub Hp. cbv zeta. pose proof Hpub as [Hh _ _ _ Hc]. case_decide as Hours.
  - destruct Hours as [Hid Hr]. destruct l as [p' r' id]. cbn [l_lockPath l_record l_identity] in *. subst.
    rewrite (run_release_held _ _ _ _ _ _ Hpub). cbn [fst snd]. split; [done|]. split; [done|].
    split; [apply lookup_delete_eq|]. cbn.
    by rewrite lookup_delete_ne by (symmetry; apply takeoverPath_ne).
  - rewrite run_release_mutate, Hp.
    destruct (decide (l_identity l = (w_dev w, i))) as [Hid|Hid].
    + assert (Hr : l_record l <> r) by (intros Hr; by apply Hours).
      rewrite Hid, (run_mutate_other_record _ _ _ _ _ _ _ _ Hpub Hr). cbn [fst snd].
      split; [done|]. eexists. by apply (touched_published p w i d r).
    + rewrite (run_mutate_other_inode _ _ _ _ _ _ _ _ Hh Hc Hid). cbn [fst snd]. eauto.
Qed.

(** A claim left behind by a process that died while it held the takeover
    path: a live claimer's recent claim blocks us; otherwise a stale or dead
    owner's directory is removed, and a live owner's directory is put back under
    the lock name. *)
Theorem stream_lease_recovers_claim `{JsDate} (w : world) (p : string) (i : positive) (d : dir)
    (r : owner_record) (claimer : owner_deps) (t staleMs : Z) (deps : owner_deps) :
  abandoned w p i d r claimer t -> honest_probe deps ->
  let result := runw (recoverTakeoverClaim p staleMs deps) w in
  if claim_held w (own_pid claimer) t then result = (Done false, w)
  else if reclaimable w r staleMs then
    result.1 = Done true /\ unlocked p result.2
  else
    result.1 = Done false /\
    exists d', published result.2 p i d' r.
Proof.
  intros Hab Hprobe. cbv zeta. rewrite (run_recover w p i d r claimer t) by done.
  destruct Hab as [Hh Hf Hok Hm Hcl Ht Hp].
  destruct (claim_held w (own_pid claimer) t); [done|].
  destruct (reclaimable w r staleMs); cbn [fst snd]; (split; [done|]).
  - split; cbn; [|apply lookup_delete_eq]. by rewrite lookup_delete_ne by apply takeoverPath_ne.
  - eexists. split.
    + split; [apply lookup_insert_eq|]. apply lookup_insert_eq.
    + cbn [d_files]. by rewrite lookup_delete_ne.
    + done.
    + apply lookup_delete_eq.
    + cbn. rewrite lookup_insert_ne by (symmetry; apply takeoverPath_ne). apply lookup_delete_eq.
Qed.

(** A process whose own record would not be readable (a working directory
    or label with control characters or beyond the length bounds) never gets
    the lease: creation fails and the file system is exactly as before. *)
Theorem stream_lease_unreadable_record `{JsDate} (w : world) (p : string) (deps : owner_deps) :
  unlocked p w -> w_names w !! cleanup_path p deps (w_now w) = None ->
  isRecord (json_of_record (makeRecord deps (w_now w))) = false ->
  runw (tryCreateLease p deps) w =
  (Failed (JsError "Borg stream lease initialization lost ownership"), w).
Proof. intros [Hp Hc] Hcl Hbad. by apply run_tryCreateLease_unreadable. Qed.

(** The record a process publishes reads back as that record, whoever reads
    it. *)
Theorem stream_owner_record_round_trip `{JsDate} (deps : owner_deps) (now : Z) :
  deps_ok deps = true -> four_digit_year now ->
  parseOwnershipRecord (Json (json_of_record (makeRecord deps now))) = Some (makeRecord deps now).
Proof. intros Hd Hy. by apply parse_json_of_record, makeRecord_ok. Qed.

(** ** Instances *)

Module LeaseExample.
Definition iso_only : JsDate := {| other_parse := fun _ => None |}.
#[local] Existing Instance iso_only.

Definition uuid := "01234567-89ab-cdef-0123-456789abcdef".
Definition t0 : Z := 1700000000000.
Definition deps_of (q : bool) : owner_deps :=
  OwnerDeps None (if q then 10 else 11) (if q then "nonce-a" else "nonce-b")
    "2023-11-14T22:13:20.000Z" "/home/drone" None (Some "drone-1") None None.
Definition path : string := "/locks/" +:+ uuid +:+ "/" +:+ uuid +:+ ".lock".
Definition world0 : world := World ∅ ∅ 1 t0 {[10; 11]} ∅.
Definition acquire (q : bool) (w : world) : outcome (option lease) * world :=
  runw (acquireStreamLease uuid uuid "/locks" STREAM_OWNER_STALE_MS (deps_of q)) w.

Definition system0 : system (P := bool) := System world0 (fun _ => None).
Definition system1 : system (P := bool) :=
  System (acquire true world0).2 (upd (fun _ => None) true (acquired (acquire true world0).1)).
Definition world1 : world := sys_world system1.
Definition record1 : owner_record := makeRecord (deps_of true) t0.
Definition lease1 : lease := Lease path record1 (1, 1%positive).
Definition dir1 : dir := Dir t0 {[OWNER_FILE := Json (json_of_record record1)]}.
(** The other process tries and is refused. *)
Definition system2 : system (P := bool) :=
  System (acquire false world1).2
    (upd (sys_lease system1) false (acquired (acquire false world1).1)).

Lemma path_ok : streamLockPath uuid uuid "/locks" = inr path.
Proof. reflexivity. Defined.

Lemma deps_of_ok q : deps_ok (deps_of q) = true.
Proof. by destruct q; vm_compute. Defined.

Lemma deps_of_honest q : honest_probe (deps_of q).
Proof. by apply default_probe_honest. Defined.

Lemma deps_of_distinct q1 q2 :
  own_pid (deps_of q1) = own_pid (deps_of q2) ->
  dp_nonce (deps_of q1) = dp_nonce (deps_of q2) -> q1 = q2.
Proof. by destruct q1, q2. Defined.

Lemma t0_ok : four_digit_year t0.
Proof. vm_compute. by split. Defined.

Lemma world0_unlocked : unlocked path world0.
Proof. by split. Defined.

Lemma system0_initial : initial path system0.
Proof. split; [exact world0_unlocked|]. split; [exact t0_ok|done]. Defined.

Lemma steps : rtc (sys_step deps_of uuid uuid "/locks") system0 system2.
Proof.
  apply (rtc_l _ _ system1); [|apply rtc_once].
  - apply do_acquire; [done|apply surjective_pairing].
  - apply (do_acquire deps_of uuid uuid "/locks" world1 (sys_lease system1) false);
      [done|apply surjective_pairing].
Defined.

Lemma lease1_held : sys_lease system2 true = Some lease1.
Proof. vm_compute. reflexivity. Defined.

Lemma lease1_current : current (sys_world system2) lease1.
Proof. vm_compute. reflexivity. Defined.

Lemma world1_published : published world1 path 1%positive dir1 record1.
Proof. split; [split|..]; vm_compute; reflexivity. Defined.

(** The lock of [world1] renamed to the takeover path by process 11, which
    then died. *)
Definition claim_dir : dir :=
  Dir t0 (<[TAKEOVER_FILE := claim_marker (deps_of false) t0]> (d_files dir1)).
Definition claimed_world (now : Z) : world :=
  World {[takeoverPath path := 1%positive]} {[1%positive := claim_dir]} 1 now {[10]} ∅.

Lemma claimed_abandoned :
  abandoned (claimed_world (t0 + 6000)) path 1%positive claim_dir record1 (deps_of false) t0.
Proof. split; [split|..]; vm_compute; try reflexivity. by split. Defined.

(** Operations of two processes that overlap: the holder's refresh has its
    directory at the takeover path while another process, which looked there
    before, creates the lock.  The refresh's [rename] replaces the new directory,
    still empty, and the other process writes its record into the holder's. *)
Fixpoint scheduled (turns : list nat) (ps : list (io (option lease))) (w : world) : list (io (option lease)) * world :=
  match turns with
  | [] => (ps, w)
  | i :: rest =>
      match ps !! i ≫= fun p => pstep handle p w with
      | Some (p', w') => scheduled rest (<[i := p']> ps) w'
      | None => (ps, w)
      end
  end.

Lemma scheduled_steps turns ps w : rtc (pool_step handle) (ps, w) (scheduled turns ps w).
Proof.
  revert ps w. induction turns as [|i rest IH]; intros ps w; [apply rtc_refl|]. cbn [scheduled].
  destruct (ps !! i) as [p|] eqn:Hi; [|apply rtc_refl]. cbn [mbind option_bind].
  destruct (pstep handle p w) as [[p' w']|] eqn:Hp; [|apply rtc_refl].
  eapply rtc_l; [by eapply pool_step_at|apply IH].
Qed.

Definition refreshing : io (option lease) :=
  let! r := refresh lease1 (deps_of true) in Ret (if r.1 then Some r.2 else None).
Definition acquiring : io (option lease) := acquireStreamLease uuid uuid "/locks" STREAM_OWNER_STALE_MS (deps_of false).
Definition overlap : list nat := replicate 3 1%nat ++ replicate 14 0%nat ++ [1%nat; 0%nat] ++ replicate 10 1%nat.
Definition overlapped : list (io (option lease)) * world := scheduled overlap [refreshing; acquiring] world1.

(** The lease a finished operation gave, when it is current. *)
Definition current_holder (i : nat) : option lease :=
  match overlapped.1 !! i with
  | Some (Ret (Some l)) => if reclaimable overlapped.2 (l_record l) STREAM_OWNER_STALE_MS then None else Some l
  | _ => None
  end.

Lemma overlapping_refresh_shares_the_lease :
  rtc (pool_step handle) ([refreshing; acquiring], world1) overlapped /\
  is_Some (current_holder 0) /\ is_Some (current_holder 1) /\ l_identity <$> current_holder 0 = l_identity <$> current_holder 1.
Proof. split; [apply scheduled_steps|]. vm_compute. eauto. Qed.

Definition bad_deps : owner_deps :=
  OwnerDeps None 10 "nonce-a" "2023-11-14T22:13:20.000Z"
    ("/home/" +:+ String (ascii_of_nat 10) "drone") None None None None.
End LeaseExample.

Section Witnesses.
Import LeaseExample.
#[local] Existing Instance iso_only.

Lemma stream_lease_exclusive_witness :
  sys_lease system2 true = Some lease1 /\ sys_lease system2 false = None /\ true = true.
Proof.
  split; [exact lease1_held|]. split; [vm_compute; reflexivity|].
  exact (stream_lease_exclusive deps_of uuid uuid "/locks" path path_ok deps_of_ok
    deps_of_honest deps_of_distinct system0 system2 system0_initial steps
    true true lease1 lease1 lease1_held lease1_held lease1_current lease1_current).
Defined.

Lemma stream_lease_current_is_published_witness :
  exists i d, l_identity lease1 = (w_dev (sys_world system2), i) /\
    published (sys_world system2) path i d (l_record lease1).
Proof.
  exact (stream_lease_current_is_published deps_of uuid uuid "/locks" path path_ok deps_of_ok
    deps_of_honest deps_of_distinct system0 system2 system0_initial steps
    true lease1 lease1_held lease1_current).
Defined.

(** Two racing creators, run one after the other. *)
Definition race0 : list (io (option lease)) := tryCreateLease path <$> [deps_of true; deps_of false].

Lemma race0_steps : exists ps' w', rtc (pool_step handle) (race0, world0) (ps', w') /\
  Forall (fun pr => finished pr = true) ps'.
Proof.
  destruct (run_is_steps handle (tryCreateLease path (deps_of true)) race0 0 world0
    (Done (Some lease1)) (runw (tryCreateLease path (deps_of true)) world0).2) as (p1 & H1 & ->);
    [reflexivity|vm_compute; reflexivity|].
  destruct (run_is_steps handle (tryCreateLease path (deps_of false)) (<[0%nat := Ret (Some lease1)]> race0) 1
    (runw (tryCreateLease path (deps_of true)) world0).2 (Done None)
    (runw (tryCreateLease path (deps_of true)) world0).2) as (p2 & H2 & ->);
    [reflexivity|vm_compute; reflexivity|].
  eexists _, _. split; [etrans; [exact H1|exact H2]|].
  by repeat constructor.
Defined.

Lemma stream_lease_single_creator_witness :
  exists ps' w', rtc (pool_step handle) (race0, world0) (ps', w') /\
    exists i l, ps' !! i = Some (Ret (Some l)).
Proof.
  destruct race0_steps as (ps' & w' & Hs & Hfin). exists ps', w'. split; [exact Hs|].
  apply (stream_lease_single_creator path [deps_of true; deps_of false] world0
    world0_unlocked (fun e => match e with end) ltac:(repeat constructor; vm_compute; reflexivity)
    ps' w' Hs). exact Hfin.
Defined.

Lemma stream_lease_acquire_witness :
  acquire false world0 =
    (Done (Some (Lease path (makeRecord (deps_of false) t0) (1, new_ino world0))),
     created world0 path (makeRecord (deps_of false) t0)) /\
  (if is_own (deps_of false) record1 || negb (reclaimable world1 record1 STREAM_OWNER_STALE_MS)
   then acquire false world1 = (Done None, world1) else False).
Proof.
  split.
  - apply (stream_lease_acquire uuid uuid "/locks" path STREAM_OWNER_STALE_MS (deps_of false) world0
      path_ok (deps_of_ok false) (deps_of_honest false) t0_ok). exact world0_unlocked.
  - exact (proj2 (stream_lease_acquire uuid uuid "/locks" path STREAM_OWNER_STALE_MS (deps_of false) world1
      path_ok (deps_of_ok false) (deps_of_honest false) t0_ok) _ _ _ world1_published).
Defined.

Lemma stream_lease_refresh_witness :
  let result := runw (refresh lease1 (deps_of true)) world1 in
  result.1 = Done (true, Lease path (with_heartbeat record1 t0) (1, 1%positive)) /\
  exists d', published result.2 path 1%positive d' (with_heartbeat record1 t0).
Proof.
  exact (stream_lease_refresh world1 path 1%positive dir1 record1 lease1 (deps_of true)
    world1_published eq_refl t0_ok).
Defined.

Lemma stream_lease_release_witness :
  let result := runw (release lease1 (deps_of true)) world1 in
  result.1 = Done tt /\ result.2 = removed world1 path 1%positive /\ unlocked path result.2.
Proof.
  exact (stream_lease_release world1 path 1%positive dir1 record1 lease1 (deps_of true)
    world1_published eq_refl).
Defined.

Lemma stream_lease_recovers_claim_witness :
  let result := runw (recoverTakeoverClaim path STREAM_OWNER_STALE_MS (deps_of true))
                  (claimed_world (t0 + 6000)) in
  result.1 = Done false /\ exists d', published result.2 path 1%positive d' record1.
Proof.
  exact (stream_lease_recovers_claim (claimed_world (t0 + 6000)) path 1%positive claim_dir record1
    (deps_of false) t0 STREAM_OWNER_STALE_MS (deps_of true) claimed_abandoned (deps_of_honest true)).
Defined.

Lemma stream_lease_unreadable_record_witness :
  runw (tryCreateLease path bad_deps) world0 =
  (Failed (JsError "Borg stream lease initialization lost ownership"), world0).
Proof.
  exact (stream_lease_unreadable_record world0 path bad_deps world0_unlocked eq_refl
    ltac:(vm_compute; reflexivity)).
Defined.

Lemma stream_owner_record_round_trip_witness :
  parseOwnershipRecord (Json (json_of_record record1)) = Some record1.
Proof. exact (stream_owner_record_round_trip (deps_of true) t0 (deps_of_ok true) t0_ok). Defined.
End Witnesses.
