(* ===== verification/RunLoop.v ===== *)
(** * The reconnect loop ([runLoop] of [src/log-stream.ts])

    One iteration - choose the seat, hold its lease, stream, decide what the end
    of the stream means - and the loop around it with its [finally].  A session is
    the program [streamOnce] itself, run inside the loop: its operations are among
    the loop's.  The two abort signals and the timer that refreshes the lease
    reach the loop as [OwnerLost], asked once the session is over. *)

From S2P Require Import Prelude JsDate JsonText Effects SseParser InboxLine StreamSession StreamSpec StreamAuthority.
From S2P Require Import LeaseFs StreamOwner.

Open Scope Z_scope.
Open Scope prog_scope.

Definition RECONNECT_MIN_MS : Z := 500.
Definition RECONNECT_MAX_MS : Z := 30000.

(** ** The status the probe reads

    Of the timestamps only whether they are set. *)

(* src/src/log-stream.ts 169-178 StreamStatus *)
Record stream_status := StreamStatus {
  ss_connected : bool;
  ss_wireActivity : bool;
  ss_contentEvent : bool;
  ss_heartbeat : bool;
  ss_lastPersistedEventId : option string;
  ss_reconnectAttempts : Z;
  ss_runLoopRestartCount : Z;
  ss_ownership : snapshot
}.

(* src/src/log-stream.ts 182-191 streamState *)
Definition initial_status : stream_status := StreamStatus false false false false None 0 0 unowned.

Definition set_connected (b : bool) (s : stream_status) : stream_status :=
  StreamStatus b (ss_wireActivity s) (ss_contentEvent s) (ss_heartbeat s) (ss_lastPersistedEventId s)
    (ss_reconnectAttempts s) (ss_runLoopRestartCount s) (ss_ownership s).
Definition set_ownership (o : snapshot) (s : stream_status) : stream_status :=
  StreamStatus (ss_connected s) (ss_wireActivity s) (ss_contentEvent s) (ss_heartbeat s) (ss_lastPersistedEventId s)
    (ss_reconnectAttempts s) (ss_runLoopRestartCount s) o.
Definition set_attempts (n : Z) (s : stream_status) : stream_status :=
  StreamStatus (ss_connected s) (ss_wireActivity s) (ss_contentEvent s) (ss_heartbeat s) (ss_lastPersistedEventId s)
    n (ss_runLoopRestartCount s) (ss_ownership s).
Definition set_restarts (n : Z) (s : stream_status) : stream_status :=
  StreamStatus (ss_connected s) (ss_wireActivity s) (ss_contentEvent s) (ss_heartbeat s) (ss_lastPersistedEventId s)
    (ss_reconnectAttempts s) n (ss_ownership s).

Inductive run_loop_health := HealthConnected | Reconnecting | SilentInert | NeverStarted.

(* src/src/log-stream.ts 197-202 classifyRunLoopHealth *)
Definition classifyRunLoopHealth (s : stream_status) (uptimeMs : Z) : run_loop_health :=
  if ss_connected s && ss_wireActivity s then HealthConnected
  else if negb (ss_connected s) && (0 <? ss_reconnectAttempts s) then Reconnecting
  else if negb (ss_connected s) && negb (ss_wireActivity s) && (ss_reconnectAttempts s =? 0) && (10000 <? uptimeMs)
       then SilentInert
  else NeverStarted.

(** What an operation of a session writes to the status, and the resume cursor the
    callback [(id) => { lastEventId = id }] keeps. *)
(* src/src/log-stream.ts 1080-1090 nowIso *)
Definition note {X} (op : stream_op X) (s : stream_status) : stream_status :=
  match op with
  | SetConnected b => set_connected b s
  | NoteActivity content heartbeat =>
      StreamStatus (ss_connected s) true (ss_contentEvent s || content) (ss_heartbeat s || heartbeat)
        (ss_lastPersistedEventId s) (ss_reconnectAttempts s) (ss_runLoopRestartCount s) (ss_ownership s)
  | OnEventId id =>
      StreamStatus (ss_connected s) (ss_wireActivity s) (ss_contentEvent s) (ss_heartbeat s) (Some id)
        (ss_reconnectAttempts s) (ss_runLoopRestartCount s) (ss_ownership s)
  | _ => s
  end.

Definition note_id {X} (op : stream_op X) (last_ : option string) : option string :=
  match op with OnEventId id => Some id | _ => last_ end.

(** ** Operations *)

Inductive loop_op : Type -> Type :=
| GetActiveCube : loop_op (js_error + option active_cube)
| Acquire (a : active_cube) : loop_op (js_error + option string)
| Release (lease : string) : loop_op (js_error + unit)
| Ownership (a : active_cube) : loop_op (js_error + snapshot)
| OwnerLost (lease : string) : loop_op bool
| InSession {X} (op : stream_op X) : loop_op X
| Jitter : loop_op Z
| SleepFor (ms : Z) : loop_op unit
| EnsureHeartbeat : loop_op unit
| StopHeartbeat : loop_op unit.

Definition looping := prog loop_op.

(** A session inside the loop: its outcome, and what it left in the two variables. *)
Fixpoint embed {A} (p : stream A) (last_ : option string) (st : stream_status)
    : looping (outcome A * option string * stream_status) :=
  match p with
  | Ret a => Ret (Done a, last_, st)
  | Throw e => Ret (Failed e, last_, st)
  | Vis op k => Vis (InSession op) (fun x => embed (k x) (note_id op last_) (note op st))
  end.

(** The variables of [runLoop]; a lease is kept with its key. *)
Record loop_state := LoopState {
  lp_attempt : nat;
  lp_lastEventId : option string;
  lp_streamKey : option string;
  lp_lease : option (string * string);
  lp_status : stream_status
}.

Definition loop_start (st : stream_status) : loop_state := LoopState 0 None None None st.

Definition with_lease (l : option (string * string)) (s : loop_state) : loop_state :=
  LoopState (lp_attempt s) (lp_lastEventId s) (lp_streamKey s) l (lp_status s).
Definition with_status (f : stream_status -> stream_status) (s : loop_state) : loop_state :=
  LoopState (lp_attempt s) (lp_lastEventId s) (lp_streamKey s) (lp_lease s) (f (lp_status s)).
Definition with_attempt (n : nat) (s : loop_state) : loop_state :=
  LoopState n (lp_lastEventId s) (lp_streamKey s) (lp_lease s) (set_attempts (Z.of_nat n) (lp_status s)).
Definition with_cursor (last_ : option string) (st : stream_status) (s : loop_state) : loop_state :=
  LoopState (lp_attempt s) last_ (lp_streamKey s) (lp_lease s) st.
Definition with_stream (key : string) (s : loop_state) : loop_state :=
  if bool_decide (lp_streamKey s = Some key) then s
  else LoopState (lp_attempt s) None (Some key) (lp_lease s) (lp_status s).

(** [`${active.cubeId}:${active.droneId}`] *)
Definition seat_key (a : active_cube) : string := ac_cubeId a +:+ ":" +:+ ac_droneId a.

(** Go round again, or leave the loop with an error. *)
Inductive verdict_of_loop := Again | Stop (e : js_error).

Definition terminal_stream_error : js_error :=
  ErrorOf "TerminalStreamError" None None "terminal local session state" [].

(** The variables survive a throw, for the [finally]. *)
Definition step_result : Type := loop_state * verdict_of_loop.

Definition try_op {X} (s : loop_state) (op : loop_op (js_error + X)) (k : X -> looping step_result)
    : looping step_result :=
  let! r := attempt (perform op) in
  match r with inl e => Ret (s, Stop e) | inr x => k x end.

(* src/src/log-stream.ts 382-384 streamReconnectDelay *)
Definition streamReconnectDelay (attempt : nat) (jitter : Z) : Z :=
  Z.min (RECONNECT_MIN_MS * 2 ^ Z.of_nat attempt) RECONNECT_MAX_MS + jitter.

Section Loop.
Context `{StreamEnv} `{JsDate}.
(** How many reads of a body a session may make. *)
Variable body_fuel : nat.

(** The lease is gone: another process has it, or its refresh failed. *)
Definition lost_lease (s : loop_state) : loop_state := with_status (set_connected false) (with_lease None s).

Definition release_quietly (s : loop_state) : looping unit :=
  match lp_lease s with
  | Some (l, _) => do! attempt (perform (Release l)); Ret tt
  | None => Ret tt
  end.

Definition publish_ownership (a : active_cube) (s : loop_state) (k : loop_state -> looping step_result) : looping step_result :=
  try_op s (Ownership a) (fun o => k (with_status (set_ownership o) s)).

(** No seat is selected. *)
(* src/src/log-stream.ts 505-518 runLoop *)
Definition idle (s : loop_state) : looping step_result :=
  let pause s :=
    do! ask StopHeartbeat;
    do! ask (SleepFor 5000);
    Ret (with_status (fun st => set_ownership unowned (set_connected false st)) s, Again) in
  match lp_lease s with
  | Some (l, _) => try_op s (Release l) (fun _ => pause (with_lease None s))
  | None => pause s
  end.

(** The seat of a failed session and the one selected now are different. *)
(* src/src/log-stream.ts 627-631 replacementChanged *)
Definition replacementChanged (a : active_cube) (replacement : option active_cube) : bool :=
  match replacement with
  | None => false
  | Some r => bool_decide (ac_credentialRef r <> ac_credentialRef a) ||
              negb (String.eqb (ac_cubeId r) (ac_cubeId a)) || negb (String.eqb (ac_droneId r) (ac_droneId a))
  end.

(** The session ended with the server's verdict. *)
(* src/src/log-stream.ts 622-651 runLoop *)
Definition final_error (a : active_cube) (err : js_error) (s : loop_state) : looping step_result :=
  do! match ac_credentialRef a with Some ref => ask (InSession (MarkSeatRejected ref)) | None => Ret tt end;
  let! replacement := attempt (perform GetActiveCube) in
  let dropped := with_status (set_connected false) (with_lease None s) in
  if replacementChanged a (match replacement with inr r => r | inl _ => None end) then
    do! release_quietly s;
    publish_ownership a dropped (fun s' => Ret (s', Again))
  else if instance_of "DroneEvictedError" err || instance_of "CubeDeletedError" err then
    do! release_quietly s;
    publish_ownership a dropped (fun s' => Ret (s', Stop terminal_stream_error))
  else Ret (s, Stop terminal_stream_error).

(** Any other error of the session. *)
(* src/src/log-stream.ts 652-660 runLoop *)
Definition reconnect_later (s : loop_state) : looping step_result :=
  let! jitter := ask Jitter in
  do! ask (SleepFor (streamReconnectDelay (lp_attempt s) jitter));
  Ret (with_attempt (S (lp_attempt s)) (with_status (set_connected false) s), Again).

(** The lease was lost while the session ran.  A failure to read the lock after a
    session that returned is caught once, by the branch for errors. *)
(* src/src/log-stream.ts 596-615 ownerLost *)
Definition owner_lost (a : active_cube) (returned : bool) (s : loop_state) : looping step_result :=
  let pause s := (do! ask (SleepFor 5000); Ret (s, Again)) in
  let again := publish_ownership a (lost_lease s) pause in
  if returned then
    let! o := attempt (perform (Ownership a)) in
    match o with inr o => pause (with_status (set_ownership o) (lost_lease s)) | inl _ => again end
  else again.

(** The session of one iteration, with the lease held. *)
(* src/src/log-stream.ts 562-661 runLoop *)
Definition session_step (a : active_cube) (l : string) (s : loop_state) : looping step_result :=
  publish_ownership a s (fun s =>
  let! (r, last_, st) := embed (streamOnce a body_fuel (lp_lastEventId s)) (lp_lastEventId s) (lp_status s) in
  let s := with_cursor last_ st s in
  let! ownerLost := ask (OwnerLost l) in
  match r with
  | Done _ => if (ownerLost : bool) then owner_lost a true s else Ret (with_attempt 0 s, Again)
  | Failed err =>
      if (ownerLost : bool) then owner_lost a false s
      else if gone err then final_error a err s
      else reconnect_later s
  end).

(** Nobody else may stream for this seat; a lease of the seat selected before is
    given back first. *)
(* src/src/log-stream.ts 534-560 runLoop *)
Definition lease_step (a : active_cube) (s : loop_state) : looping step_result :=
  let key := seat_key a in
  let acquire s :=
    match lp_lease s with
    | Some (l, _) => session_step a l s
    | None =>
        try_op s (Acquire a) (fun lease =>
        match lease with
        | Some l => session_step a l (with_lease (Some (l, key)) s)
        | None =>
            publish_ownership a (with_status (set_connected false) s) (fun s =>
            do! ask (SleepFor 5000);
            Ret (s, Again))
        end)
    end in
  match lp_lease s with
  | Some (l, k) =>
      if String.eqb k key then acquire s
      else try_op s (Release l) (fun _ => acquire (with_lease None s))
  | None => acquire s
  end.

(* src/src/log-stream.ts 502-533 runLoop *)
Definition iteration (s : loop_state) : looping step_result :=
  try_op s GetActiveCube (fun active =>
  match active with
  | None => idle s
  | Some a =>
      do! ask EnsureHeartbeat;
      lease_step a (with_stream (seat_key a) s)
  end).

(** At most [maxIterations] iterations, then the [finally]: the status, and the
    error the loop was left with. *)
(* src/src/log-stream.ts 487-667 runLoop *)
Fixpoint runLoop_from (maxIterations : nat) (s : loop_state) : looping (stream_status * option js_error) :=
  let finish s r := (do! release_quietly s; Ret (set_connected false (lp_status s), r)) in
  match maxIterations with
  | O => finish s None
  | S n =>
      let! (s', v) := iteration s in
      match v with
      | Again => runLoop_from n s'
      | Stop e => finish s' (Some e)
      end
  end.

Definition runLoop (maxIterations : nat) (st : stream_status) : looping (stream_status * option js_error) :=
  runLoop_from maxIterations (loop_start st).

(** [restarts] more runs at most; each of them has [maxIterations] iterations.
    Only the terminal error ends the whole. *)
(* src/src/log-stream.ts 351-365 runStreamLoopForever *)
Fixpoint runStreamLoopForever (restarts maxIterations : nat) (st : stream_status) : looping (stream_status * bool) :=
  let! (st', r) := runLoop maxIterations st in
  if match r with Some e => instance_of "TerminalStreamError" e | None => false end then Ret (st', true)
  else
    match restarts with
    | O => Ret (st', false)
    | S n =>
        do! ask (SleepFor 5000);
        runStreamLoopForever n maxIterations (set_restarts (ss_runLoopRestartCount st' + 1) st')
    end.

(** One session, only for the owner of the seat's lease. *)
(* src/src/log-stream.ts 1304-1336 streamOnceIfOwner *)
Definition streamOnceIfOwner (a : active_cube) (lastEventId : option string) (st : stream_status)
    : looping (stream_status * string) :=
  let! lease := perform (Acquire a) in
  match lease with
  | None =>
      let! o := perform (Ownership a) in
      Ret (set_ownership o (set_connected false st), "skipped")
  | Some l =>
      let! o := perform (Ownership a) in
      let! (r, _, st') := embed (streamOnce a body_fuel lastEventId) lastEventId (set_ownership o st) in
      do! perform (Release l);
      match r with Done _ => Ret (st', "streamed") | Failed e => Throw e end
  end.
End Loop.
