(* ===== verification/RunLoopSpec.v ===== *)
(** * What the reconnect loop promises

    It streams for a seat only with that seat's lease, never holds two leases and
    leaves none behind; it gives up only by the server's verdict; and it comes
    back from every outage short of it, with bounded waiting. *)

From S2P Require Import Prelude JsDate JsonText Effects SseParser InboxLine StreamSession StreamSpec StreamAuthority LeaseFs StreamOwner RunLoop.

Open Scope Z_scope.
Open Scope prog_scope.

Section LoopSpec.
Context `{StreamEnv} `{JsDate}.
Variable body_fuel : nat.

Local Abbreviation tr := (list (@entry loop_op)).

(** ** Sessions inside the loop *)

Definition inside (e : @entry stream_op) : @entry loop_op :=
  match e with Did op x => Did (InSession op) x end.

Lemma traces_embed {A} (p : stream A) last_ st t0 t (Q : A -> list (@entry stream_op) -> Prop) R :
  traces p t0 Q R ->
  traces (embed p last_ st) t
    (fun '(r, _, _) t' => exists u, t' = t ++ map inside u /\
       match r with Done a => Q a (t0 ++ u) | Failed e => R e (t0 ++ u) end)
    (fun _ _ => False).
Proof.
  revert last_ st t0 t. induction p as [a|e|X op k IH]; intros last_ st t0 t; cbn [traces embed].
  - intros Hq. exists []. by rewrite !app_nil_r.
  - intros Hr. exists []. by rewrite !app_nil_r.
  - intros Hp x. eapply traces_mono; [by apply (IH x _ _ (t0 ++ [Did op x]))| |done].
    intros [[r l'] st'] t' (u & -> & Hr). exists (Did op x :: u). split; [by rewrite <- app_assoc|].
    by rewrite <- app_assoc in Hr.
Qed.

(** ** One lease *)

(** The seat selected last; the lease that the loop has taken and neither tried to
    give back nor found lost; and the leases that it tried to give back in vain, which
    nobody refreshes any more.  All by the answers so far. *)
Record position := Position {
  at_seat : option string;
  at_lease : option (string * string);
  at_dropped : list string
}.

Definition after_entry (p : position) (e : @entry loop_op) : position :=
  match e with
  | Did op x =>
      match op in loop_op X return X -> position with
      | GetActiveCube => fun x => match x with
                                  | inr a => Position (seat_key <$> a) (at_lease p) (at_dropped p)
                                  | inl _ => p
                                  end
      | Acquire a => fun x => match x with inr (Some l) => Position (at_seat p) (Some (l, seat_key a)) (at_dropped p) | _ => p end
      | Release l => fun x => match x with
                              | inr _ => Position (at_seat p) None (at_dropped p)
                              | inl _ => Position (at_seat p) None (l :: at_dropped p)
                              end
      | OwnerLost _ => fun lost => if lost then Position (at_seat p) None (at_dropped p) else p
      | _ => fun _ => p
      end x
  end.

Definition position_of (t : tr) : position := fold_left after_entry t (Position None None []).

(** When an operation may be performed. *)
Definition permitted (p : position) (e : @entry loop_op) : Prop :=
  match e with
  | Did op _ =>
      match op with
      | Acquire a => at_lease p = None /\ at_seat p = Some (seat_key a)
      | InSession _ => exists l key, at_lease p = Some (l, key) /\ at_seat p = Some key
      | Release l => (exists key, at_lease p = Some (l, key)) \/ (at_lease p = None /\ l ∈ at_dropped p)
      | OwnerLost l => exists key, at_lease p = Some (l, key)
      | _ => True
      end
  end.

Definition disciplined (t : tr) : Prop :=
  forall t1 e t2, t = t1 ++ e :: t2 -> permitted (position_of t1) e.

Lemma disciplined_nil : disciplined [].
Proof. intros [|x t1] e t2; done. Qed.

Lemma disciplined_snoc t e : disciplined t -> permitted (position_of t) e -> disciplined (t ++ [e]).
Proof.
  intros Ht He t1 x t2 Heq. destruct t2 as [|y t2 _] using rev_ind.
  - by apply app_inj_tail in Heq as [<- <-].
  - rewrite app_comm_cons, app_assoc in Heq. apply app_inj_tail in Heq as [Heq _]. by eapply Ht.
Qed.

Lemma position_snoc t e : position_of (t ++ [e]) = after_entry (position_of t) e.
Proof. unfold position_of. by rewrite fold_left_app. Qed.

Definition here (p : position) (t : tr) : Prop := disciplined t /\ position_of t = p.

Lemma here_snoc p t e : here p t -> permitted p e -> here (after_entry p e) (t ++ [e]).
Proof. intros [Hd <-] He. split; [by apply disciplined_snoc|apply position_snoc]. Qed.

Lemma here_ask {X} (op : loop_op X) p t Q R :
  here p t -> (forall x, permitted p (Did op x)) -> (forall x t', here (after_entry p (Did op x)) t' -> Q x t') ->
  traces (ask op) t Q R.
Proof. intros Hh Hp HQ. apply traces_ask. intros x. by apply HQ, here_snoc. Qed.

Lemma here_attempt {X} (op : loop_op (js_error + X)) p t Q R :
  here p t -> (forall x, permitted p (Did op x)) -> (forall x t', here (after_entry p (Did op x)) t' -> Q x t') ->
  traces (attempt (perform op)) t Q R.
Proof. intros Hh Hp HQ. apply traces_attempt, traces_perform; intros x; by apply HQ, here_snoc. Qed.

(** The variable says what is held, or names a lease that could not be given back. *)
Definition loose (p : position) (s : loop_state) : Prop :=
  at_lease p = lp_lease s \/ (at_lease p = None /\ exists l k, lp_lease s = Some (l, k) /\ l ∈ at_dropped p).

(** How an iteration ends. *)
Definition iteration_end (r : step_result) (t : tr) : Prop :=
  exists p, here p t /\ match snd r with Again => at_lease p = lp_lease (fst r) | Stop _ => loose p (fst r) end.

Local Abbreviation never := (fun (_ : js_error) (_ : tr) => False).

Lemma here_try {X} s (op : loop_op (js_error + X)) k p t :
  here p t -> (forall x, permitted p (Did op x)) ->
  (forall e, loose (after_entry p (Did op (inl e))) s) ->
  (forall x t', here (after_entry p (Did op (inr x))) t' -> traces (k x) t' iteration_end never) ->
  traces (try_op s op k) t iteration_end never.
Proof.
  intros Hh Hp He Hk. unfold try_op. apply traces_bind, (here_attempt op p); [done|done|]. intros [e|x] t' Hh'.
  - eexists. split; [exact Hh'|]. apply He.
  - by apply Hk.
Qed.

(** A lease that could not be given back. *)
Lemma dropped_loose p s l k : lp_lease s = Some (l, k) -> loose (Position (at_seat p) None (l :: at_dropped p)) s.
Proof. intros Hl. right. split; [done|]. exists l, k. split; [done|]. apply list_elem_of_here. Qed.

Lemma here_publish a s k p t :
  here p t -> at_lease p = lp_lease s ->
  (forall o t', here p t' -> traces (k (with_status (set_ownership o) s)) t' iteration_end never) ->
  traces (publish_ownership a s k) t iteration_end never.
Proof. intros Hh Hl Hk. unfold publish_ownership. apply (here_try _ _ _ p); [done|done|by left|]. intros o t'. apply Hk. Qed.

Lemma here_pause s ms p t :
  here p t -> at_lease p = lp_lease s -> traces (do! ask (SleepFor ms); Ret (s, Again)) t iteration_end never.
Proof. intros Hh Hl. apply traces_bind, (here_ask _ p); [done|done|]. intros [] t' Hh'. by exists p. Qed.

Lemma here_idle s p t : here p t -> at_lease p = lp_lease s -> traces (idle s) t iteration_end never.
Proof.
  intros Hh Hl. unfold idle. cbv zeta.
  assert (Hpause : forall s p t, here p t -> at_lease p = lp_lease s ->
    traces (do! ask StopHeartbeat; do! ask (SleepFor 5000);
      Ret (with_status (fun st => set_ownership unowned (set_connected false st)) s, Again)) t iteration_end never).
  { clear. intros s p t Hh Hl. apply traces_bind, (here_ask _ p); [done|done|]. intros [] t1 H1.
    apply traces_bind, (here_ask _ p); [done|done|]. intros [] t2 H2. by exists p. }
  destruct (lp_lease s) as [[l k]|] eqn:El; [|by eapply Hpause; [|by rewrite El]].
  apply (here_try _ _ _ p); [done|intros x; left; by exists k|intros e; by eapply dropped_loose|].
  intros x t' Hh'. eapply Hpause; [exact Hh'|done].
Qed.

Lemma here_release s p t Q R :
  here p t -> loose p s ->
  (forall d t', here (Position (at_seat p) None d) t' -> Q tt t') ->
  traces (release_quietly s) t Q R.
Proof.
  intros Hh Hl HQ. unfold release_quietly. destruct (lp_lease s) as [[l k]|] eqn:El.
  - apply traces_bind, (here_attempt _ p); [done| |].
    + intros x. destruct Hl as [Hl|(Hn & l' & k' & Hl & Hin)]; [left; exists k; congruence|right].
      rewrite El in Hl. injection Hl as <- <-. done.
    + intros x t' Hh'. by destruct x; eapply HQ.
  - apply (HQ (at_dropped p)). destruct p as [c h d]. destruct Hl as [Hl|(_ & l & k & Hl & _)]; [|congruence].
    cbn in Hl. rewrite El in Hl. by subst h.
Qed.

Lemma here_embed {A} (q : stream A) last_ st l k d t Q :
  here (Position (Some k) (Some (l, k)) d) t ->
  (forall r t', here (Position (Some k) (Some (l, k)) d) t' -> Q r t') ->
  traces (embed q last_ st) t Q never.
Proof.
  intros Hh HQ. revert last_ st t Hh.
  induction q as [x|e|X op kk IH]; intros last_ st t Hh; cbn [embed traces]; [by apply HQ..|].
  intros x. apply IH. apply (here_snoc _ _ (Did (InSession op) x)) in Hh; [done|]. by exists l, k.
Qed.

(** ** The lease through one iteration *)

Lemma here_final_error a err s l k d t :
  here (Position (Some k) (Some (l, k)) d) t -> lp_lease s = Some (l, k) ->
  traces (final_error a err s) t iteration_end never.
Proof.
  intros Hh Hl. unfold final_error. cbv zeta.
  assert (Hgo : forall t', here (Position (Some k) (Some (l, k)) d) t' -> traces
    (let! replacement := attempt (perform GetActiveCube) in
     if replacementChanged a (match replacement with inr r => r | inl _ => None end) then
       do! release_quietly s;
       publish_ownership a (with_status (set_connected false) (with_lease None s)) (fun s' => Ret (s', Again))
     else if instance_of "DroneEvictedError" err || instance_of "CubeDeletedError" err then
       do! release_quietly s;
       publish_ownership a (with_status (set_connected false) (with_lease None s)) (fun s' => Ret (s', Stop terminal_stream_error))
     else Ret (s, Stop terminal_stream_error)) t' iteration_end never).
  { clear Hh t. intros t Hh. apply traces_bind, (here_attempt _ _ _ _ _ Hh); [done|]. intros r t1 H1.
    set (p1 := after_entry _ _) in H1. assert (Hp1 : at_lease p1 = Some (l, k)) by (by destruct r).
    destruct (replacementChanged _ _); [|destruct (_ || _)].
    - apply traces_bind, (here_release _ _ _ _ _ H1); [left; congruence|]. intros d2 t2 H2.
      apply (here_publish _ _ _ _ _ H2); [done|]. intros o t3 H3. by eexists.
    - apply traces_bind, (here_release _ _ _ _ _ H1); [left; congruence|]. intros d2 t2 H2.
      apply (here_publish _ _ _ _ _ H2); [done|]. intros o t3 H3. eexists. split; [exact H3|by left].
    - exists p1. split; [done|]. left. exact (eq_trans Hp1 (eq_sym Hl)). }
  destruct (ac_credentialRef a) as [ref|]; apply traces_bind; [|by apply Hgo].
  apply (here_ask _ _ _ _ _ Hh); [intros x; by exists l, k|]. intros [] t' Hh'. by apply Hgo.
Qed.

Lemma here_owner_lost a b s k d t :
  here (Position (Some k) None d) t -> traces (owner_lost a b s) t iteration_end never.
Proof.
  intros Hh. unfold owner_lost. cbv zeta.
  assert (Hagain : forall t', here (Position (Some k) None d) t' ->
    traces (publish_ownership a (lost_lease s) (fun s => do! ask (SleepFor 5000); Ret (s, Again))) t' iteration_end never).
  { intros t' Hh'. apply (here_publish _ _ _ _ _ Hh'); [done|]. intros o t1 H1. by eapply here_pause. }
  destruct b; [|by apply Hagain]. apply traces_bind, (here_attempt _ _ _ _ _ Hh); [done|].
  intros [e|o] t' Hh'; [by apply Hagain|]. by eapply here_pause.
Qed.

Lemma here_session_step a l s d t :
  here (Position (Some (seat_key a)) (Some (l, seat_key a)) d) t -> lp_lease s = Some (l, seat_key a) ->
  traces (session_step body_fuel a l s) t iteration_end never.
Proof.
  intros Hh Hl. unfold session_step. apply (here_publish _ _ _ _ _ Hh); [done|]. intros o t1 H1.
  apply traces_bind, (here_embed _ _ _ _ _ _ _ _ H1). intros [[r last_] st] t2 H2. cbv beta iota zeta.
  apply traces_bind, (here_ask _ _ _ _ _ H2); [intros x; by exists (seat_key a)|]. intros lost t3 H3.
  destruct lost; [destruct r; by eapply here_owner_lost|]. destruct r as [[]|err].
  - by eexists.
  - destruct (gone err); [by eapply here_final_error|]. unfold reconnect_later.
    apply traces_bind, (here_ask _ _ _ _ _ H3); [done|]. intros j t4 H4.
    apply traces_bind, (here_ask _ _ _ _ _ H4); [done|]. intros [] t5 H5. by eexists.
Qed.

Lemma here_lease_step a s p t :
  here p t -> at_seat p = Some (seat_key a) -> at_lease p = lp_lease s ->
  traces (lease_step body_fuel a s) t iteration_end never.
Proof.
  intros Hh Hs Hl. unfold lease_step. cbv zeta. destruct p as [c h d]. cbn in Hs, Hl. subst c h.
  assert (Hnew : forall s t, here (Position (Some (seat_key a)) None d) t -> lp_lease s = None ->
    traces (try_op s (Acquire a) (fun lease => match lease with
      | Some l => session_step body_fuel a l (with_lease (Some (l, seat_key a)) s)
      | None => publish_ownership a (with_status (set_connected false) s) (fun s => do! ask (SleepFor 5000); Ret (s, Again))
      end)) t iteration_end never).
  { clear. intros s t Hh Hl. apply (here_try _ _ _ _ _ Hh); [done|by left|]. intros [l|] t1 H1.
    - by eapply here_session_step.
    - apply (here_publish _ _ _ _ _ H1); [done|]. intros o t2 H2. by eapply here_pause. }
  destruct (lp_lease s) as [[l k]|] eqn:El; [|by apply Hnew].
  destruct (String.eqb_spec k (seat_key a)) as [->|Hk]; [by eapply here_session_step|].
  apply (here_try _ _ _ _ _ Hh); [intros x; left; by exists k|intros e; by eapply dropped_loose|]. intros x t1 H1. by apply Hnew.
Qed.

Lemma here_iteration s p t :
  here p t -> at_lease p = lp_lease s -> traces (iteration body_fuel s) t iteration_end never.
Proof.
  intros Hh Hl. unfold iteration. apply (here_try _ _ _ _ _ Hh); [done|by left|]. intros [a|] t1 H1.
  - apply traces_bind, (here_ask _ _ _ _ _ H1); [done|]. intros [] t2 H2.
    apply (here_lease_step _ _ _ _ H2); [done|]. cbn. rewrite Hl. unfold with_stream. by case_bool_decide.
  - by eapply here_idle.
Qed.

(** C13. A seat is streamed for under a lease taken for it, and none is left behind.
    Whatever the seats, locks, servers and timers answer, in every run of the loop:
    a lease is asked for only while the loop has none and only for the seat selected;
    every operation of a session - the request, each inbox line, each cursor write -
    happens after the lease of its seat was taken and before the loop gave it back or
    looked at its loss, which it does when the session is over; a lease is given back
    only by who has it, and again only when that failed; and when the loop is left,
    on whichever path, each lease it took was given back, was found lost, or could
    not be given back and is left to go stale. *)
Theorem run_loop_one_lease maxIterations st :
  traces (runLoop body_fuel maxIterations st) []
    (fun '(st', _) t => disciplined t /\ at_lease (position_of t) = None /\ ss_connected st' = false)
    (fun _ _ => False).
Proof.
  unfold runLoop. assert (Hh : here (Position None None []) []) by (split; [apply disciplined_nil|done]).
  assert (Hl : at_lease (Position None None []) = lp_lease (loop_start st)) by done.
  revert Hh Hl. generalize (Position None None []) (loop_start st) ([] : tr).
  induction maxIterations as [|n IH]; intros p s t Hh Hl; cbn [runLoop_from]; cbv zeta.
  - apply traces_bind, (here_release _ _ _ _ _ Hh); [by left|]. intros d t' [Hd Hp]. cbn [traces]. by rewrite Hp.
  - apply traces_bind. eapply traces_mono; [by eapply here_iteration| |done].
    intros [s' v] t1 (p1 & H1 & Hv). cbn [fst snd] in Hv. destruct v as [|e]; [by eapply IH|].
    apply traces_bind, (here_release _ _ _ _ _ H1); [done|]. intros d t' [Hd Hp]. cbn [traces]. by rewrite Hp.
Qed.
End LoopSpec.

(** * When the reconnect loop gives up, and how it comes back *)

Section Ends.
Context `{StreamEnv} `{JsDate}.
Variable body_fuel : nat.

Local Abbreviation tr := (list (@entry loop_op)).
Local Abbreviation never := (fun (_ : js_error) (_ : tr) => False).

(** ** Giving up *)

(** An operation of the loop, outside every session, answered with the error. *)
Definition loop_answered (e : js_error) (t : tr) : Prop :=
  exists X (op : loop_op (js_error + X)), Did op (inl e) ∈ t /\
    match op with InSession _ => False | _ => True end.

(** A session of the loop ended by the server's verdict. *)
Definition verdict_given (t : tr) : Prop :=
  exists a err t1 u t2, t = t1 ++ map inside u ++ t2 /\ gone err = true /\ ended a err u.

Definition stops (e : js_error) (t : tr) : Prop :=
  loop_answered e t \/ e = terminal_stream_error /\ verdict_given t.

Lemma verdict_given_app t u : verdict_given t -> verdict_given (t ++ u).
Proof.
  intros (a & err & t1 & v & t2 & -> & Hg). exists a, err, t1, v, (t2 ++ u). by rewrite <- !app_assoc.
Qed.

Lemma stops_app e t u : stops e t -> stops e (t ++ u).
Proof.
  intros [(X & op & Hin & Hop)|[He Hv]]; [left|right].
  - exists X, op. split; [apply elem_of_app; by left|done].
  - split; [done|by apply verdict_given_app].
Qed.

(** Programs that stop only for a reason. *)
Definition honest (p : looping step_result) : Prop :=
  forall t, traces p t (fun r t' => forall e, snd r = Stop e -> stops e t') never.

(** Programs that do not throw. *)
Definition total {A} (p : looping A) : Prop := forall t, traces p t (fun _ _ => True) never.

Lemma total_ask {X} (op : loop_op X) : total (ask op).
Proof. intros t. by apply traces_ask. Qed.
Lemma total_attempt {X} (op : loop_op (js_error + X)) : total (attempt (perform op)).
Proof. intros t. by apply traces_attempt, traces_perform. Qed.
Lemma total_bind {A B} (p : looping A) (f : A -> looping B) : total p -> (forall a, total (f a)) -> total (pbind p f).
Proof. intros Hp Hf t. apply traces_bind. eapply traces_mono; [apply Hp|intros a t' _; apply Hf|done]. Qed.
Lemma total_release s : total (release_quietly s).
Proof.
  unfold release_quietly. destruct (lp_lease s) as [[l k]|]; [|done].
  by apply total_bind; [apply total_attempt|].
Qed.

Lemma honest_again s : honest (Ret (s, Again)).
Proof. intros t e. done. Qed.
Lemma honest_bind {A} (p : looping A) f : total p -> (forall a, honest (f a)) -> honest (pbind p f).
Proof. intros Hp Hf t. apply traces_bind. eapply traces_mono; [apply Hp|intros a t' _; apply Hf|done]. Qed.
Lemma honest_try {X} s (op : loop_op (js_error + X)) k :
  match op with InSession _ => False | _ => True end -> (forall x, honest (k x)) -> honest (try_op s op k).
Proof.
  intros Hop Hk t. unfold try_op. apply traces_bind, traces_attempt, traces_perform.
  - intros x. apply Hk.
  - intros e e' [= <-]. left. exists X, op. split; [|done]. apply elem_of_app. right. left.
Qed.

Lemma honest_publish a s k : (forall s', honest (k s')) -> honest (publish_ownership a s k).
Proof. intros Hk. by apply honest_try. Qed.

#[local] Hint Resolve honest_again total_ask total_attempt total_release : honest.
Ltac honest_step :=
  first [ solve [auto with honest nocore] | apply honest_publish; intros ? | apply honest_try; [exact I|intros ?]
        | apply honest_bind; [solve [auto with honest nocore]|intros ?] ].

Lemma honest_idle s : honest (idle s).
Proof. unfold idle. cbv zeta. destruct (lp_lease s) as [[l k]|]; repeat honest_step. Qed.

Lemma honest_owner_lost a b s : honest (owner_lost a b s).
Proof. unfold owner_lost. cbv zeta. destruct b; repeat honest_step. destruct a0; repeat honest_step. Qed.

Lemma final_error_stops a err s t :
  verdict_given t -> traces (final_error a err s) t (fun r t' => forall e, snd r = Stop e -> stops e t') never.
Proof.
  intros Hv. unfold final_error. cbv zeta. apply traces_bind.
  assert (Hterm : forall s u, stops terminal_stream_error (t ++ u)) by (intros; right; split; [done|by apply verdict_given_app]).
  eapply traces_mono; [apply traces_grow with (Q := fun _ _ => True) (R := never)| |by intros e t' [? _]].
  { destruct (ac_credentialRef a); [by apply traces_ask|done]. }
  intros [] t1 [_ [u1 ->]]. apply traces_bind.
  eapply traces_mono; [apply traces_grow, total_attempt| |by intros e t' [? _]]. intros r t2 [_ [u2 ->]].
  assert (Hend : forall s' v t3, v = Again \/ v = Stop terminal_stream_error -> (exists u, t3 = t ++ u) ->
    (fun r t' => forall e, snd r = Stop e -> stops e t') ((s', v) : step_result) t3).
  { intros s' v t3 [->| ->] [u ->] e [= <-]. by apply Hterm. }
  assert (Hpub : forall v t3, v = Again \/ v = Stop terminal_stream_error -> (exists u, t3 = t ++ u) ->
    traces (do! release_quietly s;
      publish_ownership a (with_status (set_connected false) (with_lease None s)) (fun s' => Ret (s', v))) t3
      (fun r t' => forall e, snd r = Stop e -> stops e t') never).
  { intros v t3 Hv3 [u3 ->]. apply traces_bind.
    eapply traces_mono; [apply traces_grow, total_release| |by intros e t' [? _]]. intros [] t4 [_ [u4 ->]].
    unfold publish_ownership, try_op. apply traces_bind, traces_attempt, traces_perform.
    - intros o. cbn [traces]. apply Hend; [done|]. rewrite <- !app_assoc. by eexists.
    - intros e e' [= <-]. left. eexists _, (Ownership a). split; [|done]. apply elem_of_app. right. left. }
  destruct (replacementChanged _ _); [apply Hpub; [by left|rewrite <- !app_assoc; by eexists]|].
  destruct (_ || _); [apply Hpub; [by right|rewrite <- !app_assoc; by eexists]|].
  cbn [traces]. apply Hend; [by right|]. rewrite <- !app_assoc. by eexists.
Qed.

Lemma honest_session_step a l s : honest (session_step body_fuel a l s).
Proof.
  unfold session_step. apply honest_publish. intros s1 t. apply traces_bind.
  eapply traces_mono; [apply (traces_embed _ _ _ []), streamOnce_ends| |done].
  intros [[r last_] st] t1 (u & -> & Hr). cbv beta iota zeta. cbn [app] in Hr.
  apply traces_bind, traces_ask. intros lost.
  destruct lost; [destruct r; apply honest_owner_lost|]. destruct r as [[]|err]; [by intros e|].
  destruct (gone err) eqn:Hg.
  - apply final_error_stops. exists a, err, t, u, [Did (OwnerLost l) false]. by rewrite <- app_assoc.
  - assert (Hlater : honest (reconnect_later (with_cursor last_ st s1))) by (unfold reconnect_later; repeat honest_step).
    apply Hlater.
Qed.

Lemma honest_iteration s : honest (iteration body_fuel s).
Proof.
  unfold iteration. apply honest_try; [exact I|]. intros [a|]; [|apply honest_idle].
  honest_step. unfold lease_step. cbv zeta.
  assert (Hnew : forall s, honest (try_op s (Acquire a) (fun lease => match lease with
      | Some l => session_step body_fuel a l (with_lease (Some (l, seat_key a)) s)
      | None => publish_ownership a (with_status (set_connected false) s) (fun s => do! ask (SleepFor 5000); Ret (s, Again))
      end))).
  { intros s'. apply honest_try; [exact I|]. intros [l|]; [apply honest_session_step|]. repeat honest_step. }
  destruct (lp_lease _) as [[l k]|]; [|apply Hnew].
  destruct (String.eqb _ _); [apply honest_session_step|]. apply honest_try; [exact I|]. intros x. apply Hnew.
Qed.

Lemma run_loop_stops n st t :
  traces (runLoop body_fuel n st) t (fun r t' => forall e, snd r = Some e -> stops e t') never.
Proof.
  unfold runLoop. generalize (loop_start st). revert t. induction n as [|n IH]; intros t s; cbn [runLoop_from]; cbv zeta.
  - apply traces_bind. eapply traces_mono; [apply total_release|by intros [] t' _ e|done].
  - apply traces_bind. eapply traces_mono; [apply honest_iteration| |done]. intros [s' v] t1 Hv.
    destruct v as [|e]; [apply IH|]. apply traces_bind.
    eapply traces_mono; [apply traces_grow, total_release| |by intros ? ? [? _]].
    intros [] t2 [_ [u ->]] e' [= <-]. by apply stops_app, Hv.
Qed.

(** The stream is given up only by the server's verdict.  The loop around the
    loop runs until its bound on restarts unless a run ended with the terminal
    error; and however the network, the disk, the locks and the seats answer, that
    happens only after a session that the server itself ended for good - by a 401,
    a 410 that names an eviction or a deleted cube, or an error frame - and, when
    the server said so, with the seat marked rejected.  (The two other ways the
    statement leaves open are an operation that itself throws one of these
    errors.)  Every other failure is retried. *)
Theorem stream_given_up_by_verdict restarts maxIterations st :
  traces (runStreamLoopForever body_fuel restarts maxIterations st) []
    (fun '(_, terminal) t => terminal = true -> exists e, instance_of "TerminalStreamError" e = true /\ stops e t)
    (fun _ _ => False).
Proof.
  generalize ([] : tr). revert st. induction restarts as [|n IH]; intros st t; cbn [runStreamLoopForever];
    apply traces_bind; (eapply traces_mono; [apply run_loop_stops| |done]); intros [st' r] t1 Hr; cbn [snd] in Hr;
    (destruct (match r with Some e => _ | None => _ end) eqn:Ht;
     [destruct r as [e|]; [|done]; cbn; intros _; exists e; split; [done|by apply Hr]|]).
  - done.
  - apply traces_bind, traces_ask. intros []. apply IH.
Qed.
End Ends.

(** * The reconnect loop comes back from every outage

    The world is an outage of so many failures.  A failure is anything short of the
    server's verdict that keeps an attempt from opening the stream: the seat is not
    selected or cannot be read, its lease is somebody else's or cannot be taken, the
    lock cannot be read, the trust or the cursor of the server cannot be read or the
    trust is another one, the request throws, or it is answered with an error that is
    no verdict.  A lease may be lost during an attempt that failed, and may be
    impossible to give back.  Once the failures are used up every attempt succeeds;
    when a stream was opened, anything may happen. *)

(** The failures still to come, the time slept and whether a stream was opened. *)
Record outage := Outage { o_left : nat; o_slept : Z; o_connected : bool }.

(** The longest the loop may wait after its attempt [n] failed: five seconds, or half
    a second doubled [n] times, no more than thirty seconds, and half a second of
    jitter. *)
Definition longest_pause (n : nat) : Z := Z.max 5000 (Z.min (500 * 2 ^ Z.of_nat n) 30000 + 500).

(** The same for the attempts [from] to [from + k - 1]. *)
Fixpoint longest_wait (k from : nat) : Z :=
  match k with O => 0 | S k' => longest_pause from + longest_wait k' (S from) end.

Lemma longest_pause_least n : 5000 <= longest_pause n.
Proof. unfold longest_pause. lia. Qed.

Lemma longest_pause_mono m n : (m <= n)%nat -> longest_pause m <= longest_pause n.
Proof.
  intros Hmn. unfold longest_pause. assert (2 ^ Z.of_nat m <= 2 ^ Z.of_nat n) by (apply Z.pow_le_mono_r; lia). lia.
Qed.

Lemma longest_wait_mono j k m n : (j <= k)%nat -> (m <= n)%nat -> 0 <= longest_wait j m <= longest_wait k n.
Proof.
  revert k m n. induction j as [|j IH]; intros k m n Hjk Hmn; cbn [longest_wait].
  - split; [lia|]. clear Hmn Hjk. revert n. induction k as [|k IH]; intros n; cbn [longest_wait]; [lia|].
    pose proof (longest_pause_least n). specialize (IH (S n)). lia.
  - destruct k as [|k]; [lia|]. cbn [longest_wait]. pose proof (longest_pause_least m). pose proof (longest_pause_mono m n Hmn).
    specialize (IH k (S m) (S n)). lia.
Qed.

(** After a failure at attempt [m <= f] that left [j] of [k] failures, with a pause
    that was long enough for it. *)
Lemma longest_wait_step k j m f d : (j < k)%nat -> (m <= f)%nat -> d <= longest_pause m ->
  d + longest_wait j (S f) <= longest_wait k f.
Proof.
  intros Hjk Hmf Hd. destruct k as [|k]; [lia|]. cbn [longest_wait]. pose proof (longest_pause_mono m f Hmf).
  pose proof (longest_wait_mono j k (S f) (S f) ltac:(lia) ltac:(lia)). lia.
Qed.

Section Live.
Context `{StreamEnv} `{JsDate}.
Variable body_fuel : nat.
Variable a : active_cube.

(** A seat a stream can be asked for. *)
Definition usable : Prop :=
  is_uuid (ac_cubeId a) = true /\ is_uuid (ac_droneId a) = true /\ is_Some (ac_serverTrustIdentity a).

(** An error that ends nothing for good. *)
Definition passing (e : js_error) : Prop := gone e = false /\ instance_of "TerminalStreamError" e = false.

(** An answer of the server that is neither a stream nor its verdict: any status but
    401, and a 410 only without an eviction or a deleted cube. *)
Definition refused_for_now (r : response) : Prop :=
  rp_ok r = false /\ rp_status r <> 401 /\
  (rp_status r = 410 -> errorCodeFromBody (rp_error_body r) <> Some "DRONE_EVICTED" /\
                        errorCodeFromBody (rp_error_body r) <> Some "CUBE_DELETED").

Definition one_failed (w w' : outage) : Prop :=
  exists n, o_left w = S n /\ w' = Outage n (o_slept w) (o_connected w).

(** The operation succeeds with an answer in [good], or uses up a failure. *)
Definition may_fail {X} (good bad : X -> Prop) (w : outage) (x : X) (w' : outage) : Prop :=
  (good x /\ w' = w) \/ (bad x /\ one_failed w w').

Definition thrown {X} (bad : X -> Prop) (x : js_error + X) : Prop :=
  match x with inl e => passing e | inr y => bad y end.

Definition session_answers {X} (op : stream_op X) (w : outage) : X -> outage -> Prop :=
  match op in stream_op X return X -> outage -> Prop with
  | LoadTrust => may_fail (fun x => Some x = inr <$> ac_serverTrustIdentity a)
                          (thrown (fun i => Some i <> ac_serverTrustIdentity a)) w
  | GetCursor => may_fail (fun x => exists c, x = inr c) (thrown (fun _ => False)) w
  | Fetch _ => may_fail (fun x => exists r, x = inr r /\ rp_ok r = true) (thrown refused_for_now) w
  | ClearCursor => fun x w' => thrown (fun _ => True) x /\ w' = w
  | SetConnected b => fun _ w' => w' = Outage (o_left w) (o_slept w) b
  | _ => fun _ w' => w' = w
  end.

Definition answers X (op : loop_op X) (w : outage) (x : X) (w' : outage) : Prop :=
  if o_connected w then w' = w
  else
    match op in loop_op X return X -> Prop with
    | GetActiveCube => fun x => may_fail (fun x => x = inr (Some a)) (thrown (fun b => b = None)) w x w'
    | Acquire _ => fun x => may_fail (fun x => exists l, x = inr (Some l)) (thrown (fun l => l = None)) w x w'
    | Ownership _ => fun x => may_fail (fun x => exists o, x = inr o) (thrown (fun _ => False)) w x w'
    | Release _ => fun x => thrown (fun _ => True) x /\ w' = w
    | Jitter => fun x => 0 <= x < 500 /\ w' = w
    | SleepFor ms => fun _ => w' = Outage (o_left w) (o_slept w + ms) false
    | InSession op => fun x => session_answers op w x w'
    | _ => fun _ => w' = w
    end x.

(** Every operation has an answer. *)
Definition some_stream_answer {X} (op : stream_op X) : X :=
  match op in stream_op X return X with
  | LoadTrust | GetCursor | Fetch _ | ReadChunk | ClearCursor | AdvanceCursor _ | AppendLine _
  | HasInboxEntryId _ _ | HasPendingWakeEntry _ | InjectOpenCode _ _ _ => inl (JsError "")
  | SettleOpenCodeEntry _ | WakeCodex _ _ _ | MarkSeatRejected _ | OnEventId _ | SetConnected _
  | NoteActivity _ _ | BumpWatchdog => tt
  | StreamSession.Now => 0
  end.

Definition some_answer {X} (op : loop_op X) : X :=
  match op in loop_op X return X with
  | GetActiveCube | Acquire _ | Release _ | Ownership _ => inl (JsError "")
  | OwnerLost _ => false
  | InSession op => some_stream_answer op
  | Jitter => 0
  | SleepFor _ | EnsureHeartbeat | StopHeartbeat => tt
  end.

Lemma answers_total X (op : loop_op X) w : usable -> exists x w', answers X op w x w'.
Proof.
  intros (_ & _ & identity & Hid). unfold answers. destruct (o_connected w) eqn:Hw; [exists (some_answer op), w; done|].
  destruct op as [|b|l|b|l|X op| |ms| |]; cbn beta iota.
  - exists (inr (Some a)), w. by left.
  - exists (inr (Some "")), w. left. by split; [eexists|].
  - by exists (inr tt), w.
  - exists (inr unowned), w. left. by split; [eexists|].
  - by exists false, w.
  - destruct op; try (match goal with |- context [session_answers ?o _ _ _] => exists (some_stream_answer o) end; by eexists).
    + exists (inr identity), w. left. by rewrite Hid.
    + exists (inr None), w. left. split; [by eexists|done].
    + exists (inr (Response 200 true "")), w. left. split; [by eexists|done].
  - exists 0, w. split; [lia|done].
  - by eexists tt, _.
  - by exists tt, w.
  - by exists tt, w.
Qed.

Lemma nrun_exists {A} (p : looping A) w : usable -> exists r w', nrun answers p w r w'.
Proof.
  intros Hu. revert w. induction p as [x|e|X op k IH]; intros w; cbn [nrun]; [by eexists _, w..|].
  destruct (answers_total X op w Hu) as (x & w1 & Hx). destruct (IH x w1) as (r & w' & Hr). by exists r, w', x, w1.
Qed.

(** ** One iteration of an outage *)

Lemma nrun_try {X} s (op : loop_op (js_error + X)) k w r w' :
  nrun answers (try_op s op k) w r w' <->
  exists x w1, answers _ op w x w1 /\
    match x with inl e => r = Done (s, Stop e) /\ w' = w1 | inr x => nrun answers (k x) w1 r w' end.
Proof.
  unfold try_op. rewrite nrun_bind. split.
  - intros (r1 & w1 & Hr & Hk). apply nrun_attempt_perform in Hr as (x & Hx & ->). exists x, w1. split; [done|].
    by destruct x.
  - intros (x & w1 & Hx & Hk). exists (Done x), w1. split; [|by destruct x].
    apply nrun_attempt_perform. by exists x.
Qed.

Lemma nrun_ask_bind {X A} (op : loop_op X) (k : X -> looping A) w r w' :
  nrun answers (pbind (ask op) k) w r w' <-> exists x w1, answers _ op w x w1 /\ nrun answers (k x) w1 r w'.
Proof. done. Qed.

Lemma stays_connected {A} (p : looping A) w r w' :
  nrun answers p w r w' -> o_connected w = true -> w' = w.
Proof.
  intros Hr Hw. assert (Hk : w' = w /\ o_connected w' = true); [|by destruct Hk].
  eapply (nrun_keeps answers (fun v => v = w /\ o_connected v = true)); [|exact Hr|done].
  intros X op v x v' Ha [-> Hv]. unfold answers in Ha. rewrite Hv in Ha. by subst.
Qed.

(** ** Attempts that fail *)

(** Failures were used up, and the time slept is the same. *)
Definition failed (w w' : outage) : Prop :=
  (o_left w' < o_left w)%nat /\ o_slept w' = o_slept w /\ o_connected w' = false.

Lemma one_failed_failed w w' : o_connected w = false -> one_failed w w' -> failed w w'.
Proof. intros Hw (n & Hn & ->). unfold failed. cbn. rewrite Hn, Hw. split; [lia|done]. Qed.

(** Inversion of one answered operation while the outage lasts. *)
Ltac answered H Hw := unfold answers in H; rewrite Hw in H; cbn beta iota in H.

(** The answers of a session to a refusal short of the verdict. *)
Lemma refusal_passes r w o w' last_ st :
  o_connected w = false -> refused_for_now r -> nrun answers (embed (handle_refusal a r) last_ st) w o w' ->
  w' = w /\ exists e last' st', o = Done (Failed e, last', st') /\ passing e.
Proof.
  intros Hw (_ & H401 & H410) Hr. unfold handle_refusal in Hr. apply Z.eqb_neq in H401. rewrite H401 in Hr.
  destruct (Z.eqb_spec (rp_status r) 410) as [E|_]; [|cbn in Hr; destruct Hr as [-> ->]; split; [done|]; by eexists _, _, _].
  destruct (H410 E) as [He Hc]. cbv zeta in Hr. rewrite !bool_decide_eq_false_2 in Hr by done.
  destruct (bool_decide (errorCodeFromBody _ = Some "CURSOR_EXPIRED")).
  - cbn [pbind perform embed nrun] in Hr. destruct Hr as (x & w1 & Hx & Hr). answered Hx Hw. destruct Hx as [Hx ->].
    destruct x as [err|u]; cbn in Hr; destruct Hr as [-> ->]; (split; [done|]); by eexists _, _, _.
  - cbn in Hr. destruct Hr as [-> ->]. split; [done|]. by eexists _, _, _.
Qed.

(** A session opens the stream, or fails without a verdict. *)
Lemma session_in_outage last_ st w r w' :
  usable -> o_connected w = false ->
  nrun answers (embed (streamOnce a body_fuel last_) last_ st) w r w' ->
  (o_connected w' = true /\ o_slept w' = o_slept w) \/
  (failed w w' /\ exists e last' st', r = Done (Failed e, last', st') /\ passing e).
Proof.
  intros (Hc & Hd & identity & Hid) Hw. unfold streamOnce. rewrite Hc, Hd, Hid. cbn [negb pbind perform embed nrun].
  intros (x & w1 & Hx & Hr). answered Hx Hw. cbn [session_answers] in Hx. rewrite Hid in Hx.
  assert (Hthrow : forall e w2, passing e -> one_failed w w2 -> r = Done (Failed e, last_, st) /\ w' = w2 ->
    (o_connected w' = true /\ o_slept w' = o_slept w) \/
    (failed w w' /\ exists e last' st', r = Done (Failed e, last', st') /\ passing e)).
  { intros e w2 He Hf [-> ->]. right. split; [by apply one_failed_failed|]. by eexists _, _, _. }
  destruct Hx as [[Hx ->]|[Hx Hf]].
  2:{ destruct x as [e|i]; [by eapply Hthrow|]. cbn [thrown] in Hx. cbn [pbind] in Hr.
      destruct (String.eqb_spec i identity) as [->|Hne]; [done|]. cbn [negb pbind embed nrun] in Hr.
      eapply (Hthrow (JsError _)); [by split|exact Hf|exact Hr]. }
  injection Hx as ->. cbn [pbind] in Hr. rewrite String.eqb_refl in Hr. cbn [negb pbind perform embed nrun] in Hr.
  destruct Hr as (c & w2 & Hc2 & Hr). answered Hc2 Hw. cbn [session_answers] in Hc2. destruct Hc2 as [[[c' ->] ->]|[Hx Hf]].
  2:{ destruct c as [e|c]; [by eapply Hthrow|done]. }
  cbn [pbind ask embed nrun] in Hr. destruct Hr as (u & w3 & Hb & Hr).
  answered Hb Hw. cbn in Hb. subst w3. cbn [pbind perform embed nrun] in Hr.
  destruct Hr as (f & w4 & Hf & Hr). answered Hf Hw. cbn [session_answers] in Hf. destruct Hf as [[(rp & -> & Hok) ->]|[Hx Hf]].
  - left. cbn [pbind] in Hr. rewrite Hok in Hr. cbn [negb pbind ask embed nrun] in Hr.
    destruct Hr as (v & w5 & Hs & Hr). answered Hs Hw. cbn in Hs.
    apply stays_connected in Hr; [|by subst w5]. by subst.
  - destruct f as [e|rp]; [by eapply Hthrow|]. cbn [thrown] in Hx. cbn [pbind] in Hr. rewrite (proj1 Hx) in Hr. cbn [negb] in Hr.
    pose proof (one_failed_failed w w4 Hw Hf) as Hfd. right. apply refusal_passes in Hr as [-> He]; [|apply Hfd|done]. done.
Qed.

Definition holds_own (s : loop_state) : Prop :=
  lp_lease s = None \/ exists l, lp_lease s = Some (l, seat_key a).

(** How an iteration may end: with a stream, or failed - after a pause, or with an
    error for the loop around the loop. *)
Definition iteration_in_outage (s : loop_state) (w : outage) (r : outcome step_result) (w' : outage) : Prop :=
  (o_connected w' = true /\ o_slept w' = o_slept w) \/
  ((o_left w' < o_left w)%nat /\ o_connected w' = false /\
   exists s' v, r = Done (s', v) /\
     match v with
     | Again => holds_own s' /\ (lp_attempt s' <= S (lp_attempt s))%nat /\
                o_slept w <= o_slept w' <= o_slept w + longest_pause (lp_attempt s)
     | Stop e => passing e /\ o_slept w' = o_slept w
     end).

Lemma delay_bounds n j : 0 <= j < 500 -> 0 <= streamReconnectDelay n j <= longest_pause n.
Proof.
  intros Hj. unfold streamReconnectDelay, RECONNECT_MIN_MS, RECONNECT_MAX_MS, longest_pause.
  assert (Hp : 0 < 2 ^ Z.of_nat n) by (apply Z.pow_pos_nonneg; lia). lia.
Qed.

(** An iteration that fails with an error. *)
Lemma iteration_stops s s' e w r w' w2 :
  failed w w2 -> passing e -> r = Done (s', Stop e) /\ w' = w2 -> iteration_in_outage s w r w'.
Proof. intros (H1 & H2 & H3) He [-> ->]. right. split; [done|]. split; [done|]. by exists s', (Stop e). Qed.

(** ... and one that pauses. *)
Lemma iteration_pauses s s' w w2 ms r w' :
  r = Done (s', Again) /\ w' = Outage (o_left w2) (o_slept w2 + ms) false ->
  failed w w2 -> holds_own s' -> (lp_attempt s' <= S (lp_attempt s))%nat -> 0 <= ms <= longest_pause (lp_attempt s) ->
  iteration_in_outage s w r w'.
Proof.
  intros [-> ->] (H1 & H2 & H3) Hh Ha Hms. right. split; [done|]. split; [done|]. exists s', Again. cbn. rewrite H2.
  split; [done|]. split; [done|]. split; [done|lia].
Qed.

Lemma nrun_sleep_again (s : loop_state) ms w (r : outcome step_result) w' :
  o_connected w = false -> nrun answers (do! ask (SleepFor ms); Ret ((s, Again) : step_result)) w r w' ->
  r = Done (s, Again) /\ w' = Outage (o_left w) (o_slept w + ms) false.
Proof. intros Hw Hr. apply nrun_ask_bind in Hr as (u & w1 & Hx & Hr). answered Hx Hw. subst w1. done. Qed.

(** The lock is read, or the iteration ends. *)
Lemma publish_in_outage s0 s k w0 w r w' :
  o_connected w = false -> (w = w0 \/ failed w0 w) ->
  nrun answers (publish_ownership a s k) w r w' ->
  (exists o, nrun answers (k (with_status (set_ownership o) s)) w r w') \/ iteration_in_outage s0 w0 r w'.
Proof.
  intros Hw Hw0 Hr. apply nrun_try in Hr as (x & w1 & Hx & Hr). answered Hx Hw. destruct Hx as [[[o ->] ->]|[Hx Hf]].
  - left. by exists o.
  - right. destruct x as [e|o]; [|done]. cbn [thrown] in Hx. apply (one_failed_failed w w1 Hw) in Hf.
    eapply iteration_stops; [|exact Hx|exact Hr]. destruct Hw0 as [->|(H1 & H2 & H3)]; [done|].
    destruct Hf as (K1 & K2 & K3). split; [lia|]. split; [congruence|done].
Qed.

Lemma five_seconds s : 0 <= 5000 <= longest_pause (lp_attempt s).
Proof. pose proof (longest_pause_least (lp_attempt s)). lia. Qed.

Lemma session_step_in_outage l s w r w' :
  usable -> o_connected w = false -> lp_lease s = Some (l, seat_key a) ->
  nrun answers (session_step body_fuel a l s) w r w' -> iteration_in_outage s w r w'.
Proof.
  intros Hu Hw Hl Hr. unfold session_step in Hr. apply (publish_in_outage s _ _ w) in Hr as [(o & Hr)|?]; [|done|done|by left].
  apply nrun_bind in Hr as (r1 & w1 & Hs & Hr). apply session_in_outage in Hs as [[Hc Hsl]|(Hf & e & last' & st' & -> & Hg)]; [| |done|done].
  - left. assert (w' = w1) as ->; [|done]. destruct r1 as [x|e]; [by eapply stays_connected|by destruct Hr].
  - cbv beta iota zeta in Hr. assert (Hw1 : o_connected w1 = false) by apply Hf.
    apply nrun_ask_bind in Hr as (lost & w2 & Hlost & Hr). answered Hlost Hw1. subst w2. destruct lost.
    + unfold owner_lost in Hr. cbv zeta in Hr. apply (publish_in_outage s _ _ w) in Hr as [(o' & Hr)|?]; [|done|done|by right].
      apply nrun_sleep_again in Hr; [|done].
      eapply (iteration_pauses s _ w w1 5000); [exact Hr|exact Hf|by left|cbn; lia|apply five_seconds].
    + rewrite (proj1 Hg) in Hr. unfold reconnect_later in Hr.
      apply nrun_ask_bind in Hr as (j & w3 & Hj & Hr). answered Hj Hw1. destruct Hj as [Hj ->].
      apply nrun_ask_bind in Hr as (u & w4 & Hsl & Hr). answered Hsl Hw1. subst w4.
      eapply (iteration_pauses s _ w w1 _); [exact Hr|exact Hf|right; by exists l|done| ]. by apply delay_bounds.
Qed.

Lemma lease_step_in_outage s w r w' :
  usable -> o_connected w = false -> holds_own s ->
  nrun answers (lease_step body_fuel a s) w r w' -> iteration_in_outage s w r w'.
Proof.
  intros Hu Hw Hl Hr. unfold lease_step in Hr. cbv zeta in Hr. destruct Hl as [Hl|[l Hl]]; rewrite Hl in Hr.
  - apply nrun_try in Hr as (x & w1 & Hx & Hr). answered Hx Hw. destruct Hx as [[[l ->] ->]|[Hx Hf]].
    + by apply (session_step_in_outage l) in Hr.
    + apply (one_failed_failed w w1 Hw) in Hf. assert (Hw1 : o_connected w1 = false) by apply Hf.
      destruct x as [e|l]; [by eapply iteration_stops|]. cbn [thrown] in Hx. subst l.
      apply (publish_in_outage s _ _ w) in Hr as [(o & Hr)|?]; [|done|done|by right].
      apply nrun_sleep_again in Hr; [|done].
      eapply (iteration_pauses s _ w w1 5000); [exact Hr|exact Hf|by left|cbn; lia|apply five_seconds].
  - rewrite String.eqb_refl in Hr. by apply (session_step_in_outage l) in Hr.
Qed.

Lemma idle_in_outage s w0 w r w' :
  failed w0 w -> nrun answers (idle s) w r w' -> iteration_in_outage s w0 r w'.
Proof.
  intros Hf Hr. assert (Hw : o_connected w = false) by apply Hf.
  assert (Hpause : forall s', lp_lease s' = None -> lp_attempt s' = lp_attempt s ->
    nrun answers (do! ask StopHeartbeat; do! ask (SleepFor 5000);
      Ret (with_status (fun st => set_ownership unowned (set_connected false st)) s', Again)) w r w' ->
    iteration_in_outage s w0 r w').
  { intros s' Hl Ha Hp. apply nrun_ask_bind in Hp as (u & w1 & Hx & Hp). answered Hx Hw. subst w1.
    apply nrun_sleep_again in Hp; [|done].
    eapply (iteration_pauses s _ w0 w 5000); [exact Hp|exact Hf|by left|cbn; lia|apply five_seconds]. }
  unfold idle in Hr. cbv zeta in Hr. destruct (lp_lease s) as [[l k]|] eqn:El; [|by apply (Hpause s)].
  apply nrun_try in Hr as (x & w1 & Hx & Hr). answered Hx Hw. destruct Hx as [Hx ->].
  destruct x as [e|u]; [by eapply iteration_stops|by apply (Hpause (with_lease None s))].
Qed.

Lemma iteration_down s w r w' :
  usable -> o_connected w = false -> holds_own s ->
  nrun answers (iteration body_fuel s) w r w' -> iteration_in_outage s w r w'.
Proof.
  intros Hu Hw Hl Hr. unfold iteration in Hr. apply nrun_try in Hr as (x & w1 & Hx & Hr). answered Hx Hw.
  destruct Hx as [[-> ->]|[Hx Hf]].
  - apply nrun_ask_bind in Hr as (u & w1 & Hx & Hr). answered Hx Hw. subst w1.
    assert (Hs : lp_lease (with_stream (seat_key a) s) = lp_lease s) by (unfold with_stream; by case_bool_decide).
    assert (Ha : lp_attempt (with_stream (seat_key a) s) = lp_attempt s) by (unfold with_stream; by case_bool_decide).
    unfold iteration_in_outage. rewrite <- Ha. fold (iteration_in_outage (with_stream (seat_key a) s) w r w').
    apply lease_step_in_outage; [done|done| |done]. unfold holds_own. by rewrite Hs.
  - apply (one_failed_failed w w1 Hw) in Hf. destruct x as [e|b]; [by eapply iteration_stops|].
    cbn [thrown] in Hx. subst b. by eapply idle_in_outage.
Qed.

(** ** The loop, and the loop around it *)

(** A stream was opened, or the loop ended with an error that is no verdict, and the
    wait until its next start is still within what the failures allow. *)
Definition run_in_outage (f : nat) (w : outage) (r : outcome (stream_status * option js_error)) (w' : outage) : Prop :=
  (o_connected w' = true /\ o_slept w <= o_slept w' <= o_slept w + longest_wait (o_left w) f) \/
  ((o_left w' < o_left w)%nat /\ o_connected w' = false /\ (exists st e, r = Done (st, Some e) /\ passing e) /\
   o_slept w <= o_slept w' /\ o_slept w' + 5000 + longest_wait (o_left w') 0 <= o_slept w + longest_wait (o_left w) f).

Lemma release_in_outage s w r w' :
  nrun answers (release_quietly s) w r w' -> w' = w /\ r = Done tt.
Proof.
  unfold release_quietly. destruct (lp_lease s) as [[l k]|]; [|by intros [-> ->]]. intros Hr.
  apply nrun_bind in Hr as (r1 & w1 & Hr1 & Hr). apply nrun_attempt_perform in Hr1 as (x & Hx & ->). destruct Hr as [-> ->].
  unfold answers in Hx. split; [|done]. destruct (o_connected w); [done|by destruct Hx].
Qed.

Lemma run_from_outage n s f w r w' :
  usable -> o_connected w = false -> holds_own s -> (lp_attempt s <= f)%nat -> (o_left w < n)%nat ->
  nrun answers (runLoop_from body_fuel n s) w r w' -> run_in_outage f w r w'.
Proof.
  intros Hu. revert s f w. induction n as [|n IH]; intros s f w Hw Hl Hf Hn Hr; [lia|]. cbn [runLoop_from] in Hr. cbv zeta in Hr.
  apply nrun_bind in Hr as (r1 & w1 & Hi & Hr). apply iteration_down in Hi; [|done..].
  destruct Hi as [[Hc Hsl]|(Hleft & Hw1 & s' & v & -> & Hv)].
  - left. assert (w' = w1) as -> by (destruct r1 as [x|e]; [by eapply stays_connected|by destruct Hr]).
    split; [done|]. pose proof (longest_wait_mono 0 (o_left w) f f ltac:(lia) ltac:(lia)). cbn [longest_wait] in *. lia.
  - destruct v as [|e].
    + destruct Hv as (Hl' & Ha & Hs1 & Hs2). apply (IH s' (S f)) in Hr; [|done|done|lia|lia].
      pose proof (longest_wait_step (o_left w) (o_left w1) (lp_attempt s) f (o_slept w1 - o_slept w) Hleft Hf ltac:(lia)).
      destruct Hr as [[Hc Hb]|(K1 & K2 & K3 & K4 & K5)]; [left; split; [done|lia]|right].
      split; [lia|]. split; [done|]. split; [done|]. lia.
    + destruct Hv as [He Hs]. apply nrun_bind in Hr as (r2 & w2 & Hrel & Hr). apply release_in_outage in Hrel as [-> ->].
      destruct Hr as [-> ->]. right. split; [done|]. split; [done|]. split; [by eexists _, _|]. split; [lia|].
      pose proof (longest_wait_step (o_left w) (o_left w1) (lp_attempt s) f 5000 Hleft Hf (longest_pause_least _)).
      pose proof (longest_wait_mono (o_left w1) (o_left w1) 0 (S f) ltac:(lia) ltac:(lia)). lia.
Qed.

Lemma forever_in_outage restarts n st w r w' :
  usable -> o_connected w = false -> (o_left w <= restarts)%nat -> (o_left w < n)%nat ->
  nrun answers (runStreamLoopForever body_fuel restarts n st) w r w' ->
  o_connected w' = true /\ o_slept w <= o_slept w' <= o_slept w + longest_wait (o_left w) 0.
Proof.
  intros Hu. revert st w. induction restarts as [|k IH]; intros st w Hw Hk Hn Hr; cbn [runStreamLoopForever] in Hr;
    apply nrun_bind in Hr as (r1 & w1 & Hi & Hr);
    (apply (run_from_outage n (loop_start st) 0) in Hi; [|done|done|by left|done|done]);
    (destruct Hi as [[Hc Hb]|(Hlt & Hdown & (st' & e & -> & He) & Hge & Hle)];
      [assert (w' = w1) as -> by (destruct r1 as [x|e]; [by eapply stays_connected|by destruct Hr]); done|]); [lia|].
  cbv beta iota in Hr. rewrite (proj2 He) in Hr. apply nrun_ask_bind in Hr as (u & w2 & Hx & Hr). answered Hx Hdown. subst w2.
  apply IH in Hr; [|done|cbn; lia|cbn; lia]. cbn [o_slept o_left] in Hr. destruct Hr as [Hc Hb]. split; [done|]. lia.
Qed.

(** C11. The stream comes back from every outage, with bounded waiting.  When [k]
    things fail before the next stream is opened - the seat is not selected or cannot
    be read, its lease is another process's, cannot be taken or is lost during the
    attempt, the lock, the trust or the cursor cannot be read, the request throws, or
    the server answers it with an error status other than its verdict (a 401, or a
    410 that names an eviction or a deleted cube) - in whatever order, then every run
    of the loops that allows [k] restarts, and more than [k] iterations in each, has
    opened a stream.  Before that it slept no longer than [k] pauses, each the longer
    of five seconds and a delay of half a second doubled with each failed attempt up
    to thirty seconds, with less than half a second of jitter.  Such runs exist. *)
Theorem run_loop_recovers k restarts n st :
  usable -> (k <= restarts)%nat -> (k < n)%nat ->
  (exists r w', nrun answers (runStreamLoopForever body_fuel restarts n st) (Outage k 0 false) r w') /\
  forall r w', nrun answers (runStreamLoopForever body_fuel restarts n st) (Outage k 0 false) r w' ->
    o_connected w' = true /\ 0 <= o_slept w' <= longest_wait k 0.
Proof.
  intros Hu Hr Hk. split; [by apply nrun_exists|]. intros r w' Hrun.
  by apply (forever_in_outage restarts n st (Outage k 0 false)) in Hrun.
Qed.
End Live.
