(* ===== verification/Heartbeat.v ===== *)
(** * The timers of the codex heartbeat ([src/log-stream.ts], [src/codex-app-wake.ts])

    Two module variables hold a repeating timer and a one-shot timer that starts
    the first again.  The runtime's live timers are part of the state, so that a
    timer nobody can clear any more would show.  Steps are the calls of the loop,
    the one-shot timer firing, and a tick that finds the app-server's socket
    dead - at any moment, since a tick is asynchronous. *)

From S2P Require Import Prelude.

Record timers := Timers {
  codexHeartbeatTimer : option nat;
  codexReArmTimer : option nat;
  live_intervals : gset nat;
  live_timeouts : gset nat;
  next_id : nat
}.

Definition no_timers : timers := Timers None None ∅ ∅ 0.

Inductive agent_kind := AgentClaude | AgentCodex | AgentOpencode.

#[export] Instance agent_kind_eq_dec : EqDecision agent_kind.
Proof. solve_decision. Defined.

Section Session.
(** What the session was started as. *)
Variable agentKind : agent_kind.
Variable remoteWakeEnabled : bool.

(** [null], or a new repeating timer. *)
(* src/src/codex-app-wake.ts 664-680 startCodexHeartbeat *)
Definition startCodexHeartbeat (t : timers) : timers * option nat :=
  if negb (bool_decide (agentKind = AgentCodex)) || negb remoteWakeEnabled then (t, None)
  else (Timers (codexHeartbeatTimer t) (codexReArmTimer t) ({[next_id t]} ∪ live_intervals t) (live_timeouts t) (S (next_id t)),
        Some (next_id t)).

(* src/src/log-stream.ts 258-263 ensureCodexHeartbeatStarted *)
Definition ensureCodexHeartbeatStarted (t : timers) : timers :=
  match codexHeartbeatTimer t with
  | Some _ => t
  | None =>
      let '(t', started) := startCodexHeartbeat t in
      Timers started (codexReArmTimer t') (live_intervals t') (live_timeouts t') (next_id t')
  end.

(* src/src/log-stream.ts 327-332 stopCodexHeartbeat *)
Definition stopCodexHeartbeat (t : timers) : timers :=
  Timers None None
    (match codexHeartbeatTimer t with Some i => live_intervals t ∖ {[i]} | None => live_intervals t end)
    (match codexReArmTimer t with Some i => live_timeouts t ∖ {[i]} | None => live_timeouts t end)
    (next_id t).

(* src/src/log-stream.ts 308-317 scheduleCodexHeartbeatReArm *)
Definition scheduleCodexHeartbeatReArm (t : timers) : timers :=
  match codexReArmTimer t with
  | Some _ => t
  | None => Timers (codexHeartbeatTimer t) (Some (next_id t)) (live_intervals t) ({[next_id t]} ∪ live_timeouts t) (S (next_id t))
  end.

(* src/src/log-stream.ts 298-301 onCodexAppServerSocketDead *)
Definition onCodexAppServerSocketDead (t : timers) : timers :=
  scheduleCodexHeartbeatReArm (stopCodexHeartbeat t).

(** The callback of the one-shot timer [i], which the runtime drops. *)
(* src/src/log-stream.ts 312-315 codexReArmTimer *)
Definition reArm_fires (i : nat) (t : timers) : timers :=
  ensureCodexHeartbeatStarted
    (Timers (codexHeartbeatTimer t) None (live_intervals t) (live_timeouts t ∖ {[i]}) (next_id t)).

Inductive label := Ensure | StopAll | SocketDead | ReArmFires (i : nat).

Inductive step : timers -> label -> timers -> Prop :=
| step_ensure t : step t Ensure (ensureCodexHeartbeatStarted t)
| step_stop t : step t StopAll (stopCodexHeartbeat t)
| step_dead t : step t SocketDead (onCodexAppServerSocketDead t)
| step_fires t i : i ∈ live_timeouts t -> step t (ReArmFires i) (reArm_fires i t).

Inductive steps : timers -> list label -> timers -> Prop :=
| steps_nil t : steps t [] t
| steps_snoc t ls t1 l t2 : steps t ls t1 -> step t1 l t2 -> steps t (ls ++ [l]) t2.

(** The variables name exactly the live timers. *)
Record timers_ok (t : timers) : Prop := {
  tk_interval : live_intervals t = match codexHeartbeatTimer t with Some i => {[i]} | None => ∅ end;
  tk_timeout : live_timeouts t = match codexReArmTimer t with Some i => {[i]} | None => ∅ end
}.

Lemma start_ok t : timers_ok t -> codexHeartbeatTimer t = None -> timers_ok (ensureCodexHeartbeatStarted t).
Proof.
  intros [Hi Ht] Hn. unfold ensureCodexHeartbeatStarted. rewrite Hn in *. unfold startCodexHeartbeat.
  destruct (_ || _); split; cbn; rewrite ?Hi; set_solver.
Qed.

Lemma step_ok t l t' : timers_ok t -> step t l t' -> timers_ok t'.
Proof.
  intros Hok Hs. assert (Hens : forall t, timers_ok t -> timers_ok (ensureCodexHeartbeatStarted t)).
  { intros u Hu. destruct (codexHeartbeatTimer u) eqn:E; [unfold ensureCodexHeartbeatStarted; by rewrite E|by apply start_ok]. }
  destruct Hok as [Hi Ht]. destruct Hs as [t|t|t|t i Hin].
  - apply Hens. by split.
  - split; cbn; [rewrite Hi; destruct (codexHeartbeatTimer t)|rewrite Ht; destruct (codexReArmTimer t)]; set_solver.
  - split; cbn; [rewrite Hi; destruct (codexHeartbeatTimer t)|rewrite Ht; destruct (codexReArmTimer t)]; set_solver.
  - apply Hens. rewrite Ht in Hin. destruct (codexReArmTimer t) as [j|]; [|set_solver].
    apply elem_of_singleton in Hin as ->. split; cbn; [done|]. rewrite Ht. set_solver.
Qed.

(** Stopped on purpose: nothing since has started the heartbeat again. *)
Fixpoint wants (ls : list label) (b : bool) : bool :=
  match ls with
  | [] => b
  | StopAll :: rest => wants rest false
  | _ :: rest => wants rest true
  end.

Lemma wants_snoc ls b l : wants (ls ++ [l]) b = match l with StopAll => false | _ => true end.
Proof. revert b. induction ls as [|x ls IH]; intros b; cbn; [by destruct l|destruct x; apply IH]. Qed.

(** The heartbeat's timers do not leak and do not die.  However the loop's
    calls, firing timers and dead sockets interleave, at most one repeating and one
    one-shot timer are live, and they are the ones the variables name, so that a
    teardown clears everything; and in a codex session with remote wake, unless
    the last step was a teardown, one of the two is live - after a dead socket the
    one-shot timer, whose firing starts the repeating one again. *)
Theorem heartbeat_timers_bounded ls t :
  steps no_timers ls t ->
  timers_ok t /\ (size (live_intervals t) <= 1)%nat /\ (size (live_timeouts t) <= 1)%nat /\
  (agentKind = AgentCodex -> remoteWakeEnabled = true -> wants ls false = true ->
     is_Some (codexHeartbeatTimer t) \/
     exists i, codexReArmTimer t = Some i /\ i ∈ live_timeouts t /\ is_Some (codexHeartbeatTimer (reArm_fires i t))) /\
  live_intervals (stopCodexHeartbeat t) = ∅ /\ live_timeouts (stopCodexHeartbeat t) = ∅.
Proof.
  intros Hs. assert (Hok : timers_ok t).
  { remember no_timers as t0. induction Hs as [t|t0 ls t1 l t2 Hs IH Hst]; [subst; by split|]. eapply step_ok; [by apply IH|done]. }
  split; [done|]. destruct Hok as [Hi Ht].
  split; [rewrite Hi; destruct (codexHeartbeatTimer t); rewrite ?size_singleton, ?size_empty; lia|].
  split; [rewrite Ht; destruct (codexReArmTimer t); rewrite ?size_singleton, ?size_empty; lia|].
  split; [|cbn; rewrite Hi, Ht; destruct (codexHeartbeatTimer t), (codexReArmTimer t); set_solver].
  intros Hk Hr. assert (Hstart : forall u, is_Some (codexHeartbeatTimer (ensureCodexHeartbeatStarted u))).
  { intros u. unfold ensureCodexHeartbeatStarted, startCodexHeartbeat. rewrite Hk, Hr, bool_decide_eq_true_2 by done.
    destruct (codexHeartbeatTimer u) eqn:E; [by rewrite E|by eexists]. }
  inversion Hs as [|? ls' t1 l t2 _ Hst]; subst; [done|]. rewrite wants_snoc.
  destruct Hst as [u|u|u|u i Hin]; intros Hw; [left; apply Hstart|done| |left; apply Hstart].
  right. exists (next_id u). split; [done|]. split; [cbn; set_solver|apply Hstart].
Qed.
End Session.
