(* ===== verification/LockedFile.v ===== *)
(** * A JSON state file under a lock file

    [src/local-server-cursor.ts] and [src/lifecycle-log-guard.ts] keep one JSON
    file each, change it under an exclusive lock file, and replace it by renaming
    a temporary file.  Here are the operations both use, the lock, and the proof
    that changes made under it do not interleave. *)

From S2P Require Import Prelude JsDate Effects LeaseFs.

Open Scope Z_scope.
Open Scope prog_scope.

Inductive file_op : Type -> Type :=
| EnsureDir : file_op (js_error + unit)
| OpenLock : file_op (js_error + unit)
| StatLock : file_op (js_error + Z)
| UnlinkLock : file_op (js_error + unit)
| CloseLock : file_op (js_error + unit)
| ReadState : file_op (js_error + content)
| WriteTemp (name : string) (c : content) : file_op (js_error + unit)
| RenameTemp (name : string) : file_op (js_error + unit)
| UnlinkTemp (name : string) : file_op (js_error + unit)
| Guard : file_op (js_error + unit)
| NowMs : file_op Z
| RandomHex : file_op string
| Pause (ms : Z) : file_op unit.

Definition filing := prog file_op.

(** The [finally] after the operation: a lock file that is already gone is fine. *)
Definition unlock : filing unit :=
  do! perform CloseLock;
  let! r := attempt (perform UnlinkLock) in
  match r with
  | inl e => if has_code ENOENT e then Ret tt else Throw e
  | inr _ => Ret tt
  end.

(** An attempt per unit of fuel; the code makes 200. *)
Fixpoint withLock_loop {A} (attempts : nat) (busy : string) (operation : filing A) : filing A :=
  match attempts with
  | O => Throw (JsError busy)
  | S n =>
      let! opened := attempt (perform OpenLock) in
      match opened with
      | inr _ => pfinally operation unlock
      | inl e =>
          if negb (has_code EEXIST e) then Throw e
          else
            let wait_ := (do! ask (Pause 10); withLock_loop n busy operation) in
            let! inspected := attempt (
              let! mtimeMs := perform StatLock in
              let! now := ask NowMs in
              if 30000 <? now - mtimeMs then do! perform UnlinkLock; Ret true else Ret false) in
            match inspected with
            | inr true => withLock_loop n busy operation
            | inr false => wait_
            | inl e' => if has_code ENOENT e' then withLock_loop n busy operation else Throw e'
            end
      end
  end.

(* src/src/local-server-cursor.ts 108-141 withLock *)
Definition withLock {A} (busy : string) (operation : filing A) : filing A :=
  do! perform EnsureDir; withLock_loop 200 busy operation.

(** ** The files

    The clock shows the thirty seconds from [epoch] on, so no lock looks stale. *)

Record files := Files {
  f_state : option content;
  f_lock : option Z;
  f_temps : gmap string content
}.

Section Files.
Variable epoch : Z.

Definition in_window (t : Z) : Prop := epoch <= t <= epoch + 30000.

(** An operation does what it says or fails and changes nothing; a failed write
    may leave any temporary file. *)
Definition file_act X (op : file_op X) (w : files) (x : X) (w' : files) : Prop :=
  match op in file_op X return X -> Prop with
  | OpenLock => fun x => match x with
      | inr _ => f_lock w = None /\ exists t, in_window t /\ w' = Files (f_state w) (Some t) (f_temps w)
      | inl _ => w' = w
      end
  | StatLock => fun x => w' = w /\ match x with inr t => in_window t | inl _ => True end
  | UnlinkLock => fun x => match x with
      | inr _ => w' = Files (f_state w) None (f_temps w)
      | inl _ => w' = w
      end
  | ReadState => fun x => w' = w /\ match x with
      | inr c => f_state w = Some c
      | inl e => has_code ENOENT e = true -> f_state w = None
      end
  | WriteTemp n c => fun x => match x with
      | inr _ => w' = Files (f_state w) (f_lock w) (<[n := c]> (f_temps w))
      | inl _ => exists temps, w' = Files (f_state w) (f_lock w) temps
      end
  | RenameTemp n => fun x => match x with
      | inr _ => exists c, f_temps w !! n = Some c /\ w' = Files (Some c) (f_lock w) (delete n (f_temps w))
      | inl _ => w' = w
      end
  | UnlinkTemp n => fun x => match x with
      | inr _ => w' = Files (f_state w) (f_lock w) (delete n (f_temps w))
      | inl _ => w' = w
      end
  | NowMs => fun x => w' = w /\ in_window x
  | _ => fun _ => w' = w
  end x.

(** ** What a process does to them

    The phase of a process: before the lock, under it - with what it read and the
    temporary file it wrote -, and after it.  [goal] is what its change is for. *)

Variable allowed : option content -> content -> Prop.

Inductive phase :=
| Outside
| Inside (seen : option (option content)) (temp : option (string * content))
| Finished
| GaveUp.

Record process := Process { pr_goal : option content -> Prop; pr_phase : phase }.

Definition move_to (p : process) (ph : phase) : process := Process (pr_goal p) ph.

Inductive file_step : process -> files -> process -> files -> Prop :=
| f_stay p w : file_step p w p w
| f_acquire p w t :
    pr_phase p = Outside -> f_lock w = None ->
    file_step p w (move_to p (Inside None None)) (Files (f_state w) (Some t) (f_temps w))
| f_see p w seen temp :
    pr_phase p = Inside seen temp -> file_step p w (move_to p (Inside (Some (f_state w)) temp)) w
| f_temp p w seen temp n c :
    pr_phase p = Inside seen temp ->
    file_step p w (move_to p (Inside seen (Some (n, c)))) (Files (f_state w) (f_lock w) (<[n := c]> (f_temps w)))
| f_temp_lost p w seen temp temps :
    pr_phase p = Inside seen temp ->
    file_step p w (move_to p (Inside seen None)) (Files (f_state w) (f_lock w) temps)
| f_commit p w old n c x :
    pr_phase p = Inside (Some old) (Some (n, c)) -> allowed old c -> f_temps w !! n = Some x ->
    file_step p w (move_to p (Inside (Some (Some c)) None)) (Files (Some x) (f_lock w) (delete n (f_temps w)))
| f_release p w seen temp :
    pr_phase p = Inside seen temp ->
    file_step p w (move_to p GaveUp) (Files (f_state w) None (f_temps w))
| f_give_up p w : file_step p w (move_to p GaveUp) w
| f_finish p w now temp w' :
    pr_phase p = Inside (Some now) temp -> pr_goal p now ->
    f_state w' = f_state w -> f_temps w' = f_temps w -> (f_lock w' = f_lock w \/ f_lock w' = None) ->
    file_step p w (move_to p Finished) w'.

(** ** The lock as the processes use it *)

Local Abbreviation sim := (simulates file_act file_step).

Section Goal.
Variable goal : option content -> Prop.

Definition at_phase (ph : phase) : process := Process goal ph.

(** The operation under the lock: it returns with the goal reached. *)
Definition reaches {A} (operation : filing A) : Prop :=
  sim (at_phase (Inside None None)) operation
    (fun _ s => exists now temp, s = at_phase (Inside (Some now) temp) /\ goal now)
    (fun _ s => exists seen temp, s = at_phase (Inside seen temp)).

Lemma sim_stay {X} s (op : file_op (js_error + X)) Q R :
  (forall w x w', file_act _ op w x w' -> w' = w) ->
  (forall a, Q a s) -> (forall e, R e s) -> sim s (perform op) Q R.
Proof.
  intros Hop HQ HR. apply simulates_perform. intros w x w' ->%Hop. exists s. split; [constructor|]. by destruct x.
Qed.

Lemma unlock_finishes now temp :
  goal now -> sim (at_phase (Inside (Some now) temp)) unlock (fun _ s => s = at_phase Finished) (fun _ _ => True).
Proof.
  intros Hg. unfold unlock. apply simulates_bind, sim_stay; [by intros w x w' Ha| |done]. intros [].
  apply simulates_bind, simulates_attempt, simulates_perform. intros w x w' Ha. cbn in Ha.
  exists (at_phase Finished). split; [|by destruct x as [e|[]]; [destruct (has_code ENOENT e)|]].
  apply (f_finish (at_phase (Inside (Some now) temp)) w now temp w'); [done|done| | |];
    destruct x; subst w'; try done; first [by left|by right].
Qed.

Lemma unlock_ends seen temp :
  sim (at_phase (Inside seen temp)) unlock (fun _ _ => True) (fun _ _ => True).
Proof.
  unfold unlock. apply simulates_bind, sim_stay; [by intros w x w' Ha| |done]. intros [].
  apply simulates_bind, simulates_attempt, simulates_perform. intros w x w' Ha. cbn in Ha. destruct x as [e|[]]; subst w'.
  - eexists. split; [apply f_stay|]. by destruct (has_code ENOENT e).
  - eexists. split; [by apply (f_release (at_phase (Inside seen temp)) w seen temp)|done].
Qed.

Lemma withLock_reaches {A} busy (operation : filing A) :
  reaches operation ->
  sim (at_phase Outside) (withLock busy operation) (fun _ s => s = at_phase Finished) (fun _ _ => True).
Proof.
  intros Hop. unfold withLock. apply simulates_bind, sim_stay; [by intros w x w' Ha| |done]. intros [].
  generalize 200%nat. intros attempts. induction attempts as [|n IH]; cbn [withLock_loop]; [done|].
  apply simulates_bind, simulates_attempt, simulates_perform. intros w x w' Ha. cbn in Ha. destruct x as [e|[]].
  - subst w'. exists (at_phase Outside). split; [apply f_stay|]. destruct (negb (has_code EEXIST e)); [done|]. cbv zeta.
    apply simulates_bind, simulates_attempt, simulates_bind, simulates_perform. intros w1 x w1' [-> Hm].
    exists (at_phase Outside). split; [apply f_stay|]. destruct x as [e'|m]; [by destruct (has_code ENOENT e')|].
    apply simulates_bind. cbn [simulates ask]. intros w2 t w2' [-> Ht]. exists (at_phase Outside). split; [apply f_stay|].
    unfold in_window in *. destruct (Z.ltb_spec 30000 (t - m)); [lia|]. cbn [simulates].
    apply simulates_bind. cbn [simulates ask]. intros w3 [] w3' Ha3. cbn in Ha3. subst w3'.
    exists (at_phase Outside). split; [apply f_stay|apply IH].
  - destruct Ha as (Hl & t & Ht & ->). eexists. split; [by apply (f_acquire (at_phase Outside) w t)|].
    unfold pfinally. apply simulates_bind, simulates_attempt.
    eapply simulates_mono; [exact Hop| |].
    + intros a s (now & temp & -> & Hg). apply simulates_bind.
      eapply simulates_mono; [by apply unlock_finishes| |done]. done.
    + intros e s (seen & temp & ->). apply simulates_bind. eapply simulates_mono; [apply unlock_ends| |]; done.
Qed.
End Goal.

(** ** Changes under the lock do not interleave *)

(** What always holds of the file. *)
Variable valid : option content -> Prop.
Hypothesis allowed_valid : forall old c, allowed old c -> valid old -> valid (Some c).

(** A goal reached stays reached. *)
Definition stable (goal : option content -> Prop) : Prop :=
  forall old c, valid old -> allowed old c -> goal old -> goal (Some c).

Definition is_inside (p : process) : Prop := exists seen temp, pr_phase p = Inside seen temp.

Record files_ok (ss : list process) (w : files) : Prop := {
  fo_valid : valid (f_state w);
  fo_one : forall i j p q, ss !! i = Some p -> ss !! j = Some q -> is_inside p -> is_inside q -> i = j;
  fo_locked : forall i p, ss !! i = Some p -> is_inside p -> f_lock w <> None;
  fo_seen : forall i p now temp, ss !! i = Some p -> pr_phase p = Inside (Some now) temp -> f_state w = now;
  fo_temp : forall i p seen n c, ss !! i = Some p -> pr_phase p = Inside seen (Some (n, c)) -> f_temps w !! n = Some c;
  fo_done : forall i p, ss !! i = Some p -> pr_phase p = Finished -> pr_goal p (f_state w);
  fo_stable : forall i p, ss !! i = Some p -> stable (pr_goal p)
}.

(** The state file only changes as allowed. *)
Definition changes (w w' : files) : Prop :=
  f_state w' = f_state w \/ exists c, f_state w' = Some c /\ allowed (f_state w) c.

Lemma inside_phase ph g : is_inside (Process g ph) <-> exists seen temp, ph = Inside seen temp.
Proof. done. Qed.

(** The process at [i] moves to [ph]; nobody else is inside, or nothing another
    process inside relies on changed. *)
Lemma files_ok_move ss w i p ph w' :
  files_ok ss w -> ss !! i = Some p ->
  (forall j q, j <> i -> ss !! j = Some q -> is_inside q -> f_lock w' = f_lock w /\ f_state w' = f_state w /\ f_temps w' = f_temps w) ->
  changes w w' ->
  (forall seen temp, ph = Inside seen temp -> is_inside p \/ f_lock w = None) ->
  (forall seen temp, ph = Inside seen temp -> f_lock w' <> None) ->
  (forall now temp, ph = Inside (Some now) temp -> f_state w' = now) ->
  (forall seen n c, ph = Inside seen (Some (n, c)) -> f_temps w' !! n = Some c) ->
  (ph = Finished -> pr_goal p (f_state w')) ->
  files_ok (<[i := move_to p ph]> ss) w'.
Proof.
  intros [Hval Hone Hlock Hseen Htemp Hdone Hstab] Hi Hothers Hch Hin Hl Hs Ht Hf.
  assert (Hcase : forall j q, <[i := move_to p ph]> ss !! j = Some q ->
    (j = i /\ q = move_to p ph) \/ (j <> i /\ ss !! j = Some q)).
  { intros j q Hj. destruct (decide (j = i)) as [->|Hne].
    - left. rewrite list_lookup_insert_eq in Hj by (by eapply lookup_lt_Some). by injection Hj.
    - right. by rewrite list_lookup_insert_ne in Hj by done. }
  assert (Halone : forall j q, is_inside (move_to p ph) -> j <> i -> ss !! j = Some q -> is_inside q -> False).
  { intros j q (seen & temp & Hph) Hj Hq Hqi. destruct (Hin seen temp Hph) as [Hpi|Hn].
    - by apply Hj, (Hone j i q p).
    - by apply (Hlock j q). }
  split.
  - destruct Hch as [-> |(c & -> & Hc)]; [done|by eapply allowed_valid].
  - intros j k q r [[-> ->]|[Hj Hq]]%Hcase [[-> ->]|[Hk Hr]]%Hcase Hqi Hri; [done|exfalso; by eapply Halone..|by eapply Hone].
  - intros j q [[-> ->]|[Hj Hq]]%Hcase Hqi; [destruct Hqi as (seen & temp & Hph); by eapply Hl|].
    destruct (Hothers j q Hj Hq Hqi) as (-> & _ & _). by eapply Hlock.
  - intros j q now temp [[-> ->]|[Hj Hq]]%Hcase Hph; [by eapply Hs|].
    destruct (Hothers j q Hj Hq) as (_ & -> & _); [by eexists _, _|]. by eapply Hseen.
  - intros j q seen n c [[-> ->]|[Hj Hq]]%Hcase Hph; [by eapply Ht|].
    destruct (Hothers j q Hj Hq) as (_ & _ & ->); [by eexists _, _|]. by eapply Htemp.
  - intros j q [[-> ->]|[Hj Hq]]%Hcase Hph; [by apply Hf|].
    specialize (Hdone j q Hq Hph). destruct Hch as [-> |(c & -> & Hc)]; [done|]. by eapply Hstab.
  - intros j q [[-> ->]|[Hj Hq]]%Hcase; [exact (Hstab i p Hi)|by eapply Hstab].
Qed.

Lemma files_ok_step ss w i p p' w' :
  files_ok ss w -> ss !! i = Some p -> file_step p w p' w' ->
  files_ok (<[i := p']> ss) w' /\ changes w w'.
Proof.
  intros Hok Hi Hs. assert (Hone := fo_one _ _ Hok).
  assert (Hwho : forall j q, is_inside p -> j <> i -> ss !! j = Some q -> is_inside q -> False).
  { intros j q Hp Hj Hq Hqi. by apply Hj, (Hone j i q p). }
  destruct Hs as [p w|p w t Hph Hl|p w seen temp Hph|p w seen temp n c Hph|p w seen temp temps Hph
    |p w old n c x Hph Ha Hx|p w seen temp Hph|p w|p w now temp w' Hph Hg Hst Htm Hlk].
  - split; [by rewrite list_insert_id|by left].
  - split; [|by left]. apply (files_ok_move ss w); [done|done| |by left|by right|done|done|done|done].
    intros j q _ Hq Hqi. exfalso. by eapply (fo_locked _ _ Hok).
  - split; [|by left]. assert (Hp : is_inside p) by (by eexists _, _).
    apply (files_ok_move ss w); [done|done|done|by left|by left| | | |done].
    + intros ? ? _. by eapply (fo_locked _ _ Hok).
    + by intros now temp' [= <- <-].
    + intros seen' n c [= <- ->]. by eapply (fo_temp _ _ Hok).
  - split; [|by left]. assert (Hp : is_inside p) by (by eexists _, _).
    apply (files_ok_move ss w); [done|done| |by left|by left| | | |done].
    + intros j q Hj Hq Hqi. exfalso. by eapply Hwho.
    + intros ? ? _. by eapply (fo_locked _ _ Hok).
    + intros now temp' [= -> <-]. cbn. by eapply (fo_seen _ _ Hok).
    + intros seen' m d [= <- <- <-]. cbn. apply lookup_insert_eq.
  - split; [|by left]. assert (Hp : is_inside p) by (by eexists _, _).
    apply (files_ok_move ss w); [done|done| |by left|by left| | |done|done].
    + intros j q Hj Hq Hqi. exfalso. by eapply Hwho.
    + intros ? ? _. by eapply (fo_locked _ _ Hok).
    + intros now temp' [= -> <-]. cbn. by eapply (fo_seen _ _ Hok).
  - assert (Hp : is_inside p) by (by eexists _, _).
    assert (Hold : f_state w = old) by (by eapply (fo_seen _ _ Hok)).
    assert (Hc : f_temps w !! n = Some c) by (by eapply (fo_temp _ _ Hok)). rewrite Hc in Hx. injection Hx as <-. subst old.
    assert (Hch : changes w (Files (Some c) (f_lock w) (delete n (f_temps w)))) by (right; by exists c).
    split; [|done]. apply (files_ok_move ss w); [done|done| |done|by left| | |done|done].
    + intros j q Hj Hq Hqi. exfalso. by eapply Hwho.
    + intros ? ? _. by eapply (fo_locked _ _ Hok).
    + by intros now temp' [= <- _].
  - assert (Hp : is_inside p) by (by eexists _, _). split; [|by left].
    apply (files_ok_move ss w); [done|done| |by left|done..].
    intros j q Hj Hq Hqi. exfalso. by eapply Hwho.
  - split; [|by left]. by apply (files_ok_move ss w); [done|done|done|by left|..].
  - assert (Hp : is_inside p) by (by eexists _, _). split; [|by left].
    apply (files_ok_move ss w); [done|done| |by left|done..|].
    + intros j q Hj Hq Hqi. exfalso. by eapply Hwho.
    + intros _. rewrite Hst. by rewrite (fo_seen _ _ Hok i p now temp).
Qed.

Lemma file_step_goal p w p' w' : file_step p w p' w' -> pr_goal p' = pr_goal p.
Proof. by intros []. Qed.

(** Processes that each make a change under the lock, or only read. *)
Definition changer {A} (goal : option content -> Prop) (p : filing A) : Prop :=
  stable goal /\ sim (Process goal Outside) p (fun _ s => pr_phase s = Finished) (fun _ _ => True).

Section Abstract.

Local Abbreviation amoves := (abstract_moves file_step (fun _ _ => False)
  (fun _ s => pr_phase s = Outside /\ stable (pr_goal s))).

Lemma files_ok_start ss w s :
  files_ok ss w -> pr_phase s = Outside -> stable (pr_goal s) -> files_ok (ss ++ [s]) w.
Proof.
  intros [H0 H1 H2 H3 H4 H5 H6] Hph Hgs.
  assert (Hnew : forall j q, (ss ++ [s]) !! j = Some q -> ss !! j = Some q \/ pr_phase q = Outside /\ stable (pr_goal q)).
  { intros j q [Hq|[_ Hq]]%lookup_app_Some; [by left|]. apply list_lookup_singleton_Some in Hq as [_ <-]. by right. }
  assert (Hout : forall q, pr_phase q = Outside -> is_inside q -> False) by (intros q Hq (? & ? & ?); congruence).
  split; [done|..].
  - intros j k q r [Hq|[Hq _]]%Hnew [Hr'|[Hr' _]]%Hnew Hqi Hri; try (exfalso; by eapply Hout). by eapply H1.
  - intros j q [Hq|[Hq _]]%Hnew Hqi; [by eapply H2|exfalso; by eapply Hout].
  - intros j q now temp [Hq|[Hq _]]%Hnew Hqi; [by eapply H3|congruence].
  - intros j q seen n d [Hq|[Hq _]]%Hnew Hqi; [by eapply H4|congruence].
  - intros j q [Hq|[Hq _]]%Hnew Hqi; [by eapply H5|congruence].
  - intros j q [Hq|[_ Hq]]%Hnew; [by eapply H6|done].
Qed.

Lemma files_ok_nobody w : valid (f_state w) -> files_ok [] w.
Proof. by split. Qed.

Lemma abstract_changes ss w ss' w' :
  rtc amoves (ss, w) (ss', w') -> files_ok ss w -> files_ok ss' w' /\ rtc changes w w'.
Proof.
  intros Hr. remember (ss, w) as c eqn:Ec. remember (ss', w') as c' eqn:Ec'. revert ss w Ec Ec'.
  induction Hr as [c|c c1 c2 Hstep Hr IH]; intros ss w -> Ec' Hok.
  - injection Ec' as -> ->. split; [done|apply rtc_refl].
  - inversion Hstep as [ss0 i s s' w0 w1 Hi Hst|ss0 s w0 [Hph Hgs]|]; subst; [| |done].
    + destruct (files_ok_step _ _ _ _ _ _ Hok Hi Hst) as [Hok1 Hc].
      destruct (IH _ _ eq_refl eq_refl Hok1) as [? ?]. split; [done|by eapply rtc_l].
    + by apply (IH _ _ eq_refl eq_refl), files_ok_start.
Qed.

Lemma abstract_goal ss w ss' w' goal :
  rtc amoves (ss, w) (ss', w') -> (exists p, ss !! 0%nat = Some p /\ pr_goal p = goal) ->
  exists p, ss' !! 0%nat = Some p /\ pr_goal p = goal.
Proof.
  intros Hr. remember (ss, w) as c eqn:Ec. remember (ss', w') as c' eqn:Ec'. revert ss w Ec Ec'.
  induction Hr as [c|c c1 c2 Hstep Hr IH]; intros ss w -> Ec' (p & Hp & Hpg).
  - injection Ec' as -> ->. by exists p.
  - inversion Hstep as [ss0 i s s' w0 w1 Hi Hst|ss0 s w0 [Hph Hgs]|]; subst; [| |done]; apply (IH _ _ eq_refl eq_refl).
    + destruct i as [|i]; [|exists p; by rewrite list_lookup_insert_ne].
      simplify_eq. exists s'. split; [by rewrite list_lookup_insert_eq by (by eapply lookup_lt_Some)|].
      by apply file_step_goal in Hst.
    + exists p. by rewrite lookup_app_l by (by eapply lookup_lt_Some).
Qed.
End Abstract.

Section Pool.
Context {A : Type}.
Variable starts : files -> filing A -> Prop.
Hypothesis starts_changers : forall w p, starts w p -> exists goal, changer goal p.

Local Abbreviation moves := (pool_moves file_act starts (fun _ _ => False)).

(** The first process and any others, in any interleaving: the file changes only
    as allowed, and once the first has returned its goal holds for good. *)
Lemma changes_serialize p goal w ps' w' :
  valid (f_state w) -> changer goal p -> rtc moves ([p], w) (ps', w') ->
  valid (f_state w') /\ rtc changes w w' /\ forall a, ps' !! 0%nat = Some (Ret a) -> goal (f_state w').
Proof.
  intros Hval [Hst Hsim] Hr.
  destruct (pool_simulation_to file_act file_step starts (fun _ _ => False)
    (fun _ s => pr_phase s = Finished) (fun _ _ => True)
    (fun _ s => pr_phase s = Outside /\ stable (pr_goal s)) [p] w ps' w' [Process goal Outside]) as (ss' & Hss & Habs).
  - intros v q Hq. destruct (starts_changers v q Hq) as (g & Hg & Hs). by exists (Process g Outside).
  - constructor; [exact Hsim|constructor].
  - exact Hr.
  - destruct (abstract_changes _ _ _ _ Hss) as [Hok Hch].
    { exact (files_ok_start [] w (Process goal Outside) (files_ok_nobody w Hval) eq_refl Hst). }
    destruct (abstract_goal _ _ _ _ goal Hss) as (q & Hq & Hqg).
    + by exists (Process goal Outside).
    + split; [by destruct Hok|]. split; [done|]. intros a Ha. destruct (Forall2_lookup_r _ _ _ _ _ Habs Ha) as (s & Hs & Hsa).
      rewrite Hq in Hs. injection Hs as <-. cbn in Hsa. rewrite <- Hqg. by eapply (fo_done _ _ Hok).
Qed.
End Pool.
End Files.
