(* ===== verification/LocalServerCursor.v ===== *)
(** * The stored cursors ([src/local-server-cursor.ts])

    One JSON file holds a cursor per seat and purpose.  The lock file and the
    temporary file are those of [LockedFile]. *)

From S2P Require Import Prelude JsDate JsonText Effects Sha256 LeaseFs LockedFile.

Open Scope Z_scope.
Open Scope prog_scope.

(** [new URL(s).origin], [None] when the constructor throws: the runtime's URL
    parser, of which only this one question is asked. *)
Class UrlEnv := url_origin : string -> option string.

(* src/src/local-server-cursor.ts 17-32 LocalServerCursorBinding *)
Record cursor_binding := CursorBinding {
  cb_origin : string;
  cb_trustIdentity : string;
  cb_cubeId : string;
  cb_droneId : string;
  cb_stream : bool
}.

Section Cursor.
Context `{UrlEnv} `{JsDate}.

Definition invalid_binding : js_error := JsError "invalid local Borg server cursor binding".

(* src/src/local-server-cursor.ts 39-63 cursorKey *)
Definition cursorKey (b : cursor_binding) : js_error + string :=
  match url_origin (cb_origin b) with
  | None => inl (ErrorOf "TypeError" (Some "ERR_INVALID_URL") None "Invalid URL" [])
  | Some o =>
      if negb (String.eqb o (cb_origin b)) || negb (is_uuid (cb_cubeId b)) || negb (is_uuid (cb_droneId b)) then inl invalid_binding
      else inr (sha256_hex (cb_origin b +:+ nul +:+ cb_trustIdentity b +:+ nul +:+ cb_cubeId b +:+ nul +:+ cb_droneId b +:+
                            (if cb_stream b then nul +:+ "stream" else "")))
  end.

(** [v ?? ''], then [String(..)] *)
Definition string_or_empty (v : option json) : string :=
  match v with None | Some JNull => "" | Some x => js_String x end.

(* src/src/local-server-cursor.ts 65-72 validCursor *)
Definition validCursor (v : json) : bool :=
  match v with
  | JObj _ =>
      is_uuid (string_or_empty (jget "id" v)) &&
      match jget "created_at" v with
      | Some (JStr s) => match date_parse s with Some t => String.eqb (to_iso t) s | None => false end
      | _ => false
      end
  | _ => false
  end.

(** The cursors of a parsed file that is one of this program's. *)
Definition cursors_of (parsed : json) : option (list (string * json)) :=
  if bool_decide (jint (jget "version" parsed) = Some 1) then
    match jget "cursors" parsed with
    | Some (JObj cursors) => if forallb (fun kv => validCursor (snd kv)) cursors then Some cursors else None
    | _ => None
    end
  else None.

Definition corrupt : js_error := JsError "local Borg server cursor state is corrupt".

Definition empty_state : json := JObj [("version", JNum 1); ("cursors", JObj [])].

(** The parsed file and its cursors. *)
(* src/src/local-server-cursor.ts 74-93 readState *)
Definition readState : filing (json * list (string * json)) :=
  let! r := attempt (perform ReadState) in
  match r with
  | inl e => if has_code ENOENT e then Ret (empty_state, []) else Throw corrupt
  | inr c =>
      match json_parse c with
      | Some parsed => match cursors_of parsed with Some cursors => Ret (parsed, cursors) | None => Throw corrupt end
      | None => Throw corrupt
      end
  end.

(** [state.cursors[..] = ..] and [delete state.cursors[..]] on the parsed file *)
Definition with_cursors (cursors : list (string * json)) (state : json) : json :=
  match state with JObj fields => JObj (set_member "cursors" (JObj cursors) fields) | v => v end.

Fixpoint remove_member (k : string) (l : list (string * json)) : list (string * json) :=
  match l with
  | [] => []
  | kv :: rest => if String.eqb k (fst kv) then remove_member k rest else kv :: remove_member k rest
  end.

Definition continuationGuard (guarded : bool) : filing unit := if guarded then perform Guard else Ret tt.

(** [pid] makes the name of the temporary file. *)
(* src/src/local-server-cursor.ts 95-106 writeState *)
Definition writeState (pid : Z) (state : json) (guarded : bool) : filing unit :=
  do! perform EnsureDir;
  let! now := ask NowMs in
  let temporary := "local-server-cursors.json." +:+ js_String (JNum pid) +:+ "." +:+ js_String (JNum now) +:+ ".tmp" in
  do! perform (WriteTemp temporary (Json state));
  pcatch (do! continuationGuard guarded; perform (RenameTemp temporary))
    (fun e => do! attempt (perform (UnlinkTemp temporary)); Throw e).

Definition busy : string := "local Borg server cursor state is busy".

(* src/src/local-server-cursor.ts 143-149 getLocalServerCursor *)
Definition getLocalServerCursor (b : cursor_binding) : filing (option json) :=
  match cursorKey b with
  | inl e => Throw e
  | inr key => let! (_, cursors) := readState in Ret (assoc key cursors)
  end.

(** [prior.created_at > cursor.created_at || ..]: the members of a valid cursor are
    strings, or print as one. *)
(* src/src/local-server-cursor.ts 205-209 prior *)
Definition at_or_after (prior cursor : json) : bool :=
  let at_ v := default "" (jstr (jget "created_at" v)) in
  let id v := string_or_empty (jget "id" v) in
  string_ltb (at_ cursor) (at_ prior) ||
  String.eqb (at_ prior) (at_ cursor) && string_leb (id cursor) (id prior).

(* src/src/local-server-cursor.ts 194-215 advanceLocalServerCursor *)
Definition advanceLocalServerCursor (pid : Z) (b : cursor_binding) (cursor : json) (guarded : bool) : filing unit :=
  if negb (validCursor cursor) then Throw (JsError "invalid local Borg server cursor")
  else
    match cursorKey b with
    | inl e => Throw e
    | inr key =>
        withLock busy (
          do! continuationGuard guarded;
          let! (state, cursors) := readState in
          if match assoc key cursors with Some prior => at_or_after prior cursor | None => false end then Ret tt
          else writeState pid (with_cursors (set_member key cursor cursors) state) guarded)
    end.

(* src/src/local-server-cursor.ts 226-236 clearLocalServerCursor *)
Definition clearLocalServerCursor (pid : Z) (b : cursor_binding) : filing unit :=
  match cursorKey b with
  | inl e => Throw e
  | inr key =>
      withLock busy (
        let! (state, cursors) := readState in
        match assoc key cursors with
        | None => Ret tt
        | Some _ => writeState pid (with_cursors (remove_member key cursors) state) false
        end)
  end.
End Cursor.

(** * Importing a cursor ([readPrivateLocalServerCursor])

    The read that fails closed: a file that is not this user's private regular
    file, or not what it was when it was looked at, reads as no cursor. *)

Record file_meta := FileMeta { fm_dev : Z; fm_ino : Z; fm_isFile : bool; fm_mode : Z; fm_uid : Z }.

(** What the function does to the file: it never writes and never locks. *)
Inductive private_op : Type -> Type :=
| LstatFile : private_op (js_error + file_meta)
| OpenNoFollow : private_op (js_error + unit)
| HandleMeta : private_op (js_error + file_meta)
| HandleRead : private_op (js_error + content)
| CloseHandle : private_op (js_error + unit).

Section Private.
Context `{UrlEnv} `{JsDate}.
(** [process.getuid()], where the platform has it. *)
Variable getuid : option Z.

(** [(metadata.mode & 0o022) !== 0]: group or others may write. *)
Definition writable_by_others (mode : Z) : bool := negb (Z.land mode 18 =? 0).

Definition own_private_file (before m : file_meta) : bool :=
  (fm_dev m =? fm_dev before) && (fm_ino m =? fm_ino before) && fm_isFile m && negb (writable_by_others (fm_mode m)) &&
  match getuid with Some uid => fm_uid m =? uid | None => true end.

(** [parsed?.version === 1] and [parsed.cursors] is an object, then the entry. *)
Definition imported_cursor (parsed : json) (key : string) : option json :=
  if bool_decide (jint (jget "version" parsed) = Some 1) then
    match jget "cursors" parsed with
    | Some cursors =>
        match jget key cursors with
        | Some v =>
            if validCursor v then
              Some (JObj [("id", default JNull (jget "id" v)); ("created_at", default JNull (jget "created_at" v))])
            else None
        | None => None
        end
    | None => None
    end
  else None.

(* src/src/local-server-cursor.ts 159-192 readPrivateLocalServerCursor *)
Definition readPrivateLocalServerCursor (b : cursor_binding) : prog private_op (option json) :=
  let! before := attempt (perform LstatFile) in
  match before with
  | inl _ => Ret None
  | inr before =>
      if negb (fm_isFile before) then Ret None
      else
        let! opened := attempt (perform OpenNoFollow) in
        match opened with
        | inl _ => Ret None
        | inr _ =>
            pfinally (
              let! r := attempt (
                let! metadata := perform HandleMeta in
                if negb (own_private_file before metadata) then Ret None
                else
                  let! c := perform HandleRead in
                  match json_parse c with
                  | None => Throw (ErrorOf "SyntaxError" None None "" [])
                  | Some parsed =>
                      match cursorKey b with
                      | inl e => Throw e
                      | inr key => Ret (imported_cursor parsed key)
                      end
                  end) in
              Ret (match r with inl _ => None | inr v => v end))
              (perform CloseHandle)
        end
  end.

Local Abbreviation tr := (list (@entry private_op)).

(** Why a cursor may be imported. *)
Definition trusted_read (b : cursor_binding) (v : json) (t : tr) : Prop :=
  exists before m parsed key prior,
    Did LstatFile (inr before) ∈ t /\ Did HandleMeta (inr m) ∈ t /\ Did HandleRead (inr (Json parsed)) ∈ t /\
    fm_isFile before = true /\ own_private_file before m = true /\
    cursorKey b = inr key /\ jint (jget "version" parsed) = Some 1 /\
    (exists cursors, jget "cursors" parsed = Some cursors /\ jget key cursors = Some prior) /\ validCursor prior = true /\
    jget "id" v = jget "id" prior /\ jget "created_at" v = jget "created_at" prior.

Lemma imported_cursor_spec parsed key v :
  imported_cursor parsed key = Some v ->
  jint (jget "version" parsed) = Some 1 /\ exists cursors prior,
    jget "cursors" parsed = Some cursors /\ jget key cursors = Some prior /\ validCursor prior = true /\
    jget "id" v = jget "id" prior /\ jget "created_at" v = jget "created_at" prior.
Proof.
  unfold imported_cursor. case_bool_decide as Hv; [|done]. destruct (jget "cursors" parsed) as [cursors|] eqn:Hc; [|done].
  destruct (jget key cursors) as [prior|] eqn:Hk; [|done]. destruct (validCursor prior) eqn:Hp; [|done]. intros [= <-].
  split; [done|]. exists cursors, prior. split; [done|]. split; [done|]. split; [done|].
  unfold validCursor in Hp. destruct prior as [| | | | | |fields]; try done. apply andb_true_iff in Hp as [Hid Hat].
  cbn [jget] in Hid, Hat.
  assert (Hsome : forall x : option json, x <> None -> Some (default JNull x) = x) by (by intros []).
  split; cbn; apply Hsome; intros E.
  - by rewrite E in Hid.
  - by rewrite E in Hat.
Qed.

(** A cursor is imported only from this user's own private file.  Whatever the
    file system answers, the call returns, unless closing the handle fails; and it
    returns a cursor only when the path named a regular file, the handle is on
    that same file, nobody else may write it and it belongs to this user, its text
    is a state of version 1, and the entry under the binding's key is a valid
    cursor, whose two members it returns.  Everything else reads as no cursor. *)
Theorem private_cursor_fails_closed b :
  traces (readPrivateLocalServerCursor b) []
    (fun v t => forall c, v = Some c -> trusted_read b c t)
    (fun e t => exists t', t = t' ++ [Did CloseHandle (inl e)]).
Proof.
  unfold readPrivateLocalServerCursor. apply traces_bind, traces_attempt, traces_perform; [intros before|by intros e].
  destruct (fm_isFile before) eqn:Hreg; cbn [negb]; [|done].
  apply traces_bind, traces_attempt, traces_perform; [intros []|by intros e].
  unfold pfinally. apply traces_bind, traces_attempt, traces_bind, traces_attempt.
  assert (Hend : forall (v : option json) t,
    (forall c, v = Some c -> trusted_read b c t) ->
    traces (do! perform CloseHandle; Ret v) t (fun v t => forall c, v = Some c -> trusted_read b c t)
      (fun e t => exists t', t = t' ++ [Did CloseHandle (inl e)])).
  { intros v t Hv. apply traces_bind, traces_perform; [|intros e; by eexists]. intros [] c Hc.
    destruct (Hv c Hc) as (x1 & x2 & x3 & x4 & x5 & H1 & H2 & H3 & Hrest). exists x1, x2, x3, x4, x5.
    split; [apply elem_of_app; by left|]. split; [apply elem_of_app; by left|]. split; [apply elem_of_app; by left|done]. }
  apply traces_bind, traces_perform; [intros m|by intros e; apply Hend].
  destruct (own_private_file before m) eqn:Hown; cbn [negb]; [|by apply Hend].
  apply traces_bind, traces_perform; [intros c|by intros e; apply Hend].
  destruct c as [parsed|text]; cbn [json_parse]; [|by apply Hend].
  destruct (cursorKey b) as [e|key] eqn:Hk; [by apply Hend|]. apply Hend. intros c Hc.
  apply imported_cursor_spec in Hc as (Hv & cursors & prior & Hcs & Hp & Hvalid & Hid & Hat).
  exists before, m, parsed, key, prior. rewrite !elem_of_app, !list_elem_of_singleton. split_and!; try done; auto.
  by exists cursors.
Qed.
End Private.
