(* ===== verification/CursorSpec.v ===== *)
(** * The stored cursors only move forward

    The order of cursors, what the file holds for a key, and the two theorems:
    under any interleaving of advances no cursor goes back and none that was
    stored is lost; and alone each operation does what it is for. *)

From S2P Require Import Prelude JsDate JsonText Effects Sha256 LeaseFs LockedFile LocalServerCursor.

Open Scope Z_scope.
Open Scope prog_scope.

(** ** Members of objects *)

Lemma assoc_remove_member k k' fields :
  assoc k (remove_member k' fields) = if String.eqb k k' then None else assoc k fields.
Proof.
  induction fields as [|[k1 v1] rest IH]; cbn; [by destruct (String.eqb k k')|].
  destruct (String.eqb_spec k' k1) as [->|Hne]; cbn; rewrite IH; [by destruct (String.eqb k k1)|].
  destruct (String.eqb_spec k k1) as [->|]; [|done].
  destruct (String.eqb_spec k1 k') as [->|]; done.
Qed.

Lemma forallb_remove_member (P : json -> bool) k fields :
  forallb (fun kv => P (snd kv)) fields = true -> forallb (fun kv => P (snd kv)) (remove_member k fields) = true.
Proof.
  induction fields as [|[k1 v1] rest IH]; cbn; [done|].
  intros [H1 H2]%andb_true_iff. destruct (String.eqb k k1); cbn; [by apply IH|]. by rewrite H1, IH.
Qed.

Section Spec.
Context `{UrlEnv} `{JsDate}.

(** ** What the file holds *)

Definition file_cursors (f : option content) : option (list (string * json)) :=
  match f with
  | None => Some []
  | Some c => match json_parse c with Some parsed => cursors_of parsed | None => None end
  end.

(** The cursor stored under a key. *)
Definition stored (f : option content) (key : string) : option json :=
  match file_cursors f with Some l => assoc key l | None => None end.

Lemma cursors_of_fields parsed l : cursors_of parsed = Some l -> exists fields, parsed = JObj fields.
Proof. destruct parsed; try done. by eexists. Qed.

Lemma cursors_of_valid parsed l : cursors_of parsed = Some l -> forallb (fun kv => validCursor (snd kv)) l = true.
Proof.
  unfold cursors_of. case_bool_decide; [|done]. destruct (jget "cursors" parsed) as [[]|]; try done.
  destruct (forallb _ _) eqn:E; [|done]. by intros [= <-].
Qed.

Lemma cursors_of_with parsed l l' :
  cursors_of parsed = Some l -> forallb (fun kv => validCursor (snd kv)) l' = true ->
  cursors_of (with_cursors l' parsed) = Some l'.
Proof.
  intros Hp Hl'. destruct (cursors_of_fields _ _ Hp) as [fields ->]. unfold cursors_of in *. cbn [with_cursors jget] in *.
  case_bool_decide as Hv; [|done]. rewrite !assoc_set_member. cbn [String.eqb Ascii.eqb Bool.eqb].
  rewrite bool_decide_eq_true_2 by done. by rewrite Hl'.
Qed.

Lemma cursors_of_empty : cursors_of empty_state = Some [].
Proof. done. Qed.

(** ** The order of cursors *)

Definition position_key (v : json) : string * string :=
  (default "" (jstr (jget "created_at" v)), string_or_empty (jget "id" v)).

Definition pair_ltb (a b : string * string) : bool :=
  string_ltb (fst a) (fst b) || String.eqb (fst a) (fst b) && string_ltb (snd a) (snd b).

Lemma at_or_after_order p c : at_or_after p c = negb (pair_ltb (position_key p) (position_key c)).
Proof.
  unfold at_or_after, pair_ltb, position_key, string_leb. cbn [fst snd].
  set (a := default "" (jstr (jget "created_at" p))). set (b := default "" (jstr (jget "created_at" c))).
  destruct (string_ltb_total a b) as [Hl|[->|Hl]].
  - rewrite Hl, (string_ltb_asym _ _ Hl). cbn. destruct (String.eqb_spec a b) as [E|]; [|done].
    rewrite E, string_ltb_irrefl in Hl. done.
  - rewrite string_ltb_irrefl, String.eqb_refl. done.
  - rewrite Hl, (string_ltb_asym _ _ Hl). cbn. destruct (String.eqb_spec a b) as [E|]; [|done].
    rewrite E, string_ltb_irrefl in Hl. done.
Qed.

Lemma pair_ltb_irrefl a : pair_ltb a a = false.
Proof. unfold pair_ltb. by rewrite !string_ltb_irrefl, andb_false_r. Qed.

Lemma pair_ltb_trans a b c : pair_ltb a b = true -> pair_ltb b c = true -> pair_ltb a c = true.
Proof.
  unfold pair_ltb. rewrite !orb_true_iff, !andb_true_iff, !String.eqb_eq.
  intros [Hab|[Eab Hab]] [Hbc|[Ebc Hbc]].
  - left. by eapply string_ltb_trans.
  - left. by rewrite <- Ebc.
  - left. by rewrite Eab.
  - right. split; [congruence|]. by eapply string_ltb_trans.
Qed.

(** [next] is [prior] or after it. *)
Definition not_before (prior next : json) : Prop := next = prior \/ at_or_after prior next = false.

Lemma not_before_trans a b c : not_before a b -> not_before b c -> not_before a c.
Proof.
  intros [->|Hab] [->|Hbc]; [by left|by right|by right|]. right. rewrite at_or_after_order in *.
  apply negb_false_iff in Hab, Hbc. apply negb_false_iff. by eapply pair_ltb_trans.
Qed.

(** The change an advance may make. *)
Definition forward_only (old : option content) (new : content) : Prop :=
  forall key prior, stored old key = Some prior -> exists next, stored (Some new) key = Some next /\ not_before prior next.

(** What an advance of [key] is for. *)
Definition reached (key : string) (cursor : json) (f : option content) : Prop :=
  exists v, stored f key = Some v /\ (v = cursor \/ at_or_after v cursor = true).

Lemma reached_stable key cursor : stable forward_only (fun _ => True) (reached key cursor).
Proof.
  intros old c _ Hc (v & Hv & Hvc). destruct (Hc key v Hv) as (next & Hn & Hle). exists next. split; [done|].
  destruct Hle as [->|Hlt]; [done|]. right. rewrite at_or_after_order in *. apply negb_false_iff in Hlt. apply negb_true_iff.
  destruct (pair_ltb (position_key next) (position_key cursor)) eqn:E; [|done].
  assert (Hvc' := pair_ltb_trans _ _ _ Hlt E). destruct Hvc as [->|Hvc]; [by rewrite pair_ltb_irrefl in Hvc'|].
  by rewrite Hvc' in Hvc.
Qed.

(** ** An advance under the lock *)

Section Window.
Variable epoch : Z.
Local Abbreviation sim := (simulates (file_act epoch) (file_step forward_only)).

Lemma sim_guard g s (Q : unit -> process -> Prop) (R : js_error -> process -> Prop) :
  Q tt s -> (forall e, R e s) -> sim s (continuationGuard g) Q R.
Proof.
  intros HQ HR. unfold continuationGuard. destruct g; [|done].
  apply sim_stay; [by intros w x w' Ha|by intros []|done].
Qed.

(** Reading the file under the lock. *)
Lemma sim_read goal seen temp Q (R : js_error -> process -> Prop) :
  (forall parsed l now, file_cursors now = Some l -> cursors_of parsed = Some l ->
     Q (parsed, l) (at_phase goal (Inside (Some now) temp))) ->
  (forall e s, (exists seen, s = at_phase goal (Inside seen temp)) -> R e s) ->
  sim (at_phase goal (Inside seen temp)) readState Q R.
Proof.
  intros HQ HR. unfold readState. apply simulates_bind, simulates_attempt, simulates_perform. intros w x w' [-> Hx].
  exists (at_phase goal (Inside (Some (f_state w)) temp)). split; [by apply (f_see _ (at_phase goal (Inside seen temp)) w seen temp)|].
  destruct x as [e|c].
  - destruct (has_code ENOENT e) eqn:He; [|by apply HR; eexists]. rewrite (Hx eq_refl). by apply HQ.
  - rewrite Hx. destruct (json_parse c) as [parsed|] eqn:Hc; [|by apply HR; eexists].
    destruct (cursors_of parsed) as [l|] eqn:Hl; [|by apply HR; eexists].
    apply HQ; [|done]. cbn. by rewrite Hc.
Qed.

(** Replacing the file under the lock. *)
Lemma sim_write goal pid now state g (Q : unit -> process -> Prop) (R : js_error -> process -> Prop) :
  forward_only now (Json state) ->
  Q tt (at_phase goal (Inside (Some (Some (Json state))) None)) ->
  (forall e s, (exists seen temp, s = at_phase goal (Inside seen temp)) -> R e s) ->
  sim (at_phase goal (Inside (Some now) None)) (writeState pid state g) Q R.
Proof.
  intros Hf HQ HR. unfold writeState. apply simulates_bind, sim_stay; [by intros w x w' Ha| |by intros e; apply HR; eexists _, _].
  intros []. apply simulates_bind. cbn [simulates ask]. intros w t w' [-> _].
  exists (at_phase goal (Inside (Some now) None)). split; [apply f_stay|].
  set (name := "local-server-cursors.json." +:+ _). apply simulates_bind, simulates_perform. intros w1 x w1' Ha. cbn in Ha.
  destruct x as [e|[]].
  { destruct Ha as [temps ->]. eexists. split; [by apply (f_temp_lost _ (at_phase goal (Inside (Some now) None)) w1 (Some now) None temps)|].
    apply HR. by eexists _, _. }
  subst w1'. exists (at_phase goal (Inside (Some now) (Some (name, Json state)))).
  split; [by apply (f_temp _ (at_phase goal (Inside (Some now) None)) w1 (Some now) None)|].
  assert (Hdrop : forall e, sim (at_phase goal (Inside (Some now) (Some (name, Json state))))
    (do! attempt (perform (UnlinkTemp name)); Throw e) Q R).
  { intros e. apply simulates_bind, simulates_attempt, simulates_perform. intros w2 x w2' Ha. cbn in Ha.
    destruct x as [e'|[]]; subst w2'.
    - eexists. split; [apply f_stay|]. apply HR. by eexists _, _.
    - eexists. split; [by apply (f_temp_lost _ (at_phase goal (Inside (Some now) (Some (name, Json state)))) w2 (Some now) (Some (name, Json state)))|].
      apply HR. by eexists _, _. }
  apply simulates_catch, simulates_bind, sim_guard; [|apply Hdrop].
  apply simulates_perform. intros w2 x w2' Ha. cbn in Ha. destruct x as [e|[]].
  - subst w2'. eexists. split; [apply f_stay|apply Hdrop].
  - destruct Ha as (c & Hc & ->). eexists.
    split; [by apply (f_commit _ (at_phase goal (Inside (Some now) (Some (name, Json state)))) w2 now name (Json state) c)|]. done.
Qed.

Lemma forward_set f parsed l key cursor :
  file_cursors f = Some l -> cursors_of parsed = Some l -> validCursor cursor = true ->
  (forall prior, assoc key l = Some prior -> at_or_after prior cursor = false) ->
  forward_only f (Json (with_cursors (set_member key cursor l) parsed)) /\
  stored (Some (Json (with_cursors (set_member key cursor l) parsed))) key = Some cursor.
Proof.
  intros Hf Hp Hv Hafter.
  assert (Hnew : cursors_of (with_cursors (set_member key cursor l) parsed) = Some (set_member key cursor l)).
  { eapply cursors_of_with; [done|]. apply forallb_set_member; [done|]. by eapply cursors_of_valid. }
  split.
  - intros k prior. unfold stored. rewrite Hf. cbn [file_cursors json_parse]. rewrite Hnew, assoc_set_member. intros Hk.
    destruct (String.eqb_spec k key) as [->|]; [|by exists prior; split; [|left]].
    exists cursor. split; [done|]. right. by apply Hafter.
  - unfold stored. cbn [file_cursors json_parse]. by rewrite Hnew, assoc_set_member, String.eqb_refl.
Qed.

Lemma advance_changer pid b cursor g key :
  cursorKey b = inr key -> validCursor cursor = true ->
  changer epoch forward_only (fun _ => True) (reached key cursor) (advanceLocalServerCursor pid b cursor g).
Proof.
  intros Hk Hv. split; [apply reached_stable|]. unfold advanceLocalServerCursor. rewrite Hv, Hk. cbn [negb].
  eapply simulates_mono; [apply (withLock_reaches epoch forward_only (reached key cursor))|by intros a s -> |done].
  unfold reaches. apply simulates_bind, sim_guard; [|by intros e; eexists _, _].
  apply simulates_bind, sim_read; [|intros e s (seen & ->); by eexists _, _]. intros parsed l now Hnow Hp.
  destruct (match assoc key l with Some prior => at_or_after prior cursor | None => false end) eqn:Hat.
  - cbn. exists now, None. split; [done|]. destruct (assoc key l) as [prior|] eqn:Ha; [|done].
    exists prior. split; [unfold stored; by rewrite Hnow|by right].
  - destruct (forward_set now parsed l key cursor Hnow Hp Hv) as [Hf Hs]; [by intros prior Hprior; rewrite Hprior in Hat|].
    apply sim_write; [done| |done]. eexists _, _. split; [done|]. exists cursor. split; [done|by left].
Qed.

(** An advance that is refused before the lock, and reads. *)
Lemma refused_changer {A} e : changer epoch forward_only (fun _ => True) (fun _ => True) (Throw e : filing A).
Proof. by split. Qed.

(** The calls of the program that run at the same time. *)
Definition cursor_calls (_ : files) (p : filing unit) : Prop :=
  exists pid b cursor g, p = advanceLocalServerCursor pid b cursor g.

Lemma calls_changers w p : cursor_calls w p -> exists goal, changer epoch forward_only (fun _ => True) goal p.
Proof.
  intros (pid & b & cursor & g & ->). unfold advanceLocalServerCursor.
  destruct (validCursor cursor) eqn:Hv; [|exists (fun _ => True); apply refused_changer].
  destruct (cursorKey b) as [e|key] eqn:Hk; [exists (fun _ => True); apply refused_changer|].
  exists (reached key cursor). assert (Hc := advance_changer pid b cursor g key Hk Hv).
  unfold advanceLocalServerCursor in Hc. by rewrite Hv, Hk in Hc.
Qed.

(** C12. Cursors never go back, however the advances interleave.  For an advance
    and any others that run at the same time - of the same cursor or of others, in
    any number of processes, with files that can fail at every step - as long as
    no lock is thirty seconds old: every cursor that was stored is still stored
    and at the same position or a later one, so no update is lost; and once the
    advance has returned, its cursor or a later one is stored for good. *)
Theorem cursors_only_advance pid b cursor g key w ps' w' :
  cursorKey b = inr key ->
  rtc (pool_moves (file_act epoch) cursor_calls (fun _ _ => False)) ([advanceLocalServerCursor pid b cursor g], w) (ps', w') ->
  (forall k prior, stored (f_state w) k = Some prior -> exists next, stored (f_state w') k = Some next /\ not_before prior next) /\
  (ps' !! 0%nat = Some (Ret tt) -> reached key cursor (f_state w')).
Proof.
  intros Hk Hr.
  assert (Hall : exists goal, changer epoch forward_only (fun _ => True) goal (advanceLocalServerCursor pid b cursor g) /\
    (ps' !! 0%nat = Some (Ret tt) -> goal (f_state w') -> reached key cursor (f_state w'))).
  { destruct (validCursor cursor) eqn:Hv.
    - exists (reached key cursor). split; [by apply advance_changer|done].
    - exists (fun _ => False). split; [|done]. unfold advanceLocalServerCursor. rewrite Hv. split; [|done]. by intros ? ? ? ? []. }
  destruct Hall as (goal & Hc & Hgoal).
  destruct (changes_serialize epoch forward_only (fun _ => True) ltac:(done) cursor_calls calls_changers _ goal _ _ _ I Hc Hr)
    as (_ & Hch & Hret).
  split; [|intros Hps; by apply Hgoal, (Hret tt)].
  clear -Hch. induction Hch as [w|w w1 w' Hc _ IH]; intros k prior Hp; [by exists prior; split; [|left]|].
  assert (exists next, stored (f_state w1) k = Some next /\ not_before prior next) as (n1 & Hn1 & Hle1).
  { destruct Hc as [-> |(c & -> & Hf)]; [by exists prior; split; [|left]|by apply Hf]. }
  destruct (IH k n1 Hn1) as (n2 & Hn2 & Hle2). exists n2. split; [done|]. by eapply not_before_trans.
Qed.
End Window.
End Spec.

(** * One call on the cursor file, alone

    A deterministic file system in which nothing fails: what each operation
    leaves in the file, and that it gives the lock back. *)

Section Runs.
Variable now : Z.

Definition answer {A} (code : string) : js_error + A := inl (Errno code).

Definition file_handle (X : Type) (op : file_op X) (w : files) : X * files :=
  match op in file_op X return X * files with
  | EnsureDir | CloseLock | Guard => (inr tt, w)
  | OpenLock => match f_lock w with
                | None => (inr tt, Files (f_state w) (Some now) (f_temps w))
                | Some _ => (answer EEXIST, w)
                end
  | StatLock => (match f_lock w with Some t => inr t | None => answer ENOENT end, w)
  | UnlinkLock => match f_lock w with
                  | Some _ => (inr tt, Files (f_state w) None (f_temps w))
                  | None => (answer ENOENT, w)
                  end
  | ReadState => (match f_state w with Some c => inr c | None => answer ENOENT end, w)
  | WriteTemp n c => (inr tt, Files (f_state w) (f_lock w) (<[n := c]> (f_temps w)))
  | RenameTemp n => match f_temps w !! n with
                    | Some c => (inr tt, Files (Some c) (f_lock w) (delete n (f_temps w)))
                    | None => (answer ENOENT, w)
                    end
  | UnlinkTemp n => match f_temps w !! n with
                    | Some c => (inr tt, Files (f_state w) (f_lock w) (delete n (f_temps w)))
                    | None => (answer ENOENT, w)
                    end
  | NowMs => (now, w)
  | RandomHex => ("", w)
  | Pause _ => (tt, w)
  end.

Local Abbreviation runf := (run file_handle).

Definition with_lock (l : option Z) (w : files) : files := Files (f_state w) l (f_temps w).

Lemma run_withLock_loop {A} n busy (operation : filing A) w r w1 :
  f_lock w = None -> runf operation (with_lock (Some now) w) = (r, w1) -> is_Some (f_lock w1) ->
  runf (withLock_loop (S n) busy operation) w = (r, with_lock None w1).
Proof.
  intros Hl Hr [t Ht]. cbn [withLock_loop]. rewrite run_bind, run_attempt, run_perform. cbn [file_handle]. rewrite Hl.
  cbn beta iota. fold (with_lock (Some now) w). unfold pfinally. rewrite run_bind, run_attempt, Hr.
  assert (Hu : runf unlock w1 = (Done tt, with_lock None w1)).
  { unfold unlock. rewrite run_bind, run_perform. cbn [file_handle]. rewrite run_bind, run_attempt, run_perform.
    cbn [file_handle]. by rewrite Ht. }
  destruct r as [a|e]; rewrite run_bind, Hu; done.
Qed.

(** The lock is taken, the operation runs, and the lock is given back whatever
    the operation's outcome. *)
Lemma run_withLock {A} busy (operation : filing A) w r w1 :
  f_lock w = None -> runf operation (with_lock (Some now) w) = (r, w1) -> is_Some (f_lock w1) ->
  runf (withLock busy operation) w = (r, with_lock None w1).
Proof.
  intros Hl Hr Hs. unfold withLock. rewrite run_bind, run_perform. cbn [file_handle]. by apply (run_withLock_loop 199).
Qed.

Section Calls.
Context `{UrlEnv} `{JsDate}.

Lemma run_readState w :
  runf readState w =
  (match f_state w with
   | None => Done (empty_state, [])
   | Some c => match json_parse c with
               | Some parsed => match cursors_of parsed with Some l => Done (parsed, l) | None => Failed corrupt end
               | None => Failed corrupt
               end
   end, w).
Proof.
  unfold readState. rewrite run_bind, run_attempt, run_perform. cbn [file_handle].
  destruct (f_state w) as [c|]; [|done]. destruct (json_parse c) as [parsed|]; [|done]. by destruct (cursors_of parsed).
Qed.

Lemma run_readState_cursors w l :
  file_cursors (f_state w) = Some l -> exists parsed, cursors_of parsed = Some l /\ runf readState w = (Done (parsed, l), w).
Proof.
  intros Hf. rewrite run_readState. unfold file_cursors in Hf. destruct (f_state w) as [c|].
  - destruct (json_parse c) as [parsed|]; [|done]. exists parsed. split; [done|]. by rewrite Hf.
  - injection Hf as <-. by exists empty_state.
Qed.

Lemma run_readState_corrupt w : file_cursors (f_state w) = None -> runf readState w = (Failed corrupt, w).
Proof.
  intros Hf. rewrite run_readState. unfold file_cursors in Hf. destruct (f_state w) as [c|]; [|done].
  destruct (json_parse c); [|done]. by rewrite Hf.
Qed.

(** Only the file changes, and a temporary file of this name is gone. *)
Lemma run_writeState pid state g w :
  exists name, runf (writeState pid state g) w =
    (Done tt, Files (Some (Json state)) (f_lock w) (delete name (f_temps w))).
Proof.
  unfold writeState. eexists. rewrite run_bind, run_perform. cbn [file_handle].
  rewrite run_bind, run_ask. cbn [file_handle]. rewrite run_bind, run_perform. cbn [file_handle].
  rewrite run_catch, run_bind.
  assert (Hg : forall v, runf (continuationGuard g) v = (Done tt, v)) by (intros v; destruct g; [unfold continuationGuard; by rewrite run_perform|done]).
  rewrite Hg, run_perform. cbn [file_handle f_temps f_lock f_state]. rewrite lookup_insert_eq.
  cbn beta iota. by rewrite delete_insert_eq.
Qed.

Lemma run_advance pid b cursor g key w l :
  cursorKey b = inr key -> validCursor cursor = true -> file_cursors (f_state w) = Some l -> f_lock w = None ->
  exists w', runf (advanceLocalServerCursor pid b cursor g) w = (Done tt, w') /\ f_lock w' = None /\
    file_cursors (f_state w') =
      Some (if match assoc key l with Some prior => at_or_after prior cursor | None => false end then l
            else set_member key cursor l).
Proof.
  intros Hk Hv Hf Hl. unfold advanceLocalServerCursor. rewrite Hv, Hk. cbn [negb].
  destruct (run_readState_cursors (with_lock (Some now) w) l Hf) as (parsed & Hp & Hread).
  set (operation := pbind (continuationGuard g) _).
  assert (Hop : exists w1, runf operation (with_lock (Some now) w) = (Done tt, w1) /\ f_lock w1 = Some now /\
    file_cursors (f_state w1) = Some (if match assoc key l with Some prior => at_or_after prior cursor | None => false end then l
            else set_member key cursor l)).
  { unfold operation. rewrite run_bind.
    assert (Hg : forall v, runf (continuationGuard g) v = (Done tt, v)) by (intros v; destruct g; [unfold continuationGuard; by rewrite run_perform|done]).
    rewrite Hg, run_bind, Hread. destruct (match assoc key l with Some _ => _ | None => _ end); [by eexists|].
    destruct (run_writeState pid (with_cursors (set_member key cursor l) parsed) g (with_lock (Some now) w)) as [name ->].
    eexists. split; [reflexivity|]. split; [done|]. cbn. eapply cursors_of_with; [done|].
    apply forallb_set_member; [done|]. by eapply cursors_of_valid. }
  destruct Hop as (w1 & Hop & Hlk & Hc). exists (with_lock None w1). split; [|done].
  by eapply run_withLock; [| |eexists].
Qed.

Lemma run_clear pid b key w l :
  cursorKey b = inr key -> file_cursors (f_state w) = Some l -> f_lock w = None ->
  exists w', runf (clearLocalServerCursor pid b) w = (Done tt, w') /\ f_lock w' = None /\
    exists l', file_cursors (f_state w') = Some l' /\
      forall k, assoc k l' = if String.eqb k key then None else assoc k l.
Proof.
  intros Hk Hf Hl. unfold clearLocalServerCursor. rewrite Hk.
  destruct (run_readState_cursors (with_lock (Some now) w) l Hf) as (parsed & Hp & Hread).
  set (operation := pbind readState _).
  assert (Hop : exists w1, runf operation (with_lock (Some now) w) = (Done tt, w1) /\ f_lock w1 = Some now /\
    exists l', file_cursors (f_state w1) = Some l' /\ forall k, assoc k l' = if String.eqb k key then None else assoc k l).
  { unfold operation. rewrite run_bind, Hread. destruct (assoc key l) as [prior|] eqn:Ha.
    - destruct (run_writeState pid (with_cursors (remove_member key l) parsed) false (with_lock (Some now) w)) as [name ->].
      eexists. split; [reflexivity|]. split; [done|]. exists (remove_member key l). split.
      + cbn. eapply cursors_of_with; [done|]. apply forallb_remove_member. by eapply cursors_of_valid.
      + intros k. apply assoc_remove_member.
    - eexists. split; [reflexivity|]. split; [done|]. exists l. split; [done|]. intros k.
      by destruct (String.eqb_spec k key) as [->|]. }
  destruct Hop as (w1 & Hop & Hlk & Hc). exists (with_lock None w1). split; [|done].
  by eapply run_withLock; [| |eexists].
Qed.

(** C36. The cursor file is a map from keys to cursors.  With the file absent or one
    of this program's, and the lock free: reading gives the cursor stored; advancing
    stores a valid cursor under its own key when it is later than the one there,
    and changes nothing otherwise; clearing removes that key alone; and the lock is
    free again.  A file that is anything else is refused by all three, which then
    leave it as it is and the lock free: cursors that cannot be read are never
    replaced. *)
Theorem cursor_file_is_a_map pid b cursor g key w :
  cursorKey b = inr key -> validCursor cursor = true -> f_lock w = None ->
  match file_cursors (f_state w) with
  | Some l =>
      runf (getLocalServerCursor b) w = (Done (assoc key l), w) /\
      (exists w', runf (advanceLocalServerCursor pid b cursor g) w = (Done tt, w') /\ f_lock w' = None /\
         forall k, stored (f_state w') k =
           if String.eqb k key && negb (match assoc key l with Some prior => at_or_after prior cursor | None => false end)
           then Some cursor else assoc k l) /\
      (exists w', runf (clearLocalServerCursor pid b) w = (Done tt, w') /\ f_lock w' = None /\
         forall k, stored (f_state w') k = if String.eqb k key then None else assoc k l)
  | None =>
      runf (getLocalServerCursor b) w = (Failed corrupt, w) /\
      runf (advanceLocalServerCursor pid b cursor g) w = (Failed corrupt, w) /\
      runf (clearLocalServerCursor pid b) w = (Failed corrupt, w)
  end.
Proof.
  intros Hk Hv Hl. destruct (file_cursors (f_state w)) as [l|] eqn:Hf.
  - split; [|split].
    + unfold getLocalServerCursor. rewrite Hk, run_bind.
      destruct (run_readState_cursors w l Hf) as (parsed & _ & ->). done.
    + destruct (run_advance pid b cursor g key w l Hk Hv Hf Hl) as (w' & Hr & Hlk & Hc).
      exists w'. split; [done|]. split; [done|]. intros k. unfold stored. rewrite Hc.
      destruct (match assoc key l with Some _ => _ | None => _ end); cbn [negb].
      * by rewrite andb_false_r.
      * rewrite andb_true_r. apply assoc_set_member.
    + destruct (run_clear pid b key w l Hk Hf Hl) as (w' & Hr & Hlk & l' & Hc & Ha).
      exists w'. split; [done|]. split; [done|]. intros k. unfold stored. by rewrite Hc.
  - assert (Hw : with_lock None (with_lock (Some now) w) = w) by (destruct w; cbn in *; by subst).
    assert (Hc : runf readState (with_lock (Some now) w) = (Failed corrupt, with_lock (Some now) w)) by (by apply run_readState_corrupt).
    split; [|split].
    + unfold getLocalServerCursor. by rewrite Hk, run_bind, run_readState_corrupt.
    + unfold advanceLocalServerCursor. rewrite Hv, Hk. cbn [negb]. rewrite <- Hw at 2.
      apply run_withLock; [done| |by eexists]. rewrite run_bind.
      assert (Hg : forall v, runf (continuationGuard g) v = (Done tt, v)) by (intros v; destruct g; [unfold continuationGuard; by rewrite run_perform|done]).
      by rewrite Hg, run_bind, Hc.
    + unfold clearLocalServerCursor. rewrite Hk. rewrite <- Hw at 2.
      apply run_withLock; [done| |by eexists]. by rewrite run_bind, Hc.
Qed.
End Calls.
End Runs.
