(* ===== verification/LifecycleLogGuard.v ===== *)
(** * Lifecycle messages are logged once ([src/lifecycle-log-guard.ts])

    What a seat has announced is kept per seat as a JSON entry of one locked file.
    The entry is the parsed JSON as it is, so the functions say what they do with
    an entry of any shape. *)

From S2P Require Import Prelude JsDate JsonText Effects LeaseFs LockedFile.

Open Scope Z_scope.
Open Scope prog_scope.

(* src/src/lifecycle-log-guard.ts 12-12 LifecycleSignal *)
Inductive lifecycle_signal := Arrival | Ready.

#[export] Instance lifecycle_signal_eq_dec : EqDecision lifecycle_signal.
Proof. solve_decision. Defined.

(* src/src/lifecycle-log-guard.ts 14-17 LifecycleLogSubject *)
Record lifecycle_subject := LifecycleSubject { ls_cubeId : string; ls_droneId : string }.

(** [AgentSessionIdentity]: the id of the agent's session, where it is known. *)
Definition session_identity : Type := option string.

(* src/src/lifecycle-log-guard.ts 41-51 lifecycleSignalForMessage *)
Definition lifecycleSignalForMessage (message : string) : option lifecycle_signal :=
  if starts_with "ARRIVAL: " message then Some Arrival
  else if starts_with "READY: " message && includes "capacity clean" message && includes "awaiting next dispatch" message
       then Some Ready
  else None.

(* src/src/lifecycle-log-guard.ts 53-55 stateKey *)
Definition stateKey (s : lifecycle_subject) : string := ls_cubeId s +:+ ":" +:+ ls_droneId s.

(** ** Values of any shape *)

Definition not_callable : js_error := ErrorOf "TypeError" None None "" [].

(** [v?.k] *)
Definition opt_member (k : string) (v : option json) : option json :=
  match v with Some x => jget k x | None => None end.

(** [v?.includes(id)]; an absent member is falsy. *)
Definition includes_id (v : option json) (id : string) : js_error + bool :=
  match v with
  | None | Some JNull => inr false
  | Some (JArr l) => inr (existsb (fun x => match x with JStr s => String.eqb s id | _ => false end) l)
  | Some (JStr s) => inr (includes id s)
  | Some _ => inl not_callable
  end.

Fixpoint characters (s : string) : list json :=
  match s with EmptyString => [] | String c s' => JStr (String c "") :: characters s' end.

(** [...(v ?? [])] *)
Definition elements_of (v : option json) : list json :=
  match v with Some (JArr l) => l | Some (JStr s) => characters s | _ => [] end.

Fixpoint indexed (n : nat) (l : list json) : list (string * json) :=
  match l with [] => [] | x :: rest => (js_String (JNum (Z.of_nat n)), x) :: indexed (S n) rest end.

(** The members of [{...v}] *)
Definition spread (v : option json) : list (string * json) :=
  match v with
  | Some (JObj fields) => fields
  | Some (JArr l) => indexed 0 l
  | Some (JStr s) => indexed 0 (characters s)
  | _ => []
  end.

(** [Boolean(v)]; a number that is not an integer is not zero. *)
Definition json_truthy (v : option json) : bool :=
  match v with
  | None | Some JNull | Some (JBool false) | Some (JStr EmptyString) => false
  | Some (JNum z) => negb (z =? 0)
  | Some _ => true
  end.

(** ** The decisions *)

(* src/src/lifecycle-log-guard.ts 123-142 shouldSuppressLifecycleLogFromState *)
Definition shouldSuppressLifecycleLogFromState (message : string) (state : option json) (identity : session_identity)
    : js_error + (bool * option lifecycle_signal) :=
  match lifecycleSignalForMessage message with
  | None => inr (false, None)
  | Some Arrival =>
      match identity with
      | None => inr (false, Some Arrival)
      | Some id =>
          match includes_id (opt_member "arrivedSessionIds" state) id with
          | inl e => inl e
          | inr b => inr (b, Some Arrival)
          end
      end
  | Some Ready =>
      let idleReady := opt_member "idleReady" state in
      inr (match opt_member "open" idleReady with
           | Some (JBool true) => match opt_member "message" idleReady with Some (JStr m) => String.eqb m message | _ => false end
           | _ => false
           end, Some Ready)
  end.

(** [current ?? {}] *)
Definition or_empty (current : option json) : json :=
  match current with None | Some JNull => JObj [] | Some v => v end.

(* src/src/lifecycle-log-guard.ts 158-187 nextLifecycleStateAfterLog *)
Definition nextLifecycleStateAfterLog (message : string) (current : option json) (nowIso : string) (identity : session_identity)
    : js_error + json :=
  match lifecycleSignalForMessage message with
  | Some Arrival =>
      match identity with
      | None => inr (or_empty current)
      | Some id =>
          let ids := opt_member "arrivedSessionIds" current in
          match includes_id ids id with
          | inl e => inl e
          | inr true => inr (or_empty current)
          | inr false => inr (JObj (set_member "arrivedSessionIds" (JArr (elements_of ids ++ [JStr id])) (spread current)))
          end
      end
  | Some Ready =>
      inr (JObj (set_member "idleReady" (JObj [("message", JStr message); ("open", JBool true); ("at", JStr nowIso)]) (spread current)))
  | None =>
      let idleReady := opt_member "idleReady" current in
      if json_truthy (opt_member "open" idleReady) then
        inr (JObj (set_member "idleReady"
               (JObj (set_member "at" (JStr nowIso) (set_member "open" (JBool false) (spread idleReady)))) (spread current)))
      else inr (or_empty current)
  end.

(** ** The file *)

Section File.
Context `{JsDate}.

Definition unreadableStateError : js_error :=
  JsError "Lifecycle log state is unreadable; refusing to overwrite it: lifecycle-log-state.json".

(** [None]: unreadable. *)
Definition lifecycle_entries (parsed : json) : option (list (string * json)) :=
  match jget "entries" parsed with Some (JObj entries) => Some entries | _ => None end.

(* src/src/lifecycle-log-guard.ts 57-75 readState *)
Definition readLifecycle : filing (option (json * list (string * json))) :=
  let! r := attempt (perform ReadState) in
  Ret (match r with
       | inl e => if has_code ENOENT e then Some (JObj [("entries", JObj [])], []) else None
       | inr c =>
           match json_parse c with
           | Some parsed => match lifecycle_entries parsed with Some entries => Some (parsed, entries) | None => None end
           | None => None
           end
       end).

(** The name is random, so the exclusive creation finds nothing in its place. *)
(* src/src/lifecycle-log-guard.ts 77-85 writeState *)
Definition writeLifecycle (state : json) : filing unit :=
  let! hex := ask RandomHex in
  let temporary := "lifecycle-log-state.json." +:+ hex +:+ ".tmp" in
  pfinally (do! perform (WriteTemp temporary (Json state)); perform (RenameTemp temporary))
    (let! r := attempt (perform (UnlinkTemp temporary)) in
     match r with inl e => if has_code ENOENT e then Ret tt else Throw e | inr _ => Ret tt end).

(* src/src/lifecycle-log-guard.ts 88-121 withLock *)
Definition withLifecycleLock {A} (operation : filing A) : filing A := withLock "Lifecycle log state is busy" operation.

(* src/src/lifecycle-log-guard.ts 144-156 shouldSuppressLifecycleLog *)
Definition shouldSuppressLifecycleLog (subject : lifecycle_subject) (message : string) (identity : session_identity)
    : filing (bool * option lifecycle_signal) :=
  let! state := readLifecycle in
  match state with
  | None => Throw unreadableStateError
  | Some (_, entries) =>
      match shouldSuppressLifecycleLogFromState message (assoc (stateKey subject) entries) identity with
      | inl e => Throw e
      | inr r => Ret r
      end
  end.

(* src/src/lifecycle-log-guard.ts 189-201 recordLifecycleLog *)
Definition recordLifecycleLog (subject : lifecycle_subject) (message : string) (identity : session_identity) : filing unit :=
  withLifecycleLock (
    let! state := readLifecycle in
    match state with
    | None => Throw unreadableStateError
    | Some (parsed, entries) =>
        let key := stateKey subject in
        let! now := ask NowMs in
        match nextLifecycleStateAfterLog message (assoc key entries) (to_iso now) identity with
        | inl e => Throw e
        | inr next =>
            writeLifecycle (match parsed with
                            | JObj fields => JObj (set_member "entries" (JObj (set_member key next entries)) fields)
                            | v => v
                            end)
        end
    end).
End File.

(** * What the lifecycle guard promises

    The verdict on a message is a function of what was logged before it, and what
    was recorded is never lost, however the recordings interleave. *)

(** ** The verdict as a function of the history *)

(** One message logged: what, by which session, when. *)
Record logged := Logged { lg_message : string; lg_identity : session_identity; lg_at : string }.

Fixpoint entry_after (h : list logged) (cur : option json) : js_error + option json :=
  match h with
  | [] => inr cur
  | m :: rest =>
      match nextLifecycleStateAfterLog (lg_message m) cur (lg_at m) (lg_identity m) with
      | inl e => inl e
      | inr next => entry_after rest (Some next)
      end
  end.

Definition is_arrival_of (id : string) (m : logged) : bool :=
  bool_decide (lifecycleSignalForMessage (lg_message m) = Some Arrival) && bool_decide (lg_identity m = Some id).

Definition is_arrival (m : logged) : bool := bool_decide (lifecycleSignalForMessage (lg_message m) = Some Arrival).

(** An arrival is repeated when this session has announced itself before; a READY
    when it is the last thing said, arrivals apart. *)
Definition repeats (h : list logged) (message : string) (identity : session_identity) : bool :=
  match lifecycleSignalForMessage message with
  | Some Arrival => match identity with Some id => existsb (is_arrival_of id) h | None => false end
  | Some Ready =>
      match last (filter (fun m => is_arrival m = false) h) with
      | Some m => String.eqb (lg_message m) message
      | None => false
      end
  | None => false
  end.

(** What an entry of the program says: the sessions that arrived, and the READY
    said last, with whether it is still open. *)
Record entry_is (cur : option json) (ids : list string) (ready : option (string * bool)) : Prop := {
  ei_shape : cur = None \/ exists fields, cur = Some (JObj fields);
  ei_ids : opt_member "arrivedSessionIds" cur = match ids with [] => None | _ => Some (JArr (map JStr ids)) end;
  ei_ready : match ready with
             | None => opt_member "idleReady" cur = None
             | Some (m, open) => exists at_, opt_member "idleReady" cur =
                 Some (JObj [("message", JStr m); ("open", JBool open); ("at", at_)])
             end
}.

Definition arrived_after (m : logged) (ids : list string) : list string :=
  match lifecycleSignalForMessage (lg_message m), lg_identity m with
  | Some Arrival, Some id => if bool_decide (id ∈ ids) then ids else ids ++ [id]
  | _, _ => ids
  end.

Definition ready_after (m : logged) (ready : option (string * bool)) : option (string * bool) :=
  match lifecycleSignalForMessage (lg_message m) with
  | Some Arrival => ready
  | Some Ready => Some (lg_message m, true)
  | None => match ready with Some (r, _) => Some (r, false) | None => None end
  end.

Lemma includes_ids (ids : list string) id :
  includes_id (match ids with [] => None | _ => Some (JArr (map JStr ids)) end) id = inr (bool_decide (id ∈ ids)).
Proof.
  assert (Hall : existsb (fun x => match x with JStr s => String.eqb s id | _ => false end) (map JStr ids) = bool_decide (id ∈ ids)).
  { induction ids as [|x ids IH]; [done|]. cbn [existsb map]. rewrite IH.
    destruct (String.eqb_spec x id) as [->|Hne]; cbn [orb].
    - symmetry. apply bool_decide_eq_true. left.
    - apply bool_decide_ext. rewrite elem_of_cons. naive_solver. }
  destruct ids; [done|]. cbn [includes_id]. by rewrite Hall.
Qed.

Lemma elements_ids (ids : list string) :
  elements_of (match ids with [] => None | _ => Some (JArr (map JStr ids)) end) = map JStr ids.
Proof. by destruct ids. Qed.

Lemma entry_step m cur ids ready :
  entry_is cur ids ready ->
  exists next, nextLifecycleStateAfterLog (lg_message m) cur (lg_at m) (lg_identity m) = inr next /\
    entry_is (Some next) (arrived_after m ids) (ready_after m ready).
Proof.
  intros [Hs Hi Hr].
  assert (Hsame : entry_is (Some (or_empty cur)) ids ready).
  { destruct Hs as [->|[fields ->]]; [|by split; [right; eexists|..]].
    split; [right; by eexists|by destruct ids|]. by destruct ready as [[r []]|]. }
  assert (Hspread : forall k v, k = "arrivedSessionIds" \/ k = "idleReady" ->
    opt_member k (Some (JObj (set_member k v (spread cur)))) = Some v /\
    forall k', k' <> k -> opt_member k' (Some (JObj (set_member k v (spread cur)))) = opt_member k' cur).
  { intros k v _. cbn [opt_member jget]. rewrite assoc_set_member, String.eqb_refl. split; [done|]. intros k' Hk.
    rewrite assoc_set_member. apply String.eqb_neq in Hk as ->. by destruct Hs as [->|[fields ->]]. }
  unfold nextLifecycleStateAfterLog, arrived_after, ready_after.
  destruct (lifecycleSignalForMessage (lg_message m)) as [[]|].
  - destruct (lg_identity m) as [id|]; [|by eexists]. cbv zeta. rewrite Hi, includes_ids, elements_ids.
    case_bool_decide; [by eexists|]. eexists. split; [reflexivity|].
    destruct (Hspread "arrivedSessionIds" (JArr (map JStr ids ++ [JStr id])) ltac:(by left)) as [H1 H2].
    split; [right; by eexists| |].
    + rewrite H1. change [JStr id] with (map JStr [id]). rewrite <- map_app. by destruct ids.
    + rewrite H2 by done. exact Hr.
  - eexists. split; [reflexivity|].
    destruct (Hspread "idleReady" (JObj [("message", JStr (lg_message m)); ("open", JBool true); ("at", JStr (lg_at m))]) ltac:(by right)) as [H1 H2].
    split; [right; by eexists| |].
    + by rewrite H2.
    + rewrite H1. by eexists.
  - cbv zeta. destruct ready as [[r open]|].
    + destruct Hr as [at_ Hr]. rewrite Hr. cbn [opt_member jget assoc String.eqb Ascii.eqb Bool.eqb json_truthy].
      destruct open.
      * eexists. split; [reflexivity|]. cbn [spread set_member String.eqb Ascii.eqb Bool.eqb].
        destruct (Hspread "idleReady" (JObj [("message", JStr r); ("open", JBool false); ("at", JStr (lg_at m))]) ltac:(by right)) as [H1 H2].
        split; [right; by eexists|by rewrite H2|]. rewrite H1. by eexists.
      * eexists. split; [reflexivity|]. by destruct Hsame.
    + rewrite Hr. cbn. eexists. split; [reflexivity|]. done.
Qed.

Lemma entry_all h cur ids ready :
  entry_is cur ids ready ->
  exists st, entry_after h cur = inr st /\
    entry_is st (fold_left (fun a m => arrived_after m a) h ids) (fold_left (fun a m => ready_after m a) h ready).
Proof.
  revert cur ids ready. induction h as [|m h IH]; intros cur ids ready He; cbn [entry_after fold_left]; [by exists cur|].
  destruct (entry_step m cur ids ready He) as (next & -> & Hn). by apply IH.
Qed.

Lemma arrived_history h ids id :
  id ∈ fold_left (fun a m => arrived_after m a) h ids <-> id ∈ ids \/ existsb (is_arrival_of id) h = true.
Proof.
  revert ids. induction h as [|m h IH]; intros ids; cbn [fold_left existsb].
  { split; [by left|]. by intros [?|?]. }
  assert (Hft : ~ false = true) by done. rewrite IH, orb_true_iff. unfold arrived_after, is_arrival_of.
  destruct (lifecycleSignalForMessage (lg_message m)) as [[]|].
  - rewrite (bool_decide_eq_true_2 (Some Arrival = Some Arrival)) by done. cbn [andb].
    destruct (lg_identity m) as [id'|]; [|rewrite bool_decide_eq_false_2 by done; tauto].
    rewrite bool_decide_eq_true. case_bool_decide as Hin.
    + split; [tauto|]. intros [?|[Heq|?]]; [by left|injection Heq as ->; by left|by right].
    + rewrite elem_of_app, list_elem_of_singleton. split.
      * intros [[?| ->]|?]; tauto.
      * intros [?|[Heq|?]]; [tauto|injection Heq as ->; tauto|tauto].
  - rewrite bool_decide_eq_false_2 by done. cbn [andb]. split; [tauto|]. intros [?|[?|?]]; [tauto|done|tauto].
  - rewrite bool_decide_eq_false_2 by done. cbn [andb]. split; [tauto|]. intros [?|[?|?]]; [tauto|done|tauto].
Qed.

Lemma ready_history h ready message :
  lifecycleSignalForMessage message = Some Ready ->
  match fold_left (fun a m => ready_after m a) h ready with Some (m, true) => String.eqb m message | _ => false end =
  match last (filter (fun m => is_arrival m = false) h) with
  | Some m => String.eqb (lg_message m) message
  | None => match ready with Some (m, true) => String.eqb m message | _ => false end
  end.
Proof.
  intros Hm. induction h as [|m h IH] using rev_ind; [done|]. rewrite fold_left_app, filter_app. cbn [fold_left].
  unfold ready_after at 1. rewrite filter_cons, filter_nil.
  destruct (lifecycleSignalForMessage (lg_message m)) as [[]|] eqn:Hs.
  - assert (Ha : is_arrival m = true) by (unfold is_arrival; by rewrite Hs, bool_decide_eq_true_2).
    rewrite decide_False by (by rewrite Ha). by rewrite app_nil_r.
  - assert (Ha : is_arrival m = false) by (unfold is_arrival; by rewrite Hs, bool_decide_eq_false_2).
    by rewrite decide_True, last_snoc by done.
  - assert (Ha : is_arrival m = false) by (unfold is_arrival; by rewrite Hs, bool_decide_eq_false_2).
    rewrite decide_True, last_snoc by done.
    assert (Hne : String.eqb (lg_message m) message = false).
    { apply String.eqb_neq. intros E. by rewrite E, Hm in Hs. }
    rewrite Hne. by destruct (fold_left _ h ready) as [[]|].
Qed.

(** The guard suppresses exactly the repetitions.  After any messages, by any
    sessions at any times, an entry exists and the verdict on the next message is:
    an arrival is suppressed when this session, being known, has announced itself
    before; a READY when it is word for word the last thing said, arrivals apart;
    anything else is logged. *)
Theorem lifecycle_suppresses_repetitions h :
  exists st, entry_after h None = inr st /\
    forall message identity,
      shouldSuppressLifecycleLogFromState message st identity =
      inr (repeats h message identity, lifecycleSignalForMessage message).
Proof.
  destruct (entry_all h None [] None) as (st & Hst & [_ Hi Hr]); [by split; [left|..]|].
  exists st. split; [done|]. intros message identity. unfold shouldSuppressLifecycleLogFromState, repeats.
  destruct (lifecycleSignalForMessage message) as [[]|] eqn:Hm; [| |done].
  - destruct identity as [id|]; [|done]. rewrite Hi, includes_ids. do 2 f_equal.
    apply eq_true_iff_eq. rewrite bool_decide_eq_true, arrived_history. set_solver.
  - cbv zeta. do 2 f_equal. assert (Hh := ready_history h None message Hm). cbn beta iota in Hh.
    destruct (fold_left (fun a m => ready_after m a) h None) as [[m open]|].
    + destruct Hr as [at_ ->]. cbn. destruct open; [|by rewrite <- Hh]. done.
    + by rewrite Hr.
Qed.

(** ** Recordings that interleave *)

Definition file_entries (f : option content) : option (list (string * json)) :=
  match f with
  | None => Some []
  | Some c => match json_parse c with Some parsed => lifecycle_entries parsed | None => None end
  end.

(** The session has announced itself, in the file. *)
Definition announced (f : option content) (key id : string) : Prop :=
  exists entries entry l, file_entries f = Some entries /\ assoc key entries = Some entry /\
    opt_member "arrivedSessionIds" (Some entry) = Some (JArr l) /\ JStr id ∈ l.

(** An entry as the program writes it: an object whose announcements, if any, are
    a list. *)
Definition sane_entry (v : json) : bool :=
  match v with
  | JObj _ => match jget "arrivedSessionIds" v with None | Some (JArr _) => true | _ => false end
  | _ => false
  end.

Definition sane (f : option content) : Prop :=
  exists entries, file_entries f = Some entries /\ forallb (fun kv => sane_entry (snd kv)) entries = true.

Definition keeps_announcements (old : option content) (new : content) : Prop :=
  sane old -> sane (Some new) /\ forall key id, announced old key id -> announced (Some new) key id.

Lemma sane_lookup entries key entry :
  forallb (fun kv => sane_entry (snd kv)) entries = true -> assoc key entries = Some entry -> sane_entry entry = true.
Proof.
  induction entries as [|[k v] rest IH]; [done|]. cbn. intros [Hv Hr]%andb_true_iff.
  destruct (String.eqb key k); [by intros [= <-]|by apply IH].
Qed.

Definition replaced (key : string) (next : json) (entries : list (string * json)) (parsed : json) : json :=
  match parsed with JObj fields => JObj (set_member "entries" (JObj (set_member key next entries)) fields) | v => v end.

Lemma entries_replaced key next entries parsed :
  lifecycle_entries parsed = Some entries -> lifecycle_entries (replaced key next entries parsed) = Some (set_member key next entries).
Proof.
  intros He. unfold lifecycle_entries, replaced in *. destruct parsed as [| | | | | |fields]; try done.
  cbn [jget]. by rewrite assoc_set_member.
Qed.

(** One step of an entry of the program keeps its announcements. *)
Lemma next_keeps message cur now identity next :
  nextLifecycleStateAfterLog message cur now identity = inr next ->
  match cur with Some v => sane_entry v = true | None => True end ->
  sane_entry next = true /\
  forall l id, opt_member "arrivedSessionIds" cur = Some (JArr l) -> JStr id ∈ l ->
    exists l', opt_member "arrivedSessionIds" (Some next) = Some (JArr l') /\ JStr id ∈ l'.
Proof.
  intros Hn Hc.
  assert (Hsame : sane_entry (or_empty cur) = true /\ forall l id, opt_member "arrivedSessionIds" cur = Some (JArr l) -> JStr id ∈ l ->
    exists l', opt_member "arrivedSessionIds" (Some (or_empty cur)) = Some (JArr l') /\ JStr id ∈ l').
  { destruct cur as [[| | | | | |fields]|]; try done; (split; [exact Hc|intros l id Hl Hid; by exists l]). }
  assert (Hother : forall v, next = JObj (set_member "idleReady" v (spread cur)) ->
    sane_entry next = true /\ forall l id, opt_member "arrivedSessionIds" cur = Some (JArr l) -> JStr id ∈ l ->
      exists l', opt_member "arrivedSessionIds" (Some next) = Some (JArr l') /\ JStr id ∈ l').
  { intros v ->. unfold sane_entry. cbn [opt_member jget]. rewrite assoc_set_member. cbn [String.eqb Ascii.eqb Bool.eqb].
    destruct cur as [[| | | | | |fields]|]; try done; (split; [exact Hc|intros l id Hl Hid; by exists l]). }
  unfold nextLifecycleStateAfterLog in Hn. destruct (lifecycleSignalForMessage message) as [[]|].
  - destruct identity as [i|]; [|by injection Hn as <-]. cbv zeta in Hn.
    destruct (includes_id _ i) as [e|[]] eqn:Hi; [done|by injection Hn as <-|]. injection Hn as <-.
    unfold sane_entry. cbn [opt_member jget]. rewrite assoc_set_member, String.eqb_refl. split; [done|].
    intros l id Hl Hid. eexists. split; [reflexivity|]. apply elem_of_app. left.
    destruct cur as [v|]; [|done]. cbn [opt_member jget] in *. by rewrite Hl.
  - injection Hn as <-. by eapply Hother.
  - cbv zeta in Hn. destruct (json_truthy _); injection Hn as <-; [by eapply Hother|done].
Qed.

Lemma replaced_keeps old key next entries parsed message now identity :
  file_entries old = Some entries -> lifecycle_entries parsed = Some entries ->
  nextLifecycleStateAfterLog message (assoc key entries) now identity = inr next ->
  keeps_announcements old (Json (replaced key next entries parsed)).
Proof.
  intros Ho Hp Hn (entries' & He & Hs). rewrite Ho in He. injection He as <-.
  assert (Hnew : file_entries (Some (Json (replaced key next entries parsed))) = Some (set_member key next entries))
    by (by apply entries_replaced).
  destruct (next_keeps _ _ _ _ _ Hn) as [Hsane Hkeep].
  { destruct (assoc key entries) as [v|] eqn:Hv; [|done]. by eapply sane_lookup. }
  split.
  - exists (set_member key next entries). split; [done|]. by apply forallb_set_member.
  - intros k id (es & entry & l & Hes & Hk & Hl & Hid). rewrite Ho in Hes. injection Hes as <-.
    destruct (String.eqb_spec k key) as [->|Hne].
    + rewrite Hk in Hkeep. destruct (Hkeep l id Hl Hid) as (l' & Hl' & Hid').
      exists (set_member key next entries), next, l'. split; [done|]. by rewrite assoc_set_member, String.eqb_refl.
    + exists (set_member key next entries), entry, l. split; [done|]. rewrite assoc_set_member.
      by apply String.eqb_neq in Hne as ->.
Qed.

(** The goal of announcing a session. *)
Definition announces (key id : string) (f : option content) : Prop := sane f -> announced f key id.

Lemma announces_stable key id : stable keeps_announcements sane (announces key id).
Proof. intros old c Hs Hk Hg _. destruct (Hk Hs) as [_ Hkeep]. by apply Hkeep, Hg. Qed.

Lemma announce_reached key id message now cur next entries parsed :
  lifecycleSignalForMessage message = Some Arrival -> cur = assoc key entries ->
  nextLifecycleStateAfterLog message cur now (Some id) = inr next -> lifecycle_entries parsed = Some entries ->
  announces key id (Some (Json (replaced key next entries parsed))).
Proof.
  intros Hm -> Hn Hp (es & Hes & Hs).
  assert (Hnew : file_entries (Some (Json (replaced key next entries parsed))) = Some (set_member key next entries))
    by (by apply entries_replaced).
  rewrite Hnew in Hes. injection Hes as <-.
  assert (Hnext : sane_entry next = true) by (eapply sane_lookup; [exact Hs|by rewrite assoc_set_member, String.eqb_refl]).
  unfold nextLifecycleStateAfterLog in Hn. rewrite Hm in Hn. cbv zeta in Hn.
  assert (exists l, opt_member "arrivedSessionIds" (Some next) = Some (JArr l) /\ JStr id ∈ l) as (l & Hl & Hid).
  { destruct (includes_id _ id) as [e|b] eqn:Hi; [done|]. destruct b; injection Hn as <-.
    - destruct (assoc key entries) as [v|]; [|done]. cbn [opt_member] in *.
      destruct v as [| | | | | |fields]; try done. cbn [or_empty] in *. unfold sane_entry in Hnext.
      destruct (jget "arrivedSessionIds" (JObj fields)) as [[]|]; try done. eexists. split; [reflexivity|].
      cbn in Hi. injection Hi as Hi. apply existsb_exists in Hi as (x & Hx & Heq).
      destruct x; try done. apply String.eqb_eq in Heq as ->. by apply list_elem_of_In.
    - cbn [opt_member jget]. rewrite assoc_set_member, String.eqb_refl. eexists. split; [reflexivity|].
      apply elem_of_app. right. left. }
  exists (set_member key next entries), next, l. split; [done|]. by rewrite assoc_set_member, String.eqb_refl.
Qed.

Section Window.
Context `{JsDate}.
Variable epoch : Z.
Local Abbreviation sim := (simulates (file_act epoch) (file_step keeps_announcements)).

Lemma sim_read_lifecycle goal seen temp (Q : _ -> process -> Prop) R :
  (forall parsed l now, file_entries now = Some l -> lifecycle_entries parsed = Some l ->
     Q (Some (parsed, l)) (at_phase goal (Inside (Some now) temp))) ->
  (forall s, (exists seen, s = at_phase goal (Inside seen temp)) -> Q None s) ->
  sim (at_phase goal (Inside seen temp)) readLifecycle Q R.
Proof.
  intros HQ HN. unfold readLifecycle. apply simulates_bind, simulates_attempt, simulates_perform. intros w x w' [-> Hx].
  exists (at_phase goal (Inside (Some (f_state w)) temp)). split; [by apply (f_see _ (at_phase goal (Inside seen temp)) w seen temp)|].
  destruct x as [e|c]; cbn [simulates].
  - destruct (has_code ENOENT e) eqn:He; [|by apply HN; eexists]. rewrite (Hx eq_refl). by apply HQ.
  - rewrite Hx. destruct (json_parse c) as [parsed|] eqn:Hc; [|by apply HN; eexists].
    destruct (lifecycle_entries parsed) as [l|] eqn:Hl; [|by apply HN; eexists].
    apply HQ; [|done]. cbn. by rewrite Hc.
Qed.

(** The [finally] of the write, under the lock. *)
Lemma sim_unlink_temp goal seen temp name (Q : unit -> process -> Prop) (R : js_error -> process -> Prop) :
  (forall temp', (temp = None -> temp' = None) -> Q tt (at_phase goal (Inside seen temp'))) ->
  (forall e, R e (at_phase goal (Inside seen temp))) ->
  sim (at_phase goal (Inside seen temp)) (let! r := attempt (perform (UnlinkTemp name)) in
     match r with inl e => if has_code ENOENT e then Ret tt else Throw e | inr _ => Ret tt end) Q R.
Proof.
  intros HQ HR. apply simulates_bind, simulates_attempt, simulates_perform. intros w x w' Ha. cbn in Ha.
  destruct x as [e|[]]; subst w'.
  - eexists. split; [apply f_stay|]. destruct (has_code ENOENT e); [by apply HQ|by apply HR].
  - eexists. split; [by apply (f_temp_lost _ (at_phase goal (Inside seen temp)) w seen temp)|]. by apply HQ.
Qed.

Lemma sim_write_lifecycle goal now state (Q : unit -> process -> Prop) (R : js_error -> process -> Prop) :
  keeps_announcements now (Json state) ->
  Q tt (at_phase goal (Inside (Some (Some (Json state))) None)) ->
  (forall e s, (exists seen temp, s = at_phase goal (Inside seen temp)) -> R e s) ->
  sim (at_phase goal (Inside (Some now) None)) (writeLifecycle state) Q R.
Proof.
  intros Hk HQ HR. unfold writeLifecycle. apply simulates_bind. cbn [simulates ask]. intros w hex w' Ha. cbn in Ha. subst w'.
  exists (at_phase goal (Inside (Some now) None)). split; [apply f_stay|]. cbv zeta.
  set (name := "lifecycle-log-state.json." +:+ _). unfold pfinally.
  assert (Hfail : forall e temp, sim (at_phase goal (Inside (Some now) temp))
    (do! (let! r := attempt (perform (UnlinkTemp name)) in
     match r with inl e => if has_code ENOENT e then Ret tt else Throw e | inr _ => Ret tt end); Throw e) Q R).
  { intros e temp. apply simulates_bind, sim_unlink_temp; [intros temp' _|intros e']; apply HR; by eexists _, _. }
  apply simulates_bind, simulates_attempt, simulates_bind, simulates_perform. intros w1 x w1' Ha. cbn in Ha.
  destruct x as [e|[]].
  { destruct Ha as [temps ->]. eexists.
    split; [by apply (f_temp_lost _ (at_phase goal (Inside (Some now) None)) w1 (Some now) None temps)|apply Hfail]. }
  subst w1'. exists (at_phase goal (Inside (Some now) (Some (name, Json state)))).
  split; [by apply (f_temp _ (at_phase goal (Inside (Some now) None)) w1 (Some now) None)|].
  apply simulates_perform. intros w2 x w2' Ha. cbn in Ha. destruct x as [e|[]].
  - subst w2'. eexists. split; [apply f_stay|apply Hfail].
  - destruct Ha as (c & Hc & ->). eexists.
    split; [by apply (f_commit _ (at_phase goal (Inside (Some now) (Some (name, Json state)))) w2 now name (Json state) c)|].
    apply simulates_bind, sim_unlink_temp; [|intros e; apply HR; by eexists _, _].
    intros temp' Ht. cbn [simulates]. by rewrite Ht.
Qed.

Lemma record_changer subject message identity :
  let goal := match lifecycleSignalForMessage message, identity with
              | Some Arrival, Some id => announces (stateKey subject) id
              | _, _ => fun _ => True
              end in
  changer epoch keeps_announcements sane goal (recordLifecycleLog subject message identity).
Proof.
  intros goal. split.
  { unfold goal. destruct (lifecycleSignalForMessage message) as [[]|]; [|done..]. destruct identity; [apply announces_stable|done]. }
  unfold recordLifecycleLog, withLifecycleLock.
  eapply simulates_mono; [apply (withLock_reaches epoch keeps_announcements goal)|by intros a s -> |done].
  unfold reaches. apply simulates_bind, sim_read_lifecycle.
  2: { intros s (seen & ->). by eexists _, _. }
  intros parsed l now Hnow Hp. cbv zeta. apply simulates_bind. cbn [simulates ask]. intros w t w' [-> _].
  exists (at_phase goal (Inside (Some now) None)). split; [apply f_stay|].
  destruct (nextLifecycleStateAfterLog message (assoc (stateKey subject) l) (to_iso t) identity) as [e|next] eqn:Hn.
  { by eexists _, _. }
  fold (replaced (stateKey subject) next l parsed).
  apply sim_write_lifecycle; [by eapply replaced_keeps| |done]. eexists _, _. split; [done|].
  unfold goal. destruct (lifecycleSignalForMessage message) as [[]|] eqn:Hm; [|done..]. destruct identity as [id|]; [|done].
  by eapply announce_reached.
Qed.

(** The calls of the program that run at the same time. *)
Definition lifecycle_calls (_ : files) (p : filing unit) : Prop :=
  exists subject message identity, p = recordLifecycleLog subject message identity.

(** No announcement is lost.  For the recording of an arrival and any other
    recordings that run at the same time, for the same seat or others, in any
    number of processes, with files that can fail at every step - as long as no
    lock is thirty seconds old and the file started as one of this program's -:
    the file stays one of this program's, every session that had announced itself
    still has, and once the call has returned so has its own: later arrivals of
    that session are suppressed. *)
Theorem announcements_are_kept subject message id w ps' w' :
  lifecycleSignalForMessage message = Some Arrival -> sane (f_state w) ->
  rtc (pool_moves (file_act epoch) lifecycle_calls (fun _ _ => False))
    ([recordLifecycleLog subject message (Some id)], w) (ps', w') ->
  sane (f_state w') /\
  (forall key i, announced (f_state w) key i -> announced (f_state w') key i) /\
  (ps' !! 0%nat = Some (Ret tt) ->
     announced (f_state w') (stateKey subject) id /\
     exists entries, file_entries (f_state w') = Some entries /\
       shouldSuppressLifecycleLogFromState message (assoc (stateKey subject) entries) (Some id) = inr (true, Some Arrival)).
Proof.
  intros Hm Hs Hr. assert (Hc := record_changer subject message (Some id)). rewrite Hm in Hc. cbv zeta in Hc.
  destruct (changes_serialize epoch keeps_announcements sane) with (starts := lifecycle_calls) (p := recordLifecycleLog subject message (Some id))
    (goal := announces (stateKey subject) id) (w := w) (ps' := ps') (w' := w') as (Hs' & Hch & Hret); try done.
  { intros old c Hk Hold. by apply Hk. }
  { intros v p (s & m & i & ->). eexists. apply record_changer. }
  split; [done|]. split.
  - clear -Hch Hs. induction Hch as [w|w w1 w' Hc _ IH]; [done|]. intros key i Ha.
    destruct Hc as [Heq|(c & Heq & Hk)]; rewrite Heq in *; [by apply IH|].
    destruct (Hk Hs) as [Hs1 Hkeep]. apply IH; [done|by apply Hkeep].
  - intros Hps. assert (Ha := Hret tt Hps Hs'). split; [done|].
    destruct Ha as (entries & entry & l & He & Hk & Hl & Hid). exists entries. split; [done|].
    unfold shouldSuppressLifecycleLogFromState. rewrite Hm, Hk, Hl. cbn [includes_id].
    do 2 f_equal. apply existsb_exists. exists (JStr id). split; [by apply list_elem_of_In|apply String.eqb_refl].
Qed.
End Window.
