(* ===== verification/Args.v ===== *)
(** * Command-line arguments ([parse-assimilate-args.ts], [parse-quickstart-args.ts], [name-validator.ts])

    A parser walks the list of arguments; an option with a value takes the next
    one.  What every parser accepts can be printed back as arguments and parses to
    the same. *)

From stdpp Require Import pretty.
From S2P Require Import Prelude JsDate JsonText.

Open Scope Z_scope.

(** ** Names *)

Definition name_char (c : ascii) : bool := is_lower c || is_digit c || Ascii.eqb c "_".
Definition name_char_or_hyphen (c : ascii) : bool := name_char c || Ascii.eqb c "-".

(** [/^[a-z0-9_][a-z0-9_-]{0,47}$/] *)
(* src/src/name-validator.ts 8-8 NAME_RE *)
Definition NAME_RE (s : string) : bool :=
  match s with
  | EmptyString => false
  | String c rest => name_char c && string_forallb name_char_or_hyphen rest && (String.length rest <=? 47)%nat
  end.

(** The name between quotation marks, as it is. *)
Definition in_quotes (s : string) : string := String dquote s +:+ String dquote EmptyString.

(* src/src/name-validator.ts 10-23 validateName *)
Definition validateName (name : string) : string + unit :=
  if String.eqb name "" then inl "name must not be empty"
  else if negb (NAME_RE name) then
    inl ("invalid name " +:+ in_quotes name +:+ ". Use lowercase letters, digits, hyphens, or underscores; max 48 chars; must not start with a hyphen.")
  else inr tt.

(** ** [borg assimilate] *)

Inductive borg_cli := CliClaude | CliCodex | CliOpencode.

#[export] Instance borg_cli_eq_dec : EqDecision borg_cli.
Proof. solve_decision. Defined.

Definition cli_of (s : string) : option borg_cli :=
  if String.eqb s "claude" then Some CliClaude
  else if String.eqb s "codex" then Some CliCodex
  else if String.eqb s "opencode" then Some CliOpencode else None.

Definition cli_name (c : borg_cli) : string :=
  match c with CliClaude => "claude" | CliCodex => "codex" | CliOpencode => "opencode" end.

(** A member that is never set to [false] is a boolean here. *)
(* src/src/assimilate-cmd.ts 116-129 AssimilateFlags *)
Record assimilate_flags := AssimilateFlags {
  af_worktree : option string;
  af_template : option string;
  af_noTemplate : bool;
  af_cubeName : option string;
  af_here : bool;
  af_yes : bool;
  af_cli : option borg_cli;
  af_model : option string;
  af_server : option string;
  af_enroll : bool;
  af_force : bool;
  af_noBorgApprovalOverride : bool
}.

Definition no_flags : assimilate_flags :=
  AssimilateFlags None None false None false false None None None false false false.

Definition model_char (c : ascii) : bool :=
  is_alnum c || Ascii.eqb c "." || Ascii.eqb c "_" || Ascii.eqb c ":" || Ascii.eqb c "/" || Ascii.eqb c "-".

(** [/^claude:[A-Za-z0-9._:\/-]+$/] *)
(* src/src/model-presets.ts 7-7 MODEL_DESCRIPTOR_REGEX *)
Definition MODEL_DESCRIPTOR_REGEX (s : string) : bool :=
  starts_with "claude:" s && string_forallb model_char (string_drop 7 s) && negb (String.eqb (string_drop 7 s) "").

(* src/src/model-presets.ts 9-14 parseModel *)
Definition parseModel (descriptor : string) : string + string :=
  if negb (MODEL_DESCRIPTOR_REGEX descriptor) then
    inl ("invalid model descriptor: " +:+ descriptor +:+ " (expected claude:<model>)")
  else inr (string_drop 7 descriptor).

(** The variables to set; none is unset. *)
(* src/src/model-presets.ts 16-22 resolveLaunchEnv *)
Definition resolveLaunchEnv (descriptor : option string) : string + list (string * string) :=
  match descriptor with
  | None | Some EmptyString => inr []
  | Some d => match parseModel d with inl e => inl e | inr model => inr [("ANTHROPIC_MODEL", model)] end
  end.

Definition ENROLLMENT_POSITIONAL_INPUT_ERROR : string :=
  "That argument was not accepted. If you meant a role name, use lowercase letters, digits, hyphens, or underscores, up to 48 characters. If you meant an enrollment invitation, it must be entered at the hidden prompt — re-run the same command without it.".

Definition invalid_model (s : string) : string :=
  "invalid model descriptor '" +:+ s +:+ "' — expected claude:<model>; configure local models in the agent CLI".

Definition host_required : string := "--host requires a host or URL (e.g. `--host localhost:7091`)".

Definition extra_argument (arg role : string) : string :=
  "unexpected extra argument: " +:+ arg +:+ " (already have role " +:+ in_quotes role +:+
  "). Multi-word role names must be quoted (for example, `borg assimilate " +:+ in_quotes "Code Reviewer" +:+ "`) or written with hyphens.".

Definition unknown_flag (arg : string) : string :=
  "unknown flag: " +:+ arg +:+
  ". Supported: --worktree, --template, --no-template, --cube-name, --host, --enroll, --here, --force, --yes, --cli, --model, --no-borg-approval-override".

(** [arg.slice(arg.indexOf('=') + 1)] of a string with an [=] *)
Fixpoint after_equals (s : string) : string :=
  match s with
  | EmptyString => ""
  | String c s' => if Ascii.eqb c "=" then s' else after_equals s'
  end.

Section Assimilate.
Variable enrollmentRequested : bool.

Definition parsed : Type := string + (option string * assimilate_flags).

(* src/src/parse-assimilate-args.ts 27-131 parseAssimilateArgs *)
Fixpoint assimilate_loop (rawArgs : list string) (role : option string) (f : assimilate_flags) : parsed :=
  let '(AssimilateFlags wt tpl noTpl cube here yes cli model server enroll force noOverride) := f in
  match rawArgs with
  | [] => inr (role, f)
  | arg :: rest =>
      if String.eqb arg "--worktree" then
        match rest with
        | [] | EmptyString :: _ => inl "--worktree requires a name argument (e.g. `--worktree drone-2`)"
        | v :: rest' => assimilate_loop rest' role (AssimilateFlags (Some v) tpl noTpl cube here yes cli model server enroll force noOverride)
        end
      else if String.eqb arg "--template" then
        match rest with
        | [] | EmptyString :: _ => inl "--template requires a name argument (e.g. `--template software-dev`)"
        | v :: rest' => assimilate_loop rest' role (AssimilateFlags wt (Some v) noTpl cube here yes cli model server enroll force noOverride)
        end
      else if String.eqb arg "--no-template" then
        assimilate_loop rest role (AssimilateFlags wt tpl true cube here yes cli model server enroll force noOverride)
      else if String.eqb arg "--cube-name" then
        match rest with
        | [] | EmptyString :: _ => inl "--cube-name requires a name argument (e.g. `--cube-name my-cube`)"
        | v :: rest' => assimilate_loop rest' role (AssimilateFlags wt tpl noTpl (Some v) here yes cli model server enroll force noOverride)
        end
      else if String.eqb arg "--here" then
        assimilate_loop rest role (AssimilateFlags wt tpl noTpl cube true yes cli model server enroll force noOverride)
      else if String.eqb arg "--force" then
        assimilate_loop rest role (AssimilateFlags wt tpl noTpl cube here yes cli model server enroll true noOverride)
      else if String.eqb arg "--no-borg-approval-override" then
        assimilate_loop rest role (AssimilateFlags wt tpl noTpl cube here yes cli model server enroll force true)
      else if String.eqb arg "--host" then
        match rest with
        | [] | EmptyString :: _ => inl host_required
        | v :: rest' =>
            if starts_with "-" v then inl host_required
            else assimilate_loop rest' role (AssimilateFlags wt tpl noTpl cube here yes cli model (Some v) enroll force noOverride)
        end
      else if starts_with "--host=" arg then
        let value := string_drop 7 arg in
        if String.eqb value "" then inl host_required
        else assimilate_loop rest role (AssimilateFlags wt tpl noTpl cube here yes cli model (Some value) enroll force noOverride)
      else if String.eqb arg "--enroll" then
        assimilate_loop rest role (AssimilateFlags wt tpl noTpl cube here yes cli model server true force noOverride)
      else if String.eqb arg "--yes" || String.eqb arg "-y" then
        assimilate_loop rest role (AssimilateFlags wt tpl noTpl cube here true cli model server enroll force noOverride)
      else if String.eqb arg "--cli" then
        match rest with
        | [] => inl "--cli requires claude, codex, or opencode"
        | v :: rest' =>
            match cli_of v with
            | None => inl "--cli requires claude, codex, or opencode"
            | Some c => assimilate_loop rest' role (AssimilateFlags wt tpl noTpl cube here yes (Some c) model server enroll force noOverride)
            end
        end
      else if starts_with "--cli=" arg then
        match cli_of (string_drop 6 arg) with
        | None => inl "--cli requires claude, codex, or opencode"
        | Some c => assimilate_loop rest role (AssimilateFlags wt tpl noTpl cube here yes (Some c) model server enroll force noOverride)
        end
      else if String.eqb arg "--model" || String.eqb arg "--backend" then
        match rest with
        | [] | EmptyString :: _ => inl "--model requires a descriptor (e.g. `--model claude:claude-opus-4-8`)"
        | v :: rest' =>
            if negb (MODEL_DESCRIPTOR_REGEX v) then inl (invalid_model v)
            else assimilate_loop rest' role (AssimilateFlags wt tpl noTpl cube here yes cli (Some v) server enroll force noOverride)
        end
      else if starts_with "--model=" arg || starts_with "--backend=" arg then
        let value := after_equals arg in
        if negb (MODEL_DESCRIPTOR_REGEX value) then inl (invalid_model value)
        else assimilate_loop rest role (AssimilateFlags wt tpl noTpl cube here yes cli (Some value) server enroll force noOverride)
      else if starts_with "--" arg then inl (unknown_flag arg)
      else
        match role with
        | Some r => inl (if enrollmentRequested then ENROLLMENT_POSITIONAL_INPUT_ERROR else extra_argument arg r)
        | None =>
            if enrollmentRequested && (match validateName arg with inl _ => true | inr _ => false end) then
              inl ENROLLMENT_POSITIONAL_INPUT_ERROR
            else assimilate_loop rest (Some arg) f
        end
  end.
End Assimilate.

(* src/src/parse-assimilate-args.ts 22-142 parseAssimilateArgs *)
Definition parseAssimilateArgs (rawArgs : list string) : string + (option string * assimilate_flags) :=
  match assimilate_loop (existsb (String.eqb "--enroll") rawArgs) rawArgs None no_flags with
  | inl e => inl e
  | inr (role, f) =>
      if bool_decide (is_Some (af_template f)) && af_noTemplate f then
        inl "--template and --no-template are mutually exclusive"
      else inr (role, f)
  end.

(** ** Printing back *)

Definition option_arg (name : string) (v : option string) : list string :=
  match v with Some x => [name; x] | None => [] end.
Definition flag_arg (name : string) (b : bool) : list string := if b then [name] else [].

(** The arguments that say what was parsed. *)
Definition assimilate_args (role : option string) (f : assimilate_flags) : list string :=
  flag_arg "--enroll" (af_enroll f) ++
  option_arg "--worktree" (af_worktree f) ++ option_arg "--template" (af_template f) ++
  flag_arg "--no-template" (af_noTemplate f) ++ option_arg "--cube-name" (af_cubeName f) ++
  flag_arg "--here" (af_here f) ++ flag_arg "--force" (af_force f) ++
  flag_arg "--no-borg-approval-override" (af_noBorgApprovalOverride f) ++
  match af_server f with Some s => ["--host=" +:+ s] | None => [] end ++ flag_arg "--yes" (af_yes f) ++
  option_arg "--cli" (cli_name <$> af_cli f) ++ option_arg "--model" (af_model f) ++
  match role with Some r => [r] | None => [] end.

(** What a successful parse has: the values that can be given at all. *)
Record well_formed (enrolling : bool) (role : option string) (f : assimilate_flags) : Prop := {
  wf_worktree : af_worktree f <> Some "";
  wf_template : af_template f <> Some "";
  wf_cubeName : af_cubeName f <> Some "";
  wf_server : af_server f <> Some "";
  wf_model : forall m, af_model f = Some m -> MODEL_DESCRIPTOR_REGEX m = true;
  wf_role : forall r, role = Some r -> starts_with "--" r = false /\ r <> "-y" /\ (enrolling = true -> NAME_RE r = true);
  wf_enroll : af_enroll f = true \/ af_worktree f = Some "--enroll" \/ af_template f = Some "--enroll" \/
              af_cubeName f = Some "--enroll" -> enrolling = true
}.

Lemma validateName_ok s : (match validateName s with inl _ => true | inr _ => false end) = negb (NAME_RE s).
Proof. unfold validateName. destruct (String.eqb_spec s "") as [->|]; [done|]. by destruct (NAME_RE s). Qed.

(** Split the next test of the loop. *)
Ltac next_arg :=
  match goal with
  | |- (if ?b then _ else _) = _ -> _ => destruct b eqn:?
  | |- match ?l with _ => _ end = _ -> _ => destruct l eqn:?
  end; try discriminate.

Lemma loop_well_formed n : forall b rawArgs role f role' f',
  (length rawArgs <= n)%nat -> (existsb (String.eqb "--enroll") rawArgs = true -> b = true) -> well_formed b role f ->
  assimilate_loop b rawArgs role f = inr (role', f') -> well_formed b role' f'.
Proof.
  induction n as [|n IH]; intros b rawArgs role f role' f' Hn Hb Hw;
    (destruct rawArgs as [|arg rest]; [destruct f; cbn [assimilate_loop]; by intros [= <- <-]|]); [cbn in Hn; lia|].
  destruct f as [wt tpl noTpl cube here yes cli model server enroll force noOverride].
  cbn [existsb] in Hb. cbn [length] in Hn. cbn [assimilate_loop].
  assert (Hrest : existsb (String.eqb "--enroll") rest = true -> b = true) by (intros E; apply Hb; by rewrite E, orb_true_r).
  assert (Hval : forall v rest', rest = v :: rest' ->
    (length rest' <= n)%nat /\ (existsb (String.eqb "--enroll") rest' = true -> b = true) /\ (Some v = Some "--enroll" -> b = true)).
  { intros v rest' ->. cbn [existsb length] in *. split; [lia|]. split; [intros E; apply Hrest; by rewrite E, orb_true_r|].
    intros [= ->]. by apply Hrest. }
  destruct Hw as [H1 H2 H3 H4 H5 H6 H7]. cbn in H1, H2, H3, H4, H5, H7.
  assert (Hgo : forall rest' role f, (length rest' <= n)%nat -> (existsb (String.eqb "--enroll") rest' = true -> b = true) ->
    well_formed b role f -> assimilate_loop b rest' role f = inr (role', f') -> well_formed b role' f').
  { intros rest' r g. by apply IH. }
  assert (Hhere : (length rest <= n)%nat) by lia.
  repeat next_arg; cbv zeta; subst;
    try (destruct (Hval _ _ eq_refl) as (Hl & He & Hv); clear Hval);
    (apply Hgo; [assumption|assumption|split; cbn -[string_drop]; try done; try tauto]).
  - intros E. assert (Hd : string_drop 7 arg = "") by congruence.
    match goal with H : String.eqb (string_drop 7 arg) "" = false |- _ => by rewrite Hd in H end.
  - intros _. apply Hb. rewrite String.eqb_sym.
    match goal with H : String.eqb arg "--enroll" = true |- _ => by rewrite H end.
  - intros m [= <-]. by apply negb_false_iff.
  - intros m [= <-]. by apply negb_false_iff.
  - intros r [= <-]. split; [done|].
    match goal with H : String.eqb arg "--yes" || _ = false |- _ => apply orb_false_iff in H as [_ Hy] end.
    split; [by apply String.eqb_neq|]. intros ->.
    match goal with H : true && _ = false |- _ => rewrite validateName_ok in H; by apply negb_false_iff end.
Qed.

(** Each printed option sets its own field and goes on. *)
Section Printed.
Variables (b : bool) (rest : list string) (role : option string).
Variables (wt tpl cube model server : option string) (noTpl here yes enroll force noOverride : bool) (cli : option borg_cli).
Local Abbreviation loop args r f := (assimilate_loop b args r f).

Lemma loop_enroll x : loop (flag_arg "--enroll" x ++ rest) role (AssimilateFlags wt tpl noTpl cube here yes cli model server enroll force noOverride) =
  loop rest role (AssimilateFlags wt tpl noTpl cube here yes cli model server (enroll || x) force noOverride).
Proof. destruct x; [by rewrite orb_true_r|by rewrite orb_false_r]. Qed.

Lemma loop_worktree x : x <> Some "" -> loop (option_arg "--worktree" x ++ rest) role (AssimilateFlags None tpl noTpl cube here yes cli model server enroll force noOverride) =
  loop rest role (AssimilateFlags x tpl noTpl cube here yes cli model server enroll force noOverride).
Proof. destruct x as [[|c s]|]; done. Qed.

Lemma loop_template x : x <> Some "" -> loop (option_arg "--template" x ++ rest) role (AssimilateFlags wt None noTpl cube here yes cli model server enroll force noOverride) =
  loop rest role (AssimilateFlags wt x noTpl cube here yes cli model server enroll force noOverride).
Proof. destruct x as [[|c s]|]; done. Qed.

Lemma loop_noTemplate x : loop (flag_arg "--no-template" x ++ rest) role (AssimilateFlags wt tpl noTpl cube here yes cli model server enroll force noOverride) =
  loop rest role (AssimilateFlags wt tpl (noTpl || x) cube here yes cli model server enroll force noOverride).
Proof. destruct x; [by rewrite orb_true_r|by rewrite orb_false_r]. Qed.

Lemma loop_cubeName x : x <> Some "" -> loop (option_arg "--cube-name" x ++ rest) role (AssimilateFlags wt tpl noTpl None here yes cli model server enroll force noOverride) =
  loop rest role (AssimilateFlags wt tpl noTpl x here yes cli model server enroll force noOverride).
Proof. destruct x as [[|c s]|]; done. Qed.

Lemma loop_here x : loop (flag_arg "--here" x ++ rest) role (AssimilateFlags wt tpl noTpl cube here yes cli model server enroll force noOverride) =
  loop rest role (AssimilateFlags wt tpl noTpl cube (here || x) yes cli model server enroll force noOverride).
Proof. destruct x; [by rewrite orb_true_r|by rewrite orb_false_r]. Qed.

Lemma loop_force x : loop (flag_arg "--force" x ++ rest) role (AssimilateFlags wt tpl noTpl cube here yes cli model server enroll force noOverride) =
  loop rest role (AssimilateFlags wt tpl noTpl cube here yes cli model server enroll (force || x) noOverride).
Proof. destruct x; [by rewrite orb_true_r|by rewrite orb_false_r]. Qed.

Lemma loop_noOverride x : loop (flag_arg "--no-borg-approval-override" x ++ rest) role (AssimilateFlags wt tpl noTpl cube here yes cli model server enroll force noOverride) =
  loop rest role (AssimilateFlags wt tpl noTpl cube here yes cli model server enroll force (noOverride || x)).
Proof. destruct x; [by rewrite orb_true_r|by rewrite orb_false_r]. Qed.

Lemma loop_server x : x <> Some "" ->
  loop (match x with Some s => ["--host=" +:+ s] | None => [] end ++ rest) role (AssimilateFlags wt tpl noTpl cube here yes cli model None enroll force noOverride) =
  loop rest role (AssimilateFlags wt tpl noTpl cube here yes cli model x enroll force noOverride).
Proof. destruct x as [[|c s]|]; done. Qed.

Lemma loop_yes x : loop (flag_arg "--yes" x ++ rest) role (AssimilateFlags wt tpl noTpl cube here yes cli model server enroll force noOverride) =
  loop rest role (AssimilateFlags wt tpl noTpl cube here (yes || x) cli model server enroll force noOverride).
Proof. destruct x; [by rewrite orb_true_r|by rewrite orb_false_r]. Qed.

Lemma loop_cli x : loop (option_arg "--cli" (cli_name <$> x) ++ rest) role (AssimilateFlags wt tpl noTpl cube here yes None model server enroll force noOverride) =
  loop rest role (AssimilateFlags wt tpl noTpl cube here yes x model server enroll force noOverride).
Proof. by destruct x as [[]|]. Qed.

Lemma loop_model x : (forall m, x = Some m -> MODEL_DESCRIPTOR_REGEX m = true) ->
  loop (option_arg "--model" x ++ rest) role (AssimilateFlags wt tpl noTpl cube here yes cli None server enroll force noOverride) =
  loop rest role (AssimilateFlags wt tpl noTpl cube here yes cli x server enroll force noOverride).
Proof.
  destruct x as [m|]; [|done]. intros Hm. specialize (Hm m eq_refl). destruct m as [|c s]; [done|].
  transitivity (if negb (MODEL_DESCRIPTOR_REGEX (String c s)) then inl (invalid_model (String c s))
    else loop rest role (AssimilateFlags wt tpl noTpl cube here yes cli (Some (String c s)) server enroll force noOverride)).
  - reflexivity.
  - by rewrite Hm.
Qed.
End Printed.

(** A role name is no option. *)
Lemma loop_role b r f : starts_with "--" r = false -> r <> "-y" -> (b = true -> NAME_RE r = true) ->
  assimilate_loop b [r] None f = inr (Some r, f).
Proof.
  intros Hr Hy Hn. destruct f as [wt tpl noTpl cube here yes cli model server enroll force noOverride].
  assert (Hlit : forall p, String.eqb r (String "-" (String "-" p)) = false).
  { intros p. apply String.eqb_neq. intros ->. by destruct p. }
  assert (Hpre : forall p, starts_with (String "-" (String "-" p)) r = false).
  { intros p. destruct (starts_with (String "-" (String "-" p)) r) eqn:E; [|done].
    unfold starts_with in *. apply prefix_correct in E. destruct r as [|c1 [|c2 r]]; cbn in E; try done.
    cbn in Hr. injection E as -> -> _. by destruct r. }
  cbn [assimilate_loop]. rewrite !Hlit, !Hpre. cbn [orb].
  rewrite (proj2 (String.eqb_neq r "-y") Hy). cbn [orb]. rewrite validateName_ok.
  destruct b; [|done]. by rewrite Hn.
Qed.

Lemma existsb_option_arg name x rest :
  existsb (String.eqb "--enroll") (option_arg name x ++ rest) = true -> String.eqb "--enroll" name = false ->
  x = Some "--enroll" \/ existsb (String.eqb "--enroll") rest = true.
Proof.
  destruct x as [v|]; [|by right]. cbn [option_arg app existsb]. intros Hx Hn. rewrite Hn in Hx. cbn [orb] in Hx.
  apply orb_true_iff in Hx as [Hx|Hx]; [|by right]. apply String.eqb_eq in Hx as <-. by left.
Qed.

Lemma existsb_flag_arg name x rest :
  existsb (String.eqb "--enroll") (flag_arg name x ++ rest) = true -> String.eqb "--enroll" name = false ->
  existsb (String.eqb "--enroll") rest = true.
Proof. destruct x; [|done]. cbn [flag_arg app existsb]. intros Hx Hn. by rewrite Hn in Hx. Qed.

(** Printing names [--enroll] only where parsing did. *)
Lemma printed_enroll b role f :
  well_formed b role f -> existsb (String.eqb "--enroll") (assimilate_args role f) = true -> b = true.
Proof.
  intros [_ _ _ _ Hm Hr He] Hx. apply He. unfold assimilate_args in Hx.
  destruct (af_enroll f); [by left|right]. cbn [flag_arg app] in Hx.
  apply existsb_option_arg in Hx as [?|Hx]; [by left|right|done].
  apply existsb_option_arg in Hx as [?|Hx]; [by left|right|done].
  apply existsb_flag_arg in Hx; [|done]. apply existsb_option_arg in Hx as [?|Hx]; [done|exfalso|done].
  do 3 (apply existsb_flag_arg in Hx; [|done]).
  assert (Hx' : existsb (String.eqb "--enroll") (flag_arg "--yes" (af_yes f) ++ option_arg "--cli" (cli_name <$> af_cli f) ++
    option_arg "--model" (af_model f) ++ match role with Some r => [r] | None => [] end) = true) by (by destruct (af_server f)).
  apply existsb_flag_arg in Hx'; [|done]. apply existsb_option_arg in Hx' as [Hc|Hx']; [by destruct (af_cli f) as [[]|]| |done].
  apply existsb_option_arg in Hx' as [Hmo|Hx']; [by specialize (Hm _ Hmo)| |done].
  destruct role as [r|]; [|done]. cbn [existsb] in Hx'. rewrite orb_false_r in Hx'. apply String.eqb_eq in Hx' as <-.
  by destruct (Hr _ eq_refl).
Qed.

Lemma well_formed_weaken b b' role f : (b' = true -> b = true) -> well_formed b role f ->
  forall r, role = Some r -> starts_with "--" r = false /\ r <> "-y" /\ (b' = true -> NAME_RE r = true).
Proof. intros Hb [_ _ _ _ _ Hr _] r Hrole. destruct (Hr r Hrole) as (H1 & H2 & H3). auto. Qed.

(** C39. What [borg assimilate] accepts can be said again.  Whatever the arguments,
    in whatever order and however often repeated, when they parse, the canonical
    arguments of the result parse to the same role and the same flags; and then
    every value is one an option takes, the model is a descriptor, the role is no
    option, and - when an invitation is to be entered - the role is a valid name,
    so that a pasted invitation is never taken for one. *)
Theorem assimilate_args_round_trip rawArgs role f :
  parseAssimilateArgs rawArgs = inr (role, f) ->
  parseAssimilateArgs (assimilate_args role f) = inr (role, f) /\
  (forall m, af_model f = Some m -> exists model, parseModel m = inr model) /\
  (forall r, role = Some r -> existsb (String.eqb "--enroll") rawArgs = true -> validateName r = inr tt).
Proof.
  unfold parseAssimilateArgs. intros Hp. destruct (assimilate_loop _ rawArgs None no_flags) as [e|[role' f']] eqn:Hl; [done|].
  destruct (bool_decide (is_Some (af_template f')) && af_noTemplate f') eqn:Ht; [done|]. injection Hp as -> ->.
  assert (Hw : well_formed (existsb (String.eqb "--enroll") rawArgs) role f).
  { eapply loop_well_formed; [reflexivity|done| |exact Hl]. split; cbn; try done. by intros [|[|[|]]]. }
  split; [|split].
  - assert (Hb := printed_enroll _ _ _ Hw). set (b := existsb _ (assimilate_args role f)) in *.
    assert (Hrole := well_formed_weaken _ b role f Hb Hw). destruct Hw as [H1 H2 H3 H4 H5 _ _]. clearbody b.
    destruct f as [wt tpl noTpl cube here yes cli model server enroll force noOverride]. cbn in H1, H2, H3, H4, H5, Ht.
    unfold assimilate_args, no_flags. cbn [af_enroll af_worktree af_template af_noTemplate af_cubeName af_here af_force
      af_noBorgApprovalOverride af_server af_yes af_cli af_model].
    rewrite loop_enroll, loop_worktree, loop_template, loop_noTemplate, loop_cubeName, loop_here, loop_force,
      loop_noOverride, loop_server, loop_yes, loop_cli, loop_model by done. cbn [orb].
    destruct role as [r|]; [rewrite loop_role by (by apply Hrole)|]; cbn [assimilate_loop af_template af_noTemplate]; by rewrite Ht.
  - intros m Hm. unfold parseModel. destruct Hw as [_ _ _ _ H5 _ _]. rewrite (H5 m Hm). by eexists.
  - intros r Hr Hb. destruct Hw as [_ _ _ _ _ H6 _]. destruct (H6 r Hr) as (_ & _ & Hn). specialize (Hn Hb).
    unfold validateName. destruct (String.eqb_spec r "") as [->|]; [done|]. by rewrite Hn.
Qed.

Lemma assimilate_args_round_trip_witness :
  exists role f, parseAssimilateArgs ["builder"; "--cli=codex"; "-y"; "--host"; "localhost:7091"] = inr (role, f) /\
    parseAssimilateArgs ["--host=localhost:7091"; "--yes"; "--cli"; "codex"; "builder"] = inr (role, f).
Proof.
  eexists _, _. split; [reflexivity|].
  exact (proj1 (assimilate_args_round_trip ["builder"; "--cli=codex"; "-y"; "--host"; "localhost:7091"] _ _ eq_refl)).
Defined.

(** ** [borg quickstart] *)

(* src/src/parse-quickstart-args.ts 3-6 QuickstartRoleRequest *)
Record quickstart_role := QuickstartRole { qr_slug : string; qr_count : Z }.

(* src/src/parse-quickstart-args.ts 8-12 QuickstartArgs *)
Record quickstart_args := QuickstartArgs {
  qa_template : option string;
  qa_roles : list quickstart_role;
  qa_yes : bool
}.

Definition slug_char (c : ascii) : bool := is_lower c || is_digit c.

(** [/[a-z0-9]+(?:-[a-z0-9]+)*/] up to the end of the string or the first colon;
    [open] when a letter or digit must come.  The rest starts with that colon. *)
Fixpoint slug_and_rest (open : bool) (s : string) : option (string * string) :=
  match s with
  | EmptyString => if open then None else Some ("", "")
  | String c s' =>
      if slug_char c then '(t, r) ← slug_and_rest false s'; Some (String c t, r)
      else if open then None
      else if Ascii.eqb c "-" then '(t, r) ← slug_and_rest true s'; Some (String c t, r)
      else if Ascii.eqb c ":" then Some ("", s)
      else None
  end.

(** [/[1-9]\d*/] *)
Definition positive_digits (s : string) : bool :=
  match s with
  | EmptyString => false
  | String c s' => ascii_between 49 57 c && string_forallb is_digit s'
  end.

(** A decimal above the largest safe integer stays above it when it is rounded to
    a number of the language, so the test can be made on the exact value. *)
(* src/src/parse-quickstart-args.ts 20-25 parseRole *)
Definition parseRole (value : string) : option quickstart_role :=
  '(slug, rest) ← slug_and_rest true value;
  match rest with
  | EmptyString => Some (QuickstartRole slug 1)
  | String _ digits =>
      if positive_digits digits then
        let count := digits_value 0 digits in
        if is_safe_integer count then Some (QuickstartRole slug count) else None
      else None
  end.

Section Quickstart.
(** The names of the templates a new cube is offered, from the shared package. *)
Variable templates : list string.

(* src/src/parse-quickstart-args.ts 27-54 parseQuickstartArgs *)
Fixpoint quickstart_loop (rawArgs : list string) (a : quickstart_args) : string + quickstart_args :=
  match rawArgs with
  | [] => inr a
  | arg :: rest =>
      if String.eqb arg "--yes" || String.eqb arg "-y" then
        quickstart_loop rest (QuickstartArgs (qa_template a) (qa_roles a) true)
      else if String.eqb arg "--template" then
        match rest with
        | [] | EmptyString :: _ => inl "--template requires software-dev, starter, or local-model"
        | value :: rest' =>
            if negb (existsb (String.eqb value) templates) then
              inl ("unknown template '" +:+ value +:+ "'; choose software-dev, starter, or local-model")
            else if bool_decide (is_Some (qa_template a)) then inl "--template was provided more than once"
            else quickstart_loop rest' (QuickstartArgs (Some value) (qa_roles a) (qa_yes a))
        end
      else if String.eqb arg "--role" then
        match rest with
        | [] | EmptyString :: _ => inl "--role requires <slug>[:<count>]"
        | value :: rest' =>
            match parseRole value with
            | None => inl ("invalid role '" +:+ value +:+ "'; use <slug>[:<positive-count>]")
            | Some role => quickstart_loop rest' (QuickstartArgs (qa_template a) (qa_roles a ++ [role]) (qa_yes a))
            end
        end
      else inl ("unknown option: " +:+ arg +:+ ". Supported: --template, --role, --yes/-y")
  end.

Definition parseQuickstartArgs (rawArgs : list string) : string + quickstart_args :=
  quickstart_loop rawArgs (QuickstartArgs None [] false).
End Quickstart.

(** The arguments that say it again; every count is written out. *)
Definition role_text (r : quickstart_role) : string := qr_slug r +:+ String ":" (pretty (qr_count r)).
Definition role_args (l : list quickstart_role) : list string := l ≫= fun r => ["--role"; role_text r].
Definition quickstart_argv (a : quickstart_args) : list string :=
  option_arg "--template" (qa_template a) ++ role_args (qa_roles a) ++ flag_arg "--yes" (qa_yes a).

(** What parsing yields: slugs of the grammar and counts from one up. *)
Definition role_well_formed (r : quickstart_role) : Prop :=
  slug_and_rest true (qr_slug r) = Some (qr_slug r, "") /\ 1 <= qr_count r <= max_safe_integer.

Lemma slug_and_rest_spec s : forall o t r, slug_and_rest o s = Some (t, r) ->
  s = t +:+ r /\ slug_and_rest o t = Some (t, "") /\
  forall x, slug_and_rest o (t +:+ String ":" x) = Some (t, String ":" x).
Proof.
  induction s as [|c s IH]; intros o t r; cbn [slug_and_rest].
  - destruct o; [done|]. intros [= <- <-]. done.
  - destruct (slug_char c) eqn:Hc.
    { destruct (slug_and_rest false s) as [[t' r']|] eqn:E; [|done]. cbn. intros [= <- <-].
      destruct (IH _ _ _ E) as (-> & H1 & H2). split; [done|].
      cbn [slug_and_rest]. rewrite Hc, H1. split; [done|]. intros x.
      rewrite append_cons. cbn [slug_and_rest]. by rewrite Hc, H2. }
    destruct o; [done|]. destruct (Ascii.eqb c "-") eqn:Hh.
    { destruct (slug_and_rest true s) as [[t' r']|] eqn:E; [|done]. cbn. intros [= <- <-].
      destruct (IH _ _ _ E) as (-> & H1 & H2). split; [done|].
      cbn [slug_and_rest]. rewrite Hc, Hh, H1. split; [done|]. intros x.
      rewrite append_cons. cbn [slug_and_rest]. by rewrite Hc, Hh, H2. }
    destruct (Ascii.eqb c ":"); [|done]. intros [= <- <-]. done.
Qed.

Lemma digits_value_ge d : string_forallb is_digit d = true -> forall acc, 1 <= acc -> 1 <= digits_value acc d.
Proof.
  induction d as [|c d IH]; intros Hd acc Ha; cbn [digits_value]; [done|].
  cbn in Hd. apply andb_true_iff in Hd as [Hc Hd]. apply IH; [done|].
  unfold is_digit, ascii_between in Hc. apply andb_true_iff in Hc as [Hc _]. apply Nat.leb_le in Hc. lia.
Qed.

Lemma positive_digits_value d : positive_digits d = true -> 1 <= digits_value 0 d.
Proof.
  destruct d as [|c d]; [done|]. cbn [positive_digits digits_value]. intros H. apply andb_true_iff in H as [Hc Hd].
  apply digits_value_ge; [done|]. unfold ascii_between in Hc. apply andb_true_iff in Hc as [Hc _]. apply Nat.leb_le in Hc. lia.
Qed.

Lemma pretty_positive z : 1 <= z -> positive_digits (pretty z) = true /\ digits_value 0 (pretty z) = z.
Proof.
  intros Hz. destruct z as [|p|p]; [lia| |lia].
  assert (Hp : pretty (Z.pos p) = pretty (N.pos p)) by done. rewrite Hp. unfold pretty, pretty_N.
  destruct (decide (N.pos p = 0)%N); [done|].
  destruct (pretty_N_go_digits (N.pos p)) as (d & -> & Hall & Hval & Hhead). rewrite append_nil_r.
  split; [|by rewrite Hval]. destruct Hhead as (c & d' & -> & Hc); [lia|].
  cbn [positive_digits]. cbn in Hall. apply andb_true_iff in Hall as [Hd Hall]. rewrite Hall, andb_true_r.
  unfold is_digit, ascii_between in *. apply andb_true_iff in Hd as [H1 H2]. rewrite H2, andb_true_r.
  apply Nat.leb_le in H1. apply Nat.leb_le.
  assert (nat_of_ascii c <> 48%nat) by (intros E; apply Hc; by apply ascii_nat_inj). lia.
Qed.

Lemma parseRole_well_formed s r : parseRole s = Some r -> role_well_formed r.
Proof.
  unfold parseRole. destruct (slug_and_rest true s) as [[t rest]|] eqn:E; [|done]. cbn.
  destruct (slug_and_rest_spec _ _ _ _ E) as (_ & Ht & _).
  destruct rest as [|c d]; [intros [= <-]; by split|].
  destruct (positive_digits d) eqn:Hd; [|done]. unfold is_safe_integer. destruct (_ && _) eqn:Hs; [|done]. intros [= <-].
  split; [done|]. cbn. apply andb_true_iff in Hs as [_ Hs]. apply Z.leb_le in Hs.
  split; [by apply positive_digits_value|done].
Qed.

Lemma parseRole_text r : role_well_formed r -> parseRole (role_text r) = Some r.
Proof.
  intros [Hs Hc]. destruct r as [slug count]. cbn in *. unfold parseRole, role_text. cbn [qr_slug qr_count].
  destruct (slug_and_rest_spec _ _ _ _ Hs) as (_ & _ & Hx). rewrite Hx. cbn -[positive_digits digits_value].
  destruct (pretty_positive count) as [-> ->]; [lia|]. unfold is_safe_integer.
  replace (_ && _) with true by (symmetry; apply andb_true_iff; split; apply Z.leb_le; unfold max_safe_integer in *; lia). done.
Qed.

Lemma quickstart_well_formed templates n : forall rawArgs a a', (length rawArgs <= n)%nat ->
  quickstart_loop templates rawArgs a = inr a' ->
  Forall role_well_formed (qa_roles a) -> (forall t, qa_template a = Some t -> t <> "" /\ existsb (String.eqb t) templates = true) ->
  Forall role_well_formed (qa_roles a') /\
  (forall t, qa_template a' = Some t -> t <> "" /\ existsb (String.eqb t) templates = true).
Proof.
  induction n as [|n IH]; intros [|arg rest] a a' Hn; cbn [length] in Hn; cbn [quickstart_loop]; try lia;
    [by intros [= <-]..|].
  assert (Hrest : forall v l, rest = v :: l -> (length l <= n)%nat) by (intros v l ->; cbn in Hn; lia).
  repeat next_arg; intros Hgo Hr Ht; try (eapply IH in Hgo; [exact Hgo| |cbn..]; eauto; try lia).
  - intros t [= <-]. split; [done|]. match goal with H : negb _ = false |- _ => by apply negb_false_iff in H end.
  - apply Forall_app. split; [done|]. constructor; [|done]. by eapply parseRole_well_formed.
Qed.

Lemma quickstart_roles templates l : Forall role_well_formed l -> forall rest a,
  quickstart_loop templates (role_args l ++ rest) a =
  quickstart_loop templates rest (QuickstartArgs (qa_template a) (qa_roles a ++ l) (qa_yes a)).
Proof.
  induction 1 as [|r l Hr Hl IH]; intros rest a; [destruct a; cbn; by rewrite app_nil_r|].
  change (role_args (r :: l)) with ("--role" :: role_text r :: role_args l). cbn [app].
  assert (Hne : exists c s, role_text r = String c s).
  { unfold role_text. destruct (qr_slug r); [by eexists _, _|]. by eexists _, _. }
  destruct Hne as (c & s & He). assert (Hp := parseRole_text r Hr). rewrite He in *.
  transitivity (match parseRole (String c s) with
    | None => inl ("invalid role '" +:+ String c s +:+ "'; use <slug>[:<positive-count>]")
    | Some role => quickstart_loop templates (role_args l ++ rest) (QuickstartArgs (qa_template a) (qa_roles a ++ [role]) (qa_yes a))
    end); [reflexivity|].
  rewrite Hp, IH. cbn [qa_template qa_roles qa_yes]. by rewrite <- app_assoc.
Qed.

(** What [borg quickstart] accepts can be said again, with every count written
    out; the roles are well formed and the template is one that is offered. *)
Lemma quickstart_args_round_trip templates rawArgs a :
  parseQuickstartArgs templates rawArgs = inr a ->
  parseQuickstartArgs templates (quickstart_argv a) = inr a /\ Forall role_well_formed (qa_roles a).
Proof.
  unfold parseQuickstartArgs. intros Hp.
  destruct (quickstart_well_formed templates _ _ _ _ (le_n _) Hp) as [Hr Ht]; [by constructor|done|].
  split; [|done]. clear Hp. destruct a as [tpl roles yes]. cbn [qa_roles qa_template] in *. unfold quickstart_argv. cbn [qa_template qa_roles qa_yes].
  assert (Hgo : forall t, quickstart_loop templates (role_args roles ++ flag_arg "--yes" yes) (QuickstartArgs t [] false) =
    inr (QuickstartArgs t roles yes)).
  { intros t. rewrite quickstart_roles by done. by destruct yes. }
  destruct tpl as [t|]; [|by apply Hgo]. destruct (Ht t eq_refl) as [Hne Hin]. destruct t as [|c t]; [done|].
  transitivity (if negb (existsb (String.eqb (String c t)) templates) then inl ("unknown template '" +:+ String c t +:+ "'; choose software-dev, starter, or local-model")
    else quickstart_loop templates (role_args roles ++ flag_arg "--yes" yes) (QuickstartArgs (Some (String c t)) [] false)); [reflexivity|].
  rewrite Hin. apply Hgo.
Qed.
