(* ===== verification/Names.v ===== *)
(** * Names of cubes and roles ([cube-name.ts], [role-resolver.ts], [role-match.ts], [tool-scope.ts])

    How a repository's name becomes a cube's, how roles are looked up and chosen,
    and which tools a role is shown.  Names that become part of a path pass through
    one normalisation.  Of the mapping to lower case and of the white space of the
    language all that these functions can tell apart is modelled: the two code
    points outside ASCII whose lower case has an ASCII letter, and every code point
    of [\s]. *)

From S2P Require Import Prelude JsDate JsonText.

Open Scope Z_scope.

(** ** Normalisation *)

(** [s.toLowerCase()]; U+212A is the Kelvin sign and U+0130 the dotted capital I. *)
Fixpoint lower_case (s : string) : string :=
  match s with
  | String a ((String b r2) as r1) =>
      match r2 with
      | String c r3 =>
          if match_shape [Ascii.eqb "226"; Ascii.eqb "132"; Ascii.eqb "170"] (String a (String b (String c ""))) then
            String "k" (lower_case r3)
          else if match_shape [Ascii.eqb "196"; Ascii.eqb "176"] (String a (String b "")) then
            String "i" (String "204" (String "135" (lower_case r2)))
          else String (to_lower_char a) (lower_case r1)
      | EmptyString =>
          if match_shape [Ascii.eqb "196"; Ascii.eqb "176"] (String a (String b "")) then
            String "i" (String "204" (String "135" ""))
          else String (to_lower_char a) (lower_case r1)
      end
  | String a EmptyString => String (to_lower_char a) ""
  | EmptyString => ""
  end.

Definition separator1 (c : ascii) : bool := Ascii.eqb c "_" || is_ascii_space c.

(** [s.replace(/[_\s]+/g, '-')]; [run] while in a run of separators. *)
Fixpoint collapse (run : bool) (s : string) : string :=
  let sep (rest : string) := if run then rest else String "-" rest in
  match s with
  | EmptyString => ""
  | String a r1 =>
      if separator1 a then sep (collapse true r1)
      else
        match r1 with
        | EmptyString => s
        | String b r2 =>
            if space2 a b then sep (collapse true r2)
            else
              match r2 with
              | EmptyString => String a (collapse false r1)
              | String c r3 => if space3 a b c then sep (collapse true r3) else String a (collapse false r1)
              end
        end
  end.

(** [[a-z0-9-]] *)
Definition name_byte (c : ascii) : bool := is_lower c || is_digit c || Ascii.eqb c "-".

(* src/src/role-resolver.ts 47-49 roleSlug *)
Definition roleSlug (raw : string) : string := string_filter name_byte (collapse false (lower_case raw)).

(* src/src/cube-name.ts 43-49 normalizeCubeName *)
Definition normalizeCubeName (raw : string) : string :=
  string_take 64 (string_filter name_byte (collapse false (lower_case raw))).

(** ** Cube names *)

Definition MAX_URL_LEN : nat := 2048.

(* src/src/cube-name.ts 10-15 sanitizeRemoteUrl *)
Definition sanitizeRemoteUrl (raw : string) : option string :=
  let trimmed := trim_spaces raw in
  if (js_length trimmed =? 0)%nat || (MAX_URL_LEN <? js_length trimmed)%nat then None
  else if string_existsb is_c0_or_del trimmed then None
  else Some trimmed.

(** [/^[a-z]+:\/\//] *)
Fixpoint after_scheme (some_letter : bool) (s : string) : option string :=
  match s with
  | String c s' =>
      if is_lower c then after_scheme true s'
      else if some_letter && starts_with "://" s then Some (string_drop 3 s) else None
  | EmptyString => None
  end.

(** [/^[^@\/]*@/] *)
Fixpoint after_credentials (s : string) : option string :=
  match s with
  | String c s' =>
      if Ascii.eqb c "@" then Some s' else if Ascii.eqb c "/" then None else after_credentials s'
  | EmptyString => None
  end.

(** What follows the last slash or colon. *)
Fixpoint after_last (p : ascii -> bool) (s : string) : option string :=
  match s with
  | String c s' =>
      match after_last p s' with
      | Some r => Some r
      | None => if p c then Some s' else None
      end
  | EmptyString => None
  end.

(** [s.replace(/\.git$/, '')] *)
Fixpoint without_git (s : string) : string :=
  if String.eqb s ".git" then ""
  else match s with String c s' => String c (without_git s') | EmptyString => "" end.

(* src/src/cube-name.ts 25-37 parseGitRemote *)
Definition parseGitRemote (url : string) : option string :=
  if String.eqb url "" then None
  else
    let s := default url (after_scheme false url) in
    let s := default s (after_credentials s) in
    match after_last (fun c => Ascii.eqb c "/" || Ascii.eqb c ":") s with
    | None => None
    | Some name => let name := without_git name in if String.eqb name "" then None else Some name
    end.

(** [basename] of [node:path]: trailing slashes do not count. *)
Fixpoint without_trailing_slashes (s : string) : string :=
  match s with
  | String c s' =>
      match without_trailing_slashes s' with
      | EmptyString => if Ascii.eqb c "/" then "" else String c ""
      | t => String c t
      end
  | EmptyString => ""
  end.

Definition basename (path : string) : string :=
  let s := without_trailing_slashes path in default s (after_last (Ascii.eqb "/") s).

(* src/src/cube-name.ts 56-69 deriveCubeName *)
Definition deriveCubeName (projectRoot : string) (gitRemoteUrl : option string) : option string :=
  let from_remote :=
    match gitRemoteUrl with
    | None | Some EmptyString => None
    | Some url =>
        sanitized ← sanitizeRemoteUrl url;
        repo ← parseGitRemote sanitized;
        let normalized := normalizeCubeName repo in
        if (0 <? String.length normalized)%nat then Some normalized else None
    end in
  match from_remote with
  | Some n => Some n
  | None =>
      let fallback := normalizeCubeName (basename projectRoot) in
      if (0 <? String.length fallback)%nat then Some fallback else None
  end.

Example derive1 : deriveCubeName "/home/me/My Project/" (Some "https://user@host/x/Borg_MCP  Client.git") = Some "borg-mcp-client".
Proof. reflexivity. Qed.
Example derive2 : deriveCubeName "/home/me/My Project/" (Some "git@host:.git") = Some "my-project".
Proof. reflexivity. Qed.

(** ** Roles *)

(* src/src/role-resolver.ts 1-14 Role *)
Record role := Role {
  ro_id : string;
  ro_name : string;
  ro_is_default : bool;
  ro_is_mandatory : option bool;
  ro_is_human_seat : bool;
  ro_role_class : option string;
  ro_default_model : option string
}.

(* src/src/role-resolver.ts 16-20 RoleOccupant *)
Record role_occupant := RoleOccupant { oc_role_id : string; oc_presumed_abandoned : option bool }.

(* src/src/role-resolver.ts 26-34 occupiedRoleIdsForAutoRole *)
Definition occupiedRoleIdsForAutoRole (drones : list role_occupant) : gset string :=
  list_to_set (oc_role_id <$> List.filter (fun d => bool_decide (oc_presumed_abandoned d <> Some true)) drones).

(* src/src/role-resolver.ts 54-57 matchRoleByName *)
Definition matchRoleByName (roles : list role) (query : string) : option role :=
  List.find (fun r => String.eqb (roleSlug (ro_name r)) (roleSlug query)) roles.

Definition not_queen (r : role) : bool := bool_decide (ro_role_class r <> Some "queen").

(* src/src/role-resolver.ts 75-93 pickDefaultRole *)
Definition pickDefaultRole (roles : list role) (isFirstDrone : bool) (occupied : gset string) : option role :=
  match (if isFirstDrone then List.find ro_is_human_seat roles else None) with
  | Some humanSeat => Some humanSeat
  | None =>
      let mandatory := List.filter (fun r => bool_decide (ro_is_mandatory r = Some true) && not_queen r) roles in
      let eligible := List.filter (fun r => not_queen r && negb (ro_is_human_seat r)) roles in
      let free r := bool_decide (ro_id r ∉ occupied) in
      match List.find free mandatory with
      | Some r => Some r
      | None =>
          match List.find free eligible with
          | Some r => Some r
          | None => List.find ro_is_default roles
          end
      end
  end.

(** The error is thrown when the role returned is not the one asked for. *)
(* src/src/role-match.ts 16-29 assertRoleMatches *)
Definition assertRoleMatches (requested : string) (id name : option string) : string + unit :=
  let req := trim_spaces requested in
  let matches :=
    if is_uuid req then bool_decide (id = Some req)
    else String.eqb (to_lower (trim_spaces (default "" name))) (to_lower req) in
  if matches then inr tt
  else inl ("server does not support named-role lookup yet (returned " +:+ String dquote (default "?" name) +:+ String dquote " for " +:+
    String dquote requested +:+ String dquote ") — worker upgrade pending").

(** ** Tools *)

Definition DISPATCHER_TOOLS : list string := ["borg_tool"; "borg_describe_tool"].

(* src/src/tool-scope.ts 19-37 UNIVERSAL_TOOLS *)
Definition UNIVERSAL_TOOLS : list string :=
  ["borg_regen"; "borg_log"; "borg_read_log"; "borg_read_entry"; "borg_roster"; "borg_stream_status"; "borg_whoami";
   "borg_ack"; "borg_ack_status"; "borg_version"; "borg_cube"; "borg_role"; "borg_role_rationale"; "borg_assimilate";
   "borg_playbook"; "borg_docs"] ++ DISPATCHER_TOOLS.

(* src/src/tool-scope.ts 40-58 MANAGEMENT_TOOLS *)
Definition MANAGEMENT_TOOLS : list string :=
  ["borg_create_cube"; "borg_update_cube"; "borg_delete_cube"; "borg_create_role"; "borg_update_role"; "borg_delete_role";
   "borg_patch_role_section"; "borg_patch_taxonomy_class"; "borg_reassign_drone"; "borg_evict_drone"; "borg_sync_roles";
   "borg_apply_template"; "borg_list_cubes"; "borg_list_drones"; "borg_list_roles"; "borg_list_templates";
   "borg_remove_decision"].

(* src/src/tool-scope.ts 74-79 RoleScope *)
Record role_scope := RoleScope {
  sc_roleName : option string;
  sc_roleClass : option string;
  sc_isHumanSeat : option bool
}.

(* src/src/tool-scope.ts 82-84 isManagementSeat *)
Definition isManagementSeat (scope : role_scope) : bool :=
  bool_decide (sc_isHumanSeat scope = Some true) || bool_decide (sc_roleClass scope = Some "queen").

(* src/src/tool-scope.ts 93-97 deferredToolNames *)
Definition deferredToolNames (scope : option role_scope) : gset string :=
  match scope with
  | None => ∅
  | Some sc =>
      match sc_roleName sc with
      | None | Some EmptyString => ∅
      | Some _ => if isManagementSeat sc then ∅ else list_to_set MANAGEMENT_TOOLS
      end
  end.

(** A tool is its name here; the set is asked for its size first only to return
    the same list. *)
(* src/src/tool-scope.ts 105-112 filterToolsForRole *)
Definition filterToolsForRole (tools : list string) (scope : option role_scope) : list string :=
  let hidden := deferredToolNames scope in
  if (size hidden =? 0)%nat then tools else List.filter (fun t => negb (bool_decide (t ∈ hidden))) tools.

(** ** What a name is made of *)

Lemma name_byte_facts a : name_byte a = true ->
  Ascii.eqb "226" a = false /\ Ascii.eqb "196" a = false /\ to_lower_char a = a /\ separator1 a = false /\
  (forall b, space2 a b = false) /\ (forall b c, space3 a b c = false) /\ Ascii.eqb a "/" = false /\ Ascii.eqb a "." = false.
Proof. destruct a as [[] [] [] [] [] [] [] []]; try discriminate; intros _; repeat split. Qed.

Lemma lower_case_name a s : name_byte a = true -> lower_case (String a s) = String a (lower_case s).
Proof.
  intros Ha. destruct (name_byte_facts a Ha) as (H1 & H2 & H3 & _).
  destruct s as [|b [|c s]]; cbn [lower_case match_shape]; rewrite ?H1, ?H2, ?H3; done.
Qed.

Lemma collapse_name a s run : name_byte a = true -> collapse run (String a s) = String a (collapse false s).
Proof.
  intros Ha. destruct (name_byte_facts a Ha) as (_ & _ & _ & H4 & H5 & H6 & _).
  destruct s as [|b [|c s]]; cbn [collapse]; rewrite H4, ?H5, ?H6; done.
Qed.

Lemma filter_forallb p s : string_forallb p (string_filter p s) = true.
Proof. induction s as [|c s IH]; cbn; [done|]. destruct (p c) eqn:E; cbn; rewrite ?E; done. Qed.

Lemma filter_all p s : string_forallb p s = true -> string_filter p s = s.
Proof. induction s as [|c s IH]; cbn; [done|]. intros [-> Hs]%andb_true_iff. by rewrite IH. Qed.

Lemma take_forallb p n s : string_forallb p s = true -> string_forallb p (string_take n s) = true.
Proof.
  revert n. induction s as [|c s IH]; intros [|n]; cbn; try done. intros [-> Hs]%andb_true_iff. by apply IH.
Qed.

Lemma take_length n s : (String.length (string_take n s) <= n)%nat.
Proof. revert n. induction s as [|c s IH]; intros [|n]; cbn; try lia. specialize (IH n). lia. Qed.

Lemma take_all n s : (String.length s <= n)%nat -> string_take n s = s.
Proof. revert n. induction s as [|c s IH]; intros [|n]; cbn; try done; [lia|]. intros H. f_equal. apply IH. lia. Qed.

(** A name that is already made of these bytes is left as it is. *)
Lemma normal_name s : string_forallb name_byte s = true -> roleSlug s = s.
Proof.
  unfold roleSlug. intros Hs. assert (Hc : collapse false (lower_case s) = s); [|by rewrite Hc, filter_all].
  induction s as [|c s IH]; [done|]. cbn in Hs. apply andb_true_iff in Hs as [Hc Hs].
  by rewrite lower_case_name, collapse_name, IH.
Qed.

Lemma roleSlug_name raw : string_forallb name_byte (roleSlug raw) = true.
Proof. apply filter_forallb. Qed.

(** One component of a path, and not one of the two special ones. *)
Definition path_component (s : string) : Prop :=
  string_forallb name_byte s = true /\ string_existsb (fun c => Ascii.eqb c "/" || Ascii.eqb c ".") s = false.

Lemma names_are_components s : string_forallb name_byte s = true -> path_component s.
Proof.
  intros Hs. split; [done|]. induction s as [|c s IH]; [done|]. cbn in *. apply andb_true_iff in Hs as [Hc Hs].
  destruct (name_byte_facts c Hc) as (_ & _ & _ & _ & _ & _ & -> & ->). by rewrite IH.
Qed.

Definition cube_name (n : string) : Prop := path_component n /\ (1 <= String.length n <= 64)%nat.

Lemma normalized_cube_name raw : (0 < String.length (normalizeCubeName raw))%nat -> cube_name (normalizeCubeName raw).
Proof.
  intros Hl. split; [apply names_are_components, take_forallb, filter_forallb|]. split; [lia|apply take_length].
Qed.

(** C40. Names have their type.  Whatever the path of the project and whatever the
    text of its remote, a derived cube name has 1 to 64 lower-case letters, digits
    and hyphens, so that it is one component of a path and neither [.] nor [..],
    and normalising it again changes nothing; a role's slug is of the same letters,
    and looking a role up by the slug finds the role the query finds. *)
Theorem names_are_path_components projectRoot gitRemoteUrl roles query :
  match deriveCubeName projectRoot gitRemoteUrl with
  | Some n => cube_name n /\ normalizeCubeName n = n
  | None => normalizeCubeName (basename projectRoot) = ""
  end /\
  path_component (roleSlug query) /\ roleSlug (roleSlug query) = roleSlug query /\
  matchRoleByName roles (roleSlug query) = matchRoleByName roles query.
Proof.
  assert (Hfix : forall n, cube_name n -> cube_name n /\ normalizeCubeName n = n).
  { intros n Hn. split; [done|]. destruct Hn as [[Hb _] [_ Hl]]. change (string_take 64 (roleSlug n) = n).
    rewrite normal_name by done. by apply take_all. }
  split; [|split; [|split]].
  - unfold deriveCubeName. set (from_remote := match gitRemoteUrl with Some (String _ _) => _ | _ => _ end).
    assert (Hr : forall n, from_remote = Some n -> cube_name n).
    { unfold from_remote. intros n. destruct gitRemoteUrl as [[|c url]|]; [done| |done].
      destruct (sanitizeRemoteUrl (String c url)) as [t|]; cbn -[normalizeCubeName Nat.ltb]; [|done].
      destruct (parseGitRemote t) as [repo|]; cbn -[normalizeCubeName Nat.ltb]; [|done].
      destruct (Nat.ltb_spec 0 (String.length (normalizeCubeName repo))) as [Hl|]; [|done]. intros [= <-]. by apply normalized_cube_name. }
    destruct from_remote as [n|]; [by apply Hfix, Hr|].
    destruct (Nat.ltb_spec 0 (String.length (normalizeCubeName (basename projectRoot)))) as [Hl|Hl]; [by apply Hfix, normalized_cube_name|].
    destruct (normalizeCubeName (basename projectRoot)); [done|cbn in Hl; lia].
  - apply names_are_components, roleSlug_name.
  - apply normal_name, roleSlug_name.
  - unfold matchRoleByName. by rewrite (normal_name (roleSlug query)) by apply roleSlug_name.
Qed.

(** ** The role that is chosen *)

Lemma find_free_none {A} (p f : A -> bool) l : List.find f (List.filter p l) = None ->
  forall x, In x l -> p x = true -> f x = false.
Proof.
  intros Hf x Hx Hp. apply (find_none f _ Hf). by apply filter_In.
Qed.

(** A role is chosen for a drone that asks for none: it is one of the cube's; and
    a role that is occupied is chosen only for the first drone, or when it is the
    default and no eligible role is free. *)
Lemma picked_role roles first_ occupied r : pickDefaultRole roles first_ occupied = Some r ->
  In r roles /\
  (ro_id r ∈ occupied ->
   (first_ = true /\ ro_is_human_seat r = true) \/
   (ro_is_default r = true /\
    forall x, In x roles -> not_queen x = true -> ro_is_mandatory x = Some true \/ ro_is_human_seat x = false -> ro_id x ∈ occupied)).
Proof.
  unfold pickDefaultRole. destruct (if first_ then _ else None) as [h|] eqn:Eh.
  { intros [= ->]. destruct first_; [|done]. apply find_some in Eh as [Hin Hh]. auto. }
  destruct (List.find _ (List.filter (fun r => bool_decide _ && _) roles)) as [m|] eqn:Em.
  { intros [= ->]. apply find_some in Em as [Hin Hf%bool_decide_eq_true]. apply filter_In in Hin as [Hin _]. split; [done|]. done. }
  destruct (List.find _ (List.filter (fun r => not_queen r && _) roles)) as [e|] eqn:Ee.
  { intros [= ->]. apply find_some in Ee as [Hin Hf%bool_decide_eq_true]. apply filter_In in Hin as [Hin _]. split; [done|]. done. }
  intros Hd. apply find_some in Hd as [Hin Hd]. split; [done|]. intros _. right. split; [done|].
  intros x Hx Hq Hor. destruct Hor as [Hm|Hh].
  - assert (Hb := find_free_none _ _ _ Em x Hx). cbn in Hb. rewrite Hm, Hq, bool_decide_true in Hb by done.
    specialize (Hb eq_refl). apply bool_decide_eq_false in Hb. by apply dec_stable in Hb.
  - assert (Hb := find_free_none _ _ _ Ee x Hx). cbn in Hb. rewrite Hh, Hq in Hb.
    specialize (Hb eq_refl). apply bool_decide_eq_false in Hb. by apply dec_stable in Hb.
Qed.

(** ** The tools that are shown *)

(** Every tool of the universal set stays, the two that reach any other tool among
    them, whatever the role. *)
Lemma universal_tools_stay tools scope t : In t tools -> In t UNIVERSAL_TOOLS -> In t (filterToolsForRole tools scope).
Proof.
  intros Ht Hu. unfold filterToolsForRole. destruct (size (deferredToolNames scope) =? 0)%nat; [done|].
  apply filter_In. split; [done|]. apply negb_true_iff, bool_decide_eq_false. intros Hin.
  assert (Hm : t ∈ MANAGEMENT_TOOLS).
  { unfold deferredToolNames in Hin. destruct scope as [sc|]; [|by apply not_elem_of_empty in Hin].
    destruct (sc_roleName sc) as [[|c s]|]; [by apply not_elem_of_empty in Hin| |by apply not_elem_of_empty in Hin].
    destruct (isManagementSeat sc); [by apply not_elem_of_empty in Hin|]. by apply elem_of_list_to_set in Hin. }
  assert (Hd : forallb (fun u => negb (existsb (String.eqb u) MANAGEMENT_TOOLS)) UNIVERSAL_TOOLS = true) by reflexivity.
  rewrite forallb_forall in Hd. specialize (Hd t Hu). apply negb_true_iff in Hd.
  assert (He : existsb (String.eqb t) MANAGEMENT_TOOLS = true); [|congruence].
  apply existsb_exists. exists t. split; [by apply list_elem_of_In|apply String.eqb_refl].
Qed.
