(* ===== verification/CodexResolve.v ===== *)
(** * The target of a wake ([codex-wake-resolve.ts])

    The pure part of waking a Codex session: which of the loaded threads gets the
    turn, how long a deferred wake waits before the next try, when it is given up
    and when the heartbeat runs. *)

From S2P Require Import Prelude JsDate JsonText.

Open Scope Z_scope.

Definition BORG_CODEX_APP_SERVER_SOCKET_ENV : string := "BORG_CODEX_APP_SERVER_SOCKET".

(** An environment of a process. *)
Definition environ : Type := gmap string string.

(* src/src/codex-wake-resolve.ts 19-22 codexAppServerSocketFromEnv *)
Definition codexAppServerSocketFromEnv (env : environ) : option string :=
  match env !! BORG_CODEX_APP_SERVER_SOCKET_ENV with
  | None | Some EmptyString => None
  | Some v => Some v
  end.

(* src/src/codex-wake-resolve.ts 31-33 codexAppServerSocketConfigArgs *)
Definition codexAppServerSocketConfigArgs (socketPath : string) : list string :=
  ["-c"; "mcp_servers.borg.env." +:+ BORG_CODEX_APP_SERVER_SOCKET_ENV +:+ "=" +:+ String dquote (socketPath +:+ String dquote "")].

(** What the app server says of a loaded thread; [ct_turns] is the number of its
    turns where they are sent, [ct_active] is [status?.type === 'active']. *)
(* src/src/codex-wake-resolve.ts 35-44 CodexThreadInfo *)
Record codex_thread := CodexThread {
  ct_id : string;
  ct_cwd : option string;
  ct_updatedAt : option Z;
  ct_source : option json;
  ct_ephemeral : option bool;
  ct_threadSource : option string;
  ct_preview : option string;
  ct_turns : option nat;
  ct_active : bool
}.

(* src/src/codex-wake-resolve.ts 46-49 isCodexSubagentSource *)
Definition isCodexSubagentSource (source : option json) : bool :=
  match source with
  | Some (JObj fields) => existsb (fun kv => String.eqb kv.1 "subagent" || String.eqb kv.1 "subAgent") fields
  | _ => false
  end.

Definition is_root_thread (t : codex_thread) : bool :=
  negb (isCodexSubagentSource (ct_source t)) &&
  bool_decide (ct_ephemeral t <> Some true) &&
  (bool_decide (ct_threadSource t = None) || bool_decide (ct_threadSource t = Some "user")).

Definition has_turns (t : codex_thread) : bool := (0 <? default 0%nat (ct_turns t))%nat.
Definition has_preview (t : codex_thread) : bool :=
  match ct_preview t with None | Some EmptyString => false | _ => true end.

(** The first thread of the greatest [updatedAt]. *)
Fixpoint newest (best : codex_thread) (pool : list codex_thread) : codex_thread :=
  match pool with
  | [] => best
  | t :: rest => newest (if default 0 (ct_updatedAt best) <? default 0 (ct_updatedAt t) then t else best) rest
  end.

(** [best.id] of an empty pool would throw; the pool never is. *)
(* src/src/codex-wake-resolve.ts 62-78 pickFreshThread *)
Definition pickFreshThread (threads : list codex_thread) (cwd : string) : option string :=
  match List.filter is_root_thread threads with
  | [] => None
  | [t] => Some (ct_id t)
  | rootThreads =>
      let cwdMatches := List.filter (fun t => bool_decide (ct_cwd t = Some cwd)) rootThreads in
      let pool := match cwdMatches with [] => rootThreads | _ => cwdMatches end in
      let pool := if existsb has_turns pool then List.filter (fun t => has_turns t || has_preview t) pool else pool in
      match pool with
      | [] => None
      | best :: _ => Some (ct_id (newest best pool))
      end
  end.

Definition WAKE_RETRY_BASE_MS : Z := 5000.
Definition WAKE_RETRY_CAP_MS : Z := 60000.
Definition WAKE_RETRY_MAX_AGE_MS : Z := 45 * 60000.
Definition WAKE_RETRY_MAX_ATTEMPTS : Z := 1000.

(** The power is a number of the language: above [2 ^ 1023] it is infinite, which
    the cap makes no difference to; the jitter is taken in whole milliseconds. *)
(* src/src/codex-wake-resolve.ts 106-110 wakeRetryBackoffMs *)
Definition wakeRetryBackoffMs (attempts jitter : Z) : Z :=
  Z.min (WAKE_RETRY_BASE_MS * 2 ^ Z.max 0 attempts) WAKE_RETRY_CAP_MS + jitter.

(* src/src/codex-wake-resolve.ts 113-119 wakeRetryExpired *)
Definition wakeRetryExpired (firstEnqueuedAt now : Z) : bool := WAKE_RETRY_MAX_AGE_MS <=? now - firstEnqueuedAt.

(* src/src/codex-wake-resolve.ts 127-134 shouldFireHeartbeat *)
Definition shouldFireHeartbeat (lastDeliveredAt : option Z) (now cadenceMs : Z) : bool :=
  match lastDeliveredAt with
  | None => true
  | Some t => cadenceMs <=? now - t
  end.

(** ** Which thread it is *)

Lemma newest_in best pool : newest best pool = best \/ In (newest best pool) pool.
Proof.
  revert best. induction pool as [|t pool IH]; intros best; [by left|]. cbn [newest].
  destruct (IH (if default 0 (ct_updatedAt best) <? default 0 (ct_updatedAt t) then t else best)) as [->|H]; [|by right; right].
  case_match; [by right; left|by left].
Qed.

Lemma newest_max best pool t :
  In t (best :: pool) -> default 0 (ct_updatedAt t) <= default 0 (ct_updatedAt (newest best pool)).
Proof.
  revert best t. induction pool as [|u pool IH]; intros best t; cbn [newest].
  - intros [->|[]]. done.
  - set (b := if default 0 (ct_updatedAt best) <? default 0 (ct_updatedAt u) then u else best).
    assert (Hself := IH b b (or_introl eq_refl)). assert (Hb : default 0 (ct_updatedAt best) <= default 0 (ct_updatedAt b) /\
      default 0 (ct_updatedAt u) <= default 0 (ct_updatedAt b)).
    { unfold b. destruct (Z.ltb_spec (default 0 (ct_updatedAt best)) (default 0 (ct_updatedAt u))); lia. }
    intros [->|[->|Hin]]; [lia|lia|]. apply IH. by right.
Qed.

Lemma in_filter {A} (f : A -> bool) l x : In x (List.filter f l) <-> In x l /\ f x = true.
Proof. apply filter_In. Qed.

Lemma filter_nil {A} (f : A -> bool) l : List.filter f l = [] <-> forall x, In x l -> f x = false.
Proof.
  split.
  - intros Hf x Hx. destruct (f x) eqn:E; [|done]. assert (H : In x (List.filter f l)) by (by apply in_filter).
    by rewrite Hf in H.
  - intros Hf. destruct (List.filter f l) as [|x r] eqn:E; [done|].
    assert (H : In x (List.filter f l)) by (rewrite E; by left). apply in_filter in H as [Hx Ht]. by rewrite Hf in Ht.
Qed.

(** The threads among which the newest is taken: of the root threads those in the
    working directory, if any are, and of these those that have a turn or a
    preview, if any has a turn. *)
Definition in_directory (threads : list codex_thread) (cwd : string) (t : codex_thread) : Prop :=
  In t threads /\ is_root_thread t = true /\
  (ct_cwd t = Some cwd \/ forall u, In u threads -> is_root_thread u = true -> ct_cwd u <> Some cwd).

Definition candidate (threads : list codex_thread) (cwd : string) (t : codex_thread) : Prop :=
  in_directory threads cwd t /\
  (has_turns t = true \/ has_preview t = true \/ forall u, in_directory threads cwd u -> has_turns u = false).

Definition directory_pool (threads : list codex_thread) (cwd : string) : list codex_thread :=
  let rootThreads := List.filter is_root_thread threads in
  let cwdMatches := List.filter (fun t => bool_decide (ct_cwd t = Some cwd)) rootThreads in
  match cwdMatches with [] => rootThreads | _ => cwdMatches end.

Definition candidates (threads : list codex_thread) (cwd : string) : list codex_thread :=
  let pool := directory_pool threads cwd in
  if existsb has_turns pool then List.filter (fun t => has_turns t || has_preview t) pool else pool.

Lemma in_directory_pool threads cwd t : In t (directory_pool threads cwd) <-> in_directory threads cwd t.
Proof.
  unfold directory_pool, in_directory. cbv zeta.
  set (matches := List.filter (fun t => bool_decide (ct_cwd t = Some cwd)) (List.filter is_root_thread threads)).
  assert (Hm : forall u, In u matches <-> (In u threads /\ is_root_thread u = true) /\ ct_cwd u = Some cwd).
  { intros u. unfold matches. by rewrite !in_filter, bool_decide_eq_true. }
  destruct matches as [|m l] eqn:E.
  - rewrite in_filter. split; [intros [H1 H2]|by intros (? & ? & _)]. do 2 (split; [done|]). right.
    intros u Hu Hr Hc. by apply (proj2 (Hm u)).
  - rewrite Hm. split; [intros [[H1 H2] H3]; auto|]. intros (H1 & H2 & [H3|H3]); [done|].
    destruct (proj1 (Hm m) (or_introl eq_refl)) as [[Hm1 Hm2] Hm3]. by destruct (H3 m Hm1 Hm2).
Qed.

Lemma in_candidates threads cwd t : In t (candidates threads cwd) <-> candidate threads cwd t.
Proof.
  unfold candidates, candidate. cbv zeta. rewrite <- in_directory_pool.
  destruct (existsb has_turns (directory_pool threads cwd)) eqn:E.
  - rewrite in_filter, orb_true_iff. split; [tauto|]. intros [Ht [H|[H|H]]]; [tauto..|].
    apply existsb_exists in E as (u & Hu & Hx). apply in_directory_pool in Hu. rewrite (H u Hu) in Hx. done.
  - split; [|tauto]. intros Ht. split; [done|]. right; right. intros u Hu. apply in_directory_pool in Hu.
    destruct (has_turns u) eqn:Hx; [|done]. assert (existsb has_turns (directory_pool threads cwd) = true); [|congruence].
    apply existsb_exists. by exists u.
Qed.

Lemma candidates_nonempty threads cwd : List.filter is_root_thread threads <> [] -> candidates threads cwd <> [].
Proof.
  intros Hr Hc. assert (Hp : directory_pool threads cwd <> []).
  { unfold directory_pool. cbv zeta. by destruct (List.filter (fun t => _) _) eqn:E. }
  unfold candidates in Hc. cbv zeta in Hc. destruct (existsb has_turns (directory_pool threads cwd)) eqn:E; [|done].
  apply existsb_exists in E as (u & Hu & Ht). rewrite filter_nil in Hc. specialize (Hc u Hu). by rewrite Ht in Hc.
Qed.

(** The three cases of the code are one. *)
Lemma pickFreshThread_candidates threads cwd :
  pickFreshThread threads cwd =
  match candidates threads cwd with [] => None | best :: pool => Some (ct_id (newest best (best :: pool))) end.
Proof.
  destruct (List.filter is_root_thread threads) as [|t [|u l]] eqn:E.
  - unfold pickFreshThread, candidates, directory_pool. rewrite E. done.
  - assert (Hd : directory_pool threads cwd = [t]).
    { unfold directory_pool. rewrite E. cbn. by case_bool_decide. }
    unfold pickFreshThread, candidates. rewrite E, Hd. cbn [existsb]. rewrite orb_false_r.
    assert (Hn : newest t [t] = t) by (cbn; by case_match). destruct (has_turns t) eqn:Ht; cbn [List.filter]; rewrite ?Ht; cbn [orb]; by rewrite Hn.
  - assert (Hl : forall l : list codex_thread, match l with [] => None | b :: _ => Some (ct_id (newest b l)) end =
      match l with [] => None | b :: pool => Some (ct_id (newest b (b :: pool))) end) by (by intros []).
    unfold pickFreshThread, candidates, directory_pool. rewrite E. cbv zeta. apply Hl.
Qed.

(** Which thread is woken.  No thread is chosen exactly when no loaded thread
    is the user's own; otherwise the one chosen is never a subagent's, an ephemeral
    or a system thread, it is in the working directory if any is, it has a turn or
    a preview if any has a turn, and of those it is the newest. *)
Theorem codex_wakes_the_newest_candidate threads cwd :
  match pickFreshThread threads cwd with
  | None => forall t, In t threads -> is_root_thread t = false
  | Some id => exists t, ct_id t = id /\ candidate threads cwd t /\
      forall u, candidate threads cwd u -> default 0 (ct_updatedAt u) <= default 0 (ct_updatedAt t)
  end.
Proof.
  rewrite pickFreshThread_candidates. destruct (candidates threads cwd) as [|best pool] eqn:E.
  - apply filter_nil. destruct (List.filter is_root_thread threads) as [|t l] eqn:Hr; [done|].
    destruct (candidates_nonempty threads cwd); [by rewrite Hr|done].
  - exists (newest best (best :: pool)). split; [done|].
    assert (Hin : forall u, In u (best :: pool) <-> candidate threads cwd u) by (intros u; by rewrite <- E, in_candidates).
    split; [apply Hin; destruct (newest_in best (best :: pool)) as [->|]; [by left|done]|].
    intros u Hu. apply newest_max. right. by apply Hin.
Qed.

(** ** How long a wake waits *)

Lemma backoff_bounds attempts jitter : 0 <= jitter ->
  WAKE_RETRY_BASE_MS <= wakeRetryBackoffMs attempts jitter <= WAKE_RETRY_CAP_MS + jitter.
Proof.
  intros Hj. unfold wakeRetryBackoffMs, WAKE_RETRY_BASE_MS, WAKE_RETRY_CAP_MS.
  assert (1 <= 2 ^ Z.max 0 attempts) by (apply (Z.pow_le_mono_r 2 0); lia). lia.
Qed.

(** It doubles, up to the ceiling. *)
Lemma backoff_doubles attempts : 0 <= attempts ->
  wakeRetryBackoffMs (attempts + 1) 0 = Z.min (2 * wakeRetryBackoffMs attempts 0) WAKE_RETRY_CAP_MS.
Proof.
  intros Ha. unfold wakeRetryBackoffMs, WAKE_RETRY_BASE_MS, WAKE_RETRY_CAP_MS.
  rewrite !Z.max_r by lia. rewrite Z.pow_add_r by lia. change (2 ^ 1) with 2. lia.
Qed.
