(* ===== verification/CodexWake.v ===== *)
(** * Waking a Codex session ([codex-app-wake.ts])

    Three paths put a turn into the drone's thread: a wake per inbox line, one
    retry loop for the wakes that could not be delivered, and a heartbeat.  They
    run in one process and interleave at every [await]; what they share is the
    module's variables.  A stretch of code without an [await] is one operation
    [Sync] on these; the calls that are awaited are operations whose answer is not
    determined.  An asynchronous call that is not awaited leaves a job, which a
    process of its own takes up. *)

From S2P Require Import Prelude JsDate JsonText Effects InboxLine CodexResolve.

Open Scope Z_scope.
Open Scope prog_scope.

(** ** The state of the module *)

(** What a caller passes to replace the defaults: [wd_env] is [deps.env],
    [wd_gated] says whether [isStreamOwner] is given.  The functions among the
    dependencies are operations below. *)
(* src/src/codex-app-wake.ts 279-313 CodexWakeDeps *)
Record wake_deps := WakeDeps {
  wd_env : option environ;
  wd_cwd : string;
  wd_maxAttempts : option Z;
  wd_gated : bool
}.

#[export] Instance wake_deps_eq_dec : EqDecision wake_deps.
Proof. solve_decision. Defined.

Record wake_request := WakeRequest {
  wq_reason : string;
  wq_deliveryIdentity : option string;
  wq_sourceEntryId : option string;
  wq_deps : wake_deps
}.

(** A [Set] keeps its entries in the order of insertion; a deleted one leaves a
    hole, so that an iteration, which goes by position, is not disturbed. *)
Definition js_set : Type := list (option string).

Definition set_has (k : string) (s : js_set) : bool := existsb (fun e => bool_decide (e = Some k)) s.
Definition set_add (k : string) (s : js_set) : js_set := if set_has k s then s else s ++ [Some k].
Definition set_delete (k : string) (s : js_set) : js_set := map (fun e => if bool_decide (e = Some k) then None else e) s.
Definition set_clear (s : js_set) : js_set := map (fun _ => None) s.
Definition set_size (s : js_set) : nat := length (omap id s).

(** The entry an iteration at position [i] comes to next. *)
Fixpoint set_next_from (s : js_set) (i : nat) : option (nat * string) :=
  match s with
  | [] => None
  | Some k :: _ => Some (i, k)
  | None :: rest => set_next_from rest (S i)
  end.
Definition set_next (s : js_set) (i : nat) : option (nat * string) := set_next_from (drop i s) i.

Inductive injection_result := Delivered | Deferred | InjectionFailed.

#[export] Instance injection_result_eq_dec : EqDecision injection_result.
Proof. solve_decision. Defined.

(** The variables of the retry loop. *)
Record retry_state := RetryState {
  rs_inFlight : bool;
  rs_sourceEntryIds : js_set;
  rs_hasUnscopedWork : bool
}.

(** What the status surface reports of the last attempts. *)
Record injection_report := InjectionReport {
  ir_lastInjectionAt : option Z;
  ir_lastInjectionResult : option injection_result;
  ir_lastInjectionFailureCode : option string;
  ir_lastTargetThreadId : option string;
  ir_lastDeliveredAt : option Z
}.

(* src/src/codex-app-wake.ts 95-152 wakeInFlight *)
Record wake_state := WakeState {
  ws_wakeInFlight : bool;
  ws_pending : list wake_request;
  ws_keys : gset string;
  ws_keyOrder : list string;
  ws_retry : retry_state;
  ws_report : injection_report;
  ws_deliveryDeferred : bool;
  ws_heartbeatInFlight : bool;
  ws_injectInFlight : bool
}.

Definition initial_wake_state : wake_state :=
  WakeState false [] ∅ [] (RetryState false [] false) (InjectionReport None None None None None) false false false.

Definition set_wakeInFlight (b : bool) (s : wake_state) : wake_state :=
  WakeState b (ws_pending s) (ws_keys s) (ws_keyOrder s) (ws_retry s) (ws_report s) (ws_deliveryDeferred s)
    (ws_heartbeatInFlight s) (ws_injectInFlight s).
Definition set_pending (l : list wake_request) (s : wake_state) : wake_state :=
  WakeState (ws_wakeInFlight s) l (ws_keys s) (ws_keyOrder s) (ws_retry s) (ws_report s) (ws_deliveryDeferred s)
    (ws_heartbeatInFlight s) (ws_injectInFlight s).
Definition set_keys (keys : gset string) (order : list string) (s : wake_state) : wake_state :=
  WakeState (ws_wakeInFlight s) (ws_pending s) keys order (ws_retry s) (ws_report s) (ws_deliveryDeferred s)
    (ws_heartbeatInFlight s) (ws_injectInFlight s).
Definition set_retry (r : retry_state) (s : wake_state) : wake_state :=
  WakeState (ws_wakeInFlight s) (ws_pending s) (ws_keys s) (ws_keyOrder s) r (ws_report s) (ws_deliveryDeferred s)
    (ws_heartbeatInFlight s) (ws_injectInFlight s).
Definition set_report (r : injection_report) (s : wake_state) : wake_state :=
  WakeState (ws_wakeInFlight s) (ws_pending s) (ws_keys s) (ws_keyOrder s) (ws_retry s) r (ws_deliveryDeferred s)
    (ws_heartbeatInFlight s) (ws_injectInFlight s).
Definition set_deliveryDeferred (b : bool) (s : wake_state) : wake_state :=
  WakeState (ws_wakeInFlight s) (ws_pending s) (ws_keys s) (ws_keyOrder s) (ws_retry s) (ws_report s) b
    (ws_heartbeatInFlight s) (ws_injectInFlight s).
Definition set_heartbeatInFlight (b : bool) (s : wake_state) : wake_state :=
  WakeState (ws_wakeInFlight s) (ws_pending s) (ws_keys s) (ws_keyOrder s) (ws_retry s) (ws_report s)
    (ws_deliveryDeferred s) b (ws_injectInFlight s).
Definition set_injectInFlight (b : bool) (s : wake_state) : wake_state :=
  WakeState (ws_wakeInFlight s) (ws_pending s) (ws_keys s) (ws_keyOrder s) (ws_retry s) (ws_report s)
    (ws_deliveryDeferred s) (ws_heartbeatInFlight s) b.
Definition set_target (t : string) (r : injection_report) : injection_report :=
  InjectionReport (ir_lastInjectionAt r) (ir_lastInjectionResult r) (ir_lastInjectionFailureCode r) (Some t) (ir_lastDeliveredAt r).

(** ** What surrounds it

    The clock, whether this process holds the stream's lease, the jobs that were
    started and not yet taken up, and what has been said to the app server and
    heard from the server about pending work. *)

(** The seat an active cube gives. *)
Definition wake_seat : Type := string * string.

Inductive job := DrainQueue | RetryDrain (deps : wake_deps) (startedAt : Z).

#[export] Instance job_eq_dec : EqDecision job.
Proof. solve_decision. Defined.

Inductive wake_event :=
| Talked (what : string)
| TurnStarted (threadId text : string)
| EntrySettled (entryId : string)
| NothingPending.

Record wake_world := WakeWorld {
  ww_state : wake_state;
  ww_now : Z;
  ww_streamOwner : bool;
  ww_jobs : list job;
  ww_log : list wake_event
}.

Definition with_state (s : wake_state) (w : wake_world) : wake_world :=
  WakeWorld s (ww_now w) (ww_streamOwner w) (ww_jobs w) (ww_log w).
Definition with_jobs (l : list job) (w : wake_world) : wake_world :=
  WakeWorld (ww_state w) (ww_now w) (ww_streamOwner w) l (ww_log w).
Definition logged (e : wake_event) (w : wake_world) : wake_world :=
  WakeWorld (ww_state w) (ww_now w) (ww_streamOwner w) (ww_jobs w) (e :: ww_log w).

Definition on_state (f : wake_state -> wake_state) (w : wake_world) : wake_world := with_state (f (ww_state w)) w.

Inductive wake_op : Type -> Type :=
| Sync {X : Type} (f : wake_world -> X * wake_world) : wake_op X
| Take (j : job) : wake_op unit
| GetActiveCube : wake_op (js_error + option wake_seat)
| HasPendingEntry (seat : wake_seat) (entryId : string) : wake_op (js_error + bool)
| HasPendingWork (seat : wake_seat) : wake_op (js_error + bool)
| Connect (socketPath : string) : wake_op (js_error + unit)
| LoadedThreadIds (socketPath : string) : wake_op (js_error + list string)
| ReadThread (socketPath id : string) : wake_op (js_error + option codex_thread)
| StartTurn (socketPath id text : string) : wake_op (js_error + unit)
| CloseClient (socketPath : string) : wake_op unit
| Jitter : wake_op Z
| Sleep (ms : Z) : wake_op unit
| OnSocketDead : wake_op unit
| OutOfFuel : wake_op unit.

Definition sync (f : wake_world -> wake_world) : prog wake_op unit := ask (Sync (fun w => (tt, f w))).
Definition query {X} (f : wake_world -> X) : prog wake_op X := ask (Sync (fun w => (f w, w))).

(** ** Texts *)

Definition CODEX_CATCHUP_PROMPT : string :=
  formatCubeActivityWakeMessage "Wake triage: repeat the drain until the returned page is under the limit and behind_by is 0 so no entries are skipped." +:+
  " If there are no actionable entries, resume the prior interrupted work.".

(** ** Records of the attempts *)

(** [error.name] of an [Error] or of one of the program's classes, which set it. *)
Definition error_name (err : js_error) : string :=
  match err with ErrorOf cls _ _ _ _ => cls | _ => "Error" end.

(* src/src/codex-app-wake.ts 187-192 injectionFailureCode *)
Definition injectionFailureCode (err : js_error) : string :=
  match err with
  | Errno (String c s) | ErrorOf _ (Some (String c s)) _ _ _ => String c s
  | _ => error_name err
  end.

(** [failureCode] is given exactly where the result is [InjectionFailed]. *)
(* src/src/codex-app-wake.ts 194-202 recordInjectionResult *)
Definition recordInjectionResult (result : injection_result) (failureCode : option string) (w : wake_world) : wake_world :=
  let r := ws_report (ww_state w) in
  on_state (set_report (InjectionReport (Some (ww_now w)) (Some result)
    (if bool_decide (result = InjectionFailed) then Some (default "unknown" failureCode) else None)
    (ir_lastTargetThreadId r) (ir_lastDeliveredAt r))) w.

(* src/src/codex-app-wake.ts 230-234 markDelivered *)
Definition markDelivered (w : wake_world) : wake_world :=
  let r := ws_report (ww_state w) in
  on_state (fun s => set_deliveryDeferred false (set_report (InjectionReport (ir_lastInjectionAt r) (ir_lastInjectionResult r)
    (ir_lastInjectionFailureCode r) (ir_lastTargetThreadId r) (Some (ww_now w))) s)) w.

Definition DELIVERED_WAKE_KEY_CAP : nat := 100.

(* src/src/codex-app-wake.ts 701-709 rememberDeliveredWake *)
Definition rememberDeliveredWake (key : string) (s : wake_state) : wake_state :=
  if bool_decide (key ∈ ws_keys s) then s
  else
    let order := ws_keyOrder s ++ [key] in
    let '(keys, order) := drop_oldest (length order - DELIVERED_WAKE_KEY_CAP) (ws_keys s ∪ {[key]}) order in
    set_keys keys order s.

(* src/src/codex-app-wake.ts 154-170 CodexDeliveryState *)
Record delivery_state := DeliveryState {
  ds_lastTargetThreadId : option string;
  ds_lastInjectionAt : option Z;
  ds_lastInjectionResult : option injection_result;
  ds_lastInjectionFailureCode : option string;
  ds_deferredEntryCount : nat;
  ds_retryDrainActive : bool;
  ds_deliveryDeferred : bool;
  ds_lastDeliveredAt : option Z
}.

(* src/src/codex-app-wake.ts 173-184 getCodexDeliveryState *)
Definition getCodexDeliveryState (s : wake_state) : delivery_state :=
  let r := ws_report s in
  let d := ws_retry s in
  DeliveryState (ir_lastTargetThreadId r) (ir_lastInjectionAt r) (ir_lastInjectionResult r) (ir_lastInjectionFailureCode r)
    (set_size (rs_sourceEntryIds d) + (if rs_hasUnscopedWork d then 1 else 0)) (rs_inFlight d) (ws_deliveryDeferred s)
    (ir_lastDeliveredAt r).

(* src/src/codex-app-wake.ts 213-228 codexWakePathHealthy *)
Definition codexWakePathHealthy (armed : option bool) (state : delivery_state) : option bool :=
  match armed with
  | Some false => Some false
  | None => None
  | Some true =>
      if ds_retryDrainActive state || (0 <? ds_deferredEntryCount state)%nat || ds_deliveryDeferred state then None
      else Some true
  end.

(** ** The one lock and the one retry loop *)

(* src/src/codex-app-wake.ts 254-258 tryAcquireInjectLock *)
Definition tryAcquireInjectLock (w : wake_world) : bool * wake_world :=
  if ws_injectInFlight (ww_state w) then (false, w) else (true, on_state (set_injectInFlight true) w).

(* src/src/codex-app-wake.ts 260-262 releaseInjectLock *)
Definition releaseInjectLock : wake_world -> wake_world := on_state (set_injectInFlight false).

(** [if (sourceEntryId)] *)
Definition truthy (s : option string) : option string :=
  match s with Some EmptyString => None | _ => s end.

(** Starting the loop leaves the job with the time it was started at. *)
(* src/src/codex-app-wake.ts 469-477 scheduleRetryDrain *)
Definition scheduleRetryDrain (deps : wake_deps) (sourceEntryId : option string) (w : wake_world) : wake_world :=
  let d := ws_retry (ww_state w) in
  let d := match truthy sourceEntryId with
    | Some id => RetryState (rs_inFlight d) (set_add id (rs_sourceEntryIds d)) (rs_hasUnscopedWork d)
    | None => RetryState (rs_inFlight d) (rs_sourceEntryIds d) true
    end in
  if rs_inFlight d then on_state (set_retry d) w
  else with_jobs (RetryDrain deps (ww_now w) :: ww_jobs w)
    (on_state (set_retry (RetryState true (rs_sourceEntryIds d) (rs_hasUnscopedWork d))) w).

Definition set_retry_work (ids : js_set) (unscoped : bool) (s : wake_state) : wake_state :=
  set_retry (RetryState (rs_inFlight (ws_retry s)) ids unscoped) s.

Definition has_retry_work (s : wake_state) : bool :=
  rs_hasUnscopedWork (ws_retry s) || (0 <? set_size (rs_sourceEntryIds (ws_retry s)))%nat.

Section Process.
(** The environment of the process. *)
Variable process_env : environ.

Definition env_of (deps : wake_deps) : environ := default process_env (wd_env deps).

(** ** The target *)

(** The threads that can still be read. *)
Fixpoint read_threads (sock : string) (ids : list string) : prog wake_op (list codex_thread) :=
  match ids with
  | [] => Ret []
  | id :: rest =>
      let! r := attempt (perform (ReadThread sock id)) in
      let! l := read_threads sock rest in
      Ret (match r with inr (Some t) => t :: l | _ => l end)
  end.

(* src/src/codex-app-wake.ts 332-359 resolveFreshCodexWakeTarget *)
Definition resolveFreshCodexWakeTarget (deps : wake_deps) : prog wake_op (option (string * string)) :=
  match codexAppServerSocketFromEnv (env_of deps) with
  | None => Ret None
  | Some sock =>
      do! perform (Connect sock);
      pfinally
        (let! ids := perform (LoadedThreadIds sock) in
         let! summaries := read_threads sock ids in
         Ret ((fun threadId => (sock, threadId)) <$> pickFreshThread summaries (wd_cwd deps)))
        (ask (CloseClient sock))
  end.

(** ** One wake per request *)

Definition pending_entry (seat : wake_seat) (sourceEntryId : option string) : prog wake_op bool :=
  match truthy sourceEntryId with
  | Some id => perform (HasPendingEntry seat id)
  | None => Ret true
  end.

Definition wake_key (r : wake_request) (threadId : string) : string :=
  threadId +:+ nul +:+ (default (wq_reason r) (wq_deliveryIdentity r)).

Definition is_active (t : option codex_thread) : bool :=
  match t with Some t => ct_active t | None => false end.

Definition set_last_target (threadId : string) : wake_world -> wake_world :=
  on_state (fun s => set_report (set_target threadId (ws_report s)) s).

Definition wake_body (r : wake_request) : prog wake_op unit :=
  let src := wq_sourceEntryId r in
  let deps := wq_deps r in
  let! active := perform GetActiveCube in
  match active with
  | None => Ret tt
  | Some seat =>
      let! pending := pending_entry seat src in
      if negb pending then Ret tt
      else
        let! resolved := resolveFreshCodexWakeTarget deps in
        match resolved with
        | None =>
            sync (fun w => scheduleRetryDrain deps src
              (if bool_decide (truthy src = None) then w else on_state (set_deliveryDeferred true) w))
        | Some (sock, threadId) =>
            do! sync (set_last_target threadId);
            let! seen := query (fun w => bool_decide (wake_key r threadId ∈ ws_keys (ww_state w))) in
            if seen then Ret tt
            else
              do! perform (Connect sock);
              pfinally
                (let! thread := perform (ReadThread sock threadId) in
                 if is_active thread then
                   sync (fun w => scheduleRetryDrain deps src (recordInjectionResult Deferred None w))
                 else
                   let! pending := pending_entry seat src in
                   if negb pending then Ret tt
                   else
                     do! perform (StartTurn sock threadId (wq_reason r));
                     sync (fun w => markDelivered (recordInjectionResult Delivered None
                       (on_state (rememberDeliveredWake (wake_key r threadId)) w))))
                (ask (CloseClient sock))
        end
  end.

(* src/src/codex-app-wake.ts 393-456 wakeCodexTargeted *)
Definition wakeCodexTargeted (r : wake_request) : prog wake_op unit :=
  let! locked := ask (Sync tryAcquireInjectLock) in
  if negb locked then sync (scheduleRetryDrain (wq_deps r) (wq_sourceEntryId r))
  else
    pfinally
      (pcatch (wake_body r) (fun err => sync (fun w => scheduleRetryDrain (wq_deps r) (wq_sourceEntryId r)
         (recordInjectionResult InjectionFailed (Some (injectionFailureCode err)) w))))
      (sync releaseInjectLock).

Definition shift_request (w : wake_world) : option wake_request * wake_world :=
  match ws_pending (ww_state w) with
  | [] => (None, w)
  | r :: rest => (Some r, on_state (set_pending rest) w)
  end.

Definition out_of_fuel {A} : prog wake_op A := Vis OutOfFuel (fun _ => Throw (JsError "out of fuel")).

(** A loop that others can keep going is cut off after [fuel] rounds: it then
    waits for ever, and every run of it is a run of enough fuel. *)
(* src/src/codex-app-wake.ts 384-391 drainCodexWakeQueue *)
Fixpoint drainCodexWakeQueue (fuel : nat) : prog wake_op unit :=
  match fuel with
  | O => out_of_fuel
  | S n =>
      let! request := ask (Sync shift_request) in
      match request with
      | None => Ret tt
      | Some r => do! wakeCodexTargeted r; drainCodexWakeQueue n
      end
  end.

(** The draining process with its [.finally]. *)
Definition drain_process (fuel : nat) : prog wake_op unit :=
  do! ask (Take DrainQueue);
  do! drainCodexWakeQueue fuel;
  sync (on_state (set_wakeInFlight false)).

Definition BORG_CODEX_REMOTE_WAKE_ENV : string := "BORG_CODEX_REMOTE_WAKE".

(* src/src/codex-app-wake.ts 45-47 isCodexRemoteWakeEnabled *)
Definition isCodexRemoteWakeEnabled (env : environ) : bool :=
  bool_decide (env !! BORG_CODEX_REMOTE_WAKE_ENV = Some "1").

(* src/src/codex-app-wake.ts 361-382 wakeCodexViaAppServer *)
Definition wakeCodexViaAppServer (reason : string) (env : environ) (deps : wake_deps)
    (deliveryIdentity sourceEntryId : option string) : prog wake_op unit :=
  if negb (isCodexRemoteWakeEnabled env) then Ret tt
  else
    let deps' := match wd_env deps with
      | Some _ => deps
      | None => WakeDeps (Some env) (wd_cwd deps) (wd_maxAttempts deps) (wd_gated deps)
      end in
    let r := WakeRequest reason deliveryIdentity sourceEntryId deps' in
    sync (fun w =>
      let s := set_pending (ws_pending (ww_state w) ++ [r]) (ww_state w) in
      if ws_wakeInFlight s then with_state s w
      else with_jobs (DrainQueue :: ww_jobs w) (with_state (set_wakeInFlight true s) w)).

(** ** The retry loop *)

(** An entry that is no longer pending is dropped. *)
Definition settle_entry (seat : wake_seat) (entryId : string) : prog wake_op unit :=
  let! pending := perform (HasPendingEntry seat entryId) in
  if (pending : bool) then Ret tt
  else sync (on_state (fun s => set_retry_work (set_delete entryId (rs_sourceEntryIds (ws_retry s)))
         (rs_hasUnscopedWork (ws_retry s)) s)).

(** The [for ... of] over the set, which others may extend meanwhile. *)
Fixpoint prune (fuel : nat) (guarded : bool) (seat : wake_seat) (i : nat) : prog wake_op unit :=
  match fuel with
  | O => out_of_fuel
  | S n =>
      let! next := query (fun w => set_next (rs_sourceEntryIds (ws_retry (ww_state w))) i) in
      match next with
      | None => Ret tt
      | Some (j, entryId) =>
          do! (if guarded then pcatch (settle_entry seat entryId) (fun _ => Ret tt) else settle_entry seat entryId);
          prune n guarded seat (S j)
      end
  end.

Definition clear_retry_work (s : wake_state) : wake_state :=
  set_retry_work (set_clear (rs_sourceEntryIds (ws_retry s))) false s.

(** One attempt under the lock: whether the loop is done. *)
Definition retry_body (fuel : nat) (deps : wake_deps) : prog wake_op bool :=
  let! active := perform GetActiveCube in
  match active with
  | None => Ret false
  | Some seat =>
      do! prune fuel true seat 0;
      let! work := query (fun w => has_retry_work (ww_state w)) in
      if negb work then Ret true
      else
        let! resolved := resolveFreshCodexWakeTarget deps in
        match resolved with
        | None => Ret false
        | Some (sock, threadId) =>
            do! sync (set_last_target threadId);
            do! perform (Connect sock);
            pfinally
              (let! thread := perform (ReadThread sock threadId) in
               if is_active thread then do! sync (recordInjectionResult Deferred None); Ret false
               else
                 do! prune fuel false seat 0;
                 let! work := query (fun w => has_retry_work (ww_state w)) in
                 if negb work then Ret true
                 else
                   do! perform (StartTurn sock threadId CODEX_CATCHUP_PROMPT);
                   do! sync (fun w => markDelivered (recordInjectionResult Delivered None (on_state clear_retry_work w)));
                   Ret true)
              (ask (CloseClient sock))
        end
  end.

Definition age_out (s : wake_state) : wake_state :=
  if has_retry_work s then set_deliveryDeferred true (clear_retry_work s) else s.

(** [attempts] go up as [left] goes down. *)
Fixpoint retry_loop (fuel left : nat) (attempts : Z) (deps : wake_deps) (startedAt : Z) : prog wake_op unit :=
  match left with
  | O => sync (on_state age_out)
  | S n =>
      let! expired := query (fun w => wakeRetryExpired startedAt (ww_now w)) in
      if expired then sync (on_state age_out)
      else
        let! jitter := ask Jitter in
        do! ask (Sleep (wakeRetryBackoffMs attempts jitter));
        let! locked := ask (Sync tryAcquireInjectLock) in
        if negb locked then retry_loop fuel n (attempts + 1) deps startedAt
        else
          let! done := pfinally
            (pcatch (retry_body fuel deps) (fun err =>
               do! sync (recordInjectionResult InjectionFailed (Some (injectionFailureCode err))); Ret false))
            (sync releaseInjectLock) in
          if done then Ret tt else retry_loop fuel n (attempts + 1) deps startedAt
  end.

(* src/src/codex-app-wake.ts 479-552 runRetryDrainLoop *)
Definition runRetryDrainLoop (fuel : nat) (deps : wake_deps) (startedAt : Z) : prog wake_op unit :=
  retry_loop fuel (Z.to_nat (default WAKE_RETRY_MAX_ATTEMPTS (wd_maxAttempts deps))) 0 deps startedAt.

(** The looping process with its [.finally]. *)
Definition retry_process (fuel : nat) (deps : wake_deps) (startedAt : Z) : prog wake_op unit :=
  do! ask (Take (RetryDrain deps startedAt));
  do! runRetryDrainLoop fuel deps startedAt;
  sync (on_state (fun s => set_retry (RetryState false (rs_sourceEntryIds (ws_retry s)) (rs_hasUnscopedWork (ws_retry s))) s)).

(** ** The heartbeat *)

Definition CODEX_HEARTBEAT_CADENCE_MS : Z := 20 * 60000.

(** The checks before the first [await]. *)
Definition beat_enter (deps : wake_deps) (cadenceMs : Z) (w : wake_world) : bool * wake_world :=
  let s := ww_state w in
  if ws_heartbeatInFlight s then (false, w)
  else if negb (shouldFireHeartbeat (ir_lastDeliveredAt (ws_report s)) (ww_now w) cadenceMs) then (false, w)
  else if wd_gated deps && negb (ww_streamOwner w) then (false, w)
  else
    let '(locked, w') := tryAcquireInjectLock w in
    if negb locked then (false, w') else (true, on_state (set_heartbeatInFlight true) w').

Definition beat_body (deps : wake_deps) : prog wake_op unit :=
  let! active := perform GetActiveCube in
  match active with
  | None => Ret tt
  | Some seat =>
      let! pending := perform (HasPendingWork seat) in
      if negb pending then sync (on_state (set_deliveryDeferred false))
      else
        let! resolved := resolveFreshCodexWakeTarget deps in
        match resolved with
        | None => sync (on_state (set_deliveryDeferred true))
        | Some (sock, threadId) =>
            do! sync (set_last_target threadId);
            do! perform (Connect sock);
            pfinally
              (let! thread := perform (ReadThread sock threadId) in
               if is_active thread then
                 sync (fun w => on_state (set_deliveryDeferred true) (recordInjectionResult Deferred None w))
               else
                 do! perform (StartTurn sock threadId CODEX_CATCHUP_PROMPT);
                 sync (fun w => markDelivered (recordInjectionResult Delivered None w)))
              (ask (CloseClient sock))
        end
  end.

(** A callback that is not given is not called; one that is given is assumed not
    to throw. *)
(* src/src/codex-app-wake.ts 571-649 fireCodexHeartbeatTick *)
Definition fireCodexHeartbeatTick (deps : wake_deps) (cadenceMs : Z) : prog wake_op unit :=
  let! entered := ask (Sync (beat_enter deps cadenceMs)) in
  if negb entered then Ret tt
  else
    pfinally
      (pcatch (beat_body deps) (fun err =>
         do! sync (fun w => on_state (set_deliveryDeferred true)
               (recordInjectionResult InjectionFailed (Some (injectionFailureCode err)) w));
         if has_code "ENOENT" err then ask OnSocketDead else Ret tt))
      (sync (fun w => releaseInjectLock (on_state (set_heartbeatInFlight false) w))).
End Process.
