(* ===== verification/CodexWakeSafety.v ===== *)
(** * One voice for three paths

    The wakes, the retry loop and the heartbeat of one process interleave at every
    operation.  Each flag of the module is held by exactly one process or by a job
    not yet taken up; whoever talks to the app server holds the lock; and each wake
    that is owed is written off only on an answer that settles that one. *)

From S2P Require Import Prelude JsDate JsonText Effects InboxLine CodexResolve CodexWake.

Open Scope Z_scope.
Open Scope prog_scope.

(** ** What the operations do *)

Definition wake_act X (op : wake_op X) : wake_world -> X -> wake_world -> Prop :=
  match op in wake_op X return wake_world -> X -> wake_world -> Prop with
  | Sync f => fun w x w' => f w = (x, w')
  | Take j => fun w _ w' => exists l1 l2, ww_jobs w = l1 ++ j :: l2 /\ w' = with_jobs (l1 ++ l2) w
  | GetActiveCube => fun w _ w' => w' = w
  | HasPendingEntry _ id => fun w r w' => w' = match r with inr false => logged (EntrySettled id) w | _ => w end
  | HasPendingWork _ => fun w r w' => w' = match r with inr false => logged NothingPending w | _ => w end
  | Connect _ => fun w _ w' => w' = logged (Talked "connect") w
  | LoadedThreadIds _ => fun w _ w' => w' = logged (Talked "thread/loaded/list") w
  | ReadThread _ _ => fun w _ w' => w' = logged (Talked "thread/read") w
  | StartTurn _ id text => fun w r w' =>
      w' = logged (match r with inr _ => TurnStarted id text | inl _ => Talked "turn/start" end) w
  | CloseClient _ => fun w _ w' => w' = logged (Talked "close") w
  | Jitter => fun w x w' => 0 <= x < 500 /\ w' = w
  | Sleep _ => fun w _ w' => w' = w
  | OnSocketDead => fun w _ w' => w' = w
  | OutOfFuel => fun _ _ _ => False
  end.

(** Time passes and the stream's lease is won or lost. *)
Definition wake_env (w w' : wake_world) : Prop :=
  exists now owner, ww_now w <= now /\ w' = WakeWorld (ww_state w) now owner (ww_jobs w) (ww_log w).

(** The calls that come from outside, and the processes behind the jobs. *)
Inductive wake_starts (process_env : environ) (w : wake_world) : prog wake_op unit -> Prop :=
| starts_wake reason env deps identity source :
    wake_starts process_env w (wakeCodexViaAppServer reason env deps identity source)
| starts_beat deps cadence : wake_starts process_env w (fireCodexHeartbeatTick process_env deps cadence)
| starts_drain fuel : wake_starts process_env w (drain_process process_env fuel)
| starts_retry fuel deps startedAt : wake_starts process_env w (retry_process process_env fuel deps startedAt).

(** ** The law of one step *)

(** What a process holds, and its last answer that settles something. *)
Record hold := Hold {
  h_lock : bool;
  h_beat : bool;
  h_drain : bool;
  h_retry : bool;
  h_heard : option wake_event
}.

Definition is_drain (j : job) : bool := match j with DrainQueue => true | _ => false end.
Definition is_retry (j : job) : bool := match j with RetryDrain _ _ => true | _ => false end.

Definition count (f : job -> bool) (l : list job) : Z := Z.of_nat (length (List.filter f l)).

Lemma count_cons f j l : count f (j :: l) = Z.b2z (f j) + count f l.
Proof. unfold count. cbn. destruct (f j); cbn; lia. Qed.

Lemma count_middle f l1 j l2 : count f (l1 ++ j :: l2) = count f (l1 ++ l2) + Z.b2z (f j).
Proof. unfold count. rewrite !List.filter_app, !length_app. cbn. destruct (f j); cbn; lia. Qed.

Lemma count_nonneg f l : 0 <= count f l.
Proof. unfold count. lia. Qed.

(** How many processes hold each flag. *)
Definition lock_holders (w : wake_world) : Z := Z.b2z (ws_injectInFlight (ww_state w)).
Definition beat_holders (w : wake_world) : Z := Z.b2z (ws_heartbeatInFlight (ww_state w)).
Definition drain_holders (w : wake_world) : Z := Z.b2z (ws_wakeInFlight (ww_state w)) - count is_drain (ww_jobs w).
Definition retry_holders (w : wake_world) : Z := Z.b2z (rs_inFlight (ws_retry (ww_state w))) - count is_retry (ww_jobs w).

(** What is owed: an entry the retry loop is to wake for, a wake without an entry,
    or the mark of a wake that was not delivered. *)
Inductive owed_wake := OwedEntry (entryId : string) | OwedUnscoped | OwedMark.

Definition owed (o : owed_wake) (s : wake_state) : bool :=
  match o with
  | OwedEntry id => set_has id (rs_sourceEntryIds (ws_retry s))
  | OwedUnscoped => rs_hasUnscopedWork (ws_retry s)
  | OwedMark => ws_deliveryDeferred s
  end.

(** The answer settles this one: the server said the entry is not pending; the turn
    that asks for everything unread was started; for the mark, any turn was, or the
    server said that nothing is pending. *)
Definition discharges (o : owed_wake) (e : wake_event) : bool :=
  match o, e with
  | OwedEntry id, EntrySettled id' => String.eqb id id'
  | OwedEntry _, TurnStarted _ text | OwedUnscoped, TurnStarted _ text => String.eqb text CODEX_CATCHUP_PROMPT
  | OwedMark, TurnStarted _ _ | OwedMark, NothingPending => true
  | _, _ => false
  end.

(** The retry loop has given up: it owes nothing, and the mark is up. *)
Definition gave_up (s : wake_state) : Prop := has_retry_work s = false /\ owed OwedMark s = true.

Definition aged_out (o : owed_wake) (s : wake_state) : Prop := o <> OwedMark /\ gave_up s.

(** What was heard settles it. *)
Definition settled (o : owed_wake) (h : option wake_event) : Prop := exists e, h = Some e /\ discharges o e = true.

(** The memory of delivered wakes: the set and the queue agree and are bounded. *)
Record keys_ok (s : wake_state) : Prop := {
  ko_same : ws_keys s = list_to_set (ws_keyOrder s);
  ko_nodup : NoDup (ws_keyOrder s);
  ko_cap : (length (ws_keyOrder s) <= DELIVERED_WAKE_KEY_CAP)%nat
}.

Record wake_step (s : hold) (w : wake_world) (s' : hold) (w' : wake_world) : Prop := {
  st_lock : Z.b2z (h_lock s') - Z.b2z (h_lock s) = lock_holders w' - lock_holders w;
  st_beat : Z.b2z (h_beat s') - Z.b2z (h_beat s) = beat_holders w' - beat_holders w;
  st_drain : Z.b2z (h_drain s') - Z.b2z (h_drain s) = drain_holders w' - drain_holders w;
  st_retry : Z.b2z (h_retry s') - Z.b2z (h_retry s) = retry_holders w' - retry_holders w;
  st_log : ww_log w' = ww_log w \/ (h_lock s = true /\ exists e, ww_log w' = e :: ww_log w);
  st_heard : forall e, h_heard s' = Some e -> h_lock s' = true /\
    ((h_lock s = true /\ head (ww_log w') = Some e) \/ (h_heard s = Some e /\ ww_log w' = ww_log w));
  st_owing : forall o, owed o (ww_state w) = true ->
    owed o (ww_state w') = true \/ aged_out o (ww_state w') \/ (h_lock s = true /\ settled o (h_heard s));
  st_keys : keys_ok (ww_state w) -> keys_ok (ww_state w')
}.

(** The law holds where the flags a process holds are set. *)
Definition consistent (s : hold) (w : wake_world) : Prop :=
  (h_lock s = true -> ws_injectInFlight (ww_state w) = true) /\
  (h_beat s = true -> ws_heartbeatInFlight (ww_state w) = true) /\
  (h_drain s = true -> ws_wakeInFlight (ww_state w) = true) /\
  (h_retry s = true -> rs_inFlight (ws_retry (ww_state w)) = true).

Definition lawful (s : hold) (w : wake_world) (s' : hold) (w' : wake_world) : Prop :=
  consistent s w -> wake_step s w s' w'.

Definition idle : hold := Hold false false false false None.

(** ** Changes of the module's variables *)

(** A change that leaves the flags, or hands them to a job. *)
Record tame (f : wake_world -> wake_world) : Prop := {
  tm_lock : forall w, lock_holders (f w) = lock_holders w;
  tm_beat : forall w, beat_holders (f w) = beat_holders w;
  tm_drain : forall w, drain_holders (f w) = drain_holders w;
  tm_retry : forall w, retry_holders (f w) = retry_holders w;
  tm_log : forall w, ww_log (f w) = ww_log w;
  tm_keys : forall w, keys_ok (ww_state w) -> keys_ok (ww_state (f w))
}.

(** A change that owes what it owed; one that drops no more than [D]; one
    that does so, or gives up. *)
Definition lossless (f : wake_world -> wake_world) : Prop :=
  forall w o, owed o (ww_state w) = true -> owed o (ww_state (f w)) = true.

Definition drops_only (D : owed_wake -> Prop) (f : wake_world -> wake_world) : Prop :=
  forall w o, owed o (ww_state w) = true -> owed o (ww_state (f w)) = true \/ D o.

Definition writes_off (D : owed_wake -> Prop) (f : wake_world -> wake_world) : Prop :=
  forall w o, owed o (ww_state w) = true -> owed o (ww_state (f w)) = true \/ aged_out o (ww_state (f w)) \/ D o.

Abbreviation generous := (writes_off (fun _ => False)).

Lemma lossless_writes D f : lossless f -> writes_off D f.
Proof. intros Hf w o Ho. left. by apply Hf. Qed.

Lemma drops_writes (D : owed_wake -> Prop) f : drops_only D f -> writes_off D f.
Proof. intros Hf w o Ho. destruct (Hf w o Ho); auto. Qed.

Lemma writes_mono (D D' : owed_wake -> Prop) f : (forall o, D o -> D' o) -> writes_off D f -> writes_off D' f.
Proof. intros HD Hf w o Ho. destruct (Hf w o Ho) as [?|[?|?]]; auto. Qed.

Lemma tame_comp f g : tame f -> tame g -> tame (fun w => f (g w)).
Proof.
  intros [H1 H2 H3 H4 H5 H6] [G1 G2 G3 G4 G5 G6]. split; intros w; [by rewrite H1|by rewrite H2|by rewrite H3|by rewrite H4|by rewrite H5|auto].
Qed.

Lemma lossless_id : lossless (fun w => w).
Proof. by intros w o. Qed.

Lemma lossless_comp f g : lossless f -> lossless g -> lossless (fun w => f (g w)).
Proof. unfold lossless. auto. Qed.

(** A step that owes what it owed; one that leaves the memory of wakes alone. *)
Ltac same_owing := let o := fresh in let Ho := fresh in intros o Ho; left; destruct o; exact Ho.
Ltac keys_kept := intros [? ? ?]; split; assumption.

(** Changes of the reports, of the marks and of the retry work are tame. *)
Ltac tame_fields :=
  split; intros ?; [reflexivity..|]; keys_kept.

Lemma tame_result result code : tame (recordInjectionResult result code).
Proof. tame_fields. Qed.
Lemma tame_mark : tame markDelivered.
Proof. tame_fields. Qed.
Lemma tame_deferred b : tame (on_state (set_deliveryDeferred b)).
Proof. tame_fields. Qed.
Lemma tame_target t : tame (set_last_target t).
Proof. tame_fields. Qed.
Lemma tame_retry_work f g : tame (on_state (fun s => set_retry_work (f s) (g s) s)).
Proof. tame_fields. Qed.

Lemma tame_age_out : tame (on_state age_out).
Proof.
  split; intros w; unfold on_state, age_out; cbn; try (destruct (has_retry_work (ww_state w)); reflexivity).
  destruct (has_retry_work (ww_state w)); [|done]. keys_kept.
Qed.

Lemma tame_schedule deps src : tame (scheduleRetryDrain deps src).
Proof.
  split; intros w; unfold scheduleRetryDrain; destruct (truthy src), (rs_inFlight (ws_retry (ww_state w))) eqn:E;
    try reflexivity; try keys_kept; unfold drain_holders, retry_holders;
    cbn -[count]; rewrite ?count_cons, ?E; cbn -[count]; lia.
Qed.

(** ** The set of entries *)

Lemma set_size_pos s : (0 < set_size s)%nat <-> exists k, Some k ∈ s.
Proof.
  unfold set_size. split.
  - destruct (omap id s) as [|k l] eqn:E; cbn; [lia|]. intros _. exists k.
    assert (Hk : k ∈ omap id s) by (rewrite E; left). apply list_elem_of_omap in Hk as (x & Hx & Hid). cbn in Hid. by subst.
  - intros (k & Hk). assert (H : k ∈ omap id s) by (apply list_elem_of_omap; by exists (Some k)).
    destruct (omap id s); [by apply not_elem_of_nil in H|cbn; lia].
Qed.

Lemma set_add_has k s : Some k ∈ set_add k s.
Proof.
  unfold set_add, set_has. destruct (existsb _ s) eqn:E; [|apply elem_of_app; right; left].
  apply existsb_exists in E as (e & He & Heq). apply bool_decide_eq_true in Heq as ->. by apply list_elem_of_In.
Qed.

Lemma set_has_in k s : set_has k s = true <-> Some k ∈ s.
Proof.
  unfold set_has. rewrite existsb_exists. split.
  - intros (e & He & ->%bool_decide_eq_true). by apply list_elem_of_In.
  - intros Hk. exists (Some k). split; [by apply list_elem_of_In|by apply bool_decide_eq_true].
Qed.

Lemma set_has_add k k' s : set_has k s = true -> set_has k (set_add k' s) = true.
Proof.
  rewrite !set_has_in. intros Hk. unfold set_add. destruct (set_has k' s); [done|]. apply elem_of_app. by left.
Qed.

Lemma set_has_delete k k' s : k <> k' -> set_has k s = true -> set_has k (set_delete k' s) = true.
Proof.
  rewrite !set_has_in. intros Hne Hk. unfold set_delete. apply list_elem_of_fmap. exists (Some k). split; [|done].
  rewrite bool_decide_eq_false_2; [done|]. intros [= ->]. done.
Qed.

Lemma set_clear_size s : set_size (set_clear s) = 0%nat.
Proof. unfold set_size, set_clear. by induction s. Qed.

Lemma set_clear_length s : length (set_clear s) = length s.
Proof. apply length_map. Qed.

Lemma set_delete_length k s : length (set_delete k s) = length s.
Proof. apply length_map. Qed.

(** ** What is owed *)

Lemma has_retry_work_set ids unscoped s :
  has_retry_work (set_retry_work ids unscoped s) = unscoped || (0 <? set_size ids)%nat.
Proof. done. Qed.

Lemma cleared_work s : has_retry_work (clear_retry_work s) = false.
Proof. unfold clear_retry_work. rewrite has_retry_work_set, set_clear_size. done. Qed.

Lemma owed_work o s : o <> OwedMark -> owed o s = true -> has_retry_work s = true.
Proof.
  unfold has_retry_work. destruct o as [id| |]; cbn [owed]; [|by intros _ ->|done]. intros _ Hid. apply orb_true_intro. right.
  apply Nat.ltb_lt, set_size_pos. exists id. by apply set_has_in.
Qed.

Lemma lossless_schedule deps src : lossless (scheduleRetryDrain deps src).
Proof.
  intros w o Ho. unfold scheduleRetryDrain. destruct (truthy src) as [id|], (rs_inFlight (ws_retry (ww_state w))), o as [id'| |];
    cbn -[set_add set_has] in *; try done; by apply set_has_add.
Qed.

Lemma lossless_record result code : lossless (recordInjectionResult result code).
Proof. intros w o Ho. by destruct o. Qed.

Lemma lossless_target t : lossless (set_last_target t).
Proof. intros w o Ho. by destruct o. Qed.

Lemma lossless_deferred : lossless (on_state (set_deliveryDeferred true)).
Proof. intros w o Ho. by destruct o. Qed.

Lemma generous_schedule deps src f : lossless f -> generous (fun w => scheduleRetryDrain deps src (f w)).
Proof. intros Hf. apply lossless_writes, (lossless_comp _ f); [apply lossless_schedule|done]. Qed.

Lemma generous_record result code : generous (recordInjectionResult result code).
Proof. apply lossless_writes, lossless_record. Qed.

Lemma generous_target t : generous (set_last_target t).
Proof. apply lossless_writes, lossless_target. Qed.

Lemma generous_deferred f : lossless f -> generous (fun w => on_state (set_deliveryDeferred true) (f w)).
Proof. intros Hf. apply lossless_writes, (lossless_comp (on_state _) f); [apply lossless_deferred|done]. Qed.

Lemma generous_age_out : generous (on_state age_out).
Proof.
  intros w o Ho. unfold on_state. cbn [ww_state with_state]. unfold age_out. destruct (has_retry_work (ww_state w)) eqn:E; [|by left].
  destruct o; [right; left|right; left|by left]; (split; [done|split; [apply cleared_work|done]]).
Qed.

(** What an entry that is not pending drops: that entry. *)
Lemma drops_deleted id :
  drops_only (fun o => o = OwedEntry id)
    (fun w => on_state (fun s => set_retry_work (set_delete id (rs_sourceEntryIds (ws_retry s))) (rs_hasUnscopedWork (ws_retry s)) s) w).
Proof.
  intros w o Ho. destruct o as [id'| |]; cbn -[set_delete set_has] in *; [|by left..].
  destruct (decide (id' = id)) as [->|Hne]; [by right|]. left. by apply set_has_delete.
Qed.

(** ** The memory of delivered wakes *)

Lemma remember_keys_ok key s : keys_ok s -> keys_ok (rememberDeliveredWake key s).
Proof.
  intros [Hs Hn Hc]. unfold rememberDeliveredWake. case_bool_decide as Hin; [by split|].
  rewrite Hs, elem_of_list_to_set in Hin.
  assert (Hd := drop_oldest_spec (length (ws_keyOrder s ++ [key]) - DELIVERED_WAKE_KEY_CAP) (ws_keyOrder s ++ [key]) (ws_keys s ∪ {[key]})).
  destruct (drop_oldest _ _ _) as [keys order]. destruct Hd as (H1 & H2 & H3).
  - rewrite Hs, list_to_set_app_L. cbn [list_to_set]. set_solver.
  - apply NoDup_app. split; [done|]. split; [|by apply NoDup_singleton]. intros x Hx ->%list_elem_of_singleton. done.
  - split; cbn; [done..|]. unfold DELIVERED_WAKE_KEY_CAP in *. lia.
Qed.

Lemma rememberDeliveredWake_rest key s :
  exists keys order, rememberDeliveredWake key s = set_keys keys order s.
Proof.
  unfold rememberDeliveredWake. case_bool_decide.
  - exists (ws_keys s), (ws_keyOrder s). by destruct s.
  - destruct (drop_oldest _ _ _) as [keys order]. by exists keys, order.
Qed.

Lemma tame_remember key : tame (on_state (rememberDeliveredWake key)).
Proof.
  split; intros w; [| | | |done|apply remember_keys_ok];
    unfold lock_holders, beat_holders, drain_holders, retry_holders, on_state, with_state; cbn [ww_state ww_jobs];
    destruct (rememberDeliveredWake_rest key (ww_state w)) as (keys & order & ->); reflexivity.
Qed.

(** ** Under the lock *)

(** What a process has heard it heard under the lock. *)
Definition hold_ok (s : hold) : Prop := forall e, h_heard s = Some e -> h_lock s = true.

Lemma step_tame s w f : hold_ok s -> tame f ->
  (forall o, owed o (ww_state w) = true ->
     owed o (ww_state (f w)) = true \/ aged_out o (ww_state (f w)) \/ (h_lock s = true /\ settled o (h_heard s))) ->
  wake_step s w s (f w).
Proof.
  intros Hs [H1 H2 H3 H4 H5 H6] Ho. split; rewrite ?H1, ?H2, ?H3, ?H4; try lia; [left; apply H5| |exact Ho|apply H6].
  intros e He. split; [by apply (Hs e)|]. right. split; [done|apply H5].
Qed.

Lemma tame_id : tame (fun w => w).
Proof. by split. Qed.

Lemma step_quiet s w : hold_ok s -> wake_step s w s w.
Proof. intros Hs. apply (step_tame s w (fun w => w) Hs tame_id). auto. Qed.

Section Held.
Variables (b d r : bool).

Definition at_ (h : option wake_event) : hold := Hold true b d r h.

Definition held {A} (h : option wake_event) (p : prog wake_op A) (Q : A -> option wake_event -> Prop) : Prop :=
  simulates wake_act lawful (at_ h) p (fun a s => exists h', s = at_ h' /\ Q a h') (fun _ s => exists h', s = at_ h').

(** Whatever it hears. *)
Definition holding {A} (p : prog wake_op A) : Prop := forall h, held h p (fun _ _ => True).

Lemma at_ok h : hold_ok (at_ h).
Proof. done. Qed.

Lemma held_ret {A} h (a : A) Q : Q a h -> held h (Ret a) Q.
Proof. intros HQ. exists h. done. Qed.

Lemma held_mono {A} h (p : prog wake_op A) (Q Q' : A -> option wake_event -> Prop) :
  held h p Q -> (forall a h', Q a h' -> Q' a h') -> held h p Q'.
Proof. intros Hp HQ. eapply simulates_mono; [exact Hp| |done]. intros a s (h' & -> & Ha). eauto. Qed.

Lemma held_bind {A B} h (p : prog wake_op A) (f : A -> prog wake_op B) Q :
  held h p (fun a h' => held h' (f a) Q) -> held h (pbind p f) Q.
Proof.
  intros Hp. apply simulates_bind. eapply simulates_mono; [exact Hp| |done]. intros a s (h' & -> & Ha). exact Ha.
Qed.

Lemma held_catch {A} h (p : prog wake_op A) (hd : js_error -> prog wake_op A) Q :
  held h p Q -> (forall e h', held h' (hd e) Q) -> held h (pcatch p hd) Q.
Proof.
  intros Hp Hh. apply simulates_catch. eapply simulates_mono; [exact Hp|done|]. intros e s (h' & ->). apply Hh.
Qed.

Lemma held_attempt {A} h (p : prog wake_op A) Q :
  held h p (fun a => Q (inr a)) -> (forall e h', Q (inl e) h') -> held h (attempt p) Q.
Proof.
  intros Hp HQ. unfold attempt. apply held_catch; [|intros e h'; by apply held_ret].
  apply held_bind. eapply held_mono; [exact Hp|]. intros a h' Ha. by apply held_ret.
Qed.

Lemma holding_finally {A} (p : prog wake_op A) (q : prog wake_op unit) : holding p -> holding q -> holding (pfinally p q).
Proof.
  intros Hp Hq h. unfold pfinally. apply held_bind, held_attempt.
  - eapply held_mono; [apply Hp|]. intros a h' _. apply held_bind. eapply held_mono; [apply Hq|].
    intros [] h'' _. by apply held_ret.
  - intros e h'. apply held_bind. eapply held_mono; [apply Hq|]. intros [] h'' _. by exists h''.
Qed.

Lemma holding_bind {A B} (p : prog wake_op A) (f : A -> prog wake_op B) :
  holding p -> (forall a, holding (f a)) -> holding (pbind p f).
Proof. intros Hp Hf h. apply held_bind. eapply held_mono; [apply Hp|]. intros a h' _. apply Hf. Qed.

Lemma holding_catch {A} (p : prog wake_op A) hd : holding p -> (forall e, holding (hd e)) -> holding (pcatch p hd).
Proof. intros Hp Hf h. apply held_catch; [apply Hp|]. intros e h'. apply Hf. Qed.

Lemma holding_attempt {A} (p : prog wake_op A) : holding p -> holding (attempt p).
Proof. intros Hp h. apply held_attempt; [|done]. eapply held_mono; [apply Hp|]. done. Qed.

Lemma holding_ret {A} (a : A) : holding (Ret a).
Proof. intros h. by apply held_ret. Qed.

(** An operation that changes nothing, and one that is heard. *)
Lemma held_quiet {X} h (op : wake_op X) Q :
  (forall w x w', wake_act X op w x w' -> w' = w) -> (forall x, Q x h) -> held h (ask op) Q.
Proof.
  intros Hop HQ w x w' Ha. apply Hop in Ha as ->. exists (at_ h). split; [intros _; by apply step_quiet|]. by exists h.
Qed.

Lemma step_heard h w e : wake_step (at_ h) w (at_ (Some e)) (logged e w).
Proof.
  split; try (unfold lock_holders, beat_holders, drain_holders, retry_holders; cbn; lia).
  - right. split; [done|]. by exists e.
  - intros e' [= <-]. split; [done|]. by left.
  - same_owing.
  - done.
Qed.

Lemma held_perform {X} h (op : wake_op (js_error + X)) (Q : X -> option wake_event -> Prop) :
  (forall w x w', wake_act _ op w x w' -> (w' = w /\ forall a, x = inr a -> Q a h) \/
     exists e, w' = logged e w /\ forall a, x = inr a -> Q a (Some e)) -> held h (perform op) Q.
Proof.
  intros Hop w x w' Ha. destruct (Hop w x w' Ha) as [[-> HQ]|(e & -> & HQ)].
  - exists (at_ h). split; [intros _; by apply step_quiet|]. destruct x as [err|a]; [by exists h|]. exists h. auto.
  - exists (at_ (Some e)). split; [intros _; apply step_heard|]. destruct x as [err|a]; [by exists (Some e)|]. exists (Some e). auto.
Qed.

Lemma held_sync h f (Q : unit -> option wake_event -> Prop) :
  tame f -> writes_off (fun o => settled o h) f -> Q tt h -> held h (sync f) Q.
Proof.
  intros Hf Ho HQ w x w' Ha. cbn in Ha. injection Ha as <- <-. exists (at_ h). split; [|by exists h].
  intros _. apply step_tame; [done|done|]. intros o Hw. destruct (Ho w o Hw) as [?|[?|?]]; auto.
Qed.

Lemma holding_sync f : tame f -> generous f -> holding (sync f).
Proof. intros Hf Hg h. apply held_sync; [done| |done]. eapply writes_mono; [|exact Hg]. done. Qed.

Lemma holding_query {X} (f : wake_world -> X) : holding (query f).
Proof. intros h. apply held_quiet; [|done]. intros w x w' Ha. cbn in Ha. by injection Ha as <- <-. Qed.

Lemma held_stuck {A} h Q : held (A := A) h out_of_fuel Q.
Proof. intros w x w' []. Qed.

(** The awaited calls. *)
Ltac heard_or_quiet :=
  let w := fresh in let x := fresh in let w' := fresh in let Ha := fresh in
  intros h; apply held_perform; intros w x w' Ha; cbn in Ha; subst;
  first [left; split; [reflexivity|by intros] | right; eexists; split; [reflexivity|by intros]
        | destruct x as [?|[]]; [left; done|left; done|right; eexists; done]].

Lemma holding_cube : holding (perform GetActiveCube).
Proof. heard_or_quiet. Qed.
Lemma holding_entry seat id : holding (perform (HasPendingEntry seat id)).
Proof. heard_or_quiet. Qed.
Lemma holding_connect sock : holding (perform (Connect sock)).
Proof. heard_or_quiet. Qed.
Lemma holding_ids sock : holding (perform (LoadedThreadIds sock)).
Proof. heard_or_quiet. Qed.
Lemma holding_read sock id : holding (perform (ReadThread sock id)).
Proof. heard_or_quiet. Qed.

Lemma holding_close sock : holding (ask (CloseClient sock)).
Proof.
  intros h w x w' Ha. cbn in Ha. subst. exists (at_ (Some (Talked "close"))). split; [intros _; apply step_heard|by eexists].
Qed.

Lemma holding_dead : holding (ask OnSocketDead).
Proof. intros h. by apply held_quiet. Qed.

(** An answer that settles something is remembered until it is used. *)
Lemma held_turn h sock id text : held h (perform (StartTurn sock id text)) (fun _ h' => h' = Some (TurnStarted id text)).
Proof.
  apply held_perform. intros w x w' Ha. cbn in Ha. right. eexists. split; [exact Ha|]. by intros a ->.
Qed.

Lemma held_entry h seat id : held h (perform (HasPendingEntry seat id)) (fun p h' => p = false -> h' = Some (EntrySettled id)).
Proof.
  apply held_perform. intros w x w' Ha. cbn in Ha. destruct x as [e|[]].
  - left. split; [done|]. intros a [=].
  - left. split; [done|]. by intros a [= <-].
  - right. eexists. split; [exact Ha|]. by intros a [= <-] _.
Qed.

Lemma held_work h seat : held h (perform (HasPendingWork seat)) (fun p h' => p = false -> h' = Some NothingPending).
Proof.
  apply held_perform. intros w x w' Ha. cbn in Ha. destruct x as [e|[]].
  - left. split; [done|]. intros a [=].
  - left. split; [done|]. by intros a [= <-].
  - right. eexists. split; [exact Ha|]. by intros a [= <-] _.
Qed.

Section Programs.
Variable process_env : environ.

Lemma holding_threads sock ids : holding (read_threads sock ids).
Proof.
  induction ids as [|id ids IH]; [apply holding_ret|]. cbn [read_threads].
  apply holding_bind; [apply holding_attempt, holding_read|]. intros x. apply holding_bind; [exact IH|].
  intros l. apply holding_ret.
Qed.

Lemma holding_resolve deps : holding (resolveFreshCodexWakeTarget process_env deps).
Proof.
  unfold resolveFreshCodexWakeTarget. destruct (codexAppServerSocketFromEnv _); [|apply holding_ret].
  apply holding_bind; [apply holding_connect|]. intros _. apply holding_finally; [|apply holding_close].
  apply holding_bind; [apply holding_ids|]. intros ids. apply holding_bind; [apply holding_threads|]. intros l. apply holding_ret.
Qed.

Lemma holding_pending seat src : holding (pending_entry seat src).
Proof. unfold pending_entry. destruct (truthy src); [apply holding_entry|apply holding_ret]. Qed.

(** What follows a turn may write off what the turn discharges. *)
Lemma held_after_turn sock id text f h (Q : unit -> option wake_event -> Prop) :
  tame f -> writes_off (fun o => discharges o (TurnStarted id text) = true) f -> (forall h', Q tt h') ->
  held h (pbind (perform (StartTurn sock id text)) (fun _ => sync f)) Q.
Proof.
  intros Hf Hw HQ. apply held_bind. eapply held_mono; [apply held_turn|]. intros [] h' ->. apply held_sync; [done| |done].
  eapply writes_mono; [|exact Hw]. intros o Ho. by eexists.
Qed.

Lemma holding_turn {A} sock id text f (k : prog wake_op A) :
  tame f -> writes_off (fun o => discharges o (TurnStarted id text) = true) f -> holding k ->
  holding (pbind (perform (StartTurn sock id text)) (fun _ => pbind (sync f) (fun _ => k))).
Proof.
  intros Hf Hw Hk h. apply held_bind. eapply held_mono; [apply held_turn|]. intros [] h' ->. apply held_bind.
  apply held_sync; [done| |apply Hk]. eapply writes_mono; [|exact Hw]. intros o Ho. by eexists.
Qed.

Lemma holding_turn_last sock id text f :
  tame f -> writes_off (fun o => discharges o (TurnStarted id text) = true) f ->
  holding (pbind (perform (StartTurn sock id text)) (fun _ => sync f)).
Proof. intros Hf Hw h. by apply held_after_turn. Qed.

(** A turn for one wake lifts the mark; the turn for everything clears the rest. *)
Lemma writes_off_delivered id text f : lossless f ->
  writes_off (fun o => discharges o (TurnStarted id text) = true) (fun w => markDelivered (f w)).
Proof. intros Hf w o Ho. apply (Hf w o) in Ho. destruct o; [by left|by left|by right; right]. Qed.

Lemma catchup_discharges id o : discharges o (TurnStarted id CODEX_CATCHUP_PROMPT) = true.
Proof. destruct o; [apply String.eqb_refl|apply String.eqb_refl|done]. Qed.

Lemma writes_off_catchup id f : writes_off (fun o => discharges o (TurnStarted id CODEX_CATCHUP_PROMPT) = true) f.
Proof. intros w o _. right. right. apply catchup_discharges. Qed.

Lemma lossless_remember key : lossless (on_state (rememberDeliveredWake key)).
Proof.
  intros w o Ho. unfold on_state. cbn [ww_state with_state]. destruct (rememberDeliveredWake_rest key (ww_state w)) as (ks & l & ->).
  by destruct o.
Qed.

Lemma holding_schedule deps src f : tame f -> lossless f -> holding (sync (fun w => scheduleRetryDrain deps src (f w))).
Proof. intros Hf Hl. apply holding_sync; [|by apply generous_schedule]. by apply (tame_comp (scheduleRetryDrain deps src)), Hf; apply tame_schedule. Qed.

Lemma holding_wake_body req : holding (wake_body process_env req).
Proof.
  unfold wake_body. apply holding_bind; [apply holding_cube|]. intros [seat|]; [|apply holding_ret].
  apply holding_bind; [apply holding_pending|]. intros [|]; cbn [negb]; [|apply holding_ret].
  apply holding_bind; [apply holding_resolve|]. intros [[sock id]|].
  - apply holding_bind; [apply holding_sync; [apply tame_target|apply generous_target]|]. intros _.
    apply holding_bind; [apply holding_query|]. intros [|]; [apply holding_ret|].
    apply holding_bind; [apply holding_connect|]. intros _. apply holding_finally; [|apply holding_close].
    apply holding_bind; [apply holding_read|]. intros t. destruct (is_active t); [apply holding_schedule; [apply tame_result|apply lossless_record]|].
    apply holding_bind; [apply holding_pending|]. intros [|]; cbn [negb]; [|apply holding_ret].
    apply holding_turn_last.
    + apply (tame_comp markDelivered); [apply tame_mark|].
      apply (tame_comp (recordInjectionResult _ _)); [apply tame_result|apply tame_remember].
    + apply (writes_off_delivered _ _ (fun w => recordInjectionResult Delivered None (on_state (rememberDeliveredWake _) w))).
      apply (lossless_comp (recordInjectionResult _ _)); [apply lossless_record|apply lossless_remember].
  - apply holding_schedule; case_bool_decide; [apply tame_id|apply tame_deferred|apply lossless_id|apply lossless_deferred].
Qed.

Lemma holding_settle seat id : holding (settle_entry seat id).
Proof.
  intros h. unfold settle_entry. apply held_bind. eapply held_mono; [apply held_entry|]. intros [|] h' Hs; [by apply held_ret|].
  rewrite (Hs eq_refl). apply held_sync; [apply tame_retry_work| |done].
  eapply writes_mono; [|apply drops_writes, (drops_deleted id)].
  intros o ->. exists (EntrySettled id). split; [done|]. apply String.eqb_refl.
Qed.

Lemma holding_prune fuel guarded seat i : holding (prune fuel guarded seat i).
Proof.
  revert i. induction fuel as [|n IH]; intros i; cbn [prune]; [intros h; apply held_stuck|].
  apply holding_bind; [apply holding_query|]. intros [[j id]|]; [|apply holding_ret].
  apply holding_bind; [|intros _; apply IH]. destruct guarded; [|apply holding_settle].
  apply holding_catch; [apply holding_settle|]. intros e. apply holding_ret.
Qed.

Lemma holding_retry_body fuel deps : holding (retry_body process_env fuel deps).
Proof.
  unfold retry_body. apply holding_bind; [apply holding_cube|]. intros [seat|]; [|apply holding_ret].
  apply holding_bind; [apply holding_prune|]. intros _. apply holding_bind; [apply holding_query|].
  intros [|]; cbn [negb]; [|apply holding_ret]. apply holding_bind; [apply holding_resolve|]. intros [[sock id]|]; [|apply holding_ret].
  apply holding_bind; [apply holding_sync; [apply tame_target|apply generous_target]|]. intros _.
  apply holding_bind; [apply holding_connect|]. intros _. apply holding_finally; [|apply holding_close].
  apply holding_bind; [apply holding_read|]. intros t. destruct (is_active t).
  - apply holding_bind; [|intros _; apply holding_ret]. apply holding_sync; [apply tame_result|apply generous_record].
  - apply holding_bind; [apply holding_prune|]. intros _. apply holding_bind; [apply holding_query|].
    intros [|]; cbn [negb]; [|apply holding_ret]. apply holding_turn; [|apply writes_off_catchup|apply holding_ret].
    apply (tame_comp markDelivered); [apply tame_mark|].
    apply (tame_comp (recordInjectionResult _ _)); [apply tame_result|]. apply tame_retry_work.
Qed.

Lemma holding_beat_body deps : holding (beat_body process_env deps).
Proof.
  unfold beat_body. apply holding_bind; [apply holding_cube|]. intros [seat|]; [|apply holding_ret].
  intros h. apply held_bind. eapply held_mono; [apply held_work|]. intros [|] h' Hs; cbn [negb].
  - clear Hs. revert h'. clear h. apply holding_bind; [apply holding_resolve|]. intros [[sock id]|];
      [|apply holding_sync; [apply tame_deferred|apply (generous_deferred (fun w => w)), lossless_id]].
    apply holding_bind; [apply holding_sync; [apply tame_target|apply generous_target]|]. intros _.
    apply holding_bind; [apply holding_connect|]. intros _. apply holding_finally; [|apply holding_close].
    apply holding_bind; [apply holding_read|]. intros t. destruct (is_active t).
    + apply holding_sync; [|apply generous_deferred, lossless_record].
      apply (tame_comp (on_state (set_deliveryDeferred true))); [apply tame_deferred|apply tame_result].
    + apply holding_turn_last; [|apply writes_off_delivered, lossless_record].
      apply (tame_comp markDelivered); [apply tame_mark|apply tame_result].
  - rewrite (Hs eq_refl). apply held_sync; [apply tame_deferred| |done]. intros w o Ho. destruct o; [by left|by left|].
    right. right. by exists NothingPending.
Qed.
End Programs.
End Held.

(** ** Without the lock *)

Section Outside.
Variables (b d r : bool).

Definition out_ : hold := Hold false b d r None.

Definition outside {A} (p : prog wake_op A) : Prop :=
  simulates wake_act lawful out_ p (fun _ s => s = out_) (fun _ _ => False).

Lemma outside_bind {A B} (p : prog wake_op A) (f : A -> prog wake_op B) :
  outside p -> (forall a, outside (f a)) -> outside (pbind p f).
Proof.
  intros Hp Hf. apply simulates_bind. eapply simulates_mono; [exact Hp| |done]. intros a s ->. apply Hf.
Qed.

Lemma outside_ret {A} (a : A) : outside (Ret a).
Proof. done. Qed.

Lemma outside_sync f : tame f -> generous f -> outside (sync f).
Proof.
  intros Hf Hg w x w' Ha. cbn in Ha. injection Ha as <- <-. exists out_. split; [|done].
  intros _. apply step_tame; [done|done|]. intros o Ho. destruct (Hg w o Ho) as [?|[?|[]]]; auto.
Qed.

Lemma outside_quiet {X} (op : wake_op X) : (forall w x w', wake_act X op w x w' -> w' = w) -> outside (ask op).
Proof. intros Hop w x w' Ha. apply Hop in Ha as ->. exists out_. split; [intros _; by apply step_quiet|done]. Qed.

Lemma outside_query {X} (f : wake_world -> X) : outside (query f).
Proof. apply outside_quiet. intros w x w' Ha. cbn in Ha. by injection Ha as <- <-. Qed.

Lemma outside_stuck {A} : outside (A := A) out_of_fuel.
Proof. intros w x w' []. Qed.

(** Taking the lock, and giving it back. *)
Lemma simulates_lock {A} (k : bool -> prog wake_op A) :
  outside (k false) -> simulates wake_act lawful (at_ b d r None) (k true) (fun _ s => s = out_) (fun _ _ => False) ->
  outside (pbind (ask (Sync tryAcquireInjectLock)) k).
Proof.
  intros Hf Ht w x w' Ha. cbn in Ha. unfold tryAcquireInjectLock in Ha.
  destruct (ws_injectInFlight (ww_state w)) eqn:E; injection Ha as <- <-.
  - exists out_. split; [intros _; by apply step_quiet|exact Hf].
  - exists (at_ b d r None). split; [|exact Ht]. intros _. unfold out_, at_.
    split; unfold lock_holders, beat_holders, drain_holders, retry_holders; cbn; rewrite ?E; try lia; try done; [by left| |].
    + same_owing.
    + keys_kept.
Qed.

Lemma simulates_release h f :
  (forall w, ww_state (f w) = set_injectInFlight false (ww_state w)) -> (forall w, ww_jobs (f w) = ww_jobs w) ->
  (forall w, ww_log (f w) = ww_log w) ->
  simulates wake_act lawful (at_ b d r h) (sync f) (fun _ s => s = out_) (fun _ _ => False).
Proof.
  intros Hs Hj Hl w x w' Ha. cbn in Ha. injection Ha as <- <-. exists out_. split; [|done]. intros (Hc & _). specialize (Hc eq_refl).
  unfold out_, at_. split; unfold lock_holders, beat_holders, drain_holders, retry_holders; rewrite ?Hs, ?Hj, ?Hl; cbn;
    rewrite ?Hc; cbn; try lia; try done; [by left| |].
  - same_owing.
  - keys_kept.
Qed.

(** Under the lock, throwing nothing. *)
Definition safe {A} (p : prog wake_op A) : Prop :=
  forall h, simulates wake_act lawful (at_ b d r h) p (fun _ s => exists h', s = at_ b d r h') (fun _ _ => False).

Lemma safe_catch {A} (p : prog wake_op A) hd : holding b d r p -> (forall e, safe (hd e)) -> safe (pcatch p hd).
Proof.
  intros Hp Hh h. apply simulates_catch. eapply simulates_mono; [apply Hp| |].
  - intros a s (h' & -> & _). by exists h'.
  - intros e s (h' & ->). apply Hh.
Qed.

Lemma safe_sync f : tame f -> generous f -> safe (sync f).
Proof. intros Hf Hg h w x w' Ha. destruct (holding_sync b d r f Hf Hg h w x w' Ha) as (s & Hs & h' & -> & _). exists (at_ b d r h'). split; [done|by exists h']. Qed.

Lemma safe_bind {A B} (p : prog wake_op A) (f : A -> prog wake_op B) : safe p -> (forall a, safe (f a)) -> safe (pbind p f).
Proof. intros Hp Hf h. apply simulates_bind. eapply simulates_mono; [apply Hp| |done]. intros a s (h' & ->). apply Hf. Qed.

Lemma safe_ret {A} (a : A) : safe (Ret a).
Proof. intros h. by exists h. Qed.

Lemma simulates_locked {A} (p : prog wake_op A) h (q : prog wake_op unit) :
  safe p -> (forall h, simulates wake_act lawful (at_ b d r h) q (fun _ s => s = out_) (fun _ _ => False)) ->
  simulates wake_act lawful (at_ b d r h) (pfinally p q) (fun _ s => s = out_) (fun _ _ => False).
Proof.
  intros Hp Hq. unfold pfinally. apply simulates_bind, simulates_attempt. eapply simulates_mono; [apply Hp| |done].
  intros a s (h' & ->). apply simulates_bind. eapply simulates_mono; [apply Hq| |done]. by intros [] s ->.
Qed.

Section Processes.
Variable process_env : environ.

Lemma simulates_releaseInjectLock h :
  simulates wake_act lawful (at_ b d r h) (sync releaseInjectLock) (fun _ s => s = out_) (fun _ _ => False).
Proof. by apply simulates_release. Qed.

Lemma outside_wake req : outside (wakeCodexTargeted process_env req).
Proof.
  unfold wakeCodexTargeted. apply simulates_lock; cbn [negb].
  - apply outside_sync; [apply tame_schedule|apply (generous_schedule _ _ (fun w => w)), lossless_id].
  - apply simulates_locked; [|apply simulates_releaseInjectLock]. apply safe_catch; [apply holding_wake_body|].
    intros e. apply safe_sync; [|apply generous_schedule, lossless_record]. apply (tame_comp (scheduleRetryDrain _ _)); [apply tame_schedule|apply tame_result].
Qed.

Lemma tame_shift : tame (fun w => snd (shift_request w)).
Proof.
  split; intros w; unfold shift_request; destruct (ws_pending (ww_state w)); try reflexivity; try done.
  keys_kept.
Qed.

Lemma outside_drain fuel : outside (drainCodexWakeQueue process_env fuel).
Proof.
  induction fuel as [|n IH]; cbn [drainCodexWakeQueue]; [apply outside_stuck|].
  apply outside_bind.
  - intros w x w' Ha. cbn in Ha. exists out_. split; [|done]. intros _.
    assert (w' = snd (shift_request w)) as -> by (by rewrite Ha). apply (step_tame _ _ (fun w => snd (shift_request w))); [done|apply tame_shift|].
    intros o Ho. left. unfold shift_request. destruct (ws_pending (ww_state w)), o; exact Ho.
  - intros [req|]; [|apply outside_ret]. apply outside_bind; [apply outside_wake|done].
Qed.

Lemma outside_retry fuel left attempts deps startedAt : outside (retry_loop process_env fuel left attempts deps startedAt).
Proof.
  revert attempts. induction left as [|n IH]; intros attempts; cbn [retry_loop];
    [apply outside_sync; [apply tame_age_out|apply generous_age_out]|].
  apply outside_bind; [apply outside_query|]. intros [|]; [apply outside_sync; [apply tame_age_out|apply generous_age_out]|].
  apply outside_bind; [apply outside_quiet; by intros w x w' [_ ->]|]. intros jitter. apply outside_bind; [by apply outside_quiet|]. intros _.
  apply simulates_lock; cbn [negb]; [apply IH|]. apply simulates_bind.
  eapply simulates_mono; [apply simulates_locked; [|apply simulates_releaseInjectLock]| |done].
  - apply safe_catch; [apply holding_retry_body|]. intros e. apply safe_bind; [|intros _; apply safe_ret].
    apply safe_sync; [apply tame_result|apply generous_record].
  - intros [|] s ->; [apply outside_ret|apply IH].
Qed.
End Processes.
End Outside.

(** ** The processes, from start to end *)

Definition conducts (p : prog wake_op unit) : Prop :=
  simulates wake_act lawful idle p (fun _ s => s = idle) (fun _ _ => False).

(** Taking a job up takes its flag over. *)
Lemma simulates_take j (s' : hold) (k : unit -> prog wake_op unit) Q R :
  s' = Hold false false (is_drain j) (is_retry j) None ->
  simulates wake_act lawful s' (k tt) Q R -> simulates wake_act lawful idle (pbind (ask (Take j)) k) Q R.
Proof.
  intros -> Hk w [] w' (l1 & l2 & Hj & ->). eexists. split; [intros _|exact Hk].
  split; unfold lock_holders, beat_holders, drain_holders, retry_holders; cbn [ww_state ww_jobs with_jobs h_lock h_beat h_drain h_retry idle];
    rewrite ?Hj, ?count_middle; cbn [Z.b2z]; try lia; try done; [by left|].
  same_owing.
Qed.

(** The flag is put down at the end. *)
Lemma simulates_put_down s f :
  h_lock s = false -> h_beat s = false -> hold_ok s ->
  (forall w, lock_holders (f w) = lock_holders w) -> (forall w, beat_holders (f w) = beat_holders w) ->
  (forall w, consistent s w -> drain_holders (f w) = drain_holders w - Z.b2z (h_drain s)) ->
  (forall w, consistent s w -> retry_holders (f w) = retry_holders w - Z.b2z (h_retry s)) ->
  (forall w, ww_log (f w) = ww_log w) -> (forall w o, owed o (ww_state (f w)) = owed o (ww_state w)) ->
  (forall w, keys_ok (ww_state w) -> keys_ok (ww_state (f w))) ->
  simulates wake_act lawful s (sync f) (fun _ s' => s' = idle) (fun _ _ => False).
Proof.
  intros Hl Hb Hok H1 H2 H3 H4 H5 H6 H7 w x w' Ha. cbn in Ha. injection Ha as <- <-. exists idle. split; [|done].
  intros Hc. split; rewrite ?H1, ?H2, ?(H3 w Hc), ?(H4 w Hc), ?H5, ?Hl, ?Hb; cbn; try lia; [by left|done| |auto].
  intros o Ho. left. by rewrite H6.
Qed.

Section Processes.
Variable process_env : environ.

Lemma drain_conducts fuel : conducts (drain_process process_env fuel).
Proof.
  unfold conducts, drain_process. eapply (simulates_take DrainQueue); [reflexivity|]. apply simulates_bind.
  eapply simulates_mono; [apply outside_drain| |done]. intros _ s ->.
  apply simulates_put_down; try done; intros w; unfold drain_holders, retry_holders; cbn.
  - intros (_ & _ & Hd & _). rewrite (Hd eq_refl). cbn. lia.
  - lia.
  - keys_kept.
Qed.

Lemma retry_conducts fuel deps startedAt : conducts (retry_process process_env fuel deps startedAt).
Proof.
  unfold conducts, retry_process. assert (Hp := outside_retry false false true process_env fuel
    (Z.to_nat (default WAKE_RETRY_MAX_ATTEMPTS (wd_maxAttempts deps))) 0 deps startedAt).
  fold (runRetryDrainLoop process_env fuel deps startedAt) in Hp. generalize dependent (runRetryDrainLoop process_env fuel deps startedAt).
  intros p Hp. eapply (simulates_take (RetryDrain deps startedAt)); [reflexivity|]. apply simulates_bind.
  eapply simulates_mono; [exact Hp| |done]. intros [] s ->.
  apply simulates_put_down; try done; intros w; unfold drain_holders, retry_holders; cbn.
  - lia.
  - intros (_ & _ & _ & Hd). rewrite (Hd eq_refl). cbn. lia.
  - keys_kept.
Qed.

Lemma wake_conducts reason env deps identity source : conducts (wakeCodexViaAppServer reason env deps identity source).
Proof.
  unfold conducts, wakeCodexViaAppServer. destruct (isCodexRemoteWakeEnabled env); cbn [negb]; [|done]. cbv zeta.
  intros w x w' Ha. cbn in Ha. injection Ha as <- <-. exists idle. split; [|done]. intros _.
  destruct (ws_wakeInFlight (ww_state w)) eqn:E;
    (split; unfold lock_holders, beat_holders, drain_holders, retry_holders; cbn [ww_state ww_jobs with_state with_jobs];
      rewrite ?count_cons; cbn; rewrite ?E; cbn; try lia; try done; [by left|same_owing|keys_kept]).
Qed.

Lemma simulates_enter deps cadence (k : bool -> prog wake_op unit) :
  conducts (k false) -> simulates wake_act lawful (at_ true false false None) (k true) (fun _ s => s = idle) (fun _ _ => False) ->
  conducts (pbind (ask (Sync (beat_enter deps cadence))) k).
Proof.
  intros Hf Ht w x w' Ha. cbn in Ha. unfold beat_enter in Ha.
  assert (Hno : (false, w) = (x, w') -> exists s', lawful idle w s' w' /\
    simulates wake_act lawful s' (k x) (fun _ s => s = idle) (fun _ _ => False)).
  { intros [= <- <-]. exists idle. split; [intros _; by apply step_quiet|done]. }
  destruct (ws_heartbeatInFlight (ww_state w)) eqn:Eh; [by apply Hno|].
  destruct (negb (shouldFireHeartbeat _ _ _)); [by apply Hno|]. destruct (wd_gated deps && _); [by apply Hno|].
  unfold tryAcquireInjectLock in Ha. destruct (ws_injectInFlight (ww_state w)) eqn:El; [by apply Hno|].
  clear Hno. cbn [negb] in Ha. injection Ha as <- <-. exists (at_ true false false None). split; [|exact Ht].
  intros _. split; unfold lock_holders, beat_holders, drain_holders, retry_holders; cbn; rewrite ?El, ?Eh; try lia; try done;
    [by left|same_owing|keys_kept].
Qed.

Lemma simulates_leave h :
  simulates wake_act lawful (at_ true false false h) (sync (fun w => releaseInjectLock (on_state (set_heartbeatInFlight false) w)))
    (fun _ s => s = idle) (fun _ _ => False).
Proof.
  intros w x w' Hx. cbn in Hx. injection Hx as <- <-. exists idle. split; [|done].
  intros (Hl & Hb & _). specialize (Hl eq_refl). specialize (Hb eq_refl).
  split; unfold lock_holders, beat_holders, drain_holders, retry_holders; cbn; rewrite ?Hl, ?Hb; cbn; try lia; try done;
    [by left|same_owing|keys_kept].
Qed.

Lemma beat_conducts deps cadence : conducts (fireCodexHeartbeatTick process_env deps cadence).
Proof.
  unfold fireCodexHeartbeatTick. apply simulates_enter; cbn [negb]; [done|].
  unfold pfinally. apply simulates_bind, simulates_attempt.
  eapply simulates_mono; [apply (safe_catch true false false _ _ (holding_beat_body true false false process_env deps))| |done].
  - intros e. apply safe_bind.
    + apply safe_sync; [|apply generous_deferred, lossless_record].
      apply (tame_comp (on_state (set_deliveryDeferred true))); [apply tame_deferred|apply tame_result].
    + intros _. destruct (has_code "ENOENT" e); [|apply safe_ret]. intros h w1 x w1' Hx. cbn in Hx. subst.
      exists (at_ true false false h). split; [intros _; by apply step_quiet|by exists h].
  - intros [] s (h & ->). apply simulates_bind. eapply simulates_mono; [apply simulates_leave| |done]. by intros [] s ->.
Qed.
End Processes.

(** * The wakes, the retry loop and the heartbeat together

    The accounting above as an invariant of every interleaving, and
    what it gives: one conversation with the app server at a time, flags that are
    always put down, and no wake that is forgotten. *)

(** ** Counting the holders *)

Definition total (f : hold -> bool) (ss : list hold) : Z := foldr (fun s n => Z.b2z (f s) + n) 0 ss.

Lemma total_nonneg f ss : 0 <= total f ss.
Proof. unfold total. induction ss as [|s ss IH]; cbn; [lia|]. destruct (f s); cbn; lia. Qed.

Lemma total_app f ss s : total f (ss ++ [s]) = total f ss + Z.b2z (f s).
Proof. unfold total. induction ss as [|s0 ss IH]; cbn; lia. Qed.

Lemma total_insert f ss i s s' : ss !! i = Some s -> total f (<[i := s']> ss) = total f ss - Z.b2z (f s) + Z.b2z (f s').
Proof.
  revert i. induction ss as [|s0 ss IH]; intros [|i] Hi; [done..| |].
  - injection Hi as ->. unfold total. cbn. lia.
  - change (<[S i := s']> (s0 :: ss)) with (s0 :: <[i := s']> ss). specialize (IH i Hi). unfold total in *. cbn [foldr]. lia.
Qed.

Lemma total_one f ss i s : ss !! i = Some s -> f s = true -> 1 <= total f ss.
Proof.
  revert i. induction ss as [|s0 ss IH]; intros [|i] Hi Hf; [done..| |]; assert (H := total_nonneg f ss).
  - injection Hi as ->. unfold total in *. cbn [foldr]. rewrite Hf. cbn [Z.b2z]. lia.
  - specialize (IH i Hi Hf). unfold total in *. cbn [foldr]. destruct (f s0); cbn [Z.b2z]; lia.
Qed.

Lemma total_unique f ss i j s s' : f idle = false -> total f ss <= 1 ->
  ss !! i = Some s -> f s = true -> ss !! j = Some s' -> f s' = true -> i = j.
Proof.
  intros Hid Ht Hi Hf Hj Hf'. destruct (decide (i = j)) as [|Hne]; [done|exfalso].
  assert (H := total_insert f ss i s idle Hi). rewrite Hf, Hid in H.
  assert (Hj' : <[i := idle]> ss !! j = Some s') by (by rewrite list_lookup_insert_ne).
  assert (H' := total_one f _ j s' Hj' Hf'). cbn [Z.b2z] in H. lia.
Qed.

Lemma total_zero f ss : f idle = false -> Forall (fun s => s = idle) ss -> total f ss = 0.
Proof. intros Hid. unfold total. induction 1 as [|s ss -> _ IH]; cbn; [done|]. by rewrite Hid, IH. Qed.

(** ** The invariant *)

Record pool_inv (ss : list hold) (w : wake_world) : Prop := {
  pi_lock : total h_lock ss = lock_holders w;
  pi_beat : total h_beat ss = beat_holders w;
  pi_drain : total h_drain ss = drain_holders w;
  pi_retry : total h_retry ss = retry_holders w;
  pi_heard : forall i s e, ss !! i = Some s -> h_heard s = Some e -> h_lock s = true /\ head (ww_log w) = Some e;
  pi_keys : keys_ok (ww_state w)
}.

Lemma b2z_le (b : bool) : Z.b2z b <= 1.
Proof. by destruct b. Qed.

Lemma b2z_pos (b : bool) : 1 <= Z.b2z b -> b = true.
Proof. by destruct b. Qed.

Lemma inv_lock_le ss w : pool_inv ss w -> total h_lock ss <= 1.
Proof. intros [H _ _ _ _ _]. rewrite H. apply b2z_le. Qed.

Lemma inv_consistent ss w i s : pool_inv ss w -> ss !! i = Some s -> consistent s w.
Proof.
  intros [H1 H2 H3 H4 _ _] Hi. unfold lock_holders, beat_holders, drain_holders, retry_holders in *.
  assert (Hd := count_nonneg is_drain (ww_jobs w)). assert (Hr := count_nonneg is_retry (ww_jobs w)).
  split; [|split; [|split]]; intros Hf; apply b2z_pos;
    [assert (Hk := total_one h_lock _ _ _ Hi Hf)|assert (Hk := total_one h_beat _ _ _ Hi Hf)
    |assert (Hk := total_one h_drain _ _ _ Hi Hf)|assert (Hk := total_one h_retry _ _ _ Hi Hf)]; lia.
Qed.

Lemma pool_inv_step ss w i s s' w' : pool_inv ss w -> ss !! i = Some s -> lawful s w s' w' -> pool_inv (<[i := s']> ss) w'.
Proof.
  intros Hinv Hi Hl. destruct (Hl (inv_consistent _ _ _ _ Hinv Hi)) as [L1 L2 L3 L4 Llog Lheard _ Lkeys].
  assert (Hle := inv_lock_le _ _ Hinv). destruct Hinv as [H1 H2 H3 H4 H5 H6].
  split; rewrite ?(total_insert _ _ _ _ _ Hi); try lia; [|auto].
  intros j t e Hj Ht. destruct (decide (i = j)) as [<-|Hne].
  - rewrite list_lookup_insert_eq in Hj by (by eapply lookup_lt_Some). injection Hj as <-.
    destruct (Lheard e Ht) as (Hl' & [[_ Hh]|[Hh Hlog]]); split; [done..|].
    rewrite Hlog. by apply (H5 i s).
  - rewrite list_lookup_insert_ne in Hj by done. destruct (H5 j t e Hj Ht) as [Hlk Hh]. split; [done|].
    destruct Llog as [->|[Hls _]]; [done|]. exfalso. apply Hne. by eapply (total_unique h_lock).
Qed.

Definition world0 (now : Z) (owner : bool) : wake_world := WakeWorld initial_wake_state now owner [] [].

Lemma inv_start now owner : pool_inv [] (world0 now owner).
Proof. split; try done. split; cbn; [done|constructor|unfold DELIVERED_WAKE_KEY_CAP; lia]. Qed.

Section Pool.
Variable process_env : environ.

Abbreviation moves := (pool_moves wake_act (wake_starts process_env) wake_env).
Abbreviation abstract := (abstract_moves lawful wake_env (fun _ s => s = idle)).
Abbreviation models := (abstracts_to wake_act lawful (fun _ s => s = idle) (fun _ _ => False)).

Lemma starts_conduct w p : wake_starts process_env w p -> conducts p.
Proof. intros []; [apply wake_conducts|apply beat_conducts|apply drain_conducts|apply retry_conducts]. Qed.

Lemma inv_abstract ss w ss' w' : abstract (ss, w) (ss', w') -> pool_inv ss w -> pool_inv ss' w'.
Proof.
  intros Hm Hinv. inversion Hm as [ss0 i s s' w0 w1 Hi Hs|ss0 s w0 Hs|ss0 w0 w1 (now & owner & _ & ->)]; subst.
  - by eapply pool_inv_step.
  - destruct Hinv as [H1 H2 H3 H4 H5 H6]. split; rewrite ?total_app; cbn; try lia; try done.
    intros i t e Hi. apply lookup_app_Some in Hi as [Hi|[_ Hi]]; [by apply (H5 i)|]. apply list_lookup_singleton_Some in Hi as [_ <-]. done.
  - destruct Hinv as [H1 H2 H3 H4 H5 H6]. split; done.
Qed.

(** Every configuration a run reaches is accounted for. *)
Lemma accounted ps w ps' w' ss : rtc moves (ps, w) (ps', w') -> models ss ps -> pool_inv ss w ->
  exists ss', models ss' ps' /\ pool_inv ss' w' /\ rtc abstract (ss, w) (ss', w').
Proof.
  intros Hr Hm Hinv. destruct (pool_simulation_to wake_act lawful (wake_starts process_env) wake_env
    (fun _ s => s = idle) (fun _ _ => False) (fun _ s => s = idle) ps w ps' w' ss) as (ss' & Ha & Hm'); [|done|done|].
  { intros w0 p Hp. exists idle. split; [done|]. by eapply starts_conduct. }
  exists ss'. split; [done|]. split; [|done]. clear Hr Hm Hm'. remember (ss, w) as c eqn:Ec. remember (ss', w') as c' eqn:Ec'.
  revert ss w Ec Hinv. induction Ha as [c|c [ss1 w1] c1 Hs _ IH]; intros ss w -> Hinv; [by simplify_eq|].
  apply (IH Ec' ss1 w1 eq_refl). by eapply inv_abstract.
Qed.

(** ** What is said of the program *)

Definition reachable (ps : list (prog wake_op unit)) (w : wake_world) : Prop :=
  exists now owner, rtc moves ([], world0 now owner) (ps, w).

Lemma reachable_accounted ps w : reachable ps w -> exists ss, models ss ps /\ pool_inv ss w.
Proof.
  intros (now & owner & Hr). destruct (accounted _ _ _ _ [] Hr) as (ss & H1 & H2 & _); [constructor|apply inv_start|]. by exists ss.
Qed.

(** The next thing a process does is to talk to the app server. *)
Definition talks (p : prog wake_op unit) : bool :=
  match p with
  | Vis op _ =>
      match op with
      | Connect _ | LoadedThreadIds _ | ReadThread _ _ | StartTurn _ _ _ | CloseClient _ => true
      | _ => false
      end
  | _ => false
  end.

Lemma talks_locked s p w : simulates wake_act lawful s p (fun _ s => s = idle) (fun _ _ => False) ->
  consistent s w -> talks p = true -> h_lock s = true.
Proof.
  intros Hs Hc Ht. destruct p as [a|e|X op k]; [done..|]. cbn in Hs.
  assert (Hgo : forall e, (exists x, wake_act X op w x (logged e w)) -> h_lock s = true).
  { intros e (x & Ha). destruct (Hs w x _ Ha) as (s' & Hl & _). destruct (Hl Hc) as [_ _ _ _ [Hlog|[Hlog _]] _ _ _]; [|done].
    cbn in Hlog. assert (Hlen : length (e :: ww_log w) = length (ww_log w)) by (by rewrite Hlog). cbn in Hlen. lia. }
  destruct op; try discriminate Ht; eapply Hgo;
    [exists (inr tt)|exists (inr [])|exists (inr None)|exists (inr tt)|exists tt]; reflexivity.
Qed.

Lemma models_lookup ss ps i (p : prog wake_op unit) : models ss ps -> ps !! i = Some p ->
  exists s, ss !! i = Some s /\ simulates wake_act lawful s p (fun _ s => s = idle) (fun _ _ => False).
Proof. intros Hm Hp. by destruct (Forall2_lookup_r _ _ _ _ _ Hm Hp) as (s & Hs & Hsim); exists s. Qed.

Lemma talkers_unique ss ps w i j (p q : prog wake_op unit) : models ss ps -> pool_inv ss w ->
  ps !! i = Some p -> talks p = true -> ps !! j = Some q -> talks q = true -> i = j.
Proof.
  intros Hm Hinv Hi Hp Hj Hq.
  destruct (models_lookup _ _ _ _ Hm Hi) as (s & Hs & Hsim). destruct (models_lookup _ _ _ _ Hm Hj) as (t & Ht & Htim).
  eapply (total_unique h_lock ss); [done|by eapply inv_lock_le|exact Hs| |exact Ht|].
  - eapply talks_locked; [exact Hsim|by eapply inv_consistent|done].
  - eapply talks_locked; [exact Htim|by eapply inv_consistent|done].
Qed.

Lemma all_idle ss (ps : list (prog wake_op unit)) : models ss ps -> Forall (fun p => finished p = true) ps -> Forall (fun s => s = idle) ss.
Proof.
  induction 1 as [|s p ss ps Hs _ IH]; [by constructor|]. intros [Hp Hps]%Forall_cons. constructor; [|by apply IH].
  destruct p; [exact Hs|by destruct Hs|done].
Qed.

(** C19. One voice.  However the wakes, the retry loop and the heartbeat of a process
    interleave, whatever the app server and the server answer and whenever the
    stream's lease changes hands: at most one of them is ever in a conversation
    with the app server; none of them throws; at most one drain of the queue and
    one retry loop wait to be run; the memory of delivered wakes holds at most 100
    keys, the ones in its queue; and when all have finished and no job is left, no
    flag is left up. *)
Theorem codex_conversations_exclusive (ps : list (prog wake_op unit)) w : reachable ps w ->
  (forall i j p q, ps !! i = Some p -> talks p = true -> ps !! j = Some q -> talks q = true -> i = j) /\
  (forall p e, p ∈ ps -> p <> Throw e) /\
  count is_drain (ww_jobs w) <= 1 /\ count is_retry (ww_jobs w) <= 1 /\
  (ws_keys (ww_state w) = list_to_set (ws_keyOrder (ww_state w)) /\ (size (ws_keys (ww_state w)) <= 100)%nat) /\
  (Forall (fun p => finished p = true) ps -> ww_jobs w = [] ->
    ws_injectInFlight (ww_state w) = false /\ ws_heartbeatInFlight (ww_state w) = false /\
    ws_wakeInFlight (ww_state w) = false /\ rs_inFlight (ws_retry (ww_state w)) = false).
Proof.
  intros Hr. destruct (reachable_accounted ps w Hr) as (ss & Hm & Hinv).
  split; [intros i j p q; by eapply talkers_unique|]. split.
  { intros p e Hp ->. apply list_elem_of_lookup in Hp as (i & Hi).
    by destruct (models_lookup _ _ _ _ Hm Hi) as (s & _ & []). }
  assert (Hnn : forall f, 0 <= total f ss) by (intros; apply total_nonneg).
  destruct Hinv as [H1 H2 H3 H4 _ [K1 K2 K3]]. unfold lock_holders, beat_holders, drain_holders, retry_holders in *.
  assert (H3' := Hnn h_drain). assert (H4' := Hnn h_retry).
  assert (Hb1 := b2z_le (ws_wakeInFlight (ww_state w))). assert (Hb2 := b2z_le (rs_inFlight (ws_retry (ww_state w)))).
  split; [lia|]. split; [lia|]. split.
  { split; [done|]. rewrite K1, size_list_to_set by done. exact K3. }
  intros Hf Hj. assert (Hz := all_idle _ _ Hm Hf). rewrite Hj in H3, H4.
  rewrite !total_zero in H1, H2, H3, H4 by done. change (count _ []) with 0 in H3, H4.
  split; [|split; [|split]]; match goal with |- ?b = false => destruct b; [cbn [Z.b2z] in *; lia|done] end.
Qed.

(** What one move writes off was heard just before it, or is aged out. *)
Lemma move_writes_off ps w ps1 w1 : reachable ps w -> moves (ps, w) (ps1, w1) ->
  (exists grown, ww_log w1 = grown ++ ww_log w) /\
  forall o, owed o (ww_state w) = true ->
    owed o (ww_state w1) = true \/ aged_out o (ww_state w1) \/ settled o (head (ww_log w)).
Proof.
  intros Hr Hm. destruct (reachable_accounted ps w Hr) as (ss & Hss & Hinv).
  destruct (pool_move_to wake_act lawful (wake_starts process_env) wake_env (fun _ s => s = idle) (fun _ _ => False) (fun _ s => s = idle)
    ps w (ps1, w1) ss) as (ss1 & Hs & _); [|done|done|].
  { intros w0 p Hp. exists idle. split; [done|]. by eapply starts_conduct. }
  cbn in Hs. inversion Hs as [ss0 i s s' w0 w2 Hi Hl|ss0 s w0 Hl|ss0 w0 w2 (now & owner & _ & ->)]; subst.
  - destruct (Hl (inv_consistent _ _ _ _ Hinv Hi)) as [_ _ _ _ Llog _ Lowing _].
    split; [destruct Llog as [|[_ (e & ?)]]; [by exists []|by exists [e]]|].
    intros o Ho. destruct (Lowing o Ho) as [?|[?|[_ (e & He & Hd)]]]; [auto..|]. right. right. exists e.
    by destruct (pi_heard _ _ Hinv i s e Hi He).
  - split; [by exists []|auto].
  - split; [by exists []|]. intros o Ho. left. by destruct o.
Qed.

(** C20. No wake is forgotten.  While a wake is owed - an entry of the retry loop, a
    wake without an entry, or the mark of one that was not delivered - the path is
    not reported healthy.  Over any stretch of any interleaving, a wake owed at its
    start is still owed at its end; or what settles this one was heard in the
    stretch or as the last thing before it: for an entry, that the server has it no
    longer pending; for an entry or a wake without one, the start of the turn that
    asks for everything unread; for the mark, the start of any turn or that nothing
    is pending; or else, and not for the mark, the retry loop gave up in the
    stretch, all of it at once, and put the mark up in the same step. *)
Theorem codex_wake_not_forgotten ps w ps' w' o :
  reachable ps w -> rtc moves (ps, w) (ps', w') -> owed o (ww_state w) = true ->
  codexWakePathHealthy (Some true) (getCodexDeliveryState (ww_state w)) = None /\
  exists new, ww_log w' = new ++ ww_log w /\
    (owed o (ww_state w') = true \/
     (exists e, discharges o e = true /\ (e ∈ new \/ head (ww_log w) = Some e)) \/
     (o <> OwedMark /\ exists ps1 w1 ps2 w2, rtc moves (ps, w) (ps1, w1) /\ owed o (ww_state w1) = true /\
        moves (ps1, w1) (ps2, w2) /\ gave_up (ww_state w2) /\ rtc moves (ps2, w2) (ps', w'))).
Proof.
  intros Hr Hm Ho. split.
  { unfold codexWakePathHealthy, getCodexDeliveryState. cbn [ds_retryDrainActive ds_deferredEntryCount ds_deliveryDeferred].
    destruct (rs_inFlight (ws_retry (ww_state w))); [done|]. cbn [orb].
    destruct o as [id| |]; cbn [owed] in Ho; [|rewrite Ho|by rewrite Ho, orb_true_r].
    - apply set_has_in in Ho. assert (Hs : (0 < set_size (rs_sourceEntryIds (ws_retry (ww_state w))))%nat) by (apply set_size_pos; eauto).
      destruct (set_size _); [lia|done].
    - by rewrite Nat.add_comm. }
  remember (ps, w) as c eqn:Ec. remember (ps', w') as c' eqn:Ec'. revert ps w Ec Hr Ho.
  induction Hm as [c|c [ps1 w1] c1 Hs Hm IH]; intros ps w -> Hr Ho.
  { simplify_eq. exists []. split; [done|by left]. }
  destruct (move_writes_off _ _ _ _ Hr Hs) as [(grown & Hg) Hoff].
  assert (Hr1 : reachable ps1 w1).
  { destruct Hr as (now & owner & Hr). exists now, owner. by eapply rtc_r. }
  destruct (Hoff o Ho) as [Ho1|Hgone].
  - destruct (IH Ec' ps1 w1 eq_refl Hr1 Ho1) as (new & Hlog & Hcase). exists (new ++ grown).
    split; [by rewrite Hlog, Hg, app_assoc|]. destruct Hcase as [?|[(e & He & Hin)|(Hne & ps2 & w2 & ps3 & w3 & H1 & H2)]]; [by left|right; left|right; right].
    + exists e. split; [done|]. destruct Hin as [Hin|Hh]; [left; apply elem_of_app; by left|]. rewrite Hg in Hh.
      destruct grown as [|x grown]; [by right|]. injection Hh as ->. left. apply elem_of_app. right. left.
    + split; [done|]. exists ps2, w2, ps3, w3. split; [by eapply rtc_l|done].
  - assert (Hall : exists new, ww_log w' = new ++ ww_log w).
    { clear IH Hoff Hgone Ho. subst c1. revert grown Hg Hr1. remember (ps1, w1) as d eqn:Ed. remember (ps', w') as d' eqn:Ed'.
      clear Hs. revert ps1 w1 Ed. induction Hm as [d|d [ps2 w2] d1 Hs Hm IH]; intros ps1 w1 -> grown Hg Hr1; [simplify_eq; by exists grown|].
      destruct (move_writes_off _ _ _ _ Hr1 Hs) as [(g2 & Hg2) _]. eapply (IH Ed' ps2 w2 eq_refl (g2 ++ grown)).
      - by rewrite Hg2, Hg, app_assoc.
      - destruct Hr1 as (now & owner & Hr1). exists now, owner. by eapply rtc_r. }
    destruct Hall as (new & Hlog). exists new. split; [done|]. right. destruct Hgone as [[Hne Hup]|(e & He & Hd)].
    + right. split; [done|]. subst c1. exists ps, w, ps1, w1. split; [apply rtc_refl|]. by split_and!.
    + left. exists e. auto.
Qed.
End Pool.

(** ** A run *)

Definition a_thread (active : bool) : codex_thread :=
  CodexThread "thread-1" (Some "/work") (Some 7) None None (Some "user") None (Some 2%nat) active.

(** The thread is idle, or in a turn until the retry loop is on its way. *)
Definition wake_script (busy : bool) X (op : wake_op X) (w : wake_world) : X * wake_world :=
  match op in wake_op X return X * wake_world with
  | Sync f => f w
  | Take j => (tt, with_jobs (tail (ww_jobs w)) w)
  | GetActiveCube => (inr (Some ("cube", "drone")), w)
  | HasPendingEntry _ _ => (inr true, w)
  | HasPendingWork _ => (inr true, w)
  | Connect _ => (inr tt, logged (Talked "connect") w)
  | LoadedThreadIds _ => (inr ["thread-1"], logged (Talked "thread/loaded/list") w)
  | ReadThread _ _ => (inr (Some (a_thread (busy && negb (rs_inFlight (ws_retry (ww_state w)))))), logged (Talked "thread/read") w)
  | StartTurn _ id text => (inr tt, logged (TurnStarted id text) w)
  | CloseClient _ => (tt, logged (Talked "close") w)
  | Jitter => (0, w)
  | Sleep _ => (tt, w)
  | OnSocketDead => (tt, w)
  | OutOfFuel => (tt, w)
  end.

Definition wake_allowed X (op : wake_op X) (w : wake_world) : bool :=
  match op with
  | Take j => bool_decide (head (ww_jobs w) = Some j)
  | OutOfFuel => false
  | _ => true
  end.

Lemma wake_script_act busy X (op : wake_op X) w : wake_allowed X op w = true ->
  wake_act X op w (fst (wake_script busy X op w)) (snd (wake_script busy X op w)).
Proof.
  destruct op; cbn [wake_allowed wake_act wake_script fst snd]; intros Ha; try reflexivity; try discriminate.
  - by destruct (f w).
  - apply bool_decide_eq_true in Ha. destruct (ww_jobs w) as [|j' l] eqn:E; [done|]. cbn in Ha. injection Ha as ->.
    exists [], l. done.
  - split; [lia|reflexivity].
Qed.

Definition a_codex_env : environ :=
  <["BORG_CODEX_REMOTE_WAKE" := "1"]> (<["BORG_CODEX_APP_SERVER_SOCKET" := "/run/codex.sock"]> ∅).
Definition some_wake_deps : wake_deps := WakeDeps None "/work" None true.
Definition passed_deps : wake_deps := WakeDeps (Some a_codex_env) "/work" None true.

(** A wake that finds the thread busy; then the retry loop it leaves. *)
Definition busy_wake : list (prog wake_op unit) :=
  [wakeCodexViaAppServer "reason" a_codex_env some_wake_deps None (Some "entry-1"); drain_process ∅ 2].
Definition its_retry : list (prog wake_op unit) := [retry_process ∅ 3 passed_deps 1000].

Lemma run_moves calls ps w :
  (forall w p, p ∈ calls -> wake_starts ∅ w p) -> all_checked (wake_script true) wake_allowed calls w = true ->
  exists ps', rtc (pool_moves wake_act (wake_starts ∅) wake_env) (ps, w) (ps', run_all (wake_script true) calls w).
Proof. apply run_all_moves. apply wake_script_act. Qed.

Lemma busy_wake_starts w p : p ∈ busy_wake -> wake_starts ∅ w p.
Proof. intros [->|[->|[]%not_elem_of_nil]%elem_of_cons]%elem_of_cons; constructor. Qed.

Lemma its_retry_starts w p : p ∈ its_retry -> wake_starts ∅ w p.
Proof. intros ->%list_elem_of_singleton. constructor. Qed.

Lemma codex_conversations_exclusive_witness :
  exists ps w, reachable ∅ ps w /\ owed (OwedEntry "entry-1") (ww_state w) = true /\ count is_retry (ww_jobs w) <= 1.
Proof.
  destruct (run_moves busy_wake [] (world0 1000 true) busy_wake_starts eq_refl) as (ps & Hr).
  assert (Hreach : reachable ∅ ps (run_all (wake_script true) busy_wake (world0 1000 true))) by (exists 1000, true; exact Hr).
  exists ps, (run_all (wake_script true) busy_wake (world0 1000 true)). split; [exact Hreach|]. split; [reflexivity|].
  exact (proj1 (proj2 (proj2 (proj2 (codex_conversations_exclusive ∅ _ _ Hreach))))).
Defined.

Lemma codex_wake_not_forgotten_witness :
  exists ps w ps' w', reachable ∅ ps w /\ rtc (pool_moves wake_act (wake_starts ∅) wake_env) (ps, w) (ps', w') /\
    owed (OwedEntry "entry-1") (ww_state w) = true /\ owed (OwedEntry "entry-1") (ww_state w') = false /\
    codexWakePathHealthy (Some true) (getCodexDeliveryState (ww_state w)) = None.
Proof.
  destruct (run_moves busy_wake [] (world0 1000 true) busy_wake_starts eq_refl) as (ps & Hr).
  set (w := run_all (wake_script true) busy_wake (world0 1000 true)) in *.
  destruct (run_moves its_retry ps w its_retry_starts eq_refl) as (ps' & Hr').
  assert (Hreach : reachable ∅ ps w) by (exists 1000, true; exact Hr).
  exists ps, w, ps', (run_all (wake_script true) its_retry w). split; [exact Hreach|]. split; [exact Hr'|].
  split; [reflexivity|]. split; [reflexivity|].
  exact (proj1 (codex_wake_not_forgotten ∅ _ _ _ _ (OwedEntry "entry-1") Hreach Hr' eq_refl)).
Defined.

(** ** A request between the end of the drain and its [.finally] *)

(** One process starts, or goes on, for some operations. *)
Lemma go_on n ps i p w : ps !! i = Some p -> advance_allowed (wake_script false) wake_allowed n p w = true ->
  rtc (pool_moves wake_act (wake_starts ∅) wake_env) (ps, w)
    (<[i := (advance (wake_script false) n p w).1]> ps, (advance (wake_script false) n p w).2).
Proof. apply advance_moves. apply wake_script_act. Qed.

Definition first_wake : prog wake_op unit := wakeCodexViaAppServer "first" a_codex_env some_wake_deps None None.
Definition second_wake : prog wake_op unit := wakeCodexViaAppServer "second" a_codex_env some_wake_deps None None.

(** The drain has found the queue empty; only putting the flag down is left. *)
Definition drain_ops : nat := 17.
Definition w1 : wake_world := (advance (wake_script false) 1 first_wake (world0 0 true)).2.
Definition drained : prog wake_op unit * wake_world := advance (wake_script false) drain_ops (drain_process ∅ 3) w1.
Definition w3 : wake_world := (advance (wake_script false) 1 second_wake drained.2).2.
Definition last_state : prog wake_op unit * wake_world := advance (wake_script false) 1 drained.1 w3.

(** A request that comes in between stays in the queue, with no process and no job
    to drain it. *)
Lemma request_left_behind :
  exists ps w, reachable ∅ ps w /\ Forall (fun p => finished p = true) ps /\ ww_jobs w = [] /\
    ws_wakeInFlight (ww_state w) = false /\ length (ws_pending (ww_state w)) = 1%nat.
Proof.
  exists [(advance (wake_script false) 1 first_wake (world0 0 true)).1; last_state.1;
    (advance (wake_script false) 1 second_wake drained.2).1], last_state.2.
  split; [|split; [repeat constructor|split; [reflexivity|split; reflexivity]]].
  exists 0, true.
  eapply rtc_l; [apply (moves_start _ _ _ [] first_wake), starts_wake|].
  etrans; [apply (go_on 1 ([] ++ [first_wake]) 0 first_wake); reflexivity|].
  eapply rtc_l; [apply (moves_start _ _ _ _ (drain_process ∅ 3)), starts_drain|].
  etrans; [apply (go_on drain_ops _ 1 (drain_process ∅ 3)); reflexivity|].
  eapply rtc_l; [apply (moves_start _ _ _ _ second_wake), starts_wake|].
  etrans; [apply (go_on 1 _ 2 second_wake); reflexivity|].
  etrans; [apply (go_on 1 _ 1 drained.1); reflexivity|].
  apply rtc_refl.
Qed.

(** * The retry loop ends

    Run on its own, with whatever answers of the app server and the server, the
    loop of deferred wakes returns after a bounded number of waits, and what it was
    started for is delivered, settled or marked. *)

(** ** Iterating over the entries *)

Lemma set_next_from_spec s i j k : set_next_from s i = Some (j, k) -> (i <= j < i + length s)%nat.
Proof.
  revert i. induction s as [|[e|] s IH]; intros i; cbn; [done|intros [= <- <-]; lia|].
  intros H. apply IH in H. lia.
Qed.

Lemma set_next_spec s i j k : (i <= length s)%nat -> set_next s i = Some (j, k) -> (i <= j < length s)%nat.
Proof. intros Hi H. apply set_next_from_spec in H. rewrite length_drop in H. lia. Qed.

(** ** How often it waits *)

(** At most [n] waits.  The next is the [attempt]th, counted from 0: five seconds
    doubled so many times, but no more than a minute, and the jitter that was drawn
    for it, less than half a second. *)
Fixpoint backs_off {A} (attempt n : nat) (jitter : option Z) (p : prog wake_op A) : Prop :=
  match p with
  | Ret _ | Throw _ => True
  | Vis op k =>
      match op in wake_op X return (X -> prog wake_op A) -> Prop with
      | Jitter => fun k => forall j, 0 <= j < 500 -> backs_off attempt n (Some j) (k j)
      | Sleep ms => fun k =>
          (exists j, jitter = Some j /\ 0 <= j < 500 /\ ms = Z.min (5000 * 2 ^ Z.of_nat attempt) 60000 + j) /\
          match n with O => False | S m => backs_off (S attempt) m None (k tt) end
      | _ => fun k => forall x, backs_off attempt n jitter (k x)
      end k
  end.

(** The parts that do not wait. *)
Fixpoint prompt {A} (p : prog wake_op A) : Prop :=
  match p with
  | Ret _ | Throw _ => True
  | Vis op k => match op with Sleep _ | Jitter => False | _ => True end /\ forall x, prompt (k x)
  end.

Lemma backs_off_prompt {A B} (p : prog wake_op A) (f : A -> prog wake_op B) attempt n jitter :
  prompt p -> (forall a, backs_off attempt n jitter (f a)) -> backs_off attempt n jitter (pbind p f).
Proof.
  intros Hp Hf. induction p as [a|e|X op k IH]; cbn [pbind]; [apply Hf|done|]. destruct Hp as [Hop Hk].
  destruct op; try done; intros x; apply IH, Hk.
Qed.

Lemma prompt_bind {A B} (p : prog wake_op A) (f : A -> prog wake_op B) :
  prompt p -> (forall a, prompt (f a)) -> prompt (pbind p f).
Proof. intros Hp Hf. induction p as [a|e|X op k IH]; cbn; [apply Hf|done|]. destruct Hp as [Hop Hk]. by split; [|intros x; apply IH]. Qed.

Lemma prompt_catch {A} (p : prog wake_op A) h : prompt p -> (forall e, prompt (h e)) -> prompt (pcatch p h).
Proof. intros Hp Hf. induction p as [a|e|X op k IH]; cbn; [done|apply Hf|]. destruct Hp as [Hop Hk]. by split; [|intros x; apply IH]. Qed.

Lemma prompt_attempt {A} (p : prog wake_op A) : prompt p -> prompt (attempt p).
Proof. intros Hp. apply prompt_catch; [by apply prompt_bind|done]. Qed.

Lemma prompt_finally {A} (p : prog wake_op A) q : prompt p -> prompt q -> prompt (pfinally p q).
Proof.
  intros Hp Hq. apply prompt_bind; [by apply prompt_attempt|]. intros r. apply prompt_bind; [done|]. by intros _; destruct r.
Qed.

Lemma prompt_sync f : prompt (sync f).
Proof. done. Qed.
Lemma prompt_query {X} (f : wake_world -> X) : prompt (query f).
Proof. done. Qed.
Lemma prompt_perform {X} (op : wake_op (js_error + X)) :
  match op with Sleep _ | Jitter => False | _ => True end -> prompt (perform op).
Proof. intros Hop. split; [exact Hop|]. by intros []. Qed.

Section Prompt.
Variable process_env : environ.

Lemma prompt_threads sock ids : prompt (read_threads sock ids).
Proof.
  induction ids as [|id ids IH]; [done|]. cbn [read_threads]. apply prompt_bind; [by apply prompt_attempt, prompt_perform|].
  intros x. by apply prompt_bind.
Qed.

Lemma prompt_resolve deps : prompt (resolveFreshCodexWakeTarget process_env deps).
Proof.
  unfold resolveFreshCodexWakeTarget. destruct (codexAppServerSocketFromEnv _); [|done].
  apply prompt_bind; [by apply prompt_perform|]. intros _. apply prompt_finally; [|done].
  apply prompt_bind; [by apply prompt_perform|]. intros ids. apply prompt_bind; [apply prompt_threads|done].
Qed.

Lemma prompt_settle seat id : prompt (settle_entry seat id).
Proof. unfold settle_entry. apply prompt_bind; [by apply prompt_perform|]. by intros []. Qed.

Lemma prompt_prune fuel guarded seat i : prompt (prune fuel guarded seat i).
Proof.
  revert i. induction fuel as [|n IH]; intros i; cbn [prune]; [done|]. apply prompt_bind; [done|]. intros [[j id]|]; [|done].
  apply prompt_bind; [|intros _; apply IH]. destruct guarded; [|apply prompt_settle]. by apply prompt_catch; [apply prompt_settle|].
Qed.

Lemma prompt_retry_body fuel deps : prompt (retry_body process_env fuel deps).
Proof.
  unfold retry_body. apply prompt_bind; [by apply prompt_perform|]. intros [seat|]; [|done].
  apply prompt_bind; [apply prompt_prune|]. intros _. apply prompt_bind; [done|]. intros []; cbn [negb]; [|done].
  apply prompt_bind; [apply prompt_resolve|]. intros [[sock id]|]; [|done]. apply prompt_bind; [done|]. intros _.
  apply prompt_bind; [by apply prompt_perform|]. intros _. apply prompt_finally; [|done].
  apply prompt_bind; [by apply prompt_perform|]. intros t. destruct (is_active t); [done|].
  apply prompt_bind; [apply prompt_prune|]. intros _. apply prompt_bind; [done|]. intros []; cbn [negb]; [|done].
  apply prompt_bind; [by apply prompt_perform|]. done.
Qed.

Lemma retry_waits fuel left attempt deps startedAt :
  backs_off attempt left None (retry_loop process_env fuel left (Z.of_nat attempt) deps startedAt).
Proof.
  revert attempt. induction left as [|n IH]; intros attempt; cbn [retry_loop]; [done|].
  apply backs_off_prompt; [done|]. intros [|]; [done|]. intros j Hj. cbn [pbind]. split.
  - exists j. split; [done|]. split; [done|]. unfold wakeRetryBackoffMs, WAKE_RETRY_BASE_MS, WAKE_RETRY_CAP_MS. by rewrite Z.max_r by lia.
  - apply (backs_off_prompt (Ret tt)); [done|]. intros _. apply backs_off_prompt; [done|]. intros locked. replace (Z.of_nat attempt + 1) with (Z.of_nat (S attempt)) by lia.
    destruct locked; cbn [negb]; [|apply IH]. apply backs_off_prompt; [|intros [|]; [done|apply IH]].
    apply prompt_finally; [|done]. apply prompt_catch; [apply prompt_retry_body|done].
Qed.
End Prompt.

(** ** That it ends

    [w0] is the world the loop starts in. *)
Section Alone.
Variables (process_env : environ) (w0 : wake_world) (fuel : nat).

(** Nothing was added to the entries, and what there was to do at the start is
    still to do unless an answer settled it. *)
Definition pending_or_told (w : wake_world) (new : list wake_event) : Prop :=
  forall o, o <> OwedMark -> owed o (ww_state w0) = true -> owed o (ww_state w) = true \/ exists e, e ∈ new /\ discharges o e = true.

Record underway (w : wake_world) : Prop := {
  uw_length : (length (rs_sourceEntryIds (ws_retry (ww_state w))) < fuel)%nat;
  uw_log : exists new, ww_log w = new ++ ww_log w0 /\ pending_or_told w new
}.

Definition same_work (f : wake_world -> wake_world) : Prop :=
  forall w, ws_retry (ww_state (f w)) = ws_retry (ww_state w) /\ ww_log (f w) = ww_log w.

Lemma underway_same f w : same_work f -> underway w -> underway (f w).
Proof.
  intros Hf [Hl (new & Hlog & Hw)]. destruct (Hf w) as [Hr Hg]. split; [by rewrite Hr|]. exists new. split; [by rewrite Hg|].
  intros o Hne H0. destruct (Hw o Hne H0) as [H|H]; [left|by right]. destruct o; [..|done]; cbn [owed] in *; by rewrite Hr.
Qed.

Lemma underway_logged e w : underway w -> underway (logged e w).
Proof.
  intros [Hl (new & Hlog & Hw)]. split; [done|]. exists (e :: new). split; [cbn; by rewrite Hlog|]. intros o Hne H0.
  destruct (Hw o Hne H0) as [H|(x & Hx & Hs)]; [left; by destruct o|]. right. exists x. split; [by right|done].
Qed.

(** After an answer, what it settles may be dropped. *)
Lemma underway_settled e f w :
  drops_only (fun o => discharges o e = true) f -> (forall w', ww_log (f w') = ww_log w') ->
  (forall w', length (rs_sourceEntryIds (ws_retry (ww_state (f w')))) = length (rs_sourceEntryIds (ws_retry (ww_state w')))) ->
  underway w -> underway (f (logged e w)).
Proof.
  intros Hf Hg Hl [Hlen (new & Hlog & Hw)]. split; [by rewrite Hl|]. exists (e :: new). split; [by rewrite Hg; cbn; rewrite Hlog|].
  intros o Hne H0. destruct (Hw o Hne H0) as [H|(x & Hx & Hs)]; [|right; exists x; split; [by right|done]].
  destruct (Hf (logged e w) o) as [?|Hd]; [by destruct o|by left|]. right. exists e. split; [by left|done].
Qed.

Definition keeps {A} (p : prog wake_op A) : Prop := forall w, underway w -> will wake_act p w (fun _ w' => underway w').

Lemma keeps_ret {A} (a : A) : keeps (Ret a).
Proof. by intros w Hw. Qed.

Lemma keeps_pbind {A B} (p : prog wake_op A) (f : A -> prog wake_op B) : keeps p -> (forall a, keeps (f a)) -> keeps (pbind p f).
Proof. intros Hp Hf w Hw. apply will_bind. eapply will_mono; [by apply Hp|]. intros [a|e] w' Hw'; [by apply Hf|done]. Qed.

Lemma keeps_attempt {A} (p : prog wake_op A) : keeps p -> keeps (attempt p).
Proof. intros Hp w Hw. apply will_attempt. eapply will_mono; [by apply Hp|]. by intros []. Qed.

Lemma keeps_finally {A} (p : prog wake_op A) q : keeps p -> keeps q -> keeps (pfinally p q).
Proof.
  intros Hp Hq w Hw. apply will_finally. eapply will_mono; [by apply Hp|]. intros r w' Hw'.
  eapply will_mono; [by apply Hq|]. by intros [].
Qed.

Lemma keeps_sync f : same_work f -> keeps (sync f).
Proof.
  intros Hf w Hw. apply will_ask; [by eexists _, _|]. intros x w' Ha. cbn in Ha. injection Ha as <- <-. by apply underway_same.
Qed.

Lemma will_query {X} (f : wake_world -> X) w (Q : outcome X -> wake_world -> Prop) : Q (Done (f w)) w -> will wake_act (query f) w Q.
Proof. intros HQ. apply will_ask; [by eexists _, _|]. intros x w' Ha. cbn in Ha. by injection Ha as <- <-. Qed.

(** An awaited call that settles nothing. *)
Lemma keeps_perform {X} (op : wake_op (js_error + X)) :
  (forall w, exists x w', wake_act _ op w x w') ->
  (forall w x w', wake_act _ op w x w' -> w' = w \/ exists e, w' = logged e w) -> keeps (perform op).
Proof.
  intros Hex Hop w Hw. apply will_perform; [apply Hex|]. intros x w' Ha. destruct (Hop w x w' Ha) as [->|(e & ->)]; [done|].
  by apply underway_logged.
Qed.

Ltac calls :=
  apply keeps_perform; [intros w; exists (inl (JsError "failed")); by eexists|intros w x w' Ha; cbn in Ha; eauto].

Lemma keeps_cube : keeps (perform GetActiveCube).
Proof. calls. Qed.
Lemma keeps_connect sock : keeps (perform (Connect sock)).
Proof. calls. Qed.
Lemma keeps_ids sock : keeps (perform (LoadedThreadIds sock)).
Proof. calls. Qed.
Lemma keeps_read sock id : keeps (perform (ReadThread sock id)).
Proof. calls. Qed.

Lemma keeps_close sock : keeps (ask (CloseClient sock)).
Proof.
  intros w Hw. apply will_ask; [exists tt; by eexists|]. intros x w' Ha. cbn in Ha. subst. by apply underway_logged.
Qed.

Lemma keeps_threads sock ids : keeps (read_threads sock ids).
Proof.
  induction ids as [|id ids IH]; [apply keeps_ret|]. cbn [read_threads]. apply keeps_pbind; [apply keeps_attempt, keeps_read|].
  intros x. apply keeps_pbind; [exact IH|]. intros l. apply keeps_ret.
Qed.

Lemma keeps_resolve deps : keeps (resolveFreshCodexWakeTarget process_env deps).
Proof.
  unfold resolveFreshCodexWakeTarget. destruct (codexAppServerSocketFromEnv _); [|apply keeps_ret].
  apply keeps_pbind; [apply keeps_connect|]. intros _. apply keeps_finally; [|apply keeps_close].
  apply keeps_pbind; [apply keeps_ids|]. intros ids. apply keeps_pbind; [apply keeps_threads|]. intros l. apply keeps_ret.
Qed.

Lemma settle_ends seat id L w : underway w -> length (rs_sourceEntryIds (ws_retry (ww_state w))) = L ->
  will wake_act (settle_entry seat id) w (fun _ w' => underway w' /\ length (rs_sourceEntryIds (ws_retry (ww_state w'))) = L).
Proof.
  intros Hw HL. unfold settle_entry. apply will_bind, will_perform; [exists (inl (JsError "failed")); by eexists|].
  intros x w' Ha. cbn in Ha. destruct x as [e|[]]; subst w'; [done|done|].
  apply will_ask; [by eexists _, _|]. intros x w' Ha. cbn in Ha. injection Ha as <- <-.
  split; [|cbn; by rewrite set_delete_length].
  apply (underway_settled (EntrySettled id) (on_state _)); [|done|intros w'; cbn; apply set_delete_length|done].
  intros w' o Ho. destruct (drops_deleted id w' o Ho) as [?| ->]; [by left|right; apply String.eqb_refl].
Qed.

Lemma prune_ends n guarded seat L : forall i w, underway w -> length (rs_sourceEntryIds (ws_retry (ww_state w))) = L ->
  (i <= L < i + n)%nat -> will wake_act (prune n guarded seat i) w (fun _ w' => underway w').
Proof.
  induction n as [|n IH]; intros i w Hw HL Hi; [lia|]. cbn [prune]. apply will_bind, will_query.
  destruct (set_next _ i) as [[j id]|] eqn:E; [|done]. apply set_next_spec in E; [|lia].
  apply will_bind. destruct guarded.
  - apply will_catch. eapply will_mono; [by apply settle_ends|]. intros [a|e] w' [Hw' HL']; apply IH; done || lia.
  - eapply will_mono; [by apply settle_ends|]. intros [a|e] w' [Hw' HL']; [apply IH; done || lia|done].
Qed.

Lemma keeps_prune guarded seat : keeps (prune fuel guarded seat 0).
Proof. intros w Hw. eapply prune_ends; [done|done|]. assert (H := uw_length _ Hw). lia. Qed.

(** An attempt: it ends, and says it is done only where nothing is left to do. *)
Definition attempted (r : outcome bool) (w : wake_world) : Prop :=
  underway w /\ (r = Done true -> has_retry_work (ww_state w) = false).

Lemma attempted_close p sock w :
  will wake_act p w attempted -> will wake_act (pfinally p (ask (CloseClient sock))) w attempted.
Proof.
  intros Hp. apply will_finally. eapply will_mono; [exact Hp|]. intros r w' [Hw' Hr].
  apply will_ask; [exists tt; by eexists|]. intros x w'' Ha. cbn in Ha. subst. split; [by apply underway_logged|exact Hr].
Qed.

Lemma same_work_record result code : same_work (recordInjectionResult result code).
Proof. by intros w. Qed.

Lemma turn_ends sock id w : underway w ->
  will wake_act (pbind (perform (StartTurn sock id CODEX_CATCHUP_PROMPT)) (fun _ =>
    pbind (sync (fun w => markDelivered (recordInjectionResult Delivered None (on_state clear_retry_work w)))) (fun _ => Ret true)))
    w attempted.
Proof.
  intros Hw. apply will_bind, will_perform; [exists (inl (JsError "failed")); by eexists|].
  intros x w' Ha. cbn in Ha. subst w'. destruct x as [e|[]]; [split; [by apply underway_logged|done]|].
  apply will_bind, will_ask; [by eexists _, _|]. intros x w' Ha. cbn in Ha. injection Ha as <- <-.
  split; [|intros _; apply cleared_work].
  apply (underway_settled (TurnStarted id CODEX_CATCHUP_PROMPT) (fun w => markDelivered (recordInjectionResult Delivered None (on_state clear_retry_work w))));
    [|done|intros w'; cbn; apply set_clear_length|done]. intros w' o _. right. apply catchup_discharges.
Qed.

Lemma retry_body_ends deps w : underway w -> will wake_act (retry_body process_env fuel deps) w attempted.
Proof.
  assert (Hcont : forall A (p : prog wake_op A) (f : A -> prog wake_op bool) w, keeps p -> underway w ->
    (forall a w', underway w' -> will wake_act (f a) w' attempted) -> will wake_act (pbind p f) w attempted).
  { intros A p f w1 Hp Hw1 Hf. apply will_bind. eapply will_mono; [by apply Hp|]. intros [a|e] w' Hw'; [by apply Hf|done]. }
  intros Hw. unfold retry_body. apply Hcont; [apply keeps_cube|done|]. intros [seat|] w1 Hw1; [|done].
  apply Hcont; [apply keeps_prune|done|]. intros _ w2 Hw2. apply will_bind, will_query.
  destruct (has_retry_work (ww_state w2)) eqn:E2; cbn [negb]; [|by split].
  apply Hcont; [apply keeps_resolve|done|]. intros [[sock id]|] w3 Hw3; [|done].
  apply Hcont; [by apply keeps_sync|done|]. intros _ w4 Hw4. apply Hcont; [apply keeps_connect|done|]. intros _ w5 Hw5.
  apply attempted_close. apply Hcont; [apply keeps_read|done|]. intros t w6 Hw6. destruct (is_active t).
  { apply Hcont; [apply keeps_sync, same_work_record|done|]. by intros _ w7 Hw7. }
  apply Hcont; [apply keeps_prune|done|]. intros _ w7 Hw7. apply will_bind, will_query.
  destruct (has_retry_work (ww_state w7)) eqn:E7; cbn [negb]; [by apply turn_ends|by split].
Qed.

(** What the loop leaves: nothing to do; and each thing there was to do was settled
    by an answer of its own, or the mark is up. *)
Definition loop_ended (r : outcome unit) (w : wake_world) : Prop :=
  r = Done tt /\ has_retry_work (ww_state w) = false /\
  exists new, ww_log w = new ++ ww_log w0 /\
    (ws_deliveryDeferred (ww_state w) = true \/
     forall o, o <> OwedMark -> owed o (ww_state w0) = true -> exists e, e ∈ new /\ discharges o e = true).

Lemma underway_done w : underway w -> has_retry_work (ww_state w) = false -> loop_ended (Done tt) w.
Proof.
  intros [_ (new & Hlog & Hw)] Hn. split; [done|]. split; [done|]. exists new. split; [done|]. right. intros o Hne H0.
  destruct (Hw o Hne H0) as [H|H]; [|done]. by rewrite (owed_work o _ Hne H) in Hn.
Qed.

Lemma age_out_ends w : underway w -> will wake_act (sync (on_state age_out)) w loop_ended.
Proof.
  intros Hw. apply will_ask; [by eexists _, _|]. intros x w' Ha. cbn in Ha. injection Ha as <- <-. unfold on_state, age_out.
  destruct (has_retry_work (ww_state w)) eqn:E.
  - split; [done|]. split; [cbn; apply cleared_work|]. destruct (uw_log _ Hw) as (new & Hlog & _). exists new. split; [done|]. by left.
  - replace (with_state (ww_state w) w) with w by (by destruct w). by apply underway_done.
Qed.

Lemma retry_loop_ends left attempts deps startedAt : forall w, underway w ->
  will wake_act (retry_loop process_env fuel left attempts deps startedAt) w loop_ended.
Proof.
  revert attempts. induction left as [|n IH]; intros attempts w Hw; cbn [retry_loop]; [by apply age_out_ends|].
  apply will_bind, will_query. destruct (wakeRetryExpired startedAt (ww_now w)); [by apply age_out_ends|].
  apply will_bind, will_ask; [exists 0; eexists; by split|]. intros jitter w1 [_ ->].
  apply will_bind, will_ask; [exists tt; by eexists|]. intros [] w1 Ha. cbn in Ha. subst w1.
  apply will_bind, will_ask; [exists (fst (tryAcquireInjectLock w)), (snd (tryAcquireInjectLock w)); apply surjective_pairing|].
  intros locked w1 Ha. cbn in Ha.
  assert (Hw1 : underway w1).
  { unfold tryAcquireInjectLock in Ha. destruct (ws_injectInFlight (ww_state w)); injection Ha as <- <-; [done|].
    by apply (underway_same (on_state (set_injectInFlight true))). }
  clear Ha. destruct locked; cbn [negb]; [|by apply IH].
  apply will_bind, will_finally, will_catch. eapply will_mono; [by apply retry_body_ends|].
  assert (Hrel : forall r w2, attempted r w2 -> match r with Done _ => True | Failed _ => False end ->
    will wake_act (sync releaseInjectLock) w2 (fun r' w3 => match r' with
      | Done _ => match r with Done a => will wake_act (if a then Ret tt else retry_loop process_env fuel n (attempts + 1) deps startedAt) w3 loop_ended
                  | Failed e => loop_ended (Failed e) w3 end
      | Failed e => loop_ended (Failed e) w3 end)).
  { intros [a|e] w2 [Hw2 Hr] []. apply will_ask; [by eexists _, _|]. intros x w3 Ha. cbn in Ha. injection Ha as <- <-.
    assert (Hw3 : underway (releaseInjectLock w2)) by (by apply (underway_same releaseInjectLock)).
    destruct a; [apply underway_done; [exact Hw3|by apply Hr]|by apply IH]. }
  intros [a|e] w2 Hat; [exact (Hrel (Done a) w2 Hat I)|]. apply will_bind, will_ask; [by eexists _, _|]. intros x w3 Ha. cbn in Ha. injection Ha as <- <-.
  refine (Hrel (Done false) _ _ I). split; [|done]. by apply (underway_same (recordInjectionResult _ _)), Hat.
Qed.
End Alone.

(** C21. The retry loop ends.  Run alone, that is with nothing scheduled meanwhile,
    started with any entries to deliver and with whatever answers and failures of
    the app server and the server, it returns, even if the clock stands still, and
    throws nothing.  It waits at most [maxAttempts] times, and the wait before the
    attempt [k], from 0, is five seconds doubled [k] times, but no more than a
    minute, plus the jitter drawn for it, less than half a second.  It leaves
    nothing to do: each entry it was started for was settled, by the server saying
    that this one is not pending or by the turn that asks for everything unread, and
    a wake without an entry by that turn; or the wake path is marked as owing.  The
    rounds of an iteration over the entries are at most their number and one. *)
Theorem retry_drain_ends process_env w fuel deps startedAt :
  (length (rs_sourceEntryIds (ws_retry (ww_state w))) < fuel)%nat ->
  will wake_act (runRetryDrainLoop process_env fuel deps startedAt) w (loop_ended w) /\
  backs_off 0 (Z.to_nat (default 1000 (wd_maxAttempts deps))) None (runRetryDrainLoop process_env fuel deps startedAt).
Proof.
  intros Hf. change (default 1000) with (default WAKE_RETRY_MAX_ATTEMPTS). unfold runRetryDrainLoop.
  generalize (Z.to_nat (default WAKE_RETRY_MAX_ATTEMPTS (wd_maxAttempts deps))) as left. intros left.
  split; [|exact (retry_waits process_env fuel left 0 deps startedAt)]. apply retry_loop_ends. split; [exact Hf|]. exists [].
  split; [reflexivity|]. intros o _ Ho. left. exact Ho.
Qed.

Lemma retry_drain_ends_witness :
  let w := WakeWorld (set_retry (RetryState true [Some "entry-1"; None; Some "entry-2"] false) initial_wake_state) 0 true [] [] in
  let p := runRetryDrainLoop ∅ 4 (WakeDeps None "/work" (Some 3) false) 0 in
  will wake_act p w (loop_ended w) /\ backs_off 0 3 None p.
Proof. intros w p. exact (retry_drain_ends ∅ w 4 (WakeDeps None "/work" (Some 3) false) 0 (le_n 4)). Defined.
