(* ===== verification/InboxMonitor.v ===== *)
(** * The inbox monitor ([inbox-monitor.ts])

    The process that follows a drone's inbox file and prints one notification per
    entry.  Here are its pure parts - the shape of a line, the memory of lines it
    has printed, the plan made when it arms, the progress of the replay, the
    verdict on a stalled tail - and the handling of one line with what it does in
    order.  Lines are split where the tail splits them, at line feeds. *)

From stdpp Require Import pretty.
From S2P Require Import Prelude JsDate JsonText Sha256 Effects SseParser InboxLine.

Open Scope Z_scope.

(** ** The shape of a line *)

(** One white-space code point at the head; the rest. *)
Definition space_head (s : string) : option string :=
  match s with
  | EmptyString => None
  | String a r1 =>
      if is_ascii_space a then Some r1
      else
        match r1 with
        | EmptyString => None
        | String b r2 =>
            if space2 a b then Some r2
            else match r2 with String c r3 => if space3 a b c then Some r3 else None | EmptyString => None end
        end
  end.

(** [\S*] *)
Fixpoint token (s : string) : string * string :=
  match s with
  | EmptyString => ("", "")
  | String a r => if bool_decide (is_Some (space_head s)) then ("", s) else let (t, rest) := token r in (String a t, rest)
  end.

(** [s.indexOf(c)]: what precedes the first [c], and the rest with it. *)
Fixpoint before_char (c : ascii) (s : string) : option (string * string) :=
  match s with
  | EmptyString => None
  | String a r => if Ascii.eqb a c then Some ("", s) else '(t, rest) ← before_char c r; Some (String a t, rest)
  end.

(** A character the dot does not match: LF, CR, U+2028 and U+2029. *)
Fixpoint has_terminator (s : string) : bool :=
  match s with
  | EmptyString => false
  | String a r =>
      is_lf a || is_cr a ||
      match r with
      | String b (String c _) => Ascii.eqb a "226" && Ascii.eqb b "128" && (Ascii.eqb c "168" || Ascii.eqb c "169")
      | _ => false
      end || has_terminator r
  end.

(** [\d{4}-\d{2}-\d{2}T\d{2}:\d{2}:\d{2}] *)
Definition date_time_shape : list (ascii -> bool) :=
  replicate 4 is_digit ++ [is_dash] ++ replicate 2 is_digit ++ [is_dash] ++ replicate 2 is_digit ++
  [Ascii.eqb "T"] ++ replicate 2 is_digit ++ [Ascii.eqb ":"] ++ replicate 2 is_digit ++ [Ascii.eqb ":"] ++ replicate 2 is_digit.

(** The time at the start, the label, the role in parentheses, a colon, the body:
    the four groups.  Every repetition of the expression ends where its characters
    do, so there is one way to match; the dot of the last one stops at a line
    terminator. *)
(* src/src/inbox-monitor.ts 58-59 ENTRY_LINE_RE *)
Definition ENTRY_LINE_RE (s : string) : option (string * string * string * string) :=
  let (ts, r1) := token s in
  if negb (match_shape date_time_shape (string_take 19 ts)) then None
  else
    _ ← space_head r1;
    let (label, r2) := token (skip_spaces r1) in
    if String.eqb label "" then None
    else
      _ ← space_head r2;
      match skip_spaces r2 with
      | String o r3 =>
          if negb (Ascii.eqb o "(") then None
          else
            '(role, r4) ← before_char ")" r3;
            if String.eqb role "" || negb (starts_with "):" r4) then None
            else
              let body := skip_spaces (string_drop 2 r4) in
              if has_terminator body then None else Some (ts, label, role, body)
      | EmptyString => None
      end.

(* src/src/inbox-monitor.ts 108-114 formatEventLine *)
Definition formatEventLine (inboxLine : string) : option string :=
  '(_, label, role, body) ← ENTRY_LINE_RE inboxLine;
  Some (label +:+ " (" +:+ role +:+ "): " +:+ drop_trailing_spaces body).

Definition is_entry (line : string) : bool := bool_decide (is_Some (ENTRY_LINE_RE line)).

Example entry1 : formatEventLine "2026-07-27T12:34:56.789Z drone-1 (Code Reviewer): [entry_id: e] hello  " =
  Some "drone-1 (Code Reviewer): [entry_id: e] hello".
Proof. reflexivity. Qed.
Example entry2 : formatEventLine "2026-07-27T12:34:56.789Z drone-1 () : hello" = None.
Proof. reflexivity. Qed.
Example entry3 : formatEventLine "a continuation line" = None.
Proof. reflexivity. Qed.

(** ** The memory of printed lines *)

(* src/src/inbox-monitor.ts 61-61 RECENT_EMITTED_LINE_CAP *)
Definition RECENT_EMITTED_LINE_CAP : nat := 1024.

(** The capacity is a positive integer here, so the constructor's check passes. *)
(* src/src/inbox-monitor.ts 69-92 RecentLineDeduper *)
Record deduper := Deduper { dd_cap : nat; dd_seen : gset string; dd_order : list string }.

Definition new_deduper (cap : nat) : deduper := Deduper cap ∅ [].

Definition dd_has (line : string) (d : deduper) : bool := bool_decide (line ∈ dd_seen d).

(** Whether the line is new, and the memory with it.  Lines are not empty. *)
(* src/src/inbox-monitor.ts 83-92 RecentLineDeduper.remember *)
Definition dd_remember (line : string) (d : deduper) : bool * deduper :=
  if dd_has line d then (false, d)
  else
    let order := dd_order d ++ [line] in
    let '(seen, order) := drop_oldest (length order - dd_cap d) (dd_seen d ∪ {[line]}) order in
    (true, Deduper (dd_cap d) seen order).

(** ** Freshness *)

Section Monitor.
Context `{JsDate}.

(* src/src/inbox-monitor.ts 67-67 INBOX_ARM_TIMESTAMP_SKEW_MS *)
Definition INBOX_ARM_TIMESTAMP_SKEW_MS : Z := 5000.

(* src/src/inbox-monitor.ts 332-337 entryTimestampMs *)
Definition entryTimestampMs (line : string) : option Z :=
  '(ts, _, _, _) ← ENTRY_LINE_RE line; date_parse ts.

(** The two times are finite numbers here. *)
(* src/src/inbox-monitor.ts 121-132 isInboxLineAtOrAfterArm *)
Definition isInboxLineAtOrAfterArm (inboxLine : string) (armTimeMs skewMs : Z) : bool :=
  match ENTRY_LINE_RE inboxLine with
  | None => false
  | Some (ts, _, _, _) =>
      if skewMs <? 0 then false
      else match date_parse ts with Some timestampMs => armTimeMs - skewMs <=? timestampMs | None => false end
  end.

(* src/src/inbox-monitor.ts 134-148 formatFreshEventLine *)
Definition formatFreshEventLine (inboxLine : string) (d : deduper) (includeWakeMessage : bool)
    (armTimeMs : option Z) : option string * deduper :=
  match formatEventLine inboxLine with
  | None => (None, d)
  | Some pretty =>
      let fresh := match armTimeMs with
                   | Some t => isInboxLineAtOrAfterArm inboxLine t INBOX_ARM_TIMESTAMP_SKEW_MS
                   | None => true
                   end in
      if negb fresh then (None, d)
      else
        let (new, d') := dd_remember inboxLine d in
        (if new then Some (if includeWakeMessage then formatCubeActivityWakeMessage pretty else pretty) else None, d')
  end.

(** The file's text; [None] when there is no file. *)
(* src/src/inbox-monitor.ts 150-172 seedDeduperFromInboxTail *)
Definition seedDeduperFromInboxTail (inbox : option string) (d : deduper) (maxLines : nat) : deduper :=
  match inbox with
  | None => d
  | Some raw =>
      let lines := drop_empty_last (split_rows raw) in
      foldl (fun d line => if is_entry line then snd (dd_remember line d) else d) d
            (drop (length lines - maxLines) lines)
  end.

(** ** The replay cursor *)

(* src/src/inbox-monitor.ts 195-202 ReplayCursor *)
Record ReplayCursor := Cursor { lineSha256 : option string; lineTs : option string; sinceMs : Z }.

(* src/src/inbox-monitor.ts 226-234 cursorForLine *)
Definition cursorForLine (line : string) (since : Z) : option ReplayCursor :=
  '(ts, _, _, _) ← ENTRY_LINE_RE line;
  Some (Cursor (Some (sha256_hex line)) (Some ts) since).

(** [/^[0-9a-f]{64}$/] *)
(* src/src/inbox-monitor.ts 193-193 SHA256_HEX_RE *)
Definition SHA256_HEX_RE (s : string) : bool :=
  (String.length s =? 64)%nat && string_forallb (fun c => is_digit c || ascii_between 97 102 c) s.

(** [Object.keys(v).sort().join(',')] *)
Definition sorted_keys (fields : list (string * json)) : string :=
  join "," (merge_sort (fun a b => Is_true (string_leb a b)) (map fst fields)).

(** A number that is not written as an integer is not one the program wrote. *)
(* src/src/inbox-monitor.ts 237-254 parseReplayCursor *)
Definition parseReplayCursor (raw : string) : option ReplayCursor :=
  match parse_text raw with
  | Some (JObj fields) =>
      if negb (String.eqb (sorted_keys fields) "line_sha256,line_ts,since_ms,v") then None
      else
        match assoc "v" fields, assoc "since_ms" fields with
        | Some (JNum 1), Some (JNum since) =>
            if negb (is_safe_integer since) || (since <? 0) then None
            else
              match assoc "line_sha256" fields, assoc "line_ts" fields with
              | Some JNull, Some JNull => Some (Cursor None None since)
              | Some (JStr hash), Some (JStr ts) =>
                  if negb (SHA256_HEX_RE hash) then None
                  else match date_parse ts with
                       | Some _ => Some (Cursor (Some hash) (Some ts) since)
                       | None => None
                       end
              | _, _ => None
              end
        | _, _ => None
        end
  | _ => None
  end.

Definition or_null (v : option string) : json := match v with Some s => JStr s | None => JNull end.

(* src/src/inbox-monitor.ts 256-263 serializeReplayCursor *)
Definition serializeReplayCursor (c : ReplayCursor) : string :=
  json_compact (JObj [("v", JNum 1); ("line_sha256", or_null (lineSha256 c)); ("line_ts", or_null (lineTs c));
                      ("since_ms", JNum (sinceMs c))]) +:+ newline.

(** What is at the cursor's path: an entry of a directory. *)
Record cursor_file := CursorFile { cf_regular : bool; cf_mine : bool; cf_mode : Z; cf_text : string }.

(* src/src/inbox-monitor.ts 192-192 CURSOR_MAX_BYTES *)
Definition CURSOR_MAX_BYTES : nat := 1024.

(** The cursor, or why it is refused.  A path that cannot be opened (a symbolic
    link, say) is [inl] of its error code. *)
(* src/src/inbox-monitor.ts 271-300 readReplayCursor *)
Definition readReplayCursor (file : option string + cursor_file) : option ReplayCursor * option string :=
  match file with
  | inl code =>
      if bool_decide (code = Some "ENOENT") then (None, None)
      else (None, Some ("cannot open (" +:+ default "error" code +:+ ")"))
  | inr f =>
      if negb (cf_regular f) then (None, Some "not a regular file")
      else if negb (cf_mine f) then (None, Some "unexpected owner")
      else if negb (Z.land (cf_mode f) 511 =? 384) then (None, Some "unexpected mode")
      else if (CURSOR_MAX_BYTES <? String.length (cf_text f))%nat then (None, Some "too large")
      else match parseReplayCursor (cf_text f) with
           | Some c => (Some c, None)
           | None => (None, Some "malformed")
           end
  end.

(** ** The plan of an arm *)

(* src/src/inbox-monitor.ts 190-190 ARM_REPLAY_CAP *)
Definition ARM_REPLAY_CAP : nat := 20.

(* src/src/inbox-monitor.ts 204-218 ArmReplayPlan *)
Record ArmReplayPlan := Plan {
  history : gset string; replay : list string; omitted : nat;
  cursorAtArm : option ReplayCursor; replaySinceMs : Z }.

(** What lies before the cursor and what after it. *)
(* src/src/inbox-monitor.ts 373-390 planArmReplay *)
Definition before_and_after (entries : list string) (cursor : ReplayCursor) : list string * list string :=
  match lineSha256 cursor with
  | None => ([], entries)
  | Some hash =>
      match list_find (fun line => sha256_hex line = hash) entries with
      | Some (index, _) => (take (S index) entries, drop (S index) entries)
      | None =>
          match date_parse (default "" (lineTs cursor)) with
          | None => ([], [])
          | Some floor =>
              let below line := match entryTimestampMs line with Some t => t <? floor | None => true end in
              (filter (fun line => Is_true (below line)) entries, filter (fun line => ~ Is_true (below line)) entries)
          end
      end
  end.

(** The entries of [after] at or after [since] that are new: not in [known]. *)
(* src/src/inbox-monitor.ts 392-401 planArmReplay *)
Fixpoint replay_candidates (since : Z) (known : gset string) (after : list string) : list string :=
  match after with
  | [] => []
  | line :: rest =>
      match entryTimestampMs line with
      | Some ts =>
          if (ts <? since) || bool_decide (line ∈ known) then replay_candidates since known rest
          else line :: replay_candidates since ({[line]} ∪ known) rest
      | None => replay_candidates since known rest
      end
  end.

(** The lines of the inbox, as the plan splits them. *)
Definition inbox_lines (inboxRaw : string) : list string := drop_empty_last (split_rows inboxRaw).

Definition candidates (inboxRaw : string) (cursor : ReplayCursor) : list string :=
  let (before, after) := before_and_after (filter (fun l => Is_true (is_entry l)) (inbox_lines inboxRaw)) cursor in
  replay_candidates (sinceMs cursor) (list_to_set before) after.

(** The capacity is a positive integer here. *)
(* src/src/inbox-monitor.ts 355-416 planArmReplay *)
Definition planArmReplay (inboxRaw : string) (cursor : option ReplayCursor) (armSinceMs : Z) (cap : nat) : ArmReplayPlan :=
  let lines := inbox_lines inboxRaw in
  match cursor with
  | None =>
      let entries := filter (fun l => Is_true (is_entry l)) lines in
      let at_last := line ← last entries; cursorForLine line armSinceMs in
      Plan (list_to_set lines) [] 0 (Some (default (Cursor None None armSinceMs) at_last)) armSinceMs
  | Some c =>
      let cs := candidates inboxRaw c in
      let omitted := (length cs - cap)%nat in
      let replay := drop omitted cs in
      Plan (list_to_set (filter (fun l => l ∉ replay) lines)) replay omitted None (sinceMs c)
  end.

(** ** The progress of a replay *)

(* src/src/inbox-monitor.ts 429-452 ArmReplayProgress *)
Record ArmReplayProgress := Progress { pr_plan : ArmReplayPlan; pr_armSince : Z; pr_pending : gset string }.

(* src/src/inbox-monitor.ts 432-437 ArmReplayProgress.constructor *)
Definition new_progress (plan : ArmReplayPlan) (armSinceMs : Z) : ArmReplayProgress :=
  Progress plan armSinceMs (list_to_set (replay plan)).

(* src/src/inbox-monitor.ts 439-441 ArmReplayProgress.isReplay *)
Definition isReplay (line : string) (p : ArmReplayProgress) : bool := bool_decide (line ∈ pr_pending p).

(* src/src/inbox-monitor.ts 443-445 ArmReplayProgress.isHistory *)
Definition isHistory (line : string) (p : ArmReplayProgress) : bool := bool_decide (line ∈ history (pr_plan p)).

(* src/src/inbox-monitor.ts 447-451 ArmReplayProgress.handled *)
Definition handled (line : string) (p : ArmReplayProgress) : option ReplayCursor * ArmReplayProgress :=
  let pending := pr_pending p ∖ {[line]} in
  (cursorForLine line (if bool_decide (pending ≠ ∅) then replaySinceMs (pr_plan p) else pr_armSince p),
   Progress (pr_plan p) (pr_armSince p) pending).

(* src/src/inbox-monitor.ts 454-459 formatReplayOmittedLine *)
Definition formatReplayOmittedLine (omitted : nat) : string :=
  "borg-inbox-monitor: " +:+ pretty omitted +:+ " older " +:+ (if (omitted =? 1)%nat then "entry" else "entries") +:+
  " arrived while no monitor was armed and are not shown; drain `borg_read_log unread_only=true`.".

(** ** One arm and one line of the supported form

    The outside effects of the two, in order; what they change in memory is
    returned. *)

Inductive monitor_action :=
| MarkDelivered
| Persist (c : option ReplayCursor)
| Notice (n : nat)
| Emit (line : string).

(** The inbox's text, empty when it could not be read, and the stored cursor. *)
(* src/src/inbox-monitor.ts 1273-1290 main *)
Definition arm (raw : string) (stored : option ReplayCursor) (monitorArmTimeMs : Z) : list monitor_action * ArmReplayProgress :=
  let armSinceMs := monitorArmTimeMs - INBOX_ARM_TIMESTAMP_SKEW_MS in
  let plan := planArmReplay raw stored armSinceMs ARM_REPLAY_CAP in
  (Persist (cursorAtArm plan) :: (if (0 <? omitted plan)%nat then [Notice (omitted plan)] else []),
   new_progress plan armSinceMs).

(* src/src/inbox-monitor.ts 1297-1309 handleStateRootLine *)
Definition handleStateRootLine (p : ArmReplayProgress) (d : deduper) (monitorArmTimeMs : Z) (line : string)
    : list monitor_action * ArmReplayProgress * deduper :=
  match formatEventLine line with
  | None => ([], p, d)
  | Some _ =>
      if isReplay line p then
        let (new, d') := dd_remember line d in
        let (c, p') := handled line p in
        (MarkDelivered :: (if new then [Emit line] else []) ++ [Persist c], p', d')
      else if isHistory line p || dd_has line d then ([MarkDelivered], p, d)
      else
        let d' := snd (dd_remember line d) in
        let (c, p') := handled line p in
        (MarkDelivered :: (if isInboxLineAtOrAfterArm line monitorArmTimeMs INBOX_ARM_TIMESTAMP_SKEW_MS then [Emit line] else []) ++
         [Persist c], p', d')
  end.
End Monitor.

(** The line printed for an entry. *)
(* src/src/inbox-monitor.ts 1311-1313 emit *)
Definition printed (line : string) : option string := formatCubeActivityWakeMessage <$> formatEventLine line.

(** ** A stalled tail *)

(* src/src/inbox-monitor.ts 473-478 TailStallState *)
Record TailStallState := Stall { lastEmittedOffset : Z; grewSince : option Z }.

(* src/src/inbox-monitor.ts 480-483 TailStallVerdict *)
Inductive stall_kind := StallOk | StallRotation | StallRespawn.

(* src/src/inbox-monitor.ts 501-519 evaluateInboxTailStall *)
Definition evaluateInboxTailStall (inboxSize : Z) (state : TailStallState) (nowMs stallThresholdMs : Z) : stall_kind * TailStallState :=
  if inboxSize <? lastEmittedOffset state then (StallRotation, Stall inboxSize None)
  else if inboxSize =? lastEmittedOffset state then (StallOk, Stall (lastEmittedOffset state) None)
  else
    let since := default nowMs (grewSince state) in
    let next := Stall (lastEmittedOffset state) (Some since) in
    (if stallThresholdMs <=? nowMs - since then StallRespawn else StallOk, next).

(* src/src/inbox-monitor.ts 798-799 STALL_THRESHOLD_MS *)
Definition STALL_THRESHOLD_MS : Z := 5 * 30000.

(** Where the tail starts: at the first line, at the end, or past some bytes. *)
Inductive tail_start := TailStart | TailEnd | TailFrom (offset : Z).

(* src/src/inbox-monitor.ts 808-813 tailArgsFor *)
Definition tailArgsFor (inboxPath : string) (from : tail_start) : list string :=
  match from with
  | TailStart => ["-F"; "-n"; "+1"; inboxPath]
  | TailEnd => ["-F"; "-n"; "0"; inboxPath]
  | TailFrom n => ["-F"; "-c"; "+" +:+ pretty (n + 1); inboxPath]
  end.

(** * The plan of an arm and the stored cursor

    What [planArmReplay] selects, and that a stored cursor reads back. *)

Section Plan.
Context `{JsDate}.

(** ** Entries *)

Lemma is_entry_spec line : is_entry line = true <-> is_Some (ENTRY_LINE_RE line).
Proof. unfold is_entry. apply bool_decide_eq_true. Qed.

Lemma timestamp_entry line t : entryTimestampMs line = Some t -> is_entry line = true.
Proof. unfold entryTimestampMs. intros Ht. apply is_entry_spec. destruct (ENTRY_LINE_RE line) as [[[[? ?] ?] ?]|]; [eauto|done]. Qed.

Lemma format_entry line : formatEventLine line = None <-> is_entry line = false.
Proof.
  unfold formatEventLine, is_entry. rewrite bool_decide_eq_false.
  destruct (ENTRY_LINE_RE line) as [[[[? ?] ?] ?]|]; cbn; split; intros Hn; [done| |by intros [? ?]|done].
  destruct Hn. eauto.
Qed.

Lemma fresh_spec line t arm skew : 0 <= skew -> entryTimestampMs line = Some t -> arm - skew <= t ->
  isInboxLineAtOrAfterArm line arm skew = true.
Proof.
  unfold entryTimestampMs, isInboxLineAtOrAfterArm. intros Hs Ht Hle.
  destruct (ENTRY_LINE_RE line) as [[[[ts label] role] body]|]; [|done]. cbn in Ht.
  destruct (skew <? 0) eqn:E; [bool_to_prop; lia|]. rewrite Ht. by apply Z.leb_le.
Qed.

(** ** The candidates *)

Lemma candidates_complete since line t after : forall known,
  line ∈ after -> entryTimestampMs line = Some t -> since <= t -> line ∉ known ->
  line ∈ replay_candidates since known after.
Proof.
  induction after as [|l rest IH]; intros known Hin Ht Hs Hk; [by apply elem_of_nil in Hin|]. cbn [replay_candidates].
  destruct (decide (line = l)) as [<-|Hne].
  - rewrite Ht. rewrite bool_decide_false by done. destruct (t <? since) eqn:E; [bool_to_prop; lia|]. cbn. left.
  - apply elem_of_cons in Hin as [?|Hin]; [done|]. destruct (entryTimestampMs l) as [ts|]; [|by eapply IH].
    case_match; [by eapply IH|]. right. eapply IH; [done..|set_solver].
Qed.

Lemma candidates_sound since line after : forall known, line ∈ replay_candidates since known after ->
  line ∈ after /\ line ∉ known /\ exists t, entryTimestampMs line = Some t /\ since <= t.
Proof.
  induction after as [|l rest IH]; intros known; cbn [replay_candidates]; [by intros ?%elem_of_nil|].
  destruct (entryTimestampMs l) as [ts|] eqn:Ht.
  - destruct (_ || _) eqn:E.
    + intros (? & ? & ?)%IH. split; [by right|done].
    + bool_to_prop. intros [->|(? & ? & ?)%IH]%elem_of_cons; [split; [left|split; eauto]|].
      split; [by right|]. split; [set_solver|done].
  - intros (? & ? & ?)%IH. split; [by right|done].
Qed.

Lemma candidates_nodup since after : forall known, NoDup (replay_candidates since known after).
Proof.
  induction after as [|l rest IH]; intros known; cbn [replay_candidates]; [constructor|].
  destruct (entryTimestampMs l); [|apply IH]. case_match; [apply IH|]. constructor; [|apply IH].
  intros (_ & Hk & _)%candidates_sound. set_solver.
Qed.

Definition entries_of (lines : list string) : list string := filter (fun l => Is_true (is_entry l)) lines.

Lemma elem_of_entries line lines : line ∈ entries_of lines <-> line ∈ lines /\ is_entry line = true.
Proof. unfold entries_of. rewrite list_elem_of_filter. rewrite Is_true_true. tauto. Qed.

Lemma entries_app a b : entries_of (a ++ b) = entries_of a ++ entries_of b.
Proof. apply filter_app. Qed.

(** Where the cursor's line is in the file, what follows it is selected. *)
Lemma selected_after_line a line b c :
  lineSha256 c = Some (sha256_hex line) -> is_entry line = true ->
  Forall (fun l => sha256_hex l ≠ sha256_hex line) (entries_of a) ->
  before_and_after (entries_of (a ++ line :: b)) c = (entries_of a ++ [line], entries_of b).
Proof.
  intros Hc He Ha. unfold before_and_after. rewrite Hc, entries_app.
  assert (Hl : entries_of (line :: b) = line :: entries_of b).
  { unfold entries_of. rewrite filter_cons_True; [done|]. by rewrite He. }
  rewrite Hl, list_find_app_r by (by apply list_find_None). cbn [list_find]. rewrite decide_True by done. cbn.
  change (S (length (entries_of a))) with (1 + length (entries_of a))%nat. rewrite (Nat.add_comm 1).
  assert (E : entries_of a ++ line :: entries_of b = (entries_of a ++ [line]) ++ entries_of b) by (by rewrite <-app_assoc).
  rewrite E, take_app_length', drop_app_length'; [done|rewrite length_app; cbn; lia..].
Qed.

(** Where it is gone, what is at or after its time. *)
Lemma selected_after_time entries c hash floor line t :
  lineSha256 c = Some hash -> Forall (fun l => sha256_hex l ≠ hash) entries ->
  date_parse (default "" (lineTs c)) = Some floor -> line ∈ entries -> entryTimestampMs line = Some t -> floor <= t ->
  line ∈ snd (before_and_after entries c) /\ line ∉ fst (before_and_after entries c).
Proof.
  intros Hc Hf Hd Hin Ht Hle. unfold before_and_after. rewrite Hc. assert (list_find (fun l => sha256_hex l = hash) entries = None) as -> by (by apply list_find_None).
  rewrite Hd. cbn. assert (Hb : ~ Is_true (match entryTimestampMs line with Some t0 => t0 <? floor | None => true end)).
  { rewrite Ht, Is_true_true. intros E. bool_to_prop. lia. }
  rewrite !list_elem_of_filter. tauto.
Qed.

(** ** The text of the inbox *)

Lemma inbox_lines_file l : Forall (fun x => one_line x = true) l -> inbox_lines (file_of l) = l.
Proof. intros Hl. unfold inbox_lines. by rewrite split_rows_file, drop_empty_last_snoc. Qed.

Lemma unbroken_one_line s : has_terminator s = false -> one_line s = true.
Proof.
  unfold one_line, is_break. induction s as [|a r IH]; [done|]. cbn [has_terminator string_forallb]. intros E.
  apply orb_false_iff in E as [E E4]. apply orb_false_iff in E as [E _]. apply orb_false_iff in E as [E1 E2].
  by rewrite E1, E2, IH.
Qed.

(** ** The memory *)

Lemma drop_oldest_subset n order : forall keys, fst (drop_oldest n keys order) ⊆ keys.
Proof. revert order. induction n as [|n IH]; intros [|k rest] keys; cbn; [done..|]. rewrite IH. set_solver. Qed.

Lemma remember_subset line d : dd_seen (snd (dd_remember line d)) ⊆ dd_seen d ∪ {[line]}.
Proof.
  unfold dd_remember. destruct (dd_has line d); cbn; [set_solver|].
  pose proof (drop_oldest_subset (length (dd_order d ++ [line]) - dd_cap d) (dd_order d ++ [line]) (dd_seen d ∪ {[line]})) as Hs.
  by destruct (drop_oldest _ _ _).
Qed.

Lemma remember_new line d : fst (dd_remember line d) = negb (dd_has line d).
Proof. unfold dd_remember. destruct (dd_has line d); [done|]. by destruct (drop_oldest _ _ _). Qed.

(** ** The stored cursor reads back *)

Lemma sorted_keys_written a b c : sorted_keys [("v", JNum 1); ("line_sha256", a); ("line_ts", b); ("since_ms", c)] = "line_sha256,line_ts,since_ms,v".
Proof. vm_compute. reflexivity. Qed.

Definition cursor_value (c : ReplayCursor) : json :=
  JObj [("v", JNum 1); ("line_sha256", or_null (lineSha256 c)); ("line_ts", or_null (lineTs c)); ("since_ms", JNum (sinceMs c))].

Lemma cursor_value_plain c : plain (cursor_value c).
Proof.
  assert (Hn : forall v, plain (or_null v)) by (by intros [s|]). cbn. split; [|by repeat split].
  by apply (bool_decide_unpack _).
Qed.

(** Its members are those the code writes. *)
Definition well_formed (c : ReplayCursor) : Prop :=
  0 <= sinceMs c /\ is_safe_integer (sinceMs c) = true /\
  match lineSha256 c, lineTs c with
  | None, None => True
  | Some hash, Some ts => SHA256_HEX_RE hash = true /\ is_Some (date_parse ts)
  | _, _ => False
  end.

Lemma read_written c : parse_text (serializeReplayCursor c) = Some (cursor_value c).
Proof. apply parse_compact_line, cursor_value_plain. Qed.

Lemma cursor_round_trip c : well_formed c -> parseReplayCursor (serializeReplayCursor c) = Some c.
Proof.
  destruct c as [hash ts since]. intros (H0 & Hs & Hl). cbn [lineSha256 lineTs sinceMs] in *.
  unfold parseReplayCursor. rewrite read_written. unfold cursor_value. cbn [lineSha256 lineTs sinceMs]. rewrite sorted_keys_written.
  cbn. rewrite Hs. destruct (since <? 0) eqn:E; [bool_to_prop; lia|]. cbn.
  destruct hash as [hash|], ts as [ts|]; cbn; try done. destruct Hl as [-> [t ->]]. done.
Qed.

(** What is read is what was written, or nothing. *)
Lemma read_back c c' : parseReplayCursor (serializeReplayCursor c) = Some c' -> c' = c /\ well_formed c.
Proof.
  destruct c as [hash ts since]. unfold parseReplayCursor. rewrite read_written. unfold cursor_value.
  cbn [lineSha256 lineTs sinceMs]. rewrite sorted_keys_written. cbn. unfold well_formed. cbn.
  destruct (is_safe_integer since); [|done]. destruct (since <? 0) eqn:E; [done|]. cbn. bool_to_prop.
  destruct hash as [hash|], ts as [ts|]; cbn; try done.
  - destruct (SHA256_HEX_RE hash); [|done]. cbn. destruct (date_parse ts) eqn:Ed; [|done]. intros [= <-]. eauto.
  - intros [= <-]. eauto.
Qed.

(** ** The size of a stored cursor *)

Lemma pretty_N_go_length k x s : (x < 10 ^ N.of_nat k)%N -> (String.length (pretty_N_go x s) <= k + String.length s)%nat.
Proof.
  revert x s. induction k as [|k IH]; intros x s Hx; (destruct (N.eq_dec x 0%N) as [->|H0]; [rewrite pretty_N_go_0; lia|]).
  - cbn in Hx. lia.
  - rewrite pretty_N_go_step by lia. rewrite Nat2N.inj_succ, N.pow_succ_r' in Hx.
    assert (Hd : (x `div` 10 < 10 ^ N.of_nat k)%N) by (apply N.Div0.div_lt_upper_bound; lia).
    specialize (IH (x `div` 10)%N (String (pretty_N_char (x `mod` 10)) s) Hd). cbn [String.length] in IH. lia.
Qed.

Lemma pretty_length z : 0 <= z <= max_safe_integer -> (String.length (pretty z) <= 16)%nat.
Proof.
  intros Hz. assert (E : pretty z = pretty (Z.to_N z)) by (destruct z as [|p|p]; [done|done|lia]). rewrite E. unfold pretty, pretty_N.
  case_decide; [cbn; lia|]. pose proof (pretty_N_go_length 16 (Z.to_N z) "") as Hl. cbn [String.length] in Hl. rewrite Nat.add_0_r in Hl.
  apply Hl. unfold max_safe_integer in Hz. change (10 ^ N.of_nat 16)%N with 10000000000000000%N. lia.
Qed.

Lemma json_escape_length_le s : (String.length (json_escape s) <= 6 * String.length s)%nat.
Proof.
  induction s as [|c s IH]; [done|]. cbn [json_escape]. rewrite append_length. cbn [String.length].
  assert (String.length (json_escape_char c) <= 6)%nat by (apply Nat.leb_le; destruct c as [[] [] [] [] [] [] [] []]; reflexivity).
  lia.
Qed.

Lemma pad_length w n : String.length (pad w n) = w.
Proof. revert n. induction w as [|w IH]; intros n; [done|]. cbn [pad]. rewrite append_length, IH. cbn. lia. Qed.

Lemma to_iso_length t : four_digit_year t -> String.length (to_iso t) = 24%nat.
Proof.
  unfold four_digit_year, to_iso. destruct (civil_from_days _) as [[y m] d]. intros Hy.
  replace ((0 <=? y) && (y <=? 9999)) with true by (symmetry; apply andb_true_intro; split; apply Z.leb_le; lia).
  rewrite !append_length, !pad_length. reflexivity.
Qed.

(** ** A digest has the expected form *)

Lemma sha256_hex_ok s : SHA256_HEX_RE (sha256_hex s) = true.
Proof. unfold SHA256_HEX_RE. rewrite sha256_hex_length. exact (sha256_hex_lower s). Qed.

(** ** A cursor the monitor wrote is one the next arm can use *)

(** It is for the line of an entry with a time as the client prints it, or for
    none, and its boundary is a time of the clock. *)
Definition usual (c : ReplayCursor) : Prop :=
  0 <= sinceMs c <= max_safe_integer /\
  (lineSha256 c = None /\ lineTs c = None \/
   exists line t, lineSha256 c = Some (sha256_hex line) /\ lineTs c = Some (to_iso t) /\ four_digit_year t).

Lemma usual_well_formed c : usual c -> well_formed c.
Proof.
  intros [Hs Hl]. split; [lia|]. split; [unfold is_safe_integer; apply andb_true_intro; split; apply Z.leb_le; unfold max_safe_integer in *; lia|].
  destruct Hl as [[-> ->]|(line & t & -> & -> & Ht)]; [done|]. split; [apply sha256_hex_ok|]. rewrite date_parse_to_iso by done. eauto.
Qed.

Lemma four_members k1 k2 k3 k4 a b c d :
  json_compact (JObj [(k1, a); (k2, b); (k3, c); (k4, d)]) =
  "{" +:+ ((json_quote k1 +:+ ":" +:+ json_compact a) +:+ "," +:+ (json_quote k2 +:+ ":" +:+ json_compact b) +:+ "," +:+
    (json_quote k3 +:+ ":" +:+ json_compact c) +:+ "," +:+ (json_quote k4 +:+ ":" +:+ json_compact d)) +:+ "}".
Proof. reflexivity. Qed.

Lemma usual_small c : usual c -> (String.length (serializeReplayCursor c) <= CURSOR_MAX_BYTES)%nat.
Proof.
  intros [Hs Hl]. pose proof (pretty_length _ Hs) as Hp. unfold serializeReplayCursor, cursor_value, CURSOR_MAX_BYTES.
  assert (Hq : forall v n, (String.length v <= n)%nat -> (String.length (json_compact (JStr v)) <= 2 + 6 * n)%nat).
  { intros v n Hv. cbn [json_compact]. unfold json_quote. cbn [String.length]. rewrite append_length. cbn [String.length].
    pose proof (json_escape_length_le v). lia. }
  assert (Hhash : (String.length (json_compact (or_null (lineSha256 c))) <= 386)%nat).
  { destruct Hl as [[-> _]|(line & t & -> & _)]; [cbn; lia|]. apply (Hq _ 64%nat). by rewrite sha256_hex_length. }
  assert (Hts : (String.length (json_compact (or_null (lineTs c))) <= 386)%nat).
  { destruct Hl as [[_ ->]|(line & t & _ & -> & Ht)]; [cbn; lia|]. apply (Hq _ 64%nat). rewrite to_iso_length by done. lia. }
  revert Hhash Hts Hp. generalize (or_null (lineSha256 c)) (or_null (lineTs c)). intros a b Ha Hb Hp.
  rewrite four_members, !append_length. change (json_compact (JNum (sinceMs c))) with (pretty (sinceMs c)).
  assert (Hv : String.length (json_quote "v") = 3%nat /\ String.length (json_quote "line_sha256") = 13%nat /\
    String.length (json_quote "line_ts") = 9%nat /\ String.length (json_quote "since_ms") = 10%nat /\
    String.length (json_compact (JNum 1)) = 1%nat) by done.
  destruct Hv as (-> & -> & -> & -> & ->). cbn [String.length newline]. lia.
Qed.
End Plan.
