(* ===== verification/MonitorSafety.v ===== *)
(** * No inbox entry is missed across monitors

    One inbox file, the cursor file, and the monitors that run one after the
    other: lines are appended and trimmed, the clock moves, a monitor arms, reads
    lines, performs its effects in order, may have a cursor write fail, starts its
    tail again when it finds it stalled, and may stop at any point. *)

From S2P Require Import Prelude JsDate JsonText Sha256 Effects SseParser InboxLine InboxMonitor.

Open Scope Z_scope.

Section World.
Context `{JsDate}.

(** A line with the time it was written to the file. *)
Notation row := (string * Z)%type.

(** A monitor: when it armed and what it had read then ([m_seen] lines in all,
    [m_omitted] folded into a notice), how far the tail is, its memory, the file's
    size when the tail last delivered, and the effects it has yet to perform. *)
Record running := Running {
  m_arm : Z; m_seen : nat; m_omitted : list string;
  m_pos : nat; m_progress : ArmReplayProgress; m_deduper : deduper; m_stall : TailStallState;
  m_todo : list monitor_action }.

(** [rows]: everything ever appended, of which the first [trimmed] are gone from
    the file; [skipped]: how many there were at the last arm that could read no
    cursor, or no inbox; [jumped]: the rows a tail started anew was told to begin
    behind. *)
Record world := World {
  rows : list row; trimmed : nat; now : Z; cursor_at : option string + cursor_file;
  emitted : list string; noticed : list string; skipped : nat; jumped : list nat;
  monitor : option running }.

Definition inbox_text (w : world) : string := file_of (map fst (drop (trimmed w) (rows w))).

(** Live activity: an entry no older, when it is written, than the skew the
    monitor allows. *)
Definition live (x : row) : Prop := exists t, entryTimestampMs (fst x) = Some t /\ snd x - INBOX_ARM_TIMESTAMP_SKEW_MS <= t.

(** A new line: it is one physical line; as an entry it is not the hash of an
    earlier one; live entries arrive in the order of their times. *)
Definition can_append (w : world) (line : string) : Prop :=
  has_terminator line = false /\
  (is_entry line = true -> Forall (fun x => sha256_hex (fst x) ≠ sha256_hex line) (rows w)) /\
  (forall x t u, x ∈ rows w -> live x -> entryTimestampMs (fst x) = Some t -> entryTimestampMs line = Some u ->
     now w - INBOX_ARM_TIMESTAMP_SKEW_MS <= u -> t <= u).

Definition set_monitor (m : option running) (w : world) : world :=
  World (rows w) (trimmed w) (now w) (cursor_at w) (emitted w) (noticed w) (skipped w) (jumped w) m.
Definition set_cursor (f : option string + cursor_file) (w : world) : world :=
  World (rows w) (trimmed w) (now w) f (emitted w) (noticed w) (skipped w) (jumped w) (monitor w).
Definition set_todo (l : list monitor_action) (m : running) : running :=
  Running (m_arm m) (m_seen m) (m_omitted m) (m_pos m) (m_progress m) (m_deduper m) (m_stall m) l.
Definition set_pos (p : nat) (m : running) : running :=
  Running (m_arm m) (m_seen m) (m_omitted m) p (m_progress m) (m_deduper m) (m_stall m) (m_todo m).

Definition set_stall (st : TailStallState) (m : running) : running :=
  Running (m_arm m) (m_seen m) (m_omitted m) (m_pos m) (m_progress m) (m_deduper m) st (m_todo m).

(** The size of the inbox in bytes. *)
(* src/src/inbox-monitor.ts 816-822 inboxSizeOf *)
Definition inboxSizeOf (w : world) : Z := Z.of_nat (String.length (inbox_text w)).

(** The lines that begin before the byte [n]: a tail that starts there does not
    deliver them, or not whole; the rest of a line is no entry. *)
Fixpoint lines_before (n : nat) (lines : list string) : nat :=
  match lines, n with
  | line :: rest, S _ => S (lines_before (n - S (String.length line)) rest)
  | _, _ => 0
  end.

Definition row_at (w : world) (offset : Z) : nat :=
  (trimmed w + lines_before (Z.to_nat offset) (map fst (drop (trimmed w) (rows w))))%nat.

(** A file [writeReplayCursor] leaves. *)
Definition written (c : ReplayCursor) : option string + cursor_file := inr (CursorFile true true 384 (serializeReplayCursor c)).

(** The monitor [main] starts with: it reads the inbox ([readable]) or not. *)
Definition armed (w : world) (readable : bool) (t : Z) : world :=
  let stored := fst (readReplayCursor (cursor_at w)) in
  let raw := if readable then inbox_text w else "" in
  let (todo, p) := arm raw stored t in
  let omitted := match stored with
                 | Some c => take (length (candidates raw c) - ARM_REPLAY_CAP) (candidates raw c)
                 | None => []
                 end in
  World (rows w) (trimmed w) (now w) (cursor_at w) (emitted w) (noticed w)
    (match stored, readable with Some _, true => skipped w | _, _ => length (rows w) end) (jumped w)
    (Some (Running t (length (rows w)) omitted (trimmed w) p (new_deduper RECENT_EMITTED_LINE_CAP) (Stall (inboxSizeOf w) None) todo)).

Definition delivered (line : string) (m : running) : running :=
  let '(todo, p, d) := handleStateRootLine (m_progress m) (m_deduper m) (m_arm m) line in
  Running (m_arm m) (m_seen m) (m_omitted m) (S (m_pos m)) p d (m_stall m) todo.

(** One effect and what it leaves; a cursor write may fail, and the stored
    cursor is then removed or kept. *)
Inductive performs : bool -> monitor_action -> world -> running -> world -> Prop :=
| perform_mark w m : performs true MarkDelivered w m w
| perform_emit line w m : performs true (Emit line) w m
    (World (rows w) (trimmed w) (now w) (cursor_at w) (line :: emitted w) (noticed w) (skipped w) (jumped w) (monitor w))
| perform_notice n w m : performs true (Notice n) w m
    (World (rows w) (trimmed w) (now w) (cursor_at w) (emitted w) (m_omitted m ++ noticed w) (skipped w) (jumped w) (monitor w))
| perform_nothing w m : performs true (Persist None) w m w
| perform_persist c w m : performs true (Persist (Some c)) w m (set_cursor (written c) w)
| perform_removed c w m : performs false (Persist (Some c)) w m (set_cursor (inl (Some "ENOENT")) w)
| perform_kept c w m : performs false (Persist (Some c)) w m w.

(** Every delivered line re-anchors the stall detector at the file's size. *)
Definition marked (a : monitor_action) (w : world) (m : running) : running :=
  match a with MarkDelivered => set_stall (Stall (inboxSizeOf w) None) m | _ => m end.

(** The tick of the monitor: a tail that has not delivered for too long although
    the file grew is replaced by one that starts at the size remembered. *)
(* src/src/inbox-monitor.ts 1380-1407 tick *)
Definition monitor_tick (w : world) (m : running) : world :=
  let '(verdict, st) := evaluateInboxTailStall (inboxSizeOf w) (m_stall m) (now w) STALL_THRESHOLD_MS in
  match verdict with
  | StallRespawn =>
      let p := row_at w (lastEmittedOffset st) in
      World (rows w) (trimmed w) (now w) (cursor_at w) (emitted w) (noticed w) (skipped w)
        (seq (m_pos m) (p - m_pos m) ++ jumped w) (Some (set_stall (Stall (lastEmittedOffset st) None) (set_pos p m)))
  | _ => set_monitor (Some (set_stall st m)) w
  end.

(** [true] marks the steps in which nothing fails.  The lines the old tail had
    delivered before it was replaced may come after lines of the new one. *)
Inductive step : bool -> world -> world -> Prop :=
| step_append w line : can_append w line ->
    step true w (World (rows w ++ [(line, now w)]) (trimmed w) (now w) (cursor_at w) (emitted w) (noticed w) (skipped w) (jumped w) (monitor w))
| step_trim w n : (trimmed w <= n <= length (rows w))%nat ->
    step true w (World (rows w) n (now w) (cursor_at w) (emitted w) (noticed w) (skipped w) (jumped w) (monitor w))
| step_tick w t : now w <= t ->
    step true w (World (rows w) (trimmed w) t (cursor_at w) (emitted w) (noticed w) (skipped w) (jumped w) (monitor w))
| step_arm w (readable : bool) t : monitor w = None -> INBOX_ARM_TIMESTAMP_SKEW_MS <= t <= now w -> step readable w (armed w readable t)
| step_deliver w m x : monitor w = Some m -> m_todo m = [] -> (trimmed w <= m_pos m)%nat ->
    rows w !! m_pos m = Some x -> step true w (set_monitor (Some (delivered (fst x) m)) w)
| step_check w m : monitor w = Some m -> m_todo m = [] -> step true w (monitor_tick w m)
| step_gone w m : monitor w = Some m -> (m_pos m < trimmed w)%nat \/ m_pos m ∈ jumped w /\ (m_pos m < length (rows w))%nat -> step true w (set_monitor (Some (set_pos (S (m_pos m)) m)) w)
| step_rewind w m p : monitor w = Some m -> (p <= m_pos m)%nat -> step true w (set_monitor (Some (set_pos p m)) w)
| step_perform w m b a rest w' : monitor w = Some m -> m_todo m = a :: rest -> performs b a w m w' ->
    step b w (set_monitor (Some (set_todo rest (marked a w m))) w')
| step_stop w : step true w (set_monitor None w).

Definition moves (w w' : world) : Prop := exists b, step b w w'.

(** Nothing written, nothing announced, no monitor; any cursor file that cannot
    be used. *)
Definition initial (w : world) : Prop :=
  rows w = [] /\ trimmed w = 0%nat /\ fst (readReplayCursor (cursor_at w)) = None /\ skipped w = 0%nat /\ jumped w = [] /\ monitor w = None.

(** ** The invariant *)

(** An entry nothing has been said of. *)
Definition missed (w : world) (i : nat) (x : row) : Prop :=
  rows w !! i = Some x /\ live x /\ (trimmed w <= i)%nat /\ (skipped w <= i)%nat /\ i ∉ jumped w /\
  fst x ∉ emitted w /\ fst x ∉ noticed w.

(** The same when the effects under way are counted as done. *)
Definition uncovered (w : world) (m : running) (i : nat) (x : row) : Prop :=
  missed w i x /\ Emit (fst x) ∉ m_todo m /\ (forall n, Notice n ∈ m_todo m -> fst x ∉ m_omitted m).

Record rows_ok (w : world) : Prop := {
  ro_unbroken i x : rows w !! i = Some x -> has_terminator (fst x) = false /\ snd x <= now w;
  ro_arrival i j x y : (i < j)%nat -> rows w !! i = Some x -> rows w !! j = Some y -> snd x <= snd y;
  ro_hash i j x y : (i < j)%nat -> rows w !! i = Some x -> rows w !! j = Some y -> is_entry (fst y) = true ->
    sha256_hex (fst x) ≠ sha256_hex (fst y);
  ro_times i j x y t u : (i < j)%nat -> rows w !! i = Some x -> rows w !! j = Some y -> live x -> live y ->
    entryTimestampMs (fst x) = Some t -> entryTimestampMs (fst y) = Some u -> t <= u;
  ro_trimmed : (trimmed w <= length (rows w))%nat;
  ro_skipped : (skipped w <= length (rows w))%nat
}.

(** Resuming at the cursor [c] finds everything in [U]. *)
Definition covers (w : world) (U : nat -> row -> Prop) (c : ReplayCursor) : Prop :=
  sinceMs c <= now w - INBOX_ARM_TIMESTAMP_SKEW_MS /\
  (forall i x t, U i x -> entryTimestampMs (fst x) = Some t -> sinceMs c <= t) /\
  match lineSha256 c with
  | None => True
  | Some hash => exists j y, rows w !! j = Some y /\ sha256_hex (fst y) = hash /\ is_entry (fst y) = true /\
      default "" (lineTs c) = default "" (fst ∘ fst ∘ fst <$> ENTRY_LINE_RE (fst y)) /\
      forall i x, U i x -> (j < i)%nat
  end.

Record monitor_ok (w : world) (m : running) : Prop := {
  mo_seen : (m_seen m <= length (rows w))%nat;
  mo_pos : (m_pos m <= length (rows w))%nat;
  mo_arm : m_arm m <= now w /\ pr_armSince (m_progress m) = m_arm m - INBOX_ARM_TIMESTAMP_SKEW_MS;
  mo_later i x : rows w !! i = Some x -> (m_seen m <= i)%nat -> m_arm m <= snd x;
  mo_pending i x : uncovered w m i x -> (i < m_seen m)%nat -> fst x ∈ pr_pending (m_progress m);
  mo_read i x : uncovered w m i x -> (m_pos m <= i)%nat;
  mo_fresh i x : uncovered w m i x -> fst x ∉ dd_seen (m_deduper m);
  mo_known l : l ∈ dd_seen (m_deduper m) -> exists i x, rows w !! i = Some x /\ fst x = l;
  mo_history l : l ∈ history (pr_plan (m_progress m)) -> exists i x, (i < m_seen m)%nat /\ rows w !! i = Some x /\ fst x = l;
  mo_since : replaySinceMs (pr_plan (m_progress m)) <= now w - INBOX_ARM_TIMESTAMP_SKEW_MS;
  mo_since_old i x t : uncovered w m i x -> entryTimestampMs (fst x) = Some t -> replaySinceMs (pr_plan (m_progress m)) <= t;
  mo_todo c pre post : m_todo m = pre ++ Persist (Some c) :: post -> post = [] /\ covers w (uncovered w m) c
}.

Record world_ok (w : world) : Prop := {
  wo_rows : rows_ok w;
  wo_cursor c : fst (readReplayCursor (cursor_at w)) = Some c -> covers w (missed w) c;
  wo_monitor m : monitor w = Some m -> monitor_ok w m
}.

(** ** What the steps keep *)

(** Fewer rows to cover. *)
Lemma covers_mono w w' (U U' : nat -> row -> Prop) c :
  covers w U c -> now w <= now w' -> (forall j y, rows w !! j = Some y -> rows w' !! j = Some y) ->
  (forall i x, U' i x -> U i x \/ (length (rows w) <= i)%nat /\ live x /\ now w <= snd x) ->
  covers w' U' c.
Proof.
  intros (Hn & Hs & Hl) Hnow Hr HU. split; [lia|]. split.
  - intros i x t HU' Ht. destruct (HU i x HU') as [Hu|(_ & (t' & Ht' & Hle) & Ha)]; [eauto|]. simplify_eq. lia.
  - destruct (lineSha256 c) as [hash|]; [|done]. destruct Hl as (j & y & Hj & Hh & He & Ht & Hb).
    exists j, y. repeat split; [auto..|]. intros i x HU'. destruct (HU i x HU') as [Hu|(Hlen & _)]; [eauto|].
    apply lookup_lt_Some in Hj. lia.
Qed.

Lemma uncovered_missed w m i x : uncovered w m i x -> missed w i x.
Proof. by intros [? _]. Qed.

Lemma missed_entry w i x : missed w i x -> rows w !! i = Some x /\ is_entry (fst x) = true /\ live x.
Proof. intros (Hx & Hl & _). split; [done|]. split; [|done]. destruct Hl as (t & Ht & _). by eapply timestamp_entry. Qed.

(** An entry's line is at one place. *)
Lemma row_unique w i j x y : rows_ok w -> rows w !! i = Some x -> rows w !! j = Some y ->
  is_entry (fst x) = true -> fst x = fst y -> i = j.
Proof.
  intros Hr Hi Hj He E. destruct (lt_eq_lt_dec i j) as [[Hlt|?]|Hlt]; [|done|].
  - exfalso. rewrite E in He. apply (ro_hash w Hr i j x y Hlt Hi Hj He). by rewrite E.
  - exfalso. apply (ro_hash w Hr j i y x Hlt Hj Hi He). by rewrite E.
Qed.

(** A monitor whose world and duties shrink. *)
Lemma monitor_shrinks w w' m m' :
  monitor_ok w m -> rows w' = rows w -> now w <= now w' ->
  m_seen m' = m_seen m -> m_arm m' = m_arm m -> m_progress m' = m_progress m -> m_deduper m' = m_deduper m ->
  (m_pos m' <= length (rows w))%nat ->
  (forall i x, uncovered w' m' i x -> uncovered w m i x /\ (m_pos m' <= i)%nat) ->
  (exists pre, m_todo m = pre ++ m_todo m') ->
  monitor_ok w' m'.
Proof.
  intros Hm Hr Hn E1 E2 E3 E4 Hp HU [pre Hpre]. destruct Hm.
  constructor; rewrite ?Hr, ?E1, ?E2, ?E3, ?E4; try done.
  - destruct mo_arm0. split; [lia|done].
  - intros i x Hu. destruct (HU i x Hu). eauto.
  - intros i x Hu. by destruct (HU i x Hu).
  - intros i x Hu. destruct (HU i x Hu). eauto.
  - lia.
  - intros i x t Hu. destruct (HU i x Hu). eauto.
  - intros c pre' post Et. destruct (mo_todo0 c (pre ++ pre') post) as [-> Hc]; [by rewrite Hpre, Et, app_assoc|].
    split; [done|]. eapply covers_mono; [exact Hc|done|by rewrite Hr|]. intros i x Hu. left. by apply HU.
Qed.

(** Nothing is appended, and nothing that has been said is unsaid. *)
Record grows (w w' : world) : Prop := {
  gr_rows : rows w' = rows w;
  gr_now : now w <= now w';
  gr_trimmed : (trimmed w <= trimmed w' <= length (rows w))%nat;
  gr_skipped : (skipped w <= skipped w' <= length (rows w))%nat;
  gr_jumped i : i ∈ jumped w -> i ∈ jumped w';
  gr_emitted l : l ∈ emitted w -> l ∈ emitted w';
  gr_noticed l : l ∈ noticed w -> l ∈ noticed w'
}.

Lemma grows_missed w w' i x : grows w w' -> missed w' i x -> missed w i x.
Proof. unfold missed. intros [-> Hn Ht Hs Hj He Ho] (H1 & H2 & H3 & H4 & H7 & H5 & H6). repeat split; [done..|lia|lia|auto|auto|auto]. Qed.

Lemma grows_rows_ok w w' : grows w w' -> rows_ok w -> rows_ok w'.
Proof.
  intros Hg Hr. destruct Hr. constructor; rewrite ?(gr_rows _ _ Hg); eauto.
  - intros i x Hi. apply ro_unbroken0 in Hi as [? ?]. split; [done|]. pose proof (gr_now _ _ Hg). lia.
  - apply Hg.
  - apply Hg.
Qed.

Lemma grows_covers w w' c : grows w w' -> covers w (missed w) c -> covers w' (missed w') c.
Proof.
  intros Hg Hc. eapply covers_mono; [exact Hc|apply Hg|by rewrite (gr_rows _ _ Hg)|].
  intros i x Hm. left. by eapply grows_missed.
Qed.

Lemma grows_ok w w' m m' : grows w w' -> world_ok w -> monitor w = Some m -> monitor w' = Some m' ->
  (forall c, fst (readReplayCursor (cursor_at w')) = Some c -> covers w' (missed w') c) ->
  m_seen m' = m_seen m -> m_arm m' = m_arm m -> m_progress m' = m_progress m -> m_deduper m' = m_deduper m ->
  (m_pos m' <= length (rows w))%nat ->
  (forall i x, uncovered w' m' i x -> uncovered w m i x /\ (m_pos m' <= i)%nat) ->
  (exists pre, m_todo m = pre ++ m_todo m') ->
  world_ok w'.
Proof.
  intros Hg Hw Em Em' Hc E1 E2 E3 E4 Hp HU Ht. constructor; [eapply grows_rows_ok; [done|apply Hw]|done|].
  intros m1 Em1. rewrite Em' in Em1. injection Em1 as <-.
  eapply monitor_shrinks; [by apply (wo_monitor w Hw)|apply Hg|apply Hg|done..].
Qed.

(** The same monitor in a world that has grown. *)
Lemma grows_same w w' : grows w w' -> world_ok w -> monitor w' = monitor w -> cursor_at w' = cursor_at w -> world_ok w'.
Proof.
  intros Hg Hw Em Ec.
  assert (Hc : forall c, fst (readReplayCursor (cursor_at w')) = Some c -> covers w' (missed w') c).
  { intros c. rewrite Ec. intros Hc. eapply grows_covers; [done|]. by apply (wo_cursor w Hw). }
  destruct (monitor w) as [m|] eqn:E.
  - pose proof (wo_monitor w Hw m E) as Hm. eapply grows_ok; [done..|apply Hm| |by exists []].
    intros i x (H1 & H2). assert (Hu : uncovered w m i x) by (split; [by eapply grows_missed|done]).
    split; [done|]. by eapply mo_read.
  - constructor; [eapply grows_rows_ok; [done|apply Hw]|done|]. intros m. by rewrite Em.
Qed.

Lemma set_monitor_grows m w : rows_ok w -> grows w (set_monitor m w).
Proof. intros Hr. pose proof (ro_trimmed w Hr). pose proof (ro_skipped w Hr). constructor; cbn; auto; lia. Qed.

Lemma trim_ok w n : (trimmed w <= n <= length (rows w))%nat -> world_ok w ->
  world_ok (World (rows w) n (now w) (cursor_at w) (emitted w) (noticed w) (skipped w) (jumped w) (monitor w)).
Proof. intros Hn Hw. eapply (grows_same w); [|done..]. pose proof (ro_skipped _ (wo_rows w Hw)). constructor; cbn; auto; lia. Qed.

Lemma tick_ok w t : now w <= t -> world_ok w ->
  world_ok (World (rows w) (trimmed w) t (cursor_at w) (emitted w) (noticed w) (skipped w) (jumped w) (monitor w)).
Proof.
  intros Ht Hw. eapply (grows_same w); [|done..]. pose proof (ro_trimmed _ (wo_rows w Hw)).
  pose proof (ro_skipped _ (wo_rows w Hw)). constructor; cbn; auto; lia.
Qed.

Lemma stop_ok w : world_ok w -> world_ok (set_monitor None w).
Proof.
  intros Hw. assert (Hg := set_monitor_grows None w (wo_rows w Hw)). constructor; [eapply grows_rows_ok; [done|apply Hw]| |done].
  intros c Hc. eapply grows_covers; [done|]. by apply (wo_cursor w Hw).
Qed.

(** The tail is elsewhere in the file, and what it does not read is given up. *)
Lemma placed_ok w m p st j : world_ok w -> monitor w = Some m -> (p <= length (rows w))%nat -> (forall i, i ∈ jumped w -> i ∈ j) ->
  (forall i, (trimmed w <= i)%nat -> i ∉ j -> (m_pos m <= i)%nat -> (p <= i)%nat) ->
  world_ok (World (rows w) (trimmed w) (now w) (cursor_at w) (emitted w) (noticed w) (skipped w) j (Some (set_stall st (set_pos p m)))).
Proof.
  intros Hw Em Hp Hj Hor. set (w' := World _ _ _ _ _ _ _ _ _). pose proof (wo_monitor w Hw m Em) as Hm.
  assert (Hg : grows w w').
  { pose proof (ro_trimmed w (wo_rows w Hw)). pose proof (ro_skipped w (wo_rows w Hw)). constructor; cbn; auto; lia. }
  eapply grows_ok; [done..| | | | | | | |by exists []]; [|done..|].
  - intros c Hc. eapply grows_covers; [done|]. by apply (wo_cursor w Hw).
  - intros i x [Hmi Hrest]. assert (Hu : uncovered w m i x) by (split; [by eapply grows_missed|exact Hrest]). split; [done|].
    pose proof (mo_read _ _ Hm i x Hu). destruct Hmi as (_ & _ & Ht & _ & Hn & _). by apply Hor.
Qed.

Lemma set_stall_same m : set_stall (m_stall m) m = m.
Proof. by destruct m. Qed.

Lemma moved_ok w m p : world_ok w -> monitor w = Some m -> (p <= length (rows w))%nat ->
  (p <= m_pos m \/ p <= trimmed w \/ p = S (m_pos m) /\ m_pos m ∈ jumped w)%nat -> world_ok (set_monitor (Some (set_pos p m)) w).
Proof.
  intros Hw Em Hp Hor. apply (placed_ok w m p (m_stall m) (jumped w)); [done..|]. intros i Ht Hn Hi.
  destruct Hor as [?|[?|[-> Hin]]]; [lia|lia|]. destruct (decide (i = m_pos m)) as [->|]; [done|lia].
Qed.

Lemma lines_before_length n lines : (lines_before n lines <= length lines)%nat.
Proof. revert n. induction lines as [|l lines IH]; intros [|n]; cbn; [lia..|]. specialize (IH (n - String.length l)%nat). lia. Qed.

Lemma row_at_length w offset : rows_ok w -> (row_at w offset <= length (rows w))%nat.
Proof.
  intros Hr. unfold row_at. pose proof (lines_before_length (Z.to_nat offset) (map fst (drop (trimmed w) (rows w)))) as Hl.
  rewrite length_map, length_drop in Hl. pose proof (ro_trimmed w Hr). lia.
Qed.

Lemma check_ok w m : world_ok w -> monitor w = Some m -> world_ok (monitor_tick w m).
Proof.
  intros Hw Em. pose proof (wo_monitor w Hw m Em) as Hm.
  assert (Hkeep : forall st, world_ok (set_monitor (Some (set_stall st m)) w)).
  { intros st. replace (set_stall st m) with (set_stall st (set_pos (m_pos m) m)) by (by destruct m).
    apply (placed_ok w m (m_pos m) st (jumped w)); [done|done|apply Hm|done|done]. }
  unfold monitor_tick. destruct (evaluateInboxTailStall _ _ _ _) as [[] st]; [by apply Hkeep..|].
  apply placed_ok; [done|done|by apply row_at_length, Hw|intros i Hi; apply elem_of_app; by right|].
  intros i _ Hn Hi. destruct (decide (row_at w (lastEmittedOffset st) <= i)%nat) as [?|Hlt]; [done|]. exfalso. apply Hn, elem_of_app. left.
  apply elem_of_seq. lia.
Qed.

(** ** The effects *)

Lemma read_written_cursor c c' : fst (readReplayCursor (written c)) = Some c' -> c' = c /\ well_formed c.
Proof.
  unfold readReplayCursor, written. cbn [cf_regular cf_mine cf_mode cf_text negb].
  change (negb (Z.land 384 511 =? 384)) with false. cbv iota. destruct (CURSOR_MAX_BYTES <? _)%nat; [done|].
  destruct (parseReplayCursor _) as [c1|] eqn:E; [|done]. cbn [fst]. intros [= <-]. by apply read_back. 
Qed.

Lemma marked_stall a w m : exists st, marked a w m = set_stall st m.
Proof. destruct a; [by eexists|exists (m_stall m); by rewrite set_stall_same..]. Qed.

Lemma perform_ok w m b a rest w' : world_ok w -> monitor w = Some m -> m_todo m = a :: rest -> performs b a w m w' ->
  world_ok (set_monitor (Some (set_todo rest (marked a w m))) w').
Proof.
  intros Hw Em Et Hp. destruct (marked_stall a w m) as [st ->]. pose proof (wo_monitor w Hw m Em) as Hm. pose proof (ro_trimmed _ (wo_rows w Hw)) as Htr.
  pose proof (ro_skipped _ (wo_rows w Hw)) as Hsk. assert (Hg : grows w (set_monitor (Some (set_todo rest (set_stall st m))) w')).
  { destruct Hp; constructor; cbn; try done; try lia; set_solver. }
  assert (HU : forall i x, uncovered (set_monitor (Some (set_todo rest (set_stall st m))) w') (set_todo rest (set_stall st m)) i x ->
             uncovered w m i x /\ (m_pos m <= i)%nat).
  { intros i x (Hmi & He & Hno). assert (Hu : uncovered w m i x).
    - split; [by eapply grows_missed|]. cbn in He, Hno. rewrite Et. destruct Hmi as (_ & _ & _ & _ & _ & He' & Hn').
      inversion Hp; subst; cbn in He', Hn'; (split; [set_solver|]); intros k; rewrite elem_of_cons; intros [Ek|Ek]; try done; try (by eapply Hno).
      set_solver.
    - split; [done|]. by eapply mo_read. }
  eapply grows_ok; [done..| | | | | |apply Hm|exact HU|by exists [a]]; [|done..].
  intros c Hc. assert (Hold : fst (readReplayCursor (cursor_at w)) = Some c -> covers w (missed w) c) by apply Hw.
  inversion Hp; subst; cbn in Hc; try (eapply grows_covers; [done|]; by apply Hold).
  - apply read_written_cursor in Hc as [-> _]. destruct (mo_todo _ _ Hm c0 [] rest) as [-> Hcov]; [by rewrite Et|].
    eapply covers_mono; [exact Hcov|apply Hg|by rewrite (gr_rows _ _ Hg)|].
    intros i x Hmi. left. apply HU. split; [done|]. cbn. split; [by intros ?%elem_of_nil|]. by intros n ?%elem_of_nil.
Qed.

(** ** A new line *)

Definition appended (w : world) (line : string) : world :=
  World (rows w ++ [(line, now w)]) (trimmed w) (now w) (cursor_at w) (emitted w) (noticed w) (skipped w) (jumped w) (monitor w).

Lemma lookup_appended w line i x : rows (appended w line) !! i = Some x ->
  rows w !! i = Some x \/ i = length (rows w) /\ x = (line, now w).
Proof.
  cbn. intros [Hi|[Hlen Hi]]%lookup_app_Some; [by left|right]. apply list_lookup_singleton_Some in Hi as [? <-]. split; [lia|done].
Qed.

Lemma append_rows_ok w line : rows_ok w -> can_append w line -> rows_ok (appended w line).
Proof.
  intros Hr (Hb & Hh & Ht). constructor.
  - intros i x [Hi|[-> ->]]%lookup_appended; [by apply (ro_unbroken w Hr) in Hi|]. cbn. split; [done|lia].
  - intros i j x y Hlt Hi Hj. apply lookup_appended in Hj as [Hj|[-> ->]]; apply lookup_appended in Hi as [Hi|[Ei ->]].
    + by eapply ro_arrival.
    + apply lookup_lt_Some in Hj. lia.
    + cbn. by apply (ro_unbroken w Hr) in Hi as [_ ?].
    + lia.
  - intros i j x y Hlt Hi Hj He. apply lookup_appended in Hj as [Hj|[-> ->]]; apply lookup_appended in Hi as [Hi|[Ei ->]].
    + by eapply ro_hash.
    + apply lookup_lt_Some in Hj. lia.
    + cbn in He |- *. specialize (Hh He). rewrite Forall_forall in Hh. eapply Hh, list_elem_of_lookup_2, Hi.
    + lia.
  - intros i j x y t u Hlt Hi Hj Hlx Hly Htx Hty. apply lookup_appended in Hj as [Hj|[-> ->]]; apply lookup_appended in Hi as [Hi|[Ei ->]].
    + by eapply (ro_times w Hr i j x y).
    + apply lookup_lt_Some in Hj. lia.
    + destruct Hly as (u' & Hu' & Hle). cbn in Hu', Hle, Hty. rewrite Hty in Hu'. injection Hu' as <-.
      eapply Ht; [eapply list_elem_of_lookup_2, Hi|done..].
    + lia.
  - cbn. rewrite length_app. pose proof (ro_trimmed w Hr). lia.
  - cbn. rewrite length_app. pose proof (ro_skipped w Hr). lia.
Qed.

Lemma appended_missed w line i x : missed (appended w line) i x ->
  missed w i x \/ i = length (rows w) /\ x = (line, now w) /\ live x.
Proof. intros ([Hi|[-> ->]]%lookup_appended & Hl & Hrest); [left|right]; done. Qed.

Lemma append_ok w line : can_append w line -> world_ok w -> world_ok (appended w line).
Proof.
  intros Hcan Hw. pose proof (wo_rows w Hw) as Hr. pose proof (append_rows_ok w line Hr Hcan) as Hr'.
  assert (Hkeep : forall j y, rows w !! j = Some y -> rows (appended w line) !! j = Some y).
  { intros j y Hj. by apply lookup_app_l_Some. }
  constructor; [done| |].
  - intros c Hc. eapply covers_mono; [by apply (wo_cursor w Hw)|cbn; lia|done|].
    intros i x [?|(-> & -> & ?)]%appended_missed; [by left|right]. split; [lia|]. split; [done|cbn; lia].
  - intros m Em. pose proof (wo_monitor w Hw m Em) as Hm.
    assert (HU : forall i x, uncovered (appended w line) m i x ->
              uncovered w m i x \/ (length (rows w) <= i)%nat /\ live x /\ now w <= snd x).
    { intros i x [[Hmi|(-> & -> & Hl)]%appended_missed Hrest]; [by left|right]. split; [lia|]. split; [done|cbn; lia]. }
    destruct Hm. constructor; try done.
    + cbn. rewrite length_app. lia.
    + cbn. rewrite length_app. lia.
    + intros i x Hi Hle. apply lookup_appended in Hi as [Hi|[-> ->]]; [by eapply mo_later0|]. cbn. lia.
    + intros i x Hu Hlt. destruct (HU i x Hu) as [?|(? & _)]; [by eapply mo_pending0|]. lia.
    + intros i x Hu. destruct (HU i x Hu) as [?|(? & _)]; [by eapply mo_read0|]. lia.
    + intros i x Hu. destruct (HU i x Hu) as [?|(Hi & _)]; [by eapply mo_fresh0|].
      intros (j & y & Hj & E)%mo_known0. apply uncovered_missed, missed_entry in Hu as (Hx & He & _).
      assert (i = j) as ->; [|apply lookup_lt_Some in Hj; lia]. eapply (row_unique (appended w line)); eauto.
    + intros l (j & y & Hj & E)%mo_known0. eauto.
    + intros l (j & y & Hlt & Hj & E)%mo_history0. eauto 6.
    + intros i x t Hu Ht. destruct (HU i x Hu) as [?|(_ & (t' & Ht' & Hle) & Hn)]; [by eapply mo_since_old0|].
      rewrite Ht in Ht'. injection Ht' as <-. lia.
    + intros c pre post Et. destruct (mo_todo0 c pre post Et) as [-> Hc]. split; [done|].
      eapply covers_mono; [exact Hc|cbn; lia|done|done].
Qed.

(** ** One line delivered *)

(** What a line is answered with ends with the write of its cursor, if there is
    one. *)
Lemma handle_shape p d t line :
  let '(todo, p', d') := handleStateRootLine p d t line in
  dd_seen d' ⊆ dd_seen d ∪ {[line]} /\
  exists pre, Forall (fun a => a = MarkDelivered \/ a = Emit line) pre /\
    (todo = pre /\ p' = p \/ todo = pre ++ [Persist (fst (handled line p))] /\ p' = snd (handled line p)).
Proof.
  unfold handleStateRootLine. pose proof (remember_subset line d) as Hsub. destruct (dd_remember line d) as [new d']. cbn [snd] in *.
  destruct (formatEventLine line); [|split; [set_solver|exists []; auto]].
  destruct (isReplay line p).
  - split; [done|]. exists (MarkDelivered :: if new then [Emit line] else []). split; [|by right].
    constructor; [by left|]. destruct new; repeat (constructor; [by right|]); constructor.
  - destruct (isHistory line p || dd_has line d).
    + split; [set_solver|]. exists [MarkDelivered]. split; [|by left]. constructor; [by left|constructor].
    + split; [done|]. exists (MarkDelivered :: if isInboxLineAtOrAfterArm line t INBOX_ARM_TIMESTAMP_SKEW_MS then [Emit line] else []).
      split; [|by right]. constructor; [by left|]. case_match; repeat (constructor; [by right|]); constructor.
Qed.

Lemma last_persist pre c0 c pre' post : Forall (fun a => forall c, a ≠ Persist c) pre ->
  pre ++ [Persist c0] = pre' ++ Persist (Some c) :: post -> post = [] /\ c0 = Some c.
Proof.
  intros Hno E. destruct post as [|b post _] using rev_ind.
  - apply app_inj_tail in E as [_ [= ->]]. done.
  - rewrite app_comm_cons, app_assoc in E. apply app_inj_tail in E as [E _]. exfalso. rewrite Forall_forall in Hno.
    apply (Hno (Persist (Some c)) ltac:(rewrite E; set_solver) (Some c)). done.
Qed.

(** Whatever has not been said of the entries before is said of this one. *)
Lemma delivered_covers w m x i y : world_ok w -> monitor w = Some m -> m_todo m = [] -> rows w !! m_pos m = Some x ->
  uncovered (set_monitor (Some (delivered (fst x) m)) w) (delivered (fst x) m) i y ->
  uncovered w m i y /\ (m_pos m < i)%nat /\ fst y ≠ fst x.
Proof.
  intros Hw Em Et Hx (Hmi & He & _). pose proof (wo_monitor w Hw m Em) as Hm. pose proof (wo_rows w Hw) as Hr.
  assert (Hu : uncovered w m i y).
  { split; [exact Hmi|]. rewrite Et. split; [by intros ?%elem_of_nil|]. by intros n ?%elem_of_nil. }
  destruct (missed_entry _ _ _ Hmi) as (Hy & Hey & Hl). pose proof (mo_read _ _ Hm i y Hu) as Hpos.
  destruct (decide (i = m_pos m)) as [->|Hne].
  - exfalso. cbn in Hy. assert (y = x) as -> by congruence. clear Hpos Hmi. unfold delivered, handleStateRootLine in He.
    pose proof (remember_new (fst x) (m_deduper m)) as Hnew.
    assert (Hfresh : dd_has (fst x) (m_deduper m) = false) by (apply bool_decide_eq_false; by eapply mo_fresh).
    rewrite Hfresh in He, Hnew. destruct (dd_remember (fst x) (m_deduper m)) as [new d']. cbn in Hnew. subst new.
    destruct (formatEventLine (fst x)) eqn:Ef; [|apply format_entry in Ef; congruence].
    destruct (isReplay (fst x) (m_progress m)) eqn:Er; [cbn in He; set_solver|].
    assert (Hseen : (m_seen m <= m_pos m)%nat).
    { destruct (decide (m_pos m < m_seen m)%nat) as [Hlt|]; [|lia]. pose proof (mo_pending _ _ Hm _ _ Hu Hlt). by apply bool_decide_eq_false in Er. }
    destruct (isHistory (fst x) (m_progress m)) eqn:Eh.
    + apply bool_decide_eq_true in Eh. destruct (mo_history _ _ Hm _ Eh) as (j & z & Hlt & Hz & E).
      assert (m_pos m = j); [|lia]. by eapply row_unique.
    + cbn [orb] in He. destruct Hl as (t & Ht & Hle). pose proof (mo_later _ _ Hm _ _ Hx Hseen) as Harm.
      rewrite (fresh_spec (fst x) t (m_arm m) INBOX_ARM_TIMESTAMP_SKEW_MS) in He; [|done|done|lia]. cbn in He. set_solver.
  - split; [done|]. split; [lia|]. intros E. apply Hne. by eapply row_unique.
Qed.

Lemma deliver_ok w m x : world_ok w -> monitor w = Some m -> m_todo m = [] -> rows w !! m_pos m = Some x ->
  world_ok (set_monitor (Some (delivered (fst x) m)) w).
Proof.
  intros Hw Em Et Hx. pose proof (wo_monitor w Hw m Em) as Hm. pose proof (wo_rows w Hw) as Hr.
  assert (HU := fun i y => delivered_covers w m x i y Hw Em Et Hx).
  assert (Hg := set_monitor_grows (Some (delivered (fst x) m)) w Hr).
  constructor; [by eapply grows_rows_ok| |].
  { intros c Hc. eapply grows_covers; [done|]. by apply (wo_cursor w Hw). }
  intros m' [= <-]. pose proof (handle_shape (m_progress m) (m_deduper m) (m_arm m) (fst x)) as Hs.
  unfold delivered in *. destruct (handleStateRootLine _ _ _ _) as [[todo p'] d'].
  destruct Hs as (Hd & pre & Hpre & Hor). apply lookup_lt_Some in Hx as Hlt.
  assert (Hp : pr_plan p' = pr_plan (m_progress m) /\ pr_armSince p' = pr_armSince (m_progress m) /\
            (pr_pending (m_progress m) ∖ {[fst x]} ⊆ pr_pending p')).
  { destruct Hor as [[_ ->]|[_ ->]]; cbn; set_solver. }
  destruct Hp as (Ep & Ea & Hpend). destruct Hm. constructor; cbn; rewrite ?Ep, ?Ea; try done.
  - intros i y Hu Hi. destruct (HU i y Hu) as (Hu' & _ & Hne). apply Hpend. specialize (mo_pending0 i y Hu' Hi). set_solver.
  - intros i y Hu. destruct (HU i y Hu) as (_ & ? & _). lia.
  - intros i y Hu Hin. destruct (HU i y Hu) as (Hu' & _ & Hne). apply (mo_fresh0 i y Hu'). apply Hd in Hin. set_solver.
  - intros l [Hin|Hin%elem_of_singleton]%Hd%elem_of_union; [by apply mo_known0|]. subst. eauto.
  - intros i y t Hu. destruct (HU i y Hu) as (Hu' & _). eauto.
  - intros c pre' post E. destruct Hor as [[-> _]|[-> ->]].
    + exfalso. rewrite Forall_forall in Hpre. destruct (Hpre (Persist (Some c))) as [?|?]; [rewrite E; set_solver|done..].
    + apply last_persist in E as [-> Ec]; [|eapply Forall_impl; [exact Hpre|]; by intros a [->| ->]]. split; [done|].
      unfold handled in Ec. cbn [fst] in Ec. unfold cursorForLine in Ec.
      destruct (ENTRY_LINE_RE (fst x)) as [[[[ts label] role] body]|] eqn:Ex; [|done]. cbn in Ec. injection Ec as <-.
      split; [|split]; cbn [sinceMs lineSha256 lineTs].
      * case_bool_decide; [done|]. cbn. destruct mo_arm0 as [? ->]. lia.
      * intros i y t Hu Hty. destruct (HU i y Hu) as (Hu' & Hi & Hne). case_bool_decide as Hb; [eauto|].
        destruct mo_arm0 as [? ->]. assert (Hno : (m_seen m <= i)%nat).
        { destruct (decide (i < m_seen m)%nat) as [Hl|]; [|lia]. specialize (mo_pending0 i y Hu' Hl). set_solver. }
        destruct (missed_entry _ _ _ (uncovered_missed _ _ _ _ Hu')) as (Hy & _ & t' & Ht' & Hle).
        specialize (mo_later0 i y Hy Hno). rewrite Hty in Ht'. injection Ht' as <-. lia.
      * exists (m_pos m), x. split; [done|]. split; [done|]. split; [apply is_entry_spec; by rewrite Ex|].
        split; [by rewrite Ex|]. intros i y Hu. by destruct (HU i y Hu) as (_ & ? & _).
Qed.

(** ** An arm *)

Lemma inbox_rows w : rows_ok w -> inbox_lines (inbox_text w) = map fst (drop (trimmed w) (rows w)).
Proof.
  intros Hr. unfold inbox_text. apply inbox_lines_file, Forall_forall. intros l Hl.
  apply list_elem_of_fmap in Hl as (x & -> & Hx). apply list_elem_of_lookup in Hx as (i & Hi). rewrite lookup_drop in Hi.
  apply unbroken_one_line. by apply (ro_unbroken w Hr) in Hi as [? _].
Qed.

Lemma inbox_row w l : rows_ok w -> l ∈ inbox_lines (inbox_text w) ->
  exists i x, (trimmed w <= i)%nat /\ rows w !! i = Some x /\ fst x = l.
Proof.
  intros Hr. rewrite inbox_rows by done. intros (x & -> & Hx)%list_elem_of_fmap.
  apply list_elem_of_lookup in Hx as (i & Hi). rewrite lookup_drop in Hi. exists (trimmed w + i)%nat, x. split; [lia|done].
Qed.

Lemma row_in_inbox w i x : rows_ok w -> rows w !! i = Some x -> (trimmed w <= i)%nat -> fst x ∈ inbox_lines (inbox_text w).
Proof.
  intros Hr Hx Hi. rewrite inbox_rows by done. apply list_elem_of_fmap. exists x. split; [done|].
  apply list_elem_of_lookup. exists (i - trimmed w)%nat. rewrite lookup_drop. by replace (trimmed w + (i - trimmed w))%nat with i by lia.
Qed.

(** Times order entries that came one after the other, when the later is live. *)
Lemma live_after w i j x y t u : rows_ok w -> (i < j)%nat -> rows w !! i = Some x -> rows w !! j = Some y -> live y ->
  entryTimestampMs (fst x) = Some t -> entryTimestampMs (fst y) = Some u -> t <= u.
Proof.
  intros Hr Hlt Hx Hy Hly Ht Hu. pose proof (ro_arrival w Hr i j x y Hlt Hx Hy) as Ha.
  destruct (decide (snd x - INBOX_ARM_TIMESTAMP_SKEW_MS <= t)) as [Hle|Hgt].
  - eapply (ro_times w Hr i j x y); eauto. by exists t.
  - destruct Hly as (u' & Hu' & Hle). rewrite Hu in Hu'. injection Hu' as <-. lia.
Qed.

(** A cursor whose time can be read. *)
Definition dated (c : ReplayCursor) : Prop := lineSha256 c = None \/ is_Some (date_parse (default "" (lineTs c))).

Lemma read_dated f c : fst (readReplayCursor f) = Some c -> dated c.
Proof.
  unfold readReplayCursor. destruct f as [code|f]; [by case_bool_decide|].
  repeat (case_match; [done|]). destruct (parseReplayCursor (cf_text f)) as [c1|] eqn:E; [|done]. cbn [fst]. intros [= ->].
  unfold parseReplayCursor in E. repeat (case_match; try done; simplify_eq); [by left|]. right. cbn. eauto.
Qed.

(** Resuming at a cursor, every entry it covers is a candidate. *)
Lemma resume_finds w (U : nat -> row -> Prop) c i x : rows_ok w -> covers w U c -> dated c ->
  (forall i x, U i x -> missed w i x) -> U i x -> fst x ∈ candidates (inbox_text w) c.
Proof.
  intros Hr (_ & Hs & Hl) Hd HU Hu. destruct (HU i x Hu) as (Hx & Hlive & Htr & _).
  destruct Hlive as (t & Ht & Hle). pose proof (timestamp_entry _ _ Ht) as He.
  unfold candidates. fold (entries_of (inbox_lines (inbox_text w))).
  assert (Hin : fst x ∈ entries_of (inbox_lines (inbox_text w))) by (apply elem_of_entries; split; [by eapply row_in_inbox|done]).
  enough (fst x ∈ snd (before_and_after (entries_of (inbox_lines (inbox_text w))) c) /\
          fst x ∉ fst (before_and_after (entries_of (inbox_lines (inbox_text w))) c)) as [Ha Hb].
  { destruct (before_and_after _ c) as [before after]. cbn in Ha, Hb. eapply candidates_complete; eauto. by rewrite elem_of_list_to_set. }
  destruct (lineSha256 c) as [hash|] eqn:Eh; [|unfold before_and_after; rewrite Eh; cbn; split; [done|by intros ?%elem_of_nil]].
  destruct Hl as (j & y & Hy & <- & Hey & Hts & Hafter). pose proof (Hafter i x Hu) as Hji.
  destruct (decide (trimmed w <= j)%nat) as [Hj|Hj].
  - rewrite inbox_rows in * by done. assert (Hsplit : drop (trimmed w) (rows w) =
        take (j - trimmed w) (drop (trimmed w) (rows w)) ++ y :: drop (S j) (rows w)).
    { rewrite <-(take_drop_middle (drop (trimmed w) (rows w)) (j - trimmed w) y) at 1.
      - rewrite drop_drop. do 3 f_equal. lia.
      - rewrite lookup_drop. by replace (trimmed w + (j - trimmed w))%nat with j by lia. }
    rewrite Hsplit, map_app in *. cbn [map] in *. set (a := map fst _) in *. set (b := map fst (drop (S j) (rows w))) in *.
    assert (Hother : forall z, z ∈ a -> sha256_hex z ≠ sha256_hex (fst y)).
    { intros z (q & -> & Hq)%list_elem_of_fmap. apply list_elem_of_lookup in Hq as (k & Hk). apply lookup_take_Some in Hk as [Hk Hlt].
      rewrite lookup_drop in Hk. eapply (ro_hash w Hr (trimmed w + k) j); [lia|done..]. }
    rewrite selected_after_line; [|done..|].
    + cbn [fst snd]. split.
      * apply elem_of_entries. split; [|done]. apply list_elem_of_fmap. exists x. split; [done|].
        apply list_elem_of_lookup. exists (i - S j)%nat. rewrite lookup_drop. by replace (S j + (i - S j))%nat with i by lia.
      * assert (Hxy : forall z k, rows w !! k = Some z -> (k < i)%nat -> fst x ≠ fst z).
        { intros z k Hz Hk E. assert (i = k); [|lia]. by eapply row_unique. }
        intros [(Hin' & _)%elem_of_entries|E%list_elem_of_singleton]%elem_of_app; [|exact (Hxy y j Hy Hji E)].
        apply list_elem_of_fmap in Hin' as (q & E & Hq). apply list_elem_of_lookup in Hq as (k & Hk). apply lookup_take_Some in Hk as [Hk Hlt].
        rewrite lookup_drop in Hk. eapply (Hxy q (trimmed w + k)%nat); [done|lia|done].
    + apply Forall_forall. intros z (Hz & _)%elem_of_entries. by apply Hother.
  - destruct Hd as [?|[floor Hfloor]]; [congruence|]. eapply selected_after_time; eauto.
    + apply Forall_forall. intros z (Hz & Hez)%elem_of_entries E. apply inbox_row in Hz as (k & q & Hk & Hq & <-); [|done].
      destruct (ro_hash w Hr j k y q ltac:(lia) Hy Hq Hez). by symmetry.
    + apply (live_after w j i y x floor t Hr Hji Hy Hx); [by exists t| |done]. unfold entryTimestampMs.
      rewrite Hts in Hfloor. apply is_entry_spec in Hey as [[[[ts l] r] bd] Eq]. rewrite Eq in *. exact Hfloor.
Qed.

Lemma arm_todo raw stored t c pre post : fst (arm raw stored t) = pre ++ Persist (Some c) :: post ->
  post = [] /\ stored = None /\ cursorAtArm (planArmReplay raw None (t - INBOX_ARM_TIMESTAMP_SKEW_MS) ARM_REPLAY_CAP) = Some c.
Proof.
  unfold arm. cbn [fst]. destruct stored as [c0|].
  - unfold planArmReplay at 1. cbn [cursorAtArm]. destruct pre as [|a [|a' pre]]; [done| |]; case_match; try done. by destruct pre.
  - change (omitted (planArmReplay raw None (t - INBOX_ARM_TIMESTAMP_SKEW_MS) ARM_REPLAY_CAP)) with 0%nat. cbn [Nat.ltb Nat.leb].
    destruct pre as [|a pre]; [intros [= <- <-]; auto|]. by destruct pre.
Qed.

Lemma fresh_cursor raw since c : cursorAtArm (planArmReplay raw None since ARM_REPLAY_CAP) = Some c ->
  c = Cursor None None since \/ exists line, line ∈ inbox_lines raw /\ cursorForLine line since = Some c.
Proof.
  unfold planArmReplay. cbn [cursorAtArm]. fold (entries_of (inbox_lines raw)). intros [= <-].
  destruct (last (entries_of (inbox_lines raw))) as [line|] eqn:El; [|by cbn; auto]. cbn.
  assert (Hin : line ∈ entries_of (inbox_lines raw)) by (apply last_Some in El as [l' ->]; set_solver).
  apply elem_of_entries in Hin as [Hin [[[[ts label] role] body] E]%is_entry_spec]. unfold cursorForLine. rewrite E. cbn.
  right. exists line. by rewrite E.
Qed.

Lemma cursor_for_line line since c : cursorForLine line since = Some c ->
  exists ts label role body, ENTRY_LINE_RE line = Some (ts, label, role, body) /\ c = Cursor (Some (sha256_hex line)) (Some ts) since.
Proof.
  unfold cursorForLine. destruct (ENTRY_LINE_RE line) as [[[[ts label] role] body]|]; [|done]. cbn. intros [= <-].
  by exists ts, label, role, body.
Qed.

Lemma history_lines raw stored since l : l ∈ history (planArmReplay raw stored since ARM_REPLAY_CAP) -> l ∈ inbox_lines raw.
Proof.
  unfold planArmReplay. destruct stored as [c|]; cbn [history]; rewrite elem_of_list_to_set; [|done].
  by intros [_ ?]%list_elem_of_filter.
Qed.

Lemma read_rows w (readable : bool) l : rows_ok w -> l ∈ inbox_lines (if readable then inbox_text w else "") ->
  exists i x, (i < length (rows w))%nat /\ rows w !! i = Some x /\ fst x = l.
Proof.
  intros Hr. destruct readable; [|by intros ?%elem_of_nil]. intros (i & x & _ & Hi & E)%inbox_row; [|done].
  exists i, x. split; [by eapply lookup_lt_Some|done].
Qed.

(** What is not replayed is in the notice. *)
Lemma armed_pending raw c since t line : line ∈ candidates raw c ->
  (forall n, Notice n ∈ fst (arm raw (Some c) t) -> line ∉ take (length (candidates raw c) - ARM_REPLAY_CAP) (candidates raw c)) ->
  line ∈ pr_pending (new_progress (planArmReplay raw (Some c) since ARM_REPLAY_CAP) since).
Proof.
  intros Hin Ho. unfold new_progress, planArmReplay. cbn [pr_pending replay]. rewrite elem_of_list_to_set.
  set (n := (length (candidates raw c) - ARM_REPLAY_CAP)%nat) in *. rewrite <-(take_drop n (candidates raw c)) in Hin.
  apply elem_of_app in Hin as [Hin|Hin]; [|done]. exfalso. destruct n as [|n'] eqn:En; [by apply elem_of_nil in Hin|].
  eapply (Ho (S n')); [|done]. unfold arm, planArmReplay. cbn [fst omitted]. fold n. rewrite En. cbn. right. left.
Qed.

Lemma arm_ok w (readable : bool) t : world_ok w -> t <= now w -> world_ok (armed w readable t).
Proof.
  intros Hw Ht. pose proof (wo_rows w Hw) as Hr. pose proof (wo_cursor w Hw) as Hc. unfold armed.
  remember (fst (readReplayCursor (cursor_at w))) as stored eqn:Es. remember (if readable then inbox_text w else "") as raw eqn:Eraw.
  pose proof (arm_todo raw stored t) as Htodo. destruct (arm raw stored t) as [todo p] eqn:Ea. cbn [fst] in Htodo.
  set (om := match stored with Some c => _ | None => [] end). set (sk := match stored with Some _ => _ | None => _ end).
  set (m := Running _ _ _ _ _ _ _ _). set (w' := World _ _ _ _ _ _ _ _ _).
  assert (Ep : p = new_progress (planArmReplay raw stored (t - INBOX_ARM_TIMESTAMP_SKEW_MS) ARM_REPLAY_CAP) (t - INBOX_ARM_TIMESTAMP_SKEW_MS))
    by (unfold arm in Ea; by injection Ea).
  pose proof (ro_trimmed w Hr) as Htr.
  assert (Hg : grows w w').
  { pose proof (ro_skipped w Hr). constructor; cbn; auto; try lia. subst sk. destruct stored, readable; lia. }
  assert (Hold : forall i x, missed w' i x -> exists c, stored = Some c /\ readable = true /\ missed w i x).
  { intros i x Hm. pose proof Hm as (Hx & _ & _ & Hs & _). apply lookup_lt_Some in Hx. cbn in Hs, Hx. subst sk.
    destruct stored as [c|]; [|lia]. destruct readable; [|lia]. exists c. split; [done|]. split; [done|]. by eapply grows_missed. }
  assert (Hfind : forall i x, uncovered w' m i x -> exists c, stored = Some c /\ missed w i x /\ fst x ∈ pr_pending p).
  { intros i x (Hm & _ & Ho). destruct (Hold i x Hm) as (c & -> & -> & Hm0). exists c. split; [done|]. split; [done|].
    assert (Hin := resume_finds w (missed w) c i x Hr (Hc c eq_refl) (read_dated _ c (eq_sym Es)) (fun _ _ Hx => Hx) Hm0).
    subst raw p. apply (armed_pending _ _ _ t); [done|]. intros n. rewrite Ea. exact (Ho n). }
  constructor; [by eapply grows_rows_ok|by intros c Hc'; eapply grows_covers; [done|]; apply Hc; rewrite Es|].
  intros m' [= <-]. subst p. constructor; cbn; try done; try lia.
  - intros i x Hi. apply lookup_lt_Some in Hi. lia.
  - intros i x Hu _. by destruct (Hfind i x Hu) as (c & _ & _ & ?).
  - intros i x ((_ & _ & ? & _) & _). done.
  - intros l Hl. apply history_lines in Hl. subst raw. by eapply read_rows.
  - destruct stored as [c|]; cbn; [|lia]. destruct (Hc c eq_refl) as [? _]. done.
  - intros i x u Hu Hx. destruct (Hfind i x Hu) as (c & -> & Hm & _). destruct (Hc c eq_refl) as (_ & Hs & _). cbn. eauto.
  - intros c pre post E. destruct (Htodo c pre post E) as (-> & -> & Hat). split; [done|].
    assert (Hno : forall i x, uncovered w' m i x -> False) by (intros i x Hu; by destruct (Hfind i x Hu) as (c0 & ? & _)).
    apply fresh_cursor in Hat as [->|(line & Hin & (ts & label & role & body & El & ->)%cursor_for_line)].
    + split; [cbn; lia|]. split; [|done]. intros i x u Hu. by destruct (Hno i x).
    + split; [cbn; lia|]. split; [intros i x u Hu; by destruct (Hno i x)|]. subst raw.
      apply read_rows in Hin as (j & y & _ & Hj & <-); [|done]. exists j, y. split; [done|]. split; [done|].
      split; [apply is_entry_spec; by rewrite El|]. split; [by rewrite El|]. intros i x Hu. by destruct (Hno i x).
Qed.

Lemma world_step_ok b w w' : step b w w' -> world_ok w -> world_ok w'.
Proof.
  intros Hs Hw. destruct Hs.
  - by apply append_ok.
  - by apply trim_ok.
  - by apply tick_ok.
  - apply arm_ok; [done|lia].
  - by apply deliver_ok.
  - by apply check_ok.
  - pose proof (ro_trimmed _ (wo_rows w Hw)). apply moved_ok; [done|done|lia|].
    match goal with Ho : _ \/ _ |- _ => destruct Ho as [?|[? _]] end; [right; left; lia|by right; right].
  - pose proof (mo_pos _ _ (wo_monitor w Hw m ltac:(done))). apply moved_ok; [done|done|lia..].
  - by eapply perform_ok.
  - by apply stop_ok.
Qed.

Lemma initial_ok w : initial w -> world_ok w.
Proof.
  intros (Hr & Ht & Hc & Hs & _ & Hm). constructor.
  - constructor; rewrite ?Hr, ?Ht, ?Hs; try done; lia.
  - intros c. by rewrite Hc.
  - intros m. by rewrite Hm.
Qed.

Lemma moves_ok w w' : rtc moves w w' -> world_ok w -> world_ok w'.
Proof. induction 1 as [|w w1 w' [b Hs] _ IH]; [done|]. intros Hw. by eapply IH, world_step_ok. Qed.
End World.

(** * What the monitors of an inbox guarantee together

    Every live entry is printed or counted in a notice, by the monitor that reads
    it or by one that arms later; and the position the monitors hand over is not
    lost while their writes succeed. *)

Section Safety.
Context `{JsDate}.

(** Times of entries are as the client prints them. *)
Definition printed_times (rows : list (string * Z)) : Prop :=
  forall x, x ∈ rows -> is_entry (fst x) = true ->
    exists t label role body, ENTRY_LINE_RE (fst x) = Some (to_iso t, label, role, body) /\ four_digit_year t.

(** What the tick of the monitor leaves alone. *)
Lemma monitor_tick_keeps w m :
  rows (monitor_tick w m) = rows w /\ now (monitor_tick w m) = now w /\ cursor_at (monitor_tick w m) = cursor_at w /\ skipped (monitor_tick w m) = skipped w /\
  exists m', monitor (monitor_tick w m) = Some m' /\ m_progress m' = m_progress m /\ m_todo m' = m_todo m.
Proof. unfold monitor_tick. destruct (evaluateInboxTailStall _ _ _ _) as [[] st]; cbn; repeat (split; [done|]); by eexists. Qed.

Lemma step_later b w w' : step b w w' -> (forall x, x ∈ rows w -> x ∈ rows w') /\ now w <= now w'.
Proof.
  intros Hs. destruct Hs as [w line _|w n _|w t Ht|w r t _ _|w m x _ _ _ _|w m _ _|w m _ _|w m p _ _|w m b a rest w' _ _ Hp|w]; try (cbn; split; [done|lia]).
  - cbn. split; [set_solver|lia].
  - destruct (monitor_tick_keeps w m) as (-> & -> & _). split; [done|lia].
  - destruct Hp; cbn; (split; [done|lia]).
Qed.

Lemma moves_later w w' : rtc moves w w' -> (forall x, x ∈ rows w -> x ∈ rows w') /\ now w <= now w'.
Proof.
  induction 1 as [w|w w1 w' [b Hs] _ [IH1 IH2]]; [split; [done|lia]|]. apply step_later in Hs as [H1 H2]. split; [auto|lia].
Qed.

(** The cursors a monitor is about to write, and the boundaries it writes. *)
Definition writes_usual (w : world) : Prop :=
  forall m, monitor w = Some m ->
    0 <= pr_armSince (m_progress m) /\ 0 <= replaySinceMs (pr_plan (m_progress m)) /\
    forall c, Persist (Some c) ∈ m_todo m -> usual c.

Lemma read_since f c : fst (readReplayCursor f) = Some c -> 0 <= sinceMs c.
Proof.
  unfold readReplayCursor. destruct f as [code|f]; [by case_bool_decide|].
  repeat (case_match; [done|]). destruct (parseReplayCursor (cf_text f)) as [c1|] eqn:E; [|done]. cbn [fst]. intros [= ->].
  unfold parseReplayCursor in E. repeat (case_match; try done; simplify_eq); bool_to_prop; cbn; lia.
Qed.

Lemma read_usual c : usual c -> fst (readReplayCursor (written c)) = Some c.
Proof.
  intros Hc. unfold readReplayCursor, written. cbn [cf_regular cf_mine cf_mode cf_text negb].
  change (negb (Z.land 384 511 =? 384)) with false. cbv iota. rewrite cursor_round_trip by (by apply usual_well_formed).
  destruct (CURSOR_MAX_BYTES <? _)%nat eqn:E; [|done]. apply Nat.ltb_lt in E. pose proof (usual_small c Hc). lia.
Qed.

Lemma row_cursor_usual w x since c : printed_times (rows w) -> x ∈ rows w -> 0 <= since <= max_safe_integer ->
  cursorForLine (fst x) since = Some c -> usual c.
Proof.
  intros Hp Hx Hs (ts & label & role & body & E & ->)%cursor_for_line.
  destruct (Hp x Hx) as (t & l & r & bd & E' & Ht); [apply is_entry_spec; by rewrite E|].
  rewrite E in E'. injection E' as -> -> -> ->. split; [done|]. right. by exists (fst x), t.
Qed.

Lemma armed_usual w readable t : world_ok w -> INBOX_ARM_TIMESTAMP_SKEW_MS <= t <= now w -> printed_times (rows w) -> now w <= max_safe_integer ->
  writes_usual (armed w readable t).
Proof.
  intros Hw Ht Hp Hn. unfold armed. remember (fst (readReplayCursor (cursor_at w))) as stored eqn:Es.
  set (raw := if readable then inbox_text w else "").
  pose proof (arm_todo raw stored t) as Htodo. destruct (arm raw stored t) as [todo p] eqn:Ea. cbn [fst] in Htodo.
  assert (Ep : p = new_progress (planArmReplay raw stored (t - INBOX_ARM_TIMESTAMP_SKEW_MS) ARM_REPLAY_CAP) (t - INBOX_ARM_TIMESTAMP_SKEW_MS))
    by (unfold arm in Ea; by injection Ea).
  intros m [= <-]. cbn. subst p. cbn. split; [lia|]. split.
  { destruct stored as [c|]; [|cbn; lia]. by eapply read_since. }
  intros c (pre & post & E)%list_elem_of_split. destruct (Htodo c pre post E) as (-> & -> & Hat).
  assert (Hr : 0 <= t - INBOX_ARM_TIMESTAMP_SKEW_MS <= max_safe_integer) by (unfold INBOX_ARM_TIMESTAMP_SKEW_MS in *; lia).
  apply fresh_cursor in Hat as [->|(line & Hin & Hc)]; [split; [done|by left]|].
  apply read_rows in Hin as (i & x & _ & Hx & <-); [|apply Hw]. eapply row_cursor_usual; eauto. by eapply list_elem_of_lookup_2.
Qed.

Lemma delivered_usual w m x : world_ok w -> monitor w = Some m -> x ∈ rows w -> printed_times (rows w) -> now w <= max_safe_integer ->
  writes_usual w -> writes_usual (set_monitor (Some (delivered (fst x) m)) w).
Proof.
  intros Hw Em Hx Hp Hn Hu m' [= <-]. destruct (Hu m Em) as (H1 & H2 & _). destruct (wo_monitor w Hw m Em).
  pose proof (handle_shape (m_progress m) (m_deduper m) (m_arm m) (fst x)) as Hs. unfold delivered.
  destruct (handleStateRootLine _ _ _ _) as [[todo p'] d']. destruct Hs as (_ & pre & Hpre & Hor).
  assert (Hno : forall c, Persist c ∉ pre).
  { intros c Hin. rewrite Forall_forall in Hpre. by destruct (Hpre _ Hin). }
  destruct Hor as [[-> ->]|[-> ->]]; cbn; (split; [done|]); (split; [done|]); intros c Hin; [by apply Hno in Hin|].
  apply elem_of_app in Hin as [Hin|Hin%list_elem_of_singleton]; [by apply Hno in Hin|]. injection Hin as Hin.
  eapply row_cursor_usual; [done|done| |by symmetry]. unfold INBOX_ARM_TIMESTAMP_SKEW_MS in *. case_bool_decide; lia.
Qed.

Lemma step_usual b w w' : step b w w' -> world_ok w -> printed_times (rows w) -> now w <= max_safe_integer ->
  writes_usual w -> writes_usual w'.
Proof.
  intros Hs Hw Hp Hn Hu. destruct Hs as [| | |w r t Em Ht|w m x Em Et Hpos Hx|w m Em Et|w m Em|w m p Em|w m b a rest w' Em Et Hperf|]; try done.
  - by apply armed_usual.
  - eapply delivered_usual; eauto. by eapply list_elem_of_lookup_2.
  - intros m' Em'. destruct (monitor_tick_keeps w m) as (_ & _ & _ & _ & m1 & Em1 & E1 & E2). rewrite Em1 in Em'. injection Em' as <-.
    rewrite E1, E2. exact (Hu m Em).
  - intros m' [= <-]. exact (Hu m Em).
  - intros m' [= <-]. exact (Hu m Em).
  - intros m' [= <-]. destruct (Hu m Em) as (H1 & H2 & H3). destruct (marked_stall a w m) as [st ->].
    split; [done|]. split; [done|]. intros c Hc. apply H3. rewrite Et. by right.
Qed.

Definition readable_cursor (w : world) : Prop := is_Some (fst (readReplayCursor (cursor_at w))).

Lemma step_cursor w w' : step true w w' -> writes_usual w -> readable_cursor w -> readable_cursor w' /\ skipped w' = skipped w.
Proof.
  intros Hs Hu Hc. remember true as b eqn:Eb. destruct Hs as [| | |w r t Em Ht| |w m Em Et| | |w m b a rest w' Em Et Hperf|]; try done.
  - subst r. destruct Hc as [c Hc]. unfold armed, readable_cursor. rewrite Hc. destruct (arm _ _ _). cbn. rewrite Hc. eauto.
  - unfold readable_cursor. by destruct (monitor_tick_keeps w m) as (_ & _ & -> & -> & _).
  - destruct Hperf; try done. split; [|done]. exists c. apply read_usual. apply (Hu m Em). rewrite Et. left.
Qed.

Lemma usual_from w w' : rtc moves w w' -> world_ok w -> printed_times (rows w') -> now w' <= max_safe_integer ->
  writes_usual w -> writes_usual w'.
Proof.
  intros Hrtc. induction Hrtc as [w|w w1 w' [b Hs] Hrtc IH]; [done|]. intros Hw Hp Hn Hu.
  destruct (moves_later _ _ Hrtc) as [H1 H2]. pose proof (step_later _ _ _ Hs) as [H3 H4].
  apply IH; [by eapply world_step_ok|done|done|]. eapply step_usual; [done..| |lia|done]. intros x Hx. apply Hp. auto.
Qed.

(** The entries *)

(** C14. No live entry of the inbox is missed but by a stalled tail.  Take an inbox
    whose live entries arrive in the order of their times and in which no entry line
    repeats an earlier one, and any monitors over it, one after the other - armed, reading
    on, rewound by a rotation of the file, their tail replaced when it has stalled,
    stopped at any point between two effects, their cursor writes failing or not.
    When the running monitor has performed the effects of the lines it has read,
    every one of those lines that is a live entry and still in the file was printed
    by some monitor, or is among those an arm said it left out - unless it was
    already there at an arm that could read no cursor or no inbox, which treats the
    file as history, or a tail that had stalled was replaced by one told to begin
    behind it. *)
Theorem inbox_entries_announced w0 w m i x :
  initial w0 -> rtc moves w0 w -> monitor w = Some m -> m_todo m = [] ->
  rows w !! i = Some x -> live x -> (i < m_pos m)%nat -> (trimmed w <= i)%nat -> (skipped w <= i)%nat -> i ∉ jumped w ->
  fst x ∈ emitted w \/ fst x ∈ noticed w.
Proof.
  intros Hi Hrtc Em Et Hx Hl Hpos Htr Hsk Hj. pose proof (moves_ok _ _ Hrtc (initial_ok _ Hi)) as Hw.
  destruct (decide (fst x ∈ emitted w)) as [|He]; [by left|]. destruct (decide (fst x ∈ noticed w)) as [|Hn]; [by right|]. exfalso.
  assert (Hu : uncovered w m i x).
  { split; [done|]. rewrite Et. split; [by intros ?%elem_of_nil|]. by intros n ?%elem_of_nil. }
  pose proof (mo_read _ _ (wo_monitor w Hw m Em) i x Hu). lia.
Qed.

(** While nothing fails, a position that was handed over once is never lost:
    from any state with a cursor that can be read, arms, deliveries, rotations and
    stops at any point leave one that can be read, and no further entry is treated
    as history. *)
Theorem replay_cursor_lasts w0 w w' :
  initial w0 -> rtc moves w0 w -> readable_cursor w -> rtc (step true) w w' ->
  printed_times (rows w') -> now w' <= max_safe_integer ->
  readable_cursor w' /\ skipped w' = skipped w.
Proof.
  intros Hi Hrtc Hc Hrest Hp Hn. pose proof (moves_ok _ _ Hrtc (initial_ok _ Hi)) as Hw.
  assert (Hm : forall a b, rtc (step true) a b -> rtc moves a b).
  { intros a b. apply rtc_subrel. intros u v Hs. by exists true. }
  assert (Hu : writes_usual w).
  { destruct (moves_later _ _ (Hm _ _ Hrest)) as [H1 H2]. eapply usual_from; [done|by apply initial_ok| |lia|].
    - intros x Hx. apply Hp. auto.
    - intros m Em. by destruct Hi as (_ & _ & _ & _ & _ & ?); simplify_eq. }
  clear Hi Hrtc w0. induction Hrest as [w|w w1 w' Hs Hrest IH]; [done|].
  destruct (moves_later _ _ (Hm _ _ Hrest)) as [H1 H2]. pose proof (step_later _ _ _ Hs) as [H3 H4].
  destruct (step_cursor _ _ Hs Hu Hc) as [Hc1 <-]. apply IH; [done|done|done|by eapply world_step_ok|].
  eapply step_usual; [done..| |lia|done]. intros x Hx. apply Hp. auto.
Qed.
End Safety.

(** ** An instance

    A first monitor arms on an empty inbox and stops; an entry arrives while none
    runs; the next monitor prints it, a hundred seconds later. *)

Module Instance_.
#[local] Instance no_other_dates : JsDate := {| other_parse := fun _ => None |}.

Definition row0 : string * Z := ("1970-01-01T00:01:40.000Z drone-2 (Builder): [entry_id: e1] done", 100000).

Definition idle : running :=
  Running 0 0 [] 0 (new_progress (Plan ∅ [] 0 None 0) 0) (new_deduper 1) (Stall 0 None) [].
Definition mon (w : world) : running := default idle (monitor w).
Definition rest (w : world) : running :=
  match m_todo (mon w) with a :: l => set_todo l (marked a w (mon w)) | [] => mon w end.
Definition emits (l : string) (w : world) : world :=
  World (rows w) (trimmed w) (now w) (cursor_at w) (l :: emitted w) (noticed w) (skipped w) (jumped w) (monitor w).
Definition at_time (t : Z) (w : world) : world :=
  World (rows w) (trimmed w) t (cursor_at w) (emitted w) (noticed w) (skipped w) (jumped w) (monitor w).

Definition a0 : world := World [] 0 100000 (inl (Some "ENOENT")) [] [] 0 [] None.
Definition a1 : world := armed a0 true 100000.
Definition a2 : world := set_monitor (Some (rest a1)) (set_cursor (written (Cursor None None 95000)) a1).
Definition a3 : world := set_monitor None a2.
Definition a4 : world := appended a3 (fst row0).
Definition a5 : world := at_time 200000 a4.
Definition a6 : world := armed a5 true 200000.
Definition a7 : world := set_monitor (Some (rest a6)) a6.
Definition a8 : world := set_monitor (Some (delivered (fst row0) (mon a7))) a7.
Definition a9 : world := set_monitor (Some (rest a8)) a8.
Definition a10 : world := set_monitor (Some (rest a9)) (emits (fst row0) a9).
Definition a11 : world := set_monitor (Some (rest a10)) a10.

Lemma a0_initial : initial a0.
Proof. by repeat split. Qed.

Lemma row0_live : live row0.
Proof. exists 100000. by split; vm_compute. Qed.

Lemma mon_runs w : bool_decide (is_Some (monitor w)) = true -> monitor w = Some (mon w).
Proof. intros [m Em]%bool_decide_eq_true. unfold mon. by rewrite Em. Qed.

Lemma performed b w a w' : bool_decide (is_Some (monitor w)) = true -> head (m_todo (mon w)) = Some a ->
  performs b a w (mon w) w' -> step b w (set_monitor (Some (rest w)) w').
Proof.
  intros Hm%mon_runs [l Hl]%head_Some Hp. unfold rest. rewrite Hl. by eapply step_perform.
Qed.

Lemma to_a2 : rtc moves a0 a2.
Proof.
  eapply rtc_l; [exists true; apply (step_arm a0 true 100000); [done|by split; vm_compute]|].
  eapply rtc_l; [|apply rtc_refl]. exists true.
  apply (performed true a1 (Persist (Some (Cursor None None 95000)))); [by vm_compute|by vm_compute|apply perform_persist].
Qed.

Lemma a4_step : step true a3 a4.
Proof.
  apply (step_append a3). split; [done|]. split; [intros _; constructor|]. intros x t u Hx. by apply elem_of_nil in Hx.
Qed.

Lemma a8_step : step true a7 a8.
Proof. unfold a8. apply (step_deliver a7 (mon a7) row0); [apply mon_runs; by vm_compute|by vm_compute|apply Nat.leb_le; by vm_compute|by vm_compute]. Qed.

Lemma to_a8 : rtc (step true) a2 a8.
Proof.
  eapply rtc_l; [exact (step_stop a2)|]. eapply rtc_l; [exact a4_step|].
  eapply rtc_l; [apply (step_tick a4 200000); by vm_compute|].
  eapply rtc_l; [apply (step_arm a5 true 200000); [done|by split; vm_compute]|].
  eapply rtc_l; [apply (performed true a6 (Persist None)); [by vm_compute|by vm_compute|apply perform_nothing]|].
  eapply rtc_l; [exact a8_step|apply rtc_refl].
Qed.

Definition next_cursor : ReplayCursor := Cursor (Some (sha256_hex (fst row0))) (Some "1970-01-01T00:01:40.000Z") 195000.

Lemma to_a11 : rtc moves a8 a11.
Proof.
  eapply rtc_l; [exists true; apply (performed true a8 MarkDelivered); [by vm_compute|by vm_compute|apply perform_mark]|].
  eapply rtc_l; [exists true; apply (performed true a9 (Emit (fst row0))); [by vm_compute|by vm_compute|apply perform_emit]|].
  eapply rtc_l; [|apply rtc_refl]. exists false.
  apply (performed false a10 (Persist (Some next_cursor))); [by vm_compute|by vm_compute|apply perform_kept].
Qed.

Lemma inbox_entries_announced_witness :
  fst row0 ∈ emitted a11 \/ fst row0 ∈ noticed a11.
Proof.
  apply (inbox_entries_announced a0 a11 (mon a11) 0 row0); [exact a0_initial| |apply mon_runs; by vm_compute|by vm_compute|by vm_compute|exact row0_live|..].
  - etrans; [exact to_a2|]. etrans; [|exact to_a11]. apply (rtc_subrel (step true)); [|exact to_a8]. intros u v Hs. by exists true.
  - by apply Nat.ltb_lt; vm_compute.
  - by apply Nat.leb_le; vm_compute.
  - by apply Nat.leb_le; vm_compute.
  - intros Hj. assert (E : jumped a11 = []) by (by vm_compute). rewrite E in Hj. by apply elem_of_nil in Hj.
Defined.

Lemma replay_cursor_lasts_witness : readable_cursor a8 /\ skipped a8 = skipped a2.
Proof.
  apply (replay_cursor_lasts a0 a2 a8); [exact a0_initial|exact to_a2|apply (bool_decide_eq_true_1 (is_Some _)); by vm_compute|exact to_a8| |by vm_compute].
  intros x Hx _. apply list_elem_of_singleton in Hx as ->. exists 100000, "drone-2", "Builder", "[entry_id: e1] done". by vm_compute.
Defined.
(** A stalled tail.  Two entries are appended; the first is delivered, and the size
    remembered is that of both; the tail stalls, a third entry arrives, and the tail
    that replaces it begins at the third.  Nobody prints the second. *)

Definition second_line : string := "1970-01-01T00:01:40.000Z drone-2 (Builder): [entry_id: e2] done".
Definition third_line : string := "1970-01-01T00:01:40.000Z drone-2 (Builder): [entry_id: e3] done".

Definition b1 : world := appended a2 (fst row0).
Definition b2 : world := appended b1 second_line.
Definition b3 : world := set_monitor (Some (delivered (fst row0) (mon b2))) b2.
Definition b4 : world := set_monitor (Some (rest b3)) b3.
Definition b5 : world := set_monitor (Some (rest b4)) (emits (fst row0) b4).
Definition b6 : world := set_monitor (Some (rest b5)) b5.
Definition b7 : world := appended b6 third_line.
Definition b8 : world := monitor_tick b7 (mon b7).
Definition b9 : world := at_time 250000 b8.
Definition b10 : world := monitor_tick b9 (mon b9).

Definition first_cursor : ReplayCursor := Cursor (Some (sha256_hex (fst row0))) (Some "1970-01-01T00:01:40.000Z") 95000.

Lemma may_append w line : has_terminator line = false ->
  forallb (fun x => negb (String.eqb (sha256_hex (fst x)) (sha256_hex line))) (rows w) = true ->
  forallb (fun x => bool_decide (entryTimestampMs (fst x) = entryTimestampMs line)) (rows w) = true ->
  step true w (appended w line).
Proof.
  intros Hb Hh Ht. apply step_append. split; [done|]. split.
  - intros _. apply Forall_forall. intros x Hx E. rewrite forallb_forall in Hh. apply list_elem_of_In, Hh in Hx. by rewrite E, String.eqb_refl in Hx.
  - intros x t u Hx _ Hxt Hu _. rewrite forallb_forall in Ht. apply list_elem_of_In, Ht, bool_decide_eq_true in Hx.
    rewrite Hxt, Hu in Hx. injection Hx as ->. lia.
Qed.

Lemma to_b6 : rtc moves a2 b6.
Proof.
  eapply rtc_l; [exists true; apply (may_append a2 (fst row0)); by vm_compute|].
  eapply rtc_l; [exists true; apply (may_append b1 second_line); by vm_compute|].
  eapply rtc_l; [exists true; apply (step_deliver b2 (mon b2) row0);
    [apply mon_runs; by vm_compute|by vm_compute|apply Nat.leb_le; by vm_compute|by vm_compute]|].
  eapply rtc_l; [exists true; apply (performed true b3 MarkDelivered); [by vm_compute|by vm_compute|apply perform_mark]|].
  eapply rtc_l; [exists true; apply (performed true b4 (Emit (fst row0))); [by vm_compute|by vm_compute|apply perform_emit]|].
  eapply rtc_l; [|apply rtc_refl]. exists false.
  apply (performed false b5 (Persist (Some first_cursor))); [by vm_compute|by vm_compute|apply perform_kept].
Qed.

Lemma to_b10 : rtc moves b6 b10.
Proof.
  eapply rtc_l; [exists true; apply (may_append b6 third_line); by vm_compute|].
  eapply rtc_l; [exists true; apply step_check; [apply mon_runs; by vm_compute|by vm_compute]|].
  eapply rtc_l; [exists true; apply (step_tick b8 250000); by vm_compute|].
  eapply rtc_l; [|apply rtc_refl]. exists true. apply step_check; [apply mon_runs; by vm_compute|by vm_compute].
Qed.

Lemma stalled_tail_passes_an_entry :
  rtc moves a0 b10 /\ rows b10 !! 1%nat = Some (second_line, 100000) /\ live (second_line, 100000) /\
  m_pos (mon b10) = 2%nat /\ m_todo (mon b10) = [] /\ emitted b10 = [fst row0] /\ noticed b10 = [] /\ jumped b10 = [1%nat].
Proof.
  split; [exact (transitivity to_a2 (transitivity to_b6 to_b10))|]. split; [by vm_compute|].
  split; [exists 100000; by split; vm_compute|]. by vm_compute.
Qed.
End Instance_.
