(* ===== verification/MonitorLock.v ===== *)
(** * One monitor per inbox: the files it claims ([inbox-monitor.ts])

    Three files of the monitor's state directory: the pidfile of the monitor that
    runs, its heartbeat, and the mutation lock under which the other two are
    taken and removed.  A program over the calls of the file system and of the
    process table, each of which other processes may come between. *)

From stdpp Require Import pretty.
From S2P Require Import Prelude JsDate JsonText Effects SseParser InboxLine InboxMonitor.

Open Scope Z_scope.

(** ** Operations *)

Inductive state_file := PidFile | MutationFile | HeartbeatFile.

#[export] Instance state_file_eq_dec : EqDecision state_file.
Proof. solve_decision. Defined.

Inductive legacy_file := LegacyPid | LegacyHeartbeat.

(** [by_] and [own] are the content of the process that performs the operation,
    for the history of the world; the calls do not have it. *)
Inductive lock_op : Type -> Type :=
| ClaimFile (f : state_file) (content : string) : lock_op (js_error + bool)
| ReadFile (f : state_file) : lock_op (option string)
| UnlinkFile (f : state_file) : lock_op unit
| StatHeartbeat (by_ : string) : lock_op (option Z)
| ReadHeartbeat (by_ : string) : lock_op (option string)
| WriteHeartbeat (nonce : string) : lock_op (js_error + unit)
| IsAlive (pid : Z) : lock_op bool
| DateNow (by_ : string) : lock_op Z
| LegacyExists (f : legacy_file) : lock_op bool
| LegacyRead (f : legacy_file) : lock_op (option string)
| StartTail (pid : Z) (own : string) : lock_op unit
| BeginShutdown (own : string) : lock_op unit
| KillTail (own : string) : lock_op unit.

Notation lprog := (prog lock_op).

Open Scope prog_scope.

(** ** Contents *)

(** [Number.parseInt(s, 10)]; [None] is NaN. *)
Definition parse_int (s : string) : option Z :=
  let unsigned (t : string) : option Z :=
    match fst (digits t) with EmptyString => None | d => Some (digits_value 0 d) end in
  match trim_start s with
  | String c r =>
      if Ascii.eqb c "-" then Z.opp <$> unsigned r
      else if Ascii.eqb c "+" then unsigned r
      else unsigned (String c r)
  | EmptyString => None
  end.

Definition nonempty (s : string) : option string := if String.eqb s "" then None else Some s.

(* src/src/inbox-monitor.ts 567-574 parsePidfileContent *)
Definition parsePidfileContent (trimmed : string) : option Z * option string :=
  match before_char ":" trimmed with
  | None => (parse_int trimmed, None)
  | Some (pid, rest) => (parse_int pid, nonempty (string_drop 1 rest))
  end.

(** [`${pid}:${nonce}`] *)
Definition own_content (pid : Z) (nonce : string) : string := pretty pid +:+ ":" +:+ nonce.

(** ** The calls *)

(** A file of its own with the content, linked into place: one operation, which
    fails when the directory cannot be written. *)
(* src/src/inbox-monitor.ts 962-984 claim *)
Definition claim (f : state_file) (content : string) : lprog bool := perform (ClaimFile f content).

(* src/src/inbox-monitor.ts 992-1000 removeIfContent *)
Definition removeIfContent (f : state_file) (expected : string) : lprog unit :=
  let! content := ask (ReadFile f) in
  if bool_decide (content = Some expected) then ask (UnlinkFile f) else Ret tt.

(** The answer of a liveness test; a process that is not a number is not there. *)
Definition alive (pid : option Z) : lprog bool :=
  match pid with Some p => ask (IsAlive p) | None => Ret false end.

(* src/src/inbox-monitor.ts 798-800 HEARTBEAT_STALE_MS *)
Definition HEARTBEAT_STALE_MS : Z := 5 * 30000.

(* src/src/inbox-monitor.ts 1022-1034 readHeartbeatSidecar *)
Definition readHeartbeatSidecar (by_ : string) : lprog (option (Z * string)) :=
  let! mtime := ask (StatHeartbeat by_) in
  match mtime with
  | None => Ret None
  | Some mtimeMs =>
      let! raw := ask (ReadHeartbeat by_) in
      Ret (match raw with Some s => Some (mtimeMs, trim s) | None => None end)
  end.

(* src/src/inbox-monitor.ts 586-598 isHolderWedged *)
Definition isHolderWedged (by_ : string) (holderNonce : option string) : lprog bool :=
  match holderNonce with
  | None => Ret false
  | Some nonce =>
      let! hb := readHeartbeatSidecar by_ in
      match hb with
      | None => Ret false
      | Some (mtimeMs, hbNonce) =>
          let! now := ask (DateNow by_) in
          Ret ((HEARTBEAT_STALE_MS <=? now - mtimeMs) && String.eqb hbNonce nonce)
      end
  end.

(* src/src/inbox-monitor.ts 832-879 acquireInboxLock *)
Fixpoint acquireInboxLock (attempts : nat) (own : string) : lprog bool :=
  match attempts with
  | O => Ret false
  | S n =>
      let! claimed := claim PidFile own in
      if claimed then Ret true
      else
        let! existing := ask (ReadFile PidFile) in
        match existing with
        | None => acquireInboxLock n own
        | Some existing =>
            let trimmed := trim existing in
            if String.eqb trimmed "" then
              do! removeIfContent PidFile existing; acquireInboxLock n own
            else
              let (pid, holderNonce) := parsePidfileContent trimmed in
              let! live := alive pid in
              if live then
                let! wedged := isHolderWedged own holderNonce in
                if wedged then do! removeIfContent PidFile existing; acquireInboxLock n own
                else Ret false
              else
                do! removeIfContent PidFile existing; acquireInboxLock n own
        end
  end.

(* src/src/inbox-monitor.ts 882-882 LegacyMonitorArtifactState *)
Inductive legacy_state := LegacyAbsent | LegacyLive | LegacyBlocked.

(* src/src/inbox-monitor.ts 899-917 legacyMonitorArtifactState *)
Definition legacyMonitorArtifactState : lprog legacy_state :=
  let! pidExists := ask (LegacyExists LegacyPid) in
  let! heartbeatExists := ask (LegacyExists LegacyHeartbeat) in
  if negb pidExists && negb heartbeatExists then Ret LegacyAbsent
  else if pidExists then
    let! raw := ask (LegacyRead LegacyPid) in
    match raw with
    | None => Ret LegacyBlocked
    | Some raw =>
        let! live := alive (fst (parsePidfileContent (trim raw))) in
        Ret (if live then LegacyLive else LegacyBlocked)
    end
  else Ret LegacyBlocked.

(* src/src/inbox-monitor.ts 927-932 ModernMonitorClaimResult *)
Inductive claim_result := Claimed | MutationBusy | ModernLive | LegacyLiveHolder | LegacyBlockedBy.

Definition refused_by (s : legacy_state) : claim_result :=
  match s with LegacyLive => LegacyLiveHolder | _ => LegacyBlockedBy end.

(** With the calls [main] passes for the supported form (lines 1156 to 1162). *)
(* src/src/inbox-monitor.ts 941-958 claimModernMonitorSafely *)
Definition claimModernMonitorSafely (own : string) : lprog claim_result :=
  let! mine := claim MutationFile own in
  if negb mine then Ret MutationBusy
  else
    pfinally
      (let! before := legacyMonitorArtifactState in
       match before with
       | LegacyAbsent =>
           let! modern := acquireInboxLock 3 own in
           if negb modern then Ret ModernLive
           else
             let! after := legacyMonitorArtifactState in
             match after with
             | LegacyAbsent => Ret Claimed
             | _ => do! removeIfContent PidFile own; Ret (refused_by after)
             end
       | _ => Ret (refused_by before)
       end)
      (removeIfContent MutationFile own).

(** What both releases do: under the mutation lock, or not at all. *)
Definition release_file (f : state_file) (expected own : string) : lprog unit :=
  let! mine := claim MutationFile own in
  if negb mine then Ret tt
  else pfinally (removeIfContent f expected) (removeIfContent MutationFile own).

(* src/src/inbox-monitor.ts 1191-1198 releasePidfile *)
Definition releasePidfile (own : string) : lprog unit := release_file PidFile own own.

(* src/src/inbox-monitor.ts 1201-1208 removeHeartbeat *)
Definition removeHeartbeat (own nonce : string) : lprog unit := release_file HeartbeatFile nonce own.

(** The timer's writes: [ticks] of them before the process is told to stop. *)
Fixpoint heartbeats (ticks : nat) (nonce : string) : lprog unit :=
  match ticks with
  | O => Ret tt
  | S n => do! attempt (perform (WriteHeartbeat nonce)); heartbeats n nonce
  end.

(** The tail goes on printing until it is killed, which comes last, and may take a
    second. *)
(* src/src/inbox-monitor.ts 1410-1421 shutdown *)
Definition shutdown (own nonce : string) : lprog unit :=
  do! ask (BeginShutdown own);
  do! removeHeartbeat own nonce;
  do! releasePidfile own;
  ask (KillTail own).

(** A monitor from its start to its end. *)
(* src/src/inbox-monitor.ts 1147-1219 main *)
Definition monitor_process (pid : Z) (nonce : string) (ticks : nat) : lprog claim_result :=
  let own := own_content pid nonce in
  let! claimResult := claimModernMonitorSafely own in
  match claimResult with
  | Claimed =>
      let! written := attempt (perform (WriteHeartbeat nonce)) in
      match written with
      | inl _ => do! releasePidfile own; Ret Claimed
      | inr _ => do! ask (StartTail pid own); do! heartbeats ticks nonce; do! shutdown own nonce; Ret Claimed
      end
  | r => Ret r
  end.

Close Scope prog_scope.

(** ** The line of a yielding monitor, and its arguments *)

(** [holder] is the file's text, if it could be read, with whether the process it
    names is alive. *)
(* src/src/inbox-monitor.ts 1097-1112 liveMonitorYieldLine *)
Definition liveMonitorYieldLine (inboxPath : string) (holder : option (string * bool)) : string :=
  let livePid := match holder with
                 | Some (raw, live) =>
                     match fst (parsePidfileContent (trim raw)) with
                     | Some pid => if is_safe_integer pid && (0 <? pid) && live then Some pid else None
                     | None => None
                     end
                 | None => None
                 end in
  let who := match livePid with
             | None => "another monitor instance"
             | Some pid => "a live instance (pid " +:+ pretty pid +:+ ")"
             end in
  "borg-inbox-monitor: inbox " +:+ json_quote inboxPath +:+ " is already monitored by " +:+ who +:+
  "; yielding — another session likely holds this worktree's connection.".

(** [resolve] is the path module's. *)
(* src/src/inbox-monitor.ts 1087-1095 parseMonitorInvocation *)
Definition parseMonitorInvocation (resolve : string -> string) (argv : list string) : option (string * option string) :=
  match argv with
  | [path] => if String.eqb path "" then None else Some (path, None)
  | [flag; root; path] =>
      if String.eqb flag "--state-root" && negb (String.eqb root "") && negb (String.eqb path "")
      then Some (path, Some (resolve root)) else None
  | _ => None
  end.

Example pidfile1 : parsePidfileContent "4242:ab12" = (Some 4242, Some "ab12").
Proof. reflexivity. Qed.
Example pidfile2 : parsePidfileContent "4242" = (Some 4242, None).
Proof. reflexivity. Qed.
Example pidfile3 : parsePidfileContent "x:" = (None, None).
Proof. reflexivity. Qed.
