(* ===== verification/MonitorOnce.v ===== *)
(** * At most one monitor follows an inbox

    Any number of monitor processes over the three files: what a monitor holds
    stays its own until it is told to stop, dies, or its heartbeat is found stale. *)

From stdpp Require Import pretty.
From S2P Require Import Prelude JsDate JsonText Effects SseParser InboxLine InboxMonitor MonitorLock.

Open Scope Z_scope.

(** ** The world *)

(** What a process has read of the heartbeat, and when. *)
Inductive observation :=
| SawMtime (m : option Z)
| SawNonce (n : option string)
| SawTime (t : Z).

(** A file is its content and the time it was written.  [lw_tailing]: whose tails
    print; [lw_stopping]: who was told to stop. *)
Record lworld := LW {
  lw_pid : option string; lw_mutation : option string; lw_beat : option (string * Z);
  lw_running : gset Z; lw_clock : Z; lw_seen : list (string * observation); lw_tailing : gset string;
  lw_stopping : gset string }.

Definition file (f : state_file) (w : lworld) : option string :=
  match f with PidFile => lw_pid w | MutationFile => lw_mutation w | HeartbeatFile => fst <$> lw_beat w end.

Definition set_file (f : state_file) (c : option string) (w : lworld) : lworld :=
  match f with
  | PidFile => LW c (lw_mutation w) (lw_beat w) (lw_running w) (lw_clock w) (lw_seen w) (lw_tailing w) (lw_stopping w)
  | MutationFile => LW (lw_pid w) c (lw_beat w) (lw_running w) (lw_clock w) (lw_seen w) (lw_tailing w) (lw_stopping w)
  | HeartbeatFile => LW (lw_pid w) (lw_mutation w) ((fun s => (s, lw_clock w)) <$> c) (lw_running w) (lw_clock w) (lw_seen w) (lw_tailing w) (lw_stopping w)
  end.

Definition see (by_ : string) (o : observation) (w : lworld) : lworld :=
  LW (lw_pid w) (lw_mutation w) (lw_beat w) (lw_running w) (lw_clock w) (lw_seen w ++ [(by_, o)]) (lw_tailing w) (lw_stopping w).
Definition set_tailing (t : gset string) (w : lworld) : lworld :=
  LW (lw_pid w) (lw_mutation w) (lw_beat w) (lw_running w) (lw_clock w) (lw_seen w) t (lw_stopping w).
Definition set_stopping (t : gset string) (w : lworld) : lworld :=
  LW (lw_pid w) (lw_mutation w) (lw_beat w) (lw_running w) (lw_clock w) (lw_seen w) (lw_tailing w) t.

(** The answers a call may have.  A read may fail, an unlink may have no effect; a
    process that is not running may be reported alive (its number is in use
    again), one that runs is. *)
Definition lact (X : Type) (op : lock_op X) : lworld -> X -> lworld -> Prop :=
  match op in lock_op X return lworld -> X -> lworld -> Prop with
  | ClaimFile f c => fun w x w' =>
      file f w = None /\ x = inr true /\ w' = set_file f (Some c) w \/
      w' = w /\ (x = inr false /\ is_Some (file f w) \/ exists e, x = inl e)
  | ReadFile f => fun w x w' => w' = w /\ (x = file f w \/ x = None)
  | UnlinkFile f => fun w _ w' => w' = set_file f None w \/ w' = w
  | StatHeartbeat b => fun w x w' => w' = see b (SawMtime x) w /\ (x = snd <$> lw_beat w \/ x = None)
  | ReadHeartbeat b => fun w x w' => w' = see b (SawNonce x) w /\ (x = fst <$> lw_beat w \/ x = None)
  | WriteHeartbeat n => fun w x w' => w' = set_file HeartbeatFile (Some n) w \/ w' = w /\ exists e, x = inl e
  | IsAlive p => fun w x w' => w' = w /\ (x = true \/ x = false /\ p ∉ lw_running w)
  | DateNow b => fun w x w' => x = lw_clock w /\ w' = see b (SawTime x) w
  | LegacyExists _ => fun w _ w' => w' = w
  | LegacyRead _ => fun w _ w' => w' = w
  | StartTail p c => fun w _ w' => w' = if decide (p ∈ lw_running w) then set_tailing (lw_tailing w ∪ {[c]}) w else w
  | BeginShutdown c => fun w _ w' => w' = set_stopping (lw_stopping w ∪ {[c]}) w
  | KillTail c => fun w _ w' => w' = set_tailing (lw_tailing w ∖ {[c]}) w
  end.

(** A process dies, and follows nothing any more; time passes. *)
Inductive lenv : lworld -> lworld -> Prop :=
| le_dies p w : lenv w
    (LW (lw_pid w) (lw_mutation w) (lw_beat w) (lw_running w ∖ {[p]}) (lw_clock w) (lw_seen w)
        (filter (fun c => fst (parsePidfileContent c) <> Some p) (lw_tailing w)) (lw_stopping w))
| le_time t w : lw_clock w <= t -> lenv w
    (LW (lw_pid w) (lw_mutation w) (lw_beat w) (lw_running w) t (lw_seen w) (lw_tailing w) (lw_stopping w)).

(** Somebody read, one after the other, a time of the heartbeat, this nonce in it
    and a clock at least the limit later. *)
Definition found_stale (w : lworld) (nonce : string) : Prop :=
  exists by_ m raw t l1 l2, trim raw = nonce /\ HEARTBEAT_STALE_MS <= t - m /\
    filter (fun e => fst e = by_) (lw_seen w) = l1 ++ [(by_, SawMtime (Some m)); (by_, SawNonce (Some raw)); (by_, SawTime t)] ++ l2.

(** ** Identities *)


(** A process: its number, and the nonce it drew, 32 hexadecimal digits. *)
Record identity := Identity { i_pid : Z; i_nonce : string }.

Definition identity_ok (i : identity) : Prop :=
  0 < i_pid i /\ i_nonce i <> "" /\ string_forallb is_lower_hex (i_nonce i) = true.

Definition own (i : identity) : string := own_content (i_pid i) (i_nonce i).

Lemma pretty_positive_digits p : 0 < p -> string_forallb is_digit (pretty p) = true /\ digits_value 0 (pretty p) = p /\
  exists c d, pretty p = String c d.
Proof.
  intros Hp. assert (E : pretty p = pretty (Z.to_N p)) by (destruct p as [|q|q]; [done|done|lia]). rewrite E. unfold pretty, pretty_N.
  rewrite decide_False by lia. destruct (pretty_N_go_digits (Z.to_N p)) as (d & Hs & Hall & Hval & Hhead).
  rewrite Hs, append_nil_r. split; [done|]. split; [lia|]. destruct Hhead as (c & d' & -> & _); [lia|eauto].
Qed.

Lemma no_space_trim_start s : string_forallb (fun c => negb (is_ascii_space c)) s = true -> trim_start s = s.
Proof. destruct s as [|c s]; [done|]. cbn. intros [Hc _]%andb_true_iff. apply negb_true_iff in Hc. by rewrite Hc. Qed.

Lemma no_space_trim_end s : string_forallb (fun c => negb (is_ascii_space c)) s = true -> trim_end s = s.
Proof.
  induction s as [|c s IH]; [done|]. cbn [string_forallb trim_end]. intros [Hc Hs]%andb_true_iff. apply negb_true_iff in Hc.
  rewrite IH by done. by destruct s; rewrite ?Hc.
Qed.

Lemma no_space_trim s : string_forallb (fun c => negb (is_ascii_space c)) s = true -> trim s = s.
Proof. intros Hs. unfold trim. by rewrite no_space_trim_start, no_space_trim_end. Qed.

Lemma forallb_impl (p q : ascii -> bool) s : (forall c, p c = true -> q c = true) -> string_forallb p s = true -> string_forallb q s = true.
Proof. intros Hpq. induction s as [|c s IH]; [done|]. cbn. intros [H1 H2]%andb_true_iff. by rewrite Hpq, IH. Qed.

Lemma before_char_digits d r : string_forallb is_digit d = true -> before_char ":" (d +:+ String ":" r) = Some (d, String ":" r).
Proof.
  induction d as [|c d IH]; [done|]. cbn [string_forallb]. intros [Hc Hd]%andb_true_iff. rewrite append_cons. cbn [before_char].
  destruct (Ascii.eqb_spec c ":") as [->|_]; [done|]. by rewrite IH.
Qed.

Lemma parse_int_digits p : 0 < p -> parse_int (pretty p) = Some p.
Proof.
  intros Hp. destruct (pretty_positive_digits p Hp) as (Hd & Hv & c & d & E). unfold parse_int.
  rewrite no_space_trim_start.
  - rewrite E in *. cbn in Hd. apply andb_true_iff in Hd as [Hc Hd].
    assert (Ascii.eqb c "-" = false /\ Ascii.eqb c "+" = false) as [-> ->].
    { split; apply Ascii.eqb_neq; intros ->; done. }
    rewrite <-(append_nil_r (String c d)), digits_app; [cbn [fst]; by rewrite Hv|cbn; by rewrite Hc|done].
  - eapply forallb_impl; [|exact Hd]. intros x Hx. destruct (is_ascii_space x) eqn:Ex; [|done].
    unfold is_digit, is_ascii_space, ascii_between in *. apply orb_true_iff in Ex. rewrite !andb_true_iff, !Nat.leb_le in *. lia.
Qed.

Lemma parse_own i : identity_ok i -> trim (own i) = own i /\ own i <> "" /\
  parsePidfileContent (own i) = (Some (i_pid i), Some (i_nonce i)).
Proof.
  intros (Hp & Hn & Hh). destruct (pretty_positive_digits _ Hp) as (Hd & _ & c & d & E). unfold own, own_content. split; [|split].
  - apply no_space_trim. rewrite string_forallb_app, append_cons. cbn [string_forallb].
    assert (Hsp : forall x, is_digit x || ascii_between 97 102 x = true -> negb (is_ascii_space x) = true).
    { intros x Hx. destruct (is_ascii_space x) eqn:Ex; [|done]. apply orb_true_iff in Ex.
      unfold is_digit, ascii_between in *. rewrite ?orb_true_iff, !andb_true_iff, !Nat.leb_le in *. lia. }
    apply andb_true_intro. split; [|apply andb_true_intro; split; [done|]].
    + eapply forallb_impl; [|exact Hd]. intros x Hx. apply Hsp. by rewrite Hx.
    + eapply forallb_impl; [|exact Hh]. exact Hsp.
  - by rewrite E.
  - unfold parsePidfileContent. rewrite append_cons, append_nil_l, before_char_digits by done. rewrite parse_int_digits by done.
    cbn [string_drop]. unfold nonempty. by destruct (String.eqb_spec (i_nonce i) "").
Qed.

(** ** What a process knows and holds

    [p_inside]: it holds the mutation lock.  [p_known]: what it knows the pidfile
    to contain, [p_doomed]: that this may be removed.  [p_holds]: it has claimed
    the pidfile and not let go.  [p_tails]: it follows the inbox
    and was not told to stop.  [p_saw]: what it
    has read of heartbeats. *)
Record pstate := P {
  p_id : identity; p_inside : bool; p_known : option string; p_doomed : bool; p_holds : bool; p_tails : bool;
  p_saw : list observation }.

(** What condemns a pidfile: no process named, none running, a stale heartbeat. *)
Definition says_nothing (x : string) : Prop := trim x = "" \/ fst (parsePidfileContent (trim x)) = None.

Definition condemned (w : lworld) (x : string) : Prop :=
  says_nothing x \/
  (exists p, fst (parsePidfileContent (trim x)) = Some p /\ p ∉ lw_running w) \/
  (exists n, snd (parsePidfileContent (trim x)) = Some n /\ found_stale w n).

(** A process that may have lost its place: it is dead, or was found stale. *)
Definition lost (w : lworld) (i : identity) : Prop := i_pid i ∉ lw_running w \/ found_stale w (i_nonce i).

(** The last three readings condemn [x]. *)
Definition shown_stale (saw : list observation) (x : string) : Prop :=
  exists l m raw t, saw = l ++ [SawMtime (Some m); SawNonce (Some raw); SawTime t] /\ HEARTBEAT_STALE_MS <= t - m /\
    snd (parsePidfileContent (trim x)) = Some (trim raw).

Inductive astep : pstate -> lworld -> pstate -> lworld -> Prop :=
| as_quiet s w : astep s w s w
| as_beat s w c : astep s w s (set_file HeartbeatFile c w)
| as_see s w o d : (d = true -> p_doomed s = true \/ exists x, p_known s = Some x /\ shown_stale (p_saw s ++ [o]) x) ->
    astep s w (P (p_id s) (p_inside s) (p_known s) d (p_holds s) (p_tails s) (p_saw s ++ [o])) (see (own (p_id s)) o w)
| as_condemn s w x p : p_known s = Some x -> fst (parsePidfileContent (trim x)) = Some p -> p ∉ lw_running w ->
    astep s w (P (p_id s) (p_inside s) (p_known s) true (p_holds s) (p_tails s) (p_saw s)) w
| as_enter s w : lw_mutation w = None ->
    astep s w (P (p_id s) true None false (p_holds s) (p_tails s) (p_saw s)) (set_file MutationFile (Some (own (p_id s))) w)
| as_leave s w : p_inside s = true ->
    astep s w (P (p_id s) false None false (p_holds s) (p_tails s) (p_saw s)) (set_file MutationFile None w)
| as_learn s w x d : p_inside s = true -> lw_pid w = Some x -> (d = true -> says_nothing x) ->
    astep s w (P (p_id s) true (Some x) d (p_holds s) (p_tails s) (p_saw s)) w
| as_remove s w : p_doomed s = true ->
    astep s w (P (p_id s) (p_inside s) None false (p_holds s) (p_tails s) (p_saw s)) (set_file PidFile None w)
| as_release s w : p_known s = Some (own (p_id s)) -> p_tails s = false ->
    astep s w (P (p_id s) (p_inside s) None false false false (p_saw s)) (set_file PidFile None w)
| as_claim s w : p_inside s = true -> lw_pid w = None ->
    astep s w (P (p_id s) true None false true (p_tails s) (p_saw s)) (set_file PidFile (Some (own (p_id s))) w)
| as_start s w : p_holds s = true ->
    astep s w (P (p_id s) (p_inside s) (p_known s) (p_doomed s) true true (p_saw s))
      (if decide (i_pid (p_id s) ∈ lw_running w) then set_tailing (lw_tailing w ∪ {[own (p_id s)]}) w else w)
| as_stop s w :
    astep s w (P (p_id s) (p_inside s) (p_known s) (p_doomed s) (p_holds s) false (p_saw s))
      (set_stopping (lw_stopping w ∪ {[own (p_id s)]}) w)
| as_kill s w : astep s w s (set_tailing (lw_tailing w ∖ {[own (p_id s)]}) w).

(** ** The invariant *)

Record excl (ss : list pstate) (w : lworld) : Prop := {
  ex_ok s : s ∈ ss -> identity_ok (p_id s);
  ex_ids i j s s' : ss !! i = Some s -> ss !! j = Some s' -> p_id s = p_id s' -> i = j;
  ex_inside s : s ∈ ss -> p_inside s = true -> lw_mutation w = Some (own (p_id s));
  ex_known s x : s ∈ ss -> p_known s = Some x -> p_inside s = true /\ lw_pid w = Some x;
  ex_doomed s : s ∈ ss -> p_doomed s = true -> exists x, p_known s = Some x /\ condemned w x;
  ex_holds s : s ∈ ss -> p_holds s = true -> lw_pid w = Some (own (p_id s)) \/ lost w (p_id s);
  ex_tails s : s ∈ ss -> own (p_id s) ∈ lw_tailing w -> p_tails s = true \/ own (p_id s) ∈ lw_stopping w;
  ex_tails_holds s : s ∈ ss -> p_tails s = true -> p_holds s = true;
  ex_tailing c : c ∈ lw_tailing w -> exists s, s ∈ ss /\ c = own (p_id s) /\ i_pid (p_id s) ∈ lw_running w;
  ex_saw s : s ∈ ss -> filter (fun e => fst e = own (p_id s)) (lw_seen w) = map (pair (own (p_id s))) (p_saw s)
}.

Lemma own_inj i j : identity_ok i -> identity_ok j -> own i = own j -> i = j.
Proof.
  intros Hi Hj E. destruct (parse_own i Hi) as (_ & _ & H1), (parse_own j Hj) as (_ & _ & H2). rewrite E, H2 in H1.
  injection H1 as H1 H1'. destruct i, j; cbn in *. congruence.
Qed.

Lemma condemned_own w i : identity_ok i -> condemned w (own i) -> lost w i.
Proof.
  intros Hi Hc. destruct (parse_own i Hi) as (Ht & Hne & Hp). unfold condemned, says_nothing in Hc. rewrite Ht, Hp in Hc. cbn in Hc.
  destruct Hc as [[?|?]|[(p & [= <-] & ?)|(n & [= <-] & ?)]]; [done|done|by left|by right].
Qed.

(** Worlds in which nothing that condemns is taken back. *)
Definition worsens (w w' : lworld) : Prop :=
  lw_running w' ⊆ lw_running w /\ lw_stopping w ⊆ lw_stopping w' /\ exists l, lw_seen w' = lw_seen w ++ l.

Lemma found_stale_worsens w w' n : worsens w w' -> found_stale w n -> found_stale w' n.
Proof.
  intros (_ & _ & l & El) (b & m & raw & t & l1 & l2 & H1 & H2 & H3). exists b, m, raw, t, l1, (l2 ++ filter (fun e => fst e = b) l).
  split; [done|]. split; [done|]. rewrite El, filter_app, H3. by rewrite !app_assoc.
Qed.

Lemma condemned_worsens w w' x : worsens w w' -> condemned w x -> condemned w' x.
Proof.
  intros Hw [?|[(p & ? & Hp)|(n & ? & ?)]]; [by left|right; left|right; right].
  - exists p. split; [done|]. destruct Hw as [Hr _]. set_solver.
  - exists n. split; [done|]. by eapply found_stale_worsens.
Qed.

Lemma lost_worsens w w' i : worsens w w' -> lost w i -> lost w' i.
Proof. intros Hw [?|?]; [left|right; by eapply found_stale_worsens]. destruct Hw as [Hr _]. set_solver. Qed.

Lemma step_worsens s w s' w' : astep s w s' w' -> worsens w w'.
Proof.
  intros Hs. assert (Hrefl : forall u v : lworld, lw_running v = lw_running u -> lw_stopping u ⊆ lw_stopping v -> lw_seen v = lw_seen u -> worsens u v).
  { intros u v E1 E0 E2. split; [by rewrite E1|]. split; [done|]. exists []. by rewrite E2, app_nil_r. }
  destruct Hs; try (by apply Hrefl); [split; [done|]; cbn; eauto|case_decide; by apply Hrefl|]. apply Hrefl; cbn; [done|set_solver|done].
Qed.

(** What a step has to show of the process that makes it, and of the others. *)
Record mine (s : pstate) (w : lworld) : Prop := {
  mi_inside : p_inside s = true -> lw_mutation w = Some (own (p_id s));
  mi_known x : p_known s = Some x -> p_inside s = true /\ lw_pid w = Some x;
  mi_doomed : p_doomed s = true -> exists x, p_known s = Some x /\ condemned w x;
  mi_holds : p_holds s = true -> lw_pid w = Some (own (p_id s)) \/ lost w (p_id s);
  mi_tails : own (p_id s) ∈ lw_tailing w -> p_tails s = true \/ own (p_id s) ∈ lw_stopping w;
  mi_tails_holds : p_tails s = true -> p_holds s = true;
  mi_saw : filter (fun e => fst e = own (p_id s)) (lw_seen w) = map (pair (own (p_id s))) (p_saw s)
}.

Lemma excl_mine ss w s : excl ss w -> s ∈ ss -> mine s w.
Proof. intros [] Hs. constructor; eauto. Qed.

Record spares (ss : list pstate) (s : pstate) (w w' : lworld) : Prop := {
  sp_inside o : o ∈ ss -> p_id o <> p_id s -> p_inside o = true -> lw_mutation w' = lw_mutation w /\ lw_pid w' = lw_pid w;
  sp_pid o : o ∈ ss -> p_id o <> p_id s -> p_holds o = true -> lw_pid w = Some (own (p_id o)) ->
    lw_pid w' = Some (own (p_id o)) \/ lost w' (p_id o);
  sp_tailing c : c ∈ lw_tailing w' -> c ∈ lw_tailing w \/ c = own (p_id s) /\ i_pid (p_id s) ∈ lw_running w;
  sp_running : lw_running w' = lw_running w;
  sp_seen b : b <> own (p_id s) -> filter (fun e => fst e = b) (lw_seen w') = filter (fun e => fst e = b) (lw_seen w)
}.

Lemma excl_update ss w i s s' w' : excl ss w -> ss !! i = Some s -> p_id s' = p_id s -> worsens w w' ->
  mine s' w' -> spares ss s w w' -> excl (<[i := s']> ss) w'.
Proof.
  intros He Hi Eid Hw Hm Hsp. assert (Hlt := lookup_lt_Some _ _ _ Hi). assert (Hs := list_elem_of_lookup_2 _ _ _ Hi).
  assert (Hin : forall o, o ∈ <[i := s']> ss -> o = s' \/ o ∈ ss /\ p_id o <> p_id s).
  { intros o [j Hj]%list_elem_of_lookup. apply list_lookup_insert_Some in Hj as [(-> & -> & _)|[Hne Hj]]; [by left|right].
    split; [by eapply list_elem_of_lookup_2|]. intros E. apply Hne. symmetry. by eapply (ex_ids ss w). }
  assert (Hown : forall o, o ∈ ss -> p_id o <> p_id s -> own (p_id o) <> own (p_id s)).
  { intros o Ho Hne E. apply Hne. apply own_inj; [by eapply ex_ok..|done]. }
  constructor.
  - intros o [->|[Ho _]]%Hin; [rewrite Eid|]; by eapply ex_ok.
  - assert (Hold : forall k z, <[i := s']> ss !! k = Some z -> exists y, ss !! k = Some y /\ p_id y = p_id z).
    { intros k z Hk. apply list_lookup_insert_Some in Hk as [(<- & <- & _)|[_ Hk]]; eauto. }
    intros j k o o' (y & Hy & <-)%Hold (y' & Hy' & <-)%Hold E. by eapply (ex_ids ss w).
  - intros o [->|[Ho Hne]]%Hin; [apply Hm|]. intros Hins. destruct (sp_inside _ _ _ _ Hsp o Ho Hne Hins) as [-> _]. by eapply ex_inside.
  - intros o x [->|[Ho Hne]]%Hin; [apply Hm|]. intros Hk. destruct (ex_known ss w He o x Ho Hk) as [Hins Hx].
    split; [done|]. by destruct (sp_inside _ _ _ _ Hsp o Ho Hne Hins) as [_ ->].
  - intros o [->|[Ho Hne]]%Hin; [apply Hm|]. intros Hd. destruct (ex_doomed ss w He o Ho Hd) as (x & Hx & Hc).
    exists x. split; [done|]. by eapply condemned_worsens.
  - intros o [->|[Ho Hne]]%Hin; [apply Hm|]. intros Hh. destruct (ex_holds ss w He o Ho Hh) as [Hp|Hl]; [by eapply sp_pid|].
    right. by eapply lost_worsens.
  - intros o [->|[Ho Hne]]%Hin; [apply Hm|]. intros Ht. apply (sp_tailing _ _ _ _ Hsp) in Ht as [Ht|[E _]];
      [destruct (ex_tails ss w He o Ho Ht) as [?|?]; [by left|right; by apply Hw]|].
    by apply Hown in E.
  - intros o [->|[Ho Hne]]%Hin; [apply Hm|]. by eapply ex_tails_holds.
  - intros c Hc. assert (Hback : forall o, o ∈ ss -> exists o', o' ∈ <[i := s']> ss /\ p_id o' = p_id o).
    { intros o [j Hj]%list_elem_of_lookup. destruct (decide (i = j)) as [<-|Hne].
      - exists s'. split; [|congruence]. apply list_elem_of_lookup. exists i. by apply list_lookup_insert_eq.
      - exists o. split; [|done]. apply list_elem_of_lookup. exists j. by rewrite list_lookup_insert_ne. }
    assert (exists o, o ∈ ss /\ c = own (p_id o) /\ i_pid (p_id o) ∈ lw_running w) as (o & Ho & -> & Hr).
    { apply (sp_tailing _ _ _ _ Hsp) in Hc as [Hc|[-> ?]]; [by apply (ex_tailing ss w)|eauto]. }
    destruct (Hback o Ho) as (o' & Ho' & E). exists o'. by rewrite E, (sp_running _ _ _ _ Hsp).
  - intros o [->|[Ho Hne]]%Hin; [apply Hm|]. rewrite (sp_seen _ _ _ _ Hsp) by (by apply Hown). by eapply ex_saw.
Qed.

Lemma astep_excl ss w i s s' w' : excl ss w -> ss !! i = Some s -> astep s w s' w' -> excl (<[i := s']> ss) w'.
Proof.
  intros He Hi Hs. pose proof (step_worsens _ _ _ _ Hs) as Hw. assert (Hin := list_elem_of_lookup_2 _ _ _ Hi).
  pose proof (excl_mine _ _ _ He Hin) as Hm. pose proof (ex_ok _ _ He s Hin) as Hok.
  assert (Halone : forall o, p_inside s = true -> o ∈ ss -> p_id o <> p_id s -> p_inside o = true -> False).
  { intros o H1 Ho Hne H2. apply Hne, own_inj; [by eapply ex_ok|done|].
    pose proof (ex_inside _ _ He s Hin H1). pose proof (ex_inside _ _ He o Ho H2). congruence. }
  assert (Hdi : p_doomed s = true -> p_inside s = true).
  { intros Hd. destruct (mi_doomed _ _ Hm Hd) as (x & Hx & _). by apply (mi_known _ _ Hm) in Hx as [? _]. }
  eapply excl_update; [done|done|by destruct Hs|done| |].
  - destruct Hm. destruct Hs as [|s w c|s w o d Hd|s w x p Hx Hp Hr| | |s w x d Hins Hx Hd|s w Hd| | | | |]; try case_decide; constructor; cbn; eauto; try done.
    + intros ->. destruct (Hd eq_refl) as [Hd'|(x & Hx & l & m & raw & t & Hsaw & Ht & Hn)].
      * destruct (mi_doomed0 Hd') as (x & Hx & Hc). exists x. split; [done|]. by eapply condemned_worsens.
      * exists x. split; [done|]. right; right. exists (trim raw). split; [done|].
        exists (own (p_id s)), m, raw, t, (map (pair (own (p_id s))) l), []. split; [done|]. split; [done|].
        cbn. rewrite filter_app, mi_saw0, filter_cons_True by done. cbn.
        trans (map (pair (own (p_id s))) (p_saw s ++ [o])); [by rewrite map_app|]. by rewrite Hsaw, map_app.
    + intros Hh. destruct (mi_holds0 Hh); [by left|right]. by eapply lost_worsens.
    + rewrite filter_app, mi_saw0, filter_cons_True by done. by rewrite map_app.
    + intros _. exists x. split; [done|]. right; left. eauto.
    + intros y [= <-]. done.
    + intros ->. exists x. split; [done|]. left. auto.
    + intros Hh. right. destruct (mi_doomed0 Hd) as (x & Hx & Hc). destruct (mi_known0 x Hx) as [_ Hp].
      destruct (mi_holds0 Hh) as [Hp'|Hl]; [|by eapply lost_worsens]. eapply lost_worsens; [done|]. apply condemned_own; [done|]. congruence.
    + set_solver.
    + set_solver.
    + set_solver.
  - destruct Hs as [|s w c|s w o d Hd|s w x p Hx Hp Hr|s w Hfree|s w Hins|s w x d Hins Hx Hd|s w Hd|s w Hk Ht|s w Hins Hfree|s w Hh| |]; try case_decide; constructor; cbn; auto.
    + intros b Hb. rewrite filter_app, filter_cons_False, filter_nil, app_nil_r by (by intros ?; apply Hb). done.
    + intros o Ho _ Hio. pose proof (ex_inside _ _ He o Ho Hio). congruence.
    + intros o Ho Hne Hio. destruct (Halone o Hins Ho Hne Hio).
    + intros o Ho Hne Hio. destruct (Halone o (Hdi Hd) Ho Hne Hio).
    + intros o Ho Hne Hh Hp. right. eapply lost_worsens; [exact Hw|]. destruct (mi_doomed _ _ Hm Hd) as (x & Hx & Hc).
      apply (mi_known _ _ Hm) in Hx as [_ Hx]. apply condemned_own; [by eapply ex_ok|]. congruence.
    + intros o Ho Hne Hio. apply (mi_known _ _ Hm) in Hk as [Hins _]. destruct (Halone o Hins Ho Hne Hio).
    + intros o Ho Hne Hh Hp. exfalso. apply (mi_known _ _ Hm) in Hk as [_ Hx]. apply Hne, own_inj; [by eapply ex_ok|done|congruence].
    + intros o Ho Hne Hio. destruct (Halone o Hins Ho Hne Hio).
    + intros o Ho Hne Hh Hp. congruence.
    + set_solver.
    + set_solver.
Qed.

(** * The monitor's programs keep to the protocol

    Each operation of [monitor_process] is a step of the abstract system of
    the part above, so at most one monitor follows an inbox. *)

Notation sim := (simulates lact astep).

(** The process is the same, and as far as before. *)
Definition like (s s' : pstate) : Prop :=
  p_id s' = p_id s /\ p_inside s' = p_inside s /\ p_holds s' = p_holds s /\ p_tails s' = p_tails s.
(** The same, perhaps outside the mutation lock. *)
Definition same (s s' : pstate) : Prop := p_id s' = p_id s /\ p_holds s' = p_holds s /\ p_tails s' = p_tails s.

Ltac keep := intros ? ? Hkeep; exact Hkeep.
Ltac quietly := eexists; split; [apply as_quiet|].

Lemma sim_finally {A} s (p : lprog A) (q : lprog unit) Q R :
  sim s p (fun a s' => sim s' q (fun _ s'' => Q a s'') R) (fun e s' => sim s' q (fun _ s'' => R e s'') R) ->
  sim s (pfinally p q) Q R.
Proof.
  intros Hp. unfold pfinally. apply simulates_bind, simulates_attempt. eapply simulates_mono; [exact Hp|..].
  - intros a s' Hq. cbn. apply simulates_bind. eapply simulates_mono; [exact Hq|done|done].
  - intros e s' Hq. cbn. apply simulates_bind. eapply simulates_mono; [exact Hq|done|done].
Qed.

(** Verify, then unlink: what each outcome has to be a step of. *)
Lemma sim_remove s f x Q R :
  Q tt s ->
  (forall w, file f w = Some x -> exists s1, astep s w s1 w /\ Q tt s1 /\
     forall w', exists s', astep s1 w' s' (set_file f None w') /\ Q tt s') ->
  sim s (removeIfContent f x) Q R.
Proof.
  intros Hq Hx. unfold removeIfContent. apply simulates_bind. cbn [ask simulates]. intros w content w' [-> Hc].
  case_bool_decide as E; [|quietly; exact Hq]. subst content. destruct Hc as [Hc|Hc]; [|done].
  destruct (Hx w (eq_sym Hc)) as (s1 & Hs & Hq1 & Hrest). exists s1. split; [exact Hs|]. cbn [ask simulates].
  intros w1 [] w2 [->| ->]; [|quietly; exact Hq1]. apply Hrest.
Qed.

(** Letting go of the mutation lock. *)
Lemma sim_unlock s R : p_inside s = true ->
  sim s (removeIfContent MutationFile (own (p_id s))) (fun _ s' => same s s') R.
Proof.
  intros Hin. apply sim_remove; [done|]. intros w _. exists s. split; [apply as_quiet|]. split; [done|].
  intros w'. eexists. split; [by apply as_leave|done].
Qed.

(** Removing a pidfile that is condemned. *)
Lemma sim_reap s x R : p_doomed s = true -> sim s (removeIfContent PidFile x) (fun _ s' => like s s') R.
Proof.
  intros Hd. apply sim_remove; [done|]. intros w _. exists s. split; [apply as_quiet|]. split; [done|].
  intros w'. eexists. split; [by apply as_remove|done].
Qed.

(** Removing one's own. *)
Lemma sim_let_go s R : p_inside s = true -> p_tails s = false ->
  sim s (removeIfContent PidFile (own (p_id s))) (fun _ s' => p_id s' = p_id s /\ p_inside s' = true /\ p_tails s' = false) R.
Proof.
  intros Hin Ht. apply sim_remove; [done|]. intros w Hw. eexists. split; [by apply (as_learn s w (own (p_id s)) false)|]. split; [done|].
  intros w'. eexists. split; [by apply as_release|done].
Qed.

(** Whether the holder of the pidfile is alive. *)
Lemma sim_alive s x pid R : p_known s = Some x -> fst (parsePidfileContent (trim x)) = pid ->
  (pid = None -> p_doomed s = true) ->
  sim s (alive pid) (fun b s' => like s s' /\ p_known s' = Some x /\ (b = false -> p_doomed s' = true)) R.
Proof.
  intros Hk Hp Hn. destruct pid as [p|]; cbn [alive ask simulates]; [|by repeat split; auto].
  intros w b w' [-> [->|[-> Hr]]]; [by quietly|]. eexists. split; [by eapply (as_condemn s w x)|]. by repeat split.
Qed.

(** One reading of the heartbeat. *)
Definition saw_too (s : pstate) (o : observation) : pstate :=
  P (p_id s) (p_inside s) (p_known s) false (p_holds s) (p_tails s) (p_saw s ++ [o]).

Lemma saw_step s w o : astep s w (saw_too s o) (see (own (p_id s)) o w).
Proof. by apply as_see. Qed.

(** Whether it is wedged. *)
Lemma sim_wedged s x nonce R : p_known s = Some x -> snd (parsePidfileContent (trim x)) = nonce ->
  sim s (isHolderWedged (own (p_id s)) nonce) (fun b s' => like s s' /\ (b = true -> p_doomed s' = true)) R.
Proof.
  intros Hk Hp. destruct nonce as [nonce|]; [|done]. cbn [isHolderWedged readHeartbeatSidecar ask pbind simulates].
  intros w m w1 [-> _]. eexists. split; [apply saw_step|]. destruct m as [m|]; [|done]. cbn [ask pbind simulates].
  intros w1 raw w2 [-> _]. eexists. split; [apply (saw_step (saw_too s _))|]. destruct raw as [raw|]; [|done]. cbn [ask pbind simulates].
  intros w2 t w3 [Et ->]. clear Et.
  destruct ((HEARTBEAT_STALE_MS <=? t - m) && String.eqb (trim raw) nonce) eqn:E;
    [|eexists; split; [apply (saw_step (saw_too (saw_too s _) _))|done]].
  apply andb_true_iff in E as [E1 E2]. apply Z.leb_le in E1. apply String.eqb_eq in E2.
  eexists. split; [apply (as_see (saw_too (saw_too s _) _) w2 (SawTime t) true)|done].
  intros _. right. exists x. split; [done|]. exists (p_saw s), m, raw, t. cbn [saw_too p_saw]. rewrite <-!app_assoc.
  split; [done|]. split; [done|]. by rewrite E2.
Qed.

(** Taking the pidfile. *)
Lemma sim_acquire n s R : p_inside s = true ->
  (forall e s', p_id s' = p_id s -> p_inside s' = true -> p_tails s' = p_tails s -> R e s') ->
  sim s (acquireInboxLock n (own (p_id s)))
    (fun b s' => p_id s' = p_id s /\ p_inside s' = true /\ p_tails s' = p_tails s /\ (b = true -> p_holds s' = true)) R.
Proof.
  remember (p_id s) as i eqn:Ei. remember (p_tails s) as t eqn:Et. revert s Ei Et.
  induction n as [|n IH]; intros s Ei Et Hin HR; [done|]. subst i t. cbn [acquireInboxLock].
  assert (Hagain : forall s', like s s' -> sim s' (acquireInboxLock n (own (p_id s)))
    (fun b s' => p_id s' = p_id s /\ p_inside s' = true /\ p_tails s' = p_tails s /\ (b = true -> p_holds s' = true)) R).
  { intros s' (E1 & E2 & E3 & E4). apply IH; [done|done|congruence|exact HR]. }
  assert (Hreap : forall s' x, like s s' -> p_doomed s' = true ->
    sim s' (pbind (removeIfContent PidFile x) (fun _ => acquireInboxLock n (own (p_id s))))
    (fun b s' => p_id s' = p_id s /\ p_inside s' = true /\ p_tails s' = p_tails s /\ (b = true -> p_holds s' = true)) R).
  { intros s' x (E1 & E2 & E3 & E4) Hd. apply simulates_bind. eapply simulates_mono; [by apply sim_reap| |done].
    intros _ s'' (F1 & F2 & F3 & F4). apply Hagain. repeat split; congruence. }
  apply simulates_bind. unfold claim. apply simulates_perform. intros w x w' [(Hfree & -> & ->)|[-> [[-> _]|[e ->]]]].
  - eexists. split; [by apply as_claim|]. done.
  - quietly. cbn [simulates pbind ask]. intros w1 content w2 [-> Hc]. destruct content as [x|]; [|quietly; by apply Hagain].
    destruct Hc as [Hc|Hc]; [|done]. symmetry in Hc. clear w.
    destruct (parsePidfileContent (trim x)) as [pid nonce] eqn:Ep.
    set (d := bool_decide (trim x = "" \/ pid = None)).
    eexists. split; [apply (as_learn s w1 x d); [done|done|]|].
    { intros [?|?]%bool_decide_eq_true; [by left|right]. by rewrite Ep. }
    destruct (String.eqb_spec (trim x) "") as [Etx|Etx].
    { apply Hreap; [by repeat split|]. cbn. apply bool_decide_eq_true. by left. }
    apply simulates_bind. eapply simulates_mono; [apply (sim_alive _ x pid); [done|by rewrite Ep|]| |done].
    { intros ->. apply bool_decide_eq_true. by right. }
    intros b s1 ((E1 & E2 & E3 & E4) & Hk & Hd). cbn in E1, E2, E3, E4.
    assert (Hl1 : like s s1) by (repeat split; congruence).
    destruct b; [|by apply Hreap; auto].
    apply simulates_bind. rewrite <-E1. eapply simulates_mono; [apply (sim_wedged s1 x nonce); [done|by rewrite Ep]| |done].
    intros b s2 ((F1 & F2 & F3 & F4) & Hd2). assert (Hl2 : like s s2) by (repeat split; congruence).
    destruct b; [|by destruct Hl2 as (? & ? & ? & ?); repeat split; congruence]. rewrite E1. by apply Hreap; auto.
  - quietly. by apply HR.
Qed.

Lemma sim_legacy s R : sim s legacyMonitorArtifactState (fun _ s' => s' = s) R.
Proof.
  unfold legacyMonitorArtifactState. cbn [ask pbind simulates]. intros w a w1 ->. quietly. intros w1 b w2 ->. quietly.
  destruct (negb a && negb b); [done|]. destruct a; [|done]. cbn [ask pbind simulates]. intros w2 raw w3 ->. quietly.
  destruct raw as [raw|]; [|done]. apply simulates_bind. unfold alive. destruct (fst _); [|done].
  cbn [ask simulates]. intros w3 b' w4 [-> _]. by quietly.
Qed.

(** What is left of a process that may have failed: who it is. *)
Definition quiet_end (i : identity) (s : pstate) : Prop := p_id s = i /\ p_tails s = false.

(** Taking the mutation lock, or leaving it to another. *)
Lemma sim_take_lock s (Q : bool -> pstate -> Prop) R :
  (forall s', p_id s' = p_id s -> p_holds s' = p_holds s -> p_tails s' = p_tails s -> p_inside s' = true -> Q true s') ->
  Q false s -> (forall e, R e s) -> sim s (claim MutationFile (own (p_id s))) Q R.
Proof.
  intros Ht Hf HR. unfold claim. apply simulates_perform. intros w x w' [(Hfree & -> & ->)|[-> [[-> _]|[e ->]]]].
  - eexists. split; [by apply as_enter|]. by apply Ht.
  - by quietly.
  - by quietly.
Qed.

Lemma sim_claim s R : p_tails s = false -> (forall e s', quiet_end (p_id s) s' -> R e s') ->
  sim s (claimModernMonitorSafely (own (p_id s)))
    (fun r s' => quiet_end (p_id s) s' /\ (r = Claimed -> p_holds s' = true)) R.
Proof.
  intros Ht HR. unfold claimModernMonitorSafely. apply simulates_bind.
  apply sim_take_lock; [|cbn; done|intros e; by apply HR]. intros s1 E1 _ Et Hin. cbn [negb]. rewrite Ht in Et. rewrite <-E1 in *. clear E1 Ht s.
  assert (Hunlock : forall (r : claim_result) s', p_id s' = p_id s1 -> p_inside s' = true -> p_tails s' = false ->
    (r = Claimed -> p_holds s' = true) ->
    sim s' (removeIfContent MutationFile (own (p_id s1))) (fun _ s'' => quiet_end (p_id s1) s'' /\ (r = Claimed -> p_holds s'' = true)) R).
  { intros r s' E Hi Htl Hh. rewrite <-E. eapply simulates_mono; [by apply sim_unlock| |keep].
    intros _ s'' (F1 & F2 & F3). split; [split; congruence|]. intros Hr. rewrite F2. auto. }
  apply sim_finally, simulates_bind. eapply simulates_mono; [apply sim_legacy| |keep]. intros before s' ->.
  destruct before; [|cbn [simulates refused_by]; by apply Hunlock..]. apply simulates_bind. eapply simulates_mono.
  - apply (sim_acquire 3 s1 (fun e s' => sim s' (removeIfContent MutationFile (own (p_id s1))) (fun _ s'' => R e s'') R)); [done|].
    intros e s' E Hi Htl. rewrite <-E. eapply simulates_mono; [by apply sim_unlock| |keep].
    intros _ s'' (F1 & F2 & F3). apply HR. split; congruence.
  - intros modern s2 (E & Hi & Htl & Hh). destruct modern; cbn [negb]; [|apply Hunlock; congruence].
    apply simulates_bind. eapply simulates_mono; [apply sim_legacy| |keep]. intros after s' ->.
    assert (Hdrop : sim s2 (pbind (removeIfContent PidFile (own (p_id s1))) (fun _ => Ret (refused_by after)))
      (fun r s' => sim s' (removeIfContent MutationFile (own (p_id s1)))
         (fun _ s'' => quiet_end (p_id s1) s'' /\ (r = Claimed -> p_holds s'' = true)) R)
      (fun e s' => sim s' (removeIfContent MutationFile (own (p_id s1))) (fun _ s'' => R e s'') R)).
    { apply simulates_bind. rewrite <-E. eapply simulates_mono; [apply sim_let_go; congruence| |keep].
      intros _ s3 (F1 & F2 & F3). cbn [simulates]. rewrite E. apply Hunlock; [congruence|done|done|by destruct after]. }
    destruct after; [|exact Hdrop..]. cbn [simulates]. apply Hunlock; [done|done|congruence|auto].
  - keep.
Qed.

(** Both releases. *)
Lemma sim_release f x s R : p_tails s = false -> (f = HeartbeatFile \/ f = PidFile /\ x = own (p_id s)) ->
  (forall e s', quiet_end (p_id s) s' -> R e s') ->
  sim s (release_file f x (own (p_id s))) (fun _ s' => quiet_end (p_id s) s') R.
Proof.
  intros Ht Hf HR. unfold release_file. apply simulates_bind. apply sim_take_lock; [|done|intros e; by apply HR].
  intros s1 E1 _ Et Hin. cbn [negb]. rewrite Ht in Et. rewrite <-E1 in *. clear E1 Ht.
  assert (Hunlock : forall s', p_id s' = p_id s1 -> p_inside s' = true -> p_tails s' = false ->
    sim s' (removeIfContent MutationFile (own (p_id s1))) (fun _ s'' => sim s'' (Ret tt) (fun _ s3 => quiet_end (p_id s1) s3) R) R).
  { intros s' E Hi Htl. rewrite <-E. eapply simulates_mono; [by apply sim_unlock| |keep]. intros _ s'' (F1 & F2 & F3). cbn. split; congruence. }
  assert (Hdone : forall s', p_id s' = p_id s1 -> p_inside s' = true -> p_tails s' = false ->
    sim s' (removeIfContent MutationFile (own (p_id s1))) (fun _ s'' => quiet_end (p_id s1) s'') R).
  { intros s' E Hi Htl. eapply simulates_mono; [by apply Hunlock|done|done]. }
  apply sim_finally. destruct Hf as [->|[-> ->]].
  - apply sim_remove; [by apply Hdone|]. intros w _. exists s1. split; [apply as_quiet|]. split; [by apply Hdone|].
    intros w'. exists s1. split; [apply as_beat|]. by apply Hdone.
  - eapply simulates_mono; [by apply sim_let_go| |].
    + intros _ s2 (F1 & F2 & F3). by apply Hdone.
    + intros e s2 Hb. exact Hb.
Qed.

Lemma sim_heartbeats ticks nonce s R : sim s (heartbeats ticks nonce) (fun _ s' => s' = s) R.
Proof.
  induction ticks as [|n IH]; [done|]. cbn [heartbeats]. apply simulates_bind, simulates_attempt, simulates_perform.
  intros w x w' [->|[-> _]].
  - eexists. split; [apply as_beat|]. by destruct x.
  - quietly. by destruct x.
Qed.

Lemma sim_process s ticks : p_tails s = false ->
  sim s (monitor_process (i_pid (p_id s)) (i_nonce (p_id s)) ticks) (fun _ _ => True) (fun _ _ => True).
Proof.
  intros Ht. unfold monitor_process. fold (own (p_id s)). apply simulates_bind.
  eapply simulates_mono; [by apply (sim_claim s (fun _ _ => True))| |keep].
  intros r s1 [[E1 Ht1] Hh]. destruct r; try done. specialize (Hh eq_refl). rewrite <-E1. clear E1 Ht s.
  assert (Hrelease : forall s', quiet_end (p_id s1) s' ->
    sim s' (pbind (releasePidfile (own (p_id s1))) (fun _ => Ret Claimed)) (fun _ _ => True) (fun _ _ => True)).
  { intros s' [E Htl]. apply simulates_bind. rewrite <-E.
    eapply simulates_mono; [apply (sim_release PidFile _ s' (fun _ _ => True)); auto| |]; by intros. }
  apply simulates_bind, simulates_attempt, simulates_perform. intros w x w' Hx.
  assert (Hs1 : astep s1 w s1 w') by (destruct Hx as [->|[-> _]]; constructor).
  exists s1. split; [exact Hs1|]. destruct x as [e|[]]; [by apply Hrelease|].
  cbn [ask pbind simulates]. intros w1 [] w2 ->. eexists. split; [by apply as_start|].
  set (s2 := P _ _ _ _ _ _ _). change (p_id s1) with (p_id s2). clearbody s2. clear Hrelease Hs1 Hx Ht1 Hh s1 w w' w1.
  apply simulates_bind. eapply simulates_mono; [apply sim_heartbeats| |keep]. intros _ s' ->.
  apply simulates_bind. unfold shutdown. cbn [ask pbind simulates]. intros w3 [] w4 ->. eexists. split; [apply as_stop|]. cbn [p_id].
  set (s3 := P _ _ _ _ _ _ _). apply simulates_bind. change (p_id s2) with (p_id s3).
  eapply simulates_mono; [apply (sim_release HeartbeatFile (i_nonce (p_id s3)) s3 (fun _ _ => True)); auto| |done].
  intros _ s4 [E4 Ht4]. rewrite <-E4. apply simulates_bind.
  eapply simulates_mono; [apply (sim_release PidFile _ s4 (fun _ _ => True)); auto| |by intros].
  intros _ s5 [E5 _]. cbn [ask pbind simulates]. intros w5 [] w6 ->. exists s5. rewrite <-E5. split; [apply as_kill|done].
Qed.

(** ** The theorem *)

Lemma env_excl ss w w' : excl ss w -> lenv w w' -> excl ss w'.
Proof.
  intros He Hv. destruct Hv as [p w|t w Ht]; [|by destruct He].
  assert (Hw : worsens w (LW (lw_pid w) (lw_mutation w) (lw_beat w) (lw_running w ∖ {[p]}) (lw_clock w) (lw_seen w)
        (filter (fun c => fst (parsePidfileContent c) <> Some p) (lw_tailing w)) (lw_stopping w))).
  { split; [cbn; set_solver|]. split; [done|]. exists []. by rewrite app_nil_r. }
  destruct He as [Hok Hids Hinside Hknown Hdoomed Hholds Htails Hth Htailing Hsaw]. constructor; cbn; try done.
  - intros s Hs Hd. destruct (Hdoomed s Hs Hd) as (x & Hx & Hc). exists x. split; [done|]. by eapply condemned_worsens.
  - intros s Hs Hh. destruct (Hholds s Hs Hh) as [?|?]; [by left|right]. by eapply lost_worsens.
  - intros s Hs [_ Ht]%elem_of_filter. by apply Htails.
  - intros c [Hne Hc]%elem_of_filter. destruct (Htailing c Hc) as (s & Hs & -> & Hr). exists s. split; [done|]. split; [done|].
    destruct (parse_own (p_id s) (Hok s Hs)) as (_ & _ & Hp). rewrite Hp in Hne. cbn in Hne. set_solver.
Qed.

Lemma moves_excl c c' : rtc (abstract_moves astep lenv (fun _ _ => False)) c c' -> excl (fst c) (snd c) -> excl (fst c') (snd c').
Proof.
  induction 1 as [c|c c1 c' Hs _ IH]; [done|]. intros He. apply IH. inversion Hs; subst; cbn in *.
  - by eapply astep_excl.
  - done.
  - by eapply env_excl.
Qed.

Lemma moves_ids c c' : rtc (abstract_moves astep lenv (fun _ _ => False)) c c' -> map p_id (fst c') = map p_id (fst c).
Proof.
  induction 1 as [c|c c1 c' Hs _ IH]; [done|]. rewrite IH. inversion Hs as [ss i s s' w w' Hi Ha| |]; subst; cbn; [|done|done].
  assert (E : p_id s' = p_id s) by (by destruct Ha). rewrite (list_fmap_insert p_id), E. apply list_insert_id.
  by rewrite list_lookup_fmap, Hi.
Qed.

Definition arrives (i : identity) : pstate := P i false None false false false [].

Definition process (x : identity * nat) : lprog claim_result := monitor_process (i_pid (fst x)) (i_nonce (fst x)) (snd x).

Lemma arrivals_excl (procs : list (identity * nat)) w : NoDup (map fst procs) -> Forall (fun x => identity_ok (fst x)) procs ->
  lw_seen w = [] -> lw_tailing w = ∅ -> excl (map (fun x => arrives (fst x)) procs) w.
Proof.
  intros Hn Hok Hseen Htail.
  assert (Hin : forall s, s ∈ map (fun x => arrives (fst x)) procs -> exists x, x ∈ procs /\ s = arrives (fst x)).
  { intros s (x & -> & Hx)%list_elem_of_fmap. by exists x. }
  constructor; rewrite ?Hseen, ?Htail; try set_solver.
  - intros s (x & Hx & ->)%Hin. rewrite Forall_forall in Hok. by apply Hok.
  - intros j k s s' Hj Hk E. rewrite list_lookup_fmap in Hj, Hk.
    apply fmap_Some in Hj as (x & Hx & ->), Hk as (y & Hy & ->). cbn in E.
    eapply (NoDup_lookup (map fst procs)); [done| |]; rewrite list_lookup_fmap; [by rewrite Hx|rewrite Hy; cbn; by rewrite E].
Qed.

(** C15. At most one monitor that was not told to stop follows an inbox.  Take any
    number of monitor processes for it, with whatever files an earlier one left, and
    any interleaving of their calls, deaths included.  If two of them follow the
    inbox at the same time, then one of the two was told to stop - its successor may
    start in the second in which its tail still prints - or the heartbeat of one of
    the two was found stale: a process read a time of the heartbeat file, then that
    monitor's nonce in it, then a clock at least a hundred and fifty seconds later. *)
Theorem one_monitor_per_inbox (procs : list (identity * nat)) w0 ps w c1 c2 :
  NoDup (map fst procs) -> Forall (fun x => identity_ok (fst x)) procs ->
  lw_seen w0 = [] -> lw_tailing w0 = ∅ -> lw_stopping w0 = ∅ ->
  rtc (pool_moves lact (fun _ _ => False) lenv) (map process procs, w0) (ps, w) ->
  c1 ∈ lw_tailing w -> c2 ∈ lw_tailing w -> c1 <> c2 ->
  exists i, i ∈ map fst procs /\ (own i = c1 \/ own i = c2) /\ (own i ∈ lw_stopping w \/ found_stale w (i_nonce i)).
Proof.
  intros Hn Hok Hseen Htail _ Hrtc H1 H2 Hne.
  assert (Habs : abstracts lact astep (map (fun x => arrives (fst x)) procs) (map process procs)).
  { apply Forall2_fmap, Forall_Forall2_diag. rewrite Forall_forall. intros [i n] _. by apply (sim_process (arrives i)). }
  eapply pool_simulation with (initial := fun _ _ => False) in Hrtc as (ss & Hm & _); [|by intros ? ? []|exact Habs].
  pose proof (moves_excl _ _ Hm (arrivals_excl procs w0 Hn Hok Hseen Htail)) as He. cbn [fst snd] in He.
  destruct (ex_tailing _ _ He c1 H1) as (s1 & Hs1 & E1 & Hr1), (ex_tailing _ _ He c2 H2) as (s2 & Hs2 & E2 & Hr2).
  assert (Hids : forall s, s ∈ ss -> p_id s ∈ map fst procs).
  { intros s Hs. apply moves_ids in Hm. cbn in Hm. rewrite map_map in Hm.
    assert (map fst procs = map p_id ss) as -> by (symmetry; exact Hm). by apply list_elem_of_fmap_2. }
  assert (Hplace : forall s, s ∈ ss -> own (p_id s) ∈ lw_tailing w -> i_pid (p_id s) ∈ lw_running w ->
    lw_pid w = Some (own (p_id s)) \/ (own (p_id s) ∈ lw_stopping w \/ found_stale w (i_nonce (p_id s)))).
  { intros s Hs Ht Hr. destruct (ex_tails _ _ He s Hs Ht) as [Hts|?]; [|by right; left]. destruct (ex_holds _ _ He s Hs) as [?|[?|?]]; [|by left|done|by right; right].
    by apply (ex_tails_holds _ _ He s Hs). }
  subst c1 c2. destruct (Hplace s1 Hs1 H1 Hr1) as [P1|?], (Hplace s2 Hs2 H2 Hr2) as [P2|?]; [congruence|eauto 6..].
Qed.

(** ** A run with two monitors

    A heartbeat file is left of a monitor that died.  A new monitor claims the
    pidfile; before it has written its first heartbeat another process reads the
    old file's time, and then, after it, the new nonce. *)

Definition lock_script (X : Type) (op : lock_op X) : lworld -> X * lworld :=
  match op in lock_op X return lworld -> X * lworld with
  | ClaimFile f c => fun w => match file f w with None => (inr true, set_file f (Some c) w) | Some _ => (inr false, w) end
  | ReadFile f => fun w => (file f w, w)
  | UnlinkFile f => fun w => (tt, set_file f None w)
  | StatHeartbeat b => fun w => let m := snd <$> lw_beat w in (m, see b (SawMtime m) w)
  | ReadHeartbeat b => fun w => let n := fst <$> lw_beat w in (n, see b (SawNonce n) w)
  | WriteHeartbeat n => fun w => (inr tt, set_file HeartbeatFile (Some n) w)
  | IsAlive p => fun w => (bool_decide (p ∈ lw_running w), w)
  | DateNow b => fun w => (lw_clock w, see b (SawTime (lw_clock w)) w)
  | LegacyExists _ => fun w => (false, w)
  | LegacyRead _ => fun w => (None, w)
  | StartTail p c => fun w => (tt, if decide (p ∈ lw_running w) then set_tailing (lw_tailing w ∪ {[c]}) w else w)
  | BeginShutdown c => fun w => (tt, set_stopping (lw_stopping w ∪ {[c]}) w)
  | KillTail c => fun w => (tt, set_tailing (lw_tailing w ∖ {[c]}) w)
  end.

Lemma lock_script_act X (op : lock_op X) w : true = true -> lact X op w (fst (lock_script X op w)) (snd (lock_script X op w)).
Proof.
  intros _. destruct op; cbn; auto.
  - destruct (file f w) eqn:E; cbn; [|auto]. right. split; [done|]. left. split; [done|]. by eexists.
  - case_bool_decide; auto.
Qed.

Definition first_monitor : identity := Identity 11 "aa".
Definition second_monitor : identity := Identity 22 "bb".
Definition two : list (identity * nat) := [(first_monitor, 5%nat); (second_monitor, 5%nat)].

Definition left_over : lworld := LW None None (Some ("dd", 0)) {[11; 22]} 200000 [] ∅ ∅.

Definition go (n : nat) (c : lprog claim_result * lworld) (w : lworld) : lprog claim_result * lworld :=
  advance lock_script n (fst c) w.

Definition f1 := go 8 (process (first_monitor, 5%nat), left_over) left_over.
Definition g1 := go 7 (process (second_monitor, 5%nat), left_over) (snd f1).
Definition f2 := go 2 f1 (snd g1).
Definition g2 := go 11 g1 (snd f2).

Lemma script_moves n ps i (p : lprog claim_result) w : ps !! i = Some p ->
  rtc (pool_moves lact (fun _ _ => False) lenv) (ps, w) (<[i := fst (advance lock_script n p w)]> ps, snd (advance lock_script n p w)).
Proof.
  intros Hi. apply (advance_moves _ _ _ _ (fun _ _ _ => true) lock_script_act); [done|].
  clear ps i Hi. revert p w. induction n as [|n IH]; intros p w; [done|]. destruct p as [| |X op k]; [done..|]. cbn.
  by destruct (lock_script X op w).
Qed.

Lemma to_fresh : rtc (pool_moves lact (fun _ _ => False) lenv) (map process two, left_over) ([fst f2; fst g1], snd f2).
Proof.
  etrans; [apply (script_moves 8 _ 0 (process (first_monitor, 5%nat))); reflexivity|].
  etrans; [apply (script_moves 7 _ 1 (process (second_monitor, 5%nat))); reflexivity|].
  etrans; [apply (script_moves 2 _ 0 (fst f1)); reflexivity|]. apply rtc_refl.
Qed.

Lemma from_fresh : rtc (pool_moves lact (fun _ _ => False) lenv) ([fst f2; fst g1], snd f2) ([fst f2; fst g2], snd g2).
Proof. by apply (script_moves 11 [fst f2; fst g1] 1). Qed.

(** A monitor that has written its heartbeat just now is taken for stale, and a
    second one follows the inbox beside it. *)
Lemma fresh_monitor_replaced :
  lw_beat (snd f2) = Some (i_nonce first_monitor, lw_clock (snd f2)) /\
  own first_monitor ∈ lw_tailing (snd f2) /\
  rtc (pool_moves lact (fun _ _ => False) lenv) (map process two, left_over) ([fst f2; fst g2], snd g2) /\
  lw_tailing (snd g2) = {[own first_monitor; own second_monitor]}.
Proof.
  split; [by vm_compute|]. split; [by apply (bool_decide_unpack _); vm_compute|].
  split; [etrans; [apply to_fresh|apply from_fresh]|]. by vm_compute.
Qed.

(** ... and a monitor that was told to stop has let go of the pidfile and not yet
    killed its tail; its successor follows the inbox beside it. *)
Definition at_once : list (identity * nat) := [(first_monitor, 0%nat); (second_monitor, 0%nat)].
Definition no_files : lworld := LW None None None {[11; 22]} 200000 [] ∅ ∅.
Definition h1 := go 21 (process (first_monitor, 0%nat), no_files) no_files.
Definition h2 := go 10 (process (second_monitor, 0%nat), no_files) (snd h1).

Lemma successor_of_a_stopping_monitor :
  rtc (pool_moves lact (fun _ _ => False) lenv) (map process at_once, no_files) ([fst h1; fst h2], snd h2) /\
  lw_tailing (snd h2) = {[own first_monitor; own second_monitor]} /\ lw_stopping (snd h2) = {[own first_monitor]} /\ lw_seen (snd h2) = [].
Proof.
  split; [|by vm_compute].
  etrans; [apply (script_moves 21 _ 0 (process (first_monitor, 0%nat))); reflexivity|].
  etrans; [apply (script_moves 10 _ 1 (process (second_monitor, 0%nat))); reflexivity|]. apply rtc_refl.
Qed.

Lemma one_monitor_per_inbox_witness :
  exists i, i ∈ map fst two /\ (own i = own first_monitor \/ own i = own second_monitor) /\
    (own i ∈ lw_stopping (snd g2) \/ found_stale (snd g2) (i_nonce i)).
Proof.
  apply (one_monitor_per_inbox two left_over [fst f2; fst g2]); [| |done|done|done| | | |done].
  - repeat constructor; set_solver.
  - repeat constructor; done.
  - etrans; [apply to_fresh|apply from_fresh].
  - by apply (bool_decide_unpack _); vm_compute.
  - by apply (bool_decide_unpack _); vm_compute.
Defined.
