(* ===== verification/InboxGc.v ===== *)
(** * Orphaned inboxes ([gc-orphan-inboxes.ts])

    After an assimilation the client removes from the cube's directory the inboxes
    nobody follows any more, with the files of their monitors: a program over the
    calls of the file system and of the process table, on the paths
    [inbox-monitor.ts] and [cubes.ts] compute.  [cwd] is [process.cwd()],
    [config_root] what [borgConfigRoot] gives. *)

From S2P Require Import Prelude NodeLib JsDate Assoc JsonText Sha256 Effects InboxMonitor MonitorLock.

Open Scope Z_scope.
Open Scope prog_scope.

(** ** Operations *)

(** What [spawnSync] reports of [pgrep]. *)
Record pgrep_result := PgrepResult { pg_error : bool; pg_status : option Z; pg_stdout : string }.

Inductive gc_op : Type -> Type :=
| Clock : gc_op Z
| ReadDir (dir : string) : gc_op (js_error + list string)
| StatMtime (p : string) : gc_op (js_error + Z)
| ReadText (p : string) : gc_op (js_error + string)
| SpawnPgrep (pattern : string) : gc_op (js_error + pgrep_result)
| KillZero (pid : Z) : gc_op (js_error + unit)
| UnlinkPath (p : string) : gc_op (js_error + unit).

Notation gc := (prog gc_op).

(** ** Paths *)

Definition falsy (root : option string) : bool := match root with None => true | Some r => String.eqb r "" end.

(* src/src/inbox-monitor.ts 615-617 legacyPidfilePathFor *)
Definition legacyPidfilePathFor (inboxPath : string) : string := inboxPath +:+ ".monitor.pid".

(* src/src/inbox-monitor.ts 619-621 legacyHeartbeatPathFor *)
Definition legacyHeartbeatPathFor (inboxPath : string) : string := inboxPath +:+ ".monitor.heartbeat".

Section Gc.
Variable cwd : string.
Variable config_root : string.

(* src/src/inbox-monitor.ts 607-612 monitorStateRootForWorktree *)
Definition monitorStateRootForWorktree (worktreePath : string) : js_error + string :=
  if String.eqb worktreePath "" then inl (JsError ("invalid monitor worktree path: " +:+ worktreePath))
  else inr (path_join [path_resolve cwd worktreePath; ".borgmcp"; "inbox-monitor"]).

(* src/src/inbox-monitor.ts 623-625 monitorStateKey *)
Definition monitorStateKey (inboxPath : string) : string := sha256_hex (path_resolve cwd inboxPath).

Definition state_path (root inboxPath suffix : string) : string :=
  path_join [path_resolve cwd root; monitorStateKey inboxPath +:+ suffix].

(* src/src/inbox-monitor.ts 633-636 pidfilePathFor *)
Definition pidfilePathFor (inboxPath : string) (stateRoot : option string) : string :=
  if falsy stateRoot then legacyPidfilePathFor inboxPath
  else state_path (default "" stateRoot) inboxPath ".monitor.pid".

(* src/src/inbox-monitor.ts 639-642 heartbeatPathFor *)
Definition heartbeatPathFor (inboxPath : string) (stateRoot : option string) : string :=
  if falsy stateRoot then legacyHeartbeatPathFor inboxPath
  else state_path (default "" stateRoot) inboxPath ".monitor.heartbeat".

(* src/src/inbox-monitor.ts 222-224 replayCursorPathFor *)
Definition replayCursorPathFor (inboxPath stateRoot : string) : string := state_path stateRoot inboxPath ".monitor.cursor".

(* src/src/cubes.ts 48-50 INBOX_DIR *)
Definition INBOX_DIR : string := path_join [config_root; "inboxes"].

(* src/src/cubes.ts 285-289 inboxPathForDrone *)
Definition inboxPathForDrone (cubeId droneId : string) : js_error + string :=
  if negb (is_uuid cubeId) then inl (JsError ("Invalid cubeId: " +:+ cubeId))
  else if negb (is_uuid droneId) then inl (JsError ("Invalid droneId: " +:+ droneId))
  else inr (path_join [INBOX_DIR; cubeId; droneId +:+ ".log"]).

(** ** Selection *)

(* src/src/gc-orphan-inboxes.ts 29-29 ORPHAN_INBOX_STALE_MS *)
Definition ORPHAN_INBOX_STALE_MS : Z := 30 * 24 * 60 * 60 * 1000.

(* src/src/gc-orphan-inboxes.ts 32-32 DroneRosterState *)
Inductive roster_state := RosterPresent | RosterEvicted | RosterAbsent.

(* src/src/gc-orphan-inboxes.ts 34-41 OrphanInboxEntry *)
Record inbox_entry := InboxEntry { ie_droneId : string; ie_inboxPath : string; ie_mtimeMs : Z }.

Definition not_present (s : roster_state) : bool := match s with RosterPresent => false | _ => true end.

(** [entries.filter(...)], whose test asks the process table and the disk. *)
(* src/src/gc-orphan-inboxes.ts 62-69 selectOrphanInboxes *)
Fixpoint selectOrphanInboxes (isLive : string -> gc bool) (droneState : string -> roster_state) (now staleMs : Z)
    (entries : list inbox_entry) : gc (list inbox_entry) :=
  match entries with
  | [] => Ret []
  | e :: rest =>
      let! live := isLive (ie_inboxPath e) in
      let! chosen := selectOrphanInboxes isLive droneState now staleMs rest in
      Ret (if negb live && negb (now - ie_mtimeMs e <? staleMs) && not_present (droneState (ie_droneId e))
           then e :: chosen else chosen)
  end.

(** ** Liveness *)

(* src/src/gc-orphan-inboxes.ts 71-82 InboxLivenessDeps *)
Record liveness_deps := LivenessDeps {
  pgrepTailMatch : string -> gc bool;
  readHeartbeatMtimeMs : string -> gc (option Z);
  readPidfilePid : string -> gc (option Z);
  isAlive : Z -> gc bool;
  ld_now : Z;
  heartbeatStaleMs : option Z
}.

(** [new Set(l)]: in the order of the first occurrences. *)
Definition distinct (l : list string) : list string :=
  foldl (fun seen x => if bool_decide (x ∈ seen) then seen else seen ++ [x]) [] l.

(** A loop that returns [true] at the first path [test] accepts. *)
Fixpoint any_path (test : string -> gc bool) (paths : list string) : gc bool :=
  match paths with
  | [] => Ret false
  | p :: rest => let! found := test p in if found then Ret true else any_path test rest
  end.

Definition heartbeat_paths (inboxPath : string) (root : option string) : list string :=
  distinct (heartbeatPathFor inboxPath root :: if falsy root then [] else [legacyHeartbeatPathFor inboxPath]).

Definition pidfile_paths (inboxPath : string) (root : option string) : list string :=
  distinct (pidfilePathFor inboxPath root :: if falsy root then [] else [legacyPidfilePathFor inboxPath]).

Definition heartbeat_fresh (deps : liveness_deps) (path : string) : gc bool :=
  let! hbMs := readHeartbeatMtimeMs deps path in
  Ret (match hbMs with Some ms => ld_now deps - ms <? default HEARTBEAT_STALE_MS (heartbeatStaleMs deps) | None => false end).

Definition pidfile_alive (deps : liveness_deps) (path : string) : gc bool :=
  let! pid := readPidfilePid deps path in
  match pid with Some p => isAlive deps p | None => Ret false end.

(* src/src/gc-orphan-inboxes.ts 91-114 isInboxLive *)
Definition isInboxLive (inboxPath : string) (deps : liveness_deps) (root : option string) : gc bool :=
  let! tail := pgrepTailMatch deps inboxPath in
  if tail then Ret true
  else
    let! fresh := any_path (heartbeat_fresh deps) (heartbeat_paths inboxPath root) in
    if fresh then Ret true
    else any_path (pidfile_alive deps) (pidfile_paths inboxPath root).

(** ** The sweep *)

(* src/src/gc-orphan-inboxes.ts 116-124 OrphanGcDeps *)
Record orphan_gc_deps := OrphanGcDeps {
  listInboxLogs : string -> gc (list inbox_entry);
  og_isLive : string -> gc bool;
  og_droneState : string -> roster_state;
  og_unlink : string -> gc unit;
  og_now : Z;
  og_staleMs : Z
}.

Definition artifacts (root : option string) (inboxPath : string) : list string :=
  distinct (inboxPath :: pidfilePathFor inboxPath root :: heartbeatPathFor inboxPath root ::
    if falsy root then [] else [replayCursorPathFor inboxPath (default "" root)]).

(** What was removed; a failure is skipped. *)
Fixpoint unlink_all (unlink : string -> gc unit) (paths : list string) : gc (list string) :=
  match paths with
  | [] => Ret []
  | p :: rest =>
      let! r := attempt (unlink p) in
      let! removed := unlink_all unlink rest in
      Ret (match r with inr _ => p :: removed | inl _ => removed end)
  end.

(* src/src/gc-orphan-inboxes.ts 136-170 gcOrphanInboxesForCube *)
Definition gcOrphanInboxesForCube (cubeInboxDir selfDroneId : string) (root : option string) (deps : orphan_gc_deps) :
    gc (list string) :=
  let! listed := listInboxLogs deps cubeInboxDir in
  let entries := List.filter (fun e => negb (String.eqb (ie_droneId e) selfDroneId)) listed in
  let! orphans := selectOrphanInboxes (og_isLive deps) (og_droneState deps) (og_now deps) (og_staleMs deps) entries in
  unlink_all (og_unlink deps) (flat_map (fun o => artifacts root (ie_inboxPath o)) orphans).

(** ** On the host *)

Definition host_pgrep (inboxPath : string) : gc bool :=
  let! res := attempt (perform (SpawnPgrep inboxPath)) in
  Ret (match res with
       | inl _ => false
       | inr r => negb (pg_error r) && bool_decide (pg_status r = Some 0) && negb (String.eqb (trim (pg_stdout r)) "")
       end).

Definition host_mtime (p : string) : gc (option Z) :=
  let! r := attempt (perform (StatMtime p)) in
  Ret (match r with inr ms => Some ms | inl _ => None end).

Definition host_pid (p : string) : gc (option Z) :=
  let! r := attempt (perform (ReadText p)) in
  Ret (match r with inr text => parse_int (trim text) | inl _ => None end).

(** A process that may not be signalled is there. *)
Definition host_alive (pid : Z) : gc bool :=
  let! r := attempt (perform (KillZero pid)) in
  Ret (match r with inr _ => true | inl e => has_code "EPERM" e end).

(* src/src/gc-orphan-inboxes.ts 173-211 defaultInboxLivenessDeps *)
Definition defaultInboxLivenessDeps (now : Z) : liveness_deps :=
  LivenessDeps host_pgrep host_mtime host_pid host_alive now None.

Definition ends_with (suffix s : string) : bool :=
  (String.length suffix <=? String.length s)%nat &&
  String.eqb (string_drop (String.length s - String.length suffix) s) suffix.

Definition log_stem (name : string) : string := string_take (String.length name - 4) name.

Fixpoint stat_logs (cubeInboxDir : string) (names : list string) : gc (list inbox_entry) :=
  match names with
  | [] => Ret []
  | name :: rest =>
      if negb (ends_with ".log" name) then stat_logs cubeInboxDir rest
      else
        let inboxPath := path_join [cubeInboxDir; name] in
        let! r := attempt (perform (StatMtime inboxPath)) in
        let! entries := stat_logs cubeInboxDir rest in
        Ret (match r with inr ms => InboxEntry (log_stem name) inboxPath ms :: entries | inl _ => entries end)
  end.

(* src/src/gc-orphan-inboxes.ts 214-232 defaultListInboxLogs *)
Definition defaultListInboxLogs (cubeInboxDir : string) : gc (list inbox_entry) :=
  let! r := attempt (perform (ReadDir cubeInboxDir)) in
  match r with
  | inl _ => Ret []
  | inr names => stat_logs cubeInboxDir names
  end.

Definition assimilate_deps (now : Z) (root : option string) : orphan_gc_deps :=
  OrphanGcDeps defaultListInboxLogs (fun p => isInboxLive p (defaultInboxLivenessDeps now) root) (fun _ => RosterAbsent)
    (fun p => perform (UnlinkPath p)) now ORPHAN_INBOX_STALE_MS.

(** The sweep of an assimilation: whatever it throws is dropped. *)
(* src/src/assimilate-cmd.ts 2395-2413 assimilate *)
Definition sweep_after_assimilate (cube_id drone_id : string) (monitorStateRoot : option string) : gc unit :=
  let! _ := attempt (
    let! now := ask Clock in
    match inboxPathForDrone cube_id drone_id with
    | inl e => Throw e
    | inr inboxPath => gcOrphanInboxesForCube (dirname inboxPath) drone_id monitorStateRoot (assimilate_deps now monitorStateRoot)
    end) in
  Ret tt.
End Gc.

(** ** What the paths are *)

Lemma distinct_acc (l seen : list string) x : x ∈ foldl (fun s y => if bool_decide (y ∈ s) then s else s ++ [y]) seen l <-> x ∈ seen \/ x ∈ l.
Proof.
  revert seen. induction l as [|y l IH]; intros seen; cbn; [set_solver|]. rewrite IH. case_bool_decide; set_solver.
Qed.

Lemma distinct_elem l x : x ∈ distinct l <-> x ∈ l.
Proof. unfold distinct. rewrite distinct_acc. set_solver. Qed.

(** ** Only what nobody holds is removed *)

Abbreviation gc_entry := (@Effects.entry gc_op).

(** The path an entry of the trace removes. *)
Definition removes (e : gc_entry) : option string :=
  match e with Did op _ => match op with UnlinkPath p => Some p | _ => None end end.

Local Abbreviation reading := (silently removes False).

Section Safety.
Variable cwd config_root : string.
Variable root : option string.
Variable now : Z.

(** The three signals are best-effort: what the sweep takes for "no holder" is
    an answer that shows none, or a call that failed. *)
Definition pgrep_shows_none (x : pgrep_result) : Prop :=
  pg_error x = false /\ (pg_status x = Some 1 \/ pg_status x = Some 0 /\ trim (pg_stdout x) = "").

Definition pgrep_failed (x : pgrep_result) : Prop :=
  pg_error x = true \/ pg_status x <> Some 0 /\ pg_status x <> Some 1.

Definition no_tail (p : string) (t : list gc_entry) : Prop :=
  exists r, Did (SpawnPgrep p) r ∈ t /\ match r with inl _ => True | inr x => pgrep_shows_none x \/ pgrep_failed x end.

Definition no_heartbeat (p : string) (t : list gc_entry) : Prop :=
  exists r, Did (StatMtime p) r ∈ t /\ match r with inl _ => True | inr ms => HEARTBEAT_STALE_MS <= now - ms end.

Definition no_process (p : string) (t : list gc_entry) : Prop :=
  exists r, Did (ReadText p) r ∈ t /\
    match r with
    | inl _ => True
    | inr text => forall pid, parse_int (trim text) = Some pid ->
        exists e, Did (KillZero pid) (inl e) ∈ t /\ has_code "EPERM" e = false
    end.

(** A probe that told something: [pgrep] ran and found a process or none, a file
    that could not be read is not there, a process that could not be signalled is
    not there, or is another user's. *)
Definition answered (e : gc_entry) : Prop :=
  match e with
  | Did op r =>
      (match op in gc_op X return X -> Prop with
       | SpawnPgrep _ => fun r => match r with inl _ => False | inr x => ~ pgrep_failed x end
       | StatMtime _ => fun r => match r with inl e => has_code "ENOENT" e = true | inr _ => True end
       | ReadText _ => fun r => match r with inl e => has_code "ENOENT" e = true | inr _ => True end
       | KillZero _ => fun r => match r with inl e => has_code "ESRCH" e = true \/ has_code "EPERM" e = true | inr _ => True end
       | _ => fun _ => True
       end) r
  end.

(** What the probes show when each of them told something. *)
Definition found_no_tail (p : string) (t : list gc_entry) : Prop :=
  exists x, Did (SpawnPgrep p) (inr x) ∈ t /\ pgrep_shows_none x.

Definition found_no_heartbeat (p : string) (t : list gc_entry) : Prop :=
  (exists e, Did (StatMtime p) (inl e) ∈ t /\ has_code "ENOENT" e = true) \/
  (exists ms, Did (StatMtime p) (inr ms) ∈ t /\ HEARTBEAT_STALE_MS <= now - ms).

Definition found_no_process (p : string) (t : list gc_entry) : Prop :=
  (exists e, Did (ReadText p) (inl e) ∈ t /\ has_code "ENOENT" e = true) \/
  (exists text, Did (ReadText p) (inr text) ∈ t /\ forall pid, parse_int (trim text) = Some pid ->
     exists e, Did (KillZero pid) (inl e) ∈ t /\ has_code "ESRCH" e = true).

Definition held_by_nobody (p : string) (t : list gc_entry) : Prop :=
  found_no_tail p t /\ Forall (fun h => found_no_heartbeat h t) (heartbeat_paths cwd p root) /\
  Forall (fun h => found_no_process h t) (pidfile_paths cwd p root).

(** Nobody was seen to hold the inbox: no probe showed a holder. *)
Definition unheld (p : string) (t : list gc_entry) : Prop :=
  no_tail p t /\ Forall (fun h => no_heartbeat h t) (heartbeat_paths cwd p root) /\
  Forall (fun h => no_process h t) (pidfile_paths cwd p root).

#[local] Instance no_heartbeat_lasting p : Lasting (no_heartbeat p).
Proof. intros t t' Ht (r & Hr & H). exists r. auto. Qed.
#[local] Instance no_process_lasting p : Lasting (no_process p).
Proof.
  intros t t' Ht (r & Hr & H). exists r. split; [auto|]. destruct r as [|text]; [done|].
  intros pid Hp. destruct (H pid Hp) as (e & He & Hc). eauto.
Qed.
#[local] Instance unheld_lasting p : Lasting (unheld p).
Proof.
  intros t t' Ht (Hn & Hh & Hp). split.
  - destruct Hn as (r & Hr & Hn). exists r. auto.
  - split; (eapply Forall_impl; [eassumption|]); intros h Hx; by eapply lasting.
Qed.

(** Where every probe told something, none of them showing a holder is that there
    was none. *)
Lemma unheld_answered p t : Forall answered t -> unheld p t -> held_by_nobody p t.
Proof.
  rewrite Forall_forall. intros Ht (Hn & Hh & Hp). split; [|split].
  - destruct Hn as (r & Hr & Hn). specialize (Ht _ Hr). cbn in Ht. destruct r as [|x]; [done|]. exists x. tauto.
  - eapply Forall_impl; [exact Hh|]. intros h (r & Hr & H). specialize (Ht _ Hr). cbn in Ht.
    destruct r as [e|ms]; [left|right]; eauto.
  - eapply Forall_impl; [exact Hp|]. intros h (r & Hr & H). specialize (Ht _ Hr) as Ha. cbn in Ha.
    destruct r as [e|text]; [left; eauto|]. right. exists text. split; [done|]. intros pid Hpid.
    destruct (H pid Hpid) as (e & He & Hc). exists e. split; [done|]. specialize (Ht _ He). cbn in Ht.
    destruct Ht; [done|congruence].
Qed.

Lemma reading_pgrep p tr : reading (host_pgrep p) tr (fun b t => b = false -> no_tail p t).
Proof.
  eapply silently_bind; [by apply silently_try|]. intros r t _ Hr. apply silently_ret. intros Hb. exists r. split; [done|].
  destruct r as [|x]; [done|]. rewrite !andb_false_iff in Hb. bool_to_prop. unfold pgrep_shows_none, pgrep_failed.
  destruct (pg_error x); [tauto|]. destruct Hb as [[Hb|Hb]|Hb]; bool_to_prop; [done|..];
    destruct (decide (pg_status x = Some 1)), (decide (pg_status x = Some 0)); tauto.
Qed.

Let deps := defaultInboxLivenessDeps now.

Lemma reading_mtime p tr : reading (host_mtime p) tr
  (fun a t => exists r, Did (StatMtime p) r ∈ t /\ a = match r with inr ms => Some ms | inl _ => None end).
Proof. eapply silently_bind; [by apply silently_try|]. intros r t _ Hr. apply silently_ret. by exists r. Qed.

Lemma reading_pid p tr : reading (host_pid p) tr
  (fun a t => exists r, Did (ReadText p) r ∈ t /\ a = match r with inr x => parse_int (trim x) | inl _ => None end).
Proof. eapply silently_bind; [by apply silently_try|]. intros r t _ Hr. apply silently_ret. by exists r. Qed.

Lemma reading_heartbeat p tr : reading (heartbeat_fresh deps p) tr (fun b t => b = false -> no_heartbeat p t).
Proof.
  eapply silently_bind; [apply reading_mtime|]. intros a t _ (r & Hr & ->). apply silently_ret. intros Hb. exists r. split; [done|].
  destruct r as [|ms]; [done|]. apply Z.ltb_ge in Hb. exact Hb.
Qed.

Lemma reading_pidfile p tr : reading (pidfile_alive deps p) tr (fun b t => b = false -> no_process p t).
Proof.
  eapply silently_bind; [apply reading_pid|]. intros a t _ (r & Hr & ->). destruct r as [e|text].
  - apply silently_ret. intros _. by exists (inl e).
  - destruct (parse_int (trim text)) as [pid|] eqn:Hp.
    + eapply silently_bind; [by apply silently_try|]. intros k t' Hg Hk. apply silently_ret. intros Hb.
      exists (inr text). split; [by apply (silent_subseteq _ _ _ Hg)|]. intros pid' Hp'. rewrite Hp in Hp'. injection Hp' as <-.
      destruct k as [e|]; [|done]. by exists e.
    + apply silently_ret. intros _. exists (inr text). split; [done|]. intros pid Hp'. congruence.
Qed.

Lemma reading_any (test : string -> gc bool) (D : string -> list gc_entry -> Prop) `{forall p, Lasting (D p)} paths tr :
  (forall p t, reading (test p) t (fun b t' => b = false -> D p t')) ->
  reading (any_path test paths) tr (fun b t => b = false -> Forall (fun p => D p t) paths).
Proof.
  intros Ht. revert tr. induction paths as [|p rest IH]; intros tr; [by apply silently_ret|].
  eapply silently_bind; [apply Ht|]. intros [|] t _ Hp; [by apply silently_ret|].
  eapply traces_mono; [apply IH| |done]. intros b t' [Hg Hr]. split; [done|]. intros Hb. constructor; [|by apply Hr].
  eapply lasting; [by apply (silent_subseteq removes)|by apply Hp].
Qed.

Lemma reading_live p tr : reading (isInboxLive cwd p deps root) tr (fun b t => b = false -> unheld p t).
Proof.
  eapply silently_bind; [apply reading_pgrep|]. intros [|] t _ Hn; [by apply silently_ret|].
  eapply silently_bind; [apply (reading_any _ no_heartbeat), reading_heartbeat|]. intros [|] t' Hg Hh; [by apply silently_ret|].
  eapply traces_mono; [apply (reading_any _ no_process), reading_pidfile| |done].
  intros b t'' [Hg' Hp]. split; [done|]. intros Hb. split; [|split; [|by apply Hp]].
  - destruct (Hn eq_refl) as (r & Hr & H). exists r. split; [|done].
    apply (silent_subseteq _ _ _ (silent_trans _ _ _ _ Hg Hg')), Hr.
  - eapply Forall_impl; [by apply Hh|]. intros h Hx. eapply lasting; [by apply (silent_subseteq removes)|done].
Qed.

Definition listed (dir : string) (e : inbox_entry) (t : list gc_entry) : Prop :=
  exists names name, Did (ReadDir dir) (inr names) ∈ t /\ name ∈ names /\ ends_with ".log" name = true /\
    ie_droneId e = log_stem name /\ ie_inboxPath e = path_join [dir; name] /\
    Did (StatMtime (ie_inboxPath e)) (inr (ie_mtimeMs e)) ∈ t.

#[local] Instance listed_lasting dir e : Lasting (listed dir e).
Proof. intros t t' Ht (names & name & H1 & H2 & H3 & H4 & H5 & H6). exists names, name. auto 10. Qed.

Lemma reading_stat_logs dir names all t0 tr : Did (ReadDir dir) (inr all) ∈ t0 -> t0 ⊆ tr -> names ⊆ all ->
  reading (stat_logs dir names) tr (fun es t => Forall (fun e => listed dir e t) es).
Proof.
  intros Hd. revert tr. induction names as [|name rest IH]; intros tr Ht Hall; [by apply silently_ret|].
  cbn [stat_logs]. destruct (ends_with ".log" name) eqn:Hlog; cbn [negb]; [|by apply IH; [|set_solver]].
  eapply silently_bind; [by apply silently_try|]. intros r t Hg Hr.
  eapply silently_bind; [apply IH; [|set_solver]|].
  - etrans; [exact Ht|by apply (silent_subseteq removes)].
  - intros es t' Hg' Hes. apply silently_ret. destruct r as [|ms]; [done|]. constructor; [|done].
    apply (silent_subseteq removes) in Hg, Hg'. exists all, name. split; [auto|]. split; [set_solver|]. cbn. auto.
Qed.

Lemma reading_listing dir tr : reading (defaultListInboxLogs dir) tr (fun es t => Forall (fun e => listed dir e t) es).
Proof.
  eapply silently_bind; [by apply silently_try|]. intros [|names] t _ Hr; [by apply silently_ret|]. by eapply reading_stat_logs.
Qed.

(** What the sweep knows of an inbox it takes for an orphan. *)
Definition orphaned (e : inbox_entry) (t : list gc_entry) : Prop :=
  unheld (ie_inboxPath e) t /\ ORPHAN_INBOX_STALE_MS <= now - ie_mtimeMs e.

#[local] Instance orphaned_lasting e : Lasting (orphaned e).
Proof. intros t t' Ht [H1 H2]. split; [by eapply lasting|done]. Qed.

Lemma reading_select roster entries tr :
  reading (selectOrphanInboxes (fun p => isInboxLive cwd p deps root) roster now ORPHAN_INBOX_STALE_MS entries) tr
    (fun chosen t => Forall (fun e => e ∈ entries /\ orphaned e t /\ not_present (roster (ie_droneId e)) = true) chosen).
Proof.
  revert tr. induction entries as [|e rest IH]; intros tr; [by apply silently_ret|].
  eapply silently_bind; [apply reading_live|]. intros live t _ Hl. eapply silently_bind; [apply IH|].
  intros chosen t' Hg Hc. apply silently_ret.
  assert (Hr : Forall (fun x => x ∈ e :: rest /\ orphaned x t' /\ not_present (roster (ie_droneId x)) = true) chosen).
  { eapply Forall_impl; [exact Hc|]. intros x [H1 H2]. split; [by right|done]. }
  destruct (_ && _ && _) eqn:E; [|done]. bool_to_prop. constructor; [|done]. split; [by left|]. split; [|done]. split; [|done].
  eapply lasting; [by apply (silent_subseteq removes)|by apply Hl].
Qed.

(** *** The removals *)

Lemma unlink_trace paths tr : traces (unlink_all (fun p => perform (UnlinkPath p)) paths) tr
  (fun _ t => exists u, t = tr ++ u /\ Forall (fun e => forall p, removes e = Some p -> p ∈ paths) u) (fun _ _ => False).
Proof.
  revert tr. induction paths as [|p rest IH]; intros tr; [exists []; by rewrite app_nil_r|].
  apply traces_bind, traces_attempt, traces_perform; intros x; apply traces_bind;
    (eapply traces_mono; [apply IH| |done]; intros removed t (u & -> & Hu); cbn; eexists; rewrite <- app_assoc; split; [done|];
     constructor; [intros q [= <-]; by left|]; eapply Forall_impl; [exact Hu|]; intros e He q Hq; right; by apply He).
Qed.

Definition justified (dir self : string) (p : string) (t : list gc_entry) : Prop :=
  exists e, listed dir e t /\ ie_droneId e <> self /\ orphaned e t /\ p ∈ artifacts cwd root (ie_inboxPath e).

#[local] Instance justified_lasting dir self p : Lasting (justified dir self p).
Proof. intros t t' Ht (e & H1 & H2 & H3 & H4). exists e.
  split; [exact (listed_lasting dir e t t' Ht H1)|]. split; [done|]. split; [exact (orphaned_lasting e t t' Ht H3)|done].
Qed.

Lemma gc_trace dir self tr : silent removes [] tr ->
  traces (gcOrphanInboxesForCube cwd dir self root (assimilate_deps cwd now root)) tr
    (fun _ t => marks_justified removes (justified dir self) t) (fun _ _ => False).
Proof.
  intros Htr. unfold gcOrphanInboxesForCube. apply traces_bind. eapply traces_mono; [apply reading_listing| |by intros ? ? []].
  intros es t [Hg Hes]. cbn beta. apply traces_bind. eapply traces_mono; [apply reading_select| |by intros ? ? []].
  intros chosen t' [Hg' Hc]. cbn beta. eapply traces_mono; [apply unlink_trace| |done]. intros removed t'' (u & -> & Hu).
  assert (Hall : silent removes tr t') by (by eapply silent_trans).
  apply (justified_split removes (justified dir self) t' u (fun p => p ∈ flat_map (fun o => artifacts cwd root (ie_inboxPath o)) chosen)); [..|exact Hu].
  - by eapply silent_trans.
  - intros p Hp. apply list_elem_of_In, in_flat_map in Hp as (e & He%list_elem_of_In & Hp%list_elem_of_In).
    rewrite Forall_forall in Hc. destruct (Hc e He) as (Hin & Ho & _). apply member_filter in Hin as [Hin Hself].
    exists e. split; [|split; [by apply negb_true_iff, String.eqb_neq in Hself|done]].
    rewrite Forall_forall in Hes. exact (listed_lasting dir e t t' (silent_subseteq _ _ _ Hg') (Hes e Hin)).
Qed.
End Safety.

(** C22. An assimilation removes a file only after it asked, of the inbox the file
    belongs to: that it is a log in the directory of the cube just joined and not
    the assimilated drone's own, untouched for thirty days; and that none of the
    three probes showed a holder: the search of the process table for its path,
    the heartbeats and the pidfiles of this worktree's state root and beside the
    inbox.  A probe that fails shows none: the sweep goes on without [pgrep], and
    past a file it cannot read.  Where every probe before the removal told
    something, the search ran and found no process, each heartbeat was absent or
    older than the limit, and each pidfile was absent, held no number, or named a
    process that is not there.  The sweep never throws, whatever the calls answer
    and whenever. *)
Theorem orphan_sweep_spares_the_held cwd config_root cube_id drone_id root :
  traces (sweep_after_assimilate cwd config_root cube_id drone_id root) []
    (fun _ tr => marks_justified removes (fun p before => exists inbox now e,
       inboxPathForDrone config_root cube_id drone_id = inr inbox /\ Did Clock now ∈ before /\
       listed (dirname inbox) e before /\ ie_droneId e <> drone_id /\
       ORPHAN_INBOX_STALE_MS <= now - ie_mtimeMs e /\ p ∈ artifacts cwd root (ie_inboxPath e) /\
       unheld cwd root now (ie_inboxPath e) before /\
       (Forall answered before -> held_by_nobody cwd root now (ie_inboxPath e) before)) tr)
    (fun _ _ => False).
Proof.
  unfold sweep_after_assimilate. apply traces_bind, traces_attempt, traces_bind, traces_ask. intros now.
  destruct (inboxPathForDrone config_root cube_id drone_id) as [e|inbox] eqn:Hi; cbn [traces].
  - by apply justified_silent, (silent_extend removes []).
  - eapply traces_mono; [apply traces_grow, gc_trace, (silent_extend removes []); done| |by intros ? ? []].
    intros removed t [Hj [u ->]] before e after p Heq He. destruct (Hj _ _ _ _ Heq He) as (en & Hl & Hs & [Hu Ho] & Hp).
    exists inbox, now, en. split; [done|]. split.
    + destruct before as [|y before]; injection Heq as <- _; [done|]. by left.
    + split_and!; try done. intros Ha. by apply unheld_answered.
Qed.

(** ** Every orphan is removed

    A host on which nothing else happens during the sweep: what it leaves behind.
    The files of [gw_stuck] may not be unlinked; every other call does what it is
    asked. *)

Record gc_world := GcWorld {
  gw_files : gmap string (Z * string);
  gw_tails : gset string;
  gw_pgrep : bool;
  gw_running : gset Z;
  gw_stuck : gset string;
  gw_now : Z
}.

Definition name_in (dir p : string) : option string :=
  let prefix := dir +:+ "/" in
  if starts_with prefix p then
    let name := string_drop (String.length prefix) p in
    if no_slash name && negb (String.eqb name "") then Some name else None
  else None.

Definition names_of (w : gc_world) (dir : string) : list string := omap (name_in dir) (base.elements (dom (gw_files w))).

Definition gc_handle (X : Type) (op : gc_op X) (w : gc_world) : X * gc_world :=
  match op in gc_op X return X * gc_world with
  | Clock => (gw_now w, w)
  | ReadDir dir => (inr (names_of w dir), w)
  | StatMtime p => (match gw_files w !! p with Some f => inr (fst f) | None => inl (Errno "ENOENT") end, w)
  | ReadText p => (match gw_files w !! p with Some f => inr (snd f) | None => inl (Errno "ENOENT") end, w)
  | SpawnPgrep p =>
      (inr (if negb (gw_pgrep w) then PgrepResult true None ""
            else if bool_decide (p ∈ gw_tails w) then PgrepResult false (Some 0) "4242"
            else PgrepResult false (Some 1) ""), w)
  | KillZero pid => (if bool_decide (pid ∈ gw_running w) then inr tt else inl (Errno "ESRCH"), w)
  | UnlinkPath p =>
      match gw_files w !! p with
      | Some _ =>
          if bool_decide (p ∈ gw_stuck w) then (inl (Errno "EPERM"), w)
          else (inr tt, GcWorld (delete p (gw_files w)) (gw_tails w) (gw_pgrep w) (gw_running w) (gw_stuck w) (gw_now w))
      | None => (inl (Errno "ENOENT"), w)
      end
  end.

Definition without (paths : list string) (w : gc_world) : gc_world :=
  GcWorld (filter (fun kv => fst kv ∉ paths \/ fst kv ∈ gw_stuck w) (gw_files w)) (gw_tails w) (gw_pgrep w) (gw_running w)
    (gw_stuck w) (gw_now w).

Definition fresh_in (w : gc_world) (p : string) : bool :=
  match gw_files w !! p with Some f => gw_now w - fst f <? HEARTBEAT_STALE_MS | None => false end.

Definition alive_in (w : gc_world) (p : string) : bool :=
  match gw_files w !! p with
  | Some f => match parse_int (trim (snd f)) with Some pid => bool_decide (pid ∈ gw_running w) | None => false end
  | None => false
  end.

Section Functional.
Variable cwd config_root : string.
Variable root : option string.

(** One of the signals: a process with the path, or a fresh heartbeat or a live
    pidfile at either place. *)
Definition held (w : gc_world) (p : string) : bool :=
  bool_decide (p ∈ gw_tails w) ||
  (fresh_in w (heartbeatPathFor cwd p root) || fresh_in w (p +:+ ".monitor.heartbeat")) ||
  (alive_in w (pidfilePathFor cwd p root) || alive_in w (p +:+ ".monitor.pid")).

(** An inbox and what this worktree's monitor keeps of it. *)
Definition belongings (p : string) : list string :=
  [p; pidfilePathFor cwd p root; heartbeatPathFor cwd p root] ++
  match root with None | Some "" => [] | Some r => [replayCursorPathFor cwd p r] end.

(** The inbox of the log [name], when it is an orphan. *)
Definition orphan (w : gc_world) (dir self name : string) : option string :=
  let p := path_join [dir; name] in
  match gw_files w !! p with
  | Some f =>
      if ends_with ".log" name && negb (String.eqb (log_stem name) self) && negb (held w p) &&
         (ORPHAN_INBOX_STALE_MS <=? gw_now w - fst f)
      then Some p else None
  | None => None
  end.

Definition doomed (w : gc_world) (dir self : string) : list string :=
  flat_map belongings (omap (orphan w dir self) (names_of w dir)).

Lemma run_try_read {X} (op : gc_op (js_error + X)) w r :
  gc_handle _ op w = (r, w) -> run gc_handle (attempt (perform op)) w = (Done r, w).
Proof. intros H. rewrite run_attempt, run_perform, H. by destruct r. Qed.

Lemma run_any (test : string -> gc bool) (f : string -> bool) w paths :
  (forall p, run gc_handle (test p) w = (Done (f p), w)) ->
  run gc_handle (any_path test paths) w = (Done (existsb f paths), w).
Proof.
  intros Ht. induction paths as [|p rest IH]; [done|]. cbn [any_path existsb]. rewrite run_bind, Ht. by destruct (f p).
Qed.

Lemma run_pgrep p w : gw_pgrep w = true -> run gc_handle (host_pgrep p) w = (Done (bool_decide (p ∈ gw_tails w)), w).
Proof.
  intros Hp. unfold host_pgrep. rewrite run_bind, (run_try_read (SpawnPgrep p) w _ eq_refl), Hp. cbn [run negb].
  by case_bool_decide.
Qed.

Lemma run_fresh p w : run gc_handle (heartbeat_fresh (defaultInboxLivenessDeps (gw_now w)) p) w = (Done (fresh_in w p), w).
Proof.
  unfold heartbeat_fresh. cbn [readHeartbeatMtimeMs defaultInboxLivenessDeps]. unfold host_mtime.
  rewrite !run_bind, (run_try_read (StatMtime p) w _ eq_refl). unfold fresh_in. by destruct (gw_files w !! p).
Qed.

Lemma run_alive_pid p w : run gc_handle (pidfile_alive (defaultInboxLivenessDeps (gw_now w)) p) w = (Done (alive_in w p), w).
Proof.
  unfold pidfile_alive. cbn [readPidfilePid isAlive defaultInboxLivenessDeps]. unfold host_pid.
  rewrite !run_bind, (run_try_read (ReadText p) w _ eq_refl). unfold alive_in. destruct (gw_files w !! p) as [f|]; [|done]. cbn [run].
  destruct (parse_int (trim (snd f))) as [pid|]; [|done].
  unfold host_alive. rewrite run_bind, (run_try_read (KillZero pid) w _ eq_refl). by case_bool_decide.
Qed.

Lemma existsb_distinct (f : string -> bool) l : existsb f (distinct l) = existsb f l.
Proof.
  apply eq_true_iff_eq. rewrite !existsb_exists. split; intros (x & Hx & Hf); exists x; (split; [|done]);
    rewrite <- list_elem_of_In in Hx |- *; by apply distinct_elem.
Qed.

Lemma held_paths w p : held w p = bool_decide (p ∈ gw_tails w) || existsb (fresh_in w) (heartbeat_paths cwd p root) ||
  existsb (alive_in w) (pidfile_paths cwd p root).
Proof.
  unfold held, heartbeat_paths, pidfile_paths, heartbeatPathFor, pidfilePathFor. rewrite !existsb_distinct.
  destruct (falsy root); cbn [existsb]; by rewrite ?orb_false_r, ?orb_diag.
Qed.

Lemma artifact_belongs p q : q ∈ artifacts cwd root p <-> q ∈ belongings p.
Proof. unfold artifacts, belongings. rewrite distinct_elem. by destruct root as [[|c r]|]. Qed.

Lemma run_live p w : gw_pgrep w = true -> run gc_handle (isInboxLive cwd p (defaultInboxLivenessDeps (gw_now w)) root) w = (Done (held w p), w).
Proof.
  intros Hw. rewrite held_paths. unfold isInboxLive. cbn [pgrepTailMatch defaultInboxLivenessDeps].
  rewrite run_bind, run_pgrep by done. case_bool_decide; [done|]. rewrite run_bind, (run_any _ (fresh_in w)) by (intros; apply run_fresh).
  destruct (existsb (fresh_in w) _); [done|]. rewrite (run_any _ (alive_in w)) by (intros; apply run_alive_pid). done.
Qed.

(** The entry of a log that is there. *)
Definition entry_of (w : gc_world) (dir name : string) : option inbox_entry :=
  if ends_with ".log" name then
    (fun f => InboxEntry (log_stem name) (path_join [dir; name]) (fst f)) <$> gw_files w !! path_join [dir; name]
  else None.

Lemma run_stat_logs dir names w : run gc_handle (stat_logs dir names) w = (Done (omap (entry_of w dir) names), w).
Proof.
  induction names as [|name rest IH]; [done|]. cbn [stat_logs]. cbn [omap list_omap]. unfold entry_of at 1.
  destruct (ends_with ".log" name); cbn [negb]; [|done].
  rewrite run_bind, (run_try_read (StatMtime (path_join [dir; name])) w _ eq_refl), run_bind, IH.
  by destruct (gw_files w !! path_join [dir; name]).
Qed.

Definition chosen_in (w : gc_world) (e : inbox_entry) : bool :=
  negb (held w (ie_inboxPath e)) && negb (gw_now w - ie_mtimeMs e <? ORPHAN_INBOX_STALE_MS).

Lemma run_select w entries : gw_pgrep w = true ->
  run gc_handle (selectOrphanInboxes (fun p => isInboxLive cwd p (defaultInboxLivenessDeps (gw_now w)) root) (fun _ => RosterAbsent)
    (gw_now w) ORPHAN_INBOX_STALE_MS entries) w = (Done (List.filter (chosen_in w) entries), w).
Proof.
  intros Hw. induction entries as [|e rest IH]; [done|]. cbn [selectOrphanInboxes List.filter].
  rewrite run_bind, run_live, run_bind, IH by done.
  cbn [run not_present]. by rewrite andb_true_r.
Qed.

(** The sweep takes these away. *)
Definition taken (paths : list string) (w : gc_world) (q : string) : Prop := q ∈ paths /\ q ∉ gw_stuck w.

#[local] Instance taken_dec paths w q : Decision (taken paths w q) := ltac:(unfold taken; apply _).

Lemma without_lookup paths w q : gw_files (without paths w) !! q = if decide (taken paths w q) then None else gw_files w !! q.
Proof.
  unfold without, taken. cbn [gw_files]. apply option_eq. intros f. rewrite map_lookup_filter_Some. cbn.
  destruct (decide (q ∈ paths)), (decide (q ∈ gw_stuck w)); case_decide; naive_solver.
Qed.

Lemma world_eq w w' : (forall q, gw_files w !! q = gw_files w' !! q) -> gw_tails w = gw_tails w' -> gw_pgrep w = gw_pgrep w' ->
  gw_running w = gw_running w' -> gw_stuck w = gw_stuck w' -> gw_now w = gw_now w' -> w = w'.
Proof. destruct w, w'. cbn. intros Hf%map_eq. by intros; subst. Qed.

Lemma without_equiv l l' w : (forall q, q ∈ l <-> q ∈ l') -> without l w = without l' w.
Proof.
  intros Hl. apply world_eq; [|done..]. intros q. rewrite !without_lookup. specialize (Hl q). unfold taken.
  repeat case_decide; tauto.
Qed.

Definition without_one (p : string) (w : gc_world) : gc_world :=
  GcWorld (delete p (gw_files w)) (gw_tails w) (gw_pgrep w) (gw_running w) (gw_stuck w) (gw_now w).

Lemma without_cons p rest w : p ∉ gw_stuck w -> without (p :: rest) w = without rest (without_one p w).
Proof.
  intros Hp. apply world_eq; [|done..]. intros q. rewrite !without_lookup. unfold taken. cbn [without_one gw_files gw_stuck].
  destruct (decide (q = p)) as [->|Hne]; [rewrite lookup_delete_eq|rewrite lookup_delete_ne by done];
    repeat case_decide; set_solver.
Qed.

(** Nothing is there to remove, or it may not be removed. *)
Lemma without_kept p rest w : gw_files w !! p = None \/ p ∈ gw_stuck w -> without (p :: rest) w = without rest w.
Proof.
  intros Hp. apply world_eq; [|done..]. intros q. rewrite !without_lookup. unfold taken.
  destruct (decide (q = p)) as [->|Hne]; repeat case_decide; destruct Hp; set_solver.
Qed.

(** Removing [paths] one after the other removes those that are there and may be
    removed, once. *)
Lemma run_unlink_all paths w : exists removed,
  run gc_handle (unlink_all (fun p => perform (UnlinkPath p)) paths) w = (Done removed, without paths w) /\
  NoDup removed /\ forall p, p ∈ removed <-> taken paths w p /\ is_Some (gw_files w !! p).
Proof.
  revert w. induction paths as [|p rest IH]; intros w.
  - exists []. split; [|split; [constructor|unfold taken; set_solver]]. cbn. f_equal. apply world_eq; [|done..].
    intros q. rewrite without_lookup. unfold taken. case_decide; set_solver.
  - cbn [unlink_all]. rewrite run_bind, run_attempt, run_perform. cbn [gc_handle].
    destruct (gw_files w !! p) as [f|] eqn:Hp; [case_bool_decide as Hs|]; rewrite run_bind.
    + destruct (IH w) as (removed & Hr & Hn & Hm). rewrite Hr, without_kept by auto. exists removed. split; [done|]. split; [done|].
      intros q. rewrite Hm. unfold taken. rewrite elem_of_cons. naive_solver.
    + destruct (IH (without_one p w)) as (removed & Hr & Hn & Hm). fold (without_one p w). rewrite Hr, without_cons by done.
      exists (p :: removed). split; [done|]. unfold taken in *. cbn [without_one gw_files gw_stuck] in Hm. split.
      * constructor; [|done]. rewrite Hm, lookup_delete_eq. by intros [_ [? [=]]].
      * intros q. destruct (decide (q = p)) as [->|Hne]; [set_solver|]. rewrite !elem_of_cons, Hm, lookup_delete_ne by done. set_solver.
    + destruct (IH w) as (removed & Hr & Hn & Hm). rewrite Hr, without_kept by auto. exists removed. split; [done|]. split; [done|].
      intros q. rewrite Hm. unfold taken. rewrite elem_of_cons. split; [tauto|]. intros [[[->|?] ?] Hsome]; [|done].
      rewrite Hp in Hsome. by destruct Hsome.
Qed.

Lemma flat_map_map {A B C} (f : B -> list C) (g : A -> B) l : flat_map f (map g l) = flat_map (fun x => f (g x)) l.
Proof. induction l as [|x l IH]; [done|]. cbn. by rewrite IH. Qed.

Lemma chosen_orphans w dir self names :
  map ie_inboxPath (List.filter (chosen_in w)
    (List.filter (fun e => negb (String.eqb (ie_droneId e) self)) (omap (entry_of w dir) names))) =
  omap (orphan w dir self) names.
Proof.
  induction names as [|name rest IH]; [done|]. cbn [omap list_omap]. unfold entry_of at 1, orphan at 1.
  destruct (gw_files w !! path_join [dir; name]) as [f|]; [|by destruct (ends_with ".log" name)].
  destruct (ends_with ".log" name); [|done]. cbn [fmap option_fmap option_map List.filter ie_droneId andb].
  destruct (String.eqb (log_stem name) self); cbn [negb andb]; [done|]. cbn [List.filter].
  replace (chosen_in w (InboxEntry _ _ _)) with (negb (held w (path_join [dir; name])) && (ORPHAN_INBOX_STALE_MS <=? gw_now w - fst f))
    by (unfold chosen_in; cbn [ie_inboxPath ie_mtimeMs]; by rewrite <- Z.leb_antisym).
  destruct (held w (path_join [dir; name])); cbn [negb andb]; [done|]. destruct (_ <=? _); cbn [map ie_inboxPath]; [by rewrite IH|done].
Qed.

(** C34. Where [pgrep] works and nothing else happens meanwhile, the sweep of a
    cube's directory takes away exactly what belongs to the orphans: the logs other
    than the drone's own, followed by no process, with no fresh heartbeat and no
    pidfile of a running process under this worktree's root or beside them, and
    untouched for thirty days; with each goes its pidfile, heartbeat and replay
    cursor under this worktree's root.  A file that may not be unlinked stays, and
    keeps none of the others.  Nothing else on the disk changes, and the sweep
    reports each file it removed, once. *)
Theorem orphan_sweep_removes_the_orphans dir self w : gw_pgrep w = true -> exists removed,
  run gc_handle (gcOrphanInboxesForCube cwd dir self root (assimilate_deps cwd (gw_now w) root)) w =
    (Done removed, without (doomed w dir self) w) /\
  NoDup removed /\ forall p, p ∈ removed <-> p ∈ doomed w dir self /\ p ∉ gw_stuck w /\ is_Some (gw_files w !! p).
Proof.
  intros Hpgrep. unfold gcOrphanInboxesForCube. cbn [listInboxLogs og_isLive og_droneState og_unlink og_now og_staleMs assimilate_deps].
  unfold defaultListInboxLogs. rewrite !run_bind, (run_try_read (ReadDir dir) w _ eq_refl), run_stat_logs, run_bind, run_select by done.
  unfold doomed. rewrite <- chosen_orphans, flat_map_map. set (orphans := List.filter _ _).
  assert (Hp : forall q, q ∈ flat_map (fun o => artifacts cwd root (ie_inboxPath o)) orphans <->
                         q ∈ flat_map (fun o => belongings (ie_inboxPath o)) orphans).
  { intros q. rewrite !list_elem_of_In, !in_flat_map. split; intros (o & Ho & Hq); exists o; (split; [done|]);
      apply list_elem_of_In in Hq; by apply list_elem_of_In, artifact_belongs. }
  destruct (run_unlink_all (flat_map (fun o => artifacts cwd root (ie_inboxPath o)) orphans) w) as (removed & Hr & Hn & Hm).
  exists removed. rewrite Hr. split; [by rewrite (without_equiv _ _ w Hp)|]. split; [done|]. intros q. rewrite Hm. unfold taken. rewrite Hp. tauto.
Qed.
End Functional.

(** ** Two worktrees *)

Module Cases.
Definition cube : string := "11111111-2222-3333-4444-555555555555".
Definition drone_a : string := "aaaaaaaa-0000-4000-8000-000000000001".
Definition drone_b : string := "bbbbbbbb-0000-4000-8000-000000000002".
Definition config : string := "/home/u/.config/borgmcp".
Definition inbox_of (drone : string) : string := config +:+ "/inboxes/" +:+ cube +:+ "/" +:+ drone +:+ ".log".
Definition root_a : string := "/work/a/.borgmcp/inbox-monitor".
Definition root_b : string := "/work/b/.borgmcp/inbox-monitor".
Definition now : Z := 31 * 24 * 60 * 60 * 1000.

(** Process 77 of worktree [b] follows an inbox that was last written 31 days ago. *)
Definition host (pgrep : bool) : gc_world :=
  GcWorld {[ inbox_of drone_a := (now, "");
             inbox_of drone_b := (0, "");
             pidfilePathFor "/work/a" (inbox_of drone_b) (Some root_b) := (now, "77:abc");
             heartbeatPathFor "/work/a" (inbox_of drone_b) (Some root_b) := (now, "abc") ]}
    {[ inbox_of drone_b ]} pgrep {[ 77 ]} ∅ now.

Definition after_sweep (root : string) (pgrep : bool) : gc_world :=
  snd (run gc_handle (sweep_after_assimilate "/work/a" config cube drone_a (Some root)) (host pgrep)).

(** Where the process table cannot be searched, the fresh heartbeat of another
    worktree's monitor does not keep its inbox: the sweep looks for it under the
    root of the worktree that assimilates. *)
Example other_worktree_needs_pgrep :
  held "/work/a" (Some root_b) (host false) (inbox_of drone_b) = true /\
  gw_files (after_sweep root_a false) !! inbox_of drone_b = None /\
  gw_files (after_sweep root_a true) !! inbox_of drone_b = Some (0, "") /\
  gw_files (after_sweep root_b false) !! inbox_of drone_b = Some (0, "").
Proof. vm_compute. repeat split. Qed.

(** Drone [a] sweeps a host where nobody follows [b]'s inbox any more, whose
    pidfile may not be removed. *)
Definition left_host : gc_world :=
  GcWorld {[ inbox_of drone_a := (now, "");
             inbox_of drone_b := (0, "");
             pidfilePathFor "/work/a" (inbox_of drone_b) (Some root_a) := (0, "77:abc") ]}
    ∅ true ∅ {[ pidfilePathFor "/work/a" (inbox_of drone_b) (Some root_a) ]} now.

Lemma orphan_sweep_removes_the_orphans_witness :
  let dir := config +:+ "/inboxes/" +:+ cube in
  gw_pgrep left_host = true /\ orphan "/work/a" (Some root_a) left_host dir drone_a (drone_b +:+ ".log") = Some (inbox_of drone_b) /\
  exists removed,
    run gc_handle (gcOrphanInboxesForCube "/work/a" dir drone_a (Some root_a) (assimilate_deps "/work/a" (gw_now left_host) (Some root_a)))
      left_host = (Done removed, without (doomed "/work/a" (Some root_a) left_host dir drone_a) left_host) /\
    NoDup removed /\ forall p, p ∈ removed <->
      p ∈ doomed "/work/a" (Some root_a) left_host dir drone_a /\ p ∉ gw_stuck left_host /\ is_Some (gw_files left_host !! p).
Proof.
  intros dir. split; [reflexivity|]. split; [vm_compute; reflexivity|].
  exact (orphan_sweep_removes_the_orphans "/work/a" (Some root_a) dir drone_a left_host eq_refl).
Defined.

(** The worktree's root, and an inbox of a drone, are where these paths say. *)
Example paths_of_the_case :
  monitorStateRootForWorktree "/work" "a/" = inr root_a /\ inboxPathForDrone config cube drone_b = inr (inbox_of drone_b) /\
  dirname (inbox_of drone_b) = config +:+ "/inboxes/" +:+ cube.
Proof. vm_compute. repeat split. Qed.
End Cases.
