(* ===== verification/StreamWitness.v ===== *)
(** * The stream's and the state files' properties at concrete inputs *)

From S2P Require Import Prelude JsDate JsonText Effects SseParser InboxLine.
From S2P Require Import StreamSession StreamSpec StreamAuthority Sha256 LeaseFs StreamOwner RunLoop RunLoopSpec Heartbeat.
From S2P Require Import LockedFile LocalServerCursor CursorSpec LifecycleLogGuard.

Open Scope Z_scope.
Open Scope prog_scope.

(** Citations are passed through, an error envelope is [{error: {code}}], and
    positions are ordered by date, then by id. *)
Definition order_positions (a b : hwm) : Z :=
  if string_ltb (h_created_at b) (h_created_at a) then 1
  else if string_ltb (h_created_at a) (h_created_at b) then -1
  else if string_ltb (h_id b) (h_id a) then 1
  else if string_ltb (h_id a) (h_id b) then -1 else 0.

#[local] Instance demo_stream : StreamEnv := {
  decodeDocumentCitations v := Some v;
  protocol_error_code v := match jget "error" v with Some e => jstr (jget "code" e) | None => None end;
  compareBroadcastHwm := order_positions
}.

Lemma order_positive a b :
  0 < order_positions a b <-> pair_ltb (h_created_at b, h_id b) (h_created_at a, h_id a) = true.
Proof.
  unfold order_positions, pair_ltb. cbn [fst snd].
  destruct (string_ltb (h_created_at b) (h_created_at a)) eqn:E1; cbn [orb]; [split; [done|lia]|].
  destruct (string_ltb (h_created_at a) (h_created_at b)) eqn:E2.
  - destruct (String.eqb_spec (h_created_at b) (h_created_at a)) as [E|]; cbn [andb]; [|split; [lia|done]].
    rewrite E, string_ltb_irrefl in E2. done.
  - destruct (string_ltb_total (h_created_at a) (h_created_at b)) as [?|[->|?]]; [congruence| |congruence].
    rewrite String.eqb_refl. cbn [andb]. destruct (string_ltb (h_id b) (h_id a)); [split; [done|lia]|].
    destruct (string_ltb (h_id a) (h_id b)); split; (lia || done).
Qed.

#[local] Instance demo_order : HwmOrder.
Proof.
  split.
  - intros a b c. cbn [compareBroadcastHwm demo_stream]. rewrite !order_positive. intros Hab Hbc. by eapply pair_ltb_trans.
  - intros a b. cbn [compareBroadcastHwm demo_stream]. unfold order_positions.
    destruct (string_ltb (h_created_at b) (h_created_at a)) eqn:E1;
      [rewrite (string_ltb_asym _ _ E1); lia|].
    destruct (string_ltb (h_created_at a) (h_created_at b)); [lia|].
    destruct (string_ltb (h_id b) (h_id a)) eqn:E2; [rewrite (string_ltb_asym _ _ E2); lia|].
    destruct (string_ltb (h_id a) (h_id b)); lia.
Qed.

#[local] Instance demo_dates : JsDate := { other_parse _ := None }.

Definition cube : string := "0c000000-0000-4000-8000-000000000001".
Definition drone : string := "0d000000-0000-4000-8000-000000000001".
Definition peer : string := "0d000000-0000-4000-8000-000000000002".
Definition entry_id : string := "0e000000-0000-4000-8000-000000000001".
Definition demo_active : active_cube := ActiveCube cube drone (Some "pin") (Some "seat-1").

Definition entry_by (who at_ : string) : json :=
  JObj [("id", JStr entry_id); ("drone_id", JStr who); ("created_at", JStr at_); ("message", JStr "hello")].

Definition fresh_session : session := start_session None None.

Lemma sse_frame_limit_witness :
  parseSSE (Some 8) ["event: bookmark"] = ([], LimitExceeded) /\
  exists f, f ∈ fst (frames "" (concat_text ["event: bookmark"])) ++ [snd (frames "" (concat_text ["event: bookmark"]))] /\
    8 <= Z.of_nat (String.length f).
Proof.
  split; [vm_compute; reflexivity|].
  exact (proj2 (sse_frame_limit 8 ["event: bookmark"] ltac:(lia))).
Defined.

Lemma inbox_file_refines_bounded_list_witness :
  exists line, formatInboxLine 0 (entry_by peer "2026-01-01T00:00:00.000Z") = inr line /\
    exists kept, appendCappedInboxLine (file_of ["one"]) line INBOX_TAIL_LINES_CAP (2 * INBOX_TAIL_LINES_CAP) = file_of (kept ++ [line]) /\ kept = ["one"].
Proof.
  destruct (formatInboxLine 0 (entry_by peer "2026-01-01T00:00:00.000Z")) as [e|line] eqn:E; [vm_compute in E; discriminate|].
  exists line. split; [reflexivity|].
  destruct (inbox_file_refines_bounded_list ["one"] 0 (entry_by peer "2026-01-01T00:00:00.000Z") line)
    as (kept & Hk & _ & _ & _ & Hshort & _).
  - repeat constructor.
  - repeat split; vm_compute; reflexivity.
  - exact E.
  - exists kept. split; [exact Hk|]. apply Hshort. vm_compute. lia.
Defined.

Lemma stream_not_routed_is_silent_witness :
  routed demo_active (entry_by drone "2026-01-01T00:00:00.000Z") = false /\
  traces (handle_log demo_active fresh_session entry_id (entry_by drone "2026-01-01T00:00:00.000Z") None None) []
    quiet_end (cursor_failed None).
Proof.
  split; [vm_compute; reflexivity|].
  apply (stream_not_routed_is_silent demo_active). left. vm_compute. reflexivity.
Defined.

Definition two_entries : list parsed_event :=
  [EvLog entry_id (entry_by peer "2026-01-01T00:00:00.000Z") None (Some (JStr "c1"));
   EvLog "0e000000-0000-4000-8000-000000000002" (entry_by peer "2026-01-02T00:00:00.000Z") (Some "nonce") None].

Lemma two_entries_dated : Forall dated_event two_entries.
Proof. repeat (apply Forall_cons; split; [done|]). by apply Forall_nil. Qed.

Lemma stream_cursor_follows_inbox_witness :
  Forall (fun e => match e with EvLog _ data _ _ => routed demo_active data = true | _ => False end) two_entries /\
  traces (handle_events demo_active (start_session None None) two_entries) []
    (fun _ t => justified demo_active None two_entries t) (fun _ t => justified demo_active None two_entries t).
Proof.
  split; [repeat constructor; vm_compute; reflexivity|].
  exact (stream_cursor_follows_inbox demo_active None None two_entries (fun c (E : None = Some c) => ltac:(discriminate E)) two_entries_dated).
Defined.

Lemma stream_session_moves_forward_witness :
  traces (handle_events demo_active (start_session None (Some (Hwm entry_id "2026-01-01T00:00:00.000Z")))
    [EvHeartbeat None (Some (Hwm entry_id "2026-01-02T00:00:00.000Z"))]) []
    (fun n _ => forward (Some (Hwm entry_id "2026-01-01T00:00:00.000Z")) (se_lastPersistedHwm (StreamSpec.state_of n)))
    (fun _ _ => True).
Proof.
  eapply traces_mono.
  - apply (stream_session_moves_forward demo_active None (Some (Hwm entry_id "2026-01-01T00:00:00.000Z"))
      [EvHeartbeat None (Some (Hwm entry_id "2026-01-02T00:00:00.000Z"))]).
    + intros c [= <-]. done.
    + repeat constructor. done.
  - intros n t (_ & _ & Hf & _). exact Hf.
  - done.
Defined.

Lemma run_loop_recovers_witness :
  longest_wait 3 0 = 15000 /\
  exists r w', nrun (answers demo_active) (runStreamLoopForever 1 3 4 initial_status) (Outage 3 0 false) r w' /\
    o_connected w' = true /\ 0 <= o_slept w' <= 15000.
Proof.
  split; [vm_compute; reflexivity|].
  destruct (run_loop_recovers 1 demo_active 3 3 4 initial_status) as [(r & w' & Hr) Hall].
  - repeat split; [vm_compute; reflexivity..|]. by eexists.
  - lia.
  - lia.
  - exists r, w'. split; [exact Hr|]. exact (Hall r w' Hr).
Defined.

(** An unavailable server and a 410 that names nothing are among the failures. *)
Lemma server_errors_pass :
  refused_for_now (Response 503 false "") /\ refused_for_now (Response 410 false "{}").
Proof. repeat split; (discriminate || vm_compute; try discriminate; reflexivity). Qed.

Lemma heartbeat_timers_bounded_witness :
  exists t, steps AgentCodex true no_timers [Ensure; SocketDead] t /\ codexHeartbeatTimer t = None /\
    exists i, codexReArmTimer t = Some i /\ is_Some (codexHeartbeatTimer (reArm_fires AgentCodex true i t)).
Proof.
  exists (onCodexAppServerSocketDead (ensureCodexHeartbeatStarted AgentCodex true no_timers)). split; [|split; [reflexivity|]].
  - eapply (steps_snoc _ _ _ [Ensure] _ SocketDead); [|apply step_dead].
    eapply (steps_snoc _ _ _ [] _ Ensure); [apply steps_nil|apply step_ensure].
  - destruct (heartbeat_timers_bounded AgentCodex true [Ensure; SocketDead]
      (onCodexAppServerSocketDead (ensureCodexHeartbeatStarted AgentCodex true no_timers))) as (_ & _ & _ & Hlive & _).
    + eapply (steps_snoc _ _ _ [Ensure] _ SocketDead); [|apply step_dead].
      eapply (steps_snoc _ _ _ [] _ Ensure); [apply steps_nil|apply step_ensure].
    + destruct (Hlive eq_refl eq_refl eq_refl) as [[i Hi]|(i & Hi & _ & Hs)]; [discriminate Hi|]. by exists i.
Defined.

(** ** State files *)

#[local] Instance demo_urls : UrlEnv := Some.

Definition demo_binding : cursor_binding := CursorBinding "https://localhost:8787" "pin" cube drone true.
Definition demo_cursor : json := JObj [("id", JStr entry_id); ("created_at", JStr "2026-01-02T00:00:00.000Z")].
Definition no_files : files := Files None None ∅.

Lemma cursors_only_advance_witness :
  exists key, cursorKey demo_binding = inr key /\
    forall ps' w', rtc (pool_moves (file_act 0) cursor_calls (fun _ _ => False))
      ([advanceLocalServerCursor 1 demo_binding demo_cursor false], no_files) (ps', w') ->
      ps' !! 0%nat = Some (Ret tt) -> reached key demo_cursor (f_state w').
Proof.
  destruct (cursorKey demo_binding) as [e|key] eqn:Hk; [vm_compute in Hk; discriminate|].
  exists key. split; [reflexivity|]. intros ps' w' Hr.
  exact (proj2 (cursors_only_advance 0 1 demo_binding demo_cursor false key no_files ps' w' Hk Hr)).
Defined.

Lemma cursor_file_is_a_map_witness :
  exists key, cursorKey demo_binding = inr key /\
    exists w', run (file_handle 5) (advanceLocalServerCursor 1 demo_binding demo_cursor false) no_files = (Done tt, w') /\
      stored (f_state w') key = Some demo_cursor.
Proof.
  destruct (cursorKey demo_binding) as [e|key] eqn:Hk; [vm_compute in Hk; discriminate|].
  exists key. split; [reflexivity|].
  destruct (cursor_file_is_a_map 5 1 demo_binding demo_cursor false key no_files) as (_ & (w' & Hr & _ & Hs) & _).
  - exact Hk.
  - vm_compute. reflexivity.
  - reflexivity.
  - exists w'. split; [exact Hr|]. specialize (Hs key). rewrite String.eqb_refl in Hs. exact Hs.
Defined.

Lemma announcements_are_kept_witness :
  lifecycleSignalForMessage "ARRIVAL: drone-1" = Some Arrival /\
  forall ps' w', rtc (pool_moves (file_act 0) lifecycle_calls (fun _ _ => False))
    ([recordLifecycleLog (LifecycleSubject cube drone) "ARRIVAL: drone-1" (Some "s1")], no_files) (ps', w') ->
    ps' !! 0%nat = Some (Ret tt) -> announced (f_state w') (cube +:+ ":" +:+ drone) "s1".
Proof.
  split; [vm_compute; reflexivity|]. intros ps' w' Hr Hps.
  destruct (announcements_are_kept 0 (LifecycleSubject cube drone) "ARRIVAL: drone-1" "s1" no_files ps' w') as (_ & _ & H3).
  - vm_compute. reflexivity.
  - by exists [].
  - exact Hr.
  - exact (proj1 (H3 Hps)).
Defined.
