(* ===== verification/RepDb.v ===== *)
(** * The representative's state database ([src/representative-db.ts],
    [src/representative-store.ts], [src/representative-legacy.ts])

    The tables of one published generation and the transactions over them.  A
    transaction is a function of the clock and the tables; one that throws is
    rolled back by [transact].  The text columns that hold JSON are kept as the
    value [JSON.parse] gives for them.  The UUID decoder of [borgmcp-shared] is
    the field [decodeUuid] of the class [RepEnv]. *)

From S2P Require Import Prelude JsDate JsonText Effects Sha256 ShellEscape.

Open Scope Z_scope.

(** What the code takes from [borgmcp-shared/protocol]: whether [decodeUuid]
    accepts a value, and the error [decodeAppendLogRequest] throws for a
    request, if any. *)
Class RepEnv := {
  decodeUuid : option json -> bool;
  decodeAppendLogRequest : string -> string -> list string -> option js_error
}.

(** A log position: [LocalServerCursor]. *)
(* src/src/local-server-cursor.ts 12-15 LocalServerCursor *)
Record point := Point { p_id : string; p_created_at : string }.

#[export] Instance point_eq_dec : EqDecision point.
Proof. solve_decision. Defined.

(* src/src/representative-store.ts 41-56 RepresentativeBinding *)
Record binding := Binding {
  worktree : string;
  origin : string;
  trustIdentity : string;
  cubeId : string;
  cubeName : string;
  representativeDroneId : string;
  representativeLabel : string;
  representativeRoleName : string;
  coordinatorDroneId : string;
  coordinatorLabel : string;
  coordinatorRoleName : string;
  repositoryOrigin : option string;
  boundAt : string
}.

#[export] Instance binding_eq_dec : EqDecision binding.
Proof. solve_decision. Defined.

(* src/src/representative-store.ts 62-62 RepresentativeRequestState *)
Inductive request_state := Pending | Ambiguous | Sent | Rejected.

#[export] Instance request_state_eq_dec : EqDecision request_state.
Proof. solve_decision. Defined.

(* src/src/representative-store.ts 64-77 RepresentativeRequestRecord *)
Record request := Request {
  q_requestId : string;
  q_payloadDigest : string;
  q_kind : string;
  q_authorization : string;
  q_state : request_state;
  q_entryId : option string;
  q_maybeStored : option bool;
  q_createdAt : string;
  q_updatedAt : string
}.

#[export] Instance request_eq_dec : EqDecision request.
Proof. solve_decision. Defined.

(** ** Tables *)

(* src/src/representative-store.ts 192-192 origin *)
Inductive row_origin := Prepared | Legacy.

Record binding_row := BindingRow {
  br_generation : string;
  br_seat : string;
  br_origin : row_origin;
  br_binding : json
}.

(** The nullable columns stay separate, as in the schema. *)
Record delivery_row := DeliveryRow {
  dr_seat : string;
  dr_start_id : string;
  dr_start_at : string;
  dr_start_kind : string;
  dr_checkpoint_id : option string;
  dr_checkpoint_at : option string;
  dr_read_through_id : option string;
  dr_read_through_at : option string
}.

Record wake_row := WakeRow { wk_created_at : string; wk_attempts : Z; wk_next_at : string }.

(** [requests] keeps a generation's rows in the order of [seq]. *)
(* src/src/representative-db.ts 200-215 SCHEMA *)
Record rep_db := RepDb {
  t_bindings : gmap string binding_row;
  t_delivery : gmap string delivery_row;
  t_returned : gmap string (gmap string string);
  t_requests : gmap string (list (string * json));
  t_wake_state : gmap string string;
  t_wake_replies : gmap string (gmap string wake_row)
}.

Definition empty_db : rep_db := RepDb ∅ ∅ ∅ ∅ ∅ ∅.

Definition set_bindings (f : gmap string binding_row -> gmap string binding_row) (db : rep_db) :=
  RepDb (f (t_bindings db)) (t_delivery db) (t_returned db) (t_requests db) (t_wake_state db) (t_wake_replies db).
Definition set_delivery (f : gmap string delivery_row -> gmap string delivery_row) (db : rep_db) :=
  RepDb (t_bindings db) (f (t_delivery db)) (t_returned db) (t_requests db) (t_wake_state db) (t_wake_replies db).
Definition set_returned (f : gmap string (gmap string string) -> gmap string (gmap string string)) (db : rep_db) :=
  RepDb (t_bindings db) (t_delivery db) (f (t_returned db)) (t_requests db) (t_wake_state db) (t_wake_replies db).
Definition set_requests (f : gmap string (list (string * json)) -> gmap string (list (string * json))) (db : rep_db) :=
  RepDb (t_bindings db) (t_delivery db) (t_returned db) (f (t_requests db)) (t_wake_state db) (t_wake_replies db).
Definition set_wake_state (f : gmap string string -> gmap string string) (db : rep_db) :=
  RepDb (t_bindings db) (t_delivery db) (t_returned db) (t_requests db) (f (t_wake_state db)) (t_wake_replies db).
Definition set_wake_replies (f : gmap string (gmap string wake_row) -> gmap string (gmap string wake_row)) (db : rep_db) :=
  RepDb (t_bindings db) (t_delivery db) (t_returned db) (t_requests db) (t_wake_state db) (f (t_wake_replies db)).

(** ** Transactions *)

(** The body of a transaction: reads the clock ([new Date()]), may throw. *)
Definition tx (A : Type) : Type := Z -> rep_db -> (js_error + A) * rep_db.

Definition tx_ret {A} (a : A) : tx A := fun _ db => (inr a, db).
Definition tx_throw {A} (e : js_error) : tx A := fun _ db => (inl e, db).
Definition tx_bind {A B} (m : tx A) (f : A -> tx B) : tx B := fun now db =>
  match m now db with
  | (inr a, db') => f a now db'
  | (inl e, db') => (inl e, db')
  end.
Definition tx_read {A} (f : rep_db -> A) : tx A := fun _ db => (inr (f db), db).
Definition tx_write (f : rep_db -> rep_db) : tx unit := fun _ db => (inr tt, f db).
Definition tx_now : tx Z := fun now db => (inr now, db).

Declare Scope tx_scope.
Delimit Scope tx_scope with tx.
Notation "'let*' x ':=' m 'in' k" := (tx_bind m (fun x => k))
  (at level 10, x pattern, m at level 100, k at level 200) : tx_scope.
Notation "'do*' m ';' k" := (tx_bind m (fun _ => k))
  (at level 10, m at level 100, k at level 200) : tx_scope.
Open Scope tx_scope.

(** [BEGIN IMMEDIATE; body; COMMIT], rolled back when [body] throws. *)
(* src/src/representative-db.ts 374-395 transact *)
Definition commit {A} (body : tx A) (now : Z) (db : rep_db) : (js_error + A) * rep_db :=
  match body now db with
  | (inr a, db') => (inr a, db')
  | (inl e, _) => (inl e, db)
  end.

(** A statement that violates a key of the schema. *)
Definition constraint_failed : js_error :=
  ErrorOf "Error" (Some "ERR_SQLITE_ERROR") None "UNIQUE constraint failed" [].

Lemma commit_ok {A} (body : tx A) now db a db' :
  commit body now db = (inr a, db') <-> body now db = (inr a, db').
Proof. unfold commit. destruct (body now db) as [[e|b] d]; split; intros; simplify_eq; done. Qed.

Lemma commit_err {A} (body : tx A) now db e db' :
  commit body now db = (inl e, db') -> db' = db.
Proof. unfold commit. destruct (body now db) as [[e'|b] d]; intros; by simplify_eq. Qed.

(** ** Bindings *)

Section Bindings.
Context `{RepEnv}.

(* src/src/representative-store.ts 23-25 isRepresentativeUuid *)
Definition isRepresentativeUuid (value : option json) : bool := decodeUuid value.

(* src/src/representative-store.ts 26-26 SETTLED_REQUEST_LIMIT *)
Definition SETTLED_REQUEST_LIMIT : nat := 200.

(* src/src/representative-store.ts 28-39 bindingFingerprint *)
Definition bindingFingerprint (b : binding) : string :=
  sha256_hex (json_compact (JArr (map JStr
    [origin b; trustIdentity b; cubeId b; representativeDroneId b; coordinatorDroneId b; boundAt b]))).

(* src/src/representative-legacy.ts 36-41 seatKey *)
Definition seatKey (b : binding) : string :=
  sha256_hex (json_compact (JArr (map JStr
    [origin b; trustIdentity b; cubeId b; representativeDroneId b]))).

(* src/src/representative-store.ts 58-60 representativeRecoveryCommand *)
Definition representativeRecoveryCommand (b : binding) : string :=
  "cd " +:+ shellEscape (worktree b) +:+ " && borg representative prepare --coordinator " +:+
  shellEscape (coordinatorLabel b) +:+ " --role " +:+ shellEscape (representativeRoleName b) +:+ " --rebind".

(* src/src/representative-store.ts 118-124 RepresentativeGenerationError *)
Definition generation_error : js_error :=
  ErrorOf "RepresentativeGenerationError" (Some "BINDING_MISMATCH") None
    "The operator rebound this representative connection while this operation ran. Nothing was changed; restart the host connection to use the new binding." [].

(* src/src/representative-store.ts 79-84 RepresentativeStoreError *)
Definition binding_conflict (message : string) : js_error :=
  ErrorOf "RepresentativeStoreError" (Some "BINDING_CONFLICT") None message [].

(** [JSON.stringify(binding)], as the value it parses to. *)
Definition binding_json (b : binding) : json :=
  JObj (map (fun kv => (fst kv, JStr (snd kv)))
      [("worktree", worktree b); ("origin", origin b); ("trustIdentity", trustIdentity b);
       ("cubeId", cubeId b); ("cubeName", cubeName b);
       ("representativeDroneId", representativeDroneId b); ("representativeLabel", representativeLabel b);
       ("representativeRoleName", representativeRoleName b);
       ("coordinatorDroneId", coordinatorDroneId b); ("coordinatorLabel", coordinatorLabel b);
       ("coordinatorRoleName", coordinatorRoleName b)] ++
    optional_field "repositoryOrigin" (JStr <$> repositoryOrigin b) ++
    [("boundAt", JStr (boundAt b))]).

(* src/src/representative-store.ts 126-130 BINDING_STRING_FIELDS *)
Definition BINDING_STRING_FIELDS : list string :=
  ["worktree"; "origin"; "trustIdentity"; "cubeId"; "cubeName";
   "representativeDroneId"; "representativeLabel"; "representativeRoleName";
   "coordinatorDroneId"; "coordinatorLabel"; "coordinatorRoleName"; "boundAt"].

Definition is_object (v : json) : bool := match v with JObj _ => true | _ => false end.

(** [typeof v === 'string' && v !== ''] *)
Definition nonempty_string (v : option json) : bool :=
  match v with Some (JStr s) => negb (String.eqb s "") | _ => false end.

(** [v === undefined || typeof v === 'string'] *)
Definition optional_string (v : option json) : bool :=
  match v with None => true | Some (JStr _) => true | _ => false end.

(* src/src/representative-store.ts 132-142 validBinding *)
Definition validBinding (value : json) (key : string) : bool :=
  is_object value &&
  forallb (fun field => nonempty_string (jget field value)) BINDING_STRING_FIELDS &&
  bool_decide (jstr (jget "worktree" value) = Some key) &&
  isRepresentativeUuid (jget "cubeId" value) &&
  isRepresentativeUuid (jget "representativeDroneId" value) &&
  isRepresentativeUuid (jget "coordinatorDroneId" value) &&
  negb (bool_decide (jstr (jget "representativeDroneId" value) = jstr (jget "coordinatorDroneId" value))) &&
  optional_string (jget "repositoryOrigin" value).

Definition field_of (value : json) (k : string) : string := default "" (jstr (jget k value)).

(* src/src/representative-store.ts 144-158 parseBinding *)
Definition parseBinding (value : json) (key : string) : option binding :=
  if negb (validBinding value key) then None
  else
    let f := field_of value in
    Some (Binding (f "worktree") (f "origin") (f "trustIdentity") (f "cubeId") (f "cubeName")
      (f "representativeDroneId") (f "representativeLabel") (f "representativeRoleName")
      (f "coordinatorDroneId") (f "coordinatorLabel") (f "coordinatorRoleName")
      (jstr (jget "repositoryOrigin" value)) (f "boundAt")).

(* src/src/representative-store.ts 174-180 sameSelection *)
Definition sameSelection (a b : binding) : bool :=
  String.eqb (origin a) (origin b) &&
  String.eqb (trustIdentity a) (trustIdentity b) &&
  String.eqb (cubeId a) (cubeId b) &&
  String.eqb (representativeDroneId a) (representativeDroneId b) &&
  String.eqb (coordinatorDroneId a) (coordinatorDroneId b).

Record current_row := CurrentRow {
  cr_binding : binding;
  cr_generation : string;
  cr_origin : row_origin
}.

(* src/src/representative-store.ts 190-202 currentBindingRow *)
Definition currentBindingRow (wt : string) : tx (option current_row) := fun now db =>
  match t_bindings db !! wt with
  | None => (inr None, db)
  | Some row =>
      match parseBinding (br_binding row) wt with
      | Some b =>
          if String.eqb (bindingFingerprint b) (br_generation row)
          then (inr (Some (CurrentRow b (br_generation row) (br_origin row))), db)
          else (inl (JsError ("The representative state holds an invalid binding row for " +:+ wt)), db)
      | None => (inl (JsError ("The representative state holds an invalid binding row for " +:+ wt)), db)
      end
  end.

(* src/src/representative-store.ts 204-210 requireCurrentGeneration *)
Definition requireCurrentGeneration (b : binding) : tx string :=
  let generation := bindingFingerprint b in
  let* current := currentBindingRow (worktree b) in
  match current with
  | Some row => if String.eqb (cr_generation row) generation then tx_ret generation else tx_throw generation_error
  | None => tx_throw generation_error
  end.

(** [SELECT worktree FROM bindings WHERE generation = ?] *)
Definition holder_of (generation : string) (db : rep_db) : option string :=
  fst <$> head (filter (fun kv => br_generation (snd kv) = generation) (map_to_list (t_bindings db))).

(* src/src/representative-store.ts 212-232 insertBindingRow *)
Definition insertBindingRow (b : binding) (seat : string) (orig : row_origin) : tx unit :=
  let generation := bindingFingerprint b in
  let* holder := tx_read (holder_of generation) in
  match holder with
  | Some w =>
      if String.eqb w (worktree b) then tx_throw constraint_failed
      else tx_throw (binding_conflict
        ("Representative drone " +:+ representativeLabel b +:+ " is already bound to Coordinator " +:+
         coordinatorLabel b +:+ " in worktree " +:+ w +:+
         " with the same binding generation. Prepare this worktree with its own representative seat."))
  | None =>
      let* present := tx_read (fun db => bool_decide (is_Some (t_bindings db !! worktree b))) in
      if present then tx_throw constraint_failed
      else tx_write (set_bindings <[worktree b := BindingRow generation seat orig (binding_json b)]>)
  end.

(** ** The request ledger *)

Definition state_name (s : request_state) : string :=
  match s with Pending => "pending" | Ambiguous => "ambiguous" | Sent => "sent" | Rejected => "rejected" end.

Definition state_of_name (s : string) : option request_state :=
  if String.eqb s "pending" then Some Pending
  else if String.eqb s "ambiguous" then Some Ambiguous
  else if String.eqb s "sent" then Some Sent
  else if String.eqb s "rejected" then Some Rejected
  else None.

Definition request_json (r : request) : json :=
  JObj ([("requestId", JStr (q_requestId r)); ("payloadDigest", JStr (q_payloadDigest r));
         ("kind", JStr (q_kind r)); ("authorization", JStr (q_authorization r));
         ("state", JStr (state_name (q_state r)));
         ("createdAt", JStr (q_createdAt r)); ("updatedAt", JStr (q_updatedAt r))] ++
        optional_field "entryId" (JStr <$> q_entryId r) ++
        optional_field "maybeStored" (JBool <$> q_maybeStored r)).

(** The typed view of a row [validRequest] accepts; members the code never
    writes are dropped, and a [requestId] that is not itself a string is
    refused. *)
(* src/src/representative-store.ts 160-172 validRequest *)
Definition request_of_json (v : json) : option request :=
  if negb (is_object v) then None else
  id ← jstr (jget "requestId" v);
  if negb (isRepresentativeUuid (Some (JStr id))) then None else
  digest ← jstr (jget "payloadDigest" v);
  kind ← jstr (jget "kind" v);
  auth ← jstr (jget "authorization" v);
  st ← (name ← jstr (jget "state" v); state_of_name name);
  entry ← match jget "entryId" v with
          | None => Some None | Some (JStr e) => Some (Some e) | _ => None end;
  stored ← match jget "maybeStored" v with
           | None => Some None | Some (JBool b) => Some (Some b) | _ => None end;
  created ← jstr (jget "createdAt" v);
  updated ← jstr (jget "updatedAt" v);
  Some (Request id digest kind auth st entry stored created updated).

Definition is_settled (r : request) : bool :=
  match q_state r with Sent | Rejected => true | _ => false end.

(* src/src/representative-store.ts 182-188 pruneSettled *)
Definition pruneSettled (records : list request) : list request :=
  let settled := List.filter is_settled records in
  if (length settled <=? SETTLED_REQUEST_LIMIT)%nat then records
  else
    let drop_ids := map q_requestId (take (length settled - SETTLED_REQUEST_LIMIT) settled) in
    filter (fun r => q_requestId r ∉ drop_ids) records.

(* src/src/representative-store.ts 234-241 loadRequests *)
Definition loadRequests (generation : string) : tx (list request) := fun now db =>
  match mapM (fun row => request_of_json (snd row)) (default [] (t_requests db !! generation)) with
  | Some records => (inr records, db)
  | None => (inl (JsError "The representative state holds an invalid request record"), db)
  end.

(* src/src/representative-store.ts 243-247 storeRequests *)
Definition storeRequests (generation : string) (records : list request) : tx unit :=
  if bool_decide (NoDup (map q_requestId records)) then
    tx_write (set_requests <[generation := map (fun r => (q_requestId r, request_json r)) records]>)
  else tx_throw constraint_failed.

Inductive save_result := Unchanged | Rebound | Created.

(* src/src/representative-store.ts 264-265 getBinding *)
Definition getBinding (wt : string) : tx (option binding) :=
  let* row := currentBindingRow wt in tx_ret (cr_binding <$> row).

(* src/src/representative-store.ts 280-283 readRequests *)
Definition readRequests (wt : string) : tx (list request) :=
  let* current := currentBindingRow wt in
  match current with
  | Some row => loadRequests (cr_generation row)
  | None => tx_ret []
  end.

(* src/src/representative-store.ts 285-310 saveBinding *)
Definition saveBinding (b : binding) (rebind : bool) : tx save_result :=
  if negb (validBinding (binding_json b) (worktree b)) then
    tx_throw (JsError "Refusing to save an invalid representative binding")
  else
    let* row := currentBindingRow (worktree b) in
    match row with
    | Some r =>
        let existing := cr_binding r in
        if sameSelection existing b && negb rebind then tx_ret Unchanged
        else if negb rebind then
          tx_throw (binding_conflict
            ("This worktree is already bound to Coordinator " +:+ coordinatorLabel existing +:+ " in cube " +:+
             cubeName existing +:+ ". To confirm the new selection, run `" +:+
             representativeRecoveryCommand b +:+ "`."))
        else
          let* carried := (if sameSelection existing b then loadRequests (cr_generation r) else tx_ret []) in
          do* tx_write (set_bindings (delete (worktree b)));
          do* insertBindingRow b (seatKey b) Prepared;
          do* match carried with [] => tx_ret tt | _ => storeRequests (bindingFingerprint b) carried end;
          tx_ret Rebound
    | None =>
        do* tx_write (set_bindings (delete (worktree b)));
        do* insertBindingRow b (seatKey b) Prepared;
        tx_ret Created
    end.

(** [op] mutates the records in place and returns; the clock is the one its
    [now()] reads. *)
(* src/src/representative-store.ts 312-326 transactRequests *)
Definition transactRequests {T} (b : binding) (op : Z -> list request -> (js_error + T) * list request)
    (skip : bool) : tx (option T) := fun now db =>
  match requireCurrentGeneration b now db with
  | (inl e, db') =>
      if skip && instance_of "RepresentativeGenerationError" e then (inr None, db') else (inl e, db')
  | (inr generation, db') =>
      (let* before := loadRequests generation in
       match op now before with
       | (inl e, _) => tx_throw e
       | (inr result, records) =>
           let next := pruneSettled records in
           do* (if bool_decide (next = before) then tx_ret tt else storeRequests generation next);
           tx_ret (Some result)
       end) now db'
  end.
End Bindings.

#[global] Arguments bindingFingerprint : simpl never.
#[global] Arguments seatKey : simpl never.

(** * The delivered checkpoint and read window ([src/representative-delivery-store.ts])

    Per binding generation: where its history starts, the checkpoint the host
    has acknowledged, the fence of what a read has returned and the entries it
    returned.  The functions here run inside one transaction. *)

(* src/src/representative-delivery-store.ts 27-33 DeliveryState *)
Record delivery_state := DeliveryState {
  ds_start : point;
  ds_startKind : string;
  ds_checkpoint : option point;
  ds_readThrough : option point;
  ds_returned : list point
}.

(* src/src/representative-delivery-store.ts 35-36 RETURNED_CAP *)
Definition RETURNED_CAP : nat := 100.
(* src/src/representative-delivery-store.ts 37-37 NIL_UUID *)
Definition NIL_UUID := "00000000-0000-0000-0000-000000000000".

(* src/src/representative-delivery-store.ts 39-44 comparePoints *)
Definition comparePoints (a : point) (b : option point) : Z :=
  match b with
  | None => 1
  | Some b =>
      if negb (String.eqb (p_created_at a) (p_created_at b)) then
        (if string_ltb (p_created_at a) (p_created_at b) then -1 else 1)
      else if String.eqb (p_id a) (p_id b) then 0
      else if string_ltb (p_id a) (p_id b) then -1 else 1
  end.

(* src/src/representative-delivery-store.ts 46-47 later *)
Definition later (a b : option point) : option point :=
  match a, b with
  | None, _ => b
  | _, None => a
  | Some x, Some _ => if 0 <=? comparePoints x b then a else b
  end.

(* src/src/representative-delivery-store.ts 49-50 point *)
Definition point_of (id at_ : option string) : option point :=
  match id, at_ with Some id, Some at_ => Some (Point id at_) | _, _ => None end.

(** The order [.sort((a, b) => comparePoints(a, b))] sorts by. *)
Definition point_le (a b : point) : Prop := comparePoints a (Some b) <= 0.
#[export] Instance point_le_dec a b : Decision (point_le a b).
Proof. unfold point_le. apply _. Defined.
Definition point_lt (a b : point) : Prop := comparePoints a (Some b) < 0.

Definition sort_points (l : list point) : list point := merge_sort point_le l.

Definition returned_rows (generation : string) (db : rep_db) : list point :=
  map (fun kv => Point (fst kv) (snd kv)) (map_to_list (default ∅ (t_returned db !! generation))).

(* src/src/representative-delivery-store.ts 52-67 loadDelivery *)
Definition loadDelivery (generation : string) (db : rep_db) : option delivery_state :=
  match t_delivery db !! generation with
  | None => None
  | Some row =>
      Some (DeliveryState
        (Point (dr_start_id row) (dr_start_at row)) (dr_start_kind row)
        (point_of (dr_checkpoint_id row) (dr_checkpoint_at row))
        (point_of (dr_read_through_id row) (dr_read_through_at row))
        (sort_points (returned_rows generation db)))
  end.

(* src/src/representative-delivery-store.ts 69-79 scanStart *)
Definition scanStart (st : delivery_state) : js_error + (option point * point) :=
  if String.eqb (ds_startKind st) "head-pending" then
    inl (JsError "The delivery start is not resolved yet")
  else
    let floor := default (ds_start st) (later (Some (ds_start st)) (ds_checkpoint st)) in
    match ds_checkpoint st with
    | Some c => inr (Some c, floor)
    | None => inr (if String.eqb (ds_startKind st) "binding" then None else Some (ds_start st), floor)
    end.

(** [created_at < ? OR (created_at = ? AND entry_id <= ?)] *)
Definition wake_row_covered (cp : option point) (id : string) (row : wake_row) : bool :=
  let at_ := default "" (p_created_at <$> cp) in
  let cid := default "" (p_id <$> cp) in
  string_ltb (wk_created_at row) at_ ||
  String.eqb (wk_created_at row) at_ && (String.eqb id cid || string_ltb id cid).

(** [DELETE ...; INSERT INTO returned ...]: two entries with one id violate the
    primary key. *)
Definition insert_returned (generation : string) (l : list point) : tx unit :=
  if bool_decide (NoDup (map p_id l)) then
    tx_write (set_returned <[generation := list_to_map (map (fun p => (p_id p, p_created_at p)) l)]>)
  else tx_throw constraint_failed.

Definition update_delivery (generation : string) (next : delivery_state) : tx unit :=
  tx_write (set_delivery (alter (fun row => DeliveryRow
    (dr_seat row) (dr_start_id row) (dr_start_at row) (dr_start_kind row)
    (p_id <$> ds_checkpoint next) (p_created_at <$> ds_checkpoint next)
    (p_id <$> ds_readThrough next) (p_created_at <$> ds_readThrough next)) generation)).

(* src/src/representative-delivery-store.ts 81-94 write *)
Definition write (generation : string) (next : delivery_state) : tx unit :=
  let beyond := match ds_checkpoint next with
                | None => false
                | Some c => match ds_readThrough next with
                            | None => true
                            | Some r => 0 <? comparePoints c (Some r)
                            end
                end in
  if beyond then
    tx_throw (JsError "A representative state write would move the checkpoint beyond the read fence")
  else
    do* update_delivery generation next;
    do* insert_returned generation (ds_returned next);
    tx_write (set_wake_replies (alter
      (filter (fun kv => wake_row_covered (ds_checkpoint next) (fst kv) (snd kv) = false)) generation)).

(** [.filter((entry, index, all) => all.findIndex((other) => other.id === entry.id) === index)] *)
Fixpoint dedup_ids (seen : list string) (l : list point) : list point :=
  match l with
  | [] => []
  | p :: l' =>
      if bool_decide (p_id p ∈ seen) then dedup_ids seen l'
      else p :: dedup_ids (p_id p :: seen) l'
  end.

(** [l.slice(-n)] for [n > 0] *)
Definition slice_last {A} (n : nat) (l : list A) : list A := drop (length l - n) l.

Definition after_checkpoint (cp : option point) (l : list point) : list point :=
  List.filter (fun p => 0 <? comparePoints p cp) l.

(* src/src/representative-delivery-store.ts 96-106 widenReadWindow *)
Definition widenReadWindow (generation : string) (window : list point) : tx unit :=
  let* loaded := tx_read (loadDelivery generation) in
  match loaded, last window with
  | None, _ | _, None => tx_ret tt
  | Some before, Some tail =>
      let returned := slice_last RETURNED_CAP (sort_points
        (after_checkpoint (ds_checkpoint before) (dedup_ids [] (ds_returned before ++ window)))) in
      write generation (DeliveryState (ds_start before) (ds_startKind before) (ds_checkpoint before)
        (later (ds_readThrough before) (Some tail)) returned)
  end.

(* src/src/representative-delivery-store.ts 108-118 advanceCheckpoint *)
Definition advanceCheckpoint (generation : string) (to : point) : tx (delivery_state * delivery_state) :=
  let* loaded := tx_read (loadDelivery generation) in
  match loaded with
  | None => tx_throw (JsError "No representative delivery state for this generation")
  | Some before =>
      let checkpoint := later (ds_checkpoint before) (Some to) in
      let after_ := DeliveryState (ds_start before) (ds_startKind before) checkpoint
        (ds_readThrough before) (after_checkpoint checkpoint (ds_returned before)) in
      do* write generation after_;
      tx_ret (before, after_)
  end.

(* src/src/representative-delivery-store.ts 176-179 startKindOf *)
Definition startKindOf (generation : string) (db : rep_db) : option string :=
  dr_start_kind <$> t_delivery db !! generation.

(** The transactions of [ensureDeliveryState]. *)
Section Ensure.
Context `{RepEnv}.

(* src/src/representative-delivery-store.ts 148-152 current *)
Definition require_current_row (b : binding) : tx current_row :=
  let* row := currentBindingRow (worktree b) in
  match row with
  | Some r => if String.eqb (cr_generation r) (bindingFingerprint b) then tx_ret r else tx_throw generation_error
  | None => tx_throw generation_error
  end.

Definition binding_start (b : binding) : point := Point NIL_UUID (boundAt b).

(* src/src/representative-delivery-store.ts 153-155 insert *)
Definition insert_delivery (b : binding) (kind : string) (start : point) : tx unit :=
  let generation := bindingFingerprint b in
  let* present := tx_read (fun db => bool_decide (is_Some (t_delivery db !! generation))) in
  if present then tx_throw constraint_failed
  else tx_write (set_delivery <[generation :=
    DeliveryRow (seatKey b) (p_id start) (p_created_at start) kind None None None None]>).

(* src/src/representative-delivery-store.ts 156-161 pending *)
Definition ensure_row (b : binding) : tx bool :=
  do* require_current_row b;
  let* kind := tx_read (startKindOf (bindingFingerprint b)) in
  match kind with
  | None => do* insert_delivery b "binding" (binding_start b); tx_ret false
  | Some k => tx_ret (String.eqb k "head-pending")
  end.

(** What [serverHead] returns: the newest position, [null] for an empty log, or
    ['unbounded']. *)
Inductive head_result := Head (p : point) | EmptyLog | Unbounded.

Definition seat_history (seat generation : string) (db : rep_db) : bool :=
  existsb (fun kv => String.eqb (dr_seat (snd kv)) seat && negb (String.eqb (fst kv) generation))
    (map_to_list (t_delivery db)).

(* src/src/representative-delivery-store.ts 165-173 ensureDeliveryState *)
Definition resolve_head (b : binding) (head : head_result) : tx unit :=
  let generation := bindingFingerprint b in
  do* require_current_row b;
  let* kind := tx_read (startKindOf generation) in
  if negb (bool_decide (kind = Some "head-pending")) then tx_ret tt
  else
    let* history := tx_read (seat_history (seatKey b) generation) in
    let '(k, start) := match head, history with
                       | Head p, false => ("head", p)
                       | _, _ => ("binding", binding_start b)
                       end in
    tx_write (set_delivery (alter (fun row => DeliveryRow
      (dr_seat row) (p_id start) (p_created_at start) k
      (dr_checkpoint_id row) (dr_checkpoint_at row) (dr_read_through_id row) (dr_read_through_at row))
      generation)).
End Ensure.
