(* ===== verification/RepCore.v ===== *)
(** * The representative's backend, live verification and state ([src/representative-core.ts])

    The operations a representative connection performs - transactions on its
    state database and the seat-scoped calls of the Borg server - and the
    functions every tool of the connection starts with.  The answers of the
    server are not determined here; [RepServer] and [RepProtocol] say what is
    assumed of them.  Cancellation signals, which only the listener passes, are
    absent. *)

From stdpp Require Import pretty.
From S2P Require Import Prelude JsDate JsonText Effects RepDb.

Open Scope Z_scope.
Open Scope tx_scope.
Open Scope prog_scope.

(* src/src/representative-core.ts 74-83 RepresentativeError *)
Definition representative_error (code message : string) (details : list (string * (string + Z))) : js_error :=
  ErrorOf "RepresentativeError" (Some code) None message details.

(* src/src/representative-core.ts 85-85 RosterRole *)
Record roster_role := RosterRole {
  ro_id : string;
  ro_name : string;
  ro_is_human_seat : option bool;
  ro_role_class : option string
}.

(* src/src/representative-core.ts 86-86 RosterDrone *)
Record roster_drone := RosterDrone {
  rd_id : string;
  rd_label : string;
  rd_role_id : string;
  rd_is_queen_class : option bool
}.

Record roster := Roster { rs_drones : list roster_drone; rs_roles : list roster_role }.

(* src/src/representative-core.ts 87-87 LogEntry *)
Record log_entry := LogEntry {
  e_id : string;
  e_drone_id : string;
  e_message : string;
  e_visibility : string;
  e_created_at : string;
  e_recipient_drone_ids : option (list string);
  e_documents : option (list json)
}.

Definition entry_point (e : log_entry) : point := Point (e_id e) (e_created_at e).

Record append_result := AppendResult {
  ar_entry : log_entry;
  ar_deduplicated : bool;
  ar_unreachableRecipients : option (list (string * string))
}.

Record page := Page { pg_entries : list log_entry; pg_has_more : option bool }.

Record who := Who { wh_cube_id : string; wh_drone_id : string }.

(** [transact] and [readOnly] of the state, and the backend's methods. *)
(* src/src/representative-core.ts 89-112 RepresentativeBackend *)
Inductive rep_op : Type -> Type :=
| Transact {A : Type} (body : tx A) : rep_op (js_error + A)
| ReadOnly {A : Type} (body : tx A) : rep_op (js_error + option A)
| Whoami : rep_op (js_error + who)
| RosterCall : rep_op (js_error + roster)
| Append (postId message : string) (to : list string) : rep_op (js_error + append_result)
| ReadAfter (cursor : option point) (limit : Z) : rep_op (js_error + page)
| ReadEntry (entryId : string) : rep_op (js_error + log_entry)
| AckCall (entryId : string) : rep_op (js_error + unit)
| RandomUUID : rep_op string.

Definition rep := prog rep_op.

Definition transact {A} (body : tx A) : rep A := perform (Transact body).

Section Core.
Context `{RepEnv}.

(* src/src/representative-core.ts 139-150 assertRepresentativeRole *)
Definition assertRepresentativeRole (role : roster_role) (drone : option roster_drone) : js_error + unit :=
  if bool_decide (ro_is_human_seat role = Some true) || bool_decide (ro_role_class role = Some "queen") ||
     bool_decide (mbind rd_is_queen_class drone = Some true)
  then inl (representative_error "REPRESENTATIVE_ROLE_NOT_PERMITTED"
    ("Role " +:+ json_quote (ro_name role) +:+
     " is a human-seat or coordinating role. The human representative must hold its own separate non-human-seat worker role and never occupies or replaces the Coordinator.") [])
  else inr tt.

(* src/src/representative-core.ts 152-186 resolveCoordinator *)
Definition resolveCoordinator (r : roster) (label selfDroneId : string) : js_error + (roster_drone * roster_role) :=
  match List.filter (fun d => String.eqb (rd_label d) label) (rs_drones r) with
  | [] => inl (representative_error "COORDINATOR_NOT_FOUND"
      ("No active drone labelled " +:+ json_quote label +:+
       " exists in this cube (missing or evicted). No other drone was selected.") [])
  | (_ :: _ :: _) as matches => inl (representative_error "COORDINATOR_AMBIGUOUS"
      (pretty (length matches) +:+ " active drones are labelled " +:+ json_quote label +:+
       "; refusing to choose between them.") [])
  | [drone] =>
      if String.eqb (rd_id drone) selfDroneId then
        inl (representative_error "COORDINATOR_IS_SELF" "The representative drone cannot be its own Coordinator." [])
      else
        match List.find (fun c => String.eqb (ro_id c) (rd_role_id drone)) (rs_roles r) with
        | Some role =>
            if bool_decide (ro_is_human_seat role = Some true) then inr (drone, role)
            else inl (representative_error "COORDINATOR_NOT_HUMAN_SEAT"
              ("Drone " +:+ json_quote label +:+
               " does not hold the cube's human-seat (Coordinator) role. The representative talks only to the Coordinator, never directly to workers.") [])
        | None => inl (representative_error "COORDINATOR_NOT_HUMAN_SEAT"
              ("Drone " +:+ json_quote label +:+
               " does not hold the cube's human-seat (Coordinator) role. The representative talks only to the Coordinator, never directly to workers.") [])
        end
  end.

(** The roster checks of [verifyLiveBinding]. *)
Definition verify_roster (b : binding) (r : roster) : js_error + (roster_drone * roster_drone) :=
  let find_drone id := List.find (fun d => String.eqb (rd_id d) id) (rs_drones r) in
  let role_of d := (d0 ← d; List.find (fun c => String.eqb (ro_id c) (rd_role_id d0)) (rs_roles r)) in
  let self := find_drone (representativeDroneId b) in
  match self, role_of self with
  | Some me, Some selfRole =>
      match assertRepresentativeRole selfRole (Some me) with
      | inl e => inl e
      | inr _ =>
          let coordinator := find_drone (coordinatorDroneId b) in
          let unavailable := inl (representative_error "COORDINATOR_UNAVAILABLE"
            ("The bound Coordinator " +:+ json_quote (coordinatorLabel b) +:+
             " is no longer an active human-seat drone in this cube (evicted, released or reassigned). Restore that Coordinator before running `" +:+
             representativeRecoveryCommand b +:+
             "`, or explicitly select a replacement Coordinator; no other drone was selected.") []) in
          match coordinator, role_of coordinator with
          | Some c, Some cRole =>
              if bool_decide (ro_is_human_seat cRole = Some true) then inr (c, me) else unavailable
          | _, _ => unavailable
          end
      end
  | _, _ => inl (representative_error "SEAT_UNAVAILABLE" "The representative drone is no longer active in the cube." [])
  end.

Definition of_sum {A} (r : js_error + A) : rep A := match r with inl e => Throw e | inr a => Ret a end.

(* src/src/representative-core.ts 206-236 verifyLiveBinding *)
Definition verifyLiveBinding (b : binding) : rep (roster_drone * roster_drone) :=
  let! me := perform Whoami in
  if negb (String.eqb (wh_cube_id me) (cubeId b)) || negb (String.eqb (wh_drone_id me) (representativeDroneId b)) then
    Throw (representative_error "BINDING_MISMATCH"
      ("The live connection is not the bound cube/drone. Run `" +:+ representativeRecoveryCommand b +:+
       "` explicitly; nothing was sent.") [])
  else
    let! r := perform RosterCall in
    of_sum (verify_roster b r).

(* src/src/representative-core.ts 629-629 READ_SCAN_PAGE *)
Definition READ_SCAN_PAGE : Z := 500.
(* src/src/representative-core.ts 632-637 REPRESENTATIVE_ENVELOPE_FLOOR *)
Definition REPRESENTATIVE_ENVELOPE_FLOOR : Z := 16384.
(* src/src/representative-core.ts 638-639 SERVER_HEAD_MAX_PAGES *)
Definition SERVER_HEAD_MAX_PAGES : nat := 40.

Definition has_more (p : page) : bool := default false (pg_has_more p).

(** The last entry of a page and the cursor it gives. *)
Definition page_tail (p : page) : option point := entry_point <$> last (pg_entries p).

Fixpoint head_pages (pages : nat) (cursor : option point) : rep head_result :=
  match pages with
  | O => Ret Unbounded
  | S n =>
      let! result := perform (ReadAfter cursor READ_SCAN_PAGE) in
      let cursor' := match page_tail result with Some t => Some t | None => cursor end in
      if negb (has_more result) || bool_decide (page_tail result = None) then
        Ret (match cursor' with Some p => Head p | None => EmptyLog end)
      else head_pages n cursor'
  end.

(* src/src/representative-core.ts 641-661 serverHead *)
Definition serverHead : rep head_result := head_pages SERVER_HEAD_MAX_PAGES None.

(* src/src/representative-delivery-store.ts 133-174 ensureDeliveryState *)
Definition ensureDeliveryState (b : binding) : rep unit :=
  let! pending := transact (ensure_row b) in
  if negb pending then Ret tt
  else
    let! head := serverHead in
    transact (resolve_head b head).

(* src/src/representative-core.ts 663-675 ensureRepresentativeState *)
Definition ensureRepresentativeState (b : binding) : rep unit := ensureDeliveryState b.

(* src/src/representative-core.ts 616-622 isAddressedCoordinatorEntry *)
Definition isAddressedCoordinatorEntry (b : binding) (e : log_entry) : option string :=
  if negb (String.eqb (e_drone_id e) (coordinatorDroneId b)) then None
  else if String.eqb (e_visibility e) "direct" then
    (if bool_decide (representativeDroneId b ∈ default [] (e_recipient_drone_ids e)) then Some "direct" else None)
  else Some "broadcast".

(** [text.replace(/[\u0000-\u001f\u007f-\u009f]+/g, ' ')] on UTF-8 bytes: the C1
    controls are the pairs [C2 80] to [C2 9F].  [run] says that the previous
    character was replaced. *)
Fixpoint collapse_controls (run : bool) (s : string) : string :=
  match s with
  | EmptyString => ""
  | String c s' =>
      let replaced r := if run then r else String " " r in
      if is_c0_or_del c then replaced (collapse_controls true s')
      else if (nat_of_ascii c =? 194)%nat then
        match s' with
        | String d s'' =>
            if ascii_between 128 159 d then replaced (collapse_controls true s'')
            else String c (collapse_controls false s')
        | EmptyString => String c ""
        end
      else String c (collapse_controls false s')
  end.

(** [s.slice(0, n)] in UTF-16 units; a surrogate pair the cut would split is
    left out. *)
Fixpoint js_take (n : nat) (s : string) : string :=
  match s with
  | EmptyString => ""
  | String c s' =>
      let u := utf16_units c in
      if (u <=? n)%nat then String c (js_take (n - u) s') else ""
  end.

(* src/src/representative-core.ts 345-348 boundedMessage *)
Definition boundedMessage (e : js_error) : string :=
  js_take 300 (trim (collapse_controls false (message_of e))).
End Core.
