(* ===== verification/RepSend.v ===== *)
(** * Sending one message to the Coordinator ([src/representative-core.ts])

    [sendOnce] validates, reserves the request id in the ledger, verifies the
    live binding, posts once and settles the ledger by the outcome. *)

From stdpp Require Import pretty.
From S2P Require Import Prelude JsDate JsonText Effects Sha256 RepDb RepCore.

Open Scope Z_scope.
Open Scope tx_scope.
Open Scope prog_scope.

(* src/src/representative-core.ts 35-35 REPRESENTATIVE_MESSAGE_LIMIT_BYTES *)
Definition REPRESENTATIVE_MESSAGE_LIMIT_BYTES : nat := 3000.

(* src/src/representative-core.ts 238-238 RepresentativeKind *)
Inductive rep_kind := KRequest | KQuestion | KDecision.
(* src/src/representative-core.ts 239-239 RepresentativeAuthorization *)
Inductive rep_authorization := UserAuthorized | ModelAdvice.

Definition kind_name (k : rep_kind) : string :=
  match k with KRequest => "request" | KQuestion => "question" | KDecision => "decision" end.
Definition authorization_name (a : rep_authorization) : string :=
  match a with UserAuthorized => "user_authorized" | ModelAdvice => "model_advice" end.

(* src/src/representative-core.ts 241-246 RepresentativeSendInput *)
Record send_input := SendInput {
  si_request_id : option string;
  si_kind : rep_kind;
  si_authorization : rep_authorization;
  si_message : string
}.

Section Send.
Context `{RepEnv}.

(* src/src/representative-core.ts 263-263 SEND_FIELDS *)
Definition SEND_FIELDS : list string := ["request_id"; "kind"; "authorization"; "message"].

Definition invalid_input (message : string) : js_error := representative_error "INVALID_INPUT" message [].

Definition kind_of (v : option json) : option rep_kind :=
  match v with
  | Some (JStr s) =>
      if String.eqb s "request" then Some KRequest
      else if String.eqb s "question" then Some KQuestion
      else if String.eqb s "decision" then Some KDecision else None
  | _ => None
  end.

Definition authorization_of (v : option json) : option rep_authorization :=
  match v with
  | Some (JStr s) =>
      if String.eqb s "user_authorized" then Some UserAuthorized
      else if String.eqb s "model_advice" then Some ModelAdvice else None
  | _ => None
  end.

(** [request_id] given as [undefined], [null] or a UUID string. *)
Definition request_id_ok (v : option json) : bool :=
  match v with
  | None | Some JNull => true
  | Some (JStr s) => isRepresentativeUuid (Some (JStr s))
  | _ => false
  end.

(* src/src/representative-core.ts 265-306 validateSendInput *)
Definition validateSendInput (raw : json) : js_error + send_input :=
  if negb (is_object raw) then inl (invalid_input "Arguments must be an object.")
  else
    match unknown_fields SEND_FIELDS raw with
    | (_ :: _) as unknown => inl (invalid_input
        ("Unsupported field(s): " +:+ join ", " unknown +:+
         ". The recipient is fixed to the bound Coordinator; this connection cannot address workers, broadcast, or classify messages."))
    | [] =>
        match kind_of (jget "kind" raw) with
        | None => inl (invalid_input
            ("kind must be " +:+ json_quote "request" +:+ ", " +:+ json_quote "question" +:+ " or " +:+ json_quote "decision" +:+ "."))
        | Some kind =>
            match authorization_of (jget "authorization" raw) with
            | None => inl (invalid_input
                ("authorization must be " +:+ json_quote "user_authorized" +:+ " or " +:+ json_quote "model_advice" +:+ "."))
            | Some auth =>
                match jget "message" raw with
                | Some (JStr message) =>
                    if String.eqb (trim message) "" then inl (invalid_input "message must be a non-empty string.")
                    else if (REPRESENTATIVE_MESSAGE_LIMIT_BYTES <? String.length message)%nat then
                      inl (invalid_input ("message exceeds " +:+ pretty REPRESENTATIVE_MESSAGE_LIMIT_BYTES +:+ " bytes."))
                    else if negb (request_id_ok (jget "request_id" raw)) then
                      inl (invalid_input "request_id must be a UUID previously returned by this tool, or omitted.")
                    else
                      match kind, auth with
                      | KDecision, ModelAdvice => inl (representative_error "DECISION_REQUIRES_USER_AUTHORIZATION"
                          "A decision can only be relayed when the human explicitly authorized it. Send model suggestions as a question or request marked model_advice." [])
                      | _, _ => inr (SendInput (to_lower <$> jstr (jget "request_id" raw)) kind auth message)
                      end
                | _ => inl (invalid_input "message must be a non-empty string.")
                end
            end
        end
    end.

(* src/src/representative-core.ts 308-314 AUTHORIZATION_LINES *)
Definition AUTHORIZATION_LINES (a : rep_authorization) : string :=
  match a with
  | UserAuthorized =>
      "authorization: user-authorized — the representative asserts the human explicitly authorized the text below. This is not verified by Borg and authorizes nothing beyond that text."
  | ModelAdvice =>
      "authorization: model-advice — the representative model's own suggestion. NOT a human decision or approval."
  end.

(* src/src/representative-core.ts 316-330 formatRepresentativeMessage *)
Definition formatRepresentativeMessage (b : binding) (requestId : string) (input : send_input) : string :=
  join newline
    ["[HUMAN-REPRESENTATIVE · automated relay via " +:+ representativeLabel b +:+ " · not typed by the human]";
     "request_id: " +:+ requestId;
     "kind: " +:+ kind_name (si_kind input);
     AUTHORIZATION_LINES (si_authorization input);
     "reply: direct to " +:+ representativeLabel b +:+ ", quoting the request_id.";
     "---";
     si_message input].

(* src/src/representative-core.ts 332-336 payloadDigest *)
Definition payloadDigest (b : binding) (input : send_input) : string :=
  sha256_hex (join nul
    [cubeId b; coordinatorDroneId b; kind_name (si_kind input);
     authorization_name (si_authorization input); si_message input]).

(** ** Failed appends *)

Record append_failure := AppendFailure {
  af_definite : bool;
  af_code : string;
  af_message : string;
  af_recovery : string
}.

(** [typeof code === 'string' && /^[A-Z0-9_]{1,64}$/.test(code)] *)
Definition is_error_code (code : option string) : option string :=
  match code with
  | Some c =>
      if (0 <? String.length c)%nat && (String.length c <=? 64)%nat &&
         string_forallb (fun x => is_upper x || is_digit x || Ascii.eqb x "_"%char) c
      then Some c else None
  | None => None
  end.

Definition code_of (e : js_error) : option string :=
  match e with Errno c => Some c | ErrorOf _ c _ _ _ => c | JsError _ => None end.

Definition has_code_in (codes : list string) (e : js_error) : bool :=
  existsb (fun c => has_code c e) codes.

(* src/src/representative-core.ts 355-423 classifyAppendFailure *)
Definition classifyAppendFailure (e : js_error) (b : binding) : append_failure :=
  let message := boundedMessage e in
  let prepareRecovery := "The operator must restore this connection: run `" +:+ representativeRecoveryCommand b +:+
    "`, then restart the MCP process." in
  if instance_of "BorgServerError" e && has_code_in ["SESSION_REJECTED"; "SESSION_REVOKED"; "CREDENTIAL_REJECTED"] e then
    AppendFailure true (default "" (code_of e)) message prepareRecovery
  else if instance_of "DroneEvictedError" e then AppendFailure true "DRONE_EVICTED" message prepareRecovery
  else if instance_of "CubeDeletedError" e then AppendFailure true "CUBE_DELETED" message prepareRecovery
  else if instance_of "BorgServerHttpError" e then
    let status := default 0 (status_of e) in
    let code := default ("HTTP_" +:+ pretty status) (is_error_code (code_of e)) in
    if (400 <=? status) && (status <? 500) then
      AppendFailure true code message
        (if status =? 429 then
           "The server is rate limiting this drone. Wait, then retry with the same request_id and identical content."
         else if status =? 409 then
           "The server already holds a DIFFERENT message under this request_id. Do not resend; ask the operator to inspect the cube log."
         else if (status =? 401) || (status =? 403) then "The server denied this drone. " +:+ prepareRecovery
         else "The server refused this content. Correct it and send it as a new request, or ask the operator.")
    else AppendFailure false code message
      "The server reported an internal error and may or may not have stored the message. Check the server, then retry."
  else if instance_of "BorgServerUnreachableError" e then
    AppendFailure false "SERVER_UNREACHABLE" message
      "The server did not answer in time; the request may still have arrived. Check that the Borg server is running, then retry."
  else if instance_of "BorgProtocolMismatchError" e || instance_of "ProtocolContractError" e then
    AppendFailure false
      (if instance_of "BorgProtocolMismatchError" e then "PROTOCOL_MISMATCH" else "PROTOCOL_CONTRACT") message
      "The server's response could not be read, which can happen AFTER it stored the message. The operator should check that client and server versions match (`borg update`), then retry."
  else if instance_of "BorgServerTrustError" e then
    AppendFailure false "SERVER_TRUST" message
      "The server's pinned TLS identity could not be confirmed. The operator must verify the server before any retry."
  else AppendFailure false "UNKNOWN" message
      "An unrecognised failure interrupted the send. Check `borg representative status`, then retry.".

(** ** The ledger transactions *)

Inductive reservation :=
| AlreadySent (entryId : option string)
| Reserved (prior : option request_state).

Definition find_request (id : string) (records : list request) : option request :=
  List.find (fun r => String.eqb (q_requestId r) id) records.

(** Assignment to the members of the first record with this id. *)
Fixpoint update_request (id : string) (f : request -> request) (records : list request) : list request :=
  match records with
  | [] => []
  | r :: rest => if String.eqb (q_requestId r) id then f r :: rest else r :: update_request id f rest
  end.

(** [records.splice(index, 1)] at the first record with this id. *)
Fixpoint remove_request (id : string) (records : list request) : list request :=
  match records with
  | [] => []
  | r :: rest => if String.eqb (q_requestId r) id then rest else r :: remove_request id rest
  end.

Definition with_state (st : request_state) (stored : option bool) (updated : string) (r : request) : request :=
  Request (q_requestId r) (q_payloadDigest r) (q_kind r) (q_authorization r) st (q_entryId r) stored
    (q_createdAt r) updated.

Definition is_unresolved (r : request) : bool :=
  match q_state r with Pending | Ambiguous => true | _ => false end.

(** A record in this state with this content under another id. *)
Definition blocking (digest candidateId : string) (r : request) : bool :=
  String.eqb (q_payloadDigest r) digest && is_unresolved r && negb (String.eqb (q_requestId r) candidateId).

(* src/src/representative-core.ts 457-496 reservation *)
Definition reserve (input : send_input) (candidateId digest : string)
    (now : Z) (records : list request) : (js_error + reservation) * list request :=
  let record := (id ← si_request_id input; find_request id records) in
  match record with
  | Some r =>
      if negb (String.eqb (q_payloadDigest r) digest) then
        (inl (representative_error "REQUEST_ID_CONFLICT"
          "This request_id was already used for different content. Use a new request for new content." []), records)
      else
        match q_state r with
        | Sent => (inr (AlreadySent (q_entryId r)), records)
        | prior =>
            match (match prior with Rejected => List.find (blocking digest candidateId) records | _ => None end) with
            | Some u => (inl (representative_error "AMBIGUOUS_SEND_UNRESOLVED"
                ("Identical content already has an in-flight or unresolved send under request_id " +:+ q_requestId u +:+
                 ". Wait for that call, then retry with that request_id instead of creating a new one.") []), records)
            | None =>
                let stored := match prior with Pending | Ambiguous => Some true | _ => q_maybeStored r end in
                (inr (Reserved (Some prior)),
                 update_request (q_requestId r) (with_state Pending stored (to_iso now)) records)
            end
        end
  | None =>
      match List.find (blocking digest candidateId) records with
      | Some u => (inl (representative_error "AMBIGUOUS_SEND_UNRESOLVED"
          ("Identical content already has an in-flight or unresolved send under request_id " +:+ q_requestId u +:+
           ". Wait for that call, then retry with that request_id instead of creating a new one.") []), records)
      | None =>
          (inr (Reserved None),
           records ++ [Request candidateId digest (kind_name (si_kind input)) (authorization_name (si_authorization input))
                         Pending None None (to_iso now) (to_iso now)])
      end
  end.

(** What a settlement makes of the record. *)
Definition settled (st : request_state) (entryId : option string) (now : Z) (r : request) : request :=
  let stored := match st with Ambiguous => Some true | _ => q_maybeStored r end in
  let st' := match st with
             | Rejected => if bool_decide (stored = Some true) then Ambiguous else Rejected
             | _ => st
             end in
  let r' := with_state st' stored (to_iso now) r in
  match st with
  | Sent => Request (q_requestId r) (q_payloadDigest r) (q_kind r) (q_authorization r) Sent entryId None
              (q_createdAt r) (to_iso now)
  | _ => r'
  end.

(* src/src/representative-core.ts 505-527 settle *)
Definition settle (requestId digest : string) (input : send_input) (st : request_state) (entryId : option string)
    (now : Z) (records : list request) : (js_error + request_state) * list request :=
  let records :=
    match find_request requestId records with
    | Some _ => records
    | None => records ++ [Request requestId digest (kind_name (si_kind input))
                (authorization_name (si_authorization input)) st None None (to_iso now) (to_iso now)]
    end in
  match find_request requestId records with
  | None => (inr st, records)
  | Some r =>
      match q_state r with
      | Sent => (inr Sent, records)
      | _ => (inr (q_state (settled st entryId now r)),
              update_request requestId (settled st entryId now) records)
      end
  end.

(* src/src/representative-core.ts 529-551 release *)
Definition release (requestId : string) (prior : option request_state)
    (_ : Z) (records : list request) : (js_error + unit) * list request :=
  match find_request requestId records with
  | Some r =>
      if negb (bool_decide (q_state r = Pending)) then (inr tt, records)
      else if bool_decide (q_maybeStored r = Some true) then
        (inr tt, if bool_decide (prior = Some Ambiguous)
                 then update_request requestId (fun r => with_state Ambiguous (q_maybeStored r) (q_updatedAt r) r) records
                 else records)
      else
        (inr tt, match prior with
                 | None => remove_request requestId records
                 | Some st => update_request requestId (fun r => with_state st (q_maybeStored r) (q_updatedAt r) r) records
                 end)
  | None => (inr tt, records)
  end.

(** ** The call *)

Inductive send_outcome := OutcomeSent | OutcomeAmbiguous.

(* src/src/representative-core.ts 248-261 RepresentativeSendResult *)
Record send_result := SendResult {
  sr_outcome : send_outcome;
  sr_request_id : string;
  sr_entry_id : option string;
  sr_deduplicated : option bool;
  sr_duplicate : option bool;
  sr_coordinator : string * string;
  sr_warning : option string;
  sr_cause : option (string * string);
  sr_guidance : option string
}.

(* src/src/representative-core.ts 350-353 SAME_ID_RETRY *)
Definition SAME_ID_RETRY : string :=
  "Nothing was re-sent automatically. Retry ONLY by calling borg_representative_send again with the same request_id and identical content: the server deduplicates on that id (protocol post_id), so that retry cannot create a second message. Never re-send this content under a different request_id while it is unresolved.".

(** The warnings about the server's routing echo. *)
Definition append_warnings (b : binding) (r : append_result) : list string :=
  let recipients := default [] (e_recipient_drone_ids (ar_entry r)) in
  (if negb (String.eqb (e_visibility (ar_entry r)) "direct") || negb (bool_decide (recipients = [coordinatorDroneId b]))
   then ["The server's routing echo does not show exactly the bound Coordinator as the direct recipient."] else []) ++
  (if existsb (fun x => String.eqb (fst x) (coordinatorDroneId b)) (default [] (ar_unreachableRecipients r))
   then ["The server reports the Coordinator as currently unreachable; it will see the entry when it next reads its log."] else []).

Definition rejected_error (requestId : string) (failure : append_failure) (recorded : option request_state) : js_error :=
  representative_error "SEND_REJECTED"
    ("The Borg server refused this attempt (" +:+ af_code failure +:+ "); it was not stored by this attempt. " +:+
     af_recovery failure +:+
     (if bool_decide (recorded = Some Ambiguous)
      then " An EARLIER attempt under this request_id is still unresolved, so the request stays listed as unresolved."
      else ""))
    [("request_id", inl requestId); ("cause_code", inl (af_code failure));
     ("cause_message", inl (af_message failure)); ("recovery", inl (af_recovery failure))].

(** After the reservation: verify, post once, settle. *)
Definition post_and_settle (b : binding) (input : send_input) (requestId message digest : string)
    (prior : option request_state) : rep send_result :=
  let coordinatorRef := (coordinatorDroneId b, coordinatorLabel b) in
  let settle_as st entryId := transact (transactRequests b (settle requestId digest input st entryId) true) in
  let! verified := attempt (verifyLiveBinding b) in
  match verified with
  | inl e =>
      do! transact (transactRequests b (release requestId prior) true);
      Throw e
  | inr _ =>
      let! answer := attempt (perform (Append requestId message [coordinatorDroneId b])) in
      match answer with
      | inl e =>
          let failure := classifyAppendFailure e b in
          if af_definite failure then
            let! recorded := settle_as Rejected None in
            Throw (rejected_error requestId failure recorded)
          else
            do! settle_as Ambiguous None;
            Ret (SendResult OutcomeAmbiguous requestId None None None coordinatorRef None
              (Some (af_code failure, af_message failure))
              (Some ("The outcome is unknown (" +:+ af_code failure +:+ "). " +:+ af_recovery failure +:+ " " +:+ SAME_ID_RETRY)))
      | inr result =>
          do! settle_as Sent (Some (e_id (ar_entry result)));
          let warnings := append_warnings b result in
          Ret (SendResult OutcomeSent requestId (Some (e_id (ar_entry result))) (Some (ar_deduplicated result)) (Some false)
            coordinatorRef (match warnings with [] => None | _ => Some (join " " warnings) end) None None)
      end
  end.

(* src/src/representative-core.ts 432-597 sendOnce *)
Definition sendOnce (b : binding) (raw : json) : rep send_result :=
  let! input := of_sum (validateSendInput raw) in
  let digest := payloadDigest b input in
  let! candidateId := match si_request_id input with Some id => Ret id | None => ask RandomUUID end in
  let message := formatRepresentativeMessage b candidateId input in
  match decodeAppendLogRequest candidateId message [coordinatorDroneId b] with
  | Some e => Throw (invalid_input ("The message cannot be sent as written: " +:+ boundedMessage e))
  | None =>
      do! ensureRepresentativeState b;
      let! reserved := transact (transactRequests b (reserve input candidateId digest) false) in
      match reserved with
      | Some (Reserved prior) => post_and_settle b input candidateId message digest prior
      | Some (AlreadySent entryId) =>
          Ret (SendResult OutcomeSent candidateId entryId (Some true) (Some true)
            (coordinatorDroneId b, coordinatorLabel b) None None None)
      | None => Throw (JsError "Cannot read properties of undefined (reading 'kind')")
      end
  end.

(* src/src/representative-core.ts 425-430 sendRepresentativeMessage *)
Definition sendRepresentativeMessage (b : binding) (raw : json) : rep (send_result * string) :=
  let! r := sendOnce b raw in Ret (r, bindingFingerprint b).
End Send.
