(* ===== verification/RepRead.v ===== *)
(** * Reading, delivering and acknowledging replies ([src/representative-core.ts]) *)

From stdpp Require Import pretty.
From S2P Require Import Prelude JsDate JsonText Effects RepDb RepCore RepSend.

Open Scope Z_scope.
Open Scope tx_scope.
Open Scope prog_scope.

(* src/src/representative-core.ts 37-41 REPRESENTATIVE_DELIVERY_NOTE *)
Definition REPRESENTATIVE_DELIVERY_NOTE : string :=
  "read returns undelivered replies without consuming them; persist, route by in_reply_to (unknown: hold for the human), then deliver through the last persisted entry_id. ack only notifies the Coordinator. A separate borg representative listen process emits body-free wake hints. Any number of host processes may use these tools at once; status is read-only. Stop routing if binding_fingerprint changes.".

(* src/src/representative-core.ts 599-614 RepresentativeReply *)
Record reply := Reply {
  rp_entry_id : string;
  rp_created_at : string;
  rp_from_drone_id : string;
  rp_from_label : string;
  rp_addressed : string;
  rp_in_reply_to : option string;
  rp_message : string;
  rp_documents : option (list json);
  rp_document_delivery : option string;
  rp_oversize : bool;
  rp_documents_reduced : bool
}.

(** The members in the order the code writes them. *)
Definition reply_json (r : reply) : json :=
  JObj ([("entry_id", JStr (rp_entry_id r)); ("created_at", JStr (rp_created_at r));
         ("from_drone_id", JStr (rp_from_drone_id r)); ("from_label", JStr (rp_from_label r));
         ("addressed", JStr (rp_addressed r));
         ("in_reply_to", match rp_in_reply_to r with Some id => JStr id | None => JNull end);
         ("message", JStr (rp_message r))] ++
        optional_field "documents" (JArr <$> rp_documents r) ++
        optional_field "document_delivery" (JStr <$> rp_document_delivery r) ++
        (if rp_oversize r then [("oversize", JBool true)] else []) ++
        (if rp_documents_reduced r then [("documents_reduced", JBool true)] else [])).

(** ** UUIDs quoted in a message: [message.match(UUID_SCAN_RE)] *)

Fixpoint shape_prefix (shape : list (ascii -> bool)) (s : string) : bool :=
  match shape, s with
  | [], _ => true
  | p :: shape', String c s' => p c && shape_prefix shape' s'
  | _, EmptyString => false
  end.

(** [skip] characters belong to the previous match. *)
Fixpoint uuid_scan (skip : nat) (s : string) : list string :=
  match s with
  | EmptyString => []
  | String _ s' =>
      match skip with
      | S n => uuid_scan n s'
      | O => if shape_prefix uuid_shape s then string_take 36 s :: uuid_scan 35 s' else uuid_scan 0 s'
      end
  end.

(* src/src/representative-core.ts 34-34 UUID_SCAN_RE *)
Definition match_uuids (s : string) : list string := uuid_scan 0 s.

Section Read.
Context `{RepEnv}.

Record candidate := Candidate { ca_reply : reply; ca_point : point; ca_ignoredBefore : Z }.

Definition document_note : string :=
  "Document bodies are not included and cannot be fetched through this connection. Ask the Coordinator to provide the content through a supported channel.".

Definition make_reply (b : binding) (requestIds : list string) (e : log_entry) (addressed : string) : reply :=
  let quoted := map to_lower (match_uuids (e_message e)) in
  let docs := match e_documents e with Some (d :: l) => Some (d :: l) | _ => None end in
  Reply (e_id e) (e_created_at e) (coordinatorDroneId b) (coordinatorLabel b) addressed
    (List.find (fun id => bool_decide (id ∈ requestIds)) quoted) (e_message e)
    docs (match docs with Some _ => Some document_note | None => None end) false false.

(** The state of the scan: the position reached, the entries passed over and
    the candidates so far. *)
Record scan_state := ScanState { sc_last : point; sc_ignored : Z; sc_candidates : list candidate }.

Inductive scan_step := More (s : scan_state) | Break (s : scan_state).

Definition taken (addressed : option string) (include_broadcast : bool) : option string :=
  match addressed with
  | None => None
  | Some a => if String.eqb a "broadcast" && negb include_broadcast then None else Some a
  end.

Definition scan_entry (b : binding) (requestIds : list string) (include_broadcast : bool) (limit : nat)
    (s : scan_state) (e : log_entry) : scan_step :=
  let p := entry_point e in
  if comparePoints p (Some (sc_last s)) <=? 0 then More s
  else
    match taken (isAddressedCoordinatorEntry b e) include_broadcast with
    | None => More (ScanState p (sc_ignored s + 1) (sc_candidates s))
    | Some addressed =>
        let s' := ScanState p (sc_ignored s)
          (sc_candidates s ++ [Candidate (make_reply b requestIds e addressed) p (sc_ignored s)]) in
        if (limit <? length (sc_candidates s'))%nat then Break s' else More s'
    end.

Fixpoint scan_entries (b : binding) (requestIds : list string) (include_broadcast : bool) (limit : nat)
    (s : scan_state) (entries : list log_entry) : scan_step :=
  match entries with
  | [] => More s
  | e :: rest =>
      match scan_entry b requestIds include_broadcast limit s e with
      | More s' => scan_entries b requestIds include_broadcast limit s' rest
      | Break s' => Break s'
      end
  end.

(** One page per unit of fuel; [None] when the fuel is used up. *)
(* src/src/representative-core.ts 716-753 scan *)
Fixpoint scan_pages (fuel : nat) (b : binding) (requestIds : list string) (include_broadcast : bool) (limit : nat)
    (cursor : option point) (s : scan_state) : rep (option scan_state) :=
  match fuel with
  | O => Ret None
  | S n =>
      let! pg := perform (ReadAfter cursor READ_SCAN_PAGE) in
      match scan_entries b requestIds include_broadcast limit s (pg_entries pg) with
      | Break s' => Ret (Some s')
      | More s' =>
          match page_tail pg with
          | Some tail => if has_more pg then scan_pages n b requestIds include_broadcast limit (Some tail) s' else Ret (Some s')
          | None => Ret (Some s')
          end
      end
  end.

(* src/src/representative-core.ts 677-678 checkpointView *)
Definition checkpointView (p : option point) : option string * option string :=
  (p_id <$> p, p_created_at <$> p).

Record read_result := ReadResult {
  rr_replies : list reply;
  rr_checkpoint : option string * option string;
  rr_has_more : bool;
  rr_ignored_entries : Z;
  rr_binding_fingerprint : string
}.

Definition nullable (v : option string) : json := match v with Some s => JStr s | None => JNull end.

Definition read_result_json (r : read_result) : json :=
  JObj [("replies", JArr (map reply_json (rr_replies r)));
        ("checkpoint", JObj [("entry_id", nullable (fst (rr_checkpoint r)));
                             ("created_at", nullable (snd (rr_checkpoint r)))]);
        ("has_more", JBool (rr_has_more r));
        ("ignored_entries", JNum (rr_ignored_entries r));
        ("binding_fingerprint", JStr (rr_binding_fingerprint r));
        ("delivery", JStr REPRESENTATIVE_DELIVERY_NOTE)].

(* src/src/representative-core.ts 624-627 serializeRepresentativeResult *)
Definition serializeRepresentativeResult (v : json) : string := json_indented "" v.

(** [Buffer.byteLength(serializeRepresentativeResult(r))] *)
Definition measured (r : read_result) : Z := Z.of_nat (String.length (serializeRepresentativeResult (read_result_json r))).

Definition mark_oversize (r : reply) : reply :=
  Reply (rp_entry_id r) (rp_created_at r) (rp_from_drone_id r) (rp_from_label r) (rp_addressed r)
    (rp_in_reply_to r) (rp_message r) (rp_documents r) (rp_document_delivery r) true (rp_documents_reduced r).

(* src/src/representative-core.ts 755-767 result *)
Definition result_of (b : binding) (st : delivery_state) (s : scan_state) (count : nat) (oversize : bool) : read_result :=
  let replies := map ca_reply (take count (sc_candidates s)) in
  ReadResult
    (match replies with r :: rest => (if oversize then mark_oversize r else r) :: rest | [] => [] end)
    (checkpointView (ds_checkpoint st))
    (count <? length (sc_candidates s))%nat
    (match sc_candidates s !! count with Some c => ca_ignoredBefore c | None => sc_ignored s end)
    (bindingFingerprint b).

(** [while (count < Math.min(limit, candidates.length) && ...) count += 1;] [n] is
    what is left of the bound. *)
Fixpoint fit_count (measure : nat -> Z) (maxBytes : Z) (n count : nat) : nat :=
  match n with
  | O => count
  | S n' => if measure (S count) <=? maxBytes then fit_count measure maxBytes n' (S count) else count
  end.

(** [documents.map(({ id }) => ({ id }))] *)
Definition reduce_document (d : json) : json := JObj (optional_field "id" (jget "id" d)).

Definition reduce_documents (r : reply) : reply :=
  Reply (rp_entry_id r) (rp_created_at r) (rp_from_drone_id r) (rp_from_label r) (rp_addressed r)
    (rp_in_reply_to r) (rp_message r) (map reduce_document <$> rp_documents r) (rp_document_delivery r)
    (rp_oversize r) true.

Definition has_documents (r : read_result) : bool :=
  match rr_replies r with
  | x :: _ => match rp_documents x with Some (_ :: _) => true | _ => false end
  | [] => false
  end.

Definition reduce_result (r : read_result) : read_result :=
  ReadResult (match rr_replies r with x :: _ => [reduce_documents x] | [] => [] end)
    (rr_checkpoint r) (rr_has_more r) (rr_ignored_entries r) (rr_binding_fingerprint r).

(** What the scan's candidates become: whole replies up to [maxBytes], or one
    that is larger alone. *)
(* src/src/representative-core.ts 768-789 final *)
Definition fit_result (b : binding) (st : delivery_state) (limit : nat) (maxBytes : Z) (s : scan_state)
    : js_error + read_result :=
  let n := Nat.min limit (length (sc_candidates s)) in
  let count := fit_count (fun c => measured (result_of b st s c false)) maxBytes n 0 in
  let oversize := (count =? 0)%nat && (0 <? length (sc_candidates s))%nat in
  let final := result_of b st s (if oversize then 1 else count)%nat oversize in
  let bound := Z.max maxBytes REPRESENTATIVE_ENVELOPE_FLOOR in
  let final := if oversize && has_documents final && (bound <? measured final) then reduce_result final else final in
  if oversize && (bound <? measured final) then
    inl (representative_error "REPRESENTATIVE_READ_OVERSIZE"
      ("The next reply does not fit " +:+ pretty bound +:+
       " bytes even alone with its citations reduced to ids. Nothing was read or advanced. Raise max_bytes (up to 60000); beyond that the operator must reduce the server post limit.")
      [("entry_id", inl (default "" (rp_entry_id <$> head (rr_replies final))));
       ("measured_bytes", inr (measured final)); ("bound", inr bound)])
  else inr final.

(* src/src/representative-core.ts 694-701 bounded *)
Definition bounded (input : json) (name : string) (min max fallback : Z) : js_error + Z :=
  let err := invalid_input (name +:+ " must be an integer from " +:+ pretty min +:+ " to " +:+ pretty max +:+ ".") in
  match jget name input with
  | None => inr fallback
  | Some (JNum v) => if (v <? min) || (max <? v) then inl err else inr v
  | Some _ => inl err
  end.

Record read_options := ReadOptions { ro_include_broadcast : bool; ro_limit : nat; ro_max_bytes : Z }.

(* src/src/representative-core.ts 687-703 input *)
Definition read_input (raw : json) : js_error + read_options :=
  match unknown_fields ["include_broadcast"; "limit"; "max_bytes"] raw with
  | (_ :: _) as unknown => inl (invalid_input ("Unsupported field(s): " +:+ join ", " unknown +:+ "."))
  | [] =>
      match jget "include_broadcast" raw with
      | None | Some (JBool _) =>
          match bounded raw "limit" 1 50 10, bounded raw "max_bytes" 4096 60000 32768 with
          | inr limit, inr maxBytes => inr (ReadOptions
              (match jget "include_broadcast" raw with Some (JBool ib) => ib | _ => false end) (Z.to_nat limit) maxBytes)
          | inl e, _ => inl e
          | _, inl e => inl e
          end
      | _ => inl (invalid_input "include_broadcast must be a boolean.")
      end
  end.

(* src/src/representative-core.ts 707-714 snapshot *)
Definition read_snapshot (b : binding) : tx (delivery_state * list string) :=
  let* generation := requireCurrentGeneration b in
  let* loaded := tx_read (loadDelivery generation) in
  match loaded with
  | None => tx_throw (JsError "Representative delivery state is missing for the current generation")
  | Some st =>
      let* ids := tx_read (fun db => map fst (default [] (t_requests db !! generation))) in
      tx_ret (st, ids)
  end.

(* src/src/representative-core.ts 791-797 widen *)
Definition read_widen (b : binding) (window : list point) : tx unit :=
  let* generation := requireCurrentGeneration b in
  widenReadWindow generation window.

(* src/src/representative-core.ts 680-799 readRepresentativeReplies *)
Definition readRepresentativeReplies (fuel : nat) (b : binding) (raw : json) : rep (option read_result) :=
  let! opts := of_sum (read_input raw) in
  do! verifyLiveBinding b;
  do! ensureRepresentativeState b;
  let! (st, requestIds) := transact (read_snapshot b) in
  let! (cursor, floor) := of_sum (scanStart st) in
  let! scanned := scan_pages fuel b requestIds (ro_include_broadcast opts) (ro_limit opts) cursor (ScanState floor 0 []) in
  match scanned with
  | None => Ret None
  | Some s =>
      let! final := of_sum (fit_result b st (ro_limit opts) (ro_max_bytes opts) s) in
      let window := map ca_point (take (length (rr_replies final)) (sc_candidates s)) in
      do! transact (read_widen b window);
      Ret (Some final)
  end.

(** ** Deliver *)

Record deliver_result := DeliverResult {
  dv_checkpoint : option string * option string;
  dv_advanced : bool;
  dv_binding_fingerprint : string
}.

Definition outside_window : js_error :=
  representative_error "REPRESENTATIVE_DELIVER_UNKNOWN_ENTRY"
    "That entry is not in the current read window: deliver only a reply that borg_representative_read returned. Nothing changed." [].

(* src/src/representative-core.ts 825-842 deliver *)
Definition deliver_tx (b : binding) (p : point) : tx deliver_result :=
  let* generation := requireCurrentGeneration b in
  let* loaded := tx_read (loadDelivery generation) in
  match loaded with
  | None => tx_throw (JsError "Representative delivery state is missing for the current generation")
  | Some st =>
      let fingerprint := bindingFingerprint b in
      if match ds_checkpoint st with Some c => comparePoints p (Some c) <=? 0 | None => false end then
        tx_ret (DeliverResult (checkpointView (ds_checkpoint st)) false fingerprint)
      else if negb (bool_decide (p ∈ ds_returned st)) ||
              match ds_readThrough st with None => true | Some r => 0 <? comparePoints p (Some r) end then
        tx_throw outside_window
      else
        let* (before, after_) := advanceCheckpoint generation p in
        tx_ret (DeliverResult (checkpointView (ds_checkpoint after_))
          (match ds_checkpoint after_ with Some c => 0 <? comparePoints c (ds_checkpoint before) | None => false end)
          fingerprint)
  end.

(* src/src/representative-core.ts 801-843 deliverRepresentativeReplies *)
Definition deliverRepresentativeReplies (b : binding) (raw : json) : rep deliver_result :=
  let invalid := Throw (invalid_input "through must be the full UUID of a reply returned by borg_representative_read.") in
  match unknown_fields ["through"] raw, jget "through" raw with
  | [], Some (JStr through) =>
      if negb (isRepresentativeUuid (Some (JStr through))) then invalid
      else
        do! verifyLiveBinding b;
        do! ensureRepresentativeState b;
        let! read := attempt (perform (ReadEntry through)) in
        match read with
        | inl e => Throw (if bool_decide (status_of e = Some 404) then outside_window else e)
        | inr entry =>
            if negb (String.eqb (e_id entry) through) || bool_decide (isAddressedCoordinatorEntry b entry = None)
            then Throw outside_window
            else transact (deliver_tx b (entry_point entry))
        end
  | _, _ => invalid
  end.

(* src/src/representative-core.ts 845-867 ackRepresentativeReply *)
Definition ackRepresentativeReply (b : binding) (raw : json) : rep string :=
  let invalid := Throw (invalid_input "entry_id must be the full UUID of a reply returned by borg_representative_read.") in
  match unknown_fields ["entry_id"] raw, jget "entry_id" raw with
  | [], Some (JStr entryId) =>
      if negb (isRepresentativeUuid (Some (JStr entryId))) then invalid
      else
        do! verifyLiveBinding b;
        do! ensureRepresentativeState b;
        let! entry := perform (ReadEntry entryId) in
        if negb (String.eqb (e_id entry) entryId) ||
           negb (bool_decide (isAddressedCoordinatorEntry b entry = Some "direct"))
        then Throw (representative_error "NOT_A_COORDINATOR_REPLY"
          "Only a direct reply from the bound Coordinator to this representative can be acknowledged here." [])
        else
          do! perform (AckCall (e_id entry));
          Ret (e_id entry)
  | _, _ => invalid
  end.

(** ** Status *)

Record status_problem := StatusProblem { pb_code : string; pb_message : string }.

(** The members of the result that depend on the state; the rest are the
    binding's fields and fixed text. *)
Record rep_status := RepStatus {
  rs_connected : bool;
  rs_problem : option status_problem;
  rs_unresolved : list (string * string * string * string);
  rs_state_problem : option status_problem;
  rs_binding : binding;
  rs_fingerprint : string
}.

(* src/src/representative-core.ts 886-946 representativeStatus *)
Definition representativeStatus (b : binding) : rep rep_status :=
  let! verified := attempt (verifyLiveBinding b) in
  let problem := match verified with
    | inl e => Some (StatusProblem
        (if instance_of "RepresentativeError" e then default "" (code_of e) else "BACKEND_ERROR") (message_of e))
    | inr _ => None
    end in
  let! ledger := attempt (perform (ReadOnly (readRequests (worktree b)))) in
  let '(records, stateProblem) := match ledger with
    | inl e => ([], Some (StatusProblem (default "BACKEND_ERROR" (code_of e)) (message_of e)))
    | inr records => (default [] records, None)
    end in
  Ret (RepStatus (bool_decide (problem = None)) problem
    (map (fun r => (q_requestId r, state_name (q_state r), q_kind r, q_updatedAt r)) (List.filter is_unresolved records))
    stateProblem b (bindingFingerprint b)).
End Read.
