(* ===== verification/RepDeliveryFacts.v ===== *)
(** * The delivery invariant

    The log order is total; [loadDelivery] reads back what [write] stored; every
    transaction of the delivery store keeps the window well formed and never
    moves the checkpoint or the fence back. *)

From S2P Require Import Prelude JsDate JsonText Effects RepDb RepCore RepSend RepRead.

Open Scope Z_scope.

(** ** The log order *)

Lemma comparePoints_refl a : comparePoints a (Some a) = 0.
Proof. unfold comparePoints. by rewrite !String.eqb_refl. Qed.

Lemma comparePoints_cases a b :
  (comparePoints a (Some b) = -1 /\ comparePoints b (Some a) = 1) \/
  (a = b) \/
  (comparePoints a (Some b) = 1 /\ comparePoints b (Some a) = -1).
Proof.
  destruct a as [i t], b as [j u]. cbn.
  rewrite (String.eqb_sym u t), (String.eqb_sym j i).
  destruct (String.eqb t u) eqn:Et; cbn.
  - apply String.eqb_eq in Et as ->. destruct (String.eqb i j) eqn:Ei.
    + apply String.eqb_eq in Ei as ->. by right; left.
    + apply String.eqb_neq in Ei.
      destruct (string_ltb_total i j) as [H|[H|H]]; [|done|];
        rewrite H, (string_ltb_asym _ _ H); auto.
  - apply String.eqb_neq in Et.
    destruct (string_ltb_total t u) as [H|[H|H]]; [|done|];
      rewrite H, (string_ltb_asym _ _ H); auto.
Qed.

Ltac points :=
  unfold point_le, point_lt in *;
  repeat match goal with
  | |- context [comparePoints ?a (Some ?a)] => rewrite (comparePoints_refl a)
  | H : context [comparePoints ?a (Some ?a)] |- _ => rewrite (comparePoints_refl a) in H
  end.

Lemma point_lt_iff a b : point_lt a b <-> 0 < comparePoints b (Some a).
Proof. points. destruct (comparePoints_cases a b) as [[-> ->]|[->|[-> ->]]]; points; lia. Qed.

Lemma point_le_iff a b : point_le a b <-> 0 <= comparePoints b (Some a).
Proof. points. destruct (comparePoints_cases a b) as [[-> ->]|[->|[-> ->]]]; points; lia. Qed.

Lemma point_le_lteq a b : point_le a b <-> point_lt a b \/ a = b.
Proof.
  points. destruct (comparePoints_cases a b) as [[-> _]|[->|[E _]]]; points; try rewrite E.
  - split; [left|]; lia.
  - split; [by right|lia].
  - split; [lia|]. intros [H| ->]; [lia|]. rewrite comparePoints_refl in E. lia.
Qed.

Lemma point_lt_irrefl a : ~ point_lt a a.
Proof. points. lia. Qed.

Lemma point_lt_spec a b :
  point_lt a b <->
  string_ltb (p_created_at a) (p_created_at b) = true \/
  (p_created_at a = p_created_at b /\ string_ltb (p_id a) (p_id b) = true).
Proof.
  destruct a as [i t], b as [j u]. unfold point_lt. cbn.
  destruct (String.eqb t u) eqn:Et; cbn.
  - apply String.eqb_eq in Et as ->. rewrite string_ltb_irrefl.
    destruct (String.eqb i j) eqn:Ei.
    + apply String.eqb_eq in Ei as ->. rewrite string_ltb_irrefl. naive_solver lia.
    + destruct (string_ltb i j); naive_solver lia.
  - apply String.eqb_neq in Et. destruct (string_ltb t u); naive_solver lia.
Qed.

#[global] Arguments comparePoints : simpl never.

Lemma point_lt_trans a b c : point_lt a b -> point_lt b c -> point_lt a c.
Proof.
  rewrite !point_lt_spec. intros [H1|[E1 H1]] [H2|[E2 H2]].
  - left. by eapply string_ltb_trans.
  - left. by rewrite <-E2.
  - left. by rewrite E1.
  - right. split; [congruence|]. by eapply string_ltb_trans.
Qed.

#[export] Instance point_le_trans : Transitive point_le.
Proof.
  intros a b c. rewrite !point_le_lteq. intros [H1| ->] [H2| ->]; auto.
  left. by eapply point_lt_trans.
Qed.

#[export] Instance point_le_refl : Reflexive point_le.
Proof. intros a. rewrite point_le_lteq. by right. Qed.

#[export] Instance point_le_antisym : AntiSymm (=) point_le.
Proof.
  intros a b. rewrite !point_le_lteq. intros [H1| ->] [H2|]; auto.
  destruct (point_lt_irrefl a). by eapply point_lt_trans.
Qed.

#[export] Instance point_le_total : Total point_le.
Proof.
  intros a b. rewrite !point_le_lteq. points.
  destruct (comparePoints_cases a b) as [[-> ->]|[->|[-> ->]]]; auto with lia.
Qed.

Lemma point_le_lt_trans a b c : point_le a b -> point_lt b c -> point_lt a c.
Proof. rewrite point_le_lteq. intros [H| ->]; [by eapply point_lt_trans|done]. Qed.

Lemma point_lt_le_trans a b c : point_lt a b -> point_le b c -> point_lt a c.
Proof. rewrite point_le_lteq. intros H [H'| ->]; [by eapply point_lt_trans|done]. Qed.

Lemma point_not_lt a b : ~ point_lt a b <-> point_le b a.
Proof.
  rewrite point_le_iff. unfold point_lt. lia.
Qed.

(** [later] is the maximum, with [null] below everything. *)
Definition opt_le (a b : option point) : Prop :=
  match a, b with
  | None, _ => True
  | Some _, None => False
  | Some x, Some y => point_le x y
  end.

#[export] Instance opt_le_refl : Reflexive opt_le.
Proof. intros [x|]; simpl; [apply point_le_refl|done]. Qed.

#[export] Instance opt_le_trans : Transitive opt_le.
Proof. intros [x|] [y|] [z|]; simpl; try done. apply point_le_trans. Qed.

Lemma later_spec a b :
  opt_le a (later a b) /\ opt_le b (later a b) /\ (later a b = a \/ later a b = b).
Proof.
  destruct a as [x|], b as [y|]; simpl; try (repeat split; auto using point_le_refl; fail).
  destruct (0 <=? comparePoints x (Some y)) eqn:E; bool_to_prop; simpl.
  - split; [apply point_le_refl|split; [|by left]]. by apply point_le_iff.
  - split; [|split; [apply point_le_refl|by right]]. unfold point_le. lia.
Qed.

Lemma later_bounded a b c : opt_le a c -> opt_le b c -> opt_le (later a b) c.
Proof. intros. by destruct (later_spec a b) as (_ & _ & [-> | ->]). Qed.

(** Above a checkpoint that may be [null]. *)
Definition above (cp : option point) (p : point) : Prop :=
  match cp with None => True | Some c => point_lt c p end.

Lemma above_iff cp p : above cp p <-> 0 < comparePoints p cp.
Proof. destruct cp as [c|]; simpl; [apply point_lt_iff|].
  change (comparePoints p None) with 1. split; [lia|done].
Qed.

Lemma elem_after_checkpoint cp l p : p ∈ after_checkpoint cp l <-> p ∈ l /\ above cp p.
Proof.
  unfold after_checkpoint. rewrite list_elem_of_In, filter_In, <-list_elem_of_In, above_iff, Z.ltb_lt. done.
Qed.

(** ** Lists of entries *)

Lemma sort_points_sorted l : StronglySorted point_le (sort_points l).
Proof. apply (StronglySorted_merge_sort point_le). Qed.

Lemma sort_points_perm l : sort_points l ≡ₚ l.
Proof. apply merge_sort_Permutation. Qed.

Lemma sort_points_unique l1 l2 : l1 ≡ₚ l2 -> StronglySorted point_le l2 -> sort_points l1 = l2.
Proof.
  intros Hp Hs. apply (StronglySorted_unique point_le); [apply sort_points_sorted|done|].
  by rewrite sort_points_perm.
Qed.

Lemma dedup_ids_spec seen l :
  NoDup (map p_id (dedup_ids seen l)) /\
  (forall p, p ∈ dedup_ids seen l -> p ∈ l /\ p_id p ∉ seen) /\
  (forall p, p ∈ l -> p_id p ∉ seen -> exists q, q ∈ dedup_ids seen l /\ p_id q = p_id p).
Proof.
  revert seen. induction l as [|x l IH]; intros seen; simpl.
  - split; [constructor|]. split; [by intros p ?%elem_of_nil|by intros p ?%elem_of_nil].
  - destruct (bool_decide (p_id x ∈ seen)) eqn:E; bool_to_prop.
    + destruct (IH seen) as (H1 & H2 & H3). split; [done|split].
      * intros p [Hp Hs]%H2. split; [by right|done].
      * intros p [->|Hp]%elem_of_cons Hs; [done|]. by apply H3.
    + destruct (IH (p_id x :: seen)) as (H1 & H2 & H3). cbn [map]. split; [|split].
      * constructor; [|done]. intros (q & Hid & Hq)%list_elem_of_fmap.
        apply H2 in Hq as [_ Hq]. apply Hq. rewrite <-Hid. left.
      * intros p [->|Hp]%elem_of_cons; [split; [left|done]|].
        apply H2 in Hp as [Hp Hs]. split; [by right|]. intros Hi. apply Hs. by right.
      * intros p [->|Hp]%elem_of_cons Hs.
        { exists x. split; [left|done]. }
        destruct (decide (p_id p = p_id x)) as [Heq|Hne].
        { exists x. split; [left|done]. }
        destruct (H3 p Hp) as (q & Hq & Hid); [by rewrite elem_of_cons; intros [?|?]|].
        exists q. split; [by right|done].
Qed.

Lemma map_id_filter (f : point -> bool) l : NoDup (map p_id l) -> NoDup (map p_id (List.filter f l)).
Proof.
  induction l as [|x l IH]; simpl; [done|]. intros [Hx Hl]%NoDup_cons.
  destruct (f x); simpl; [|auto]. constructor; [|auto].
  intros (q & Hid & Hq)%list_elem_of_fmap. apply Hx. rewrite Hid. apply list_elem_of_fmap_2.
  rewrite list_elem_of_In, filter_In, <-list_elem_of_In in Hq. tauto.
Qed.

Lemma map_id_drop n (l : list point) : NoDup (map p_id l) -> NoDup (map p_id (drop n l)).
Proof.
  intros H. rewrite <-(take_drop n l), map_app in H. by apply NoDup_app in H as (_ & _ & H).
Qed.

Lemma map_id_sort l : NoDup (map p_id l) -> NoDup (map p_id (sort_points l)).
Proof. intros H. by rewrite (Permutation_map p_id (sort_points_perm l)). Qed.

Lemma StronglySorted_drop {A} (R : relation A) n l : StronglySorted R l -> StronglySorted R (drop n l).
Proof.
  revert l. induction n as [|n IH]; intros [|x l] H; simpl; [done..|]. apply IH. by inversion H.
Qed.

Lemma StronglySorted_filter {A} (R : relation A) f l :
  StronglySorted R l -> StronglySorted R (List.filter f l).
Proof.
  induction 1 as [|x l Hs IH Hf]; simpl; [constructor|]. destruct (f x); [|exact IH].
  constructor; [exact IH|]. rewrite Forall_forall in *. intros y Hy.
  rewrite list_elem_of_In, filter_In, <-list_elem_of_In in Hy. apply Hf, Hy.
Qed.

Lemma elem_of_slice_last {A} n (l : list A) x : x ∈ slice_last n l -> x ∈ l.
Proof.
  unfold slice_last. intros H. rewrite <-(take_drop (length l - n) l). apply elem_of_app. by right.
Qed.

Lemma slice_last_length {A} n (l : list A) : (length (slice_last n l) <= n)%nat.
Proof. unfold slice_last. rewrite length_drop. lia. Qed.

(** ** The invariant *)

(** A well-formed window: the checkpoint is behind the fence; the returned
    entries are in log order, distinct, after the checkpoint and not beyond the
    fence; at most [RETURNED_CAP] of them. *)
Record delivery_ok (st : delivery_state) : Prop := {
  dok_fence : opt_le (ds_checkpoint st) (ds_readThrough st);
  dok_sorted : StronglySorted point_le (ds_returned st);
  dok_ids : NoDup (map p_id (ds_returned st));
  dok_above : forall p, p ∈ ds_returned st -> above (ds_checkpoint st) p;
  dok_below : forall p, p ∈ ds_returned st -> opt_le (Some p) (ds_readThrough st);
  dok_cap : (length (ds_returned st) <= RETURNED_CAP)%nat
}.

(** [st'] is a later state of the same generation. *)
Record delivery_grows (st st' : delivery_state) : Prop := {
  dg_checkpoint : opt_le (ds_checkpoint st) (ds_checkpoint st');
  dg_fence : opt_le (ds_readThrough st) (ds_readThrough st')
}.

#[export] Instance delivery_grows_refl : Reflexive delivery_grows.
Proof. intros st. split; apply opt_le_refl. Qed.

#[export] Instance delivery_grows_trans : Transitive delivery_grows.
Proof. intros a b c [H1 H2] [H3 H4]. split; by etrans. Qed.

(** Every generation's window is well formed, and none has entries without a
    delivery row. *)
Record db_delivery_ok (db : rep_db) : Prop := {
  dbo_states : forall g st, loadDelivery g db = Some st -> delivery_ok st;
  dbo_orphans : forall g, t_delivery db !! g = None -> returned_rows g db = []
}.

(** No generation loses its delivery state and none goes back. *)
Definition db_delivery_grows (db db' : rep_db) : Prop :=
  forall g st, loadDelivery g db = Some st ->
  exists st', loadDelivery g db' = Some st' /\ delivery_grows st st'.

#[export] Instance db_delivery_grows_refl : Reflexive db_delivery_grows.
Proof. intros db g st H. exists st. split; [done|apply delivery_grows_refl]. Qed.

#[export] Instance db_delivery_grows_trans : Transitive db_delivery_grows.
Proof.
  intros a b c H1 H2 g st H. destruct (H1 g st H) as (st1 & H1' & G1).
  destruct (H2 g st1 H1') as (st2 & H2' & G2). exists st2. split; [done|by etrans].
Qed.

(** A transaction that keeps the invariant and only moves forward. *)
Definition delivery_safe {A} (body : tx A) : Prop :=
  forall now db, db_delivery_ok db ->
  let db' := snd (body now db) in db_delivery_ok db' /\ db_delivery_grows db db'.

Lemma delivery_safe_ret {A} (a : A) : delivery_safe (tx_ret a).
Proof. intros now db H. by split. Qed.

Lemma delivery_safe_throw {A} e : delivery_safe (@tx_throw A e).
Proof. intros now db H. by split. Qed.

Lemma delivery_safe_read {A} (f : rep_db -> A) : delivery_safe (tx_read f).
Proof. intros now db H. by split. Qed.

Lemma delivery_safe_bind {A B} (m : tx A) (f : A -> tx B) :
  delivery_safe m -> (forall a, delivery_safe (f a)) -> delivery_safe (tx_bind m f).
Proof.
  intros Hm Hf now db Hok. unfold tx_bind. specialize (Hm now db Hok).
  destruct (m now db) as [[e|a] db1]; simpl in *; [done|]. destruct Hm as [H1 G1].
  destruct (Hf a now db1 H1) as [H2 G2]. split; [done|by etrans].
Qed.

(** A write to the other tables. *)
Lemma delivery_safe_write f :
  (forall db, t_delivery (f db) = t_delivery db) -> (forall db, t_returned (f db) = t_returned db) ->
  delivery_safe (tx_write f).
Proof.
  intros Hd Hr now db Hok. simpl.
  assert (E : forall g, loadDelivery g (f db) = loadDelivery g db).
  { intros g. unfold loadDelivery, returned_rows. by rewrite Hd, Hr. }
  split; [|intros g st H; exists st; rewrite E; split; [done|apply delivery_grows_refl]].
  split.
  - intros g st. rewrite E. apply Hok.
  - intros g. unfold returned_rows. rewrite Hd, Hr. apply Hok.
Qed.

Create HintDb delivery.
#[export] Hint Resolve delivery_safe_ret delivery_safe_throw delivery_safe_read delivery_safe_bind : delivery.
#[export] Hint Extern 2 (delivery_safe (tx_write _)) =>
  apply delivery_safe_write; reflexivity : delivery.

(** ** Reading back a write *)

Lemma point_of_fmap (p : option point) : point_of (p_id <$> p) (p_created_at <$> p) = p.
Proof. by destruct p as [[i t]|]. Qed.

Lemma returned_insert_perm l :
  NoDup (map p_id l) ->
  map (fun kv => Point (fst kv) (snd kv))
    (map_to_list (list_to_map (map (fun p => (p_id p, p_created_at p)) l) : gmap string string)) ≡ₚ l.
Proof.
  intros H. rewrite map_to_list_to_map.
  - rewrite map_map. cbn. rewrite (map_ext _ id); [by rewrite map_id|]. by intros [i t].
  - by rewrite <-list_fmap_compose.
Qed.

(** What a write changes: this generation's window, and no other table but the
    wake records. *)
Record written (g : string) (next : delivery_state) (db db' : rep_db) : Prop := {
  wr_load : loadDelivery g db' = Some next;
  wr_other : forall g', g' <> g ->
    t_delivery db' !! g' = t_delivery db !! g' /\ returned_rows g' db' = returned_rows g' db;
  wr_bindings : t_bindings db' = t_bindings db;
  wr_requests : t_requests db' = t_requests db
}.

Lemma write_spec g before next now db :
  loadDelivery g db = Some before ->
  ds_start next = ds_start before -> ds_startKind next = ds_startKind before ->
  opt_le (ds_checkpoint next) (ds_readThrough next) ->
  NoDup (map p_id (ds_returned next)) -> StronglySorted point_le (ds_returned next) ->
  exists db', write g next now db = (inr tt, db') /\ written g next db db'.
Proof.
  intros Hload Hstart Hkind Hfence Hids Hsorted.
  unfold loadDelivery in Hload. destruct (t_delivery db !! g) as [row|] eqn:Hrow; [|done].
  injection Hload as Hb.
  unfold write.
  match goal with |- context [if ?b then tx_throw _ else _] => replace b with false end.
  2: { destruct (ds_checkpoint next) as [c|]; [|done].
       destruct (ds_readThrough next) as [r|]; simpl in Hfence; [|done].
       symmetry. apply Z.ltb_ge. exact Hfence. }
  unfold tx_bind at 1, update_delivery, tx_write at 1. unfold tx_bind, insert_returned.
  rewrite bool_decide_eq_true_2 by done. unfold tx_write.
  eexists. split; [reflexivity|]. split; [..|done|done].
  - unfold loadDelivery, returned_rows. cbn.
    rewrite lookup_alter_eq, Hrow, lookup_insert_eq. cbn. rewrite !point_of_fmap.
    rewrite (sort_points_unique _ (ds_returned next)) by (by try apply returned_insert_perm).
    subst before. cbn in *. destruct next; cbn in *; congruence.
  - intros g' Hne. unfold returned_rows. cbn.
    by rewrite lookup_alter_ne, lookup_insert_ne by done.
Qed.

Lemma written_load g next db db' g' :
  written g next db db' -> g' <> g -> loadDelivery g' db' = loadDelivery g' db.
Proof.
  intros Hw Hne. destruct (wr_other _ _ _ _ Hw g' Hne) as [H1 H2].
  unfold loadDelivery. by rewrite H1, H2.
Qed.

Lemma write_beyond g next now db :
  ~ opt_le (ds_checkpoint next) (ds_readThrough next) ->
  snd (write g next now db) = db.
Proof.
  intros H. unfold write.
  match goal with |- context [if ?b then tx_throw _ else _] => destruct b eqn:E end; [done|].
  destruct H. destruct (ds_checkpoint next) as [c|]; [|done].
  destruct (ds_readThrough next) as [r|]; [|done]. by apply Z.ltb_ge in E.
Qed.

Lemma written_safe g before next db db' :
  db_delivery_ok db -> loadDelivery g db = Some before -> written g next db db' ->
  delivery_ok next -> delivery_grows before next ->
  db_delivery_ok db' /\ db_delivery_grows db db'.
Proof.
  intros Hok Hb Hw Hn Hg. assert (Hl := wr_load _ _ _ _ Hw). split; [split|].
  - intros g' st Hst. destruct (decide (g' = g)) as [->|Hne]; [congruence|].
    rewrite (written_load _ _ _ _ _ Hw) in Hst by done. by eapply Hok.
  - intros g' Hg'. destruct (decide (g' = g)) as [->|Hne].
    + unfold loadDelivery in Hl. by rewrite Hg' in Hl.
    + destruct (wr_other _ _ _ _ Hw g' Hne) as [H1 H2]. rewrite H2. apply Hok. by rewrite <-H1.
  - intros g' st Hst. destruct (decide (g' = g)) as [->|Hne].
    + exists next. split; [done|]. congruence.
    + exists st. rewrite (written_load _ _ _ _ _ Hw) by done. split; [done|apply delivery_grows_refl].
Qed.

(** ** Widening the window *)

(** The window a read hands over is in log order. *)
Definition ends_with_last (window : list point) : Prop :=
  forall tail, last window = Some tail -> forall p, p ∈ window -> point_le p tail.

Definition widened (before : delivery_state) (window : list point) (tail : point) : delivery_state :=
  DeliveryState (ds_start before) (ds_startKind before) (ds_checkpoint before)
    (later (ds_readThrough before) (Some tail))
    (slice_last RETURNED_CAP (sort_points
       (after_checkpoint (ds_checkpoint before) (dedup_ids [] (ds_returned before ++ window))))).

Lemma widened_ok before window tail :
  delivery_ok before -> last window = Some tail -> ends_with_last window ->
  delivery_ok (widened before window tail) /\ delivery_grows before (widened before window tail).
Proof.
  intros Hok Hlast Hends.
  destruct (later_spec (ds_readThrough before) (Some tail)) as (L1 & L2 & _).
  destruct (dedup_ids_spec [] (ds_returned before ++ window)) as (D1 & D2 & _).
  assert (Hin : forall p, p ∈ ds_returned (widened before window tail) ->
    (p ∈ ds_returned before \/ p ∈ window) /\ above (ds_checkpoint before) p).
  { cbn. intros p Hp%elem_of_slice_last. rewrite sort_points_perm in Hp.
    apply elem_after_checkpoint in Hp as [Hp Ha]. apply D2 in Hp as [Hp _].
    by apply elem_of_app in Hp. }
  split; split; cbn [widened ds_checkpoint ds_readThrough ds_returned].
  - etrans; [apply (dok_fence _ Hok)|done].
  - apply StronglySorted_drop, sort_points_sorted.
  - by apply map_id_drop, map_id_sort, map_id_filter.
  - intros p Hp. by apply Hin.
  - intros p Hp. apply Hin in Hp as [[Hp|Hp] _].
    + etrans; [by apply (dok_below _ Hok)|done].
    + etrans; [|exact L2]. simpl. by apply Hends.
  - apply slice_last_length.
  - apply opt_le_refl.
  - done.
Qed.

Lemma widenReadWindow_spec g before window tail now db :
  loadDelivery g db = Some before -> delivery_ok before ->
  last window = Some tail -> ends_with_last window ->
  exists db', widenReadWindow g window now db = (inr tt, db') /\
    written g (widened before window tail) db db'.
Proof.
  intros Hload Hok Hlast Hends. unfold widenReadWindow, tx_bind, tx_read. rewrite Hload, Hlast.
  destruct (widened_ok before window tail) as [Hw _]; [done..|].
  apply (write_spec _ before); [done..| | |]; apply Hw.
Qed.

Lemma widenReadWindow_safe g window : ends_with_last window -> delivery_safe (widenReadWindow g window).
Proof.
  intros Hends now db Hok. cbv zeta.
  destruct (loadDelivery g db) as [before|] eqn:Hload.
  2: { unfold widenReadWindow, tx_bind, tx_read. rewrite Hload. by split. }
  assert (Hb := dbo_states _ Hok _ _ Hload).
  destruct (last window) as [tail|] eqn:Hlast.
  2: { unfold widenReadWindow, tx_bind, tx_read. rewrite Hload, Hlast. by split. }
  destruct (widenReadWindow_spec g before window tail now db) as (db' & -> & Hw); [eauto..|].
  destruct (widened_ok before window tail) as [H1 H2]; [eauto..|]. by eapply written_safe.
Qed.

(** ** Advancing the checkpoint *)

Definition advanced (before : delivery_state) (to : point) : delivery_state :=
  let checkpoint := later (ds_checkpoint before) (Some to) in
  DeliveryState (ds_start before) (ds_startKind before) checkpoint
    (ds_readThrough before) (after_checkpoint checkpoint (ds_returned before)).

Lemma advanced_ok before to :
  delivery_ok before -> opt_le (Some to) (ds_readThrough before) ->
  delivery_ok (advanced before to) /\ delivery_grows before (advanced before to).
Proof.
  intros Hok Hto. destruct (later_spec (ds_checkpoint before) (Some to)) as (L1 & L2 & _).
  split; split; cbn [advanced ds_checkpoint ds_readThrough ds_returned].
  - apply later_bounded; [apply (dok_fence _ Hok)|done].
  - apply StronglySorted_filter, (dok_sorted _ Hok).
  - apply map_id_filter, (dok_ids _ Hok).
  - by intros p [_ Hp]%elem_after_checkpoint.
  - intros p Hp. apply elem_after_checkpoint in Hp as [Hp _]. by apply (dok_below _ Hok).
  - etrans; [|apply (dok_cap _ Hok)]. apply List.filter_length_le.
  - done.
  - apply opt_le_refl.
Qed.

Lemma advanceCheckpoint_spec g before to now db :
  loadDelivery g db = Some before -> delivery_ok before -> opt_le (Some to) (ds_readThrough before) ->
  exists db', advanceCheckpoint g to now db = (inr (before, advanced before to), db') /\
    written g (advanced before to) db db'.
Proof.
  intros Hload Hok Hto. destruct (advanced_ok before to) as [Ha _]; [done..|].
  destruct (write_spec g before (advanced before to) now db) as (db' & Hw & Hd); [done..| | | |];
    [apply Ha..|].
  exists db'. split; [|done]. unfold advanceCheckpoint, tx_bind, tx_read. rewrite Hload.
  change (DeliveryState _ _ _ _ _) with (advanced before to). by rewrite Hw.
Qed.

Lemma advanceCheckpoint_safe g to : delivery_safe (advanceCheckpoint g to).
Proof.
  intros now db Hok. cbv zeta. destruct (loadDelivery g db) as [before|] eqn:Hload.
  2: { unfold advanceCheckpoint, tx_bind, tx_read. rewrite Hload. by split. }
  assert (Hb := dbo_states _ Hok _ _ Hload).
  assert (Hdec : opt_le (ds_checkpoint (advanced before to)) (ds_readThrough before) \/
                 ~ opt_le (ds_checkpoint (advanced before to)) (ds_readThrough before)).
  { destruct (ds_checkpoint _), (ds_readThrough before); simpl; auto.
    destruct (decide (point_le p p0)); auto. }
  destruct Hdec as [Hle|Hnle].
  - destruct (advanceCheckpoint_spec g before to now db) as (db' & -> & Hw); [done..| |].
    + destruct (later_spec (ds_checkpoint before) (Some to)) as (_ & L2 & _).
      etrans; [exact L2|exact Hle].
    + destruct (advanced_ok before to) as [H1 H2]; [done| |].
      * destruct (later_spec (ds_checkpoint before) (Some to)) as (_ & L2 & _).
        etrans; [exact L2|exact Hle].
      * by eapply written_safe.
  - unfold advanceCheckpoint, tx_bind, tx_read. rewrite Hload.
    change (DeliveryState _ _ _ _ _) with (advanced before to).
    pose proof (write_beyond g (advanced before to) now db Hnle) as Hw.
    destruct (write g (advanced before to) now db) as [[e|[]] db'] eqn:E; simpl in Hw; subst db'; by split.
Qed.

(** ** The other transactions *)

Section Transactions.
Context `{RepEnv}.

Lemma currentBindingRow_same wt now db : snd (currentBindingRow wt now db) = db.
Proof.
  unfold currentBindingRow. destruct (t_bindings db !! wt); [|done].
  destruct (parseBinding _ _); [|done]. by destruct (String.eqb _ _).
Qed.

Lemma delivery_safe_same {A} (body : tx A) :
  (forall now db, snd (body now db) = db) -> delivery_safe body.
Proof. intros Hs now db Hok. rewrite Hs. by split. Qed.

Lemma currentBindingRow_safe wt : delivery_safe (currentBindingRow wt).
Proof. apply delivery_safe_same, currentBindingRow_same. Qed.

Lemma loadRequests_safe g : delivery_safe (loadRequests g).
Proof. apply delivery_safe_same. intros now db. unfold loadRequests. by destruct (mapM _ _). Qed.

#[local] Hint Resolve currentBindingRow_safe loadRequests_safe widenReadWindow_safe
  advanceCheckpoint_safe : delivery.

(** Case analysis of a transaction body into its parts. *)
Ltac delivery_cases :=
  repeat first
    [ progress auto with delivery
    | apply delivery_safe_bind; [|intros]
    | match goal with |- delivery_safe (match ?x with _ => _ end) => destruct x end ].

Lemma requireCurrentGeneration_safe b : delivery_safe (requireCurrentGeneration b).
Proof. unfold requireCurrentGeneration. delivery_cases. Qed.

Lemma require_current_row_safe b : delivery_safe (require_current_row b).
Proof. unfold require_current_row. delivery_cases. Qed.

#[local] Hint Resolve requireCurrentGeneration_safe require_current_row_safe : delivery.

Lemma storeRequests_safe g l : delivery_safe (storeRequests g l).
Proof. unfold storeRequests. delivery_cases. Qed.

Lemma insertBindingRow_safe b seat o : delivery_safe (insertBindingRow b seat o).
Proof. unfold insertBindingRow. delivery_cases. Qed.

#[local] Hint Resolve storeRequests_safe insertBindingRow_safe : delivery.

Lemma saveBinding_safe b rebind : delivery_safe (saveBinding b rebind).
Proof. unfold saveBinding. delivery_cases. Qed.

Lemma transactRequests_safe {T} b (op : Z -> list request -> (js_error + T) * list request) skip :
  delivery_safe (transactRequests b op skip).
Proof.
  intros now db Hok. unfold transactRequests.
  destruct (requireCurrentGeneration_safe b now db Hok) as [H1 G1].
  destruct (requireCurrentGeneration b now db) as [[e|g] db1]; simpl in H1, G1.
  - destruct (_ && _); by split.
  - assert (Hs : delivery_safe
      (tx_bind (loadRequests g) (fun before => match op now before with
       | (inl e, _) => tx_throw e
       | (inr result, records) =>
           tx_bind (if bool_decide (pruneSettled records = before) then tx_ret tt
                    else storeRequests g (pruneSettled records)) (fun _ => tx_ret (Some result))
       end))).
    { apply delivery_safe_bind; [auto with delivery|]. intros before.
      destruct (op now before) as [[e|r] records]; delivery_cases. }
    destruct (Hs now db1 H1) as [H2 G2]. split; [done|by etrans].
Qed.

Lemma read_snapshot_safe b : delivery_safe (read_snapshot b).
Proof. unfold read_snapshot. delivery_cases. Qed.

Lemma read_widen_safe b window : ends_with_last window -> delivery_safe (read_widen b window).
Proof. intros Hw. unfold read_widen. delivery_cases. Qed.

Lemma deliver_tx_safe b p : delivery_safe (deliver_tx b p).
Proof. unfold deliver_tx. delivery_cases. Qed.

Lemma insert_delivery_safe b kind start : delivery_safe (insert_delivery b kind start).
Proof.
  intros now db Hok. unfold insert_delivery, tx_bind, tx_read. set (g := bindingFingerprint b).
  destruct (t_delivery db !! g) as [row|] eqn:Hg; [rewrite bool_decide_eq_true_2 by eauto; by split|].
  rewrite bool_decide_eq_false_2 by (intros [? ?]; done). cbn.
  assert (Hnil := dbo_orphans _ Hok g Hg).
  match goal with |- db_delivery_ok ?d /\ _ => set (db' := d) end.
  assert (Hother : forall g', g' <> g -> loadDelivery g' db' = loadDelivery g' db).
  { intros g' Hne. unfold loadDelivery, returned_rows, db'. cbn. by rewrite lookup_insert_ne. }
  split; [split|].
  - intros g' st Hst. destruct (decide (g' = g)) as [->|Hne].
    + assert (Hr : returned_rows g db' = []) by exact Hnil.
      unfold loadDelivery in Hst. rewrite Hr in Hst. unfold db' in Hst. cbn in Hst.
      rewrite lookup_insert_eq in Hst. injection Hst as <-.
      split; cbn; first [done | apply SSorted_nil | apply NoDup_nil_2 | by intros p ?%elem_of_nil | unfold RETURNED_CAP; lia].
    + rewrite Hother in Hst by done. by eapply Hok.
  - intros g' Hg'. unfold db' in Hg'. cbn in Hg'. apply lookup_insert_None in Hg' as [Hg' _].
    by apply (dbo_orphans _ Hok).
  - intros g' st Hst. exists st. rewrite Hother; [split; [done|apply delivery_grows_refl]|].
    intros ->. unfold loadDelivery in Hst. by rewrite Hg in Hst.
Qed.

Lemma ensure_row_safe b : delivery_safe (ensure_row b).
Proof. pose proof insert_delivery_safe. unfold ensure_row. delivery_cases. Qed.

(** Resolving the start changes neither the checkpoint nor the window. *)
Lemma resolve_start_safe g k start :
  delivery_safe (tx_write (set_delivery (alter (fun row => DeliveryRow
      (dr_seat row) (p_id start) (p_created_at start) k
      (dr_checkpoint_id row) (dr_checkpoint_at row) (dr_read_through_id row) (dr_read_through_at row)) g))).
Proof.
  intros now db Hok. cbn. match goal with |- db_delivery_ok ?d /\ _ => set (db' := d) end.
  assert (E : forall g' st', loadDelivery g' db' = Some st' -> exists st, loadDelivery g' db = Some st /\
    ds_checkpoint st' = ds_checkpoint st /\ ds_readThrough st' = ds_readThrough st /\ ds_returned st' = ds_returned st).
  { intros g' st'. unfold loadDelivery, db', returned_rows. cbn.
    destruct (decide (g' = g)) as [->|Hne].
    - rewrite lookup_alter_eq. destruct (t_delivery db !! g) as [row|]; cbn; [|done].
      intros [= <-]. eexists. split; [reflexivity|]. done.
    - rewrite lookup_alter_ne by done. intros ->. eauto. }
  split; [split|].
  - intros g' st' Hst. destruct (E g' st' Hst) as (st & Hl & E1 & E2 & E3).
    destruct (dbo_states _ Hok _ _ Hl) as [F1 F2 F3 F4 F5 F6]. split; rewrite ?E1, ?E2, ?E3; done.
  - intros g' Hg'. apply (dbo_orphans _ Hok). unfold db' in Hg'. cbn in Hg'.
    destruct (decide (g' = g)) as [->|Hne]; [|by rewrite lookup_alter_ne in Hg'].
    rewrite lookup_alter_eq in Hg'. by destruct (t_delivery db !! g).
  - intros g' st Hst.
    assert (exists st', loadDelivery g' db' = Some st') as [st' Hst'].
    { unfold loadDelivery, db' in *. cbn. destruct (decide (g' = g)) as [->|Hne].
      - rewrite lookup_alter_eq. destruct (t_delivery db !! g); [|done]. eauto.
      - rewrite lookup_alter_ne by done. destruct (t_delivery db !! g'); [|done]. eauto. }
    exists st'. split; [done|]. destruct (E g' st' Hst') as (st0 & Hl & E1 & E2 & _).
    simplify_eq. split; [rewrite E1|rewrite E2]; apply opt_le_refl.
Qed.

Lemma resolve_head_safe b head : delivery_safe (resolve_head b head).
Proof.
  pose proof resolve_start_safe. unfold resolve_head. delivery_cases.
Qed.
End Transactions.

(** * The scan of the cube log

    Whatever pages the server returns, the candidates of a scan are in log order,
    beyond the floor, and at most one more than the limit; so the window a read
    hands over ends with its newest entry. *)

Section Scan.
Context `{RepEnv}.
Variable b : binding.
Variable requestIds : list string.
Variable include_broadcast : bool.
Variable limit : nat.

Local Abbreviation scan1 := (scan_entry b requestIds include_broadcast limit).
Local Abbreviation scan_all := (scan_entries b requestIds include_broadcast limit).

Definition state_of_step (s : scan_step) : scan_state := match s with More s | Break s => s end.

(** The invariant of a scan that started at [floor]. *)
Record scan_ok (floor : point) (s : scan_state) : Prop := {
  so_sorted : StronglySorted point_lt (map ca_point (sc_candidates s));
  so_last : forall c, c ∈ sc_candidates s -> point_le (ca_point c) (sc_last s);
  so_floor : forall c, c ∈ sc_candidates s -> point_lt floor (ca_point c);
  so_reach : point_le floor (sc_last s);
  so_reply : forall c, c ∈ sc_candidates s ->
    ca_point c = Point (rp_entry_id (ca_reply c)) (rp_created_at (ca_reply c));
  so_count : (length (sc_candidates s) <= S limit)%nat
}.

Lemma StronglySorted_snoc {A} (R : relation A) l x :
  StronglySorted R l -> (forall y, y ∈ l -> R y x) -> StronglySorted R (l ++ [x]).
Proof.
  induction 1 as [|y l Hs IH Hf]; simpl; intros Hx.
  - constructor; [apply SSorted_nil|apply Forall_nil_2].
  - constructor; [apply IH; intros z Hz; apply Hx; by right|].
    apply Forall_app. split; [done|]. apply Forall_singleton, Hx. left.
Qed.

Lemma scan_entry_ok floor s e :
  scan_ok floor s -> (length (sc_candidates s) <= limit)%nat -> scan_ok floor (state_of_step (scan1 s e)).
Proof.
  intros [S1 S2 S3 S4 S5 S6] Hlim. unfold scan_entry.
  destruct (comparePoints (entry_point e) (Some (sc_last s)) <=? 0) eqn:E; [by split|].
  apply Z.leb_gt in E. assert (Hlt : point_lt (sc_last s) (entry_point e)) by (by apply point_lt_iff).
  assert (Hle : forall c, c ∈ sc_candidates s -> point_lt (ca_point c) (entry_point e))
    by (intros c Hc; eapply point_le_lt_trans; [by apply S2|done]).
  assert (Hfl : point_lt floor (entry_point e)) by (by eapply point_le_lt_trans).
  destruct (taken _ _) as [a|]; cbn [state_of_step].
  - match goal with |- context [if ?c then Break ?x else More ?x] =>
      assert (Hx : scan_ok floor x); [|by destruct c] end.
    split; cbn [sc_candidates sc_last].
    + rewrite map_app. apply StronglySorted_snoc; [done|].
      intros y (c & -> & Hc)%list_elem_of_fmap. by apply Hle.
    + intros c [Hc| ->%list_elem_of_singleton]%elem_of_app; apply point_le_lteq; [left; by apply Hle|by right].
    + intros c [Hc| ->%list_elem_of_singleton]%elem_of_app; [by apply S3|done].
    + apply point_le_lteq. by left.
    + intros c [Hc| ->%list_elem_of_singleton]%elem_of_app; [by apply S5|done].
    + rewrite length_app. simpl. lia.
  - split; cbn [sc_candidates sc_last]; auto.
    + intros c Hc. apply point_le_lteq. left. by apply Hle.
    + apply point_le_lteq. by left.
Qed.

(** A step that does not break off has room for one more candidate. *)
Lemma scan_entry_room s e s' :
  (length (sc_candidates s) <= limit)%nat -> scan1 s e = More s' -> (length (sc_candidates s') <= limit)%nat.
Proof.
  intros Hlim. unfold scan_entry. destruct (_ <=? 0); [by intros [= <-]|].
  destruct (taken _ _); [|by intros [= <-]].
  destruct (_ <? _)%nat eqn:E; [done|]. intros [= <-]. apply Nat.ltb_ge in E. done.
Qed.

Lemma scan_entries_ok floor s es :
  scan_ok floor s -> (length (sc_candidates s) <= limit)%nat ->
  scan_ok floor (state_of_step (scan_all s es)) /\
  (forall s', scan_all s es = More s' -> (length (sc_candidates s') <= limit)%nat).
Proof.
  revert s. induction es as [|e es IH]; intros s Hok Hlim; cbn [scan_entries].
  - split; [done|]. by intros s' [= <-].
  - assert (H1 := scan_entry_ok floor s e Hok Hlim). assert (H2 := scan_entry_room s e).
    destruct (scan1 s e) as [s1|s1]; cbn [state_of_step] in *; [|by split].
    apply IH; auto.
Qed.

Lemma sorted_ends l : StronglySorted point_lt l -> ends_with_last l.
Proof.
  intros Hs tail Hlast p Hp. revert Hs Hlast Hp.
  induction 1 as [|x l Hs IH Hf]; [done|]. intros Hlast Hp.
  destruct l as [|y l].
  - injection Hlast as <-. apply list_elem_of_singleton in Hp as ->. apply point_le_refl.
  - change (last (x :: y :: l)) with (last (y :: l)) in Hlast.
    apply elem_of_cons in Hp as [->|Hp]; [|by apply IH].
    apply point_le_lteq. left. rewrite Forall_forall in Hf. apply Hf.
    by apply last_Some_elem_of.
Qed.

Lemma sorted_take n l : StronglySorted point_lt l -> StronglySorted point_lt (take n l).
Proof. intros Hall. rewrite <-(take_drop n l) in Hall. by apply StronglySorted_app in Hall as (_ & ? & _). Qed.

(** The candidates a window is cut from. *)
Lemma scan_window_ends floor s n :
  scan_ok floor s -> ends_with_last (map ca_point (take n (sc_candidates s))).
Proof. intros Hok. apply sorted_ends. rewrite <-firstn_map. apply sorted_take, (so_sorted _ _ Hok). Qed.

Lemma scan_start_ok floor : scan_ok floor (ScanState floor 0 []).
Proof.
  split; cbn; try (by intros c ?%elem_of_nil); [apply SSorted_nil|apply point_le_refl|lia].
Qed.
End Scan.

(** ** The scan against an ordered log

    [readAfter] is documented as one page strictly after a cursor, ascending.
    Over such a log the paged scan finds exactly the first [limit + 1] entries
    addressed to the representative beyond the floor. *)

Definition beyond (p : option point) (l : list log_entry) : list log_entry :=
  List.filter (fun e => 0 <? comparePoints (entry_point e) p) l.

Definition ordered (log : list log_entry) : Prop := StronglySorted point_lt (map entry_point log).

(** The page of a log after a cursor. *)
Definition page_of (log : list log_entry) (cursor : option point) (size : Z) : page :=
  let rest := beyond cursor log in
  Page (take (Z.to_nat size) rest) (Some (Z.to_nat size <? length rest)%nat).

Section Reference.
Context `{RepEnv}.
Variable b : binding.
Variable requestIds : list string.
Variable include_broadcast : bool.
Variable limit : nat.

(** The candidates of a whole list of entries, read once in order: what a reply
    is made of and how many entries were passed over before it. *)
Fixpoint reference (ignored : Z) (es : list log_entry) : list candidate :=
  match es with
  | [] => []
  | e :: rest =>
      match taken (isAddressedCoordinatorEntry b e) include_broadcast with
      | None => reference (ignored + 1) rest
      | Some a => Candidate (make_reply b requestIds e a) (entry_point e) ignored :: reference ignored rest
      end
  end.

Definition is_ignored (e : log_entry) : bool :=
  match taken (isAddressedCoordinatorEntry b e) include_broadcast with None => true | Some _ => false end.

Definition ignored_count (es : list log_entry) : Z := Z.of_nat (length (List.filter is_ignored es)).

Lemma reference_app ignored l1 l2 :
  reference ignored (l1 ++ l2) = reference ignored l1 ++ reference (ignored + ignored_count l1) l2.
Proof.
  revert ignored. induction l1 as [|e l1 IH]; intros ignored; cbn [app reference].
  - by rewrite Z.add_0_r.
  - unfold ignored_count, is_ignored in *. cbn [List.filter]. destruct (taken _ _); cbn [length app].
    + by rewrite IH.
    + rewrite IH, Nat2Z.inj_succ. f_equal. f_equal. lia.
Qed.

Local Abbreviation scan_all := (scan_entries b requestIds include_broadcast limit).

(** Entries after everything scanned so far keep their relation to the position. *)
Record advances (s s' : scan_state) (es : list log_entry) : Prop := {
  av_le : point_le (sc_last s) (sc_last s');
  av_in : sc_last s' = sc_last s \/ exists e, e ∈ es /\ sc_last s' = entry_point e
}.

Lemma beyond_cons p e l :
  beyond (Some p) (e :: l) = if 0 <? comparePoints (entry_point e) (Some p) then e :: beyond (Some p) l else beyond (Some p) l.
Proof. reflexivity. Qed.

Lemma ltb_leb_zero n : (0 <? n) = negb (n <=? 0).
Proof. destruct (Z.ltb_spec 0 n), (Z.leb_spec n 0); try done; lia. Qed.

Lemma beyond_all p es : (forall e, e ∈ es -> point_lt p (entry_point e)) -> beyond (Some p) es = es.
Proof.
  intros Hall. induction es as [|e es IH]; [done|]. rewrite beyond_cons.
  assert (He : point_lt p (entry_point e)) by (apply Hall; left). apply point_lt_iff in He.
  apply Z.ltb_lt in He as ->. f_equal. apply IH. intros x Hx. apply Hall. by right.
Qed.

Lemma ordered_cons e es :
  ordered (e :: es) -> ordered es /\ forall x, x ∈ es -> point_lt (entry_point e) (entry_point x).
Proof.
  unfold ordered. cbn. intros Ho. inversion Ho as [|? ? Hs Hf]; subst. split; [done|].
  intros x Hx. rewrite Forall_forall in Hf. apply Hf. by apply list_elem_of_fmap_2.
Qed.

Lemma scan_entries_reference s es :
  ordered es -> (length (sc_candidates s) <= limit)%nat ->
  let ref := sc_candidates s ++ reference (sc_ignored s) (beyond (Some (sc_last s)) es) in
  match scan_all s es with
  | More s' => sc_candidates s' = ref /\ (length ref <= limit)%nat /\
      sc_ignored s' = sc_ignored s + ignored_count (beyond (Some (sc_last s)) es) /\ advances s s' es
  | Break s' => sc_candidates s' = take (S limit) ref /\ (limit < length ref)%nat
  end.
Proof.
  cbv zeta. revert s. induction es as [|e es IH]; intros s Hord Hlim.
  - cbn. rewrite app_nil_r. split; [done|]. split; [done|].
    split; [unfold ignored_count; cbn; lia|]. split; [apply point_le_refl|by left].
  - apply ordered_cons in Hord as [Hord Hlt]. cbn [scan_entries]. unfold scan_entry.
    rewrite beyond_cons, ltb_leb_zero. destruct (_ <=? 0) eqn:E; cbn [negb].
    { specialize (IH s Hord Hlim). destruct (scan_all s es) as [s'|s']; [|done].
      destruct IH as (? & ? & ? & [? Hin]). split; [done|]. split; [done|]. split; [done|]. split; [done|].
      destruct Hin as [?|(x & ? & ?)]; [by left|right]. exists x. split; [by right|done]. }
    apply Z.leb_gt in E. assert (Hle : point_lt (sc_last s) (entry_point e)) by (by apply point_lt_iff).
    assert (Hall : beyond (Some (sc_last s)) es = es).
    { apply beyond_all. intros x Hx. eapply point_lt_trans; [done|by apply Hlt]. }
    assert (Hall' : beyond (Some (entry_point e)) es = es) by (by apply beyond_all).
    assert (Hadv : forall s1 s', sc_last s1 = entry_point e -> advances s1 s' es -> advances s s' (e :: es)).
    { intros s1 s' Hs1 [Ha Hin]. rewrite Hs1 in Ha, Hin. split.
      - eapply point_le_trans; [|done]. apply point_le_lteq. by left.
      - right. destruct Hin as [->|(x & ? & ->)]; [exists e|exists x]; split; auto; [left|by right]. }
    rewrite Hall. cbn [reference]. unfold ignored_count, is_ignored. cbn [List.filter].
    destruct (taken _ _) as [a|].
    + set (c := Candidate _ _ _). set (s1 := ScanState _ _ _).
      assert (Hc1 : sc_candidates s1 = sc_candidates s ++ [c]) by done.
      destruct (limit <? length (sc_candidates s1))%nat eqn:Eb.
      * apply Nat.ltb_lt in Eb. rewrite Hc1, length_app in Eb. cbn in Eb.
        split; [|rewrite length_app; cbn; lia].
        rewrite (app_assoc _ [c] _ : _ ++ c :: _ = _), <-Hc1, take_app_length'; [done|].
        rewrite Hc1, length_app. cbn. lia.
      * apply Nat.ltb_ge in Eb. specialize (IH s1 Hord Eb). rewrite Hc1 in IH.
        change (sc_last s1) with (entry_point e) in IH. rewrite Hall', <-app_assoc in IH. cbn [app] in IH.
        change (sc_ignored s1) with (sc_ignored s) in IH.
        destruct (scan_all s1 es) as [s'|s']; [|done]. destruct IH as (? & ? & ? & ?).
        split; [done|]. split; [done|]. split; [done|]. by apply (Hadv s1).
    + set (s1 := ScanState _ _ _). specialize (IH s1 Hord Hlim).
      change (sc_last s1) with (entry_point e) in IH. rewrite Hall' in IH.
      change (sc_candidates s1) with (sc_candidates s) in IH. change (sc_ignored s1) with (sc_ignored s + 1) in IH.
      destruct (scan_all s1 es) as [s'|s']; [|done]. destruct IH as (? & ? & Hi & ?).
      split; [done|]. split; [done|]. split; [|by apply (Hadv s1)].
      rewrite Hi. unfold ignored_count, is_ignored. cbn [length]. lia.
Qed.
End Reference.

(** ** Pages *)

Lemma elem_beyond p l e : e ∈ beyond p l <-> e ∈ l /\ above p (entry_point e).
Proof.
  unfold beyond. rewrite list_elem_of_In, filter_In, <-list_elem_of_In, Z.ltb_lt, above_iff. done.
Qed.

Lemma beyond_app p l1 l2 : beyond p (l1 ++ l2) = beyond p l1 ++ beyond p l2.
Proof. apply List.filter_app. Qed.

Lemma beyond_ext p q l : (forall e, e ∈ l -> above p (entry_point e) <-> above q (entry_point e)) -> beyond p l = beyond q l.
Proof.
  intros Hpq. induction l as [|e l IH]; [done|]. unfold beyond in *. cbn [List.filter].
  assert (He := Hpq e ltac:(left)). rewrite !above_iff in He.
  rewrite IH by (intros x Hx; apply Hpq; by right).
  destruct (Z.ltb_spec 0 (comparePoints (entry_point e) p)), (Z.ltb_spec 0 (comparePoints (entry_point e) q));
    try done; lia.
Qed.

Lemma beyond_none p l : (forall e, e ∈ l -> ~ above p (entry_point e)) -> beyond p l = [].
Proof.
  intros Hn. destruct (beyond p l) as [|e r] eqn:E; [done|].
  assert (He : e ∈ beyond p l) by (rewrite E; left). apply elem_beyond in He as [? ?]. by destruct (Hn e).
Qed.

Lemma beyond_everything p l : (forall e, e ∈ l -> above p (entry_point e)) -> beyond p l = l.
Proof.
  destruct p as [p|]; cbn.
  - intros Ha. by apply beyond_all.
  - intros _. induction l as [|e l IH]; [done|]. unfold beyond in *. cbn. by rewrite IH.
Qed.

Lemma beyond_beyond p q l : (forall e, e ∈ l -> above q (entry_point e) -> above p (entry_point e)) ->
  beyond q (beyond p l) = beyond q l.
Proof.
  intros Hqp. induction l as [|e l IH]; [done|]. unfold beyond in *. cbn [List.filter].
  assert (He := Hqp e ltac:(left)). rewrite !above_iff in He.
  assert (IH' : List.filter (fun e => 0 <? comparePoints (entry_point e) q)
    (List.filter (fun e => 0 <? comparePoints (entry_point e) p) l) =
    List.filter (fun e => 0 <? comparePoints (entry_point e) q) l) by (apply IH; intros x Hx; apply Hqp; by right).
  destruct (Z.ltb_spec 0 (comparePoints (entry_point e) p)); cbn [List.filter];
    destruct (Z.ltb_spec 0 (comparePoints (entry_point e) q)); try (by rewrite IH'); lia.
Qed.

Lemma ordered_app l1 l2 :
  ordered (l1 ++ l2) ->
  ordered l1 /\ ordered l2 /\ forall x y, x ∈ l1 -> y ∈ l2 -> point_lt (entry_point x) (entry_point y).
Proof.
  unfold ordered. rewrite map_app. intros (H12 & H1 & H2)%StronglySorted_app.
  split; [done|]. split; [done|]. intros x y Hx Hy. apply H12; by apply list_elem_of_fmap_2.
Qed.

Lemma ordered_beyond p l : ordered l -> ordered (beyond p l).
Proof.
  induction l as [|e l IH]; [done|]. intros [Ho Hlt]%ordered_cons. unfold beyond in *. cbn [List.filter].
  destruct (0 <? _); [|auto]. unfold ordered. cbn. constructor; [by apply IH|].
  apply Forall_forall. intros x (y & -> & Hy)%list_elem_of_fmap.
  apply Hlt. by apply (elem_beyond p) in Hy as [? _].
Qed.

(** The entries after the tail of a page are the rest of the log. *)
Lemma beyond_tail cursor l n tail :
  ordered l -> last (take n (beyond cursor l)) = Some tail ->
  beyond (Some (entry_point tail)) l = drop n (beyond cursor l).
Proof.
  intros Hord Hlast. set (rest := beyond cursor l) in *.
  assert (Ht : tail ∈ take n rest) by (by apply last_Some_elem_of).
  assert (Hrest : ordered rest) by (by apply ordered_beyond).
  rewrite <-(take_drop n rest) in Hrest. apply ordered_app in Hrest as (Htk & _ & Hsep).
  assert (Htr : tail ∈ rest) by (rewrite <-(take_drop n rest); apply elem_of_app; by left).
  rewrite <-(beyond_beyond cursor).
  - fold rest. rewrite <-(take_drop n rest) at 1. rewrite beyond_app, beyond_none, beyond_everything; [done|..].
    + intros e He. cbn. by apply Hsep.
    + intros e He. cbn. apply last_Some in Hlast as (l' & Hl'). rewrite Hl' in He, Htk.
      apply ordered_app in Htk as (_ & _ & Hsep').
      apply elem_of_app in He as [He| ->%list_elem_of_singleton]; [|apply point_lt_irrefl].
      intros Hlt. apply (point_lt_irrefl (entry_point e)). eapply point_lt_trans; [|exact Hlt].
      apply Hsep'; [done|left].
  - intros e He Ha. apply elem_beyond in Htr as [_ Htc].
    destruct cursor as [c|]; [|done]. cbn in *. by eapply point_lt_trans.
Qed.

(** A server that answers from a log. *)
Record honest := Honest {
  hn_now : Z;
  hn_who : who;
  hn_roster : roster;
  hn_log : list log_entry
}.

Definition not_found : js_error := ErrorOf "BorgServerHttpError" (Some "NOT_FOUND") (Some 404) "not found" [].

Definition serve (h : honest) (X : Type) (op : rep_op X) : rep_db -> X * rep_db :=
  match op in rep_op X return rep_db -> X * rep_db with
  | Transact body => fun db => commit body (hn_now h) db
  | ReadOnly body => fun db =>
      (match fst (body (hn_now h) db) with inl e => inl e | inr a => inr (Some a) end, db)
  | Whoami => fun db => (inr (hn_who h), db)
  | RosterCall => fun db => (inr (hn_roster h), db)
  | Append _ _ _ => fun db => (inl (JsError "no posts"), db)
  | ReadAfter cursor size => fun db => (inr (page_of (hn_log h) cursor size), db)
  | ReadEntry id => fun db =>
      (match List.find (fun e => String.eqb (e_id e) id) (hn_log h) with Some e => inr e | None => inl not_found end, db)
  | AckCall _ => fun db => (inr tt, db)
  | RandomUUID => fun db => ("", db)
  end.

Section Paged.
Context `{RepEnv}.
Variable h : honest.
Variable b : binding.
Variable requestIds : list string.
Variable include_broadcast : bool.
Variable limit : nat.
Hypothesis log_ordered : ordered (hn_log h).

Local Abbreviation ref := (reference b requestIds include_broadcast).

Lemma scan_pages_reference fuel cursor s db :
  (length (sc_candidates s) <= limit)%nat ->
  Z.of_nat (length (beyond cursor (hn_log h))) < READ_SCAN_PAGE * Z.of_nat fuel ->
  exists s', run (serve h) (scan_pages fuel b requestIds include_broadcast limit cursor s) db = (Done (Some s'), db) /\
    sc_candidates s' = take (S limit)
      (sc_candidates s ++ ref (sc_ignored s) (beyond (Some (sc_last s)) (beyond cursor (hn_log h)))).
Proof.
  revert cursor s. induction fuel as [|fuel IH]; intros cursor s Hlim Hfuel; [unfold READ_SCAN_PAGE in *; lia|].
  cbn [scan_pages]. rewrite run_bind, run_perform. cbn [serve].
  set (rest := beyond cursor (hn_log h)) in *.
  assert (Hord : ordered rest) by (by apply ordered_beyond).
  unfold page_of. fold rest. cbn [pg_entries]. set (size := Z.to_nat READ_SCAN_PAGE).
  assert (Hsplit := take_drop size rest). rewrite <-Hsplit in Hord.
  apply ordered_app in Hord as (Htk & _ & Hsep).
  assert (Hspec := scan_entries_reference b requestIds include_broadcast limit s (take size rest) Htk Hlim).
  cbv zeta in Hspec.
  assert (Hwhole : sc_candidates s ++ ref (sc_ignored s) (beyond (Some (sc_last s)) rest) =
    (sc_candidates s ++ ref (sc_ignored s) (beyond (Some (sc_last s)) (take size rest))) ++
    ref (sc_ignored s + ignored_count b include_broadcast (beyond (Some (sc_last s)) (take size rest)))
      (beyond (Some (sc_last s)) (drop size rest))).
  { rewrite <-Hsplit at 1. by rewrite beyond_app, reference_app, app_assoc. }
  rewrite Hwhole.
  destruct (scan_entries _ _ _ _ _ _) as [s1|s1].
  2: { destruct Hspec as [Hc Hl]. exists s1. split; [done|]. rewrite Hc. symmetry. apply take_app_le. lia. }
  destruct Hspec as (Hc & Hl & Hi & Hadv).
  assert (Hdone : drop size rest = [] -> sc_candidates s1 = take (S limit)
    ((sc_candidates s ++ ref (sc_ignored s) (beyond (Some (sc_last s)) (take size rest))) ++
    ref (sc_ignored s + ignored_count b include_broadcast (beyond (Some (sc_last s)) (take size rest)))
      (beyond (Some (sc_last s)) (drop size rest)))).
  { intros ->. cbn. rewrite app_nil_r, Hc. symmetry. apply take_ge. lia. }
  unfold page_tail, has_more. cbn [pg_entries pg_has_more default].
  destruct (last (take size rest)) as [tail|] eqn:Htail; cbn [fmap option_fmap option_map].
  2: { apply last_None in Htail. exists s1. split; [done|]. apply Hdone.
       destruct rest as [|e rest']; [by rewrite drop_nil|]. done. }
  destruct (size <? length rest)%nat eqn:Emore.
  2: { apply Nat.ltb_ge in Emore. exists s1. split; [done|]. apply Hdone. by apply drop_ge. }
  apply Nat.ltb_lt in Emore. assert (Hnext := beyond_tail cursor (hn_log h) size tail log_ordered Htail).
  fold rest in Hnext.
  destruct (IH (Some (entry_point tail)) s1) as (s' & Hrun & Hs').
  - by rewrite Hc.
  - rewrite Hnext, length_drop. assert (Hsz : Z.of_nat size = READ_SCAN_PAGE) by done. lia.
  - exists s'. split; [done|]. rewrite Hs', Hc, Hi, Hnext. f_equal. f_equal. f_equal.
    apply beyond_ext. intros e He. cbn. destruct Hadv as [Hle Hin]. split.
    + intros Hlt. by eapply point_le_lt_trans.
    + intros Hlt. destruct Hin as [->|(x & Hx & ->)]; [done|]. by apply Hsep.
Qed.
End Paged.
