(* ===== verification/RepLedger.v ===== *)
(** * The request ledger as a finite map

    A ledger holds one record per request id.  This file states what each ledger
    operation does to the record of every id, what [transactRequests] does to
    the stored ledger, and that a stored record reads back as itself. *)

From S2P Require Import Prelude JsDate JsonText Effects Sha256 RepDb RepCore RepSend RepRead.

Open Scope Z_scope.
Open Scope tx_scope.

Definition ids (l : list request) : list string := map q_requestId l.

Lemma find_request_cons id r l :
  find_request id (r :: l) = if String.eqb (q_requestId r) id then Some r else find_request id l.
Proof. reflexivity. Qed.

Lemma find_request_id id l r : find_request id l = Some r -> q_requestId r = id.
Proof.
  unfold find_request. intros H. apply List.find_some in H as [_ H]. by apply String.eqb_eq.
Qed.

Lemma find_request_in id l r : find_request id l = Some r -> r ∈ l.
Proof. intros H. apply List.find_some in H as [H _]. by apply list_elem_of_In. Qed.

Lemma find_request_none id l : find_request id l = None <-> id ∉ ids l.
Proof.
  induction l as [|r l IH]; cbn [ids map].
  - split; [intros _ H; by apply elem_of_nil in H|done].
  - rewrite find_request_cons, not_elem_of_cons. destruct (String.eqb _ _) eqn:E.
    + apply String.eqb_eq in E as ->. split; [done|]. by intros [[] _].
    + apply String.eqb_neq in E. rewrite IH. naive_solver.
Qed.

Lemma find_request_some l r : NoDup (ids l) -> r ∈ l -> find_request (q_requestId r) l = Some r.
Proof.
  induction l as [|x l IH]; [by intros _ ?%elem_of_nil|]. cbn [ids map].
  intros [Hx Hl]%NoDup_cons [->|Hr]%elem_of_cons; rewrite find_request_cons.
  - by rewrite String.eqb_refl.
  - destruct (String.eqb _ _) eqn:E; [|auto].
    apply String.eqb_eq in E. destruct Hx. rewrite E. by apply list_elem_of_fmap_2.
Qed.

Lemma find_request_app id l r :
  find_request id (l ++ [r]) =
  match find_request id l with
  | Some x => Some x
  | None => if String.eqb (q_requestId r) id then Some r else None
  end.
Proof.
  induction l as [|x l IH]; [done|]. cbn [app]. rewrite !find_request_cons, IH.
  by destruct (String.eqb (q_requestId x) id).
Qed.

(** [f] keeps the id of a record. *)
Definition keeps_id (f : request -> request) : Prop := forall r, q_requestId (f r) = q_requestId r.

Lemma find_update id f l id' :
  keeps_id f ->
  find_request id' (update_request id f l) =
  if String.eqb id id' then f <$> find_request id l else find_request id' l.
Proof.
  intros Hf. induction l as [|r l IH]; cbn [update_request]; [by destruct (String.eqb id id')|].
  destruct (String.eqb (q_requestId r) id) eqn:E.
  - apply String.eqb_eq in E. rewrite !find_request_cons, Hf, E, String.eqb_refl.
    by destruct (String.eqb id id').
  - rewrite !find_request_cons, IH, E. destruct (String.eqb (q_requestId r) id') eqn:E'; [|done].
    apply String.eqb_eq in E'. apply String.eqb_neq in E.
    destruct (String.eqb id id') eqn:E''; [|done]. apply String.eqb_eq in E''. congruence.
Qed.

Lemma ids_update id f l : keeps_id f -> ids (update_request id f l) = ids l.
Proof.
  intros Hf. induction l as [|r l IH]; cbn; [done|].
  destruct (String.eqb _ _); cbn; [by rewrite Hf|]. unfold ids in IH. by rewrite IH.
Qed.

Lemma find_remove id l id' :
  NoDup (ids l) ->
  find_request id' (remove_request id l) = if String.eqb id id' then None else find_request id' l.
Proof.
  induction l as [|r l IH]; cbn [remove_request ids map]; [by destruct (String.eqb id id')|].
  intros [Hr Hl]%NoDup_cons. destruct (String.eqb (q_requestId r) id) eqn:E.
  - apply String.eqb_eq in E. rewrite find_request_cons, E.
    destruct (String.eqb id id') eqn:E'; [|done].
    apply String.eqb_eq in E' as <-. apply find_request_none. by rewrite <-E.
  - rewrite !find_request_cons, IH by done. destruct (String.eqb (q_requestId r) id') eqn:E'; [|done].
    apply String.eqb_eq in E'. apply String.eqb_neq in E.
    destruct (String.eqb id id') eqn:E''; [|done]. apply String.eqb_eq in E''. congruence.
Qed.

Lemma remove_sublist id l : sublist (ids (remove_request id l)) (ids l).
Proof.
  induction l as [|r l IH]; cbn; [constructor|].
  destruct (String.eqb _ _); cbn; [by apply sublist_cons|by apply sublist_skip].
Qed.

(** ** Pruning *)

Lemma prune_find l id r :
  NoDup (ids l) -> find_request id (pruneSettled l) = Some r -> find_request id l = Some r.
Proof.
  intros Hnd. unfold pruneSettled. destruct (_ <=? _)%nat; [done|]. intros H.
  assert (Hid := find_request_id _ _ _ H). apply find_request_in in H.
  rewrite <-Hid. apply find_request_some; [done|].
  by apply list_elem_of_filter in H as [_ Hr].
Qed.

Lemma find_filter_keep (P : request -> Prop) {HD : forall r, Decision (P r)} l id r :
  find_request id l = Some r -> P r -> find_request id (filter P l) = Some r.
Proof.
  induction l as [|x l IH]; [done|]. rewrite find_request_cons. intros Hf HP.
  destruct (String.eqb (q_requestId x) id) eqn:E.
  - injection Hf as ->. rewrite filter_cons_True by done. by rewrite find_request_cons, E.
  - destruct (decide (P x)) as [Hx|Hx].
    + rewrite filter_cons_True by done. rewrite find_request_cons, E. auto.
    + rewrite filter_cons_False by done. auto.
Qed.

(** Unresolved records are never dropped. *)
Lemma prune_keeps_unresolved l id r :
  NoDup (ids l) -> find_request id l = Some r -> is_unresolved r = true ->
  find_request id (pruneSettled l) = Some r.
Proof.
  intros Hnd H Hu. unfold pruneSettled. destruct (_ <=? _)%nat; [done|].
  apply find_filter_keep; [done|]. intros Hin.
  apply list_elem_of_fmap in Hin as (s & Hs & Hin).
  assert (Hs' : s ∈ List.filter is_settled l).
  { eapply elem_of_sublist; [exact Hin|]. apply sublist_take. }
  rewrite list_elem_of_In, filter_In, <-list_elem_of_In in Hs'. destruct Hs' as [Hsl Hsettled].
  assert (s = r) as ->.
  { apply find_request_some in Hsl; [|done]. apply find_request_in in H as Hr.
    apply find_request_some in Hr; [|done]. congruence. }
  unfold is_settled, is_unresolved in *. by destruct (q_state r).
Qed.

Lemma prune_ids_NoDup l : NoDup (ids l) -> NoDup (ids (pruneSettled l)).
Proof.
  intros H. unfold pruneSettled. destruct (_ <=? _)%nat; [done|].
  eapply sublist_NoDup; [exact H|]. apply (fmap_sublist q_requestId), sublist_filter.
Qed.

Lemma prune_in l r : r ∈ pruneSettled l -> r ∈ l.
Proof.
  unfold pruneSettled. destruct (_ <=? _)%nat; [done|]. by intros [_ H]%list_elem_of_filter.
Qed.

(** ** Stored records *)

Section Ledger.
Context `{RepEnv}.

Definition valid_request (r : request) : Prop := isRepresentativeUuid (Some (JStr (q_requestId r))) = true.

Lemma state_of_name_name st : state_of_name (state_name st) = Some st.
Proof. by destruct st. Qed.

Lemma request_of_json_json r : valid_request r -> request_of_json (request_json r) = Some r.
Proof.
  intros Hv. destruct r as [id d k a st e m c u]. unfold valid_request in Hv. cbn in Hv.
  unfold request_of_json. cbn -[isRepresentativeUuid state_name state_of_name]. rewrite Hv.
  cbn -[isRepresentativeUuid state_name state_of_name]. rewrite state_of_name_name.
  destruct e, m; reflexivity.
Qed.

Lemma load_stored l :
  Forall valid_request l ->
  mapM (fun row : string * json => request_of_json (snd row)) (map (fun r => (q_requestId r, request_json r)) l) = Some l.
Proof.
  induction 1 as [|r l Hr Hl IH]; [done|]. cbn -[request_of_json request_json].
  rewrite request_of_json_json by done. cbn -[request_of_json request_json]. by rewrite IH.
Qed.

(** [db] binds worktree [wt] to [b] and holds the ledger [l] for it. *)
Record holds (wt : string) (b : binding) (l : list request) (db : rep_db) : Prop := {
  ho_row : exists o, forall now,
    currentBindingRow wt now db = (inr (Some (CurrentRow b (bindingFingerprint b) o)), db);
  ho_ledger : forall now, loadRequests (bindingFingerprint b) now db = (inr l, db);
  ho_ids : NoDup (ids l);
  ho_valid : Forall valid_request l
}.

Lemma currentBindingRow_frame wt now db db' :
  t_bindings db' = t_bindings db ->
  currentBindingRow wt now db' = (fst (currentBindingRow wt now db), db').
Proof.
  intros E. unfold currentBindingRow. rewrite E. destruct (t_bindings db !! wt); [|done].
  destruct (parseBinding _ _); [|done]. by destruct (String.eqb _ _).
Qed.

Lemma loadRequests_frame g now db db' :
  t_requests db' !! g = t_requests db !! g -> loadRequests g now db' = (fst (loadRequests g now db), db').
Proof. intros E. unfold loadRequests. rewrite E. by destruct (mapM _ _). Qed.

(** The tables this ledger is read from. *)
Definition same_ledger (db db' : rep_db) : Prop :=
  t_bindings db' = t_bindings db /\ t_requests db' = t_requests db.

Lemma holds_same wt b l db db' : same_ledger db db' -> holds wt b l db -> holds wt b l db'.
Proof.
  intros [Hb Hr] [(o & H1) H2 H3 H4]. split; [..|done|done].
  - exists o. intros now. by rewrite (currentBindingRow_frame _ _ db), H1.
  - intros now. rewrite (loadRequests_frame _ _ db) by (by rewrite Hr). by rewrite H2.
Qed.

Lemma holds_stored wt b l db l' :
  holds wt b l db -> NoDup (ids l') -> Forall valid_request l' ->
  holds wt b l' (set_requests <[bindingFingerprint b := map (fun r => (q_requestId r, request_json r)) l']> db).
Proof.
  intros [(o & H1) H2 H3 H4] Hn Hv. split; [..|done|done].
  - exists o. intros now. by rewrite (currentBindingRow_frame _ _ db), H1.
  - intros now. unfold loadRequests. cbn. rewrite lookup_insert_eq. cbn. by rewrite load_stored.
Qed.

Lemma readRequests_holds wt b l now db : holds wt b l db -> readRequests wt now db = (inr l, db).
Proof.
  intros [(o & H1) H2 _ _]. unfold readRequests, tx_bind. rewrite H1. cbn. apply H2.
Qed.

(** What a ledger transaction can do: nothing, or replace the current ledger by
    the pruned result of [op], which then is what the caller sees. *)
Lemma transactRequests_effect {T} wt b cur l (op : Z -> list request -> (js_error + T) * list request)
    skip now db r db' :
  holds wt cur l db -> worktree b = wt ->
  (forall t l', op now l = (inr t, l') -> Forall valid_request l') ->
  commit (transactRequests b op skip) now db = (r, db') ->
  (db' = db /\ forall t, r <> inr (Some t)) \/
  (exists t l', op now l = (inr t, l') /\ r = inr (Some t) /\
     NoDup (ids (pruneSettled l')) /\ holds wt cur (pruneSettled l') db').
Proof.
  intros Hh Hwt Hvalid. destruct Hh as [(o & Hrow) Hload Hids Hval] eqn:Eh. clear Eh.
  unfold commit, transactRequests, requireCurrentGeneration, tx_bind. rewrite Hwt, Hrow.
  cbn [cr_generation]. destruct (String.eqb _ _) eqn:E.
  2: { unfold tx_throw. destruct skip; cbn; intros [= <- <-]; left; (split; [done|]); intros t; done. }
  apply String.eqb_eq in E. cbn. rewrite <-E, Hload.
  destruct (op now l) as [[e|t] l'] eqn:Eop.
  { unfold tx_throw. intros [= <- <-]. left. split; [done|]. intros t; done. }
  specialize (Hvalid t l' eq_refl).
  assert (Hpv : Forall valid_request (pruneSettled l')).
  { rewrite Forall_forall in *. intros x Hx. by apply Hvalid, prune_in. }
  case_bool_decide as En.
  - cbn. intros [= <- <-]. right. exists t, l'. rewrite En. repeat split; eauto.
  - unfold storeRequests. case_bool_decide as Hn; cbn.
    + intros [= <- <-]. right. exists t, l'. split; [done|]. split; [done|]. split; [done|].
      apply (holds_stored _ _ l); [|done|done]. split; eauto.
    + intros [= <- <-]. left. split; [done|]. intros t'; done.
Qed.

(** ** Bindings *)

Lemma sameSelection_iff a b :
  sameSelection a b = true <->
  origin a = origin b /\ trustIdentity a = trustIdentity b /\ cubeId a = cubeId b /\
  representativeDroneId a = representativeDroneId b /\ coordinatorDroneId a = coordinatorDroneId b.
Proof.
  unfold sameSelection. rewrite !andb_true_iff, !String.eqb_eq. tauto.
Qed.

(** A valid binding reads back as itself. *)
Lemma parseBinding_json b :
  validBinding (binding_json b) (worktree b) = true -> parseBinding (binding_json b) (worktree b) = Some b.
Proof.
  intros Hv. unfold parseBinding. rewrite Hv. cbn [negb].
  destruct b as [wt o t c cn rd rl rr cd cl cr [ro|] ba]; reflexivity.
Qed.

Lemma holds_row wt b l db :
  holds wt b l db -> exists row, t_bindings db !! wt = Some row /\ br_generation row = bindingFingerprint b.
Proof.
  intros [(o & Hrow) _ _ _]. specialize (Hrow 0). unfold currentBindingRow in Hrow.
  destruct (t_bindings db !! wt) as [row|]; [|done]. exists row. split; [done|].
  destruct (parseBinding _ _) as [b'|]; [|done]. destruct (String.eqb _ _); [|done].
  by injection Hrow.
Qed.

(** Changes to the rows of other worktrees and generations. *)
Lemma holds_frame wt b l db db' :
  holds wt b l db ->
  t_bindings db' !! wt = t_bindings db !! wt ->
  (forall row, t_bindings db !! wt = Some row ->
     t_requests db' !! br_generation row = t_requests db !! br_generation row) ->
  holds wt b l db'.
Proof.
  intros Hh Hb Hr. destruct (holds_row _ _ _ _ Hh) as (row & Hrow & Hg).
  destruct Hh as [(o & H1) H2 H3 H4]. split; [..|done|done].
  - exists o. intros now. specialize (H1 now). unfold currentBindingRow in *. rewrite Hb.
    destruct (t_bindings db !! wt); [|done]. destruct (parseBinding _ _); [|done].
    destruct (String.eqb _ _); [|done]. injection H1 as <- <- <-. done.
  - intros now. rewrite (loadRequests_frame _ _ db), H2; [done|]. rewrite <-Hg. by apply Hr.
Qed.

(** The row a rebind writes. *)
Lemma insertBindingRow_ok b seat o now db db' :
  insertBindingRow b seat o now db = (inr tt, db') ->
  db' = set_bindings <[worktree b := BindingRow (bindingFingerprint b) seat o (binding_json b)]> db.
Proof.
  unfold insertBindingRow, tx_bind, tx_read. destruct (holder_of _ db).
  - by destruct (String.eqb _ _).
  - destruct (bool_decide _); [done|]. by intros [= <-].
Qed.

Lemma bound_holds b seat o l db :
  validBinding (binding_json b) (worktree b) = true ->
  NoDup (ids l) -> Forall valid_request l ->
  t_requests db !! bindingFingerprint b = Some (map (fun r => (q_requestId r, request_json r)) l) \/
    (t_requests db !! bindingFingerprint b = None /\ l = []) ->
  t_bindings db !! worktree b = Some (BindingRow (bindingFingerprint b) seat o (binding_json b)) ->
  holds (worktree b) b l db.
Proof.
  intros Hv Hn Hval Hreq Hrow. split; [..|done|done].
  - exists o. intros now. unfold currentBindingRow. rewrite Hrow. cbn [br_binding br_generation br_origin].
    by rewrite parseBinding_json, String.eqb_refl.
  - intros now. unfold loadRequests. destruct Hreq as [->|[-> ->]]; [|done]. cbn. by rewrite load_stored.
Qed.

(** Confirming the same selection again keeps the ledger. *)
Lemma saveBinding_rebound wt cur l b now db db' :
  holds wt cur l db -> sameSelection cur b = true -> worktree b = wt ->
  t_requests db !! bindingFingerprint b = None ->
  commit (saveBinding b true) now db = (inr Rebound, db') ->
  holds wt b l db'.
Proof.
  intros Hh Hsel Hwt Hnew Hc. apply (proj1 (commit_ok _ _ _ _ _)) in Hc. destruct Hh as [(o & Hrow) Hload Hids Hval].
  unfold saveBinding in Hc. destruct (validBinding _ _) eqn:Hv; cbn [negb] in Hc; [|done].
  unfold tx_bind, tx_write in Hc. cbv beta in Hc. rewrite Hwt, Hrow in Hc. cbn [cr_binding cr_generation] in Hc.
  rewrite Hsel in Hc. cbn [negb andb] in Hc. rewrite Hload in Hc.
  destruct (insertBindingRow b _ _ _ _) as [[e|[]] db1] eqn:Hins; [done|].
  apply insertBindingRow_ok in Hins as ->. rewrite <-Hwt.
  destruct l as [|r l].
  - injection Hc as <-. eapply bound_holds; [done|done|done|right|].
    + cbn. done.
    + cbn. by rewrite Hwt, lookup_insert_eq.
  - unfold storeRequests in Hc. rewrite bool_decide_eq_true_2 in Hc by done.
    injection Hc as <-. eapply bound_holds; [done|done|done|left|].
    + cbn. by rewrite lookup_insert_eq.
    + cbn. by rewrite Hwt, lookup_insert_eq.
Qed.
End Ledger.
