(* ===== verification/RepProtocol.v ===== *)
(** * Concurrent representative connections

    Any number of host processes call the representative's tools on one state
    database.  This file is the world they share - the database, the server's
    log of the posts made through it, the ids whose success the ledger has
    recorded - the abstract system of flights (a request id reserved, posted,
    settled) and the proof that every tool call is simulated by it. *)

From S2P Require Import Prelude JsDate JsonText Effects Sha256 RepDb RepCore RepSend RepRead RepDeliveryFacts RepLedger.

Open Scope Z_scope.
Open Scope tx_scope.
Open Scope prog_scope.

(** ** Transactions that leave the ledger alone *)

Definition keeps_ledger {A} (body : tx A) : Prop :=
  forall now db, same_ledger db (snd (body now db)).

Lemma same_ledger_refl db : same_ledger db db.
Proof. by split. Qed.

Lemma same_ledger_trans a b c : same_ledger a b -> same_ledger b c -> same_ledger a c.
Proof. intros [H1 H2] [H3 H4]. split; congruence. Qed.

Lemma keeps_same {A} (body : tx A) : (forall now db, snd (body now db) = db) -> keeps_ledger body.
Proof. intros H now db. rewrite H. apply same_ledger_refl. Qed.

Lemma keeps_bind {A B} (m : tx A) (f : A -> tx B) :
  keeps_ledger m -> (forall a, keeps_ledger (f a)) -> keeps_ledger (tx_bind m f).
Proof.
  intros Hm Hf now db. unfold tx_bind. specialize (Hm now db).
  destruct (m now db) as [[e|a] db1]; simpl in *; [done|].
  eapply same_ledger_trans; [exact Hm|apply Hf].
Qed.

Lemma keeps_write f :
  (forall db, t_bindings (f db) = t_bindings db) -> (forall db, t_requests (f db) = t_requests db) ->
  keeps_ledger (tx_write f).
Proof. intros H1 H2 now db. split; [apply H1|apply H2]. Qed.

Create HintDb ledger.
#[export] Hint Resolve keeps_bind : ledger.
#[export] Hint Extern 1 (keeps_ledger (tx_ret _)) => apply keeps_same; reflexivity : ledger.
#[export] Hint Extern 1 (keeps_ledger (tx_throw _)) => apply keeps_same; reflexivity : ledger.
#[export] Hint Extern 1 (keeps_ledger (tx_read _)) => apply keeps_same; reflexivity : ledger.
#[export] Hint Extern 2 (keeps_ledger (tx_write _)) => apply keeps_write; reflexivity : ledger.

Ltac ledger_cases :=
  repeat first
    [ progress auto with ledger
    | apply keeps_bind; [|intros]
    | match goal with |- keeps_ledger (match ?x with _ => _ end) => destruct x end ].

Section Neutral.
Context `{RepEnv}.

Lemma currentBindingRow_keeps wt : keeps_ledger (currentBindingRow wt).
Proof.
  apply keeps_same. intros now db. unfold currentBindingRow. destruct (t_bindings db !! wt); [|done].
  destruct (parseBinding _ _); [|done]. by destruct (String.eqb _ _).
Qed.

#[local] Hint Resolve currentBindingRow_keeps : ledger.

Lemma requireCurrentGeneration_keeps b : keeps_ledger (requireCurrentGeneration b).
Proof. unfold requireCurrentGeneration. ledger_cases. Qed.

Lemma require_current_row_keeps b : keeps_ledger (require_current_row b).
Proof. unfold require_current_row. ledger_cases. Qed.

#[local] Hint Resolve requireCurrentGeneration_keeps require_current_row_keeps : ledger.

Lemma ensure_row_keeps b : keeps_ledger (ensure_row b).
Proof. unfold ensure_row, insert_delivery. ledger_cases. Qed.

Lemma resolve_head_keeps b head : keeps_ledger (resolve_head b head).
Proof. unfold resolve_head. ledger_cases. Qed.

Lemma write_keeps g st : keeps_ledger (write g st).
Proof. unfold write, update_delivery, insert_returned. ledger_cases. Qed.

#[local] Hint Resolve write_keeps : ledger.

Lemma read_snapshot_keeps b : keeps_ledger (read_snapshot b).
Proof. unfold read_snapshot. ledger_cases. Qed.

Lemma read_widen_keeps b window : keeps_ledger (read_widen b window).
Proof. unfold read_widen, widenReadWindow. ledger_cases. Qed.

Lemma deliver_tx_keeps b p : keeps_ledger (deliver_tx b p).
Proof. unfold deliver_tx, advanceCheckpoint. ledger_cases. Qed.
End Neutral.

(** ** The shared world *)

(** [rw_log] maps the post ids this worktree's connections used to the message
    the server stored first under each; [rw_confirmed] holds the ids whose
    success answer reached a call.  [rw_minted] holds the ids drawn so far and
    [rw_seen] those the ledger has listed at some time. *)
Record rworld := RWorld {
  rw_db : rep_db;
  rw_log : gmap string string;
  rw_confirmed : gset string;
  rw_minted : gset string;
  rw_seen : gset string
}.

Section World.
Context `{RepEnv}.
Variable wt : string.

(** The ids [randomUUID] can draw in this run. *)
Variable random_id : string -> Prop.

Definition listed (db : rep_db) : gset string :=
  match readRequests wt 0 db with (inr l, _) => list_to_set (ids l) | _ => ∅ end.

Definition with_db (w : rworld) (db : rep_db) : rworld :=
  RWorld db (rw_log w) (rw_confirmed w) (rw_minted w) (rw_seen w ∪ listed db).

(** The server keeps the first message under a post id. *)
Definition store (p m : string) (w : rworld) : rworld :=
  RWorld (rw_db w) (match rw_log w !! p with Some _ => rw_log w | None => <[p := m]> (rw_log w) end)
    (rw_confirmed w) (rw_minted w) (rw_seen w).

Definition confirm (p : string) (w : rworld) : rworld :=
  RWorld (rw_db w) (rw_log w) ({[p]} ∪ rw_confirmed w) (rw_minted w) (rw_seen w).

Definition mint (p : string) (w : rworld) : rworld :=
  RWorld (rw_db w) (rw_log w) (rw_confirmed w) ({[p]} ∪ rw_minted w) (rw_seen w).

(** A typed refusal: the classification does not depend on the binding. *)
Definition definite (e : js_error) : bool :=
  af_definite (classifyAppendFailure e (Binding "" "" "" "" "" "" "" "" "" "" "" None "")).

Lemma definite_any e b : af_definite (classifyAppendFailure e b) = definite e.
Proof.
  unfold definite, classifyAppendFailure. cbv zeta.
  repeat match goal with
  | |- af_definite (if ?c then _ else _) = _ => destruct c; [reflexivity|]
  end; try reflexivity.
  all: destruct (instance_of "BorgServerHttpError" e);
    [by destruct ((400 <=? default 0 (status_of e)) && (default 0 (status_of e) <? 500))|].
  all: destruct (instance_of "BorgServerUnreachableError" e); [reflexivity|].
  all: destruct (instance_of "BorgProtocolMismatchError" e || instance_of "ProtocolContractError" e); [reflexivity|].
  all: by destruct (instance_of "BorgServerTrustError" e).
Qed.

(** What an operation may answer and do.  A transaction commits or is refused
    by the database (busy, I/O).  A post that is answered is stored; one refused
    with a typed error is not, since the backend makes a single attempt; after
    any other failure it may be either.  A drawn UUID is a UUID that was neither
    drawn nor listed before.  The other calls answer anything and change nothing
    here. *)
Definition act (X : Type) (op : rep_op X) : rworld -> X -> rworld -> Prop :=
  match op in rep_op X return rworld -> X -> rworld -> Prop with
  | Transact body => fun w x w' =>
      (exists now, x = fst (commit body now (rw_db w)) /\ w' = with_db w (snd (commit body now (rw_db w)))) \/
      (exists e, x = inl e /\ w' = w)
  | ReadOnly body => fun w x w' => w' = w
  | Append p m _ => fun w x w' =>
      match x with
      | inr _ => w' = confirm p (store p m w)
      | inl e => if definite e then w' = w else w' = w \/ w' = store p m w
      end
  | RandomUUID => fun w x w' =>
      isRepresentativeUuid (Some (JStr x)) = true /\ random_id x /\
      x ∉ rw_minted w /\ x ∉ rw_seen w /\ w' = mint x w
  | Whoami | RosterCall | ReadAfter _ _ | ReadEntry _ | AckCall _ => fun w _ w' => w' = w
  end.

(** ** The tools over any abstract system

    [harmless s body]: committing [body] is a step from [s] to itself.  A tool
    whose transactions are harmless is simulated; the read's last transaction
    need only be so for a window in log order. *)
Definition ends {A T} (_ : A) (_ : T) : Prop := True.

Section Tools.
Context {T : Type}.
Variable step : T -> rworld -> T -> rworld -> Prop.
Hypothesis step_refl : forall s w, step s w s w.

Local Abbreviation tsim := (simulates act step).

Definition harmless {A} (s : T) (body : tx A) : Prop :=
  forall now w, step s w s (with_db w (snd (commit body now (rw_db w)))).

Lemma tool_transact {A} s (body : tx A) Q R :
  harmless s body -> (forall a, Q a s) -> (forall e, R e s) -> tsim s (transact body) Q R.
Proof.
  intros Hk HQ HR. apply simulates_perform. intros w x w' [(now & -> & ->)|(e & -> & ->)].
  - exists s. split; [apply Hk|destruct (fst _); auto].
  - exists s. split; [apply step_refl|auto].
Qed.

(** A call whose answer changes nothing of this world. *)
Lemma tool_query {X} s (op : rep_op (js_error + X)) Q R :
  (forall w x w', act _ op w x w' -> w' = w) -> (forall a, Q a s) -> (forall e, R e s) ->
  tsim s (perform op) Q R.
Proof.
  intros Hop HQ HR. apply simulates_perform. intros w x w' Ha. rewrite (Hop _ _ _ Ha).
  exists s. split; [apply step_refl|destruct x; auto].
Qed.

Lemma tool_of_sum {A} s (r : js_error + A) (Q : A -> T -> Prop) (R : js_error -> T -> Prop) :
  (forall a, r = inr a -> Q a s) -> (forall e, R e s) -> tsim s (of_sum r) Q R.
Proof. intros HQ HR. destruct r; simpl; auto. Qed.

Lemma tool_verify s b Q R :
  (forall a, Q a s) -> (forall e, R e s) -> tsim s (verifyLiveBinding b) Q R.
Proof.
  intros HQ HR. apply simulates_bind, tool_query; [by intros ? ? ? ->| |done]. intros me.
  destruct (negb _ || negb _); [apply HR|].
  apply simulates_bind, tool_query; [by intros ? ? ? ->| |done]. intros r. apply tool_of_sum; auto.
Qed.

Lemma tool_head_pages s n cursor Q R :
  (forall a, Q a s) -> (forall e, R e s) -> tsim s (head_pages n cursor) Q R.
Proof.
  intros HQ HR. revert cursor. induction n as [|n IH]; intros cursor; cbn [head_pages]; [apply HQ|].
  apply simulates_bind, tool_query; [by intros ? ? ? ->| |done]. intros pg.
  destruct (_ || _); [apply HQ|apply IH].
Qed.

(** The transactions every tool starts with. *)
Definition harmless_start (s : T) : Prop :=
  (forall b, harmless s (ensure_row b)) /\ (forall b head, harmless s (resolve_head b head)).

Lemma tool_ensure s b Q R :
  harmless_start s -> Q tt s -> (forall e, R e s) -> tsim s (ensureRepresentativeState b) Q R.
Proof.
  intros [H1 H2] HQ HR. apply simulates_bind, tool_transact; [done| |done].
  intros pending. destruct (negb pending); [apply HQ|].
  apply simulates_bind, tool_head_pages; [|done]. intros head.
  apply tool_transact; [done|by intros []|done].
Qed.

Lemma tool_scan_pages s n b requestIds ib limit floor cursor sc Q R :
  scan_ok limit floor sc -> (length (sc_candidates sc) <= limit)%nat ->
  (forall r, (forall sc', r = Some sc' -> scan_ok limit floor sc') -> Q r s) -> (forall e, R e s) ->
  tsim s (scan_pages n b requestIds ib limit cursor sc) Q R.
Proof.
  intros Hok Hlim HQ HR. revert cursor sc Hok Hlim. induction n as [|n IH]; intros cursor sc Hok Hlim; [by apply HQ|].
  cbn [scan_pages]. apply simulates_bind, tool_query; [by intros ? ? ? ->| |done]. intros pg.
  destruct (scan_entries_ok b requestIds ib limit floor sc (pg_entries pg) Hok Hlim) as [H1 H2].
  destruct (scan_entries _ _ _ _ _ _) as [sc1|sc1]; cbn in H1.
  2: { apply HQ. by intros ? [= <-]. }
  assert (Hret : tsim s (Ret (Some sc1)) Q R) by (apply HQ; by intros ? [= <-]).
  destruct (page_tail pg); [|done]. destruct (has_more pg); [|done]. apply IH; auto.
Qed.

Lemma tool_read s fuel b raw :
  harmless_start s -> harmless s (read_snapshot b) ->
  (forall window, ends_with_last window -> harmless s (read_widen b window)) ->
  tsim s (readRepresentativeReplies fuel b raw) ends ends.
Proof.
  intros Hstart Hsnap Hwiden.
  unfold readRepresentativeReplies. apply simulates_bind, tool_of_sum; [|done]. intros opts _.
  apply simulates_bind, tool_verify; [|done]. intros _. apply simulates_bind, tool_ensure; [done| |done].
  apply simulates_bind, tool_transact; [done| |done]. intros [st ids].
  apply simulates_bind, tool_of_sum; [|done]. intros [cursor floor] _.
  apply simulates_bind, (tool_scan_pages _ _ _ _ _ _ floor); [apply scan_start_ok|cbn; lia| |done].
  intros [sc|] Hsc; [|done]. specialize (Hsc sc eq_refl).
  apply simulates_bind, tool_of_sum; [|done]. intros final _.
  apply simulates_bind, tool_transact; [|done|done]. apply Hwiden.
  by eapply scan_window_ends.
Qed.

Lemma tool_deliver s b raw :
  harmless_start s -> (forall p, harmless s (deliver_tx b p)) ->
  tsim s (deliverRepresentativeReplies b raw) ends ends.
Proof.
  intros Hstart Hdel. unfold deliverRepresentativeReplies. destruct (unknown_fields _ _); [|done].
  destruct (jget _ _) as [[| | | |through| |]|]; try done. destruct (negb _); [done|].
  apply simulates_bind, tool_verify; [|done]. intros _. apply simulates_bind, tool_ensure; [done| |done].
  apply simulates_bind, simulates_attempt, tool_query; [by intros ? ? ? ->| |done]. intros e.
  destruct (_ || _); [done|]. by apply tool_transact.
Qed.

Lemma tool_ack s b raw : harmless_start s -> tsim s (ackRepresentativeReply b raw) ends ends.
Proof.
  intros Hstart. unfold ackRepresentativeReply. destruct (unknown_fields _ _); [|done].
  destruct (jget _ _) as [[| | | |entryId| |]|]; try done. destruct (negb _); [done|].
  apply simulates_bind, tool_verify; [|done]. intros _. apply simulates_bind, tool_ensure; [done| |done].
  apply simulates_bind, tool_query; [by intros ? ? ? ->| |done]. intros e. destruct (_ || _); [done|].
  by apply simulates_bind, tool_query; [intros ? ? ? ->| |].
Qed.

Lemma tool_status s b : tsim s (representativeStatus b) ends ends.
Proof.
  unfold representativeStatus. apply simulates_bind, simulates_attempt, tool_verify.
  - intros v. by apply simulates_bind, simulates_attempt, tool_query; [intros ? ? ? ->| |].
  - intros e. by apply simulates_bind, simulates_attempt, tool_query; [intros ? ? ? ->| |].
Qed.
End Tools.

(** ** Flights *)

(** What is known of a flight's post: not made, refused, of unknown outcome, or
    confirmed. *)
Inductive phase := Ready | Refused | Unknown | Confirmed.

(** A call: before its id is known, with an id (drawn or supplied), in flight,
    over. *)
Inductive stage :=
| Idle
| Chosen (p : string) (drawn : bool)
| Flight (b : binding) (i : send_input) (p : string) (prior : option request_state) (ph : phase)
| Over.

(** A call of a binding of this worktree for this content under this id. *)
Record call_for (b0 b : binding) (i : send_input) (p : string) (drawn : bool) : Prop := {
  cf_selection : sameSelection b b0 = true;
  cf_worktree : worktree b = wt;
  cf_uuid : isRepresentativeUuid (Some (JStr p)) = true;
  cf_id : si_request_id i = if drawn then None else Some p
}.

Definition reserve_tx (b : binding) (i : send_input) (p : string) : tx (option reservation) :=
  transactRequests b (reserve i p (payloadDigest b i)) false.
Definition release_tx (b : binding) (p : string) (prior : option request_state) : tx (option unit) :=
  transactRequests b (release p prior) true.
Definition settle_tx (b : binding) (i : send_input) (p : string) (st : request_state) (entry : option string)
    : tx (option request_state) :=
  transactRequests b (settle p (payloadDigest b i) i st entry) true.

Variable b0 : binding.

(** The settlement a phase calls for. *)
Definition settlement (ph : phase) : option request_state :=
  match ph with Ready => None | Refused => Some Rejected | Unknown => Some Ambiguous | Confirmed => Some Sent end.

Inductive flight_step : stage -> rworld -> stage -> rworld -> Prop :=
| fs_neutral s w db' :
    same_ledger (rw_db w) db' -> flight_step s w s (with_db w db')
| fs_nothing s w : flight_step s w s w
| fs_drawn p w :
    random_id p -> p ∉ rw_minted w -> p ∉ rw_seen w ->
    flight_step Idle w (Chosen p true) (mint p w)
| fs_reserved b i p drawn prior now w db' :
    call_for b0 b i p drawn ->
    commit (reserve_tx b i p) now (rw_db w) = (inr (Some (Reserved prior)), db') ->
    flight_step (Chosen p drawn) w (Flight b i p prior Ready) (with_db w db')
| fs_refused b i p drawn now w r db' :
    call_for b0 b i p drawn ->
    commit (reserve_tx b i p) now (rw_db w) = (r, db') ->
    (forall prior, r <> inr (Some (Reserved prior))) ->
    flight_step (Chosen p drawn) w Over (with_db w db')
| fs_released b i p prior now w r db' :
    commit (release_tx b p prior) now (rw_db w) = (r, db') ->
    flight_step (Flight b i p prior Ready) w Over (with_db w db')
| fs_stored b i p prior w :
    flight_step (Flight b i p prior Ready) w (Flight b i p prior Unknown)
      (store p (formatRepresentativeMessage b p i) w)
| fs_confirmed b i p prior w :
    flight_step (Flight b i p prior Ready) w (Flight b i p prior Confirmed)
      (confirm p (store p (formatRepresentativeMessage b p i) w))
| fs_unstored b i p prior ph w :
    ph = Refused \/ ph = Unknown ->
    flight_step (Flight b i p prior Ready) w (Flight b i p prior ph) w
| fs_settled b i p prior ph st entry now w r db' :
    settlement ph = Some st ->
    commit (settle_tx b i p st entry) now (rw_db w) = (r, db') ->
    flight_step (Flight b i p prior ph) w Over (with_db w db').

(** ** Every tool call is simulated *)

Local Abbreviation sim := (simulates act flight_step).

Lemma keeps_harmless {A} s (body : tx A) : keeps_ledger body -> harmless flight_step s body.
Proof.
  intros Hk now w. constructor. unfold commit. specialize (Hk now (rw_db w)).
  destruct (body now (rw_db w)) as [[e|a] db']; [apply same_ledger_refl|done].
Qed.

Lemma flight_start s : harmless_start flight_step s.
Proof. split; intros; apply keeps_harmless; [apply ensure_row_keeps|apply resolve_head_keeps]. Qed.

Lemma sim_settle b i p prior ph st entry {B} (f : option request_state -> rep B) (Q : B -> stage -> Prop) :
  settlement ph = Some st ->
  (forall r s, sim s (f r) Q ends) ->
  sim (Flight b i p prior ph) (pbind (transact (settle_tx b i p st entry)) f) Q ends.
Proof.
  intros Hst Hf. apply simulates_bind, simulates_perform. intros w x w' [(now & -> & ->)|(e' & -> & ->)].
  - exists Over. split; [by eapply fs_settled, surjective_pairing|].
    destruct (fst (commit _ now (rw_db w))); [exact I|apply Hf].
  - exists (Flight b i p prior ph). split; [apply fs_nothing|exact I].
Qed.

Lemma sim_post_and_settle b i p prior :
  sim (Flight b i p prior Ready)
    (post_and_settle b i p (formatRepresentativeMessage b p i) (payloadDigest b i) prior) ends ends.
Proof.
  unfold post_and_settle. apply simulates_bind, simulates_attempt, tool_verify; [apply fs_nothing|..].
  - (* verified: post *)
    intros _. apply simulates_bind, simulates_attempt, simulates_perform.
    intros w x w' Ha. cbn in Ha. destruct x as [e|result].
    + destruct (af_definite (classifyAppendFailure e b)) eqn:Ed; rewrite definite_any in Ed; rewrite Ed in Ha.
      * subst w'. exists (Flight b i p prior Refused). split; [by constructor; left|].
        by apply sim_settle.
      * exists (Flight b i p prior Unknown).
        split; [destruct Ha as [-> | ->]; [by constructor; right|constructor]|].
        by apply sim_settle.
    + subst w'. exists (Flight b i p prior Confirmed). split; [constructor|]. by apply sim_settle.
  - (* not verified: release *)
    intros e. apply simulates_bind, simulates_perform. intros w1 y w1' [(now & -> & ->)|(e' & -> & ->)].
    + exists Over. split; [|destruct (fst (commit _ now (rw_db w1))); exact I].
      eapply fs_released. apply surjective_pairing.
    + exists (Flight b i p prior Ready). split; [apply fs_nothing|done].
Qed.

(** The UUID decoder ignores the case of the digits (RFC 9562). *)
Definition uuid_case_insensitive : Prop := forall s,
  isRepresentativeUuid (Some (JStr s)) = true -> isRepresentativeUuid (Some (JStr (to_lower s))) = true.

Lemma validateSendInput_id raw i p :
  uuid_case_insensitive -> validateSendInput raw = inr i -> si_request_id i = Some p ->
  isRepresentativeUuid (Some (JStr p)) = true.
Proof.
  intros Hci. unfold validateSendInput.
  destruct (is_object raw); cbn [negb]; [|done]. destruct (unknown_fields _ _); [|done].
  destruct (kind_of _) as [k|]; [|done]. destruct (authorization_of _) as [a|]; [|done].
  destruct (jget "message" raw) as [[| | | |msg| |]|]; try done.
  destruct (String.eqb _ _); [done|]. destruct (_ <? _)%nat; [done|].
  destruct (request_id_ok _) eqn:Hid; cbn [negb]; [|done].
  intros Hi Hp.
  assert (Hsi : si_request_id i = to_lower <$> jstr (jget "request_id" raw)).
  { destruct k, a; by simplify_eq/=. }
  rewrite Hsi in Hp. unfold request_id_ok in Hid.
  destruct (jget "request_id" raw) as [[| | | |id| |]|]; cbn in Hp; simplify_eq. by apply Hci.
Qed.

(** The id a call supplies. *)
Definition supplied (raw : json) : option string := to_lower <$> jstr (jget "request_id" raw).

Definition first_stage (raw : json) : stage :=
  match supplied raw with Some p => Chosen p false | None => Idle end.

Lemma validateSendInput_supplied raw i : validateSendInput raw = inr i -> si_request_id i = supplied raw.
Proof.
  unfold validateSendInput.
  destruct (is_object raw); cbn [negb]; [|done]. destruct (unknown_fields _ _); [|done].
  destruct (kind_of _) as [k|]; [|done]. destruct (authorization_of _) as [a|]; [|done].
  destruct (jget "message" raw) as [[| | | |msg| |]|]; try done.
  destruct (String.eqb _ _); [done|]. destruct (_ <? _)%nat; [done|].
  destruct (negb (request_id_ok _)); [done|]. intros Hi. destruct k, a; by simplify_eq/=.
Qed.

Lemma sim_reserve b i p drawn :
  call_for b0 b i p drawn ->
  sim (Chosen p drawn)
    (match decodeAppendLogRequest p (formatRepresentativeMessage b p i) [coordinatorDroneId b] with
     | Some e => Throw (invalid_input ("The message cannot be sent as written: " +:+ boundedMessage e))
     | None =>
         do! ensureRepresentativeState b;
         let! reserved := transact (reserve_tx b i p) in
         match reserved with
         | Some (Reserved prior) =>
             post_and_settle b i p (formatRepresentativeMessage b p i) (payloadDigest b i) prior
         | Some (AlreadySent entryId) =>
             Ret (SendResult OutcomeSent p entryId (Some true) (Some true)
               (coordinatorDroneId b, coordinatorLabel b) None None None)
         | None => Throw (JsError "Cannot read properties of undefined (reading 'kind')")
         end
     end) ends ends.
Proof.
  intros Hcall. destruct (decodeAppendLogRequest _ _ _); [done|].
  apply simulates_bind, tool_ensure; [apply fs_nothing|apply flight_start| |done].
  apply simulates_bind, simulates_perform.
  intros w x w' [(now & -> & ->)|(e' & -> & ->)];
    [|exists (Chosen p drawn); split; [apply fs_nothing|done]].
  assert (Hover : (forall prior, fst (commit (reserve_tx b i p) now (rw_db w)) <> inr (Some (Reserved prior))) ->
    flight_step (Chosen p drawn) w Over (with_db w (snd (commit (reserve_tx b i p) now (rw_db w))))).
  { intros Hr. eapply fs_refused; [done|apply surjective_pairing|exact Hr]. }
  destruct (fst (commit (reserve_tx b i p) now (rw_db w))) as [e|[[entryId|prior]|]] eqn:Er.
  - exists Over. split; [by apply Hover|done].
  - exists Over. split; [by apply Hover|done].
  - exists (Flight b i p prior Ready). split; [|apply sim_post_and_settle].
    eapply fs_reserved; [done|]. rewrite <-Er. apply surjective_pairing.
  - exists Over. split; [by apply Hover|done].
Qed.

Lemma sim_sendOnce b raw :
  uuid_case_insensitive -> sameSelection b b0 = true -> worktree b = wt ->
  sim (first_stage raw) (sendOnce b raw) ends ends.
Proof.
  intros Hci Hsel Hwt. unfold sendOnce. apply simulates_bind, tool_of_sum; [|done].
  intros i Hi. cbv zeta. unfold first_stage.
  assert (Hid := validateSendInput_supplied raw i Hi). rewrite <-Hid.
  destruct (si_request_id i) as [p|] eqn:Eid.
  - apply (sim_reserve b i p false). split; [done|done| |done]. by eapply validateSendInput_id.
  - apply simulates_bind. intros w x w' (Hx & Hr & Hm & Hs & ->).
    exists (Chosen x true). split; [by constructor|]. by apply (sim_reserve b i x true).
Qed.

(** A tool call of a host process, its result discarded. *)
Definition discard {A} (p : rep A) : rep unit := let! _ := p in Ret tt.

(** A host supplies an id this tool returned, which the ledger has listed, or
    one of its own making. *)
Inductive host_call : rworld -> rep unit -> Prop :=
| call_send w b raw :
    sameSelection b b0 = true -> worktree b = wt ->
    (forall p, supplied raw = Some p -> p ∈ rw_seen w \/ ~ random_id p) ->
    host_call w (discard (sendOnce b raw))
| call_read w fuel b raw : host_call w (discard (readRepresentativeReplies fuel b raw))
| call_deliver w b raw : host_call w (discard (deliverRepresentativeReplies b raw))
| call_ack w b raw : host_call w (discard (ackRepresentativeReply b raw))
| call_status w b : host_call w (discard (representativeStatus b)).

Definition initial_stage (w : rworld) (s : stage) : Prop :=
  s = Idle \/ exists p, s = Chosen p false /\ (p ∈ rw_seen w \/ ~ random_id p).

Lemma host_call_simulated w p :
  uuid_case_insensitive -> host_call w p ->
  exists s, initial_stage w s /\ sim s p (fun _ _ => True) (fun _ _ => True).
Proof.
  intros Hci Hp.
  assert (Hdiscard : forall A s (q : rep A) Q, sim s q Q ends ->
    sim s (discard q) (fun _ _ => True) (fun _ _ => True)).
  { intros A s q Q Hq. apply simulates_bind. by eapply simulates_mono. }
  destruct Hp as [w b raw Hsel Hwt Hid| | | |].
  - exists (first_stage raw). split; [|by eapply Hdiscard, sim_sendOnce].
    unfold first_stage, initial_stage. destruct (supplied raw) as [p|]; [|by left].
    right. exists p. split; [done|]. by apply Hid.
  - exists Idle. split; [by left|]. eapply Hdiscard, tool_read; [apply fs_nothing|apply flight_start|..].
    + apply keeps_harmless, read_snapshot_keeps.
    + intros window _. apply keeps_harmless, read_widen_keeps.
  - exists Idle. split; [by left|]. eapply Hdiscard, tool_deliver; [apply fs_nothing|apply flight_start|].
    intros p. apply keeps_harmless, deliver_tx_keeps.
  - exists Idle. split; [by left|]. eapply Hdiscard, tool_ack; [apply fs_nothing|apply flight_start].
  - exists Idle. split; [by left|]. eapply Hdiscard, tool_status; apply fs_nothing.
Qed.

(** The operator confirms the same selection again - a new generation with the
    ledger carried over - or another process changes rows that are not this
    worktree's. *)
Inductive outside : rworld -> rworld -> Prop :=
| out_rebind b now w db' :
    sameSelection b b0 = true -> worktree b = wt ->
    t_requests (rw_db w) !! bindingFingerprint b = None ->
    commit (saveBinding b true) now (rw_db w) = (inr Rebound, db') ->
    outside w (with_db w db')
| out_other w db' :
    t_bindings db' !! wt = t_bindings (rw_db w) !! wt ->
    (forall row, t_bindings (rw_db w) !! wt = Some row ->
       t_requests db' !! br_generation row = t_requests (rw_db w) !! br_generation row) ->
    outside w (with_db w db').

Definition reachable (w0 : rworld) (ps : list (rep unit)) (w : rworld) : Prop :=
  rtc (pool_moves act host_call outside) ([], w0) (ps, w).

Lemma reachable_flights w0 ps w :
  uuid_case_insensitive -> reachable w0 ps w ->
  exists ss, rtc (abstract_moves flight_step outside initial_stage) ([], w0) (ss, w).
Proof.
  intros Hci Hr.
  destruct (pool_simulation act flight_step host_call outside initial_stage [] w0 ps w [])
    as (ss & Hss & _); [|constructor|done|by exists ss].
  intros w1 p Hp. by apply host_call_simulated.
Qed.
End World.
