(* ===== verification/RepInvariant.v ===== *)
(** * The flight invariant

    What holds of the ledger, the server's log and the flights in every state the
    representative's processes can reach.  The invariant is stated per post id;
    a step of one call concerns one id and leaves the others' part alone. *)

From S2P Require Import Prelude JsDate JsonText Effects Sha256 RepDb RepCore RepSend RepRead.
From S2P Require Import RepLedger RepProtocol.

Open Scope Z_scope.

Section Invariant.
Context `{RepEnv}.
Variable wt : string.
Variable random_id : string -> Prop.
Variable b0 : binding.

Lemma payloadDigest_selection b b' i : sameSelection b b' = true -> payloadDigest b i = payloadDigest b' i.
Proof.
  unfold sameSelection. intros Hs. bool_to_prop.
  repeat match goal with Hx : String.eqb _ _ = true |- _ => apply String.eqb_eq in Hx end.
  unfold payloadDigest. congruence.
Qed.

(** ** One post id *)

(** While no success of [p] has reached a call: a stored post has an unresolved
    record with its content; so has every flight; two flights, or a flight that
    found the id unresolved, have marked the record; and an unmarked record's
    stored post is the flight's own. *)
Record id_ok (p : string) (ss : list stage) (l : list request) (log : gmap string string) : Prop := {
  io_log : forall m, log !! p = Some m -> exists b i r,
    sameSelection b b0 = true /\ m = formatRepresentativeMessage b p i /\
    find_request p l = Some r /\ is_unresolved r = true /\ q_payloadDigest r = payloadDigest b i;
  io_flight : forall j b i prior ph, ss !! j = Some (Flight b i p prior ph) -> exists r,
    find_request p l = Some r /\ is_unresolved r = true /\ q_payloadDigest r = payloadDigest b i;
  io_two : forall j k b i prior ph b' i' prior' ph' r, j <> k ->
    ss !! j = Some (Flight b i p prior ph) -> ss !! k = Some (Flight b' i' p prior' ph') ->
    find_request p l = Some r -> q_maybeStored r = Some true;
  io_prior : forall j b i prior ph r, ss !! j = Some (Flight b i p prior ph) ->
    prior = Some Pending \/ prior = Some Ambiguous ->
    find_request p l = Some r -> q_maybeStored r = Some true;
  io_solo : forall j b i prior ph r, is_Some (log !! p) ->
    ss !! j = Some (Flight b i p prior ph) -> find_request p l = Some r ->
    q_maybeStored r <> Some true -> ph = Unknown
}.

Lemma id_ok_frame q ss l log ss' l' log' :
  id_ok q ss l log ->
  (forall j b i prior ph, ss' !! j = Some (Flight b i q prior ph) -> ss !! j = Some (Flight b i q prior ph)) ->
  (forall r, find_request q l' = Some r -> find_request q l = Some r) ->
  (forall r, find_request q l = Some r -> is_unresolved r = true -> find_request q l' = Some r) ->
  log' !! q = log !! q ->
  id_ok q ss' l' log'.
Proof.
  intros [I1 I2 I3 I4 I5] Hss Hl Hu Hlog. split.
  - intros m Hm. rewrite Hlog in Hm. destruct (I1 m Hm) as (b & i & r & ? & ? & ? & ? & ?).
    exists b, i, r. repeat split; auto.
  - intros j b i prior ph Hj. destruct (I2 j b i prior ph) as (r & ? & ? & ?); [auto|].
    exists r. repeat split; auto.
  - intros j k b i prior ph b' i' prior' ph' r Hne Hj Hk Hr. eapply I3; eauto.
  - intros. eapply I4; eauto.
  - intros j b i prior ph r Hlog'. rewrite Hlog in Hlog'. intros. eapply I5; eauto.
Qed.

(** ** The whole *)

(** The id discipline: drawn ids are new until they are listed. *)
Record ids_ok (ss : list stage) (w : rworld) (l : list request) : Prop := {
  dc_drawn : forall j p, ss !! j = Some (Chosen p true) ->
    random_id p /\ p ∈ rw_minted w /\ p ∉ rw_seen w;
  dc_once : forall j k p, ss !! j = Some (Chosen p true) -> ss !! k = Some (Chosen p true) -> j = k;
  dc_supplied : forall j p, ss !! j = Some (Chosen p false) -> p ∈ rw_seen w \/ ~ random_id p;
  dc_listed : forall p, p ∈ ids l -> p ∈ rw_seen w
}.

Record inv (ss : list stage) (w : rworld) (l : list request) : Prop := {
  iv_discipline : ids_ok ss w l;
  iv_call : forall j b i p prior ph, ss !! j = Some (Flight b i p prior ph) ->
    sameSelection b b0 = true /\ worktree b = wt /\ isRepresentativeUuid (Some (JStr p)) = true /\
    prior <> Some Sent /\ p ∈ rw_seen w /\ (ph = Confirmed -> p ∈ rw_confirmed w);
  iv_sent : forall p r, find_request p l = Some r -> q_state r = Sent -> p ∈ rw_confirmed w;
  iv_stored : forall p, p ∈ rw_confirmed w -> is_Some (rw_log w !! p);
  iv_ids : forall p, p ∉ rw_confirmed w -> id_ok p ss l (rw_log w);
  iv_unique : forall p q r1 r2, p <> q -> find_request p l = Some r1 -> find_request q l = Some r2 ->
    is_unresolved r1 = true -> is_unresolved r2 = true -> q_payloadDigest r1 = q_payloadDigest r2 ->
    p ∈ rw_confirmed w \/ q ∈ rw_confirmed w
}.

Definition winv (ss : list stage) (w : rworld) : Prop :=
  exists cur l, holds wt cur l (rw_db w) /\ sameSelection cur b0 = true /\ inv ss w l.

(** Every id but [p] keeps its record, up to settled records that are dropped. *)
Record changes (p : string) (l l' : list request) : Prop := {
  ch_old : forall q r, q <> p -> find_request q l' = Some r -> find_request q l = Some r;
  ch_keep : forall q r, q <> p -> find_request q l = Some r -> is_unresolved r = true -> find_request q l' = Some r
}.

Lemma changes_refl p l : changes p l l.
Proof. by split. Qed.

Lemma changes_update p f l : keeps_id f -> changes p l (update_request p f l).
Proof.
  intros Hf. split; intros q r Hq; rewrite find_update by done;
    (rewrite (proj2 (String.eqb_neq p q)) by congruence); done.
Qed.

Lemma changes_remove p l : NoDup (ids l) -> changes p l (remove_request p l).
Proof.
  intros Hn. split; intros q r Hq; rewrite find_remove by done;
    (rewrite (proj2 (String.eqb_neq p q)) by congruence); done.
Qed.

Lemma changes_app l r : changes (q_requestId r) l (l ++ [r]).
Proof.
  split; intros q x Hq; rewrite find_request_app;
    rewrite (proj2 (String.eqb_neq (q_requestId r) q)) by congruence; by destruct (find_request q l).
Qed.

Lemma changes_prune p l l' : NoDup (ids l') -> changes p l l' -> changes p l (pruneSettled l').
Proof.
  intros Hn [H1 H2]. split; intros q r Hq.
  - intros Hf. apply H1; [done|]. by apply prune_find.
  - intros Hf Hu. apply prune_keeps_unresolved; auto.
Qed.

(** A step that concerns [p] only keeps the invariant if it keeps [p]'s part. *)
Lemma inv_change p ss w l ss' w' l' :
  inv ss w l -> changes p l l' ->
  (forall q, q <> p -> rw_log w' !! q = rw_log w !! q) ->
  (forall q, q <> p -> q ∈ rw_confirmed w' <-> q ∈ rw_confirmed w) ->
  (forall j b i q prior ph, q <> p -> ss' !! j = Some (Flight b i q prior ph) -> ss !! j = Some (Flight b i q prior ph)) ->
  ids_ok ss' w' l' ->
  (forall j b i prior ph, ss' !! j = Some (Flight b i p prior ph) ->
    sameSelection b b0 = true /\ worktree b = wt /\ isRepresentativeUuid (Some (JStr p)) = true /\
    prior <> Some Sent /\ p ∈ rw_seen w' /\ (ph = Confirmed -> p ∈ rw_confirmed w')) ->
  rw_seen w ⊆ rw_seen w' ->
  (forall r, find_request p l' = Some r -> q_state r = Sent -> p ∈ rw_confirmed w') ->
  (p ∈ rw_confirmed w' -> is_Some (rw_log w' !! p)) ->
  (p ∉ rw_confirmed w' -> id_ok p ss' l' (rw_log w')) ->
  (forall q r1 r2, q <> p -> p ∉ rw_confirmed w' -> q ∉ rw_confirmed w' ->
     find_request p l' = Some r1 -> find_request q l' = Some r2 ->
     is_unresolved r1 = true -> is_unresolved r2 = true -> q_payloadDigest r1 = q_payloadDigest r2 -> False) ->
  inv ss' w' l'.
Proof.
  intros Hinv [Hold Hkeep] Hlog Hconf Hss Hids Hcall Hseen Hsent Hstored Hok Huniq.
  assert (Hdec : forall q, q ∈ rw_confirmed w' \/ q ∉ rw_confirmed w')
    by (intros q; destruct (decide (q ∈ rw_confirmed w')); auto).
  split; [done|..].
  - intros j b i q prior ph Hj. destruct (decide (q = p)) as [->|Hq]; [eauto|].
    destruct (iv_call _ _ _ Hinv j b i q prior ph) as (? & ? & ? & ? & ? & Hc); [eauto|].
    repeat split; auto. intros Hph. apply Hconf; auto.
  - intros q r Hr Hst. destruct (decide (q = p)) as [->|Hq]; [eauto|].
    apply Hconf; [done|]. eapply (iv_sent _ _ _ Hinv); eauto.
  - intros q Hq'. destruct (decide (q = p)) as [->|Hq]; [eauto|].
    rewrite Hlog by done. apply (iv_stored _ _ _ Hinv). by apply Hconf.
  - intros q Hq'. destruct (decide (q = p)) as [->|Hq]; [eauto|].
    eapply id_ok_frame; [apply (iv_ids _ _ _ Hinv q)|..]; eauto.
    by rewrite <-Hconf.
  - intros q1 q2 r1 r2 Hne H1 H2 U1 U2 Hd.
    destruct (Hdec q1) as [?|N1]; [by left|]. destruct (Hdec q2) as [?|N2]; [by right|].
    destruct (decide (q1 = p)) as [->|Hq1].
    { exfalso. eapply (Huniq q2); eauto. }
    destruct (decide (q2 = p)) as [->|Hq2].
    { exfalso. eapply (Huniq q1); eauto. }
    rewrite !Hconf by done. eapply (iv_unique _ _ _ Hinv); eauto.
Qed.

(** ** The ledger operations *)

(** Nothing else with this content is unresolved. *)
Definition unblocked (d p : string) (l : list request) : Prop :=
  forall q r, q <> p -> find_request q l = Some r -> is_unresolved r = true -> q_payloadDigest r <> d.

Lemma find_blocking_none d p l : List.find (blocking d p) l = None -> unblocked d p l.
Proof.
  intros Hf q r Hq Hr Hu Hd.
  assert (Hb := find_none _ _ Hf r). rewrite <-list_elem_of_In in Hb.
  specialize (Hb (find_request_in _ _ _ Hr)). unfold blocking in Hb.
  rewrite Hd, String.eqb_refl, Hu, (find_request_id _ _ _ Hr) in Hb.
  rewrite (proj2 (String.eqb_neq q p)) in Hb by done. done.
Qed.

Definition reserved_record (now : Z) (r : request) : request :=
  with_state Pending
    (match q_state r with Pending | Ambiguous => Some true | _ => q_maybeStored r end) (to_iso now) r.

Definition new_record (i : send_input) (p d : string) (now : Z) : request :=
  Request p d (kind_name (si_kind i)) (authorization_name (si_authorization i)) Pending None None (to_iso now) (to_iso now).

Lemma reserve_spec i p d (drawn : bool) now l prior l1 :
  si_request_id i = (if drawn then None else Some p) ->
  (drawn = true -> find_request p l = None) ->
  reserve i p d now l = (inr (Reserved prior), l1) ->
  (exists r, find_request p l = Some r /\ q_payloadDigest r = d /\ q_state r <> Sent /\
     prior = Some (q_state r) /\ (q_state r = Rejected -> unblocked d p l) /\
     ids l1 = ids l /\ changes p l l1 /\ find_request p l1 = Some (reserved_record now r)) \/
  (find_request p l = None /\ prior = None /\ unblocked d p l /\ l1 = l ++ [new_record i p d now]).
Proof.
  intros Hid Hdrawn. unfold reserve.
  assert (Hrec : mbind (fun id => find_request id l) (si_request_id i) = find_request p l)
    by (rewrite Hid; destruct drawn; [by rewrite Hdrawn|done]).
  rewrite Hrec. destruct (find_request p l) as [r|] eqn:Hr.
  - destruct (String.eqb (q_payloadDigest r) d) eqn:Ed; cbn [negb]; [|done].
    apply String.eqb_eq in Ed. intros Hres. left. exists r. split; [done|]. split; [done|].
    rewrite (find_request_id _ _ _ Hr) in Hres.
    assert (Hupd : forall stored, keeps_id (with_state Pending stored (to_iso now))) by done.
    assert (Hu : forall stored, reserved_record now r = with_state Pending stored (to_iso now) r ->
      l1 = update_request p (with_state Pending stored (to_iso now)) l ->
      ids l1 = ids l /\ changes p l l1 /\ find_request p l1 = Some (reserved_record now r)).
    { intros stored Hs ->. split; [by apply ids_update|]. split; [by apply changes_update|].
      by rewrite find_update, String.eqb_refl, Hr, Hs by done. }
    unfold reserved_record in *. destruct (q_state r) eqn:Est; try done.
    + injection Hres as <- <-. split; [done|]. split; [done|]. split; [done|]. by eapply Hu.
    + injection Hres as <- <-. split; [done|]. split; [done|]. split; [done|]. by eapply Hu.
    + destruct (List.find (blocking d p) l) eqn:Hf; [done|]. injection Hres as <- <-.
      split; [done|]. split; [done|]. split; [intros _; by apply find_blocking_none|]. by eapply Hu.
  - destruct (List.find (blocking d p) l) eqn:Hf; [done|]. intros [= <- <-]. right.
    split; [done|]. split; [done|]. split; [by apply find_blocking_none|done].
Qed.

(** The ids of the result: those of the ledger and [p], each once. *)
Record ids_within (p : string) (l l1 : list request) : Prop := {
  iw_once : NoDup (ids l1);
  iw_within : forall q, q ∈ ids l1 -> q ∈ ids l \/ q = p
}.

Lemma ids_within_valid p l l1 :
  ids_within p l l1 -> Forall valid_request l -> isRepresentativeUuid (Some (JStr p)) = true ->
  Forall valid_request l1.
Proof.
  intros [_ Hw] Hv Hp. apply Forall_forall. intros r Hr.
  assert (Hin : q_requestId r ∈ ids l1) by (by apply list_elem_of_fmap_2).
  destruct (Hw _ Hin) as [Hl|Hl]; unfold valid_request; [|by rewrite Hl].
  apply list_elem_of_fmap in Hl as (r' & -> & Hr'). rewrite Forall_forall in Hv. by apply Hv.
Qed.

Lemma ids_within_prune p l l1 : ids_within p l l1 -> ids_within p l (pruneSettled l1).
Proof.
  intros [Hn Hw]. split; [by apply prune_ids_NoDup|]. intros q Hq. apply Hw.
  apply list_elem_of_fmap in Hq as (r & -> & Hr). by apply list_elem_of_fmap_2, prune_in.
Qed.

Lemma ids_within_same p l l1 : NoDup (ids l) -> ids l1 = ids l -> ids_within p l l1.
Proof. intros Hn E. split; rewrite E; auto. Qed.

Lemma ids_app (l : list request) r : ids (l ++ [r]) = ids l ++ [q_requestId r].
Proof. unfold ids. by rewrite map_app. Qed.

Lemma ids_within_app l r :
  NoDup (ids l) -> find_request (q_requestId r) l = None -> ids_within (q_requestId r) l (l ++ [r]).
Proof.
  intros Hn Hf%find_request_none. split; rewrite ids_app.
  - apply NoDup_app. split; [done|]. split; [|apply NoDup_singleton].
    intros q Hq ->%list_elem_of_singleton. done.
  - intros q [Hq|Hq]%elem_of_app; [by left|right]. by apply list_elem_of_singleton in Hq.
Qed.

Lemma reserve_ids i p d (drawn : bool) now l prior l1 :
  NoDup (ids l) -> si_request_id i = (if drawn then None else Some p) ->
  (drawn = true -> find_request p l = None) ->
  reserve i p d now l = (inr (Reserved prior), l1) -> ids_within p l l1.
Proof.
  intros Hn Hid Hd Hr.
  destruct (reserve_spec i p d drawn now l prior l1 Hid Hd Hr)
    as [(r & _ & _ & _ & _ & _ & E & _)|(Hf & _ & _ & ->)].
  - by apply ids_within_same.
  - by apply (ids_within_app l (new_record i p d now)).
Qed.

(** A reservation that reserves nothing leaves the ledger as it is. *)
Lemma reserve_other i p d now l t l1 :
  reserve i p d now l = (inr t, l1) -> (forall prior, t <> Reserved prior) -> l1 = l.
Proof.
  unfold reserve. intros Hr Ht.
  destruct (mbind _ (si_request_id i)) as [r|].
  - destruct (negb _); [done|]. destruct (q_state r).
    + simplify_eq. by destruct (Ht (Some Pending)).
    + simplify_eq. by destruct (Ht (Some Ambiguous)).
    + by simplify_eq.
    + destruct (List.find _ l); [done|]. simplify_eq. by destruct (Ht (Some Rejected)).
  - destruct (List.find _ l); [done|]. simplify_eq. by destruct (Ht None).
Qed.

Lemma reserve_ids_any i p d (drawn : bool) now l :
  NoDup (ids l) -> si_request_id i = (if drawn then None else Some p) ->
  (drawn = true -> find_request p l = None) ->
  forall t l1, reserve i p d now l = (inr t, l1) -> ids_within p l l1.
Proof.
  intros Hn Hid Hd [e|prior] l1 Hop.
  - rewrite (reserve_other _ _ _ _ _ _ _ Hop) by done. by apply ids_within_same.
  - by eapply reserve_ids.
Qed.

Lemma settled_keeps_id st entry now : keeps_id (settled st entry now).
Proof. intros r. by destruct st. Qed.

Lemma settle_spec p d i st entry now l t l1 :
  NoDup (ids l) -> settle p d i st entry now l = (inr t, l1) ->
  ids_within p l l1 /\ changes p l l1 /\
  (forall r, find_request p l = Some r ->
     (q_state r = Sent /\ l1 = l) \/ find_request p l1 = Some (settled st entry now r)).
Proof.
  intros Hn. unfold settle. destruct (find_request p l) as [r|] eqn:Hr.
  - rewrite Hr. assert (Hk := settled_keeps_id st entry now). intros Hs.
    assert (Hcase : (q_state r = Sent /\ l1 = l) \/ l1 = update_request p (settled st entry now) l).
    { destruct (q_state r); simplify_eq; auto. }
    destruct Hcase as [[Hst ->] | ->].
    + split; [by apply ids_within_same|]. split; [apply changes_refl|].
      intros r' [= <-]. by left.
    + split; [apply ids_within_same; [done|by apply ids_update]|].
      split; [by apply changes_update|]. intros r' [= <-]. right.
      by rewrite find_update, String.eqb_refl, Hr by done.
  - set (new := Request p d (kind_name (si_kind i)) (authorization_name (si_authorization i)) st None None (to_iso now) (to_iso now)).
    assert (Hfind : find_request p (l ++ [new]) = Some new)
      by (by rewrite find_request_app, Hr; cbn; rewrite String.eqb_refl).
    assert (Hw := ids_within_app l new Hn Hr). assert (Hc := changes_app l new). cbn in Hw, Hc.
    rewrite Hfind. intros Hs.
    assert (Hcase : l1 = l ++ [new] \/ l1 = update_request p (settled st entry now) (l ++ [new])).
    { destruct (q_state new); simplify_eq; auto. }
    destruct Hcase as [->| ->]; (split; [|split; [|done]]); [done|done|..].
    + destruct Hw as [Hw1 Hw2]. split; rewrite ids_update by apply settled_keeps_id; done.
    + destruct Hc as [Hc1 Hc2]. destruct (changes_update p (settled st entry now) (l ++ [new]))
        as [Hu1 Hu2]; [apply settled_keeps_id|].
      split; intros q r Hq Hf; [auto|]. intros Hu. auto.
Qed.

(** What a release leaves of the record. *)
Definition released_record (prior : option request_state) (r : request) : option request :=
  if negb (bool_decide (q_state r = Pending)) then Some r
  else if bool_decide (q_maybeStored r = Some true) then
    Some (if bool_decide (prior = Some Ambiguous) then with_state Ambiguous (q_maybeStored r) (q_updatedAt r) r else r)
  else st ← prior; Some (with_state st (q_maybeStored r) (q_updatedAt r) r).

Lemma release_spec p prior now l t l1 :
  NoDup (ids l) -> release p prior now l = (inr t, l1) ->
  ids_within p l l1 /\ changes p l l1 /\
  find_request p l1 = mbind (released_record prior) (find_request p l).
Proof.
  intros Hn. unfold release, released_record. destruct (find_request p l) as [r|] eqn:Hr; cbn [mbind option_bind].
  2: { intros [= _ <-]. split; [by apply ids_within_same|]. by split; [apply changes_refl|]. }
  assert (Hsame : forall f, keeps_id f ->
    ids_within p l (update_request p f l) /\ changes p l (update_request p f l) /\
    find_request p (update_request p f l) = Some (f r)).
  { intros f Hf. split; [apply ids_within_same; [done|by apply ids_update]|].
    split; [by apply changes_update|]. by rewrite find_update, String.eqb_refl, Hr by done. }
  destruct (negb _).
  { intros [= _ <-]. split; [by apply ids_within_same|]. by split; [apply changes_refl|]. }
  destruct (bool_decide (q_maybeStored r = Some true)).
  - destruct (bool_decide (prior = Some Ambiguous)); intros [= _ <-].
    + by apply (Hsame (fun r => with_state Ambiguous (q_maybeStored r) (q_updatedAt r) r)).
    + split; [by apply ids_within_same|]. by split; [apply changes_refl|].
  - destruct prior as [st|]; intros [= _ <-].
    + by apply (Hsame (fun r => with_state st (q_maybeStored r) (q_updatedAt r) r)).
    + split; [|split; [by apply changes_remove|by rewrite find_remove, String.eqb_refl by done]].
      split.
      * eapply sublist_NoDup; [exact Hn|apply remove_sublist].
      * intros q Hq. left. eapply elem_of_sublist; [exact Hq|apply remove_sublist].
Qed.

(** ** Steps *)

Local Abbreviation winv_at := (fun cur l ss w => holds wt cur l (rw_db w) /\ sameSelection cur b0 = true /\ inv ss w l).

Lemma listed_holds cur l db : holds wt cur l db -> listed wt db = list_to_set (ids l).
Proof. intros Hh. unfold listed. by rewrite (readRequests_holds _ _ _ _ _ Hh). Qed.

(** A ledger transaction on the invariant: no change, or the pruned result. *)
Lemma ledger_transaction {T} p b (op : Z -> list request -> (js_error + T) * list request) skip cur l ss w now r db' :
  winv_at cur l ss w -> worktree b = wt -> isRepresentativeUuid (Some (JStr p)) = true ->
  (forall t l1, op now l = (inr t, l1) -> ids_within p l l1) ->
  commit (transactRequests b op skip) now (rw_db w) = (r, db') ->
  (db' = rw_db w /\ forall t, r <> inr (Some t)) \/
  (exists t l1, op now l = (inr t, l1) /\ r = inr (Some t) /\ holds wt cur (pruneSettled l1) db').
Proof.
  intros (Hh & _ & _) Hb Hp Hop Hc.
  destruct (transactRequests_effect wt b cur l op skip now (rw_db w) r db') as [?|(t & l1 & ? & ? & ? & ?)];
    try done; [|by left|right; eauto].
  intros t l1 Ht. eapply ids_within_valid; [by eapply Hop|apply Hh|done].
Qed.

(** Fewer stages, the same log, a ledger that only lost settled records. *)
Lemma inv_shrink ss w l ss' w' l' :
  inv ss w l ->
  (forall k s, ss' !! k = Some s -> s = Over \/ s = Idle \/ ss !! k = Some s) ->
  rw_log w' = rw_log w -> rw_confirmed w' = rw_confirmed w -> rw_minted w' = rw_minted w ->
  rw_seen w' = rw_seen w ∪ list_to_set (ids l') ->
  (forall q, q ∈ ids l' -> q ∈ ids l) ->
  (forall q r, find_request q l' = Some r -> find_request q l = Some r) ->
  (forall q r, find_request q l = Some r -> is_unresolved r = true -> find_request q l' = Some r) ->
  inv ss' w' l'.
Proof.
  intros [[D1 D2 D3 D4] I2 I3 I4 I5 I6] Hss Hlog Hconf Hmint Hseen Hids Hold Hkeep.
  assert (Hseen' : forall q, q ∈ rw_seen w' <-> q ∈ rw_seen w).
  { intros q. rewrite Hseen, elem_of_union, elem_of_list_to_set. split; [|by left].
    intros [?|Hq]; [done|]. by apply D4, Hids. }
  assert (Hfl : forall k b i p prior ph, ss' !! k = Some (Flight b i p prior ph) -> ss !! k = Some (Flight b i p prior ph))
    by (intros k b i p prior ph Hk; by destruct (Hss _ _ Hk) as [?|[?|?]]).
  assert (Hch : forall k p d, ss' !! k = Some (Chosen p d) -> ss !! k = Some (Chosen p d))
    by (intros k p d Hk; by destruct (Hss _ _ Hk) as [?|[?|?]]).
  split.
  - split.
    + intros j p Hj. rewrite Hseen', Hmint. eauto.
    + eauto.
    + intros j p Hj. rewrite Hseen'. eauto.
    + intros p Hp. rewrite Hseen'. auto.
  - intros j b i p prior ph Hj. rewrite Hseen', Hconf. eauto.
  - intros p r Hr. rewrite Hconf. eauto.
  - intros p. rewrite Hconf, Hlog. eauto.
  - intros p. rewrite Hconf, Hlog. intros Hp. eapply id_ok_frame; eauto.
  - intros p q r1 r2 Hne H1 H2. rewrite Hconf. eauto.
Qed.

Lemma winv_same cur l ss w ss' db' :
  winv_at cur l ss w -> holds wt cur l db' ->
  (forall k s, ss' !! k = Some s -> s = Over \/ s = Idle \/ ss !! k = Some s) ->
  winv ss' (with_db wt w db').
Proof.
  intros (Hh & Hsel & Hinv) Hh' Hss. exists cur, l. split; [done|]. split; [done|].
  eapply inv_shrink; eauto. cbn. by rewrite (listed_holds _ _ _ Hh').
Qed.

Lemma winv_pruned cur l ss w ss' db' :
  winv_at cur l ss w -> holds wt cur (pruneSettled l) db' ->
  (forall k s, ss' !! k = Some s -> s = Over \/ s = Idle \/ ss !! k = Some s) ->
  winv ss' (with_db wt w db').
Proof.
  intros (Hh & Hsel & Hinv) Hh' Hss. exists cur, (pruneSettled l). split; [done|]. split; [done|].
  eapply inv_shrink; eauto.
  - cbn. by rewrite (listed_holds _ _ _ Hh').
  - intros q (r & -> & Hr)%list_elem_of_fmap. by apply list_elem_of_fmap_2, prune_in.
  - intros q r. apply prune_find, Hh.
  - intros q r. apply prune_keeps_unresolved, Hh.
Qed.

Lemma insert_cases {A} (ss : list A) j x k y :
  <[j := x]> ss !! k = Some y -> (k = j /\ y = x) \/ (k <> j /\ ss !! k = Some y).
Proof.
  destruct (decide (k = j)) as [->|Hne].
  - intros Hk. left. split; [done|]. assert (Hlt := lookup_lt_Some _ _ _ Hk). rewrite length_insert in Hlt.
    rewrite list_lookup_insert_eq in Hk by done. by simplify_eq.
  - rewrite list_lookup_insert_ne by done. auto.
Qed.

Lemma over_stages (ss : list stage) (j : nat) : forall (k : nat) s, <[j := Over]> ss !! k = Some s -> s = Over \/ s = Idle \/ ss !! k = Some s.
Proof. intros k s [[_ ->]|[_ ?]]%insert_cases; auto. Qed.

(** The id discipline after a call's ledger transaction. *)
Lemma ids_ok_step ss w l j s' p cur l' db' :
  ids_ok ss w l -> (forall q d, s' <> Chosen q d) -> holds wt cur l' db' -> ids_within p l l' ->
  (forall k, k <> j -> ss !! k <> Some (Chosen p true)) ->
  ids_ok (<[j := s']> ss) (with_db wt w db') l'.
Proof.
  intros [D1 D2 D3 D4] Hs' Hh Hw Hp.
  assert (Hseen : forall q, q ∈ rw_seen (with_db wt w db') <-> q ∈ rw_seen w \/ q ∈ ids l').
  { intros q. cbn. by rewrite (listed_holds _ _ _ Hh), elem_of_union, elem_of_list_to_set. }
  assert (Hch : forall k q d, <[j := s']> ss !! k = Some (Chosen q d) -> k <> j /\ ss !! k = Some (Chosen q d)).
  { intros k q d [[_ E]|[? ?]]%insert_cases; [|done]. by destruct (Hs' q d). }
  split.
  - intros k q [Hk Hq]%Hch. destruct (D1 k q Hq) as (? & ? & Hn). split; [done|]. split; [done|].
    rewrite Hseen. intros [?|Hin]; [done|].
    destruct (iw_within _ _ _ Hw q Hin) as [?| ->]; [by apply Hn, D4|]. by apply (Hp k).
  - intros k1 k2 q [_ H1]%Hch [_ H2]%Hch. eauto.
  - intros k q [_ Hq]%Hch. rewrite Hseen. destruct (D3 k q Hq); auto.
  - intros q Hq. rewrite Hseen. auto.
Qed.

(** A drawn id is not in the ledger. *)
Lemma drawn_unlisted ss w l j p : inv ss w l -> ss !! j = Some (Chosen p true) -> find_request p l = None.
Proof.
  intros Hinv Hj. apply find_request_none. intros Hin.
  destruct (dc_drawn _ _ _ (iv_discipline _ _ _ Hinv) j p Hj) as (_ & _ & Hns).
  by apply Hns, (dc_listed _ _ _ (iv_discipline _ _ _ Hinv)).
Qed.

(** The same flights or fewer, and a record that still covers the post. *)
Lemma id_ok_marked p ss l log ss' l' r0 r :
  id_ok p ss l log -> find_request p l = Some r0 -> find_request p l' = Some r ->
  is_unresolved r = true -> q_payloadDigest r = q_payloadDigest r0 ->
  (q_maybeStored r0 = Some true -> q_maybeStored r = Some true) ->
  (forall j b i prior ph, ss' !! j = Some (Flight b i p prior ph) -> ss !! j = Some (Flight b i p prior ph)) ->
  id_ok p ss' l' log.
Proof.
  intros [I1 I2 I3 I4 I5] Hr0 Hr Hu Hd Hm Hss. split.
  - intros m Hlog. destruct (I1 m Hlog) as (b & i & r1 & ? & ? & ? & ? & ?). simplify_eq.
    exists b, i, r. repeat split; auto. congruence.
  - intros j b i prior ph Hj%Hss. destruct (I2 _ _ _ _ _ Hj) as (r1 & ? & ? & ?). simplify_eq.
    exists r. repeat split; auto. congruence.
  - intros j k b i prior ph b' i' prior' ph' r' Hne Hj%Hss Hk%Hss Hr'. simplify_eq. eauto.
  - intros j b i prior ph r' Hj%Hss Hp Hr'. simplify_eq. eauto.
  - intros j b i prior ph r' Hlog Hj%Hss Hr' Hm'. simplify_eq. eapply I5; eauto.
Qed.

(** A post of the only flight that may have been the first, or of a marked one. *)
Lemma id_ok_posted p ss l log j b i prior ph log' :
  id_ok p ss l log -> sameSelection b b0 = true -> ss !! j = Some (Flight b i p prior Ready) ->
  log' = log \/
    ph = Unknown /\
    log' = match log !! p with Some _ => log | None => <[p := formatRepresentativeMessage b p i]> log end ->
  id_ok p (<[j := Flight b i p prior ph]> ss) l log'.
Proof.
  intros [I1 I2 I3 I4 I5] Hsel Hj Hcase.
  assert (Hss : forall k b' i' prior' ph', <[j := Flight b i p prior ph]> ss !! k = Some (Flight b' i' p prior' ph') ->
    exists ph0, ss !! k = Some (Flight b' i' p prior' ph0) /\ (k <> j /\ ph0 = ph' \/ k = j /\ ph0 = Ready /\ ph' = ph)).
  { intros k b' i' prior' ph' [[-> E]|[? ?]]%insert_cases; [injection E as -> -> -> ->|]; eauto 8. }
  split.
  - intros m Hm. destruct (log !! p) as [m0|] eqn:E.
    + assert (Hlog : log' = log) by (by destruct Hcase as [?|[_ ?]]). apply (I1 m). congruence.
    + destruct Hcase as [->|[_ ->]]; [congruence|]. rewrite lookup_insert_eq in Hm. injection Hm as <-.
      destruct (I2 _ _ _ _ _ Hj) as (r & ? & ? & ?). exists b, i, r. auto.
  - intros k b' i' prior' ph' (ph0 & Hk & _)%Hss. eauto.
  - intros k1 k2 b1 i1 p1 ph1 b2 i2 p2 ph2 r Hne (ph1' & H1 & _)%Hss (ph2' & H2 & _)%Hss. eauto.
  - intros k b' i' prior' ph' r (ph0 & Hk & _)%Hss. eauto.
  - intros k b' i' prior' ph' r Hlog (ph0 & Hk & Hph)%Hss Hr Hm.
    destruct Hph as [[Hne _]|(-> & _ & ->)]; [destruct Hm; eapply (I3 k j); eauto|].
    destruct Hcase as [->|[-> _]]; [|done].
    by assert (Ready = Unknown) by (eapply I5; eauto).
Qed.

(** No post stored and no flight: nothing is asked of the id. *)
Lemma id_ok_free p ss l log :
  log !! p = None -> (forall j b i prior ph, ss !! j <> Some (Flight b i p prior ph)) -> id_ok p ss l log.
Proof.
  intros Hlog Hss. split.
  - by rewrite Hlog.
  - intros j b i prior ph Hj. by destruct (Hss j b i prior ph).
  - intros j k b i prior ph b' i' prior' ph' r _ Hj. by destruct (Hss j b i prior ph).
  - intros j b i prior ph r Hj. by destruct (Hss j b i prior ph).
  - intros j b i prior ph r _ Hj. by destruct (Hss j b i prior ph).
Qed.

(** The record a reservation leaves its flight. *)
Record reserved_for (p d : string) (prior : option request_state) (l l1 : list request) (r : request) : Prop := {
  rf_find : find_request p l1 = Some r;
  rf_unresolved : is_unresolved r = true;
  rf_digest : q_payloadDigest r = d;
  rf_state : q_state r <> Sent;
  rf_changes : changes p l l1;
  rf_old : forall r0, find_request p l = Some r0 -> q_payloadDigest r0 = d /\
    (is_unresolved r0 = true -> q_maybeStored r = Some true);
  rf_prior : prior = Some Pending \/ prior = Some Ambiguous -> q_maybeStored r = Some true;
  rf_not_sent : prior <> Some Sent;
  rf_alone : (exists r0, find_request p l = Some r0 /\ is_unresolved r0 = true) \/ unblocked d p l
}.

Lemma reserve_record i p d (drawn : bool) now l prior l1 :
  si_request_id i = (if drawn then None else Some p) -> (drawn = true -> find_request p l = None) ->
  reserve i p d now l = (inr (Reserved prior), l1) ->
  exists r, reserved_for p d prior l l1 r.
Proof.
  intros Hid Hdrawn Hop.
  destruct (reserve_spec i p _ drawn now l prior l1 Hid Hdrawn Hop)
    as [(r & Hr & Hd & Hst & -> & Hub & _ & Hch & Hf)|(Hf & -> & Hub & ->)].
  - exists (reserved_record now r). split; try done.
    + intros r0 Hr0. rewrite Hr in Hr0. injection Hr0 as <-. split; [done|].
      unfold is_unresolved. cbn. by destruct (q_state r).
    + cbn. by intros [[= ->]|[= ->]].
    + congruence.
    + destruct (q_state r) eqn:Est; try done; [left|left|right; auto];
        exists r; unfold is_unresolved; by rewrite Est.
  - exists (new_record i p d now). split; try done.
    + rewrite find_request_app, Hf. cbn. by rewrite String.eqb_refl.
    + apply (changes_app l (new_record i p d now)).
    + by rewrite Hf.
    + by intros [?|?].
    + by right.
Qed.

(** The id's part after its reservation. *)
Lemma id_ok_reserved p ss l l1 log j b i prior r l2 :
  id_ok p ss l log -> reserved_for p (payloadDigest b i) prior l l1 r -> find_request p l2 = Some r ->
  id_ok p (<[j := Flight b i p prior Ready]> ss) l2 log.
Proof.
  intros Hok [_ Hu Hd _ _ Hold Hprior _ _] Hf.
  assert (Hmark : forall k b' i' prior' ph', ss !! k = Some (Flight b' i' p prior' ph') -> q_maybeStored r = Some true).
  { intros k b' i' prior' ph' Hk. destruct (io_flight _ _ _ _ Hok _ _ _ _ _ Hk) as (r0 & Hr0 & Hu0 & _).
    by apply (Hold r0). }
  split.
  - intros m Hm. destruct (io_log _ _ _ _ Hok m Hm) as (b' & i' & r0 & Hs0 & Hm0 & Hr0 & _ & Hd0).
    exists b', i', r. repeat split; auto. destruct (Hold r0 Hr0) as [E _]. congruence.
  - intros k b' i' prior' ph' [[_ E]|[_ Hk]]%insert_cases.
    + injection E as -> -> -> ->. eauto.
    + destruct (io_flight _ _ _ _ Hok _ _ _ _ _ Hk) as (r0 & Hr0 & _ & Hd0).
      exists r. repeat split; auto. destruct (Hold r0 Hr0) as [E _]. congruence.
  - intros k1 k2 b1 i1 p1 ph1 b2 i2 p2 ph2 r' Hne [[-> E1]|[_ H1]]%insert_cases [[-> E2]|[_ H2]]%insert_cases Hr';
      simplify_eq; eauto.
  - intros k b' i' prior' ph' r' [[_ E]|[_ Hk]]%insert_cases Hp' Hr'; simplify_eq; eauto.
  - intros k b' i' prior' ph' r' [m Hm] _ Hr' Hms. simplify_eq. destruct Hms.
    destruct (io_log _ _ _ _ Hok m Hm) as (b1 & i1 & r0 & _ & _ & Hr0 & Hu0 & _). by apply (Hold r0).
Qed.

Lemma step_reserved cur l ss w j b i p drawn prior now db' :
  winv_at cur l ss w -> ss !! j = Some (Chosen p drawn) -> call_for wt b0 b i p drawn ->
  commit (reserve_tx b i p) now (rw_db w) = (inr (Some (Reserved prior)), db') ->
  winv (<[j := Flight b i p prior Ready]> ss) (with_db wt w db').
Proof.
  intros Hw Hj [Hsel Hwt Huuid Hid] Hc.
  assert (Hinv : inv ss w l) by apply Hw. assert (Hn : NoDup (ids l)) by apply Hw.
  assert (Hdrawn : drawn = true -> find_request p l = None)
    by (intros ->; by eapply drawn_unlisted).
  assert (Hids := reserve_ids_any i p (payloadDigest b i) drawn now l Hn Hid Hdrawn).
  destruct (ledger_transaction p b _ false cur l ss w now _ db' Hw Hwt Huuid Hids Hc)
    as [[_ Hr]|(t & l1 & Hop & Ht & Hh)]; [by destruct (Hr (Reserved prior))|].
  injection Ht as <-. assert (Hiw := reserve_ids _ _ _ _ _ _ _ _ Hn Hid Hdrawn Hop).
  destruct (reserve_record _ _ _ _ _ _ _ _ Hid Hdrawn Hop) as (r & Hrf).
  assert (Hf : find_request p (pruneSettled l1) = Some r)
    by (apply prune_keeps_unresolved; [apply Hiw|apply Hrf|apply Hrf]).
  exists cur, (pruneSettled l1). split; [done|]. split; [apply Hw|].
  apply (inv_change p ss w l); [done|apply changes_prune; [apply Hiw|apply Hrf]|done|done|..].
  - intros k b' i' q prior' ph' Hq [[_ E]|[_ ?]]%insert_cases; [|done]. by injection E.
  - eapply ids_ok_step; [apply Hinv|done|done|by apply ids_within_prune|].
    intros k Hk Hkp. destruct drawn.
    + apply Hk. by eapply (dc_once _ _ _ (iv_discipline _ _ _ Hinv)).
    + destruct (dc_drawn _ _ _ (iv_discipline _ _ _ Hinv) k p Hkp) as (? & _ & ?).
      by destruct (dc_supplied _ _ _ (iv_discipline _ _ _ Hinv) j p Hj).
  - assert (Hseen : p ∈ rw_seen (with_db wt w db')).
    { cbn. rewrite (listed_holds _ _ _ Hh), elem_of_union, elem_of_list_to_set. right.
      apply find_request_in in Hf as Hin. apply find_request_id in Hf as <-. by apply list_elem_of_fmap_2. }
    intros k b' i' prior' ph' [[_ E]|[_ Hk]]%insert_cases.
    + injection E as -> -> -> ->. repeat split; auto; [apply Hrf|discriminate].
    + destruct (iv_call _ _ _ Hinv _ _ _ _ _ _ Hk) as (? & ? & ? & ? & ? & ?). repeat split; auto.
  - cbn. set_solver.
  - intros r' Hr' Hst. simplify_eq. by destruct (rf_state _ _ _ _ _ _ Hrf).
  - cbn. apply Hinv.
  - intros Hnc. eapply id_ok_reserved; [by apply (iv_ids _ _ _ Hinv)|done|done].
  - intros q r1 r2 Hq Hnp Hnq H1 H2 U1 U2 Hdd. simplify_eq. destruct Hrf as [_ _ Hd _ Hch Hold _ _ Halone].
    apply prune_find in H2; [|apply Hiw]. apply (ch_old _ _ _ Hch) in H2; [|done].
    destruct Halone as [(r0 & Hr0 & Hu0)|Hub].
    + destruct (Hold r0 Hr0) as [Hd0 _].
      destruct (iv_unique _ _ _ Hinv p q r0 r2) as [?|?]; auto; congruence.
    + apply (Hub q r2); auto. congruence.
Qed.

Lemma step_refused cur l ss w j b i p drawn now r db' :
  winv_at cur l ss w -> ss !! j = Some (Chosen p drawn) -> call_for wt b0 b i p drawn ->
  commit (reserve_tx b i p) now (rw_db w) = (r, db') ->
  (forall prior, r <> inr (Some (Reserved prior))) ->
  winv (<[j := Over]> ss) (with_db wt w db').
Proof.
  intros Hw Hj [Hsel Hwt Huuid Hid] Hc Hr.
  assert (Hinv : inv ss w l) by apply Hw. assert (Hn : NoDup (ids l)) by apply Hw.
  assert (Hdrawn : drawn = true -> find_request p l = None)
    by (intros ->; by eapply drawn_unlisted).
  assert (Hids := reserve_ids_any i p (payloadDigest b i) drawn now l Hn Hid Hdrawn).
  destruct (ledger_transaction p b _ false cur l ss w now _ db' Hw Hwt Huuid Hids Hc)
    as [[-> _]|(t & l1 & Hop & -> & Hh)].
  - apply (winv_same cur l ss); [done|apply Hw|apply over_stages].
  - assert (l1 = l) as -> by (eapply reserve_other; [exact Hop|]; intros prior ->; by apply (Hr prior)).
    apply (winv_pruned cur l ss); [done|done|apply over_stages].
Qed.

(** A flight that ends with a ledger transaction: its id keeps its part when no
    flight is left on it and the record it leaves still covers a stored post. *)
Lemma inv_landed cur l ss w j b i p prior ph l1 db' :
  winv_at cur l ss w -> ss !! j = Some (Flight b i p prior ph) ->
  ids_within p l l1 -> changes p l l1 -> holds wt cur (pruneSettled l1) db' ->
  (forall r, find_request p l1 = Some r -> q_state r = Sent -> p ∈ rw_confirmed w) ->
  (forall r0, p ∉ rw_confirmed w -> find_request p l = Some r0 -> is_unresolved r0 = true ->
     id_ok p ss l (rw_log w) ->
     (exists r, find_request p l1 = Some r /\ is_unresolved r = true /\ q_payloadDigest r = q_payloadDigest r0 /\
        (q_maybeStored r0 = Some true -> q_maybeStored r = Some true)) \/
     (q_maybeStored r0 <> Some true /\ rw_log w !! p = None /\
      forall r, find_request p l1 = Some r -> is_unresolved r = false)) ->
  winv (<[j := Over]> ss) (with_db wt w db').
Proof.
  intros Hw Hj Hiw Hch Hh Hsent Hrec.
  assert (Hinv : inv ss w l) by apply Hw.
  destruct (iv_call _ _ _ Hinv _ _ _ _ _ _ Hj) as (_ & _ & _ & _ & Hps & _).
  exists cur, (pruneSettled l1). split; [done|]. split; [apply Hw|].
  assert (Hn1 : NoDup (ids l1)) by apply Hiw.
  assert (Hss : forall k b' i' q prior' ph', <[j := Over]> ss !! k = Some (Flight b' i' q prior' ph') ->
    k <> j /\ ss !! k = Some (Flight b' i' q prior' ph')) by (by intros k b' i' q prior' ph' [[_ ?]|?]%insert_cases).
  assert (Hold : p ∉ rw_confirmed w -> exists r0, find_request p l = Some r0 /\ is_unresolved r0 = true).
  { intros Hnc. destruct (io_flight _ _ _ _ (iv_ids _ _ _ Hinv p Hnc) _ _ _ _ _ Hj) as (r0 & ? & ? & _). eauto. }
  apply (inv_change p ss w l); [done|by apply changes_prune|done|done|..].
  - intros k b' i' q prior' ph' _ Hk. by apply Hss in Hk as [_ Hk].
  - eapply ids_ok_step; [apply Hinv|done|done|by apply ids_within_prune|].
    intros k _ Hk. by destruct (dc_drawn _ _ _ (iv_discipline _ _ _ Hinv) k p Hk) as (_ & _ & ?).
  - intros k b' i' prior' ph' [_ Hk]%Hss.
    destruct (iv_call _ _ _ Hinv _ _ _ _ _ _ Hk) as (? & ? & ? & ? & ? & ?). repeat split; auto. set_solver.
  - cbn. set_solver.
  - intros r Hr. apply (Hsent r). by apply prune_find.
  - apply Hinv.
  - cbn. intros Hnc. assert (Hok := iv_ids _ _ _ Hinv p Hnc).
    destruct (Hold Hnc) as (r0 & Hr0 & Hu0).
    destruct (Hrec r0 Hnc Hr0 Hu0 Hok) as [(r & Hr & Hu & Hd & Hm)|(Hnm & Hlog & Hset)].
    + eapply id_ok_marked; eauto; [by apply prune_keeps_unresolved|]. intros k b' i' prior' ph' [_ Hk]%Hss. eauto.
    + apply id_ok_free; [done|]. intros k b' i' prior' ph' [Hkj Hk]%Hss.
      apply Hnm. eapply (io_two _ _ _ _ Hok k j); eauto.
  - cbn. intros q r1 r2 Hq Hnp Hnq H1 H2 U1 U2 Hdd. destruct (Hold Hnp) as (r0 & Hr0 & Hu0).
    apply prune_find in H1; [|done]. apply prune_find in H2; [|done]. apply (ch_old _ _ _ Hch) in H2; [|done].
    destruct (Hrec r0 Hnp Hr0 Hu0 (iv_ids _ _ _ Hinv p Hnp)) as [(r & Hr & _ & Hd & _)|(_ & _ & Hset)].
    + simplify_eq. destruct (iv_unique _ _ _ Hinv p q r0 r2); auto. congruence.
    + specialize (Hset _ H1). congruence.
Qed.

Lemma step_released cur l ss w j b i p prior now r db' :
  winv_at cur l ss w -> ss !! j = Some (Flight b i p prior Ready) ->
  commit (release_tx b p prior) now (rw_db w) = (r, db') ->
  winv (<[j := Over]> ss) (with_db wt w db').
Proof.
  intros Hw Hj Hc. assert (Hinv : inv ss w l) by apply Hw. assert (Hn : NoDup (ids l)) by apply Hw.
  destruct (iv_call _ _ _ Hinv _ _ _ _ _ _ Hj) as (_ & Hwt & Huuid & Hps & _).
  assert (Hids : forall t l1, release p prior now l = (inr t, l1) -> ids_within p l l1)
    by (intros t l1 Hop; by apply release_spec in Hop as (? & _)).
  destruct (ledger_transaction p b _ true cur l ss w now _ db' Hw Hwt Huuid Hids Hc)
    as [[-> _]|(t & l1 & Hop & -> & Hh)].
  { apply (winv_same cur l ss); [done|apply Hw|apply over_stages]. }
  destruct (release_spec _ _ _ _ _ _ Hn Hop) as (Hiw & Hch & Hf).
  apply (inv_landed cur l ss w j b i p prior Ready l1); [done..| |].
  - intros r Hr Hst. rewrite Hf in Hr. apply bind_Some in Hr as (r0 & Hr0 & Hr).
    eapply (iv_sent _ _ _ Hinv); [exact Hr0|]. revert Hr. unfold released_record.
    destruct (bool_decide (q_state r0 = Pending)) eqn:Ep; cbn; [|congruence]. bool_to_prop.
    destruct (bool_decide (q_maybeStored r0 = Some true)).
    + destruct (bool_decide (prior = Some Ambiguous)); intros [= <-]; [done|congruence].
    + destruct prior as [st|]; cbn; [|done]. intros [= <-]. cbn in Hst. by destruct Hps; subst.
  - intros r0 Hnc Hr0 Hu0 Hok. rewrite Hf, Hr0. cbn.
    assert (Hlog : q_maybeStored r0 <> Some true -> rw_log w !! p = None).
    { intros Hm. destruct (rw_log w !! p) as [m|] eqn:E; [|done].
      assert (is_Some (rw_log w !! p)) by (by rewrite E).
      by assert (Ready = Unknown) by (eapply (io_solo _ _ _ _ Hok); eauto). }
    unfold released_record. destruct (bool_decide (q_state r0 = Pending)) eqn:Ep; cbn; [|left; by exists r0].
    destruct (bool_decide (q_maybeStored r0 = Some true)) eqn:Em; bool_to_prop.
    + left. destruct (bool_decide (prior = Some Ambiguous)); eexists; (split; [reflexivity|done]).
    + destruct prior as [st|]; cbn; [|right; by split; [|split; [auto|]]].
      right. split; [done|]. split; [auto|]. intros r [= <-]. unfold is_unresolved. cbn.
      assert (st <> Pending /\ st <> Ambiguous) as [Hp1 Hp2].
      { split; intros ->; apply Em; eapply (io_prior _ _ _ _ Hok); eauto. }
      by destruct st.
Qed.

Lemma step_settled cur l ss w j b i p prior ph st entry now r db' :
  winv_at cur l ss w -> ss !! j = Some (Flight b i p prior ph) -> settlement ph = Some st ->
  commit (settle_tx b i p st entry) now (rw_db w) = (r, db') ->
  winv (<[j := Over]> ss) (with_db wt w db').
Proof.
  intros Hw Hj Hph Hc. assert (Hinv : inv ss w l) by apply Hw. assert (Hn : NoDup (ids l)) by apply Hw.
  destruct (iv_call _ _ _ Hinv _ _ _ _ _ _ Hj) as (_ & Hwt & Huuid & _ & _ & Hconf).
  assert (Hids : forall t l1, settle p (payloadDigest b i) i st entry now l = (inr t, l1) -> ids_within p l l1)
    by (intros t l1 Hop; by apply settle_spec in Hop as (? & _)).
  destruct (ledger_transaction p b _ true cur l ss w now _ db' Hw Hwt Huuid Hids Hc)
    as [[-> _]|(t & l1 & Hop & -> & Hh)].
  { apply (winv_same cur l ss); [done|apply Hw|apply over_stages]. }
  destruct (settle_spec _ _ _ _ _ _ _ _ _ Hn Hop) as (Hiw & Hch & Hf).
  apply (inv_landed cur l ss w j b i p prior ph l1); [done..| |].
  - intros r Hr Hst. destruct (decide (p ∈ rw_confirmed w)) as [?|Hnc]; [done|].
    destruct (io_flight _ _ _ _ (iv_ids _ _ _ Hinv p Hnc) _ _ _ _ _ Hj) as (r0 & Hr0 & Hu0 & _).
    destruct (Hf r0 Hr0) as [[Hst0 _]|Hr1]; [unfold is_unresolved in Hu0; by rewrite Hst0 in Hu0|].
    simplify_eq. apply Hconf. destruct ph; cbn in Hph; simplify_eq; cbn in Hst; try done.
    by destruct (bool_decide (q_maybeStored r0 = Some true)).
  - intros r0 Hnc Hr0 Hu0 Hok.
    destruct (Hf r0 Hr0) as [[Hst _]|Hr1]; [unfold is_unresolved in Hu0; by rewrite Hst in Hu0|].
    rewrite Hr1. destruct ph; cbn in Hph; simplify_eq.
    + destruct (decide (q_maybeStored r0 = Some true)) as [Hm|Hm].
      * left. eexists. split; [reflexivity|]. unfold is_unresolved. cbn.
        by rewrite bool_decide_eq_true_2 by done.
      * right. split; [done|]. split.
        -- destruct (rw_log w !! p) as [m|] eqn:E; [|done].
           assert (is_Some (rw_log w !! p)) by (by rewrite E).
           by assert (Refused = Unknown) by (eapply (io_solo _ _ _ _ Hok); eauto).
        -- intros r [= <-]. unfold is_unresolved. cbn. by rewrite bool_decide_eq_false_2 by done.
    + left. eexists. split; [reflexivity|]. done.
    + by destruct Hnc; apply Hconf.
Qed.

(** A post changes the world's log and confirmations at its id only. *)
Record posted (p : string) (w w' : rworld) : Prop := {
  po_db : rw_db w' = rw_db w;
  po_minted : rw_minted w' = rw_minted w;
  po_seen : rw_seen w' = rw_seen w;
  po_log : forall q, q <> p -> rw_log w' !! q = rw_log w !! q;
  po_first : forall m, rw_log w !! p = Some m -> rw_log w' !! p = Some m;
  po_confirmed : forall q, q <> p -> q ∈ rw_confirmed w' <-> q ∈ rw_confirmed w;
  po_kept : p ∈ rw_confirmed w -> p ∈ rw_confirmed w';
  po_stored : p ∈ rw_confirmed w' -> p ∈ rw_confirmed w \/ is_Some (rw_log w' !! p)
}.

Lemma posted_refl p w : posted p w w.
Proof. split; auto. Qed.

Lemma posted_store p m w : posted p w (store p m w) /\ is_Some (rw_log (store p m w) !! p).
Proof.
  split.
  - split; cbn; auto.
    + intros q Hq. destruct (rw_log w !! p); [done|]. by rewrite lookup_insert_ne.
    + intros m' E. by rewrite E.
  - cbn. destruct (rw_log w !! p) eqn:E; [by rewrite E|]. by rewrite lookup_insert_eq.
Qed.

Lemma posted_confirm p m w : posted p w (confirm p (store p m w)) /\ p ∈ rw_confirmed (confirm p (store p m w)).
Proof.
  destruct (posted_store p m w) as [[P1 P2 P3 P4 P5 P6 P7 P8] Hs]. cbn in *.
  split; [|set_solver]. split; cbn; auto; set_solver.
Qed.

(** The outcomes of a post. *)
Lemma step_posted cur l ss w j b i p prior ph w' :
  winv_at cur l ss w -> ss !! j = Some (Flight b i p prior Ready) -> posted p w w' ->
  (ph = Confirmed -> p ∈ rw_confirmed w') ->
  (p ∉ rw_confirmed w' -> rw_log w' = rw_log w \/
     ph = Unknown /\ rw_log w' = rw_log (store p (formatRepresentativeMessage b p i) w)) ->
  winv (<[j := Flight b i p prior ph]> ss) w'.
Proof.
  intros Hw Hj [Hdb Hmint Hseen' Hlog Hfirst Hconf Hkept Hstored] Hphc Hcase. assert (Hinv : inv ss w l) by apply Hw.
  destruct (iv_call _ _ _ Hinv _ _ _ _ _ _ Hj) as (Hsel & Hwt & Huuid & Hps & Hseen & _).
  exists cur, l. split; [rewrite Hdb; apply Hw|]. split; [apply Hw|].
  apply (inv_change p ss w l); [done|apply changes_refl|done|done|..].
  - intros k b' i' q prior' ph' Hq [[_ E]|[_ ?]]%insert_cases; [|done]. by injection E.
  - destruct (iv_discipline _ _ _ Hinv) as [D1 D2 D3 D4].
    assert (Hch : forall k q d, <[j := Flight b i p prior ph]> ss !! k = Some (Chosen q d) -> ss !! k = Some (Chosen q d))
      by (by intros k q d [[_ ?]|[_ ?]]%insert_cases).
    split; rewrite ?Hmint, ?Hseen'; eauto.
  - intros k b' i' prior' ph' [[_ E]|[_ Hk]]%insert_cases.
    + injection E as -> -> -> ->. rewrite Hseen'. repeat split; auto.
    + destruct (iv_call _ _ _ Hinv _ _ _ _ _ _ Hk) as (? & ? & ? & ? & ? & ?). rewrite Hseen'. repeat split; auto.
  - by rewrite Hseen'.
  - intros r Hr Hst. apply Hkept. by eapply (iv_sent _ _ _ Hinv).
  - intros Hp. destruct (Hstored Hp) as [Hc|?]; [|done].
    destruct (iv_stored _ _ _ Hinv p Hc) as [m Hm]. rewrite (Hfirst m Hm). done.
  - intros Hnc. assert (Hnc0 : p ∉ rw_confirmed w) by auto.
    eapply id_ok_posted; [by apply (iv_ids _ _ _ Hinv)|done|done|]. destruct (Hcase Hnc) as [->|[-> ->]]; auto.
  - intros q r1 r2 Hq Hnp Hnq H1 H2 U1 U2 Hd. rewrite Hconf in Hnq by done.
    destruct (iv_unique _ _ _ Hinv p q r1 r2); auto.
Qed.

Lemma step_drawn cur l ss w j p :
  winv_at cur l ss w -> ss !! j = Some Idle -> random_id p -> p ∉ rw_minted w -> p ∉ rw_seen w ->
  winv (<[j := Chosen p true]> ss) (mint p w).
Proof.
  intros (Hh & Hsel & Hinv) Hj Hr Hm Hs. exists cur, l. split; [done|]. split; [done|].
  destruct Hinv as [[D1 D2 D3 D4] I2 I3 I4 I5 I6].
  assert (Hfl : forall k b i q prior ph, <[j := Chosen p true]> ss !! k = Some (Flight b i q prior ph) ->
    ss !! k = Some (Flight b i q prior ph)) by (by intros k b i q prior ph [[_ ?]|[_ ?]]%insert_cases).
  split; cbn; eauto.
  - split; cbn.
    + intros k q [[_ [= ->]]|[_ Hk]]%insert_cases; [split; [done|]; set_solver|].
      destruct (D1 k q Hk) as (? & ? & ?). set_solver.
    + intros k1 k2 q [[-> [= ->]]|[_ H1]]%insert_cases [[-> E]|[_ H2]]%insert_cases; auto.
      * by destruct (D1 k2 _ H2) as (_ & ? & _).
      * injection E as ->. by destruct (D1 k1 _ H1) as (_ & ? & _).
      * eauto.
    + intros k q [[_ ?]|[_ Hk]]%insert_cases; [done|]. eauto.
    + eauto.
  - intros q Hq. eapply id_ok_frame; eauto.
Qed.

Lemma step_started cur l ss w s :
  winv_at cur l ss w -> initial_stage random_id w s -> winv (ss ++ [s]) w.
Proof.
  intros (Hh & Hsel & Hinv) Hs. exists cur, l. split; [done|]. split; [done|].
  destruct Hinv as [[D1 D2 D3 D4] I2 I3 I4 I5 I6].
  assert (Hnew : forall k x, (ss ++ [s]) !! k = Some x -> ss !! k = Some x \/ x = s).
  { intros k x [Hk|[_ Hk]]%lookup_app_Some; [by left|right].
    by apply list_lookup_singleton_Some in Hk as [_ ->]. }
  assert (Hfl : forall k b i q prior ph, (ss ++ [s]) !! k = Some (Flight b i q prior ph) ->
    ss !! k = Some (Flight b i q prior ph)).
  { intros k b i q prior ph [?|E]%Hnew; [done|]. destruct Hs as [->|(p & -> & _)]; done. }
  assert (Hdr : forall k q, (ss ++ [s]) !! k = Some (Chosen q true) -> ss !! k = Some (Chosen q true)).
  { intros k q [?|E]%Hnew; [done|]. destruct Hs as [->|(p & -> & _)]; done. }
  split; eauto.
  - split; eauto.
    intros k q [Hk|E]%Hnew; [eauto|]. destruct Hs as [->|(p & -> & Hp)]; [done|]. by injection E as ->.
  - intros q Hq. eapply id_ok_frame; eauto.
Qed.

Lemma step_outside cur l ss w w' :
  winv_at cur l ss w -> outside wt b0 w w' -> winv ss w'.
Proof.
  intros Hw Ho. destruct Ho as [b now w db' Hsel Hwt Hnew Hc|w db' Hb Hr].
  - assert (Hcb : sameSelection cur b = true).
    { destruct Hw as (_ & Hcur & _). apply sameSelection_iff in Hcur, Hsel. apply sameSelection_iff.
      destruct Hcur as (? & ? & ? & ? & ?), Hsel as (? & ? & ? & ? & ?). repeat split; congruence. }
    assert (Hh : holds wt b l db') by (eapply saveBinding_rebound; [apply Hw|done..|exact Hc]).
    destruct Hw as (_ & _ & Hinv). exists b, l. split; [done|]. split; [done|].
    eapply inv_shrink; eauto. cbn. by rewrite (listed_holds _ _ _ Hh).
  - apply (winv_same cur l ss); [done| |auto]. eapply holds_frame; [apply Hw|done|done].
Qed.

Lemma winv_step ss w ss' w' :
  winv ss w ->
  abstract_moves (flight_step wt random_id b0) (outside wt b0) (initial_stage random_id) (ss, w) (ss', w') ->
  winv ss' w'.
Proof.
  intros (cur & l & Hw) Hstep.
  inversion Hstep as [ss0 j s s' w0 w1 Hj Hs|ss0 s w0 Hs|ss0 w0 w1 Ho]; subst; clear Hstep.
  - inversion Hs; subst.
    + apply (winv_same cur l ss); [done|by eapply holds_same, Hw|].
      intros k x [[-> ->]|[_ ?]]%insert_cases; auto.
    + exists cur, l. destruct Hw as (Hh & Hsel & Hinv). split; [done|]. split; [done|].
      by rewrite list_insert_id.
    + by eapply step_drawn.
    + by eapply step_reserved.
    + by eapply step_refused.
    + by eapply step_released.
    + destruct (posted_store p (formatRepresentativeMessage b p i) w) as [Hp _].
      eapply step_posted; [done|done|exact Hp|done|]. intros _. by right.
    + destruct (posted_confirm p (formatRepresentativeMessage b p i) w) as [Hp Hpc].
      eapply step_posted; [done|done|exact Hp|done|]. done.
    + eapply step_posted; [done|done|apply posted_refl| |by left].
      intros ->. by destruct H0.
    + by eapply step_settled.
  - by eapply step_started.
  - by eapply step_outside.
Qed.

Lemma winv_reachable w0 ps w :
  uuid_case_insensitive -> winv [] w0 -> reachable wt random_id b0 w0 ps w -> exists ss, winv ss w.
Proof.
  intros Hci Hw0 Hr. destruct (reachable_flights _ _ _ _ _ _ Hci Hr) as (ss & Hss).
  exists ss. remember ([], w0) as c eqn:Ec. remember (ss, w) as c' eqn:Ec'.
  assert (Hc : winv (fst c) (snd c)) by (by rewrite Ec). clear Ec Hw0 Hr.
  revert ss w Ec'. induction Hss as [c|c c1 c2 Hstep Hss IH]; intros ss w ->; [done|].
  eapply IH; [|done]. destruct c, c1. by eapply winv_step.
Qed.

(** A worktree just bound, before any call. *)
Record fresh_world (w0 : rworld) : Prop := {
  fw_holds : holds wt b0 [] (rw_db w0);
  fw_log : rw_log w0 = ∅;
  fw_confirmed : rw_confirmed w0 = ∅
}.

Lemma fresh_winv w0 : fresh_world w0 -> winv [] w0.
Proof.
  intros [Hh Hlog Hconf]. exists b0, []. split; [done|]. split; [by apply sameSelection_iff|].
  split.
  - split; try (intros *; by rewrite lookup_nil). intros p Hp. by apply elem_of_nil in Hp.
  - intros *. by rewrite lookup_nil.
  - done.
  - intros p. rewrite Hconf. set_solver.
  - intros p _. apply id_ok_free; [by rewrite Hlog|]. intros *. by rewrite lookup_nil.
  - done.
Qed.
End Invariant.
