(* ===== verification/RepSpec.v ===== *)
(** * What the representative promises

    The properties of the representative connection, with their witnesses. *)

From S2P Require Import Prelude JsDate JsonText Effects Sha256 ShellEscape RepDb RepCore RepSend RepRead.
From S2P Require Import RepDeliveryFacts RepLedger RepProtocol RepInvariant.

Open Scope Z_scope.
Open Scope prog_scope.

(** ** Sending *)

Section Sending.
Context `{RepEnv}.
Variable wt : string.
Variable random_id : string -> Prop.
Variable b0 : binding.

(** C1. An ambiguous send is never lost or forgotten.  Whatever number of host
    processes call the representative's tools in any interleaving, whatever the
    server answers and whichever answers are lost, and however often the operator
    confirms the same selection again: a post that reached the server's log
    under an id whose success never reached a call is still listed in the
    worktree's ledger as unresolved, with the content of that very post, so that
    the content is refused under any other id. *)
Theorem representative_unconfirmed_post_stays_unresolved w0 ps w p m :
  uuid_case_insensitive -> fresh_world wt b0 w0 -> reachable wt random_id b0 w0 ps w ->
  rw_log w !! p = Some m -> p ∉ rw_confirmed w ->
  exists l b i r,
    (forall now, readRequests wt now (rw_db w) = (inr l, rw_db w)) /\
    r ∈ l /\ q_requestId r = p /\ is_unresolved r = true /\
    sameSelection b b0 = true /\ m = formatRepresentativeMessage b p i /\
    q_payloadDigest r = payloadDigest b0 i.
Proof.
  intros Hci Hw0 Hr Hm Hp.
  destruct (winv_reachable _ _ _ _ _ _ Hci (fresh_winv _ _ _ _ Hw0) Hr) as (ss & cur & l & Hh & _ & Hinv).
  destruct (io_log _ _ _ _ _ (iv_ids _ _ _ _ _ _ Hinv p Hp) m Hm) as (b & i & r & Hsel & -> & Hf & Hu & Hd).
  exists l, b, i, r. split; [intros now; by eapply readRequests_holds|].
  split; [by eapply find_request_in|]. split; [by eapply find_request_id|]. split; [done|].
  split; [done|]. split; [done|]. rewrite Hd. by apply payloadDigest_selection.
Qed.

(** C3. The server's log never holds two unconfirmed copies of one content: any
    two posts of the worktree that no call was told about carry contents with
    different digests. *)
Theorem representative_no_two_unconfirmed_copies w0 ps w p q m m' :
  uuid_case_insensitive -> fresh_world wt b0 w0 -> reachable wt random_id b0 w0 ps w ->
  p <> q -> rw_log w !! p = Some m -> rw_log w !! q = Some m' ->
  p ∉ rw_confirmed w -> q ∉ rw_confirmed w ->
  exists b i b' i', m = formatRepresentativeMessage b p i /\ m' = formatRepresentativeMessage b' q i' /\
    payloadDigest b0 i <> payloadDigest b0 i'.
Proof.
  intros Hci Hw0 Hr Hne Hm Hm' Hp Hq.
  destruct (winv_reachable _ _ _ _ _ _ Hci (fresh_winv _ _ _ _ Hw0) Hr) as (ss & cur & l & _ & _ & Hinv).
  destruct (io_log _ _ _ _ _ (iv_ids _ _ _ _ _ _ Hinv p Hp) m Hm) as (b & i & r & Hsel & -> & Hf & Hu & Hd).
  destruct (io_log _ _ _ _ _ (iv_ids _ _ _ _ _ _ Hinv q Hq) m' Hm') as (b' & i' & r' & Hsel' & -> & Hf' & Hu' & Hd').
  exists b, i, b', i'. split; [done|]. split; [done|].
  rewrite <-(payloadDigest_selection b b0 i Hsel), <-(payloadDigest_selection b' b0 i' Hsel'), <-Hd, <-Hd'.
  intros Heq. destruct (iv_unique _ _ _ _ _ _ Hinv p q r r' Hne Hf Hf' Hu Hu' Heq); done.
Qed.

(** The ledger never claims a success it does not have: in every reachable
    state a record listed as sent has its post in the server's log. *)
Theorem representative_sent_record_is_stored w0 ps w l r :
  uuid_case_insensitive -> fresh_world wt b0 w0 -> reachable wt random_id b0 w0 ps w ->
  readRequests wt 0 (rw_db w) = (inr l, rw_db w) -> r ∈ l -> q_state r = Sent ->
  is_Some (rw_log w !! q_requestId r).
Proof.
  intros Hci Hw0 Hr Hl Hin Hst.
  destruct (winv_reachable _ _ _ _ _ _ Hci (fresh_winv _ _ _ _ Hw0) Hr) as (ss & cur & l' & Hh & _ & Hinv).
  rewrite (readRequests_holds _ _ _ _ _ Hh) in Hl. injection Hl as ->.
  eapply (iv_stored _ _ _ _ _ _ Hinv), (iv_sent _ _ _ _ _ _ Hinv); [|exact Hst].
  apply find_request_some; [apply Hh|done].
Qed.
End Sending.

(** ** Delivery *)

Section Delivery.
Context `{RepEnv}.
Variable wt : string.
Variable random_id : string -> Prop.
Variable b0 : binding.

(** The abstract system of the delivery tables: any change that keeps the
    windows well formed and moves forward. *)
Definition window_step (_ : unit) (w : rworld) (_ : unit) (w' : rworld) : Prop :=
  db_delivery_ok (rw_db w) -> db_delivery_ok (rw_db w') /\ db_delivery_grows (rw_db w) (rw_db w').

Lemma window_step_refl s w : window_step s w s w.
Proof. intros Hok. by split. Qed.

Local Abbreviation wsim := (simulates (act wt random_id) window_step tt).

Lemma safe_harmless {A} (body : tx A) : delivery_safe body -> harmless wt window_step tt body.
Proof.
  intros Hs now w Hok. specialize (Hs now (rw_db w) Hok). unfold commit. cbn.
  destruct (body now (rw_db w)) as [[e|a] db']; [by split|done].
Qed.

Lemma window_start : harmless_start wt window_step tt.
Proof. split; intros; apply safe_harmless; [apply ensure_row_safe|apply resolve_head_safe]. Qed.

Lemma window_ledger {T} b (op : Z -> list request -> (js_error + T) * list request) skip {B}
    (f : option T -> rep B) (Q : B -> unit -> Prop) R :
  (forall r, wsim (f r) Q R) -> (forall e s, R e s) ->
  wsim (pbind (transact (transactRequests b op skip)) f) Q R.
Proof.
  intros Hf HR. apply simulates_bind, tool_transact; [apply window_step_refl| |done|done].
  apply safe_harmless, transactRequests_safe.
Qed.

Lemma window_send b raw : wsim (sendOnce b raw) ends ends.
Proof.
  unfold sendOnce. apply simulates_bind, tool_of_sum; [|done]. intros i _. cbv zeta.
  assert (Hpost : forall p prior, wsim (post_and_settle b i p (formatRepresentativeMessage b p i) (payloadDigest b i) prior) ends ends).
  { intros p prior. unfold post_and_settle. apply simulates_bind, simulates_attempt, tool_verify;
      [apply window_step_refl|intros v|intros e; by apply window_ledger].
    apply simulates_bind, simulates_attempt, simulates_perform. intros w x w' Ha. exists tt. split.
    - assert (Hdb : rw_db w' = rw_db w).
      { cbn in Ha. destruct x; [destruct (definite _); [|destruct Ha as [Ha|Ha]]|]; by rewrite Ha. }
      unfold window_step. rewrite Hdb. by split.
    - destruct x as [e|result]; [|by apply window_ledger]. cbn [pbind].
      destruct (af_definite _); by apply window_ledger. }
  assert (Hrest : forall p, wsim
    (match decodeAppendLogRequest p (formatRepresentativeMessage b p i) [coordinatorDroneId b] with
     | Some e => Throw (invalid_input ("The message cannot be sent as written: " +:+ boundedMessage e))
     | None =>
         do! ensureRepresentativeState b;
         let! reserved := transact (reserve_tx b i p) in
         match reserved with
         | Some (Reserved prior) =>
             post_and_settle b i p (formatRepresentativeMessage b p i) (payloadDigest b i) prior
         | Some (AlreadySent entryId) =>
             Ret (SendResult OutcomeSent p entryId (Some true) (Some true)
               (coordinatorDroneId b, coordinatorLabel b) None None None)
         | None => Throw (JsError "Cannot read properties of undefined (reading 'kind')")
         end
     end) ends ends).
  { intros p. destruct (decodeAppendLogRequest _ _ _); [done|].
    apply simulates_bind, tool_ensure; [apply window_step_refl|apply window_start| |done].
    apply window_ledger; [|done]. by intros [[entryId|prior]|]. }
  destruct (si_request_id i) as [p|]; [apply Hrest|].
  apply simulates_bind. intros w x w' (_ & _ & _ & _ & ->). exists tt. split; [|apply Hrest].
  intros Hok. by split.
Qed.

(** The operator binds a worktree, this or another. *)
Definition operator (w w' : rworld) : Prop :=
  exists b rebind now, w' = with_db wt w (snd (commit (saveBinding b rebind) now (rw_db w))).

Lemma window_calls w p : host_call wt random_id b0 w p -> wsim p (fun _ _ => True) (fun _ _ => True).
Proof.
  assert (Hdiscard : forall A (q : rep A) Q, wsim q Q ends -> wsim (discard q) (fun _ _ => True) (fun _ _ => True)).
  { intros A q Q Hq. apply simulates_bind. by eapply simulates_mono. }
  intros Hp. destruct Hp.
  - eapply Hdiscard, window_send.
  - eapply Hdiscard, tool_read; [apply window_step_refl|apply window_start|..].
    + apply safe_harmless, read_snapshot_safe.
    + intros window Hw. by apply safe_harmless, read_widen_safe.
  - eapply Hdiscard, tool_deliver; [apply window_step_refl|apply window_start|].
    intros q. apply safe_harmless, deliver_tx_safe.
  - eapply Hdiscard, tool_ack; [apply window_step_refl|apply window_start].
  - eapply Hdiscard, tool_status; apply window_step_refl.
Qed.

Lemma window_moves c c1 :
  abstract_moves window_step operator (fun _ _ => True) c c1 -> db_delivery_ok (rw_db (snd c)) ->
  db_delivery_ok (rw_db (snd c1)) /\ db_delivery_grows (rw_db (snd c)) (rw_db (snd c1)).
Proof.
  intros Hm Hok. destruct Hm as [ss i s s' w w' _ Hs|ss s w _|ss w w' (b & rebind & now & ->)]; cbn [snd] in *.
  - by apply Hs.
  - by split.
  - apply (safe_harmless (saveBinding b rebind)); [apply saveBinding_safe|done].
Qed.

Lemma window_run c c1 :
  rtc (abstract_moves window_step operator (fun _ _ => True)) c c1 -> db_delivery_ok (rw_db (snd c)) ->
  db_delivery_ok (rw_db (snd c1)) /\ db_delivery_grows (rw_db (snd c)) (rw_db (snd c1)).
Proof.
  induction 1 as [c|c c1 c2 Hstep _ IH]; intros Hc; [by split|].
  destruct (window_moves _ _ Hstep Hc) as [H1 G1]. destruct (IH H1) as [H2 G2]. split; [done|by etrans].
Qed.

(** C5. The delivered checkpoint never goes back and never passes what a read
    has returned: in every interleaving of the representative's tools and of the
    operator's bindings, with any answers of the server, every generation's
    window stays well formed and its checkpoint and read fence only move
    forward. *)
Theorem representative_delivery_monotone w0 ps w :
  db_delivery_ok (rw_db w0) ->
  rtc (pool_moves (act wt random_id) (host_call wt random_id b0) operator) ([], w0) (ps, w) ->
  db_delivery_ok (rw_db w) /\ db_delivery_grows (rw_db w0) (rw_db w).
Proof.
  intros Hok Hr.
  assert (Hnil : abstracts (act wt random_id) window_step (A := unit) [] []) by constructor.
  destruct (pool_simulation _ window_step _ operator (fun _ _ => True) [] w0 ps w []
    (fun w1 p Hp => ex_intro _ tt (conj I (window_calls w1 p Hp))) Hnil Hr) as (ss & Hss & _).
  exact (window_run _ _ Hss Hok).
Qed.
End Delivery.
