(* ===== verification/RepReadSpec.v ===== *)
(** * Reading and delivering: what the tools promise

    The size of a read, the scan of an ordered log, the three answers of
    deliver, and the round of read, deliver and read again against a server that
    answers from its log. *)

From stdpp Require Import pretty.
From S2P Require Import Prelude JsDate JsonText Effects RepDb RepCore RepSend RepRead RepDeliveryFacts Sha256 ShellEscape RepLedger.

Open Scope Z_scope.
Open Scope prog_scope.

Section ReadSpec.
Context `{RepEnv}.

(** ** The size of a result *)

Lemma fit_count_spec measure maxBytes n count :
  let k := fit_count measure maxBytes n count in
  (count <= k <= count + n)%nat /\
  (k <> count -> measure k <= maxBytes) /\
  (k = (count + n)%nat \/ maxBytes < measure (S k)).
Proof.
  cbv zeta. revert count. induction n as [|n IH]; intros count; cbn [fit_count].
  - split; [lia|]. split; [done|left; lia].
  - destruct (measure (S count) <=? maxBytes) eqn:E.
    + apply Z.leb_le in E. destruct (IH (S count)) as (Hk & Hm & Hs). split; [lia|]. split.
      * intros _. destruct (decide (fit_count measure maxBytes n (S count) = S count)) as [->|Hne]; [done|by apply Hm].
      * destruct Hs as [->|Hs]; [left; lia|by right].
    + apply Z.leb_gt in E. split; [lia|]. split; [done|by right].
Qed.

Definition reply_ids (r : read_result) : list string := map rp_entry_id (rr_replies r).
Definition candidate_ids (l : list candidate) : list string := map (fun c => rp_entry_id (ca_reply c)) l.

(** What a read of the first [n] candidates returns, with [replies] for them. *)
Definition read_of (b : binding) (st : delivery_state) (s : scan_state) (n : nat) (replies : list reply) : read_result :=
  ReadResult replies (p_id <$> ds_checkpoint st, p_created_at <$> ds_checkpoint st)
    (bool_decide (n < length (sc_candidates s))%nat)
    (default (sc_ignored s) (ca_ignoredBefore <$> sc_candidates s !! n)) (bindingFingerprint b).

(** The first [n] replies as the scan found them. *)
Definition whole_read b st s n : read_result := read_of b st s n (map ca_reply (take n (sc_candidates s))).

(** A reply that comes alone because it is larger than the caller asked for: all of
    it, with [documents] for its citations. *)
Definition lone_reply (r : reply) (documents : option (list json)) (reduced : bool) : reply :=
  Reply (rp_entry_id r) (rp_created_at r) (rp_from_drone_id r) (rp_from_label r) (rp_addressed r) (rp_in_reply_to r)
    (rp_message r) documents (rp_document_delivery r) true reduced.

Definition ids_only (r : reply) : option (list json) :=
  map (fun d => JObj (optional_field "id" (jget "id" d))) <$> rp_documents r.

Definition lone_read b st s (r : reply) : read_result :=
  read_of b st s 1 [lone_reply r (rp_documents r) (rp_documents_reduced r)].

Definition reduced_read b st s (r : reply) : read_result := read_of b st s 1 [lone_reply r (ids_only r) true].

(** [result] is what a read of at most [limit] replies and [maxBytes] bytes gives. *)
Definition bounded_read b st limit maxBytes s (result : js_error + read_result) : Prop :=
  let bound := Z.max maxBytes REPRESENTATIVE_ENVELOPE_FLOOR in
  (exists n, (0 < n <= Nat.min limit (length (sc_candidates s)))%nat /\ result = inr (whole_read b st s n) /\
     measured (whole_read b st s n) <= maxBytes /\
     (n = Nat.min limit (length (sc_candidates s)) \/ maxBytes < measured (whole_read b st s (S n)))) \/
  (exists c rest, sc_candidates s = c :: rest /\ maxBytes < measured (whole_read b st s 1) /\
     let whole := lone_read b st s (ca_reply c) in
     let reduced := reduced_read b st s (ca_reply c) in
     (result = inr whole /\ measured whole <= bound \/
      result = inr reduced /\ bound < measured whole /\ measured reduced <= bound \/
      (exists msg size, result = inl (representative_error "REPRESENTATIVE_READ_OVERSIZE" msg
         [("entry_id", inl (rp_entry_id (ca_reply c))); ("measured_bytes", inr size); ("bound", inr bound)])) /\
        bound < measured whole /\ (ids_only (ca_reply c) = rp_documents (ca_reply c) \/ bound < measured reduced))).

Lemma ltb_decide n m : (n <? m)%nat = bool_decide (n < m)%nat.
Proof. case_bool_decide; [by apply Nat.ltb_lt|apply Nat.ltb_ge; lia]. Qed.

Lemma result_of_whole b st s n : result_of b st s n false = whole_read b st s n.
Proof.
  unfold result_of, whole_read, read_of. rewrite ltb_decide. f_equal.
  - by destruct (map ca_reply _).
  - by destruct (sc_candidates s !! n).
Qed.

Lemma result_of_lone b st s c rest : sc_candidates s = c :: rest -> result_of b st s 1 true = lone_read b st s (ca_reply c).
Proof.
  intros Hc. unfold result_of, lone_read, read_of. rewrite ltb_decide, Hc. f_equal. by destruct ((c :: rest) !! 1%nat).
Qed.

Lemma reduce_lone b st s r : reduce_result (lone_read b st s r) = reduced_read b st s r.
Proof. done. Qed.

Lemma fit_result_core b st limit maxBytes s :
  (0 < limit)%nat -> sc_candidates s <> [] -> bounded_read b st limit maxBytes s (fit_result b st limit maxBytes s).
Proof.
  intros Hlim Hne. unfold fit_result. set (m := Nat.min limit (length (sc_candidates s))).
  set (mea := fun c => measured (result_of b st s c false)).
  assert (Hmea : forall c, mea c = measured (whole_read b st s c)) by (intros; unfold mea; by rewrite result_of_whole).
  destruct (fit_count_spec mea maxBytes m 0) as (Hk & Hm & Hs).
  set (k := fit_count mea maxBytes m 0) in *. cbv zeta. rewrite Hmea in Hm, Hs.
  destruct (sc_candidates s) as [|c rest] eqn:Hc; [done|]. cbn [length] in m.
  destruct (k =? 0)%nat eqn:Ek; [right|left].
  - apply Nat.eqb_eq in Ek. rewrite Ek in *. destruct Hs as [?|Hs]; [lia|].
    exists c, rest. split; [done|]. split; [done|]. cbn [andb length Nat.ltb Nat.leb].
    rewrite (result_of_lone b st s c rest Hc).
    destruct (Z.max _ _ <? measured (lone_read b st s (ca_reply c))) eqn:Ew; [apply Z.ltb_lt in Ew|apply Z.ltb_ge in Ew];
      [|rewrite andb_false_r, (proj2 (Z.ltb_ge _ _) Ew); by left].
    right. rewrite andb_true_r. destruct (has_documents _) eqn:Hd.
    + rewrite reduce_lone. destruct (_ <? measured (reduced_read _ _ _ _)) eqn:Er; [apply Z.ltb_lt in Er|apply Z.ltb_ge in Er];
        [right|by left]. split; [by do 2 eexists|]. auto.
    + right. rewrite (proj2 (Z.ltb_lt _ _) Ew). split; [by do 2 eexists|]. split; [done|]. left.
      unfold has_documents, lone_read in Hd. cbn in Hd. unfold ids_only. by destruct (rp_documents (ca_reply c)) as [[|]|].
  - apply Nat.eqb_neq in Ek. cbn [andb]. exists k. rewrite result_of_whole, Hc. cbn [length]. split; [lia|]. split; [done|].
    split; [by apply Hm|]. destruct Hs as [->|Hs]; [left; lia|by right].
Qed.

(** The replies are a prefix of the candidates. *)
Lemma fit_result_ids b st limit maxBytes s r :
  (0 < limit)%nat -> sc_candidates s <> [] -> fit_result b st limit maxBytes s = inr r ->
  exists n, (0 < n <= Nat.min limit (length (sc_candidates s)))%nat /\ reply_ids r = candidate_ids (take n (sc_candidates s)).
Proof.
  intros Hlim Hne Hr. destruct (fit_result_core b st limit maxBytes s Hlim Hne) as [(n & Hn & Hx & _)|(c & rest & Hc & _ & Hx)].
  - exists n. split; [done|]. rewrite Hr in Hx. injection Hx as ->. unfold reply_ids, candidate_ids. cbn. by rewrite map_map.
  - exists 1%nat. rewrite Hc. split; [cbn [length]; lia|]. rewrite Hr in Hx.
    destruct Hx as [[[= ->] _]|[[[= ->] _]|[[? [? [=]]] _]]]; done.
Qed.

Lemma representative_scan_core h b requestIds ib limit cursor floor db fuel :
  ordered (hn_log h) -> opt_le cursor (Some floor) ->
  Z.of_nat (length (hn_log h)) < READ_SCAN_PAGE * Z.of_nat fuel ->
  exists s, run (serve h) (scan_pages fuel b requestIds ib limit cursor (ScanState floor 0 [])) db = (Done (Some s), db) /\
    sc_candidates s = take (S limit) (reference b requestIds ib 0 (beyond (Some floor) (hn_log h))).
Proof.
  intros Hord Hle Hfuel.
  destruct (scan_pages_reference h b requestIds ib limit Hord fuel cursor (ScanState floor 0 []) db) as (s & Hrun & Hs).
  - cbn. lia.
  - assert (length (beyond cursor (hn_log h)) <= length (hn_log h))%nat by apply List.filter_length_le. lia.
  - exists s. split; [done|]. rewrite Hs. cbn [sc_candidates sc_ignored sc_last app].
    rewrite beyond_beyond; [done|]. intros e _. destruct cursor as [c|]; [|done]. cbn.
    apply point_le_lt_trans. done.
Qed.

(** C38. A read is bounded and keeps whole replies in order.  Of the candidates
    found it returns a non-empty prefix, no longer than [limit] and each reply as
    it was found, whose serialization stays within [max_bytes]; it stops only at
    [limit], at the last candidate, or where one more reply would exceed
    [max_bytes].  A first reply that exceeds [max_bytes] comes alone, marked as
    oversize, when it stays within the larger of [max_bytes] and 16384 bytes: as it
    is, or, when only that fits, with its documents reduced to their ids.  When
    neither fits the read fails and says which entry it was.  Text is never cut.
    The result says that there is more exactly when candidates are left, and counts
    the entries passed over before the first of them. *)
Theorem representative_read_bounded b st limit maxBytes s :
  (0 < limit)%nat -> sc_candidates s <> [] ->
  bounded_read b st limit maxBytes s (fit_result b st limit maxBytes s).
Proof. apply fit_result_core. Qed.

(** The paged scan of the cube log is the scan of the whole log: against a
    server that answers from an ordered log, whatever the number of entries and
    pages, the scan finds exactly the first [limit + 1] entries addressed to the
    representative beyond the floor, in order, each once, with the number of
    entries passed over before it, and changes nothing. *)
Theorem representative_scan_complete h b requestIds ib limit cursor floor db fuel :
  ordered (hn_log h) -> opt_le cursor (Some floor) ->
  Z.of_nat (length (hn_log h)) < READ_SCAN_PAGE * Z.of_nat fuel ->
  exists s, run (serve h) (scan_pages fuel b requestIds ib limit cursor (ScanState floor 0 [])) db = (Done (Some s), db) /\
    sc_candidates s = take (S limit) (reference b requestIds ib 0 (beyond (Some floor) (hn_log h))).
Proof. apply representative_scan_core. Qed.

(** ** Deliver *)

(** The binding is the current one of its worktree. *)
Definition current b db : Prop := forall now, requireCurrentGeneration b now db = (inr (bindingFingerprint b), db).

Lemma current_frame b db db' : t_bindings db' = t_bindings db -> current b db -> current b db'.
Proof.
  intros Hb Hc now. specialize (Hc now). unfold requireCurrentGeneration, tx_bind, currentBindingRow in *.
  rewrite Hb. destruct (t_bindings db !! worktree b) as [row|]; [|done].
  destruct (parseBinding (br_binding row) (worktree b)) as [b'|]; [|done].
  destruct (String.eqb _ _); [|done]. cbn [cr_generation] in *.
  destruct (String.eqb _ _); done.
Qed.

Lemma deliver_tx_state b p now db st :
  current b db -> loadDelivery (bindingFingerprint b) db = Some st ->
  deliver_tx b p now db =
    if match ds_checkpoint st with Some c => comparePoints p (Some c) <=? 0 | None => false end then
      (inr (DeliverResult (checkpointView (ds_checkpoint st)) false (bindingFingerprint b)), db)
    else if negb (bool_decide (p ∈ ds_returned st)) ||
              match ds_readThrough st with None => true | Some r => 0 <? comparePoints p (Some r) end then
      (inl outside_window, db)
    else
      tx_bind (advanceCheckpoint (bindingFingerprint b) p) (fun x =>
        tx_ret (DeliverResult (checkpointView (ds_checkpoint (snd x)))
          (match ds_checkpoint (snd x) with Some c => 0 <? comparePoints c (ds_checkpoint (fst x)) | None => false end)
          (bindingFingerprint b))) now db.
Proof.
  intros Hc Hl. unfold deliver_tx. unfold tx_bind at 1. rewrite Hc. unfold tx_bind at 1, tx_read. rewrite Hl.
  cbv zeta. destruct (match ds_checkpoint st with Some c => _ | None => _ end); [done|].
  destruct (_ || _); [done|]. unfold tx_bind. by destruct (advanceCheckpoint _ _ _ _) as [[e|[x y]] d].
Qed.

Lemma not_past_checkpoint cp p :
  above cp p -> match cp with Some c => comparePoints p (Some c) <=? 0 | None => false end = false.
Proof. destruct cp as [c|]; [|done]. cbn. rewrite point_lt_iff. intros. by apply Z.leb_gt. Qed.

Lemma within_fence fence p :
  opt_le (Some p) fence -> match fence with None => true | Some r => 0 <? comparePoints p (Some r) end = false.
Proof.
  destruct fence as [r|]; [|done]. cbn. intros Hle. apply Z.ltb_ge. apply point_le_lteq in Hle as [Hlt| ->].
  - apply point_lt_iff in Hlt. destruct (comparePoints_cases p r) as [[-> _]|[->|[? E]]]; [lia| |lia].
    by rewrite comparePoints_refl.
  - by rewrite comparePoints_refl.
Qed.

Lemma later_above cp p : above cp p -> later cp (Some p) = Some p.
Proof.
  destruct cp as [c|]; [|done]. cbn [above later]. unfold point_lt. intros Hlt.
  by rewrite (proj2 (Z.leb_gt _ _) Hlt).
Qed.

Lemma deliver_in_window b p now db st :
  current b db -> loadDelivery (bindingFingerprint b) db = Some st -> delivery_ok st -> p ∈ ds_returned st ->
  exists db',
    commit (deliver_tx b p) now db =
      (inr (DeliverResult (Some (p_id p), Some (p_created_at p)) true (bindingFingerprint b)), db') /\
    written (bindingFingerprint b) (advanced st p) db db' /\ ds_checkpoint (advanced st p) = Some p.
Proof.
  intros Hc Hl Hok Hin. unfold commit. rewrite (deliver_tx_state _ _ _ _ _ Hc Hl).
  assert (Hab := dok_above _ Hok _ Hin). assert (Hbe := dok_below _ Hok _ Hin).
  rewrite not_past_checkpoint, within_fence, bool_decide_eq_true_2 by done. cbn [negb orb].
  destruct (advanceCheckpoint_spec _ st p now db Hl Hok Hbe) as (db' & Hadv & Hw).
  exists db'. unfold tx_bind, tx_ret. rewrite Hadv. cbn [fst snd].
  assert (Hcp : ds_checkpoint (advanced st p) = Some p) by (cbn; by apply later_above).
  rewrite Hcp. cbn [checkpointView fmap option_fmap option_map].
  apply above_iff in Hab. by rewrite (proj2 (Z.ltb_lt _ _) Hab).
Qed.

(** Deliver has exactly three answers.  An entry of the current read window
    becomes the checkpoint, and of the window only the entries after it remain;
    an entry at or before the checkpoint is reported as already delivered and
    nothing changes; every other entry is refused and nothing changes. *)
Theorem representative_deliver_answers b p now db st :
  current b db -> loadDelivery (bindingFingerprint b) db = Some st -> delivery_ok st ->
  (p ∈ ds_returned st /\ exists db' st',
     commit (deliver_tx b p) now db =
       (inr (DeliverResult (Some (p_id p), Some (p_created_at p)) true (bindingFingerprint b)), db') /\
     loadDelivery (bindingFingerprint b) db' = Some st' /\
     ds_checkpoint st' = Some p /\ ds_readThrough st' = ds_readThrough st /\
     forall q, q ∈ ds_returned st' <-> q ∈ ds_returned st /\ point_lt p q) \/
  (p ∉ ds_returned st /\ opt_le (Some p) (ds_checkpoint st) /\
     commit (deliver_tx b p) now db =
       (inr (DeliverResult (checkpointView (ds_checkpoint st)) false (bindingFingerprint b)), db)) \/
  (p ∉ ds_returned st /\ above (ds_checkpoint st) p /\
     commit (deliver_tx b p) now db = (inl outside_window, db)).
Proof.
  intros Hc Hl Hok. destruct (decide (p ∈ ds_returned st)) as [Hin|Hout]; [left|right].
  - destruct (deliver_in_window b p now db st Hc Hl Hok Hin) as (db' & Hrun & Hw & Hcp).
    split; [done|]. exists db', (advanced st p). split; [done|]. split; [apply Hw|]. split; [done|]. split; [done|].
    intros q. change (ds_returned (advanced st p)) with (after_checkpoint (ds_checkpoint (advanced st p)) (ds_returned st)).
    rewrite Hcp. apply elem_after_checkpoint.
  - unfold commit. rewrite (deliver_tx_state _ _ _ _ _ Hc Hl).
    destruct (match ds_checkpoint st with Some c => _ | None => _ end) eqn:E; [left|right].
    + split; [done|]. split; [|done]. destruct (ds_checkpoint st) as [c|]; [|done].
      apply Z.leb_le in E. done.
    + rewrite bool_decide_eq_false_2 by done. cbn [negb orb]. split; [done|]. split; [|done].
      destruct (ds_checkpoint st) as [c|]; [|done]. apply Z.leb_gt in E. by apply point_lt_iff.
Qed.
End ReadSpec.

(** * Who the representative talks to, and how it is bound

    The choice of the Coordinator, the arguments of a send, the recovery command
    and the operator's confirmation of a binding. *)

Section BindSpec.
Context `{RepEnv}.

(** ** The Coordinator *)

Lemma resolveCoordinator_drone r label self d role :
  resolveCoordinator r label self = inr (d, role) ->
  List.filter (fun x => String.eqb (rd_label x) label) (rs_drones r) = [d] /\ rd_id d <> self /\
  List.find (fun c => String.eqb (ro_id c) (rd_role_id d)) (rs_roles r) = Some role /\
  ro_is_human_seat role = Some true.
Proof.
  unfold resolveCoordinator. destruct (List.filter _ _) as [|x [|y l]]; [done| |done].
  destruct (String.eqb_spec (rd_id x) self) as [|Hne]; [done|].
  destruct (List.find _ _) as [c|] eqn:Hf; [|done]. case_bool_decide as Hh; [|done].
  by intros [= <- <-].
Qed.

(** The Coordinator is selected, never guessed.  A selection succeeds
    exactly when one single drone of the roster carries the label, it is not the
    representative itself and its role is the human seat; and a verified
    binding is served by the very drone it names, holding the human seat, with
    the representative's own role neither a human seat nor of queen class. *)
Theorem representative_coordinator_selected r label self b :
  (forall d role, resolveCoordinator r label self = inr (d, role) <->
     List.filter (fun x => String.eqb (rd_label x) label) (rs_drones r) = [d] /\ rd_id d <> self /\
     List.find (fun c => String.eqb (ro_id c) (rd_role_id d)) (rs_roles r) = Some role /\
     ro_is_human_seat role = Some true) /\
  (forall c me, verify_roster b r = inr (c, me) ->
     c ∈ rs_drones r /\ rd_id c = coordinatorDroneId b /\ me ∈ rs_drones r /\ rd_id me = representativeDroneId b /\
     exists cRole mRole, cRole ∈ rs_roles r /\ ro_id cRole = rd_role_id c /\ ro_is_human_seat cRole = Some true /\
       mRole ∈ rs_roles r /\ ro_id mRole = rd_role_id me /\ ro_is_human_seat mRole <> Some true /\
       ro_role_class mRole <> Some "queen"%string /\ rd_is_queen_class me <> Some true).
Proof.
  split.
  - intros d role. split; [apply resolveCoordinator_drone|]. intros (Hf & Hne & Hrole & Hh).
    unfold resolveCoordinator. rewrite Hf, Hrole, bool_decide_eq_true_2 by done.
    by apply String.eqb_neq in Hne as ->.
  - intros c me. unfold verify_roster.
    assert (Hfind : forall A (f : A -> string) k l x,
      List.find (fun y => String.eqb (f y) k) l = Some x -> x ∈ l /\ f x = k).
    { intros A f k l x [Hin Hk]%find_some. by apply list_elem_of_In in Hin; apply String.eqb_eq in Hk. }
    destruct (List.find _ (rs_drones r)) as [m|] eqn:Hm; cbn [mbind option_bind]; [|done].
    apply Hfind in Hm as [Hm Hmid].
    destruct (List.find _ (rs_roles r)) as [mr|] eqn:Hmr; [|done]. apply Hfind in Hmr as [Hmr Hmrid].
    unfold assertRepresentativeRole. destruct (_ || _) eqn:Hr; [done|].
    apply orb_false_iff in Hr as [[Hr1 Hr2]%orb_false_iff Hr3].
    apply bool_decide_eq_false in Hr1, Hr2, Hr3. cbn in Hr3.
    destruct (List.find (fun d => String.eqb (rd_id d) (coordinatorDroneId b)) (rs_drones r)) as [x|] eqn:Hx; [|done].
    cbn [mbind option_bind]. apply Hfind in Hx as [Hx Hxid].
    destruct (List.find (fun c0 => String.eqb (ro_id c0) (rd_role_id x)) (rs_roles r)) as [xr|] eqn:Hxr; [|done].
    apply Hfind in Hxr as [Hxr Hxrid]. case_bool_decide as Hh; [|done]. intros [= -> ->].
    split; [done|]. split; [done|]. split; [done|]. split; [done|]. by exists xr, mr.
Qed.

(** ** The arguments of a send *)

Lemma kind_of_some v k : kind_of v = Some k -> v = Some (JStr (kind_name k)).
Proof.
  destruct v as [[]|]; try done. cbn. destruct (String.eqb_spec s "request") as [->|_]; [by intros [= <-]|].
  destruct (String.eqb_spec s "question") as [->|_]; [by intros [= <-]|].
  destruct (String.eqb_spec s "decision") as [->|_]; [by intros [= <-]|done].
Qed.

Lemma authorization_of_some v a : authorization_of v = Some a -> v = Some (JStr (authorization_name a)).
Proof.
  destruct v as [[]|]; try done. cbn. destruct (String.eqb_spec s "user_authorized") as [->|_]; [by intros [= <-]|].
  destruct (String.eqb_spec s "model_advice") as [->|_]; [by intros [= <-]|done].
Qed.

Lemma unknown_fields_nil allowed v k : unknown_fields allowed v = [] -> k ∈ object_keys v -> k ∈ allowed.
Proof.
  unfold unknown_fields. intros Hn Hk. destruct (decide (k ∈ allowed)) as [?|Hout]; [done|].
  assert (Hf : k ∈ filter (fun k => k ∉ allowed) (object_keys v)) by (by apply list_elem_of_filter).
  rewrite Hn in Hf. by apply elem_of_nil in Hf.
Qed.

Lemma request_id_ok_cases v :
  request_id_ok v = true ->
  match to_lower <$> jstr v with
  | Some id => exists s, v = Some (JStr s) /\ isRepresentativeUuid (Some (JStr s)) = true /\ id = to_lower s
  | None => v = None \/ v = Some JNull
  end.
Proof. destruct v as [[]|]; try done; cbn; intros Hu; [by right|by exists s|by left]. Qed.

(** What a send accepts is within its contract: only the four documented
    fields, so that no recipient or visibility can be chosen; the text verbatim,
    not blank and at most 3000 bytes; an absent, null or well-formed request id;
    and a decision only as explicitly authorized by the user. *)
Theorem representative_send_input raw i :
  validateSendInput raw = inr i ->
  (forall k, k ∈ object_keys raw -> k ∈ SEND_FIELDS) /\
  jget "message" raw = Some (JStr (si_message i)) /\ trim (si_message i) <> "" /\
  (String.length (si_message i) <= 3000)%nat /\
  jget "kind" raw = Some (JStr (kind_name (si_kind i))) /\
  jget "authorization" raw = Some (JStr (authorization_name (si_authorization i))) /\
  match si_request_id i with
  | Some id => exists s, jget "request_id" raw = Some (JStr s) /\ isRepresentativeUuid (Some (JStr s)) = true /\ id = to_lower s
  | None => jget "request_id" raw = None \/ jget "request_id" raw = Some JNull
  end /\
  (si_kind i = KDecision -> si_authorization i = UserAuthorized).
Proof.
  unfold validateSendInput. destruct (is_object raw); cbn [negb]; [|done].
  destruct (unknown_fields SEND_FIELDS raw) as [|] eqn:Hun; [|done].
  destruct (kind_of _) as [k|] eqn:Hk; [|done]. destruct (authorization_of _) as [a|] eqn:Ha; [|done].
  destruct (jget "message" raw) as [[]|]; try done.
  destruct (String.eqb_spec (trim s) "") as [|Hblank]; [done|].
  destruct (_ <? String.length s)%nat eqn:Hlen; [done|]. apply Nat.ltb_ge in Hlen.
  destruct (request_id_ok _) eqn:Hid; [|done]. cbn [negb].
  apply kind_of_some in Hk. apply authorization_of_some in Ha.
  assert (Hkeys : forall key, key ∈ object_keys raw -> key ∈ SEND_FIELDS)
    by (intros key; by apply unknown_fields_nil).
  apply request_id_ok_cases in Hid.
  intros Hi. assert (i = SendInput (to_lower <$> jstr (jget "request_id" raw)) k a s /\ (k = KDecision -> a = UserAuthorized))
    as [-> Hd] by (destruct k, a; cbv iota beta in Hi; simplify_eq; done).
  cbn [si_message si_kind si_authorization si_request_id]. done.
Qed.

(** ** Binding *)

#[local] Opaque shellEscape.

Lemma recovery_words wt label role :
  sh_commands ("cd " +:+ shellEscape wt +:+ " && borg representative prepare --coordinator " +:+
    shellEscape label +:+ " --role " +:+ shellEscape role +:+ " --rebind") =
  Some [["cd"; wt]; ["borg"; "representative"; "prepare"; "--coordinator"; label; "--role"; role; "--rebind"]].
Proof.
  unfold sh_commands. do 3 (simpl; rewrite !append_nil_l, sh_scan_shellEscape). reflexivity.
Qed.

(** The recovery command an error prints is safe to paste: whatever
    characters the worktree path, the Coordinator's label and the role's name
    hold, a POSIX shell reads the line as exactly two commands, the change to the
    worktree and the rebinding to that label and role, with each value as one
    argument. *)
Theorem representative_recovery_command_pastes b :
  sh_commands (representativeRecoveryCommand b) =
  Some [["cd"; worktree b];
        ["borg"; "representative"; "prepare"; "--coordinator"; coordinatorLabel b;
         "--role"; representativeRoleName b; "--rebind"]].
Proof. apply recovery_words. Qed.

(** Confirming a binding is exact.  The selection the worktree is already bound to is left as it is; a different
    selection is refused unless the operator asked to rebind; a rebind of the
    same selection carries the whole request ledger over, unresolved sends
    included; and a refusal changes nothing. *)
Theorem representative_confirm_binding wt cur l b now db :
  holds wt cur l db -> worktree b = wt -> validBinding (binding_json b) wt = true ->
  t_requests db !! bindingFingerprint b = None ->
  (sameSelection cur b = true -> commit (saveBinding b false) now db = (inr Unchanged, db)) /\
  (sameSelection cur b = false -> exists e,
     commit (saveBinding b false) now db = (inl e, db) /\ code_of e = Some "BINDING_CONFLICT"%string) /\
  (forall db', sameSelection cur b = true -> commit (saveBinding b true) now db = (inr Rebound, db') ->
     holds wt b l db' /\ forall t, readRequests wt t db' = (inr l, db')) /\
  (forall rebind e db', commit (saveBinding b rebind) now db = (inl e, db') -> db' = db).
Proof.
  intros Hh Hwt Hv Hnew. assert (Hh' := Hh). destruct Hh' as [(o & Hrow) _ _ _].
  split; [|split; [|split]].
  - intros Hs. unfold commit, saveBinding, tx_bind. rewrite Hwt, Hv. cbn [negb]. cbv beta. rewrite Hrow.
    cbn [cr_binding]. by rewrite Hs.
  - intros Hs. unfold commit, saveBinding, tx_bind. rewrite Hwt, Hv. cbn [negb]. cbv beta. rewrite Hrow.
    cbn [cr_binding]. rewrite Hs. by eexists.
  - intros db' Hs Hc. assert (Hb : holds wt b l db') by (by eapply saveBinding_rebound).
    split; [done|]. intros t. by apply readRequests_holds with (b := b).
  - intros rebind e db'. apply commit_err.
Qed.
End BindSpec.
