(* ===== verification/RepRound.v ===== *)
(** * Read, deliver, read again

    A host that reads, delivers through the last reply it was given and reads
    again, against a server that answers from an ordered log: every entry
    addressed to the representative is handed over once, in order. *)

From S2P Require Import Prelude JsDate JsonText Effects RepDb RepCore RepSend RepRead.
From S2P Require Import RepDeliveryFacts RepReadSpec.

Open Scope Z_scope.
Open Scope prog_scope.

(** ** What a log holds for the representative *)

Section Handed.
Context `{RepEnv}.
Variable b : binding.
Variable ib : bool.

Definition handed_entries (l : list log_entry) : list log_entry := List.filter (fun e => negb (is_ignored b ib e)) l.

Lemma handed_app l1 l2 : handed_entries (l1 ++ l2) = handed_entries l1 ++ handed_entries l2.
Proof. apply List.filter_app. Qed.

Lemma reference_handed ids ign l :
  map ca_point (reference b ids ib ign l) = map entry_point (handed_entries l) /\
  candidate_ids (reference b ids ib ign l) = map e_id (handed_entries l).
Proof.
  revert ign. induction l as [|e l IH]; intros ign; [done|].
  cbn [reference handed_entries List.filter]. unfold is_ignored. destruct (taken _ _) as [a|]; cbn [negb].
  - destruct (IH ign) as [H1 H2]. cbn [map]. unfold handed_entries in *. rewrite H1.
    unfold candidate_ids in *. cbn [map]. by rewrite H2.
  - apply IH.
Qed.

Lemma reference_length ids ign l : length (reference b ids ib ign l) = length (handed_entries l).
Proof.
  rewrite <-(length_map entry_point (handed_entries l)), <-(proj1 (reference_handed ids ign l)). by rewrite length_map.
Qed.

Lemma handed_ordered l : ordered l -> ordered (handed_entries l).
Proof.
  induction l as [|e l IH]; [done|]. intros [Ho Hlt]%ordered_cons. unfold handed_entries in *. cbn [List.filter].
  destruct (negb _); [|auto]. unfold ordered. cbn. constructor; [by apply IH|].
  apply Forall_forall. intros x (y & -> & Hy)%list_elem_of_fmap.
  apply Hlt. rewrite list_elem_of_In, filter_In, <-list_elem_of_In in Hy. apply Hy.
Qed.

Lemma handed_in e l : e ∈ handed_entries l -> e ∈ l /\ exists a, isAddressedCoordinatorEntry b e = Some a.
Proof.
  unfold handed_entries. rewrite list_elem_of_In, filter_In, <-list_elem_of_In. intros [Hin Hg]. split; [done|].
  unfold is_ignored, taken in Hg. destruct (isAddressedCoordinatorEntry b e) as [a|]; [by exists a|done].
Qed.

(** After the [n]-th handed entry the rest is what is left of the list. *)
Lemma handed_rest n l e :
  ordered l -> last (take n (handed_entries l)) = Some e ->
  handed_entries (beyond (Some (entry_point e)) l) = drop n (handed_entries l).
Proof.
  revert n. induction l as [|x l IH]; intros n Hord Hlast; [by destruct n|].
  apply ordered_cons in Hord as [Hord Hlt]. rewrite beyond_cons.
  assert (Hin : forall m y, last (take m (handed_entries l)) = Some y -> y ∈ l).
  { intros m y Hy. apply (handed_in y l). apply last_Some_elem_of in Hy.
    rewrite <-(take_drop m (handed_entries l)). apply elem_of_app. by left. }
  assert (Hback : forall m, last (take m (handed_entries l)) = Some e -> 0 <? comparePoints (entry_point x) (Some (entry_point e)) = false).
  { intros m Hm. assert (Hxe := Hlt e (Hin m e Hm)). apply Z.ltb_ge. unfold point_lt in Hxe. lia. }
  cbn [handed_entries List.filter] in *. destruct (negb (is_ignored b ib x)) eqn:Eg.
  - destruct n as [|[|n]]; [done| |].
    + cbn in Hlast. injection Hlast as ->.
      rewrite comparePoints_refl. change (0 <? 0) with false. cbv iota. rewrite beyond_all by done. by destruct l.
    + cbn [take drop] in *. destruct (take (S n) (handed_entries l)) as [|y r] eqn:Et.
      * unfold handed_entries in Et. rewrite Et in Hlast. cbn in Hlast. injection Hlast as ->.
        rewrite comparePoints_refl. change (0 <? 0) with false. cbv iota. rewrite beyond_all by done. unfold handed_entries.
        destruct (List.filter _ l); [done|by cbn in Et].
      * unfold handed_entries in Et. rewrite Et in Hlast. change (last (y :: r) = Some e) in Hlast.
        rewrite <-Et in Hlast. rewrite (Hback _ Hlast). by apply IH.
  - rewrite (Hback _ Hlast). by apply IH.
Qed.
End Handed.

Section Round.
Context `{RepEnv}.
Variable h : honest.
Variable b : binding.

(** The server confirms the binding, and its log is ordered and names an entry
    by its id. *)
Record served : Prop := {
  sv_cube : wh_cube_id (hn_who h) = cubeId b;
  sv_drone : wh_drone_id (hn_who h) = representativeDroneId b;
  sv_roster : exists v, verify_roster b (hn_roster h) = inr v;
  sv_ordered : ordered (hn_log h);
  sv_ids : NoDup (map e_id (hn_log h));
  sv_uuids : forall e, e ∈ hn_log h -> isRepresentativeUuid (Some (JStr (e_id e))) = true
}.
Hypothesis Hsv : served.

Lemma run_verify db : exists v, run (serve h) (verifyLiveBinding b) db = (Done v, db).
Proof.
  destruct Hsv as [Hcube Hdrone [v Hv] _ _ _]. exists v. unfold verifyLiveBinding.
  rewrite run_bind, run_perform. cbn [serve]. rewrite Hcube, Hdrone, !String.eqb_refl. cbn [negb orb].
  rewrite run_bind, run_perform. cbn [serve]. by rewrite Hv.
Qed.

Lemma run_transact {A} (body : tx A) db :
  run (serve h) (transact body) db =
  match commit body (hn_now h) db with (inl e, db') => (Failed e, db') | (inr a, db') => (Done a, db') end.
Proof. unfold transact. by rewrite run_perform. Qed.

Lemma current_row db : current b db -> forall now, exists row, require_current_row b now db = (inr row, db).
Proof.
  intros Hc now. specialize (Hc now). unfold requireCurrentGeneration, require_current_row, tx_bind in *.
  destruct (currentBindingRow (worktree b) now db) as [[e|[row|]] d]; [done| |done].
  destruct (String.eqb _ _); [|done]. exists row. by injection Hc as ->.
Qed.

Lemma run_ensure db st :
  current b db -> loadDelivery (bindingFingerprint b) db = Some st -> String.eqb (ds_startKind st) "head-pending" = false ->
  run (serve h) (ensureRepresentativeState b) db = (Done tt, db).
Proof.
  intros Hc Hl Hk. unfold ensureRepresentativeState, ensureDeliveryState. rewrite run_bind, run_transact.
  assert (He : commit (ensure_row b) (hn_now h) db = (inr false, db)).
  { apply commit_ok. unfold ensure_row, tx_bind. destruct (current_row db Hc (hn_now h)) as [row ->].
    unfold tx_read, startKindOf. unfold loadDelivery in Hl.
    destruct (t_delivery db !! bindingFingerprint b) as [dr|]; [|done]. cbn. injection Hl as <-. cbn in Hk. by rewrite Hk. }
  by rewrite He.
Qed.

Lemma run_snapshot db st :
  current b db -> loadDelivery (bindingFingerprint b) db = Some st ->
  exists ids, run (serve h) (transact (read_snapshot b)) db = (Done (st, ids), db).
Proof.
  intros Hc Hl. rewrite run_transact. unfold commit, read_snapshot, tx_bind. rewrite Hc. unfold tx_read. rewrite Hl.
  by eexists.
Qed.

Lemma scanStart_le st cursor floor :
  scanStart st = inr (cursor, floor) ->
  opt_le cursor (Some floor) /\ (forall c, ds_checkpoint st = Some c -> point_le c floor) /\
  Some floor = later (Some (ds_start st)) (ds_checkpoint st).
Proof.
  unfold scanStart. destruct (String.eqb _ "head-pending"); [done|].
  destruct (later_spec (Some (ds_start st)) (ds_checkpoint st)) as (H1 & H2 & Heq).
  assert (Hf : Some (default (ds_start st) (later (Some (ds_start st)) (ds_checkpoint st))) =
               later (Some (ds_start st)) (ds_checkpoint st)).
  { unfold later. destruct (ds_checkpoint st); [|done]. by destruct (0 <=? _). }
  set (fl := default _ _) in *. intros Hs.
  assert (fl = floor) as -> by (destruct (ds_checkpoint st); by injection Hs).
  rewrite <-Hf in *. split; [|split; [|done]].
  - destruct (ds_checkpoint st) as [c|]; [by injection Hs as <-|].
    destruct (String.eqb _ "binding"); by injection Hs as <-.
  - intros c Hc. by rewrite Hc in H2.
Qed.

(** ** One read *)

Section Read.
Variable raw : json.
Variable opts : read_options.
Variable fuel : nat.
Hypothesis Hraw : read_input raw = inr opts.
Hypothesis Hfuel : Z.of_nat (length (hn_log h)) < READ_SCAN_PAGE * Z.of_nat fuel.

Definition window_of (r : read_result) (s : scan_state) : list point :=
  map ca_point (take (length (rr_replies r)) (sc_candidates s)).

Lemma run_read db st cursor floor :
  current b db -> loadDelivery (bindingFingerprint b) db = Some st -> delivery_ok st ->
  scanStart st = inr (cursor, floor) ->
  exists ids s, sc_candidates s =
      take (S (ro_limit opts)) (reference b ids (ro_include_broadcast opts) 0 (beyond (Some floor) (hn_log h))) /\
    match fit_result b st (ro_limit opts) (ro_max_bytes opts) s with
    | inl e => run (serve h) (readRepresentativeReplies fuel b raw) db = (Failed e, db)
    | inr r => ends_with_last (window_of r s) ->
        exists db', run (serve h) (readRepresentativeReplies fuel b raw) db = (Done (Some r), db') /\
          match last (window_of r s) with
          | None => db' = db
          | Some tail => written (bindingFingerprint b) (widened st (window_of r s) tail) db db'
          end
    end.
Proof.
  intros Hc Hl Hok Hs. destruct (scanStart_le _ _ _ Hs) as (Hle & _ & _).
  assert (Hk : String.eqb (ds_startKind st) "head-pending" = false).
  { unfold scanStart in Hs. by destruct (String.eqb _ "head-pending"). }
  destruct (run_verify db) as [v Hv]. destruct (run_snapshot db st Hc Hl) as [ids Hids].
  destruct (representative_scan_core h b ids (ro_include_broadcast opts) (ro_limit opts) cursor floor db fuel
    (sv_ordered Hsv) Hle Hfuel) as (s & Hscan & Hcand).
  exists ids, s. split; [done|].
  assert (Hrun : run (serve h) (readRepresentativeReplies fuel b raw) db =
    run (serve h) (let! final := of_sum (fit_result b st (ro_limit opts) (ro_max_bytes opts) s) in
      do! transact (read_widen b (window_of final s)); Ret (Some final)) db).
  { unfold readRepresentativeReplies. rewrite Hraw, run_bind. cbn [of_sum run].
    rewrite run_bind, Hv, run_bind, (run_ensure db st Hc Hl Hk), run_bind, Hids, run_bind, Hs.
    cbn [of_sum run]. by rewrite run_bind, Hscan. }
  rewrite Hrun. destruct (fit_result _ _ _ _ _) as [e|r]; [done|]. intros He.
  destruct (last (window_of r s)) as [tail|] eqn:Ht.
  - destruct (widenReadWindow_spec (bindingFingerprint b) st (window_of r s) tail (hn_now h) db Hl Hok Ht He)
      as (db' & Hw & Hwr).
    exists db'. split; [|done]. rewrite run_bind. cbn [of_sum run]. rewrite run_bind, run_transact.
    unfold commit, read_widen, tx_bind. by rewrite Hc, Hw.
  - exists db. split; [|done]. rewrite run_bind. cbn [of_sum run]. rewrite run_bind, run_transact.
    unfold commit, read_widen, tx_bind. rewrite Hc. unfold widenReadWindow, tx_bind, tx_read. by rewrite Hl, Ht.
Qed.
End Read.

(** ** One delivery *)

Lemma run_deliver db st e a :
  current b db -> loadDelivery (bindingFingerprint b) db = Some st ->
  String.eqb (ds_startKind st) "head-pending" = false ->
  e ∈ hn_log h -> isAddressedCoordinatorEntry b e = Some a ->
  run (serve h) (deliverRepresentativeReplies b (JObj [("through", JStr (e_id e))])) db =
  match commit (deliver_tx b (entry_point e)) (hn_now h) db with
  | (inl e', db') => (Failed e', db')
  | (inr r, db') => (Done r, db')
  end.
Proof.
  intros Hc Hl Hk Hin Ha. unfold deliverRepresentativeReplies.
  change (unknown_fields _ _) with (@nil string). change (jget "through" _) with (Some (JStr (e_id e))). cbv iota zeta.
  rewrite (sv_uuids Hsv e Hin). cbn [negb]. destruct (run_verify db) as [v Hv].
  rewrite run_bind, Hv, run_bind, (run_ensure db st Hc Hl Hk), run_bind, run_attempt, run_perform. cbn [serve].
  assert (Hfind : List.find (fun x => String.eqb (e_id x) (e_id e)) (hn_log h) = Some e).
  { assert (Hnd := sv_ids Hsv). revert Hin Hnd. generalize (hn_log h). clear. intros l.
    induction l as [|x l IH]; [by intros ?%elem_of_nil|]. cbn. intros [->|Hin]%elem_of_cons [Hx Hnd]%NoDup_cons.
    - by rewrite String.eqb_refl.
    - destruct (String.eqb_spec (e_id x) (e_id e)) as [E|E]; [|by apply IH].
      destruct Hx. rewrite E. by apply list_elem_of_fmap_2. }
  rewrite Hfind. cbv iota. rewrite String.eqb_refl, bool_decide_eq_false_2 by (by rewrite Ha). cbn [negb orb].
  apply run_transact.
Qed.

(** ** The round *)

Lemma log_unique e1 e2 : e1 ∈ hn_log h -> e2 ∈ hn_log h -> e_id e1 = e_id e2 -> e1 = e2.
Proof.
  intros H1 H2 Hid. apply list_elem_of_lookup in H1 as [i Hi]. apply list_elem_of_lookup in H2 as [j Hj].
  assert (i = j) as ->; [|congruence].
  eapply (NoDup_lookup (map e_id (hn_log h))); [apply (sv_ids Hsv)|..]; rewrite list_lookup_fmap.
  - by rewrite Hi.
  - by rewrite Hj, Hid.
Qed.

Definition floor_of (st : delivery_state) : point :=
  default (ds_start st) (later (Some (ds_start st)) (ds_checkpoint st)).

(** Nothing read is left undelivered. *)
Record ready (db : rep_db) (st : delivery_state) : Prop := {
  rd_current : current b db;
  rd_load : loadDelivery (bindingFingerprint b) db = Some st;
  rd_ok : delivery_ok st;
  rd_empty : ds_returned st = [];
  rd_resolved : String.eqb (ds_startKind st) "head-pending" = false
}.

Lemma ready_scan db st : ready db st -> exists cursor, scanStart st = inr (cursor, floor_of st).
Proof.
  intros [_ _ _ _ Hk]. unfold scanStart, floor_of. rewrite Hk. cbv zeta.
  destruct (ds_checkpoint st); [by eexists|]. destruct (String.eqb _ "binding"); by eexists.
Qed.

(** The window of a read is made of entries of the log. *)
Lemma dedup_length seen l : (length (dedup_ids seen l) <= length l)%nat.
Proof.
  revert seen. induction l as [|x l IH]; intros seen; cbn [dedup_ids length]; [lia|].
  destruct (bool_decide _); [specialize (IH seen)|specialize (IH (p_id x :: seen)); cbn [length]]; lia.
Qed.

Lemma widened_window st window tail p :
  ds_returned st = [] -> (length window <= RETURNED_CAP)%nat ->
  (forall q, q ∈ window -> above (ds_checkpoint st) q) ->
  (forall q, q ∈ window -> p_id q = p_id p -> q = p) -> p ∈ window ->
  p ∈ ds_returned (widened st window tail) /\ (forall q, q ∈ ds_returned (widened st window tail) -> q ∈ window).
Proof.
  intros Hr Hlen Hab Huniq Hp. cbn [widened ds_returned]. rewrite Hr. cbn [app].
  destruct (dedup_ids_spec [] window) as (_ & Hsub & Hall). set (d := dedup_ids [] window) in *.
  set (kept := sort_points (after_checkpoint (ds_checkpoint st) d)).
  assert (Hkept : forall q, q ∈ kept <-> q ∈ d /\ above (ds_checkpoint st) q)
    by (intros q; unfold kept; rewrite sort_points_perm; apply elem_after_checkpoint).
  assert (Hsl : slice_last RETURNED_CAP kept = kept).
  { unfold slice_last. assert (length kept <= RETURNED_CAP)%nat; [|by replace (_ - _)%nat with 0%nat by lia].
    unfold kept. rewrite sort_points_perm. unfold after_checkpoint. etrans; [apply List.filter_length_le|].
    etrans; [apply dedup_length|done]. }
  rewrite Hsl. split.
  - apply Hkept. split; [|by apply Hab]. destruct (Hall p Hp ltac:(by intros ?%elem_of_nil)) as (q & Hq & Hid).
    assert (q = p) as Hqp by (apply Huniq; [by apply (Hsub q)|done]). by rewrite <-Hqp.
  - intros q Hq. apply Hsub, Hkept, Hq.
Qed.

Lemma later_le p q : point_le p q -> later (Some p) (Some q) = Some q.
Proof.
  cbn [later]. intros [Hlt| ->]%point_le_lteq.
  - unfold point_lt in Hlt. by rewrite (proj2 (Z.leb_gt _ _) Hlt).
  - by destruct (0 <=? _).
Qed.

Lemma advanced_ready db db' db'' st window p :
  ready db st -> written (bindingFingerprint b) (widened st window p) db db' ->
  written (bindingFingerprint b) (advanced (widened st window p) p) db' db'' ->
  last window = Some p -> ends_with_last window ->
  above (ds_checkpoint st) p -> point_le (floor_of st) p ->
  (forall q, q ∈ ds_returned (widened st window p) -> q ∈ window) ->
  ready db'' (advanced (widened st window p) p) /\ floor_of (advanced (widened st window p) p) = p.
Proof.
  intros [Hc Hl Hok Hr Hk] Hw1 Hw2 Hlast Hends Hab Hle Hsub.
  assert (Hcp : later (ds_checkpoint st) (Some p) = Some p) by by apply later_above.
  assert (Hok1 := proj1 (widened_ok _ _ _ Hok Hlast Hends)).
  assert (Hstart : point_le (ds_start st) p).
  { eapply point_le_trans; [|exact Hle]. unfold floor_of.
    destruct (later_spec (Some (ds_start st)) (ds_checkpoint st)) as (H1 & _ & _).
    destruct (later (Some (ds_start st)) (ds_checkpoint st)) as [f|]; [exact H1|apply point_le_refl]. }
  split; [split|].
  - eapply current_frame; [by rewrite (wr_bindings _ _ _ _ Hw2), (wr_bindings _ _ _ _ Hw1)|done].
  - apply Hw2.
  - apply advanced_ok; [done|]. cbn [widened ds_readThrough]. apply (later_spec _ (Some p)).
  - cbn [advanced ds_returned]. change (ds_checkpoint (widened st window p)) with (ds_checkpoint st). rewrite Hcp.
    destruct (after_checkpoint _ _) as [|q l] eqn:E; [done|].
    assert (Hq : q ∈ after_checkpoint (Some p) (ds_returned (widened st window p))) by (rewrite E; left).
    apply elem_after_checkpoint in Hq as [Hq Hgt]. cbn in Hgt. apply Hsub in Hq.
    destruct (point_lt_irrefl p). eapply point_lt_le_trans; [exact Hgt|]. by apply Hends.
  - done.
  - unfold floor_of. cbn [advanced ds_checkpoint]. change (ds_checkpoint (widened st window p)) with (ds_checkpoint st).
    change (ds_start _) with (ds_start st). by rewrite Hcp, later_le.
Qed.

Section Rounds.
Variable raw : json.
Variable opts : read_options.
Variable fuel : nat.
Hypothesis Hraw : read_input raw = inr opts.
Hypothesis Hfuel : Z.of_nat (length (hn_log h)) < READ_SCAN_PAGE * Z.of_nat fuel.

Local Abbreviation ib := (ro_include_broadcast opts).

Lemma bounded_range input name lo hi d v : lo <= d <= hi -> bounded input name lo hi d = inr v -> lo <= v <= hi.
Proof.
  intros Hd. unfold bounded. destruct (jget name input) as [[]|]; try done; [|by intros [= <-]].
  destruct (_ || _) eqn:E; [done|]. intros [= <-]. apply orb_false_iff in E as [?%Z.ltb_ge ?%Z.ltb_ge]. lia.
Qed.

Lemma read_input_limit : (1 <= ro_limit opts <= 50)%nat.
Proof.
  unfold read_input in Hraw. destruct (unknown_fields _ _); [|done].
  assert (Hb := bounded_range raw "limit" 1 50 10). revert Hraw Hb.
  destruct (bounded raw "limit" 1 50 10) as [e|v]; [by destruct (jget "include_broadcast" raw) as [[]|]|].
  intros Hraw' Hb. specialize (Hb v ltac:(lia) eq_refl).
  assert (ro_limit opts = Z.to_nat v) as ->; [|lia].
  revert Hraw'. destruct (jget "include_broadcast" raw) as [[]|]; try done;
    (destruct (bounded raw "max_bytes" _ _ _); [done|by intros [= <-]]).
Qed.

(** What is still to be handed over in a state. *)
Definition pending (st : delivery_state) : list log_entry :=
  handed_entries b ib (beyond (Some (floor_of st)) (hn_log h)).

(** The host's part: read, route what came, deliver through the last reply. *)
Definition host_round : rep (list string) :=
  let! got := readRepresentativeReplies fuel b raw in
  match got with
  | None => Throw (JsError "the log is longer than the scan")
  | Some r =>
      match last (reply_ids r) with
      | None => Ret []
      | Some through => do! deliverRepresentativeReplies b (JObj [("through", JStr through)]); Ret (reply_ids r)
      end
  end.

Definition oversize_code : string := "REPRESENTATIVE_READ_OVERSIZE".

Lemma fit_result_error st s e :
  fit_result b st (ro_limit opts) (ro_max_bytes opts) s = inl e -> code_of e = Some oversize_code.
Proof. unfold fit_result. cbv zeta. destruct (_ && _); [|done]. by intros [= <-]. Qed.

Lemma host_round_spec db st :
  ready db st ->
  (pending st = [] /\ run (serve h) host_round db = (Done [], db)) \/
  (pending st <> [] /\ exists e, run (serve h) host_round db = (Failed e, db) /\ code_of e = Some oversize_code) \/
  (exists n db' st', (0 < n)%nat /\ pending st <> [] /\
     run (serve h) host_round db = (Done (map e_id (take n (pending st))), db') /\
     ready db' st' /\ pending st' = drop n (pending st)).
Proof.
  intros Hrd. destruct (ready_scan db st Hrd) as [cursor Hscan]. assert (Hrd' := Hrd).
  destruct Hrd' as [Hc Hl Hok Hempty Hk].
  destruct (run_read raw opts fuel Hraw Hfuel db st cursor (floor_of st) Hc Hl Hok Hscan) as (ids & s & Hcand & Hrun).
  destruct (scanStart_le _ _ _ Hscan) as (_ & Hcple & _).
  set (l := beyond (Some (floor_of st)) (hn_log h)) in *.
  assert (Hlen : length (sc_candidates s) = Nat.min (S (ro_limit opts)) (length (pending st)))
    by (by rewrite Hcand, length_take, reference_length).
  assert (Hlim := read_input_limit).
  destruct (fit_result _ _ _ _ _) as [e|r] eqn:Efit.
  { right. left. split.
    - intros Hp. rewrite Hp in Hlen. cbn [length] in Hlen.
      destruct (sc_candidates s) as [|c cs] eqn:Es; [|cbn [length] in Hlen; lia]. unfold fit_result in Efit. rewrite Es in Efit.
      cbn [length] in Efit. rewrite Nat.min_0_r in Efit. cbn in Efit. done.
    - exists e. split; [|by eapply fit_result_error]. unfold host_round. by rewrite run_bind, Hrun. }
  destruct (decide (pending st = [])) as [Hp|Hp].
  { left. split; [done|]. rewrite Hp in Hlen. cbn [length] in Hlen.
    destruct (sc_candidates s) as [|c cs] eqn:Es; [|cbn [length] in Hlen; lia].
    unfold fit_result in Efit. rewrite Es in Efit. cbn [length] in Efit. rewrite Nat.min_0_r in Efit. cbn in Efit.
    injection Efit as <-. destruct Hrun as (db' & Hrun & ->); [by intros tail|].
    unfold host_round. by rewrite run_bind, Hrun. }
  right. right. destruct (fit_result_ids b st (ro_limit opts) (ro_max_bytes opts) s r) as (n & Hn & Hids).
  { lia. }
  { intros Hs. rewrite Hs in Hlen. destruct (pending st); [done|]. cbn [length] in Hlen. lia. }
  { done. }
  set (pick := take n (pending st)).
  assert (Hpts : map ca_point (take n (sc_candidates s)) = map entry_point pick).
  { rewrite Hcand, take_take, Nat.min_l by lia. unfold pick. rewrite <-!firstn_map.
    by rewrite (proj1 (reference_handed b ib ids 0 l)). }
  assert (Hrep : reply_ids r = map e_id pick).
  { rewrite Hids, Hcand, take_take, Nat.min_l by lia. unfold candidate_ids, pick. rewrite <-!firstn_map.
    assert (H2 := proj2 (reference_handed b ib ids 0 l)). unfold candidate_ids in H2. by rewrite H2. }
  assert (Hwin : window_of r s = map entry_point pick).
  { unfold window_of. rewrite <-Hpts. f_equal. f_equal.
    rewrite <-(length_map rp_entry_id (rr_replies r)). change (length (reply_ids r) = n).
    rewrite Hids. unfold candidate_ids. rewrite length_map, length_take. lia. }
  assert (Hpick : forall x, x ∈ pick -> x ∈ hn_log h /\ point_lt (floor_of st) (entry_point x) /\
    exists a, isAddressedCoordinatorEntry b x = Some a).
  { intros x Hx. assert (x ∈ pending st) as [Hx1 Ha]%handed_in
      by (rewrite <-(take_drop n (pending st)); apply elem_of_app; by left).
    apply elem_beyond in Hx1 as [? ?]. done. }
  destruct (last pick) as [e|] eqn:Hlast.
  2: { apply last_None in Hlast. unfold pick in Hlast. destruct n as [|n]; [lia|]. by destruct (pending st). }
  assert (He : e ∈ pick) by (by apply last_Some_elem_of).
  destruct (Hpick e He) as (Hein & Hefl & [a Ha]).
  assert (Hends : ends_with_last (window_of r s)).
  { rewrite Hwin. apply sorted_ends. unfold pick. rewrite <-firstn_map. apply sorted_take, handed_ordered, ordered_beyond, Hsv. }
  destruct (Hrun Hends) as (db' & Hread & Hwr). rewrite Hwin in Hwr, Hends.
  assert (Hlastw : last (map entry_point pick) = Some (entry_point e)) by (by rewrite (fmap_last entry_point pick : last (map entry_point pick) = _), Hlast).
  rewrite Hlastw in Hwr. set (st1 := widened st (map entry_point pick) (entry_point e)) in *.
  assert (Habove : forall q, q ∈ map entry_point pick -> above (ds_checkpoint st) q).
  { intros q (x & -> & Hx)%list_elem_of_fmap. destruct (Hpick x Hx) as (_ & Hx' & _).
    destruct (ds_checkpoint st) as [c|]; [|done]. cbn. eapply point_le_lt_trans; [by apply Hcple|done]. }
  destruct (widened_window st (map entry_point pick) (entry_point e) (entry_point e) Hempty) as [Hin Hsub].
  { rewrite length_map. unfold pick. rewrite length_take. unfold RETURNED_CAP. lia. }
  { done. }
  { intros q (x & -> & Hx)%list_elem_of_fmap Hid. f_equal. apply log_unique; [by apply Hpick|done|done]. }
  { by apply list_elem_of_fmap_2. }
  assert (Hc1 : current b db') by (eapply current_frame; [apply (wr_bindings _ _ _ _ Hwr)|done]).
  assert (Hok1 := proj1 (widened_ok _ _ _ Hok Hlastw Hends)).
  destruct (deliver_in_window b (entry_point e) (hn_now h) db' st1 Hc1 (wr_load _ _ _ _ Hwr) Hok1 Hin)
    as (db'' & Hdel & Hwr' & _).
  assert (Hle : point_le (floor_of st) (entry_point e)) by (apply point_le_lteq; by left).
  destruct (advanced_ready db db' db'' st _ _ Hrd Hwr Hwr' Hlastw Hends) as [Hready Hfloor].
  { apply Habove. by apply list_elem_of_fmap_2. }
  { done. }
  { done. }
  exists n, db'', (advanced st1 (entry_point e)). split; [lia|]. split; [done|]. split; [|split; [done|]].
  - unfold host_round. rewrite run_bind, Hread. cbv iota. rewrite Hrep, (fmap_last e_id pick : last (map e_id pick) = _). fold pick. rewrite Hlast. cbn [fmap option_fmap option_map].
    rewrite run_bind, (run_deliver db' st1 e a Hc1 (wr_load _ _ _ _ Hwr) Hk Hein Ha), Hdel. done.
  - fold st1 in Hfloor. unfold pending. rewrite Hfloor. fold l. rewrite <-(handed_rest b ib n l e); [|by apply ordered_beyond, (sv_ordered Hsv)|done].
    unfold l. rewrite beyond_beyond; [done|]. intros x _. cbn. intros Hx. by eapply point_le_lt_trans.
Qed.

(** Rounds until nothing comes or a read fails: what was handed over, and the
    state reached. *)
Fixpoint drain (rounds : nat) (db : rep_db) : list string * rep_db :=
  match rounds with
  | O => ([], db)
  | S k =>
      match run (serve h) host_round db with
      | (Done ((_ :: _) as ids), db') => let (more, last_db) := drain k db' in (ids ++ more, last_db)
      | (_, db') => ([], db')
      end
  end.

Lemma drain_spec rounds db st :
  ready db st -> (length (pending st) < rounds)%nat ->
  exists rest st', map e_id (pending st) = fst (drain rounds db) ++ rest /\ ready (snd (drain rounds db)) st' /\
    map e_id (pending st') = rest /\
    (rest = [] \/ exists e, run (serve h) host_round (snd (drain rounds db)) = (Failed e, snd (drain rounds db)) /\
                            code_of e = Some oversize_code).
Proof.
  revert db st. induction rounds as [|k IH]; intros db st Hrd Hk; [lia|]. cbn [drain].
  destruct (host_round_spec db st Hrd) as [[Hp Hrun]|[(Hp & e & Hrun & He)|(n & db' & st' & Hn & Hp & Hrun & Hrd' & Hp')]];
    rewrite Hrun.
  - exists [], st. rewrite Hp. cbn. split; [done|]. split; [done|]. split; [done|by left].
  - exists (map e_id (pending st)), st. split; [done|]. split; [done|]. split; [done|]. right. by exists e.
  - destruct n as [|n]; [lia|]. destruct (pending st) as [|x l] eqn:El; [done|].
    cbn [take map drop] in *. cbn [length] in Hk.
    assert (Hlen : (length (pending st') < k)%nat) by (rewrite Hp', length_drop; lia).
    destruct (IH db' st' Hrd' Hlen) as (rest & st'' & Hl & Hr & Hrest & Hor).
    destruct (drain k db') as [more last_db]. cbn [fst snd] in *. exists rest, st''.
    split; [|done]. cbn [app]. f_equal. rewrite <-app_assoc, <-Hl, Hp', <-map_app. by rewrite take_drop.
Qed.
End Rounds.
End Round.

Section Property.
Context `{RepEnv}.

(** C4. Every entry addressed to the representative is handed over once, in
    order, and none is skipped.  A host that repeatedly reads and delivers
    through the last reply it was given, against a server that answers from an
    ordered log, is handed exactly the entries addressed to the representative
    after the floor: after enough rounds all of them, or those before a reply
    that does not fit any answer, which the read then keeps reporting without
    advancing.  Delivered entries do not come back. *)
Theorem representative_drain h b raw opts fuel rounds db st :
  served h b -> read_input raw = inr opts ->
  Z.of_nat (length (hn_log h)) < READ_SCAN_PAGE * Z.of_nat fuel ->
  ready b db st -> (length (pending h b opts st) < rounds)%nat ->
  exists rest st',
    map e_id (pending h b opts st) = fst (drain h b raw fuel rounds db) ++ rest /\
    ready b (snd (drain h b raw fuel rounds db)) st' /\ map e_id (pending h b opts st') = rest /\
    (rest = [] \/ exists e,
       run (serve h) (host_round b raw fuel) (snd (drain h b raw fuel rounds db)) =
         (Failed e, snd (drain h b raw fuel rounds db)) /\
       code_of e = Some "REPRESENTATIVE_READ_OVERSIZE"%string).
Proof.
  intros Hsv Hraw Hfuel Hrd Hk.
  by apply drain_spec.
Qed.
End Property.
