(* ===== verification/RepWitness.v ===== *)
(** * The representative's properties at concrete inputs

    A concrete binding and decoder, a run of three sends - two whose answers are
    lost, one that is answered - and a server with a small log; at these the
    hypotheses of the properties hold. *)

From S2P Require Import Prelude JsDate JsonText Effects Sha256 ShellEscape RepDb RepCore RepSend RepRead.
From S2P Require Import RepDeliveryFacts RepLedger RepProtocol RepInvariant RepSpec RepReadSpec RepRound.

Open Scope Z_scope.

#[local] Instance demo_env : RepEnv := {
  decodeUuid v := match v with Some (JStr s) => is_uuid s | _ => false end;
  decodeAppendLogRequest _ _ _ := None
}.

Lemma is_hex_lower c : is_hex c = true -> is_hex (to_lower_char c) = true.
Proof. destruct c as [[] [] [] [] [] [] [] []]; vm_compute; congruence. Qed.

Lemma is_dash_lower c : is_dash c = true -> is_dash (to_lower_char c) = true.
Proof. destruct c as [[] [] [] [] [] [] [] []]; vm_compute; congruence. Qed.

Lemma demo_case : uuid_case_insensitive.
Proof.
  intros s. unfold isRepresentativeUuid. cbn [decodeUuid demo_env]. unfold is_uuid, to_lower.
  assert (Hall : Forall (fun p : ascii -> bool => forall c, p c = true -> p (to_lower_char c) = true) uuid_shape).
  { repeat constructor; first [exact is_hex_lower|exact is_dash_lower]. }
  revert s. induction Hall as [|p shape Hp _ IH]; intros [|c s]; cbn [match_shape string_map]; try done.
  intros [Hc Hs]%andb_true_iff. rewrite (Hp c Hc). by apply IH.
Qed.

Definition cube_id : string := "0c000000-0000-4000-8000-000000000001".
Definition rep_id : string := "0d000000-0000-4000-8000-000000000001".
Definition coord_id : string := "0d000000-0000-4000-8000-000000000002".
Definition id1 : string := "aa000000-0000-4000-8000-000000000001".
Definition id2 : string := "aa000000-0000-4000-8000-000000000002".
Definition id3 : string := "aa000000-0000-4000-8000-000000000003".

Definition demo : binding :=
  Binding "/work/tree" "https://localhost:8787" "pin" cube_id "borg" rep_id "rep-1" "Representative"
    coord_id "queen" "Coordinator" None "2026-01-01T00:00:00.000Z".

Definition demo_db : rep_db := snd (commit (saveBinding demo false) 0 empty_db).
Definition demo_world : rworld := RWorld demo_db ∅ ∅ ∅ ∅.

Definition demo_roster : roster :=
  Roster [RosterDrone rep_id "rep-1" "r1" (Some false); RosterDrone coord_id "queen" "r2" None]
         [RosterRole "r1" "Representative" (Some false) (Some "worker"); RosterRole "r2" "Coordinator" (Some true) None].

Definition lost : js_error := ErrorOf "BorgServerUnreachableError" None None "timeout" [].

Definition posted (p m : string) : append_result :=
  AppendResult (LogEntry p rep_id m "direct" "2026-01-01T00:00:01.000Z" (Some [coord_id]) None) false None.

Definition log_id (n : string) : string := "bb000000-0000-4000-8000-00000000000" +:+ n.
Definition from_coordinator (n : string) (visibility : string) : log_entry :=
  LogEntry (log_id n) coord_id ("reply " +:+ n +:+ " to " +:+ id1) visibility ("2026-01-01T00:00:0" +:+ n +:+ ".000Z") (Some [rep_id]) None.

(** A log with two direct replies, a broadcast and another drone's entry. *)
Definition demo_log : list log_entry :=
  [from_coordinator "1" "direct"; LogEntry (log_id "2") id3 "unrelated" "broadcast" "2026-01-01T00:00:02.000Z" None None;
   from_coordinator "3" "broadcast"; from_coordinator "4" "direct"].

Definition demo_server : honest := Honest 1000 (Who cube_id rep_id) demo_roster demo_log.

(** Posts under [id1] and [id2] are stored and their answers lost. *)
Definition script (X : Type) (op : rep_op X) : rworld -> X * rworld :=
  match op in rep_op X return rworld -> X * rworld with
  | Transact body => fun w => let r := commit body 1000 (rw_db w) in (fst r, with_db (worktree demo) w (snd r))
  | ReadOnly body => fun w => (match fst (body 1000 (rw_db w)) with inl e => inl e | inr a => inr (Some a) end, w)
  | Whoami => fun w => (inr (Who cube_id rep_id), w)
  | RosterCall => fun w => (inr demo_roster, w)
  | Append p m _ => fun w =>
      if bool_decide (p ∈ [id1; id2]) then (inl lost, store p m w) else (inr (posted p m), confirm p (store p m w))
  | ReadAfter cursor size => fun w => (inr (page_of demo_log cursor size), w)
  | ReadEntry id => fun w => (fst (serve demo_server _ (ReadEntry id) (rw_db w)), w)
  | AckCall _ => fun w => (inr tt, w)
  | RandomUUID => fun w =>
      let p := nth (size (rw_minted w)) [id1; id2; id3] "" in (p, mint p w)
  end.

Definition allowed (X : Type) (op : rep_op X) : rworld -> bool :=
  match op in rep_op X return rworld -> bool with
  | RandomUUID => fun w =>
      let p := nth (size (rw_minted w)) [id1; id2; id3] "" in
      is_uuid p && bool_decide (p ∈ [id1; id2; id3]) && bool_decide (p ∉ rw_minted w) && bool_decide (p ∉ rw_seen w)
  | _ => fun _ => true
  end.

Definition drawable (p : string) : Prop := p ∈ [id1; id2; id3].

Lemma script_act X (op : rep_op X) w :
  allowed X op w = true -> act (worktree demo) drawable X op w (fst (script X op w)) (snd (script X op w)).
Proof.
  destruct op; try done.
  - intros _. left. exists 1000. split; done.
  - intros _. cbn [script act]. destruct (bool_decide _); [|done]. cbn [fst snd].
    change (definite lost) with false. by right.
  - cbn [allowed script act fst snd]. intros [[[Hu Hd]%andb_true_iff Hm]%andb_true_iff Hs]%andb_true_iff.
    apply bool_decide_eq_true in Hd, Hm, Hs. done.
Qed.

Definition text (message : string) : json :=
  JObj [("kind", JStr "question"); ("authorization", JStr "model_advice"); ("message", JStr message)].

Definition demo_calls : list (rep unit) :=
  map (fun m => discard (sendOnce demo (text m))) ["first"; "second"; "third"].

Definition demo_after : rworld := run_all script demo_calls demo_world.

Lemma demo_fresh : fresh_world (worktree demo) demo demo_world.
Proof.
  split; [|done..]. apply (bound_holds demo (seatKey demo) Prepared []).
  - by vm_compute.
  - constructor.
  - constructor.
  - right. split; [by vm_compute|done].
  - by vm_compute.
Qed.

Lemma demo_checked : all_checked script allowed demo_calls demo_world = true.
Proof. vm_compute. reflexivity. Qed.

Lemma demo_reachable : exists ps, reachable (worktree demo) drawable demo demo_world ps demo_after.
Proof.
  apply (run_all_moves _ _ _ script allowed script_act); [|exact demo_checked].
  intros w p (m & -> & Hm)%list_elem_of_fmap. apply call_send; [by vm_compute|done|].
  intros q. by vm_compute.
Qed.

Definition message_of_post (p : string) : string := default "" (rw_log demo_after !! p).

(** The three posts are in the log; the first two were not confirmed. *)
Lemma demo_posts :
  rw_log demo_after !! id1 = Some (message_of_post id1) /\ id1 ∉ rw_confirmed demo_after /\
  rw_log demo_after !! id2 = Some (message_of_post id2) /\ id2 ∉ rw_confirmed demo_after.
Proof. vm_compute. repeat split; discriminate. Qed.

Lemma representative_unconfirmed_post_stays_unresolved_witness :
  exists l b i r,
    (forall now, readRequests (worktree demo) now (rw_db demo_after) = (inr l, rw_db demo_after)) /\
    r ∈ l /\ q_requestId r = id1 /\ is_unresolved r = true /\
    sameSelection b demo = true /\ message_of_post id1 = formatRepresentativeMessage b id1 i /\
    q_payloadDigest r = payloadDigest demo i.
Proof.
  destruct demo_reachable as [ps Hr]. destruct demo_posts as (H1 & H2 & _).
  exact (representative_unconfirmed_post_stays_unresolved _ _ _ _ _ _ _ _ demo_case demo_fresh Hr H1 H2).
Defined.

Lemma representative_no_two_unconfirmed_copies_witness :
  exists b i b' i', message_of_post id1 = formatRepresentativeMessage b id1 i /\
    message_of_post id2 = formatRepresentativeMessage b' id2 i' /\ payloadDigest demo i <> payloadDigest demo i'.
Proof.
  destruct demo_reachable as [ps Hr]. destruct demo_posts as (H1 & H2 & H3 & H4).
  refine (representative_no_two_unconfirmed_copies _ _ _ _ _ _ _ _ _ _ demo_case demo_fresh Hr _ H1 H3 H2 H4).
  discriminate.
Defined.

Definition answer_of {A} (default : A) (r : (js_error + A) * rep_db) : A :=
  match fst r with inl _ => default | inr a => a end.

Definition demo_ledger : list request := answer_of [] (readRequests (worktree demo) 0 (rw_db demo_after)).
Definition demo_sent : request := nth 2 demo_ledger (Request "" "" "" "" Pending None None "" "").

Lemma representative_sent_record_is_stored_witness :
  q_requestId demo_sent = id3 /\ is_Some (rw_log demo_after !! q_requestId demo_sent).
Proof.
  destruct demo_reachable as [ps Hr]. split; [by vm_compute|].
  apply (representative_sent_record_is_stored _ _ _ _ _ _ demo_ledger demo_sent demo_case demo_fresh Hr).
  - vm_compute. reflexivity.
  - apply list_elem_of_In, nth_In. vm_compute. lia.
  - vm_compute. reflexivity.
Defined.

(** ** Reading and delivering *)

Definition read_args : json := JObj [("limit", JNum 1)].
Definition deliver_args : json := JObj [("through", JStr (log_id "1"))].

Definition reading : list (rep unit) :=
  [discard (readRepresentativeReplies 1 demo read_args); discard (deliverRepresentativeReplies demo deliver_args)].
Definition read_world : rworld := run_all script reading demo_world.

Lemma demo_delivery_ok : db_delivery_ok demo_db.
Proof.
  assert (Hd : t_delivery demo_db = ∅) by (by vm_compute).
  assert (Hr : t_returned demo_db = ∅) by (by vm_compute). split.
  - intros g st. unfold loadDelivery. by rewrite Hd.
  - intros g _. unfold returned_rows. by rewrite Hr.
Qed.

Lemma representative_delivery_monotone_witness :
  (ds_checkpoint <$> loadDelivery (bindingFingerprint demo) (rw_db read_world)) =
    Some (Some (entry_point (from_coordinator "1" "direct"))) /\
  db_delivery_ok (rw_db read_world) /\ db_delivery_grows demo_db (rw_db read_world).
Proof.
  split; [by vm_compute|].
  assert (Hs : forall w p, p ∈ reading -> host_call (worktree demo) drawable demo w p).
  { intros w p [->|[->|[]%elem_of_nil]%elem_of_cons]%elem_of_cons; [apply call_read|apply call_deliver]. }
  destruct (run_all_moves (act (worktree demo) drawable) (host_call (worktree demo) drawable demo)
    (operator (worktree demo)) script allowed script_act reading [] demo_world Hs) as [ps Hr]; [by vm_compute|].
  exact (representative_delivery_monotone _ _ _ demo_world ps read_world demo_delivery_ok Hr).
Defined.

Definition demo_state : delivery_state :=
  DeliveryState (Point "00000000-0000-0000-0000-000000000000" (boundAt demo)) "binding" None None [].

Definition demo_scan : scan_state :=
  ScanState (entry_point (from_coordinator "4" "direct")) 2 (reference demo [id1] false 0 demo_log).

Lemma representative_read_bounded_witness :
  (0 < 1)%nat /\ sc_candidates demo_scan <> [] /\
  bounded_read demo demo_state 1 4096 demo_scan (fit_result demo demo_state 1 4096 demo_scan).
Proof.
  assert (Hne : sc_candidates demo_scan <> []) by (vm_compute; discriminate).
  split; [lia|]. split; [exact Hne|]. exact (representative_read_bounded demo demo_state 1 4096 demo_scan (le_n 1) Hne).
Defined.

Lemma demo_ordered : ordered demo_log.
Proof. unfold ordered. repeat constructor. Qed.

Lemma representative_scan_complete_witness :
  exists s, run (serve demo_server) (scan_pages 1 demo [id1] false 1 None (ScanState (ds_start demo_state) 0 [])) demo_db
      = (Done (Some s), demo_db) /\
    candidate_ids (sc_candidates s) = [log_id "1"; log_id "4"].
Proof.
  destruct (representative_scan_complete demo_server demo [id1] false 1 None (ds_start demo_state) demo_db 1)
    as (s & Hrun & Hs); [exact demo_ordered|exact I|vm_compute; reflexivity|].
  exists s. split; [exact Hrun|]. rewrite Hs. vm_compute. reflexivity.
Defined.

Lemma demo_current db : t_bindings db = t_bindings demo_db -> current demo db.
Proof. intros Hb. apply (current_frame _ demo_db); [done|]. intros now. by vm_compute. Qed.

(** After the first read the first reply is in the window. *)
Definition window_state : delivery_state :=
  widened demo_state [entry_point (from_coordinator "1" "direct")] (entry_point (from_coordinator "1" "direct")).
Definition window_db : rep_db := rw_db (run_all script (take 1 reading) demo_world).

Lemma window_loads : loadDelivery (bindingFingerprint demo) window_db = Some window_state.
Proof. vm_compute. reflexivity. Qed.

Lemma demo_state_ok : delivery_ok demo_state.
Proof. split; cbn; try done; try (by intros p ?%elem_of_nil); [constructor|constructor|unfold RETURNED_CAP; lia]. Qed.

Lemma window_state_ok : delivery_ok window_state.
Proof. apply widened_ok; [exact demo_state_ok|done|]. apply sorted_ends. repeat constructor. Qed.

Lemma representative_deliver_answers_witness :
  exists db' st', commit (deliver_tx demo (entry_point (from_coordinator "1" "direct"))) 0 window_db =
      (inr (DeliverResult (Some (log_id "1"), Some "2026-01-01T00:00:01.000Z"%string) true (bindingFingerprint demo)), db') /\
    loadDelivery (bindingFingerprint demo) db' = Some st' /\ ds_returned st' = [].
Proof.
  destruct (representative_deliver_answers demo (entry_point (from_coordinator "1" "direct")) 0 window_db window_state)
    as [(Hin & db' & st' & Hrun & Hl & _ & _ & Hret)|[(Hout & _)|(Hout & _)]].
  - apply demo_current. by vm_compute.
  - exact window_loads.
  - exact window_state_ok.
  - exists db', st'. split; [exact Hrun|]. split; [exact Hl|]. destruct (ds_returned st') as [|q l]; [reflexivity|].
    destruct (proj1 (Hret q) ltac:(left)) as [Hq Hlt]. apply list_elem_of_singleton in Hq as ->.
    destruct (point_lt_irrefl _ Hlt).
  - destruct Hout. left.
  - destruct Hout. left.
Defined.

Lemma demo_served : served demo_server demo.
Proof.
  split; [done|done|by eexists|exact demo_ordered| |].
  - apply (bool_decide_eq_true_1 (NoDup (map e_id demo_log))). vm_compute. reflexivity.
  - intros e He. cbn in He. repeat (apply elem_of_cons in He as [->|He]; [by vm_compute|]). by apply elem_of_nil in He.
Qed.

Definition ready_db : rep_db := snd (commit (ensure_row demo) 0 demo_db).

Lemma demo_ready : ready demo ready_db demo_state.
Proof. split; [apply demo_current; by vm_compute|by vm_compute|exact demo_state_ok|done|done]. Qed.

Lemma representative_drain_witness :
  map e_id (pending demo_server demo (ReadOptions false 1 32768) demo_state) = [log_id "1"; log_id "4"] /\
  fst (drain demo_server demo read_args 1 3 ready_db) = [log_id "1"; log_id "4"].
Proof.
  split; [by vm_compute|].
  destruct (representative_drain demo_server demo read_args (ReadOptions false 1 32768) 1 3 ready_db demo_state)
    as (rest & st' & Hids & _); [exact demo_served|done|by vm_compute|exact demo_ready|vm_compute; lia|].
  vm_compute. reflexivity.
Defined.

(** ** Sending and binding *)

Lemma representative_send_input_witness :
  exists i, validateSendInput (text "first") = inr i /\ si_message i = "first"%string /\
    (si_kind i = KDecision -> si_authorization i = UserAuthorized).
Proof.
  destruct (validateSendInput (text "first")) as [e|i] eqn:E; [vm_compute in E; discriminate|].
  destruct (representative_send_input (text "first") i E) as (_ & Hm & _ & _ & _ & _ & _ & Hd).
  exists i. split; [reflexivity|]. split; [|exact Hd]. cbn in Hm. by injection Hm.
Defined.

Definition demo_again : binding :=
  Binding "/work/tree" "https://localhost:8787" "pin" cube_id "borg" rep_id "rep-1" "Representative"
    coord_id "queen" "Coordinator" None "2026-02-01T00:00:00.000Z".

Lemma representative_confirm_binding_witness :
  commit (saveBinding demo_again false) 0 demo_db = (inr Unchanged, demo_db).
Proof.
  destruct (representative_confirm_binding (worktree demo) demo [] demo_again 0 demo_db) as (H1 & _).
  - exact (fw_holds _ _ _ demo_fresh).
  - reflexivity.
  - vm_compute. reflexivity.
  - vm_compute. reflexivity.
  - apply H1. vm_compute. reflexivity.
Defined.
