(* ===== verification/RepPush.v ===== *)
(** * The push engine ([src/representative-push.ts])

    Which direct Coordinator replies wake the host, and when.  The wake state of
    a generation is one JSON document and a table of replies; every transition
    is one transaction over them.  [PushEngine]'s methods are programs over the
    transactions, the server's discovery pages and the engine's own memory: the
    chain its transitions queue on, the two flags of discovery and the stop
    signal.  The hooks of the tests are absent. *)

From stdpp Require Import pretty.
From S2P Require Import Prelude JsDate JsonText Effects RepDb RepCore.

Open Scope Z_scope.
Open Scope tx_scope.
Open Scope prog_scope.

(* src/src/representative-push.ts 45-45 WAKE_ACK_DEADLINE_MS *)
Definition WAKE_ACK_DEADLINE_MS : Z := 60000.
(* src/src/representative-push.ts 46-46 WAKE_DEBOUNCE_MS *)
Definition WAKE_DEBOUNCE_MS : Z := 2000.
(* src/src/representative-push.ts 47-47 DISCOVERY_PAGE *)
Definition DISCOVERY_PAGE : Z := 200.
(* src/src/representative-push.ts 48-48 WAKE_ACK_LINE_MAX_BYTES *)
Definition WAKE_ACK_LINE_MAX_BYTES : nat := 1024.
(* src/src/representative-push.ts 49-49 REWAKE_BACKOFF_MS *)
Definition REWAKE_BACKOFF_MS : list Z := [600000; 3600000; 21600000; 86400000].
(* src/src/representative-push.ts 50-50 REFUSAL_BACKOFF_BASE_MS *)
Definition REFUSAL_BACKOFF_BASE_MS : Z := 30000.
(* src/src/representative-push.ts 51-51 REFUSAL_BACKOFF_MAX_MS *)
Definition REFUSAL_BACKOFF_MAX_MS : Z := 1800000.
(* src/src/representative-push.ts 52-52 MAX_FUTURE_MS *)
Definition MAX_FUTURE_MS : Z := 86400000.
(* src/src/representative-push.ts 53-53 CAPTURE_ATTEMPTS *)
Definition CAPTURE_ATTEMPTS : nat := 3.

(* src/src/representative-push.ts 55-55 WakeReason *)
Inductive wake_reason := Startup | NewReply | Rewake.

#[export] Instance wake_reason_eq_dec : EqDecision wake_reason.
Proof. solve_decision. Defined.

Record outstanding_batch := Outstanding {
  ob_batch : string;
  ob_replies : list string;
  ob_deadline : string;
  ob_reason : wake_reason
}.

Record refusals := Refusals { rf_count : Z; rf_retry_at : option string }.
Record cohort := Cohort { co_remaining : Z; co_open : bool }.

(** The member [version] is always 1. *)
(* src/src/representative-push.ts 57-74 WakeDocument *)
Record wake_document := WakeDocument {
  wd_frontier : option point;
  wd_outstanding : option outstanding_batch;
  wd_refusals : refusals;
  wd_cohort : option cohort;
  wd_startup_pending : bool;
  wd_debounce_at : option string;
  wd_scan_epoch : option string
}.

Definition set_frontier v d := WakeDocument v (wd_outstanding d) (wd_refusals d) (wd_cohort d) (wd_startup_pending d) (wd_debounce_at d) (wd_scan_epoch d).
Definition set_outstanding v d := WakeDocument (wd_frontier d) v (wd_refusals d) (wd_cohort d) (wd_startup_pending d) (wd_debounce_at d) (wd_scan_epoch d).
Definition set_refusals v d := WakeDocument (wd_frontier d) (wd_outstanding d) v (wd_cohort d) (wd_startup_pending d) (wd_debounce_at d) (wd_scan_epoch d).
Definition set_cohort v d := WakeDocument (wd_frontier d) (wd_outstanding d) (wd_refusals d) v (wd_startup_pending d) (wd_debounce_at d) (wd_scan_epoch d).
Definition set_startup_pending v d := WakeDocument (wd_frontier d) (wd_outstanding d) (wd_refusals d) (wd_cohort d) v (wd_debounce_at d) (wd_scan_epoch d).
Definition set_debounce_at v d := WakeDocument (wd_frontier d) (wd_outstanding d) (wd_refusals d) (wd_cohort d) (wd_startup_pending d) v (wd_scan_epoch d).
Definition set_scan_epoch v d := WakeDocument (wd_frontier d) (wd_outstanding d) (wd_refusals d) (wd_cohort d) (wd_startup_pending d) (wd_debounce_at d) v.

(* src/src/representative-push.ts 76-76 rewakeBackoffMs *)
Definition rewakeBackoffMs (attempts : Z) : Z :=
  nth (Z.to_nat (Z.min (Z.max attempts 1) (Z.of_nat (length REWAKE_BACKOFF_MS)) - 1)) REWAKE_BACKOFF_MS 0.

(* src/src/representative-push.ts 77-77 refusalBackoffMs *)
Definition refusalBackoffMs (count : Z) : Z :=
  Z.min (REFUSAL_BACKOFF_BASE_MS * 2 ^ Z.max (count - 1) 0) REFUSAL_BACKOFF_MAX_MS.

(* src/src/representative-push.ts 79-82 emptyDocument *)
Definition emptyDocument : wake_document :=
  WakeDocument None None (Refusals 0 None) None false None None.

(** ** The document as text *)

Definition reason_name (r : wake_reason) : string :=
  match r with Startup => "startup" | NewReply => "new-reply" | Rewake => "rewake" end.

Definition reason_of_name (s : string) : option wake_reason :=
  if String.eqb s "startup" then Some Startup
  else if String.eqb s "new-reply" then Some NewReply
  else if String.eqb s "rewake" then Some Rewake
  else None.

(** [x ?? null] of a member. *)
Definition json_or_null {A} (f : A -> json) (v : option A) : json :=
  match v with Some x => f x | None => JNull end.

Definition point_json (p : point) : json :=
  JObj [("id", JStr (p_id p)); ("created_at", JStr (p_created_at p))].

Definition outstanding_json (o : outstanding_batch) : json :=
  JObj [("batch", JStr (ob_batch o)); ("replies", JArr (map JStr (ob_replies o)));
        ("deadline", JStr (ob_deadline o)); ("reason", JStr (reason_name (ob_reason o)))].

(** [JSON.stringify(doc)], as the value it parses to. *)
Definition document_json (d : wake_document) : json :=
  JObj [("version", JNum 1);
        ("frontier", json_or_null point_json (wd_frontier d));
        ("outstanding", json_or_null outstanding_json (wd_outstanding d));
        ("refusals", JObj [("count", JNum (rf_count (wd_refusals d)));
                           ("retry_at", json_or_null JStr (rf_retry_at (wd_refusals d)))]);
        ("cohort", json_or_null (fun c => JObj [("remaining", JNum (co_remaining c)); ("open", JBool (co_open c))])
                     (wd_cohort d));
        ("startup_pending", JBool (wd_startup_pending d));
        ("debounce_at", json_or_null JStr (wd_debounce_at d));
        ("scan_epoch", json_or_null JStr (wd_scan_epoch d))].

(** A member that is [null] or a value [f] accepts. *)
Definition nullable {A} (f : json -> option A) (v : option json) : option (option A) :=
  match v with
  | None => None
  | Some JNull => Some None
  | Some x => Some <$> f x
  end.

Section Document.
Context `{RepEnv} `{JsDate}.

Definition instant (s : string) : bool := bool_decide (is_Some (date_parse s)).

(* src/src/representative-push.ts 84-84 isInstant *)
Definition isInstant (v : json) : option string :=
  match v with JStr s => if instant s then Some s else None | _ => None end.

Definition uuid_of (v : json) : option string :=
  match v with JStr s => if isRepresentativeUuid (Some v) then Some s else None | _ => None end.

(* src/src/representative-push.ts 85-87 isPoint *)
Definition isPoint (v : json) : option point :=
  id ← jget "id" v ≫= uuid_of; at_ ← jget "created_at" v ≫= isInstant; Some (Point id at_).

Definition outstanding_of (v : json) : option outstanding_batch :=
  batch ← jget "batch" v ≫= uuid_of;
  replies ← match jget "replies" v with Some (JArr l) => mapM uuid_of l | _ => None end;
  deadline ← jget "deadline" v ≫= isInstant;
  reason ← jstr (jget "reason" v) ≫= reason_of_name;
  Some (Outstanding batch replies deadline reason).

(** [Number.isInteger(v) && v >= 0] *)
Definition natural (v : json) : option Z :=
  match v with JNum z => if 0 <=? z then Some z else None | _ => None end.

Definition jbool (v : json) : option bool := match v with JBool b => Some b | _ => None end.

Definition refusals_of (v : json) : option refusals :=
  count ← jget "count" v ≫= natural; retry ← nullable isInstant (jget "retry_at" v); Some (Refusals count retry).

Definition cohort_of (v : json) : option cohort :=
  opened ← jget "open" v ≫= jbool; remaining ← jget "remaining" v ≫= natural; Some (Cohort remaining opened).

(** The typed view of a document [parseDocument] accepts: members the code never
    writes are dropped, and a number written with a fraction or an exponent is
    refused. *)
Definition document_of (v : json) : option wake_document :=
  if negb (bool_decide (jint (jget "version" v) = Some 1)) then None else
  frontier ← nullable isPoint (jget "frontier" v);
  outstanding ← nullable outstanding_of (jget "outstanding" v);
  refused ← jget "refusals" v ≫= refusals_of;
  cohort ← nullable cohort_of (jget "cohort" v);
  startup ← jget "startup_pending" v ≫= jbool;
  debounce ← nullable isInstant (jget "debounce_at" v);
  epoch ← nullable uuid_of (Some (default JNull (jget "scan_epoch" v)));
  Some (WakeDocument frontier outstanding refused cohort startup debounce epoch).

Definition invalid_wake_record : js_error := JsError "The representative state holds an invalid wake record".
Definition type_error : js_error := ErrorOf "TypeError" None None "" [].
Definition syntax_error : js_error := ErrorOf "SyntaxError" None None "" [].

(** Assigning [scan_epoch] to a primitive, or reading a member of [null], is a
    [TypeError]; the text of the engine's own errors is left out. *)
(* src/src/representative-push.ts 89-107 parseDocument *)
Definition parseDocument (raw : string) : js_error + wake_document :=
  match parse_text raw with
  | None => inl syntax_error
  | Some v =>
      match v with
      | JObj _ | JArr _ =>
          match document_of v with
          | Some d => inr d
          | None =>
              if bool_decide (jint (jget "version" v) = Some 1) &&
                 bool_decide (is_Some (nullable isPoint (jget "frontier" v))) &&
                 bool_decide (is_Some (nullable outstanding_of (jget "outstanding" v))) &&
                 match jget "refusals" v with Some JNull => true | _ => false end
              then inl type_error
              else inl invalid_wake_record
          end
      | _ => inl type_error
      end
  end.

(** ** Tables *)

Definition wake_rows (generation : string) (db : rep_db) : gmap string wake_row :=
  default ∅ (t_wake_replies db !! generation).

(* src/src/representative-push.ts 109-111 isWakeRow *)
Definition isWakeRow (id : string) (row : wake_row) : bool :=
  isRepresentativeUuid (Some (JStr id)) && instant (wk_created_at row) && instant (wk_next_at row) &&
  (0 <=? wk_attempts row).

(* src/src/representative-push.ts 147-150 loadDocument *)
Definition loadDocument (generation : string) : tx wake_document := fun now db =>
  match t_wake_state db !! generation with
  | Some raw => (parseDocument raw, db)
  | None => (inr emptyDocument, db)
  end.

(* src/src/representative-push.ts 152-155 saveDocument *)
Definition saveDocument (generation : string) (doc : wake_document) : tx unit :=
  tx_write (set_wake_state <[generation := json_compact (document_json doc)]>).

(** [ORDER BY created_at, entry_id] *)
Definition row_point (kv : string * wake_row) : point := Point (fst kv) (wk_created_at (snd kv)).
Definition row_le (a b : string * wake_row) : Prop := point_le (row_point a) (row_point b).
#[export] Instance row_le_dec a b : Decision (row_le a b).
Proof. unfold row_le. apply _. Defined.

(* src/src/representative-push.ts 159-162 rows *)
Definition rows (generation : string) (db : rep_db) : list (string * wake_row) :=
  merge_sort row_le (map_to_list (wake_rows generation db)).

Definition write_rows (generation : string) (f : gmap string wake_row -> gmap string wake_row) : tx unit :=
  tx_write (set_wake_replies (fun t => <[generation := f (default ∅ (t !! generation))]> t)).

Definition missing_delivery : js_error :=
  JsError "Representative delivery state is missing for the current generation".

Definition tx_of {A} (r : js_error + A) : tx A := match r with inl e => tx_throw e | inr a => tx_ret a end.

(** [loadDelivery], required. *)
Definition delivery_of (generation : string) : tx delivery_state :=
  let* loaded := tx_read (loadDelivery generation) in
  match loaded with None => tx_throw missing_delivery | Some st => tx_ret st end.

(** [fresh] is the identifier [randomUUID] gives. *)
(* src/src/representative-push.ts 120-145 discardInvalidWakeState *)
Definition discardInvalidWakeState (fresh generation : string) : tx (option string) :=
  let* state := tx_read (fun db => t_wake_state db !! generation) in
  let bad_document := match state with
                      | Some raw => match parseDocument raw with inl _ => true | inr _ => false end
                      | None => false
                      end in
  let* all := tx_read (fun db => map_to_list (wake_rows generation db)) in
  let invalidRows := length (List.filter (fun kv => negb (isWakeRow (fst kv) (snd kv))) all) in
  let problems :=
    (if bad_document then ["an invalid wake_state document"] else []) ++
    (if (0 <? invalidRows)%nat then [pretty invalidRows +:+ " invalid wake_replies row(s)"] else []) in
  match problems with
  | [] => tx_ret None
  | _ =>
      do* write_rows generation (fun _ => ∅);
      let* delivery := tx_read (loadDelivery generation) in
      let* frontier := match delivery with
                       | Some st => let* start := tx_of (scanStart st) in tx_ret (fst start)
                       | None => tx_ret None
                       end in
      do* saveDocument generation (set_scan_epoch (Some fresh) (set_frontier frontier emptyDocument));
      tx_ret (Some (join " and " problems))
  end.

(** ** Transitions *)

(* src/src/representative-push.ts 167-167 WakeEmission *)
Record wake_emission := WakeEmission { we_wake_id : string; we_reason : wake_reason; we_count : nat }.
(* src/src/representative-push.ts 168-168 AckOutcome *)
Inductive ack_outcome := Accepted | Refused | Ignored.

(* src/src/representative-push.ts 188-194 WakeSummary *)
Record wake_summary := WakeSummary {
  ws_undelivered : nat;
  ws_outstanding : option (string * nat * string);
  ws_refusals : refusals;
  ws_cohort_open : bool;
  ws_frontier : option point
}.

Definition cohort_open (doc : wake_document) : bool :=
  match wd_cohort doc with Some c => co_open c | None => false end.

(** [x !== null && x > at] and [x !== null && x <= at] *)
Definition after_instant (at_ : string) (x : option string) : bool :=
  match x with Some t => string_ltb at_ t | None => false end.
Definition by_instant (at_ : string) (x : option string) : bool :=
  match x with Some t => string_leb t at_ | None => false end.

Definition clamp_to (limit : string) (t : string) : string := if string_ltb limit t then limit else t.

Definition clamp_document (limit : string) (doc : wake_document) : wake_document :=
  set_debounce_at (clamp_to limit <$> wd_debounce_at doc)
    (set_refusals (Refusals (rf_count (wd_refusals doc)) (clamp_to limit <$> rf_retry_at (wd_refusals doc)))
      (set_outstanding ((fun o => Outstanding (ob_batch o) (ob_replies o) (clamp_to limit (ob_deadline o)) (ob_reason o))
                          <$> wd_outstanding doc) doc)).

Definition clamp_row (limit : string) (row : wake_row) : wake_row :=
  WakeRow (wk_created_at row) (wk_attempts row) (clamp_to limit (wk_next_at row)).

(* src/src/representative-push.ts 260-266 clamp *)
Definition clamp (generation : string) (doc : wake_document) (now : Z) : tx wake_document :=
  let limit := to_iso (now + MAX_FUTURE_MS) in
  do* write_rows generation (fmap (clamp_row limit));
  tx_ret (clamp_document limit doc).

(** The first transaction of [captureCohort]; [None] when a cohort is open. *)
(* src/src/representative-push.ts 278-284 captureCohort *)
Definition capture_start (generation : string) : tx (option (option point * option string)) :=
  let* doc := loadDocument generation in
  if cohort_open doc then tx_ret None
  else
    let* delivery := delivery_of generation in
    let* start := tx_of (scanStart delivery) in
    tx_ret (Some (later (wd_frontier doc) (fst start), wd_scan_epoch doc)).

(** The second one. *)
(* src/src/representative-push.ts 289-297 captureCohort *)
Definition capture_persist (epoch : option string) (count : Z) (generation : string) : tx bool :=
  let* doc := loadDocument generation in
  if negb (bool_decide (wd_scan_epoch doc = epoch)) then tx_ret false
  else if cohort_open doc then tx_ret true
  else
    do* saveDocument generation
      (set_startup_pending false (set_cohort (Some (Cohort count (0 <? count))) doc));
    tx_ret true.

(* src/src/representative-push.ts 489-499 summarize *)
Definition summarize (generation : string) : tx wake_summary :=
  let* doc := loadDocument generation in
  let* undelivered := tx_read (fun db => length (rows generation db)) in
  tx_ret (WakeSummary undelivered
    ((fun o => (ob_batch o, length (ob_replies o), ob_deadline o)) <$> wd_outstanding doc)
    (wd_refusals doc) (cohort_open doc) (wd_frontier doc)).

(** The first transaction of [scanOnce]. *)
(* src/src/representative-push.ts 324-330 scanOnce *)
Definition scan_begin (generation : string) : tx (option point * option string) :=
  let* delivery := delivery_of generation in
  let* doc := loadDocument generation in
  let* start := tx_of (scanStart delivery) in
  tx_ret (later (wd_frontier doc) (fst start), wd_scan_epoch doc).

(** The loop of inserts: [INSERT OR IGNORE]. *)
Fixpoint insert_missing (b : binding) (floor : point) (at_ : string) (entries : list log_entry)
    (m : gmap string wake_row) : gmap string wake_row * nat :=
  match entries with
  | [] => (m, 0%nat)
  | e :: rest =>
      if negb (bool_decide (isAddressedCoordinatorEntry b e = Some "direct")) ||
         (comparePoints (entry_point e) (Some floor) <=? 0)
      then insert_missing b floor at_ rest m
      else match m !! e_id e with
           | Some _ => insert_missing b floor at_ rest m
           | None =>
               let '(m', n) := insert_missing b floor at_ rest (<[e_id e := WakeRow (e_created_at e) 0 at_]> m) in
               (m', S n)
           end
  end.

(** What a merged page does to the document, when [inserted] rows are new and
    [pending] remain. *)
Definition advance_document (now : Z) (tail : option point) (size : Z) (more : bool) (inserted pending : nat)
    (doc : wake_document) : wake_document :=
  let doc := set_frontier (later (wd_frontier doc) tail) doc in
  let doc := match wd_cohort doc with
             | Some c => if co_open c then set_cohort (Some (Cohort (Z.max (co_remaining c - size) 0) true)) doc else doc
             | None => doc
             end in
  if cohort_open doc && (match wd_cohort doc with Some c => co_remaining c =? 0 | None => false end || negb more) then
    set_debounce_at None (set_startup_pending (0 <? pending)%nat
      (set_cohort ((fun c => Cohort (co_remaining c) false) <$> wd_cohort doc) doc))
  else if (0 <? inserted)%nat && negb (cohort_open doc) && negb (bool_decide (is_Some (wd_debounce_at doc))) then
    set_debounce_at (Some (to_iso (now + WAKE_DEBOUNCE_MS))) doc
  else doc.

(* src/src/representative-push.ts 352-383 merge *)
Definition merge (b : binding) (generation : string) (now : Z) (epoch : option string)
    (entries : list log_entry) (tail : option point) (more : bool) : tx (option nat) :=
  let* delivery := delivery_of generation in
  let* doc := loadDocument generation in
  if negb (bool_decide (wd_scan_epoch doc = epoch)) then tx_ret None
  else
    let* start := tx_of (scanStart delivery) in
    let floor := snd start in
    let* before := tx_read (wake_rows generation) in
    let '(m, inserted) := insert_missing b floor (to_iso now) entries before in
    do* write_rows generation (fun _ =>
      filter (fun kv => wake_row_covered (Some floor) (fst kv) (snd kv) = false) m);
    let* pending := tx_read (fun db => length (rows generation db)) in
    do* saveDocument generation
      (advance_document now tail (Z.of_nat (length entries)) more inserted pending doc);
    tx_ret (Some inserted).

(** An outstanding batch whose deadline passed is dropped. *)
Definition expire (at_ : string) (doc : wake_document) : wake_document :=
  if by_instant at_ (ob_deadline <$> wd_outstanding doc) then set_outstanding None doc else doc.

(** EMIT is not eligible. *)
Definition blocked (at_ : string) (doc : wake_document) : bool :=
  bool_decide (is_Some (wd_outstanding doc)) || after_instant at_ (rf_retry_at (wd_refusals doc)) ||
  cohort_open doc || after_instant at_ (wd_debounce_at doc).

Definition attempted (now : Z) (row : wake_row) : wake_row :=
  let attempts := wk_attempts row + 1 in
  WakeRow (wk_created_at row) attempts (to_iso (now + rewakeBackoffMs attempts)).

(** The updates of the due rows. *)
Definition update_rows (f : wake_row -> wake_row) (ids : list string) (m : gmap string wake_row) : gmap string wake_row :=
  foldr (fun id => alter f id) m ids.

Definition batch_reason (doc : wake_document) (due : list (string * wake_row)) : wake_reason :=
  if wd_startup_pending doc then Startup
  else if existsb (fun kv => wk_attempts (snd kv) =? 0) due then NewReply
  else Rewake.

(** The document after EMIT. *)
Definition emitted_document (now : Z) (batch : string) (due : list (string * wake_row)) (doc : wake_document) : wake_document :=
  let doc' := set_debounce_at None (set_startup_pending false
    (set_outstanding (Some (Outstanding batch (map fst due) (to_iso (now + WAKE_ACK_DEADLINE_MS)) (batch_reason doc due))) doc)) in
  if by_instant (to_iso now) (rf_retry_at (wd_refusals doc')) then
    set_refusals (Refusals (rf_count (wd_refusals doc')) None) doc'
  else doc'.

(** The transaction of [tick]; [batch] is the identifier [randomUUID] gives. *)
(* src/src/representative-push.ts 393-416 tick *)
Definition tick_tx (batch generation : string) (now : Z) : tx (option wake_emission) :=
  let* loaded := loadDocument generation in
  let* clamped := clamp generation loaded now in
  let at_ := to_iso now in
  let doc := expire at_ clamped in
  let* all := tx_read (rows generation) in
  let due := if blocked at_ doc then [] else List.filter (fun kv => string_leb (wk_next_at (snd kv)) at_) all in
  match due with
  | [] => do* saveDocument generation doc; tx_ret None
  | _ =>
      do* write_rows generation (update_rows (attempted now) (map fst due));
      do* saveDocument generation (emitted_document now batch due doc);
      tx_ret (Some (WakeEmission batch (batch_reason doc due) (length due)))
  end.

(** [Math.min(Date.parse(iso), limit)] *)
Definition capped (limit : Z) (iso : string) : Z := Z.min (default limit (date_parse iso)) limit.

(** [retry_at], when it lies ahead. *)
Definition refused_until (now : Z) (doc : wake_document) : option string :=
  match rf_retry_at (wd_refusals doc) with
  | Some retry => match date_parse retry with Some t => if now <? t then Some retry else None | None => None end
  | None => None
  end.

(** The transaction of [nextDueAt]. *)
(* src/src/representative-push.ts 425-438 nextDueAt *)
Definition next_due_tx (generation : string) (now : Z) : tx (option Z) :=
  let* doc := loadDocument generation in
  let limit := now + MAX_FUTURE_MS in
  let ms := capped limit in
  let* pending := tx_read (rows generation) in
  tx_ret (
    match wd_outstanding doc with
    | Some o => Some (ms (ob_deadline o))
    | None =>
        match refused_until now doc with
        | Some retry => Some (ms retry)
        | None =>
            if cohort_open doc then None
            else match pending with
                 | [] => None
                 | kv :: rest =>
                     let earliest := foldr (fun kv m => Z.min (ms (wk_next_at (snd kv))) m) (ms (wk_next_at (snd kv))) rest in
                     Some (match wd_debounce_at doc with Some d => Z.max earliest (ms d) | None => earliest end)
                 end
        end
    end).

Record ack_line := AckLine { al_wake_id : string; al_accepted : bool }.

(* src/src/representative-push.ts 478-487 parseAck *)
Definition parseAck (line : string) : option ack_line :=
  if (WAKE_ACK_LINE_MAX_BYTES <? String.length line)%nat then None
  else
    value ← parse_text line;
    match value with
    | JObj fields =>
        if negb (length fields =? 2)%nat then None
        else
          wake_id ← jget "wake_id" value ≫= uuid_of;
          accepted ← jget "accepted" value ≫= jbool;
          Some (AckLine wake_id accepted)
    | _ => None
    end.

Definition rolled_back (retry : string) (row : wake_row) : wake_row :=
  WakeRow (wk_created_at row) (Z.max (wk_attempts row - 1) 0) retry.

(** The transaction of [ack]. *)
(* src/src/representative-push.ts 448-473 ack *)
Definition ack_tx (parsed : ack_line) (generation : string) (now : Z) : tx ack_outcome :=
  let* doc := loadDocument generation in
  match wd_outstanding doc with
  | None => tx_ret Ignored
  | Some o =>
      if string_leb (ob_deadline o) (to_iso now) then
        do* saveDocument generation (set_outstanding None doc); tx_ret Ignored
      else if negb (String.eqb (ob_batch o) (al_wake_id parsed)) then tx_ret Ignored
      else if al_accepted parsed then
        do* saveDocument generation (set_refusals (Refusals 0 None) (set_outstanding None doc));
        tx_ret Accepted
      else
        let count := rf_count (wd_refusals doc) + 1 in
        let retry := to_iso (now + refusalBackoffMs count) in
        do* write_rows generation (update_rows (rolled_back retry) (ob_replies o));
        do* saveDocument generation (set_refusals (Refusals count (Some retry)) (set_outstanding None doc));
        tx_ret Refused
  end.

(** Never creates anything; [readOnly] gives [null] when there is no state. *)
(* src/src/representative-push.ts 502-508 readWakeSummary *)
Definition readWakeSummary (wt : string) : tx (option wake_summary) :=
  let* row := tx_read (fun db => t_bindings db !! wt) in
  match row with
  | None => tx_ret None
  | Some r => let* s := summarize (br_generation r) in tx_ret (Some s)
  end.
End Document.

(** * The methods of the push engine ([src/representative-push.ts], class [PushEngine])

    Programs over the engine's transactions, its network reads and its memory.
    [EnterChain] and [LeaveChain] bracket a step of [serial]; [BeginScan] is the
    test and set at the head of [discover].  A transaction is given the two
    identifiers its calls of [randomUUID] would draw, the first for a recovery
    and the second for a batch.  A loop takes fuel, and a run cut off
    by it is a prefix of the real one. *)

(** [text] with its C0, DEL and C1 characters escaped (UTF-8: C1 is [C2 80] to [C2 9F]). *)
(* src/src/representative-db.ts 104-106 printable *)
Fixpoint printable (s : string) : string :=
  let escape c := String backslash ("u00" +:+
    String (hex_digit (nat_of_ascii c / 16)) (String (hex_digit (nat_of_ascii c mod 16)) "")) in
  match s with
  | EmptyString => ""
  | String c s' =>
      if is_c0_or_del c then escape c +:+ printable s'
      else if (nat_of_ascii c =? 194)%nat then
        match s' with
        | String d s'' => if ascii_between 128 159 d then escape d +:+ printable s'' else String c (printable s')
        | EmptyString => String c ""
        end
      else String c (printable s')
  end.

(* src/src/representative-push.ts 196-198 EngineStoppedError *)
Definition engine_stopped : js_error := ErrorOf "EngineStoppedError" None None "The push engine stopped" [].

(** A discovery page or cohort probe: [readAfter]'s answer with [behind_by]. *)
Record discovery := Discovery { dc_page : page; dc_behind_by : option Z }.

(* src/src/representative-push.ts 170-186 PushEngineDeps *)
Inductive push_op : Type -> Type :=
| PushTx {A : Type} (body : string -> string -> tx A) : push_op (js_error + A)
| PushRead (cursor : option point) (limit : Z) : push_op (js_error + discovery)
| Stopped : push_op bool
| EnterChain : push_op (js_error + unit)
| LeaveChain : push_op unit
| BeginScan : push_op bool
| SetRescan (v : bool) : push_op unit
| Rescan : push_op bool
| EndScan : push_op unit
| EmitWake (wake : wake_emission) : push_op (js_error + unit)
| LogLine (line : string) : push_op unit.

Definition push := prog push_op.

Section Engine.
Context `{RepEnv} `{JsDate}.
Variable b : binding.

(** A request starts only while the engine runs; [stop] abandons it with an error. *)
(* src/src/representative-push.ts 224-229 network *)
Definition network (cursor : option point) (limit : Z) : push discovery :=
  let! stopped := ask Stopped in
  if (stopped : bool) then Throw engine_stopped else perform (PushRead cursor limit).

(* src/src/representative-push.ts 232-239 serial *)
Definition serial {A} (step : push A) : push A :=
  do! perform EnterChain; pfinally step (ask LeaveChain).

(** The transaction of one transition: the generation is checked and invalid
    wake state discarded before the body runs. *)
Definition engine_tx {A} (body : string -> string -> Z -> tx A) (fresh batch : string) : tx (option string * A) :=
  let* generation := requireCurrentGeneration b in
  let* discarded := discardInvalidWakeState fresh generation in
  let* now := tx_now in
  let* result := body batch generation now in
  tx_ret (discarded, result).

(* src/src/representative-push.ts 245-257 transact *)
Definition transact {A} (body : string -> string -> Z -> tx A) : push A :=
  let! r := perform (PushTx (engine_tx body)) in
  do! match fst r with
      | Some discarded => ask (LogLine ("Representative listener: discarded " +:+ printable discarded +:+
          "; rebuilding wake state from the delivered checkpoint (delivery state unchanged)"))
      | None => Ret tt
      end;
  Ret (snd r).

(* src/src/representative-push.ts 303-305 summary *)
Definition summary : push wake_summary := transact (fun _ generation _ => summarize generation).

Fixpoint capture (attempts : nat) : push unit :=
  match attempts with
  | O => Ret tt
  | S n =>
      let! start := serial (transact (fun _ generation _ => capture_start generation)) in
      match start with
      | None => Ret tt
      | Some (cursor, epoch) =>
          let! probe := network cursor 1 in
          let count := match dc_behind_by probe with
                       | None => 0
                       | Some k => Z.of_nat (length (pg_entries (dc_page probe))) + k
                       end in
          let! persisted := serial (transact (fun _ generation _ => capture_persist epoch count generation)) in
          if (persisted : bool) then Ret tt else capture n
      end
  end.

(* src/src/representative-push.ts 274-301 captureCohort *)
Definition captureCohort : push wake_summary := do! capture CAPTURE_ATTEMPTS; summary.

(* src/src/representative-push.ts 390-422 tick *)
Definition tick : push (option wake_emission) :=
  let! stopped := ask Stopped in
  if (stopped : bool) then Ret None
  else serial (
    let! wake := transact tick_tx in
    match wake with
    | Some w => do! perform (EmitWake w); Ret (Some w)
    | None => Ret None
    end).

Fixpoint discovery_pages (fuel : nat) (epoch : option string) (cursor : option point) : push unit :=
  match fuel with
  | O => Ret tt
  | S n =>
      let! result := network cursor DISCOVERY_PAGE in
      let entries := pg_entries (dc_page result) in
      let tail := page_tail (dc_page result) in
      let! merged := serial (transact (fun _ generation now =>
        merge b generation now epoch entries tail (has_more (dc_page result)))) in
      match merged with
      | None => ask (SetRescan true)
      | Some _ =>
          do! tick;
          if negb (has_more (dc_page result)) || bool_decide (tail = None) then Ret tt
          else discovery_pages n epoch tail
      end
  end.

(* src/src/representative-push.ts 323-349 scanOnce *)
Definition scanOnce (fuel : nat) : push unit :=
  let! start := serial (transact (fun _ generation _ => scan_begin generation)) in
  discovery_pages fuel (snd start) (fst start).

Fixpoint scan_loop (scans pages : nat) : push unit :=
  match scans with
  | O => Ret tt
  | S n =>
      do! ask (SetRescan false);
      do! scanOnce pages;
      let! again := ask Rescan in
      if (again : bool) then scan_loop n pages else Ret tt
  end.

(** A call that finds a scan running asks it to scan once more. *)
(* src/src/representative-push.ts 311-321 discover *)
Definition discover (scans pages : nat) : push unit :=
  let! mine := ask BeginScan in
  if (mine : bool) then pfinally (scan_loop scans pages) (ask EndScan) else Ret tt.

(* src/src/representative-push.ts 425-440 nextDueAt *)
Definition nextDueAt : push (option Z) := transact (fun _ generation now => next_due_tx generation now).

(* src/src/representative-push.ts 445-475 ack *)
Definition ack (line : string) : push ack_outcome :=
  match parseAck line with
  | None => Ret Ignored
  | Some parsed =>
      let! stopped := ask Stopped in
      if (stopped : bool) then Ret Ignored
      else serial (transact (fun _ generation now => ack_tx parsed generation now))
  end.
End Engine.
