(* ===== verification/PushDocument.v ===== *)
(** * The order of printed instants

    The code compares the texts [toISOString] gives; with four-digit years that
    is the order of the instants. *)

From stdpp Require Import pretty.
From S2P Require Import Prelude JsDate JsonText Effects RepDb RepCore RepPush.

Open Scope Z_scope.

(** ** Fixed-width fields *)

Lemma digit_nat d : 0 <= d < 10 -> nat_of_ascii (digit d) = (48 + Z.to_nat d)%nat.
Proof. intros Hd. unfold digit. apply nat_ascii_embedding. lia. Qed.

Lemma string_ltb_cons x y s t :
  string_ltb (String x s) (String y t) =
  ((nat_of_ascii x <? nat_of_ascii y)%nat || Ascii.eqb x y && string_ltb s t).
Proof.
  cbn [string_ltb]. destruct (Ascii.eqb_spec x y) as [->|Hne]; cbn [andb]; [by rewrite Nat.ltb_irrefl|by rewrite orb_false_r].
Qed.

Lemma digit_ltb d e s t : 0 <= d < 10 -> 0 <= e < 10 ->
  string_ltb (String (digit d) s) (String (digit e) t) = (d <? e) || (d =? e) && string_ltb s t.
Proof.
  intros Hd He. rewrite string_ltb_cons, !digit_nat by done.
  destruct (Z.eqb_spec d e) as [->|Hne].
  - rewrite Ascii.eqb_refl, Nat.ltb_irrefl, Z.ltb_irrefl. done.
  - replace (Ascii.eqb (digit d) (digit e)) with false.
    + rewrite !orb_false_r. destruct (Z.ltb_spec d e); [apply Nat.ltb_lt|apply Nat.ltb_ge]; lia.
    + symmetry. apply Ascii.eqb_neq. intros E. apply (f_equal nat_of_ascii) in E.
      rewrite !digit_nat in E by done. lia.
Qed.

Lemma pad_ltb w a c s t : 0 <= a < 10 ^ Z.of_nat w -> 0 <= c < 10 ^ Z.of_nat w ->
  string_ltb (pad w a +:+ s) (pad w c +:+ t) = (a <? c) || (a =? c) && string_ltb s t.
Proof.
  revert a c s t. induction w as [|w IH]; intros a c s t Ha Hc.
  - cbn in Ha, Hc. assert (a = 0) as -> by lia. by assert (c = 0) as -> by lia.
  - rewrite Nat2Z.inj_succ, Z.pow_succ_r in Ha, Hc by lia. cbn [pad]. rewrite !append_assoc.
    rewrite IH by (Z.div_mod_to_equations; lia). rewrite !append_cons, !append_nil_l.
    rewrite digit_ltb by (apply Z.mod_pos_bound; lia).
    destruct (Z.ltb_spec (a / 10) (c / 10)), (Z.eqb_spec (a / 10) (c / 10)), (Z.ltb_spec (a mod 10) (c mod 10)),
      (Z.eqb_spec (a mod 10) (c mod 10)), (Z.ltb_spec a c), (Z.eqb_spec a c); try done;
      exfalso; Z.div_mod_to_equations; lia.
Qed.

(** ** The calendar is monotone *)

(** Days before a March-based year of the era. *)
Definition year_start (y : Z) : Z := 365 * y + y / 4 - y / 100.

Lemma year_of_era doe : 0 <= doe < 146097 ->
  let yoe := (doe - doe / 1460 + doe / 36524 - doe / 146096) / 365 in
  0 <= yoe < 400 /\ 0 <= doe - year_start yoe <= 365 /\ (yoe < 399 -> doe < year_start (yoe + 1)).
Proof. intros H. cbv zeta. unfold year_start. Z.div_mod_to_equations. lia. Qed.

Lemma year_start_mono a c : 0 <= a <= c -> year_start a <= year_start c.
Proof. intros H. unfold year_start. Z.div_mod_to_equations. lia. Qed.

(** Months from March 0000, and the day of the month. *)
Definition month_key (y m d : Z) : Z := 32 * (12 * y + m) + d.

Lemma civil_mono a c : a < c ->
  let '(y, m, d) := civil_from_days a in let '(y', m', d') := civil_from_days c in
  month_key y m d < month_key y' m' d'.
Proof.
  intros Hac. pose proof (civil_bounds a) as Ba. pose proof (civil_bounds c) as Bc.
  unfold civil_from_days in *. cbv zeta in *.
  set (z := a + 719468) in *. set (z' := c + 719468) in *. assert (Hz : z < z') by (subst z z'; lia). clearbody z z'.
  assert (Hd : 0 <= z mod 146097 < 146097) by (apply Z.mod_pos_bound; lia).
  assert (Hd' : 0 <= z' mod 146097 < 146097) by (apply Z.mod_pos_bound; lia).
  assert (Hera : z / 146097 < z' / 146097 \/ (z / 146097 = z' / 146097 /\ z mod 146097 < z' mod 146097))
    by (Z.div_mod_to_equations; lia).
  set (era := z / 146097) in *. set (era' := z' / 146097) in *.
  set (doe := z mod 146097) in *. set (doe' := z' mod 146097) in *. clearbody doe doe' era era'.
  pose proof (year_of_era doe Hd) as Hy. pose proof (year_of_era doe' Hd') as Hy'. cbv zeta in Hy, Hy'.
  set (yoe := (doe - doe / 1460 + doe / 36524 - doe / 146096) / 365) in *.
  set (yoe' := (doe' - doe' / 1460 + doe' / 36524 - doe' / 146096) / 365) in *. clearbody yoe yoe'.
  destruct Hy as (Hr & Hlo & Hhi). destruct Hy' as (Hr' & Hlo' & Hhi').
  change (365 * yoe + yoe / 4 - yoe / 100) with (year_start yoe) in *.
  change (365 * yoe' + yoe' / 4 - yoe' / 100) with (year_start yoe') in *.
  assert (Hlex : yoe + era * 400 < yoe' + era' * 400 \/
    (yoe + era * 400 = yoe' + era' * 400 /\ doe - year_start yoe < doe' - year_start yoe')).
  { destruct Hera as [Hera|[-> Hdoe]]; [lia|]. destruct (Z.lt_trichotomy yoe yoe') as [?|[->|Hgt]]; [lia|lia|].
    exfalso. assert (doe' < year_start (yoe' + 1)) by (apply Hhi'; lia).
    assert (year_start (yoe' + 1) <= year_start yoe) by (apply year_start_mono; lia). lia. }
  set (Y := yoe + era * 400) in *. set (Y' := yoe' + era' * 400) in *.
  set (doy := doe - year_start yoe) in *. set (doy' := doe' - year_start yoe') in *. clearbody Y Y' doy doy'.
  clear - Hlex Ba Bc Hlo Hlo'.
  assert (Hmp : 0 <= (5 * doy + 2) / 153 <= 11) by (Z.div_mod_to_equations; lia).
  assert (Hmp' : 0 <= (5 * doy' + 2) / 153 <= 11) by (Z.div_mod_to_equations; lia).
  assert (Hmono : doy < doy' -> (5 * doy + 2) / 153 < (5 * doy' + 2) / 153 \/
    (5 * doy + 2) / 153 = (5 * doy' + 2) / 153) by (Z.div_mod_to_equations; lia).
  set (mp := (5 * doy + 2) / 153) in *. set (mp' := (5 * doy' + 2) / 153) in *. clearbody mp mp'.
  assert (Hd : mp = mp' -> (153 * mp + 2) / 5 = (153 * mp' + 2) / 5) by congruence.
  set (k := (153 * mp + 2) / 5) in *. set (k' := (153 * mp' + 2) / 5) in *. clearbody k k'.
  unfold month_key.
  destruct (mp <? 10) eqn:E, (mp' <? 10) eqn:E'; bool_to_prop;
    repeat match goal with
    | |- context [if ?x <=? 2 then _ else _] => destruct (x <=? 2) eqn:?; bool_to_prop
    end; lia.
Qed.

(** ** Printed instants *)

Lemma to_iso_mono a c : four_digit_year a -> four_digit_year c -> a < c -> string_ltb (to_iso a) (to_iso c) = true.
Proof.
  unfold four_digit_year, to_iso. intros Ha Hc Hac.
  pose proof (civil_bounds (a / ms_per_day)) as Ba. pose proof (civil_bounds (c / ms_per_day)) as Bc.
  assert (Hday : a / ms_per_day < c / ms_per_day \/
    (a / ms_per_day = c / ms_per_day /\ a mod ms_per_day < c mod ms_per_day))
    by (unfold ms_per_day; Z.div_mod_to_equations; lia).
  assert (Hm : 0 <= a mod ms_per_day < ms_per_day) by (apply Z.mod_pos_bound; unfold ms_per_day; lia).
  assert (Hm' : 0 <= c mod ms_per_day < ms_per_day) by (apply Z.mod_pos_bound; unfold ms_per_day; lia).
  assert (Hcal : let '(y, m, d) := civil_from_days (a / ms_per_day) in
    let '(y', m', d') := civil_from_days (c / ms_per_day) in
    month_key y m d < month_key y' m' d' \/ (y = y' /\ m = m' /\ d = d' /\ a mod ms_per_day < c mod ms_per_day)).
  { destruct Hday as [Hlt|[E Hlt]].
    - pose proof (civil_mono _ _ Hlt) as Hcm.
      destruct (civil_from_days (a / ms_per_day)) as [[??]?], (civil_from_days (c / ms_per_day)) as [[??]?]. by left.
    - rewrite E. destruct (civil_from_days (c / ms_per_day)) as [[??]?]. by right. }
  destruct (civil_from_days (a / ms_per_day)) as [[y m] d], (civil_from_days (c / ms_per_day)) as [[y' m'] d'].
  set (u := a mod ms_per_day) in *. set (v := c mod ms_per_day) in *. clearbody u v. unfold ms_per_day in Hm, Hm'.
  replace ((0 <=? y) && (y <=? 9999)) with true by (symmetry; apply andb_true_intro; split; apply Z.leb_le; lia).
  replace ((0 <=? y') && (y' <=? 9999)) with true by (symmetry; apply andb_true_intro; split; apply Z.leb_le; lia).
  assert (0 <= u / 3600000 < 24) by (Z.div_mod_to_equations; lia).
  assert (0 <= v / 3600000 < 24) by (Z.div_mod_to_equations; lia).
  assert (0 <= u / 60000 mod 60 < 60) by (apply Z.mod_pos_bound; lia).
  assert (0 <= v / 60000 mod 60 < 60) by (apply Z.mod_pos_bound; lia).
  assert (0 <= u / 1000 mod 60 < 60) by (apply Z.mod_pos_bound; lia).
  assert (0 <= v / 1000 mod 60 < 60) by (apply Z.mod_pos_bound; lia).
  assert (0 <= u mod 1000 < 1000) by (apply Z.mod_pos_bound; lia).
  assert (0 <= v mod 1000 < 1000) by (apply Z.mod_pos_bound; lia).
  assert (Hu : u < v -> u / 3600000 < v / 3600000 \/ (u / 3600000 = v / 3600000 /\
    (u / 60000 mod 60 < v / 60000 mod 60 \/ (u / 60000 mod 60 = v / 60000 mod 60 /\
    (u / 1000 mod 60 < v / 1000 mod 60 \/ (u / 1000 mod 60 = v / 1000 mod 60 /\ u mod 1000 < v mod 1000)))))).
  { intros Huv. clear -Hm Hm' Huv. Z.div_mod_to_equations. lia. }
  assert (Hdate : y < y' \/ (y = y' /\ (m < m' \/ (m = m' /\ (d < d' \/ (d = d' /\ u < v))))))
    by (unfold month_key in Hcal; lia).
  clear Hcal Hday.
  repeat (rewrite pad_ltb by (simpl; lia); rewrite ?append_cons, ?append_nil_l, ?string_ltb_cons, ?Ascii.eqb_refl;
          try (rewrite Nat.ltb_irrefl; cbn [orb andb])).
  rewrite string_ltb_irrefl.
  repeat (rewrite orb_true_iff || rewrite andb_true_iff || rewrite Z.ltb_lt || rewrite Z.eqb_eq).
  set (h := u / 3600000) in *. set (h' := v / 3600000) in *. set (mi := u / 60000 mod 60) in *.
  set (mi' := v / 60000 mod 60) in *. set (se := u / 1000 mod 60) in *. set (se' := v / 1000 mod 60) in *.
  set (f := u mod 1000) in *. set (f' := v mod 1000) in *. clearbody h h' mi mi' se se' f f'. tauto.
Qed.

Lemma to_iso_ltb a c : four_digit_year a -> four_digit_year c -> string_ltb (to_iso a) (to_iso c) = (a <? c).
Proof.
  intros Ha Hc. destruct (Z.lt_trichotomy a c) as [Hlt|[->|Hgt]].
  - rewrite to_iso_mono by done. symmetry. by apply Z.ltb_lt.
  - by rewrite string_ltb_irrefl, Z.ltb_irrefl.
  - rewrite (string_ltb_asym (to_iso c)) by (by apply to_iso_mono). symmetry. apply Z.ltb_ge. lia.
Qed.

Lemma to_iso_leb a c : four_digit_year a -> four_digit_year c -> string_leb (to_iso a) (to_iso c) = (a <=? c).
Proof. intros Ha Hc. unfold string_leb. rewrite to_iso_ltb by done. by rewrite Z.leb_antisym. Qed.

(** The years 0000 to 9999, as an interval. *)
Definition iso_min : Z := -62167219200000.
Definition iso_max : Z := 253402300799999.

Lemma four_digit_interval t : iso_min <= t <= iso_max -> four_digit_year t.
Proof.
  intros Ht. unfold four_digit_year.
  assert (Hd : -719528 <= t / ms_per_day <= 2932896) by (unfold iso_min, iso_max, ms_per_day in *; Z.div_mod_to_equations; lia).
  set (day := t / ms_per_day) in *. clearbody day.
  assert (Hlo : day = -719528 \/ -719528 < day) by lia. assert (Hhi : day = 2932896 \/ day < 2932896) by lia.
  pose proof (civil_bounds day) as B. destruct (civil_from_days day) as [[y m] d] eqn:E.
  split.
  - destruct Hlo as [->|Hlo]; [vm_compute in E; simplify_eq; lia|].
    pose proof (civil_mono _ _ Hlo) as Hm. rewrite E in Hm.
    change (civil_from_days (-719528)) with (0, 1, 1) in Hm. unfold month_key in Hm. lia.
  - destruct Hhi as [->|Hhi]; [vm_compute in E; simplify_eq; lia|].
    pose proof (civil_mono _ _ Hhi) as Hm. rewrite E in Hm.
    change (civil_from_days 2932896) with (9999, 12, 31) in Hm. unfold month_key in Hm. lia.
Qed.

(** * The wake document round trip

    Which documents are valid, that a valid document is read back as it was
    saved, and that whatever is read back is what was saved. *)

Section Document.
Context `{RepEnv} `{JsDate}.

Definition uuid (s : string) : bool := isRepresentativeUuid (Some (JStr s)).

Definition valid_point (p : point) : bool := uuid (p_id p) && instant (p_created_at p).

Definition valid_batch (o : outstanding_batch) : bool :=
  uuid (ob_batch o) && forallb uuid (ob_replies o) && instant (ob_deadline o).

Definition valid_option {A} (f : A -> bool) (v : option A) : bool := match v with Some x => f x | None => true end.

(** The documents [parseDocument] accepts. *)
Definition valid_document (d : wake_document) : bool :=
  valid_option valid_point (wd_frontier d) && valid_option valid_batch (wd_outstanding d) &&
  (0 <=? rf_count (wd_refusals d)) && valid_option instant (rf_retry_at (wd_refusals d)) &&
  valid_option (fun c => 0 <=? co_remaining c) (wd_cohort d) &&
  valid_option instant (wd_debounce_at d) && valid_option uuid (wd_scan_epoch d).

Lemma uuid_of_str s : uuid_of (JStr s) = if uuid s then Some s else None.
Proof. done. Qed.

Lemma isInstant_str s : isInstant (JStr s) = if instant s then Some s else None.
Proof. done. Qed.

Lemma mapM_uuid l : mapM uuid_of (map JStr l) = if forallb uuid l then Some l else None.
Proof.
  induction l as [|s l IH]; [done|]. cbn [map mapM forallb]. rewrite uuid_of_str, IH.
  destruct (uuid s); [|done]. by destruct (forallb uuid l).
Qed.

Lemma isPoint_json p : isPoint (point_json p) = if valid_point p then Some p else None.
Proof.
  destruct p as [i t]. unfold isPoint, point_json, valid_point. cbn [jget assoc String.eqb Ascii.eqb Bool.eqb mbind option_bind p_id p_created_at].
  rewrite uuid_of_str, isInstant_str. destruct (uuid i); [|done]. by destruct (instant t).
Qed.

Lemma reason_round_trip r : reason_of_name (reason_name r) = Some r.
Proof. by destruct r. Qed.

Lemma outstanding_round_trip o : outstanding_of (outstanding_json o) = if valid_batch o then Some o else None.
Proof.
  destruct o as [i l t r]. unfold outstanding_of, outstanding_json, valid_batch.
  cbn [jget jstr assoc String.eqb Ascii.eqb Bool.eqb mbind option_bind ob_batch ob_replies ob_deadline ob_reason].
  rewrite uuid_of_str, isInstant_str, mapM_uuid, reason_round_trip.
  destruct (uuid i); [|done]. cbn [mbind option_bind]. destruct (forallb uuid l); [|done].
  cbn [mbind option_bind andb]. by destruct (instant t).
Qed.

Lemma nullable_json {A} (f : A -> json) (g : json -> option A) (ok : A -> bool) v :
  (forall x, f x <> JNull) -> (forall x, g (f x) = if ok x then Some x else None) ->
  nullable g (Some (json_or_null f v)) = if valid_option ok v then Some v else None.
Proof.
  intros Hn Hg. destruct v as [x|]; [|done]. cbn [valid_option json_or_null].
  assert (Hx := Hn x). specialize (Hg x). unfold nullable.
  destruct (f x); try done; rewrite Hg; by destruct (ok x).
Qed.

Lemma document_round_trip d : document_of (document_json d) = if valid_document d then Some d else None.
Proof.
  destruct d as [f o [c r] co s db e]. unfold document_of, document_json, valid_document.
  cbn [jget jint assoc String.eqb Ascii.eqb Bool.eqb wd_frontier wd_outstanding wd_refusals wd_cohort wd_startup_pending
       wd_debounce_at wd_scan_epoch rf_count rf_retry_at].
  rewrite bool_decide_eq_true_2 by done. cbn [negb mbind option_bind].
  rewrite (nullable_json point_json isPoint valid_point) by (done || apply isPoint_json).
  destruct (valid_option valid_point f); [|done]. cbn [mbind option_bind andb].
  rewrite (nullable_json outstanding_json outstanding_of valid_batch) by (done || apply outstanding_round_trip).
  destruct (valid_option valid_batch o); [|done]. cbn [mbind option_bind andb].
  unfold refusals_of at 1. cbn [jget assoc String.eqb Ascii.eqb Bool.eqb mbind option_bind natural].
  destruct (0 <=? c); [|done]. cbn [mbind option_bind andb].
  rewrite (nullable_json JStr isInstant instant r) by (done || apply isInstant_str).
  destruct (valid_option instant r); [|done]. cbn [mbind option_bind andb].
  rewrite (nullable_json (fun c => JObj [("remaining", JNum (co_remaining c)); ("open", JBool (co_open c))])
    cohort_of (fun c => 0 <=? co_remaining c)).
  2: done.
  2: { intros [n op]. unfold cohort_of. cbn [jget assoc String.eqb Ascii.eqb Bool.eqb mbind option_bind natural jbool co_remaining co_open].
       by destruct (0 <=? n). }
  destruct (valid_option _ co); [|done]. cbn [mbind option_bind andb jbool].
  rewrite (nullable_json JStr isInstant instant db) by (done || apply isInstant_str).
  destruct (valid_option instant db); [|done]. cbn [mbind option_bind andb].
  change (default JNull (Some (json_or_null JStr e))) with (json_or_null JStr e).
  rewrite (nullable_json JStr uuid_of uuid) by (done || apply uuid_of_str).
  by destruct (valid_option uuid e).
Qed.

Lemma plain_strings l : foldr (fun x P => plain x /\ P) True (map JStr l).
Proof. by induction l. Qed.

Lemma plain_or_null {A} (f : A -> json) v : (forall x, plain (f x)) -> plain (json_or_null f v).
Proof. destruct v; cbn; auto. Qed.

Lemma document_plain d : plain (document_json d).
Proof.
  destruct d as [f o [c r] co s db e].
  assert (Hp : forall p, plain (point_json p)).
  { intros [i t]. split; [|done]. apply (bool_decide_unpack _). by vm_compute. }
  assert (Ho : forall o, plain (outstanding_json o)).
  { intros [i l t rs]. split; [apply (bool_decide_unpack _); by vm_compute|]. cbn. split; [done|]. split; [apply plain_strings|done]. }
  assert (Hc : forall c, plain (JObj [("remaining", JNum (co_remaining c)); ("open", JBool (co_open c))])).
  { intros [n b]. split; [|done]. apply (bool_decide_unpack _). by vm_compute. }
  split; [apply (bool_decide_unpack _); by vm_compute|].
  cbn [foldr snd wd_frontier wd_outstanding wd_refusals wd_cohort wd_startup_pending wd_debounce_at wd_scan_epoch rf_count rf_retry_at].
  repeat split; try done; try (by apply plain_or_null).
  apply (bool_decide_unpack _). by vm_compute.
Qed.

(** [parseDocument(JSON.stringify(doc))] *)
Lemma parse_saved d :
  parseDocument (json_compact (document_json d)) = if valid_document d then inr d else inl invalid_wake_record.
Proof.
  unfold parseDocument. rewrite parse_compact by apply document_plain. unfold document_json at 1.
  rewrite document_round_trip. destruct (valid_document d); [done|].
  match goal with |- (if ?b then _ else _) = _ => replace b with false; [done|] end.
  symmetry. by rewrite !andb_false_r.
Qed.

(** What is accepted is valid. *)
Lemma nullable_valid {A} (f : json -> option A) (ok : A -> bool) v x :
  (forall j a, f j = Some a -> ok a = true) -> nullable f v = Some x -> valid_option ok x = true.
Proof.
  intros Hf Hv. destruct v as [j|]; [|done]. assert (x = None \/ exists a, f j = Some a /\ x = Some a) as [->|(a & Ha & ->)].
  { destruct j; cbn in Hv; try (destruct (f _) eqn:E; cbn in Hv; simplify_eq; eauto); simplify_eq; auto. }
  - done.
  - cbn. eauto.
Qed.

Lemma uuid_of_valid j a : uuid_of j = Some a -> uuid a = true.
Proof. unfold uuid_of, uuid. destruct j; try done. destruct (isRepresentativeUuid _) eqn:E; [|done]. by intros [= <-]. Qed.

Lemma isInstant_valid j a : isInstant j = Some a -> instant a = true.
Proof. unfold isInstant. destruct j; try done. destruct (instant s) eqn:E; [|done]. by intros [= <-]. Qed.

Lemma isPoint_valid j p : isPoint j = Some p -> valid_point p = true.
Proof.
  unfold isPoint. destruct (jget "id" j) as [a|]; [|done]. cbn. destruct (uuid_of a) as [i|] eqn:Ei; [|done].
  cbn. destruct (jget "created_at" j) as [a'|]; [|done]. cbn. destruct (isInstant a') as [t|] eqn:Et; [|done].
  cbn. intros [= <-]. unfold valid_point. cbn. by rewrite (uuid_of_valid _ _ Ei), (isInstant_valid _ _ Et).
Qed.

Lemma mapM_uuid_valid l r : mapM uuid_of l = Some r -> forallb uuid r = true.
Proof.
  revert r. induction l as [|j l IH]; intros r; cbn; [by intros [= <-]|].
  destruct (uuid_of j) as [i|] eqn:Ei; [|done]. cbn. destruct (mapM uuid_of l) as [r'|]; [|done]. cbn. intros [= <-].
  cbn. by rewrite (uuid_of_valid _ _ Ei), (IH r' eq_refl).
Qed.

Lemma outstanding_valid j o : outstanding_of j = Some o -> valid_batch o = true.
Proof.
  unfold outstanding_of. destruct (jget "batch" j) as [a|]; [|done]. cbn. destruct (uuid_of a) as [i|] eqn:Ei; [|done]. cbn.
  destruct (jget "replies" j) as [rs|]; [|done]. destruct rs; try done. destruct (mapM uuid_of l) as [l'|] eqn:El; [|done]. cbn.
  destruct (jget "deadline" j) as [a'|]; [|done]. cbn. destruct (isInstant a') as [t|] eqn:Et; [|done]. cbn.
  destruct (jstr (jget "reason" j)) as [n|]; [|done]. cbn. destruct (reason_of_name n); [|done]. cbn. intros [= <-].
  unfold valid_batch. cbn. by rewrite (uuid_of_valid _ _ Ei), (mapM_uuid_valid _ _ El), (isInstant_valid _ _ Et).
Qed.

Lemma natural_valid j n : natural j = Some n -> (0 <=? n) = true.
Proof. unfold natural. destruct j; try done. destruct (0 <=? z) eqn:E; [|done]. by intros [= <-]. Qed.

Lemma refusals_valid j r : refusals_of j = Some r -> (0 <=? rf_count r) && valid_option instant (rf_retry_at r) = true.
Proof.
  unfold refusals_of. destruct (jget "count" j) as [a|]; [|done]. cbn. destruct (natural a) as [n|] eqn:En; [|done]. cbn.
  destruct (nullable isInstant _) as [t|] eqn:Et; [|done]. cbn. intros [= <-]. cbn.
  rewrite (natural_valid _ _ En). cbn. by eapply nullable_valid; [apply isInstant_valid|].
Qed.

Lemma cohort_valid j c : cohort_of j = Some c -> (0 <=? co_remaining c) = true.
Proof.
  unfold cohort_of. destruct (jget "open" j) as [a|]; [|done]. cbn. destruct (jbool a) as [o|]; [|done]. cbn.
  destruct (jget "remaining" j) as [a'|]; [|done]. cbn. destruct (natural a') as [n|] eqn:En; [|done]. cbn. intros [= <-].
  by apply natural_valid in En.
Qed.

Lemma document_valid v d : document_of v = Some d -> valid_document d = true.
Proof.
  unfold document_of. destruct (negb _); [done|].
  destruct (nullable isPoint _) as [f|] eqn:Ef; [|done]. cbn [mbind option_bind].
  destruct (nullable outstanding_of _) as [o|] eqn:Eo; [|done]. cbn [mbind option_bind].
  destruct (jget "refusals" v) as [rj|]; [|done]. cbn [mbind option_bind].
  destruct (refusals_of rj) as [r|] eqn:Er; [|done]. cbn [mbind option_bind].
  destruct (nullable cohort_of _) as [c|] eqn:Ec; [|done]. cbn [mbind option_bind].
  destruct (jget "startup_pending" v) as [sj|]; [|done]. cbn [mbind option_bind].
  destruct (jbool sj) as [s|]; [|done]. cbn [mbind option_bind].
  destruct (nullable isInstant _) as [db|] eqn:Ed; [|done]. cbn [mbind option_bind].
  destruct (nullable uuid_of _) as [e|] eqn:Ee; [|done]. cbn [mbind option_bind]. intros [= <-].
  unfold valid_document. cbn [wd_frontier wd_outstanding wd_refusals wd_cohort wd_debounce_at wd_scan_epoch].
  apply refusals_valid, andb_true_iff in Er as [-> ->].
  rewrite (nullable_valid isPoint valid_point _ _ isPoint_valid Ef).
  rewrite (nullable_valid outstanding_of valid_batch _ _ outstanding_valid Eo).
  rewrite (nullable_valid cohort_of (fun c => 0 <=? co_remaining c) _ _ cohort_valid Ec).
  rewrite (nullable_valid isInstant instant _ _ isInstant_valid Ed).
  by rewrite (nullable_valid uuid_of uuid _ _ uuid_of_valid Ee).
Qed.

Lemma parse_valid raw d : parseDocument raw = inr d -> valid_document d = true.
Proof.
  unfold parseDocument. destruct (parse_text raw) as [v|]; [|done].
  destruct v; try done; destruct (document_of _) eqn:E; try (by repeat case_match); intros [= <-]; by eapply document_valid.
Qed.
End Document.

#[global] Arguments parseDocument : simpl never.
