(* ===== verification/PushFacts.v ===== *)
(** * What the push engine's transactions do to the tables

    [ensures m Q]: when the transaction [m] returns, its result and the tables
    it leaves are in [Q]; one that throws is rolled back.  A [quiet] transition
    keeps the delivery tables, the recorded replies, the discovery frontier and
    the scan epoch; a [rebuilt] state is what discarding invalid wake state
    leaves. *)

From stdpp Require Import pretty.
From S2P Require Import Prelude JsDate JsonText Effects RepDb RepCore RepRead RepDeliveryFacts RepPush PushDocument.

Open Scope Z_scope.
Open Scope tx_scope.

Definition ensures {A} (m : tx A) (Q : A -> rep_db -> Prop) (now : Z) (db : rep_db) : Prop :=
  match m now db with (inr a, db') => Q a db' | (inl _, _) => True end.

Lemma ensures_ret {A} (a : A) Q now db : Q a db -> ensures (tx_ret a) Q now db.
Proof. done. Qed.

Lemma ensures_throw {A} e Q now db : ensures (@tx_throw A e) Q now db.
Proof. done. Qed.

Lemma ensures_read {A} (f : rep_db -> A) Q now db : Q (f db) db -> ensures (tx_read f) Q now db.
Proof. done. Qed.

Lemma ensures_now Q now db : Q now db -> ensures tx_now Q now db.
Proof. done. Qed.

Lemma ensures_write f Q now db : Q tt (f db) -> ensures (tx_write f) Q now db.
Proof. done. Qed.

Lemma ensures_of {A} (r : js_error + A) Q now db : (forall a, r = inr a -> Q a db) -> ensures (tx_of r) Q now db.
Proof. destruct r; cbn; auto. Qed.

Lemma ensures_bind {A B} (m : tx A) (f : A -> tx B) Q now db :
  ensures m (fun a db1 => ensures (f a) Q now db1) now db -> ensures (tx_bind m f) Q now db.
Proof. unfold ensures, tx_bind. by destruct (m now db) as [[e|a] db1]. Qed.

Lemma ensures_mono {A} (m : tx A) (Q Q' : A -> rep_db -> Prop) now db :
  ensures m Q now db -> (forall a db', Q a db' -> Q' a db') -> ensures m Q' now db.
Proof. unfold ensures. destruct (m now db) as [[e|a] db1]; auto. Qed.

Lemma ensures_commit {A} (m : tx A) Q now db a db' : ensures m Q now db -> commit m now db = (inr a, db') -> Q a db'.
Proof. unfold ensures. intros Hm Hc. apply (proj1 (commit_ok m now db a db')) in Hc. by rewrite Hc in Hm. Qed.

Create HintDb tx.
#[export] Hint Resolve ensures_ret ensures_throw ensures_read ensures_now ensures_write ensures_of ensures_bind : tx.

(** ** Tables *)

(** All tables but the wake records. *)
Record same_rest (db db' : rep_db) : Prop := {
  sr_bindings : t_bindings db' = t_bindings db;
  sr_delivery : t_delivery db' = t_delivery db;
  sr_returned : t_returned db' = t_returned db;
  sr_requests : t_requests db' = t_requests db
}.

#[export] Instance same_rest_refl : Reflexive same_rest.
Proof. by split. Qed.

#[export] Instance same_rest_trans : Transitive same_rest.
Proof. intros a b c [] []. split; congruence. Qed.

Lemma same_rest_load db db' g : same_rest db db' -> loadDelivery g db' = loadDelivery g db.
Proof. intros [_ Hd Hr _]. unfold loadDelivery, returned_rows. by rewrite Hd, Hr. Qed.

Section Facts.
Context `{RepEnv} `{JsDate}.

(** The stored document, as [loadDocument] reads it. *)
Definition document (g : string) (db : rep_db) : js_error + wake_document :=
  match t_wake_state db !! g with Some raw => parseDocument raw | None => inr emptyDocument end.

Lemma loadDocument_eq g now db : loadDocument g now db = (document g db, db).
Proof. unfold loadDocument, document. by destruct (_ !! g). Qed.

Lemma ensures_load g Q now db : (forall doc, document g db = inr doc -> Q doc db) -> ensures (loadDocument g) Q now db.
Proof. unfold ensures. rewrite loadDocument_eq. destruct (document g db); auto. Qed.

Lemma ensures_delivery g Q now db :
  (forall st, loadDelivery g db = Some st -> Q st db) -> ensures (delivery_of g) Q now db.
Proof.
  intros HQ. unfold delivery_of. apply ensures_bind, ensures_read. destruct (loadDelivery g db); [|done]. by apply HQ.
Qed.

(** Saving writes the document and no other table. *)
Definition saved (g : string) (doc : wake_document) (db : rep_db) : rep_db :=
  set_wake_state <[g := json_compact (document_json doc)]> db.

Lemma ensures_save g doc Q now db : Q tt (saved g doc db) -> ensures (saveDocument g doc) Q now db.
Proof. done. Qed.

Lemma document_saved g doc db : document g (saved g doc db) = if valid_document doc then inr doc else inl invalid_wake_record.
Proof. unfold document, saved. cbn [set_wake_state t_wake_state]. by rewrite lookup_insert_eq, parse_saved. Qed.

Lemma document_saved_is g doc db doc' : document g (saved g doc db) = inr doc' -> doc' = doc.
Proof. rewrite document_saved. destruct (valid_document doc); congruence. Qed.

Lemma rows_saved g doc db : wake_rows g (saved g doc db) = wake_rows g db.
Proof. done. Qed.

Lemma saved_rest g doc db : same_rest db (saved g doc db).
Proof. done. Qed.

Definition with_rows (g : string) (f : gmap string wake_row -> gmap string wake_row) (db : rep_db) : rep_db :=
  set_wake_replies (fun t => <[g := f (default ∅ (t !! g))]> t) db.

Lemma ensures_write_rows g f Q now db : Q tt (with_rows g f db) -> ensures (write_rows g f) Q now db.
Proof. done. Qed.

Lemma rows_with g f db : wake_rows g (with_rows g f db) = f (wake_rows g db).
Proof. unfold wake_rows, with_rows. cbn. by rewrite lookup_insert_eq. Qed.

Lemma document_with g f db : document g (with_rows g f db) = document g db.
Proof. done. Qed.

Lemma with_rest g f db : same_rest db (with_rows g f db).
Proof. done. Qed.

(** ** Valid wake state *)

Record wake_valid (g : string) (db : rep_db) : Prop := {
  wv_document : exists doc, document g db = inr doc;
  wv_rows : forall id row, wake_rows g db !! id = Some row -> isWakeRow id row = true
}.

Definition rebuilt_document (fresh : string) (frontier : option point) : wake_document :=
  set_scan_epoch (Some fresh) (set_frontier frontier emptyDocument).

(** The state a recovery leaves. *)
Record rebuilt (g fresh : string) (db db' : rep_db) : Prop := {
  rb_rest : same_rest db db';
  rb_rows : wake_rows g db' = ∅;
  rb_document : forall doc, document g db' = inr doc -> exists frontier, doc = rebuilt_document fresh frontier /\
    forall p, frontier = Some p -> exists st floor, loadDelivery g db = Some st /\ scanStart st = inr (Some p, floor)
}.

Lemma invalid_rows_none (m : gmap string wake_row) :
  List.filter (fun kv => negb (isWakeRow (fst kv) (snd kv))) (map_to_list m) = [] <->
  forall id row, m !! id = Some row -> isWakeRow id row = true.
Proof.
  split.
  - intros Hf id row Hr. destruct (isWakeRow id row) eqn:E; [done|]. exfalso.
    assert (Hin : In (id, row) (List.filter (fun kv => negb (isWakeRow (fst kv) (snd kv))) (map_to_list m))).
    { apply filter_In. split; [|cbn; by rewrite E]. apply list_elem_of_In. by apply elem_of_map_to_list. }
    by rewrite Hf in Hin.
  - intros Hv. destruct (List.filter _ _) as [|[id row] l] eqn:E; [done|]. exfalso.
    assert (Hin : In (id, row) (List.filter (fun kv => negb (isWakeRow (fst kv) (snd kv))) (map_to_list m))) by (rewrite E; by left).
    apply filter_In in Hin as [Hin Hn]. apply list_elem_of_In, elem_of_map_to_list in Hin. cbn in Hn. by rewrite (Hv _ _ Hin) in Hn.
Qed.

(** Nothing is discarded from valid state, and what is discarded was invalid. *)
Lemma discard_valid fresh g now db : wake_valid g db -> discardInvalidWakeState fresh g now db = (inr None, db).
Proof.
  intros [[doc Hd] Hr]. unfold discardInvalidWakeState, tx_bind, tx_read. apply invalid_rows_none in Hr. rewrite Hr.
  unfold document in Hd. destruct (t_wake_state db !! g) as [raw|]; [|done]. by rewrite Hd.
Qed.

Lemma discard_ensures fresh g now db :
  ensures (discardInvalidWakeState fresh g) (fun o db' =>
    (o = None /\ db' = db /\ wake_valid g db) \/ (is_Some o /\ ~ wake_valid g db /\ rebuilt g fresh db db')) now db.
Proof.
  unfold discardInvalidWakeState. apply ensures_bind, ensures_read. cbv zeta. apply ensures_bind, ensures_read.
  set (bad := match t_wake_state db !! g with Some raw => match parseDocument raw with inl _ => true | inr _ => false end | None => false end).
  set (invalid := List.filter (fun kv => negb (isWakeRow (fst kv) (snd kv))) (map_to_list (wake_rows g db))).
  assert (Hbad : bad = false <-> exists doc, document g db = inr doc).
  { subst bad. unfold document. destruct (t_wake_state db !! g) as [raw|]; [|split; [intros _; by eexists|done]].
    destruct (parseDocument raw) as [e|d]; split; eauto; try done; by intros [? ?]. }
  assert (Hinv : invalid = [] <-> forall id row, wake_rows g db !! id = Some row -> isWakeRow id row = true) by apply invalid_rows_none.
  destruct (_ ++ _) as [|problem problems] eqn:E.
  - left. split; [done|]. split; [done|]. apply app_eq_nil in E as [E1 E2]. split.
    + apply Hbad. by destruct bad.
    + apply Hinv. destruct invalid; [done|]. by cbn in E2.
  - apply ensures_bind, ensures_write_rows, ensures_bind, ensures_read, ensures_bind.
    rewrite (same_rest_load _ _ _ (with_rest g (fun _ => ∅) db)).
    apply ensures_mono with (Q := fun frontier db1 => db1 = with_rows g (fun _ => ∅) db /\
      forall p, frontier = Some p -> exists st floor, loadDelivery g db = Some st /\ scanStart st = inr (Some p, floor)).
    + destruct (loadDelivery g db) as [st|] eqn:El; [|apply ensures_ret; by split].
      apply ensures_bind, ensures_of. intros [cur floor] Hs. apply ensures_ret. split; [done|]. cbn. intros p ->. eauto.
    + intros frontier db1 [-> Hf]. apply ensures_bind, ensures_save, ensures_ret. right. split; [eauto|]. split.
      * intros [Hd Hr]. apply Hbad in Hd. apply Hinv in Hr. by rewrite Hd, Hr in E.
      * split; [done|by rewrite rows_saved, rows_with|]. intros doc Hdoc%document_saved_is. eauto.
Qed.

(** ** Printed instants *)

Definition printed (s : string) : Prop := exists t, s = to_iso t /\ iso_min <= t <= iso_max.

Definition printed_document (d : wake_document) : Prop :=
  in_option printed (ob_deadline <$> wd_outstanding d) /\ in_option printed (rf_retry_at (wd_refusals d)) /\
  in_option printed (wd_debounce_at d).

(** The instants the engine wrote. *)
Record wake_printed (g : string) (db : rep_db) : Prop := {
  wp_document : forall doc, document g db = inr doc -> printed_document doc;
  wp_rows : forall id row, wake_rows g db !! id = Some row -> isWakeRow id row = true -> printed (wk_next_at row)
}.

(** A clock whose instants, and those a day ahead, print with four-digit years. *)
Definition clock_ok (now : Z) : Prop := iso_min <= now <= iso_max - MAX_FUTURE_MS.

Lemma rewake_bounds n : 600000 <= rewakeBackoffMs n <= 86400000.
Proof.
  unfold rewakeBackoffMs. change (Z.of_nat (length REWAKE_BACKOFF_MS)) with 4.
  assert (Hk : Z.min (Z.max n 1) 4 - 1 = 0 \/ Z.min (Z.max n 1) 4 - 1 = 1 \/ Z.min (Z.max n 1) 4 - 1 = 2 \/ Z.min (Z.max n 1) 4 - 1 = 3) by lia.
  destruct Hk as [-> |[-> |[-> | ->]]]; vm_compute; split; discriminate.
Qed.

Lemma refusal_bounds n : 30000 <= refusalBackoffMs n <= 1800000.
Proof.
  unfold refusalBackoffMs, REFUSAL_BACKOFF_BASE_MS, REFUSAL_BACKOFF_MAX_MS.
  assert (0 < 2 ^ Z.max (n - 1) 0) by (apply Z.pow_pos_nonneg; lia).
  set (p := 2 ^ Z.max (n - 1) 0) in *. clearbody p. lia.
Qed.

Lemma printed_ahead now d : clock_ok now -> 0 <= d <= MAX_FUTURE_MS -> printed (to_iso (now + d)).
Proof. intros Hc Hd. exists (now + d). split; [done|]. unfold clock_ok in Hc. lia. Qed.

Lemma printed_now now : clock_ok now -> printed (to_iso now).
Proof. intros Hc. exists now. split; [done|]. unfold clock_ok, MAX_FUTURE_MS in *. lia. Qed.

Lemma clamp_printed limit s : printed limit -> printed s -> printed (clamp_to limit s).
Proof. intros. unfold clamp_to. by destruct (string_ltb limit s). Qed.

End Facts.

(** * The transitions of the push engine

    What each transaction body keeps: the instants it writes are printed, the
    rows it leaves are valid, and all but a page merge are [quiet]. *)

Section Transitions.
Context `{RepEnv} `{JsDate}.

(** ** Quiet transitions *)

Record quiet (g : string) (db db' : rep_db) : Prop := {
  q_rest : same_rest db db';
  q_rows : forall id, wk_created_at <$> wake_rows g db' !! id = wk_created_at <$> wake_rows g db !! id;
  q_document : forall doc', document g db' = inr doc' ->
    exists doc, document g db = inr doc /\ wd_frontier doc' = wd_frontier doc /\ wd_scan_epoch doc' = wd_scan_epoch doc
}.

#[export] Instance quiet_refl g : Reflexive (quiet g).
Proof. intros db. split; [done|done|]. eauto. Qed.

#[export] Instance quiet_trans g : Transitive (quiet g).
Proof.
  intros a b c [R1 W1 D1] [R2 W2 D2]. split; [by etrans|intros id; by rewrite W2|].
  intros doc2 H2. destruct (D2 _ H2) as (doc1 & H1 & E1 & E2). destruct (D1 _ H1) as (doc & Hd & E3 & E4).
  exists doc. split; [done|]. split; congruence.
Qed.

Lemma quiet_save g doc doc' db :
  document g db = inr doc -> wd_frontier doc' = wd_frontier doc -> wd_scan_epoch doc' = wd_scan_epoch doc ->
  quiet g db (saved g doc' db).
Proof. intros Hd Hf He. split; [done|done|]. intros d ->%document_saved_is. eauto. Qed.

Lemma quiet_rows g f db :
  (forall m id, wk_created_at <$> (f m : gmap string wake_row) !! id = wk_created_at <$> m !! id) -> quiet g db (with_rows g f db).
Proof. intros Hf. split; [done|intros id; rewrite rows_with; apply Hf|]. intros doc Hd. rewrite document_with in Hd. eauto. Qed.

(** ** Good wake state *)

Definition row_good (id : string) (row : wake_row) : Prop := isWakeRow id row = true /\ printed (wk_next_at row).

Record state_good (g : string) (db : rep_db) : Prop := {
  sg_document : forall doc, document g db = inr doc -> printed_document doc;
  sg_rows : forall id row, wake_rows g db !! id = Some row -> row_good id row
}.

Lemma good_printed g db : state_good g db -> wake_printed g db.
Proof. intros [Hd Hr]. split; [done|]. intros id row Hrow _. exact (proj2 (Hr _ _ Hrow)). Qed.

Lemma printed_good g db : wake_printed g db -> wake_valid g db -> state_good g db.
Proof. intros [Hd Hr] [_ Hv]. split; [done|]. intros id row Hrow. split; [by apply Hv|eapply Hr; eauto]. Qed.

Lemma rebuilt_good g fresh db db' : rebuilt g fresh db db' -> state_good g db'.
Proof.
  intros [_ Hr Hd]. split; [|rewrite Hr; by intros id row ?%lookup_empty_Some].
  intros doc Hdoc. destruct (Hd _ Hdoc) as (f & -> & _). done.
Qed.

Lemma good_save g doc db : state_good g db -> printed_document doc -> state_good g (saved g doc db).
Proof. intros [Hd Hr] Hp. split; [|done]. by intros d ->%document_saved_is. Qed.

Lemma good_rows g f db : state_good g db ->
  (forall id row', (f (wake_rows g db) : gmap string wake_row) !! id = Some row' -> row_good id row') -> state_good g (with_rows g f db).
Proof. intros [Hd Hr] Hf. split; [done|]. intros id row. rewrite rows_with. apply Hf. Qed.

Lemma instant_printed s : printed s -> instant s = true.
Proof. intros (t & -> & Ht). apply bool_decide_eq_true. rewrite date_parse_to_iso by (by apply four_digit_interval). eauto. Qed.

(** What [parseDocument] asks of a document besides its instants. *)
Definition valid_core (d : wake_document) : bool :=
  valid_option valid_point (wd_frontier d) &&
  valid_option (fun o => uuid (ob_batch o) && forallb uuid (ob_replies o)) (wd_outstanding d) &&
  (0 <=? rf_count (wd_refusals d)) && valid_option (fun c => 0 <=? co_remaining c) (wd_cohort d) &&
  valid_option uuid (wd_scan_epoch d).

Lemma core_of_valid d : valid_document d = true -> valid_core d = true.
Proof.
  unfold valid_document, valid_core. intros Hv. repeat (apply andb_true_iff in Hv as [Hv ?]).
  repeat (apply andb_true_iff; split); try done. destruct (wd_outstanding d) as [o|]; [|done]. cbn in *. unfold valid_batch in *.
  match goal with Ho : _ && instant _ = true |- _ => by apply andb_true_iff in Ho as [Ho _] end.
Qed.

Lemma valid_of_core d : valid_core d = true -> printed_document d -> valid_document d = true.
Proof.
  unfold valid_document, valid_core. intros Hv (Po & Pr & Pd). repeat (apply andb_true_iff in Hv as [Hv ?]).
  assert (Hopt : forall x, in_option printed x -> valid_option instant x = true) by (intros [t|]; cbn; [apply instant_printed|done]).
  repeat (apply andb_true_iff; split); try done; [|by apply Hopt..].
  destruct (wd_outstanding d) as [o|]; [|done]. cbn in *. unfold valid_batch. apply andb_true_iff. split; [done|by apply instant_printed].
Qed.

Lemma loaded_core g db doc : document g db = inr doc -> valid_core doc = true.
Proof.
  unfold document. destruct (t_wake_state db !! g) as [raw|]; [|by intros [= <-]]. intros Hd. by eapply core_of_valid, parse_valid.
Qed.

(** A saved document is read back. *)
Lemma readable_save g doc db : valid_core doc = true -> printed_document doc -> exists d, document g (saved g doc db) = inr d.
Proof. intros Hv Hp. exists doc. by rewrite document_saved, (valid_of_core doc Hv Hp). Qed.

(** A row with other counts and another printed instant. *)
Lemma row_good_with id row attempts next : row_good id row -> 0 <= attempts -> printed next ->
  row_good id (WakeRow (wk_created_at row) attempts next).
Proof.
  intros [Hv _] Ha Hn. split; [|done]. unfold isWakeRow in *. cbn. repeat (apply andb_true_iff in Hv as [Hv ?]).
  rewrite (instant_printed _ Hn). by repeat (apply andb_true_iff; split); try apply Z.leb_le.
Qed.

Lemma row_good_attempts id row : row_good id row -> 0 <= wk_attempts row.
Proof. intros [Hv _]. unfold isWakeRow in Hv. apply andb_true_iff in Hv as [_ Hv]. by apply Z.leb_le. Qed.

(** ** The updates of the rows *)

Lemma update_rows_created f ids m id :
  (forall r, wk_created_at (f r) = wk_created_at r) ->
  wk_created_at <$> update_rows f ids m !! id = wk_created_at <$> m !! id.
Proof.
  intros Hf. induction ids as [|i ids IH]; [done|]. cbn [update_rows foldr] in *.
  destruct (decide (i = id)) as [->|Hne].
  - rewrite lookup_alter_eq, <-IH. unfold update_rows. destruct (foldr _ _ _ !! id) as [r|]; cbn; [by rewrite Hf|done].
  - rewrite lookup_alter_ne by done. apply IH.
Qed.

Lemma update_rows_closed f ids m (P : string -> wake_row -> Prop) :
  (forall id r, P id r -> P id (f r)) -> (forall id r, m !! id = Some r -> P id r) ->
  forall id r, update_rows f ids m !! id = Some r -> P id r.
Proof.
  intros Hf Hm. induction ids as [|i ids IH]; [done|]. intros id r Hr. cbn [update_rows foldr] in *.
  apply lookup_alter_Some in Hr as [(-> & r0 & Hr & ->)|[_ Hr]]; [|by apply IH]. apply Hf. by apply IH.
Qed.

Lemma update_rows_lookup f ids m id : NoDup ids ->
  update_rows f ids m !! id = (if bool_decide (id ∈ ids) then f <$> m !! id else m !! id).
Proof.
  induction 1 as [|i ids Hi Hn IH]; [done|]. cbn [update_rows foldr]. destruct (decide (i = id)) as [->|Hne].
  - rewrite lookup_alter_eq. unfold update_rows in IH. rewrite IH.
    rewrite bool_decide_eq_false_2 by done. rewrite bool_decide_eq_true_2 by (by left). done.
  - rewrite lookup_alter_ne by done. unfold update_rows in IH. rewrite IH.
    destruct (bool_decide_reflect (id ∈ ids)) as [Hin|Hin].
    + by rewrite bool_decide_eq_true_2 by (by right).
    + rewrite bool_decide_eq_false_2; [done|]. intros [->|?]%elem_of_cons; done.
Qed.

Lemma clamp_created limit m id :
  wk_created_at <$> (clamp_row limit <$> m : gmap string wake_row) !! id = wk_created_at <$> m !! id.
Proof. rewrite lookup_fmap. by destruct (m !! id). Qed.

Lemma clamp_good limit id row : printed limit -> row_good id row -> row_good id (clamp_row limit row).
Proof.
  intros Hl Hr. apply row_good_with; [done|by eapply row_good_attempts|]. apply clamp_printed; [done|apply Hr].
Qed.

Lemma clamp_document_printed limit doc : printed limit -> printed_document doc -> printed_document (clamp_document limit doc).
Proof.
  intros Hl (Ho & Hr & Hd). unfold printed_document, clamp_document. cbn. rewrite <-option_fmap_compose.
  rewrite !in_option_fmap in *. cbn. split; [|split]; (eapply in_option_mono; [|eassumption]); cbn; intros x Hx; by apply clamp_printed.
Qed.

Lemma expire_printed at_ doc : printed_document doc -> printed_document (expire at_ doc).
Proof. intros (Ho & Hr & Hd). unfold expire. by destruct (by_instant _ _). Qed.

Lemma emitted_printed now batch due doc : clock_ok now -> printed_document doc -> printed_document (emitted_document now batch due doc).
Proof.
  intros Hc (Ho & Hr & Hd). unfold emitted_document. cbv zeta.
  match goal with |- context [if ?b then _ else _] => destruct b end; (split; [|done]);
    cbn; apply printed_ahead; try done; unfold WAKE_ACK_DEADLINE_MS, MAX_FUTURE_MS; lia.
Qed.

(** ** The bodies *)

Record keeps (g : string) (db db' : rep_db) : Prop := {
  k_quiet : quiet g db db';
  k_good : state_good g db';
  k_readable : exists doc, document g db' = inr doc
}.

Lemma kept_same g doc db : state_good g db -> document g db = inr doc -> keeps g db db.
Proof. intros Hg Hd. split; [done|done|eauto]. Qed.

(** Saving a document that differs in neither the frontier nor the epoch. *)
Lemma keeps_save g doc doc' db db1 :
  quiet g db db1 -> state_good g db1 -> document g db1 = inr doc -> wd_frontier doc' = wd_frontier doc ->
  wd_scan_epoch doc' = wd_scan_epoch doc -> printed_document doc' -> valid_core doc' = true -> keeps g db (saved g doc' db1).
Proof.
  intros Hq Hg Hd Hf He Hp Hv. split; [|by apply good_save|by apply readable_save]. etrans; [exact Hq|]. by apply (quiet_save g doc).
Qed.

Lemma good_valid g db : state_good g db -> (exists doc, document g db = inr doc) -> wake_valid g db.
Proof. intros Hg Hd. split; [done|]. intros id row Hr. by apply (sg_rows _ _ Hg). Qed.

Lemma capture_start_keeps g now db : state_good g db -> ensures (capture_start g) (fun _ db' => keeps g db db') now db.
Proof.
  intros Hg. unfold capture_start. apply ensures_bind, ensures_load. intros doc Hd.
  destruct (cohort_open doc); [by eapply kept_same|].
  apply ensures_bind, ensures_delivery. intros st _. apply ensures_bind, ensures_of. intros [cur floor] _.
  apply ensures_ret. by eapply kept_same.
Qed.

Lemma capture_persist_keeps epoch count g now db : 0 <= count -> state_good g db ->
  ensures (capture_persist epoch count g) (fun _ db' => keeps g db db') now db.
Proof.
  intros Hn Hg. unfold capture_persist. apply ensures_bind, ensures_load. intros doc Hd.
  destruct (negb _); [by eapply ensures_ret, kept_same|]. destruct (cohort_open doc); [by eapply ensures_ret, kept_same|].
  apply ensures_bind, ensures_save, ensures_ret. apply (keeps_save g doc); try done; [exact (sg_document _ _ Hg _ Hd)|].
  assert (Hv := loaded_core _ _ _ Hd). unfold valid_core in *. cbn. repeat (apply andb_true_iff in Hv as [Hv ?]).
  repeat (apply andb_true_iff; split); try done. by apply Z.leb_le.
Qed.

Lemma summarize_keeps g now db : state_good g db -> ensures (summarize g) (fun _ db' => keeps g db db') now db.
Proof.
  intros Hg. unfold summarize. apply ensures_bind, ensures_load. intros doc Hd. apply ensures_bind, ensures_read, ensures_ret.
  by eapply kept_same.
Qed.

Lemma next_due_keeps g t now db : state_good g db -> ensures (next_due_tx g t) (fun _ db' => keeps g db db') now db.
Proof.
  intros Hg. unfold next_due_tx. apply ensures_bind, ensures_load. intros doc Hd. apply ensures_bind, ensures_read, ensures_ret.
  by eapply kept_same.
Qed.

Lemma clamp_core limit doc : valid_core (clamp_document limit doc) = valid_core doc.
Proof. unfold valid_core, clamp_document. cbn. by destruct (wd_outstanding doc). Qed.

Lemma expire_core at_ doc : valid_core doc = true -> valid_core (expire at_ doc) = true.
Proof.
  intros Hv. unfold expire. destruct (by_instant _ _); [|done]. unfold valid_core in *. cbn.
  repeat (apply andb_true_iff in Hv as [Hv ?]). by repeat (apply andb_true_iff; split).
Qed.

Lemma emitted_core now batch due doc :
  valid_core doc = true -> uuid batch = true -> forallb uuid (map fst due) = true -> valid_core (emitted_document now batch due doc) = true.
Proof.
  intros Hv Hb Hd. unfold emitted_document. cbv zeta. match goal with |- context [if ?b then _ else _] => destruct b end;
    unfold valid_core in *; cbn; repeat (apply andb_true_iff in Hv as [Hv ?]); by repeat (apply andb_true_iff; split).
Qed.

(** The replies of a batch have rows. *)
Lemma rows_uuid g db (l : list (string * wake_row)) : state_good g db -> (forall kv, kv ∈ l -> kv ∈ rows g db) -> forallb uuid (map fst l) = true.
Proof.
  intros Hg Hl. apply forallb_forall. intros id Hid. apply list_elem_of_In, list_elem_of_fmap in Hid as ([id' row] & -> & Hin).
  specialize (Hl _ Hin). unfold rows in Hl. rewrite merge_sort_Permutation in Hl. apply elem_of_map_to_list in Hl.
  destruct (sg_rows _ _ Hg _ _ Hl) as [Hv _]. unfold isWakeRow in Hv. by repeat (apply andb_true_iff in Hv as [Hv _]).
Qed.

Lemma tick_keeps batch g t now db : uuid batch = true -> clock_ok t -> state_good g db ->
  ensures (tick_tx batch g t) (fun _ db' => keeps g db db') now db.
Proof.
  intros Hb Hc Hg. unfold tick_tx, clamp. cbv zeta. apply ensures_bind, ensures_load. intros doc Hd.
  set (limit := to_iso (t + MAX_FUTURE_MS)).
  assert (Hl : printed limit) by (apply printed_ahead; [done|unfold MAX_FUTURE_MS; lia]).
  apply ensures_bind, ensures_bind, ensures_write_rows, ensures_ret.
  set (db1 := with_rows g (fmap (clamp_row limit)) db).
  assert (Q1 : quiet g db db1) by (apply quiet_rows; intros; apply clamp_created).
  assert (G1 : state_good g db1).
  { apply good_rows; [done|]. intros id row'. rewrite lookup_fmap. intros (row & Hr & ->)%fmap_Some.
    apply clamp_good; [done|]. by apply (sg_rows _ _ Hg). }
  set (doc1 := expire (to_iso t) (clamp_document limit doc)).
  assert (P1 : printed_document doc1).
  { apply expire_printed, clamp_document_printed; [done|]. by apply (sg_document _ _ Hg). }
  assert (V1 : valid_core doc1 = true) by (apply expire_core; rewrite clamp_core; by eapply loaded_core).
  assert (E1 : wd_frontier doc1 = wd_frontier doc /\ wd_scan_epoch doc1 = wd_scan_epoch doc).
  { subst doc1. unfold expire. by destruct (by_instant _ _). }
  clearbody doc1. apply ensures_bind, ensures_read.
  destruct (if blocked _ _ then _ else _) as [|kv due] eqn:Edue.
  - apply ensures_bind, ensures_save, ensures_ret. by apply (keeps_save g doc); try apply E1.
  - apply ensures_bind, ensures_write_rows, ensures_bind, ensures_save, ensures_ret.
    set (f := update_rows (attempted t) (map fst (kv :: due))).
    assert (Q2 : quiet g db1 (with_rows g f db1)) by (apply quiet_rows; intros m id; by apply update_rows_created).
    apply (keeps_save g doc); [by etrans| |done|..].
    + apply good_rows; [done|]. apply update_rows_closed; [|apply G1].
      intros id r Hr. apply row_good_with; [done|apply row_good_attempts in Hr; lia|].
      apply printed_ahead; [done|]. pose proof (rewake_bounds (wk_attempts r + 1)). unfold MAX_FUTURE_MS. lia.
    + unfold emitted_document; cbv zeta; match goal with |- context [if ?b then _ else _] => destruct b end; apply E1.
    + unfold emitted_document; cbv zeta; match goal with |- context [if ?b then _ else _] => destruct b end; apply E1.
    + by apply emitted_printed.
    + apply emitted_core; [done|done|]. apply (rows_uuid g db1); [done|]. intros x Hx. rewrite <-Edue in Hx.
      destruct (blocked _ _); [by apply elem_of_nil in Hx|]. rewrite list_elem_of_In, filter_In, <-list_elem_of_In in Hx. tauto.
Qed.

Lemma ack_keeps parsed g t now db : clock_ok t -> state_good g db ->
  ensures (ack_tx parsed g t) (fun _ db' => keeps g db db') now db.
Proof.
  intros Hc Hg. unfold ack_tx. apply ensures_bind, ensures_load. intros doc Hd.
  assert (Hp : printed_document doc) by (by apply (sg_document _ _ Hg)). assert (Hv := loaded_core _ _ _ Hd).
  assert (Hv' : valid_option valid_point (wd_frontier doc) && true && (0 <=? rf_count (wd_refusals doc)) &&
    valid_option (fun c => 0 <=? co_remaining c) (wd_cohort doc) && valid_option uuid (wd_scan_epoch doc) = true).
  { unfold valid_core in Hv. repeat (apply andb_true_iff in Hv as [Hv ?]). by repeat (apply andb_true_iff; split). }
  destruct (wd_outstanding doc) as [o|]; [|by eapply ensures_ret, kept_same].
  destruct (string_leb _ _).
  { apply ensures_bind, ensures_save, ensures_ret. apply (keeps_save g doc); try done. split; [done|apply Hp]. }
  destruct (negb _); [by eapply ensures_ret, kept_same|].
  assert (Hcnt : 0 <= rf_count (wd_refusals doc)) by (repeat (apply andb_true_iff in Hv' as [Hv' ?]); by apply Z.leb_le).
  assert (Hset : forall count retry, 0 <= count ->
    valid_core (set_refusals (Refusals count retry) (set_outstanding None doc)) = true).
  { intros count retry Hn. unfold valid_core. cbn. repeat (apply andb_true_iff in Hv' as [Hv' ?]).
    repeat (apply andb_true_iff; split); try done. by apply Z.leb_le. }
  destruct (al_accepted parsed).
  { apply ensures_bind, ensures_save, ensures_ret. apply (keeps_save g doc); try done; [split; [done|split; [done|apply Hp]]|by apply Hset]. }
  cbv zeta. set (count := rf_count (wd_refusals doc) + 1). set (retry := to_iso (t + refusalBackoffMs count)).
  assert (Hr : printed retry).
  { apply printed_ahead; [done|]. pose proof (refusal_bounds count). unfold MAX_FUTURE_MS. lia. }
  apply ensures_bind, ensures_write_rows, ensures_bind, ensures_save, ensures_ret.
  set (f := update_rows (rolled_back retry) (ob_replies o)).
  assert (Q2 : quiet g db (with_rows g f db)) by (apply quiet_rows; intros m id; by apply update_rows_created).
  apply (keeps_save g doc); try done.
  - apply good_rows; [done|].
    apply update_rows_closed; [|apply Hg]. intros id r Hgood. apply row_good_with; [done|lia|done].
  - split; [done|split; [exact Hr|apply Hp]].
  - apply Hset. subst count. lia.
Qed.

(** The cursor a scan starts from, and the epoch it reads under. *)
Lemma scan_begin_spec g now db :
  ensures (scan_begin g) (fun r db' => db' = db /\ exists st cur floor doc,
    loadDelivery g db = Some st /\ scanStart st = inr (cur, floor) /\ document g db = inr doc /\
    r = (later (wd_frontier doc) cur, wd_scan_epoch doc)) now db.
Proof.
  unfold scan_begin. apply ensures_bind, ensures_delivery. intros st Hst. apply ensures_bind, ensures_load. intros doc Hd.
  apply ensures_bind, ensures_of. intros [cur floor] Hs. apply ensures_ret. split; [done|]. by exists st, cur, floor, doc.
Qed.

(** ** Merging a page *)

Lemma insert_missing_spec b floor at_ entries m :
  let m' := fst (insert_missing b floor at_ entries m) in
  (forall id row, m !! id = Some row -> m' !! id = Some row) /\
  (forall id row, m' !! id = Some row -> m !! id = Some row \/
     exists e, e ∈ entries /\ e_id e = id /\ row = WakeRow (e_created_at e) 0 at_) /\
  (forall e, e ∈ entries -> isAddressedCoordinatorEntry b e = Some "direct" -> point_lt floor (entry_point e) ->
     is_Some (m' !! e_id e)).
Proof.
  revert m. induction entries as [|e entries IH]; intros m; cbn [insert_missing].
  { split; [done|]. split; [by left|]. by intros e ?%elem_of_nil. }
  assert (Hskip : forall m0, (let m' := fst (insert_missing b floor at_ entries m0) in
    (forall id row, m0 !! id = Some row -> m' !! id = Some row) /\
    (forall id row, m' !! id = Some row -> m0 !! id = Some row \/
       exists e0, e0 ∈ entries /\ e_id e0 = id /\ row = WakeRow (e_created_at e0) 0 at_) /\
    (forall e0, e0 ∈ entries -> isAddressedCoordinatorEntry b e0 = Some "direct" -> point_lt floor (entry_point e0) ->
       is_Some (m' !! e_id e0)))) by (intros; apply IH).
  destruct (negb (bool_decide (isAddressedCoordinatorEntry b e = Some "direct")) || (comparePoints (entry_point e) (Some floor) <=? 0)) eqn:E.
  - destruct (Hskip m) as (I1 & I2 & I3). split; [done|]. split.
    + intros id row [Hr|(e0 & He & Heq)]%I2; [by left|right; exists e0; split; [by right|done]].
    + intros e0 [->|He]%elem_of_cons Hdir Hlt; [exfalso|by apply I3]. apply orb_true_iff in E as [E|E].
      * apply negb_true_iff, bool_decide_eq_false in E. done.
      * apply Z.leb_le in E. apply point_lt_iff in Hlt. lia.
  - destruct (m !! e_id e) as [r0|] eqn:Er.
    + destruct (Hskip m) as (I1 & I2 & I3). split; [done|]. split.
      * intros id row [Hr|(e0 & He & Heq)]%I2; [by left|right; exists e0; split; [by right|done]].
      * intros e0 [->|He]%elem_of_cons Hdir Hlt; [|by apply I3]. rewrite (I1 _ _ Er). eauto.
    + set (row0 := WakeRow (e_created_at e) 0 at_). destruct (Hskip (<[e_id e := row0]> m)) as (I1 & I2 & I3).
      destruct (insert_missing b floor at_ entries (<[e_id e := row0]> m)) as [m' n]. cbn [fst] in *. split; [|split].
      * intros id row Hr. apply I1. rewrite lookup_insert_ne; [done|]. intros Heq. congruence.
      * intros id row Hr. destruct (I2 _ _ Hr) as [Hin|(e0 & He & Heq)]; [|right; exists e0; split; [by right|done]].
        apply lookup_insert_Some in Hin as [[<- <-]|[_ Hin]]; [|by left]. right. exists e. split; [by left|done].
      * intros e0 [->|He]%elem_of_cons Hdir Hlt; [|by apply I3].
        exists row0. apply I1, lookup_insert_eq.
Qed.

Lemma advance_printed now tail size more inserted pending doc :
  clock_ok now -> printed_document doc -> printed_document (advance_document now tail size more inserted pending doc).
Proof.
  intros Hc (Ho & Hr & Hd). unfold advance_document. cbv zeta.
  repeat case_match; try done; (split; [done|]; split; [done|]); cbn;
    try (apply printed_ahead; [done|unfold WAKE_DEBOUNCE_MS, MAX_FUTURE_MS; lia]); done.
Qed.

Lemma advance_frontier now tail size more inserted pending doc :
  wd_frontier (advance_document now tail size more inserted pending doc) = later (wd_frontier doc) tail /\
  wd_scan_epoch (advance_document now tail size more inserted pending doc) = wd_scan_epoch doc.
Proof. unfold advance_document. cbv zeta. by repeat case_match. Qed.

Lemma advance_core now tail size more inserted pending doc :
  valid_core doc = true -> valid_option valid_point tail = true -> valid_core (advance_document now tail size more inserted pending doc) = true.
Proof.
  intros Hv Ht. assert (Hf : valid_option valid_point (later (wd_frontier doc) tail) = true).
  { unfold valid_core in Hv. repeat (apply andb_true_iff in Hv as [Hv ?]). by destruct (later_spec (wd_frontier doc) tail) as (_ & _ & [-> | ->]). }
  unfold advance_document. cbv zeta.
  set (d1 := match wd_cohort (set_frontier (later (wd_frontier doc) tail) doc) with Some _ => _ | None => _ end).
  assert (H1 : valid_core d1 = true).
  { subst d1. cbn [set_frontier wd_cohort]. unfold valid_core in *. repeat (apply andb_true_iff in Hv as [Hv ?]).
    destruct (wd_cohort doc) as [c|] eqn:Ec; [destruct (co_open c)|]; cbn; rewrite ?Ec in *;
      repeat (apply andb_true_iff; split); try done. apply Z.leb_le. lia. }
  clearbody d1. unfold valid_core in *. repeat (apply andb_true_iff in H1 as [H1 ?]).
  destruct (cohort_open d1 && _); [|destruct ((0 <? inserted)%nat && _ && _)]; cbn; repeat (apply andb_true_iff; split); try done.
  by destruct (wd_cohort d1).
Qed.

Lemma advance_cohort now tail size more inserted pending doc c :
  wd_cohort doc = Some c -> co_open c = true ->
  exists c', wd_cohort (advance_document now tail size more inserted pending doc) = Some c' /\
    co_remaining c' = Z.max (co_remaining c - size) 0.
Proof.
  intros Hco Hop. unfold advance_document, cohort_open. cbv zeta.
  cbn [set_frontier wd_cohort]. rewrite Hco, Hop. cbn [set_cohort wd_cohort]. repeat case_match; cbn; eauto.
Qed.

(** A page whose entries are well formed. *)
Definition entry_valid (e : log_entry) : Prop := valid_point (entry_point e) = true.

(** What a merged page leaves. *)
Record merged (b : binding) (g : string) (epoch : option string) (entries : list log_entry) (tail : option point)
    (db db' : rep_db) : Prop := {
  mg_rest : same_rest db db';
  mg_delivery : exists st cur floor, loadDelivery g db = Some st /\ scanStart st = inr (cur, floor) /\
    (forall id row, wake_rows g db !! id = Some row -> wake_row_covered (Some floor) id row = false ->
       wake_rows g db' !! id = Some row) /\
    (forall e, e ∈ entries -> isAddressedCoordinatorEntry b e = Some "direct" -> point_lt floor (entry_point e) ->
       exists row, wake_rows g db' !! e_id e = Some row \/
         (wake_rows g db !! e_id e = Some row /\ wake_row_covered (Some floor) (e_id e) row = true));
  mg_from : forall id row, wake_rows g db' !! id = Some row -> wake_rows g db !! id = Some row \/
    exists e, e ∈ entries /\ e_id e = id /\ wk_created_at row = e_created_at e;
  mg_document : exists doc, document g db = inr doc /\ wd_scan_epoch doc = epoch /\
    forall doc', document g db' = inr doc' -> wd_frontier doc' = later (wd_frontier doc) tail /\ wd_scan_epoch doc' = epoch;
  mg_good : state_good g db';
  mg_readable : exists doc, document g db' = inr doc
}.

Lemma not_covered floor e at_ : point_lt floor (entry_point e) ->
  wake_row_covered (Some floor) (e_id e) (WakeRow (e_created_at e) 0 at_) = false.
Proof.
  intros Hlt. unfold wake_row_covered. cbn. apply point_lt_spec in Hlt. cbn in Hlt. destruct Hlt as [Hlt|[E Hlt]].
  - rewrite (string_ltb_asym _ _ Hlt). cbn. destruct (String.eqb_spec (e_created_at e) (p_created_at floor)) as [E|]; [|done].
    rewrite E in Hlt. by rewrite string_ltb_irrefl in Hlt.
  - rewrite E, string_ltb_irrefl, String.eqb_refl. cbn. rewrite (string_ltb_asym _ _ Hlt).
    destruct (String.eqb_spec (e_id e) (p_id floor)) as [E'|]; [|done]. rewrite E' in Hlt. by rewrite string_ltb_irrefl in Hlt.
Qed.

Lemma merge_spec b g t epoch entries tail more now db :
  clock_ok t -> state_good g db -> (forall e, e ∈ entries -> entry_valid e) -> valid_option valid_point tail = true ->
  (forall e e', e ∈ entries -> e' ∈ entries -> e_id e = e_id e' -> e = e') ->
  ensures (merge b g t epoch entries tail more) (fun r db' =>
    match r with None => db' = db | Some _ => merged b g epoch entries tail db db' end) now db.
Proof.
  intros Hc Hg He Htail Hids. unfold merge. apply ensures_bind, ensures_delivery. intros st Hst. apply ensures_bind, ensures_load. intros doc Hd.
  destruct (bool_decide_reflect (wd_scan_epoch doc = epoch)) as [Hep|Hep]; cbn [negb]; [|by apply ensures_ret].
  apply ensures_bind, ensures_of. intros [cur floor] Hs. cbn [snd]. apply ensures_bind, ensures_read.
  destruct (insert_missing_spec b floor (to_iso t) entries (wake_rows g db)) as (I1 & I2 & I3).
  destruct (insert_missing b floor (to_iso t) entries (wake_rows g db)) as [m inserted]. cbn [fst] in *.
  set (f := fun _ : gmap string wake_row => filter (fun kv => wake_row_covered (Some floor) (fst kv) (snd kv) = false) m).
  apply ensures_bind, ensures_write_rows, ensures_bind, ensures_read, ensures_bind, ensures_save, ensures_ret.
  set (db1 := with_rows g f db). assert (Hrows : wake_rows g db1 = f (wake_rows g db)) by apply rows_with.
  assert (Hgood : forall id row, wake_rows g db1 !! id = Some row -> row_good id row).
  { rewrite Hrows. intros id row (Hr & _)%map_lookup_filter_Some. destruct (I2 _ _ Hr) as [Hin|(e & Hin & <- & ->)]; [by apply (sg_rows _ _ Hg)|].
    split; [|by apply printed_now]. specialize (He e Hin). unfold entry_valid, valid_point, uuid in He.
    unfold isWakeRow. cbn [entry_point p_id p_created_at wk_created_at wk_next_at wk_attempts] in *. by rewrite He, (instant_printed _ (printed_now t Hc)). }
  split; [done| | | | |].
  - exists st, cur, floor. split; [done|]. split; [done|]. rewrite rows_saved, Hrows. split.
    + intros id row Hr Hcov. apply map_lookup_filter_Some. split; [by apply I1|done].
    + intros e Hin Hdir Hlt. destruct (I3 e Hin Hdir Hlt) as [row Hrow]. exists row.
      destruct (wake_row_covered (Some floor) (e_id e) row) eqn:Ecov.
      * right. split; [|done]. destruct (I2 _ _ Hrow) as [?|(e' & He' & Eid & ->)]; [done|]. exfalso.
        assert (e' = e) as -> by (by apply Hids). by rewrite not_covered in Ecov.
      * left. apply map_lookup_filter_Some. by split.
  - rewrite rows_saved, Hrows. intros id row (Hr & _)%map_lookup_filter_Some.
    destruct (I2 _ _ Hr) as [?|(e & Hin & Eid & ->)]; [by left|right; by exists e].
  - exists doc. split; [done|]. split; [done|]. intros doc' ->%document_saved_is.
    destruct (advance_frontier t tail (Z.of_nat (length entries)) more inserted (length (rows g db1)) doc) as [-> ->]. done.
  - apply good_save; [split; [intros d Hd'; by apply (sg_document _ _ Hg)|exact Hgood]|].
    apply advance_printed; [done|]. exact (sg_document _ _ Hg _ Hd).
  - apply readable_save; [|apply advance_printed; [done|exact (sg_document _ _ Hg _ Hd)]].
    apply advance_core; [by eapply loaded_core|done].
Qed.
End Transitions.
