(* ===== verification/PushOutside.v ===== *)
(** * The other commands of a binding, seen by the push engine

    The tools of the representative run their transactions on the same database.
    They never write the wake document; a delivered checkpoint only moves
    forward, and takes with it only the replies it covers. *)

From S2P Require Import Prelude JsDate JsonText Effects RepDb RepCore RepRead RepDeliveryFacts RepPush PushDocument PushFacts.

Open Scope Z_scope.
Open Scope tx_scope.

(** Not beyond where a scan of [st] starts. *)
Definition behind (st : delivery_state) (p : point) : Prop :=
  forall cur floor, scanStart st = inr (cur, floor) -> ~ point_lt floor p.

(** The start of a scan: at most the floor, which is the later of the start of
    the history and the checkpoint. *)
Lemma scanStart_floor st cur floor :
  scanStart st = inr (cur, floor) ->
  ds_startKind st <> "head-pending" /\ later (Some (ds_start st)) (ds_checkpoint st) = Some floor /\ opt_le cur (Some floor).
Proof.
  unfold scanStart. destruct (String.eqb_spec (ds_startKind st) "head-pending") as [|Hk]; [done|]. intros Hs. split; [done|].
  destruct (later_spec (Some (ds_start st)) (ds_checkpoint st)) as (L1 & L2 & _).
  destruct (later (Some (ds_start st)) (ds_checkpoint st)) as [f|] eqn:El.
  - destruct (ds_checkpoint st) as [c|] eqn:Ec; cbn [default from_option] in Hs; simplify_eq; (split; [done|]); [exact L2|].
    by destruct (String.eqb _ _).
  - by destruct (ds_checkpoint st).
Qed.

Lemma scanStart_resolved st : ds_startKind st <> "head-pending" -> exists cur floor, scanStart st = inr (cur, floor).
Proof.
  intros Hk. unfold scanStart. destruct (String.eqb_spec (ds_startKind st) "head-pending"); [done|].
  destruct (ds_checkpoint st); eauto.
Qed.

Section Outside.
Context `{RepEnv} `{JsDate}.
Variable g : string.

(** What the engine's tables may become. *)
Record delivers (db db' : rep_db) : Prop := {
  dl_document : t_wake_state db' = t_wake_state db;
  dl_rows : forall id, wake_rows g db' !! id = wake_rows g db !! id \/
    (wake_rows g db' !! id = None /\ exists row st', wake_rows g db !! id = Some row /\ loadDelivery g db' = Some st' /\
       behind st' (Point id (wk_created_at row)));
  dl_start : forall st cur floor, loadDelivery g db = Some st -> scanStart st = inr (cur, floor) ->
    exists st' cur' floor', loadDelivery g db' = Some st' /\ scanStart st' = inr (cur', floor') /\ point_le floor floor'
}.

Lemma delivers_untouched db db' :
  t_wake_state db' = t_wake_state db -> t_wake_replies db' = t_wake_replies db ->
  (forall st cur floor, loadDelivery g db = Some st -> scanStart st = inr (cur, floor) -> loadDelivery g db' = Some st) ->
  delivers db db'.
Proof.
  intros Hs Hr Hl. split; [done|intros id; left; unfold wake_rows; by rewrite Hr|].
  intros st cur floor Hst Hsc. exists st, cur, floor. split; [by eapply Hl|]. split; [done|apply point_le_refl].
Qed.

Lemma delivers_refl db : delivers db db.
Proof. by apply delivers_untouched. Qed.

Lemma delivers_other db db' :
  t_wake_state db' = t_wake_state db -> t_wake_replies db' = t_wake_replies db -> t_delivery db' = t_delivery db ->
  t_returned db' = t_returned db -> delivers db db'.
Proof.
  intros Hs Hr Hd Ht. apply delivers_untouched; [done..|]. intros st cur floor Hst _. unfold loadDelivery, returned_rows in *.
  by rewrite Hd, Ht.
Qed.

Lemma covered_behind st id row :
  wake_row_covered (ds_checkpoint st) id row = true -> behind st (Point id (wk_created_at row)).
Proof.
  intros Hcov cur floor (_ & Hf & _)%scanStart_floor Hlt. unfold wake_row_covered in Hcov.
  destruct (later_spec (Some (ds_start st)) (ds_checkpoint st)) as (_ & L2 & _). rewrite Hf in L2.
  assert (Hno : forall s, string_ltb s "" = false) by (by intros []).
  destruct (ds_checkpoint st) as [c|]; cbn in Hcov, L2.
  - assert (Hle : point_le (Point id (wk_created_at row)) c).
    { apply point_le_lteq. rewrite point_lt_spec. destruct c as [ci ca]. cbn in *.
      apply orb_true_iff in Hcov as [Hcov|Hcov]; [auto|]. apply andb_true_iff in Hcov as [E Hcov].
      apply String.eqb_eq in E. apply orb_true_iff in Hcov as [E'|Hcov]; [|auto]. apply String.eqb_eq in E'. right. congruence. }
    apply (point_lt_irrefl (Point id (wk_created_at row))). eapply point_le_lt_trans; [|exact Hlt]. by etrans.
  - apply point_lt_spec in Hlt. cbn in Hlt. rewrite Hno in Hcov. cbn in Hcov. apply andb_true_iff in Hcov as [E Hcov].
    apply String.eqb_eq in E. rewrite E in Hlt. rewrite Hno in Hlt, Hcov. rewrite orb_false_r in Hcov. apply String.eqb_eq in Hcov.
    rewrite Hcov, Hno in Hlt. naive_solver.
Qed.

(** Writing a delivery state whose checkpoint did not go back. *)
Lemma write_delivers g' before next now db :
  loadDelivery g' db = Some before -> ds_start next = ds_start before -> ds_startKind next = ds_startKind before ->
  opt_le (ds_checkpoint before) (ds_checkpoint next) ->
  ensures (write g' next) (fun _ db' => delivers db db') now db.
Proof.
  intros Hload Hstart Hkind Hck. unfold write.
  match goal with |- context [if ?b then tx_throw _ else _] => destruct b end; [done|].
  apply ensures_bind, ensures_write, ensures_bind. unfold insert_returned.
  destruct (bool_decide _); [|done]. apply ensures_write, ensures_write.
  match goal with |- delivers db ?d => set (db' := d) end. unfold loadDelivery in Hload.
  destruct (t_delivery db !! g') as [row|] eqn:Hrow; [|done]. simplify_eq/=. destruct (decide (g' = g)) as [->|Hne].
  - assert (Hl : exists rt, loadDelivery g db' = Some (DeliveryState (ds_start next) (ds_startKind next) (ds_checkpoint next) (ds_readThrough next) rt)).
    { eexists. unfold loadDelivery at 1. subst db'. cbn. rewrite lookup_alter_eq, Hrow. cbn. rewrite !point_of_fmap, <-Hstart, <-Hkind. reflexivity. }
    destruct Hl as [rt Hl]. split; [done| |].
    + intros id. unfold wake_rows, db'. cbn. rewrite lookup_alter_eq. destruct (t_wake_replies db !! g) as [m|]; cbn; [|by left].
      rewrite map_lookup_filter. destruct (m !! id) as [r|] eqn:Hr; cbn; [|by left].
      destruct (wake_row_covered (ds_checkpoint next) id r) eqn:Ecov; cbn; [|by left]. right. split; [done|].
      exists r. eexists. split; [done|]. split; [exact Hl|]. by apply covered_behind.
    + intros st cur floor Hst Hs. unfold loadDelivery in Hst. rewrite Hrow in Hst. simplify_eq/=.
      apply scanStart_floor in Hs as (Hk & Hf & _). cbn [ds_startKind ds_start ds_checkpoint] in Hk, Hf. eexists.
      match type of Hl with _ = Some ?st' => destruct (scanStart_resolved st') as (cur' & floor' & Hs'); [cbn; by rewrite Hkind|] end.
      exists cur', floor'. split; [exact Hl|]. split; [exact Hs'|]. apply scanStart_floor in Hs' as (_ & Hf' & _). cbn [ds_start ds_checkpoint] in Hf'.
      change (opt_le (Some floor) (Some floor')). rewrite <-Hf, <-Hf', Hstart. apply later_bounded; [apply later_spec|].
      etrans; [exact Hck|apply later_spec].
  - split; [done|intros id; left; unfold wake_rows, db'; cbn; by rewrite lookup_alter_ne|].
    intros st cur floor Hst Hs. exists st, cur, floor. split; [|split; [done|apply point_le_refl]].
    unfold loadDelivery, returned_rows, db' in *. cbn. by rewrite lookup_alter_ne, lookup_insert_ne.
Qed.

(** ** The commands *)

Lemma ensures_same {A} (m : tx A) (Q : A -> rep_db -> Prop) now db :
  (forall n d, snd (m n d) = d) -> (forall a, fst (m now db) = inr a -> Q a db) -> ensures m Q now db.
Proof.
  intros Hs HQ. unfold ensures. specialize (Hs now db). destruct (m now db) as [[e|a] db1]; [done|]. cbn in *. subst. by apply HQ.
Qed.

Lemma currentBindingRow_ensures wt Q now db :
  (forall r, fst (currentBindingRow wt now db) = inr r -> Q r db) -> ensures (currentBindingRow wt) Q now db.
Proof. intros HQ. apply ensures_same; [intros; apply currentBindingRow_same|done]. Qed.

Lemma generation_ensures b (Q : string -> rep_db -> Prop) now db :
  Q (bindingFingerprint b) db -> ensures (requireCurrentGeneration b) Q now db.
Proof.
  intros HQ. unfold requireCurrentGeneration. apply ensures_bind, currentBindingRow_ensures.
  intros [r|] _; [|done]. by destruct (String.eqb _ _).
Qed.

Lemma current_row_ensures b (Q : current_row -> rep_db -> Prop) now db :
  (forall r, Q r db) -> ensures (require_current_row b) Q now db.
Proof.
  intros HQ. unfold require_current_row. apply ensures_bind, currentBindingRow_ensures.
  intros [r|] _; [|done]. destruct (String.eqb _ _); [apply HQ|done].
Qed.

Lemma loadRequests_ensures g' (Q : list request -> rep_db -> Prop) now db :
  (forall l, Q l db) -> ensures (loadRequests g') Q now db.
Proof. intros HQ. unfold ensures, loadRequests. destruct (mapM _ _); [apply HQ|done]. Qed.

(** The tables of the engine and the delivery store are the same. *)
Definition aside (db db' : rep_db) : Prop :=
  t_wake_state db' = t_wake_state db /\ t_wake_replies db' = t_wake_replies db /\ t_delivery db' = t_delivery db /\
  t_returned db' = t_returned db.

Lemma aside_trans a b c : aside a b -> aside b c -> aside a c.
Proof. intros (H1 & H2 & H3 & H4) (H5 & H6 & H7 & H8). repeat split; congruence. Qed.

Lemma aside_delivers db db' : aside db db' -> delivers db db'.
Proof. intros (? & ? & ? & ?). by apply delivers_other. Qed.

Lemma storeRequests_aside g' l now db : ensures (storeRequests g' l) (fun _ db' => aside db db') now db.
Proof. unfold storeRequests. by destruct (bool_decide _). Qed.

Lemma insertBindingRow_aside b seat o now db : ensures (insertBindingRow b seat o) (fun _ db' => aside db db') now db.
Proof.
  unfold insertBindingRow. cbv zeta. apply ensures_bind, ensures_read. destruct (holder_of _ _) as [w|].
  { by destruct (String.eqb _ _). }
  apply ensures_bind, ensures_read. by destruct (bool_decide _).
Qed.

(** The transactions of the representative's tools and of [prepare]. *)
Inductive command_tx : forall A, tx A -> Prop :=
| command_snapshot b : command_tx _ (read_snapshot b)
| command_widen b window : command_tx _ (read_widen b window)
| command_deliver b p : command_tx _ (deliver_tx b p)
| command_ensure b : command_tx _ (ensure_row b)
| command_resolve b head : command_tx _ (resolve_head b head)
| command_request T b (op : Z -> list request -> (js_error + T) * list request) skip : command_tx _ (transactRequests b op skip)
| command_bind b rebind : command_tx _ (saveBinding b rebind).

Lemma widen_delivers g' window now db : ensures (widenReadWindow g' window) (fun _ db' => delivers db db') now db.
Proof.
  unfold widenReadWindow. apply ensures_bind, ensures_read. destruct (loadDelivery g' db) as [before|] eqn:El; [|apply ensures_ret, delivers_refl].
  destruct (last window) as [tail|]; [|apply ensures_ret, delivers_refl]. eapply write_delivers; [exact El|done|done|]. apply opt_le_refl.
Qed.

Lemma advance_delivers g' p now db : ensures (advanceCheckpoint g' p) (fun _ db' => delivers db db') now db.
Proof.
  unfold advanceCheckpoint. apply ensures_bind, ensures_read. destruct (loadDelivery g' db) as [before|] eqn:El; [|done]. cbv zeta.
  apply ensures_bind. eapply ensures_mono; [eapply write_delivers; [exact El|done..|]|].
  - cbn. apply later_spec.
  - intros [] db' Hd. by apply ensures_ret.
Qed.

Lemma resolve_delivers b head now db : ensures (resolve_head b head) (fun _ db' => delivers db db') now db.
Proof.
  unfold resolve_head. cbv zeta. apply ensures_bind, current_row_ensures. intros _. apply ensures_bind, ensures_read.
  destruct (bool_decide_reflect (startKindOf (bindingFingerprint b) db = Some "head-pending")) as [Hk|Hk]; cbn [negb]; [|apply ensures_ret, delivers_refl].
  apply ensures_bind, ensures_read. set (ks := match head with Head _ => _ | _ => _ end). destruct ks as [k start].
  apply ensures_write. apply delivers_untouched; [done..|]. intros st cur floor Hst Hs.
  destruct (decide (bindingFingerprint b = g)) as [E|E].
  - exfalso. rewrite E in Hk. unfold startKindOf in Hk. unfold loadDelivery in Hst. destruct (t_delivery db !! g) as [row|]; [|done].
    cbn in Hk. simplify_eq. unfold scanStart in Hs. cbn in Hs. by rewrite Hk in Hs.
  - unfold loadDelivery, returned_rows in *. cbn. by rewrite lookup_alter_ne.
Qed.

Lemma ensure_delivers b now db : ensures (ensure_row b) (fun _ db' => delivers db db') now db.
Proof.
  unfold ensure_row. apply ensures_bind, current_row_ensures. intros _. apply ensures_bind, ensures_read.
  destruct (startKindOf _ db) as [k|]; [apply ensures_ret, delivers_refl|]. apply ensures_bind. unfold insert_delivery. cbv zeta.
  apply ensures_bind, ensures_read. destruct (bool_decide_reflect (is_Some (t_delivery db !! bindingFingerprint b))) as [|Hn]; [done|].
  apply ensures_write, ensures_ret, delivers_untouched; [done..|]. intros st cur floor Hst Hs.
  unfold loadDelivery, returned_rows in *. cbn. rewrite lookup_insert_ne; [done|]. intros E. apply Hn. rewrite E.
  by destruct (t_delivery db !! g).
Qed.

Lemma bind_aside b rebind now db : ensures (saveBinding b rebind) (fun _ db' => aside db db') now db.
Proof.
  assert (Hins : forall {A} (a : A) (rest : tx unit) seat o d, aside db d ->
    (forall d', aside db d' -> ensures rest (fun _ d'' => aside db d'') now d') ->
    ensures (tx_bind (insertBindingRow b seat o) (fun _ => tx_bind rest (fun _ => tx_ret a))) (fun _ d' => aside db d') now d).
  { intros A a rest seat o d Hd Hrest. apply ensures_bind. eapply ensures_mono; [apply insertBindingRow_aside|]. intros [] d' Hd'.
    apply ensures_bind. assert (Hdd : aside db d') by (by eapply aside_trans).
    eapply ensures_mono; [by apply Hrest|]. intros [] d'' ?. by apply ensures_ret. }
  unfold saveBinding. destruct (negb _); [done|]. apply ensures_bind, currentBindingRow_ensures. intros [r|] _.
  - cbv zeta. destruct (sameSelection _ _ && negb rebind); [by apply ensures_ret|]. destruct (negb rebind); [done|].
    apply ensures_bind.
    assert (Hgo : forall carried, ensures
      (tx_bind (tx_write (set_bindings (delete (worktree b)))) (fun _ => tx_bind (insertBindingRow b (seatKey b) Prepared) (fun _ =>
        tx_bind (match carried with [] => tx_ret tt | _ => storeRequests (bindingFingerprint b) carried end) (fun _ => tx_ret Rebound))))
      (fun _ d' => aside db d') now db).
    { intros carried. apply ensures_bind, ensures_write, Hins; [done|]. intros d' Hd'. destruct carried; [by apply ensures_ret|].
      eapply ensures_mono; [apply storeRequests_aside|]. intros [] d'' Hd''. by eapply aside_trans. }
    destruct (sameSelection _ _); [apply loadRequests_ensures; intros; apply Hgo|apply ensures_ret, (Hgo [])].
  - apply ensures_bind, ensures_write. apply ensures_bind. eapply ensures_mono; [apply insertBindingRow_aside|].
    intros [] d' Hd'. apply ensures_ret. by eapply aside_trans.
Qed.

Lemma request_aside {T} b (op : Z -> list request -> (js_error + T) * list request) skip now db :
  ensures (transactRequests b op skip) (fun _ db' => aside db db') now db.
Proof.
  pose proof (generation_ensures b (fun _ d => d = db) now db eq_refl) as Hgen. unfold ensures in *. unfold transactRequests.
  destruct (requireCurrentGeneration b now db) as [[e|generation] db1] eqn:Eg.
  - assert (db1 = db) as ->.
    { change db1 with (snd (@inl js_error string e, db1)). rewrite <-Eg. unfold requireCurrentGeneration, tx_bind.
      pose proof (currentBindingRow_same (worktree b) now db) as Hs. destruct (currentBindingRow _ _ _) as [[e'|[r|]] d]; cbn in *; subst; [done| |done].
      by destruct (String.eqb _ _). }
    by destruct (skip && _).
  - subst db1. change (ensures (let* before := loadRequests generation in
       match op now before with
       | (inl e, _) => tx_throw e
       | (inr result, records) =>
           let next := pruneSettled records in
           do* (if bool_decide (next = before) then tx_ret tt else storeRequests generation next);
           tx_ret (Some result)
       end) (fun _ db' => aside db db') now db).
    apply ensures_bind, loadRequests_ensures. intros before. destruct (op now before) as [[e|result] records]; [done|]. cbv zeta.
    apply ensures_bind. destruct (bool_decide _); [by apply ensures_ret|].
    eapply ensures_mono; [apply storeRequests_aside|]. intros [] d Hd. by apply ensures_ret.
Qed.

Lemma command_delivers {A} (body : tx A) now db : command_tx A body -> ensures body (fun _ db' => delivers db db') now db.
Proof.
  intros [b|b window|b p|b|b head|T b op skip|b rebind].
  - unfold read_snapshot. apply ensures_bind, generation_ensures, ensures_bind, ensures_read. destruct (loadDelivery _ _); [|done].
    apply ensures_bind, ensures_read, ensures_ret, delivers_refl.
  - unfold read_widen. apply ensures_bind, generation_ensures, widen_delivers.
  - unfold deliver_tx. apply ensures_bind, generation_ensures, ensures_bind, ensures_read. destruct (loadDelivery _ _) as [st|]; [|done].
    cbv zeta. match goal with |- context [if ?c then tx_ret _ else _] => destruct c end; [apply ensures_ret, delivers_refl|].
    match goal with |- context [if ?c then tx_throw _ else _] => destruct c end; [done|].
    apply ensures_bind. eapply ensures_mono; [apply advance_delivers|]. intros [before after_] d Hd. by apply ensures_ret.
  - apply ensure_delivers.
  - apply resolve_delivers.
  - eapply ensures_mono; [apply request_aside|]. intros. by apply aside_delivers.
  - eapply ensures_mono; [apply bind_aside|]. intros. by apply aside_delivers.
Qed.

Lemma commit_delivers {A} (body : tx A) now db : command_tx A body -> delivers db (snd (commit body now db)).
Proof.
  intros Hc. pose proof (command_delivers body now db Hc) as He. unfold commit, ensures in *.
  destruct (body now db) as [[e|a] d]; [apply delivers_refl|done].
Qed.
End Outside.
