(* ===== verification/PushWorld.v ===== *)
(** * The push engine among the binding's other commands

    The world its programs share with the representative's tools: the state
    database, the server's log, the clock.  The invariant says which replies are
    recorded: every direct reply up to the discovery frontier, and up to the
    cursor of every scan that still reads under the current epoch, lies at or
    behind the delivered floor or has its row. *)

From S2P Require Import Prelude JsDate JsonText Effects RepDb RepCore RepRead RepDeliveryFacts RepPush PushDocument PushFacts PushOutside.

Open Scope Z_scope.

(** [pw_used] holds the identifiers drawn so far, and those the document has
    held as its scan epoch; [pw_emitted] the events written to the host;
    [pw_damaged] says that the wake state was damaged at some time. *)
Record push_world := PushWorld {
  pw_db : rep_db;
  pw_clock : Z;
  pw_log : list log_entry;
  pw_used : gset string;
  pw_stopped : bool;
  pw_busy : bool;
  pw_scanning : bool;
  pw_rescan : bool;
  pw_emitted : list wake_emission;
  pw_damaged : bool
}.

Definition with_tables (db : rep_db) (used : gset string) (w : push_world) :=
  PushWorld db (pw_clock w) (pw_log w) (used ∪ pw_used w) (pw_stopped w) (pw_busy w) (pw_scanning w) (pw_rescan w) (pw_emitted w) (pw_damaged w).
Definition with_clock (t : Z) (w : push_world) :=
  PushWorld (pw_db w) t (pw_log w) (pw_used w) (pw_stopped w) (pw_busy w) (pw_scanning w) (pw_rescan w) (pw_emitted w) (pw_damaged w).
Definition with_log (l : list log_entry) (w : push_world) :=
  PushWorld (pw_db w) (pw_clock w) l (pw_used w) (pw_stopped w) (pw_busy w) (pw_scanning w) (pw_rescan w) (pw_emitted w) (pw_damaged w).
Definition with_stopped (w : push_world) :=
  PushWorld (pw_db w) (pw_clock w) (pw_log w) (pw_used w) true (pw_busy w) (pw_scanning w) (pw_rescan w) (pw_emitted w) (pw_damaged w).
Definition with_busy (v : bool) (w : push_world) :=
  PushWorld (pw_db w) (pw_clock w) (pw_log w) (pw_used w) (pw_stopped w) v (pw_scanning w) (pw_rescan w) (pw_emitted w) (pw_damaged w).
Definition with_scanning (v : bool) (w : push_world) :=
  PushWorld (pw_db w) (pw_clock w) (pw_log w) (pw_used w) (pw_stopped w) (pw_busy w) v (pw_rescan w) (pw_emitted w) (pw_damaged w).
Definition with_rescan (v : bool) (w : push_world) :=
  PushWorld (pw_db w) (pw_clock w) (pw_log w) (pw_used w) (pw_stopped w) (pw_busy w) (pw_scanning w) v (pw_emitted w) (pw_damaged w).
Definition with_emitted (wake : wake_emission) (w : push_world) :=
  PushWorld (pw_db w) (pw_clock w) (pw_log w) (pw_used w) (pw_stopped w) (pw_busy w) (pw_scanning w) (pw_rescan w) (pw_emitted w ++ [wake]) (pw_damaged w).
Definition with_damage (db : rep_db) (w : push_world) :=
  PushWorld db (pw_clock w) (pw_log w) (pw_used w) (pw_stopped w) (pw_busy w) (pw_scanning w) (pw_rescan w) (pw_emitted w) true.

Section World.
Context `{RepEnv} `{JsDate}.
Variable b : binding.

Local Abbreviation g := (bindingFingerprint b).

(** What an operation may answer.  The server's pages are those of its log;
    [behind_by] counts what is left, when it is sent. *)
Definition push_act (X : Type) (op : push_op X) : push_world -> X -> push_world -> Prop :=
  match op in push_op X return push_world -> X -> push_world -> Prop with
  | PushTx body => fun w r w' =>
      ((exists e, r = inl e) /\ w' = w) \/
      exists fresh batch, fresh ∉ pw_used w /\ batch ∉ pw_used w /\ fresh <> batch /\ uuid fresh = true /\ uuid batch = true /\
        r = fst (commit (body fresh batch) (pw_clock w) (pw_db w)) /\
        w' = with_tables (snd (commit (body fresh batch) (pw_clock w) (pw_db w))) {[fresh; batch]} w
  | PushRead cursor limit => fun w r w' => w' = w /\
      ((exists e, r = inl e) \/
       exists left, r = inr (Discovery (page_of (pw_log w) cursor limit) left) /\
         (left = None \/ left = Some (Z.of_nat (length (drop (Z.to_nat limit) (beyond cursor (pw_log w)))))))
  | Stopped => fun w r w' => w' = w /\ r = pw_stopped w
  | EnterChain => fun w r w' =>
      if pw_stopped w then r = inl engine_stopped /\ w' = w
      else pw_busy w = false /\ r = inr tt /\ w' = with_busy true w
  | LeaveChain => fun w r w' => w' = with_busy false w
  | BeginScan => fun w r w' =>
      r = negb (pw_scanning w) /\ w' = if pw_scanning w then with_rescan true w else with_scanning true w
  | SetRescan v => fun w r w' => w' = with_rescan v w
  | Rescan => fun w r w' => w' = w /\ r = pw_rescan w
  | EndScan => fun w r w' => w' = with_scanning false w
  | EmitWake wake => fun w r w' => (w' = w /\ exists e, r = inl e) \/ (r = inr tt /\ w' = with_emitted wake w)
  | LogLine line => fun w r w' => w' = w
  end.

(** Damage that leaves the wake state invalid: the document no longer parses, or
    rows lose their counts or their due instant. *)
Definition damaged (db db' : rep_db) : Prop :=
  same_rest db db' /\
  (forall id, wk_created_at <$> wake_rows g db' !! id = wk_created_at <$> wake_rows g db !! id) /\
  (document g db' = document g db \/ exists e, document g db' = inl e) /\
  (forall id row, wake_rows g db' !! id = Some row -> wake_rows g db !! id = Some row \/ isWakeRow id row = false).

(** What happens outside the engine: the server stores an entry, the clock reads
    another time, the engine is stopped, another command commits, the wake state
    is damaged. *)
Inductive push_env : push_world -> push_world -> Prop :=
| env_entry w e : ordered (pw_log w ++ [e]) -> entry_valid e -> e_id e ∉ map e_id (pw_log w) ->
    push_env w (with_log (pw_log w ++ [e]) w)
| env_clock w t : clock_ok t -> push_env w (with_clock t w)
| env_stop w : push_env w (with_stopped w)
| env_command w A (body : tx A) : command_tx A body ->
    push_env w (with_tables (snd (commit body (pw_clock w) (pw_db w))) ∅ w)
| env_damage w db : damaged (pw_db w) db -> push_env w (with_damage db w).

(** The calls of the listener. *)
Inductive push_call : push_world -> push unit -> Prop :=
| call_capture w : push_call w (pbind (captureCohort b) (fun _ => Ret tt))
| call_summary w : push_call w (pbind (summary b) (fun _ => Ret tt))
| call_discover w scans pages : push_call w (discover b scans pages)
| call_tick w : push_call w (pbind (tick b) (fun _ => Ret tt))
| call_next w : push_call w (pbind (nextDueAt b) (fun _ => Ret tt))
| call_ack w line : push_call w (pbind (ack b line) (fun _ => Ret tt)).

(** ** The invariant *)

Definition direct (e : log_entry) : Prop := isAddressedCoordinatorEntry b e = Some "direct".

Definition resolved (db : rep_db) : Prop :=
  exists st cur floor, loadDelivery g db = Some st /\ scanStart st = inr (cur, floor).

(** The replies up to [c] that are beyond the floor have a row, or are still in
    [page]; no later entry comes before [c]. *)
Record covers (w : push_world) (c : option point) (page : list log_entry) : Prop := {
  cv_anchor : forall st cur floor, loadDelivery g (pw_db w) = Some st -> scanStart st = inr (cur, floor) ->
    forall p, c = Some p -> point_le p floor \/ exists e, e ∈ pw_log w /\ point_le p (entry_point e);
  cv_recorded : forall st cur floor, loadDelivery g (pw_db w) = Some st -> scanStart st = inr (cur, floor) ->
    forall e, e ∈ pw_log w -> direct e -> point_lt floor (entry_point e) -> opt_le (Some (entry_point e)) c ->
    is_Some (wake_rows g (pw_db w) !! e_id e) \/ e ∈ page
}.

Record base (w : push_world) : Prop := {
  bs_ordered : ordered (pw_log w);
  bs_ids : forall e e', e ∈ pw_log w -> e' ∈ pw_log w -> e_id e = e_id e' -> e = e';
  bs_valid : forall e, e ∈ pw_log w -> entry_valid e;
  bs_clock : clock_ok (pw_clock w);
  bs_rows : forall id row, wake_rows g (pw_db w) !! id = Some row ->
    exists e, e ∈ pw_log w /\ e_id e = id /\ wk_created_at row = e_created_at e;
  bs_printed : wake_printed g (pw_db w);
  bs_epoch : forall doc u, document g (pw_db w) = inr doc -> wd_scan_epoch doc = Some u -> u ∈ pw_used w;
  bs_resolved : forall doc p, document g (pw_db w) = inr doc -> wd_frontier doc = Some p -> resolved (pw_db w);
  bs_frontier : forall doc, document g (pw_db w) = inr doc -> covers w (wd_frontier doc) [];
  bs_undamaged : pw_damaged w = false -> wake_valid g (pw_db w)
}.

(** Where a program is in a scan: it has read up to [c] under [epoch], and holds
    a page it has not merged. *)
Inductive scan_state :=
| Quiet
| Scanning (epoch : option string) (c : option point) (page : list log_entry).

Definition scan_ok (s : scan_state) (w : push_world) : Prop :=
  match s with
  | Quiet => True
  | Scanning epoch c page =>
      (forall u, epoch = Some u -> u ∈ pw_used w) /\ resolved (pw_db w) /\ (forall e, e ∈ page -> e ∈ pw_log w) /\
      forall doc, document g (pw_db w) = inr doc -> wd_scan_epoch doc = epoch -> covers w c page
  end.

(** ** What carries it from one world to the next *)

(** The replies keep their rows, and what is no longer covered was delivered. *)
Definition carries (w w' : push_world) : Prop :=
  resolved (pw_db w) -> forall c page, covers w c page -> covers w' c page.

Record evolves (w w' : push_world) : Prop := {
  ev_used : pw_used w ⊆ pw_used w';
  ev_log : forall e, e ∈ pw_log w -> e ∈ pw_log w';
  ev_resolved : resolved (pw_db w) -> resolved (pw_db w');
  ev_document : forall doc', document g (pw_db w') = inr doc' ->
    (exists doc, document g (pw_db w) = inr doc /\ wd_scan_epoch doc' = wd_scan_epoch doc /\ carries w w') \/
    (exists u, wd_scan_epoch doc' = Some u /\ u ∉ pw_used w)
}.

Lemma evolves_scans w w' s : evolves w w' -> scan_ok s w -> scan_ok s w'.
Proof.
  intros [Hu Hl Hr Hd]. destruct s as [|epoch c page]; [done|]. intros (He & Hres & Hp & Hc).
  split; [set_solver|]. split; [auto|]. split; [auto|]. intros doc' Hdoc' Hep.
  destruct (Hd _ Hdoc') as [(doc & Hdoc & E & Hcar)|(u & E & Hfresh)].
  - apply Hcar; [done|]. apply (Hc doc); congruence.
  - exfalso. apply Hfresh, He. congruence.
Qed.

(** Worlds with the same database and log. *)
Lemma same_evolves w w' :
  pw_db w' = pw_db w -> pw_log w' = pw_log w -> pw_used w' = pw_used w -> evolves w w'.
Proof.
  intros Hd Hl Hu. split; [by rewrite Hu|by rewrite Hl|by rewrite Hd|]. rewrite Hd. intros doc' Hdoc. left. exists doc'.
  split; [done|]. split; [done|]. intros _ c page [C1 C2]. split; rewrite ?Hd, ?Hl; done.
Qed.

Lemma same_base w w' :
  pw_db w' = pw_db w -> pw_log w' = pw_log w -> pw_used w' = pw_used w -> pw_damaged w' = pw_damaged w ->
  clock_ok (pw_clock w') -> base w -> base w'.
Proof.
  intros Hd Hl Hu Hm Hc [B1 B2 B3 B4 B5 B6 B7 B8 B9 B10]. split; rewrite ?Hd, ?Hl, ?Hu, ?Hm; try done.
  intros doc Hdoc. destruct (B9 doc Hdoc) as [C1 C2]. split; rewrite ?Hd, ?Hl; done.
Qed.

(** ** The steps of one program *)

(** A step keeps the invariant: of the world, of the program and of every other. *)
Definition scan_step (s : scan_state) (w : push_world) (s' : scan_state) (w' : push_world) : Prop :=
  base w -> scan_ok s w -> base w' /\ scan_ok s' w' /\ forall t, scan_ok t w -> scan_ok t w'.

Lemma step_evolves s w w' : (base w -> base w' /\ evolves w w') -> scan_step s w s w'.
Proof. intros Hb Hw Hs. destruct (Hb Hw) as [Hw' He]. split; [done|]. split; intros; by eapply evolves_scans. Qed.

Lemma step_same s w w' :
  pw_db w' = pw_db w -> pw_log w' = pw_log w -> pw_used w' = pw_used w -> pw_clock w' = pw_clock w ->
  pw_damaged w' = pw_damaged w -> scan_step s w s w'.
Proof.
  intros Hd Hl Hu Hc Hm. apply step_evolves. intros Hb. split; [|by apply same_evolves].
  apply (same_base w); try done. rewrite Hc. apply Hb.
Qed.

Lemma evolves_trans w w1 w2 : evolves w w1 -> evolves w1 w2 -> evolves w w2.
Proof.
  intros [U1 L1 R1 D1] [U2 L2 R2 D2]. split; [set_solver|auto|auto|]. intros doc2 H2.
  destruct (D2 _ H2) as [(doc1 & H1 & E1 & C1)|(u & E & Hf)]; [|right; exists u; split; [done|set_solver]].
  destruct (D1 _ H1) as [(doc & Hd & E & C)|(u & E & Hf)].
  - left. exists doc. split; [done|]. split; [congruence|]. intros Hres c page Hc. apply C1; [by apply R1|]. by apply C.
  - right. exists u. split; [congruence|done].
Qed.

(** ** Recovery *)

Lemma rebuilt_step w fresh batch db1 :
  base w -> fresh ∉ pw_used w -> ~ wake_valid g (pw_db w) -> rebuilt g fresh (pw_db w) db1 ->
  let w' := with_tables db1 {[fresh; batch]} w in base w' /\ evolves w w'.
Proof.
  intros Hb Hfresh Hbad Hr. cbv zeta. assert (Hl := same_rest_load _ _ g (rb_rest _ _ _ _ Hr)).
  assert (Hres : resolved (pw_db w) -> resolved db1) by (unfold resolved; rewrite Hl; exact id).
  split; [|split; [set_solver|done|done|]].
  - split; cbn [with_tables pw_db pw_clock pw_log pw_used pw_damaged]; try apply Hb.
    + rewrite (rb_rows _ _ _ _ Hr). by intros id row ?%lookup_empty_Some.
    + by eapply good_printed, rebuilt_good.
    + intros doc u Hd He. destruct (rb_document _ _ _ _ Hr _ Hd) as (f & -> & _). cbn in He. set_solver.
    + intros doc p Hd Hf. destruct (rb_document _ _ _ _ Hr _ Hd) as (f & -> & Hp). cbn in Hf. apply Hres.
      destruct (Hp p Hf) as (st & floor & Hst & Hs). by exists st, (Some p), floor.
    + intros doc Hd. destruct (rb_document _ _ _ _ Hr _ Hd) as (f & -> & Hp). cbn.
      assert (Hle : forall st cur floor, loadDelivery g db1 = Some st -> scanStart st = inr (cur, floor) -> opt_le f (Some floor)).
      { intros st cur floor Hst Hs. destruct f as [p|]; [|done]. destruct (Hp p eq_refl) as (st' & floor' & Hst' & Hs').
        rewrite Hl, Hst' in Hst. injection Hst as <-. rewrite Hs' in Hs. injection Hs as <- <-.
        by apply scanStart_floor in Hs' as (_ & _ & Hle). }
      split; cbn [with_tables pw_db].
      * intros st cur floor Hst Hs p ->. left. exact (Hle st cur floor Hst Hs).
      * intros st cur floor Hst Hs e _ _ Hlt Hec. exfalso. apply (point_lt_irrefl floor).
        eapply point_lt_le_trans; [exact Hlt|]. specialize (Hle st cur floor Hst Hs). destruct f as [p|]; [|done]. cbn in *. by etrans.
    + intros Hm. destruct Hbad. by apply Hb.
  - intros doc Hd. destruct (rb_document _ _ _ _ Hr _ Hd) as (f & -> & _). right. exists fresh. by split.
Qed.

(** ** Quiet transitions *)

Lemma quiet_step w w' :
  pw_log w' = pw_log w -> pw_used w ⊆ pw_used w' -> pw_clock w' = pw_clock w ->
  (pw_damaged w' = false -> wake_valid g (pw_db w')) ->
  quiet g (pw_db w) (pw_db w') -> wake_printed g (pw_db w') -> base w -> base w' /\ evolves w w'.
Proof.
  intros Hlog Hu Hc Hm [Hr Hrows Hdoc] Hp Hb. assert (Hl := same_rest_load _ _ g Hr).
  assert (Hcar : forall c page, covers w c page -> covers w' c page).
  { intros c page [C1 C2]. split; rewrite Hlog, Hl; [done|]. intros st cur floor Hst Hs e He Hdir Hlt Hle.
    destruct (C2 st cur floor Hst Hs e He Hdir Hlt Hle) as [[row Hrow]|?]; [|by right]. left.
    specialize (Hrows (e_id e)). rewrite Hrow in Hrows. by destruct (wake_rows g (pw_db w') !! e_id e). }
  assert (Hres : resolved (pw_db w') <-> resolved (pw_db w)) by (unfold resolved; rewrite Hl; reflexivity).
  split.
  - split; rewrite ?Hlog, ?Hc; try apply Hb; [|done|..].
    + intros id row Hrow. specialize (Hrows id). rewrite Hrow in Hrows. symmetry in Hrows. cbn in Hrows.
      apply fmap_Some in Hrows as (row0 & Hrow0 & E). destruct (bs_rows _ Hb id row0 Hrow0) as (e & He & Eid & Ec).
      exists e. split; [done|]. split; congruence.
    + intros doc' u Hd He. destruct (Hdoc _ Hd) as (doc & Hd0 & _ & E). apply Hu, (bs_epoch _ Hb doc); congruence.
    + intros doc' p Hd Hf. destruct (Hdoc _ Hd) as (doc & Hd0 & E & _). apply Hres, (bs_resolved _ Hb doc p); congruence.
    + intros doc' Hd. destruct (Hdoc _ Hd) as (doc & Hd0 & E & _). rewrite E. by apply Hcar, Hb.
    + done.
  - split; [done|by rewrite Hlog|by apply Hres|]. intros doc' Hd. destruct (Hdoc _ Hd) as (doc & Hd0 & _ & E). left. exists doc.
    split; [done|]. split; [done|]. by intros _.
Qed.

(** ** A merged page *)

Lemma uncovered_row w id row e floor :
  base w -> wake_rows g (pw_db w) !! id = Some row -> e ∈ pw_log w -> e_id e = id -> point_lt floor (entry_point e) ->
  wake_row_covered (Some floor) id row = false.
Proof.
  intros Hb Hrow He <- Hlt. destruct (bs_rows _ Hb _ _ Hrow) as (e' & He' & Eid & Ec).
  assert (e' = e) as -> by (by apply (bs_ids _ Hb)). rewrite <-(not_covered floor e "" Hlt). unfold wake_row_covered. by rewrite Ec.
Qed.

Lemma merged_step w w' epoch page tail :
  pw_log w' = pw_log w -> pw_used w ⊆ pw_used w' -> pw_clock w' = pw_clock w ->
  wake_valid g (pw_db w') -> merged b g epoch page tail (pw_db w) (pw_db w') -> base w -> scan_ok (Scanning epoch tail page) w ->
  base w' /\ scan_ok (Scanning epoch tail []) w' /\ evolves w w'.
Proof.
  intros Hlog Hu Hc Hm [Hr (st & cur & floor & Hst & Hs & Hkeep & Hnew) Hfrom (doc & Hdoc & Hep & Hdoc') Hg] Hb (Se & Sr & Sp & Sc).
  assert (Hl := same_rest_load _ _ g Hr).
  assert (Hcar : forall c pg, covers w c pg -> covers w' c pg).
  { intros c pg [C1 C2]. split; rewrite Hlog, Hl; [done|]. intros st0 cur0 floor0 Hst0 Hs0 e He Hdir Hlt Hle.
    assert (st0 = st) as -> by congruence. rewrite Hs in Hs0. injection Hs0 as <- <-.
    destruct (C2 st cur floor Hst Hs e He Hdir Hlt Hle) as [[row Hrow]|?]; [|by right]. left. exists row.
    apply Hkeep; [done|]. by eapply uncovered_row. }
  assert (Htail : covers w' tail []).
  { destruct (Sc doc Hdoc Hep) as [C1 C2]. split; rewrite Hlog, Hl; [done|]. intros st0 cur0 floor0 Hst0 Hs0 e He Hdir Hlt Hle.
    assert (st0 = st) as -> by congruence. rewrite Hs in Hs0. injection Hs0 as <- <-.
    left. destruct (C2 st cur floor Hst Hs e He Hdir Hlt Hle) as [[row Hrow]|Hin].
    - exists row. apply Hkeep; [done|]. by eapply uncovered_row.
    - destruct (Hnew e Hin Hdir Hlt) as (row & [Hrow|[Hrow Hcov]]); [eauto|]. exfalso.
      by rewrite (uncovered_row w _ row e floor) in Hcov. }
  assert (Hres : resolved (pw_db w')) by (exists st, cur, floor; by rewrite Hl).
  split; [|split].
  - split; rewrite ?Hlog, ?Hc; try apply Hb; [..|by apply good_printed| | | |].
    + intros id row Hrow. destruct (Hfrom id row Hrow) as [Hin|(e & He & Eid & Ec)]; [by apply Hb|]. exists e. auto.
    + intros d u Hd He. destruct (Hdoc' d Hd) as [_ E]. apply Hu, Se. congruence.
    + done.
    + intros d Hd. destruct (Hdoc' d Hd) as [E _]. rewrite E. assert (Hf := Hcar _ _ (bs_frontier _ Hb doc Hdoc)).
      destruct (later_spec (wd_frontier doc) tail) as (_ & _ & [-> | ->]); done.
    + done.
  - split; [set_solver|]. split; [done|]. split; [by intros e ?%elem_of_nil|]. done.
  - split; [done|by rewrite Hlog|done|]. intros d Hd. destruct (Hdoc' d Hd) as [_ E]. left. exists doc. split; [done|]. split; [congruence|]. by intros _.
Qed.

(** ** Reading a page *)

Lemma page_holds l n tail e :
  ordered l -> last (take n l) = Some tail -> e ∈ l -> point_le (entry_point e) (entry_point tail) -> e ∈ take n l.
Proof.
  intros Ho Hlast He Hle. rewrite <-(take_drop n l) in He, Ho. apply elem_of_app in He as [He|He]; [done|]. exfalso.
  apply ordered_app in Ho as (_ & _ & Hsep). apply (point_lt_irrefl (entry_point e)). eapply point_le_lt_trans; [exact Hle|].
  apply Hsep; [|done]. apply last_Some in Hlast as (l' & E). rewrite E. apply elem_of_app. right. by left.
Qed.

Lemma read_scan w epoch c limit :
  base w -> scan_ok (Scanning epoch c []) w ->
  let pg := page_of (pw_log w) c limit in scan_ok (Scanning epoch (page_tail pg) (pg_entries pg)) w.
Proof.
  intros Hb (Se & Sr & _ & Sc). cbv zeta. split; [done|]. split; [done|].
  assert (Hsub : forall e, e ∈ pg_entries (page_of (pw_log w) c limit) -> e ∈ pw_log w /\ above c (entry_point e)).
  { cbn. intros e He. apply (elem_beyond c). rewrite <-(take_drop (Z.to_nat limit) (beyond c (pw_log w))). apply elem_of_app. by left. }
  split; [intros e He; by apply Hsub|]. intros doc Hdoc Hep. destruct (Sc doc Hdoc Hep) as [C1 C2].
  unfold page_tail. destruct (last (pg_entries (page_of (pw_log w) c limit))) as [tail|] eqn:Hlast.
  - cbn [fmap option_fmap option_map]. split.
    + intros st cur floor _ _ p [= <-]. right. exists tail. split; [|apply point_le_refl]. apply Hsub. by apply last_Some_elem_of.
    + intros st cur floor Hst Hs e He Hdir Hlt Hle. cbn in Hle.
      assert (Hdec : above c (entry_point e) \/ ~ above c (entry_point e)) by (rewrite above_iff; lia).
      destruct Hdec as [Ha|Hna].
      * right. apply (page_holds _ _ tail); [apply ordered_beyond, Hb|done| |done]. by apply elem_beyond.
      * left. destruct c as [c0|]; [|done]. cbn in Hna. apply point_not_lt in Hna.
        destruct (C2 st cur floor Hst Hs e He Hdir Hlt Hna) as [?|Hin]; [done|]. by apply elem_of_nil in Hin.
  - cbn [fmap option_fmap option_map]. split; [done|]. intros st cur floor _ _ e _ _ _ Hle. done.
Qed.
End World.

