(* ===== verification/PushSchedule.v ===== *)
(** * When the push engine wakes the host

    The engine compares printed instants; on the instants it writes that is the
    order of time.  [nextDueAt] gives the instant the next [tick] has work at:
    none before it has any, and one at it does some. *)

From S2P Require Import Prelude JsDate JsonText Effects RepDb RepCore RepRead RepDeliveryFacts RepPush PushDocument PushFacts.

Open Scope Z_scope.
Open Scope tx_scope.

Section Schedule.
Context `{RepEnv} `{JsDate}.

#[local] Arguments to_iso : simpl never.
#[local] Arguments string_ltb : simpl never.
#[local] Arguments string_leb : simpl never.
#[local] Arguments clamp_to : simpl never.

(** ** Printed instants as times *)

Definition time_of (s : string) : Z := default 0 (date_parse s).

#[local] Arguments time_of : simpl never.

Lemma time_of_iso t : iso_min <= t <= iso_max -> time_of (to_iso t) = t.
Proof. intros Ht. unfold time_of. by rewrite date_parse_to_iso by (by apply four_digit_interval). Qed.

Lemma printed_time s : printed s -> s = to_iso (time_of s) /\ iso_min <= time_of s <= iso_max.
Proof. intros (t & -> & Ht). by rewrite time_of_iso. Qed.

Lemma printed_parse s : printed s -> date_parse s = Some (time_of s).
Proof. intros (t & -> & Ht). rewrite time_of_iso by done. apply date_parse_to_iso. by apply four_digit_interval. Qed.

Lemma clock_range t : clock_ok t -> iso_min <= t <= iso_max /\ iso_min <= t + MAX_FUTURE_MS <= iso_max.
Proof. unfold clock_ok, MAX_FUTURE_MS. lia. Qed.

Lemma leb_time s t : printed s -> iso_min <= t <= iso_max -> string_leb s (to_iso t) = (time_of s <=? t).
Proof.
  intros Hs Ht. destruct (printed_time s Hs) as [E Hr]. rewrite E at 1. apply to_iso_leb; by apply four_digit_interval.
Qed.

Lemma ltb_time s t : printed s -> iso_min <= t <= iso_max -> string_ltb (to_iso t) s = (t <? time_of s).
Proof.
  intros Hs Ht. destruct (printed_time s Hs) as [E Hr]. rewrite E at 1. apply to_iso_ltb; by apply four_digit_interval.
Qed.

Lemma clamp_time limit s : iso_min <= limit <= iso_max -> printed s -> time_of (clamp_to (to_iso limit) s) = Z.min (time_of s) limit.
Proof.
  intros Hl Hs. unfold clamp_to. rewrite ltb_time by done. destruct (Z.ltb_spec limit (time_of s)); [rewrite time_of_iso by done|]; lia.
Qed.

Lemma capped_time limit s : printed s -> capped limit s = Z.min (time_of s) limit.
Proof. intros Hs. unfold capped. by rewrite printed_parse. Qed.

Lemma iso_printed t : iso_min <= t <= iso_max -> printed (to_iso t).
Proof. intros Ht. by exists t. Qed.

(** ** The rows *)

Lemma elem_rows g db id row : (id, row) ∈ rows g db <-> wake_rows g db !! id = Some row.
Proof. unfold rows. rewrite merge_sort_Permutation. apply elem_of_map_to_list. Qed.

Lemma rows_nil g db : rows g db = [] <-> forall id, wake_rows g db !! id = None.
Proof.
  split.
  - intros E id. destruct (wake_rows g db !! id) as [row|] eqn:Er; [|done]. apply elem_rows in Er. rewrite E in Er. by apply elem_of_nil in Er.
  - intros Hn. destruct (rows g db) as [|[id row] l] eqn:E; [done|]. exfalso.
    assert (Hin : (id, row) ∈ rows g db) by (rewrite E; by left). apply elem_rows in Hin. by rewrite Hn in Hin.
Qed.

Lemma rows_ids g db : NoDup (map fst (rows g db)).
Proof.
  unfold rows. rewrite (Permutation_map fst (merge_sort_Permutation row_le _)). apply NoDup_fst_map_to_list.
Qed.

Lemma filter_ids (f : string * wake_row -> bool) l : NoDup (map fst l) -> NoDup (map fst (List.filter f l)).
Proof.
  induction l as [|x l IH]; cbn; [done|]. intros [Hx Hl]%NoDup_cons. destruct (f x); cbn; [|auto]. constructor; [|auto].
  intros ([id row] & E & Hin)%list_elem_of_fmap. apply Hx, list_elem_of_fmap. exists (id, row). split; [done|].
  rewrite list_elem_of_In, filter_In, <-list_elem_of_In in Hin. tauto.
Qed.

(** ** One tick *)

Definition clamped_db (g : string) (t : Z) (db : rep_db) : rep_db :=
  with_rows g (fmap (clamp_row (to_iso (t + MAX_FUTURE_MS)))) db.

(** The document a tick at [t] decides on, and the replies it finds due. *)
Definition tick_document (t : Z) (doc : wake_document) : wake_document :=
  expire (to_iso t) (clamp_document (to_iso (t + MAX_FUTURE_MS)) doc).

Definition due_rows (g : string) (t : Z) (db : rep_db) : list (string * wake_row) :=
  List.filter (fun kv => string_leb (wk_next_at (snd kv)) (to_iso t)) (rows g (clamped_db g t db)).

Lemma tick_run batch g t now db doc : document g db = inr doc ->
  tick_tx batch g t now db =
  (let doc' := tick_document t doc in
   match (if blocked (to_iso t) doc' then [] else due_rows g t db) with
   | [] => (inr None, saved g doc' (clamped_db g t db))
   | due => (inr (Some (WakeEmission batch (batch_reason doc' due) (length due))),
             saved g (emitted_document t batch due doc')
               (with_rows g (update_rows (attempted t) (map fst due)) (clamped_db g t db)))
   end).
Proof.
  intros Hd. unfold tick_tx. cbv zeta. unfold tx_bind at 1. rewrite loadDocument_eq, Hd.
  unfold clamp. cbv zeta. unfold tx_bind at 1 2, write_rows at 1, tx_write at 1, tx_ret at 1. unfold tx_bind at 1, tx_read at 1.
  change (set_wake_replies _ db) with (clamped_db g t db). fold (tick_document t doc). fold (due_rows g t db).
  by destruct (if blocked _ _ then _ else _).
Qed.

(** What a tick that announced [due] left. *)
Lemma tick_emitted batch g t now db doc wake db1 : document g db = inr doc -> tick_tx batch g t now db = (inr (Some wake), db1) ->
  exists due, NoDup (map fst due) /\
    db1 = saved g (emitted_document t batch due (tick_document t doc))
      (with_rows g (update_rows (attempted t) (map fst due)) (clamped_db g t db)).
Proof.
  intros Hd Hrun. rewrite (tick_run batch g t now db doc Hd) in Hrun. cbv zeta in Hrun. destruct (blocked _ _); [done|].
  assert (Hnd : NoDup (map fst (due_rows g t db))) by (apply filter_ids, rows_ids).
  destruct (due_rows g t db) as [|kv due]; [done|]. injection Hrun as _ <-. by exists (kv :: due).
Qed.

(** The instants of a document, as times. *)
Definition deadline_of (doc : wake_document) : option Z := (fun o => time_of (ob_deadline o)) <$> wd_outstanding doc.
Definition retry_of (doc : wake_document) : option Z := time_of <$> rf_retry_at (wd_refusals doc).
Definition debounce_of (doc : wake_document) : option Z := time_of <$> wd_debounce_at doc.

(** [EMIT] is held back at [t]: by a batch whose deadline lies ahead, by a
    refusal, by an open cohort or by the debounce. *)
Definition held (t : Z) (doc : wake_document) : Prop :=
  in_option (fun x => t < x) (deadline_of doc) /\ is_Some (deadline_of doc) \/
  in_option (fun x => t < x) (retry_of doc) /\ is_Some (retry_of doc) \/
  cohort_open doc = true \/
  in_option (fun x => t < x) (debounce_of doc) /\ is_Some (debounce_of doc).

Lemma after_clamped t x : clock_ok t -> in_option printed x ->
  after_instant (to_iso t) (clamp_to (to_iso (t + MAX_FUTURE_MS)) <$> x) = true <->
  in_option (fun x => t < x) (time_of <$> x) /\ is_Some (time_of <$> x).
Proof.
  intros Hc Hp. destruct (clock_range t Hc) as [R1 R2]. destruct x as [s|]; cbn; [|split; [done|by intros [_ [? ?]]]].
  rewrite ltb_time by (try apply clamp_printed; try apply iso_printed; done). rewrite clamp_time by done. rewrite Z.ltb_lt.
  unfold MAX_FUTURE_MS. split; [intros; split; [lia|eauto]|intros [? _]; lia].
Qed.

Lemma blocked_held t doc : clock_ok t -> printed_document doc -> blocked (to_iso t) (tick_document t doc) = true <-> held t doc.
Proof.
  intros Hc (Ho & Hr & Hd). destruct (clock_range t Hc) as [R1 R2]. unfold blocked, held, tick_document, expire.
  assert (Hout : by_instant (to_iso t) (ob_deadline <$> wd_outstanding (clamp_document (to_iso (t + MAX_FUTURE_MS)) doc)) =
    match deadline_of doc with Some x => x <=? t | None => false end).
  { unfold deadline_of. cbn. destruct (wd_outstanding doc) as [o|]; [|done]. cbn in *.
    rewrite leb_time by (try apply clamp_printed; try apply iso_printed; done). rewrite clamp_time by done.
    unfold MAX_FUTURE_MS. destruct (Z.leb_spec (Z.min (time_of (ob_deadline o)) (t + 86400000)) t), (Z.leb_spec (time_of (ob_deadline o)) t); lia. }
  rewrite Hout. rewrite !orb_true_iff, bool_decide_eq_true.
  assert (Hret := after_clamped t (rf_retry_at (wd_refusals doc)) Hc Hr). assert (Hdeb := after_clamped t (wd_debounce_at doc) Hc Hd).
  unfold retry_of, debounce_of. rewrite <-Hret, <-Hdeb. unfold deadline_of. destruct (wd_outstanding doc) as [o|] eqn:Eo; cbn [fmap option_fmap option_map].
  - destruct (Z.leb_spec (time_of (ob_deadline o)) t) as [Hle|Hgt]; cbn; rewrite ?Eo; cbn.
    + split; [intros [[[[? ?]|?]|?]|?]; auto; done|]. intros [[? _]|[?|[?|?]]]; [lia|auto..].
    + split; [intros _; left; split; [lia|eauto]|intros _; left; left; left; eauto].
  - cbn. rewrite Eo. cbn. split; [intros [[[[? ?]|?]|?]|?]; auto; done|]. intros [[_ [? ?]]|[?|[?|?]]]; [done|auto..].
Qed.

Lemma due_spec g t db id row : clock_ok t -> state_good g db ->
  (id, row) ∈ due_rows g t db <->
  exists row0, wake_rows g db !! id = Some row0 /\ time_of (wk_next_at row0) <= t /\ row = clamp_row (to_iso (t + MAX_FUTURE_MS)) row0.
Proof.
  intros Hc Hg. destruct (clock_range t Hc) as [R1 R2]. unfold due_rows. rewrite list_elem_of_In, filter_In, <-list_elem_of_In, elem_rows.
  unfold clamped_db. rewrite rows_with, lookup_fmap. cbn [snd]. split.
  - intros [(row0 & Hr & ->)%fmap_Some Hle]. exists row0. split; [done|]. split; [|done].
    assert (Hp : printed (wk_next_at row0)) by (by apply (sg_rows _ _ Hg id)). cbn in Hle.
    rewrite leb_time in Hle by (try apply clamp_printed; try apply iso_printed; done). rewrite clamp_time in Hle by done.
    apply Z.leb_le in Hle. unfold MAX_FUTURE_MS in Hle. lia.
  - intros (row0 & Hr & Ht & ->). rewrite Hr. split; [done|].
    assert (Hp : printed (wk_next_at row0)) by (by apply (sg_rows _ _ Hg id)). cbn.
    rewrite leb_time by (try apply clamp_printed; try apply iso_printed; done). rewrite clamp_time by done.
    apply Z.leb_le. unfold MAX_FUTURE_MS. lia.
Qed.

(** A reply is due at [t]. *)
Definition some_due (g : string) (t : Z) (db : rep_db) : Prop :=
  exists id row, wake_rows g db !! id = Some row /\ time_of (wk_next_at row) <= t.

Lemma due_nil g t db : clock_ok t -> state_good g db -> due_rows g t db = [] <-> ~ some_due g t db.
Proof.
  intros Hc Hg. split.
  - intros E (id & row & Hr & Ht). assert (Hin : (id, clamp_row (to_iso (t + MAX_FUTURE_MS)) row) ∈ due_rows g t db) by (apply due_spec; eauto).
    rewrite E in Hin. by apply elem_of_nil in Hin.
  - intros Hn. destruct (due_rows g t db) as [|[id row] l] eqn:E; [done|]. exfalso. apply Hn.
    assert (Hin : (id, row) ∈ due_rows g t db) by (rewrite E; by left). apply due_spec in Hin as (row0 & ? & ? & _); [|done..]. by exists id, row0.
Qed.

(** A tick announces exactly when nothing holds it back and a reply is due. *)
Lemma tick_idle batch g t now db doc : document g db = inr doc -> clock_ok t -> state_good g db ->
  held t doc \/ ~ some_due g t db ->
  tick_tx batch g t now db = (inr None, saved g (tick_document t doc) (clamped_db g t db)).
Proof.
  intros Hd Hc Hg Hh. assert (Hp : printed_document doc) by (by apply (sg_document _ _ Hg)).
  rewrite (tick_run batch g t now db doc Hd). cbv zeta. destruct (blocked (to_iso t) (tick_document t doc)) eqn:Eb; [done|].
  destruct Hh as [Hh|Hn]; [apply (blocked_held t doc Hc Hp) in Hh; congruence|]. apply (due_nil g t db Hc Hg) in Hn. by rewrite Hn.
Qed.

Lemma tick_announces batch g t now db doc : document g db = inr doc -> clock_ok t -> state_good g db ->
  ~ held t doc -> some_due g t db ->
  tick_tx batch g t now db =
  (inr (Some (WakeEmission batch (batch_reason (tick_document t doc) (due_rows g t db)) (length (due_rows g t db)))),
   saved g (emitted_document t batch (due_rows g t db) (tick_document t doc))
     (with_rows g (update_rows (attempted t) (map fst (due_rows g t db))) (clamped_db g t db))).
Proof.
  intros Hd Hc Hg Hh Hs. assert (Hp : printed_document doc) by (by apply (sg_document _ _ Hg)).
  rewrite (tick_run batch g t now db doc Hd). cbv zeta. destruct (blocked (to_iso t) (tick_document t doc)) eqn:Eb.
  { destruct Hh. by apply (blocked_held t doc Hc Hp). }
  destruct (due_rows g t db) eqn:E; [|done]. apply (due_nil g t db Hc Hg) in E. done.
Qed.

Lemma tick_cases batch g t now db doc : document g db = inr doc ->
  (exists wake db', tick_tx batch g t now db = (inr (Some wake), db')) \/
  tick_tx batch g t now db = (inr None, saved g (tick_document t doc) (clamped_db g t db)).
Proof. intros Hd. rewrite (tick_run batch g t now db doc Hd). cbv zeta. destruct (if blocked _ _ then _ else _); eauto. Qed.

(** A tick keeps the outstanding batch up to its deadline. *)
Lemma tick_outstanding t doc : clock_ok t -> in_option printed (ob_deadline <$> wd_outstanding doc) ->
  ob_batch <$> wd_outstanding (tick_document t doc) =
  match deadline_of doc with Some x => if x <=? t then None else ob_batch <$> wd_outstanding doc | None => None end.
Proof.
  intros Hc Hp. destruct (clock_range t Hc) as [R1 R2]. unfold tick_document, expire, deadline_of.
  cbn [clamp_document set_debounce_at set_refusals set_outstanding wd_outstanding].
  destruct (wd_outstanding doc) as [o|] eqn:Eo; cbn [fmap option_fmap option_map by_instant]; [|by cbn; rewrite Eo].
  cbn [ob_deadline]. cbn in Hp. rewrite leb_time by (try apply clamp_printed; try apply iso_printed; done). rewrite clamp_time by done.
  unfold MAX_FUTURE_MS. destruct (Z.leb_spec (Z.min (time_of (ob_deadline o)) (t + 86400000)) t), (Z.leb_spec (time_of (ob_deadline o)) t);
    try lia; cbn; by rewrite ?Eo.
Qed.

(** ** The next instant *)

(** The earliest due instant of the rows. *)
Definition earliest_of (limit : Z) (kv : string * wake_row) (rest : list (string * wake_row)) : Z :=
  foldr (fun kv m => Z.min (capped limit (wk_next_at (snd kv))) m) (capped limit (wk_next_at (snd kv))) rest.

Lemma earliest_spec limit kv rest :
  (forall x, x ∈ kv :: rest -> earliest_of limit kv rest <= capped limit (wk_next_at (snd x))) /\
  (exists x, x ∈ kv :: rest /\ earliest_of limit kv rest = capped limit (wk_next_at (snd x))).
Proof.
  induction rest as [|y rest [IH1 (x & Hx & E)]]; cbn [earliest_of foldr].
  - split; [intros x [->|?%elem_of_nil]%elem_of_cons; [lia|done]|]. exists kv. by split; [left|].
  - fold (earliest_of limit kv rest). split.
    + intros z [->|[->|Hz]%elem_of_cons]%elem_of_cons; [|lia|].
      * specialize (IH1 kv ltac:(by left)). lia.
      * specialize (IH1 z ltac:(by right)). lia.
    + destruct (Z.min_spec (capped limit (wk_next_at (snd y))) (earliest_of limit kv rest)) as [[_ ->]|[_ ->]].
      * exists y. split; [right; by left|done].
      * exists x. split; [|done]. apply elem_of_cons in Hx as [->|Hx]; [by left|]. right. by right.
Qed.

Definition next_due (g : string) (t : Z) (doc : wake_document) (db : rep_db) : option Z :=
  match wd_outstanding doc with
  | Some o => Some (capped (t + MAX_FUTURE_MS) (ob_deadline o))
  | None =>
      match refused_until t doc with
      | Some retry => Some (capped (t + MAX_FUTURE_MS) retry)
      | None =>
          if cohort_open doc then None
          else match rows g db with
               | [] => None
               | kv :: rest =>
                   Some (match wd_debounce_at doc with
                         | Some d => Z.max (earliest_of (t + MAX_FUTURE_MS) kv rest) (capped (t + MAX_FUTURE_MS) d)
                         | None => earliest_of (t + MAX_FUTURE_MS) kv rest
                         end)
               end
      end
  end.

Lemma next_due_run g t now db doc : document g db = inr doc -> next_due_tx g t now db = (inr (next_due g t doc db), db).
Proof. intros Hd. unfold next_due_tx. cbv zeta. unfold tx_bind at 1. rewrite loadDocument_eq, Hd. reflexivity. Qed.

Lemma refused_until_time t doc : in_option printed (rf_retry_at (wd_refusals doc)) ->
  match refused_until t doc with
  | Some retry => rf_retry_at (wd_refusals doc) = Some retry /\ t < time_of retry
  | None => in_option (fun x => x <= t) (retry_of doc)
  end.
Proof.
  unfold refused_until, retry_of. destruct (rf_retry_at (wd_refusals doc)) as [r|]; [|done]. cbn. intros Hp.
  rewrite (printed_parse r Hp). destruct (Z.ltb_spec t (time_of r)); [done|]. cbn. lia.
Qed.

(** Before the instant [nextDueAt] gives, and for ever when it gives none, a tick
    finds nothing to do. *)
Lemma next_due_sound g t t' db doc : state_good g db -> document g db = inr doc -> clock_ok t -> clock_ok t' -> t <= t' ->
  match next_due g t doc db with Some x => t' < x | None => True end ->
  (held t' doc \/ ~ some_due g t' db) /\ in_option (fun x => t' < x) (deadline_of doc).
Proof.
  intros Hg Hd Hc Hc' Ht Hx. destruct (sg_document _ _ Hg doc Hd) as (Po & Pr & Pd). unfold next_due in Hx. unfold held.
  destruct (wd_outstanding doc) as [o|] eqn:Eo.
  { unfold deadline_of in *. rewrite Eo in *. cbn in *. rewrite capped_time in Hx by done. split; [left; left; split; [lia|eauto]|lia]. }
  assert (Hdl : deadline_of doc = None) by (unfold deadline_of; by rewrite Eo). rewrite Hdl. split; [|done].
  assert (Hr := refused_until_time t doc Pr). destruct (refused_until t doc) as [retry|] eqn:Er.
  { destruct Hr as [E Hlt]. unfold retry_of. rewrite E in *. cbn in *. rewrite capped_time in Hx by done. left. right; left. split; [lia|eauto]. }
  destruct (cohort_open doc) eqn:Ec; [by left; right; right; left|]. destruct (rows g db) as [|kv rest] eqn:Erows.
  { right. intros (id & row & Hrow & _). apply (rows_nil g db) with (id := id) in Erows. congruence. }
  destruct (earliest_spec (t + MAX_FUTURE_MS) kv rest) as [Hmin _]. rewrite <-Erows in Hmin.
  assert (Hrows : t' < earliest_of (t + MAX_FUTURE_MS) kv rest -> ~ some_due g t' db).
  { intros Hlt (id & row & Hrow & Hle). apply elem_rows in Hrow as Hin. specialize (Hmin _ Hin). cbn in Hmin.
    rewrite capped_time in Hmin by (by apply (sg_rows _ _ Hg id)). lia. }
  unfold debounce_of. destruct (wd_debounce_at doc) as [d|]; [|right; by apply Hrows]. cbn in *.
  rewrite capped_time in Hx by done.
  destruct (Z.lt_ge_cases t' (time_of d)) as [?|?]; [left; right; right; right; split; [lia|eauto]|].
  right. apply Hrows. lia.
Qed.

(** At that instant it has something to do: a batch to expire, or one to announce. *)
Lemma next_due_complete g t db doc x : state_good g db -> document g db = inr doc -> clock_ok t ->
  next_due g t doc db = Some x -> x <= t ->
  (is_Some (wd_outstanding doc) /\ in_option (fun d => d <= t) (deadline_of doc)) \/ (~ held t doc /\ some_due g t db).
Proof.
  intros Hg Hd Hc Hx Hle. destruct (sg_document _ _ Hg doc Hd) as (Po & Pr & Pd). unfold next_due in Hx. unfold held.
  destruct (wd_outstanding doc) as [o|] eqn:Eo.
  { left. split; [eauto|]. unfold deadline_of. rewrite Eo. cbn in *. rewrite capped_time in Hx by done. simplify_eq.
    unfold MAX_FUTURE_MS in Hle. lia. }
  assert (Hdl : deadline_of doc = None) by (unfold deadline_of; by rewrite Eo). rewrite Hdl. right.
  assert (Hr := refused_until_time t doc Pr). destruct (refused_until t doc) as [retry|] eqn:Er.
  { destruct Hr as [E Hlt]. rewrite E in *. cbn in Pr. rewrite capped_time in Hx by done. simplify_eq. unfold MAX_FUTURE_MS in Hle. lia. }
  destruct (cohort_open doc) eqn:Ec; [done|]. destruct (rows g db) as [|kv rest] eqn:Erows; [done|].
  destruct (earliest_spec (t + MAX_FUTURE_MS) kv rest) as [_ (y & Hy & Ey)]. rewrite <-Erows in Hy. destruct y as [id row].
  apply elem_rows in Hy. cbn in Ey. rewrite capped_time in Ey by (by apply (sg_rows _ _ Hg id)).
  assert (Hdue : earliest_of (t + MAX_FUTURE_MS) kv rest <= t -> some_due g t db).
  { intros He. exists id, row. split; [done|]. unfold MAX_FUTURE_MS in *. lia. }
  unfold debounce_of in *. destruct (wd_debounce_at doc) as [d|]; simplify_eq; cbn in *.
  - rewrite capped_time in Hle by done. split; [|apply Hdue; lia].
    intros [[_ [? ?]]|[[Hr1 [? Hr2]]|[?|[Hd1 _]]]]; [done| |done|unfold MAX_FUTURE_MS in *; lia].
    destruct (retry_of doc); [cbn in *; lia|done].
  - split; [|by apply Hdue]. intros [[_ [? ?]]|[[Hr1 [? Hr2]]|[?|[_ [? ?]]]]]; [done| |done|done].
    destruct (retry_of doc); [cbn in *; lia|done].
Qed.
End Schedule.
