(* ===== verification/PushSafety.v ===== *)
(** * Discovery misses no reply

    The programs of the engine, interleaved in any way with one another, with the
    representative's tools and with damage to the wake state, keep the invariant
    of [PushWorld]. *)

From S2P Require Import Prelude JsDate JsonText Effects RepDb RepCore RepRead RepDeliveryFacts RepPush PushDocument PushFacts PushOutside PushWorld.

Open Scope Z_scope.
Open Scope prog_scope.

Section Safety.
Context `{RepEnv} `{JsDate}.
Variable b : binding.

Local Abbreviation g := (bindingFingerprint b).
Local Abbreviation sim := (simulates push_act (scan_step b)).

(** ** The programs *)

Lemma sim_ask s X (op : push_op X) (Q : X -> scan_state -> Prop) R :
  (forall w x w', push_act X op w x w' ->
     pw_db w' = pw_db w /\ pw_log w' = pw_log w /\ pw_used w' = pw_used w /\ pw_clock w' = pw_clock w /\ pw_damaged w' = pw_damaged w) ->
  (forall x, Q x s) -> sim s (ask op) Q R.
Proof.
  intros Hop HQ w x w' Ha. exists s. split; [|apply HQ]. destruct (Hop w x w' Ha) as (? & ? & ? & ? & ?). by apply step_same.
Qed.

Lemma sim_perform s X (op : push_op (js_error + X)) (Q : X -> scan_state -> Prop) (R : js_error -> scan_state -> Prop) :
  (forall w x w', push_act _ op w x w' ->
     pw_db w' = pw_db w /\ pw_log w' = pw_log w /\ pw_used w' = pw_used w /\ pw_clock w' = pw_clock w /\ pw_damaged w' = pw_damaged w) ->
  (forall x, Q x s) -> (forall e, R e s) -> sim s (perform op) Q R.
Proof.
  intros Hop HQ HR. apply simulates_perform. intros w x w' Ha. exists s. split; [|destruct x; [apply HR|apply HQ]].
  destruct (Hop w x w' Ha) as (? & ? & ? & ? & ?). by apply step_same.
Qed.

Ltac same_world :=
  clear; let Ha := fresh "Ha" in intros ? ? ? Ha; cbn in Ha;
  repeat (case_match; cbn in Ha); destruct_and?; destruct_or?; destruct_and?; subst; done.

Lemma sim_enter s Q (R : js_error -> scan_state -> Prop) : (forall x, Q x s) -> (forall e, R e s) -> sim s (perform EnterChain) Q R.
Proof. apply sim_perform. same_world. Qed.

Lemma push_sim_finally s {A} (p : push A) (q : push unit) Q R :
  sim s p (fun a s1 => sim s1 q (fun _ => Q a) R) (fun e s1 => sim s1 q (fun _ => R e) R) -> sim s (pfinally p q) Q R.
Proof.
  intros Hp. unfold pfinally. apply simulates_bind, simulates_attempt. eapply simulates_mono; [exact Hp|..].
  - intros a s1 Hq. apply simulates_bind. eapply simulates_mono; [exact Hq|..]; [|done]. by intros [] s2 HQ.
  - intros e s1 Hq. apply simulates_bind. eapply simulates_mono; [exact Hq|..]; [|done]. by intros [] s2 HR.
Qed.

Lemma sim_serial s {A} (p : push A) Q (R : js_error -> scan_state -> Prop) :
  (forall e, R e s) -> sim s p Q R -> sim s (serial p) Q R.
Proof.
  intros HR Hp. unfold serial. apply simulates_bind, sim_enter; [|done]. intros _. apply push_sim_finally.
  eapply simulates_mono; [exact Hp|..].
  - intros a s1 HQ. apply sim_ask; [same_world|done].
  - intros e s1 HRe. apply sim_ask; [same_world|done].
Qed.

(** ** Transactions *)

(** What the body of a transaction starts from: valid state as it is, invalid
    state rebuilt. *)
Definition recovered (fresh : string) (db db1 : rep_db) : Prop :=
  (db1 = db /\ wake_valid g db) \/ (~ wake_valid g db /\ rebuilt g fresh db db1).

Lemma engine_ensures {A} (body : string -> string -> Z -> tx A) fresh batch (Q : rep_db -> A -> rep_db -> Prop) now db :
  wake_printed g db ->
  (forall db1, recovered fresh db db1 -> state_good g db1 -> ensures (body batch g now) (Q db1) now db1) ->
  ensures (engine_tx b body fresh batch) (fun r db' => exists db1, recovered fresh db db1 /\ Q db1 (snd r) db') now db.
Proof.
  intros Hp Hbody. unfold engine_tx. apply ensures_bind, generation_ensures, ensures_bind.
  eapply ensures_mono; [apply discard_ensures|]. intros d db1 Hd. apply ensures_bind, ensures_now, ensures_bind.
  assert (Hcase : recovered fresh db db1) by (destruct Hd as [(_ & -> & ?)|(_ & ? & ?)]; [by left|by right]).
  assert (Hg : state_good g db1).
  { destruct Hcase as [[-> Hv]|[_ Hr]]; [by apply printed_good|by eapply rebuilt_good]. }
  eapply ensures_mono; [by apply Hbody|]. intros a db' HQ. apply ensures_ret. by exists db1.
Qed.

(** A transaction whose body leads from [s] to [F result]. *)
Lemma sim_transact s {A} (body : string -> string -> Z -> tx A) (F : A -> scan_state) Q (R : js_error -> scan_state -> Prop) :
  (forall w fresh batch, base b w -> scan_ok b s w -> fresh ∉ pw_used w -> uuid batch = true ->
     ensures (engine_tx b body fresh batch) (fun r db' =>
       let w' := with_tables db' {[fresh; batch]} w in
       base b w' /\ scan_ok b (F (snd r)) w' /\ forall t, scan_ok b t w -> scan_ok b t w') (pw_clock w) (pw_db w)) ->
  (forall a, Q a (F a)) -> (forall e, R e s) -> sim s (transact b body) Q R.
Proof.
  intros Hbody HQ HR. unfold transact. apply simulates_bind, simulates_perform. intros w r w' [[[e ->] ->]|Ha].
  { exists s. split; [by apply step_same|done]. }
  destruct Ha as (fresh & batch & Hf & _ & _ & _ & Hb & -> & ->).
  set (o := commit (engine_tx b body fresh batch) (pw_clock w) (pw_db w)).
  exists (match fst o with inr r => F (snd r) | inl _ => s end). split.
  - intros Hw Hs. specialize (Hbody w fresh batch Hw Hs Hf Hb). unfold ensures in Hbody. subst o. unfold commit in *.
    destruct (engine_tx b body fresh batch (pw_clock w) (pw_db w)) as [[e|r] db'] eqn:Er; cbn [fst snd]; [|done].
    destruct (quiet_step b w (with_tables (pw_db w) {[fresh; batch]} w)) as [Hw' He];
      [done|set_solver|done|apply Hw|reflexivity|apply Hw|done|].
    split; [done|]. split; [|intros t Ht]; by eapply evolves_scans.
  - destruct (fst o) as [e|[d a]]; [apply HR|]. cbn [fst snd]. apply simulates_bind.
    assert (Hret : sim (F a) (Ret a) Q R) by apply HQ.
    destruct d as [line|]; [|exact Hret]. apply sim_ask; [same_world|]. intros _. exact Hret.
Qed.

(** A quiet one leaves every scan where it is. *)
Lemma sim_quiet s {A} (body : string -> string -> Z -> tx A) Q (R : js_error -> scan_state -> Prop) :
  (forall batch now db, uuid batch = true -> clock_ok now -> state_good g db -> ensures (body batch g now) (fun _ db' => keeps g db db') now db) ->
  (forall a, Q a s) -> (forall e, R e s) -> sim s (transact b body) Q R.
Proof.
  intros Hbody HQ HR. apply (sim_transact s body (fun _ => s)); [|done|done]. intros w fresh batch Hw Hs Hf Hb.
  eapply ensures_mono; [apply (engine_ensures body fresh batch (fun db1 _ db' => keeps g db1 db')); [apply Hw|]|].
  - intros db1 _ Hg. apply Hbody; [done|apply Hw|done].
  - intros r db' (db1 & Hcase & [Hk Hg Hd]). cbv zeta. set (w' := with_tables db' {[fresh; batch]} w).
    assert (Hall : base b w' /\ evolves b w w').
    { destruct Hcase as [[-> _]|[Hbad Hr]].
      - apply quiet_step; [done|set_solver|done|intros _; by apply good_valid|done|by apply good_printed|done].
      - destruct (rebuilt_step b w fresh batch db1 Hw Hf Hbad Hr) as [Hw1 He1].
        destruct (quiet_step b (with_tables db1 {[fresh; batch]} w) w') as [Hw2 He2];
          [done|set_solver|done|intros _; by apply good_valid|done|by apply good_printed|done|].
        split; [done|]. by eapply evolves_trans. }
    destruct Hall as [Hw' He]. split; [done|]. split; [|intros t Ht]; by eapply evolves_scans.
Qed.

Lemma sim_summary s (Q : wake_summary -> scan_state -> Prop) (R : js_error -> scan_state -> Prop) :
  (forall a, Q a s) -> (forall e, R e s) -> sim s (summary b) Q R.
Proof. apply sim_quiet. intros _ now db _ Hc Hg. by apply summarize_keeps. Qed.

Lemma sim_next s (Q : option Z -> scan_state -> Prop) (R : js_error -> scan_state -> Prop) :
  (forall a, Q a s) -> (forall e, R e s) -> sim s (nextDueAt b) Q R.
Proof. apply sim_quiet. intros _ now db _ Hc Hg. by apply next_due_keeps. Qed.

Lemma sim_tick s (Q : option wake_emission -> scan_state -> Prop) (R : js_error -> scan_state -> Prop) :
  (forall a, Q a s) -> (forall e, R e s) -> sim s (tick b) Q R.
Proof.
  intros HQ HR. unfold tick. apply simulates_bind, sim_ask; [same_world|]. intros [|]; [apply HQ|].
  apply sim_serial; [done|]. apply simulates_bind, sim_quiet; [|intros [w|]|done].
  - intros batch now db Hb Hc Hg. by apply tick_keeps.
  - apply simulates_bind, sim_perform; [same_world|intros _; apply HQ|done].
  - apply HQ.
Qed.

Lemma sim_ack s line (Q : ack_outcome -> scan_state -> Prop) (R : js_error -> scan_state -> Prop) :
  (forall a, Q a s) -> (forall e, R e s) -> sim s (ack b line) Q R.
Proof.
  intros HQ HR. unfold ack. destruct (parseAck line) as [parsed|]; [|apply HQ]. apply simulates_bind, sim_ask; [same_world|].
  intros [|]; [apply HQ|]. apply sim_serial; [done|]. apply sim_quiet; [|done|done].
  intros _ now db _ Hc Hg. by apply ack_keeps.
Qed.

Lemma sim_network s cursor limit (Q : discovery -> scan_state -> Prop) (R : js_error -> scan_state -> Prop) :
  (forall a, (forall n, dc_behind_by a = Some n -> 0 <= n) -> Q a s) -> (forall e, R e s) -> sim s (network cursor limit) Q R.
Proof.
  intros HQ HR. unfold network. apply simulates_bind, sim_ask; [same_world|]. intros [|]; [apply HR|].
  apply simulates_perform. intros w x w' [-> [[e ->]|(left & -> & Hleft)]]; exists s; (split; [by apply step_same|]); [apply HR|].
  apply HQ. cbn. intros n ->. destruct Hleft as [|[= ->]]; [done|lia].
Qed.

Lemma sim_capture s n (Q : unit -> scan_state -> Prop) (R : js_error -> scan_state -> Prop) :
  Q tt s -> (forall e, R e s) -> sim s (capture b n) Q R.
Proof.
  intros HQ HR. induction n as [|n IH]; [exact HQ|]. cbn [capture]. apply simulates_bind, sim_serial; [done|].
  apply sim_quiet; [|intros [[cursor epoch]|]|done].
  - intros _ now db _ Hc Hg. by apply capture_start_keeps.
  - apply simulates_bind, sim_network; [intros probe Hn|done]. cbv zeta. apply simulates_bind, sim_serial; [done|].
    apply sim_quiet; [|intros [|]; [exact HQ|exact IH]|done]. intros _ now db _ Hc Hg. apply capture_persist_keeps; [|done].
    destruct (dc_behind_by probe) as [k|]; [|lia]. specialize (Hn k eq_refl). lia.
  - exact HQ.
Qed.

(** A page read by a scan is the one it merges. *)
Lemma push_sim_read epoch c limit (Q : discovery -> scan_state -> Prop) (R : js_error -> scan_state -> Prop) :
  (forall a, Q a (Scanning epoch (page_tail (dc_page a)) (pg_entries (dc_page a)))) -> (forall e, R e (Scanning epoch c [])) ->
  sim (Scanning epoch c []) (network c limit) Q R.
Proof.
  intros HQ HR. unfold network. apply simulates_bind, sim_ask; [same_world|]. intros [|]; [apply HR|].
  apply simulates_perform. intros w r w' [-> [[e ->]|(left & -> & _)]].
  - exists (Scanning epoch c []). split; [by apply step_same|apply HR].
  - exists (Scanning epoch (page_tail (page_of (pw_log w) c limit)) (pg_entries (page_of (pw_log w) c limit))). split.
    + intros Hw Hs. split; [done|]. split; [by apply read_scan|done].
    + exact (HQ (Discovery (page_of (pw_log w) c limit) left)).
Qed.

Lemma sim_merge epoch tail page more (Q : option nat -> scan_state -> Prop) (R : js_error -> scan_state -> Prop) :
  tail = entry_point <$> last page ->
  (forall n, Q (Some n) (Scanning epoch tail [])) -> Q None (Scanning epoch tail page) -> (forall e, R e (Scanning epoch tail page)) ->
  sim (Scanning epoch tail page) (transact b (fun _ generation now => merge b generation now epoch page tail more)) Q R.
Proof.
  intros Htail HQ HN HR. set (s := Scanning epoch tail page).
  apply (sim_transact s _ (fun r => match r with Some _ => Scanning epoch tail [] | None => s end)); [|by intros [n|]|done].
  intros w fresh batch Hw Hs Hf Hb. assert (Hpage : forall e, e ∈ page -> e ∈ pw_log w) by apply Hs.
  eapply ensures_mono; [apply (engine_ensures _ fresh batch (fun db1 r db' =>
    match r with None => db' = db1 | Some _ => merged b g epoch page tail db1 db' end)); [apply Hw|]|].
  - intros db1 _ Hg. apply merge_spec; [apply Hw|done|intros e He; by apply (bs_valid _ _ Hw), Hpage| |].
    { rewrite Htail. destruct (last page) as [e|] eqn:El; [|done]. apply (bs_valid _ _ Hw), Hpage. by apply last_Some_elem_of. }
    intros e e' He He'. by apply (bs_ids _ _ Hw); apply Hpage.
  - intros [d r] db' (db1 & Hcase & Hr). cbn [snd] in *. cbv zeta. set (w1 := with_tables db1 {[fresh; batch]} w).
    assert (H1 : base b w1 /\ evolves b w w1).
    { destruct Hcase as [[-> _]|[Hbad Hrb]]; [|by apply rebuilt_step].
      apply quiet_step; [done|set_solver|done|apply Hw|reflexivity|apply Hw|done]. }
    destruct H1 as [Hw1 He1]. assert (Hs1 : scan_ok b s w1) by (by eapply evolves_scans). destruct r as [n|].
    + destruct (merged_step b w1 (with_tables db' {[fresh; batch]} w) epoch page tail) as (Hw' & Hs' & He');
        [done|set_solver|done|apply good_valid; apply Hr|done..|].
      split; [done|]. split; [done|]. intros t Ht. eapply evolves_scans; [exact He'|]. by eapply evolves_scans.
    + subst db'. split; [done|]. split; [done|]. intros t Ht. by eapply evolves_scans.
Qed.

Lemma begin_covers w st cur floor doc : base b w ->
  loadDelivery g (pw_db w) = Some st -> scanStart st = inr (cur, floor) -> document g (pw_db w) = inr doc ->
  covers b w (later (wd_frontier doc) cur) [].
Proof.
  intros Hw Hst Hsc Hd. assert (Hsc' := Hsc). apply scanStart_floor in Hsc' as (_ & _ & Hcur).
  destruct (later_spec (wd_frontier doc) cur) as (_ & _ & [-> | ->]); [by apply Hw|]. split.
  - intros st0 cur0 floor0 Hst0 Hs0 p ->. left. assert (st0 = st) as -> by congruence. rewrite Hsc in Hs0. by injection Hs0 as <- <-.
  - intros st0 cur0 floor0 Hst0 Hs0 e He Hdir Hlt Hle. assert (st0 = st) as -> by congruence.
    rewrite Hsc in Hs0. injection Hs0 as <- <-. exfalso. apply (point_lt_irrefl floor). eapply point_lt_le_trans; [exact Hlt|].
    destruct cur as [c|]; [|done]. cbn in *. by etrans.
Qed.

(** A scan reads on from the frontier, or from the delivered position. *)
Lemma sim_begin s (Q : option point * option string -> scan_state -> Prop) (R : js_error -> scan_state -> Prop) :
  (forall r, Q r (Scanning (snd r) (fst r) [])) -> (forall e, R e s) ->
  sim s (transact b (fun _ generation _ => scan_begin generation)) Q R.
Proof.
  intros HQ HR. apply (sim_transact s _ (fun r => Scanning (snd r) (fst r) [])); [|done|done]. intros w fresh batch Hw Hs Hf Hb.
  eapply ensures_mono; [apply (engine_ensures _ fresh batch (fun db1 r db' => db' = db1 /\ exists st cur floor doc,
    loadDelivery g db1 = Some st /\ scanStart st = inr (cur, floor) /\ document g db1 = inr doc /\
    r = (later (wd_frontier doc) cur, wd_scan_epoch doc))); [apply Hw|]|].
  - intros db1 _ Hg. apply scan_begin_spec.
  - intros [d r] db' (db1 & Hcase & -> & st & cur & floor & doc & Hst & Hsc & Hd & Er). cbn [snd] in *. subst r. cbv zeta. cbn [fst snd].
    set (w1 := with_tables db1 {[fresh; batch]} w).
    assert (H1 : base b w1 /\ evolves b w w1).
    { destruct Hcase as [[-> _]|[Hbad Hrb]]; [|by apply rebuilt_step].
      apply quiet_step; [done|set_solver|done|apply Hw|reflexivity|apply Hw|done]. }
    destruct H1 as [Hw1 He1]. split; [done|]. split; [|intros t Ht; by eapply evolves_scans].
    split; [intros u Hu; by eapply (bs_epoch _ _ Hw1)|]. split; [by exists st, cur, floor|]. split; [by intros e ?%elem_of_nil|].
    intros doc' Hd' _. cbn [w1 with_tables pw_db] in Hd'. assert (doc' = doc) as -> by congruence.
    by apply (begin_covers w1 st cur floor).
Qed.

(** ** Scans *)

Definition anywhere {A} (_ : A) (_ : scan_state) : Prop := True.

Lemma sim_pages fuel epoch c : sim (Scanning epoch c []) (discovery_pages b fuel epoch c) anywhere anywhere.
Proof.
  revert c. induction fuel as [|fuel IH]; intros c; [done|]. cbn [discovery_pages]. apply simulates_bind, push_sim_read; [intros [pg left]|done].
  cbv zeta. cbn [dc_page]. apply simulates_bind, sim_serial; [done|]. apply sim_merge; [done|intros n| |done].
  - apply simulates_bind, sim_tick; [intros _|done]. destruct (_ || _); [done|apply IH].
  - apply sim_ask; [same_world|done].
Qed.

Lemma sim_scan s fuel : sim s (scanOnce b fuel) anywhere anywhere.
Proof.
  unfold scanOnce. apply simulates_bind, sim_serial; [done|]. apply sim_begin; [|done]. intros [c epoch]. apply sim_pages.
Qed.

Lemma sim_loop s scans pages : sim s (scan_loop b scans pages) anywhere anywhere.
Proof.
  revert s. induction scans as [|scans IH]; intros s; [done|]. cbn [scan_loop]. apply simulates_bind, sim_ask; [same_world|]. intros _.
  apply simulates_bind. eapply simulates_mono; [apply sim_scan|intros _ s' _|done]. apply simulates_bind, sim_ask; [same_world|].
  intros [|]; [apply IH|done].
Qed.

Lemma sim_discover s scans pages : sim s (discover b scans pages) anywhere anywhere.
Proof.
  unfold discover. apply simulates_bind, sim_ask; [same_world|]. intros [|]; [|done]. apply push_sim_finally.
  eapply simulates_mono; [apply sim_loop|..]; intros ? s' _; (apply sim_ask; [same_world|done]).
Qed.

Lemma calls_simulated w p : push_call b w p -> exists s, s = Quiet /\ sim s p anywhere anywhere.
Proof.
  intros Hc. exists Quiet. split; [done|]. destruct Hc.
  - apply simulates_bind. unfold captureCohort. apply simulates_bind, sim_capture; [|done]. by apply sim_summary.
  - apply simulates_bind. by apply sim_summary.
  - apply sim_discover.
  - apply simulates_bind. by apply sim_tick.
  - apply simulates_bind. by apply sim_next.
  - apply simulates_bind. by apply sim_ack.
Qed.

(** ** The environment *)

Lemma stored_entry_step w e :
  ordered (pw_log w ++ [e]) -> entry_valid e -> e_id e ∉ map e_id (pw_log w) -> base b w ->
  let w' := with_log (pw_log w ++ [e]) w in base b w' /\ evolves b w w'.
Proof.
  intros Ho Hv Hid Hb. cbv zeta. set (w' := with_log (pw_log w ++ [e]) w). apply ordered_app in Ho as Ho'. destruct Ho' as (_ & _ & Hsep).
  assert (Hcar : forall c page, covers b w c page -> covers b w' c page).
  { intros c page [C1 C2]. split; cbn.
    - intros st cur floor Hst Hs p Hp. destruct (C1 st cur floor Hst Hs p Hp) as [?|(e' & He' & Hle)]; [by left|]. right. exists e'.
      split; [apply elem_of_app; by left|done].
    - intros st cur floor Hst Hs e' He' Hdir Hlt Hle. apply elem_of_app in He' as [He'| ->%list_elem_of_singleton]; [by eapply C2|].
      exfalso. destruct c as [p|]; [|done]. cbn in Hle. apply (point_lt_irrefl (entry_point e)).
      destruct (C1 st cur floor Hst Hs p eq_refl) as [Hp|(e' & He' & Hp)].
      + eapply point_le_lt_trans; [|exact Hlt]. by etrans.
      + eapply point_le_lt_trans; [exact Hle|]. eapply point_le_lt_trans; [exact Hp|]. apply Hsep; [done|by left]. }
  split.
  - destruct Hb as [B1 B2 B3 B4 B5 B6 B7 B8 B9 B10]. split; cbn; try done.
    + intros x y [Hx| ->%list_elem_of_singleton]%elem_of_app [Hy| ->%list_elem_of_singleton]%elem_of_app E; [by apply B2|..|done];
        exfalso; apply Hid; [rewrite <-E|rewrite E]; by apply list_elem_of_fmap_2.
    + intros x [Hx| ->%list_elem_of_singleton]%elem_of_app; [by apply B3|done].
    + intros id row Hr. destruct (B5 id row Hr) as (x & Hx & ?). exists x. split; [apply elem_of_app; by left|done].
    + intros doc Hd. by apply Hcar, B9.
  - split; cbn; [done|intros x Hx; apply elem_of_app; by left|done|]. intros doc Hd. left. exists doc. split; [done|]. split; [done|].
    intros _. apply Hcar.
Qed.

Lemma command_step w {A} (body : tx A) : command_tx A body -> base b w ->
  let w' := with_tables (snd (commit body (pw_clock w) (pw_db w))) ∅ w in base b w' /\ evolves b w w'.
Proof.
  intros Hc Hb. cbv zeta. destruct (commit_delivers g body (pw_clock w) (pw_db w) Hc) as [Dd Dr Ds].
  set (db' := snd (commit body (pw_clock w) (pw_db w))) in *. set (w' := with_tables db' ∅ w).
  assert (Hdoc : document g db' = document g (pw_db w)) by (unfold document; by rewrite Dd).
  assert (Hsub : forall id row, wake_rows g db' !! id = Some row -> wake_rows g (pw_db w) !! id = Some row).
  { intros id row Hr. destruct (Dr id) as [E|[E _]]; congruence. }
  assert (Hres : resolved b (pw_db w) -> resolved b db').
  { intros (st & cur & floor & Hst & Hs). destruct (Ds st cur floor Hst Hs) as (st' & cur' & floor' & ? & ? & _). by exists st', cur', floor'. }
  assert (Hcar : carries b w w').
  { intros (st & cur & floor & Hst & Hs) c page [C1 C2]. destruct (Ds st cur floor Hst Hs) as (st' & cur' & floor' & Hst' & Hs' & Hle).
    split; cbn.
    - intros st0 cur0 floor0 Hst0 Hs0 p Hp. assert (st0 = st') as -> by congruence. rewrite Hs' in Hs0. injection Hs0 as <- <-.
      destruct (C1 st cur floor Hst Hs p Hp) as [?|?]; [left; by etrans|by right].
    - intros st0 cur0 floor0 Hst0 Hs0 e He Hdir Hlt Hec. assert (st0 = st') as -> by congruence. rewrite Hs' in Hs0. injection Hs0 as <- <-.
      destruct (C2 st cur floor Hst Hs e He Hdir) as [[row Hrow]|?]; [by eapply point_le_lt_trans|done| |by right]. left.
      destruct (Dr (e_id e)) as [E|(_ & row0 & st1 & Hrow0 & Hst1 & Hbeh)]; [rewrite E; eauto|]. exfalso.
      assert (st1 = st') as -> by congruence. apply (Hbeh cur' floor' Hs').
      destruct (bs_rows _ _ Hb _ _ Hrow0) as (e' & He' & Eid & Ec). assert (e' = e) as -> by (by apply (bs_ids _ _ Hb)).
      unfold entry_point in Hlt. by rewrite Ec. }
  split.
  - destruct Hb as [B1 B2 B3 B4 B5 B6 B7 B8 B9 B10]. split; cbn; try done.
    + intros id row Hr. by apply B5, Hsub.
    + destruct B6 as [P1 P2]. split; [rewrite Hdoc; done|]. intros id row Hr. by apply P2, Hsub.
    + rewrite Hdoc. intros doc u Hd He. apply elem_of_union. right. by eapply B7.
    + rewrite Hdoc. intros doc p Hd Hf. by eapply Hres, B8.
    + rewrite Hdoc. intros doc Hd. destruct (wd_frontier doc) as [p|] eqn:Ef; [|by split].
      assert (Hr : resolved b (pw_db w)) by (by eapply B8). rewrite <-Ef. by apply (Hcar Hr), B9.
    + intros Hm. destruct (B10 Hm) as [[doc Hd] Hv]. split; [exists doc; congruence|]. intros id row Hr. by apply Hv, Hsub.
  - split; cbn; [set_solver|done|done|]. rewrite Hdoc. intros doc Hd. left. by exists doc.
Qed.

Lemma damage_step w db : damaged b (pw_db w) db -> base b w ->
  let w' := with_damage db w in base b w' /\ evolves b w w'.
Proof.
  intros (Hr & Hrows & Hdoc & Hold) Hb. cbv zeta. apply quiet_step; [done|set_solver|done|done| | |done].
  - split; [done|done|]. cbn. intros doc' Hd. destruct Hdoc as [E|[e E]]; [|congruence]. exists doc'. split; [congruence|done].
  - split; cbn.
    + intros doc Hd. destruct Hdoc as [E|[e E]]; [|congruence]. apply (wp_document _ _ (bs_printed _ _ Hb)). congruence.
    + intros id row Hrow Hv. destruct (Hold id row Hrow) as [Hin|Hbad]; [|congruence].
      exact (wp_rows _ _ (bs_printed _ _ Hb) id row Hin Hv).
Qed.

Lemma env_step w w' : push_env b w w' -> base b w -> base b w' /\ evolves b w w'.
Proof.
  intros [w0 e Ho Hv Hid|w0 t Ht|w0|w0 A body Hc|w0 db Hd] Hb.
  - by apply stored_entry_step.
  - split; [by apply (same_base b w0)|by apply same_evolves].
  - split; [apply (same_base b w0); try done; apply Hb|by apply same_evolves].
  - by apply command_step.
  - by apply damage_step.
Qed.

(** ** Reachable worlds *)

Definition push_inv (ss : list scan_state) (w : push_world) : Prop := base b w /\ Forall (fun s => scan_ok b s w) ss.

Lemma inv_moves ss w ss' w' :
  rtc (abstract_moves (scan_step b) (push_env b) (fun _ s => s = Quiet)) (ss, w) (ss', w') -> push_inv ss w -> push_inv ss' w'.
Proof.
  remember (ss, w) as c eqn:Ec. remember (ss', w') as c' eqn:Ec'. intros Hr. revert ss w Ec.
  induction Hr as [c|c c1 c2 Hst Hr IH]; intros ss w -> [Hw Hs]; [by simplify_eq|]. destruct c1 as [ss1 w1]. apply (IH Ec' ss1 w1 eq_refl).
  inversion Hst as [ss0 i s s' w0 w2 Hi Hstep|ss0 s w0 Hq|ss0 w0 w2 Henv]; subst; clear Hst.
  - rewrite Forall_forall in Hs. assert (Hok : scan_ok b s w) by (apply Hs; by eapply list_elem_of_lookup_2).
    destruct (Hstep Hw Hok) as (Hw1 & Hs1 & Hall). split; [done|]. apply Forall_insert; [|done]. rewrite Forall_forall. auto.
  - split; [done|]. apply Forall_app. by split; [|constructor].
  - destruct (env_step _ _ Henv Hw) as [Hw1 He]. split; [done|]. eapply Forall_impl; [exact Hs|]. intros s. by apply evolves_scans.
Qed.

(** A world the listener starts in: no wake state of this generation yet. *)
Record fresh_push (w : push_world) : Prop := {
  fp_state : t_wake_state (pw_db w) !! g = None;
  fp_rows : wake_rows g (pw_db w) = ∅;
  fp_log : ordered (pw_log w);
  fp_ids : NoDup (map e_id (pw_log w));
  fp_valid : Forall entry_valid (pw_log w);
  fp_clock : clock_ok (pw_clock w)
}.

Lemma fresh_base w : fresh_push w -> base b w.
Proof.
  intros [Hs Hr Ho Hi Hv Hc]. assert (Hd : document g (pw_db w) = inr emptyDocument) by (unfold document; by rewrite Hs).
  split; try done; rewrite ?Hd, ?Hr.
  - intros e e' He He' E. apply list_elem_of_lookup in He as [i He]. apply list_elem_of_lookup in He' as [j He'].
    assert (i = j) as ->; [|congruence]. eapply (NoDup_lookup _ i j (e_id e) Hi); rewrite list_lookup_fmap; [by rewrite He|by rewrite He', E].
  - by apply Forall_forall.
  - intros id row ?%lookup_empty_Some. done.
  - split; rewrite ?Hd, ?Hr; [by intros doc [= <-]|by intros id row ?%lookup_empty_Some].
  - by intros doc u [= <-].
  - by intros doc p [= <-].
  - intros doc [= <-]. by split.
  - intros _. split; [eauto|]. rewrite Hr. by intros id row ?%lookup_empty_Some.
Qed.

Definition push_moves := pool_moves push_act (push_call b) (push_env b).

Lemma reachable_base w0 ps w : fresh_push w0 -> rtc push_moves ([], w0) (ps, w) -> base b w.
Proof.
  intros Hf Hr. destruct (pool_simulation push_act (scan_step b) (push_call b) (push_env b) (fun _ s => s = Quiet) [] w0 ps w []) as (ss & Hm & _);
    [apply calls_simulated|by constructor|done|].
  apply (inv_moves [] w0 ss w Hm). split; [by apply fresh_base|by constructor].
Qed.
End Safety.
