(* ===== verification/PushSpec.v ===== *)
(** * A scan ends, with every reply recorded

    While no operation fails and nobody else writes, a scan with fuel for the
    log's pages ends, and every direct reply beyond the delivered floor has its
    row. *)

From S2P Require Import Prelude JsDate JsonText Effects RepDb RepCore RepRead RepDeliveryFacts RepPush PushDocument PushFacts PushOutside PushWorld PushSchedule PushSafety.

Open Scope Z_scope.
Open Scope prog_scope.

Section Scan.
Context `{RepEnv} `{JsDate}.
Variable b : binding.

Local Abbreviation g := (bindingFingerprint b).

(** No operation fails. *)
Definition calm_act (X : Type) (op : push_op X) (w : push_world) (x : X) (w' : push_world) : Prop :=
  push_act X op w x w' /\
  match op in push_op X return X -> Prop with
  | PushTx _ => fun r => exists a, r = inr a
  | PushRead _ _ => fun r => exists a, r = inr a
  | EmitWake _ => fun r => r = inr tt
  | _ => fun _ => True
  end x.

(** The engine runs alone on valid state of the current binding. *)
Record calm (w : push_world) : Prop := {
  cm_base : base b w;
  cm_resolved : resolved b (pw_db w);
  cm_valid : wake_valid g (pw_db w);
  cm_running : pw_stopped w = false;
  cm_current : forall now db, t_bindings db = t_bindings (pw_db w) -> requireCurrentGeneration b now db = (inr g, db)
}.

Lemma calm_good w : calm w -> state_good g (pw_db w).
Proof. intros Hc. exact (printed_good _ _ (bs_printed _ _ (cm_base _ Hc)) (cm_valid _ Hc)). Qed.

(** Identifiers do not run out before [budget] of them are drawn. *)
Variable budget : nat.
Hypothesis mints : forall used : gset string, (size used <= budget)%nat -> exists u, u ∉ used /\ uuid u = true.

(** The identifiers drawn so far. *)
Definition drawn (w : push_world) : nat := size (pw_used w).

Lemma drawn_tables db fresh batch w : (drawn (with_tables db {[fresh; batch]} w) <= 2 + drawn w)%nat.
Proof.
  unfold drawn. cbn. rewrite size_union_alt. assert (Hs : (size (pw_used w ∖ {[fresh; batch]}) <= size (pw_used w))%nat).
  { apply subseteq_size. set_solver. }
  assert (Ht : (size ({[fresh; batch]} : gset string) <= 2)%nat).
  { rewrite size_union_alt, size_singleton. assert ((size ({[batch]} ∖ {[fresh]} : gset string) <= size ({[batch]} : gset string))%nat)
      by (apply subseteq_size; set_solver). rewrite size_singleton in *. lia. }
  lia.
Qed.

Lemma engine_succeeds {A} (body : string -> string -> Z -> tx A) fresh batch w a db' : calm w ->
  body batch g (pw_clock w) (pw_clock w) (pw_db w) = (inr a, db') ->
  commit (engine_tx b body fresh batch) (pw_clock w) (pw_db w) = (inr (None, a), db').
Proof.
  intros Hc Hbody. apply (proj2 (commit_ok _ _ _ _ _)). unfold engine_tx. unfold tx_bind at 1. rewrite (cm_current _ Hc _ (pw_db w) eq_refl).
  unfold tx_bind at 1. rewrite discard_valid by exact (cm_valid _ Hc). unfold tx_bind at 1, tx_now. unfold tx_bind. by rewrite Hbody.
Qed.

Lemma will_transact {A} (body : string -> string -> Z -> tx A) w (Q : outcome A -> push_world -> Prop) : calm w -> (2 + drawn w <= budget)%nat ->
  (forall batch, uuid batch = true -> exists a db', body batch g (pw_clock w) (pw_clock w) (pw_db w) = (inr a, db') /\
     forall fresh, fresh ∉ pw_used w -> Q (Done a) (with_tables db' {[fresh; batch]} w)) ->
  will calm_act (transact b body) w Q.
Proof.
  intros Hc Hn Hbody. unfold transact. apply will_bind, will_perform.
  - destruct (mints (pw_used w)) as (fresh & Hf & Uf); [unfold drawn in *; lia|].
    destruct (mints ({[fresh]} ∪ pw_used w)) as (batch & Hb & Ub); [rewrite size_union, size_singleton by set_solver; unfold drawn in *; lia|].
    destruct (Hbody batch Ub) as (a & db' & E & _). pose proof (engine_succeeds body fresh batch w a db' Hc E) as Ec.
    exists (inr (None, a)), (with_tables db' {[fresh; batch]} w). split; [|eauto]. right. exists fresh, batch.
    split; [done|]. split; [set_solver|]. split; [set_solver|]. split; [done|]. split; [done|]. by rewrite Ec.
  - intros r w' [[[[e ->] _]|Ha] [a0 Hr]]; [done|]. destruct Ha as (fresh & batch & Hf & Hb & _ & _ & Ub & -> & ->).
    destruct (Hbody batch Ub) as (a & db' & E & HQ). rewrite (engine_succeeds body fresh batch w a db' Hc E). cbn. by apply HQ.
Qed.

Lemma will_same {X} (op : push_op X) w (Q : outcome X -> push_world -> Prop) x :
  calm_act X op w x w -> (forall y w', calm_act X op w y w' -> y = x /\ w' = w) -> Q (Done x) w -> will calm_act (ask op) w Q.
Proof. intros Hx Hall HQ. apply will_ask; [by exists x, w|]. intros y w' Ha. by destruct (Hall y w' Ha) as [-> ->]. Qed.

Lemma will_stopped w (Q : outcome bool -> push_world -> Prop) : pw_stopped w = false -> Q (Done false) w -> will calm_act (ask Stopped) w Q.
Proof.
  intros Hs HQ. apply (will_same Stopped w Q false); [by repeat split|intros y w' [[-> ->] _]; by rewrite Hs|done].
Qed.

Lemma will_serial {A} (p : push A) w (Q : outcome A -> push_world -> Prop) :
  pw_stopped w = false -> pw_busy w = false ->
  will calm_act p (with_busy true w) (fun r w' => Q r (with_busy false w')) -> will calm_act (serial p) w Q.
Proof.
  intros Hs Hi Hp. unfold serial. apply will_bind, will_perform.
  - exists (inr tt), (with_busy true w). split; [|done]. cbn. by rewrite Hs.
  - intros x w' [Ha _]. cbn in Ha. rewrite Hs in Ha. destruct Ha as (_ & -> & ->). apply will_finally.
    eapply will_mono; [exact Hp|]. intros r w' HQ. apply will_ask; [by exists tt, (with_busy false w')|].
    intros [] w2 [-> _]. exact HQ.
Qed.

(** ** A tick between pages *)

(** The same wake state up to quiet transitions. *)
Record steady (w w' : push_world) : Prop := {
  st_log : pw_log w' = pw_log w;
  st_evolves : evolves b w w';
  st_epoch : forall doc, document g (pw_db w) = inr doc ->
    exists doc', document g (pw_db w') = inr doc' /\ wd_scan_epoch doc' = wd_scan_epoch doc
}.

Lemma steady_trans w w1 w2 : steady w w1 -> steady w1 w2 -> steady w w2.
Proof.
  intros [L1 E1 D1] [L2 E2 D2]. split; [congruence|by eapply evolves_trans|].
  intros doc Hd. destruct (D1 doc Hd) as (d1 & Hd1 & Ed1). destruct (D2 d1 Hd1) as (d2 & Hd2 & Ed2). exists d2. split; congruence.
Qed.

(** Memory of the engine that the tables do not see. *)
Definition same_tables (w w' : push_world) : Prop :=
  pw_db w' = pw_db w /\ pw_log w' = pw_log w /\ pw_used w' = pw_used w /\ pw_clock w' = pw_clock w /\
  pw_stopped w' = pw_stopped w /\ pw_damaged w' = pw_damaged w.

Lemma steady_same w w' : same_tables w w' -> steady w w'.
Proof. intros (Hd & Hl & Hu & _). split; [done|by apply same_evolves|]. rewrite Hd. eauto. Qed.

Lemma calm_same w w' : same_tables w w' -> calm w -> calm w'.
Proof.
  intros (Hd & Hl & Hu & Hc & Hs & Hm) [B R V S C]. split; rewrite ?Hd, ?Hs; try done.
  apply (same_base b w); try done. rewrite Hc. apply B.
Qed.

(** A transaction on the tables of a calm world. *)
Lemma calm_tables w fresh batch db' : calm w -> base b (with_tables db' {[fresh; batch]} w) ->
  evolves b w (with_tables db' {[fresh; batch]} w) -> wake_valid g db' -> t_bindings db' = t_bindings (pw_db w) ->
  calm (with_tables db' {[fresh; batch]} w).
Proof.
  intros Hc Hb He Hv Ht. split; [done| |done|apply Hc|].
  - apply He, Hc.
  - intros now db E. apply (cm_current _ Hc). by rewrite E.
Qed.

Lemma calm_keeps w fresh batch db' : calm w -> keeps g (pw_db w) db' ->
  calm (with_tables db' {[fresh; batch]} w) /\ steady w (with_tables db' {[fresh; batch]} w).
Proof.
  intros Hc [Hq Hg Hd]. set (w' := with_tables db' {[fresh; batch]} w).
  destruct (quiet_step b w w') as [Hb He]; [done|set_solver|done|intros _; by apply good_valid|done|by apply good_printed|apply Hc|].
  split; [apply calm_tables; [done..|by apply good_valid|apply Hq]|]. split; [done|done|]. intros doc Hdoc.
  destruct Hd as [doc' Hd']. exists doc'. split; [done|].
  destruct (q_document _ _ _ Hq doc' Hd') as (d0 & Hd0 & _ & E). cbn in *. congruence.
Qed.

(** A transaction whose body succeeds and keeps the state. *)
Lemma will_keeps {A} (body : string -> string -> Z -> tx A) w : calm w -> (2 + drawn w <= budget)%nat ->
  (forall batch, uuid batch = true -> exists a db', body batch g (pw_clock w) (pw_clock w) (pw_db w) = (inr a, db') /\ keeps g (pw_db w) db') ->
  will calm_act (transact b body) w (fun r w' => (exists a, r = Done a) /\ calm w' /\ steady w w' /\ (drawn w' <= 2 + drawn w)%nat).
Proof.
  intros Hc Hn Hbody. apply will_transact; [done|done|]. intros batch Ub. destruct (Hbody batch Ub) as (a & db' & E & Hk).
  exists a, db'. split; [done|]. intros fresh _. split; [eauto|].
  destruct (calm_keeps w fresh batch db' Hc Hk). split; [done|]. split; [done|apply drawn_tables].
Qed.

Lemma will_tick w : calm w -> pw_busy w = false -> (2 + drawn w <= budget)%nat ->
  will calm_act (tick b) w (fun r w' =>
    (exists o, r = Done o) /\ calm w' /\ pw_busy w' = false /\ steady w w' /\ (drawn w' <= 2 + drawn w)%nat).
Proof.
  intros Hc Hi Hn. unfold tick. apply will_bind, will_stopped; [apply Hc|]. apply will_serial; [apply Hc|done|].
  set (wb := with_busy true w). assert (Hcb : calm wb) by (by apply (calm_same w)). apply will_bind. eapply will_mono; [apply will_keeps|].
  - done.
  - done.
  - intros batch Ub. destruct (wv_document _ _ (cm_valid _ Hcb)) as [doc Hd].
    assert (Hk := tick_keeps batch g (pw_clock wb) (pw_clock wb) (pw_db wb) Ub (bs_clock _ _ (cm_base _ Hcb)) (calm_good wb Hcb)).
    unfold ensures in Hk. rewrite (tick_run batch g _ _ _ doc Hd) in Hk |- *. cbv zeta in *.
    destruct (if blocked _ _ then _ else _); eauto.
  - intros r w1 ([o ->] & Hc1 & Hs1 & Hn1).
    assert (Hend : forall w2, same_tables w1 w2 -> calm (with_busy false w2) /\ pw_busy (with_busy false w2) = false /\ steady w (with_busy false w2) /\
      (drawn (with_busy false w2) <= 2 + drawn w)%nat).
    { intros w2 Hst. split; [apply (calm_same w1); done|]. split; [done|].
      split; [|destruct Hst as (_ & _ & Hu & _); unfold drawn in *; cbn in *; by rewrite Hu]. eapply steady_trans; [by apply (steady_same w wb)|].
      eapply steady_trans; [exact Hs1|]. by apply steady_same. }
    destruct o as [wake|]; cbn [will]; [|split; [eauto|by apply Hend]].
    apply will_bind, will_perform; [exists (inr tt); eexists; split; [right; by split|done]|].
    intros x w2 [Ha ->]. destruct Ha as [[_ [e Hx]]|[_ ->]]; [done|]. cbn [will]. split; [eauto|by apply Hend].
Qed.

(** ** Pages *)

Lemma merge_succeeds w epoch page tail more batch : calm w -> scan_ok b (Scanning epoch tail page) w ->
  tail = entry_point <$> last page -> (exists doc, document g (pw_db w) = inr doc /\ wd_scan_epoch doc = epoch) -> uuid batch = true ->
  exists n db', merge b g (pw_clock w) epoch page tail more (pw_clock w) (pw_db w) = (inr (Some n), db') /\
    merged b g epoch page tail (pw_db w) db'.
Proof.
  intros Hc Hs Htail (doc & Hd & Hep) Ub. assert (Hpage : forall e, e ∈ page -> e ∈ pw_log w) by apply Hs.
  assert (Hb := cm_base _ Hc).
  assert (Hm : ensures (merge b g (pw_clock w) epoch page tail more) (fun r db' =>
    match r with None => db' = pw_db w | Some _ => merged b g epoch page tail (pw_db w) db' end) (pw_clock w) (pw_db w)).
  { apply merge_spec; [apply Hb|by apply calm_good|intros e He; by apply (bs_valid _ _ Hb), Hpage| |].
    - rewrite Htail. destruct (last page) as [e|] eqn:El; [|done]. apply (bs_valid _ _ Hb), Hpage. by apply last_Some_elem_of.
    - intros e e' He He'. by apply (bs_ids _ _ Hb); apply Hpage. }
  destruct (cm_resolved _ Hc) as (st & cur & floor & Hst & Hsc). unfold ensures in Hm.
  enough (Hsuc : exists n db', merge b g (pw_clock w) epoch page tail more (pw_clock w) (pw_db w) = (inr (Some n), db')).
  { destruct Hsuc as (n & db' & E). rewrite E in Hm. eauto. }
  unfold merge, delivery_of. unfold tx_bind at 1 2, tx_read at 1. rewrite Hst. unfold tx_ret at 1. unfold tx_bind at 1. rewrite loadDocument_eq, Hd.
  rewrite bool_decide_eq_true_2 by done. cbn [negb]. unfold tx_bind at 1. rewrite Hsc. unfold tx_of, tx_ret at 1. cbn [snd].
  unfold tx_bind at 1, tx_read at 1. destruct (insert_missing _ _ _ _ _) as [m inserted].
  unfold tx_bind, write_rows, tx_write, tx_read, saveDocument, tx_write, tx_ret. eauto.
Qed.

(** Every reply beyond the floor has its row. *)
Definition all_recorded (w : push_world) : Prop :=
  forall st cur floor, loadDelivery g (pw_db w) = Some st -> scanStart st = inr (cur, floor) ->
  forall e, e ∈ pw_log w -> direct b e -> point_lt floor (entry_point e) -> is_Some (wake_rows g (pw_db w) !! e_id e).

Lemma covers_all w c : (forall e, e ∈ pw_log w -> opt_le (Some (entry_point e)) c) -> covers b w c [] -> all_recorded w.
Proof.
  intros Hall [_ C2] st cur floor Hst Hs e He Hdir Hlt. destruct (C2 st cur floor Hst Hs e He Hdir Hlt (Hall e He)) as [?|Hin]; [done|].
  by apply elem_of_nil in Hin.
Qed.

Lemma covers_rest w c : beyond c (pw_log w) = [] -> covers b w c [] -> all_recorded w.
Proof.
  intros Hn. apply covers_all. intros e He. destruct c as [p|]; cbn.
  - apply point_not_lt. intros Hlt. assert (Hin : e ∈ beyond (Some p) (pw_log w)) by (by apply elem_beyond). rewrite Hn in Hin. by apply elem_of_nil in Hin.
  - assert (Hin : e ∈ beyond None (pw_log w)) by (by apply elem_beyond). rewrite Hn in Hin. by apply elem_of_nil in Hin.
Qed.

(** The epoch the scan reads under is the document's. *)
Definition scanning (epoch : option string) (c : option point) (w : push_world) : Prop :=
  scan_ok b (Scanning epoch c []) w /\ exists doc, document g (pw_db w) = inr doc /\ wd_scan_epoch doc = epoch.

Lemma scanning_covers epoch c w : scanning epoch c w -> covers b w c [].
Proof. intros [(_ & _ & _ & Hcov) (doc & Hd & He)]. by apply (Hcov doc). Qed.

Lemma scanning_steady epoch c w w' : steady w w' -> scanning epoch c w -> scanning epoch c w'.
Proof.
  intros Hst [Hs (doc & Hd & He)]. split; [eapply evolves_scans; [apply Hst|done]|].
  destruct (st_epoch _ _ Hst doc Hd) as (doc' & Hd' & He'). exists doc'. split; [done|congruence].
Qed.

Lemma will_pages fuel epoch c w log : calm w -> pw_busy w = false -> scanning epoch c w -> pw_log w = log ->
  Z.of_nat (length (beyond c log)) < DISCOVERY_PAGE * Z.of_nat fuel -> (4 * fuel + drawn w <= budget)%nat ->
  will calm_act (discovery_pages b fuel epoch c) w (fun r w' => r = Done tt /\ pw_log w' = log /\ all_recorded w').
Proof.
  revert c w. induction fuel as [|fuel IH]; intros c w Hc Hi Hs Hlog Hfuel Hn; [unfold DISCOVERY_PAGE in *; lia|].
  cbn [discovery_pages]. unfold network. apply will_bind, will_bind, will_stopped; [apply Hc|]. apply will_perform.
  { exists (inr (Discovery (page_of (pw_log w) c DISCOVERY_PAGE) None)), w. split; [|eauto]. split; [done|]. right. exists None. auto. }
  intros r w' [[-> Hr] [a ->]]. destruct Hr as [[e Hx]|(left & [= ->] & _)]; [done|]. cbv zeta. cbn [dc_page].
  set (pg := page_of (pw_log w) c DISCOVERY_PAGE). set (tail := page_tail pg).
  assert (Hread : scan_ok b (Scanning epoch tail (pg_entries pg)) w) by (apply read_scan; [apply Hc|apply Hs]).
  apply will_bind, will_serial; [apply Hc|done|]. set (wb := with_busy true w). assert (Hcb : calm wb) by (by apply (calm_same w)).
  assert (Hsb : scan_ok b (Scanning epoch tail (pg_entries pg)) wb).
  { eapply evolves_scans; [|exact Hread]. by apply (st_evolves _ _ (steady_same w wb ltac:(done))). }
  apply will_transact; [done|unfold drawn in *; cbn; lia|]. intros batch Ub.
  destruct (merge_succeeds wb epoch (pg_entries pg) tail (has_more pg) batch) as (n & db' & E & Hm); [done..|apply Hs|done|].
  exists (Some n), db'. split; [exact E|]. intros fresh Hf. cbn [will].
  set (w1 := with_tables db' {[fresh; batch]} wb). set (w2 := with_busy false w1).
  assert (Hv : wake_valid g db') by (apply good_valid; apply Hm).
  destruct (merged_step b wb w1 epoch (pg_entries pg) tail) as (Hb1 & Hs1 & He1); [done|set_solver|done|done|done|apply Hcb|done|].
  assert (Hc1 : calm w1) by (apply calm_tables; [done..|apply Hm]).
  assert (Hc2 : calm w2) by (by apply (calm_same w1)).
  assert (Hs2 : scanning epoch tail w2).
  { split; [eapply evolves_scans; [|exact Hs1]; by apply (st_evolves _ _ (steady_same w1 w2 ltac:(done)))|].
    destruct (mg_readable _ _ _ _ _ _ _ Hm) as [doc' Hd']. exists doc'. split; [done|].
    destruct (mg_document _ _ _ _ _ _ _ Hm) as (d0 & _ & _ & Hdd). by apply (Hdd doc'). }
  assert (Hn2 : (drawn w2 <= 2 + drawn w)%nat) by apply (drawn_tables db' fresh batch wb).
  apply will_bind. eapply will_mono; [apply will_tick; [done|done|lia]|]. intros r w3 ([o ->] & Hc3 & Hi3 & Hst3 & Hn3).
  assert (Hs3 : scanning epoch tail w3) by (by eapply scanning_steady).
  assert (Hl3 : pw_log w3 = log) by (rewrite (st_log _ _ Hst3); exact Hlog).
  assert (Hrest : tail <> None -> beyond tail log = drop (Z.to_nat DISCOVERY_PAGE) (beyond c log)).
  { subst tail. unfold page_tail. destruct (last (pg_entries pg)) as [e|] eqn:El; [|done]. intros _. cbn. rewrite <-Hlog.
    apply (beyond_tail c); [apply Hc|exact El]. }
  assert (Hnil : tail = None -> beyond c log = []).
  { subst tail. unfold page_tail. destruct (last (pg_entries pg)) as [e|] eqn:El; [done|]. intros _.
    apply last_None in El. cbn in El. rewrite Hlog in El. destruct (beyond c log); [done|]. by vm_compute (Z.to_nat DISCOVERY_PAGE) in El. }
  destruct (has_more pg) eqn:Emore; unfold has_more, pg in Emore;
    cbn [page_of pg_has_more default from_option id] in Emore; rewrite Hlog in Emore; cbn [negb orb].
  - apply Nat.ltb_lt in Emore. destruct (bool_decide_reflect (tail = None)) as [Hno|Hno].
    + exfalso. rewrite (Hnil Hno) in Emore. cbn in Emore. lia.
    + apply IH; [done|done|done|done| |lia]. rewrite (Hrest Hno), length_drop. unfold DISCOVERY_PAGE in *. lia.
  - cbn [will]. split; [done|]. split; [done|]. destruct (decide (tail = None)) as [Hno|Hno].
    + (* nothing beyond [c] *)
      assert (Hcov : covers b w3 c []).
      { apply (scanning_covers epoch). eapply scanning_steady; [exact Hst3|]. split.
        - eapply evolves_scans; [|apply Hs]. eapply evolves_trans; [by apply (st_evolves _ _ (steady_same w wb ltac:(done)))|].
          eapply evolves_trans; [exact He1|]. by apply (st_evolves _ _ (steady_same w1 w2 ltac:(done))).
        - apply Hs2. }
      apply (covers_rest w3 c); [|done]. rewrite Hl3. by apply Hnil.
    + apply (covers_rest w3 tail); [|by eapply scanning_covers]. rewrite Hl3, (Hrest Hno). apply drop_ge.
      by apply Nat.ltb_ge in Emore.
Qed.

Lemma will_scan fuel w : calm w -> pw_busy w = false ->
  Z.of_nat (length (pw_log w)) < DISCOVERY_PAGE * Z.of_nat fuel -> (2 + 4 * fuel + drawn w <= budget)%nat ->
  will calm_act (scanOnce b fuel) w (fun r w' => r = Done tt /\ pw_log w' = pw_log w /\ all_recorded w').
Proof.
  intros Hc Hi Hfuel Hn. unfold scanOnce. apply will_bind, will_serial; [apply Hc|done|].
  set (wb := with_busy true w). assert (Hcb : calm wb) by (by apply (calm_same w)).
  destruct (cm_resolved _ Hcb) as (st & cur & floor & Hst & Hsc). destruct (wv_document _ _ (cm_valid _ Hcb)) as [doc Hd].
  set (start := (later (wd_frontier doc) cur, wd_scan_epoch doc)).
  assert (Hrun : forall now, scan_begin g now (pw_db wb) = (inr start, pw_db wb)).
  { intros now. unfold scan_begin, delivery_of. unfold tx_bind at 1 2, tx_read at 1. rewrite Hst. unfold tx_ret at 1. unfold tx_bind at 1.
    rewrite loadDocument_eq, Hd. unfold tx_bind. by rewrite Hsc. }
  apply will_transact; [done|unfold drawn in *; cbn; lia|]. intros batch Ub. exists start, (pw_db wb). split; [apply Hrun|]. intros fresh Hf. cbn [will].
  set (w1 := with_busy false (with_tables (pw_db wb) {[fresh; batch]} wb)).
  destruct (calm_keeps wb fresh batch (pw_db wb) Hcb) as [Hc1 Hs1]; [eapply kept_same; [by apply calm_good|exact Hd]|].
  assert (Hc2 : calm w1) by (by apply (calm_same (with_tables (pw_db wb) {[fresh; batch]} wb))).
  apply will_pages; [done|done| |done| |].
  - split; [|by exists doc].
    split; [intros u Hu; by eapply (bs_epoch _ _ (cm_base _ Hc2))|]. split; [apply Hc2|]. split; [by intros e ?%elem_of_nil|].
    intros doc' Hd' _. cbn in Hd'. assert (doc' = doc) as -> by (cbn in Hd; congruence).
    by apply (begin_covers b w1 st cur floor doc); [apply Hc2|..].
  - cbn [start fst]. eapply Z.le_lt_trans; [|exact Hfuel]. unfold beyond. apply inj_le, List.filter_length_le.
  - pose proof (drawn_tables (pw_db wb) fresh batch wb) as Hd1. change (drawn w1) with (drawn (with_tables (pw_db wb) {[fresh; batch]} wb)).
    change (drawn wb) with (drawn w) in Hd1. lia.
Qed.
End Scan.

(** * What the push engine promises

    Discovery misses no direct reply; a scan ends with all of them recorded; the
    scheduler sleeps exactly until there is work; what is recorded is announced
    within a day; a refused wake is not counted. *)

Section Spec.
Context `{RepEnv} `{JsDate}.

(** ** The instants after a tick *)

(** No instant of the wake state lies beyond [limit]. *)
Record within (limit : Z) (g : string) (db : rep_db) : Prop := {
  wi_document : forall doc, document g db = inr doc ->
    in_option (fun x => x <= limit) (deadline_of doc) /\ in_option (fun x => x <= limit) (retry_of doc) /\
    in_option (fun x => x <= limit) (debounce_of doc);
  wi_rows : forall id row, wake_rows g db !! id = Some row -> time_of (wk_next_at row) <= limit
}.

#[local] Arguments to_iso : simpl never.
#[local] Arguments time_of : simpl never.
#[local] Arguments clamp_to : simpl never.

Lemma tick_document_within t doc : clock_ok t -> printed_document doc ->
  let doc' := tick_document t doc in let limit := t + MAX_FUTURE_MS in
  in_option (fun x => x <= limit) (deadline_of doc') /\ in_option (fun x => x <= limit) (retry_of doc') /\
  in_option (fun x => x <= limit) (debounce_of doc').
Proof.
  intros Hc (Po & Pr & Pd). cbv zeta. destruct (clock_range t Hc) as [_ R2].
  assert (Hcl : forall x, in_option printed x -> in_option (fun y => y <= t + MAX_FUTURE_MS) (time_of <$> (clamp_to (to_iso (t + MAX_FUTURE_MS)) <$> x))).
  { intros [s|]; cbn; [|done]. intros Hp. rewrite clamp_time by done. lia. }
  unfold tick_document, expire. destruct (by_instant _ _); unfold deadline_of, retry_of, debounce_of; cbn.
  - split; [done|]. split; by apply Hcl.
  - split; [|split; by apply Hcl]. destruct (wd_outstanding doc) as [o|]; [|done]. cbn in *. rewrite clamp_time by done. lia.
Qed.

Lemma clamped_within t g db : clock_ok t -> state_good g db ->
  forall id row, wake_rows g (clamped_db g t db) !! id = Some row -> time_of (wk_next_at row) <= t + MAX_FUTURE_MS.
Proof.
  intros Hc Hg id row. destruct (clock_range t Hc) as [_ R2]. unfold clamped_db. rewrite rows_with, lookup_fmap.
  intros (row0 & Hr & ->)%fmap_Some. cbn. rewrite clamp_time; [lia|done|]. exact (proj2 (sg_rows _ _ Hg id row0 Hr)).
Qed.

Lemma tick_within batch g t now db : clock_ok t -> state_good g db ->
  ensures (tick_tx batch g t) (fun _ db' => within (t + MAX_FUTURE_MS) g db') now db.
Proof.
  intros Hc Hg. unfold ensures. destruct (document g db) as [e|doc] eqn:Hd.
  { unfold tick_tx, tx_bind at 1. by rewrite loadDocument_eq, Hd. }
  assert (Hp := sg_document _ _ Hg doc Hd). destruct (clock_range t Hc) as [R1 R2].
  destruct (tick_document_within t doc Hc Hp) as (W1 & W2 & W3). assert (Hrows := clamped_within t g db Hc Hg).
  rewrite (tick_run batch g t now db doc Hd). cbv zeta. destruct (if blocked _ _ then _ else _) as [|kv due].
  - split; [intros d ->%document_saved_is; done|done].
  - split.
    + intros d ->%document_saved_is. unfold emitted_document. cbv zeta.
      assert (Hdl : time_of (to_iso (t + WAKE_ACK_DEADLINE_MS)) <= t + MAX_FUTURE_MS).
      { rewrite time_of_iso; unfold WAKE_ACK_DEADLINE_MS, MAX_FUTURE_MS in *; lia. }
      match goal with |- context [if ?c then _ else _] => destruct c end; (split; [exact Hdl|]; split; [|done]); [done|exact W2].
    + rewrite rows_saved, rows_with. apply update_rows_closed; [|exact Hrows]. intros _ r _.
      cbn [attempted wk_next_at].
      pose proof (rewake_bounds (wk_attempts r + 1)) as Hbk. unfold attempted. cbn [wk_next_at]. rewrite time_of_iso; unfold MAX_FUTURE_MS in *; lia.
Qed.

Lemma emitted_facts t batch due doc :
  wd_outstanding (emitted_document t batch due doc) =
    Some (Outstanding batch (map fst due) (to_iso (t + WAKE_ACK_DEADLINE_MS)) (batch_reason doc due)) /\
  rf_count (wd_refusals (emitted_document t batch due doc)) = rf_count (wd_refusals doc).
Proof. unfold emitted_document. cbv zeta. by match goal with |- context [if ?c then _ else _] => destruct c end. Qed.

(** ** Properties *)

(** C6. Discovery misses nothing.  Whatever the engine's calls, the
    representative's tools, a growing log, clock changes and damage to the wake
    state do in between: every direct Coordinator reply that is beyond the
    delivered floor and not beyond the stored discovery frontier has a row in
    [wake_replies], so no reply the frontier has passed can fail to be announced. *)
Theorem discovery_misses_nothing b w0 ps w doc st cur floor e :
  fresh_push b w0 -> rtc (push_moves b) ([], w0) (ps, w) ->
  document (bindingFingerprint b) (pw_db w) = inr doc ->
  loadDelivery (bindingFingerprint b) (pw_db w) = Some st -> scanStart st = inr (cur, floor) ->
  e ∈ pw_log w -> isAddressedCoordinatorEntry b e = Some "direct" -> point_lt floor (entry_point e) ->
  opt_le (Some (entry_point e)) (wd_frontier doc) ->
  is_Some (wake_rows (bindingFingerprint b) (pw_db w) !! e_id e).
Proof.
  intros Hf Hr Hd Hst Hs He Hdir Hlt Hle. assert (Hb := reachable_base b w0 ps w Hf Hr).
  destruct (cv_recorded _ _ _ _ (bs_frontier _ _ Hb doc Hd) st cur floor Hst Hs e He Hdir Hlt Hle) as [?|Hin]; [done|].
  by apply elem_of_nil in Hin.
Qed.

(** C27. The engine never discards its own work: as long as nothing outside it
    damages the wake state, every state it reaches is valid, and the recovery at
    the head of each transaction leaves the tables as they are. *)
Theorem wake_state_survives b w0 ps w fresh now :
  fresh_push b w0 -> rtc (push_moves b) ([], w0) (ps, w) -> pw_damaged w = false ->
  discardInvalidWakeState fresh (bindingFingerprint b) now (pw_db w) = (inr None, pw_db w).
Proof. intros Hf Hr Hm. apply discard_valid. by apply (reachable_base b w0 ps w Hf Hr). Qed.

(** C28. A scan ends, and misses nothing.  While the engine runs on valid state of
    the current binding and no operation fails, [scanOnce] with fuel for the
    pages of the log returns - every run of it does - and then every direct reply
    of the log beyond the delivered floor has its row. *)
Theorem scan_records_everything b w fuel budget :
  calm b w -> pw_busy w = false ->
  Z.of_nat (length (pw_log w)) < DISCOVERY_PAGE * Z.of_nat fuel ->
  (forall used : gset string, (size used <= budget)%nat -> exists u, u ∉ used /\ isRepresentativeUuid (Some (JStr u)) = true) ->
  (2 + 4 * fuel + size (pw_used w) <= budget)%nat ->
  (exists r w', nrun calm_act (scanOnce b fuel) w r w') /\
  forall r w', nrun calm_act (scanOnce b fuel) w r w' ->
    r = Done tt /\ forall st cur floor e,
      loadDelivery (bindingFingerprint b) (pw_db w') = Some st -> scanStart st = inr (cur, floor) ->
      e ∈ pw_log w -> isAddressedCoordinatorEntry b e = Some "direct" -> point_lt floor (entry_point e) ->
      is_Some (wake_rows (bindingFingerprint b) (pw_db w') !! e_id e).
Proof.
  intros Hc Hi Hfuel Hmint Hn. destruct (will_runs _ _ _ _ (will_scan b budget Hmint fuel w Hc Hi Hfuel Hn)) as [(r & w' & Hr & _) Hall].
  split; [eauto|]. intros r1 w1 Hr1. destruct (Hall r1 w1 Hr1) as (-> & Hl & Hrec). split; [done|].
  intros st cur floor e Hst Hs He. apply (Hrec st cur floor Hst Hs). by rewrite Hl.
Qed.

(** The timer is exact.  [nextDueAt] at [t] gives the next instant: a tick
    at any time from [t] on and before it announces nothing and keeps the
    outstanding batch, and when it gives none no later tick announces anything;
    when the instant has come, a tick at [t] announces a batch or ends the one
    whose deadline passed.  So the scheduler neither sleeps past a due wake nor
    spins. *)
Theorem next_due_exact g t db doc batch :
  state_good g db -> document g db = inr doc -> clock_ok t ->
  exists due, next_due_tx g t t db = (inr due, db) /\
    (forall t', clock_ok t' -> t <= t' -> match due with Some x => t' < x | None => True end ->
       exists db' doc', tick_tx batch g t' t' db = (inr None, db') /\
         (valid_document doc' = true -> document g db' = inr doc') /\
         (ob_batch <$> wd_outstanding doc') = (ob_batch <$> wd_outstanding doc)) /\
    (forall x, due = Some x -> x <= t ->
       (exists wake db', tick_tx batch g t t db = (inr (Some wake), db')) \/
       (exists db' doc', tick_tx batch g t t db = (inr None, db') /\ (valid_document doc' = true -> document g db' = inr doc') /\
          is_Some (wd_outstanding doc) /\ wd_outstanding doc' = None)).
Proof.
  intros Hg Hd Hc. destruct (sg_document _ _ Hg doc Hd) as (Po & _ & _). exists (next_due g t doc db). split; [by apply next_due_run|].
  assert (Hsaved : forall d db1, valid_document d = true -> document g (saved g d db1) = inr d) by (intros d db1 Hv; by rewrite document_saved, Hv).
  split.
  - intros t' Hc' Ht Hx. destruct (next_due_sound g t t' db doc Hg Hd Hc Hc' Ht Hx) as [Hidle Hdl].
    eexists _, (tick_document t' doc). split; [by apply tick_idle|]. split; [apply Hsaved|].
    rewrite tick_outstanding by done. unfold deadline_of in *. destruct (wd_outstanding doc) as [o|]; [|done].
    cbn in *. by destruct (Z.leb_spec (time_of (ob_deadline o)) t'); [lia|].
  - intros x Hx Hle. destruct (next_due_complete g t db doc x Hg Hd Hc Hx Hle) as [[Ho Hexp]|[Hh Hs]].
    + destruct (tick_cases batch g t t db doc Hd) as [?|Hrun]; [by left|]. right. eexists _, (tick_document t doc).
      split; [exact Hrun|]. split; [apply Hsaved|]. split; [done|].
      assert (Ht := tick_outstanding t doc Hc Po). unfold deadline_of in *. destruct Ho as [o Ho]. rewrite Ho in *. cbn in *.
      destruct (Z.leb_spec (time_of (ob_deadline o)) t); [|lia]. by destruct (wd_outstanding (tick_document t doc)).
    + left. eexists _, _. by apply tick_announces.
Qed.

(** C29. What is recorded is announced.  A tick at [t] bounds every delay by a
    day: whatever it did, a tick a day later announces every recorded reply that
    is still undelivered, in one batch, unless the startup cohort is open. *)
Theorem backlog_announced_within_a_day g t t' db r db1 doc1 batch batch' :
  state_good g db -> clock_ok t -> clock_ok t' -> isRepresentativeUuid (Some (JStr batch)) = true ->
  isRepresentativeUuid (Some (JStr batch')) = true ->
  tick_tx batch g t t db = (inr r, db1) -> document g db1 = inr doc1 -> cohort_open doc1 = false -> wake_rows g db1 <> ∅ ->
  t + MAX_FUTURE_MS <= t' ->
  exists wake db2 doc2 o, tick_tx batch' g t' t' db1 = (inr (Some wake), db2) /\ document g db2 = inr doc2 /\
    wd_outstanding doc2 = Some o /\ ob_batch o = batch' /\ we_wake_id wake = batch' /\ we_count wake = length (ob_replies o) /\
    forall id, id ∈ ob_replies o <-> is_Some (wake_rows g db1 !! id).
Proof.
  intros Hg Hc Hc' Ub Ub' Htick Hd Hco Hne Ht.
  assert (Hk := tick_keeps batch g t t db Ub Hc Hg). assert (Hw := tick_within batch g t t db Hc Hg).
  unfold ensures in Hk, Hw. rewrite Htick in Hk, Hw. destruct Hw as [Wd Wr]. destruct (Wd doc1 Hd) as (W1 & W2 & W3).
  assert (Hg1 := k_good _ _ _ Hk). destruct (clock_range t' Hc') as [R1 R2].
  assert (Hnh : ~ held t' doc1).
  { intros [[Hx [y Hy]]|[[Hx [y Hy]]|[Hx|[Hx [y Hy]]]]]; [rewrite Hy in *; cbn in *; lia..|congruence|rewrite Hy in *; cbn in *; lia]. }
  assert (Hall : forall id row, wake_rows g db1 !! id = Some row -> time_of (wk_next_at row) <= t') by (intros id row Hr; specialize (Wr id row Hr); lia).
  assert (Hsome : some_due g t' db1).
  { apply map_choose in Hne as (id & row & Hr). exists id, row. eauto. }
  assert (Hrun := tick_announces batch' g t' t' db1 doc1 Hd Hc' Hg1 Hnh Hsome).
  assert (Hk' := tick_keeps batch' g t' t' db1 Ub' Hc' Hg1). unfold ensures in Hk'. rewrite Hrun in Hk'.
  destruct (k_readable _ _ _ Hk') as [d2 Hd2]. assert (Ed2 := document_saved_is _ _ _ _ Hd2).
  eexists _, _, d2, _. split; [exact Hrun|]. split; [exact Hd2|]. rewrite Ed2.
  split; [apply emitted_facts|].
  cbn [ob_batch ob_replies we_wake_id we_count]. split; [done|]. split; [done|]. split; [by rewrite length_map|]. intros id. split.
  - intros ([id' row] & -> & Hin)%list_elem_of_fmap. apply due_spec in Hin as (row0 & Hr & _); [|done..]. eauto.
  - intros [row Hr]. apply list_elem_of_fmap. exists (id, clamp_row (to_iso (t' + MAX_FUTURE_MS)) row). split; [done|].
    apply due_spec; [done..|]. eauto.
Qed.

(** A refused wake is not counted.  A batch announced by a tick and refused
    by the host before its deadline leaves every reply with the attempts it had
    and the refusal count one higher, with a retry time half a minute to half an
    hour away; a second ack of it changes nothing. *)
Theorem refused_wake_not_counted g t t' t'' db doc batch wake db1 :
  state_good g db -> document g db = inr doc -> clock_ok t -> clock_ok t' -> isRepresentativeUuid (Some (JStr batch)) = true ->
  tick_tx batch g t t db = (inr (Some wake), db1) -> t' < t + WAKE_ACK_DEADLINE_MS ->
  exists db2 doc2 retry, ack_tx (AckLine batch false) g t' t' db1 = (inr Refused, db2) /\ document g db2 = inr doc2 /\
    (forall id, wk_attempts <$> wake_rows g db2 !! id = wk_attempts <$> wake_rows g db !! id) /\
    rf_count (wd_refusals doc2) = rf_count (wd_refusals doc) + 1 /\ rf_retry_at (wd_refusals doc2) = Some (to_iso retry) /\
    t' + 30000 <= retry <= t' + 1800000 /\
    forall accepted, ack_tx (AckLine batch accepted) g t'' t'' db2 = (inr Ignored, db2).
Proof.
  intros Hg Hd Hc Hc' Ub Htick Ht. assert (Hk := tick_keeps batch g t t db Ub Hc Hg). unfold ensures in Hk. rewrite Htick in Hk.
  destruct (tick_emitted batch g t t db doc wake db1 Hd Htick) as (due & Hnd & Hdb1).
  destruct (emitted_facts t batch due (tick_document t doc)) as (Eo & Er). set (doc1 := emitted_document t batch due (tick_document t doc)) in *.
  assert (Hd1 : document g db1 = inr doc1).
  { destruct (k_readable _ _ _ Hk) as [d Hd']. rewrite Hdb1 in Hd' |- *. rewrite Hd'. by rewrite (document_saved_is _ _ _ _ Hd'). }
  assert (Hcount : rf_count (wd_refusals doc1) = rf_count (wd_refusals doc)).
  { rewrite Er. unfold tick_document, expire. by destruct (by_instant _ _). }
  set (retry := t' + refusalBackoffMs (rf_count (wd_refusals doc1) + 1)).
  set (doc2 := set_refusals (Refusals (rf_count (wd_refusals doc1) + 1) (Some (to_iso retry))) (set_outstanding None doc1)).
  set (db2 := saved g doc2 (with_rows g (update_rows (rolled_back (to_iso retry)) (map fst due)) db1)).
  destruct (clock_range t Hc) as [R1 R2]. destruct (clock_range t' Hc') as [R1' R2'].
  assert (Hlate : string_leb (to_iso (t + WAKE_ACK_DEADLINE_MS)) (to_iso t') = false).
  { rewrite to_iso_leb by (apply four_digit_interval; unfold WAKE_ACK_DEADLINE_MS, MAX_FUTURE_MS in *; lia). apply Z.leb_gt. lia. }
  assert (Hack : ack_tx (AckLine batch false) g t' t' db1 = (inr Refused, db2)).
  { unfold ack_tx, tx_bind at 1. rewrite loadDocument_eq, Hd1. cbv iota. rewrite Eo. cbn [ob_deadline ob_batch ob_replies al_wake_id al_accepted].
    rewrite Hlate, String.eqb_refl. reflexivity. }
  assert (Hk2 := ack_keeps (AckLine batch false) g t' t' db1 Hc' (k_good _ _ _ Hk)). unfold ensures in Hk2. rewrite Hack in Hk2.
  assert (Hd2 : document g db2 = inr doc2).
  { destruct (k_readable _ _ _ Hk2) as [d Hd']. rewrite Hd'. by rewrite (document_saved_is _ _ _ _ Hd'). }
  exists db2, doc2, retry. split; [exact Hack|]. split; [exact Hd2|]. split; [|split; [cbn; congruence|split; [done|split]]].
  - intros id. subst db2. rewrite rows_saved, rows_with, Hdb1, rows_saved, rows_with. unfold clamped_db. rewrite rows_with.
    rewrite !update_rows_lookup by done. rewrite lookup_fmap. destruct (wake_rows g db !! id) as [row|] eqn:Erow; [|by destruct (bool_decide _)].
    assert (Ha : 0 <= wk_attempts row) by (eapply row_good_attempts; by apply (sg_rows _ _ Hg)).
    destruct (bool_decide _); cbn; f_equal; lia.
  - pose proof (refusal_bounds (rf_count (wd_refusals doc1) + 1)) as Hb. subst retry. lia.
  - intros accepted. unfold ack_tx, tx_bind. rewrite loadDocument_eq, Hd2. reflexivity.
Qed.

(** The wake document survives its serialization: what [parseDocument] reads
    from the text [saveDocument] writes of a valid document is that document, and
    it never accepts a document that could not be saved and read back. *)
Theorem wake_document_round_trip d raw :
  (valid_document d = true -> parseDocument (json_compact (document_json d)) = inr d) /\
  (parseDocument raw = inr d -> parseDocument (json_compact (document_json d)) = inr d).
Proof.
  assert (Hs : valid_document d = true -> parseDocument (json_compact (document_json d)) = inr d) by (intros Hv; by rewrite parse_saved, Hv).
  split; [exact Hs|]. intros Hp. by eapply Hs, parse_valid.
Qed.
End Spec.
