(* ===== verification/PushWitness.v ===== *)
(** * The push engine's properties at concrete inputs

    A listener whose server holds two direct replies starts on an empty wake
    state and scans the log; later ticks announce both. *)

From S2P Require Import Prelude JsDate JsonText Effects RepDb RepCore RepRead RepDeliveryFacts RepWitness RepPush PushDocument PushFacts PushOutside PushWorld PushSafety PushSchedule PushSpec.

Open Scope Z_scope.
Open Scope prog_scope.

#[local] Existing Instance demo_env.
#[local] Instance demo_date : JsDate := { other_parse _ := None }.

(** Values that several proofs use are evaluated once. *)
Definition g : string := Eval vm_compute in bindingFingerprint demo.

Lemma fingerprint : bindingFingerprint demo = g.
Proof. vm_compute. reflexivity. Qed.

Definition mint_id (n : nat) : string := "cc000000-0000-4000-8000-" +:+ pad 12 (Z.of_nat n).

(** The [n]th identifier, or the first not drawn. *)
Definition next_id (used : gset string) : string := mint_id (size used).

Definition push_script (X : Type) (op : push_op X) : push_world -> X * push_world :=
  match op in push_op X return push_world -> X * push_world with
  | PushTx body => fun w =>
      let fresh := mint_id (size (pw_used w)) in let batch := mint_id (S (size (pw_used w))) in
      let r := commit (body fresh batch) (pw_clock w) (pw_db w) in (fst r, with_tables (snd r) {[fresh; batch]} w)
  | PushRead cursor limit => fun w => (inr (Discovery (page_of (pw_log w) cursor limit)
      (Some (Z.of_nat (length (drop (Z.to_nat limit) (beyond cursor (pw_log w))))))), w)
  | Stopped => fun w => (pw_stopped w, w)
  | EnterChain => fun w => (inr tt, with_busy true w)
  | LeaveChain => fun w => (tt, with_busy false w)
  | BeginScan => fun w => (negb (pw_scanning w), if pw_scanning w then with_rescan true w else with_scanning true w)
  | SetRescan v => fun w => (tt, with_rescan v w)
  | Rescan => fun w => (pw_rescan w, w)
  | EndScan => fun w => (tt, with_scanning false w)
  | EmitWake wake => fun w => (inr tt, with_emitted wake w)
  | LogLine _ => fun w => (tt, w)
  end.

Definition push_allowed (X : Type) (op : push_op X) : push_world -> bool :=
  match op in push_op X return push_world -> bool with
  | PushTx _ => fun w =>
      let fresh := mint_id (size (pw_used w)) in let batch := mint_id (S (size (pw_used w))) in
      bool_decide (fresh ∉ pw_used w) && bool_decide (batch ∉ pw_used w) && bool_decide (fresh <> batch) && is_uuid fresh && is_uuid batch
  | EnterChain => fun w => negb (pw_stopped w) && negb (pw_busy w)
  | _ => fun _ => true
  end.

Definition t0 : Z := 1767229200000.
Definition w0_db : rep_db := Eval vm_compute in snd (commit (ensure_row demo) t0 demo_db).
Definition w0 : push_world := PushWorld w0_db t0 demo_log ∅ false false false false [] false.

Definition push_calls : list (push unit) := [discover demo 1 1].
Definition w1 : push_world := Eval vm_compute in run_all push_script push_calls w0.

Lemma w1_reached : all_checked push_script push_allowed push_calls w0 = true /\ run_all push_script push_calls w0 = w1.
Proof. split; lazymatch goal with |- ?x = _ => vm_cast_no_check (eq_refl x) end. Qed.

Lemma is_uuid_accepted s : is_uuid s = true -> isRepresentativeUuid (Some (JStr s)) = true.
Proof. done. Qed.

Lemma push_script_act X (op : push_op X) w :
  push_allowed X op w = true -> push_act X op w (fst (push_script X op w)) (snd (push_script X op w)).
Proof.
  destruct op; cbn [push_allowed push_script push_act fst snd]; try done.
  - intros [[[[Hf%bool_decide_eq_true Hb%bool_decide_eq_true]%andb_true_iff Hn%bool_decide_eq_true]%andb_true_iff Uf]%andb_true_iff Ub]%andb_true_iff.
    right. by exists (mint_id (size (pw_used w))), (mint_id (S (size (pw_used w)))).
  - intros _. split; [done|]. right. eexists. by split; [|right].
  - intros [Hs%negb_true_iff Hb%negb_true_iff]%andb_true_iff. by rewrite Hs.
  - intros _. by right.
Qed.

Lemma demo_fresh_push : fresh_push demo w0.
Proof.
  split; rewrite ?fingerprint; [by vm_compute|by vm_compute|exact demo_ordered| | |].
  - apply (bool_decide_eq_true_1 (NoDup (map e_id demo_log))). by vm_compute.
  - repeat constructor; vm_compute; eauto.
  - by vm_compute.
Qed.

Lemma demo_reaches : exists ps, rtc (push_moves demo) ([], w0) (ps, w1).
Proof.
  assert (Hs : forall w p, p ∈ push_calls -> push_call demo w p).
  { intros w p ->%list_elem_of_singleton. constructor. }
  destruct w1_reached as [Hc <-]. exact (run_all_moves _ _ _ push_script push_allowed push_script_act _ [] w0 Hs Hc).
Qed.

Definition answer_or {A} (default : A) (r : js_error + A) : A := match r with inr a => a | inl _ => default end.

Definition first_reply : log_entry := from_coordinator "1" "direct".
Definition w1_document : wake_document := Eval vm_compute in answer_or emptyDocument (document g (pw_db w1)).
Definition w1_delivery : delivery_state := Eval vm_compute in default demo_state (loadDelivery g (pw_db w1)).
Definition w1_start : option point * point := Eval vm_compute in
  answer_or (None, entry_point first_reply) (scanStart w1_delivery).

Lemma w1_documented : document (bindingFingerprint demo) (pw_db w1) = inr w1_document.
Proof. rewrite fingerprint. by vm_compute. Qed.

Lemma w1_delivered : loadDelivery (bindingFingerprint demo) (pw_db w1) = Some w1_delivery.
Proof. rewrite fingerprint. by vm_compute. Qed.

Lemma w0_delivered : loadDelivery (bindingFingerprint demo) (pw_db w0) = Some w1_delivery.
Proof. rewrite fingerprint. by vm_compute. Qed.

Lemma w1_started : scanStart w1_delivery = inr (fst w1_start, snd w1_start).
Proof. by vm_compute. Qed.

Lemma first_logged : first_reply ∈ pw_log w0.
Proof. left. Qed.

Lemma first_direct : isAddressedCoordinatorEntry demo first_reply = Some "direct"%string.
Proof. by vm_compute. Qed.

Lemma first_beyond : point_lt (snd w1_start) (entry_point first_reply).
Proof. by vm_compute. Qed.

Lemma discovery_misses_nothing_witness :
  wd_frontier w1_document = Some (entry_point (from_coordinator "4" "direct")) /\
  is_Some (wake_rows g (pw_db w1) !! e_id first_reply).
Proof.
  split; [by vm_compute|]. destruct demo_reaches as [ps Hr]. rewrite <-fingerprint.
  refine (discovery_misses_nothing demo w0 ps w1 w1_document w1_delivery (fst w1_start) (snd w1_start) first_reply
    demo_fresh_push Hr w1_documented w1_delivered w1_started _ first_direct first_beyond _); [vm_compute; left|by vm_compute].
Defined.

Lemma wake_state_survives_witness :
  discardInvalidWakeState (mint_id 99) g t0 (pw_db w1) = (inr None, pw_db w1).
Proof.
  destruct demo_reaches as [ps Hr]. rewrite <-fingerprint. apply (wake_state_survives demo w0 ps w1 (mint_id 99) t0 demo_fresh_push Hr). by vm_compute.
Defined.

(** ** A scan *)

Definition mint_budget : nat := 100.

Lemma demo_mints (used : gset string) : (size used <= mint_budget)%nat ->
  exists u, u ∉ used /\ isRepresentativeUuid (Some (JStr u)) = true.
Proof.
  intros Hu. set (ids := mint_id <$> seq 0 (S mint_budget)).
  assert (Hall : Forall (fun u => is_uuid u = true) ids) by (apply (bool_decide_eq_true_1 _); by vm_compute).
  assert (Hnd : NoDup ids) by (apply (bool_decide_eq_true_1 _); by vm_compute).
  destruct (decide (Exists (.∉ used) ids)) as [(u & Hin & Hfree)%Exists_exists|Hno].
  - exists u. split; [done|]. rewrite Forall_forall in Hall. by apply is_uuid_accepted, Hall.
  - exfalso. apply not_Exists_Forall in Hno; [|apply _]. assert (Hsub : list_to_set ids ⊆ used).
    { intros u Hin%elem_of_list_to_set. rewrite Forall_forall in Hno. destruct (decide (u ∈ used)); [done|]. by destruct (Hno u Hin). }
    apply subseteq_size in Hsub. rewrite size_list_to_set in Hsub by done. change (length ids) with (S mint_budget) in Hsub. lia.
Qed.

Lemma demo_calm : calm demo w0.
Proof.
  split; [exact (fresh_base demo w0 demo_fresh_push)| | |done|].
  - exists w1_delivery, (fst w1_start), (snd w1_start). split; [exact w0_delivered|exact w1_started].
  - split; [exists emptyDocument; rewrite fingerprint; by vm_compute|]. rewrite (fp_rows _ _ demo_fresh_push). by intros id row ?%lookup_empty_Some.
  - assert (Hb0 : t_bindings (pw_db w0) = t_bindings demo_db) by (vm_compute; reflexivity).
    intros now db Hb. rewrite Hb0 in Hb. exact (demo_current db Hb now).
Qed.

Lemma scan_records_everything_witness :
  exists w', nrun calm_act (scanOnce demo 1) w0 (Done tt) w' /\
    (loadDelivery g (pw_db w') = Some w1_delivery -> is_Some (wake_rows g (pw_db w') !! e_id first_reply)).
Proof.
  rewrite <-fingerprint.
  destruct (scan_records_everything demo w0 1 mint_budget demo_calm) as [(r & w' & Hr) Hall];
    [done|by vm_compute|exact demo_mints|vm_compute; lia|]. destruct (Hall r w' Hr) as [-> Hrec]. exists w'. split; [exact Hr|].
  intros Hl. exact (Hrec w1_delivery (fst w1_start) (snd w1_start) first_reply Hl w1_started first_logged first_direct first_beyond).
Defined.

(** ** The timer and the announcements *)

Definition batch_a : string := mint_id 90.
Definition batch_b : string := mint_id 91.

Lemma w1_good : state_good g (pw_db w1).
Proof.
  destruct demo_reaches as [ps Hr]. assert (Hb := reachable_base demo w0 ps w1 demo_fresh_push Hr). rewrite <-fingerprint.
  apply printed_good; [exact (bs_printed _ _ Hb)|]. apply (bs_undamaged _ _ Hb). by vm_compute.
Qed.

Lemma w1_read : document g (pw_db w1) = inr w1_document.
Proof. rewrite <-fingerprint. exact w1_documented. Qed.

(** Until the debounce is over the engine sleeps. *)
Definition due_a : Z := t0 + WAKE_DEBOUNCE_MS.

Ltac computed :=
  lazymatch goal with
  | |- ?x = _ => vm_cast_no_check (eq_refl x)
  | |- clock_ok _ => split; vm_compute; discriminate
  | |- _ <= _ => vm_compute; discriminate
  end.

Lemma clock_t0 : clock_ok t0.
Proof. computed. Qed.

Lemma clock_waiting : clock_ok (t0 + 1999).
Proof. computed. Qed.

Lemma waits : t0 <= t0 + 1999.
Proof. computed. Qed.

Lemma before_due : t0 + 1999 < due_a.
Proof. reflexivity. Qed.

Lemma sleeping : next_due_tx g t0 t0 (pw_db w1) = (inr (Some due_a), pw_db w1).
Proof. computed. Qed.

Lemma same_due {A} (due due' : option Z) (db db' : A) :
  (inr due : js_error + option Z, db) = (inr due', db') -> due = due'.
Proof. congruence. Qed.

Lemma next_due_exact_witness :
  next_due_tx g t0 t0 (pw_db w1) = (inr (Some due_a), pw_db w1) /\
  exists db', tick_tx batch_a g (t0 + 1999) (t0 + 1999) (pw_db w1) = (inr None, db').
Proof.
  destruct (next_due_exact g t0 (pw_db w1) w1_document batch_a w1_good w1_read clock_t0) as (due & Hdue & Hsleep & _).
  assert (E := Hdue). rewrite sleeping in E. apply same_due in E as <-. split; [exact Hdue|].
  destruct (Hsleep (t0 + 1999) clock_waiting waits before_due) as (db' & doc' & Ht & _). exact (ex_intro _ db' Ht).
Defined.

(** The database after a tick a second later, which does nothing. *)
Definition t1 : Z := t0 + 1000.
Definition idle_tick := Eval vm_compute in tick_tx batch_a g t1 t1 (pw_db w1).
Definition idle_document : wake_document := Eval vm_compute in answer_or emptyDocument (document g (snd idle_tick)).

Lemma idle_ran : tick_tx batch_a g t1 t1 (pw_db w1) = (inr None, snd idle_tick).
Proof. computed. Qed.

Lemma idle_documented : document g (snd idle_tick) = inr idle_document.
Proof. computed. Qed.

Lemma idle_rows : wake_rows g (snd idle_tick) <> ∅.
Proof.
  assert (Hs : is_Some (wake_rows g (snd idle_tick) !! e_id first_reply)) by (vm_compute; eauto).
  intros He. rewrite He in Hs. by apply lookup_empty_is_Some in Hs.
Qed.

Lemma backlog_announced_within_a_day_witness :
  exists wake db2, tick_tx batch_b g (t1 + MAX_FUTURE_MS) (t1 + MAX_FUTURE_MS) (snd idle_tick) = (inr (Some wake), db2) /\
    we_wake_id wake = batch_b.
Proof.
  destruct (backlog_announced_within_a_day g t1 (t1 + MAX_FUTURE_MS) (pw_db w1) None (snd idle_tick) idle_document
    batch_a batch_b w1_good) as (wake & db2 & doc2 & o & Ht & _ & _ & _ & Hid & _);
    [computed|computed|computed|computed|exact idle_ran|exact idle_documented|computed|exact idle_rows|computed|].
  exact (ex_intro _ wake (ex_intro _ db2 (conj Ht Hid))).
Defined.

(** Five seconds later both are announced; the host refuses. *)
Definition t2 : Z := t0 + 5000.
Definition again := Eval vm_compute in tick_tx batch_b g t2 t2 (pw_db w1).
Definition again_wake : wake_emission := WakeEmission batch_b NewReply 2.

Lemma again_announced : tick_tx batch_b g t2 t2 (pw_db w1) = (inr (Some again_wake), snd again).
Proof. computed. Qed.

Lemma first_attempts : wk_attempts <$> wake_rows g (pw_db w1) !! e_id first_reply = Some 0.
Proof. computed. Qed.

Lemma refused_wake_not_counted_witness :
  exists db2, ack_tx (AckLine batch_b false) g (t2 + 1000) (t2 + 1000) (snd again) = (inr Refused, db2) /\
    wk_attempts <$> wake_rows g db2 !! e_id first_reply = Some 0.
Proof.
  destruct (refused_wake_not_counted g t2 (t2 + 1000) (t2 + 2000) (pw_db w1) w1_document batch_b again_wake (snd again) w1_good w1_read)
    as (db2 & doc2 & retry & Hack & _ & Hatt & _);
    [computed|computed|computed|exact again_announced|reflexivity|].
  exact (ex_intro _ db2 (conj Hack (eq_trans (Hatt _) first_attempts))).
Defined.

Lemma wake_document_round_trip_witness :
  parseDocument (json_compact (document_json w1_document)) = inr w1_document.
Proof. apply (proj1 (wake_document_round_trip w1_document "")). by vm_compute. Defined.
