(* ===== verification/SeatStore.v ===== *)
(** * The locked private store ([src/seat-store.ts])

    One file that is read, changed and replaced by a rename under an advisory
    lock file that nobody ever takes from its holder, and the checks of ownership
    and mode around every access.  [seats.json] is such a store; other state files
    use its lock and its reads.

    A handle is the path it was opened at; a file's content is the value
    [JSON.parse] gives for it, or text that does not parse.  [guarded-fs] passes
    every call through outside the test runner. *)

From S2P Require Import Prelude NodeLib JsDate Assoc JsonText Effects LeaseFs.

Open Scope Z_scope.
Open Scope prog_scope.

(** ** Operations *)

(** What [lstat], [stat] and a handle's [stat] report. *)
Record meta := Meta {
  md_link : bool;
  md_dir : bool;
  md_file : bool;
  md_mode : Z;
  md_uid : Z;
  md_dev : Z;
  md_ino : Z;
  md_size : Z
}.

Inductive store_op : Type -> Type :=
| Lstat (p : string) : store_op (js_error + meta)
| StatDir (p : string) : store_op (js_error + meta)
| Canonical (p : string) : store_op (js_error + bool)
| MkdirRec (p : string) : store_op (js_error + unit)
| CreateWx (nofollow : bool) (p : string) : store_op (js_error + unit)
| OpenRead (p : string) : store_op (js_error + unit)
| HandleStat (p : string) : store_op (js_error + meta)
| HandleRead (p : string) : store_op (js_error + content)
| HandleWrite (p : string) (c : content) : store_op (js_error + unit)
| HandleSync (p : string) : store_op (js_error + unit)
| HandleClose (p : string) : store_op (js_error + unit)
| ReadWhole (p : string) : store_op (js_error + content)
| RenameTo (p q : string) : store_op (js_error + unit)
| LinkTo (p q : string) : store_op (js_error + unit)
| RemoveFile (p : string) : store_op (js_error + unit)
| Probe (pid : Z) : store_op (js_error + unit)
| RandomName : store_op string
| ProcessStart : store_op string
| Wait (ms : Z) : store_op unit
| Reject (ref : string) : store_op unit
| Unreject (ref : string) : store_op unit.

Definition storing := prog store_op.

#[export] Instance content_eq_dec : EqDecision content.
Proof. solve_decision. Defined.

(* src/src/seat-store.ts 41-41 LOCK_WAIT_MS *)
Definition LOCK_WAIT_MS : Z := 10.
(* src/src/seat-store.ts 42-42 LOCK_ATTEMPTS *)
Definition LOCK_ATTEMPTS : nat := 500.

(* src/src/seat-store.ts 44-48 LockPayload *)
Record lock_payload := LockPayload { lp_pid : Z; lp_startTime : string }.

(** [rootMode: 'private'] is [so_private]. *)
(* src/src/seat-store.ts 50-59 SecureStoreOptions *)
Record store_options := StoreOptions {
  so_secureRoot : option string;
  so_private : bool;
  so_verifyLeafIdentity : bool;
  so_exclusive : bool;
  so_createRoot : bool
}.

Definition plain_options : store_options := StoreOptions None true false false true.

(** [{ secureRoot, rootMode }] of the options *)
Definition lock_read_options (o : store_options) : store_options :=
  StoreOptions (so_secureRoot o) (so_private o) false false true.

Definition low_bits (mode : Z) : Z := Z.land mode 511.
Definition others_bits (mode : Z) : Z := Z.land mode 63.

Section Store.
(** [process.getuid()], where the platform has it, and [process.pid]. *)
Variable getuid : option Z.
Variable pid : Z.

(* src/src/seat-store.ts 61-63 expectedUid *)
Definition wrong_owner (m : meta) : bool :=
  match getuid with Some uid => negb (md_uid m =? uid) | None => false end.

(** [None]: [lstat] fails with [ENOENT]. *)
Definition lstat_or_none (p : string) : storing (option meta) :=
  let! r := attempt (perform (Lstat p)) in
  match r with
  | inr m => Ret (Some m)
  | inl e => if has_code ENOENT e then Ret None else Throw e
  end.

(** The checks of a directory that is there. *)
Definition check_root (root : string) (private : bool) (m : meta) : storing bool :=
  if md_link m || negb (md_dir m) then
    Throw (JsError ("Borg credential store root " +:+ root +:+ " must be a real directory, not a symlink"))
  else if (if private then negb (low_bits (md_mode m) =? 448) else negb (Z.land (low_bits (md_mode m)) 18 =? 0)) then
    Throw (JsError ("Borg credential store root " +:+ root +:+ " has insecure permissions; " +:+
      (if private then "expected 0700" else "group/world write access is forbidden")))
  else if wrong_owner m then
    Throw (JsError ("Borg credential store root " +:+ root +:+ " is not owned by the current user"))
  else
    let! canonical := perform (Canonical root) in
    if (canonical : bool) then Ret true
    else Throw (JsError ("Borg credential store root " +:+ root +:+ " is not canonical or contains a symlink")).

(* src/src/seat-store.ts 66-101 assertSecureRoot *)
Definition assertSecureRoot (root : string) (private create : bool) : storing bool :=
  let! canonical := perform (Canonical root) in
  if negb canonical then Throw (JsError ("Borg credential store path " +:+ root +:+ " is not canonical"))
  else
    let! found := lstat_or_none root in
    match found with
    | Some m => check_root root private m
    | None =>
        if negb create then Ret false
        else
          do! perform (MkdirRec root);
          let! m := perform (Lstat root) in
          check_root root private m
    end.

(* src/src/seat-store.ts 103-122 assertSecureFile *)
Definition assertSecureFile (filePath : string) : storing (option meta) :=
  let! found := lstat_or_none filePath in
  match found with
  | None => Ret None
  | Some m =>
      if md_link m || negb (md_file m) then
        Throw (JsError ("Borg credential store file " +:+ filePath +:+ " must be a regular file, not a symlink"))
      else if negb (low_bits (md_mode m) =? 384) then
        Throw (JsError ("Borg credential store file " +:+ filePath +:+ " has insecure permissions; expected 0600"))
      else if wrong_owner m then
        Throw (JsError ("Borg credential store file " +:+ filePath +:+ " is not owned by the current user"))
      else Ret (Some m)
  end.

(* src/src/seat-store.ts 124-132 assertSecurePath *)
Definition assertSecurePath (filePath secureRoot : string) (o : store_options) : storing unit :=
  if negb (resolved_path filePath) || negb (String.eqb (dirname filePath) secureRoot) then
    Throw (JsError ("Borg credential store file path " +:+ filePath +:+ " is not canonical"))
  else
    let! there := assertSecureRoot secureRoot (so_private o) (so_createRoot o) in
    if (there : bool) then Ret tt
    else Throw (ErrorOf "Error" (Some ENOENT) None "Borg private store directory disappeared" []).

(* src/src/seat-store.ts 141-149 isProcessAlive *)
Definition isProcessAlive (owner : Z) : storing bool :=
  if owner <=? 0 then Ret false
  else
    let! r := attempt (perform (Probe owner)) in
    match r with
    | inr _ => Ret true
    | inl e => Ret (has_code EPERM e)
    end.

(* src/src/seat-store.ts 156-169 parseLockPayload *)
Definition parseLockPayload (raw : content) : option lock_payload :=
  parsed ← json_parse raw;
  owner ← jint (jget "pid" parsed);
  if 0 <? owner then Some (LockPayload owner (default "unknown" (jstr (jget "startTime" parsed)))) else None.

(* src/src/seat-store.ts 176-185 staleLockError *)
Definition staleLockError (lockPath : string) (held : option lock_payload) : js_error :=
  let who := match held with
             | Some h => "its recorded owner process (pid " +:+ js_String (JNum (lp_pid h)) +:+ ", started " +:+
                         lp_startTime h +:+ ") is no longer running"
             | None => "its lock file is missing a valid owner identity or is corrupt"
             end in
  JsError ("Borg private store lock file " +:+ lockPath +:+ " is stale: " +:+ who +:+ ". " +:+
    "Borg will NOT remove it automatically. If no borg process is running on this " +:+
    "machine, delete " +:+ lockPath +:+ " and retry; otherwise wait for the other borg process to finish.").

(** The octal digits of a mode are left out of the message. *)
(* src/src/seat-store.ts 194-222 ensureParentDir *)
Definition ensureParentDir (filePath : string) : storing unit :=
  if negb (resolved_path filePath) then Throw (JsError ("Borg store file path " +:+ filePath +:+ " is not canonical"))
  else
    let dir := dirname filePath in
    let! existing := lstat_or_none dir in
    match existing with
    | Some m =>
        if md_link m || negb (md_dir m) then
          Throw (JsError ("Borg store directory " +:+ dir +:+ " must be a real directory, not a symlink"))
        else if negb (low_bits (md_mode m) =? 448) then
          Throw (JsError ("Borg store directory " +:+ dir +:+
            " has insecure permissions (expected 0700); refusing to write a credential under it"))
        else if wrong_owner m then
          Throw (JsError ("Borg store directory " +:+ dir +:+ " is not owned by the current user"))
        else Ret tt
    | None => perform (MkdirRec dir)
    end.

(** [`${path}.${process.pid}.${hex}${suffix}`] *)
Definition temp_name (path hex suffix : string) : string :=
  path +:+ "." +:+ js_String (JNum pid) +:+ "." +:+ hex +:+ suffix.

(** The identity checks of a temporary file. *)
Definition same_file (a b : meta) : bool := (md_dev a =? md_dev b) && (md_ino a =? md_ino b).

Definition private_temp (m : meta) : bool :=
  md_file m && (low_bits (md_mode m) =? 384) && negb (wrong_owner m).

Definition unchanged_temp (opened current : meta) : bool :=
  md_file current && same_file current opened && (md_uid current =? md_uid opened) && (low_bits (md_mode current) =? 384).

(** [opened] is [None] while, or because, the identity is not checked. *)
Definition cleanup (tmp : string) (verify : bool) (opened : option meta) : storing unit :=
  let remove := (do! attempt (perform (RemoveFile tmp)); Ret tt) in
  if verify then
    let! current := attempt (perform (Lstat tmp)) in
    match opened, current with
    | Some o, inr m => if same_file m o then remove else Ret tt
    | _, _ => Ret tt
    end
  else remove.

(** The body of the first [try]: the handle's identity, the data, the sync. *)
Definition fill_temp (tmp : string) (data : content) (o : store_options) : storing (js_error + option meta) :=
  if so_verifyLeafIdentity o then
    let! opened := attempt (perform (HandleStat tmp)) in
    match opened with
    | inl e => do! attempt (perform (HandleClose tmp)); do! cleanup tmp true None; Ret (inl e)
    | inr m =>
        let! r := attempt (
          if private_temp m then do! perform (HandleWrite tmp data); perform (HandleSync tmp)
          else Throw (JsError "Borg private store temporary file is not private")) in
        match r with
        | inl e => do! attempt (perform (HandleClose tmp)); do! cleanup tmp true (Some m); Ret (inl e)
        | inr _ => Ret (inr (Some m))
        end
    end
  else
    let! r := attempt (do! perform (HandleWrite tmp data); perform (HandleSync tmp)) in
    match r with
    | inl e => do! attempt (perform (HandleClose tmp)); do! cleanup tmp false None; Ret (inl e)
    | inr _ => Ret (inr None)
    end.

(** The second [try]: the checks again, the publication, the directory's sync. *)
Definition publish (filePath tmp : string) (opened : option meta) (o : store_options) : storing unit :=
  do! match so_secureRoot o with
      | Some root => do! assertSecurePath filePath root o; do! assertSecureFile filePath; Ret tt
      | None => Ret tt
      end;
  do! match opened with
      | Some m =>
          let! current := perform (Lstat tmp) in
          if unchanged_temp m current then Ret tt
          else Throw (JsError "Borg private store temporary file identity changed")
      | None => Ret tt
      end;
  do! (if so_exclusive o then do! perform (LinkTo tmp filePath); perform (RemoveFile tmp)
       else perform (RenameTo tmp filePath));
  let parent := dirname filePath in
  do! perform (OpenRead parent);
  pfinally (perform (HandleSync parent)) (perform (HandleClose parent)).

(* src/src/seat-store.ts 230-290 atomicWrite0600 *)
Definition atomicWrite0600 (filePath : string) (data : content) (o : store_options) : storing unit :=
  do! match so_secureRoot o with
      | Some root => do! assertSecurePath filePath root o; do! assertSecureFile filePath; Ret tt
      | None => ensureParentDir filePath
      end;
  let! hex := ask RandomName in
  let tmp := temp_name filePath hex ".tmp" in
  do! perform (CreateWx (so_verifyLeafIdentity o) tmp);
  let! filled := fill_temp tmp data o in
  match filled with
  | inl e => Throw e
  | inr opened =>
      do! perform (HandleClose tmp);
      pcatch (publish filePath tmp opened o)
        (fun e => do! cleanup tmp (so_verifyLeafIdentity o) opened; Throw e)
  end.

(** ** Reads *)

(* src/src/seat-store.ts 298-322 assertSecureStorePerms *)
Definition assertSecureStorePerms (filePath : string) (fileMode : Z) : storing unit :=
  if negb (others_bits fileMode =? 0) then
    Throw (JsError ("Borg private store file " +:+ filePath +:+
      " has insecure permissions (expected 0600); refusing to read a credential from it"))
  else
    let dir := dirname filePath in
    let! r := attempt (perform (StatDir dir)) in
    match r with
    | inl e => if has_code ENOENT e then Ret tt else Throw e
    | inr m =>
        if negb (others_bits (md_mode m) =? 0) then
          Throw (JsError ("Borg private store directory " +:+ dir +:+
            " has insecure permissions (expected 0700); refusing to read a credential under it"))
        else Ret tt
    end.

(* src/src/seat-store.ts 325-331 StoreFileIdentityChangedError *)
Definition StoreFileIdentityChangedError : js_error :=
  ErrorOf "StoreFileIdentityChangedError" (Some "STORE_FILE_IDENTITY_CHANGED") None
    "Borg credential store file changed while it was being opened" [].

(* src/src/seat-store.ts 333-336 isLockTurnover *)
Definition isLockTurnover (e : js_error) : bool := has_code ENOENT e || has_code "STORE_FILE_IDENTITY_CHANGED" e.

(** A read of a file that may vanish: [ENOENT] reads as none. *)
Definition or_missing {A} (p : storing A) : storing (option A) :=
  let! r := attempt p in
  match r with
  | inr a => Ret (Some a)
  | inl e => if has_code ENOENT e then Ret None else Throw e
  end.

(** The read below a secure root. *)
Definition read_secure (filePath : string) : storing (option content) :=
  let! found := assertSecureFile filePath in
  match found with
  | None => Ret None
  | Some before =>
      let! handle := or_missing (perform (OpenRead filePath)) in
      match handle with
      | None => Ret None
      | Some _ =>
          pfinally (
            let! opened := perform (HandleStat filePath) in
            if negb (same_file opened before) then Throw StoreFileIdentityChangedError
            else
              let! raw := perform (HandleRead filePath) in
              let! after := perform (HandleStat filePath) in
              if negb (same_file after before) || negb (md_size after =? md_size before) then
                Throw (JsError "Borg credential store file changed while it was being read")
              else Ret (Some raw))
            (perform (HandleClose filePath))
      end
  end.

(** The read of the default options. *)
Definition read_plain (filePath : string) : storing (option content) :=
  let! found := lstat_or_none filePath in
  match found with
  | None => Ret None
  | Some m =>
      if md_link m || negb (md_file m) then
        Throw (JsError ("Borg store file " +:+ filePath +:+ " must be a regular file, not a symlink"))
      else if wrong_owner m then
        Throw (JsError ("Borg store file " +:+ filePath +:+ " is not owned by the current user"))
      else do! assertSecureStorePerms filePath (md_mode m); or_missing (perform (ReadWhole filePath))
  end.

(* src/src/seat-store.ts 344-398 readStoreFile *)
Definition readStoreFile (filePath : string) (o : store_options) : storing (option content) :=
  if negb (resolved_path filePath) then Throw (JsError ("Borg store file path " +:+ filePath +:+ " is not canonical"))
  else
    match so_secureRoot o with
    | Some root => do! assertSecurePath filePath root o; read_secure filePath
    | None => read_plain filePath
    end.

(** ** The lock *)

(* src/src/seat-store.ts 152-154 processStartTime *)
Definition own_payload (startTime : string) : content :=
  Json (JObj [("pid", JNum pid); ("startTime", JStr startTime)]).

(** The lock file as its contender sees it: [None] when it is gone or was replaced. *)
Definition inspect (lockPath : string) (o : store_options) : storing (option content) :=
  let! r := attempt (readStoreFile lockPath (lock_read_options o)) in
  match r with
  | inr stored => Ret stored
  | inl e => if isLockTurnover e then Ret None else Throw e
  end.

Definition release (lockPath : string) : storing unit :=
  let! r := attempt (perform (RemoveFile lockPath)) in
  match r with
  | inl e => if has_code ENOENT e then Ret tt else Throw e
  | inr _ => Ret tt
  end.

(** An attempt per unit. *)
Fixpoint acquire_loop {A} (attempts : nat) (waitMs : Z) (lockPath tmp : string) (o : store_options) (op : storing A) : storing A :=
  match attempts with
  | O => Throw (JsError "Borg private store is busy")
  | S n =>
      let retry := acquire_loop n waitMs lockPath tmp o op in
      let! linked := attempt (perform (LinkTo tmp lockPath)) in
      match linked with
      | inr _ => pfinally op (release lockPath)
      | inl e =>
          if negb (has_code EEXIST e) then Throw e
          else
            let! stored := inspect lockPath o in
            match stored with
            | None => retry
            | Some raw =>
                let held := parseLockPayload raw in
                let! alive := match held with Some h => isProcessAlive (lp_pid h) | None => Ret false end in
                if (alive : bool) then do! ask (Wait waitMs); retry
                else
                  let! current := inspect lockPath o in
                  match current with
                  | None => retry
                  | Some now => if bool_decide (now = raw) then Throw (staleLockError lockPath held) else retry
                  end
            end
      end
  end.

(* src/src/seat-store.ts 413-499 withStoreLock *)
Definition withStoreLock {A} (attempts : nat) (waitMs : Z) (lockPath : string) (o : store_options) (op : storing A) : storing A :=
  do! match so_secureRoot o with
      | Some root => assertSecurePath lockPath root o
      | None => perform (MkdirRec (dirname lockPath))
      end;
  let! startTime := ask ProcessStart in
  let! hex := ask RandomName in
  let tmp := temp_name lockPath hex ".acq" in
  do! perform (CreateWx false tmp);
  do! pfinally (perform (HandleWrite tmp (own_payload startTime))) (perform (HandleClose tmp));
  pfinally (acquire_loop attempts waitMs lockPath tmp o op)
    (do! attempt (perform (RemoveFile tmp)); Ret tt).

(** ** Transactions *)

Definition malformed : js_error :=
  JsError "Borg private store is malformed or has an unsupported version; refusing to overwrite it".

(** [parse] gives [None] for [null]; what it throws is caught.  The operation gets
    the loaded state and the commit. *)
(* src/src/seat-store.ts 515-553 withStore *)
Definition withStore {St A} (storePath : string) (emptyState : St) (parse : content -> js_error + option St)
    (print : St -> content) (o : store_options) (op : St -> (St -> storing unit) -> storing A) : storing A :=
  withStoreLock LOCK_ATTEMPTS LOCK_WAIT_MS (storePath +:+ ".lock") o (
    let! raw := readStoreFile storePath o in
    let commit := fun data => atomicWrite0600 storePath (print data) o in
    match raw with
    | None => op emptyState commit
    | Some c =>
        match parse c with
        | inr (Some data) => op data commit
        | _ => Throw malformed
        end
    end).
End Store.
