(* ===== verification/StoreWorld.v ===== *)
(** * A locked store among other processes

    What the operations of [SeatStore] do to one store file, its lock file and its
    temporary files, and what a transaction on the store is in the terms of
    [LockedFile]: it waits for the lock, sees the file, writes one temporary file,
    commits it, and gives the lock back.  The lock's owner files ([.acq]) and the
    directories are not followed: whatever a look at them answers is possible. *)

From S2P Require Import Prelude NodeLib JsDate Assoc JsonText Effects LeaseFs LockedFile SeatStore.

Open Scope Z_scope.
Open Scope prog_scope.

Inductive place := StorePlace | LockPlace | TempPlace | Elsewhere.

#[export] Instance place_eq_dec : EqDecision place.
Proof. solve_decision. Defined.

Definition last_four (s : string) : string := string_drop (String.length s - 4) s.

Lemma last_four_app a b : String.length b = 4%nat -> last_four (a +:+ b) = b.
Proof.
  intros Hb. unfold last_four. rewrite append_length, Hb, Nat.add_sub. apply string_drop_app.
Qed.

Section World.
Variable store : string.

Definition store_lock : string := store +:+ ".lock".

Definition place_of (p : string) : place :=
  if String.eqb p store then StorePlace
  else if String.eqb p store_lock then LockPlace
  else if String.eqb (last_four p) ".tmp" then TempPlace
  else Elsewhere.

(** ** Operations on the files

    An operation does what it says or fails and changes nothing; a failed write may
    leave anything in the file. *)

Definition created (p : string) (w w' : files) : Prop :=
  match place_of p with
  | StorePlace => f_state w = None /\ w' = Files (Some (Raw "")) (f_lock w) (f_temps w)
  | LockPlace => f_lock w = None /\ w' = Files (f_state w) (Some 0) (f_temps w)
  | TempPlace => f_temps w !! p = None /\ w' = Files (f_state w) (f_lock w) (<[p := Raw ""]> (f_temps w))
  | Elsewhere => w' = w
  end.

Definition written (p : string) (c : content) (w w' : files) : Prop :=
  match place_of p with
  | StorePlace => w' = Files (Some c) (f_lock w) (f_temps w)
  | TempPlace => w' = Files (f_state w) (f_lock w) (<[p := c]> (f_temps w))
  | _ => w' = w
  end.

Definition removed (p : string) (w w' : files) : Prop :=
  match place_of p with
  | StorePlace => w' = Files None (f_lock w) (f_temps w)
  | LockPlace => w' = Files (f_state w) None (f_temps w)
  | TempPlace => w' = Files (f_state w) (f_lock w) (delete p (f_temps w))
  | Elsewhere => w' = w
  end.

(** [from] becomes, or is also, [to]. *)
Definition placed (from to : string) (gone : bool) (w w' : files) : Prop :=
  match place_of to with
  | StorePlace => exists c, f_temps w !! from = Some c /\
      w' = Files (Some c) (f_lock w) (if gone then delete from (f_temps w) else f_temps w)
  | LockPlace => (gone = false -> f_lock w = None) /\ w' = Files (f_state w) (Some 0) (f_temps w)
  | TempPlace => exists temps, w' = Files (f_state w) (f_lock w) temps
  | Elsewhere => w' = w
  end.

Definition seen_content (p : string) (x : js_error + content) (w : files) : Prop :=
  match place_of p, x with
  | StorePlace, inr c => f_state w = Some c
  | StorePlace, inl e => has_code ENOENT e = true -> f_state w = None
  | _, _ => True
  end.

Definition seen_there {A} (p : string) (x : js_error + A) (w : files) : Prop :=
  match place_of p, x with
  | StorePlace, inr _ => f_state w <> None
  | StorePlace, inl e => has_code ENOENT e = true -> f_state w = None
  | _, _ => True
  end.

Definition on_success {A} (x : js_error + A) (w w' : files) (P : files -> files -> Prop) : Prop :=
  match x with inr _ => P w w' | inl _ => w' = w end.

Definition store_act X (op : store_op X) (w : files) (x : X) (w' : files) : Prop :=
  match op in store_op X return X -> Prop with
  | Lstat p => fun x => w' = w /\ seen_there p x w
  | OpenRead p => fun x => w' = w /\ seen_there p x w
  | ReadWhole p | HandleRead p => fun x => w' = w /\ seen_content p x w
  | CreateWx _ p => fun x => on_success x w w' (created p)
  | HandleWrite p c => fun x => match x with inr _ => written p c w w' | inl _ => exists c', written p c' w w' end
  | RenameTo p q => fun x => on_success x w w' (placed p q true)
  | LinkTo p q => fun x => on_success x w w' (placed p q false)
  | RemoveFile p => fun x => on_success x w w' (removed p)
  | _ => fun _ => w' = w
  end x.

(** ** Programs that only look *)

Section Quiet.
Fixpoint quiet {A} (p : storing A) : Prop :=
  match p with
  | Ret _ | Throw _ => True
  | Vis op k => forall w x w', store_act _ op w x w' -> w' = w /\ quiet (k x)
  end.

Lemma quiet_bind {A B} (p : storing A) (f : A -> storing B) : quiet p -> (forall a, quiet (f a)) -> quiet (pbind p f).
Proof.
  intros Hp Hf. induction p as [a|e|X op k IH]; cbn in *; [done..|]. intros w x w' Ha. destruct (Hp w x w' Ha). auto.
Qed.

Lemma quiet_catch {A} (p : storing A) h : quiet p -> (forall e, quiet (h e)) -> quiet (pcatch p h).
Proof.
  intros Hp Hh. induction p as [a|e|X op k IH]; cbn in *; [done..|]. intros w x w' Ha. destruct (Hp w x w' Ha). auto.
Qed.

Lemma quiet_attempt {A} (p : storing A) : quiet p -> quiet (attempt p).
Proof. intros Hp. unfold attempt. apply quiet_catch; [|done]. by apply quiet_bind. Qed.

Lemma quiet_perform {X} (op : store_op (js_error + X)) : (forall w x w', store_act _ op w x w' -> w' = w) -> quiet (perform op).
Proof. intros Ho w x w' Ha. split; [by eapply Ho|]. by destruct x. Qed.

Lemma quiet_ask {X} (op : store_op X) : (forall w x w', store_act _ op w x w' -> w' = w) -> quiet (ask op).
Proof. intros Ho w x w' Ha. split; [by eapply Ho|done]. Qed.

Lemma quiet_finally {A} (p : storing A) q : quiet p -> quiet q -> quiet (pfinally p q).
Proof.
  intros Hp Hq. unfold pfinally. apply quiet_bind; [by apply quiet_attempt|]. intros r. apply quiet_bind; [done|].
  intros _. by destruct r.
Qed.
End Quiet.

(** An operation that changes none of the files. *)
Local Ltac no_change := intros ?w ?x ?w' ?Ha; cbn in Ha; first [exact Ha|exact (proj1 Ha)].

Local Ltac quiet_step :=
  match goal with
  | |- quiet (Ret _) => exact I
  | |- quiet (Throw _) => exact I
  | |- quiet (pbind _ _) => apply quiet_bind; [|intros ?]
  | |- quiet (attempt _) => apply quiet_attempt
  | |- quiet (pfinally _ _) => apply quiet_finally
  | |- quiet (perform _) => apply quiet_perform; no_change
  | |- quiet (ask _) => apply quiet_ask; no_change
  | |- quiet (if ?b then _ else _) => destruct b
  | |- quiet (match ?v with _ => _ end) => destruct v
  | _ => progress cbv zeta
  end.

Section Programs.
Variable getuid : option Z.
Variable pid : Z.

Lemma quiet_lstat_or_none p : quiet (lstat_or_none p).
Proof. unfold lstat_or_none. repeat quiet_step. Qed.

Lemma quiet_parent p : quiet (ensureParentDir getuid p).
Proof. unfold ensureParentDir. repeat first [apply quiet_lstat_or_none|quiet_step]. Qed.

Lemma quiet_perms p m : quiet (assertSecureStorePerms p m).
Proof. unfold assertSecureStorePerms. repeat quiet_step. Qed.

Lemma quiet_read_plain p : quiet (read_plain getuid p).
Proof. unfold read_plain, or_missing. repeat first [apply quiet_lstat_or_none|apply quiet_perms|quiet_step]. Qed.

Lemma quiet_read p o : so_secureRoot o = None -> quiet (readStoreFile getuid p o).
Proof. intros Ho. unfold readStoreFile. rewrite Ho. destruct (negb _); [exact I|]. apply quiet_read_plain. Qed.

Lemma quiet_inspect p o : so_secureRoot o = None -> quiet (inspect getuid p o).
Proof. intros Ho. unfold inspect. repeat first [by apply quiet_read|quiet_step]. Qed.

Lemma quiet_alive n : quiet (isProcessAlive n).
Proof. unfold isProcessAlive. repeat quiet_step. Qed.
End Programs.
End World.

(** * A transaction on a store, step by step

    Every operation of [withStore] is a step of [LockedFile]: the store changes by
    the committed content alone, made from the content the transaction read.  With
    it goes what became of the transaction: nothing yet, a commit, or the finding
    that what the store holds needs none. *)

Inductive verdict := Undecided | Declined | Committed.

Record transaction := Transaction { tx_process : process; tx_verdict : verdict }.

(** [declines]: the transaction commits nothing when this is the file.  A commit is
    made once, and from [allowed] alone. *)
Inductive tx_step (allowed : option content -> content -> Prop) (declines : option content -> bool) :
    transaction -> files -> transaction -> files -> Prop :=
| tx_works p w p' w' v :
    file_step (fun _ _ => False) p w p' w' -> tx_step allowed declines (Transaction p v) w (Transaction p' v) w'
| tx_sees p w seen temp :
    pr_phase p = Inside seen temp ->
    tx_step allowed declines (Transaction p Undecided) w
      (Transaction (move_to p (Inside (Some (f_state w)) temp)) (if declines (f_state w) then Declined else Undecided)) w
| tx_commits p w old n c x :
    pr_phase p = Inside (Some old) (Some (n, c)) -> allowed old c -> f_temps w !! n = Some x ->
    tx_step allowed declines (Transaction p Undecided) w
      (Transaction (move_to p (Inside (Some (Some c)) None)) Committed) (Files (Some x) (f_lock w) (delete n (f_temps w))).

(** What a transaction does to the files is what [LockedFile] allows. *)
Lemma file_step_mono (P Q : option content -> content -> Prop) p w p' w' :
  (forall old c, P old c -> Q old c) -> file_step P p w p' w' -> file_step Q p w p' w'.
Proof. intros HPQ []; try (by econstructor; eauto). Qed.

Lemma tx_step_file allowed declines t w t' w' :
  tx_step allowed declines t w t' w' -> file_step allowed (tx_process t) w (tx_process t') w'.
Proof.
  intros [p w0 p' w1 v Hs|p w0 seen temp Hp|p w0 old n c x Hp Ha Hx]; cbn.
  - eapply file_step_mono; [|exact Hs]. done.
  - by apply (f_see _ p w0 seen temp).
  - by apply (f_commit _ p w0 old).
Qed.

Section Sim.
Variable store : string.
Hypothesis store_json : last_four store = "json".
Variable allowed : option content -> content -> Prop.
Variable declines : option content -> bool.
Variable getuid : option Z.
Variable pid : Z.

Local Abbreviation sim := (simulates (store_act store) (tx_step allowed declines)).

Definition inside (seen : option (option content)) (temp : option (string * content)) (v : verdict) : transaction :=
  Transaction (at_phase (fun _ => True) (Inside seen temp)) v.

Definition outside : transaction := Transaction (at_phase (fun _ => True) Outside) Undecided.

Definition is_in (v : verdict) (s : transaction) : Prop := exists seen temp, s = inside seen temp v.

Definition is_within (s : transaction) : Prop := exists v, is_in v s.

Definition decided (s : transaction) : Prop := tx_verdict s <> Undecided.

(** Under the lock, and decided. *)
Definition is_decided (s : transaction) : Prop := is_within s /\ decided s.

Lemma in_inside seen temp v : is_in v (inside seen temp v).
Proof. by eexists _, _. Qed.

Lemma within_inside seen temp v : is_within (inside seen temp v).
Proof. eexists. apply in_inside. Qed.

Definition verdict_on (raw : option content) : verdict := if declines raw then Declined else Undecided.

(** ** The four kinds of files *)

Lemma place_store : place_of store store = StorePlace.
Proof. unfold place_of. by rewrite String.eqb_refl. Qed.

Lemma last_four_lock : last_four (store_lock store) = "lock".
Proof. unfold store_lock. change ".lock" with ("." +:+ "lock"). rewrite <-append_assoc. by apply last_four_app. Qed.

Lemma lock_is_not_store : store_lock store <> store.
Proof.
  intros E. apply (f_equal last_four) in E. by rewrite last_four_lock, store_json in E.
Qed.

Lemma place_lock : place_of store (store_lock store) = LockPlace.
Proof.
  unfold place_of. rewrite String.eqb_refl. destruct (String.eqb_spec (store_lock store) store) as [E|]; [|done].
  by apply lock_is_not_store in E.
Qed.

Lemma last_four_temp p hex suffix : String.length suffix = 4%nat -> last_four (temp_name pid p hex suffix) = suffix.
Proof.
  intros Hs. unfold temp_name. rewrite <-!append_assoc. by apply last_four_app.
Qed.

Lemma place_by_suffix p : last_four p <> "json" -> last_four p <> "lock" ->
  place_of store p = if String.eqb (last_four p) ".tmp" then TempPlace else Elsewhere.
Proof.
  intros Hj Hl. unfold place_of. destruct (String.eqb_spec p store) as [->|]; [done|].
  destruct (String.eqb_spec p (store_lock store)) as [->|]; [|done]. by rewrite last_four_lock in Hl.
Qed.

Lemma place_temp p hex : place_of store (temp_name pid p hex ".tmp") = TempPlace.
Proof. rewrite place_by_suffix; by rewrite last_four_temp. Qed.

Lemma place_owner p hex : place_of store (temp_name pid p hex ".acq") = Elsewhere.
Proof. rewrite place_by_suffix; by rewrite last_four_temp. Qed.

(** ** Looking *)

Lemma sim_looks {A} s (p : storing A) Q R : quiet store p -> (forall a, Q a s) -> (forall e, R e s) -> sim s p Q R.
Proof.
  intros Hp HQ HR. induction p as [a|e|X op k IH]; cbn in *; [done..|]. intros w x w' Ha. destruct (Hp w x w' Ha) as [-> Hk].
  exists s. split; [destruct s as [p v]; apply tx_works; constructor|]. by apply IH.
Qed.

Lemma sim_look {X} s (op : store_op (js_error + X)) Q R :
  (forall w x w', store_act store _ op w x w' -> w' = w) -> (forall a, Q a s) -> (forall e, R e s) -> sim s (perform op) Q R.
Proof. intros Ho. apply sim_looks. by apply quiet_perform. Qed.

(** The read of the store: what it returns is the file's content at some moment
    since, and nobody else changes it meanwhile. *)
Lemma sim_read_store : sim (inside None None Undecided) (readStoreFile getuid store plain_options)
  (fun raw s => s = inside (Some raw) None (verdict_on raw)) (fun _ s => is_within s).
Proof.
  unfold readStoreFile. destruct (negb (resolved_path store)); [apply within_inside|].
  change (so_secureRoot plain_options) with (@None string). cbv iota. unfold read_plain, lstat_or_none.
  assert (Hsee : forall w raw, f_state w = raw -> tx_step allowed declines (inside None None Undecided) w (inside (Some raw) None (verdict_on raw)) w).
  { intros w raw <-. by apply (tx_sees _ _ (at_phase (fun _ => True) (Inside None None)) w None None). }
  assert (Hstay : forall w, tx_step allowed declines (inside None None Undecided) w (inside None None Undecided) w)
    by (intros w; apply tx_works; constructor).
  apply simulates_bind, simulates_bind, simulates_attempt, simulates_perform. intros w x w' [-> Hseen].
  unfold seen_there in Hseen. rewrite place_store in Hseen. destruct x as [e|m].
  - destruct (has_code ENOENT e); [|exists (inside None None Undecided); split; [apply Hstay|apply within_inside]].
    exists (inside (Some None) None (verdict_on None)). split; [|done]. by apply Hsee, Hseen.
  - exists (inside None None Undecided). split; [apply Hstay|]. cbn [simulates].
    destruct (md_link m || negb (md_file m)); [apply within_inside|]. destruct (wrong_owner getuid m); [apply within_inside|].
    apply simulates_bind, sim_looks; [apply quiet_perms| |intros e; apply within_inside]. intros [].
    unfold or_missing. apply simulates_bind, simulates_attempt, simulates_perform. intros w1 x w1' [-> Hc].
    unfold seen_content in Hc. rewrite place_store in Hc. destruct x as [e|c].
    + destruct (has_code ENOENT e); [|exists (inside None None Undecided); split; [apply Hstay|apply within_inside]].
      exists (inside (Some None) None (verdict_on None)). split; [|done]. by apply Hsee, Hc.
    + exists (inside (Some (Some c)) None (verdict_on (Some c))). split; [|done]. by apply Hsee.
Qed.

(** ** Writing *)

Local Ltac working := apply tx_works.

Lemma sim_remove_temp seen temp v tmp : place_of store tmp = TempPlace ->
  sim (inside seen temp v) (cleanup tmp false None) (fun _ s => is_in v s) (fun _ s => is_in v s).
Proof.
  intros Ht. unfold cleanup. apply simulates_bind, simulates_attempt, simulates_perform. intros w x w' Ha.
  destruct x as [e|[]]; cbn in Ha.
  - subst w'. exists (inside seen temp v). split; [working; constructor|]. apply in_inside.
  - unfold removed in Ha. rewrite Ht in Ha. subst w'. exists (inside seen None v). split; [working|apply in_inside].
    by apply (f_temp_lost _ (at_phase _ (Inside seen temp)) _ seen temp).
Qed.

Lemma sim_fill old v tmp c : place_of store tmp = TempPlace ->
  sim (inside (Some old) (Some (tmp, Raw "")) v) (fill_temp getuid tmp c plain_options)
    (fun r s => match r with inl _ => is_in v s | inr o => o = None /\ s = inside (Some old) (Some (tmp, c)) v end) (fun _ s => is_in v s).
Proof.
  intros Ht. unfold fill_temp. cbn [so_verifyLeafIdentity plain_options].
  assert (Hend : forall e temp, sim (inside (Some old) temp v)
    (do! attempt (perform (HandleClose tmp)); do! cleanup tmp false None; Ret (inl e))
    (fun (r : js_error + option meta) s => match r with inl _ => is_in v s | inr o => o = None /\ s = inside (Some old) (Some (tmp, c)) v end)
    (fun _ s => is_in v s)).
  { intros e temp. apply simulates_bind, simulates_attempt, sim_look; [by intros w x w' Ha| |].
    all: intros ?; apply simulates_bind; (eapply simulates_mono; [by apply sim_remove_temp| |done]); by intros [] s Hs. }
  apply simulates_bind, simulates_attempt, simulates_bind, simulates_perform. intros w x w' Ha. cbn in Ha. unfold written in Ha.
  destruct x as [e|[]].
  - destruct Ha as [c' Ha]. rewrite Ht in Ha. subst w'. exists (inside (Some old) None v).
    split; [working; by eapply (f_temp_lost _ (at_phase _ (Inside _ _)))|]. apply Hend.
  - rewrite Ht in Ha. subst w'. exists (inside (Some old) (Some (tmp, c)) v).
    split; [working; by eapply (f_temp _ (at_phase _ (Inside _ _)) _ (Some old))|].
    apply sim_look; [by intros w1 x w1' Ha|done|]. intros e. apply Hend.
Qed.

Lemma sim_publish old tmp c : place_of store tmp = TempPlace -> allowed old c ->
  sim (inside (Some old) (Some (tmp, c)) Undecided) (publish getuid store tmp None plain_options)
    (fun _ s => is_in Committed s) (fun _ s => is_within s).
Proof.
  intros Ht Hal. unfold publish. cbn [so_secureRoot so_exclusive plain_options].
  cbn [pbind]. apply simulates_bind, simulates_perform. intros w x w' Ha. destruct x as [e|[]]; cbn in Ha.
  - subst w'. exists (inside (Some old) (Some (tmp, c)) Undecided). split; [working; constructor|apply within_inside].
  - unfold placed in Ha. rewrite place_store in Ha. destruct Ha as (x & Hx & ->).
    exists (inside (Some (Some c)) None Committed).
    split; [by apply (tx_commits _ _ (at_phase _ (Inside (Some old) (Some (tmp, c)))) _ old)|]. cbv zeta.
    apply sim_looks; [|intros []; apply in_inside|intros e; apply within_inside].
    apply quiet_bind; [by apply quiet_perform; intros ? ? ? []|]. intros [].
    apply quiet_finally; apply quiet_perform; by intros.
Qed.

(** A write of the store by who holds the lock and has read [old]: where it returns
    it is committed. *)
Lemma sim_commit old c : allowed old c ->
  sim (inside (Some old) None Undecided) (atomicWrite0600 getuid pid store c plain_options)
    (fun _ s => is_in Committed s) (fun _ s => is_within s).
Proof.
  intros Hal. unfold atomicWrite0600. change (so_secureRoot plain_options) with (@None string). cbv iota.
  apply simulates_bind, sim_looks; [apply quiet_parent| |intros e; apply within_inside]. intros [].
  apply simulates_bind. cbn [simulates ask]. intros w hex w' Ha. cbn in Ha. subst w'.
  exists (inside (Some old) None Undecided). split; [working; constructor|].
  cbv zeta. assert (Ht := place_temp store hex). set (tmp := temp_name pid store hex ".tmp") in *. clearbody tmp.
  apply simulates_bind, simulates_perform. intros w1 x w1' Ha. destruct x as [e|[]]; cbn in Ha.
  { subst w1'. exists (inside (Some old) None Undecided). split; [working; constructor|apply within_inside]. }
  unfold created in Ha. rewrite Ht in Ha. destruct Ha as [_ ->].
  exists (inside (Some old) (Some (tmp, Raw "")) Undecided).
  split; [working; by apply (f_temp _ (at_phase _ (Inside (Some old) None)) _ (Some old) None)|].
  apply simulates_bind. eapply simulates_mono; [by apply sim_fill| |by intros e s Hs; exists Undecided].
  intros [e|o] s; [by intros Hs; exists Undecided|]. intros [-> ->].
  apply simulates_bind, sim_look; [by intros w2 x w2' Ha| |intros e; apply within_inside]. intros [].
  apply simulates_catch. eapply simulates_mono; [by apply sim_publish|done|]. intros e s (v & seen & temp & ->).
  apply simulates_bind. eapply simulates_mono; [by apply sim_remove_temp| |]; intros r s Hs; by exists v.
Qed.

(** ** The lock *)

Section Locked.
Context {A : Type}.
Variable op : storing A.
Hypothesis op_sim : sim (inside None None Undecided) op (fun _ s => is_decided s) (fun _ s => is_within s).

Local Abbreviation ends p := (sim outside p (fun _ s => decided s) (fun _ _ => True)).

Lemma sim_release_store seen temp v :
  sim (inside seen temp v) (release (store_lock store)) (fun _ s => tx_verdict s = v) (fun _ _ => True).
Proof.
  unfold release. apply simulates_bind, simulates_attempt, simulates_perform. intros w x w' Ha. destruct x as [e|[]]; cbn in Ha.
  - subst w'. exists (inside seen temp v). split; [apply tx_works; constructor|]. by destruct (has_code ENOENT e).
  - unfold removed in Ha. rewrite place_lock in Ha. subst w'. eexists.
    split; [apply tx_works; by eapply (f_release _ (at_phase _ (Inside seen temp)) _ seen temp)|done].
Qed.

Lemma sim_held : sim (inside None None Undecided) (pfinally op (release (store_lock store))) (fun _ s => decided s) (fun _ _ => True).
Proof.
  unfold pfinally. apply simulates_bind, simulates_attempt. eapply simulates_mono; [exact op_sim| |].
  - intros r s [(v & seen & temp & ->) Hd]. apply simulates_bind. eapply simulates_mono; [apply sim_release_store| |done].
    intros [] s <-. exact Hd.
  - intros e s (v & seen & temp & ->). apply simulates_bind. by eapply simulates_mono; [apply sim_release_store|..].
Qed.

Lemma sim_acquire_store attempts waitMs tmp o : so_secureRoot o = None ->
  ends (acquire_loop getuid attempts waitMs (store_lock store) tmp o op).
Proof.
  intros Ho. induction attempts as [|n IH]; cbn [acquire_loop]; [done|]. cbv zeta.
  apply simulates_bind, simulates_attempt, simulates_perform. intros w x w' Ha. destruct x as [e|[]]; cbn in Ha.
  - subst w'. exists outside. split; [apply tx_works; constructor|]. destruct (negb (has_code EEXIST e)); [done|].
    assert (Hlook : forall f : option content -> storing A, (forall stored, ends (f stored)) -> ends (pbind (inspect getuid (store_lock store) o) f)).
    { intros f Hf. apply simulates_bind, sim_looks; [by apply quiet_inspect|exact Hf|done]. }
    apply Hlook. intros [raw|]; [|exact IH].
    apply simulates_bind, sim_looks; [destruct (parseLockPayload raw); [apply quiet_alive|exact I]| |done]. intros [].
    + apply simulates_bind. cbn [simulates ask]. intros w1 [] w1' Ha. cbn in Ha. subst w1'. exists outside. split; [apply tx_works; constructor|exact IH].
    + apply Hlook. intros [now|]; [|exact IH]. by destruct (bool_decide (now = raw)).
  - unfold placed in Ha. rewrite place_lock in Ha. destruct Ha as [Hl ->].
    exists (inside None None Undecided).
    split; [apply tx_works; by apply (f_acquire _ (at_phase _ Outside) _ 0); [|apply Hl]|]. exact sim_held.
Qed.

Lemma sim_lock attempts waitMs o : so_secureRoot o = None ->
  ends (withStoreLock getuid pid attempts waitMs (store_lock store) o op).
Proof.
  intros Ho. unfold withStoreLock. rewrite Ho. apply simulates_bind, sim_look; [by intros w x w' Ha| |done]. intros [].
  apply simulates_bind. cbn [simulates ask]. intros w start w' Ha. cbn in Ha. subst w'. exists outside. split; [apply tx_works; constructor|].
  apply simulates_bind. cbn [simulates ask]. intros w1 hex w1' Ha. cbn in Ha. subst w1'. exists outside. split; [apply tx_works; constructor|].
  cbv zeta. assert (Ht := place_owner (store_lock store) hex). set (tmp := temp_name _ _ hex ".acq") in *. clearbody tmp.
  assert (Hq : quiet store (do! attempt (perform (RemoveFile tmp)); Ret tt)).
  { apply quiet_bind; [|done]. apply quiet_attempt, quiet_perform. intros w' x w'' Ha. cbn in Ha. unfold removed in Ha. rewrite Ht in Ha.
    by destruct x. }
  apply simulates_bind, sim_look; [|intros []|done].
  { intros w' x w'' Ha. cbn in Ha. unfold created in Ha. rewrite Ht in Ha. by destruct x. }
  apply simulates_bind, sim_looks; [|intros []|done].
  { apply quiet_finally; apply quiet_perform; intros w' x w'' Ha; cbn in Ha; [|done]. unfold written in Ha. rewrite Ht in Ha.
    destruct x; [by destruct Ha|done]. }
  unfold pfinally. apply simulates_bind, simulates_attempt. eapply simulates_mono; [by apply sim_acquire_store| |];
    intros r s Hs; apply simulates_bind, sim_looks; try done; by intros [].
Qed.
End Locked.

(** ** Transactions *)

Section Transaction.
Context {St A : Type}.
Variable emptyState : St.
Variable parse : content -> js_error + option St.
Variable print : St -> content.

(** What the content of the file is to the transaction. *)
Definition loads (raw : option content) (data : St) : Prop :=
  match raw with None => data = emptyState | Some c => parse c = inr (Some data) end.

Variable op : St -> (St -> storing unit) -> storing A.
Hypothesis op_sim : forall raw data, loads raw data ->
  sim (inside (Some raw) None (verdict_on raw)) (op data (fun data' => atomicWrite0600 getuid pid store (print data') plain_options))
    (fun _ s => is_decided s) (fun _ s => is_within s).

Lemma sim_withStore :
  sim outside (withStore getuid pid store emptyState parse print plain_options op)
    (fun _ s => decided s) (fun _ _ => True).
Proof.
  unfold withStore. apply sim_lock; [|done]. apply simulates_bind. eapply simulates_mono; [apply sim_read_store| |done].
  intros raw s ->. cbv zeta. destruct raw as [c|].
  - destruct (parse c) as [e|[data|]] eqn:E; try apply within_inside. by apply op_sim.
  - by apply op_sim.
Qed.
End Transaction.
End Sim.
