(* ===== verification/Seats.v ===== *)
(** * The seat store ([src/seats.ts])

    A seat is a credential, its state and its worktree in one record, under the
    ref its identity determines.  The store is the list of records in the order of
    the file's members.  Each operation is a transaction on the store run by
    [SeatStore.withStore]; each reader looks at the store as it is.

    A record keeps the members the code does not know in [s_rest]: a spread copies
    them. *)

From S2P Require Import Prelude JsDate Assoc JsonText Effects Sha256 LeaseFs LocalServerCursor SeatStore.

Open Scope Z_scope.
Open Scope prog_scope.

(** ** Records *)

Inductive operation_kind := SeatKind | Sibling.
Inductive seat_state := Pending | Active.
Inductive role_class := QueenClass | WorkerClass.

#[export] Instance operation_kind_eq_dec : EqDecision operation_kind.
Proof. solve_decision. Defined.
#[export] Instance seat_state_eq_dec : EqDecision seat_state.
Proof. solve_decision. Defined.
#[export] Instance role_class_eq_dec : EqDecision role_class.
Proof. solve_decision. Defined.

(* src/src/seats.ts 31-35 SeatOperation *)
Record seat_operation := SeatOperation {
  so_projectRoot : string;
  so_kind : operation_kind;
  so_operationKey : string;
  so_rest : list (string * json)
}.

#[export] Instance seat_operation_eq_dec : EqDecision seat_operation.
Proof. solve_decision. Defined.

(** What a ref is made of. *)
Record seat_identity := SeatIdentity {
  si_origin : string;
  si_trustIdentity : string;
  si_cubeId : string;
  si_roleId : string;
  si_operation : seat_operation
}.

(* src/src/seats.ts 38-62 SeatRecord *)
Record seat := Seat {
  s_identity : seat_identity;
  s_credential : string;
  s_state : seat_state;
  s_bindingOrder : option Z;
  s_droneId : option string;
  s_sessionId : option string;
  s_worktree : option string;
  s_commonDir : option string;
  s_repositoryOrigin : option string;
  s_name : option string;
  s_droneLabel : option string;
  s_roleName : option string;
  s_roleClass : option role_class;
  s_isHumanSeat : option bool;
  s_rest : list (string * json)
}.

#[export] Instance seat_identity_eq_dec : EqDecision seat_identity.
Proof. solve_decision. Defined.
#[export] Instance seat_eq_dec : EqDecision seat.
Proof. solve_decision. Defined.

(* src/src/seats.ts 64-67 SeatsFile *)
Definition seats := list (string * seat).

Definition kind_name (k : operation_kind) : string := match k with SeatKind => "seat" | Sibling => "sibling" end.

(* src/src/seats.ts 70-93 seatRef *)
Definition seatRef (i : seat_identity) : string :=
  "borg-server-session:" +:+ sha256_hex (join nul
    [si_origin i; si_trustIdentity i; si_cubeId i; si_roleId i; so_projectRoot (si_operation i);
     kind_name (so_kind (si_operation i)); so_operationKey (si_operation i)]).

Definition record_ref (r : seat) : string := seatRef (s_identity r).

(* src/src/seats.ts 95-97 digestOf *)
Definition digestOf (bearer : string) : string := sha256_hex bearer.

(* src/src/seats.ts 99-101 emptyStore *)
Definition emptyStore : seats := [].

(** ** Records as JSON *)

Definition ref_prefix : string := "borg-server-session:".

(* src/src/seats.ts 28-28 REF_RE *)
Definition is_ref (s : string) : bool :=
  starts_with ref_prefix s && (String.length s =? 84)%nat && string_forallb is_lower_hex (string_drop 20 s).

Definition is_base64url (c : ascii) : bool := is_alnum c || Ascii.eqb c "_" || Ascii.eqb c "-".

(* src/src/seats.ts 105-105 SEAT_BEARER_RE *)
Definition is_bearer (s : string) : bool :=
  (43 <=? String.length s)%nat && (String.length s <=? 1024)%nat && string_forallb is_base64url s.

(* src/src/seats.ts 108-110 isNonEmptyString *)
Definition isNonEmptyString (v : option json) : option string :=
  match v with Some (JStr s) => if String.eqb s "" then None else Some s | _ => None end.

Definition kind_of_name (v : option json) : option operation_kind :=
  match v with
  | Some (JStr s) => if String.eqb s "seat" then Some SeatKind else if String.eqb s "sibling" then Some Sibling else None
  | _ => None
  end.

(** A member that is absent, or a value [f] accepts. *)
Definition optional {A} (f : json -> option A) (v : option json) : option (option A) :=
  match v with None => Some None | Some x => Some <$> f x end.

Definition as_text (p : string -> bool) (v : json) : option string :=
  match v with JStr s => if p s then Some s else None | _ => None end.
Definition any_text : json -> option string := as_text (fun _ => true).
Definition non_empty : json -> option string := as_text (fun s => negb (String.eqb s "")).
Definition as_uuid : json -> option string := as_text is_uuid.
Definition as_role_class (v : json) : option role_class :=
  match v with
  | JStr s => if String.eqb s "queen" then Some QueenClass else if String.eqb s "worker" then Some WorkerClass else None
  | _ => None
  end.
Definition as_bool (v : json) : option bool := match v with JBool x => Some x | _ => None end.
Definition as_order (v : json) : option Z :=
  match v with JNum z => if is_safe_integer z && (1 <=? z) then Some z else None | _ => None end.

Definition operation_members : list string := ["projectRoot"; "kind"; "operationKey"].

Definition unknown_members (known : list string) (v : json) : list (string * json) :=
  match v with JObj fields => List.filter (fun kv => negb (bool_decide (fst kv ∈ known))) fields | _ => [] end.

(* src/src/seats.ts 112-121 isValidOperation *)
Definition isValidOperation (v : option json) : option seat_operation :=
  op ← v;
  root ← isNonEmptyString (jget "projectRoot" op);
  kind ← kind_of_name (jget "kind" op);
  key ← isNonEmptyString (jget "operationKey" op);
  Some (SeatOperation root kind key (unknown_members operation_members op)).

Definition seat_members : list string :=
  ["origin"; "trustIdentity"; "cubeId"; "roleId"; "operation"; "credential"; "state"; "bindingOrder"; "droneId";
   "sessionId"; "worktree"; "commonDir"; "repositoryOrigin"; "name"; "droneLabel"; "roleName"; "roleClass"; "isHumanSeat"].

Definition as_state (v : option json) : option seat_state :=
  match v with
  | Some (JStr s) => if String.eqb s "pending" then Some Pending else if String.eqb s "active" then Some Active else None
  | _ => None
  end.

(** An active record has its session and its binding; a pending one has neither a
    session nor an order. *)
Definition state_consistent (r : seat) : bool :=
  match s_state r with
  | Active => bool_decide (is_Some (s_droneId r)) && bool_decide (is_Some (s_sessionId r)) &&
      bool_decide (is_Some (s_worktree r)) && bool_decide (is_Some (s_name r)) && bool_decide (is_Some (s_droneLabel r))
  | Pending => bool_decide (s_sessionId r = None) && bool_decide (s_bindingOrder r = None)
  end.

(** The record, when it is valid. *)
(* src/src/seats.ts 132-180 isValidSeatRecord *)
Definition isValidSeatRecord (ref : string) (v : json) : option seat :=
  if negb (is_ref ref) then None
  else
    origin ← isNonEmptyString (jget "origin" v);
    trustIdentity ← isNonEmptyString (jget "trustIdentity" v);
    cubeId ← isNonEmptyString (jget "cubeId" v);
    roleId ← isNonEmptyString (jget "roleId" v);
    operation ← isValidOperation (jget "operation" v);
    credential ← (x ← jget "credential" v; as_text is_bearer x);
    state ← as_state (jget "state" v);
    bindingOrder ← optional as_order (jget "bindingOrder" v);
    name ← optional any_text (jget "name" v);
    droneLabel ← optional any_text (jget "droneLabel" v);
    roleName ← optional any_text (jget "roleName" v);
    roleClass ← optional as_role_class (jget "roleClass" v);
    isHumanSeat ← optional as_bool (jget "isHumanSeat" v);
    worktree ← optional any_text (jget "worktree" v);
    commonDir ← optional non_empty (jget "commonDir" v);
    repositoryOrigin ← optional non_empty (jget "repositoryOrigin" v);
    droneId ← optional as_uuid (jget "droneId" v);
    sessionId ← optional as_uuid (jget "sessionId" v);
    let r := Seat (SeatIdentity origin trustIdentity cubeId roleId operation) credential state bindingOrder droneId
      sessionId worktree commonDir repositoryOrigin name droneLabel roleName roleClass isHumanSeat
      (unknown_members seat_members v) in
    if state_consistent r && String.eqb (record_ref r) ref then Some r else None.

Definition operation_json (o : seat_operation) : json :=
  JObj ([("projectRoot", JStr (so_projectRoot o)); ("kind", JStr (kind_name (so_kind o)));
         ("operationKey", JStr (so_operationKey o))] ++ so_rest o).

Definition role_class_name (c : role_class) : string := match c with QueenClass => "queen" | WorkerClass => "worker" end.

Definition seat_json (r : seat) : json :=
  let i := s_identity r in
  JObj ([("origin", JStr (si_origin i)); ("trustIdentity", JStr (si_trustIdentity i)); ("cubeId", JStr (si_cubeId i));
         ("roleId", JStr (si_roleId i)); ("operation", operation_json (si_operation i)); ("credential", JStr (s_credential r));
         ("state", JStr (match s_state r with Pending => "pending" | Active => "active" end))] ++
        optional_field "bindingOrder" (JNum <$> s_bindingOrder r) ++
        optional_field "droneId" (JStr <$> s_droneId r) ++
        optional_field "sessionId" (JStr <$> s_sessionId r) ++
        optional_field "worktree" (JStr <$> s_worktree r) ++
        optional_field "commonDir" (JStr <$> s_commonDir r) ++
        optional_field "repositoryOrigin" (JStr <$> s_repositoryOrigin r) ++
        optional_field "name" (JStr <$> s_name r) ++
        optional_field "droneLabel" (JStr <$> s_droneLabel r) ++
        optional_field "roleName" (JStr <$> s_roleName r) ++
        optional_field "roleClass" ((fun c => JStr (role_class_name c)) <$> s_roleClass r) ++
        optional_field "isHumanSeat" (JBool <$> s_isHumanSeat r) ++ s_rest r).

(** [JSON.stringify(data, null, 2) + '\n'], as the value it parses to. *)
Definition store_content (data : seats) : content :=
  Json (JObj [("version", JNum 1); ("seats", JObj (map (fun kv => (fst kv, seat_json (snd kv))) data))]).

(** ** Reading the file *)

Section Parse.
Context `{UrlEnv}.

(** [Object.entries] lists the members whose name is an array index first. *)
Definition array_index (k : string) : bool :=
  negb (String.eqb k "") && string_forallb is_digit k && String.eqb (js_String (JNum (digits_value 0 k))) k &&
  (digits_value 0 k <? 4294967295).

(** [new URL(origin)] is an https URL whose origin is [origin] itself. *)
Definition canonicalOrigin (v : option json) : option string :=
  match v with
  | Some (JStr s) => if bool_decide (url_origin s = Some s) && starts_with "https://" s then Some s else None
  | _ => None
  end.

Definition exactReplacement (v : json) : bool :=
  match v with
  | JObj [(k, JStr credential)] => String.eqb k "credential" && is_bearer credential
  | _ => false
  end.

(* src/src/server-errors.ts 219-224 LegacySessionCredentialCollisionError *)
Definition LegacySessionCredentialCollisionError (origin : string) : js_error :=
  ErrorOf "LegacySessionCredentialCollisionError" None None "Local session credential collision detected" [("origin", inl origin)].

(** The record of an old client that was being replaced is reported, if that is
    all that is wrong with it. *)
Definition legacy_entry (ref : string) (replacement : json) (fields : list (string * json)) : js_error + option seats :=
  let withoutReplacement := JObj (drop_key "replacement" fields) in
  match as_state (jget "state" withoutReplacement), exactReplacement replacement,
        canonicalOrigin (jget "origin" withoutReplacement), isValidSeatRecord ref withoutReplacement with
  | Some Active, true, Some origin, Some _ => inl (LegacySessionCredentialCollisionError origin)
  | _, _, _, _ => inr None
  end.

Fixpoint parse_entries (entries : list (string * json)) : js_error + option seats :=
  match entries with
  | [] => inr (Some [])
  | (ref, record) :: rest =>
      match record, jget "replacement" record with
      | JObj fields, Some replacement => legacy_entry ref replacement fields
      | _, _ =>
          match isValidSeatRecord ref record with
          | None => inr None
          | Some r =>
              match parse_entries rest with
              | inr (Some l) => inr (Some ((ref, r) :: l))
              | other => other
              end
          end
      end
  end.

(** *** Superseded bindings *)

Definition active_in (wt : string) (r : seat) : bool :=
  bool_decide (s_state r = Active) && bool_decide (s_worktree r = Some wt).

(** [byWorktree]: the active records of each worktree. *)
Definition add_candidate (m : list (string * seats)) (entry : string * seat) : list (string * seats) :=
  match s_state (snd entry), s_worktree (snd entry) with
  | Active, Some wt => put wt (default [] (assoc wt m) ++ [entry]) m
  | _, _ => m
  end.

Definition byWorktree (store : seats) : list (string * seats) := foldl add_candidate [] store.

Definition ordered_candidates (candidates : seats) : list (string * Z) :=
  omap (fun kv => (fun o => (fst kv, o)) <$> s_bindingOrder (snd kv)) candidates.

Definition newest (ordered : list (string * Z)) : option string :=
  match ordered with
  | [] => None
  | first :: rest => Some (fst (foldl (fun left right => if snd right <? snd left then left else right) first rest))
  end.

(** What one group loses. *)
Definition repair_group (store : seats) (candidates : seats) : seats :=
  if (length candidates <? 2)%nat then store
  else
    let ordered := ordered_candidates candidates in
    match newest ordered with
    | Some keep =>
        if bool_decide (NoDup (map snd ordered)) then
          foldl (fun st ref => if String.eqb ref keep then st else drop_key ref st) store (map fst candidates)
        else store
    | None => store
    end.

(* src/src/seats.ts 252-276 repairOrderedDuplicateBindings *)
Definition repairOrderedDuplicateBindings (store : seats) : seats :=
  foldl repair_group store (map snd (byWorktree store)).

(** [inr None] is [null]; [inl] is thrown. *)
(* src/src/seats.ts 188-244 parseStore *)
Definition parseStore (raw : content) : js_error + option seats :=
  match json_parse raw with
  | Some parsed =>
      match jget "version" parsed, jget "seats" parsed with
      | Some (JNum 1), Some (JObj entries) =>
          if existsb (fun kv => array_index (fst kv)) entries then inr None
          else
            match parse_entries entries with
            | inr (Some store) => inr (Some (repairOrderedDuplicateBindings store))
            | other => other
            end
      | _, _ => inr None
      end
  | None => inr None
  end.
End Parse.

(* src/src/seats.ts 278-286 AmbiguousSeatBindingError *)
Definition AmbiguousSeatBindingError (worktree : string) : js_error :=
  ErrorOf "AmbiguousSeatBindingError" None None ("Borg found multiple active seats for worktree " +:+ worktree +:+
    ", but their bind order is unavailable. No identity or inbox path was selected. " +:+
    "Run `borg reset-local-connection` to clear the ambiguous local connection.") [].

(** ** Looking at the store *)

(** Who a caller expects at a ref. *)
Record seat_expected := SeatExpected { se_origin : string; se_trustIdentity : string; se_cubeId : string }.

Definition expected_of (i : seat_identity) : seat_expected := SeatExpected (si_origin i) (si_trustIdentity i) (si_cubeId i).

(* src/src/seats.ts 304-318 recordMatches *)
Definition recordMatches (record : option seat) (ref : string) (binding : seat_expected) : option seat :=
  r ← record;
  let i := s_identity r in
  if String.eqb (si_origin i) (se_origin binding) && String.eqb (si_trustIdentity i) (se_trustIdentity binding) &&
     String.eqb (si_cubeId i) (se_cubeId binding) && String.eqb (record_ref r) ref
  then Some r else None.

(* src/src/seats.ts 322-325 SeatObservation *)
Inductive seat_observation :=
| ObservedActive (digest droneId : string)
| ObservedPending (digest : string)
| Absent.

#[export] Instance seat_observation_eq_dec : EqDecision seat_observation.
Proof. solve_decision. Defined.

Definition observe (ref : string) (binding : seat_expected) (store : seats) : seat_observation :=
  match recordMatches (assoc ref store) ref binding with
  | None => Absent
  | Some r =>
      match s_state r with
      | Active => ObservedActive (digestOf (s_credential r)) (default "" (s_droneId r))
      | Pending => ObservedPending (digestOf (s_credential r))
      end
  end.

Definition active_credential (ref : string) (binding : seat_expected) (store : seats) : option string :=
  r ← recordMatches (assoc ref store) ref binding;
  if bool_decide (s_state r = Active) then Some (s_credential r) else None.

(** The active records of a worktree. *)
Definition candidates (worktree : string) (store : seats) : seats :=
  List.filter (fun kv => active_in worktree (snd kv) && String.eqb (record_ref (snd kv)) (fst kv)) store.

Definition active_seat (worktree : string) (store : seats) : js_error + option seat :=
  match candidates worktree store with
  | [] => inr None
  | [kv] => inr (Some (snd kv))
  | _ => inl (AmbiguousSeatBindingError worktree)
  end.

(** The first record of the file with a property, under its own ref. *)
Definition first_seat (p : seat -> bool) (store : seats) : option seat :=
  snd <$> List.find (fun kv => p (snd kv) && String.eqb (record_ref (snd kv)) (fst kv)) store.

Definition bound_to (worktree : string) (r : seat) : bool := bool_decide (s_worktree r = Some worktree).

Definition implicit_prefix : string := "implicit-sibling:".

Definition incomplete_sibling (binding : seat_expected) (projectRoot : string) (r : seat) : bool :=
  let i := s_identity r in let op := si_operation i in
  bool_decide (s_state r = Pending) && bool_decide (s_worktree r = None) && bool_decide (so_kind op = Sibling) &&
  starts_with implicit_prefix (so_operationKey op) && (String.length implicit_prefix <? String.length (so_operationKey op))%nat &&
  String.eqb (si_origin i) (se_origin binding) && String.eqb (si_trustIdentity i) (se_trustIdentity binding) &&
  String.eqb (si_cubeId i) (se_cubeId binding) && String.eqb (so_projectRoot op) projectRoot.

Definition all_seats (p : seat -> bool) (store : seats) : list (string * seat) :=
  omap (fun kv => if p (snd kv) && String.eqb (record_ref (snd kv)) (fst kv)
                  then (fun wt => (wt, snd kv)) <$> s_worktree (snd kv) else None) store.

Definition other_clone_family (cubeId repositoryOrigin commonDir : string) (r : seat) : bool :=
  String.eqb (si_cubeId (s_identity r)) cubeId && bool_decide (s_repositoryOrigin r = Some repositoryOrigin) &&
  match s_commonDir r with Some d => negb (String.eqb d commonDir) | None => false end.

(** ** Transactions

    What an operation does to the store it loaded: its result, the store it
    commits, and the refs it takes from the process's rejected set afterwards. *)

Record step (A : Type) := Step { st_result : js_error + A; st_commit : option seats; st_unreject : list string }.
Arguments Step {A}.
Arguments st_result {A}.
Arguments st_commit {A}.
Arguments st_unreject {A}.

Definition answer {A} (a : A) : step A := Step (inr a) None [].
Definition committed {A} (a : A) (data : seats) (refs : list string) : step A := Step (inr a) (Some data) refs.

(** A seat's identity with the credential to use when there is none yet. *)
Record seat_seed := SeatSeed { sd_identity : seat_identity; sd_credential : string }.

Definition pending_seat (seed : seat_seed) : seat :=
  Seat (sd_identity seed) (sd_credential seed) Pending None None None None None None None None None None None [].

(** The record at the seed's ref, or a new pending one. *)
Definition reuse_or_mint (seed : seat_seed) (store : seats) : seat * step seat :=
  let ref := seatRef (sd_identity seed) in
  match recordMatches (assoc ref store) ref (expected_of (sd_identity seed)) with
  | Some existing => (existing, answer existing)
  | None => let r := pending_seat seed in (r, committed r (put ref r store) [ref])
  end.

Definition mint_tx (seed : seat_seed) (store : seats) : step seat := snd (reuse_or_mint seed store).

(* src/src/seats.ts 410-412 SeatExpectation *)
Inductive seat_expectation :=
| Exact (credentialRef : string) (droneId sessionDigest : option string)
| ExpectAbsent.

(* src/src/seats.ts 414-416 PrepareSeatOutcome *)
Inductive prepare_outcome := Prepared (record : seat) | ExpectationMismatch.

Definition agrees (expected : option string) (actual : option string) : bool :=
  match expected with None => true | Some x => bool_decide (actual = Some x) end.

Definition mismatch (expected : seat_expectation) (ref : string) (prior : option seat) : bool :=
  match expected with
  | Exact credentialRef droneId sessionDigest =>
      match prior with
      | Some r => negb (bool_decide (s_state r = Active) && String.eqb ref credentialRef &&
                        agrees droneId (s_droneId r) && agrees sessionDigest (Some (digestOf (s_credential r))))
      | None => true
      end
  | ExpectAbsent => match prior with Some r => bool_decide (s_state r = Active) | None => false end
  end.

Definition prepare_tx (expected : seat_expectation) (revalidate scrubBeforeMint : bool) (seed : seat_seed) (store : seats) :
    step prepare_outcome :=
  let ref := seatRef (sd_identity seed) in
  let prior := recordMatches (assoc ref store) ref (expected_of (sd_identity seed)) in
  if revalidate && mismatch expected ref prior then answer ExpectationMismatch
  else
    let store := if scrubBeforeMint then drop_key ref store else store in
    let '(record, s) := reuse_or_mint seed store in
    Step (inr (Prepared record)) (st_commit s) (st_unreject s).

(* src/src/seats.ts 496-496 ActivateSeatOutcome *)
Inductive activate_outcome := Activated | Missing | Replaced.

(* src/src/seats.ts 500-509 SeatBinding *)
Record seat_binding := SeatBinding {
  sb_worktree : string;
  sb_commonDir : option string;
  sb_repositoryOrigin : option string;
  sb_name : string;
  sb_droneLabel : string;
  sb_roleName : option string;
  sb_roleClass : option role_class;
  sb_isHumanSeat : option bool
}.

(** [{ ...record, ...(x !== undefined ? { k: x } : {}) }] *)
Definition over {A} (x y : option A) : option A := match x with Some _ => x | None => y end.

Definition activated (r : seat) (order : Z) (droneId sessionId : string) (b : seat_binding) : seat :=
  Seat (s_identity r) (s_credential r) Active (Some order) (Some droneId) (Some sessionId) (Some (sb_worktree b))
    (over (sb_commonDir b) (s_commonDir r)) (over (sb_repositoryOrigin b) (s_repositoryOrigin r))
    (Some (sb_name b)) (Some (sb_droneLabel b)) (over (sb_roleName b) (s_roleName r))
    (over (sb_roleClass b) (s_roleClass r)) (over (sb_isHumanSeat b) (s_isHumanSeat r)) (s_rest r).

Definition highest_order (store : seats) : Z :=
  foldl (fun highest kv => Z.max highest (default 0 (s_bindingOrder (snd kv)))) 0 store.

Definition next_order (store : seats) (r : seat) (worktree : string) : Z :=
  match s_bindingOrder r with
  | Some order => if active_in worktree r then order else highest_order store + 1
  | None => highest_order store + 1
  end.

(** The other active records of the worktree. *)
Definition retired (ref worktree : string) (store : seats) : list string :=
  map fst (List.filter (fun kv => negb (String.eqb (fst kv) ref) && active_in worktree (snd kv)) store).

Definition order_exhausted : js_error :=
  JsError "Borg private seat store bind order is exhausted; refusing to activate a seat".

Definition activate_tx (i : seat_identity) (droneId sessionId expectedPendingDigest : string) (b : seat_binding) (store : seats) :
    step activate_outcome :=
  let ref := seatRef i in
  match recordMatches (assoc ref store) ref (expected_of i) with
  | None => answer Missing
  | Some r =>
      if negb (String.eqb (digestOf (s_credential r)) expectedPendingDigest) then answer Replaced
      else
        let order := next_order store r (sb_worktree b) in
        if negb (is_safe_integer order) then Step (inl order_exhausted) None []
        else
          let gone := retired ref (sb_worktree b) store in
          let store := foldl (fun st k => drop_key k st) store gone in
          committed Activated (put ref (activated r order droneId sessionId b) store) (gone ++ [ref])
  end.

(* src/src/seats.ts 591-591 BindPendingSeatOutcome *)
Inductive bind_outcome := Bound | BindMissing | BindReplaced.

Definition bound_pending (r : seat) (droneId : option string) (b : seat_binding) : seat :=
  Seat (s_identity r) (s_credential r) (s_state r) (s_bindingOrder r) (over droneId (s_droneId r)) (s_sessionId r)
    (Some (sb_worktree b)) (s_commonDir r) (s_repositoryOrigin r) (Some (sb_name b)) (Some (sb_droneLabel b))
    (over (sb_roleName b) (s_roleName r)) (over (sb_roleClass b) (s_roleClass r)) (over (sb_isHumanSeat b) (s_isHumanSeat r)) (s_rest r).

Definition bind_pending_tx (i : seat_identity) (expectedPendingDigest : string) (droneId : option string) (b : seat_binding)
    (store : seats) : step bind_outcome :=
  let ref := seatRef i in
  match recordMatches (assoc ref store) ref (expected_of i) with
  | None => answer BindMissing
  | Some r =>
      if negb (bool_decide (s_state r = Pending)) || negb (String.eqb (digestOf (s_credential r)) expectedPendingDigest)
      then answer BindReplaced
      else committed Bound (put ref (bound_pending r droneId b) store) []
  end.

(* src/src/seats.ts 784-787 ResetSeatOutcome *)
Inductive reset_outcome := ResetDone (ref : string) | NoBinding | Changed.

Definition observed_digest (o : seat_observation) : option string :=
  match o with ObservedActive d _ | ObservedPending d => Some d | Absent => None end.

Definition reset_tx (worktree ref : string) (droneId : option string) (observation : seat_observation) (store : seats) : step reset_outcome :=
  let drifted := if existsb (fun kv => bound_to worktree (snd kv)) store then answer Changed else answer NoBinding in
  match assoc ref store with
  | None => drifted
  | Some r =>
      if negb (bound_to worktree r) || negb (bool_decide (s_droneId r = droneId)) || negb (String.eqb (record_ref r) ref) then drifted
      else if match observed_digest observation with Some d => negb (String.eqb (digestOf (s_credential r)) d) | None => false end
      then answer Changed
      else committed (ResetDone ref) (drop_key ref store) [ref]
  end.

Definition scrub_tx (ref : string) (binding : seat_expected) (expectedPendingDigest : string) (store : seats) : step bool :=
  match recordMatches (assoc ref store) ref binding with
  | None => answer false
  | Some r =>
      if negb (bool_decide (s_state r = Pending)) || negb (String.eqb (digestOf (s_credential r)) expectedPendingDigest)
      then answer false
      else committed true (drop_key ref store) []
  end.

Definition clear_tx (ref : string) (store : seats) : step unit :=
  match assoc ref store with
  | Some _ => committed tt (drop_key ref store) [ref]
  | None => answer tt
  end.

Definition refreshed (r : seat) (b : seat_binding) : seat :=
  Seat (s_identity r) (s_credential r) (s_state r) (s_bindingOrder r) (s_droneId r) (s_sessionId r) (s_worktree r)
    (s_commonDir r) (s_repositoryOrigin r) (Some (sb_name b)) (Some (sb_droneLabel b))
    (over (sb_roleName b) (s_roleName r)) (over (sb_roleClass b) (s_roleClass r)) (over (sb_isHumanSeat b) (s_isHumanSeat r)) (s_rest r).

(** Of [display] the members of the binding that it has. *)
Definition refresh_tx (worktree credentialRef cubeId droneId : string) (display : seat_binding) (store : seats) : step bool :=
  match assoc credentialRef store with
  | None => answer false
  | Some r =>
      if negb (active_in worktree r) || negb (String.eqb (si_cubeId (s_identity r)) cubeId) ||
         negb (bool_decide (s_droneId r = Some droneId)) || negb (String.eqb (record_ref r) credentialRef)
      then answer false
      else committed true (put credentialRef (refreshed r display) store) []
  end.

(** ** The operations *)

Section Operations.
Context `{UrlEnv}.
Variable getuid : option Z.
Variable pid : Z.
Variable config_root : string.

(* src/src/seats.ts 26-26 SEATS_FILE *)
Definition SEATS_FILE : string := config_root +:+ "/seats.json".

(** The end of a transaction: the commit, the process's own set, the result. *)
Definition enact {A} (tx : seats -> step A) (data : seats) (commit : seats -> storing unit) : storing A :=
  let s := tx data in
  do! match st_commit s with Some data' => commit data' | None => Ret tt end;
  do! foldr (fun ref rest => do! ask (Unreject ref); rest) (Ret tt) (st_unreject s);
  match st_result s with inl e => Throw e | inr a => Ret a end.

Definition with_seats {A} (tx : seats -> step A) : storing A :=
  withStore getuid pid SEATS_FILE emptyStore parseStore store_content plain_options (enact tx).

(* src/src/seats.ts 288-301 readStore *)
Definition readStore : storing seats :=
  let! raw := readStoreFile getuid SEATS_FILE plain_options in
  match raw with
  | None => Ret emptyStore
  | Some c =>
      match parseStore c with
      | inl e => Throw e
      | inr None => Throw (JsError "Borg private store is malformed or has an unsupported version; refusing to read it")
      | inr (Some store) => Ret store
      end
  end.

Definition looking {A} (f : seats -> A) : storing A := let! store := readStore in Ret (f store).

(* src/src/seats.ts 332-345 observeSeat *)
Definition observeSeat (ref : string) (binding : seat_expected) : storing seat_observation :=
  if negb (is_ref ref) then Ret Absent else looking (observe ref binding).

(* src/src/seats.ts 352-361 getActiveSeatCredential *)
Definition getActiveSeatCredential (ref : string) (binding : seat_expected) : storing (option string) :=
  if negb (is_ref ref) then Ret None else looking (active_credential ref binding).

(* src/src/seats.ts 371-399 mintPendingSeat *)
Definition mintPendingSeat (seed : seat_seed) : storing seat := with_seats (mint_tx seed).

(* src/src/seats.ts 429-492 prepareSeat *)
Definition prepareSeat (expected : seat_expectation) (revalidate scrubBeforeMint : bool) (seed : seat_seed) : storing prepare_outcome :=
  with_seats (prepare_tx expected revalidate scrubBeforeMint seed).

Definition invalid_session : js_error := JsError "invalid Borg server session identity".

(* src/src/seats.ts 522-587 activateAndBindSeat *)
Definition activateAndBindSeat (i : seat_identity) (droneId sessionId expectedPendingDigest : string) (b : seat_binding) :
    storing activate_outcome :=
  if negb (is_uuid droneId) || negb (is_uuid sessionId) then Throw invalid_session
  else with_seats (activate_tx i droneId sessionId expectedPendingDigest b).

(* src/src/seats.ts 606-650 bindPendingSeatToWorktree *)
Definition bindPendingSeatToWorktree (i : seat_identity) (expectedPendingDigest : string) (droneId : option string)
    (b : seat_binding) : storing bind_outcome :=
  if match droneId with Some d => negb (is_uuid d) | None => false end then Throw invalid_session
  else with_seats (bind_pending_tx i expectedPendingDigest droneId b).

(* src/src/seats.ts 658-665 getActiveSeatForWorktree *)
Definition getActiveSeatForWorktree (worktree : string) : storing (option seat) :=
  let! store := readStore in
  match active_seat worktree store with inl e => Throw e | inr r => Ret r end.

(* src/src/seats.ts 668-670 markSeatRejected *)
Definition markSeatRejected (ref : string) : storing unit := if is_ref ref then ask (Reject ref) else Ret tt.

(* src/src/seats.ts 682-690 getSeatForWorktree *)
Definition getSeatForWorktree (worktree : string) : storing (option seat) := looking (first_seat (bound_to worktree)).

(* src/src/seats.ts 705-729 findIncompleteSiblingAttempt *)
Definition findIncompleteSiblingAttempt (binding : seat_expected) (projectRoot : string) : storing (option seat) :=
  looking (first_seat (incomplete_sibling binding projectRoot)).

(* src/src/seats.ts 733-736 hasSeatForWorktree *)
Definition hasSeatForWorktree (worktree : string) : storing bool :=
  looking (existsb (fun kv => bound_to worktree (snd kv))).

Definition is_active (r : seat) : bool := bool_decide (s_state r = Active).

(* src/src/seats.ts 739-748 readAllActiveSeats *)
Definition readAllActiveSeats : storing (list (string * seat)) := looking (all_seats is_active).

(* src/src/seats.ts 753-765 hasActiveSeatInDifferentCloneFamily *)
Definition hasActiveSeatInDifferentCloneFamily (cubeId repositoryOrigin commonDir : string) : storing bool :=
  let! found := readAllActiveSeats in
  Ret (existsb (fun kv => other_clone_family cubeId repositoryOrigin commonDir (snd kv)) found).

(* src/src/seats.ts 771-780 readAllBoundSeats *)
Definition readAllBoundSeats : storing (list (string * seat)) := looking (all_seats (fun _ => true)).

(* src/src/seats.ts 796-826 resetSeatForWorktree *)
Definition resetSeatForWorktree (worktree ref : string) (droneId : option string) (observation : seat_observation) : storing reset_outcome :=
  with_seats (reset_tx worktree ref droneId observation).

(* src/src/seats.ts 831-845 scrubPendingSeat *)
Definition scrubPendingSeat (ref : string) (binding : seat_expected) (expectedPendingDigest : string) : storing bool :=
  if negb (is_ref ref) then Ret false else with_seats (scrub_tx ref binding expectedPendingDigest).

(* src/src/seats.ts 848-857 clearSeat *)
Definition clearSeat (ref : string) : storing unit :=
  if negb (is_ref ref) then Throw (JsError "invalid Borg server session credential reference")
  else with_seats (clear_tx ref).

(* src/src/seats.ts 861-883 refreshSeatMetadata *)
Definition refreshSeatMetadata (worktree credentialRef cubeId droneId : string) (display : seat_binding) : storing bool :=
  if negb (is_ref credentialRef) then Ret false
  else with_seats (refresh_tx worktree credentialRef cubeId droneId display).
End Operations.
