(* ===== verification/SeatsFacts.v ===== *)
(** * Facts about the seat store

    Members of objects, the round trip of records, the repair of superseded
    bindings. *)

From S2P Require Import Prelude JsDate Assoc JsonText Effects Sha256 LeaseFs LocalServerCursor SeatStore Seats.

Open Scope Z_scope.

Lemma optional_member k k' v (l : list (string * json)) :
  assoc k (optional_field k' v ++ l) = if String.eqb k k' then match v with Some x => Some x | None => assoc k l end else assoc k l.
Proof. destruct v as [x|]; cbn; [done|]. by destruct (String.eqb k k'). Qed.

(** ** Valid records *)

Record operation_ok (o : seat_operation) : Prop := {
  oo_root : so_projectRoot o <> "";
  oo_key : so_operationKey o <> "";
  oo_rest : Forall (fun kv => fst kv ∉ operation_members) (so_rest o)
}.

Record identity_ok (i : seat_identity) : Prop := {
  io_origin : si_origin i <> "";
  io_trust : si_trustIdentity i <> "";
  io_cube : si_cubeId i <> "";
  io_role : si_roleId i <> "";
  io_operation : operation_ok (si_operation i)
}.

Definition order_ok (z : Z) : Prop := is_safe_integer z = true /\ 1 <= z.

(** What the file may hold under a ref. *)
Record seat_ok (ref : string) (r : seat) : Prop := {
  ok_ref : record_ref r = ref;
  ok_identity : identity_ok (s_identity r);
  ok_bearer : is_bearer (s_credential r) = true;
  ok_order : in_option order_ok (s_bindingOrder r);
  ok_drone : in_option (fun d => is_uuid d = true) (s_droneId r);
  ok_session : in_option (fun d => is_uuid d = true) (s_sessionId r);
  ok_commonDir : in_option (fun d => d <> "") (s_commonDir r);
  ok_repository : in_option (fun d => d <> "") (s_repositoryOrigin r);
  ok_state : state_consistent r = true;
  ok_rest : Forall (fun kv => fst kv ∉ "replacement" :: seat_members) (s_rest r)
}.

(** A ref under which nothing is found is still a ref. *)
Lemma seatRef_is_ref i : is_ref (seatRef i) = true.
Proof.
  unfold is_ref, seatRef. set (h := sha256_hex _). assert (Hl : String.length h = 64%nat) by apply sha256_hex_length.
  assert (Hh : string_forallb is_lower_hex h = true) by apply sha256_hex_lower. clearbody h.
  unfold starts_with. change "borg-server-session:" with ref_prefix. rewrite prefix_app, append_length, Hl. cbn [andb].
  change 20%nat with (String.length ref_prefix). by rewrite string_drop_app, Hh.
Qed.

Lemma ok_is_ref ref r : seat_ok ref r -> is_ref ref = true.
Proof. intros H. rewrite <-(ok_ref _ _ H). apply seatRef_is_ref. Qed.

(** *** The round trip of a record *)

Lemma unknown_all (known : list string) l : Forall (fun kv => fst kv ∉ known) l -> unknown_members known (JObj l) = l.
Proof.
  intros Hl. unfold unknown_members. induction Hl as [|kv l Hk _ IH]; cbn; [done|]. by rewrite bool_decide_eq_false_2, IH.
Qed.

Lemma unknown_known (known : list string) k v l : k ∈ known -> unknown_members known (JObj ((k, v) :: l)) = unknown_members known (JObj l).
Proof. intros Hk. unfold unknown_members. cbn. by rewrite bool_decide_eq_true_2. Qed.

Lemma unknown_optional (known : list string) k v l :
  k ∈ known -> unknown_members known (JObj (optional_field k v ++ l)) = unknown_members known (JObj l).
Proof. intros Hk. destruct v as [x|]; cbn [optional_field app]; [|done]. by apply unknown_known. Qed.

Lemma unknown_rest (known : list string) v : Forall (fun kv => fst kv ∉ known) (unknown_members known v).
Proof.
  destruct v as [| | | | | |fields]; try constructor. apply Forall_forall.
  intros kv [_ Hn%negb_true_iff%bool_decide_eq_false]%member_filter. done.
Qed.

Lemma rest_member k (known : list string) (l : list (string * json)) : Forall (fun kv => fst kv ∉ known) l -> k ∈ known -> assoc k l = None.
Proof.
  intros Hl Hk. apply assoc_none. intros (kv & -> & Hin)%list_elem_of_fmap. rewrite Forall_forall in Hl. by apply (Hl kv).
Qed.

Lemma nonempty_member s : s <> "" -> isNonEmptyString (Some (JStr s)) = Some s.
Proof. intros Hs. cbn. by destruct (String.eqb_spec s ""). Qed.

Lemma operation_reads_back o : operation_ok o -> isValidOperation (Some (operation_json o)) = Some o.
Proof.
  intros [Hr Hk Hrest]. unfold isValidOperation, operation_json. cbn [mbind option_bind jget app assoc String.eqb Ascii.eqb Bool.eqb].
  rewrite !nonempty_member by done. cbn [mbind option_bind].
  assert (Hkind : kind_of_name (Some (JStr (kind_name (so_kind o)))) = Some (so_kind o)) by (by destruct (so_kind o)).
  rewrite Hkind. cbn [mbind option_bind].
  rewrite !unknown_known by (cbn; set_solver). rewrite unknown_all by done. by destruct o.
Qed.

(** An optional member that [f] reads back. *)
Lemma optional_reads {A} (f : json -> option A) (j : A -> json) (P : A -> Prop) v :
  (forall x, P x -> f (j x) = Some x) -> in_option P v -> optional f (j <$> v) = Some v.
Proof. intros Hf Hv. destruct v as [x|]; cbn in *; [|done]. by rewrite Hf. Qed.

Section Members.
Variable r : seat.
Variable ref : string.
Hypothesis Hok : seat_ok ref r.

Local Ltac member :=
  cbn [seat_json jget app assoc String.eqb Ascii.eqb Bool.eqb];
  rewrite ?optional_member; cbn [String.eqb Ascii.eqb Bool.eqb];
  rewrite ?(rest_member _ ("replacement" :: seat_members) (s_rest r)) by (first [exact (ok_rest _ _ Hok)|cbn; set_solver]);
  try match goal with |- context [_ <$> ?v] => by destruct v end; try reflexivity.

Lemma text_members :
  let i := s_identity r in
  jget "origin" (seat_json r) = Some (JStr (si_origin i)) /\ jget "trustIdentity" (seat_json r) = Some (JStr (si_trustIdentity i)) /\
  jget "cubeId" (seat_json r) = Some (JStr (si_cubeId i)) /\ jget "roleId" (seat_json r) = Some (JStr (si_roleId i)) /\
  jget "operation" (seat_json r) = Some (operation_json (si_operation i)) /\
  jget "credential" (seat_json r) = Some (JStr (s_credential r)) /\
  jget "state" (seat_json r) = Some (JStr (match s_state r with Pending => "pending" | Active => "active" end)).
Proof. cbv zeta. repeat split; member. Qed.

Lemma optional_members :
  jget "replacement" (seat_json r) = None /\ jget "bindingOrder" (seat_json r) = JNum <$> s_bindingOrder r /\
  jget "droneId" (seat_json r) = JStr <$> s_droneId r /\ jget "sessionId" (seat_json r) = JStr <$> s_sessionId r /\
  jget "worktree" (seat_json r) = JStr <$> s_worktree r /\ jget "commonDir" (seat_json r) = JStr <$> s_commonDir r /\
  jget "repositoryOrigin" (seat_json r) = JStr <$> s_repositoryOrigin r.
Proof. repeat split; member. Qed.

Lemma display_members :
  jget "name" (seat_json r) = JStr <$> s_name r /\ jget "droneLabel" (seat_json r) = JStr <$> s_droneLabel r /\
  jget "roleName" (seat_json r) = JStr <$> s_roleName r /\
  jget "roleClass" (seat_json r) = (fun c => JStr (role_class_name c)) <$> s_roleClass r /\
  jget "isHumanSeat" (seat_json r) = JBool <$> s_isHumanSeat r.
Proof. repeat split; member. Qed.

Lemma unknown_seat_members : unknown_members seat_members (seat_json r) = s_rest r.
Proof.
  unfold seat_json. cbn [app]. rewrite !unknown_known by (cbn; set_solver). rewrite !unknown_optional by (cbn; set_solver).
  apply unknown_all. eapply Forall_impl; [exact (ok_rest _ _ Hok)|]. intros kv Hkv Hin. apply Hkv. by right.
Qed.

Lemma seat_reads_back : isValidSeatRecord ref (seat_json r) = Some r.
Proof.
  destruct text_members as (E1 & E2 & E3 & E4 & E5 & E6 & E7). destruct optional_members as (_ & F1 & F2 & F3 & F4 & F5 & F6).
  destruct display_members as (G1 & G2 & G3 & G4 & G5). destruct Hok as [Kr [I1 I2 I3 I4 I5] Kb Ko Kd Ks Kc Kp Kst Krest].
  assert (Htext : forall v, optional any_text (JStr <$> v) = Some v).
  { intros v. apply (optional_reads any_text JStr (fun _ => True)); [done|by destruct v]. }
  assert (Huuid : forall v, in_option (fun d => is_uuid d = true) v -> optional as_uuid (JStr <$> v) = Some v).
  { intros v. apply optional_reads. intros x Hx. unfold as_uuid, as_text. by rewrite Hx. }
  assert (Hne : forall v, in_option (fun d => d <> "") v -> optional non_empty (JStr <$> v) = Some v).
  { intros v. apply optional_reads. intros x Hx. cbn. by destruct (String.eqb_spec x ""). }
  unfold isValidSeatRecord. rewrite (ok_is_ref ref r Hok). cbn [negb].
  rewrite E1, E2, E3, E4, E5, E6, E7, F1, F2, F3, F4, F5, F6, G1, G2, G3, G4, G5, unknown_seat_members.
  rewrite !nonempty_member, operation_reads_back, !Htext, !Huuid, !Hne by done. cbn [mbind option_bind].
  assert (Hb : as_text is_bearer (JStr (s_credential r)) = Some (s_credential r)) by (cbn; by rewrite Kb).
  assert (Hs : as_state (Some (JStr (match s_state r with Pending => "pending" | Active => "active" end))) = Some (s_state r))
    by (by destruct (s_state r)).
  assert (Ho : optional as_order (JNum <$> s_bindingOrder r) = Some (s_bindingOrder r)).
  { apply (optional_reads _ _ order_ok); [|done]. intros x [H1 H2]. cbn. by rewrite H1, (proj2 (Z.leb_le 1 x) H2). }
  assert (Hc : optional as_role_class ((fun c => JStr (role_class_name c)) <$> s_roleClass r) = Some (s_roleClass r)).
  { apply (optional_reads _ _ (fun _ => True)); [by intros []|by destruct (s_roleClass r)]. }
  assert (Hh : optional as_bool (JBool <$> s_isHumanSeat r) = Some (s_isHumanSeat r)).
  { apply (optional_reads _ _ (fun _ => True)); [done|by destruct (s_isHumanSeat r)]. }
  rewrite Hb, Hs. cbn [mbind option_bind]. rewrite Ho, Hc, Hh. cbn [mbind option_bind].
  assert (Er : Seat (SeatIdentity (si_origin (s_identity r)) (si_trustIdentity (s_identity r)) (si_cubeId (s_identity r))
      (si_roleId (s_identity r)) (si_operation (s_identity r))) (s_credential r) (s_state r) (s_bindingOrder r) (s_droneId r)
      (s_sessionId r) (s_worktree r) (s_commonDir r) (s_repositoryOrigin r) (s_name r) (s_droneLabel r) (s_roleName r)
      (s_roleClass r) (s_isHumanSeat r) (s_rest r) = r) by (by destruct r as [[]]).
  rewrite Er, Kst, Kr, String.eqb_refl. done.
Qed.
End Members.

(** *** What a valid record is *)

Lemma optional_sound {A} (f : json -> option A) (P : A -> Prop) v x :
  optional f v = Some x -> (forall j y, f j = Some y -> P y) -> in_option P x.
Proof.
  destruct v as [j|]; cbn; [|by intros [= <-]]. destruct (f j) as [y|] eqn:E; [|done]. intros [= <-] H. by eapply H.
Qed.

Lemma nonempty_sound v s : isNonEmptyString v = Some s -> s <> "".
Proof. destruct v as [[]|]; try done. cbn. by destruct (String.eqb_spec s0 ""); [|intros [= <-]]. Qed.

Lemma as_text_sound p j s : as_text p j = Some s -> p s = true.
Proof. destruct j; try done. cbn. destruct (p s0) eqn:E; [|done]. by intros [= <-]. Qed.

Lemma non_empty_sound j s : non_empty j = Some s -> s <> "".
Proof. intros H%as_text_sound. by destruct (String.eqb_spec s ""). Qed.

Lemma order_sound j z : as_order j = Some z -> order_ok z.
Proof.
  destruct j; try done. cbn. destruct (is_safe_integer z0 && (1 <=? z0)) eqn:E; [|done]. intros [= <-].
  apply andb_true_iff in E as [E1 E2]. split; [done|]. by apply Z.leb_le.
Qed.

Lemma operation_sound v o : isValidOperation v = Some o -> operation_ok o.
Proof.
  unfold isValidOperation. intros (op & _ & H)%bind_Some. apply bind_Some in H as (root & Hr & H).
  apply bind_Some in H as (kind & _ & H). apply bind_Some in H as (key & Hk & [= <-]).
  split; cbn; [by eapply nonempty_sound|by eapply nonempty_sound|apply unknown_rest].
Qed.

Lemma unknown_without (known : list string) k v :
  jget k v = None -> Forall (fun kv => fst kv ∉ k :: known) (unknown_members known v).
Proof.
  intros Hk. apply Forall_forall. intros kv Hkv Hin. pose proof (unknown_rest known v) as Hr. rewrite Forall_forall in Hr.
  apply elem_of_cons in Hin as [E|Hin]; [|by apply (Hr kv)]. destruct v as [| | | | | |fields]; try (by apply elem_of_nil in Hkv).
  apply member_filter in Hkv as [Hkv _]. cbn in Hk. apply (assoc_none k fields) in Hk. apply Hk. rewrite <-E.
  apply list_elem_of_fmap. by exists kv.
Qed.

Lemma valid_seat_ok ref v r : isValidSeatRecord ref v = Some r -> jget "replacement" v = None -> seat_ok ref r.
Proof.
  unfold isValidSeatRecord. destruct (is_ref ref); [|done]. cbn [negb]. intros H Hrep.
  do 18 (apply bind_Some in H as (? & ? & H)). cbv zeta in H.
  match type of H with (if state_consistent ?s && _ then _ else _) = _ => set (r' := s) in * end.
  destruct (state_consistent r' && String.eqb (record_ref r') ref) eqn:E; [|done]. injection H as <-.
  apply andb_true_iff in E as [Hst Href%String.eqb_eq]. split; cbn; try done.
  - split; cbn; try (by eapply nonempty_sound). by eapply operation_sound.
  - match goal with Hc : mbind _ (jget "credential" v) = Some _ |- _ => apply bind_Some in Hc as (j & _ & Hc); by apply as_text_sound in Hc end.
  - eapply optional_sound; [eassumption|exact order_sound].
  - eapply optional_sound; [eassumption|]. intros j y Hy. by apply as_text_sound in Hy.
  - eapply optional_sound; [eassumption|]. intros j y Hy. by apply as_text_sound in Hy.
  - eapply optional_sound; [eassumption|exact non_empty_sound].
  - eapply optional_sound; [eassumption|exact non_empty_sound].
  - by apply unknown_without.
Qed.

(** ** Stores *)

Record store_ok (s : seats) : Prop := {
  st_valid : Forall (fun kv => seat_ok (fst kv) (snd kv)) s;
  st_keys : NoDup (map fst s)
}.

Lemma ref_no_index k : is_ref k = true -> array_index k = false.
Proof.
  unfold is_ref, starts_with. destruct k as [|c k]; [done|]. cbn [String.prefix ref_prefix].
  destruct (ascii_dec _ c) as [<-|]; [|done]. intros _. done.
Qed.

Section Parsing.
Context `{UrlEnv}.

Lemma entries_read_back s :
  Forall (fun kv => seat_ok (fst kv) (snd kv)) s ->
  parse_entries (map (fun kv => (fst kv, seat_json (snd kv))) s) = inr (Some s).
Proof.
  induction 1 as [|[ref r] s Hr _ IH]; cbn [map parse_entries fst snd]; [done|]. cbn in Hr.
  assert (Hj : exists fields, seat_json r = JObj fields) by (by eexists). destruct Hj as [fields Hj].
  destruct (optional_members r ref Hr) as (Hrep & _). assert (Hback := seat_reads_back r ref Hr).
  rewrite Hj in *. by rewrite Hrep, Hback, IH.
Qed.

Lemma refs_not_indices s :
  Forall (fun kv => seat_ok (fst kv) (snd kv)) s ->
  existsb (fun kv : string * json => array_index (fst kv)) (map (fun kv => (fst kv, seat_json (snd kv))) s) = false.
Proof.
  induction 1 as [|[ref r] s Hr _ IH]; cbn [map existsb fst]; [done|]. rewrite IH.
  by rewrite (ref_no_index ref (ok_is_ref ref r Hr)).
Qed.

(** What is committed is what the next reader loads. *)
Lemma store_reads_back s :
  store_ok s -> parseStore (store_content s) = inr (Some (repairOrderedDuplicateBindings s)).
Proof.
  intros [Hv _]. unfold parseStore, store_content. cbn [json_parse jget assoc String.eqb Ascii.eqb Bool.eqb].
  by rewrite refs_not_indices, entries_read_back.
Qed.

Lemma entries_ok entries s : parse_entries entries = inr (Some s) ->
  Forall (fun kv => seat_ok (fst kv) (snd kv)) s /\ map fst s = map fst entries.
Proof.
  revert s. induction entries as [|[ref v] entries IH]; intros s; cbn [parse_entries]; [by intros [= <-]|].
  assert (Hstep : jget "replacement" v = None ->
    match isValidSeatRecord ref v with
    | None => inr None
    | Some r => match parse_entries entries with inr (Some l) => inr (Some ((ref, r) :: l)) | other => other end
    end = (inr (Some s) : js_error + option seats) ->
    Forall (fun kv => seat_ok (fst kv) (snd kv)) s /\ map fst s = ref :: map fst entries).
  { intros Hrep. destruct (isValidSeatRecord ref v) as [r|] eqn:Hr; [|done].
    destruct (parse_entries entries) as [|[l|]]; [done| |done]. intros [= <-]. destruct (IH l eq_refl) as [Hl Hk].
    split; [|by cbn; rewrite Hk]. constructor; [|done]. by eapply valid_seat_ok. }
  destruct v as [| | | | | |fields]; try (apply Hstep; reflexivity).
  destruct (jget "replacement" (JObj fields)) as [rep|] eqn:Hrep; [|by apply Hstep].
  unfold legacy_entry. by repeat case_match.
Qed.
End Parsing.

(** * The repair of superseded bindings

    [repairOrderedDuplicateBindings] against what it is for: of the active records
    of a worktree whose orders are known and distinct, only the newest stays. *)

(** The active records of a worktree. *)
Definition group (wt : string) (s : seats) : seats := List.filter (fun kv => active_in wt (snd kv)) s.

(** The record a worktree keeps, when the orders tell. *)
Definition leader (g : seats) : option string :=
  if (length g <? 2)%nat then None
  else if bool_decide (NoDup (map snd (ordered_candidates g))) then newest (ordered_candidates g) else None.

Definition losses (g : seats) : list string :=
  match leader g with
  | Some keep => List.filter (fun ref => negb (String.eqb ref keep)) (map fst g)
  | None => []
  end.

Lemma active_in_spec wt r : active_in wt r = true <-> s_state r = Active /\ s_worktree r = Some wt.
Proof. unfold active_in. by rewrite andb_true_iff, !bool_decide_eq_true. Qed.

Lemma in_group wt s kv : kv ∈ group wt s <-> kv ∈ s /\ active_in wt (snd kv) = true.
Proof. unfold group. by rewrite member_filter. Qed.

Lemma group_app wt s s' : group wt (s ++ s') = group wt s ++ group wt s'.
Proof. apply List.filter_app. Qed.

(** ** The groups *)

Lemma add_candidate_lookup wt m e :
  default [] (assoc wt (add_candidate m e)) = default [] (assoc wt m) ++ group wt [e].
Proof.
  unfold add_candidate, group. cbn [List.filter]. destruct e as [ref r]. cbn [snd]. unfold active_in.
  destruct (s_state r) eqn:Es; [cbn; by rewrite app_nil_r|]. destruct (s_worktree r) as [wt'|] eqn:Ew; [|cbn; by rewrite app_nil_r].
  rewrite assoc_put. destruct (String.eqb_spec wt wt') as [->|Hne]; cbn.
  - by rewrite !bool_decide_eq_true_2.
  - rewrite (bool_decide_eq_false_2 (Some wt' = Some wt)) by congruence. rewrite andb_false_r. by rewrite app_nil_r.
Qed.

Lemma byWorktree_fold s m wt : default [] (assoc wt (foldl add_candidate m s)) = default [] (assoc wt m) ++ group wt s.
Proof.
  revert m. induction s as [|e s IH]; intros m; cbn [foldl]; [by rewrite app_nil_r|].
  rewrite IH, add_candidate_lookup. change (e :: s) with ([e] ++ s). by rewrite group_app, app_assoc.
Qed.

Lemma byWorktree_lookup s wt : default [] (assoc wt (byWorktree s)) = group wt s.
Proof. exact (byWorktree_fold s [] wt). Qed.

Lemma byWorktree_keys s m : NoDup (map fst m) -> NoDup (map fst (foldl add_candidate m s)).
Proof.
  revert m. induction s as [|e s IH]; intros m Hm; cbn [foldl]; [done|]. apply IH. unfold add_candidate.
  destruct (s_state (snd e)), (s_worktree (snd e)); try done. by apply put_nodup.
Qed.

Lemma groups_are s g : g ∈ map snd (byWorktree s) -> exists wt, g = group wt s.
Proof.
  intros ([wt l] & -> & Hin)%list_elem_of_fmap. exists wt. rewrite <-byWorktree_lookup.
  by rewrite (in_assoc wt l (byWorktree s) (byWorktree_keys s [] NoDup_nil_2) Hin).
Qed.

Lemma group_listed s wt : group wt s <> [] -> group wt s ∈ map snd (byWorktree s).
Proof.
  intros Hne. rewrite <-byWorktree_lookup in *. destruct (assoc wt (byWorktree s)) as [l|] eqn:E; [|done].
  apply assoc_in in E. apply list_elem_of_fmap. by exists (wt, l).
Qed.

(** ** The repair as a filter *)

Lemma filter_none (s : seats) : List.filter (fun kv => negb (bool_decide (fst kv ∈ @nil string))) s = s.
Proof. induction s as [|kv s IH]; cbn [List.filter]; [done|]. rewrite bool_decide_eq_false_2 by apply not_elem_of_nil. cbn. by rewrite IH. Qed.

Lemma repair_group_losses st g : repair_group st g = foldl (fun st k => drop_key k st) st (losses g).
Proof.
  unfold repair_group, losses, leader. destruct (length g <? 2)%nat; [done|].
  destruct (newest (ordered_candidates g)) as [keep|]; case_bool_decide; try done.
  revert st. induction (map fst g) as [|ref l IH]; intros st; cbn; [done|]. by destruct (String.eqb ref keep); cbn; rewrite IH.
Qed.

Lemma repair_losses st gs :
  foldl repair_group st gs = List.filter (fun kv => negb (bool_decide (fst kv ∈ mjoin (map losses gs)))) st.
Proof.
  revert st. induction gs as [|g gs IH]; intros st; cbn [foldl map].
  - symmetry. apply filter_none.
  - rewrite IH, repair_group_losses, drop_keys, filter_filter. apply filter_ext_in. intros kv _.
    rewrite <-negb_orb. f_equal. change (mjoin (losses g :: map losses gs)) with (losses g ++ mjoin (map losses gs)).
    rewrite <-bool_decide_or. apply bool_decide_ext. by rewrite elem_of_app.
Qed.

(** A record is lost when its worktree has another leader. *)
Definition superseded (s : seats) (ref : string) (r : seat) : Prop :=
  exists wt keep, active_in wt r = true /\ leader (group wt s) = Some keep /\ ref <> keep.

Lemma repair_in s ref r : NoDup (map fst s) ->
  (ref, r) ∈ repairOrderedDuplicateBindings s <-> (ref, r) ∈ s /\ ~ superseded s ref r.
Proof.
  intros Hn. unfold repairOrderedDuplicateBindings. rewrite repair_losses, member_filter.
  cbn [fst]. rewrite negb_true_iff, bool_decide_eq_false.
  assert (Hlost : (ref, r) ∈ s -> (ref ∈ mjoin (map losses (map snd (byWorktree s))) <-> superseded s ref r)).
  { intros Hin. rewrite list_elem_of_join. split.
    - intros (l & Hl & (g & -> & Hg)%list_elem_of_fmap). apply groups_are in Hg as [wt ->]. unfold losses in Hl.
      destruct (leader (group wt s)) as [keep|] eqn:Hk; [|by apply elem_of_nil in Hl].
      apply member_filter in Hl as [Hl Hne%negb_true_iff%String.eqb_neq].
      apply list_elem_of_fmap in Hl as ([ref' r'] & E & [Hin' Ha]%in_group). cbn in E, Ha. subst ref'.
      assert (r' = r) as -> by (apply in_assoc in Hin, Hin'; congruence). by exists wt, keep.
    - intros (wt & keep & Ha & Hk & Hne). exists (losses (group wt s)).
      assert (Hin' : (ref, r) ∈ group wt s) by (by apply in_group). split.
      + unfold losses. rewrite Hk. apply member_filter. split; [|by apply negb_true_iff, String.eqb_neq].
        apply list_elem_of_fmap. by exists (ref, r).
      + apply list_elem_of_fmap. exists (group wt s). split; [done|]. apply group_listed. intros E. rewrite E in Hin'.
        by apply elem_of_nil in Hin'. }
  naive_solver.
Qed.

Lemma repair_sub s kv : kv ∈ repairOrderedDuplicateBindings s -> kv ∈ s.
Proof. unfold repairOrderedDuplicateBindings. rewrite repair_losses, member_filter. by intros [? _]. Qed.

Lemma repair_ok s : store_ok s -> store_ok (repairOrderedDuplicateBindings s).
Proof.
  intros [Hv Hn]. unfold repairOrderedDuplicateBindings. rewrite repair_losses.
  split; [by apply Forall_filter|by apply filter_keys_nodup].
Qed.

(** ** Stores with one active record per worktree *)

Definition single (s : seats) : Prop := forall wt, (length (group wt s) <= 1)%nat.

Lemma single_repair s : single s -> repairOrderedDuplicateBindings s = s.
Proof.
  intros Hs. unfold repairOrderedDuplicateBindings.
  assert (Hall : forall g, g ∈ map snd (byWorktree s) -> losses g = []).
  { intros g [wt ->]%groups_are. unfold losses, leader. specialize (Hs wt). by destruct (Nat.ltb_spec (length (group wt s)) 2); [|lia]. }
  rewrite repair_losses. assert (E : mjoin (map losses (map snd (byWorktree s))) = []).
  { induction (map snd (byWorktree s)) as [|g gs IH]; [done|]. cbn [map]. change (losses g ++ mjoin (map losses gs) = []).
    rewrite Hall by left. apply IH. intros g' Hg'. apply Hall. by right. }
  rewrite E. apply filter_none.
Qed.

Lemma group_filter wt f s : (length (group wt (List.filter f s)) <= length (group wt s))%nat.
Proof.
  unfold group. induction s as [|kv s IH]; cbn [List.filter]; [done|].
  destruct (f kv) eqn:Ef; cbn [List.filter]; destruct (active_in wt (snd kv)); cbn; lia.
Qed.

Lemma single_filter f s : single s -> single (List.filter f s).
Proof. intros Hs wt. specialize (Hs wt). pose proof (group_filter wt f s). lia. Qed.
