(* ===== verification/SeatsCommits.v ===== *)
(** * What a transaction of the seat store commits

    Every operation as one call, and what each leaves in the store: valid records,
    one active record per worktree, the bearers that were there. *)

From S2P Require Import Prelude JsDate Assoc JsonText Effects LeaseFs LocalServerCursor SeatStore Seats SeatsFacts.

Open Scope Z_scope.

(** ** Calls *)

Inductive seat_call :=
| CallMint (d : seat_seed)
| CallPrepare (expected : seat_expectation) (revalidate scrub : bool) (d : seat_seed)
| CallActivate (i : seat_identity) (droneId sessionId digest : string) (b : seat_binding)
| CallBindPending (i : seat_identity) (digest : string) (droneId : option string) (b : seat_binding)
| CallReset (worktree ref : string) (droneId : option string) (o : seat_observation)
| CallScrub (ref : string) (expected : seat_expected) (digest : string)
| CallClear (ref : string)
| CallRefresh (worktree ref cubeId droneId : string) (b : seat_binding).

Definition commit_of (c : seat_call) (s : seats) : option seats :=
  match c with
  | CallMint d => st_commit (mint_tx d s)
  | CallPrepare e v sc d => st_commit (prepare_tx e v sc d s)
  | CallActivate i drone session digest b => st_commit (activate_tx i drone session digest b s)
  | CallBindPending i digest drone b => st_commit (bind_pending_tx i digest drone b s)
  | CallReset wt ref drone o => st_commit (reset_tx wt ref drone o s)
  | CallScrub ref e digest => st_commit (scrub_tx ref e digest s)
  | CallClear ref => st_commit (clear_tx ref s)
  | CallRefresh wt ref cube drone b => st_commit (refresh_tx wt ref cube drone b s)
  end.

Record seed_ok (d : seat_seed) : Prop := {
  sk_identity : identity_ok (sd_identity d);
  sk_bearer : is_bearer (sd_credential d) = true
}.

Record binding_ok (b : seat_binding) : Prop := {
  bk_commonDir : in_option (fun d => d <> "") (sb_commonDir b);
  bk_repository : in_option (fun d => d <> "") (sb_repositoryOrigin b)
}.

(** The arguments are what their types promise: no empty identity, a bearer of
    the generator's form, the checked identifiers. *)
Definition call_ok (c : seat_call) : Prop :=
  match c with
  | CallMint d | CallPrepare _ _ _ d => seed_ok d
  | CallActivate _ drone session _ b => is_uuid drone = true /\ is_uuid session = true /\ binding_ok b
  | CallBindPending _ _ drone _ => in_option (fun d => is_uuid d = true) drone
  | _ => True
  end.

(** ** What a commit is

    A record written over what a selection of the store holds, or a selection. *)

(** The record at the same ref, changed in its state, binding or display. *)
Record keeps_seat (r r' : seat) : Prop := {
  ks_identity : s_identity r' = s_identity r;
  ks_credential : s_credential r' = s_credential r;
  ks_active : s_state r = Active -> s_state r' = Active
}.

(** The call may discard the credential that is there: it was asked to, or a
    record of another identity has the ref. *)
Definition replaces (c : seat_call) (r : option seat) : Prop :=
  match c, r with
  | (CallMint d | CallPrepare _ _ _ d), None => True
  | CallMint d, Some r0 => recordMatches r (seatRef (sd_identity d)) (expected_of (sd_identity d)) = None
  | CallPrepare _ _ sc d, Some r0 => sc = true \/ recordMatches r (seatRef (sd_identity d)) (expected_of (sd_identity d)) = None
  | _, _ => False
  end.

Inductive commits (c : seat_call) (s : seats) : seats -> Prop :=
| commits_drop keep : commits c s (List.filter keep s)
| commits_new ref d keep :
    seat_ok ref (pending_seat d) -> seatRef (sd_identity d) = ref -> replaces c (assoc ref s) ->
    commits c s (put ref (pending_seat d) (List.filter keep s))
| commits_over ref r r' keep :
    assoc ref s = Some r -> keeps_seat r r' -> seat_ok ref r' ->
    (forall wt, active_in wt r' = true -> active_in wt r = true \/ forall kv, kv ∈ List.filter keep s -> fst kv = ref \/ active_in wt (snd kv) = false) ->
    commits c s (put ref r' (List.filter keep s)).

Lemma recordMatches_some r0 ref e r : recordMatches r0 ref e = Some r -> r0 = Some r /\ record_ref r = ref.
Proof.
  unfold recordMatches. intros (r1 & -> & H)%bind_Some. destruct (_ && String.eqb (record_ref r1) ref) eqn:E; [|done].
  injection H as <-. by apply andb_true_iff in E as [_ E%String.eqb_eq].
Qed.

Lemma pending_ok d : seed_ok d -> seat_ok (seatRef (sd_identity d)) (pending_seat d).
Proof. intros [Hi Hb]. by split; cbn; try done; constructor. Qed.

Lemma in_over {A} (P : A -> Prop) x y : in_option P x -> in_option P y -> in_option P (over x y).
Proof. by destruct x. Qed.

Lemma highest_from s z : z <= foldl (fun highest (kv : string * seat) => Z.max highest (default 0 (s_bindingOrder (snd kv)))) z s.
Proof. revert z. induction s as [|kv s IH]; intros z; cbn [foldl]; [done|]. etrans; [|apply IH]. lia. Qed.

Lemma next_order_ok s r wt ref : seat_ok ref r -> is_safe_integer (next_order s r wt) = true -> order_ok (next_order s r wt).
Proof.
  intros Hr Hsafe. split; [done|]. pose proof (highest_from s 0) as Hh. fold (highest_order s) in Hh. pose proof (ok_order _ _ Hr) as Ho.
  unfold next_order. destruct (s_bindingOrder r) as [z|]; [|lia]. destruct (active_in wt r); [apply Ho|lia].
Qed.

Lemma activated_ok ref r order drone session b :
  seat_ok ref r -> order_ok order -> is_uuid drone = true -> is_uuid session = true -> binding_ok b ->
  seat_ok ref (activated r order drone session b).
Proof. intros [K1 K2 K3 K4 K5 K6 K7 K8 K9 K10] Ho Hd Hs [B1 B2]. split; cbn; try done; by apply in_over. Qed.

Lemma bound_pending_ok ref r drone b :
  seat_ok ref r -> s_state r = Pending -> in_option (fun d => is_uuid d = true) drone -> seat_ok ref (bound_pending r drone b).
Proof.
  intros [K1 K2 K3 K4 K5 K6 K7 K8 K9 K10] Hp Hd. split; cbn; try done; [by apply in_over|].
  unfold state_consistent in *. cbn. by rewrite Hp in *.
Qed.

Lemma refreshed_ok ref r b : seat_ok ref r -> seat_ok ref (refreshed r b).
Proof.
  intros [K1 K2 K3 K4 K5 K6 K7 K8 K9 K10]. split; cbn; try done. unfold state_consistent in *. cbn.
  destruct (s_state r); [done|]. rewrite !andb_true_iff in *. naive_solver.
Qed.

Lemma store_seat s ref r : store_ok s -> assoc ref s = Some r -> seat_ok ref r.
Proof. intros [Hv _] H%assoc_in. rewrite Forall_forall in Hv. exact (Hv _ H). Qed.

Lemma keep_all (s : seats) : s = List.filter (fun _ => true) s.
Proof. induction s as [|kv s IH]; cbn; [done|]. by rewrite <-IH. Qed.

Lemma mint_put d s s' : st_commit (snd (reuse_or_mint d s)) = Some s' ->
  let ref := seatRef (sd_identity d) in
  s' = put ref (pending_seat d) s /\ recordMatches (assoc ref s) ref (expected_of (sd_identity d)) = None.
Proof. unfold reuse_or_mint. by destruct (recordMatches _ _ _); [|intros [= <-]]. Qed.

(** The other records keep their worktree: what a new binding must not meet. *)
Definition binds_alone (r r' : seat) (ref : string) (s : seats) : Prop :=
  forall wt, active_in wt r' = true -> active_in wt r = true \/ forall kv, kv ∈ s -> fst kv = ref \/ active_in wt (snd kv) = false.

Lemma over_all c s ref r r' :
  assoc ref s = Some r -> keeps_seat r r' -> seat_ok ref r' -> binds_alone r r' ref s -> commits c s (put ref r' s).
Proof. intros Ha Hk Hr Hb. rewrite (keep_all s) at 2. by eapply commits_over; [..|rewrite <-keep_all]. Qed.

Lemma new_all c s d : seed_ok d -> replaces c (assoc (seatRef (sd_identity d)) s) -> commits c s (put (seatRef (sd_identity d)) (pending_seat d) s).
Proof. intros Hd Hr. rewrite (keep_all s) at 2. apply commits_new; [by apply pending_ok|done..]. Qed.

Lemma call_commits c s s' : call_ok c -> store_ok s -> commit_of c s = Some s' -> commits c s s'.
Proof.
  intros Hc Hs. destruct c as [d|e v sc d|i drone session digest b|i digest drone b|wt ref drone o|ref e digest|ref|wt ref cube drone b]; cbn [commit_of call_ok] in *.
  - intros [-> Hn]%mint_put. apply new_all; [done|]. cbn. by destruct (assoc _ s).
  - unfold prepare_tx. cbv zeta. destruct (v && _); [done|]. destruct (reuse_or_mint d _) as [r st] eqn:E. intros Hm.
    apply (f_equal snd) in E. cbn [snd] in E. cbn [st_commit] in Hm. rewrite <-E in Hm. apply mint_put in Hm as [-> Hn]. destruct sc.
    + apply commits_new; [by apply pending_ok|done|]. cbn. destruct (assoc _ s); [by left|done].
    + apply new_all; [done|]. cbn. destruct (assoc _ s); [by right|done].
  - unfold activate_tx. destruct (recordMatches _ _ _) as [r|] eqn:E; [|done]. destruct (negb (String.eqb _ digest)); [done|]. cbv zeta.
    destruct (is_safe_integer _) eqn:Hsafe; [|done]. cbn [negb committed st_commit]. intros [= <-].
    apply recordMatches_some in E as [E _]. assert (Hr := store_seat _ _ _ Hs E). rewrite drop_keys.
    destruct Hc as (Hd & Hse & Hb). apply (commits_over _ _ _ r); [done|by split|by apply activated_ok; [|eapply next_order_ok|..]|].
    intros wt [_ [= Hwt]]%active_in_spec. cbn in Hwt. right. intros kv [Hin Hg]%member_filter.
    apply negb_true_iff, bool_decide_eq_false in Hg. destruct (decide (fst kv = seatRef i)) as [|Hne]; [by left|right].
    destruct (active_in wt (snd kv)) eqn:Ea; [|done]. destruct Hg. unfold retired. apply list_elem_of_fmap. exists kv. split; [done|].
    apply member_filter. split; [done|]. rewrite Hwt, Ea. by destruct (String.eqb_spec (fst kv) (seatRef i)).
  - unfold bind_pending_tx. destruct (recordMatches _ _ _) as [r|] eqn:E; [|done].
    destruct (bool_decide (s_state r = Pending)) eqn:Ep; [|done]. destruct (String.eqb _ digest); [|done]. intros [= <-].
    apply bool_decide_eq_true in Ep. apply recordMatches_some in E as [E _]. assert (Hr := store_seat _ _ _ Hs E).
    apply (over_all _ _ _ r); [done|by split|by apply bound_pending_ok|]. intros wt [Ha _]%active_in_spec. cbn in Ha. congruence.
  - unfold reset_tx. destruct (assoc ref s) as [r|]; [|by destruct (existsb _ s)].
    destruct (negb _ || _ || _); [by destruct (existsb _ s)|]. destruct (match observed_digest o with Some _ => _ | None => _ end); [done|].
    intros [= <-]. apply commits_drop.
  - unfold scrub_tx. destruct (recordMatches _ _ _); [|done]. destruct (negb _ || _); [done|]. intros [= <-]. apply commits_drop.
  - unfold clear_tx. destruct (assoc ref s); [|done]. intros [= <-]. apply commits_drop.
  - unfold refresh_tx. destruct (assoc ref s) as [r|] eqn:E; [|done]. destruct (negb _ || _ || _ || _); [done|]. intros [= <-].
    assert (Hr := store_seat _ _ _ Hs E). apply (over_all _ _ _ r); [done|by split|by apply refreshed_ok|]. intros wt' Ha. by left.
Qed.

(** ** What holds of every store committed *)

Lemma commits_ok c s s' : store_ok s -> commits c s s' -> store_ok s'.
Proof.
  intros [Hv Hn] [keep|ref d keep Hd _ _|ref r r' keep _ _ Hr _].
  - split; [by apply Forall_filter|by apply filter_keys_nodup].
  - split; [apply Forall_put; [done|by apply Forall_filter]|by apply put_nodup, filter_keys_nodup].
  - split; [apply Forall_put; [done|by apply Forall_filter]|by apply put_nodup, filter_keys_nodup].
Qed.

(** Lists of distinct keys with one key. *)
Lemma one_key {A} (l : list (string * A)) : NoDup (map fst l) ->
  (length l <= 1)%nat <-> forall kv kv', kv ∈ l -> kv' ∈ l -> fst kv = fst kv'.
Proof.
  intros Hn. destruct l as [|kv1 [|kv2 l]]; cbn.
  - split; [by intros _ kv kv' ?%elem_of_nil|lia].
  - split; [by intros _ kv kv' ->%list_elem_of_singleton ->%list_elem_of_singleton|lia].
  - split; [lia|]. intros H. exfalso. cbn in Hn. apply NoDup_cons in Hn as [Hni _]. apply Hni. rewrite (H kv1 kv2) by set_solver. left.
Qed.

Lemma single_spec s : NoDup (map fst s) ->
  single s <-> forall wt kv kv', kv ∈ s -> kv' ∈ s -> active_in wt (snd kv) = true -> active_in wt (snd kv') = true -> fst kv = fst kv'.
Proof.
  intros Hn. split.
  - intros Hs wt kv kv' H1 H2 A1 A2. specialize (Hs wt). rewrite one_key in Hs by (by apply filter_keys_nodup).
    apply Hs; by apply in_group.
  - intros Hall wt. rewrite one_key by (by apply filter_keys_nodup). intros kv kv' [H1 A1]%in_group [H2 A2]%in_group. by eapply Hall.
Qed.

Lemma commits_single c s s' : store_ok s -> commits c s s' -> single s -> single s'.
Proof.
  intros Hs Hc Hsi. assert (Hs' := commits_ok c s s' Hs Hc). assert (Hn := st_keys _ Hs). assert (Hf := proj1 (single_spec s Hn) Hsi).
  destruct Hc as [keep|ref d keep Hd _ _|ref r r' keep Ha _ _ Hb]; [by apply single_filter|..].
  - apply single_spec; [apply Hs'|]. assert (Hk := filter_keys_nodup keep s Hn).
    intros wt [k v] [k' v'] H1 H2 A1 A2. cbn in A1, A2. apply in_put in H1 as [[-> ->]|[_ [H1 _]%member_filter]]; [done| |done].
    apply in_put in H2 as [[-> ->]|[_ [H2 _]%member_filter]]; [done| |done]. by eapply (Hf wt (k, v) (k', v')).
  - apply single_spec; [apply Hs'|]. assert (Hk := filter_keys_nodup keep s Hn). assert (Hr : (ref, r) ∈ s) by (by apply assoc_in).
    assert (Hone : forall wt k v, active_in wt r' = true -> k <> ref -> (k, v) ∈ List.filter keep s -> active_in wt v = true -> False).
    { intros wt k v A1 Hne Hin A2. destruct (Hb wt A1) as [Ar|Hall].
      - apply Hne, (Hf wt (k, v) (ref, r)); [by apply member_filter in Hin as [? _]|done..].
      - destruct (Hall (k, v) Hin); [done|]. cbn in *. congruence. }
    intros wt [k v] [k' v'] H1 H2 A1 A2. cbn in A1, A2 |- *.
    apply in_put in H1 as [[-> ->]|[Hk1 H1]]; [| |done]; (apply in_put in H2 as [[-> ->]|[Hk2 H2]]; [| |done]); [done|..].
    + exfalso. by eapply (Hone wt k' v').
    + exfalso. by eapply (Hone wt k v).
    + apply member_filter in H1 as [H1 _], H2 as [H2 _]. by apply (Hf wt (k, v) (k', v')).
Qed.

(** * What a commit does to each binding and each bearer

    Which record a transaction may remove or overwrite, and what an activation and
    a retried preparation leave for the next reader. *)

(** ** Removals *)

(** The call names this record, or supersedes its worktree's binding. *)
Definition removes (c : seat_call) (ref : string) (r : seat) : Prop :=
  match c with
  | CallActivate i _ _ _ b => ref <> seatRef i /\ s_state r = Active /\ s_worktree r = Some (sb_worktree b)
  | CallReset wt ref' drone o =>
      ref = ref' /\ s_worktree r = Some wt /\ s_droneId r = drone /\
      in_option (fun d => digestOf (s_credential r) = d) (observed_digest o)
  | CallScrub ref' e digest => ref = ref' /\ s_state r = Pending /\ digestOf (s_credential r) = digest
  | CallClear ref' => ref = ref'
  | _ => False
  end.

(** A new pending record where the call asked for one. *)
Definition minted (c : seat_call) (ref : string) (r : option seat) (r' : seat) : Prop :=
  match c with
  | CallMint d | CallPrepare _ _ _ d => ref = seatRef (sd_identity d) /\ r' = pending_seat d /\ replaces c r
  | _ => False
  end.

(** What becomes of one ref. *)
Inductive entry_after (c : seat_call) (ref : string) : option seat -> option seat -> Prop :=
| ea_none : entry_after c ref None None
| ea_kept r r' : keeps_seat r r' -> entry_after c ref (Some r) (Some r')
| ea_removed r : removes c ref r -> entry_after c ref (Some r) None
| ea_minted r r' : minted c ref r r' -> entry_after c ref r (Some r').

Lemma keeps_refl r : keeps_seat r r.
Proof. by split. Qed.

Lemma entry_same c ref r : entry_after c ref r r.
Proof. destruct r as [r|]; [apply ea_kept, keeps_refl|apply ea_none]. Qed.

Lemma entry_put c ref ref' r r' s :
  assoc ref' s = Some r -> keeps_seat r r' -> entry_after c ref (assoc ref s) (assoc ref (put ref' r' s)).
Proof.
  intros Ha Hk. rewrite assoc_put. destruct (String.eqb_spec ref ref') as [->|]; [|apply entry_same]. rewrite Ha. by apply ea_kept.
Qed.

Lemma entry_drop c ref ref' s :
  (forall r, assoc ref' s = Some r -> removes c ref' r) -> entry_after c ref (assoc ref s) (assoc ref (drop_key ref' s)).
Proof.
  intros Hr. rewrite assoc_drop. destruct (String.eqb_spec ref ref') as [->|]; [|apply entry_same].
  destruct (assoc ref' s) as [r|]; [by apply ea_removed, Hr|apply ea_none].
Qed.

Lemma entry_mint c d ref s : minted c (seatRef (sd_identity d)) (assoc (seatRef (sd_identity d)) s) (pending_seat d) ->
  entry_after c ref (assoc ref s) (assoc ref (put (seatRef (sd_identity d)) (pending_seat d) s)).
Proof. intros Hm. rewrite assoc_put. destruct (String.eqb_spec ref (seatRef (sd_identity d))) as [->|]; [by apply ea_minted|apply entry_same]. Qed.

Lemma retired_in ref wt s k : k ∈ retired ref wt s <-> exists r, (k, r) ∈ s /\ k <> ref /\ active_in wt r = true.
Proof.
  unfold retired. rewrite list_elem_of_fmap. split.
  - intros ([k' r] & -> & [Hin [Hne Ha]%andb_true_iff]%member_filter). exists r. cbn in *. by apply negb_true_iff, String.eqb_neq in Hne.
  - intros (r & Hin & Hne & Ha). exists (k, r). split; [done|]. apply member_filter. cbn. split; [done|]. rewrite Ha.
    by destruct (String.eqb_spec k ref).
Qed.

Lemma assoc_keep ref (keys : list string) (s : seats) :
  assoc ref (List.filter (fun kv => negb (bool_decide (fst kv ∈ keys))) s) = if bool_decide (ref ∈ keys) then None else assoc ref s.
Proof.
  induction s as [|[k v] s IH]; cbn [List.filter assoc fst]; [by destruct (bool_decide _)|].
  destruct (bool_decide (k ∈ keys)) eqn:Ek; cbn [negb assoc].
  - rewrite IH. destruct (String.eqb_spec ref k) as [->|]; [by rewrite Ek|done].
  - destruct (String.eqb_spec ref k) as [->|]; [by rewrite Ek|done].
Qed.

Lemma entries_after c s s' ref : store_ok s -> commit_of c s = Some s' -> entry_after c ref (assoc ref s) (assoc ref s').
Proof.
  intros Hs. destruct c as [d|e v sc d|i drone session digest b|i digest drone b|wt ref' drone o|ref' e digest|ref'|wt ref' cube drone b]; cbn [commit_of].
  - intros [-> Hn]%mint_put. apply entry_mint. cbn. split; [done|split; [done|]]. by destruct (assoc _ s).
  - unfold prepare_tx. cbv zeta. destruct (v && _); [done|]. destruct (reuse_or_mint d _) as [r st] eqn:E. intros Hm.
    apply (f_equal snd) in E. cbn [snd] in E. cbn [st_commit] in Hm. rewrite <-E in Hm. apply mint_put in Hm as [-> Hn].
    assert (Hm : minted (CallPrepare e v sc d) (seatRef (sd_identity d)) (assoc (seatRef (sd_identity d)) s) (pending_seat d)).
    { split; [done|split; [done|]]. cbn. destruct sc; destruct (assoc _ s); try done; [by left|by right]. }
    destruct sc; [|by apply entry_mint]. rewrite assoc_put, assoc_drop.
    destruct (String.eqb_spec ref (seatRef (sd_identity d))) as [->|]; [by apply ea_minted|apply entry_same].
  - unfold activate_tx. destruct (recordMatches _ _ _) as [r|] eqn:E; [|done]. destruct (negb (String.eqb _ digest)); [done|]. cbv zeta.
    destruct (is_safe_integer _); [|done]. cbn [negb committed st_commit]. intros [= <-]. apply recordMatches_some in E as [E _].
    rewrite assoc_put, drop_keys, assoc_keep. destruct (String.eqb_spec ref (seatRef i)) as [->|Hne].
    + rewrite E. apply ea_kept. by split.
    + case_bool_decide as Hg; [|apply entry_same]. apply retired_in in Hg as (r1 & Hin & _ & [Ha Hw]%active_in_spec).
      rewrite (in_assoc _ _ _ (st_keys _ Hs) Hin). by apply ea_removed.
  - unfold bind_pending_tx. destruct (recordMatches _ _ _) as [r|] eqn:E; [|done]. destruct (negb _ || _) eqn:Ep; [done|].
    intros [= <-]. apply recordMatches_some in E as [E _]. apply (entry_put _ _ _ r); [done|]. split; [done..|].
    apply orb_false_iff in Ep as [Ep%negb_false_iff%bool_decide_eq_true _]. cbn. congruence.
  - unfold reset_tx. destruct (assoc ref' s) as [r|] eqn:E; [|by destruct (existsb _ s)].
    destruct (negb _ || _ || _) eqn:Eb; [by destruct (existsb _ s)|].
    destruct (match observed_digest o with Some _ => _ | None => _ end) eqn:Ed; [done|]. intros [= <-].
    apply entry_drop. intros r1 Hr1. rewrite E in Hr1. injection Hr1 as <-. apply orb_false_iff in Eb as [[Eb1 Eb2]%orb_false_iff _].
    apply negb_false_iff in Eb1, Eb2. unfold bound_to in Eb1. rewrite !bool_decide_eq_true in *. split; [done|]. split; [done|]. split; [done|].
    destruct (observed_digest o) as [dg|]; cbn; [|done]. by apply negb_false_iff, String.eqb_eq in Ed.
  - unfold scrub_tx. destruct (recordMatches _ _ _) as [r|] eqn:E; [|done]. destruct (negb _ || _) eqn:Ep; [done|]. intros [= <-].
    apply recordMatches_some in E as [E _]. apply entry_drop. intros r1 Hr1. rewrite E in Hr1. injection Hr1 as <-.
    apply orb_false_iff in Ep as [Ep%negb_false_iff%bool_decide_eq_true Ed%negb_false_iff%String.eqb_eq]. done.
  - unfold clear_tx. destruct (assoc ref' s) as [r|] eqn:E; [|done]. intros [= <-]. by apply entry_drop.
  - unfold refresh_tx. destruct (assoc ref' s) as [r|] eqn:E; [|done]. destruct (negb _ || _ || _ || _); [done|]. intros [= <-].
    apply (entry_put _ _ _ r); [done|]. by split.
Qed.

(** ** What the next reader finds *)

Lemma active_once wt wt' r : active_in wt r = true -> active_in wt' r = true -> wt = wt'.
Proof. intros [_ H1]%active_in_spec [_ H2]%active_in_spec. congruence. Qed.

Lemma losses_spec g k : k ∈ losses g <-> k ∈ map fst g /\ exists keep, leader g = Some keep /\ k <> keep.
Proof.
  unfold losses. destruct (leader g) as [keep|].
  - rewrite member_filter, negb_true_iff, String.eqb_neq. naive_solver.
  - rewrite elem_of_nil. naive_solver.
Qed.

(** The repair looks at each worktree by itself. *)
Lemma group_repair wt s : NoDup (map fst s) ->
  group wt (repairOrderedDuplicateBindings s) =
  List.filter (fun kv => negb (bool_decide (fst kv ∈ losses (group wt s)))) (group wt s).
Proof.
  intros Hn. assert (Hin := repair_in s). unfold repairOrderedDuplicateBindings in *. setoid_rewrite repair_losses in Hin.
  rewrite repair_losses. remember (losses (group wt s)) as lost eqn:El.
  unfold group. rewrite !filter_filter. apply filter_ext_in. intros [ref r] Hs. cbn [fst snd].
  subst lost. destruct (active_in wt r) eqn:Ha; [|by rewrite andb_false_r]. rewrite andb_true_r. cbn [andb]. f_equal. apply bool_decide_ext.
  specialize (Hin ref r Hn). rewrite member_filter in Hin. cbn [fst] in Hin. rewrite negb_true_iff, bool_decide_eq_false in Hin.
  assert (Hsup : superseded s ref r <-> ref ∈ losses (group wt s)).
  { rewrite losses_spec. split.
    - intros (wt' & keep & Ha' & Hk & Hne). rewrite <-(active_once wt wt' r Ha Ha') in Hk. split; [|by exists keep].
      apply list_elem_of_fmap. exists (ref, r). split; [done|]. by apply in_group.
    - intros [_ (keep & Hk & Hne)]. by exists wt, keep. }
  rewrite Hsup in Hin. clear Hsup.
  destruct (decide (ref ∈ mjoin (map losses (map snd (byWorktree s))))), (decide (ref ∈ losses (group wt s))); naive_solver.
Qed.

Lemma candidates_group wt s : store_ok s -> candidates wt s = group wt s.
Proof.
  intros [Hv _]. apply filter_ext_in. intros [ref r] Hin. rewrite Forall_forall in Hv. cbn [fst snd].
  pose proof (ok_ref _ _ (Hv _ Hin)) as Hr. cbn in Hr. by rewrite Hr, String.eqb_refl, andb_true_r.
Qed.

Lemma active_seat_repair wt s s' : store_ok s -> store_ok s' -> group wt s = group wt s' ->
  active_seat wt (repairOrderedDuplicateBindings s) = active_seat wt (repairOrderedDuplicateBindings s').
Proof.
  intros Hs Hs' Hg. unfold active_seat. rewrite !candidates_group by (by apply repair_ok). rewrite !group_repair by (by apply st_keys). by rewrite Hg.
Qed.

(** One record alone in its worktree is the worktree's seat. *)
Lemma active_seat_alone wt s ref r : store_ok s -> (ref, r) ∈ s -> active_in wt r = true ->
  (forall kv, kv ∈ s -> active_in wt (snd kv) = true -> fst kv = ref) ->
  active_seat wt (repairOrderedDuplicateBindings s) = inr (Some r).
Proof.
  intros Hs Hin Ha Hone. assert (Hg : group wt s = [(ref, r)]).
  { assert (Hr : (ref, r) ∈ group wt s) by (by apply in_group).
    assert (Hk : NoDup (map fst (group wt s))) by apply filter_keys_nodup, Hs.
    assert (Hl : (length (group wt s) <= 1)%nat).
    { apply one_key; [done|]. intros kv kv' [H1 A1]%in_group [H2 A2]%in_group. by rewrite (Hone kv), (Hone kv'). }
    destruct (group wt s) as [|kv [|? ?]]; [by apply elem_of_nil in Hr| |cbn in Hl; lia].
    by apply list_elem_of_singleton in Hr as <-. }
  unfold active_seat. rewrite candidates_group by (by apply repair_ok). rewrite group_repair by (by apply st_keys). rewrite Hg.
  unfold losses, leader. cbn. done.
Qed.

(** Where the other records come from. *)
Lemma activated_entries i r order drone session b s k v : store_ok s ->
  (k, v) ∈ put (seatRef i) (activated r order drone session b)
             (foldl (fun st k => drop_key k st) s (retired (seatRef i) (sb_worktree b) s)) <->
  (k = seatRef i /\ v = activated r order drone session b) \/
  (k <> seatRef i /\ (k, v) ∈ s /\ active_in (sb_worktree b) v = false).
Proof.
  intros Hs. rewrite drop_keys, in_put by (by apply filter_keys_nodup, st_keys). rewrite member_filter. cbn [fst].
  rewrite negb_true_iff, bool_decide_eq_false, retired_in. split; (intros [H|(Hne & H)]; [by left|right]).
  - destruct H as [Hin Hret]. split; [done|split; [done|]]. destruct (active_in _ v) eqn:Ha; [|done]. destruct Hret. by exists v.
  - destruct H as [Hin Ha]. split; [done|split; [done|]]. intros (v' & Hin' & _ & Ha').
    apply in_assoc in Hin, Hin'; [|apply Hs..]. congruence.
Qed.

Lemma group_put wt k r s : active_in wt r = false -> (forall v, (k, v) ∈ s -> active_in wt v = false) ->
  group wt (put k r s) = group wt s.
Proof.
  intros Hr. induction s as [|[k' v] s IH]; cbn [put]; intros Hk; [unfold group; cbn; by rewrite Hr|].
  destruct (String.eqb_spec k k') as [->|Hne]; unfold group; cbn [List.filter snd].
  - rewrite Hr, (Hk v) by left. done.
  - fold (group wt s) (group wt (put k r s)). rewrite IH; [done|]. intros v' Hv. apply Hk. by right.
Qed.

Lemma group_keep wt keep s : (forall kv, kv ∈ s -> active_in wt (snd kv) = true -> keep kv = true) ->
  group wt (List.filter keep s) = group wt s.
Proof.
  intros Hk. unfold group. rewrite filter_filter. apply filter_ext_in. intros kv Hin. specialize (Hk kv Hin).
  destruct (active_in wt (snd kv)); [by rewrite Hk|by rewrite andb_false_r].
Qed.

Lemma group_activated wt i r order drone session b s :
  store_ok s -> assoc (seatRef i) s = Some r -> wt <> sb_worktree b -> active_in wt r = false ->
  group wt (put (seatRef i) (activated r order drone session b)
             (foldl (fun st k => drop_key k st) s (retired (seatRef i) (sb_worktree b) s))) = group wt s.
Proof.
  intros Hs Hr Hwt Ha. rewrite drop_keys. rewrite group_put; [apply group_keep|..].
  - intros [k v] Hin Hv. cbn in Hv |- *. apply negb_true_iff, bool_decide_eq_false. intros (v' & Hin' & _ & Hv')%retired_in.
    apply in_assoc in Hin, Hin'; [|apply Hs..]. rewrite Hin in Hin'. injection Hin' as <-. by apply Hwt, (active_once wt _ v).
  - destruct (active_in wt (activated r order drone session b)) eqn:E; [|reflexivity]. apply active_in_spec in E as [_ E]. cbn in E. congruence.
  - intros v [Hin _]%member_filter. apply in_assoc in Hin; [|apply Hs]. congruence.
Qed.

(** ** Activation *)

Lemma activate_commits i drone session digest b s r :
  recordMatches (assoc (seatRef i) s) (seatRef i) (expected_of i) = Some r -> digestOf (s_credential r) = digest ->
  is_safe_integer (next_order s r (sb_worktree b)) = true ->
  activate_tx i drone session digest b s =
  committed Activated (put (seatRef i) (activated r (next_order s r (sb_worktree b)) drone session b)
                        (foldl (fun st k => drop_key k st) s (retired (seatRef i) (sb_worktree b) s)))
                      (retired (seatRef i) (sb_worktree b) s ++ [seatRef i]).
Proof. intros Hm <- Ho. unfold activate_tx. rewrite Hm, String.eqb_refl. cbv zeta. by rewrite Ho. Qed.

(** The store after a call. *)
Definition store_after (c : seat_call) (s : seats) : seats := default s (commit_of c s).

Lemma store_after_ok c s : call_ok c -> store_ok s -> store_ok (store_after c s).
Proof.
  intros Hc Hs. unfold store_after. destruct (commit_of c s) as [s'|] eqn:E; [|done]. cbn.
  by eapply commits_ok; [|apply call_commits].
Qed.
