(* ===== verification/StoreReads.v ===== *)
(** * Reads of a store, and stores that cannot be read

    A private read gives out content only after every check passed on the file it
    comes from.  A transaction on a file that does not parse fails and leaves it. *)

From S2P Require Import Prelude NodeLib JsDate Assoc JsonText Effects LeaseFs LockedFile SeatStore StoreWorld.

Open Scope Z_scope.
Open Scope prog_scope.

(** ** Reads *)

Section Reads.
Variable getuid : option Z.

(** The file [lstat] found: the user's own, regular, not a link. *)
Definition own_file (m : meta) : Prop := md_link m = false /\ md_file m = true /\ wrong_owner getuid m = false.

Definition own_root (private : bool) (m : meta) : Prop :=
  md_link m = false /\ md_dir m = true /\ wrong_owner getuid m = false /\ (private = true -> low_bits (md_mode m) = 448).

Local Abbreviation log := (list (@entry store_op)).

(** The checks made before [c] was given out. *)
Definition vetted (o : store_options) (p : string) (c : content) (tr : log) : Prop :=
  exists m, Did (Lstat p) (inr m) ∈ tr /\ own_file m /\
  match so_secureRoot o with
  | None =>
      others_bits (md_mode m) = 0 /\ Did (ReadWhole p) (inr c) ∈ tr /\
      exists d, Did (StatDir (dirname p)) d ∈ tr /\
        match d with inr dm => others_bits (md_mode dm) = 0 | inl e => has_code ENOENT e = true end
  | Some root =>
      low_bits (md_mode m) = 384 /\ Did (HandleRead p) (inr c) ∈ tr /\
      (exists opened, Did (HandleStat p) (inr opened) ∈ tr /\ same_file opened m = true /\ md_size opened = md_size m) /\
      exists d, Did (Lstat root) (inr d) ∈ tr /\ own_root (so_private o) d
  end.

Local Ltac logged := set_solver.

Lemma trace_lstat p tr (Q : option meta -> log -> Prop) R :
  (forall m, Q (Some m) (tr ++ [Did (Lstat p) (inr m)])) -> (forall x, Q None (tr ++ [Did (Lstat p) x])) ->
  (forall e tr', R e tr') -> traces (lstat_or_none p) tr Q R.
Proof.
  intros Hs Hn HR. unfold lstat_or_none. apply traces_bind, traces_attempt, traces_perform; intros x; [apply Hs|].
  destruct (has_code ENOENT x); [apply Hn|apply HR].
Qed.

Lemma trace_plain p tr :
  traces (read_plain getuid p) tr
    (fun r tr' => match r with Some c => vetted plain_options p c tr' | None => True end) (fun _ _ => True).
Proof.
  unfold read_plain. apply traces_bind, trace_lstat; [|done..]. intros m.
  destruct (md_link m || negb (md_file m)) eqn:Ef; [done|]. destruct (wrong_owner getuid m) eqn:Eo; [done|].
  assert (Hm : own_file m) by (apply orb_false_iff in Ef as [? ?%negb_false_iff]; done).
  apply traces_bind. unfold assertSecureStorePerms. destruct (others_bits (md_mode m) =? 0) eqn:Eb; [|done]. apply Z.eqb_eq in Eb. cbn [negb]. cbv zeta.
  apply traces_bind, traces_attempt, traces_perform; intros x.
  - destruct (others_bits (md_mode x) =? 0) eqn:Ed; [|done]. apply Z.eqb_eq in Ed. cbn [negb traces].
    unfold or_missing. apply traces_bind, traces_attempt, traces_perform; intros c; [|by destruct (has_code ENOENT c)].
    exists m. split; [logged|split; [done|]]. split; [done|split; [logged|]]. exists (inr x). split; [logged|done].
  - destruct (has_code ENOENT x) eqn:Ex; [|done]. cbn [traces].
    unfold or_missing. apply traces_bind, traces_attempt, traces_perform; intros c; [|by destruct (has_code ENOENT c)].
    exists m. split; [logged|split; [done|]]. split; [done|split; [logged|]]. exists (inl x). split; [logged|done].
Qed.

Lemma trace_root_checks root private m tr :
  traces (check_root getuid root private m) tr
    (fun ok tr' => own_root private m /\ exists u, tr' = tr ++ u) (fun _ _ => True).
Proof.
  unfold check_root. destruct (md_link m || negb (md_dir m)) eqn:Ed; [done|].
  destruct (if private then _ else _) eqn:Ep; [done|]. destruct (wrong_owner getuid m) eqn:Eo; [done|].
  apply traces_bind, traces_perform; intros c; [|done]. destruct c; [|done]. cbn [traces]. split; [|by eexists].
  apply orb_false_iff in Ed as [? ?%negb_false_iff]. split; [done|split; [done|split; [done|]]].
  intros ->. by apply negb_false_iff, Z.eqb_eq in Ep.
Qed.

Lemma trace_root root private create tr :
  traces (assertSecureRoot getuid root private create) tr
    (fun ok tr' => (ok = true -> exists d, Did (Lstat root) (inr d) ∈ tr' /\ own_root private d) /\ exists u, tr' = tr ++ u) (fun _ _ => True).
Proof.
  unfold assertSecureRoot. apply traces_bind, traces_perform; intros c; [|done]. destruct c; [|done]. cbn [negb].
  assert (Hcheck : forall d tr1, (exists u, tr1 = tr ++ u) -> traces (check_root getuid root private d) (tr1 ++ [Did (Lstat root) (inr d)])
    (fun ok tr' => (ok = true -> exists d, Did (Lstat root) (inr d) ∈ tr' /\ own_root private d) /\ exists u, tr' = tr ++ u) (fun _ _ => True)).
  { intros d tr1 [u ->]. eapply traces_mono; [apply trace_root_checks| |done]. intros ok tr' [Hd [v ->]].
    split; [intros _; exists d; split; [logged|done]|]. rewrite <-!app_assoc. by eexists. }
  apply traces_bind, trace_lstat; [|intros x|done].
  - intros d. rewrite <-app_assoc. cbn [app]. change [?a; ?b] with ([a] ++ [b]). rewrite app_assoc. apply Hcheck. by eexists.
  - destruct create; cbn [negb]; [|split; [done|]; rewrite <-app_assoc; by eexists].
    apply traces_bind, traces_perform; intros y; [|done]. apply traces_bind, traces_perform; intros d; [|done].
    apply Hcheck. rewrite <-!app_assoc. by eexists.
Qed.

Lemma trace_path p root o tr :
  traces (assertSecurePath getuid p root o) tr
    (fun _ tr' => (exists d, Did (Lstat root) (inr d) ∈ tr' /\ own_root (so_private o) d) /\ exists u, tr' = tr ++ u) (fun _ _ => True).
Proof.
  unfold assertSecurePath. destruct (negb _ || negb _); [done|]. apply traces_bind. eapply traces_mono; [apply trace_root| |done].
  intros ok tr' [Hd Hu]. destruct ok; [|done]. split; [by apply Hd|done].
Qed.

Lemma trace_secure_file p tr (Q : option meta -> log -> Prop) (R : js_error -> log -> Prop) :
  (forall m, own_file m -> low_bits (md_mode m) = 384 -> Q (Some m) (tr ++ [Did (Lstat p) (inr m)])) ->
  (forall tr', Q None tr') -> (forall e tr', R e tr') -> traces (assertSecureFile getuid p) tr Q R.
Proof.
  intros HQ Hn HR. unfold assertSecureFile. apply traces_bind, trace_lstat; [|intros; apply Hn|done]. intros m.
  destruct (md_link m || negb (md_file m)) eqn:Ef; [apply HR|]. destruct (low_bits (md_mode m) =? 384) eqn:Em; [|apply HR].
  destruct (wrong_owner getuid m) eqn:Eo; [apply HR|]. apply HQ; [|by apply Z.eqb_eq].
  apply orb_false_iff in Ef as [? ?%negb_false_iff]. done.
Qed.

Lemma trace_close {A} p (r : js_error + A) tr (Q : A -> log -> Prop) (R : js_error -> log -> Prop) :
  (forall a tr', r = inr a -> (exists u, tr' = tr ++ u) -> Q a tr') -> (forall e tr', R e tr') ->
  traces (do! perform (HandleClose p); match r with inl e => Throw e | inr a => Ret a end) tr Q R.
Proof.
  intros HQ HR. apply traces_bind, traces_perform; intros x; [|apply HR]. destruct r as [e|a]; [apply HR|].
  apply HQ; [done|by eexists].
Qed.

Lemma trace_secure p o root tr d : so_secureRoot o = Some root ->
  Did (Lstat root) (inr d) ∈ tr -> own_root (so_private o) d ->
  traces (read_secure getuid p) tr (fun r tr' => match r with Some c => vetted o p c tr' | None => True end) (fun _ _ => True).
Proof.
  intros Ho Hd Hroot. unfold read_secure. apply traces_bind, trace_secure_file; [|done..]. intros m Hm Hmode.
  unfold or_missing. apply traces_bind, traces_bind, traces_attempt, traces_perform; intros h; [|by destruct (has_code ENOENT h)].
  cbn [traces]. unfold pfinally. apply traces_bind, traces_attempt.
  assert (Hend : forall (r : js_error + option content) tr',
    (forall c tr'', r = inr (Some c) -> (exists u, tr'' = tr' ++ u) -> vetted o p c tr'') ->
    traces (do! perform (HandleClose p); match r with inl e => Throw e | inr a => Ret a end) tr'
      (fun r tr' => match r with Some c => vetted o p c tr' | None => True end) (fun _ _ => True)).
  { intros r tr' Hr. apply trace_close; [|done]. intros [c|] tr'' E Hu; [|done]. by apply Hr. }
  assert (Hfail : forall e tr', traces (do! perform (HandleClose p); match (inl e : js_error + option content) with inl e => Throw e | inr a => Ret a end) tr'
      (fun r tr' => match r with Some c => vetted o p c tr' | None => True end) (fun _ _ => True)) by (intros e tr'; by apply (Hend (inl e))).
  apply traces_bind, traces_perform; intros opened; [|exact (Hfail _ _)]. destruct (same_file opened m) eqn:E1; [|exact (Hfail _ _)]. cbn [negb].
  apply traces_bind, traces_perform; intros raw; [|exact (Hfail _ _)].
  apply traces_bind, traces_perform; intros after; [|exact (Hfail _ _)].
  destruct (same_file after m) eqn:E2; [|exact (Hfail _ _)]. destruct (md_size after =? md_size m) eqn:E3; [|exact (Hfail _ _)]. apply Z.eqb_eq in E3.
  apply (Hend (inr (Some raw))). intros c tr'' [= <-] [u ->]. exists m. split; [logged|split; [done|]]. rewrite Ho. split; [done|split; [logged|]].
  split; [exists after; split; [logged|done]|]. exists d. split; [logged|done].
Qed.

Lemma vetted_plain o p c tr : so_secureRoot o = None -> vetted plain_options p c tr -> vetted o p c tr.
Proof. intros Ho. unfold vetted. by rewrite Ho. Qed.

Lemma trace_read p o :
  traces (readStoreFile getuid p o) []
    (fun r tr => match r with Some c => vetted o p c tr | None => True end) (fun _ _ => True).
Proof.
  unfold readStoreFile. destruct (negb (resolved_path p)); [done|]. destruct (so_secureRoot o) as [root|] eqn:Ho.
  - apply traces_bind. eapply traces_mono; [apply trace_path| |done]. intros _ tr [(d & Hd & Hr) _]. by apply (trace_secure p o root tr d).
  - eapply traces_mono; [apply trace_plain| |done]. intros [c|] tr; [|done]. by apply vetted_plain.
Qed.
End Reads.

(** ** Files that do not parse *)

Section Unreadable.
Variable store : string.
Hypothesis store_json : last_four store = "json".
Variable getuid : option Z.
Variable pid : Z.

Local Abbreviation wills := (will (store_act store)).

(** Every operation may at least fail. *)
Lemma written_total p w : exists c w', written store p c w w'.
Proof. exists (Raw ""). unfold written. destruct (place_of store p); by eexists. Qed.

Lemma store_act_total X (op : store_op X) w : exists x w', store_act store X op w x w'.
Proof.
  destruct op; try (by exists (inl (JsError "")), w); try (by exists "", w); try (by exists tt, w);
    try (exists (inl (JsError "")), w; split; [done|]; cbn; unfold seen_there, seen_content; by destruct (place_of store p)).
  destruct (written_total p w) as (c' & w' & Hw). exists (inl (JsError "")), w'. by exists c'.
Qed.

Lemma will_quiet {A} (p : storing A) w (Q : outcome A -> files -> Prop) : quiet store p -> (forall r, Q r w) -> wills p w Q.
Proof.
  intros Hp HQ. induction p as [a|e|X op k IH]; cbn in *; [done..|]. split; [apply store_act_total|].
  intros x w' Ha. destruct (Hp w x w' Ha) as [-> Hk]. by apply IH.
Qed.

Lemma will_do {X} (op : store_op (js_error + X)) w Q :
  (forall x w', store_act store _ op w x w' -> Q (match x with inl e => Failed e | inr a => Done a end) w') -> wills (perform op) w Q.
Proof. apply will_perform, store_act_total. Qed.

Variable c : content.
Definition still (w : files) : Prop := f_state w = Some c.

(** The read, and the failure it leads to. *)
Lemma will_read w : still w ->
  wills (readStoreFile getuid store plain_options) w
    (fun r w' => w' = w /\ match r with Done raw => raw = Some c | Failed _ => True end).
Proof.
  intros Hw. unfold still in Hw. unfold readStoreFile. destruct (negb _); [done|]. change (so_secureRoot plain_options) with (@None string). cbv iota.
  unfold read_plain, lstat_or_none. apply will_bind, will_bind, will_attempt, will_do. intros x w' [-> Hx]. unfold seen_there in Hx.
  rewrite place_store in Hx. destruct x as [e|m].
  - destruct (has_code ENOENT e); [|done]. specialize (Hx eq_refl). congruence.
  - cbn [will]. destruct (_ || _); [done|]. destruct (wrong_owner getuid m); [done|]. apply will_bind, will_quiet; [apply quiet_perms|].
    intros [[]|e]; [|done]. unfold or_missing. apply will_bind, will_attempt, will_do. intros x w' [-> Hy]. unfold seen_content in Hy.
    rewrite place_store in Hy. destruct x as [e|c'].
    + destruct (has_code ENOENT e); [|done]. specialize (Hy eq_refl). congruence.
    + cbn [will]. split; [done|]. congruence.
Qed.

Definition fails {A} (r : outcome A) (w : files) : Prop := still w /\ exists e, r = Failed e.

Section Fails.
Context {A : Type}.
Variable op : storing A.
Hypothesis op_fails : forall w, still w -> wills op w fails.

Local Ltac failed := split; [done|by eexists].

Lemma will_acquire attempts waitMs tmp o w : so_secureRoot o = None -> still w ->
  wills (acquire_loop getuid attempts waitMs (store_lock store) tmp o op) w fails.
Proof.
  intros Ho. revert w. induction attempts as [|n IH]; intros w Hw; cbn [acquire_loop]; [failed|]. cbv zeta.
  assert (Hlook : forall f : option content -> storing A, (forall x, wills (f x) w fails) -> wills (pbind (inspect getuid (store_lock store) o) f) w fails).
  { intros f Hf. apply will_bind, will_quiet; [by apply quiet_inspect|]. intros [x|e]; [apply Hf|failed]. }
  apply will_bind, will_attempt, will_do. intros x w' Ha. destruct x as [e|[]]; cbn in Ha.
  - subst w'. destruct (negb (has_code EEXIST e)); [failed|]. apply Hlook. intros [raw|]; [|by apply IH].
    apply will_bind, will_quiet; [destruct (parseLockPayload raw); [apply quiet_alive|exact I]|]. intros [[]|e']; [| |failed].
    + apply will_bind, will_quiet; [by apply quiet_ask|]. intros [|e']; [by apply IH|failed].
    + apply Hlook. intros [now|]; [|by apply IH]. destruct (bool_decide _); [failed|by apply IH].
  - unfold placed in Ha. rewrite place_lock in Ha by done. destruct Ha as [_ ->]. apply will_finally.
    eapply will_mono; [by apply op_fails|]. intros r w1 (Hw1 & e & ->).
    unfold release. apply will_bind, will_attempt, will_do. intros x w2 Ha. destruct x as [e'|[]]; cbn in Ha.
    + subst w2. destruct (has_code ENOENT e'); failed.
    + unfold removed in Ha. rewrite place_lock in Ha by done. subst w2. failed.
Qed.

Lemma will_lock attempts waitMs o w : so_secureRoot o = None -> still w ->
  wills (withStoreLock getuid pid attempts waitMs (store_lock store) o op) w fails.
Proof.
  intros Ho Hw. unfold withStoreLock. rewrite Ho. apply will_bind, will_quiet; [by apply quiet_perform|]. intros [[]|e]; [|failed].
  apply will_bind, will_quiet; [by apply quiet_ask|]. intros [start|e]; [|failed].
  apply will_bind, will_quiet; [by apply quiet_ask|]. intros [hex|e]; [|failed]. cbv zeta.
  assert (Ht := place_owner store store_json pid (store_lock store) hex). set (tmp := temp_name _ _ hex ".acq") in *. clearbody tmp.
  apply will_bind, will_quiet.
  { apply quiet_perform. intros w' x w'' Ha. cbn in Ha. unfold created in Ha. rewrite Ht in Ha. by destruct x. }
  intros [[]|e]; [|failed]. apply will_bind, will_quiet.
  { apply quiet_finally; apply quiet_perform; intros w' x w'' Ha; cbn in Ha; [|done]. unfold written in Ha. rewrite Ht in Ha.
    destruct x; [by destruct Ha|done]. }
  intros [[]|e]; [|failed]. apply will_finally. eapply will_mono; [by apply will_acquire|]. intros r w1 (Hw1 & e & ->).
  apply will_quiet; [|intros [[]|e']; failed]. apply quiet_bind; [|done]. apply quiet_attempt, quiet_perform.
  intros w' x w'' Ha. cbn in Ha. unfold removed in Ha. rewrite Ht in Ha. by destruct x.
Qed.
End Fails.

(** Whatever the operation, a transaction on it ends, fails and leaves it. *)
Lemma will_withStore {St A} (empty : St) parse print (op : St -> (St -> storing unit) -> storing A) w :
  still w -> (forall data, parse c <> inr (Some data)) ->
  wills (withStore getuid pid store empty parse print plain_options op) w fails.
Proof.
  intros Hw Hp. unfold withStore. apply will_lock; [|done|done]. intros w1 Hw1. apply will_bind.
  eapply will_mono; [by apply will_read|]. intros r w2 [-> Hr]. destruct r as [raw|e]; [|split; [done|by eexists]]. subst raw. cbv zeta.
  destruct (parse c) as [e|[data|]]; [|by destruct (Hp data)|]; (split; [done|by eexists]).
Qed.
End Unreadable.
