(* ===== verification/SeatsSpec.v ===== *)
(** * The seat store shared by processes

    The abstract store: each transaction replaces the store at once by what it
    commits.  Any number of processes whose calls interleave operation by operation,
    and stop anywhere, give the file a history of that store, in which each commit
    takes place once and is made from the store as the one before it left it. *)

From S2P Require Import Prelude JsDate Assoc JsonText Effects LeaseFs LockedFile LocalServerCursor SeatStore StoreWorld Seats SeatsFacts SeatsCommits StoreReads.

Open Scope Z_scope.
Open Scope prog_scope.

Section Shared.
Context `{UrlEnv}.
Variable config_root : string.
(** The calls the processes make. *)
Variable issued : seat_call -> Prop.

Local Abbreviation store := (SEATS_FILE config_root).

Lemma seats_json : last_four store = "json".
Proof.
  unfold SEATS_FILE. change "/seats.json" with ("/seats." +:+ "json"). rewrite <-append_assoc. by apply last_four_app.
Qed.

(** ** The abstract store *)

(** The store a reader of the file has. *)
Definition holds (raw : option content) (s : seats) : Prop := loads emptyStore parseStore raw s.

Inductive transacts : seats -> seats -> Prop :=
| transact c s s' : issued c -> call_ok c -> commit_of c s = Some s' -> transacts s (repairOrderedDuplicateBindings s').

Lemma holds_once raw s s' : holds raw s -> holds raw s' -> s = s'.
Proof. destruct raw as [c|]; cbn; congruence. Qed.

Lemma transacts_ok s s' : transacts s s' -> store_ok s -> store_ok s'.
Proof. intros [c s0 s1 _ Hc Hs1] Hs. apply repair_ok. by eapply commits_ok; [|apply call_commits]. Qed.

Lemma transacts_single s s' : transacts s s' -> store_ok s -> single s -> single s'.
Proof.
  intros [c s0 s1 _ Hc Hs1] Hs Hsi. assert (Hs' : single s1) by (eapply commits_single; [done|by apply call_commits|done]).
  by rewrite single_repair.
Qed.

Lemma history_keeps (P : seats -> Prop) s s' :
  (forall a b, transacts a b -> store_ok a -> P a -> P b) -> rtc transacts s s' -> store_ok s -> P s -> store_ok s' /\ P s'.
Proof.
  intros HP Hr. induction Hr as [s|s s1 s2 Hs Hr IH]; [done|]. intros Hok Hp.
  apply IH; [by eapply transacts_ok|by eapply HP].
Qed.

(** ** The processes *)

(** The call as the program makes it. *)
Definition call_program (getuid : option Z) (pid : Z) (c : seat_call) : storing unit :=
  match c with
  | CallMint d => do! mintPendingSeat getuid pid config_root d; Ret tt
  | CallPrepare e v sc d => do! prepareSeat getuid pid config_root e v sc d; Ret tt
  | CallActivate i drone session digest b => do! activateAndBindSeat getuid pid config_root i drone session digest b; Ret tt
  | CallBindPending i digest drone b => do! bindPendingSeatToWorktree getuid pid config_root i digest drone b; Ret tt
  | CallReset wt ref drone o => do! resetSeatForWorktree getuid pid config_root wt ref drone o; Ret tt
  | CallScrub ref e digest => do! scrubPendingSeat getuid pid config_root ref e digest; Ret tt
  | CallClear ref => clearSeat getuid pid config_root ref
  | CallRefresh wt ref cube drone b => do! refreshSeatMetadata getuid pid config_root wt ref cube drone b; Ret tt
  end.

(** The arguments are what their types promise; the identifiers the program
    checks itself. *)
Definition typed (c : seat_call) : Prop :=
  match c with
  | CallMint d | CallPrepare _ _ _ d => seed_ok d
  | CallActivate _ _ _ _ b => binding_ok b
  | _ => True
  end.

Definition starts (w : files) (p : storing unit) : Prop :=
  exists getuid pid c, issued c /\ typed c /\ p = call_program getuid pid c.

(** What a call makes of the file, and when it makes nothing. *)
Definition allowed_by (c : seat_call) (raw : option content) (data : content) : Prop :=
  exists s s', call_ok c /\ holds raw s /\ commit_of c s = Some s' /\ data = store_content s'.

Definition loaded (raw : option content) : option seats :=
  match raw with
  | None => Some emptyStore
  | Some c => match parseStore c with inr (Some s) => Some s | _ => None end
  end.

Definition declines_by (c : seat_call) (raw : option content) : bool :=
  match loaded raw with
  | Some s => match commit_of c s with None => true | Some _ => false end
  | None => false
  end.

Lemma loaded_holds raw s : loaded raw = Some s <-> holds raw s.
Proof.
  destruct raw as [c|]; cbn; [destruct (parseStore c) as [|[]]|]; naive_solver.
Qed.

(** What any of them may make of it. *)
Definition allowed (raw : option content) (c : content) : Prop := exists call, issued call /\ allowed_by call raw c.

(** The checks before the transaction: such a call returns without one. *)
Definition refused (c : seat_call) : Prop :=
  match c with CallScrub ref _ _ | CallRefresh _ ref _ _ _ => is_ref ref = false | _ => False end.

Local Abbreviation sim c := (simulates (store_act store) (tx_step (allowed_by c) (declines_by c))).

Lemma sim_enact {A} getuid pid c (tx : seats -> step A) raw s :
  call_ok c -> (forall s, st_commit (tx s) = commit_of c s) -> holds raw s ->
  sim c (inside (Some raw) None (verdict_on (declines_by c) raw))
    (enact tx s (fun s' => atomicWrite0600 getuid pid store (store_content s') plain_options))
    (fun _ s => is_decided s) (fun _ s => is_within s).
Proof.
  intros Hc Htx Hs. unfold enact. cbv zeta.
  assert (Hrest : forall t, is_decided t ->
    sim c t (do! foldr (fun ref rest => do! ask (Unreject ref); rest) (Ret tt) (st_unreject (tx s));
           match st_result (tx s) with inl e => Throw e | inr a => Ret a end) (fun _ s => is_decided s) (fun _ s => is_within s)).
  { intros t Ht. apply sim_looks; [|done|by intros; apply Ht]. apply quiet_bind; [|by destruct (st_result (tx s))].
    induction (st_unreject (tx s)) as [|ref refs IH]; cbn [foldr]; [exact I|].
    apply quiet_bind; [|done]. by apply quiet_ask; intros w x w' Ha. }
  assert (Hv : declines_by c raw = match commit_of c s with None => true | Some _ => false end).
  { unfold declines_by. by rewrite (proj2 (loaded_holds raw s) Hs). }
  unfold verdict_on. rewrite Hv, <-Htx. apply simulates_bind. destruct (st_commit (tx s)) as [s'|] eqn:E.
  - eapply simulates_mono; [apply sim_commit; [exact seats_json|]|intros [] t Ht; apply Hrest|done].
    + exists s, s'. by rewrite <-Htx.
    + split; [by exists Committed|]. destruct Ht as (seen & temp & ->). done.
  - apply Hrest. split; [apply within_inside|done].
Qed.

Lemma sim_with_seats {A} getuid pid c (tx : seats -> step A) :
  call_ok c -> (forall s, st_commit (tx s) = commit_of c s) ->
  sim c outside (do! with_seats getuid pid config_root tx; Ret tt) (fun _ s => decided s) (fun _ _ => True).
Proof.
  intros Hc Htx. apply simulates_bind. eapply simulates_mono; [|intros a t Ht; exact Ht|done].
  apply sim_withStore; [exact seats_json|]. intros raw s Hs. by apply (sim_enact _ _ c).
Qed.

Lemma sim_call getuid pid c : typed c ->
  sim c outside (call_program getuid pid c) (fun _ s => decided s \/ refused c) (fun _ _ => True).
Proof.
  intros Hc.
  assert (Hdone : forall p : storing unit, sim c outside p (fun _ s => decided s) (fun _ _ => True) ->
    sim c outside p (fun _ s => decided s \/ refused c) (fun _ _ => True)).
  { intros p Hp. eapply simulates_mono; [exact Hp| |done]. by left. }
  destruct c as [d|e v sc d|i drone session digest b|i digest drone b|wt ref drone o|ref e digest|ref|wt ref cube drone b]; cbn [call_program].
  - by apply Hdone, sim_with_seats.
  - by apply Hdone, sim_with_seats.
  - unfold activateAndBindSeat. destruct (is_uuid drone) eqn:Ed; [|done]. destruct (is_uuid session) eqn:Es; [|done].
    by apply Hdone, sim_with_seats.
  - unfold bindPendingSeatToWorktree. destruct (match drone with Some d => _ | None => _ end) eqn:Ed; [done|].
    apply Hdone, sim_with_seats; [|done]. cbn.
    destruct drone as [d|]; cbn in *; [by apply negb_false_iff in Ed|done].
  - by apply Hdone, sim_with_seats.
  - unfold scrubPendingSeat. destruct (is_ref ref) eqn:Er; cbn [negb]; [|by right]. by apply Hdone, sim_with_seats.
  - unfold clearSeat. destruct (negb (is_ref ref)); [done|]. apply Hdone.
    eapply simulates_mono; [|intros a t Ht; exact Ht|done].
    apply sim_withStore; [exact seats_json|]. intros raw s Hs. by apply (sim_enact _ _ (CallClear ref)).
  - unfold refreshSeatMetadata. destruct (is_ref ref) eqn:Er; cbn [negb]; [|by right]. by apply Hdone, sim_with_seats.
Qed.

(** A process is its call and what became of it. *)
Definition caller : Type := seat_call * transaction.

Definition caller_step (s : caller) (w : files) (s' : caller) (w' : files) : Prop :=
  issued (fst s) /\ fst s' = fst s /\ tx_step (allowed_by (fst s)) (declines_by (fst s)) (snd s) w (snd s') w'.

Lemma lift_call {A} c t (p : storing A) (Q : A -> transaction -> Prop) : issued c ->
  sim c t p Q (fun _ _ => True) -> simulates (store_act store) caller_step (c, t) p (fun a s => fst s = c /\ Q a (snd s)) (fun _ s => fst s = c).
Proof.
  intros Hi. revert t. induction p as [a|e|X op k IH]; intros t Hp; cbn in *; [done..|].
  intros w x w' Ha. destruct (Hp w x w' Ha) as (t' & Hs & Hk). exists (c, t'). split; [done|]. by apply IH.
Qed.

Definition returned (a : unit) (s : caller) : Prop := decided (snd s) \/ refused (fst s).

Lemma call_conducts getuid pid c : issued c -> typed c ->
  simulates (store_act store) caller_step (c, outside) (call_program getuid pid c) returned (fun _ _ => True).
Proof.
  intros Hi Hc. eapply simulates_mono; [apply lift_call; [done|by apply sim_call]| |done].
  intros a [c' t] [Heq Ht]. cbn in Heq. by subst c'.
Qed.

(** What they do to the files. *)
Definition process_of (s : caller) : process := tx_process (snd s).

Lemma caller_file s w s' w' : caller_step s w s' w' -> file_step allowed (process_of s) w (process_of s') w'.
Proof.
  intros (Hi & _ & Hs). apply tx_step_file in Hs. eapply file_step_mono; [|exact Hs]. intros old c Hc. by exists (fst s).
Qed.

(** ** The file's history *)

(** The file holds a store with distinct, valid records. *)
Definition readable (raw : option content) : Prop := exists s, holds raw s /\ store_ok s.

Lemma allowed_transacts raw c s : holds raw s -> store_ok s -> allowed raw c ->
  exists s', holds (Some c) s' /\ transacts s s'.
Proof.
  intros Hs Hok (call & Hi & s0 & s1 & Hc & Hs0 & Hcom & ->). rewrite <-(holds_once _ _ _ Hs Hs0) in Hcom.
  exists (repairOrderedDuplicateBindings s1). split; [|by eapply transact].
  cbn. apply store_reads_back. by eapply commits_ok; [|apply call_commits].
Qed.

Lemma allowed_readable raw c : allowed raw c -> readable raw -> readable (Some c).
Proof.
  intros Ha (s & Hs & Hok). destruct (allowed_transacts raw c s Hs Hok Ha) as (s' & Hs' & Ht). exists s'. split; [done|].
  by eapply transacts_ok.
Qed.

Lemma history w w' s : rtc (changes allowed) w w' -> holds (f_state w) s -> store_ok s ->
  exists s', holds (f_state w') s' /\ store_ok s' /\ rtc transacts s s'.
Proof.
  intros Hr. revert s. induction Hr as [w|w w1 w2 Hc Hr IH]; intros s Hs Hok; [exists s; split; [done|split; [done|apply rtc_refl]]|].
  destruct Hc as [E|(c & E & Ha)].
  - rewrite <-E in Hs. by apply IH.
  - destruct (allowed_transacts _ c s Hs Hok Ha) as (s1 & Hs1 & Ht). rewrite <-E in Hs1.
    destruct (IH s1 Hs1) as (s' & Hs' & Hok' & Hr'); [by eapply transacts_ok|]. exists s'. split; [done|split; [done|]]. by eapply rtc_l.
Qed.

Definition starting (w : files) (s : caller) : Prop := snd s = outside.

(** The processes seen as what they do to the files. *)
Lemma caller_moves ss w ss' w' :
  rtc (abstract_moves caller_step (fun _ _ => False) starting) (ss, w) (ss', w') ->
  rtc (abstract_moves (file_step allowed) (fun _ _ => False) (fun _ s => pr_phase s = Outside /\ stable allowed readable (pr_goal s)))
    (map process_of ss, w) (map process_of ss', w').
Proof.
  intros Hr. remember (ss, w) as c eqn:Ec. remember (ss', w') as c' eqn:Ec'. revert ss w Ec.
  induction Hr as [c|c [ss1 w1] c1 Hs Hr IH]; intros ss w ->; [simplify_eq; apply rtc_refl|].
  eapply rtc_l; [|by apply IH]. inversion Hs as [ss0 i s s' w0 w2 Hi Hst|ss0 s w0 Hst|]; subst; [| |done].
  - change (map process_of (<[i := s']> ss)) with (process_of <$> <[i := s']> ss). rewrite list_fmap_insert.
    apply (abstract_op _ _ _ _ _ (process_of s)); [|by apply caller_file]. by apply list_lookup_fmap_Some_2.
  - rewrite map_app. apply abstract_start. unfold starting in Hst. unfold process_of. by rewrite Hst.
Qed.

Lemma pool_history w ps w' s :
  holds (f_state w) s -> store_ok s -> rtc (pool_moves (store_act store) starts (fun _ _ => False)) ([], w) (ps, w') ->
  exists s', holds (f_state w') s' /\ store_ok s' /\ rtc transacts s s'.
Proof.
  intros Hs Hok Hr.
  destruct (pool_simulation_to (store_act store) caller_step starts (fun _ _ => False) returned (fun _ _ => True)
    starting [] w ps w' []) as (ss & Hss & _); [|constructor|exact Hr|].
  - intros v p (getuid & pid & c & Hi & Hc & ->). exists (c, outside). split; [done|]. by apply call_conducts.
  - apply caller_moves in Hss. destruct (abstract_changes allowed readable allowed_readable _ w _ w' Hss) as [_ Hch].
    { apply files_ok_nobody. by exists s. }
    by apply (history w w').
Qed.

(** ** One commit after the other

    The processes of a list of calls.  [replay] makes the commits of the calls at
    the given places of the list, each alone and on the store the one before it
    left. *)
Variable calls : list seat_call.

Fixpoint replay (order : list nat) (s : seats) : option seats :=
  match order with
  | [] => Some s
  | i :: rest => c ← calls !! i; s' ← commit_of c s; replay rest (repairOrderedDuplicateBindings s')
  end.

Lemma replay_app order more s : replay (order ++ more) s = s' ← replay order s; replay more s'.
Proof.
  revert s. induction order as [|i order IH]; intros s; [done|]. cbn [replay app]. destruct (calls !! i) as [c|]; [|done].
  cbn [mbind option_bind]. destruct (commit_of c s) as [s'|]; [|done]. cbn [mbind option_bind]. apply IH.
Qed.

(** The call leaves the store alone that some of the commits had given. *)
Definition leaves (order : list nat) (s0 : seats) (c : seat_call) : Prop :=
  exists earlier later s1, order = earlier ++ later /\ replay earlier s0 = Some s1 /\ commit_of c s1 = None.

Lemma leaves_more order more s0 c : leaves order s0 c -> leaves (order ++ more) s0 c.
Proof. intros (earlier & later & s1 & -> & Hs). exists earlier, (later ++ more), s1. by rewrite app_assoc. Qed.

Record serial (ss : list caller) (w : files) (s0 : seats) (order : list nat) (s : seats) : Prop := {
  sr_calls : map fst ss = calls;
  sr_files : files_ok allowed readable (map process_of ss) w;
  sr_nodup : NoDup order;
  sr_committed : forall i c, ss !! i = Some c -> (tx_verdict (snd c) = Committed <-> i ∈ order);
  sr_replay : replay order s0 = Some s;
  sr_holds : holds (f_state w) s;
  sr_ok : store_ok s;
  sr_declined : forall i c, ss !! i = Some c -> tx_verdict (snd c) = Declined -> leaves order s0 (fst c)
}.

Lemma works_keeps p w p' w' : file_step (fun _ _ => False) p w p' w' -> f_state w' = f_state w.
Proof. by intros []. Qed.

(** A step of the process at [i] that is no commit. *)
Lemma serial_quiet ss w s0 order s i c c' w' :
  serial ss w s0 order s -> ss !! i = Some c -> caller_step c w c' w' -> f_state w' = f_state w ->
  (tx_verdict (snd c') = Committed <-> tx_verdict (snd c) = Committed) ->
  (tx_verdict (snd c') = Declined -> leaves order s0 (fst c)) -> serial (<[i := c']> ss) w' s0 order s.
Proof.
  intros [K1 K2 K3 K4 K5 K6 K7 K8] Hi Hs Hw Hv Hd. assert (Hfst : fst c' = fst c) by apply Hs.
  assert (Hcase : forall j d, <[i := c']> ss !! j = Some d -> (j = i /\ d = c') \/ ss !! j = Some d).
  { intros j d Hj. destruct (decide (j = i)) as [->|Hne]; [left|right; by rewrite list_lookup_insert_ne in Hj].
    rewrite list_lookup_insert_eq in Hj by (by eapply lookup_lt_Some). by injection Hj. }
  assert (Hmap : forall A (f : caller -> A), map f (<[i := c']> ss) = <[i := f c']> (map f ss)) by (intros; apply list_fmap_insert).
  split; try done.
  - rewrite Hmap, Hfst, <-K1. apply list_insert_id. by apply list_lookup_fmap_Some_2.
  - rewrite Hmap. refine (proj1 (files_ok_step allowed readable allowed_readable _ _ i (process_of c) _ _ K2 _ _)); [|by apply caller_file].
    by apply list_lookup_fmap_Some_2.
  - intros j d [[-> ->]|Hj]%Hcase; [|by apply K4]. rewrite Hv. by apply K4.
  - by rewrite Hw.
  - intros j d [[-> ->]|Hj]%Hcase; [rewrite Hfst; exact Hd|by apply (K8 j)].
Qed.

Lemma serial_step ss w s0 order s i c c' w' :
  serial ss w s0 order s -> ss !! i = Some c -> caller_step c w c' w' ->
  exists more s', serial (<[i := c']> ss) w' s0 (order ++ more) s'.
Proof.
  intros HS Hi Hs. assert (Hquiet : f_state w' = f_state w -> (tx_verdict (snd c') = Committed <-> tx_verdict (snd c) = Committed) ->
    (tx_verdict (snd c') = Declined -> leaves order s0 (fst c)) -> exists more s', serial (<[i := c']> ss) w' s0 (order ++ more) s').
  { intros H1 H2 H3. exists [], s. rewrite app_nil_r. by eapply serial_quiet. }
  assert (Hs' := Hs). destruct Hs' as (Hiss & Hfst & Hst), c as [call t], c' as [call' t']. cbn [fst snd] in *. subst call'.
  assert (Hp : map process_of ss !! i = Some (process_of (call, t))) by (by apply list_lookup_fmap_Some_2).
  inversion Hst as [p w1 p' w2 v Hf|p w1 seen temp Hph|p w1 old n x y Hph Ha Hx]; subst.
  - apply Hquiet; [by eapply works_keeps|done|]. intros Hv. exact (sr_declined _ _ _ _ _ HS i _ Hi Hv).
  - apply Hquiet; [done|cbn; by destruct (declines_by _ _)|]. cbn. destruct (declines_by call (f_state w')) eqn:Ed; [|done]. intros _.
    exists order, [], s. split; [by rewrite app_nil_r|]. split; [apply HS|]. unfold declines_by in Ed.
    rewrite (proj2 (loaded_holds _ _) (sr_holds _ _ _ _ _ HS)) in Ed. by destruct (commit_of call s).
  - assert (Hseen : f_state w = old) by (eapply (fo_seen _ _ _ _ (sr_files _ _ _ _ _ HS)); [exact Hp|exact Hph]).
    assert (Htemp : f_temps w !! n = Some x) by (eapply (fo_temp _ _ _ _ (sr_files _ _ _ _ _ HS)); [exact Hp|exact Hph]).
    rewrite Htemp in Hx. injection Hx as <-. subst old.
    destruct Ha as (s1 & s2 & Hok & Hs1 & Hcom & ->). destruct HS as [K1 K2 K3 K4 K5 K6 K7 K8].
    rewrite <-(holds_once _ _ _ K6 Hs1) in Hcom. clear s1 Hs1.
    assert (Hs2 : store_ok s2) by (by eapply commits_ok; [|apply call_commits]).
    assert (Hnew : i ∉ order) by (intros Hin; by apply (K4 i _ Hi) in Hin).
    assert (Hmap : forall A (f : caller -> A) d, map f (<[i := d]> ss) = <[i := f d]> (map f ss)) by (intros; apply list_fmap_insert).
    exists [i], (repairOrderedDuplicateBindings s2). split.
    + rewrite Hmap. cbn [fst]. rewrite <-K1. apply list_insert_id. by apply (list_lookup_fmap_Some_2 fst _ _ (call, Transaction p Undecided)).
    + rewrite Hmap. exact (proj1 (files_ok_step allowed readable allowed_readable _ _ i _ _ _ K2 Hp (caller_file _ _ _ _ Hs))).
    + apply NoDup_app. split; [done|]. split; [|apply NoDup_singleton]. by intros j Hj ->%list_elem_of_singleton.
    + intros j d Hj. rewrite elem_of_app, list_elem_of_singleton. destruct (decide (j = i)) as [->|Hne].
      * rewrite list_lookup_insert_eq in Hj by (by eapply lookup_lt_Some). injection Hj as <-. cbn. tauto.
      * rewrite list_lookup_insert_ne in Hj by done. rewrite (K4 j d Hj). tauto.
    + rewrite replay_app, K5. cbn [mbind option_bind replay]. assert (Hc : calls !! i = Some call).
      { rewrite <-K1. by apply (list_lookup_fmap_Some_2 fst _ _ (call, Transaction p Undecided)). }
      rewrite Hc. cbn [mbind option_bind]. by rewrite Hcom.
    + cbn. by apply store_reads_back.
    + by apply repair_ok.
    + intros j d Hj Hv. apply leaves_more. destruct (decide (j = i)) as [->|Hne].
      * rewrite list_lookup_insert_eq in Hj by (by eapply lookup_lt_Some). by injection Hj as <-.
      * rewrite list_lookup_insert_ne in Hj by done. by apply (K8 j).
Qed.

Lemma serial_run ss w ss' w' s0 order s :
  rtc (abstract_moves caller_step (fun _ _ => False) (fun _ _ => False)) (ss, w) (ss', w') -> serial ss w s0 order s ->
  exists more s', serial ss' w' s0 (order ++ more) s'.
Proof.
  intros Hr. remember (ss, w) as c eqn:Ec. remember (ss', w') as c' eqn:Ec'. revert ss w order s Ec.
  induction Hr as [c|c [ss1 w1] c1 Hs Hr IH]; intros ss w order s -> HS; [simplify_eq; exists [], s; by rewrite app_nil_r|].
  inversion Hs as [ss0 i d d' w0 w2 Hi Hst| |]; subst; [|done..].
  destruct (serial_step _ _ _ _ _ _ _ _ _ HS Hi Hst) as (m1 & s1 & H1).
  destruct (IH eq_refl _ _ _ _ eq_refl H1) as (m2 & s2 & H2). exists (m1 ++ m2), s2. by rewrite app_assoc.
Qed.
End Shared.

(** * The seat store: what it promises

    Of the shared store: its history is one of atomic transactions, a worktree has
    one active seat, a credential that nobody asked to discard stays.  Of single
    calls: an activation takes effect, a retried preparation gives the same
    credential.  Of the file: what is written is read back, superseded bindings go,
    a file that cannot be read stays as it is, private content is given out only
    after the checks. *)

(** ** The shared store *)

Section SharedStore.
Context `{UrlEnv}.
Variable config_root : string.
Variable issued : seat_call -> Prop.

Local Abbreviation moves := (pool_moves (store_act (SEATS_FILE config_root)) (starts config_root issued) (fun _ _ => False)).

(** *** A list of calls, each in a process of its own *)

(** The user and the number of the process, and its call. *)
Record seat_caller := SeatCaller { sc_getuid : option Z; sc_pid : Z; sc_call : seat_call }.

Definition callers (cs : list seat_caller) : list (storing unit) :=
  map (fun c => call_program config_root (sc_getuid c) (sc_pid c) (sc_call c)) cs.

Local Abbreviation running := (pool_moves (store_act (SEATS_FILE config_root)) (fun _ _ => False) (fun _ _ => False)).

(** The file is what the commits of the calls at [order] make of [s0], each once,
    and every call that has returned is among them, commits nothing on the store
    some of them had given, or was refused its malformed reference at once. *)
Definition serialized (cs : list seat_caller) (s0 : seats) (ps : list (storing unit)) (w : files) (order : list nat) : Prop :=
  NoDup order /\
  (exists s, replay (map sc_call cs) order s0 = Some s /\ holds (f_state w) s /\ store_ok s) /\
  forall i c a, cs !! i = Some c -> ps !! i = Some (Ret a) ->
    i ∈ order \/ leaves (map sc_call cs) order s0 (sc_call c) \/ refused (sc_call c).

Lemma lookup_map {A B} (f : A -> B) l i y : map f l !! i = Some y -> exists x, l !! i = Some x /\ y = f x.
Proof.
  revert i. induction l as [|x l IH]; intros [|i]; cbn; [done..| |apply IH]. intros [= <-]. by exists x.
Qed.

Lemma serial_serialized (cs : list seat_caller) s0 ss ps w order s :
  serial (fun c => c ∈ map sc_call cs) (map sc_call cs) ss w s0 order s ->
  abstracts_to (store_act (SEATS_FILE config_root)) (caller_step (fun c => c ∈ map sc_call cs)) returned (fun _ _ => True) ss ps ->
  serialized cs s0 ps w order.
Proof.
  intros HS Hm. split; [apply HS|]. split; [exists s; split_and!; apply HS|]. intros i c a Hc Ha.
  destruct (Forall2_lookup_r _ _ _ _ _ Hm Ha) as (d & Hd & Hret). cbn in Hret.
  assert (Hcall : sc_call c = fst d).
  { assert (H1 : map fst ss !! i = Some (fst d)) by (by apply list_lookup_fmap_Some_2).
    rewrite (sr_calls _ _ _ _ _ _ _ HS) in H1. assert (H2 : map sc_call cs !! i = Some (sc_call c)) by (by apply list_lookup_fmap_Some_2).
    congruence. }
  rewrite Hcall. destruct Hret as [Hdec|Href]; [|by right; right]. unfold decided in Hdec.
  destruct (tx_verdict (snd d)) eqn:Ev; [done| |].
  - right. left. exact (sr_declined _ _ _ _ _ _ _ HS i d Hd Ev).
  - left. exact (proj1 (sr_committed _ _ _ _ _ _ _ HS i d Hd) Ev).
Qed.

(** C7. Processes that each make one call on the store file, any number of them and
    however they interleave operation by operation, fail or stop, serialize.  At
    every moment of the run there is an order of some of the calls, each at most
    once, such that the file holds what their commits make of the store it held at
    the start, each made alone on the store as the one before it left it; and every
    call that has returned is one of them, unless its transaction commits nothing on
    a store of this history or it was refused its malformed reference at once.  What
    has been committed stays, in its order: at any later moment the order only has
    more at its end. *)
Theorem seat_calls_serialize (cs : list seat_caller) w s ps1 w1 ps2 w2 :
  Forall (fun c => typed (sc_call c)) cs -> holds (f_state w) s -> store_ok s ->
  rtc running (callers cs, w) (ps1, w1) -> rtc running (ps1, w1) (ps2, w2) ->
  exists order more, serialized cs s ps1 w1 order /\ serialized cs s ps2 w2 (order ++ more).
Proof.
  intros Htyped Hs Hok Hr1 Hr2. set (among := fun c => c ∈ map sc_call cs).
  assert (Hstart : abstracts_to (store_act (SEATS_FILE config_root)) (caller_step among) returned (fun _ _ => True)
    (map (fun c => (sc_call c, outside)) cs) (callers cs)).
  { apply Forall2_fmap, Forall_Forall2_diag, Forall_forall. intros c Hc. rewrite Forall_forall in Htyped.
    apply call_conducts; [by apply list_elem_of_fmap_2|by apply Htyped]. }
  assert (Hsim := fun ps w ps' w' ss => pool_simulation_to (store_act (SEATS_FILE config_root)) (caller_step among)
    (fun _ _ => False) (fun _ _ => False) returned (fun _ _ => True) (fun _ _ => False) ps w ps' w' ss (fun _ _ (F : False) => match F with end)).
  destruct (Hsim _ _ _ _ _ Hstart Hr1) as (ss1 & Ha1 & Hm1).
  destruct (Hsim _ _ _ _ _ Hm1 Hr2) as (ss2 & Ha2 & Hm2).
  assert (H0 : serial among (map sc_call cs) (map (fun c => (sc_call c, outside)) cs) w s [] s).
  { split; try done.
    - by rewrite map_map.
    - assert (Hall : forall i p, map process_of (map (fun c => (sc_call c, outside)) cs) !! i = Some p -> p = at_phase (fun _ => True) Outside).
      { intros i p Hp. rewrite map_map in Hp. by apply lookup_map in Hp as (c & _ & ->). }
      split; [by exists s|..].
      + intros i j p q Hp _ (seen & temp & Hph). by rewrite (Hall i p Hp) in Hph.
      + intros i p Hp (seen & temp & Hph). by rewrite (Hall i p Hp) in Hph.
      + intros i p now temp Hp Hph. by rewrite (Hall i p Hp) in Hph.
      + intros i p seen n x Hp Hph. by rewrite (Hall i p Hp) in Hph.
      + intros i p Hp Hph. by rewrite (Hall i p Hp) in Hph.
      + intros i p Hp. by rewrite (Hall i p Hp).
    - constructor.
    - intros i c (d & _ & ->)%lookup_map. split; [done|by intros ?%not_elem_of_nil].
    - by intros i c (d & _ & ->)%lookup_map. }
  destruct (serial_run among _ _ _ _ _ _ _ _ Ha1 H0) as (o1 & s1 & HS1).
  destruct (serial_run among _ _ _ _ _ _ _ _ Ha2 HS1) as (o2 & s2 & HS2).
  exists o1, o2. split; [by eapply serial_serialized|by eapply serial_serialized].
Qed.

(** C17. From no file, whatever calls are made and however they interleave, every
    worktree has at most one active seat: its look-up is never ambiguous. *)
Theorem one_active_seat w ps w' wt :
  f_state w = None -> rtc moves ([], w) (ps, w') ->
  exists s', holds (f_state w') s' /\ exists found, active_seat wt s' = inr found.
Proof.
  intros Hw Hr. assert (Hok : store_ok emptyStore) by (split; constructor).
  destruct (pool_history config_root issued w ps w' emptyStore) as (s' & Hs' & Hok' & Hh); [by rewrite Hw|done|done|].
  exists s'. split; [done|]. destruct (history_keeps issued single emptyStore s') as [_ Hsi]; [|done|done|by intros ?; cbn; lia|].
  - intros a b Hab Ha Hsi. by eapply transacts_single.
  - unfold active_seat. rewrite candidates_group by done. specialize (Hsi wt).
    destruct (group wt s') as [|kv [|? ?]]; [by eexists|by eexists|cbn in Hsi; lia].
Qed.

(** No call discards what is kept of the record at [ref]. *)
Definition spared (ref : string) (r : seat) : Prop :=
  forall c r1, issued c -> keeps_seat r r1 -> ~ removes c ref r1 /\ forall r2, ~ minted c ref (Some r1) r2.

Lemma keeps_trans r r1 r2 : keeps_seat r r1 -> keeps_seat r1 r2 -> keeps_seat r r2.
Proof. intros [H1 H2 H3] [K1 K2 K3]. split; [congruence|congruence|auto]. Qed.

Lemma transacts_spares ref r s s' : spared ref r -> transacts issued s s' -> store_ok s -> single s ->
  (exists r1, assoc ref s = Some r1 /\ keeps_seat r r1) -> single s' /\ exists r1, assoc ref s' = Some r1 /\ keeps_seat r r1.
Proof.
  intros Hsp Ht Hs Hsi (r1 & Ha & Hk). assert (Hsi' := transacts_single _ _ _ Ht Hs Hsi). split; [done|].
  destruct Ht as [c s s1 Hi Hc Hs1]. assert (Hone : single s1) by (eapply commits_single; [done|by apply call_commits|done]).
  rewrite single_repair by done. pose proof (entries_after c s s1 ref Hs Hs1) as He. rewrite Ha in He.
  destruct (Hsp c r1 Hi Hk) as [Hrem Hmin]. inversion He as [|? r2 Hk2|? Hr|? r2 Hm]; subst; [|by destruct Hrem|by destruct (Hmin r2)].
  exists r2. split; [done|by eapply keeps_trans].
Qed.

(** C16. A seat's identity and credential, and its being active, survive every
    interleaving of calls none of which discards it: no activation of another seat in
    its worktree, no reset, scrub or clear of it, no preparation that scrubs it. *)
Theorem seat_survives w ps w' s ref r :
  holds (f_state w) s -> store_ok s -> single s -> assoc ref s = Some r -> spared ref r -> rtc moves ([], w) (ps, w') ->
  exists s' r', holds (f_state w') s' /\ assoc ref s' = Some r' /\ keeps_seat r r'.
Proof.
  intros Hs Hok Hsi Ha Hsp Hr. destruct (pool_history config_root issued w ps w' s Hs Hok Hr) as (s' & Hs' & Hok' & Hh).
  destruct (history_keeps issued (fun s => single s /\ exists r1, assoc ref s = Some r1 /\ keeps_seat r r1) s s') as (_ & _ & r' & Ha' & Hk).
  - intros a b Hab Hoka [Hsia Hkept]. by eapply transacts_spares.
  - done.
  - done.
  - split; [done|]. exists r. split; [done|apply keeps_refl].
  - by exists s', r'.
Qed.
End SharedStore.

(** ** Single calls *)

Section Calls.
Context `{UrlEnv}.

(** C30. An activation whose credential is still the expected one commits, and the
    next reader of the file finds exactly the activated record as its worktree's
    seat; the seats of the worktrees it does not touch are found as before. *)
Theorem activation_takes_effect i drone session b s r :
  let ref := seatRef i in
  let order := next_order s r (sb_worktree b) in
  let call := CallActivate i drone session (digestOf (s_credential r)) b in
  let r' := activated r order drone session b in
  store_ok s -> call_ok call -> recordMatches (assoc ref s) ref (expected_of i) = Some r -> is_safe_integer order = true ->
  exists s1 s', commit_of call s = Some s1 /\ parseStore (store_content s1) = inr (Some s') /\
    active_seat (sb_worktree b) s' = inr (Some r') /\
    forall wt, wt <> sb_worktree b -> active_in wt r = false ->
      active_seat wt s' = active_seat wt (repairOrderedDuplicateBindings s).
Proof.
  cbv zeta. intros Hs Hc Hm Ho. assert (Ht := activate_commits i drone session _ b s r Hm eq_refl Ho).
  destruct (recordMatches_some _ _ _ _ Hm) as [Ha _].
  set (s1 := put (seatRef i) _ _) in Ht. assert (Hcom : commit_of (CallActivate i drone session (digestOf (s_credential r)) b) s = Some s1)
    by (cbn [commit_of]; by rewrite Ht).
  assert (Hs1 : store_ok s1) by (by eapply commits_ok; [|apply call_commits]).
  exists s1, (repairOrderedDuplicateBindings s1). split; [done|]. split; [by apply store_reads_back|]. split.
  - apply (active_seat_alone _ s1 (seatRef i)); [done| |by apply active_in_spec|].
    + apply activated_entries; [done|by left].
    + intros [k v] Hin Hact. apply activated_entries in Hin as [[-> _]|(_ & _ & Hv)]; [done| |done]. cbn in Hact. congruence.
  - intros wt Hwt Hnot. apply active_seat_repair; [done|done|]. by apply group_activated.
Qed.

(** A preparation whose reply was lost can be repeated: with a new credential at
    hand for the same identity, the record of the first one is found, and nothing is
    committed. *)
Theorem preparation_is_idempotent e e' revalidate scrub d d' s s1 :
  store_ok s -> seed_ok d -> sd_identity d' = sd_identity d ->
  commit_of (CallPrepare e revalidate scrub d) s = Some s1 ->
  exists s', parseStore (store_content s1) = inr (Some s') /\
    prepare_tx e' false false d' s' = Step (inr (Prepared (pending_seat d))) None [].
Proof.
  intros Hs Hd Hi Hcom. assert (Hs1 : store_ok s1) by (exact (commits_ok _ _ _ Hs (call_commits (CallPrepare e revalidate scrub d) s s1 Hd Hs Hcom))).
  exists (repairOrderedDuplicateBindings s1). split; [by apply store_reads_back|].
  assert (Hin : (seatRef (sd_identity d), pending_seat d) ∈ s1).
  { cbn [commit_of] in Hcom. unfold prepare_tx in Hcom. cbv zeta in Hcom. destruct (revalidate && _); [done|].
    destruct (reuse_or_mint d _) as [r st] eqn:E. apply (f_equal snd) in E. cbn [snd] in E. cbn [st_commit] in Hcom. rewrite <-E in Hcom.
    apply mint_put in Hcom as [-> _]. apply assoc_in. by rewrite assoc_put, String.eqb_refl. }
  assert (Hin' : assoc (seatRef (sd_identity d)) (repairOrderedDuplicateBindings s1) = Some (pending_seat d)).
  { apply in_assoc; [apply st_keys; by apply repair_ok|]. apply repair_in; [by apply st_keys|]. split; [done|].
    intros (wt & keep & [Ha _]%active_in_spec & _). done. }
  unfold prepare_tx, reuse_or_mint. cbv zeta. rewrite Hi. cbn [andb]. rewrite Hin'. unfold recordMatches, expected_of, record_ref.
  cbn [mbind option_bind pending_seat s_identity se_origin se_trustIdentity se_cubeId]. by rewrite !String.eqb_refl.
Qed.
End Calls.

(** ** The file *)

Section File.
Context `{UrlEnv}.

(** C37. What is committed is read back, record by record, with the members the code
    does not know; only superseded bindings are gone, and when every worktree has one
    active record nothing is. *)
Theorem committed_store_reads_back s :
  store_ok s -> parseStore (store_content s) = inr (Some (repairOrderedDuplicateBindings s)) /\
  (single s -> parseStore (store_content s) = inr (Some s)).
Proof. intros Hs. rewrite store_reads_back by done. split; [done|]. intros Hsi. by rewrite single_repair. Qed.

(** The repair removes exactly the records whose worktree has several active
    ones, some ordered with distinct orders, and which are not the newest of these. *)
Theorem repair_keeps_newest s ref r :
  NoDup (map fst s) ->
  (ref, r) ∈ repairOrderedDuplicateBindings s <->
  (ref, r) ∈ s /\ ~ exists wt keep, active_in wt r = true /\ leader (group wt s) = Some keep /\ ref <> keep.
Proof. apply repair_in. Qed.
End File.

(** C31. A transaction on a store file that does not parse as a store ends, throws,
    and leaves the file as it was, whatever the operation would have done. *)
Theorem unreadable_store_is_left {St A} getuid pid store (empty : St) parse print (op : St -> (St -> storing unit) -> storing A) c w :
  last_four store = "json" -> f_state w = Some c -> (forall data, parse c <> inr (Some data)) ->
  will (store_act store) (withStore getuid pid store empty parse print plain_options op) w
    (fun r w' => f_state w' = Some c /\ exists e, r = Failed e).
Proof. intros Hj Hw Hp. by apply (will_withStore store Hj getuid pid c). Qed.

(** A read of a private store gives out content only of a file that [lstat] found
    regular, not a link and the user's own; without a secure root, neither it nor its
    directory was open to others; below a secure root, it was 0600, the handle read
    was that same file, unchanged in size, and the root the user's own directory. *)
Theorem private_read_is_vetted getuid p o :
  traces (readStoreFile getuid p o) []
    (fun r tr => match r with Some c => vetted getuid o p c tr | None => True end) (fun _ _ => True).
Proof. apply trace_read. Qed.
