(* ===== verification/SeatsWitness.v ===== *)
(** * The seat store's properties at concrete inputs *)

From S2P Require Import Prelude JsDate Assoc JsonText Effects LeaseFs LockedFile LocalServerCursor SeatStore StoreWorld StoreReads Seats SeatsFacts SeatsCommits SeatsSpec.

Open Scope Z_scope.
Open Scope prog_scope.

#[local] Instance demo_origins : UrlEnv := Some.

(** ** Inputs *)

Definition home : string := "/home/u/.borg".
Definition seats_path : string := SEATS_FILE home.

Definition demo_operation (key : string) : seat_operation := SeatOperation "/work/project" SeatKind key [].
Definition demo_identity (key : string) : seat_identity :=
  SeatIdentity "https://borg.example" "pin" "cube" "role" (demo_operation key).

Definition bearer : string := "0123456789abcdefghijABCDEFGHIJ_-0123456789abcdef".
Definition other_bearer : string := "9876543210abcdefghijABCDEFGHIJ_-0123456789abcdef".
Definition demo_seed : seat_seed := SeatSeed (demo_identity "seat-1") bearer.
Definition demo_ref : string := seatRef (sd_identity demo_seed).
Definition pending : seat := pending_seat demo_seed.
Definition drone_id : string := "0d000000-0000-4000-8000-000000000001".
Definition session_id : string := "0e000000-0000-4000-8000-000000000001".
Definition demo_binding : seat_binding := SeatBinding "/work/project" None None "alice" "Drone" None None None.
Definition one_seat : seats := [(demo_ref, pending)].

Lemma demo_seed_ok : seed_ok demo_seed.
Proof. split; [|reflexivity]. by repeat split. Qed.

Lemma pending_seat_ok : seat_ok demo_ref pending.
Proof. exact (pending_ok _ demo_seed_ok). Qed.

Lemma one_seat_ok : store_ok one_seat.
Proof. split; [apply Forall_singleton; exact pending_seat_ok|apply NoDup_singleton]. Qed.

Lemma one_seat_single : single one_seat.
Proof. intros wt. unfold group, one_seat. cbn [List.filter]. destruct (active_in wt _); cbn; lia. Qed.

Lemma pending_matches : recordMatches (assoc demo_ref one_seat) demo_ref (expected_of (sd_identity demo_seed)) = Some pending.
Proof.
  unfold one_seat. cbn [assoc]. rewrite String.eqb_refl. unfold recordMatches. cbn [mbind option_bind].
  change (record_ref pending) with demo_ref. by rewrite String.eqb_refl.
Qed.

(** ** A file system that does what it is asked *)

Definition no_entry {A} : js_error + A := inl (Errno ENOENT).
Definition taken {A} : js_error + A := inl (Errno "EEXIST").

Definition private_dir : meta := Meta false true false 448 1000 1 1 0.
Definition private_file : meta := Meta false false true 384 1000 1 2 0.

Definition stat_of (p : string) (w : files) : js_error + meta :=
  match place_of seats_path p with
  | StorePlace => match f_state w with Some _ => inr private_file | None => no_entry end
  | Elsewhere => inr private_dir
  | _ => inr private_file
  end.

Definition content_of (p : string) (w : files) : js_error + content :=
  match place_of seats_path p with
  | StorePlace => match f_state w with Some c => inr c | None => no_entry end
  | _ => no_entry
  end.

Definition create (p : string) (w : files) : (js_error + unit) * files :=
  match place_of seats_path p with
  | TempPlace => match f_temps w !! p with
                 | None => (inr tt, Files (f_state w) (f_lock w) (<[p := Raw ""]> (f_temps w)))
                 | Some _ => (taken, w)
                 end
  | Elsewhere => (inr tt, w)
  | _ => (taken, w)
  end.

Definition write_file (p : string) (c : content) (w : files) : files :=
  match place_of seats_path p with
  | StorePlace => Files (Some c) (f_lock w) (f_temps w)
  | TempPlace => Files (f_state w) (f_lock w) (<[p := c]> (f_temps w))
  | _ => w
  end.

Definition rename (p q : string) (w : files) : (js_error + unit) * files :=
  match place_of seats_path q, f_temps w !! p with
  | StorePlace, Some c => (inr tt, Files (Some c) (f_lock w) (delete p (f_temps w)))
  | _, _ => (no_entry, w)
  end.

Definition link (q : string) (w : files) : (js_error + unit) * files :=
  match place_of seats_path q, f_lock w with
  | LockPlace, None => (inr tt, Files (f_state w) (Some 0) (f_temps w))
  | _, _ => (taken, w)
  end.

Definition remove_file (p : string) (w : files) : files :=
  match place_of seats_path p with
  | StorePlace => Files None (f_lock w) (f_temps w)
  | LockPlace => Files (f_state w) None (f_temps w)
  | TempPlace => Files (f_state w) (f_lock w) (delete p (f_temps w))
  | Elsewhere => w
  end.

Definition store_script X (op : store_op X) (w : files) : X * files :=
  match op in store_op X return X * files with
  | Lstat p => (stat_of p w, w)
  | StatDir _ => (inr private_dir, w)
  | Canonical _ => (inr true, w)
  | MkdirRec _ | HandleSync _ | HandleClose _ | Probe _ => (inr tt, w)
  | OpenRead p => (match stat_of p w with inr _ => inr tt | inl e => inl e end, w)
  | HandleStat p => (stat_of p w, w)
  | HandleRead p | ReadWhole p => (content_of p w, w)
  | CreateWx _ p => create p w
  | HandleWrite p c => (inr tt, write_file p c w)
  | RenameTo p q => rename p q w
  | LinkTo p q => link q w
  | RemoveFile p => (inr tt, remove_file p w)
  | RandomName => ("0a1b", w)
  | ProcessStart => ("boot", w)
  | Wait _ | Reject _ | Unreject _ => (tt, w)
  end.

Lemma store_script_act X (op : store_op X) w :
  true = true -> store_act seats_path X op w (fst (store_script X op w)) (snd (store_script X op w)).
Proof.
  intros _. destruct op; cbn; try done; unfold seen_there, seen_content, stat_of, content_of, create, write_file, rename, link, remove_file,
    on_success, created, written, placed, removed;
    (try destruct (place_of seats_path p) eqn:Ep); (try destruct (place_of seats_path q) eqn:Eq);
    repeat (case_match; cbn; try done; simplify_eq); eauto.
Qed.

(** ** Two processes

    One mints a seat; another, about to mint the same one, takes the lock
    afterwards and is stopped there. *)

Definition only_mints (c : seat_call) : Prop := exists b, c = CallMint (SeatSeed (demo_identity "seat-1") b).

Definition first_process : storing unit := call_program home (Some 1000) 41 (CallMint demo_seed).
Definition second_seed : seat_seed := SeatSeed (demo_identity "seat-1") other_bearer.
Definition second_process : storing unit := call_program home (Some 1000) 42 (CallMint second_seed).

Definition empty_files : files := Files None None ∅.
Definition after_first : files := snd (run store_script first_process empty_files).
Definition stopped : storing unit * files := advance store_script 7 second_process after_first.

Lemma second_seed_ok : seed_ok second_seed.
Proof. split; [|reflexivity]. by repeat split. Qed.

Lemma demo_starts w b pid : seed_ok (SeatSeed (demo_identity "seat-1") b) ->
  starts home only_mints w (call_program home (Some 1000) pid (CallMint (SeatSeed (demo_identity "seat-1") b))).
Proof. intros Hd. exists (Some 1000), pid, (CallMint (SeatSeed (demo_identity "seat-1") b)). split; [by exists b|done]. Qed.

Local Abbreviation demo_moves := (pool_moves (store_act seats_path) (starts home only_mints) (fun _ _ => False)).

Lemma all_allowed {A} (p : storing A) w : checked store_script (fun _ _ _ => true) p w = true.
Proof. revert w. induction p as [a|e|X op k IH]; intros w; cbn; [done..|]. destruct (store_script X op w). apply IH. Qed.

Lemma some_allowed {A} n (p : storing A) w : advance_allowed store_script (fun _ _ _ => true) n p w = true.
Proof.
  revert p w. induction n as [|n IH]; intros p w; [done|]. destruct p as [| |X op k]; [done..|]. cbn.
  destruct (store_script X op w). apply IH.
Qed.

Lemma two_processes : exists ps, rtc demo_moves ([], empty_files) (ps, snd stopped).
Proof.
  destruct (checked_moves _ (starts home only_mints) (fun _ _ => False) store_script _ store_script_act [first_process] 0 first_process empty_files
    eq_refl (all_allowed _ _)) as (p & H1).
  pose proof (advance_moves _ (starts home only_mints) (fun _ _ => False) store_script _ store_script_act 7 ([p] ++ [second_process]) 1 second_process
    after_first eq_refl (some_allowed _ _ _)) as H2.
  eexists. eapply rtc_l; [exact (moves_start _ _ _ [] first_process empty_files (demo_starts _ bearer 41 demo_seed_ok))|].
  etrans; [exact H1|]. eapply rtc_l; [exact (moves_start _ _ _ [p] second_process after_first (demo_starts _ other_bearer 42 second_seed_ok))|]. exact H2.
Qed.

(** The first seat is in the file, and the second process has the lock. *)
Lemma first_seat_stored : f_state (snd stopped) = Some (store_content one_seat).
Proof. vm_cast_no_check (eq_refl (f_state (snd stopped))). Qed.

Lemma second_has_lock : f_lock (snd stopped) = Some 0.
Proof. vm_cast_no_check (eq_refl (f_lock (snd stopped))). Qed.

Lemma empty_ok : store_ok emptyStore.
Proof. split; constructor. Qed.

Definition two_callers : list seat_caller :=
  [SeatCaller (Some 1000) 41 (CallMint demo_seed); SeatCaller (Some 1000) 42 (CallMint second_seed)].

Local Abbreviation demo_running := (pool_moves (store_act seats_path) (fun _ _ => False) (fun _ _ => False)).

Lemma first_runs : exists p, rtc demo_running (callers home two_callers, empty_files) ([p; second_process], after_first).
Proof.
  destruct (checked_moves _ (fun _ _ => False) (fun _ _ => False) store_script _ store_script_act [first_process; second_process] 0 first_process
    empty_files eq_refl (all_allowed _ _)) as (p & H1). exists p. exact H1.
Qed.

Lemma second_follows p : rtc demo_running ([p; second_process], after_first) ([p; fst stopped], snd stopped).
Proof.
  exact (advance_moves _ (fun _ _ => False) (fun _ _ => False) store_script _ store_script_act 7 [p; second_process] 1 second_process
    after_first eq_refl (some_allowed _ _ _)).
Qed.

Lemma two_callers_typed : Forall (fun c => typed (sc_call c)) two_callers.
Proof. repeat (apply Forall_cons; split); [exact demo_seed_ok|exact second_seed_ok|by apply Forall_nil]. Qed.

Lemma seat_calls_serialize_witness :
  exists p order more, rtc demo_running (callers home two_callers, empty_files) ([p; fst stopped], snd stopped) /\
    f_state (snd stopped) = Some (store_content one_seat) /\
    serialized two_callers emptyStore [p; second_process] after_first order /\
    serialized two_callers emptyStore [p; fst stopped] (snd stopped) (order ++ more).
Proof.
  destruct first_runs as [p H1]. pose proof (second_follows p) as H2. exists p.
  destruct (seat_calls_serialize home two_callers empty_files emptyStore [p; second_process] after_first [p; fst stopped] (snd stopped)
    two_callers_typed eq_refl empty_ok H1 H2) as (order & more & H3 & H4).
  exists order, more. exact (conj (transitivity H1 H2) (conj first_seat_stored (conj H3 H4))).
Defined.

Lemma one_active_seat_witness :
  exists ps s', rtc demo_moves ([], empty_files) (ps, snd stopped) /\ holds (f_state (snd stopped)) s' /\
    exists found, active_seat "/work/project" s' = inr found.
Proof.
  destruct two_processes as [ps Hm]. exists ps.
  destruct (one_active_seat home only_mints empty_files ps (snd stopped) "/work/project" eq_refl Hm) as (s' & H1 & H2).
  exists s'. exact (conj Hm (conj H1 H2)).
Defined.

(** A mint leaves the record that is there. *)
Lemma mints_spare : spared only_mints demo_ref pending.
Proof.
  intros c r1 (b & ->) Hk. split; [by intros []|]. intros r2 (_ & _ & Hn). cbn [replaces sd_identity] in Hn. revert Hn.
  fold demo_ref. unfold recordMatches. cbn [mbind option_bind]. unfold record_ref. rewrite (ks_identity _ _ Hk).
  unfold expected_of. cbn [se_origin se_trustIdentity se_cubeId]. change (s_identity pending) with (demo_identity "seat-1").
  by rewrite !String.eqb_refl.
Qed.

Definition one_file : files := Files (Some (store_content one_seat)) None ∅.

Lemma second_runs : exists ps, rtc demo_moves ([], one_file) (ps, snd (run store_script second_process one_file)).
Proof.
  destruct (checked_moves _ (starts home only_mints) (fun _ _ => False) store_script _ store_script_act [second_process] 0 second_process one_file
    eq_refl (all_allowed _ _)) as (p & H1).
  eexists. eapply rtc_l; [exact (moves_start _ _ _ [] second_process one_file (demo_starts _ other_bearer 42 second_seed_ok))|]. exact H1.
Qed.

Lemma one_file_holds : holds (f_state one_file) one_seat.
Proof. change (parseStore (store_content one_seat) = inr (Some one_seat)). by rewrite store_reads_back, single_repair by exact one_seat_ok || exact one_seat_single. Qed.

Lemma demo_found : assoc demo_ref one_seat = Some pending.
Proof. unfold one_seat. cbn [assoc]. by rewrite String.eqb_refl. Qed.

Lemma seat_survives_witness :
  exists ps s' r', rtc demo_moves ([], one_file) (ps, snd (run store_script second_process one_file)) /\
    holds (f_state (snd (run store_script second_process one_file))) s' /\ assoc demo_ref s' = Some r' /\ keeps_seat pending r'.
Proof.
  destruct second_runs as [ps Hm]. exists ps.
  destruct (seat_survives home only_mints one_file ps _ one_seat demo_ref pending one_file_holds one_seat_ok one_seat_single demo_found mints_spare Hm)
    as (s' & r' & H1 & H2 & H3).
  exists s', r'. exact (conj Hm (conj H1 (conj H2 H3))).
Defined.

(** ** Single calls *)

Definition demo_call : seat_call := CallActivate (demo_identity "seat-1") drone_id session_id (digestOf (s_credential pending)) demo_binding.

Lemma demo_call_ok : call_ok demo_call.
Proof. by repeat split. Qed.

Lemma demo_order : is_safe_integer (next_order one_seat pending (sb_worktree demo_binding)) = true.
Proof. reflexivity. Qed.

Lemma activation_takes_effect_witness :
  exists s1 s', commit_of demo_call one_seat = Some s1 /\ parseStore (store_content s1) = inr (Some s') /\
    active_seat "/work/project" s' =
    inr (Some (activated pending (next_order one_seat pending "/work/project") drone_id session_id demo_binding)).
Proof.
  destruct (activation_takes_effect (demo_identity "seat-1") drone_id session_id demo_binding one_seat pending
    one_seat_ok demo_call_ok pending_matches demo_order) as (s1 & s' & H1 & H2 & H3 & _).
  exists s1, s'. exact (conj H1 (conj H2 H3)).
Defined.

Lemma preparation_is_idempotent_witness :
  commit_of (CallPrepare ExpectAbsent true false demo_seed) emptyStore = Some one_seat /\
  exists s', parseStore (store_content one_seat) = inr (Some s') /\
    prepare_tx ExpectAbsent false false second_seed s' = Step (inr (Prepared pending)) None [].
Proof.
  exact (conj eq_refl (preparation_is_idempotent ExpectAbsent ExpectAbsent true false demo_seed second_seed emptyStore one_seat
    empty_ok demo_seed_ok eq_refl eq_refl)).
Defined.

(** ** The file *)

Lemma committed_store_reads_back_witness : parseStore (store_content one_seat) = inr (Some one_seat).
Proof. exact (proj2 (committed_store_reads_back one_seat one_seat_ok) one_seat_single). Defined.

(** Two bindings of one worktree: the later one stays. *)
Definition bound_seat (order : Z) : seat := activated pending order drone_id session_id demo_binding.
Definition two_bound : seats := [("a", bound_seat 1); ("b", bound_seat 2)].

Lemma two_bound_keys : NoDup (map fst two_bound).
Proof. apply NoDup_cons. split; [by intros H%list_elem_of_singleton|apply NoDup_singleton]. Qed.

Lemma a_is_lost : repairOrderedDuplicateBindings two_bound = [("b", bound_seat 2)].
Proof. reflexivity. Qed.

Lemma repair_keeps_newest_witness :
  NoDup (map fst two_bound) /\ repairOrderedDuplicateBindings two_bound = [("b", bound_seat 2)] /\
  ~ exists wt keep, active_in wt (bound_seat 2) = true /\ leader (group wt two_bound) = Some keep /\ "b" <> keep.
Proof.
  refine (conj two_bound_keys (conj a_is_lost _)).
  apply (repair_keeps_newest two_bound "b" (bound_seat 2) two_bound_keys). rewrite a_is_lost. apply list_elem_of_here.
Defined.

Definition torn_file : files := Files (Some (Raw "{")) None ∅.

Lemma unreadable_store_is_left_witness :
  will (store_act seats_path) (with_seats (Some 1000) 41 home (mint_tx demo_seed)) torn_file
    (fun r w' => f_state w' = Some (Raw "{") /\ exists e, r = Failed e).
Proof.
  exact (unreadable_store_is_left (Some 1000) 41 seats_path emptyStore parseStore store_content (enact (mint_tx demo_seed)) (Raw "{")
    torn_file eq_refl eq_refl (fun data (H : inr None = inr (Some data)) => ltac:(discriminate H))).
Defined.
