(* ===== verification/Cubes.v ===== *)
(** * The active cube of a worktree ([cubes.ts], [reset-local-seat-cmd.ts])

    What the client makes of the seat bound to the worktree it runs in: the cube a
    launch connects to, held against the seat its parent expects and the one the
    process has pinned; the snapshot and the reset of a saved seat; the saved choice
    of an agent CLI.  A program over the exported calls of the seat store - each of
    which is one read or one transaction ([SeatsSpec.seat_calls_serialize]) - and of
    the host.  [cwd] is [process.cwd()]. *)

From S2P Require Import Prelude NodeLib JsDate Assoc JsonText Effects LeaseFs LocalServerCursor SeatStore Seats.

Open Scope Z_scope.
Open Scope prog_scope.

(** ** Data *)

(* src/src/cubes.ts 52-52 BorgCli *)
Inductive BorgCli := CliClaude | CliCodex | CliOpencode.

#[export] Instance BorgCli_eq_dec : EqDecision BorgCli.
Proof. solve_decision. Defined.

(* src/src/cubes.ts 54-79 ActiveCube *)
Record active_cube := ActiveCube {
  ac_cubeId : string;
  ac_droneId : string;
  ac_name : string;
  ac_sessionToken : string;
  ac_droneLabel : string;
  ac_apiUrl : string;
  ac_serverTrustIdentity : option string;
  ac_localSessionCredentialRef : option string;
  ac_operation : option seat_operation;
  ac_roleName : option string;
  ac_roleClass : option role_class;
  ac_isHumanSeat : option bool;
  ac_worktree : option string;
  ac_repositoryOrigin : option string
}.

(* src/src/cubes.ts 83-89 LaunchSeatExpectation *)
Record launch_expectation := LaunchExpectation {
  le_credentialRef : string;
  le_cubeId : string;
  le_droneId : string;
  le_worktree : string;
  le_droneLabel : string
}.

(* src/src/cubes.ts 91-101 LaunchSeatIdentityChangedError *)
Definition LaunchSeatIdentityChangedError (droneLabel : string) : js_error :=
  ErrorOf "LaunchSeatIdentityChangedError" (Some "LAUNCH_SEAT_IDENTITY_CHANGED") None
    ("borg launch: did not launch '" +:+ droneLabel +:+ "' — its registration changed before the launch could start. " +:+
     "Run `borg drones` to see the current state, then try again.") [].

(* src/src/cubes.ts 222-228 McpSeatIdentityChangedError *)
Definition McpSeatIdentityChangedError : js_error :=
  ErrorOf "McpSeatIdentityChangedError" (Some "SEAT_IDENTITY_CHANGED") None
    ("This worktree's saved connection changed after this MCP session pinned its identity. " +:+
     "Exit this session and relaunch from the intended worktree.") [].

(** ** The seat a launch expects *)

Definition expectation_json (e : launch_expectation) : json :=
  JObj [("credentialRef", JStr (le_credentialRef e)); ("cubeId", JStr (le_cubeId e)); ("droneId", JStr (le_droneId e));
        ("worktree", JStr (le_worktree e)); ("droneLabel", JStr (le_droneLabel e))].

(** The value of the variable in the child's environment. *)
(* src/src/cubes.ts 103-117 withLaunchSeatExpectationEnv *)
Definition withLaunchSeatExpectationEnv (e : launch_expectation) : string := base64url (json_compact (expectation_json e)).

(* src/src/cubes.ts 81-81 BORG_LAUNCH_EXPECTED_SEAT_ENV *)
Definition BORG_LAUNCH_EXPECTED_SEAT_ENV : string := "BORG_LAUNCH_EXPECTED_SEAT".

(* src/src/cubes.ts 122-131 codexLaunchSeatExpectationConfigArgs *)
Definition codexLaunchSeatExpectationConfigArgs (variable : option string) : list string :=
  match variable with
  | None => []
  | Some v => ["-c"; "mcp_servers.borg.env." +:+ BORG_LAUNCH_EXPECTED_SEAT_ENV +:+ "=" +:+ json_quote v]
  end.

(** What the variable decodes to: bytes whose encoding it is, as JSON. *)
Definition decoded (raw : string) : option json :=
  bytes ← base64url_bytes raw;
  if String.eqb (base64url bytes) raw then parse_text bytes else None.

Definition unknown_label : string := "<unknown>".

(* src/src/cubes.ts 133-169 readLaunchSeatExpectation *)
Definition readLaunchSeatExpectation (variable : option string) : js_error + option launch_expectation :=
  match variable with
  | None | Some "" => inr None
  | Some raw =>
      match decoded raw with
      | Some (JObj fields) =>
          let field k := jstr (assoc k fields) in
          match field "credentialRef", field "cubeId", field "droneId", field "worktree", field "droneLabel" with
          | Some ref, Some cube, Some drone, Some worktree, Some label => inr (Some (LaunchExpectation ref cube drone worktree label))
          | _, _, _, _, label => inl (LaunchSeatIdentityChangedError (default unknown_label label))
          end
      | _ => inl (LaunchSeatIdentityChangedError unknown_label)
      end
  end.

Section Cubes.
Variable cwd : string.

(** [active]: [None] is [undefined], [Some None] is [null]. *)
(* src/src/cubes.ts 171-192 assertLaunchSeatExpectation *)
Definition assertLaunchSeatExpectation (e : launch_expectation) (active : option (option active_cube)) (worktree : string)
    (currentRecord : option seat) : js_error + unit :=
  let record_matches :=
    match currentRecord with
    | Some r => String.eqb (record_ref r) (le_credentialRef e) && String.eqb (si_cubeId (s_identity r)) (le_cubeId e) &&
                bool_decide (s_droneId r = Some (le_droneId e))
    | None => false
    end in
  let active_matches :=
    match active with
    | None => true
    | Some None => false
    | Some (Some a) => bool_decide (ac_localSessionCredentialRef a = Some (le_credentialRef e)) &&
                       String.eqb (ac_cubeId a) (le_cubeId e) && String.eqb (ac_droneId a) (le_droneId e)
    end in
  if record_matches && String.eqb (path_resolve cwd worktree) (path_resolve cwd (le_worktree e)) && active_matches
  then inr tt else inl (LaunchSeatIdentityChangedError (le_droneLabel e)).

(** ** What the process has pinned *)

Record seat_pin := SeatPin {
  sp_worktree : string;
  sp_cubeId : string;
  sp_droneId : string;
  sp_credentialRef : option string
}.

#[export] Instance seat_pin_eq_dec : EqDecision seat_pin.
Proof. solve_decision. Defined.

(** The two module variables. *)
Record pins := Pins { pn_root : option string; pn_seat : option seat_pin }.

(* src/src/cubes.ts 230-236 pinMcpProjectRoot *)
Definition pinMcpProjectRoot (worktree : string) (p : pins) : (js_error + unit) * pins :=
  let normalized := path_resolve cwd worktree in
  match pn_root p with
  | Some root =>
      if String.eqb root normalized then (inr tt, p)
      else (inl (JsError ("Borg MCP session project root is already pinned to " +:+ root)), p)
  | None => (inr tt, Pins (Some normalized) (pn_seat p))
  end.

Definition ref_member (ref : option string) : option string :=
  match ref with Some "" => None | r => r end.

(* src/src/cubes.ts 238-258 pinMcpSeatIdentity *)
Definition pinMcpSeatIdentity (a : active_cube) (p : pins) : (js_error + unit) * pins :=
  match ac_worktree a with
  | None | Some "" => (inl McpSeatIdentityChangedError, p)
  | Some worktree =>
      match pinMcpProjectRoot worktree p with
      | (inl e, p') => (inl e, p')
      | (inr _, p') =>
          let next := SeatPin (path_resolve cwd worktree) (ac_cubeId a) (ac_droneId a) (ref_member (ac_localSessionCredentialRef a)) in
          if match pn_seat p' with Some pinned => negb (bool_decide (pinned = next)) | None => false end
          then (inl McpSeatIdentityChangedError, p')
          else (inr tt, Pins (pn_root p') (Some next))
      end
  end.

(** ** Calls *)

Inductive cube_op : Type -> Type :=
| ActiveSeat (worktree : string) : cube_op (js_error + option seat)
| SeatCredential (ref : string) (binding : seat_expected) : cube_op (js_error + option string)
| BoundSeat (worktree : string) : cube_op (js_error + option seat)
| BoundSeatExists (worktree : string) : cube_op (js_error + bool)
| ObserveSeat (ref : string) (binding : seat_expected) : cube_op (js_error + seat_observation)
| ActiveSeats : cube_op (js_error + list (string * seat))
| ResetSeat (worktree ref : string) (droneId : option string) (observation : seat_observation) : cube_op (js_error + reset_outcome)
| RefreshSeat (worktree ref cubeId droneId : string) (display : seat_binding) : cube_op (js_error + bool)
| ExistsSync (p : string) : cube_op bool
| PinnedNow : cube_op pins
| ReadLaunch : cube_op (js_error + content)
| IsTTY : cube_op bool
| Prompt (message : string) : cube_op (js_error + string)
| Say (on_stderr : bool) (line : string) : cube_op unit.

Notation cubes := (prog cube_op).

(** From the directory made of [before], the last segment first, up to the root. *)
Fixpoint walk_up (start : string) (before : list string) : cubes string :=
  let dir := "/" +:+ join "/" (rev before) in
  let! found := ask (ExistsSync (path_join [dir; ".git"])) in
  if (found : bool) then Ret dir
  else match before with
       | [] => Ret start
       | _ :: parents => walk_up start parents
       end.

(* src/src/cubes.ts 260-268 findProjectRoot *)
Definition findProjectRoot (dir : option string) : cubes string :=
  let! from := match dir with
               | Some d => Ret d
               | None => let! p := ask PinnedNow in Ret (default cwd (pn_root p))
               end in
  let start := path_resolve cwd from in
  walk_up start (rev (normal_segments false start)).

(* src/src/cubes.ts 412-436 hydrateActiveCube *)
Definition hydrateActiveCube (r : seat) : cubes (option active_cube) :=
  let i := s_identity r in
  let ref := record_ref r in
  let! token := perform (SeatCredential ref (expected_of i)) in
  Ret (match token with
       | None | Some "" => None
       | Some sessionToken => Some (ActiveCube (si_cubeId i) (default "" (s_droneId r)) (default "" (s_name r)) sessionToken
           (default "" (s_droneLabel r)) (si_origin i) (Some (si_trustIdentity i)) (Some ref) (Some (si_operation i))
           (s_roleName r) (s_roleClass r) (s_isHumanSeat r) (s_worktree r) (s_repositoryOrigin r))
       end).

Definition of_sum {A} (x : js_error + A) : cubes A := match x with inl e => Throw e | inr a => Ret a end.

Definition missing (s : option string) : bool := match s with None | Some "" => true | _ => false end.

Definition pinned_elsewhere (pinned : seat_pin) (a : active_cube) : bool :=
  negb (String.eqb (path_resolve cwd (default "" (ac_worktree a))) (sp_worktree pinned) &&
        String.eqb (ac_cubeId a) (sp_cubeId pinned) && String.eqb (ac_droneId a) (sp_droneId pinned) &&
        bool_decide (ac_localSessionCredentialRef a = sp_credentialRef pinned)).

(** [variable]: the launch's expectation in the environment. *)
(* src/src/cubes.ts 372-395 getActiveCubeForWorktree *)
Definition getActiveCubeForWorktree (variable : option string) (worktree : string) : cubes (option active_cube) :=
  let! projectRoot := findProjectRoot (Some worktree) in
  let! expectation := of_sum (readLaunchSeatExpectation variable) in
  let! record := perform (ActiveSeat projectRoot) in
  do! match expectation with
      | Some e => of_sum (assertLaunchSeatExpectation e None projectRoot record)
      | None => Ret tt
      end;
  match record with
  | None => Ret None
  | Some r =>
      if String.eqb (si_cubeId (s_identity r)) "" || missing (s_droneId r) then Ret None
      else
        let! active := hydrateActiveCube r in
        do! match expectation with
            | Some e =>
                let! currentRecord := perform (ActiveSeat projectRoot) in
                of_sum (assertLaunchSeatExpectation e (Some active) projectRoot currentRecord)
            | None => Ret tt
            end;
        let! p := ask PinnedNow in
        match active, pn_seat p with
        | Some a, Some pinned => if pinned_elsewhere pinned a then Throw McpSeatIdentityChangedError else Ret active
        | _, _ => Ret active
        end
  end.

(* src/src/cubes.ts 368-370 getActiveCube *)
Definition getActiveCube (variable : option string) : cubes (option active_cube) :=
  let! root := findProjectRoot None in getActiveCubeForWorktree variable root.

(* src/src/cubes.ts 403-405 hasPersistedActiveCube *)
Definition hasPersistedActiveCube : cubes bool :=
  let! root := findProjectRoot None in perform (BoundSeatExists root).

(* src/src/cubes.ts 448-454 findRemainingActiveSeatForWorktree *)
Definition findRemainingActiveSeatForWorktree (worktree : string) : cubes (option (string * seat_operation)) :=
  let! record := perform (ActiveSeat worktree) in
  Ret (match record with Some r => Some (si_origin (s_identity r), si_operation (s_identity r)) | None => None end).

(** [a ?? b] where both may be missing *)
Definition or_else {A} (a b : option A) : option A := match a with Some _ => a | None => b end.

(** The members of the server's answer, [None] for [null] and [undefined]. *)
(* src/src/cubes.ts 456-477 activeCubeWithFreshRegenIdentity *)
Definition activeCubeWithFreshRegenIdentity (a : active_cube) (name label roleName : option string) (roleClass : option role_class)
    (isHumanSeat : option bool) : active_cube :=
  let name := default (ac_name a) name in
  let droneLabel := default (ac_droneLabel a) label in
  let roleName := or_else roleName (ac_roleName a) in
  let roleClass := or_else roleClass (ac_roleClass a) in
  let isHumanSeat := or_else isHumanSeat (ac_isHumanSeat a) in
  if String.eqb name (ac_name a) && String.eqb droneLabel (ac_droneLabel a) && bool_decide (roleName = ac_roleName a) &&
     bool_decide (roleClass = ac_roleClass a) && bool_decide (isHumanSeat = ac_isHumanSeat a) then a
  else ActiveCube (ac_cubeId a) (ac_droneId a) name (ac_sessionToken a) droneLabel (ac_apiUrl a) (ac_serverTrustIdentity a)
    (ac_localSessionCredentialRef a) (ac_operation a) roleName roleClass isHumanSeat (ac_worktree a) (ac_repositoryOrigin a).

(** ** The saved seat *)

(* src/src/cubes.ts 485-499 LocalSeatSnapshot *)
Record seat_snapshot := SeatSnapshot {
  sn_apiUrl : string;
  sn_serverTrustIdentity : string;
  sn_cubeId : string;
  sn_droneId : option string;
  sn_credentialRef : string;
  sn_worktree : string;
  sn_observation : seat_observation
}.

(* src/src/cubes.ts 513-540 snapshotLocalSeat *)
Definition snapshotLocalSeat : cubes (option seat_snapshot) :=
  let! worktree := findProjectRoot None in
  let! record := perform (BoundSeat worktree) in
  match record with
  | None => Ret None
  | Some r =>
      let i := s_identity r in
      if String.eqb (si_cubeId i) "" then Ret None
      else
        let ref := record_ref r in
        let! observation := perform (ObserveSeat ref (expected_of i)) in
        Ret (Some (SeatSnapshot (si_origin i) (si_trustIdentity i) (si_cubeId i) (s_droneId r) ref worktree observation))
  end.

(* src/src/cubes.ts 542-563 PersistedLocalSeat *)
Record persisted_seat := PersistedSeat {
  ps_cubeId : string;
  ps_droneId : option string;
  ps_name : string;
  ps_droneLabel : string;
  ps_apiUrl : string;
  ps_serverTrustIdentity : string;
  ps_localSessionCredentialRef : string;
  ps_operation : seat_operation;
  ps_state : seat_state;
  ps_roleName : option string;
  ps_roleClass : option role_class;
  ps_isHumanSeat : option bool
}.

(* src/src/cubes.ts 578-595 readPersistedLocalSeat *)
Definition readPersistedLocalSeat : cubes (option persisted_seat) :=
  let! root := findProjectRoot None in
  let! record := perform (BoundSeat root) in
  Ret (match record with
       | None => None
       | Some r =>
           let i := s_identity r in
           if String.eqb (si_cubeId i) "" then None
           else Some (PersistedSeat (si_cubeId i) (s_droneId r) (default "" (s_name r)) (default "" (s_droneLabel r)) (si_origin i)
                  (si_trustIdentity i) (record_ref r) (si_operation i) (s_state r) (s_roleName r) (s_roleClass r) (s_isHumanSeat r))
       end).

(* src/src/cubes.ts 604-616 resetLocalSeatBinding *)
Definition resetLocalSeatBinding (expected : seat_snapshot) : cubes reset_outcome :=
  perform (ResetSeat (sn_worktree expected) (sn_credentialRef expected) (sn_droneId expected) (sn_observation expected)).

(** Of the display the members it has. *)
(* src/src/cubes.ts 636-649 refreshActiveCubeMetadata *)
Definition refreshActiveCubeMetadata (a : active_cube) : cubes bool :=
  match ac_localSessionCredentialRef a with
  | None | Some "" => Ret false
  | Some ref =>
      let! root := findProjectRoot None in
      perform (RefreshSeat root ref (ac_cubeId a) (ac_droneId a)
        (SeatBinding root None None (ac_name a) (ac_droneLabel a) (ac_roleName a) (ac_roleClass a) (ac_isHumanSeat a)))
  end.

(** The reads of the credentials, which the code starts together, one after the
    other. *)
(* src/src/cubes.ts 677-690 readAllProjectIdentities *)
Definition readAllProjectIdentities : cubes (list (string * active_cube)) :=
  let! found := perform ActiveSeats in
  (fix go (l : list (string * seat)) : cubes (list (string * active_cube)) :=
     match l with
     | [] => Ret []
     | (worktree, r) :: rest =>
         let! cube := hydrateActiveCube r in
         let! others := go rest in
         Ret (match cube with Some c => (worktree, c) :: others | None => others end)
     end) found.

(** ** The saved choice of an agent CLI *)

(* src/src/cubes.ts 330-338 isLaunchFile *)
Definition isLaunchFile (v : json) : bool := match jget "projects" v with Some (JObj _) => true | _ => false end.

Definition unreadableStateError (file : string) : js_error :=
  JsError ("Borg state file is unreadable; refusing to overwrite it: " +:+ file).

(** [inr None] is [null]; [inl] is [UNREADABLE_STATE]. *)
(* src/src/cubes.ts 340-354 readLaunchFile *)
Definition readLaunchFile : cubes (unit + option json) :=
  let! raw := attempt (perform ReadLaunch) in
  match raw with
  | inl e => if has_code "ENOENT" e then Ret (inr None) else Throw e
  | inr c =>
      Ret (match json_parse c with
           | Some parsed => if isLaunchFile parsed then inr (Some parsed) else inl tt
           | None => inl tt
           end)
  end.

Definition cli_of_name (v : option json) : option BorgCli :=
  match jstr v with
  | Some s => if String.eqb s "claude" then Some CliClaude else if String.eqb s "codex" then Some CliCodex
              else if String.eqb s "opencode" then Some CliOpencode else None
  | None => None
  end.

Variable LAUNCH_FILE : string.

(* src/src/cubes.ts 664-670 getProjectCliPreferenceForPath *)
Definition getProjectCliPreferenceForPath (dir : option string) : cubes (option BorgCli) :=
  let! data := readLaunchFile in
  match data with
  | inl _ => Throw (unreadableStateError LAUNCH_FILE)
  | inr None => Ret None
  | inr (Some file) =>
      let! root := findProjectRoot dir in
      Ret (cli_of_name (entry ← (projects ← jget "projects" file; jget root projects); jget "cli" entry))
  end.

(* src/src/cubes.ts 651-657 getProjectCliPreference *)
Definition getProjectCliPreference : cubes (option BorgCli) := getProjectCliPreferenceForPath None.

(** ** [borg reset-local-connection] *)

(* src/src/reset-local-seat-cmd.ts 36-39 ResetLocalSeatFlags *)
Record reset_flags := ResetFlags { rf_host : option string; rf_yes : bool }.

(** [deps.normalizeHost] *)
Variable normalizeHost : string -> js_error + string.

(* src/src/reset-local-seat-cmd.ts 57-59 reenrollCommand *)
Definition reenrollCommand (apiUrl : string) : string := "`borg assimilate --host " +:+ apiUrl +:+ " --enroll`".

(* src/src/reset-local-seat-cmd.ts 61-63 reattachCommand *)
Definition reattachCommand (apiUrl : string) : string := "`borg assimilate --host " +:+ apiUrl +:+ " --here`".

(* src/src/reset-local-seat-cmd.ts 70-76 recoveryGuidance *)
Definition recoveryGuidance (apiUrl : string) : string :=
  "To rejoin: ask the server operator for a new enrollment invitation — the server can " +:+
  "stay running (`borg-mcp-server client-invite`, or `owner-invite` for an owner) — then " +:+
  "re-enroll from this worktree with " +:+ reenrollCommand apiUrl +:+ "." +:+ newline.

Definition consented (answer : string) : bool :=
  let normalized := to_lower (trim answer) in String.eqb normalized "y" || String.eqb normalized "yes".

Definition observed_text (o : seat_observation) : string :=
  match o with
  | ObservedActive _ _ => "a saved local session credential is present (active)"
  | ObservedPending _ => "a saved local session credential is present (pending)"
  | Absent => "the saved local session credential is already cleared (only the binding remains)"
  end.

Definition say_out (line : string) : cubes unit := ask (Say false (line +:+ newline)).
Definition say_err (line : string) : cubes unit := ask (Say true (line +:+ newline)).

(** After consent: the reset and what is said of it. *)
Definition reset_confirmed (worktree : string) (s : seat_snapshot) : cubes Z :=
  let! outcome := attempt (resetLocalSeatBinding s) in
  match outcome with
  | inl _ =>
      do! say_err ("audit: no changes made — the connection reset for " +:+ sn_apiUrl s +:+ " (worktree " +:+ worktree +:+
        ") could not complete (local credential store error). Retry — it is safe to re-run.");
      Ret 1
  | inr (ResetDone _) =>
      do! say_err ("audit: this worktree's saved connection to " +:+ sn_apiUrl s +:+ " (worktree " +:+ worktree +:+
        ") was cleared; server, trust anchor, cube, and sibling worktrees unchanged.");
      let! remaining := attempt (findRemainingActiveSeatForWorktree worktree) in
      do! match remaining with
          | inr (Some (apiUrl, _)) =>
              if String.eqb apiUrl (sn_apiUrl s) then
                say_out ("Another saved connection remains for this worktree on " +:+ sn_apiUrl s +:+ ". Re-attach with " +:+
                  reattachCommand (sn_apiUrl s) +:+ "; Borg will revalidate that it with the server before launch.")
              else ask (Say false (recoveryGuidance (sn_apiUrl s)))
          | _ => ask (Say false (recoveryGuidance (sn_apiUrl s)))
          end;
      Ret 0
  | inr NoBinding =>
      do! say_out ("No saved connection remained for this worktree (" +:+ worktree +:+ "); nothing to reset."); Ret 0
  | inr Changed =>
      do! say_out ("This worktree's saved connection to " +:+ sn_apiUrl s +:+
        " changed since it was read (a concurrent re-enroll or reset); nothing was changed. Re-run to observe the current state.");
      Ret 0
  end.

Definition declined : string := "audit: no changes made — this worktree's saved connection was left in place.".
Definition not_interactive : string :=
  "audit: no changes made — stdin is non-interactive and --yes was not passed. Re-run " +:+
  "`borg reset-local-connection --yes` to clear this worktree's saved connection without a prompt.".

Definition requested_host (flags : reset_flags) : js_error + option string :=
  match rf_host flags with
  | None => inr None
  | Some h => match normalizeHost h with inl e => inl e | inr x => inr (Some x) end
  end.

(* src/src/reset-local-seat-cmd.ts 78-197 runResetLocalSeat *)
Definition runResetLocalSeat (flags : reset_flags) : cubes Z :=
  let! worktree := findProjectRoot (Some cwd) in
  match requested_host flags with
  | inl e => do! say_err (message_of e); Ret 1
  | inr requestedHost =>
      let! snapshot := snapshotLocalSeat in
      match snapshot with
      | None =>
          do! say_out ("No saved connection was found for this worktree (" +:+ worktree +:+ "); nothing to reset."); Ret 0
      | Some s =>
          if match requestedHost with Some h => negb (String.eqb h (sn_apiUrl s)) | None => false end then
            do! say_out ("This worktree connects to " +:+ sn_apiUrl s +:+ ", not " +:+ default "" requestedHost +:+
              "; nothing was changed. Re-run `borg reset-local-connection --host " +:+ sn_apiUrl s +:+
              "` to reset this worktree's saved connection.");
            Ret 0
          else
            do! say_err ("This will clear ONLY this worktree's saved connection to " +:+ sn_apiUrl s +:+ " (worktree " +:+ worktree +:+
              ") — " +:+ observed_text (sn_observation s) +:+ ". Server, trust anchor, cube, and sibling worktrees are left untouched. " +:+
              "It makes no network call and revokes nothing server-side.");
            let! tty := ask IsTTY in
            if (tty : bool) then
              let! answer := perform (Prompt "Reset this worktree's saved connection now? [y/N]: ") in
              if consented answer then reset_confirmed worktree s
              else do! say_err declined; Ret 0
            else if rf_yes flags then reset_confirmed worktree s
            else do! say_err not_interactive; Ret 1
      end
  end.
End Cubes.

(** The arguments of the command; [inl] is the message of the error. *)
(* src/src/reset-local-seat-cmd.ts 226-253 parseResetLocalSeatArgs *)
Fixpoint parse_reset_args (args : list string) (flags : reset_flags) : string + reset_flags :=
  let needs_host := "--host requires a host or URL (e.g. `--host localhost:7091`)" in
  match args with
  | [] => inr flags
  | arg :: rest =>
      if String.eqb arg "--host" then
        match rest with
        | next :: rest' =>
            if String.eqb next "" || starts_with "-" next then inl needs_host
            else parse_reset_args rest' (ResetFlags (Some next) (rf_yes flags))
        | [] => inl needs_host
        end
      else if starts_with "--host=" arg then
        let value := string_drop 7 arg in
        if String.eqb value "" then inl needs_host else parse_reset_args rest (ResetFlags (Some value) (rf_yes flags))
      else if String.eqb arg "--yes" || String.eqb arg "-y" then parse_reset_args rest (ResetFlags (rf_host flags) true)
      else inl ("unexpected argument: " +:+ arg +:+ ". Usage: borg reset-local-connection [--host <host>] [--yes]")
  end.
