(* ===== verification/CubesSpec.v ===== *)
(** * What the active cube and the reset of a seat promise

    A launch connects to the seat its parent chose or to none; a process keeps the
    seat it has pinned; the reset removes the record that was shown, after
    consent. *)

From S2P Require Import Prelude NodeLib JsDate Assoc JsonText Effects LeaseFs LocalServerCursor SeatStore Seats Cubes.

Open Scope Z_scope.
Open Scope prog_scope.

Local Abbreviation log := (list (@entry cube_op)).

(** ** The expectation in the environment *)

Lemma base64url_nonempty s : s <> "" -> base64url s <> "".
Proof. by destruct s as [|a [|b [|c s]]]. Qed.

Lemma compact_decodes v : plain v -> decoded (base64url (json_compact v)) = Some v.
Proof.
  intros Hv. unfold decoded. rewrite (base64url_round_trip _ _ (Nat.le_refl _)). cbn [mbind option_bind].
  rewrite String.eqb_refl. by apply parse_compact.
Qed.

Lemma expectation_plain e : plain (expectation_json e).
Proof. split; [|by repeat split]. cbn. apply (bool_decide_unpack _). vm_compute. exact I. Qed.

(** What a launch puts into its child's environment is what the child reads: the
    same seat, whatever characters its label and worktree contain.  A variable that
    is not the encoding of anything, or not of an object with the five strings, is
    refused. *)
Theorem launch_expectation_round_trip e :
  readLaunchSeatExpectation (Some (withLaunchSeatExpectationEnv e)) = inr (Some e) /\
  forall raw, raw <> "" -> decoded raw = None -> exists err, readLaunchSeatExpectation (Some raw) = inl err.
Proof.
  split.
  - unfold withLaunchSeatExpectationEnv, readLaunchSeatExpectation. rewrite compact_decodes by apply expectation_plain.
    assert (Hn : base64url (json_compact (expectation_json e)) <> "") by (by apply base64url_nonempty).
    destruct (base64url _); [done|]. by destruct e.
  - intros raw Hr Hd. unfold readLaunchSeatExpectation. rewrite Hd. destruct raw; [done|]. by eexists.
Qed.

(** ** The cube of a worktree *)

(** The absolute directory of the segments [l], and whether the walk found a [.git]
    there. *)
Definition dir_of (l : list string) : string := "/" +:+ join "/" l.

Definition looked (l : list string) (found : bool) (t : log) : Prop := Did (ExistsSync (path_join [dir_of l; ".git"])) found ∈ t.

(** No directory from [above] down to [above/below] has a [.git], [above] itself
    apart. *)
Definition none_below (above below : list string) (t : log) : Prop :=
  forall l l', below = l ++ l' -> l <> [] -> looked (above ++ l) false t.

(** [root] is the nearest directory with a [.git], from [dir] upwards, or [dir]
    itself where there is none up to the root of the disk. *)
Definition is_project_root (cwd dir root : string) (t : log) : Prop :=
  (exists above below, normal_segments false (path_resolve cwd dir) = above ++ below /\
     root = dir_of above /\ looked above true t /\ none_below above below t) \/
  root = path_resolve cwd dir /\ looked [] false t /\ none_below [] (normal_segments false (path_resolve cwd dir)) t.

#[global] Instance looked_lasting l found : Lasting (looked l found).
Proof. intros t t' Ht H. by apply Ht. Qed.

#[global] Instance none_below_lasting above below : Lasting (none_below above below).
Proof. intros t t' Ht H l l' Heq Hl. by eapply lasting, H. Qed.

#[global] Instance is_project_root_lasting cwd dir root : Lasting (is_project_root cwd dir root).
Proof.
  intros t t' Ht [(above & below & Hseg & Hroot & Hl & Hn)|(Hroot & Hl & Hn)]; [left|right].
  - exists above, below. split; [done|]. split; [done|]. split; by eapply lasting.
  - split; [done|]. split; by eapply lasting.
Qed.

Lemma none_below_more above x below t :
  looked (above ++ [x]) false t -> none_below (above ++ [x]) below t -> none_below above (x :: below) t.
Proof.
  intros Hx Hb [|y l] l' Heq Hne; [done|]. injection Heq as <- Heq. destruct l as [|z l]; [done|].
  specialize (Hb (z :: l) l' Heq ltac:(done)). by rewrite <- app_assoc in Hb.
Qed.

Section Active.
Variable cwd : string.

Lemma walk_finds dir start below before tr :
  start = path_resolve cwd dir -> normal_segments false start = rev before ++ below -> none_below (rev before) below tr ->
  traces (walk_up start before) tr (fun root t => is_project_root cwd dir root t /\ exists u, t = tr ++ u) (fun _ _ => False).
Proof.
  intros Hstart. revert below tr. induction before as [|x rest IH]; intros below tr Hseg Hn; cbn [walk_up]; apply traces_bind, traces_ask.
  - intros [|]; (split; [|by eexists]).
    + left. exists [], below. subst start. split; [done|]. split; [done|]. split; [apply elem_of_app; right; by left|].
      eapply lasting; [|exact Hn]. set_solver.
    + right. subst start. split; [done|]. split; [apply elem_of_app; right; by left|]. rewrite Hseg.
      eapply lasting; [|exact Hn]. set_solver.
  - intros [|].
    + split; [|by eexists]. left. exists (rev (x :: rest)), below. subst start. split; [done|]. split; [done|].
      split; [apply elem_of_app; right; by left|]. eapply lasting; [|exact Hn]. set_solver.
    + eapply traces_mono; [apply (IH (x :: below))| |done].
      * rewrite Hseg. cbn [rev]. by rewrite <- app_assoc.
      * apply none_below_more; [apply elem_of_app; right; by left|]. eapply lasting; [|exact Hn]. set_solver.
      * intros root t [Hr [u ->]]. split; [done|]. eexists. by rewrite <- app_assoc.
Qed.

Lemma traces_root dir tr : traces (findProjectRoot cwd (Some dir)) tr
  (fun root t => is_project_root cwd dir root t /\ exists u, t = tr ++ u) (fun _ _ => False).
Proof.
  eapply (walk_finds dir _ []); [done|by rewrite rev_involutive, app_nil_r|]. intros l l' Heq Hl. by destruct l.
Qed.

Definition matches_expectation (e : launch_expectation) (root : string) (r : seat) : Prop :=
  record_ref r = le_credentialRef e /\ si_cubeId (s_identity r) = le_cubeId e /\ s_droneId r = Some (le_droneId e) /\
  path_resolve cwd root = path_resolve cwd (le_worktree e).

Lemma assert_record e active root record : assertLaunchSeatExpectation cwd e active root record = inr tt ->
  exists r, record = Some r /\ matches_expectation e root r.
Proof.
  unfold assertLaunchSeatExpectation. destruct record as [r|]; [|done]. destruct (_ && _ && _ && _ && _) eqn:E; [|done]. intros _.
  bool_to_prop. by exists r.
Qed.

(** The cube made of a record and its credential. *)
Definition cube_of (r : seat) (token : string) : active_cube :=
  ActiveCube (si_cubeId (s_identity r)) (default "" (s_droneId r)) (default "" (s_name r)) token (default "" (s_droneLabel r))
    (si_origin (s_identity r)) (Some (si_trustIdentity (s_identity r))) (Some (record_ref r)) (Some (si_operation (s_identity r)))
    (s_roleName r) (s_roleClass r) (s_isHumanSeat r) (s_worktree r) (s_repositoryOrigin r).

Definition holds_pin (pin : seat_pin) (a : active_cube) : Prop :=
  path_resolve cwd (default "" (ac_worktree a)) = sp_worktree pin /\ ac_cubeId a = sp_cubeId pin /\ ac_droneId a = sp_droneId pin /\
  ac_localSessionCredentialRef a = sp_credentialRef pin.

Lemma pinned_elsewhere_spec pin a : pinned_elsewhere cwd pin a = false <-> holds_pin pin a.
Proof.
  unfold pinned_elsewhere, holds_pin. rewrite negb_false_iff, !andb_true_iff, !String.eqb_eq, bool_decide_eq_true. tauto.
Qed.

(** The checks after the credential was read. *)
Definition checks (expectation : option launch_expectation) (root : string) (active : option active_cube) : prog cube_op (option active_cube) :=
  do! match expectation with
      | Some e =>
          let! currentRecord := perform (ActiveSeat root) in
          of_sum (assertLaunchSeatExpectation cwd e (Some active) root currentRecord)
      | None => Ret tt
      end;
  let! p := ask PinnedNow in
  match active, pn_seat p with
  | Some a, Some pinned => if pinned_elsewhere cwd pinned a then Throw McpSeatIdentityChangedError else Ret active
  | _, _ => Ret active
  end.

Definition checked_by (expectation : option launch_expectation) (root : string) (a : active_cube) (u : log) : Prop :=
  exists v p, u = v ++ [Did PinnedNow p] /\ (forall pin, pn_seat p = Some pin -> holds_pin pin a) /\
    forall e, expectation = Some e -> exists r', Did (ActiveSeat root) (inr (Some r')) ∈ v /\ matches_expectation e root r'.

Lemma traces_pinned active tr (Q : option active_cube -> log -> Prop) :
  (forall p, (forall a pin, active = Some a -> pn_seat p = Some pin -> holds_pin pin a) -> Q active (tr ++ [Did PinnedNow p])) ->
  traces (let! p := ask PinnedNow in
          match active, pn_seat p with
          | Some a, Some pinned => if pinned_elsewhere cwd pinned a then Throw McpSeatIdentityChangedError else Ret active
          | _, _ => Ret active
          end) tr Q (fun _ _ => True).
Proof.
  intros HQ. apply traces_bind, traces_ask. intros p. specialize (HQ p). destruct active as [a|]; [|by apply HQ].
  destruct (pn_seat p) as [pin|]; [|by apply HQ]. destruct (pinned_elsewhere cwd pin a) eqn:E; [done|]. apply HQ.
  intros a' pin' [= <-] [= <-]. by apply pinned_elsewhere_spec.
Qed.

Lemma traces_checks expectation root active tr :
  traces (checks expectation root active) tr
    (fun result t => forall a, result = Some a -> active = Some a /\ exists u, t = tr ++ u /\ checked_by expectation root a u) (fun _ _ => True).
Proof.
  unfold checks. apply traces_bind. destruct expectation as [e|].
  - apply traces_bind, traces_perform; [|done]. intros record.
    destruct (assertLaunchSeatExpectation cwd e (Some active) root record) as [err|[]] eqn:Ha; [done|].
    apply assert_record in Ha as (r' & -> & Hm). apply traces_pinned. intros p Hp a ->. split; [done|].
    eexists. split; [by rewrite <- app_assoc|]. eexists [_], p. split; [done|]. split; [by intros pin; apply Hp|].
    intros e' [= <-]. exists r'. split; [by left|done].
  - apply traces_pinned. intros p Hp a ->. split; [done|]. eexists. split; [done|]. exists [], p. split; [done|]. split; [by intros pin; apply Hp|done].
Qed.

(** A record, the credential that was read for it, and the checks. *)
Definition drawn_from (expectation : option launch_expectation) (root : string) (r : seat) (tr : log) (a : active_cube) (t : log) : Prop :=
  exists token u, a = cube_of r token /\ token <> "" /\ checked_by expectation root a u /\
    t = (tr ++ [Did (SeatCredential (record_ref r) (expected_of (s_identity r))) (inr (Some token))]) ++ u.

Lemma traces_hydrated expectation root r tr :
  traces (let! active := hydrateActiveCube r in checks expectation root active) tr
    (fun result t => forall a, result = Some a -> drawn_from expectation root r tr a t) (fun _ _ => True).
Proof.
  unfold hydrateActiveCube. apply traces_bind, traces_bind, traces_perform; [|done]. intros token. cbn [traces].
  eapply traces_mono; [apply traces_checks| |done]. intros result t Hr a Ha. destruct (Hr a Ha) as (Hc & u & -> & Hu).
  destruct token as [[|c token]|]; [done| |done]. injection Hc as <-. by exists (String c token), u.
Qed.
End Active.

(** How a cube came to be returned. *)
Definition well_chosen (cwd : string) (variable : option string) (worktree : string) (a : active_cube) (t : log) : Prop :=
  exists root r t1, is_project_root cwd worktree root t1 /\ Did (ActiveSeat root) (inr (Some r)) ∈ t1 /\
    exists expectation, readLaunchSeatExpectation variable = inr expectation /\
      (forall e, expectation = Some e -> matches_expectation cwd e root r) /\ drawn_from cwd expectation root r t1 a t.

(** C25. A cube that is returned for a worktree is made of the seat record the store
    gave for the worktree's project root and of that record's credential.  In a
    process its parent launched for one seat, it is that seat, in that worktree, and
    the store still named it after the credential was read; a variable that cannot
    be read gives no cube.  In a process that has pinned a seat, it is that seat. *)
Theorem active_cube_is_the_chosen_seat cwd variable worktree :
  traces (getActiveCubeForWorktree cwd variable worktree) []
    (fun result t => forall a, result = Some a -> well_chosen cwd variable worktree a t) (fun _ _ => True).
Proof.
  unfold getActiveCubeForWorktree. apply traces_bind. eapply traces_mono; [apply traces_root| |done].
  intros root t [Hroot _]. cbn beta. destruct (readLaunchSeatExpectation variable) as [err|expectation] eqn:Hv; [done|]. cbn [of_sum].
  apply traces_bind. cbn [traces]. apply traces_bind, traces_perform; [|done]. intros record. set (t1 := t ++ _).
  assert (Hroot1 : is_project_root cwd worktree root t1) by (eapply lasting; [|exact Hroot]; unfold t1; set_solver).
  assert (Hrec : Did (ActiveSeat root) (inr record) ∈ t1) by (unfold t1; set_solver). clearbody t1. clear Hroot. apply traces_bind.
  assert (Hrest : (forall e, expectation = Some e -> exists r, record = Some r /\ matches_expectation cwd e root r) ->
    traces (match record with
            | None => Ret None
            | Some r => if String.eqb (si_cubeId (s_identity r)) "" || missing (s_droneId r) then Ret None
                        else let! active := hydrateActiveCube r in checks cwd expectation root active
            end) t1 (fun result t => forall a, result = Some a -> well_chosen cwd variable worktree a t) (fun _ _ => True)).
  { intros Hm. destruct record as [r|]; [|done]. destruct (_ || _); [done|]. eapply traces_mono; [apply traces_hydrated| |done].
    intros result t' Hr a Ha. exists root, r, t1. split; [done|]. split; [done|]. exists expectation. split; [done|]. split; [|by apply Hr].
    intros e He. destruct (Hm e He) as (r0 & [= <-] & H). done. }
  destruct expectation as [e|]; [|by apply Hrest]. destruct (assertLaunchSeatExpectation cwd e None root record) as [err|[]] eqn:Ha; [done|].
  apply Hrest. intros e' [= <-]. by eapply assert_record.
Qed.

(** ** The reset of a saved seat *)

(** What a call of the reset asks for, and its answer. *)
Record reset_call := ResetCall {
  rc_worktree : string;
  rc_ref : string;
  rc_droneId : option string;
  rc_observation : seat_observation;
  rc_answer : js_error + reset_outcome
}.

Definition asks (e : @entry cube_op) : option reset_call :=
  match e with
  | Did op x =>
      match op in cube_op X return X -> option reset_call with
      | ResetSeat worktree ref droneId observation => fun x => Some (ResetCall worktree ref droneId observation x)
      | _ => fun _ => None
      end x
  end.

(** What the transaction of the call can do to a store: remove the one record that
    has the ref, the worktree and the drone, and, where a credential was observed,
    that credential. *)
Definition clears_one (c : reset_call) : Prop := forall s s',
  st_commit (reset_tx (rc_worktree c) (rc_ref c) (rc_droneId c) (rc_observation c) s) = Some s' ->
  s' = drop_key (rc_ref c) s /\ exists r, assoc (rc_ref c) s = Some r /\ record_ref r = rc_ref c /\
    s_worktree r = Some (rc_worktree c) /\ s_droneId r = rc_droneId c /\
    forall d, observed_digest (rc_observation c) = Some d -> digestOf (s_credential r) = d.

Lemma reset_clears_one c : clears_one c.
Proof.
  intros s s'. unfold reset_tx. destruct (assoc (rc_ref c) s) as [r|] eqn:Ha; [|by destruct (existsb _ s)].
  destruct (_ || _) eqn:Eb; [by destruct (existsb _ s)|]. rewrite !orb_false_iff, !negb_false_iff in Eb. destruct Eb as [[Hw Hd] Hr].
  apply bool_decide_eq_true in Hw, Hd. apply String.eqb_eq in Hr.
  destruct (observed_digest (rc_observation c)) as [d|] eqn:Ho.
  - destruct (String.eqb_spec (digestOf (s_credential r)) d) as [Hdig|]; cbn [negb]; [|done]. cbn. intros [= <-].
    split; [done|]. exists r. repeat split; try done. by intros d' [= <-].
  - cbn. intros [= <-]. split; [done|]. exists r. by repeat split.
Qed.

Section Reset.
Variable cwd : string.
Variable normalizeHost : string -> js_error + string.
Variable flags : reset_flags.

Local Abbreviation quietly := (silently asks True).

Definition consent (t : log) : Prop :=
  (exists m answer, Did (Prompt m) (inr answer) ∈ t /\ consented answer = true) \/ Did IsTTY false ∈ t /\ rf_yes flags = true.

(** What the operator reads before the question. *)
Definition credential_line (o : seat_observation) : string :=
  match o with
  | ObservedActive _ _ => "a saved local session credential is present (active)"
  | ObservedPending _ => "a saved local session credential is present (pending)"
  | Absent => "the saved local session credential is already cleared (only the binding remains)"
  end.

Definition disclosure (apiUrl worktree : string) (o : seat_observation) : string :=
  ("This will clear ONLY this worktree's saved connection to " +:+ apiUrl +:+ " (worktree " +:+ worktree +:+ ") — " +:+
   credential_line o +:+ ". Server, trust anchor, cube, and sibling worktrees are left untouched. " +:+
   "It makes no network call and revokes nothing server-side.") +:+ newline.

(** The worktree is the root of the pinned directory's project, or of the
    process's; its seat was read and observed, and what was observed was said. *)
Definition shown (worktree ref : string) (droneId : option string) (o : seat_observation) (t : log) : Prop :=
  exists p r here, Did PinnedNow p ∈ t /\ is_project_root cwd (default cwd (pn_root p)) worktree t /\
    Did (BoundSeat worktree) (inr (Some r)) ∈ t /\ ref = record_ref r /\ droneId = s_droneId r /\
    Did (ObserveSeat ref (expected_of (s_identity r))) (inr o) ∈ t /\
    is_project_root cwd cwd here t /\ Did (Say true (disclosure (si_origin (s_identity r)) here o)) tt ∈ t /\
    forall h, rf_host flags = Some h -> normalizeHost h = inr (si_origin (s_identity r)).

Definition agreed (c : reset_call) (t : log) : Prop :=
  shown (rc_worktree c) (rc_ref c) (rc_droneId c) (rc_observation c) t /\ consent t /\ clears_one c.

Definition exit_code (x : js_error + reset_outcome) : Z := match x with inl _ => 1 | inr _ => 0 end.

Definition one_agreed_reset (t : log) : Prop := marks_justified asks agreed t /\ (length (omap asks t) <= 1)%nat.

(** The host that was named cannot be read; nobody was there to ask. *)
Definition bad_host : Prop := exists h e, rf_host flags = Some h /\ normalizeHost h = inl e.
Definition refused (t : log) : Prop := Did IsTTY false ∈ t /\ rf_yes flags = false.

(** The exit code: 1 for a host that cannot be read and for a reset the store
    failed, and else only where there was nobody to ask. *)
Definition exits (code : Z) (t : log) : Prop :=
  (bad_host -> code = 1 /\ omap asks t = []) /\
  (forall c, c ∈ omap asks t -> code = exit_code (rc_answer c)) /\
  (code = 0 \/ code = 1 /\ (bad_host \/ refused t \/ exists c e, c ∈ omap asks t /\ rc_answer c = inl e)).

#[local] Instance refused_lasting : Lasting refused.
Proof. intros t t' Ht [H1 H2]. split; [by apply Ht|done]. Qed.

Lemma omap_silent u : Forall (fun e => asks e = None) u -> omap asks u = [].
Proof. induction 1 as [|e u He _ IH]; [done|]. cbn [omap list_omap]. by rewrite He. Qed.

Lemma no_reset t : silent asks [] t -> one_agreed_reset t /\ omap asks t = [].
Proof.
  intros Hs. pose proof Hs as (u & E & Hu). cbn in E. subst t. rewrite omap_silent by done. split; [|done].
  split; [by apply justified_silent|]. rewrite omap_silent by done. cbn. lia.
Qed.

Lemma one_reset t e c u : silent asks [] t -> asks e = Some c -> agreed c t -> Forall (fun e => asks e = None) u ->
  one_agreed_reset (t ++ e :: u) /\ omap asks (t ++ e :: u) = [c].
Proof.
  intros (t0 & -> & Ht) He Ha Hu. cbn [app] in *.
  assert (Ho : omap asks (t0 ++ e :: u) = [c]).
  { rewrite omap_app. cbn [omap list_omap]. by rewrite He, !omap_silent. }
  split; [|done]. split; [|rewrite Ho; done]. intros before e' after m Heq He'.
  apply app_eq_app in Heq as (l & [[-> Hl]|[-> Hl]]).
  - destruct l as [|x l]; cbn in Hl.
    + injection Hl as -> _. rewrite app_nil_r in Ha. congruence.
    + injection Hl as -> _. rewrite Forall_app, Forall_cons in Ht. destruct Ht as (_ & Ht & _). congruence.
  - destruct l as [|x l]; cbn in Hl.
    + injection Hl as -> _. rewrite app_nil_r. congruence.
    + injection Hl as -> ->. rewrite Forall_app, Forall_cons in Hu. destruct Hu as (_ & Hu & _). congruence.
Qed.

Lemma quietly_walk start before tr : quietly (walk_up start before) tr (fun _ _ => True).
Proof.
  revert tr. induction before as [|seg rest IH]; intros tr; cbn [walk_up]; (eapply silently_bind; [by apply silently_ask|]);
    intros [|] t _ _; try by apply silently_ret. apply IH.
Qed.

Lemma quietly_found dir tr : quietly (findProjectRoot cwd (Some dir)) tr (fun root t => is_project_root cwd dir root t).
Proof.
  assert (Hq : quietly (findProjectRoot cwd (Some dir)) tr (fun _ _ => True)) by apply quietly_walk.
  eapply traces_mono; [exact (traces_and _ _ _ _ _ _ (traces_root cwd dir tr) Hq)|..].
  - intros root t [[Hr _] [Hs _]]. by split.
  - intros e t [[] _].
Qed.

Lemma quietly_root tr : quietly (findProjectRoot cwd None) tr
  (fun root t => exists p, Did PinnedNow p ∈ t /\ is_project_root cwd (default cwd (pn_root p)) root t).
Proof.
  assert (Hr : findProjectRoot cwd None = (let! p := ask PinnedNow in findProjectRoot cwd (Some (default cwd (pn_root p))))).
  { reflexivity. }
  rewrite Hr. eapply silently_bind; [by apply silently_ask|]. intros p t _ Hp. eapply silently_mono; [apply quietly_found|].
  intros root t' Hg Hroot. exists p. split; [by apply (silent_subseteq _ _ _ Hg)|done].
Qed.

(** What a snapshot was made of. *)
Definition taken (s : seat_snapshot) (t : log) : Prop :=
  exists p r, Did PinnedNow p ∈ t /\ is_project_root cwd (default cwd (pn_root p)) (sn_worktree s) t /\
    Did (BoundSeat (sn_worktree s)) (inr (Some r)) ∈ t /\ sn_credentialRef s = record_ref r /\ sn_droneId s = s_droneId r /\
    Did (ObserveSeat (sn_credentialRef s) (expected_of (s_identity r))) (inr (sn_observation s)) ∈ t /\
    sn_apiUrl s = si_origin (s_identity r).

Lemma quietly_snapshot tr : quietly (snapshotLocalSeat cwd) tr (fun s t => forall x, s = Some x -> taken x t).
Proof.
  unfold snapshotLocalSeat. eapply silently_bind; [apply quietly_root|]. intros worktree t _ (p & Hp & Hroot).
  eapply silently_bind; [by apply silently_perform|]. intros record t' Hg1 Hb. destruct record as [r|]; [|by apply silently_ret].
  destruct (String.eqb _ _); [by apply silently_ret|]. eapply silently_bind; [by apply silently_perform|]. intros o t'' Hg Ho.
  apply silently_ret. intros x [= <-]. exists p, r. cbn. apply silent_subseteq in Hg, Hg1.
  split; [auto|]. split; [|auto]. eapply lasting; [|exact Hroot]. by etrans.
Qed.

Definition reset_result (code : Z) (t : log) : Prop := one_agreed_reset t /\ exits code t.

(** Nothing is asked of the store. *)
Lemma quiet_result (p : prog cube_op Z) tr : silent asks [] tr -> 
  quietly p tr (fun code t => (bad_host -> code = 1) /\ (code = 0 \/ code = 1 /\ (bad_host \/ refused t))) ->
  traces p tr reset_result (fun _ => one_agreed_reset).
Proof.
  intros Htr Hp. eapply traces_mono; [exact Hp|..].
  - intros r t [Hg [Hb Hr]]. destruct (no_reset t) as [Ho Hn]; [by eapply silent_trans|]. split; [done|]. unfold exits. rewrite Hn.
    split; [by intros H%Hb|]. split; [set_solver|]. tauto.
  - intros e t [Hg _]. apply no_reset. by eapply silent_trans.
Qed.

Lemma quietly_say b line (code : Z) tr : quietly (do! ask (Say b line); Ret code : prog cube_op Z) tr (fun r _ => r = code).
Proof. eapply silently_bind; [by apply silently_ask|]. intros [] t _ _. by apply silently_ret. Qed.

Lemma quietly_remaining worktree (p : option (string * seat_operation) -> prog cube_op unit) q tr :
  (forall x t, quietly (p x) t (fun _ _ => True)) ->
  (forall t, quietly q t (fun _ _ => True)) ->
  quietly (let! remaining := attempt (findRemainingActiveSeatForWorktree worktree) in
           do! match remaining with inr x => p x | inl _ => q end; Ret 0 : prog cube_op Z) tr (fun r _ => r = 0).
Proof.
  intros Hp Hq. eapply silently_bind.
  - apply (silently_attempt _ _ _ _ (fun _ _ => True)). unfold findRemainingActiveSeatForWorktree.
    eapply silently_bind; [by apply silently_perform|]. intros x t _ _. by apply silently_ret.
  - intros x t _ _. eapply silently_bind with (P := fun _ _ => True); [destruct x; auto|]. intros [] t' _ _. by apply silently_ret.
Qed.

Lemma after_reset (p : prog cube_op Z) c e tr :
  silent asks [] tr -> asks e = Some c -> agreed c tr ->
  quietly p (tr ++ [e]) (fun r _ => r = exit_code (rc_answer c)) ->
  traces p (tr ++ [e]) reset_result (fun _ => one_agreed_reset).
Proof.
  intros Htr He Ha Hp. eapply traces_mono; [exact Hp|..].
  - intros r t [(u & -> & Hu) ->]. rewrite <- app_assoc. cbn [app]. destruct (one_reset tr e c u) as [H1 H2]; [done..|].
    split; [done|]. unfold exits. rewrite H2. split; [|split].
    + intros (h & err & Hf & Hn). destruct Ha as ((p0 & r & here & _ & _ & _ & _ & _ & _ & _ & _ & Hh) & _).
      rewrite (Hh h Hf) in Hn. done.
    + by intros c' ->%list_elem_of_singleton.
    + destruct (rc_answer c) as [err|] eqn:Hc; [right|by left]. split; [done|]. right. right. exists c, err. split; [by left|done].
  - intros err t [(u & -> & Hu) _]. rewrite <- app_assoc. cbn [app]. by apply (one_reset tr e c u).
Qed.

Lemma reset_confirmed_result worktree s tr :
  silent asks [] tr -> shown (sn_worktree s) (sn_credentialRef s) (sn_droneId s) (sn_observation s) tr -> consent tr ->
  traces (reset_confirmed worktree s) tr reset_result (fun _ => one_agreed_reset).
Proof.
  intros Htr Hs Hc. unfold reset_confirmed, resetLocalSeatBinding. apply traces_bind, traces_attempt, traces_perform.
  - intros o. eapply after_reset; [done|done|by split; [|split; [|apply reset_clears_one]]|]. cbn [rc_answer exit_code]. destruct o as [ref| |].
    + unfold say_err. eapply silently_bind; [by apply silently_ask|]. intros [] t _ _. apply quietly_remaining.
      * intros [[apiUrl op]|] t'; [destruct (String.eqb apiUrl (sn_apiUrl s))|];
          (eapply silently_mono; [by apply silently_ask|done]).
      * intros t'. eapply silently_mono; [by apply silently_ask|done].
    + apply quietly_say.
    + apply quietly_say.
  - intros e. eapply after_reset; [done|done|by split; [|split; [|apply reset_clears_one]]|]. apply quietly_say.
Qed.

#[global] Instance taken_lasting s : Lasting (taken s).
Proof.
  intros t t' Ht (p & r & H1 & H2 & H3 & H4 & H5 & H6 & H7). exists p, r. split; [auto|]. split; [by eapply lasting|]. auto 10.
Qed.

(** The snapshot was said. *)
Definition told (s : seat_snapshot) (t : log) : Prop :=
  exists here, is_project_root cwd cwd here t /\ Did (Say true (disclosure (sn_apiUrl s) here (sn_observation s))) tt ∈ t.

#[global] Instance told_lasting s : Lasting (told s).
Proof. intros t t' Ht (here & H1 & H2). exists here. split; [by eapply lasting|auto]. Qed.

Lemma taken_shown s tr : taken s tr -> told s tr -> (forall h, rf_host flags = Some h -> normalizeHost h = inr (sn_apiUrl s)) ->
  shown (sn_worktree s) (sn_credentialRef s) (sn_droneId s) (sn_observation s) tr.
Proof.
  intros (p & r & H1 & H2 & H3 & H4 & H5 & H6 & H7) (here & H8 & H9) Hh. exists p, r, here. rewrite <- H7. auto 10.
Qed.

Lemma asked_result worktree s tr : silent asks [] tr -> taken s tr -> told s tr ->
  (forall h, rf_host flags = Some h -> normalizeHost h = inr (sn_apiUrl s)) -> ~ bad_host ->
  traces (let! tty := ask IsTTY in
          if (tty : bool) then
            let! answer := perform (Prompt "Reset this worktree's saved connection now? [y/N]: ") in
            if consented answer then reset_confirmed worktree s else do! say_err declined; Ret 0
          else if rf_yes flags then reset_confirmed worktree s
          else do! say_err not_interactive; Ret 1) tr reset_result (fun _ => one_agreed_reset).
Proof.
  intros Hs Ht Hd Hh Hb. apply traces_bind, traces_ask. intros tty. set (t1 := tr ++ _).
  assert (Hs1 : silent asks [] t1) by (by eapply silent_trans; [|apply silent_extend]).
  assert (Hsub : tr ⊆ t1) by (unfold t1; set_solver).
  assert (Hsh : forall t, t1 ⊆ t -> shown (sn_worktree s) (sn_credentialRef s) (sn_droneId s) (sn_observation s) t).
  { intros t Hsub'. apply taken_shown; [eapply lasting; [|exact Ht]|eapply lasting; [|exact Hd]|exact Hh]; by etrans. }
  assert (Htty : Did IsTTY tty ∈ t1) by (unfold t1; set_solver). clearbody t1. destruct tty.
  - apply traces_bind, traces_perform.
    + intros answer. set (t2 := t1 ++ _). assert (Hs2 : silent asks [] t2) by (by eapply silent_trans; [|apply silent_extend]).
      destruct (consented answer) eqn:Ha.
      * apply reset_confirmed_result; [done|apply Hsh; unfold t2; set_solver|].
        left. eexists _, answer. split; [|done]. unfold t2. apply elem_of_app. right. by left.
      * apply quiet_result; [done|]. eapply silently_mono; [apply quietly_say|]. intros r t Hg ->. by split; [|left].
    + intros e. apply no_reset. by eapply silent_trans; [|apply silent_extend].
  - destruct (rf_yes flags) eqn:Hy.
    + apply reset_confirmed_result; [done|by apply Hsh|by right].
    + apply quiet_result; [done|]. eapply silently_mono; [apply quietly_say|]. intros r t Hg ->. split; [done|]. right.
      split; [done|]. right. split; [by apply (silent_subseteq _ _ _ Hg)|done].
Qed.
End Reset.

(** C26. [borg reset-local-connection] calls the store's reset at most once, and only
    for a seat it read for the worktree (the root of the pinned directory's project,
    or of the process's own), observed, and showed: the line that names its server
    and whether it has a credential was written before.  Its server is the one named
    by [--host], and the operator said yes or, where there is no terminal, passed
    [--yes].  The transaction of that call removes at most one record, the one at
    that ref, bound to that worktree and drone, and with the credential that was
    observed; where the observation found no credential, the record is removed with
    whatever credential it has by then.  The exit code is 1 where the named host
    cannot be read, and then the store is not called, and where the store failed;
    otherwise it is 0, or 1 where there is no terminal and no [--yes]. *)
Theorem reset_clears_what_was_shown cwd normalizeHost flags :
  traces (runResetLocalSeat cwd normalizeHost flags) []
    (fun code t => one_agreed_reset cwd normalizeHost flags t /\ exits normalizeHost flags code t)
    (fun _ => one_agreed_reset cwd normalizeHost flags).
Proof.
  unfold runResetLocalSeat. apply traces_bind. eapply traces_mono; [apply quietly_found|..].
  2: { intros e t [Hs _]. by apply no_reset. }
  intros worktree t [Hs Hhere]. cbn beta. destruct (requested_host normalizeHost flags) as [err|requestedHost] eqn:Hh.
  { assert (Hbad : bad_host normalizeHost flags).
    { unfold requested_host in Hh. destruct (rf_host flags) as [h|] eqn:Hf; [|done]. exists h, err.
      destruct (normalizeHost h); [|done]. by injection Hh as ->. }
    apply quiet_result; [done|]. eapply silently_mono; [apply quietly_say|]. intros r t' _ ->. auto. }
  assert (Hgood : ~ bad_host normalizeHost flags).
  { intros (h & err & Hf & Hn). unfold requested_host in Hh. rewrite Hf, Hn in Hh. done. }
  assert (Hzero : forall b line tr, silent asks [] tr ->
    traces (do! ask (Say b line); Ret 0 : prog cube_op Z) tr (reset_result cwd normalizeHost flags) (fun _ => one_agreed_reset cwd normalizeHost flags)).
  { intros b line tr Htr. apply quiet_result; [done|]. eapply silently_mono; [apply quietly_say|]. intros r t' _ ->. by split; [|left]. }
  apply traces_bind. eapply traces_mono; [apply quietly_snapshot|..].
  2: { intros e t' [Hs' _]. apply no_reset. by eapply silent_trans. }
  intros snapshot t1 [Hg1 Ht1]. cbn beta. assert (Hs1 : silent asks [] t1) by (by eapply silent_trans).
  destruct snapshot as [s|]; [|by apply Hzero].
  specialize (Ht1 s eq_refl). destruct (match requestedHost with Some _ => _ | None => _ end) eqn:Hsame; [by apply Hzero|].
  assert (Hhost : forall h, rf_host flags = Some h -> normalizeHost h = inr (sn_apiUrl s)).
  { intros h Hf. unfold requested_host in Hh. rewrite Hf in Hh. destruct (normalizeHost h) as [|x]; [done|]. injection Hh as <-.
    apply negb_false_iff, String.eqb_eq in Hsame. by subst. }
  unfold say_err at 1. apply traces_bind, traces_ask. intros []. set (t2 := t1 ++ _).
  assert (Hs2 : silent asks [] t2) by (by eapply silent_trans; [|apply silent_extend]).
  assert (Hsub : t1 ⊆ t2) by (unfold t2; set_solver).
  apply asked_result; [done|by eapply lasting| |done..].
  exists worktree. split; [|unfold t2; apply elem_of_app; right; left; by destruct (sn_observation s)].
  eapply lasting; [|exact Hhere]. etrans; [|exact Hsub]. by apply (silent_subseteq asks).
Qed.

(** ** Cases *)

(** An observation that found nothing guards nothing: a seat that vanished while it
    was observed and was enrolled again before the answer is cleared with its new
    credential. *)
Section Replaced.
Let identity := SeatIdentity "https://host" "ca" "cube" "role" (SeatOperation "/work/a" SeatKind "key" []).
Let replacement := Seat identity "a-bearer-nobody-was-shown" Active (Some 2) (Some "drone") (Some "session") (Some "/work/a") None None
  (Some "cube") (Some "label") None None None [].

Example absent_observation_clears_a_replacement :
  st_commit (reset_tx "/work/a" (seatRef identity) (Some "drone") Absent [(seatRef identity, replacement)]) = Some [] /\
  st_commit (reset_tx "/work/a" (seatRef identity) (Some "drone") (ObservedActive (digestOf "the-bearer-that-was-shown") "drone")
    [(seatRef identity, replacement)]) = None.
Proof. vm_compute. split; reflexivity. Qed.
End Replaced.

Lemma launch_expectation_round_trip_witness :
  readLaunchSeatExpectation (Some (withLaunchSeatExpectationEnv
    (LaunchExpectation "borg-server-session:00" "cube" "drone" "/work/{env:A}/b" "ab-cd"))) =
  inr (Some (LaunchExpectation "borg-server-session:00" "cube" "drone" "/work/{env:A}/b" "ab-cd")).
Proof. apply launch_expectation_round_trip. Defined.

(** *** Pins *)

(** The calls that pin, in the order they are made; a call that throws is caught
    somewhere. *)
Inductive pin_call := PinRoot (worktree : string) | PinSeat (a : active_cube).

Definition pin_step (cwd : string) (p : pins) (c : pin_call) : pins :=
  match c with PinRoot worktree => snd (pinMcpProjectRoot cwd worktree p) | PinSeat a => snd (pinMcpSeatIdentity cwd a p) end.

Lemma root_step cwd p worktree : match pn_root p with Some r => pn_root (snd (pinMcpProjectRoot cwd worktree p)) = Some r | None => True end /\
  pn_seat (snd (pinMcpProjectRoot cwd worktree p)) = pn_seat p.
Proof. unfold pinMcpProjectRoot. destruct (pn_root p) as [r|] eqn:Hr; [|done]. destruct (String.eqb r _); cbn; by rewrite Hr. Qed.

Lemma pins_step cwd p c pin : pn_seat p = Some pin -> pn_seat (pin_step cwd p c) = Some pin.
Proof.
  intros Hp. destruct c as [worktree|a]; cbn [pin_step]; [by rewrite (proj2 (root_step cwd p worktree))|].
  unfold pinMcpSeatIdentity. destruct (ac_worktree a) as [[|c worktree]|]; [done| |done].
  pose proof (proj2 (root_step cwd p (String c worktree))) as Hs. destruct (pinMcpProjectRoot _ _ p) as [[e|[]] p'] eqn:E; cbn [snd] in Hs.
  - cbn [snd]. congruence.
  - rewrite Hp in Hs. rewrite Hs. destruct (bool_decide _) eqn:Hb; cbn [negb snd pn_seat]; [|done].
    apply bool_decide_eq_true in Hb. congruence.
Qed.

(** A process that has pinned a seat keeps it, whatever is asked of it later. *)
Theorem pinned_seat_is_kept cwd calls p pin :
  pn_seat p = Some pin -> pn_seat (foldl (pin_step cwd) p calls) = Some pin.
Proof. revert p. induction calls as [|c calls IH]; intros p Hp; [done|]. by apply IH, pins_step. Qed.

Lemma pinned_seat_is_kept_witness :
  pn_seat (foldl (pin_step "/work") (Pins (Some "/work/a") (Some (SeatPin "/work/a" "cube" "drone" None)))
    [PinRoot "b"; PinRoot "a"]) = Some (SeatPin "/work/a" "cube" "drone" None).
Proof. apply pinned_seat_is_kept. reflexivity. Defined.
