(* ===== verification/OpenCode.v ===== *)
(** * Delivery of wakes into an OpenCode session ([opencode-drone.ts])

    One module variable holds the connection; every connection is an object that
    the asynchronous flows keep after it was replaced.  A delivery is an object
    too: the queue, the table of active deliveries and the flows share it.  Both are
    indices into a heap here.  A stretch of code without an [await] is one operation
    [Sync] on the world; the requests to OpenCode's server, the look at the source
    of a wake and the timers are operations whose answer is not determined.

    The ghost log lists what was submitted to the server, which answers refused a
    submission, which messages the server listed and which sources were settled.
    The diagnostic log file is left out.  Times are whole milliseconds. *)

From S2P Require Import Prelude NodeLib JsDate JsonText Effects Assoc LeaseFs Sha256.

Open Scope Z_scope.
Open Scope prog_scope.

(** ** What the server says *)

(* src/src/opencode-drone.ts 200-205 OCSession *)
Record oc_session := OcSession {
  os_id : string;
  os_directory : string;
  os_created : Z;
  os_parentID : option string
}.

Record oc_part := OcPart { op_type : option string; op_metadata : option (list (string * json)) }.

(* src/src/opencode-drone.ts 207-218 OCMessage *)
Record oc_message := OcMessage {
  om_role : string;
  om_id : option string;
  om_parts : list oc_part
}.

#[export] Instance oc_session_eq_dec : EqDecision oc_session.
Proof. solve_decision. Defined.

Definition OPENCODE_INJECTED_ENTRY_METADATA_KEY : string := "borgOpenCodeInjectedEntry".
Definition OPENCODE_WAKE_IDENTITY_METADATA_KEY : string := "borgOpenCodeWakeIdentity".
Definition OPENCODE_LAUNCH_CORRELATION_METADATA_KEY : string := "borgOpenCodeLaunchCorrelation".

(** ** Errors *)

Definition OpenCodeAuthenticationError (message : string) : js_error :=
  ErrorOf "OpenCodeAuthenticationError" (Some "unauthorized") None message [].
Definition OpenCodeUnreachableError (code message : string) : js_error :=
  ErrorOf "OpenCodeUnreachableError" (Some code) None message [].
Definition OpenCodeResponseError (message : string) : js_error :=
  ErrorOf "OpenCodeResponseError" (Some "incompatible-api") None message [].
Definition incompatible : js_error := OpenCodeResponseError "OpenCode returned an incompatible API response".

(* src/src/opencode-drone.ts 433-442 openCodeHttpError *)
Definition openCodeHttpError (status : Z) (operation : string) : js_error :=
  let code :=
    if status =? 401 then "unauthorized"
    else if status =? 404 then "not-found"
    else if (500 <=? status) || (status =? 429) then "transient"
    else "incompatible-api" in
  ErrorOf "OpenCodeHttpError" (Some code) (Some status)
    ("OpenCode " +:+ operation +:+ " request failed (" +:+ js_String (JNum status) +:+ ")") [].

Definition type_error : js_error := ErrorOf "TypeError" None None "Cannot read properties of null" [].
Definition range_error : js_error := ErrorOf "RangeError" None None "Maximum call stack size exceeded" [].

Definition error_name (e : js_error) : string := match e with ErrorOf cls _ _ _ _ => cls | _ => "Error" end.

(* src/src/opencode-drone.ts 976-980 openCodeFailureCode *)
Definition openCodeFailureCode (e : js_error) : string :=
  match e with
  | Errno (String c s) | ErrorOf _ (Some (String c s)) _ _ _ => String c s
  | _ => error_name e
  end.

(** ** Decoding *)

Definition is_object (v : json) : bool := match v with JObj _ => true | _ => false end.

(** A member that is absent, or of the expected form. *)
Definition member {A} (f : json -> option A) (k : string) (v : json) : option (option A) :=
  match jget k v with None => Some None | Some x => Some <$> f x end.

Definition text_of (v : json) : option string := match v with JStr s => Some s | _ => None end.
Definition number_of (v : json) : option Z := match v with JNum z => Some z | _ => None end.
Definition fields_of (v : json) : option (list (string * json)) := match v with JObj l => Some l | _ => None end.
Definition nonempty_text (v : json) : option string := s ← text_of v; if String.eqb s "" then None else Some s.

(* src/src/opencode-drone.ts 456-470 decodeSession *)
Definition decodeSession (v : json) : option oc_session :=
  id ← jget "id" v ≫= nonempty_text;
  directory ← jget "directory" v ≫= text_of;
  time ← jget "time" v ≫= fields_of;
  created ← jget "created" (JObj time) ≫= number_of;
  parentID ← member text_of "parentID" v;
  Some (OcSession id directory created parentID).

(** [None] is a thrown [OpenCodeResponseError]. *)
(* src/src/opencode-drone.ts 472-476 decodeSessions *)
Definition decodeSessions (body : content) : option (list oc_session) :=
  v ← json_parse body;
  match v with JArr l => mapM decodeSession l | _ => None end.

Definition decode_part (v : json) : option oc_part :=
  if negb (is_object v) then None
  else
    type_ ← member text_of "type" v;
    _ ← member text_of "text" v;
    metadata ← member fields_of "metadata" v;
    Some (OcPart type_ metadata).

Definition decode_time (v : json) : option unit :=
  l ← fields_of v; _ ← member number_of "created" (JObj l); Some tt.

Definition decode_message (v : json) : option oc_message :=
  info ← jget "info" v ≫= fields_of;
  role ← jget "role" (JObj info) ≫= text_of;
  id ← member text_of "id" (JObj info);
  _ ← member decode_time "time" (JObj info);
  match jget "parts" v with
  | Some (JArr l) => parts ← mapM decode_part l; Some (OcMessage role id parts)
  | _ => None
  end.

(* src/src/opencode-drone.ts 478-501 decodeMessages *)
Definition decodeMessages (body : content) : option (list oc_message) :=
  v ← json_parse body;
  match v with JArr l => mapM decode_message l | _ => None end.

Definition has_metadata (k : string) (v : json) (p : oc_part) : bool :=
  bool_decide (op_type p = Some "text") &&
  match op_metadata p with Some m => bool_decide (assoc k m = Some v) | None => false end.

(** The message carries the wake's identity in its first part. *)
Definition carries (identity : string) (m : oc_message) : bool :=
  bool_decide (om_role m = "user") && bool_decide (is_Some (om_id m)) &&
  match om_parts m with
  | p :: _ => has_metadata OPENCODE_INJECTED_ENTRY_METADATA_KEY (JBool true) p &&
              has_metadata OPENCODE_WAKE_IDENTITY_METADATA_KEY (JStr identity) p
  | [] => false
  end.

(** The last such message. *)
Definition find_injected (identity : string) (messages : list oc_message) : option string :=
  match List.find (carries identity) (rev messages) with Some m => om_id m | None => None end.

(* src/src/opencode-drone.ts 779-793 launchCorrelationMatchCount *)
Definition launchCorrelationMatchCount (messages : list oc_message) (correlationIdentity : string) : nat :=
  list_sum (map (fun m =>
    if String.eqb (om_role m) "user"
    then length (List.filter (has_metadata OPENCODE_LAUNCH_CORRELATION_METADATA_KEY (JStr correlationIdentity)) (om_parts m))
    else 0%nat) messages).

(** [Buffer.from(v, 'base64url')] of 32 bytes that encode to [v] again: 43 digits,
    the last of which ends in two zero bits. *)
Fixpoint last_char (s : string) : option ascii :=
  match s with EmptyString => None | String c EmptyString => Some c | String _ s' => last_char s' end.

(* src/src/opencode-launch-trust.ts 32-40 isOpenCode256BitIdentity *)
Definition isOpenCode256BitIdentity (v : string) : bool :=
  (String.length v =? 43)%nat && string_forallb (fun c => bool_decide (is_Some (base64url_value c))) v &&
  match last_char v ≫= base64url_value with Some z => z mod 4 =? 0 | None => false end.

(** ** The connection *)

Inductive delivery_stage := Queued | DeliveredUnconfirmed | Retried.
Inductive delivery_outcome := WasDelivered | WasUnconfirmed | WasFailed.

#[export] Instance delivery_stage_eq_dec : EqDecision delivery_stage.
Proof. solve_decision. Defined.
#[export] Instance delivery_outcome_eq_dec : EqDecision delivery_outcome.
Proof. solve_decision. Defined.

(** [dl_resolved] is what its promise was resolved with; [dl_gated] says whether
    [isSourcePending] is given. *)
(* src/src/opencode-drone.ts 226-239 OpenCodeDelivery *)
Record delivery := Delivery {
  dl_sequence : Z;
  dl_entryId : string;
  dl_sourceEntryId : string;
  dl_text : string;
  dl_allowSubmit : bool;
  dl_accepted : bool;
  dl_sessionId : option string;
  dl_settled : bool;
  dl_gated : bool;
  dl_state : delivery_stage;
  dl_resolved : option bool
}.

(* src/src/opencode-drone.ts 241-244 OpenCodeDeliveryRecord *)
Record delivery_record := DeliveryRecord { dr_text : string; dr_source : string }.

(* src/src/opencode-drone.ts 246-250 PendingOpenCodeSubmission *)
Record pending_submission := PendingSubmission { ps_source : string; ps_session : string }.

(* src/src/opencode-drone.ts 174-182 OpenCodeLastObservation *)
Record last_observation := LastObservation {
  lo_injectionSequence : Z;
  lo_acceptedSequence : Z;
  lo_failureSequence : Z;
  lo_lastInjectionAt : option Z;
  lo_lastInjectionResult : option delivery_outcome;
  lo_lastAcceptedEntryId : option string;
  lo_lastFailureCode : option string
}.

(** What selects the connection, the same for its whole life. *)
(* src/src/opencode-drone.ts 191-198 ConnectDeps *)
Record connect_deps := ConnectDeps {
  cd_serverUrl : string;
  cd_apiPassword : string;
  cd_directory : string;
  cd_droneLabel : string;
  cd_cubeName : string;
  cd_launchIdentity : string
}.

(** The session the launch selected. *)
Record bound_session := BoundSession { bs_sessionId : string; bs_created : Z }.

(* src/src/opencode-drone.ts 149-172 OpenCodeDroneState *)
Record owner := Owner {
  o_deps : connect_deps;
  o_bound : option bound_session;
  o_known : list string;
  o_connected : bool;
  o_injected : Z;
  o_retried : Z;
  o_queue : list nat;
  o_active : list (string * nat);
  o_delivered : list (string * delivery_record);
  o_unconfirmed : list (string * delivery_record);
  o_failed : list (string * delivery_record);
  o_pending : list (string * pending_submission);
  o_reconciling : list string;
  o_processing : bool;
  o_nextSequence : Z;
  o_last : last_observation
}.

Definition fresh_observation : last_observation := LastObservation 0 0 0 None None None None.
Definition fresh_owner (d : connect_deps) : owner :=
  Owner d None [] true 0 0 [] [] [] [] [] [] [] false 0 fresh_observation.

(** Writing one field. *)
Definition set_bound (b : option bound_session) (known : list string) (o : owner) : owner :=
  Owner (o_deps o) b known (o_connected o) (o_injected o) (o_retried o) (o_queue o) (o_active o) (o_delivered o)
    (o_unconfirmed o) (o_failed o) (o_pending o) (o_reconciling o) (o_processing o) (o_nextSequence o) (o_last o).
Definition set_connected (b : bool) (o : owner) : owner :=
  Owner (o_deps o) (o_bound o) (o_known o) b (o_injected o) (o_retried o) (o_queue o) (o_active o) (o_delivered o)
    (o_unconfirmed o) (o_failed o) (o_pending o) (o_reconciling o) (o_processing o) (o_nextSequence o) (o_last o).
Definition set_counts (injected retried : Z) (o : owner) : owner :=
  Owner (o_deps o) (o_bound o) (o_known o) (o_connected o) injected retried (o_queue o) (o_active o) (o_delivered o)
    (o_unconfirmed o) (o_failed o) (o_pending o) (o_reconciling o) (o_processing o) (o_nextSequence o) (o_last o).
Definition set_queue (q : list nat) (o : owner) : owner :=
  Owner (o_deps o) (o_bound o) (o_known o) (o_connected o) (o_injected o) (o_retried o) q (o_active o) (o_delivered o)
    (o_unconfirmed o) (o_failed o) (o_pending o) (o_reconciling o) (o_processing o) (o_nextSequence o) (o_last o).
Definition set_active (a : list (string * nat)) (o : owner) : owner :=
  Owner (o_deps o) (o_bound o) (o_known o) (o_connected o) (o_injected o) (o_retried o) (o_queue o) a (o_delivered o)
    (o_unconfirmed o) (o_failed o) (o_pending o) (o_reconciling o) (o_processing o) (o_nextSequence o) (o_last o).
Definition set_histories (delivered unconfirmed failed : list (string * delivery_record)) (o : owner) : owner :=
  Owner (o_deps o) (o_bound o) (o_known o) (o_connected o) (o_injected o) (o_retried o) (o_queue o) (o_active o) delivered
    unconfirmed failed (o_pending o) (o_reconciling o) (o_processing o) (o_nextSequence o) (o_last o).
Definition set_pending (p : list (string * pending_submission)) (o : owner) : owner :=
  Owner (o_deps o) (o_bound o) (o_known o) (o_connected o) (o_injected o) (o_retried o) (o_queue o) (o_active o) (o_delivered o)
    (o_unconfirmed o) (o_failed o) p (o_reconciling o) (o_processing o) (o_nextSequence o) (o_last o).
Definition set_reconciling (l : list string) (o : owner) : owner :=
  Owner (o_deps o) (o_bound o) (o_known o) (o_connected o) (o_injected o) (o_retried o) (o_queue o) (o_active o) (o_delivered o)
    (o_unconfirmed o) (o_failed o) (o_pending o) l (o_processing o) (o_nextSequence o) (o_last o).
Definition set_processing (b : bool) (o : owner) : owner :=
  Owner (o_deps o) (o_bound o) (o_known o) (o_connected o) (o_injected o) (o_retried o) (o_queue o) (o_active o) (o_delivered o)
    (o_unconfirmed o) (o_failed o) (o_pending o) (o_reconciling o) b (o_nextSequence o) (o_last o).
Definition set_sequence (n : Z) (o : owner) : owner :=
  Owner (o_deps o) (o_bound o) (o_known o) (o_connected o) (o_injected o) (o_retried o) (o_queue o) (o_active o) (o_delivered o)
    (o_unconfirmed o) (o_failed o) (o_pending o) (o_reconciling o) (o_processing o) n (o_last o).
Definition set_last (l : last_observation) (o : owner) : owner :=
  Owner (o_deps o) (o_bound o) (o_known o) (o_connected o) (o_injected o) (o_retried o) (o_queue o) (o_active o) (o_delivered o)
    (o_unconfirmed o) (o_failed o) (o_pending o) (o_reconciling o) (o_processing o) (o_nextSequence o) l.

Definition set_unconfirmed (l : list (string * delivery_record)) (o : owner) : owner := set_histories (o_delivered o) l (o_failed o) o.
Definition set_failed (l : list (string * delivery_record)) (o : owner) : owner := set_histories (o_delivered o) (o_unconfirmed o) l o.
Definition set_delivered (l : list (string * delivery_record)) (o : owner) : owner := set_histories l (o_unconfirmed o) (o_failed o) o.

Definition dl_with (accepted : bool) (sessionId : option string) (settled : bool) (st : delivery_stage) (resolved : option bool)
    (d : delivery) : delivery :=
  Delivery (dl_sequence d) (dl_entryId d) (dl_sourceEntryId d) (dl_text d) (dl_allowSubmit d) accepted sessionId settled
    (dl_gated d) st resolved.
Definition dl_set_state (st : delivery_stage) (d : delivery) : delivery :=
  dl_with (dl_accepted d) (dl_sessionId d) (dl_settled d) st (dl_resolved d) d.
Definition dl_set_session (s : option string) (d : delivery) : delivery :=
  dl_with (dl_accepted d) s (dl_settled d) (dl_state d) (dl_resolved d) d.
Definition dl_set_accepted (d : delivery) : delivery :=
  dl_with true (dl_sessionId d) (dl_settled d) (dl_state d) (dl_resolved d) d.
Definition dl_set_settled (d : delivery) : delivery :=
  dl_with (dl_accepted d) (dl_sessionId d) true (dl_state d) (dl_resolved d) d.
(** A promise keeps its first value. *)
Definition dl_resolve (b : bool) (d : delivery) : delivery :=
  dl_with (dl_accepted d) (dl_sessionId d) (dl_settled d) (dl_state d)
    (match dl_resolved d with Some x => Some x | None => Some b end) d.

(** ** The world *)

Inductive oc_job := ProcessDeliveries (i : nat) | Reconcile (i d : nat) (sessionId : string).

#[export] Instance oc_job_eq_dec : EqDecision oc_job.
Proof. solve_decision. Defined.

Inductive oc_event :=
| Submitted (entryId sourceEntryId sessionId : string)
| Refused (entryId : string)
| Listed (messages : list oc_message)
| SourceSettled (sourceEntryId : string)
| Restored
| Connected.

(** The answers the file system will give: whether the n-th call on a file works. *)
Record oc_world := OcWorld {
  ow_state : option nat;
  ow_owners : list owner;
  ow_deliveries : list delivery;
  ow_files : gmap string content;
  ow_works : nat -> bool;
  ow_calls : nat;
  ow_jobs : list oc_job;
  ow_log : list oc_event
}.

Definition with_state (s : option nat) (w : oc_world) : oc_world :=
  OcWorld s (ow_owners w) (ow_deliveries w) (ow_files w) (ow_works w) (ow_calls w) (ow_jobs w) (ow_log w).
Definition with_owners (l : list owner) (w : oc_world) : oc_world :=
  OcWorld (ow_state w) l (ow_deliveries w) (ow_files w) (ow_works w) (ow_calls w) (ow_jobs w) (ow_log w).
Definition with_deliveries (l : list delivery) (w : oc_world) : oc_world :=
  OcWorld (ow_state w) (ow_owners w) l (ow_files w) (ow_works w) (ow_calls w) (ow_jobs w) (ow_log w).
Definition with_files (f : gmap string content) (w : oc_world) : oc_world :=
  OcWorld (ow_state w) (ow_owners w) (ow_deliveries w) f (ow_works w) (ow_calls w) (ow_jobs w) (ow_log w).
Definition called (w : oc_world) : oc_world :=
  OcWorld (ow_state w) (ow_owners w) (ow_deliveries w) (ow_files w) (ow_works w) (S (ow_calls w)) (ow_jobs w) (ow_log w).
Definition with_jobs (l : list oc_job) (w : oc_world) : oc_world :=
  OcWorld (ow_state w) (ow_owners w) (ow_deliveries w) (ow_files w) (ow_works w) (ow_calls w) l (ow_log w).
Definition logged (e : oc_event) (w : oc_world) : oc_world :=
  OcWorld (ow_state w) (ow_owners w) (ow_deliveries w) (ow_files w) (ow_works w) (ow_calls w) (ow_jobs w) (e :: ow_log w).

Definition on_owner (i : nat) (f : owner -> owner) (w : oc_world) : oc_world :=
  with_owners (alter f i (ow_owners w)) w.
Definition on_delivery (d : nat) (f : delivery -> delivery) (w : oc_world) : oc_world :=
  with_deliveries (alter f d (ow_deliveries w)) w.
Definition start (j : oc_job) (w : oc_world) : oc_world := with_jobs (ow_jobs w ++ [j]) w.

(** [state], with its index. *)
Definition current (w : oc_world) : option (nat * owner) :=
  i ← ow_state w; o ← ow_owners w !! i; Some (i, o).

(** [state === owner] *)
Definition is_current (i : nat) (w : oc_world) : bool := bool_decide (ow_state w = Some i).

(** [state === owner && owner.connected] *)
Definition usable (i : nat) (w : oc_world) : bool :=
  is_current i w && match ow_owners w !! i with Some o => o_connected o | None => false end.

Definition settled (d : nat) (w : oc_world) : bool :=
  match ow_deliveries w !! d with Some x => dl_settled x | None => false end.

(** ** Observations *)

(** A member given or left out. *)
Record observation_update := ObservationUpdate {
  ou_at : option (option Z);
  ou_result : option (option delivery_outcome);
  ou_accepted : option (option string);
  ou_failure : option (option string)
}.

(* src/src/opencode-drone.ts 994-1025 updateLastOpenCodeObservation *)
Definition updateLastOpenCodeObservation (sequence : Z) (u : observation_update) (o : owner) : owner :=
  let c := o_last o in
  let injection := (bool_decide (is_Some (ou_at u)) || bool_decide (is_Some (ou_result u))) && (lo_injectionSequence c <=? sequence) in
  let accepted := bool_decide (is_Some (ou_accepted u)) && (lo_acceptedSequence c <=? sequence) in
  let failure := bool_decide (is_Some (ou_failure u)) && (lo_failureSequence c <=? sequence) in
  set_last (LastObservation
    (if injection then sequence else lo_injectionSequence c)
    (if accepted then sequence else lo_acceptedSequence c)
    (if failure then sequence else lo_failureSequence c)
    (if injection then default (lo_lastInjectionAt c) (ou_at u) else lo_lastInjectionAt c)
    (if injection then default (lo_lastInjectionResult c) (ou_result u) else lo_lastInjectionResult c)
    (if accepted then default (lo_lastAcceptedEntryId c) (ou_accepted u) else lo_lastAcceptedEntryId c)
    (if failure then default (lo_lastFailureCode c) (ou_failure u) else lo_lastFailureCode c)) o.

(* src/src/opencode-drone.ts 1027-1035 recordOpenCodeFailure *)
Definition recordOpenCodeFailure (sequence : Z) (e : js_error) (o : owner) : owner :=
  updateLastOpenCodeObservation sequence (ObservationUpdate None None None (Some (Some (openCodeFailureCode e)))) o.

(* src/src/opencode-drone.ts 1037-1044 recordOpenCodeAcceptance *)
Definition recordOpenCodeAcceptance (d : delivery) (o : owner) : owner :=
  updateLastOpenCodeObservation (dl_sequence d) (ObservationUpdate None None (Some (Some (dl_entryId d))) None) o.

Definition OPEN_CODE_DELIVERY_HISTORY_LIMIT : nat := 256.

(* src/src/opencode-drone.ts 961-974 rememberBounded *)
Definition rememberBounded (entries : list (string * delivery_record)) (entryId text source : string) : list (string * delivery_record) :=
  let entries := drop_key entryId entries ++ [(entryId, DeliveryRecord text source)] in
  drop (length entries - OPEN_CODE_DELIVERY_HISTORY_LIMIT) entries.

(* src/src/opencode-drone.ts 312-320 abandonOpenCodeDeliveries *)
Definition abandonOpenCodeDeliveries (w : oc_world) : oc_world :=
  match current w with
  | None => w
  | Some (i, o) =>
      let w := foldl (fun w kv => on_delivery (snd kv) (dl_resolve false) w) w (o_active o) in
      on_owner i (fun o => set_queue [] (set_active [] (set_connected false o))) w
  end.

(** ** The binding file *)

(** Of [pendingSubmissions] what [restoreBinding] keeps; [sb_rest] are the members
    that are copied and not looked at, the server's address among them. *)
(* src/src/opencode-drone.ts 264-279 SessionBinding *)
Record session_binding := SessionBinding {
  sb_session : bound_session;
  sb_known : list string;
  sb_directory : string;
  sb_droneLabel : string;
  sb_cubeName : string;
  sb_launchIdentity : string;
  sb_pending : list (string * pending_submission);
  sb_rest : list (string * json)
}.

Definition binding_members : list string :=
  ["version"; "sessionId"; "sessionCreatedAt"; "knownRootSessionIds"; "directory"; "droneLabel"; "cubeName";
   "launchIdentity"; "pendingSubmissions"].

Definition pending_json (kv : string * pending_submission) : json :=
  JObj [("entryId", JStr (fst kv)); ("sourceEntryId", JStr (ps_source (snd kv))); ("sessionId", JStr (ps_session (snd kv)))].

Definition binding_content (b : session_binding) : content :=
  Json (JObj ([("version", JNum 5); ("sessionId", JStr (bs_sessionId (sb_session b)));
    ("sessionCreatedAt", JNum (bs_created (sb_session b))); ("knownRootSessionIds", JArr (map JStr (sb_known b)));
    ("directory", JStr (sb_directory b)); ("droneLabel", JStr (sb_droneLabel b)); ("cubeName", JStr (sb_cubeName b));
    ("launchIdentity", JStr (sb_launchIdentity b)); ("pendingSubmissions", JArr (map pending_json (sb_pending b)))] ++ sb_rest b)).

Definition pending_of (v : json) : option (string * pending_submission) :=
  e ← jget "entryId" v ≫= text_of;
  s ← jget "sourceEntryId" v ≫= text_of;
  t ← jget "sessionId" v ≫= text_of;
  Some (e, PendingSubmission s t).

Definition array_of {A} (f : json -> option A) (v : json) : option (list A) :=
  match v with JArr l => mapM f l | _ => None end.

Definition unclaimed (b : session_binding) : bool :=
  String.eqb (sb_droneLabel b) "opencode" && String.eqb (sb_cubeName b) "borg".
Definition of_seat (d : connect_deps) (b : session_binding) : bool :=
  String.eqb (sb_droneLabel b) (cd_droneLabel d) && String.eqb (sb_cubeName b) (cd_cubeName d).

(** The parsed file, if it matches the connection. *)
(* src/src/opencode-drone.ts 563-585 bindingMatchesState *)
Definition bindingMatchesState (d : connect_deps) (raw : content) : option session_binding :=
  v ← json_parse raw;
  version ← jget "version" v ≫= number_of;
  sessionId ← jget "sessionId" v ≫= text_of;
  created ← jget "sessionCreatedAt" v ≫= number_of;
  known ← jget "knownRootSessionIds" v ≫= array_of text_of;
  directory ← jget "directory" v ≫= text_of;
  droneLabel ← jget "droneLabel" v ≫= text_of;
  cubeName ← jget "cubeName" v ≫= text_of;
  launchIdentity ← jget "launchIdentity" v ≫= text_of;
  pending ← jget "pendingSubmissions" v ≫= array_of pending_of;
  rest ← fields_of v;
  let b := SessionBinding (BoundSession sessionId created) known directory droneLabel cubeName launchIdentity pending
    (List.filter (fun kv => negb (bool_decide (fst kv ∈ binding_members))) rest) in
  if (version =? 5) && String.eqb directory (cd_directory d) && String.eqb launchIdentity (cd_launchIdentity d) &&
     (of_seat d b || unclaimed b)
  then Some b else None.

Section Files.
Variable tmpdir : string.

(* src/src/opencode-drone.ts 551-557 bindingPath *)
Definition bindingPath (d : connect_deps) : string :=
  tmpdir +:+ "/borg-opencode-session-" +:+ string_take 24 (sha256_hex (cd_launchIdentity d)) +:+ ".json".

(* src/src/opencode-drone.ts 559-561 bindingClaimPath *)
Definition bindingClaimPath (d : connect_deps) : string := bindingPath d +:+ ".claim".

(** One call on a file, which works or not. *)
Definition works (w : oc_world) : bool * oc_world := (ow_works w (ow_calls w), called w).

Definition read_file (path : string) (w : oc_world) : option content * oc_world :=
  let '(ok, w) := works w in (if ok then ow_files w !! path else None, w).

(** The temporary file and the rename. *)
Definition replace_file (path : string) (c : content) (w : oc_world) : bool * oc_world :=
  let '(ok, w) := works w in (ok, if ok then with_files (<[path := c]> (ow_files w)) w else w).

Definition remove_file (path : string) (w : oc_world) : oc_world :=
  let '(ok, w) := works w in if ok then with_files (delete path (ow_files w)) w else w.

(* src/src/opencode-drone.ts 587-596 readBinding *)
Definition readBinding (w : oc_world) : option session_binding * oc_world :=
  match current w with
  | None => (None, w)
  | Some (_, o) =>
      let '(raw, w) := read_file (bindingPath (o_deps o)) w in
      (raw ≫= bindingMatchesState (o_deps o), w)
  end.

(* src/src/opencode-drone.ts 661-666 dropCachedBinding *)
Definition dropCachedBinding (w : oc_world) : oc_world :=
  match current w with None => w | Some (i, _) => on_owner i (set_bound None []) w end.

(* src/src/opencode-drone.ts 598-613 clearBinding *)
Definition clearBinding (w : oc_world) : oc_world :=
  match current w with
  | None => w
  | Some (i, o) =>
      let w := on_owner i (set_bound None []) w in
      if bool_decide (o_pending o = []) then remove_file (bindingPath (o_deps o)) w else w
  end.

(* src/src/opencode-drone.ts 615-630 writeBinding *)
Definition writeBinding (b : session_binding) (w : oc_world) : bool * oc_world :=
  match current w with
  | None => (false, w)
  | Some (i, o) =>
      let '(ok, w) := replace_file (bindingPath (o_deps o)) (binding_content b) w in
      (ok, if ok then on_owner i (set_bound (Some (sb_session b)) (sb_known b)) w else w)
  end.

(* src/src/opencode-drone.ts 281-286 SessionBindingClaim *)
Definition claim_content (d : connect_deps) : content :=
  Json (JObj [("version", JNum 1); ("directory", JStr (cd_directory d)); ("droneLabel", JStr (cd_droneLabel d));
    ("cubeName", JStr (cd_cubeName d))]).

Definition claim_matches (d : connect_deps) (raw : content) : bool :=
  match json_parse raw with
  | Some v => bool_decide (jget "version" v = Some (JNum 1)) && bool_decide (jget "directory" v = Some (JStr (cd_directory d))) &&
      bool_decide (jget "droneLabel" v = Some (JStr (cd_droneLabel d))) && bool_decide (jget "cubeName" v = Some (JStr (cd_cubeName d)))
  | None => false
  end.

(** The exclusive write; a claim that is there is compared. *)
(* src/src/opencode-drone.ts 632-659 claimPlaceholderBinding *)
Definition claimPlaceholderBinding (d : connect_deps) (w : oc_world) : bool * oc_world :=
  let path := bindingClaimPath d in
  let '(ok, w) := works w in
  if negb ok then (false, w)
  else
    match ow_files w !! path with
    | None => (true, with_files (<[path := claim_content d]> (ow_files w)) w)
    | Some _ =>
        let '(raw, w) := read_file path w in
        (match raw with Some raw => claim_matches d raw | None => false end, w)
    end.

Definition binding_of (o : owner) (s : bound_session) (known : list string) : session_binding :=
  let d := o_deps o in
  SessionBinding s known (cd_directory d) (cd_droneLabel d) (cd_cubeName d) (cd_launchIdentity d) (o_pending o)
    [("serverUrl", JStr (cd_serverUrl d))].

(** [None]: [state] is null and the code throws. *)
(* src/src/opencode-drone.ts 668-687 saveBinding *)
Definition saveBinding (session : oc_session) (known : list string) (w : oc_world) : option oc_world :=
  match current w with
  | None => None
  | Some (_, o) => Some (snd (writeBinding (binding_of o (BoundSession (os_id session) (os_created session)) known) w))
  end.

(** [if (!current?.sessionId)]: an empty id is none. *)
Definition bound_id (o : owner) : option bound_session :=
  b ← o_bound o; if String.eqb (bs_sessionId b) "" then None else Some b.

(* src/src/opencode-drone.ts 689-708 persistCurrentBinding *)
Definition persistCurrentBinding (w : oc_world) : bool * oc_world :=
  match current w with
  | None => (false, w)
  | Some (_, o) =>
      match bound_id o with
      | None => (false, w)
      | Some s => writeBinding (binding_of o s (o_known o)) w
      end
  end.

Definition adopt (i : nat) (b : session_binding) (w : oc_world) : oc_world :=
  logged Restored (on_owner i (fun o => set_pending (foldl (fun m kv => put (fst kv) (snd kv) m) [] (sb_pending b))
    (set_bound (Some (sb_session b)) (sb_known b) o)) w).

(** A placeholder is claimed for the resolved seat, rewritten and read again. *)
Definition claim_binding (d : connect_deps) (b : session_binding) (w : oc_world) : option session_binding * oc_world :=
  let '(claimed, w) := claimPlaceholderBinding d w in
  if negb claimed then (None, w)
  else
    let '(written, w) := writeBinding (SessionBinding (sb_session b) (sb_known b) (sb_directory b) (cd_droneLabel d) (cd_cubeName d)
      (sb_launchIdentity b) (sb_pending b) (sb_rest b)) w in
    if negb written then (None, w)
    else
      let '(again, w) := readBinding w in
      match again with
      | Some b' => if of_seat d b' then (Some b', w) else (None, dropCachedBinding w)
      | None => (None, dropCachedBinding w)
      end.

(* src/src/opencode-drone.ts 710-752 restoreBinding *)
Definition restoreBinding (w : oc_world) : option session_binding * oc_world :=
  match current w with
  | None => (None, w)
  | Some (i, o) =>
      match bound_id o with
      | Some _ =>
          let '(persisted, w) := readBinding w in
          match persisted with
          | Some b => if of_seat (o_deps o) b then (Some b, w) else (None, dropCachedBinding w)
          | None => (None, dropCachedBinding w)
          end
      | None =>
          let '(binding, w) := readBinding w in
          match binding with
          | None => (None, w)
          | Some b =>
              let '(final, w) := if unclaimed b then claim_binding (o_deps o) b w else (Some b, w) in
              match final with
              | None => (None, w)
              | Some b => (Some b, adopt i b w)
              end
          end
      end
  end.

(** ** The ledger of submissions *)

(* src/src/opencode-drone.ts 1046-1049 clearPendingSubmission *)
Definition clearPendingSubmission (i : nat) (entryId : string) (w : oc_world) : oc_world :=
  match ow_owners w !! i with
  | None => w
  | Some o =>
      match assoc entryId (o_pending o) with
      | None => w
      | Some _ =>
          let w := on_owner i (fun o => set_pending (drop_key entryId (o_pending o)) o) w in
          if is_current i w then snd (persistCurrentBinding w) else w
      end
  end.

(* src/src/opencode-drone.ts 1051-1072 confirmOpenCodeDelivery *)
Definition confirmOpenCodeDelivery (i : nat) (d : delivery) (w : oc_world) : oc_world :=
  match ow_owners w !! i with
  | None => w
  | Some o =>
      let entryId := dl_entryId d in
      if match assoc entryId (o_unconfirmed o) with Some r => negb (String.eqb (dr_text r) (dl_text d)) | None => false end then w
      else
        let w := on_owner i (fun o => set_failed (drop_key entryId (o_failed o)) (set_unconfirmed (drop_key entryId (o_unconfirmed o)) o)) w in
        let w := clearPendingSubmission i entryId w in
        on_owner i (fun o =>
          updateLastOpenCodeObservation (dl_sequence d)
            (ObservationUpdate None (Some (Some WasDelivered)) (Some (Some entryId)) (Some None))
            (set_counts (o_injected o + 1) (o_retried o)
              (set_delivered (rememberBounded (o_delivered o) entryId (dl_text d) (dl_sourceEntryId d)) o))) w
  end.

(** The job is started unless one runs for the entry. *)
(* src/src/opencode-drone.ts 1074-1080 scheduleOpenCodeReconciliation *)
Definition scheduleOpenCodeReconciliation (i d : nat) (w : oc_world) : oc_world :=
  match ow_owners w !! i, ow_deliveries w !! d with
  | Some o, Some x =>
      match dl_sessionId x with
      | Some s =>
          if String.eqb s "" || bool_decide (dl_entryId x ∈ o_reconciling o) then w
          else start (Reconcile i d s) (on_owner i (fun o => set_reconciling (o_reconciling o ++ [dl_entryId x]) o) w)
      | None => w
      end
  | _, _ => w
  end.

(** Per unconfirmed entry of the source: its record and its pending submission go. *)
Definition settle_unconfirmed (i : nat) (source : string) (o : owner) (w : oc_world) : bool * oc_world :=
  foldl (fun acc kv =>
    let '(changed, w) := acc in
    if negb (String.eqb (dr_source (snd kv)) source) then acc
    else (changed || match ow_owners w !! i with Some o => bool_decide (is_Some (assoc (fst kv) (o_pending o))) | None => false end,
          on_owner i (fun o => set_pending (drop_key (fst kv) (o_pending o)) (set_unconfirmed (drop_key (fst kv) (o_unconfirmed o)) o)) w))
    (false, w) (o_unconfirmed o).

Definition settle_active (i : nat) (source : string) (o : owner) (acc : bool * oc_world) : bool * oc_world :=
  foldl (fun acc kv =>
    let '(changed, w) := acc in
    match ow_deliveries w !! snd kv with
    | Some d =>
        if negb (String.eqb (dl_sourceEntryId d) source) then acc
        else (changed || match ow_owners w !! i with Some o => bool_decide (is_Some (assoc (dl_entryId d) (o_pending o))) | None => false end,
              on_owner i (fun o => set_pending (drop_key (dl_entryId d) (o_pending o)) o)
                (on_delivery (snd kv) (fun d => dl_resolve true (dl_set_settled d)) w))
    | None => acc
    end) acc (o_active o).

(* src/src/opencode-drone.ts 1537-1557 settleOpenCodeEntry *)
Definition settleOpenCodeEntry (source : string) (w : oc_world) : oc_world :=
  let w := logged (SourceSettled source) w in
  match current w with
  | None => w
  | Some (i, o) =>
      let '(changed, w) := settle_unconfirmed i source o w in
      let w := on_owner i (fun o => set_failed (List.filter (fun kv => negb (String.eqb (dr_source (snd kv)) source)) (o_failed o)) o) w in
      let '(changed, w) := settle_active i source o (changed, w) in
      if changed then snd (persistCurrentBinding w) else w
  end.

(** ** Operations

    [Fetch] is a request with its query parameter [directory], a [POST] when there
    is a body; [inl] is a request that failed, by the timeout if [true].
    [SourcePending d] is the callback [isSourcePending] of the delivery. *)

Inductive oc_op : Type -> Type :=
| Sync {A : Type} (f : oc_world -> A * oc_world) : oc_op A
| Fetch (server path directory : string) (body : option json) : oc_op (bool + Z * content)
| SourcePending (d : nat) : oc_op (js_error + bool)
| AwaitDelivery (d : nat) : oc_op bool
| Sleep (ms : Z) : oc_op unit
| NowMs : oc_op Z
| EnsureRoot : oc_op (js_error + unit).

Definition oc := prog oc_op.

Definition sync {A} (f : oc_world -> A * oc_world) : oc A := ask (Sync f).
Definition effect (f : oc_world -> oc_world) : oc unit := sync (fun w => (tt, f w)).
Definition look {A} (f : oc_world -> A) : oc A := sync (fun w => (f w, w)).

Definition map_ok {A B} (f : A -> B) (r : js_error + A) : js_error + B :=
  match r with inl e => inl e | inr a => inr (f a) end.

(** ** Requests *)

(** What [apiUrl] and [authenticatedHeaders] take from [state]. *)
(* src/src/opencode-drone.ts 370-384 apiUrl *)
Definition request_target (w : oc_world) : js_error + string * string :=
  match current w with
  | None => inl type_error
  | Some (_, o) =>
      if isOpenCode256BitIdentity (cd_apiPassword (o_deps o)) then inr (cd_serverUrl (o_deps o), cd_directory (o_deps o))
      else inl (OpenCodeAuthenticationError "OpenCode API password is missing or unverifiable")
  end.

(* src/src/opencode-drone.ts 408-431 rawPost *)
Definition send (target : string * string) (path : string) (body : option json) : oc (Z * content) :=
  let! r := ask (Fetch (fst target) path (snd target) body) in
  match r with
  | inr answer => Ret answer
  | inl true => Throw (OpenCodeUnreachableError "timeout" "OpenCode request timed out")
  | inl false => Throw (OpenCodeUnreachableError "transient" "OpenCode request failed")
  end.

(* src/src/opencode-drone.ts 388-406 rawGet *)
Definition rawGet (path : string) : oc (Z * content) :=
  let! target := perform (Sync (fun w => (request_target w, w))) in
  send target path None.

Definition decoded {A} (v : option A) : oc A := match v with Some x => Ret x | None => Throw incompatible end.

(* src/src/opencode-drone.ts 503-507 listSessions *)
Definition listSessions : oc (list oc_session) :=
  let! (status, body) := rawGet "/session" in
  if status =? 200 then decoded (decodeSessions body) else Throw (openCodeHttpError status "sessions").

(* src/src/opencode-drone.ts 509-514 getSession *)
Definition getSession (id : string) : oc (option oc_session) :=
  let! (status, body) := rawGet ("/session/" +:+ id) in
  if status =? 404 then Ret None
  else if status =? 200 then decoded (Some <$> (json_parse body ≫= decodeSession))
  else Throw (openCodeHttpError status "session").

(* src/src/opencode-drone.ts 516-520 listSessionMessages *)
Definition listSessionMessages (id : string) : oc (list oc_message) :=
  let! (status, body) := rawGet ("/session/" +:+ id +:+ "/message") in
  if status =? 200 then decoded (decodeMessages body) else Throw (openCodeHttpError status "session messages").

(** The id of the message, with the list it was found in for the log. *)
(* src/src/opencode-drone.ts 522-540 findInjectedMessage *)
Definition findInjectedMessage (sessionId identity : string) : oc (option (string * list oc_message)) :=
  let! messages := listSessionMessages sessionId in
  Ret ((fun id => (id, messages)) <$> find_injected identity messages).

(** [if (await findInjectedMessage(...))]: an empty id does not count. *)
Definition truthy (r : option (string * list oc_message)) : option (list oc_message) :=
  '(id, messages) ← r; if String.eqb id "" then None else Some messages.

(** ** Selecting the session *)

(* src/src/opencode-drone.ts 754-756 isBoundSession *)
Definition isBoundSession (s : oc_session) (b : session_binding) : bool :=
  String.eqb (os_id s) (bs_sessionId (sb_session b)) && String.eqb (os_directory s) (sb_directory b).

(* src/src/opencode-drone.ts 758-760 isTopLevelSession *)
Definition isTopLevelSession (s : oc_session) : bool :=
  match os_parentID s with Some p => String.eqb p "" | None => true end.

Definition newest (sessions : list oc_session) : option oc_session :=
  match sessions with
  | [] => None
  | s :: rest => Some (foldl (fun a b => if os_created b <? os_created a then a else b) s rest)
  end.

Definition unseen_root (known : list string) (directory : string) (sessions : list oc_session) : option (oc_session * list string) :=
  let roots := List.filter (fun s => String.eqb (os_directory s) directory && isTopLevelSession s) sessions in
  best ← newest (List.filter (fun s => negb (bool_decide (os_id s ∈ known))) roots);
  Some (best, map os_id roots).

(* src/src/opencode-drone.ts 762-777 findUnseenTopLevelSession *)
Definition findUnseenTopLevelSession (known : list string) (directory : string) : oc (option (oc_session * list string)) :=
  let! sessions := listSessions in
  Ret (unseen_root known directory sessions).

Definition next_sequence (i : nat) (w : oc_world) : Z * oc_world :=
  match ow_owners w !! i with
  | None => (0, w)
  | Some o => (o_nextSequence o + 1, on_owner i (set_sequence (o_nextSequence o + 1)) w)
  end.

Definition failure (i : nat) (sequence : Z) (e : js_error) (w : oc_world) : oc_world :=
  on_owner i (recordOpenCodeFailure sequence e) w.

(** If [owner] is still [state], the session is written down. *)
Definition save_found (i : nat) (found : option (oc_session * list string)) (w : oc_world) : (js_error + option oc_session) * oc_world :=
  if negb (is_current i w) then (inr None, w)
  else match found with
       | None => (inr None, w)
       | Some (s, known) =>
           match saveBinding s known w with
           | None => (inl type_error, w)
           | Some w => (inr (Some s), w)
           end
       end.

(** [None]: [owner] is not [state] any more; else whether the bound session is the
    one of the binding, which is cleared if not. *)
Definition check_bound (i : nat) (bound : option oc_session) (b : session_binding) (w : oc_world) : option bool * oc_world :=
  if negb (is_current i w) then (None, w)
  else match bound with
       | Some s => if isBoundSession s b then (Some true, w) else (Some false, clearBinding w)
       | None => (Some false, clearBinding w)
       end.

(* src/src/opencode-drone.ts 925-959 resolveInjectionSession *)
Definition resolveInjectionSession (i : nat) (directory : string) (sequence : Z) : oc (option oc_session) :=
  let! binding := sync (fun w => if is_current i w then restoreBinding w else (None, w)) in
  match binding with
  | None => Ret None
  | Some b =>
      let! bound := getSession (bs_sessionId (sb_session b)) in
      let! kept := sync (check_bound i bound b) in
      match kept with
      | None => Ret None
      | Some false =>
          let! replacement := findUnseenTopLevelSession (sb_known b) directory in
          perform (Sync (save_found i replacement))
      | Some true =>
          let! switched := attempt (findUnseenTopLevelSession (sb_known b) directory) in
          let! saved := perform (Sync (fun w =>
            match switched with
            | inl e => (inr None, failure i sequence e w)
            | inr found => save_found i found w
            end)) in
          let! same := look (is_current i) in
          Ret (if negb same then None else match saved with Some s => Some s | None => bound end)
      end
  end.

(** ** One delivery *)

(* src/src/opencode-drone.ts 255-255 OPEN_CODE_DELIVERY_RETRY_DELAYS_MS *)
Definition OPEN_CODE_DELIVERY_RETRY_DELAYS_MS : list Z := [0; 250; 1000; 3000].
Definition OPEN_CODE_RECONCILIATION_DELAY_MS : Z := 3000.
Definition OPEN_CODE_RECONCILIATION_ATTEMPTS : nat := 20.

Definition retried (i d : nat) (w : oc_world) : oc_world :=
  on_owner i (fun o => set_counts (o_injected o) (o_retried o + 1) o) (on_delivery d (dl_set_state Retried) w).

(** [delivery.settled], then [state !== owner || !owner.connected]. *)
Definition interrupted (i d : nat) (otherwise : delivery_outcome) (w : oc_world) : option delivery_outcome :=
  if settled d w then Some WasDelivered else if usable i w then None else Some otherwise.

Definition prompt_body (x : delivery) : json :=
  JObj [("parts", JArr [JObj [("type", JStr "text"); ("text", JStr (dl_text x));
    ("metadata", JObj [(OPENCODE_INJECTED_ENTRY_METADATA_KEY, JBool true);
                       (OPENCODE_WAKE_IDENTITY_METADATA_KEY, JStr (dl_entryId x))])]])].

(** The submission is written down and, if that worked, the request is sent:
    nothing is awaited in between.  [None]: it was not written down. *)
(* src/src/opencode-drone.ts 1192-1206 deliverOpenCodeEntry *)
Definition submit (i : nat) (x : delivery) (target : string) (w : oc_world) : option (js_error + string * string) * oc_world :=
  let w := on_owner i (fun o => set_pending (put (dl_entryId x) (PendingSubmission (dl_sourceEntryId x) target) (o_pending o)) o) w in
  let '(durable, w) := persistCurrentBinding w in
  if negb durable then (None, on_owner i (fun o => set_pending (drop_key (dl_entryId x) (o_pending o)) o) w)
  else
    match request_target w with
    | inl e => (Some (inl e), w)
    | inr to => (Some (inr to), logged (Submitted (dl_entryId x) (dl_sourceEntryId x) target) w)
    end.

(** What the answer to the submission leads to; the delivery goes on when [None]. *)
(* src/src/opencode-drone.ts 1216-1229 deliverOpenCodeEntry *)
Definition submitted (i d : nat) (x : delivery) (answer : js_error + Z) (w : oc_world) : option delivery_outcome * oc_world :=
  let w := match answer with inl e => failure i (dl_sequence x) e w | inr _ => w end in
  let w := on_delivery d (dl_set_state DeliveredUnconfirmed) w in
  match answer with
  | inl _ => (None, on_delivery d dl_set_accepted w)
  | inr status =>
      if (status =? 200) || (status =? 204)
      then (None, on_owner i (recordOpenCodeAcceptance x) (on_delivery d dl_set_accepted w))
      else
        let w := logged (Refused (dl_entryId x)) (failure i (dl_sequence x) (openCodeHttpError status "prompt") w) in
        let w := clearPendingSubmission i (dl_entryId x) w in
        (Some WasFailed, if status =? 404 then clearBinding w else w)
  end.

(** The entry was found in the session. *)
Definition found_in (i : nat) (x : delivery) (messages : list oc_message) (w : oc_world) : oc_world :=
  clearPendingSubmission i (dl_entryId x) (logged (Listed messages) w).

(* src/src/opencode-drone.ts 542-545 promptSession *)
Definition promptSession (target : string * string) (id : string) (body : json) : oc Z :=
  let! (status, _) := send target ("/session/" +:+ id +:+ "/prompt_async") (Some body) in
  Ret status.

Section Deliver.
Variables (i d : nat) (x : delivery).
Local Abbreviation entryId := (dl_entryId x).
Local Abbreviation failed := (failure i (dl_sequence x)).

(* src/src/opencode-drone.ts 1119-1125 sourcePending *)
Definition sourcePending : oc bool :=
  if negb (dl_gated x) then Ret true
  else
    let! pending := perform (SourcePending d) in
    if (pending : bool) then Ret true
    else
      do! effect (fun w => settleOpenCodeEntry (dl_sourceEntryId x) (on_delivery d dl_set_settled w));
      Ret false.

(** The entry, or the source it is another wake for. *)
(* src/src/opencode-drone.ts 1165-1169 deliverOpenCodeEntry *)
Definition find_delivered (sessionId : string) : oc (option (string * list oc_message)) :=
  let! own := findInjectedMessage sessionId entryId in
  match own with
  | Some _ => Ret own
  | None => if String.eqb (dl_sourceEntryId x) entryId then Ret None else findInjectedMessage sessionId (dl_sourceEntryId x)
  end.

(* src/src/opencode-drone.ts 1232-1256 deliverOpenCodeEntry *)
Fixpoint confirming (sessionId : string) (delays : list (bool * Z)) : oc delivery_outcome :=
  match delays with
  | [] => Ret WasUnconfirmed
  | (first, delay) :: rest =>
      let! stop :=
        (if (first : bool) then Ret None
         else
           do! effect (retried i d);
           do! ask (Sleep delay);
           sync (fun w =>
             match interrupted i d WasUnconfirmed w with
             | Some o => (Some o, w)
             | None => (None, on_delivery d (dl_set_state DeliveredUnconfirmed) w)
             end)) in
      match stop with
      | Some o => Ret o
      | None =>
          let! found := attempt (findInjectedMessage sessionId entryId) in
          match map_ok truthy found with
          | inr (Some messages) => do! effect (found_in i x messages); Ret WasDelivered
          | inr None => confirming sessionId rest
          | inl e => do! effect (failed e); confirming sessionId rest
          end
      end
  end.

Definition rounds : list (bool * Z) := zip [true; false; false; false] OPEN_CODE_DELIVERY_RETRY_DELAYS_MS.

(** From the second look at the source to the answer of the server. *)
(* src/src/opencode-drone.ts 1190-1230 deliverOpenCodeEntry *)
Definition submitting (target : string) : oc delivery_outcome :=
  let! was_settled := look (settled d) in
  if (was_settled : bool) then Ret WasDelivered
  else
    let! pending := sourcePending in
    if negb pending then Ret WasDelivered
    else
      let! sent := sync (submit i x target) in
      match sent with
      | None => Ret WasFailed
      | Some request =>
          let! answer := attempt (match request with
            | inl e => Throw e
            | inr to => promptSession to target (prompt_body x)
            end) in
          let! stop := sync (submitted i d x answer) in
          match stop with Some o => Ret o | None => confirming target rounds end
      end.

(** The target, kept over the attempts once it is known. *)
(* src/src/opencode-drone.ts 1144-1151 deliverOpenCodeEntry *)
Definition targeting (directory : string) (target : option oc_session) : oc (js_error + option oc_session) :=
  match target with
  | Some t => Ret (inr (Some t))
  | None => attempt (resolveInjectionSession i directory (dl_sequence x))
  end.

(** The submission that is pending; the delivery looks into its session, or into
    the target's. *)
(* src/src/opencode-drone.ts 1160-1162 deliverOpenCodeEntry *)
Definition marked (target : string) (w : oc_world) : option pending_submission * oc_world :=
  let pending := match ow_owners w !! i with Some o => assoc entryId (o_pending o) | None => None end in
  let sessionId := match pending with Some p => ps_session p | None => target end in
  (pending, on_delivery d (dl_set_session (Some sessionId)) w).

(* src/src/opencode-drone.ts 1113-1263 deliverOpenCodeEntry *)
Fixpoint delivering (directory : string) (delays : list (bool * Z)) (target : option oc_session) : oc delivery_outcome :=
  match delays with
  | [] => Ret (if dl_allowSubmit x then WasFailed else WasUnconfirmed)
  | (first, delay) :: rest =>
      let! stop := look (interrupted i d WasFailed) in
      match stop with
      | Some o => Ret o
      | None =>
          let! pending := sourcePending in
          if negb pending then Ret WasDelivered
          else
            let! stop :=
              (if (first : bool) then Ret None
               else do! effect (retried i d); do! ask (Sleep delay); look (interrupted i d WasFailed)) in
            match stop with
            | Some o => Ret o
            | None =>
                let! t := targeting directory target in
                match t with
                | inl e => do! effect (failed e); delivering directory rest None
                | inr None => do! effect (failed (openCodeHttpError 404 "session")); Ret WasFailed
                | inr (Some t) =>
                    let! submission := sync (marked (os_id t)) in
                    let sessionId := match submission with Some p => ps_session p | None => os_id t end in
                    let! found := attempt (find_delivered sessionId) in
                    match map_ok truthy found with
                    | inr (Some messages) => do! effect (found_in i x messages); Ret WasDelivered
                    | inl e => do! effect (failed e); delivering directory rest (Some t)
                    | inr None =>
                        match submission with
                        | Some _ =>
                            do! effect (on_delivery d (fun x => dl_set_state DeliveredUnconfirmed (dl_set_accepted x)));
                            confirming sessionId rounds
                        | None =>
                            if negb (dl_allowSubmit x) then delivering directory rest (Some t)
                            else submitting (os_id t)
                        end
                    end
                end
            end
      end
  end.

Definition deliverOpenCodeEntry (directory : string) : oc delivery_outcome := delivering directory rounds None.
End Deliver.
End Files.
