(* ===== verification/OpenCodeApi.v ===== *)
(** * The queue of wakes and what other modules call ([opencode-drone.ts])

    The loop over the queue, the reconciliation of accepted submissions, the
    capture of the session at a launch, and the exported functions. *)

From S2P Require Import Prelude JsDate Assoc Effects LeaseFs OpenCode.

Open Scope Z_scope.
Open Scope prog_scope.

Section Files.
Variable tmpdir : string.

(** ** The queue *)

(** The next delivery, noted as begun at [now]; or the loop is over. *)
(* src/src/opencode-drone.ts 1269-1275 processOpenCodeDeliveries *)
Definition next_delivery (i : nat) (now : Z) (w : oc_world) : option (nat * delivery * string) * oc_world :=
  let stop := (None, on_owner i (set_processing false) w) in
  match ow_owners w !! i with
  | None => stop
  | Some o =>
      match (if is_current i w then o_queue o else []) with
      | [] => stop
      | d :: rest =>
          match ow_deliveries w !! d with
          | None => stop
          | Some x =>
              (Some (d, x, cd_directory (o_deps o)),
               on_owner i (fun o => updateLastOpenCodeObservation (dl_sequence x)
                 (ObservationUpdate (Some (Some now)) (Some None) None (Some None)) (set_queue rest o)) w)
          end
      end
  end.

Definition outcome_observation (outcome : delivery_outcome) (o : owner) : observation_update :=
  ObservationUpdate None (Some (Some outcome)) None
    (Some (match outcome with
     | WasDelivered => None
     | WasFailed => Some (default "unknown" (lo_lastFailureCode (o_last o)))
     | WasUnconfirmed => lo_lastFailureCode (o_last o)
     end)).

(** What the outcome does to the histories; a thrown error counts as a failure. *)
(* src/src/opencode-drone.ts 1276-1317 processOpenCodeDeliveries *)
Definition conclude (i d : nat) (x : delivery) (result : js_error + delivery_outcome) (w : oc_world) : oc_world :=
  let w := match result with inl e => failure i (dl_sequence x) e w | inr _ => w end in
  let outcome := match result with inl _ => WasFailed | inr outcome => outcome end in
  let entryId := dl_entryId x in
  let w := on_owner i (fun o => updateLastOpenCodeObservation (dl_sequence x) (outcome_observation outcome o) o) w in
  let w := on_owner i (fun o => set_active (drop_key entryId (o_active o)) o) w in
  if settled d w then on_delivery d (dl_resolve true) w
  else
    match outcome with
    | WasDelivered => on_delivery d (dl_resolve true) (confirmOpenCodeDelivery tmpdir i x w)
    | WasUnconfirmed =>
        let w := on_owner i (fun o =>
          set_unconfirmed (rememberBounded (o_unconfirmed o) entryId (dl_text x) (dl_sourceEntryId x))
            (set_failed (drop_key entryId (o_failed o)) o)) w in
        let accepted := match ow_deliveries w !! d with Some x => dl_accepted x | None => false end in
        let w := on_delivery d (dl_resolve accepted) w in
        if accepted then scheduleOpenCodeReconciliation i d w else w
    | WasFailed =>
        on_delivery d (dl_resolve false) (on_owner i (fun o =>
          set_failed (rememberBounded (o_failed o) entryId (dl_text x) (dl_sourceEntryId x))
            (set_unconfirmed (drop_key entryId (o_unconfirmed o)) o)) w)
    end.

(** The fuel bounds the deliveries one run of the loop takes. *)
(* src/src/opencode-drone.ts 1265-1322 processOpenCodeDeliveries *)
Fixpoint processOpenCodeDeliveries (fuel : nat) (i : nat) : oc unit :=
  match fuel with
  | O => Ret tt
  | S fuel =>
      let! now := ask NowMs in
      let! next := sync (next_delivery i now) in
      match next with
      | None => Ret tt
      | Some (d, x, directory) =>
          let! result := attempt (deliverOpenCodeEntry tmpdir i d x directory) in
          do! effect (conclude i d x result);
          processOpenCodeDeliveries fuel i
      end
  end.

(** ** Reconciliation *)

(** Whether the entry is still unconfirmed; one more retry if so. *)
Definition still_unconfirmed (i d : nat) (x : delivery) (w : oc_world) : bool * oc_world :=
  if negb (usable i w) || settled d w then (false, w)
  else
    match ow_owners w !! i ≫= fun o => assoc (dl_entryId x) (o_unconfirmed o) with
    | Some r =>
        if String.eqb (dr_text r) (dl_text x)
        then (true, on_owner i (fun o => set_counts (o_injected o) (o_retried o + 1) o) w)
        else (false, w)
    | None => (false, w)
    end.

(* src/src/opencode-drone.ts 1083-1101 scheduleOpenCodeReconciliation *)
Fixpoint reconciling (n : nat) (i d : nat) (x : delivery) (sessionId : string) : oc unit :=
  match n with
  | O => Ret tt
  | S n =>
      do! ask (Sleep OPEN_CODE_RECONCILIATION_DELAY_MS);
      let! going := sync (still_unconfirmed i d x) in
      if negb going then Ret tt
      else
        let! found := attempt (findInjectedMessage sessionId (dl_entryId x)) in
        match map_ok truthy found with
        | inr (Some messages) =>
            effect (fun w => if settled d w then w else confirmOpenCodeDelivery tmpdir i x (logged (Listed messages) w))
        | inr None => reconciling n i d x sessionId
        | inl e => do! effect (failure i (dl_sequence x) e); reconciling n i d x sessionId
        end
  end.

(* src/src/opencode-drone.ts 1081-1104 scheduleOpenCodeReconciliation *)
Definition reconcile (i d : nat) (sessionId : string) : oc unit :=
  let! x := look (fun w => ow_deliveries w !! d) in
  match x with
  | None => Ret tt
  | Some x =>
      pfinally (reconciling OPEN_CODE_RECONCILIATION_ATTEMPTS i d x sessionId)
        (effect (on_owner i (fun o => set_reconciling (List.filter (fun e => negb (String.eqb (dl_entryId x) e)) (o_reconciling o)) o)))
  end.

(** What runs on its own once it was started. *)
Definition job_program (fuel : nat) (j : oc_job) : oc unit :=
  match j with
  | ProcessDeliveries i => processOpenCodeDeliveries fuel i
  | Reconcile i d sessionId => reconcile i d sessionId
  end.

(** ** Injecting an entry *)

Inductive injected := Answer (b : bool) | Join (d : nat).

Definition other_source {A} (source_of : A -> string) (entryId source : string) (l : list (string * A)) : option (string * A) :=
  List.find (fun kv => negb (String.eqb (fst kv) entryId) && String.eqb (source_of (snd kv)) source) l.

Definition active_delivery (w : oc_world) (kv : string * nat) : option (nat * delivery) :=
  x ← ow_deliveries w !! snd kv; Some (snd kv, x).

(** Another wake for the same source that was delivered, is unconfirmed or is being
    delivered. *)
(* src/src/opencode-drone.ts 1437-1457 injectOpenCodeEntry *)
Definition known_source (o : owner) (text entryId source : string) (w : oc_world) : option injected :=
  match other_source dr_source entryId source (o_delivered o) with
  | Some (_, r) => Some (Answer (String.eqb (dr_text r) text))
  | None =>
      match other_source dr_source entryId source (o_unconfirmed o) with
      | Some (_, r) => Some (Answer (String.eqb (dr_text r) text))
      | None =>
          match List.find (fun dx => negb (String.eqb (dl_entryId (snd dx)) entryId) && String.eqb (dl_sourceEntryId (snd dx)) source)
                  (omap (active_delivery w) (o_active o)) with
          | Some (d, x) => Some (if String.eqb (dl_text x) text then Join d else Answer false)
          | None => None
          end
      end
  end.

Definition same_entry (r : delivery_record) (text source : string) : bool :=
  String.eqb (dr_text r) text && String.eqb (dr_source r) source.

Definition mismatch (i : nat) (entryId text source : string) (w : oc_world) : injected * oc_world :=
  (Answer false, on_owner i (fun o => set_failed (rememberBounded (o_failed o) entryId text source) o) w).

Definition add_delivery (i : nat) (entryId source text : string) (allowSubmit accepted : bool) (sessionId : option string)
    (gated : bool) (st : delivery_stage) (resolved : option bool) (w : oc_world) : nat * oc_world :=
  let '(sequence, w) := next_sequence i w in
  (length (ow_deliveries w),
   with_deliveries (ow_deliveries w ++ [Delivery sequence entryId source text allowSubmit accepted sessionId false gated st resolved]) w).

(** The loop over the queue starts unless it runs. *)
Definition enqueue (i d : nat) (entryId : string) (w : oc_world) : oc_world :=
  let w := on_owner i (fun o =>
    set_queue (o_queue o ++ [d]) (set_active (put entryId d (o_active o))
      (set_failed (drop_key entryId (o_failed o)) (set_unconfirmed (drop_key entryId (o_unconfirmed o)) o)))) w in
  match ow_owners w !! i with
  | Some o => if o_processing o then w else start (ProcessDeliveries i) (on_owner i (set_processing true) w)
  | None => w
  end.

(** The entry itself. *)
(* src/src/opencode-drone.ts 1459-1532 injectOpenCodeEntry *)
Definition inject_new (i : nat) (o : owner) (text entryId : string) (allowSubmit : bool) (source : string) (gated : bool)
    (w : oc_world) : injected * oc_world :=
  match assoc entryId (o_delivered o) with
  | Some r => if same_entry r text source then (Answer true, w) else mismatch i entryId text source w
  | None =>
      match assoc entryId (o_unconfirmed o) with
      | Some r =>
          if negb (same_entry r text source) then mismatch i entryId text source w
          else
            match assoc entryId (o_pending o) with
            | None => (Answer false, w)
            | Some p =>
                let '(d, w) := add_delivery i entryId source text false true (Some (ps_session p)) false DeliveredUnconfirmed (Some true) w in
                (Answer true, scheduleOpenCodeReconciliation i d w)
            end
      | None =>
          match assoc entryId (o_active o) with
          | Some d =>
              match ow_deliveries w !! d with
              | Some x =>
                  if String.eqb (dl_text x) text && String.eqb (dl_sourceEntryId x) source then (Join d, w)
                  else mismatch i entryId text source w
              | None => (Join d, w)
              end
          | None =>
              let '(d, w) := add_delivery i entryId source text allowSubmit false None gated Queued None w in
              (Join d, enqueue i d entryId w)
          end
      end
  end.

(** [stack] is the depth the engine throws a [RangeError] at: a pending submission of
    the same source is injected instead, and so on. *)
(* src/src/opencode-drone.ts 1418-1436 injectOpenCodeEntry *)
Fixpoint inject (stack : nat) (text entryId : string) (allowSubmit : bool) (source : string) (gated : bool)
    (w : oc_world) : (js_error + injected) * oc_world :=
  match stack with
  | O => (inl range_error, w)
  | S stack =>
      match current w with
      | None => (inr (Answer false), w)
      | Some (i, o) =>
          if negb (o_connected o) then (inr (Answer false), w)
          else
            let w := snd (restoreBinding tmpdir w) in
            match ow_owners w !! i with
            | None => (inr (Answer false), w)
            | Some o =>
                match other_source ps_source entryId source (o_pending o) with
                | Some (pendingId, _) => inject stack text pendingId false source gated w
                | None =>
                    match known_source o text entryId source w with
                    | Some known => (inr known, w)
                    | None => let '(r, w) := inject_new i o text entryId allowSubmit source gated w in (inr r, w)
                    end
                end
            end
      end
  end.

(** The promise of a delivery is awaited. *)
(* src/src/opencode-drone.ts 1411-1533 injectOpenCodeEntry *)
Definition injectOpenCodeEntry (stack : nat) (text entryId : string) (allowSubmit : bool) (source : string) (gated : bool) : oc bool :=
  let! r := perform (Sync (inject stack text entryId allowSubmit source gated)) in
  match r with Answer b => Ret b | Join d => ask (AwaitDelivery d) end.

(** ** The session of a launch *)

Inductive launch_search :=
| Found (session : oc_session) (knownRootSessionIds : list string)
| Superseded
| ListFailed (failureCode : string)
| DirectoryMiss (listedCount : nat)
| MessageListFailed (listedCount directoryCount : nat) (failureCode : string)
| CorrelationMismatch (listedCount directoryCount matchCount : nat).

(** One list of messages after the other: nothing depends on their order, but which
    of several errors is reported. *)
Fixpoint match_counts (correlationIdentity : string) (sessions : list oc_session) : oc (list (oc_session * nat)) :=
  match sessions with
  | [] => Ret []
  | s :: rest =>
      let! messages := listSessionMessages (os_id s) in
      let! counts := match_counts correlationIdentity rest in
      Ret ((s, launchCorrelationMatchCount messages correlationIdentity) :: counts)
  end.

Definition note_failure (i : nat) (sequence : Z) (e : js_error) (w : oc_world) : oc_world :=
  if is_current i w then failure i sequence e w else w.

(** The one session with the one match. *)
(* src/src/opencode-drone.ts 867-877 findLaunchSession *)
Definition matched (listed : nat) (sessions : list oc_session) (counts : list (oc_session * nat)) : launch_search :=
  let total := list_sum (map snd counts) in
  if negb (total =? 1)%nat then CorrelationMismatch listed (length sessions) total
  else match List.find (fun c => (snd c =? 1)%nat) counts with
       | Some (s, _) => Found s (map os_id (List.filter isTopLevelSession sessions))
       | None => CorrelationMismatch listed (length sessions) total
       end.

(* src/src/opencode-drone.ts 801-878 findLaunchSession *)
Definition findLaunchSession (correlationIdentity : string) : oc launch_search :=
  let! started := perform (Sync (fun w =>
    match current w with
    | None => (inl type_error, w)
    | Some (i, o) => let '(n, w) := next_sequence i w in (inr (i, cd_directory (o_deps o), n), w)
    end)) in
  let '(i, directory, sequence) := started in
  let! listed := attempt listSessions in
  match listed with
  | inl e => do! effect (note_failure i sequence e); Ret (ListFailed (openCodeFailureCode e))
  | inr listed =>
      let! same := look (is_current i) in
      if negb same then Ret Superseded
      else
        let sessions := List.filter (fun s => String.eqb (os_directory s) directory) listed in
        if bool_decide (sessions = []) then Ret (DirectoryMiss (length listed))
        else
          let! counts := attempt (match_counts correlationIdentity sessions) in
          match counts with
          | inl e =>
              do! effect (note_failure i sequence e);
              Ret (MessageListFailed (length listed) (length sessions) (openCodeFailureCode e))
          | inr counts =>
              let! same := look (is_current i) in
              Ret (if negb same then Superseded else matched (length listed) sessions counts)
          end
  end.

(** Up to thirty requests, a second apart, until the server answers: [None] when the
    connection was replaced. *)
(* src/src/opencode-drone.ts 1345-1357 injectInitialKickoff *)
Fixpoint await_server (n : nat) (i : nat) (last : js_error) : oc (option (js_error + unit)) :=
  match n with
  | O => Ret (Some (inl last))
  | S m =>
      let! r := attempt listSessions in
      let! same := look (is_current i) in
      if negb same then Ret None
      else match r with
           | inr _ => Ret (Some (inr tt))
           | inl e => do! (if bool_decide (m = 0%nat) then Ret tt else ask (Sleep 1000)); await_server m i e
           end
  end.

(** Up to thirty searches; the found session is written down. *)
(* src/src/opencode-drone.ts 1372-1396 injectInitialKickoff *)
Fixpoint await_launch (n : nat) (i : nat) (correlationIdentity : string) (last : option launch_search) : oc bool :=
  match n with
  | O =>
      do! effect (fun w =>
        match last with
        | Some (DirectoryMiss _) | Some (CorrelationMismatch _ _ _) =>
            let '(sequence, w) := next_sequence i w in
            on_owner i (updateLastOpenCodeObservation sequence (ObservationUpdate None None None (Some (Some "no-target")))) w
        | _ => w
        end);
      Ret false
  | S m =>
      let! r := findLaunchSession correlationIdentity in
      match r with
      | Superseded => Ret false
      | Found s known =>
          do! perform (Sync (fun w => match saveBinding tmpdir s known w with None => (inl type_error, w) | Some w => (inr tt, w) end));
          Ret true
      | _ =>
          do! (if bool_decide (m = 0%nat) then Ret tt else ask (Sleep 1000));
          await_launch m i correlationIdentity (Some r)
      end
  end.

(* src/src/opencode-drone.ts 1333-1401 injectInitialKickoff *)
Definition injectInitialKickoff (correlationIdentity : string) : oc bool :=
  let! owner := look (fun w => match current w with Some (i, o) => if o_connected o then Some i else None | None => None end) in
  match owner with
  | None => Ret false
  | Some i =>
      if negb (isOpenCode256BitIdentity correlationIdentity) then Ret false
      else
        let! ready := await_server 30 i (JsError "undefined") in
        match ready with
        | None => Ret false
        | Some (inl e) =>
            do! effect (fun w => let '(sequence, w) := next_sequence i w in failure i sequence e w);
            Ret false
        | Some (inr _) => pcatch (await_launch 30 i correlationIdentity None) (fun _ => Ret false)
        end
  end.

(** ** The other exported functions *)

(* src/src/opencode-drone.ts 1560-1571 resolveOpenCodeAgentSessionId *)
Definition resolveOpenCodeAgentSessionId : oc (option string) :=
  let! first := sync (fun w =>
    match current w with
    | Some (i, o) =>
        if negb (o_connected o) then (None, w)
        else let '(b, w) := readBinding tmpdir w in ((fun b => (i, cd_launchIdentity (o_deps o), b)) <$> b, w)
    | None => (None, w)
    end) in
  match first with
  | None => Ret None
  | Some (i, launchIdentity, b) =>
      let id := bs_sessionId (sb_session b) in
      let! launch := findLaunchSession launchIdentity in
      sync (fun w =>
        match launch with
        | Found s known =>
            if is_current i w && String.eqb (os_id s) id && forallb (fun k => bool_decide (k ∈ sb_known b)) known
            then let '(again, w) := readBinding tmpdir w in
                 (match again with Some b' => if String.eqb (bs_sessionId (sb_session b')) id then Some id else None | None => None end, w)
            else (None, w)
        | _ => (None, w)
        end)
  end.

(* src/src/opencode-drone.ts 1573-1591 probeOpenCodeDroneArmed *)
Definition probeOpenCodeDroneArmed : oc (option bool) :=
  let! first := sync (fun w =>
    match current w with
    | Some (i, o) =>
        if negb (o_connected o) then (None, w)
        else
          let '(sequence, w) := next_sequence i w in
          let '(b, w) := restoreBinding tmpdir w in
          (Some (i, sequence, b), w)
    | None => (None, w)
    end) in
  match first with
  | None => Ret None
  | Some (_, _, None) => Ret (Some false)
  | Some (i, sequence, Some b) =>
      let! session := attempt (getSession (bs_sessionId (sb_session b))) in
      sync (fun w =>
        if negb (is_current i w) then (match session with inl _ => Some false | inr _ => None end, w)
        else
          match session with
          | inl e => (Some false, failure i sequence e w)
          | inr bound =>
              if match bound with Some s => isBoundSession s b | None => false end then (Some true, w)
              else (Some false, clearBinding tmpdir (failure i sequence (openCodeHttpError 404 "session") w))
          end)
  end.

(* src/src/opencode-drone.ts 1593-1596 disconnectOpenCodeDrone *)
Definition disconnectOpenCodeDrone (w : oc_world) : oc_world := with_state None (abandonOpenCodeDeliveries w).

(* src/src/opencode-drone.ts 322-364 connectOpenCodeDrone *)
Definition connectOpenCodeDrone (d : connect_deps) : oc unit :=
  if negb (isOpenCode256BitIdentity (cd_apiPassword d))
  then Throw (OpenCodeAuthenticationError "OpenCode API password is missing or unverifiable")
  else if negb (isOpenCode256BitIdentity (cd_launchIdentity d))
  then Throw (OpenCodeAuthenticationError "OpenCode launch identity is missing or unverifiable")
  else
    do! perform EnsureRoot;
    effect (fun w =>
      let w := abandonOpenCodeDeliveries w in
      logged Connected (with_state (Some (length (ow_owners w))) (with_owners (ow_owners w ++ [fresh_owner d]) w))).

(* src/src/opencode-drone.ts 1598-1608 OpenCodeConnectionState *)
Record connection_state := ConnectionState {
  cs_connected : bool;
  cs_sessionId : option string;
  cs_injected : Z;
  cs_retried : Z;
  cs_last : option last_observation;
  cs_queued : nat;
  cs_unconfirmed : nat;
  cs_retrying : nat;
  cs_failed : nat
}.

Definition in_stage (st : delivery_stage) (w : oc_world) (o : owner) : nat :=
  length (List.filter (fun dx => bool_decide (dl_state (snd dx) = st)) (omap (active_delivery w) (o_active o))).

(* src/src/opencode-drone.ts 1610-1631 getOpenCodeConnectionState *)
Definition getOpenCodeConnectionState (w : oc_world) : connection_state :=
  match current w with
  | None => ConnectionState false None 0 0 None 0 0 0 0
  | Some (_, o) =>
      ConnectionState (o_connected o) (bs_sessionId <$> o_bound o) (o_injected o) (o_retried o) (Some (o_last o))
        (in_stage Queued w o) (length (o_unconfirmed o) + in_stage DeliveredUnconfirmed w o) (in_stage Retried w o)
        (length (o_failed o))
  end.
End Files.
