(* ===== verification/OpenCodeFacts.v ===== *)
(** * What a stretch of the OpenCode deliveries keeps

    The submissions that are still open, the markers that cover them in memory and
    in the binding file, and the stretches of code that submit nothing. *)

From S2P Require Import Prelude JsDate JsonText Assoc Effects LeaseFs Sha256 OpenCode OpenCodeApi.

Open Scope Z_scope.
Open Scope prog_scope.

(** ** The current connection *)

Lemma current_some w i o : current w = Some (i, o) <-> ow_state w = Some i /\ ow_owners w !! i = Some o.
Proof.
  unfold current. destruct (ow_state w) as [j|]; cbn; [|naive_solver]. destruct (ow_owners w !! j) eqn:Hj; cbn; naive_solver.
Qed.

Lemma is_current_true i w : is_current i w = true <-> ow_state w = Some i.
Proof. unfold is_current. apply bool_decide_eq_true. Qed.

Lemma current_on_owner i g w j o :
  current (on_owner i g w) = Some (j, o) <-> exists o', current w = Some (j, o') /\ o = (if decide (i = j) then g o' else o').
Proof.
  rewrite current_some. cbn. setoid_rewrite current_some. destruct (decide (i = j)) as [->|Hne].
  - rewrite list_lookup_alter_eq. destruct (ow_owners w !! j) as [o'|]; cbn; naive_solver.
  - rewrite list_lookup_alter_ne by done. naive_solver.
Qed.

Lemma alter_is_some {A} (g : A -> A) i j (l : list A) : is_Some (l !! j) -> is_Some (alter g i l !! j).
Proof. rewrite !lookup_lt_is_Some. by rewrite length_alter. Qed.

(** ** Open submissions *)

Section Facts.
Variables (tmpdir : string) (source_of : string -> string) (d : connect_deps).

(** What closes a submission of [entryId]: the server refused it, listed a message
    that carries it or its source, or the source was settled. *)
Definition closes (entryId : string) (e : oc_event) : bool :=
  match e with
  | Refused k => String.eqb k entryId
  | Listed messages => existsb (fun m => carries entryId m || carries (source_of entryId) m) messages
  | SourceSettled s => String.eqb s (source_of entryId)
  | _ => false
  end.

(** Some submission is not closed; the log has the latest event first. *)
Fixpoint open_post (entryId : string) (log : list oc_event) : bool :=
  match log with
  | [] => false
  | e :: log =>
      if closes entryId e then false
      else match e with
           | Submitted k _ _ => String.eqb k entryId || open_post entryId log
           | _ => open_post entryId log
           end
  end.

(** Every submission found all earlier ones of its entry closed. *)
Fixpoint well_posted (log : list oc_event) : Prop :=
  match log with
  | [] => True
  | Submitted k _ _ :: log => open_post k log = false /\ well_posted log
  | _ :: log => well_posted log
  end.

(** The pending submissions were read since the connection was made. *)
Fixpoint restored (log : list oc_event) : bool :=
  match log with
  | [] | Connected :: _ => false
  | Restored :: _ => true
  | _ :: log => restored log
  end.

Definition quiet_event (e : oc_event) : Prop :=
  match e with Submitted _ _ _ | Connected => False | _ => True end.

Lemma closed_stays k new log : Forall quiet_event new -> open_post k log = false -> open_post k (new ++ log) = false.
Proof.
  induction 1 as [|e new He _ IH]; intros Hl; [done|]. cbn. destruct (closes k e); [done|]. destruct e; solve [auto | destruct He].
Qed.

Lemma quiet_posted new log : Forall quiet_event new -> well_posted log -> well_posted (new ++ log).
Proof. induction 1 as [|e new He _ IH]; [done|]. intros Hl. cbn. destruct e; solve [auto | destruct He]. Qed.

Lemma quiet_restored new log : Forall quiet_event new -> restored log = true -> restored (new ++ log) = true.
Proof. induction 1 as [|e new He _ IH]; [done|]. intros Hl. cbn. destruct e; solve [auto | destruct He]. Qed.

(** Between two submissions of an entry there is an event that closes the first. *)
Lemma posted_between log l1 k s1 t1 l2 s2 t2 l3 :
  well_posted log -> log = l1 ++ Submitted k s1 t1 :: l2 ++ Submitted k s2 t2 :: l3 -> existsb (closes k) l2 = true.
Proof.
  intros Hp ->. induction l1 as [|e l1 IH]; cbn in Hp.
  - destruct Hp as [Ho _]. clear -Ho. induction l2 as [|e l2 IH]; cbn in *; [by rewrite String.eqb_refl in Ho|].
    destruct (closes k e); [done|]. cbn. destruct e; auto. by apply orb_false_iff in Ho as [_ Ho]; auto.
  - destruct e; auto. destruct Hp as [_ Hp]. auto.
Qed.

Definition covers (log : list oc_event) (l : list (string * pending_submission)) : Prop :=
  forall k, open_post k log = true -> k ∈ map fst l.

Lemma covers_quiet new log l : Forall quiet_event new -> covers log l -> covers (new ++ log) l.
Proof.
  intros Hn Hc k Hk. apply Hc. destruct (open_post k log) eqn:Hl; [done|]. by rewrite closed_stays in Hk.
Qed.

Lemma covers_drop log k l : open_post k log = false -> covers log l -> covers log (drop_key k l).
Proof.
  intros Hk Hc k' Hk'. destruct (list_elem_of_fmap_1 fst l k') as ([k1 p] & -> & Hin); [by apply Hc|].
  apply list_elem_of_fmap. exists (k1, p). split; [done|]. apply in_drop. split; [|done]. cbn in *. congruence.
Qed.

Lemma covers_absent log k l : covers log l -> assoc k l = None -> open_post k log = false.
Proof. intros Hc Hk%assoc_none. destruct (open_post k log) eqn:Ho; [|done]. by apply Hc in Ho. Qed.

(** ** Sources and bounds *)

Definition sourced (l : list (string * pending_submission)) : Prop :=
  Forall (fun kv => ps_source (snd kv) = source_of (fst kv)) l.

Definition records_sourced (l : list (string * delivery_record)) : Prop :=
  Forall (fun kv => dr_source (snd kv) = source_of (fst kv)) l.

Definition delivery_sourced (x : delivery) : Prop := dl_sourceEntryId x = source_of (dl_entryId x).

Definition bounded (o : owner) : Prop :=
  (length (o_delivered o) <= OPEN_CODE_DELIVERY_HISTORY_LIMIT)%nat /\ (length (o_unconfirmed o) <= OPEN_CODE_DELIVERY_HISTORY_LIMIT)%nat /\
  (length (o_failed o) <= OPEN_CODE_DELIVERY_HISTORY_LIMIT)%nat.

Lemma remember_bounded l k text s : (length (rememberBounded l k text s) <= OPEN_CODE_DELIVERY_HISTORY_LIMIT)%nat.
Proof. unfold rememberBounded. rewrite length_drop. lia. Qed.

Lemma drop_key_length {A} k (l : list (string * A)) : (length (drop_key k l) <= length l)%nat.
Proof. apply filter_length_le. Qed.

Lemma remember_sourced l k text s : records_sourced l -> s = source_of k -> records_sourced (rememberBounded l k text s).
Proof.
  intros Hl ->. unfold rememberBounded. apply Forall_drop, Forall_app. split; [by apply Forall_filter|]. by repeat constructor.
Qed.

(** ** The state of the world *)

Record owner_ok (log : list oc_event) (o : owner) : Prop := {
  oo_deps : o_deps o = d;
  oo_covers : restored log = true -> covers log (o_pending o);
  oo_pending : sourced (o_pending o);
  oo_unconfirmed : records_sourced (o_unconfirmed o)
}.

(** [base] holds within a stretch as well, [bound_ok] at its ends. *)
Record base (w : oc_world) : Prop := {
  b_posts : well_posted (ow_log w);
  b_disk : forall c b, ow_files w !! bindingPath tmpdir d = Some c -> bindingMatchesState d c = Some b ->
    covers (ow_log w) (sb_pending b) /\ sourced (sb_pending b);
  b_deliveries : Forall delivery_sourced (ow_deliveries w);
  b_owner : forall i o, current w = Some (i, o) -> owner_ok (ow_log w) o;
  b_bounded : Forall bounded (ow_owners w);
  b_jobs : forall i, ProcessDeliveries i ∈ ow_jobs w -> ow_state w = Some i \/ ow_state w = None;
  b_state : forall i, ow_state w = Some i -> is_Some (ow_owners w !! i)
}.

Definition bound_ok (w : oc_world) : Prop :=
  forall i o, current w = Some (i, o) -> is_Some (o_bound o) -> restored (ow_log w) = true.

Definition tokens (w : oc_world) : nat :=
  length (List.filter (fun j => match j with ProcessDeliveries _ => true | _ => false end) (ow_jobs w)).

(** Nothing processes the queue of the current connection. *)
Definition idle (w : oc_world) : Prop := exists i o, current w = Some (i, o) /\ o_processing o = false.

Definition good (w : oc_world) : Prop := base w /\ bound_ok w.

(** A stretch that submits nothing and starts no loop over the queue. *)
Record frame (w w' : oc_world) : Prop := {
  fr_log : exists new, ow_log w' = new ++ ow_log w /\ Forall quiet_event new;
  fr_state : ow_state w' = ow_state w \/ ow_state w' = None;
  fr_tokens : tokens w' = tokens w;
  fr_idle : idle w' -> idle w;
  fr_settled : forall n, settled n w = true -> settled n w' = true
}.

Definition calm (w w' : oc_world) : Prop := good w -> frame w w' /\ good w'.

#[export] Instance frame_refl : Reflexive frame.
Proof. intros w. split; auto. exists []. by split. Qed.

#[export] Instance frame_trans : Transitive frame.
Proof.
  intros w1 w2 w3 [(n1 & L1 & Q1) S1 T1 I1 D1] [(n2 & L2 & Q2) S2 T2 I2 D2]. split; auto.
  - exists (n2 ++ n1). rewrite L2, L1, app_assoc. split; [done|]. by apply Forall_app.
  - destruct S2 as [->|]; auto.
  - congruence.
Qed.

#[export] Instance calm_refl : Reflexive calm.
Proof. by intros w. Qed.

#[export] Instance calm_trans : Transitive calm.
Proof. intros w1 w2 w3 H1 H2 Hw. destruct (H1 Hw) as [F1 G1]. destruct (H2 G1) as [F2 G2]. split; [by etrans|done]. Qed.

Lemma calm_pre w w' : (good w -> calm w w') -> calm w w'.
Proof. intros H Hw. by apply H. Qed.

Lemma frame_closed w w' k : frame w w' -> open_post k (ow_log w) = false -> open_post k (ow_log w') = false.
Proof. intros [(new & -> & Hn) _ _ _ _]. by apply closed_stays. Qed.

Lemma frame_restored w w' : frame w w' -> restored (ow_log w) = true -> restored (ow_log w') = true.
Proof. intros [(new & -> & Hn) _ _ _ _]. by apply quiet_restored. Qed.

(** What is kept by a change of one owner: its markers and the bounds. *)
Record same_core (o o' : owner) : Prop := {
  sc_deps : o_deps o' = o_deps o;
  sc_bound : o_bound o' = o_bound o;
  sc_pending : o_pending o' = o_pending o;
  sc_processing : o_processing o' = o_processing o;
  sc_unconfirmed : records_sourced (o_unconfirmed o) -> records_sourced (o_unconfirmed o');
  sc_bounded : bounded o -> bounded o'
}.

Lemma frame_same w w' :
  ow_log w' = ow_log w -> ow_state w' = ow_state w -> ow_jobs w' = ow_jobs w -> (idle w' -> idle w) ->
  (forall n, settled n w = true -> settled n w' = true) -> frame w w'.
Proof. intros Hl Hs Hj Hi Hd. split; auto; [by exists []; rewrite Hl|]. unfold tokens. by rewrite Hj. Qed.

Lemma frame_called w : frame w (called w).
Proof. by apply frame_same. Qed.

Lemma frame_files f w : frame w (with_files f w).
Proof. by apply frame_same. Qed.

Lemma calm_same_log w w' :
  (base w -> base w') -> (base w -> bound_ok w -> bound_ok w') -> ow_log w' = ow_log w -> ow_state w' = ow_state w ->
  ow_jobs w' = ow_jobs w -> (idle w' -> idle w) ->
  (forall n, settled n w = true -> settled n w' = true) -> calm w w'.
Proof. intros Hb Ho Hl Hs Hj Hi Hd [Hw Hbd]. split; [by apply frame_same|split; auto]. Qed.

Lemma calm_on_owner i g w : (forall o, same_core o (g o)) -> calm w (on_owner i g w).
Proof.
  intros Hg. apply calm_same_log; cbn; try done.
  - intros [Hp Hd Hx Ho Hb Hj Hi0]. split; cbn; try done.
    + intros j o (o' & Hc & ->)%current_on_owner. destruct (Ho j o' Hc) as [Hdeps Hcov Hsrc Hunc].
      destruct (decide (i = j)); [|by split]. destruct (Hg o') as [Gd Gb Gp Gr Gu Gn].
      split; rewrite ?Gd, ?Gp; auto.
    + apply Forall_alter; [done|]. intros o _ Hbo. by apply Hg.
    + intros j Hs. apply alter_is_some. by apply Hi0.
  - intros _ Hbd j o (o' & Hc & ->)%current_on_owner Hs. eapply Hbd; [exact Hc|].
    destruct (decide (i = j)); [|done]. by rewrite <-(sc_bound _ _ (Hg o')).
  - intros (j & o & (o' & Hc & ->)%current_on_owner & Hp). exists j, o'. split; [done|].
    destruct (decide (i = j)); [|done]. by rewrite <-(sc_processing _ _ (Hg o')).
Qed.

Lemma calm_on_delivery n g w :
  (forall x, delivery_sourced x -> delivery_sourced (g x)) -> (forall x, dl_settled x = true -> dl_settled (g x) = true) ->
  calm w (on_delivery n g w).
Proof.
  intros Hg Hset. apply calm_same_log; cbn; try done; cycle 1.
  { intros m. unfold settled. cbn. destruct (decide (n = m)) as [->|]; [|by rewrite list_lookup_alter_ne].
    rewrite list_lookup_alter_eq. destruct (ow_deliveries w !! m); cbn; auto. }
  intros [Hp Hd Hx Ho Hb Hj Hi0]. split; cbn; try done. apply Forall_alter; auto.
Qed.

Lemma calm_add_delivery x w : delivery_sourced x -> calm w (with_deliveries (ow_deliveries w ++ [x]) w).
Proof.
  intros Hx. apply calm_same_log; cbn; try done; cycle 1.
  { intros m. unfold settled. cbn. destruct (ow_deliveries w !! m) eqn:Hm; [|done]. by rewrite (lookup_app_l_Some _ _ _ _ Hm). }
  intros [Hp Hd Hy Ho Hb Hj Hi0]. split; cbn; try done. apply Forall_app. split; [done|]. by constructor.
Qed.

Lemma calm_files f w :
  f !! bindingPath tmpdir d = ow_files w !! bindingPath tmpdir d -> calm w (with_files f w).
Proof.
  intros Hf. apply calm_same_log; cbn; try done. intros [Hp Hd Hx Ho Hb Hj Hi0]. split; cbn; try done. by rewrite Hf.
Qed.

Lemma calm_forget f w : f !! bindingPath tmpdir d = None -> calm w (with_files f w).
Proof.
  intros Hf. apply calm_same_log; cbn; try done. intros [Hp Hd Hx Ho Hb Hj Hi0]. split; cbn; try done. by rewrite Hf.
Qed.

Lemma calm_called w : calm w (called w).
Proof. apply calm_same_log; cbn; try done. by intros []; split. Qed.

Lemma calm_logged e w : quiet_event e -> e <> Restored -> calm w (logged e w).
Proof.
  intros He Hne. assert (Hq : Forall quiet_event [e]) by (by constructor).
  assert (Hres : restored (e :: ow_log w) = restored (ow_log w)) by (by destruct e).
  intros [[Hp Hd Hx Ho Hb Hj Hi0] Hbd]. split; [split; try done; [by exists [e]|by left]|]. split.
  - split; try done.
    + by apply (quiet_posted [e]).
    + intros c b Hc Hm. destruct (Hd c b Hc Hm) as [Hcov Hsrc]. split; [|done]. by apply (covers_quiet [e]).
    + intros i o Hc. destruct (Ho i o Hc) as [Hdeps Hcov Hsrc Hunc]. split; try done. unfold logged; cbn [ow_log]. rewrite Hres.
      intros Hr. apply (covers_quiet [e]); auto.
  - intros i o Hc Hs. unfold logged; cbn [ow_log]. rewrite Hres. by eapply Hbd.
Qed.

(** ** The binding file *)

Lemma array_of_map {A B} (f : json -> option B) (g : A -> json) (h : A -> B) l :
  (forall x, x ∈ l -> f (g x) = Some (h x)) -> array_of f (JArr (map g l)) = Some (map h l).
Proof.
  cbn. induction l as [|x l IH]; intros Hf; cbn; [done|]. rewrite Hf by left. cbn. rewrite IH; [done|]. intros y Hy. apply Hf. by right.
Qed.

Lemma pending_printed kv : pending_of (pending_json kv) = Some kv.
Proof. by destruct kv as [k [s t]]. Qed.

Lemma binding_printed b b' : bindingMatchesState d (binding_content b) = Some b' -> sb_pending b' = sb_pending b.
Proof.
  unfold bindingMatchesState, binding_content. cbn [json_parse option_bind mbind].
  cbn [jget assoc app String.eqb Ascii.eqb Bool.eqb option_bind mbind number_of text_of].
  rewrite (array_of_map text_of JStr id) by done. cbn [option_bind mbind].
  rewrite (array_of_map pending_of pending_json id) by (intros; apply pending_printed). cbn [option_bind mbind fields_of].
  case_match; [|done]. intros [= <-]. cbn. by rewrite map_id.
Qed.

Lemma read_file_calm path w : calm w (snd (read_file path w)).
Proof. apply calm_called. Qed.

Lemma replace_file_calm path c w : path <> bindingPath tmpdir d -> calm w (snd (replace_file path c w)).
Proof.
  intros Hp. unfold replace_file, works. cbn. destruct (ow_works w (ow_calls w)); [|apply calm_called].
  etrans; [apply calm_called|]. apply calm_files. by rewrite lookup_insert_ne.
Qed.

Lemma remove_file_calm path w : calm w (remove_file path w).
Proof.
  unfold remove_file, works. destruct (ow_works w (ow_calls w)); [|apply calm_called].
  etrans; [apply calm_called|]. destruct (decide (path = bindingPath tmpdir d)) as [->|Hne].
  - apply calm_forget. by rewrite lookup_delete_eq.
  - apply calm_files. by rewrite lookup_delete_ne.
Qed.

Lemma frame_on_owner i g w : (forall o, o_processing (g o) = o_processing o) -> frame w (on_owner i g w).
Proof.
  intros Hg. split; cbn; try done; [by exists []|by left|].
  intros (j & o & (o' & Hc & ->)%current_on_owner & Hp). exists j, o'. split; [done|].
  destruct (decide (i = j)); [|done]. by rewrite <-(Hg o').
Qed.

Lemma base_on_owner i g w :
  base w -> (forall o, current w = Some (i, o) -> owner_ok (ow_log w) o -> owner_ok (ow_log w) (g o)) ->
  (forall o, bounded o -> bounded (g o)) -> base (on_owner i g w).
Proof.
  intros [Hp Hd Hx Ho Hb Hj Hi0] Hg Hbg. split; cbn; try done.
  - intros j o (o' & Hc & ->)%current_on_owner. destruct (decide (i = j)) as [->|]; [|by eapply Ho]. apply Hg; [done|]. by eapply Ho.
  - apply Forall_alter; [done|]. auto.
  - intros j Hs. apply alter_is_some. by apply Hi0.
Qed.

Lemma bound_on_owner i g w :
  bound_ok w -> (forall o, current w = Some (i, o) -> is_Some (o_bound (g o)) -> restored (ow_log w) = true) -> bound_ok (on_owner i g w).
Proof.
  intros Hw Hg j o (o' & Hc & ->)%current_on_owner Hs. destruct (decide (i = j)) as [->|]; [by eapply Hg|by eapply Hw].
Qed.

Lemma owner_set_bound log s known o : owner_ok log o -> owner_ok log (set_bound s known o).
Proof. by intros []; split. Qed.

(** ** Reading *)

Lemma read_calm w : calm w (snd (readBinding tmpdir w)).
Proof.
  unfold readBinding. destruct (current w) as [[i o]|]; [|done]. assert (Hr := read_file_calm (bindingPath tmpdir (o_deps o)) w).
  by destruct (read_file _ w) as [raw w'].
Qed.

Lemma read_same w : ow_log (snd (readBinding tmpdir w)) = ow_log w /\ current (snd (readBinding tmpdir w)) = current w.
Proof. unfold readBinding. destruct (current w) as [[i o]|] eqn:Hc; cbn; [done|by rewrite Hc]. Qed.

Lemma base_called w : base w -> base (called w).
Proof. intros [Hp Hd Hx Ho Hb Hj Hi0]. split; assumption. Qed.

Lemma read_frame w : frame w (snd (readBinding tmpdir w)).
Proof. unfold readBinding. destruct (current w) as [[i o]|]; [apply frame_called|done]. Qed.

Lemma read_base w : base w -> base (snd (readBinding tmpdir w)).
Proof.
  intros Hw. unfold readBinding. destruct (current w) as [[i o]|]; [by apply base_called|done].
Qed.

Lemma read_covers w b :
  base w -> fst (readBinding tmpdir w) = Some b -> covers (ow_log w) (sb_pending b) /\ sourced (sb_pending b).
Proof.
  intros Hw. unfold readBinding. destruct (current w) as [[i o]|] eqn:Hc; [|done]. cbn.
  rewrite (oo_deps _ _ (b_owner _ Hw i o Hc)). destruct (ow_works w (ow_calls w)); [|done].
  destruct (ow_files w !! bindingPath tmpdir d) as [c|] eqn:Hf; [|done]. cbn. intros Hm. by eapply (b_disk _ Hw).
Qed.

(** ** Writing *)

Lemma write_frame b w : frame w (snd (writeBinding tmpdir b w)).
Proof.
  unfold writeBinding. destruct (current w) as [[i o]|]; [|done]. unfold replace_file, works. cbn.
  destruct (ow_works w (ow_calls w)); cbn; [|apply frame_called].
  etrans; [|by apply frame_on_owner]. etrans; [apply frame_called|apply frame_files].
Qed.

Lemma write_log b w : ow_log (snd (writeBinding tmpdir b w)) = ow_log w.
Proof.
  unfold writeBinding. destruct (current w) as [[i o]|]; [|done]. unfold replace_file, works. cbn.
  by destruct (ow_works w (ow_calls w)).
Qed.

Lemma write_base b w :
  base w -> covers (ow_log w) (sb_pending b) -> sourced (sb_pending b) -> base (snd (writeBinding tmpdir b w)).
Proof.
  intros Hw Hc Hs. unfold writeBinding. destruct (current w) as [[i o]|] eqn:Hcur; [|done].
  rewrite (oo_deps _ _ (b_owner _ Hw i o Hcur)). unfold replace_file, works. cbn.
  destruct (ow_works w (ow_calls w)); cbn; [|by apply base_called]. destruct Hw as [Hp Hd Hx Ho Hb Hj Hi0].
  apply base_on_owner; [|intros; by apply owner_set_bound|done]. split; try assumption.
  intros c b'. cbn. rewrite lookup_insert_eq. intros [= <-] Hm%binding_printed. by rewrite Hm.
Qed.

(** When the markers are in memory, or the write failed. *)
Lemma write_good b w :
  good w -> covers (ow_log w) (sb_pending b) -> sourced (sb_pending b) ->
  restored (ow_log w) = true \/ fst (writeBinding tmpdir b w) = false -> good (snd (writeBinding tmpdir b w)).
Proof.
  intros [Hw Hbd] Hc Hs Hr. split; [by apply write_base|]. revert Hr.
  unfold writeBinding. destruct (current w) as [[i o]|] eqn:Hcur; [|done]. unfold replace_file, works. cbn.
  destruct (ow_works w (ow_calls w)); cbn; [|done]. intros [Hr|]; [|done]. apply bound_on_owner; [exact Hbd|done].
Qed.

Lemma binding_of_good w i o s known :
  good w -> current w = Some (i, o) -> restored (ow_log w) = true -> good (snd (writeBinding tmpdir (binding_of o s known) w)).
Proof.
  intros Hw Hc Hr. destruct (b_owner _ (proj1 Hw) i o Hc) as [Hd Hcov Hsrc _].
  apply write_good; [done|by apply Hcov|done|by left].
Qed.

Lemma persist_calm w : calm w (snd (persistCurrentBinding tmpdir w)).
Proof.
  unfold persistCurrentBinding. destruct (current w) as [[i o]|] eqn:Hc; [|done].
  destruct (bound_id o) as [s|] eqn:Hs; [|done]. intros Hw. split; [apply write_frame|].
  apply binding_of_good with i; [done|done|]. apply (proj2 Hw i o Hc). unfold bound_id in Hs. by destruct (o_bound o).
Qed.

Lemma save_calm s known w w' : restored (ow_log w) = true -> saveBinding tmpdir s known w = Some w' -> calm w w'.
Proof.
  intros Hr. unfold saveBinding. destruct (current w) as [[i o]|] eqn:Hc; [|done]. intros [= <-] Hw.
  split; [apply write_frame|]. by apply binding_of_good with i.
Qed.

Lemma drop_cached_frame w : frame w (dropCachedBinding w).
Proof. unfold dropCachedBinding. destruct (current w) as [[i o]|]; [|done]. by apply frame_on_owner. Qed.

Lemma drop_cached_good w : base w -> good (dropCachedBinding w).
Proof.
  intros Hw. unfold dropCachedBinding. destruct (current w) as [[i o]|] eqn:Hc.
  - split; [apply base_on_owner; [done|intros; by apply owner_set_bound|done]|].
    intros j o' (o1 & Hc' & ->)%current_on_owner Hs. rewrite Hc in Hc'. injection Hc' as <- <-.
    rewrite decide_True in Hs by done. by destruct Hs.
  - split; [done|]. intros i o. by rewrite Hc.
Qed.

Lemma drop_cached_calm w : calm w (dropCachedBinding w).
Proof. intros [Hw _]. split; [apply drop_cached_frame|by apply drop_cached_good]. Qed.

Lemma clear_binding_calm w : calm w (clearBinding tmpdir w).
Proof.
  unfold clearBinding. destruct (current w) as [[i o]|] eqn:Hc; [|done].
  assert (Hd : calm w (on_owner i (set_bound None []) w)) by (assert (H := drop_cached_calm w); unfold dropCachedBinding in H; by rewrite Hc in H).
  case_bool_decide; [|done]. etrans; [exact Hd|]. apply remove_file_calm.
Qed.

(** ** Restoring *)

Lemma claim_path : bindingClaimPath tmpdir d <> bindingPath tmpdir d.
Proof.
  unfold bindingClaimPath. intros H%(f_equal String.length). rewrite append_length in H. cbn in H. lia.
Qed.

Lemma claim_calm w : calm w (snd (claimPlaceholderBinding tmpdir d w)).
Proof.
  unfold claimPlaceholderBinding, works. destruct (ow_works w (ow_calls w)); cbn; [|apply calm_called].
  destruct (ow_files w !! bindingClaimPath tmpdir d); cbn.
  - etrans; [apply calm_called|]. apply calm_called.
  - etrans; [apply calm_called|]. apply calm_files. apply lookup_insert_ne, claim_path.
Qed.

(** What a reading of the binding for a seat leaves: nothing, and nothing changed;
    or a binding whose markers cover the open submissions. *)
Record readied (w : oc_world) (r : option session_binding * oc_world) : Prop := {
  rd_frame : frame w (snd r);
  rd_log : ow_log (snd r) = ow_log w;
  rd_none : fst r = None -> good (snd r);
  rd_some : forall b, fst r = Some b -> base (snd r) /\ covers (ow_log w) (sb_pending b) /\ sourced (sb_pending b)
}.

Lemma dropped_readied w w' : frame w w' -> ow_log w' = ow_log w -> base w' -> readied w (None, dropCachedBinding w').
Proof.
  intros Hf Hl Hb. split; cbn; try done.
  - etrans; [exact Hf|apply drop_cached_frame].
  - unfold dropCachedBinding. by destruct (current w') as [[i o]|].
  - intros _. by apply drop_cached_good.
Qed.

Lemma claimed_readied b w :
  good w -> covers (ow_log w) (sb_pending b) -> sourced (sb_pending b) -> readied w (claim_binding tmpdir d b w).
Proof.
  intros Hw Hc Hs. unfold claim_binding. destruct (claim_calm w Hw) as [Hf1 Hg1].
  assert (Hl1 : ow_log (snd (claimPlaceholderBinding tmpdir d w)) = ow_log w).
  { unfold claimPlaceholderBinding, works. destruct (ow_works w (ow_calls w)); cbn; [|done]. by case_match. }
  destruct (claimPlaceholderBinding tmpdir d w) as [claimed w1]. cbn [snd] in *.
  destruct claimed; cbn [negb]; [|by split].
  set (b1 := SessionBinding _ _ _ _ _ _ _ _).
  assert (Hf2 := write_frame b1 w1). assert (Hl2 := write_log b1 w1).
  assert (Hb2 : base (snd (writeBinding tmpdir b1 w1))) by (apply write_base; cbn; [apply Hg1|by rewrite Hl1|done]).
  assert (Hg2 : fst (writeBinding tmpdir b1 w1) = false -> good (snd (writeBinding tmpdir b1 w1))).
  { intros Hn. apply write_good; cbn; [done|by rewrite Hl1|done|by right]. }
  destruct (writeBinding tmpdir b1 w1) as [written w2]. cbn [fst snd] in *.
  assert (Hf : frame w w2) by (by etrans). assert (Hl : ow_log w2 = ow_log w) by congruence.
  destruct written; cbn [negb]; [|split; cbn; auto; done].
  assert (Hb3 := read_base w2 Hb2). assert (Hcov := read_covers w2). assert (Hf3 := read_frame w2). destruct (read_same w2) as [Hl3 _].
  destruct (readBinding tmpdir w2) as [again w3]. cbn [fst snd] in *.
  assert (Hf' : frame w w3) by (by etrans). assert (Hl' : ow_log w3 = ow_log w) by congruence.
  destruct again as [b'|]; [|by apply dropped_readied]. destruct (of_seat d b'); [|by apply dropped_readied].
  split; cbn; try done. intros b'' [= <-]. split; [done|]. rewrite <-Hl. by apply Hcov.
Qed.

Lemma adopt_good i b w :
  base w -> (forall j o, current w = Some (j, o) -> j = i) -> covers (ow_log w) (sb_pending b) -> sourced (sb_pending b) ->
  good (adopt i b w).
Proof.
  intros Hw Hi Hc Hs. split; [|done]. unfold adopt. set (g := fun o => set_pending _ _).
  destruct Hw as [Hp Hd Hx Ho Hb Hj Hi0]. split; try assumption.
  - intros j o Ho'. change (current (on_owner i g w) = Some (j, o)) in Ho'. apply current_on_owner in Ho' as (o' & Hcur & ->).
    rewrite (Hi _ _ Hcur), decide_True by done. destruct (Ho _ _ Hcur) as [Hdeps _ _ Hunc].
    split; cbn; [done| |by apply foldl_put_Forall|done]. intros _ k Hk. apply foldl_put_keys. right. by apply Hc.
  - by apply Forall_alter.
  - intros j Hs'. apply alter_is_some. by apply Hi0.
Qed.

Lemma adopt_frame i b w : frame w (adopt i b w).
Proof.
  unfold adopt. set (g := fun o => set_pending _ _). etrans; [by apply (frame_on_owner i g)|].
  split; try done; [by exists [Restored]; split; [|repeat constructor]|by left].
Qed.

Lemma oc_current_frame w w' i o j o' : frame w w' -> current w = Some (i, o) -> current w' = Some (j, o') -> j = i.
Proof. intros [_ [Hs|Hs] _ _ _] [Hi _]%current_some [Hj _]%current_some; congruence. Qed.

Lemma restore_spec w (Hw : good w) :
  frame w (snd (restoreBinding tmpdir w)) /\ good (snd (restoreBinding tmpdir w)) /\
  (is_Some (fst (restoreBinding tmpdir w)) -> restored (ow_log (snd (restoreBinding tmpdir w))) = true).
Proof.
  unfold restoreBinding. destruct (current w) as [[i o]|] eqn:Hc; [|split; [done|split; [done|by intros []]]].
  destruct (read_calm w Hw) as [Hf Hg]. destruct (read_same w) as [Hl Hcur].
  assert (Hcov := fun b => read_covers w b (proj1 Hw)). assert (Hdeps := oo_deps _ _ (b_owner _ (proj1 Hw) i o Hc)).
  assert (Hbound : is_Some (bound_id o) -> restored (ow_log w) = true).
  { intros Hb. apply (proj2 Hw i o Hc). unfold bound_id in Hb. destruct (o_bound o); [done|]. by destruct Hb. }
  rewrite Hdeps. destruct (bound_id o) as [s|]; destruct (readBinding tmpdir w) as [r w1]; cbn [fst snd] in *.
  - assert (Hdrop : frame w (dropCachedBinding w1) /\ good (dropCachedBinding w1)).
    { destruct (drop_cached_calm w1 Hg) as [? ?]. split; [by etrans|done]. }
    destruct r as [b|]; [destruct (of_seat d b)|]; cbn [fst snd].
    + split; [done|]. split; [done|]. intros _. rewrite Hl. by apply Hbound.
    + split; [apply Hdrop|]. split; [apply Hdrop|]. by intros [].
    + split; [apply Hdrop|]. split; [apply Hdrop|]. by intros [].
  - destruct r as [b|]; cbn [fst snd]; [|split; [done|split; [done|by intros []]]].
    destruct (Hcov b eq_refl) as [Hcb Hsb].
    assert (Hready : readied w1 (if unclaimed b then claim_binding tmpdir d b w1 else (Some b, w1))).
    { destruct (unclaimed b); [by apply claimed_readied; rewrite ?Hl|]. split; cbn; try done. intros b' [= <-].
      split; [apply Hg|]. by rewrite Hl. }
    destruct (if unclaimed b then _ else _) as [final w2]. destruct Hready as [Hf2 Hl2 Hnone Hsome]. cbn [fst snd] in *.
    destruct final as [b'|]; cbn [fst snd]; [|split; [by etrans|split; [by apply Hnone|by intros []]]].
    destruct (Hsome b' eq_refl) as (Hb2 & Hc2 & Hs2).
    split; [etrans; [exact Hf|]; etrans; [exact Hf2|apply adopt_frame]|]. split; [|done].
    apply adopt_good; [done| |by rewrite Hl2|done]. intros j o' Hj. eapply oc_current_frame; [|exact Hc|exact Hj]. by etrans.
Qed.

(** ... and [state] stays what it is. *)
Lemma read_state w : ow_state (snd (readBinding tmpdir w)) = ow_state w.
Proof. unfold readBinding. by destruct (current w) as [[i o]|]. Qed.

Lemma write_state b w : ow_state (snd (writeBinding tmpdir b w)) = ow_state w.
Proof.
  unfold writeBinding. destruct (current w) as [[i o]|]; [|done]. unfold replace_file, works. cbn. by destruct (ow_works w (ow_calls w)).
Qed.

Lemma drop_cached_state w : ow_state (dropCachedBinding w) = ow_state w.
Proof. unfold dropCachedBinding. by destruct (current w) as [[i o]|]. Qed.

Lemma claim_state e w : ow_state (snd (claimPlaceholderBinding tmpdir e w)) = ow_state w.
Proof. unfold claimPlaceholderBinding, works. destruct (ow_works w (ow_calls w)); cbn; [|done]. by case_match. Qed.

Lemma claim_binding_state e b w : ow_state (snd (claim_binding tmpdir e b w)) = ow_state w.
Proof.
  unfold claim_binding. assert (H1 := claim_state e w). destruct (claimPlaceholderBinding tmpdir e w) as [[] w1]; [|done]. cbn [negb snd] in *.
  set (b1 := SessionBinding _ _ _ _ _ _ _ _). assert (H2 := write_state b1 w1). destruct (writeBinding tmpdir b1 w1) as [[] w2]; cbn [negb snd] in *; [|congruence].
  assert (H3 := read_state w2). destruct (readBinding tmpdir w2) as [[b'|] w3]; cbn [snd] in *.
  - destruct (of_seat e b'); cbn [snd]; rewrite ?drop_cached_state; congruence.
  - rewrite drop_cached_state. congruence.
Qed.

Lemma restore_state w : ow_state (snd (restoreBinding tmpdir w)) = ow_state w.
Proof.
  unfold restoreBinding. destruct (current w) as [[i o]|]; [|done]. assert (Hr := read_state w).
  destruct (bound_id o) as [s|]; destruct (readBinding tmpdir w) as [[b|] w1]; cbn [snd] in *; rewrite ?drop_cached_state; try done.
  - destruct (of_seat _ b); cbn [snd]; rewrite ?drop_cached_state; done.
  - destruct (unclaimed b); [|done]. assert (H := claim_binding_state (o_deps o) b w1). destruct (claim_binding tmpdir (o_deps o) b w1) as [[b'|] w2]; cbn in *; congruence.
Qed.

Lemma restore_calm w : calm w (snd (restoreBinding tmpdir w)).
Proof. intros Hw. destruct (restore_spec w Hw) as (? & ? & ?). done. Qed.

(** ** Changes of one owner *)

#[export] Instance same_core_refl : Reflexive same_core.
Proof. by intros o. Qed.

#[export] Instance same_core_trans : Transitive same_core.
Proof. intros o1 o2 o3 [] []. split; [congruence..|auto|auto]. Qed.

Lemma core_last l o : same_core o (set_last l o).
Proof. by split. Qed.
Lemma core_counts a b o : same_core o (set_counts a b o).
Proof. by split. Qed.
Lemma core_sequence n o : same_core o (set_sequence n o).
Proof. by split. Qed.
Lemma core_queue q o : same_core o (set_queue q o).
Proof. by split. Qed.
Lemma core_active a o : same_core o (set_active a o).
Proof. by split. Qed.
Lemma core_connected b o : same_core o (set_connected b o).
Proof. by split. Qed.
Lemma core_reconciling l o : same_core o (set_reconciling l o).
Proof. by split. Qed.

Lemma core_failed l o : (bounded o -> (length l <= OPEN_CODE_DELIVERY_HISTORY_LIMIT)%nat) -> same_core o (set_failed l o).
Proof. intros Hl. split; try done. intros Hb. assert (H := Hl Hb). destruct Hb as (? & ? & ?). by repeat split. Qed.

Lemma core_delivered l o : (bounded o -> (length l <= OPEN_CODE_DELIVERY_HISTORY_LIMIT)%nat) -> same_core o (set_delivered l o).
Proof. intros Hl. split; try done. intros Hb. assert (H := Hl Hb). destruct Hb as (? & ? & ?). by repeat split. Qed.

Lemma core_unconfirmed l o :
  (bounded o -> (length l <= OPEN_CODE_DELIVERY_HISTORY_LIMIT)%nat) -> (records_sourced (o_unconfirmed o) -> records_sourced l) ->
  same_core o (set_unconfirmed l o).
Proof. intros Hl Hs. split; try done. intros Hb. assert (H := Hl Hb). destruct Hb as (? & ? & ?). by repeat split. Qed.

Lemma core_drop_failed k o : same_core o (set_failed (drop_key k (o_failed o)) o).
Proof. apply core_failed. intros (_ & _ & Hb). etrans; [apply drop_key_length|done]. Qed.

Lemma core_drop_unconfirmed k o : same_core o (set_unconfirmed (drop_key k (o_unconfirmed o)) o).
Proof.
  apply core_unconfirmed; [|intros; by apply Forall_filter]. intros (_ & Hb & _). etrans; [apply drop_key_length|done].
Qed.

Lemma core_update n u o : same_core o (updateLastOpenCodeObservation n u o).
Proof. apply core_last. Qed.

Lemma failure_calm i n e w : calm w (failure i n e w).
Proof. apply calm_on_owner. intros o. apply core_update. Qed.

Lemma retried_calm i n w : calm w (retried i n w).
Proof.
  unfold retried. etrans; [apply (calm_on_delivery n (dl_set_state Retried))|apply calm_on_owner; intros o; apply core_counts]; done.
Qed.

Lemma next_sequence_calm i w : calm w (snd (next_sequence i w)).
Proof. unfold next_sequence. destruct (ow_owners w !! i); [|done]. apply calm_on_owner. intros; apply core_sequence. Qed.

(** ** The ledger *)

Lemma owner_drop_pending log k o : open_post k log = false -> owner_ok log o -> owner_ok log (set_pending (drop_key k (o_pending o)) o).
Proof.
  intros Hk [Hd Hc Hs Hu]. split; cbn; try done; [|by apply Forall_filter]. intros Hr. by apply covers_drop; auto.
Qed.

Lemma owner_core log o o' : owner_ok log o -> same_core o o' -> owner_ok log o'.
Proof. intros [Hd Hc Hs Hu] [Gd Gb Gp Gr Gu Gn]. split; rewrite ?Gd, ?Gp; auto. Qed.

Lemma calm_owner_ok i g w :
  (forall o, o_processing (g o) = o_processing o) -> (forall o, o_bound (g o) = o_bound o) -> (forall o, bounded o -> bounded (g o)) ->
  (good w -> forall o, owner_ok (ow_log w) o -> owner_ok (ow_log w) (g o)) -> calm w (on_owner i g w).
Proof.
  intros Hp Hb Hn Hg Hw. split; [by apply frame_on_owner|]. destruct Hw as [Hw Hbd]. split.
  - apply base_on_owner; [done| |done]. intros o _. by apply Hg.
  - apply bound_on_owner; [done|]. intros o Hc. rewrite Hb. by apply Hbd with i.
Qed.

Lemma gone_calm i g w :
  ow_state w = None -> (forall o, o_processing (g o) = o_processing o) -> (forall o, bounded o -> bounded (g o)) -> calm w (on_owner i g w).
Proof.
  intros Hs Hp Hb [Hw Hbd]. assert (Hc : forall o, current w <> Some (i, o)) by (intros o [? _]%current_some; congruence).
  split; [by apply frame_on_owner|]. split; [apply base_on_owner|apply bound_on_owner]; try done; intros o Ho; by destruct (Hc o).
Qed.

Lemma drop_pending_calm i k w :
  open_post k (ow_log w) = false -> calm w (on_owner i (fun o => set_pending (drop_key k (o_pending o)) o) w).
Proof. intros Hk. apply calm_owner_ok; try done. intros _ o. by apply owner_drop_pending. Qed.

Lemma clear_pending_calm i k w : open_post k (ow_log w) = false -> calm w (clearPendingSubmission tmpdir i k w).
Proof.
  intros Hk. unfold clearPendingSubmission. destruct (ow_owners w !! i) as [o|]; [|done]. destruct (assoc k (o_pending o)); [|done].
  assert (Hd := drop_pending_calm i k w Hk). case_match; [|done]. etrans; [exact Hd|apply persist_calm].
Qed.

Lemma confirm_calm i x w :
  open_post (dl_entryId x) (ow_log w) = false -> calm w (confirmOpenCodeDelivery tmpdir i x w).
Proof.
  intros Hk. unfold confirmOpenCodeDelivery. destruct (ow_owners w !! i) as [o|]; [|done]. case_match; [done|].
  set (w1 := on_owner i _ w). set (k := dl_entryId x).
  assert (H1 : calm w w1).
  { apply calm_on_owner. intros o'. etrans; [apply (core_drop_unconfirmed k)|].
    apply (core_drop_failed k (set_unconfirmed (drop_key k (o_unconfirmed o')) o')). }
  etrans; [exact H1|]. etrans; [by apply (clear_pending_calm i k w1)|]. apply calm_on_owner. intros o'.
  etrans; [|apply core_update]. etrans; [|apply core_counts]. apply core_delivered. intros _. apply remember_bounded.
Qed.

Lemma listed_closes k messages log :
  existsb (fun m => carries k m || carries (source_of k) m) messages = true -> open_post k (Listed messages :: log) = false.
Proof. intros Hc. cbn [open_post closes]. by rewrite Hc. Qed.

Lemma found_calm i x messages w :
  existsb (fun m => carries (dl_entryId x) m || carries (source_of (dl_entryId x)) m) messages = true ->
  calm w (found_in tmpdir i x messages w).
Proof.
  intros Hc. unfold found_in. etrans; [by apply (calm_logged (Listed messages))|]. apply clear_pending_calm. by apply listed_closes.
Qed.

Lemma submitted_calm i n x answer w : calm w (snd (submitted tmpdir i n x answer w)).
Proof.
  assert (Hn : forall w, calm w (on_delivery n (dl_set_state DeliveredUnconfirmed) w)) by (intros; by apply calm_on_delivery).
  assert (Ha : forall w, calm w (on_delivery n dl_set_accepted w)) by (intros; by apply calm_on_delivery).
  destruct answer as [e|status]; unfold submitted; cbv zeta.
  { etrans; [apply (failure_calm i (dl_sequence x) e)|]. etrans; [apply Hn|apply Ha]. }
  destruct ((status =? 200) || (status =? 204)); cbn [snd].
  - etrans; [apply Hn|]. etrans; [apply Ha|]. apply calm_on_owner. intros o. apply core_update.
  - set (w4 := logged (Refused (dl_entryId x)) _).
    assert (H4 : calm w w4).
    { etrans; [apply Hn|]. etrans; [apply (failure_calm i (dl_sequence x) (openCodeHttpError status "prompt"))|]. by apply calm_logged. }
    assert (H5 : calm w (clearPendingSubmission tmpdir i (dl_entryId x) w4)).
    { etrans; [exact H4|]. apply clear_pending_calm. cbn. by rewrite String.eqb_refl. }
    destruct (status =? 404); [|exact H5]. etrans; [exact H5|apply clear_binding_calm].
Qed.

Lemma schedule_calm i n w : calm w (scheduleOpenCodeReconciliation i n w).
Proof.
  unfold scheduleOpenCodeReconciliation. destruct (ow_owners w !! i) as [o|]; [|done]. destruct (ow_deliveries w !! n) as [x|]; [|done].
  destruct (dl_sessionId x) as [s|]; [|done]. case_match; [done|]. set (w1 := on_owner i _ w).
  etrans; [apply (calm_on_owner i (fun o => set_reconciling (o_reconciling o ++ [dl_entryId x]) o)); intros; apply core_reconciling|].
  intros [[Hp Hd Hx Ho Hb Hj Hi0] Hbd]. split; [split; try done; [by exists []|by left|]|split; [split|]; try assumption].
  - unfold tokens, start. cbn. rewrite List.filter_app, length_app. cbn. lia.
  - intros j Hin%elem_of_app. destruct Hin as [Hin|Hin%list_elem_of_singleton]; [by apply Hj|done].
Qed.

(** ** Settling a source *)

Lemma settled_closes k log : open_post k (SourceSettled (source_of k) :: log) = false.
Proof. cbn. by rewrite String.eqb_refl. Qed.

Section Settle.
Variables (i : nat) (source : string).

Lemma settle_unconfirmed_calm l : forall b w,
  records_sourced l -> (forall k, source_of k = source -> open_post k (ow_log w) = false) ->
  let r := foldl (fun acc kv =>
    let '(changed, w) := acc in
    if negb (String.eqb (dr_source (snd kv)) source) then acc
    else (changed || match ow_owners w !! i with Some o => bool_decide (is_Some (assoc (fst kv) (o_pending o))) | None => false end,
          on_owner i (fun o => set_pending (drop_key (fst kv) (o_pending o)) (set_unconfirmed (drop_key (fst kv) (o_unconfirmed o)) o)) w))
    (b, w) l in
  calm w (snd r) /\ ow_log (snd r) = ow_log w.
Proof.
  induction l as [|[k r] l IH]; intros b w Hl Hc; cbn; [done|]. apply Forall_cons_1 in Hl as [Hk Hl].
  destruct (String.eqb_spec (dr_source r) source) as [Hs|]; cbn [negb]; [|by apply IH].
  set (w1 := on_owner i _ w). match goal with |- context [foldl _ (?b', w1) l] => set (b1 := b') end.
  destruct (IH b1 w1 Hl Hc) as [H1 H2]. split; [|exact H2]. etrans; [|exact H1].
  assert (Hk' : open_post k (ow_log w) = false) by (apply Hc; by rewrite <-Hs).
  apply calm_owner_ok; [done|done| |].
  - intros o Ho. by apply (core_drop_unconfirmed k o).
  - intros _ o Ho. apply (owner_drop_pending _ k (set_unconfirmed (drop_key k (o_unconfirmed o)) o)); [done|].
    by eapply owner_core; [|apply core_drop_unconfirmed].
Qed.

Lemma settle_active_calm l : forall b w,
  (forall k, source_of k = source -> open_post k (ow_log w) = false) ->
  let r := foldl (fun acc (kv : string * nat) =>
    let '(changed, w) := acc in
    match ow_deliveries w !! snd kv with
    | Some d =>
        if negb (String.eqb (dl_sourceEntryId d) source) then acc
        else (changed || match ow_owners w !! i with Some o => bool_decide (is_Some (assoc (dl_entryId d) (o_pending o))) | None => false end,
              on_owner i (fun o => set_pending (drop_key (dl_entryId d) (o_pending o)) o)
                (on_delivery (snd kv) (fun d => dl_resolve true (dl_set_settled d)) w))
    | None => acc
    end) (b, w) l in
  calm w (snd r).
Proof.
  induction l as [|[k n] l IH]; intros b w Hc; cbn; [done|].
  destruct (ow_deliveries w !! n) as [x|] eqn:Hx; [|by apply IH].
  destruct (String.eqb_spec (dl_sourceEntryId x) source) as [Hs|]; cbn [negb]; [|by apply IH].
  match goal with |- context [foldl _ (?b', ?w') l] => set (b1 := b'); set (w1 := w') end.
  assert (H1 := IH b1 w1 Hc). etrans; [|exact H1]. apply calm_pre. intros Hw.
  assert (Hk : open_post (dl_entryId x) (ow_log w) = false).
  { apply Hc. rewrite <-Hs. symmetry. apply (Forall_lookup_1 _ _ _ _ (b_deliveries _ (proj1 Hw)) Hx). }
  etrans; [|by apply (drop_pending_calm i (dl_entryId x) (on_delivery n (fun d => dl_resolve true (dl_set_settled d)) w))].
  by apply calm_on_delivery.
Qed.
End Settle.

Lemma settle_later source w : calm (logged (SourceSettled source) w) (settleOpenCodeEntry tmpdir source w).
Proof.
  unfold settleOpenCodeEntry. set (w0 := logged (SourceSettled source) w).
  destruct (current w0) as [[i o]|] eqn:Hc; [|done]. apply calm_pre. intros Hw.
  assert (Hk : forall k, source_of k = source -> open_post k (ow_log w0) = false) by (intros k <-; apply settled_closes).
  assert (Hl := oo_unconfirmed _ _ (b_owner _ (proj1 Hw) i o Hc)).
  destruct (settle_unconfirmed_calm i source (o_unconfirmed o) false w0 Hl Hk) as [H1 L1].
  unfold settle_unconfirmed. destruct (foldl _ (false, w0) (o_unconfirmed o)) as [changed w1]. cbn [snd] in H1, L1.
  set (w2 := on_owner i _ w1).
  assert (H2 : calm w1 w2).
  { apply calm_on_owner. intros o'. apply core_failed. intros (_ & _ & Hb). etrans; [apply filter_length_le|done]. }
  assert (H3 := settle_active_calm i source (o_active o) changed w2). unfold settle_active.
  destruct (foldl _ (changed, w2) (o_active o)) as [changed' w3]. cbn [snd] in H3.
  assert (H4 : calm w0 w3).
  { etrans; [exact H1|]. etrans; [exact H2|]. apply H3. intros k Hk'. change (ow_log w2) with (ow_log w1). rewrite L1. by apply Hk. }
  destruct changed'; [|exact H4]. etrans; [exact H4|]. apply persist_calm.
Qed.

Lemma settle_calm source w : calm w (settleOpenCodeEntry tmpdir source w).
Proof. etrans; [|apply settle_later]. by apply calm_logged. Qed.

Lemma settled_source_closed k w :
  good w -> open_post k (ow_log (settleOpenCodeEntry tmpdir (source_of k) w)) = false.
Proof.
  intros Hw. assert (Hw0 : good (logged (SourceSettled (source_of k)) w)) by (by apply (calm_logged (SourceSettled (source_of k)))).
  destruct (settle_later (source_of k) w Hw0) as [Hf _]. eapply frame_closed; [exact Hf|]. apply settled_closes.
Qed.
End Facts.
