(* ===== verification/OpenCodeSafety.v ===== *)
(** * A wake is submitted once ([opencode-drone.ts])

    Any interleaving of the loop over the queue, the reconciliations and the calls
    of other modules, over any number of processes one after the other: an entry is
    submitted again only after an event that closes the earlier submission, and a
    submission that is open is written in every binding file a later process could
    take its session from. *)

From S2P Require Import Prelude JsDate JsonText Assoc Effects LeaseFs Sha256 OpenCode OpenCodeApi OpenCodeFacts.

Open Scope Z_scope.
Open Scope prog_scope.

(** ** The answers *)

(** The server, the source and the clock may answer anything; a promise answers what
    it was resolved with. *)
Definition oc_act (X : Type) (op : oc_op X) : oc_world -> X -> oc_world -> Prop :=
  match op in oc_op X return oc_world -> X -> oc_world -> Prop with
  | Sync f => fun w x w' => f w = (x, w')
  | AwaitDelivery n => fun w x w' => w' = w /\ dl_resolved <$> ow_deliveries w !! n = Some (Some x)
  | Fetch _ _ _ _ | SourcePending _ | Sleep _ | NowMs | EnsureRoot => fun w _ w' => w' = w
  end.

Section Safety.
Variables (tmpdir : string) (stack : nat) (source_of : string -> string) (d : connect_deps).

Local Abbreviation good := (good tmpdir source_of d).
Local Abbreviation base := (base tmpdir source_of d).
Local Abbreviation calm := (calm tmpdir source_of d).
Local Abbreviation open_post := (open_post source_of).
Local Abbreviation covers := (covers source_of).
Local Abbreviation owner_ok := (owner_ok source_of d).

(** ** Lanes *)

(** What the loop over the queue knows of the entry it delivers. *)
Inductive claim :=
| NoClaim
| Clear (entryId : string)
| Over (entryId : string) (n : nat).

(** A process: it connects, it runs the loop over the queue, or neither. *)
Inductive lane :=
| Aside
| Connecting
| Lane (i : nat) (ready : bool) (c : claim)
| Absurd.

Definition weight (s : lane) : nat := match s with Connecting | Lane _ _ _ => 1 | _ => 0 end.

Definition claim_ok (c : claim) (w : oc_world) : Prop :=
  match c with
  | NoClaim => True
  | Clear k => open_post k (ow_log w) = false \/ ow_state w = None
  | Over k n => open_post k (ow_log w) = false \/ settled n w = true
  end.

Definition holds (s : lane) (w : oc_world) : Prop :=
  match s with
  | Aside => True
  | Connecting => ow_state w = None /\ tokens w = 0%nat
  | Lane i ready c =>
      (ow_state w = Some i \/ ow_state w = None) /\ (ready = true -> restored (ow_log w) = true) /\ claim_ok c w
  | Absurd => False
  end.

Definition balance (s : lane) (w : oc_world) (s' : lane) (w' : oc_world) : Prop :=
  (weight s' + tokens w' = weight s + tokens w /\ (idle w' -> idle w))%nat \/
  (idle w /\ ~ idle w' /\ weight s' + tokens w' = weight s + tokens w + 1)%nat \/
  (1 <= weight s /\ weight s' + tokens w' + 1 = weight s + tokens w)%nat.

Definition lane_step (s : lane) (w : oc_world) (s' : lane) (w' : oc_world) : Prop :=
  good w -> holds s w ->
  good w' /\ holds s' w' /\ balance s w s' w' /\ (weight s = 0%nat -> forall t, holds t w -> holds t w').

Local Abbreviation sim := (simulates oc_act lane_step).

Lemma holds_later t w w' :
  (exists new, ow_log w' = new ++ ow_log w /\ Forall quiet_event new) -> (ow_state w' = ow_state w \/ ow_state w' = None) ->
  (forall n, settled n w = true -> settled n w' = true) -> (ow_state w = None -> tokens w' = tokens w) -> holds t w -> holds t w'.
Proof.
  intros (new & Hl & Hq) Hs Hd Ht. destruct t as [| |i r c|]; cbn; [done| |..|done].
  - intros [Hn H0]. split; [destruct Hs|rewrite Ht]; congruence.
  - intros (Hi & Hr & Hc). split; [destruct Hs as [->|]; auto|]. split.
    + intros H. rewrite Hl. apply quiet_restored; auto.
    + destruct c as [|k|k n]; cbn in *; [done|..]; rewrite Hl.
      * destruct Hc as [Hc|Hc]; [left; by apply closed_stays|]. right. destruct Hs; congruence.
      * destruct Hc as [Hc|Hc]; [left; by apply closed_stays|]. right. auto.
Qed.

Lemma frame_holds t w w' : frame w w' -> holds t w -> holds t w'.
Proof. intros [Hl Hs Ht _ Hd]. by apply holds_later. Qed.

Lemma calm_step s s' w w' :
  (good w -> holds s w -> calm w w') -> weight s' = weight s -> (good w -> holds s w -> holds s w' -> holds s' w') ->
  lane_step s w s' w'.
Proof.
  intros Hc Hw Hh Hg Hs. destruct (Hc Hg Hs Hg) as [Hf Hg']. assert (Hs' := frame_holds s w w' Hf Hs). split; [done|]. split; [auto|].
  split; [left; rewrite (fr_tokens _ _ Hf), Hw; split; [done|apply Hf]|]. intros _ t. by apply frame_holds.
Qed.

Lemma same_step s w : lane_step s w s w.
Proof. apply calm_step; [reflexivity|done|done]. Qed.

Lemma sim_absurd {A} (p : oc A) Q R : (forall a, Q a Absurd) -> (forall e, R e Absurd) -> sim Absurd p Q R.
Proof. intros HQ HR. induction p as [a|e|X op k IH]; cbn; [done..|]. intros w x w' _. exists Absurd. split; [by intros _ []|]. apply IH. Qed.

(** ** Operations *)

(** A stretch; the state after it depends on its result. *)
Lemma sim_stretch {A} s (f : oc_world -> A * oc_world) (F : A -> lane) (Q : A -> lane -> Prop) R :
  (forall w, lane_step s w (F (fst (f w))) (snd (f w))) -> (forall a, Q a (F a)) -> sim s (sync f) Q R.
Proof. intros Hf HQ w x w' Ha. cbn in Ha. specialize (Hf w). rewrite Ha in Hf. exists (F x). split; [exact Hf|apply HQ]. Qed.

Lemma sim_perform_stretch {A} s (f : oc_world -> (js_error + A) * oc_world) (F : A -> lane) (Q : A -> lane -> Prop) (R : js_error -> lane -> Prop) :
  (forall w, lane_step s w (match fst (f w) with inl _ => s | inr a => F a end) (snd (f w))) ->
  (forall a, Q a (F a)) -> (forall e, R e s) -> sim s (perform (Sync f)) Q R.
Proof.
  intros Hf HQ HR. apply simulates_perform. intros w x w' Ha. cbn in Ha. specialize (Hf w). rewrite Ha in Hf.
  eexists. split; [exact Hf|]. destruct x; [apply HR|apply HQ].
Qed.

Lemma sim_effect s f s' (Q : unit -> lane -> Prop) R :
  (forall w, lane_step s w s' (f w)) -> Q tt s' -> sim s (effect f) Q R.
Proof. intros Hf HQ. apply (sim_stretch s (fun w => (tt, f w)) (fun _ => s')); [done|]. by intros []. Qed.

Lemma sim_calm s f (Q : unit -> lane -> Prop) R : (forall w, calm w (f w)) -> Q tt s -> sim s (effect f) Q R.
Proof. intros Hf. apply sim_effect. intros w. by apply calm_step. Qed.

Lemma oc_sim_look {A} s (f : oc_world -> A) (F : A -> lane) (Q : A -> lane -> Prop) R :
  (forall w, weight (F (f w)) = weight s /\ (good w -> holds s w -> holds (F (f w)) w)) -> (forall a, Q a (F a)) -> sim s (look f) Q R.
Proof.
  intros Hf HQ. apply (sim_stretch s (fun w => (f w, w)) F); [|done]. intros w. cbn. destruct (Hf w) as [Hw Hh].
  apply calm_step; [reflexivity|done|auto].
Qed.

Lemma sim_same_look {A} s (f : oc_world -> A) (Q : A -> lane -> Prop) R : (forall a, Q a s) -> sim s (look f) Q R.
Proof. intros HQ. by apply (oc_sim_look s f (fun _ => s)). Qed.

Lemma sim_sleep s ms (Q : unit -> lane -> Prop) R : Q tt s -> sim s (ask (Sleep ms)) Q R.
Proof. intros HQ w [] w' ->. exists s. split; [apply same_step|done]. Qed.

(** ** Requests *)

Lemma sim_send s to path body (Q : Z * content -> lane -> Prop) (R : js_error -> lane -> Prop) :
  (forall a, Q a s) -> (forall e, R e s) -> sim s (send to path body) Q R.
Proof.
  intros HQ HR w x w' ->. exists s. split; [apply same_step|]. destruct x as [[|]|a]; cbn; [apply HR..|apply HQ].
Qed.

Lemma sim_get s path (Q : Z * content -> lane -> Prop) (R : js_error -> lane -> Prop) :
  (forall a, Q a s) -> (forall e, R e s) -> sim s (rawGet path) Q R.
Proof.
  intros HQ HR. unfold rawGet. apply simulates_bind, (sim_perform_stretch s (fun w => (request_target w, w)) (fun _ => s)).
  - intros w. cbn. destruct (request_target w); apply same_step.
  - intros to. by apply sim_send.
  - done.
Qed.

Lemma sim_decoded {A} s (v : option A) (Q : A -> lane -> Prop) (R : js_error -> lane -> Prop) :
  (forall a, Q a s) -> (forall e, R e s) -> sim s (decoded v) Q R.
Proof. intros HQ HR. destruct v; [apply HQ|apply HR]. Qed.

Lemma sim_sessions s (Q : list oc_session -> lane -> Prop) (R : js_error -> lane -> Prop) :
  (forall a, Q a s) -> (forall e, R e s) -> sim s listSessions Q R.
Proof.
  intros HQ HR. unfold listSessions. apply simulates_bind, sim_get; [|done]. intros [st body].
  destruct (st =? 200); [by apply sim_decoded|apply HR].
Qed.

Lemma sim_session s id (Q : option oc_session -> lane -> Prop) (R : js_error -> lane -> Prop) :
  (forall a, Q a s) -> (forall e, R e s) -> sim s (getSession id) Q R.
Proof.
  intros HQ HR. unfold getSession. apply simulates_bind, sim_get; [|done]. intros [st body].
  destruct (st =? 404); [apply HQ|]. destruct (st =? 200); [by apply sim_decoded|apply HR].
Qed.

Lemma sim_messages s id (Q : list oc_message -> lane -> Prop) (R : js_error -> lane -> Prop) :
  (forall a, Q a s) -> (forall e, R e s) -> sim s (listSessionMessages id) Q R.
Proof.
  intros HQ HR. unfold listSessionMessages. apply simulates_bind, sim_get; [|done]. intros [st body].
  destruct (st =? 200); [by apply sim_decoded|apply HR].
Qed.

(** A message that carries the entry or its source is among those found. *)
Definition shows (k : string) (messages : list oc_message) : Prop :=
  existsb (fun m => carries k m || carries (source_of k) m) messages = true.

Lemma find_shows k k' messages id : find_injected k' messages = Some id -> k' = k \/ k' = source_of k -> shows k messages.
Proof.
  unfold find_injected. destruct (List.find _ _) as [m|] eqn:Hf; [|done]. intros _ Hk. apply find_some in Hf as [Hin Hc].
  apply existsb_exists. exists m. split; [by apply in_rev|]. apply orb_true_iff. destruct Hk as [->| ->]; auto.
Qed.

Lemma sim_find s sess k k' (Q : option (string * list oc_message) -> lane -> Prop) (R : js_error -> lane -> Prop) :
  k' = k \/ k' = source_of k ->
  (forall r, (forall id ms, r = Some (id, ms) -> shows k ms) -> Q r s) -> (forall e, R e s) -> sim s (findInjectedMessage sess k') Q R.
Proof.
  intros Hk HQ HR. unfold findInjectedMessage. apply simulates_bind, sim_messages; [|done]. intros ms. apply HQ.
  intros id ms'. destruct (find_injected k' ms) eqn:Hf; [|done]. intros [= <- <-]. by eapply find_shows.
Qed.

Lemma truthy_shows k r ms : (forall id ms, r = Some (id, ms) -> shows k ms) -> truthy r = Some ms -> shows k ms.
Proof.
  intros Hr. unfold truthy. destruct r as [[id ms']|]; cbn; [|done]. destruct (String.eqb id ""); [done|]. intros [= <-]. by eapply Hr.
Qed.

Lemma sim_unseen s known dir (Q : option (oc_session * list string) -> lane -> Prop) (R : js_error -> lane -> Prop) :
  (forall a, Q a s) -> (forall e, R e s) -> sim s (findUnseenTopLevelSession known dir) Q R.
Proof. intros HQ HR. unfold findUnseenTopLevelSession. apply simulates_bind, sim_sessions; [|done]. intros l. apply HQ. Qed.

(** ** The session *)

Lemma current_state w i : ow_state w = Some i -> match ow_owners w !! i with Some o => current w = Some (i, o) | None => current w = None end.
Proof. intros Hs. unfold current. rewrite Hs. cbn. by destruct (ow_owners w !! i). Qed.

Lemma check_bound_calm i bound b w : calm w (snd (check_bound tmpdir i bound b w)).
Proof.
  unfold check_bound. destruct (negb (is_current i w)); [done|]. destruct bound as [s|]; [destruct (isBoundSession s b); [done|]|]; apply clear_binding_calm.
Qed.

Lemma save_found_calm i found w : restored (ow_log w) = true -> calm w (snd (save_found tmpdir i found w)).
Proof.
  intros Hr. unfold save_found. destruct (negb (is_current i w)); [done|]. destruct found as [[s known]|]; [|done].
  destruct (saveBinding tmpdir s known w) as [w'|] eqn:Hs; [|done]. by eapply save_calm.
Qed.

Lemma sim_resolve i r c dir n (Q : option oc_session -> lane -> Prop) (R : js_error -> lane -> Prop) :
  (forall r', Q None (Lane i r' c)) -> (forall t, Q (Some t) (Lane i true c)) -> (forall e r', R e (Lane i r' c)) ->
  sim (Lane i r c) (resolveInjectionSession tmpdir i dir n) Q R.
Proof.
  intros HN HS HR. unfold resolveInjectionSession. apply simulates_bind.
  apply (sim_stretch _ _ (fun b => match b with Some _ => Lane i true c | None => Lane i r c end)).
  - intros w. destruct (is_current i w); [|apply same_step]. apply calm_step; [intros; apply restore_calm|by case_match|].
    intros Hg _ (Hi & Hr & Hc). destruct (restore_spec tmpdir source_of d w Hg) as (_ & _ & Hres).
    destruct (fst (restoreBinding tmpdir w)); split; auto.
  - intros [b|]; [|apply HN]. apply simulates_bind, sim_session; [|intros; apply HR]. intros bound.
    apply simulates_bind, (sim_stretch _ _ (fun _ => Lane i true c)).
    { intros w. apply calm_step; [intros; apply check_bound_calm|done|done]. }
    intros [[|]|]; [..|apply HN].
    + apply simulates_bind, simulates_attempt, sim_unseen; intros found; apply simulates_bind.
      * apply (sim_perform_stretch _ _ (fun _ => Lane i true c)); [|intros saved; apply simulates_bind, sim_same_look; intros [|]|].
        -- intros w. apply calm_step; [intros _ (_ & Hr & _); apply save_found_calm; auto|by case_match|by case_match].
        -- cbn. destruct saved; [apply HS|]. destruct bound; [apply HS|apply HN].
        -- apply HN.
        -- intros e. apply HR.
      * apply (sim_perform_stretch _ _ (fun _ => Lane i true c)); [|intros saved; apply simulates_bind, sim_same_look; intros [|]|].
        -- intros w. apply calm_step; [intros; apply failure_calm|done|done].
        -- cbn. destruct saved; [apply HS|]. destruct bound; [apply HS|apply HN].
        -- apply HN.
        -- intros e. apply HR.
    + apply simulates_bind, sim_unseen; [|intros; apply HR]. intros found.
      apply (sim_perform_stretch _ _ (fun _ => Lane i true c)); [|intros [t|]; [apply HS|apply HN]|intros; apply HR].
      intros w. apply calm_step; [intros _ (_ & Hr & _); apply save_found_calm; auto|by case_match|by case_match].
Qed.

(** ** The submission *)

Lemma submitted_covers log k s t l : covers log l -> k ∈ map fst l -> covers (Submitted k s t :: log) l.
Proof. intros Hc Hk k' Ho. cbn in Ho. apply orb_true_iff in Ho as [<-%String.eqb_eq|Ho]; auto. Qed.

Lemma put_pending_owner log k p o :
  ps_source p = source_of k -> owner_ok log o -> owner_ok log (set_pending (put k p (o_pending o)) o).
Proof.
  intros Hp [Hd Hc Hs Hu]. split; cbn; try done; [|by apply Forall_put]. intros Hr k' Hk'. apply keys_put. right. by apply Hc.
Qed.

(** What was written, when the write worked. *)
Lemma persisted w i o :
  current w = Some (i, o) -> fst (persistCurrentBinding tmpdir w) = true ->
  is_Some (o_bound o) /\
  ow_files (snd (persistCurrentBinding tmpdir w)) !! bindingPath tmpdir (o_deps o) =
    Some (binding_content (binding_of o (default (BoundSession "" 0) (o_bound o)) (o_known o))) /\
  exists o', current (snd (persistCurrentBinding tmpdir w)) = Some (i, o') /\ o_pending o' = o_pending o.
Proof.
  intros Hc. unfold persistCurrentBinding. rewrite Hc. unfold bound_id.
  destruct (o_bound o) as [s|]; cbn; [|done]. destruct (String.eqb (bs_sessionId s) ""); [done|].
  unfold writeBinding. rewrite Hc. unfold replace_file, works. cbn. destruct (ow_works w (ow_calls w)); cbn; [|done]. intros _.
  split; [done|]. split; [by rewrite lookup_insert_eq|]. exists (set_bound (Some s) (o_known o) o).
  split; [|done]. apply current_some in Hc as [Hs Ho]. rewrite Hs. cbn. by rewrite list_lookup_alter_eq, Ho.
Qed.

Lemma persisted_current w : fst (persistCurrentBinding tmpdir w) = true -> exists i o, current w = Some (i, o).
Proof. unfold persistCurrentBinding. destruct (current w) as [[i o]|]; [eauto|done]. Qed.

Lemma holds_state i w w' : frame w w' -> ow_state w = Some i \/ ow_state w = None -> ow_state w' = Some i \/ ow_state w' = None.
Proof. intros [_ [->|] _ _ _]; auto. Qed.

Lemma submit_step i x target w :
  delivery_sourced source_of x ->
  lane_step (Lane i true (Clear (dl_entryId x))) w (Lane i true NoClaim) (snd (submit tmpdir i x target w)).
Proof.
  intros Hx. unfold submit. set (k := dl_entryId x). set (p := PendingSubmission (dl_sourceEntryId x) target).
  set (w1 := on_owner i (fun o => set_pending (put k p (o_pending o)) o) w).
  assert (H1 : calm w w1).
  { apply calm_owner_ok; [done|done|done|]. intros _ o Ho. apply put_pending_owner; [exact Hx|exact Ho]. }
  assert (H2 : calm w1 (snd (persistCurrentBinding tmpdir w1))) by apply persist_calm.
  assert (Hcur := persisted_current w1). assert (Hdur := persisted w1).
  destruct (persistCurrentBinding tmpdir w1) as [durable w2]. cbn [fst snd] in *.
  assert (H12 : calm w w2) by (by etrans).
  destruct durable; cbn [negb snd].
  - destruct (Hcur eq_refl) as (j & o1 & Hc1). destruct (Hdur j o1 Hc1 eq_refl) as (Hb & Hfile & o2 & Hc2 & Hp2).
    destruct (request_target w2) as [e|to] eqn:Ht; cbn [snd]; [apply calm_step; [done|done|by intros _ _ (? & ? & _)]|].
    intros Hg (Hi & Hr & Hclear). destruct (H1 Hg) as [F1 G1]. destruct (H2 G1) as [F2 G2]. assert (F12 : frame w w2) by (by etrans).
    assert (Hs1 : ow_state w = Some j) by (by apply current_some in Hc1 as [? _]).
    assert (j = i) as -> by (destruct Hi; congruence).
    assert (Hopen : open_post k (ow_log w2) = false) by (destruct Hclear as [?|?]; [by eapply frame_closed|congruence]).
    assert (Hres : restored (ow_log w2) = true) by (eapply frame_restored; [exact F12|by apply Hr]).
    assert (Hk : k ∈ map fst (o_pending o1)).
    { apply current_on_owner in Hc1 as (o & _ & ->). rewrite decide_True by done. apply keys_put. by left. }
    assert (Hd1 : o_deps o1 = d) by (eapply oo_deps, b_owner; [apply G1|exact Hc1]). rewrite Hd1 in Hfile.
    split; [|split; [|split; [left; split; [change (1 + tokens w2 = 1 + tokens w)%nat; by rewrite (fr_tokens _ _ F12)|exact (fr_idle _ _ F12)]|done]]].
    + destruct G2 as [[Gp Gd Gx Go Gb Gj Gs] Gbd]. split; [split; try assumption|exact Gbd].
      * by split.
      * intros c b Hf Hm. destruct (Gd c b Hf Hm) as [Hcov Hsrc]. split; [|done]. apply submitted_covers; [done|].
        change (ow_files w2 !! bindingPath tmpdir d = Some c) in Hf. rewrite Hfile in Hf. injection Hf as <-.
        apply binding_printed in Hm. by rewrite Hm.
      * intros j o Ho. change (current w2 = Some (j, o)) in Ho. assert (Hok := Go j o Ho). rewrite Hc2 in Ho. injection Ho as <- <-.
        destruct Hok as [Od Oc Os Ou]. split; try done. intros _. apply submitted_covers; [auto|by rewrite Hp2].
    + split; [exact (holds_state i w w2 F12 Hi)|]. split; [by intros _|done].
  - intros Hg Hh. assert (Hh' := Hh). destruct Hh' as (Hi & _ & Hclear). apply calm_step; [|done|by intros _ _ (? & ? & _)|done|done].
    intros _ _. etrans; [exact H12|]. destruct (H12 Hg) as [F12 G12]. destruct Hclear as [Hclear|Hclear].
    + apply drop_pending_calm. by eapply frame_closed.
    + apply gone_calm; [destruct (fr_state _ _ F12); congruence|done|done].
Qed.

(** ** One delivery *)

Section Delivery.
Variables (i n : nat) (x : delivery).
Hypothesis x_sourced : delivery_sourced source_of x.
Local Abbreviation k := (dl_entryId x).

Definition ended (o : delivery_outcome) (s : lane) : Prop :=
  exists r c, s = Lane i r c /\ (o = WasDelivered -> c = Over k n).
Definition in_lane (_ : js_error) (s : lane) : Prop := exists r c, s = Lane i r c.

Lemma ended_over r : ended WasDelivered (Lane i r (Over k n)).
Proof. by exists r, (Over k n). Qed.

Lemma ended_other o r c : o <> WasDelivered -> ended o (Lane i r c).
Proof. intros Ho. by exists r, c. Qed.

Lemma over_step r c f :
  (forall w, calm w (f w)) -> (forall w, good w -> open_post k (ow_log (f w)) = false) ->
  forall w, lane_step (Lane i r c) w (Lane i r (Over k n)) (f w).
Proof. intros Hf Ho w. apply calm_step; [done|done|]. intros Hg _ (? & ? & _). repeat split; auto. left. by apply Ho. Qed.

Lemma sim_source r c (Q : bool -> lane -> Prop) (R : js_error -> lane -> Prop) :
  Q true (Lane i r c) -> Q false (Lane i r (Over k n)) -> (forall e, R e (Lane i r c)) ->
  sim (Lane i r c) (sourcePending tmpdir n x) Q R.
Proof.
  intros HT HF HR. unfold sourcePending. destruct (negb (dl_gated x)); [exact HT|].
  apply simulates_bind, simulates_perform. intros w a w' ->. exists (Lane i r c). split; [apply same_step|].
  destruct a as [e|[|]]; [apply HR|exact HT|]. apply simulates_bind, (sim_effect _ _ (Lane i r (Over k n))); [|exact HF].
  apply over_step.
  - intros w1. etrans; [|apply settle_calm]. by apply calm_on_delivery.
  - intros w1 Hg. rewrite x_sourced. set (w2 := on_delivery n dl_set_settled w1).
    assert (Hg2 : good w2) by (by apply (calm_on_delivery tmpdir source_of d n dl_set_settled w1)).
    by apply (settled_source_closed tmpdir source_of d k w2).
Qed.

Lemma sim_find_delivered s sess (Q : option (string * list oc_message) -> lane -> Prop) (R : js_error -> lane -> Prop) :
  (forall r, (forall id ms, r = Some (id, ms) -> shows k ms) -> Q r s) -> (forall e, R e s) -> sim s (find_delivered x sess) Q R.
Proof.
  intros HQ HR. unfold find_delivered. apply simulates_bind, (sim_find s sess k); [by left| |done]. intros [[id ms]|] Hr.
  - by apply HQ.
  - destruct (String.eqb (dl_sourceEntryId x) k); [by apply HQ|]. apply (sim_find s sess k); [right; exact x_sourced|done|done].
Qed.

Lemma sim_found r c ms (R : js_error -> lane -> Prop) :
  shows k ms -> sim (Lane i r c) (do! effect (found_in tmpdir i x ms); Ret WasDelivered) ended R.
Proof.
  intros Hms. apply simulates_bind, (sim_effect _ _ (Lane i r (Over k n))); [|apply ended_over]. apply over_step.
  - intros w. by apply found_calm.
  - intros w Hg. assert (Hc : open_post k (ow_log (logged (Listed ms) w)) = false) by (by apply listed_closes).
    assert (Hg1 : good (logged (Listed ms) w)) by (by apply (calm_logged tmpdir source_of d (Listed ms) w)).
    destruct (clear_pending_calm tmpdir source_of d i k _ Hc Hg1) as [Hf _]. by eapply frame_closed.
Qed.

Lemma sim_failure s e m (Q : unit -> lane -> Prop) R : Q tt s -> sim s (effect (failure i m e)) Q R.
Proof. apply sim_calm. intros w. apply failure_calm. Qed.

(** Whether the delivery was settled, or the connection lost. *)
Lemma sim_interrupted r c f (o : delivery_outcome) (Q : option delivery_outcome -> lane -> Prop) R :
  o <> WasDelivered -> (forall w, f w = interrupted i n o w) ->
  Q None (Lane i r c) -> Q (Some o) (Lane i r c) -> Q (Some WasDelivered) (Lane i r (Over k n)) -> sim (Lane i r c) (look f) Q R.
Proof.
  intros Ho Hf HN HS HD.
  intros w a w' Ha. cbn in Ha. injection Ha as <- <-. rewrite Hf. unfold interrupted. destruct (settled n w) eqn:Hs.
  - exists (Lane i r (Over k n)). split; [|exact HD]. apply calm_step; [done|done|]. intros _ _ (? & ? & _). repeat split; auto. by right.
  - exists (Lane i r c). split; [apply same_step|]. by destruct (usable i w).
Qed.

Lemma sim_retried s (Q : unit -> lane -> Prop) R : Q tt s -> sim s (effect (retried i n)) Q R.
Proof. apply sim_calm. intros w. apply retried_calm. Qed.

Lemma sim_seek sess r c (rest : oc delivery_outcome) :
  sim (Lane i r c) rest ended in_lane ->
  sim (Lane i r c) (let! found := attempt (findInjectedMessage sess k) in
    match map_ok truthy found with
    | inr (Some messages) => do! effect (found_in tmpdir i x messages); Ret WasDelivered
    | inr None => rest
    | inl e => do! effect (failure i (dl_sequence x) e); rest
    end) ended in_lane.
Proof.
  intros Hrest. apply simulates_bind, simulates_attempt, (sim_find _ _ k); [by left|..].
  - intros found Hf. cbn [map_ok]. destruct (truthy found) as [ms|] eqn:Ht; [|exact Hrest]. apply sim_found. by eapply truthy_shows.
  - intros e. cbn [map_ok]. apply simulates_bind, sim_failure, Hrest.
Qed.

Lemma sim_confirming sess delays r c : sim (Lane i r c) (confirming tmpdir i n x sess delays) ended in_lane.
Proof.
  revert r c. induction delays as [|[[] delay] delays IH]; intros r c; cbn [confirming]; [by apply ended_other|..].
  - apply simulates_bind. cbn [simulates]. by apply sim_seek.
  - apply simulates_bind, simulates_bind, sim_retried, simulates_bind, sim_sleep. intros w a w' Ha. cbn in Ha. unfold interrupted in Ha.
    destruct (settled n w) eqn:Hs; [|destruct (usable i w)]; injection Ha as <- <-.
    + exists (Lane i r (Over k n)). split; [|apply ended_over]. apply calm_step; [done|done|]. intros _ _ (? & ? & _). repeat split; auto. by right.
    + exists (Lane i r c). split; [|by apply sim_seek]. apply calm_step; [|done|done]. intros _ _. by apply calm_on_delivery.
    + exists (Lane i r c). split; [apply same_step|]. by apply ended_other.
Qed.

Lemma submitted_outcome answer w :
  fst (submitted tmpdir i n x answer w) = None \/ fst (submitted tmpdir i n x answer w) = Some WasFailed.
Proof. unfold submitted. destruct answer; [by left|]. case_match; [by left|by right]. Qed.

Lemma sim_submitting target : sim (Lane i true (Clear k)) (submitting tmpdir i n x target) ended in_lane.
Proof.
  unfold submitting. apply simulates_bind. intros w a w' Ha. cbn in Ha. injection Ha as <- <-. destruct (settled n w) eqn:Hs.
  { exists (Lane i true (Over k n)). split; [|apply ended_over]. apply calm_step; [done|done|]. intros _ _ (? & ? & _). repeat split; auto. by right. }
  exists (Lane i true (Clear k)). split; [apply same_step|]. apply simulates_bind, sim_source; [..|intros e; by eexists _, _].
  - cbn [negb]. apply simulates_bind, (sim_stretch _ _ (fun _ => Lane i true NoClaim)); [intros w1; by apply submit_step|].
    intros [request|]; [|by apply ended_other]. apply simulates_bind, simulates_attempt.
    assert (Hnext : forall answer : js_error + Z, sim (Lane i true NoClaim)
      (let! stop := sync (submitted tmpdir i n x answer) in
       match stop with Some o => Ret o | None => confirming tmpdir i n x target rounds end) ended in_lane).
    { intros answer. apply simulates_bind. intros w1 stop w2 Ha. cbn in Ha.
      assert (Hstop := submitted_outcome answer w1).
      assert (Hc := submitted_calm tmpdir source_of d i n x answer w1). rewrite Ha in Hstop, Hc. cbn [fst snd] in Hstop, Hc.
      exists (Lane i true NoClaim). split; [by apply calm_step|]. destruct Hstop as [-> | ->]; [apply sim_confirming|by apply ended_other]. }
    destruct request as [e|to]; [apply Hnext|]. unfold promptSession. apply simulates_bind, sim_send; [intros [status body]|intros e]; apply Hnext.
  - apply ended_over.
Qed.

Lemma sim_marked r c target (Q : option pending_submission -> lane -> Prop) R :
  (forall p, Q (Some p) (Lane i r c)) -> Q None (Lane i r (if r then Clear k else c)) ->
  sim (Lane i r c) (sync (marked i n x target)) Q R.
Proof.
  intros HS HN. apply (sim_stretch _ _ (fun a => match a with Some _ => Lane i r c | None => Lane i r (if r then Clear k else c) end)).
  - intros w. unfold marked. cbn [fst snd].
    assert (Hc : forall s, calm w (on_delivery n (dl_set_session s) w)) by (intros; by apply calm_on_delivery).
    destruct (ow_owners w !! i) as [o|] eqn:Ho; [destruct (assoc k (o_pending o)) as [p|] eqn:Hp|].
    + by apply calm_step.
    + apply calm_step; [done|done|]. intros Hg (Hi & Hr & Hcl) (Hi' & _ & Hcl'). split; [done|]. split; [done|].
      destruct r; [|done]. destruct Hi as [Hi|Hi]; [left|by right]. apply covers_absent with (o_pending o); [|done].
      apply (oo_covers _ _ _ _ (b_owner _ _ _ _ (proj1 Hg) i o ltac:(by apply current_some))). by apply Hr.
    + apply calm_step; [done|done|]. intros Hg (Hi & Hr & Hcl) (Hi' & _ & Hcl'). split; [done|]. split; [done|].
      destruct r; [|done]. destruct Hi as [Hi|Hi]; [|by right]. destruct (b_state _ _ _ _ (proj1 Hg) i Hi) as [? ?]. congruence.
  - intros [p|]; [apply HS|exact HN].
Qed.

Lemma sim_targeting r c dir target (Q : js_error + option oc_session -> lane -> Prop) R :
  (target <> None -> r = true) ->
  (forall e r', Q (inl e) (Lane i r' c)) -> (forall r', Q (inr None) (Lane i r' c)) -> (forall t, Q (inr (Some t)) (Lane i true c)) ->
  sim (Lane i r c) (targeting tmpdir i x dir target) Q R.
Proof.
  intros Hr HE HN HS. unfold targeting. destruct target as [t|]; [rewrite Hr by done; apply HS|].
  apply simulates_attempt, sim_resolve; auto.
Qed.

Lemma sim_pause (first : bool) delay r c (Q : option delivery_outcome -> lane -> Prop) R :
  Q None (Lane i r c) -> Q (Some WasFailed) (Lane i r c) -> Q (Some WasDelivered) (Lane i r (Over k n)) ->
  sim (Lane i r c) (if first then Ret None else do! effect (retried i n); do! ask (Sleep delay); look (interrupted i n WasFailed)) Q R.
Proof.
  intros HN HF HD. destruct first; [exact HN|]. apply simulates_bind, sim_retried, simulates_bind, sim_sleep. eapply (sim_interrupted _ _ _ WasFailed); [done|done|exact HN|exact HF|exact HD].
Qed.

Lemma sim_delivering dir delays r c target :
  (target <> None -> r = true) -> sim (Lane i r c) (delivering tmpdir i n x dir delays target) ended in_lane.
Proof.
  revert r c target. induction delays as [|[first delay] delays IH]; intros r c target Hr; cbn [delivering].
  { destruct (dl_allowSubmit x); by apply ended_other. }
  apply simulates_bind. eapply (sim_interrupted _ _ _ WasFailed); [done|done| |by apply ended_other|apply ended_over].
  apply simulates_bind, sim_source; [cbn [negb]|apply ended_over|intros e; by eexists _, _].
  apply simulates_bind, sim_pause; [|by apply ended_other|apply ended_over].
  apply simulates_bind, sim_targeting; [done|..].
  - intros e r'. apply simulates_bind, sim_failure. by apply IH.
  - intros r'. apply simulates_bind, sim_failure. by apply ended_other.
  - intros t. apply simulates_bind.
    assert (Hfind : forall c' sess rest, sim (Lane i true c') rest ended in_lane ->
      sim (Lane i true c') (let! found := attempt (find_delivered x sess) in
        match map_ok truthy found with
        | inl e => do! effect (failure i (dl_sequence x) e); delivering tmpdir i n x dir delays (Some t)
        | inr (Some messages) => do! effect (found_in tmpdir i x messages); Ret WasDelivered
        | inr None => rest
        end) ended in_lane).
    { intros c' sess rest Hrest. apply simulates_bind, simulates_attempt, sim_find_delivered.
      - intros found Hf. cbn [map_ok]. destruct (truthy found) as [ms|] eqn:Ht; [|exact Hrest]. apply sim_found. by eapply truthy_shows.
      - intros e. cbn [map_ok]. apply simulates_bind, sim_failure. by apply IH. }
    apply sim_marked.
    + intros p. apply Hfind. apply simulates_bind, sim_calm; [intros w; by apply calm_on_delivery|]. apply sim_confirming.
    + apply Hfind. destruct (negb (dl_allowSubmit x)); [by apply IH|]. apply sim_submitting.
Qed.

Lemma sim_deliver dir r c : sim (Lane i r c) (deliverOpenCodeEntry tmpdir i n x dir) ended in_lane.
Proof. by apply sim_delivering. Qed.

(** ** The end of a delivery *)

Lemma noted_calm o w :
  calm w (on_owner i (fun o' => set_active (drop_key k (o_active o')) o')
    (on_owner i (fun o' => updateLastOpenCodeObservation (dl_sequence x) (outcome_observation o o') o') w)).
Proof.
  etrans; [apply (calm_on_owner _ _ _ i (fun o' => updateLastOpenCodeObservation (dl_sequence x) (outcome_observation o o') o'));
    intros; apply core_update|]. apply calm_on_owner. intros; apply core_active.
Qed.

Lemma resolve_calm b w : calm w (on_delivery n (dl_resolve b) w).
Proof. by apply calm_on_delivery. Qed.

Lemma remember_failed_calm w : calm w (on_owner i (fun o =>
  set_failed (rememberBounded (o_failed o) k (dl_text x) (dl_sourceEntryId x)) (set_unconfirmed (drop_key k (o_unconfirmed o)) o)) w).
Proof.
  apply calm_on_owner. intros o. etrans; [apply core_drop_unconfirmed with (k := k)|]. apply core_failed. intros _. apply remember_bounded.
Qed.

Lemma remember_unconfirmed_calm w : calm w (on_owner i (fun o =>
  set_unconfirmed (rememberBounded (o_unconfirmed o) k (dl_text x) (dl_sourceEntryId x)) (set_failed (drop_key k (o_failed o)) o)) w).
Proof.
  apply calm_on_owner. intros o. etrans; [apply core_drop_failed with (k := k)|].
  apply core_unconfirmed; [intros _; apply remember_bounded|]. intros Hs. by apply remember_sourced.
Qed.

Lemma conclude_calm result w :
  (result = inr WasDelivered -> open_post k (ow_log w) = false \/ settled n w = true) -> calm w (conclude tmpdir i n x result w).
Proof.
  intros Hres. unfold conclude. cbv zeta.
  destruct result as [e|o].
  - etrans; [apply (failure_calm _ _ _ i (dl_sequence x) e)|]. etrans; [apply (noted_calm WasFailed)|]. case_match; [apply resolve_calm|].
    etrans; [apply remember_failed_calm|apply resolve_calm].
  - etrans; [apply (noted_calm o)|]. destruct (settled n _) eqn:Hs; [apply resolve_calm|]. destruct o.
    + etrans; [|apply resolve_calm]. apply confirm_calm. destruct (Hres eq_refl) as [Ho|Ho]; [exact Ho|].
      change (settled n w = false) in Hs. congruence.
    + etrans; [apply remember_unconfirmed_calm|].
      match goal with |- context [dl_resolve ?b] => set (accepted := b) end.
      destruct accepted; [etrans; [apply (resolve_calm true)|apply schedule_calm]|apply resolve_calm].
    + etrans; [apply remember_failed_calm|apply resolve_calm].
Qed.
End Delivery.

(** The loop over the queue: it ends, or goes on with the next delivery. *)
Lemma next_step i r c now w :
  lane_step (Lane i r c) w
    (match fst (next_delivery i now w) with
     | Some (_, x, _) => if decide (dl_sourceEntryId x = source_of (dl_entryId x)) then Lane i r NoClaim else Absurd
     | None => Aside
     end) (snd (next_delivery i now w)).
Proof.
  assert (Hstop : lane_step (Lane i r c) w Aside (on_owner i (set_processing false) w)).
  { intros [Hg Hbd] _. split; [|split; [done|split; [|done]]].
    - split; [apply base_on_owner; [exact Hg| |done]|]. { intros o _ Ho. destruct Ho. split; assumption. } apply bound_on_owner; [exact Hbd|]. intros o Hc Hs. by apply (Hbd i o).
    - right. right. cbn. unfold tokens. cbn. lia. }
  unfold next_delivery. destruct (ow_owners w !! i) as [o|]; [|exact Hstop].
  destruct (if is_current i w then o_queue o else []) as [|m rest]; [exact Hstop|].
  destruct (ow_deliveries w !! m) as [x|] eqn:Hx; [|exact Hstop]. cbn [fst snd].
  set (w' := on_owner i _ w).
  assert (Hc : calm w w') by (apply calm_on_owner; intros o'; etrans; [apply (core_queue _ rest)|apply core_update]).
  intros Hg. assert (Hs := Forall_lookup_1 _ _ _ _ (b_deliveries _ _ _ _ (proj1 Hg)) Hx). rewrite decide_True by exact Hs.
  revert Hg. apply calm_step; [done|done|]. by intros _ _ (? & ? & _).
Qed.

Lemma oc_sim_process fuel i r c :
  sim (Lane i r c) (processOpenCodeDeliveries tmpdir fuel i) (fun _ _ => True) (fun _ _ => True).
Proof.
  revert r c. induction fuel as [|fuel IH]; intros r c; [done|]. cbn [processOpenCodeDeliveries]. apply simulates_bind.
  intros w now w' ->. exists (Lane i r c). split; [apply same_step|]. apply simulates_bind.
  apply (sim_stretch _ _ (fun a => match a with
     | Some (_, x, _) => if decide (dl_sourceEntryId x = source_of (dl_entryId x)) then Lane i r NoClaim else Absurd
     | None => Aside end)); [intros w1; apply next_step|].
  intros [[[n x] dir]|]; [|done]. destruct (decide (dl_sourceEntryId x = source_of (dl_entryId x))) as [Hx|]; [|by apply sim_absurd].
  apply simulates_bind, simulates_attempt. eapply simulates_mono; [by apply (sim_deliver i n x)|..].
  - intros o s (r' & c' & -> & Ho). apply simulates_bind, (sim_effect _ _ (Lane i r' c')); [|apply IH].
    intros w1. apply calm_step; [|done|done]. intros _ (_ & _ & Hc). apply conclude_calm; [done|]. intros [= ->].
    by rewrite (Ho eq_refl) in Hc.
  - intros e s (r' & c' & ->). apply simulates_bind, sim_calm; [|apply IH]. intros w1. by apply conclude_calm.
Qed.

(** ** Reconciliation *)

Lemma still_calm i n x w : calm w (snd (still_unconfirmed i n x w)).
Proof.
  unfold still_unconfirmed. case_match; [done|]. case_match; [|done]. case_match; [|done]. apply calm_on_owner. intros o. apply core_counts.
Qed.

Lemma sim_reconciling m i n x sess (Q : unit -> lane -> Prop) (R : js_error -> lane -> Prop) :
  delivery_sourced source_of x -> Q tt Aside -> sim Aside (reconciling tmpdir m i n x sess) Q R.
Proof.
  intros Hx HQ. induction m as [|m IH]; [exact HQ|]. cbn [reconciling]. apply simulates_bind, sim_sleep, simulates_bind.
  apply (sim_stretch _ _ (fun _ => Aside)); [intros w; apply calm_step; [intros; apply still_calm|done|done]|]. intros [|]; cbn [negb]; [|exact HQ].
  apply simulates_bind, simulates_attempt, (sim_find _ _ (dl_entryId x)); [by left|..].
  - intros found Hf. cbn [map_ok]. destruct (truthy found) as [ms|] eqn:Ht; [|exact IH]. apply sim_calm; [|exact HQ]. intros w.
    case_match; [done|]. etrans; [by apply (calm_logged _ _ _ (Listed ms))|]. apply confirm_calm. apply listed_closes. by eapply truthy_shows.
  - intros e. cbn [map_ok]. apply simulates_bind, sim_calm; [intros w; apply failure_calm|exact IH].
Qed.

Lemma sim_reconcile i n sess : sim Aside (reconcile tmpdir i n sess) (fun _ _ => True) (fun _ _ => True).
Proof.
  unfold reconcile. apply simulates_bind. intros w a w' Ha. cbn in Ha. injection Ha as <- <-.
  destruct (ow_deliveries w !! n) as [x|] eqn:Hx; [|exists Aside; split; [apply same_step|done]].
  destruct (decide (dl_sourceEntryId x = source_of (dl_entryId x))) as [Hs|Hs].
  - exists Aside. split; [apply same_step|]. unfold pfinally. apply simulates_bind, simulates_attempt, sim_reconciling; [done|].
    apply simulates_bind, sim_calm; [|done]. intros w'. apply calm_on_owner. intros o. apply core_reconciling.
  - exists Absurd. split; [|cbv beta iota; by apply (sim_absurd (A := unit))]. intros Hg. destruct Hs. apply (Forall_lookup_1 _ _ _ _ (b_deliveries _ _ _ _ (proj1 Hg)) Hx).
Qed.

(** ** Injecting *)

(** A calm stretch, or one that starts the loop over an idle connection's queue. *)
Definition nudge (w w' : oc_world) : Prop :=
  good w ->
  good w' /\ (forall t, holds t w -> holds t w') /\
  ((tokens w' = tokens w /\ (idle w' -> idle w)) \/ (idle w /\ ~ idle w' /\ tokens w' = S (tokens w))).

Lemma calm_nudge w w' : calm w w' -> nudge w w'.
Proof.
  intros Hc Hg. destruct (Hc Hg) as [Hf Hg']. split; [done|]. split; [intros t; by apply frame_holds|]. left. split; apply Hf.
Qed.

Lemma nudge_after w w1 w' : calm w w1 -> nudge w1 w' -> nudge w w'.
Proof.
  intros Hc Hn Hg. destruct (Hc Hg) as [Hf Hg1]. destruct (Hn Hg1) as (Hg' & Hh & Ht). split; [done|].
  split; [intros t H; by apply Hh, (frame_holds t w)|]. destruct Hf as [_ _ Hft Hfi _].
  destruct Ht as [[Ht Hi]|(Hi & Hni & Ht)]; [left|right]; repeat split; auto; congruence.
Qed.

Lemma nudge_step w w' : nudge w w' -> lane_step Aside w Aside w'.
Proof.
  intros Hn Hg _. destruct (Hn Hg) as (Hg' & Hh & Ht). split; [done|]. split; [done|]. split; [|auto].
  destruct Ht as [[Ht Hi]|(Hi & Hni & Ht)]; [left|right; left]; cbn; repeat split; auto; lia.
Qed.

Lemma enqueue_nudge i n k w : ow_state w = Some i -> nudge w (enqueue i n k w).
Proof.
  intros Hs. unfold enqueue. set (w1 := on_owner i _ w).
  assert (H1 : calm w w1).
  { apply calm_on_owner. intros o. etrans; [apply (core_drop_unconfirmed _ k)|].
    etrans; [apply (core_drop_failed _ k)|]. etrans; [|apply core_queue]. apply core_active. }
  eapply nudge_after; [exact H1|]. destruct (ow_owners w1 !! i) as [o|] eqn:Ho; [|by apply calm_nudge].
  destruct (o_processing o) eqn:Hp; [by apply calm_nudge|].
  assert (Hs1 : ow_state w1 = Some i) by exact Hs. clearbody w1. clear w H1 Hs. intros [Hg Gbd].
  assert (Hb2 : base (on_owner i (set_processing true) w1)).
  { apply base_on_owner; [exact Hg| |done]. intros o' _ Hok. destruct Hok. split; assumption. }
  split; [|split].
  - split; [|apply (bound_on_owner i (set_processing true) w1); [exact Gbd|intros o' Hc Hs2; by apply (Gbd i o')]]. destruct Hb2 as [Bp Bd Bx Bo Bb Bj Bs]. split; try assumption.
    intros j Hj. apply elem_of_app in Hj as [Hj|Hj%list_elem_of_singleton]; [by apply Bj|]. injection Hj as ->. by left.
  - intros t. apply holds_later; [by exists []|by left|done|cbn; congruence].
  - right. split; [exists i, o; split; [by apply current_some|done]|]. split.
    + intros (j & o' & Hc & Hpr). change (current (on_owner i (set_processing true) w1) = Some (j, o')) in Hc.
      apply current_on_owner in Hc as (o1 & Hc & ->). apply current_some in Hc as [Hc _].
      rewrite decide_True in Hpr by congruence. done.
    + unfold tokens. cbn. rewrite List.filter_app, length_app. cbn. lia.
Qed.

Lemma mismatch_calm i k text src w : calm w (snd (mismatch i k text src w)).
Proof. apply calm_on_owner. intros o. apply core_failed. intros _. apply remember_bounded. Qed.

Lemma add_calm i k src text allow acc sess gated st res w :
  src = source_of k -> calm w (snd (add_delivery i k src text allow acc sess gated st res w)).
Proof.
  intros Hk. unfold add_delivery. assert (H := next_sequence_calm tmpdir source_of d i w). destruct (next_sequence i w) as [m w1]. cbn [snd] in *.
  etrans; [exact H|]. by apply calm_add_delivery.
Qed.

Lemma add_state i k src text allow acc sess gated st res w : ow_state (snd (add_delivery i k src text allow acc sess gated st res w)) = ow_state w.
Proof. unfold add_delivery, next_sequence. by destruct (ow_owners w !! i). Qed.

Lemma inject_new_nudge i o text k allow src gated w :
  ow_state w = Some i -> src = source_of k -> nudge w (snd (inject_new i o text k allow src gated w)).
Proof.
  intros Hs Hk. unfold inject_new. destruct (assoc k (o_delivered o)) as [r|].
  { destruct (same_entry r text src); apply calm_nudge; [done|apply mismatch_calm]. }
  destruct (assoc k (o_unconfirmed o)) as [r|].
  { destruct (negb (same_entry r text src)); [apply calm_nudge, mismatch_calm|]. destruct (assoc k (o_pending o)) as [p|]; [|by apply calm_nudge].
    assert (H := fun st res => add_calm i k src text false true (Some (ps_session p)) false st res w Hk).
    specialize (H DeliveredUnconfirmed (Some true)). destruct (add_delivery _ _ _ _ _ _ _ _ _ _ w) as [n w1]. cbn [snd] in *.
    apply calm_nudge. etrans; [exact H|apply schedule_calm]. }
  destruct (assoc k (o_active o)) as [n|].
  { destruct (ow_deliveries w !! n); [|by apply calm_nudge]. case_match; apply calm_nudge; [done|apply mismatch_calm]. }
  assert (H := add_calm i k src text allow false None gated Queued None w Hk).
  assert (Hst := add_state i k src text allow false None gated Queued None w).
  destruct (add_delivery _ _ _ _ _ _ _ _ _ _ w) as [n w1]. cbn [snd] in *. eapply nudge_after; [exact H|]. apply enqueue_nudge. congruence.
Qed.

Lemma inject_nudge depth : forall text k allow src gated w, src = source_of k -> nudge w (snd (inject tmpdir depth text k allow src gated w)).
Proof.
  induction depth as [|depth IH]; intros text k allow src gated w Hk; [by apply calm_nudge|]. cbn [inject].
  destruct (current w) as [[i o]|] eqn:Hc; [|by apply calm_nudge]. destruct (negb (o_connected o)); [by apply calm_nudge|].
  set (w1 := snd (restoreBinding tmpdir w)). assert (H1 : calm w w1) by apply restore_calm. cbv zeta.
  destruct (ow_owners w1 !! i) as [o1|] eqn:Ho1; [|by apply calm_nudge].
  intros Hg. destruct (H1 Hg) as [F1 G1]. revert Hg. change (nudge w (snd (match other_source ps_source k src (o_pending o1) with
    | Some (pendingId, _) => inject tmpdir depth text pendingId false src gated w1
    | None => match known_source o1 text k src w1 with
              | Some known => (inr known, w1)
              | None => let '(r, w2) := inject_new i o1 text k allow src gated w1 in (inr r, w2)
              end
    end))). eapply nudge_after; [exact H1|].
  assert (Hs : ow_state w1 = Some i) by (apply current_some in Hc as [Hw _]; by rewrite <-Hw; apply restore_state).
  destruct (other_source ps_source k src (o_pending o1)) as [[pid p]|] eqn:Hp.
  - apply IH. apply find_some in Hp as [Hin [_ He]%andb_true_iff]. apply String.eqb_eq in He. cbn in He.
    assert (Hok := b_owner _ _ _ _ (proj1 G1) i o1 ltac:(by apply current_some)).
    assert (Hsrc := oo_pending _ _ _ _ Hok). unfold sourced in Hsrc. rewrite Forall_forall in Hsrc.
    specialize (Hsrc (pid, p) ltac:(by apply list_elem_of_In)). cbn in Hsrc. congruence.
  - destruct (known_source o1 text k src w1); [by apply calm_nudge|].
    assert (Hn := inject_new_nudge i o1 text k allow src gated w1 Hs Hk). by destruct (inject_new i o1 text k allow src gated w1).
Qed.

(** ** The other calls *)

Lemma sim_aside {A} (f : oc_world -> A * oc_world) (Q : A -> lane -> Prop) R :
  (forall w, calm w (snd (f w))) -> (forall a, Q a Aside) -> sim Aside (sync f) Q R.
Proof. intros Hf HQ. apply (sim_stretch _ _ (fun _ => Aside)); [|done]. intros w. by apply calm_step. Qed.

Lemma sim_inject text k allow gated :
  sim Aside (injectOpenCodeEntry tmpdir stack text k allow (source_of k) gated) (fun _ _ => True) (fun _ _ => True).
Proof.
  unfold injectOpenCodeEntry. apply simulates_bind, (sim_perform_stretch _ _ (fun _ => Aside)); [|intros [b|n]; [done|]|done].
  - intros w. assert (Hs := nudge_step _ _ (inject_nudge stack text k allow (source_of k) gated w eq_refl)). by case_match.
  - intros w b w' [-> _]. exists Aside. split; [apply same_step|done].
Qed.

Lemma abandon_calm w : calm w (abandonOpenCodeDeliveries w).
Proof.
  unfold abandonOpenCodeDeliveries. destruct (current w) as [[i o]|]; [|done]. generalize (o_active o). intros l.
  etrans; [|apply calm_on_owner; intros o'; etrans; [apply core_connected|]; etrans; [apply core_active|apply core_queue]].
  revert w. induction l as [|[k n] l IH]; intros w; cbn; [done|]. etrans; [|apply IH]. apply resolve_calm.
Qed.

Lemma disconnect_calm w : calm w (disconnectOpenCodeDrone w).
Proof.
  unfold disconnectOpenCodeDrone. etrans; [apply abandon_calm|]. generalize (abandonOpenCodeDeliveries w). clear w. intros w [[Hp Hd Hx Ho Hb Hj Hs] _].
  assert (Hc : forall i o, current (with_state None w) <> Some (i, o)) by done.
  split; [split; try done; [by exists []|by right|by intros (? & ? & ? & _)]|]. split; [split; try assumption|].
  - intros i o Hi. by destruct (Hc i o).
  - intros i _. by right.
  - done.
  - intros i o Hi. by destruct (Hc i o).
Qed.

Lemma sim_match_counts id sessions (Q : list (oc_session * nat) -> lane -> Prop) (R : js_error -> lane -> Prop) :
  (forall a, Q a Aside) -> (forall e, R e Aside) -> sim Aside (match_counts id sessions) Q R.
Proof.
  intros HQ HR. revert Q HQ. induction sessions as [|s sessions IH]; intros Q HQ; cbn [match_counts]; [apply HQ|].
  apply simulates_bind, sim_messages; [|done]. intros ms. apply simulates_bind, IH. intros counts. apply HQ.
Qed.

Lemma sim_launch id (Q : launch_search -> lane -> Prop) (R : js_error -> lane -> Prop) :
  (forall a, Q a Aside) -> (forall e, R e Aside) -> sim Aside (findLaunchSession id) Q R.
Proof.
  intros HQ HR. unfold findLaunchSession. apply simulates_bind, (sim_perform_stretch _ _ (fun _ => Aside)); [|intros [[i dir] m]|done].
  { intros w. destruct (current w) as [[i o]|]; [|apply same_step]. assert (Hn := next_sequence_calm tmpdir source_of d i w).
    destruct (next_sequence i w) as [m w1]. by apply calm_step. }
  assert (Hnote : forall m' e w, calm w (note_failure i m' e w)).
  { intros m' e w. unfold note_failure. case_match; [apply failure_calm|done]. }
  apply simulates_bind, simulates_attempt, sim_sessions.
  - intros listed. apply simulates_bind, sim_same_look. intros [|]; cbn [negb]; [|apply HQ]. case_bool_decide; [apply HQ|].
    apply simulates_bind, simulates_attempt, sim_match_counts.
    + intros counts. apply simulates_bind, sim_same_look. intros same. apply HQ.
    + intros e. apply simulates_bind, sim_calm; [done|apply HQ].
  - intros e. apply simulates_bind, sim_calm; [done|apply HQ].
Qed.

Lemma sim_agent_session : sim Aside (resolveOpenCodeAgentSessionId tmpdir) (fun _ _ => True) (fun _ _ => True).
Proof.
  unfold resolveOpenCodeAgentSessionId. apply simulates_bind, sim_aside.
  - intros w. destruct (current w) as [[i o]|]; [|done]. destruct (negb (o_connected o)); [done|].
    assert (Hr := read_calm tmpdir source_of d w). by destruct (readBinding tmpdir w).
  - intros [[[i id] b]|]; [|done]. apply simulates_bind, sim_launch; [|done]. intros launch. apply sim_aside; [|done]. intros w.
    destruct launch; try done. case_match; [|done]. assert (Hr := read_calm tmpdir source_of d w). by destruct (readBinding tmpdir w).
Qed.

Lemma sim_probe : sim Aside (probeOpenCodeDroneArmed tmpdir) (fun _ _ => True) (fun _ _ => True).
Proof.
  unfold probeOpenCodeDroneArmed. apply simulates_bind, sim_aside.
  - intros w. destruct (current w) as [[i o]|]; [|done]. destruct (negb (o_connected o)); [done|].
    assert (Hn := next_sequence_calm tmpdir source_of d i w). destruct (next_sequence i w) as [m w1]. cbn [snd] in Hn.
    assert (Hr := restore_calm tmpdir source_of d w1). destruct (restoreBinding tmpdir w1) as [b w2]. cbn [snd] in *. by etrans.
  - intros [[[i m] [b|]]|]; [|done..]. apply simulates_bind, simulates_attempt.
    assert (Hlast : forall session, sim Aside (sync (fun w =>
        if negb (is_current i w) then (match session with inl _ => Some false | inr _ => None end, w)
        else match session with
             | inl e => (Some false, failure i m e w)
             | inr bound =>
                 if match bound with Some s => isBoundSession s b | None => false end then (Some true, w)
                 else (Some false, clearBinding tmpdir (failure i m (openCodeHttpError 404 "session") w))
             end)) (fun _ _ => True) (fun _ _ => True)).
    { intros session. apply sim_aside; [|done]. intros w. destruct (negb (is_current i w)); [done|].
      destruct session as [e|bound]; [apply failure_calm|]. case_match; [done|]. etrans; [apply (failure_calm _ _ _ i m)|apply clear_binding_calm]. }
    apply sim_session; [intros bound; exact (Hlast (inr bound))|intros e; exact (Hlast (inl e))].
Qed.

(** ** Connecting *)

Lemma connect_step w :
  lane_step Connecting w Aside
    (logged Connected (with_state (Some (length (ow_owners (abandonOpenCodeDeliveries w))))
      (with_owners (ow_owners (abandonOpenCodeDeliveries w) ++ [fresh_owner d]) (abandonOpenCodeDeliveries w)))).
Proof.
  intros [[Hp Hd Hx Ho Hb Hj Hs] Hbd] [Hn Ht].
  assert (Ha : abandonOpenCodeDeliveries w = w) by (unfold abandonOpenCodeDeliveries, current; by rewrite Hn). rewrite Ha.
  assert (Hl : (ow_owners w ++ [fresh_owner d]) !! length (ow_owners w) = Some (fresh_owner d)) by (by apply list_lookup_middle).
  set (w' := logged _ _).
  assert (Hc : current w' = Some (length (ow_owners w), fresh_owner d)) by (by apply current_some).
  assert (Hjobs : forall i, ProcessDeliveries i ∉ ow_jobs w).
  { intros i Hin. unfold tokens in Ht. apply nil_length_inv in Ht.
    assert (H : ProcessDeliveries i ∈ List.filter (fun j => match j with ProcessDeliveries _ => true | _ => false end) (ow_jobs w))
      by (by apply member_filter). rewrite Ht in H. by apply elem_of_nil in H. }
  split; [|split; [done|split; [|]]].
  - split; [split; try assumption|].
    + intros i o Hi. rewrite Hc in Hi. injection Hi as <- <-. split; [done|by intros|apply Forall_nil_2..].
    + apply Forall_app. split; [done|]. apply Forall_singleton. split; [|split]; cbn; lia.
    + intros i Hi. by destruct (Hjobs i).
    + intros i Hi. injection Hi as <-. by exists (fresh_owner d).
    + intros i o Hi. rewrite Hc in Hi. injection Hi as <- <-. by intros [].
  - right. right. change (tokens w') with (tokens w). cbn. lia.
  - done.
Qed.

Lemma sim_connect : sim Connecting (connectOpenCodeDrone d) (fun _ _ => True) (fun _ _ => True).
Proof.
  unfold connectOpenCodeDrone. case_match; [done|]. case_match; [done|]. apply simulates_bind, simulates_perform.
  intros w x w' ->. exists Connecting. split; [apply same_step|]. destruct x; [done|]. apply (sim_effect _ _ Aside); [|done]. apply connect_step.
Qed.
End Safety.
