(* ===== verification/OpenCodeOnce.v ===== *)
(** * Submitted once, over processes and restarts ([opencode-drone.ts])

    The moves of the system: the flows of one process, what starts them, a restart
    that ends them all, and what happens to the binding file from outside. *)

From S2P Require Import Prelude JsDate JsonText Assoc Effects LeaseFs Sha256 OpenCode OpenCodeApi OpenCodeFacts OpenCodeSafety.

Open Scope Z_scope.
Open Scope prog_scope.

Definition ignored {A} (p : oc A) : oc unit := let! _ := p in Ret tt.

Definition submits (e : oc_event) : bool := match e with Submitted _ _ _ => true | _ => false end.

Section Once.
Variables (tmpdir : string) (stack : nat) (source_of : string -> string) (d : connect_deps).

(** The calls of [log-stream.ts] and of the MCP tools.  The source of a wake is
    determined by its identity: the durable entry, or the entry a retry's nonce was
    made for. *)
Inductive oc_starts : oc_world -> oc unit -> Prop :=
| starts_inject w text entryId allowSubmit gated :
    oc_starts w (ignored (injectOpenCodeEntry tmpdir stack text entryId allowSubmit (source_of entryId) gated))
| starts_settle w source : oc_starts w (effect (settleOpenCodeEntry tmpdir source))
| starts_agent w : oc_starts w (ignored (resolveOpenCodeAgentSessionId tmpdir))
| starts_probe w : oc_starts w (ignored (probeOpenCodeDroneArmed tmpdir))
| starts_disconnect w : oc_starts w (effect disconnectOpenCodeDrone).

(** The binding file is lost or damaged, the launcher writes one before anything was
    submitted, or the claim changes. *)
Inductive oc_outside : oc_world -> oc_world -> Prop :=
| outside_lost w : oc_outside w (with_files (delete (bindingPath tmpdir d) (ow_files w)) w)
| outside_damaged w c : bindingMatchesState d c = None -> oc_outside w (with_files (<[bindingPath tmpdir d := c]> (ow_files w)) w)
| outside_launched w c :
    existsb submits (ow_log w) = false -> (forall b, bindingMatchesState d c = Some b -> sb_pending b = []) ->
    oc_outside w (with_files (<[bindingPath tmpdir d := c]> (ow_files w)) w)
| outside_claim w f : f !! bindingPath tmpdir d = ow_files w !! bindingPath tmpdir d -> oc_outside w (with_files f w).

(** A process that starts connects first; its flows end with it. *)
Inductive oc_moves : list (oc unit) * oc_world -> list (oc unit) * oc_world -> Prop :=
| moves_within c c' : pool_moves oc_act oc_starts oc_outside c c' -> oc_moves c c'
| moves_job ps w fuel jobs1 j jobs2 :
    ow_jobs w = jobs1 ++ j :: jobs2 -> oc_moves (ps, w) (ps ++ [job_program tmpdir fuel j], with_jobs (jobs1 ++ jobs2) w)
| moves_restart ps w : oc_moves (ps, w) ([connectOpenCodeDrone d], with_state None (with_jobs [] w)).

Record oc_initial (w : oc_world) : Prop := {
  in_file : ow_files w !! bindingPath tmpdir d = None;
  in_state : ow_state w = None;
  in_owners : ow_owners w = [];
  in_deliveries : ow_deliveries w = [];
  in_jobs : ow_jobs w = [];
  in_log : ow_log w = []
}.

(** ** The invariant *)

Local Abbreviation sim := (simulates oc_act (lane_step tmpdir source_of d)).
Local Abbreviation good := (good tmpdir source_of d).

Definition total (ss : list lane) : nat := list_sum (map weight ss).

Record lanes_ok (ss : list lane) (ps : list (oc unit)) (w : oc_world) : Prop := {
  lo_sim : Forall2 (fun s p => sim s p (fun _ _ => True) (fun _ _ => True)) ss ps;
  lo_good : good w;
  lo_holds : Forall (fun s => holds source_of s w) ss;
  lo_total : (total ss + tokens w <= 1)%nat;
  lo_idle : idle w -> (total ss + tokens w = 0)%nat
}.

Lemma oc_total_app ss ss' : total (ss ++ ss') = (total ss + total ss')%nat.
Proof. unfold total. by rewrite map_app, list_sum_app. Qed.

Lemma total_snoc ss s : total (ss ++ [s]) = (total ss + weight s)%nat.
Proof. rewrite oc_total_app. unfold total. cbn. lia. Qed.

Lemma oc_total_insert ss i s s' : ss !! i = Some s -> (total (<[i := s']> ss) + weight s = total ss + weight s')%nat.
Proof.
  intros Hi. destruct (list_elem_of_split_length _ _ _ Hi) as (l1 & l2 & -> & ->). rewrite insert_app_r_alt, Nat.sub_diag by lia. cbn.
  rewrite !oc_total_app. unfold total. cbn. lia.
Qed.

(** A light lane knows nothing that could become wrong. *)
Lemma light_holds t w w' : weight t = 0%nat -> holds source_of t w -> holds source_of t w'.
Proof. by destruct t. Qed.

Lemma step_lanes ss ps w i s p' s' w' :
  lanes_ok ss ps w -> ss !! i = Some s -> lane_step tmpdir source_of d s w s' w' ->
  sim s' p' (fun _ _ => True) (fun _ _ => True) -> lanes_ok (<[i := s']> ss) (<[i := p']> ps) w'.
Proof.
  intros [Hsim Hg Hh Ht Hi] Hs Hstep Hp. destruct (Hstep Hg (Forall_lookup_1 _ _ _ _ Hh Hs)) as (Hg' & Hh' & Hb & Hothers).
  assert (Htot := oc_total_insert ss i s s' Hs). split; [by apply Forall2_insert|done| | |].
  - apply Forall_lookup. intros j t Hj. destruct (decide (j = i)) as [->|Hne].
    + rewrite list_lookup_insert_eq in Hj by (by eapply lookup_lt_Some). by injection Hj as <-.
    + rewrite list_lookup_insert_ne in Hj by done. assert (Htj := Forall_lookup_1 _ _ _ _ Hh Hj).
      destruct (decide (weight s = 0%nat)) as [Hw|Hw]; [by apply Hothers|]. eapply light_holds; [|exact Htj].
      assert (H := oc_total_insert ss i s Aside Hs). assert (Hj' : <[i := Aside]> ss !! j = Some t) by (by rewrite list_lookup_insert_ne).
      assert (H' := oc_total_insert _ j t Aside Hj'). cbn in H, H'. lia.
  - destruct Hb as [[Hb _]|[(Hid & _ & Hb)|[Hw Hb]]]; [lia| |lia]. specialize (Hi Hid). lia.
  - intros Hid. destruct Hb as [[Hb Hback]|[(_ & Hn & _)|[Hw Hb]]]; [|done|lia]. specialize (Hi (Hback Hid)). lia.
Qed.

Lemma add_aside ss ps w p :
  lanes_ok ss ps w -> sim Aside p (fun _ _ => True) (fun _ _ => True) -> lanes_ok (ss ++ [Aside]) (ps ++ [p]) w.
Proof.
  intros [Hsim Hg Hh Ht Hi] Hp. split; [by apply Forall2_app; [|constructor]|done|by apply Forall_app; split; [|constructor]| |];
    rewrite total_snoc; cbn [weight]; [lia|]. intros Hid. specialize (Hi Hid). lia.
Qed.

Lemma sim_ignored {A} s (p : oc A) :
  sim s p (fun _ _ => True) (fun _ _ => True) -> sim s (ignored p) (fun _ _ => True) (fun _ _ => True).
Proof. intros Hp. unfold ignored. apply simulates_bind. eapply simulates_mono; [exact Hp|done|done]. Qed.

Lemma starts_aside w p : oc_starts w p -> sim Aside p (fun _ _ => True) (fun _ _ => True).
Proof.
  destruct 1; try apply sim_ignored.
  - apply sim_inject.
  - apply sim_calm; [|done]. intros w'. apply settle_calm.
  - apply sim_agent_session.
  - apply sim_probe.
  - apply sim_calm; [|done]. intros w'. apply disconnect_calm.
Qed.

Lemma unsubmitted_closed k log : existsb submits log = false -> open_post source_of k log = false.
Proof.
  induction log as [|e log IH]; cbn; [done|]. intros [He Hl]%orb_false_iff. destruct (closes source_of k e); [done|]. destruct e; auto. done.
Qed.

Lemma outside_calm w w' : oc_outside w w' -> calm tmpdir source_of d w w'.
Proof.
  destruct 1 as [w|w c Hc|w c Hl Hc|w f Hf]; [|..|by apply calm_files].
  - apply calm_forget. by rewrite lookup_delete_eq.
  - apply calm_same_log; try done. intros [Hp Hd Hx Ho Hb Hj Hs]. split; try assumption.
    intros c' b. cbn. rewrite lookup_insert_eq. intros [= <-]. congruence.
  - apply calm_same_log; try done. intros [Hp Hd Hx Ho Hb Hj Hs]. split; try assumption.
    intros c' b. cbn. rewrite lookup_insert_eq. intros [= <-] Hm. rewrite (Hc b Hm). split; [|constructor].
    intros k. by rewrite unsubmitted_closed.
Qed.

Lemma jobs_split w jobs1 j jobs2 :
  ow_jobs w = jobs1 ++ j :: jobs2 ->
  tokens w = (tokens (with_jobs (jobs1 ++ jobs2) w) + match j with ProcessDeliveries _ => 1 | _ => 0 end)%nat.
Proof. intros Hj. unfold tokens. cbn. rewrite Hj, !List.filter_app, !length_app. destruct j; cbn; lia. Qed.

Lemma job_lanes ss ps w fuel jobs1 j jobs2 :
  lanes_ok ss ps w -> ow_jobs w = jobs1 ++ j :: jobs2 ->
  exists ss', lanes_ok ss' (ps ++ [job_program tmpdir fuel j]) (with_jobs (jobs1 ++ jobs2) w).
Proof.
  intros [Hsim Hg Hh Ht Hi] Hj. assert (Hsplit := jobs_split w jobs1 j jobs2 Hj). set (w' := with_jobs _ w) in *.
  assert (Hg' : good w').
  { destruct Hg as [[Gp Gd Gx Go Gb Gj Gs] Gbd]. split; [split; try assumption|exact Gbd].
    intros i Hin. apply Gj. rewrite Hj. cbn in Hin. apply elem_of_app in Hin as [Hin|Hin]; apply elem_of_app; [by left|right; by right]. }
  assert (Hall : Forall (fun s => holds source_of s w') ss).
  { eapply Forall_impl; [exact Hh|]. intros [| |i r c|]; try done. intros [Hn H0]. split; [exact Hn|lia]. }
  destruct j as [i|i n sess].
  - exists (ss ++ [Lane i false NoClaim]). split; [apply Forall2_app; [done|by constructor; [apply oc_sim_process|]]|done| | |].
    + apply Forall_app. split; [done|]. apply Forall_singleton. split; [|done]. apply (b_jobs _ _ _ _ (proj1 Hg)). rewrite Hj.
      apply elem_of_app. right. by left.
    + rewrite total_snoc. cbn [weight]. lia.
    + intros Hid. specialize (Hi Hid). lia.
  - exists (ss ++ [Aside]). apply add_aside; [|apply sim_reconcile]. split; [done|done|done|lia|]. intros Hid. specialize (Hi Hid). lia.
Qed.

Lemma restart_lanes w : good w -> lanes_ok [Connecting] [connectOpenCodeDrone d] (with_state None (with_jobs [] w)).
Proof.
  intros [[Gp Gd Gx Go Gb Gj Gs] Gbd]. split; [by constructor; [apply sim_connect|]| |by apply Forall_singleton|cbn; lia|by intros (? & ? & ? & _)].
  split; [split; try assumption|]; try done.
  - intros i. by intros []%elem_of_nil.
Qed.

Lemma moves_lanes c c' ss : oc_moves c c' -> lanes_ok ss c.1 c.2 -> exists ss', lanes_ok ss' c'.1 c'.2.
Proof.
  destruct 1 as [c c' Hm|ps w fuel jobs1 j jobs2 Hj|ps w]; cbn; intros Hok.
  - destruct Hm as [ps i X op k w x w' Hp Ha|ps p w Hp|ps w w' He]; cbn in *.
    + destruct (Forall2_lookup_r _ _ _ _ _ (lo_sim _ _ _ Hok) Hp) as (s & Hs & Hsim).
      destruct (Hsim w x w' Ha) as (s' & Hstep & Hk). exists (<[i := s']> ss). by eapply step_lanes.
    + exists (ss ++ [Aside]). apply add_aside; [done|]. by eapply starts_aside.
    + exists ss. destruct Hok as [Hsim Hg Hh Ht Hi]. destruct (outside_calm w w' He Hg) as [Hf Hg']. split; try done.
      * eapply Forall_impl; [exact Hh|]. intros t. by apply frame_holds.
      * by rewrite (fr_tokens _ _ Hf).
      * intros Hid. rewrite (fr_tokens _ _ Hf). by apply Hi, (fr_idle _ _ Hf).
  - by eapply job_lanes.
  - exists [Connecting]. apply restart_lanes, (lo_good _ _ _ Hok).
Qed.

Lemma reached_good w0 ps w : oc_initial w0 -> rtc oc_moves ([], w0) (ps, w) -> good w.
Proof.
  intros [Hf Hs Ho Hd Hj Hl] Hr.
  assert (H0 : lanes_ok [] [] w0).
  { assert (Hc : forall i o, current w0 <> Some (i, o)) by (intros i o [? _]%current_some; congruence).
    split; [constructor| |constructor|unfold tokens; rewrite Hj; cbn; lia|intros (i & o & H & _); by destruct (Hc i o)].
    split; [split|].
    - by rewrite Hl.
    - rewrite Hf. done.
    - by rewrite Hd.
    - intros i o H. by destruct (Hc i o).
    - by rewrite Ho.
    - rewrite Hj. by intros i []%elem_of_nil.
    - congruence.
    - intros i o H. by destruct (Hc i o). }
  assert (Hall : forall c c', rtc oc_moves c c' -> (exists ss, lanes_ok ss c.1 c.2) -> exists ss, lanes_ok ss c'.1 c'.2).
  { induction 1 as [c|c c1 c' Hm _ IH]; [done|]. intros [ss Hok]. apply IH. by eapply moves_lanes. }
  destruct (Hall _ _ Hr) as [ss Hok]; [by exists []|]. apply (lo_good _ _ _ Hok).
Qed.

(** ** The properties *)

(** C9. Whatever the order of the flows, of their calls and of restarts, between two
    submissions of one wake to OpenCode the server refused the first, or listed a
    message that carries the wake or its source, or the source was settled. *)
Theorem opencode_submits_once w0 ps w entryId s1 t1 s2 t2 later between earlier :
  oc_initial w0 -> rtc oc_moves ([], w0) (ps, w) ->
  ow_log w = later ++ Submitted entryId s1 t1 :: between ++ Submitted entryId s2 t2 :: earlier ->
  existsb (closes source_of entryId) between = true.
Proof.
  intros H0 Hr Hl. eapply posted_between; [|exact Hl]. apply b_posts with tmpdir d. by apply (reached_good w0 ps).
Qed.

(** C18. As long as a submission is not closed, every binding file a later process
    would take its session from names it as pending: a crash between the request
    and its answer does not lose the marker. *)
Theorem opencode_marker_durable w0 ps w entryId c b :
  oc_initial w0 -> rtc oc_moves ([], w0) (ps, w) -> open_post source_of entryId (ow_log w) = true ->
  ow_files w !! bindingPath tmpdir d = Some c -> bindingMatchesState d c = Some b -> entryId ∈ map fst (sb_pending b).
Proof.
  intros H0 Hr Ho Hf Hm. destruct (reached_good w0 ps w H0 Hr) as [Hg _]. by apply (b_disk _ _ _ _ Hg c b).
Qed.

(** None of the three histories of a connection grows beyond its limit. *)
Theorem opencode_histories_bounded w0 ps w o :
  oc_initial w0 -> rtc oc_moves ([], w0) (ps, w) -> o ∈ ow_owners w ->
  (length (o_delivered o) <= 256 /\ length (o_unconfirmed o) <= 256 /\ length (o_failed o) <= 256)%nat.
Proof.
  intros H0 Hr Ho. destruct (reached_good w0 ps w H0 Hr) as [Hg _]. assert (Hb := b_bounded _ _ _ _ Hg).
  rewrite Forall_forall in Hb. by apply Hb.
Qed.
End Once.

(** ** The session of a launch *)

(** The server's list of the messages of [s], with [n] matches of [correlation]. *)
Definition counted (correlation : string) (tr : list (@entry oc_op)) (s : oc_session) (n : nat) : Prop :=
  exists server dir body messages,
    Did (Fetch server ("/session/" +:+ os_id s +:+ "/message") dir None) (inr (200, body)) ∈ tr /\
    decodeMessages body = Some messages /\ launchCorrelationMatchCount messages correlation = n.

Lemma counted_app c tr tr' s n : counted c tr s n -> counted c (tr ++ tr') s n.
Proof. intros (server & dir & body & ms & Hin & H). exists server, dir, body, ms. split; [apply elem_of_app; by left|done]. Qed.

Lemma traces_rawGet path tr (Q : Z * content -> list entry -> Prop) R :
  (forall server dir a u, Q a (tr ++ u ++ [Did (Fetch server path dir None) (inr a)])) -> (forall e tr', R e tr') -> traces (rawGet path) tr Q R.
Proof.
  intros HQ HR. unfold rawGet. apply traces_bind, traces_perform; [|intros; apply HR]. intros [server dir]. cbn. intros [[|]|a]; [apply HR..|].
  rewrite <-app_assoc. apply HQ.
Qed.

Lemma traces_messages id tr (Q : list oc_message -> list entry -> Prop) R :
  (forall server dir body ms u, decodeMessages body = Some ms ->
     Q ms (tr ++ u ++ [Did (Fetch server ("/session/" +:+ id +:+ "/message") dir None) (inr (200, body))])) ->
  (forall e tr', R e tr') -> traces (listSessionMessages id) tr Q R.
Proof.
  intros HQ HR. unfold listSessionMessages. apply traces_bind, traces_rawGet; [|done]. intros server dir [status body] u.
  destruct (Z.eqb_spec status 200) as [->|]; [|apply HR]. unfold decoded. destruct (decodeMessages body) eqn:Hd; [by apply HQ|apply HR].
Qed.

Lemma traces_sessions tr (Q : list oc_session -> list entry -> Prop) R :
  (forall server dir body l u, decodeSessions body = Some l ->
     Q l (tr ++ u ++ [Did (Fetch server "/session" dir None) (inr (200, body))])) ->
  (forall e tr', R e tr') -> traces listSessions tr Q R.
Proof.
  intros HQ HR. unfold listSessions. apply traces_bind, traces_rawGet; [|done]. intros server dir [status body] u.
  destruct (Z.eqb_spec status 200) as [->|]; [|apply HR]. unfold decoded. destruct (decodeSessions body) eqn:Hd; [by apply HQ|apply HR].
Qed.

Lemma traces_counts c sessions tr :
  traces (match_counts c sessions) tr
    (fun counts tr' => map fst counts = sessions /\ Forall (fun sn => counted c tr' (fst sn) (snd sn)) counts /\ exists u, tr' = tr ++ u)
    (fun _ _ => True).
Proof.
  revert tr. induction sessions as [|s sessions IH]; intros tr; cbn [match_counts].
  - split; [done|]. split; [constructor|]. exists []. by rewrite app_nil_r.
  - apply traces_bind, traces_messages; [|done]. intros server dir body ms u Hd. apply traces_bind.
    eapply traces_mono; [apply IH| |done]. intros counts tr' (Hm & Hf & v & ->). cbn. split; [by rewrite Hm|]. split.
    + constructor; [|done]. cbn. apply counted_app. exists server, dir, body, ms. split; [|done].
      apply elem_of_app. right. apply elem_of_app. right. by apply list_elem_of_singleton.
    + exists ((u ++ [Did (Fetch server ("/session/" +:+ os_id s +:+ "/message") dir None) (inr (200, body))]) ++ v). by rewrite <-!app_assoc.
Qed.

Lemma matched_one listed sessions counts s known :
  matched listed sessions counts = Found s known ->
  known = map os_id (List.filter isTopLevelSession sessions) /\
  exists l1 l2, counts = l1 ++ (s, 1%nat) :: l2 /\ Forall (fun c => snd c = 0%nat) (l1 ++ l2).
Proof.
  unfold matched. destruct (Nat.eqb_spec (list_sum (map snd counts)) 1) as [Hsum|]; cbn [negb]; [|done].
  destruct (List.find _ counts) as [[s' n]|] eqn:Hf; [|done]. intros [= <- <-]. split; [done|].
  apply find_some in Hf as [Hin Hn]. apply Nat.eqb_eq in Hn. cbn in Hn. subst n. apply in_split in Hin as (l1 & l2 & ->).
  exists l1, l2. split; [done|]. rewrite map_app, list_sum_app in Hsum. cbn in Hsum.
  assert (Hz : forall l : list (oc_session * nat), list_sum (map snd l) = 0%nat -> Forall (fun c => snd c = 0%nat) l).
  { induction l as [|c l IH]; cbn; intros H; [constructor|]. constructor; [lia|]. apply IH. unfold list_sum. lia. }
  apply Forall_app. split; apply Hz; unfold list_sum in *; lia.
Qed.

(** A launch is given a session only if the server listed it, in the directory of
    the connection, and the messages it listed for that session hold the one match of
    the launch's correlation identity; those of every other session of the directory
    hold none. *)
Theorem opencode_launch_correlated correlation :
  traces (findLaunchSession correlation) []
    (fun r tr => forall s known, r = Found s known ->
      exists server dir body listed directory counts l1 l2,
        Did (Fetch server "/session" dir None) (inr (200, body)) ∈ tr /\ decodeSessions body = Some listed /\
        map fst counts = List.filter (fun s => String.eqb (os_directory s) directory) listed /\
        Forall (fun sn => counted correlation tr (fst sn) (snd sn)) counts /\
        counts = l1 ++ (s, 1%nat) :: l2 /\ Forall (fun c => snd c = 0%nat) (l1 ++ l2))
    (fun _ _ => True).
Proof.
  unfold findLaunchSession. apply traces_bind, traces_perform; [|done]. intros [[i directory] sequence].
  apply traces_bind, traces_attempt, traces_sessions.
  - intros server dir body listed u Hd. apply traces_bind, traces_ask. intros [|]; cbn [negb]; [|done]. case_bool_decide; [done|].
    apply traces_bind, traces_attempt. eapply traces_mono; [apply traces_counts|..].
    + intros counts tr (Hm & Hf & v & ->). apply traces_bind, traces_ask. intros [|]; cbn [negb traces]; [|done].
      intros s known Hfound. apply matched_one in Hfound as (_ & l1 & l2 & Hc & Hz).
      exists server, dir, body, listed, directory, counts, l1, l2. repeat split; try done.
      * set_solver.
      * eapply Forall_impl; [exact Hf|]. intros sn. apply counted_app.
    + intros e tr _. apply traces_bind, traces_ask. by intros [].
  - intros e tr. apply traces_bind, traces_ask. by intros [].
Qed.

(** ** A replaced connection *)

(** A delivery looks whether its connection is still [state] before it waits for the
    source a second time, and not after: when another connection with a session took
    its place in between, the request is sent to that server and the binding file is
    written without the marker. *)
Theorem opencode_replaced_connection_unmarked tmpdir i j o s x target w :
  current w = Some (j, o) -> i <> j -> o_bound o = Some s -> bs_sessionId s <> "" -> ow_works w (ow_calls w) = true ->
  isOpenCode256BitIdentity (cd_apiPassword (o_deps o)) = true ->
  let '(sent, w') := submit tmpdir i x target w in
  sent = Some (inr (cd_serverUrl (o_deps o), cd_directory (o_deps o))) /\
  ow_log w' = Submitted (dl_entryId x) (dl_sourceEntryId x) target :: ow_log w /\
  ow_files w' !! bindingPath tmpdir (o_deps o) = Some (binding_content (binding_of o s (o_known o))).
Proof.
  intros Hc Hij Hb Hs Hw Hp. apply current_some in Hc as [Hst Ho].
  assert (Hc1 : forall g, current (on_owner i g w) = Some (j, o)).
  { intros g. apply current_some. split; [exact Hst|]. cbn. by rewrite list_lookup_alter_ne. }
  unfold submit. unfold persistCurrentBinding. rewrite Hc1. unfold bound_id. rewrite Hb. cbn [option_bind mbind].
  destruct (String.eqb_spec (bs_sessionId s) ""); [done|]. unfold writeBinding. rewrite Hc1. unfold replace_file, works. cbn [ow_works ow_calls on_owner with_owners].
  rewrite Hw. cbn [negb]. unfold request_target.
  match goal with |- context [current ?w2] => assert (Hc2 : current w2 = Some (j, set_bound (Some s) (o_known o) o)) end.
  { unfold current. cbn. rewrite Hst. cbn. by rewrite list_lookup_alter_eq, list_lookup_alter_ne, Ho by done. }
  rewrite Hc2. cbn [o_deps set_bound]. rewrite Hp. split; [done|]. split; [done|]. cbn. by rewrite lookup_insert_eq.
Qed.
