(* ===== verification/OpenCodeWitness.v ===== *)
(** * A run of the OpenCode deliveries

    A launch, the start of the MCP process, a wake whose submission the server
    refuses, and the same wake once more: the theorems of [OpenCodeOnce] at the
    worlds of this run.  A connection that was replaced in the middle of a delivery. *)

From S2P Require Import Prelude JsDate JsonText Assoc Effects LeaseFs Sha256 OpenCode OpenCodeApi OpenCodeFacts OpenCodeSafety OpenCodeOnce.

Open Scope Z_scope.
Open Scope prog_scope.

Module OpenCodeRun.

Definition identity : string := "BBBBBBBBBBBBBBBBBBBBBBBBBBBBBBBBBBBBBBBBBBA".
Definition deps : connect_deps :=
  ConnectDeps "http://127.0.0.1:14096" "AAAAAAAAAAAAAAAAAAAAAAAAAAAAAAAAAAAAAAAAAAA" "/w" "drone-1" "cube" identity.

(** What the launcher writes. *)
Definition launched : content :=
  binding_content (SessionBinding (BoundSession "S1" 1000) ["S1"] "/w" "opencode" "borg" identity []
    [("serverUrl", JStr "http://127.0.0.1:14096")]).

Definition session_json : json := JObj [("id", JStr "S1"); ("directory", JStr "/w"); ("time", JObj [("created", JNum 1000)])].

(** The server has one session without messages and refuses every prompt. *)
Definition answers (path : string) (body : option json) : bool + Z * content :=
  match body with
  | Some _ => inr (500, Json JNull)
  | None =>
      inr (200, Json (if String.eqb path "/session" then JArr [session_json]
                      else if String.eqb path "/session/S1" then session_json else JArr []))
  end.

Definition script (X : Type) (op : oc_op X) : oc_world -> X * oc_world :=
  match op in oc_op X return oc_world -> X * oc_world with
  | Sync f => f
  | Fetch _ path _ body => fun w => (answers path body, w)
  | SourcePending _ => fun w => (inr true, w)
  | AwaitDelivery _ => fun w => (true, w)
  | Sleep _ => fun w => (tt, w)
  | NowMs => fun w => (1000, w)
  | EnsureRoot => fun w => (inr tt, w)
  end.

Definition allowed (X : Type) (op : oc_op X) : oc_world -> bool :=
  match op with AwaitDelivery _ => fun _ => false | _ => fun _ => true end.

Lemma oc_script_act X (op : oc_op X) w : allowed X op w = true -> oc_act X op w (fst (script X op w)) (snd (script X op w)).
Proof. destruct op; cbn; try done. intros _. by destruct (f w). Qed.

Definition tmp : string := "/tmp".
Definition source_of (entryId : string) : string := entryId.

Definition moves := oc_moves tmp 100 source_of deps.

Lemma within c c' : rtc (pool_moves oc_act (oc_starts tmp 100 source_of) (oc_outside tmp deps)) c c' -> rtc moves c c'.
Proof. induction 1 as [c|c c1 c2 H _ IH]; [apply rtc_refl|]. eapply rtc_l; [by apply moves_within|exact IH]. Qed.

Definition world0 : oc_world := OcWorld None [] [] ∅ (fun _ => true) 0 [] [].

Lemma world0_initial : oc_initial tmp deps world0.
Proof. by split. Qed.

(** The process has connected. *)
Definition world1 : oc_world := with_state None (with_jobs [] (with_files (<[bindingPath tmp deps := launched]> ∅) world0)).
Definition connected := advance script 5 (connectOpenCodeDrone deps) world1.

(** One call for the entry, up to the wait for its delivery; the loop it starts,
    for [n] operations. *)
Definition call : oc unit := ignored (injectOpenCodeEntry tmp 100 "wake" "e1" true "e1" false).
Definition called_once (w : oc_world) := advance script 1 call w.
Definition queue (fuel : nat) : oc unit := job_program tmp fuel (ProcessDeliveries 0).
Definition delivered (n : nat) (w : oc_world) := advance script n (queue 2) (with_jobs [] (called_once w).2).

Lemma connect_moves : rtc moves ([], world0) ([connected.1], connected.2).
Proof.
  assert (Ho : oc_outside tmp deps world0 (with_files (<[bindingPath tmp deps := launched]> ∅) world0)).
  { apply (outside_launched tmp deps world0 launched); [done|]. intros b Hb. by rewrite (binding_printed deps _ b Hb). }
  eapply rtc_l; [by apply moves_within, moves_env, Ho|].
  eapply rtc_l; [apply moves_restart|]. apply within.
  exact (advance_moves oc_act (oc_starts tmp 100 source_of) (oc_outside tmp deps) script allowed oc_script_act 5
    [connectOpenCodeDrone deps] 0 (connectOpenCodeDrone deps) world1 eq_refl eq_refl).
Qed.

Lemma delivered_moves n ps w :
  ow_jobs (called_once w).2 = [ProcessDeliveries 0] ->
  advance_allowed script allowed 1 call w = true -> advance_allowed script allowed n (queue 2) (with_jobs [] (called_once w).2) = true ->
  exists ps', rtc moves (ps, w) (ps', (delivered n w).2).
Proof.
  intros Hj H1 Hn.
  set (ps1 := <[length ps := (called_once w).1]> (ps ++ [call])).
  exists (<[length ps1 := (delivered n w).1]> (ps1 ++ [queue 2])).
  etrans; [apply within; eapply rtc_l; [apply moves_start, (starts_inject tmp 100 source_of w "wake" "e1" true false)|]|].
  { apply (advance_moves oc_act (oc_starts tmp 100 source_of) (oc_outside tmp deps) script allowed oc_script_act 1 _ (length ps) call w); [|exact H1].
    by apply list_lookup_middle. }
  eapply rtc_l; [apply (moves_job _ _ _ _ ps1 (called_once w).2 2 [] (ProcessDeliveries 0) []); exact Hj|]. apply within.
  apply (advance_moves oc_act (oc_starts tmp 100 source_of) (oc_outside tmp deps) script allowed oc_script_act n _ (length ps1) (queue 2)); [|exact Hn].
  by apply list_lookup_middle.
Qed.

(** The submission is refused, and the loop over the queue ends; the second one is
    sent. *)
Definition first : oc_world := (delivered 30 connected.2).2.
Definition second : oc_world := (delivered 16 first).2.
(** The first one is sent. *)
Definition sent : oc_world := (delivered 16 connected.2).2.

Lemma first_world : first = (delivered 30 connected.2).2.
Proof. unfold first. reflexivity. Qed.
Lemma second_world : second = (delivered 16 first).2.
Proof. unfold second. reflexivity. Qed.
Lemma sent_world : sent = (delivered 16 connected.2).2.
Proof. unfold sent. reflexivity. Qed.

Lemma sent_runs : exists ps, rtc moves ([], world0) (ps, sent).
Proof.
  destruct (delivered_moves 16 [connected.1] connected.2) as [ps Hr]; [by vm_compute..|]. rewrite <-sent_world in Hr.
  exists ps. etrans; [apply connect_moves|exact Hr].
Qed.

Lemma oc_second_runs : exists ps, rtc moves ([], world0) (ps, second).
Proof.
  destruct (delivered_moves 30 [connected.1] connected.2) as [ps Hr]; [by vm_compute..|]. rewrite <-first_world in Hr.
  destruct (delivered_moves 16 ps first) as [ps' Hr']; [by vm_compute..|]. rewrite <-second_world in Hr'.
  exists ps'. etrans; [apply connect_moves|]. etrans; [exact Hr|exact Hr'].
Qed.

Lemma second_log :
  ow_log second = [] ++ Submitted "e1" "e1" "S1" :: [Refused "e1"] ++ Submitted "e1" "e1" "S1" :: [Restored; Connected].
Proof. by vm_compute. Qed.

(** The file of [sent]: claimed for the seat, with the marker. *)
Definition marked_binding : session_binding :=
  SessionBinding (BoundSession "S1" 1000) ["S1"] "/w" "drone-1" "cube" identity [("e1", PendingSubmission "e1" "S1")]
    [("serverUrl", JStr "http://127.0.0.1:14096")].

Lemma sent_file : ow_files sent !! bindingPath tmp deps = Some (binding_content marked_binding).
Proof. by vm_compute. Qed.

Lemma sent_matches : bindingMatchesState deps (binding_content marked_binding) = Some marked_binding.
Proof. by vm_compute. Qed.

Lemma sent_open : open_post source_of "e1" (ow_log sent) = true.
Proof. by vm_compute. Qed.

Definition owner0 : owner := default (fresh_owner deps) (ow_owners second !! 0%nat).

Lemma owner0_in : owner0 ∈ ow_owners second.
Proof. apply list_elem_of_lookup. exists 0%nat. by vm_compute. Qed.

(** A second connection took the first one's place, and has read the file. *)
Definition other : owner := set_bound (Some (BoundSession "S2" 2000)) ["S2"] (fresh_owner deps).
Definition replaced : oc_world := OcWorld (Some 1%nat) [fresh_owner deps; other] [] ∅ (fun _ => true) 0 [] [].
Definition stale : delivery := Delivery 1 "e1" "e1" "wake" true false None false true Queued None.
End OpenCodeRun.

Import OpenCodeRun.

Lemma opencode_submits_once_witness : existsb (closes source_of "e1") [Refused "e1"] = true.
Proof.
  destruct oc_second_runs as [ps Hr].
  exact (opencode_submits_once tmp 100 source_of deps world0 ps second "e1" "e1" "S1" "e1" "S1" [] [Refused "e1"] [Restored; Connected]
    world0_initial Hr second_log).
Defined.

Lemma opencode_marker_durable_witness : "e1" ∈ map fst (sb_pending marked_binding).
Proof.
  destruct sent_runs as [ps Hr].
  exact (opencode_marker_durable tmp 100 source_of deps world0 ps sent "e1" _ marked_binding world0_initial Hr sent_open sent_file sent_matches).
Defined.

Lemma opencode_histories_bounded_witness :
  (length (o_delivered owner0) <= 256 /\ length (o_unconfirmed owner0) <= 256 /\ length (o_failed owner0) <= 256)%nat.
Proof.
  destruct oc_second_runs as [ps Hr].
  exact (opencode_histories_bounded tmp 100 source_of deps world0 ps second owner0 world0_initial Hr owner0_in).
Defined.

Lemma opencode_replaced_connection_unmarked_witness :
  let '(sent, w') := submit tmp 0 stale "S1" replaced in
  sent = Some (inr (cd_serverUrl deps, cd_directory deps)) /\
  ow_log w' = Submitted "e1" "e1" "S1" :: ow_log replaced /\
  ow_files w' !! bindingPath tmp deps = Some (binding_content (binding_of other (BoundSession "S2" 2000) ["S2"])).
Proof.
  refine (opencode_replaced_connection_unmarked tmp 0 1 other (BoundSession "S2" 2000) stale "S1" replaced eq_refl _ eq_refl _ eq_refl eq_refl); done.
Defined.
