(* ===== verification/Enrollment.v ===== *)
(** * Enrollments: the accounts ([config.ts])

    A client that enrolls at a server keeps, in one file of accounts, the credential
    it is about to use (pending), the one it uses (active), and - while an accepted
    enrollment is being committed - a marker with the snapshot that undoes it.  The
    accounts are a map from names to JSON texts; every change is one load and one
    replacement of the file under the store's lock. *)

From S2P Require Import Prelude NodeLib JsDate Assoc JsonText Effects LeaseFs Sha256 LocalServerCursor SeatStore.

Open Scope Z_scope.
Open Scope prog_scope.

(** [Record<string, string>] *)
Abbreviation accounts := (list (string * string)).

Definition sum_bind {A B} (a : js_error + A) (f : A -> js_error + B) : js_error + B := match a with inl e => inl e | inr x => f x end.

#[local] Notation "'let?' x ':=' a 'in' b" := (sum_bind a (fun x => b)) (at level 10, x pattern, a at level 100, b at level 200).
#[local] Notation "'do?' a ';' b" := (sum_bind a (fun _ => b)) (at level 10, a at level 100, b at level 200).

(** ** Errors *)

Definition InvitationArtifactRecoveryError : js_error := ErrorOf "InvitationArtifactRecoveryError" None None "recovery" [].
Definition MiskeyedRecoveryError : js_error := ErrorOf "InvitationArtifactRecoveryError" None None "miskeyed" [].
Definition RecoveryTransactionChangedError : js_error := ErrorOf "InvitationArtifactRecoveryError" None None "changed" [].
Definition InvitationArtifactStorageError : js_error := ErrorOf "InvitationArtifactStorageError" None None "storage" [].
Definition InvitationArtifactCompatibilityError : js_error := ErrorOf "InvitationArtifactCompatibilityError" None None "compatibility" [].
Definition InvitationArtifactTrustError : js_error := ErrorOf "InvitationArtifactTrustError" None None "trust" [].

(** [JSON.parse(text)] *)
Definition json_of (text : string) : js_error + json :=
  match parse_text text with Some v => inr v | None => inl (JsError "invalid JSON") end.

Definition require (b : bool) (message : string) : js_error + unit := if b then inr tt else inl (JsError message).

Definition hex64 (s : string) : bool := (String.length s =? 64)%nat && string_forallb is_lower_hex s.

Definition is_hex64 (v : option json) : bool := match v with Some (JStr s) => hex64 s | _ => false end.

Definition text_member (k : string) (v : json) : option string := jstr (jget k v).

Definition same_json (a b : json) : bool := String.eqb (json_compact a) (json_compact b).

(** ** Operations *)

(** The paths of a directory's files are its path and their names.  A read opens the
    file without following a link, looks at the handle and reads it. *)
Inductive enroll_op : Type -> Type :=
| LockOrigin (origin : string) : enroll_op (js_error + unit)
| UnlockOrigin (origin : string) : enroll_op (js_error + unit)
| LockStore : enroll_op (js_error + unit)
| UnlockStore : enroll_op (js_error + unit)
| ReadStore : enroll_op (js_error + option content)
| WriteStore (c : content) : enroll_op (js_error + unit)
| LstatDir (dir : string) : enroll_op (js_error + meta)
| OpenTrust (dir name : string) : enroll_op (js_error + unit)
| TrustStat (dir name : string) : enroll_op (js_error + meta)
| TrustText (dir name : string) : enroll_op (js_error + string)
| TrustClose (dir name : string) : enroll_op (js_error + unit)
| AccessFile (dir name : string) : enroll_op bool
| MkdirAll (dir : string) : enroll_op (js_error + unit)
| MkdirNew (dir : string) : enroll_op (js_error + unit)
| WriteNew (dir name text : string) : enroll_op (js_error + unit)
| SyncPath (p : string) : enroll_op (js_error + unit)
| RenameDir (from to : string) : enroll_op (js_error + unit)
| RemoveDir (dir : string) : enroll_op (js_error + unit)
| UnlinkIn (dir name : string) : enroll_op (js_error + unit)
| AtomicWrite (dir name text : string) : enroll_op (js_error + unit)
| CacheGet (key : string) : enroll_op (option (string * string))
| CachePut (key certificate identity : string) : enroll_op unit
| CacheDrop (origin : string) : enroll_op unit
| PresentedChain (origin : string) : enroll_op (js_error + list string)
| NewUuid : enroll_op string
| NewSecret : enroll_op string
| Stamp : enroll_op string
| Prompt (message : string) : enroll_op (js_error + string)
| Say (on_stderr : bool) (line : string) : enroll_op unit.

Notation enrolling := (prog enroll_op).

Definition of_sum {A} (x : js_error + A) : enrolling A := match x with inl e => Throw e | inr a => Ret a end.

(** Inside an operation that holds the origin's lock the body runs at once. *)
(* src/src/enrollment-lock.ts 34-49 withEnrollmentOriginLock *)
Definition withEnrollmentOriginLock {A} (held : bool) (origin : string) (body : enrolling A) : enrolling A :=
  if held then body
  else do! perform (LockOrigin origin); pfinally body (perform (UnlockOrigin origin)).

(* src/src/config.ts 272-288 withCredentialStoreLock *)
Definition withCredentialStoreLock {A} (body : enrolling A) : enrolling A :=
  do! perform LockStore; pfinally body (perform UnlockStore).

Definition locked {A} (held : bool) (origin : string) (body : enrolling A) : enrolling A :=
  withEnrollmentOriginLock held origin (withCredentialStoreLock body).

(** ** The file of accounts ([token-store.ts]) *)

Definition has_version (z : Z) (v : json) : bool := bool_decide (jget "version" v = Some (JNum z)).

Definition text_entries (fields : list (string * json)) : option accounts :=
  mapM (fun kv => (fun s => (fst kv, s)) <$> jstr (Some (snd kv))) fields.

Definition entries_json (m : accounts) : json := JObj (map (fun kv => (fst kv, JStr (snd kv))) m).

(** What [load] makes of the file: only one that is missing holds no account. *)
(* src/src/token-store.ts 49-88 load *)
Definition decode_accounts (raw : option content) : js_error + accounts :=
  match raw with
  | None => inr []
  | Some c =>
      match json_parse c with
      | None => inl (JsError "Borg credential store is malformed; refusing to overwrite it")
      | Some parsed =>
          match jget "accounts" parsed with
          | Some (JObj fields) =>
              if has_version 1 parsed then
                match text_entries fields with
                | Some m => inr m
                | None => inl (JsError "Borg credential store is malformed (a non-string account value); refusing to overwrite it")
                end
              else inl (JsError "Borg credential store is malformed or has an unsupported version; refusing to overwrite it")
          | _ => inl (JsError "Borg credential store is malformed or has an unsupported version; refusing to overwrite it")
          end
      end
  end.

(* src/src/token-store.ts 89-90 save *)
Definition encode_accounts (m : accounts) : content := Json (JObj [("version", JNum 1); ("accounts", entries_json m)]).

Definition backend_entries : enrolling accounts := let! raw := perform ReadStore in of_sum (decode_accounts raw).

Definition backend_replace (m : accounts) : enrolling unit := perform (WriteStore (encode_accounts m)).

(* src/src/token-store.ts 95-98 get *)
Definition backend_get (account : string) : enrolling (option string) := let! m := backend_entries in Ret (assoc account m).

(* src/src/token-store.ts 99-103 set *)
Definition backend_set (account text : string) : enrolling unit := let! m := backend_entries in backend_replace (put account text m).

(* src/src/token-store.ts 104-110 delete *)
Definition backend_delete (account : string) : enrolling unit :=
  let! m := backend_entries in
  if bool_decide (is_Some (assoc account m)) then backend_replace (drop_key account m) else Ret tt.

(** [if (!stored)]: an empty value counts as none. *)
Definition truthy (stored : option string) : option string := match stored with Some "" => None | v => v end.

Definition sum_option {A} (x : js_error + A) : option A := match x with inr a => Some a | inl _ => None end.

Section Accounts.
Context `{UrlEnv}.

(** ** Checks *)

(* src/src/config.ts 107-124 validateServerCredentialBinding *)
Definition validateServerCredentialBinding (origin trustIdentity : string) : js_error + unit :=
  match url_origin origin with
  | None => inl (JsError "invalid Borg server credential origin")
  | Some o =>
      do? require (String.eqb o origin && starts_with "https://" origin) "Borg server credentials require a canonical HTTPS origin";
      require ((1 <=? js_length trustIdentity)%nat && (js_length trustIdentity <=? 512)%nat &&
               negb (string_existsb is_c0_or_del trustIdentity)) "invalid Borg server trust identity"
  end.

Definition binding_ok (origin trustIdentity : string) : bool :=
  match validateServerCredentialBinding origin trustIdentity with inr _ => true | inl _ => false end.

Definition bound_name (prefix : string) (parts : list string) : string := prefix +:+ sha256_hex (join nul parts).

(* src/src/config.ts 126-134 serverCredentialAccount *)
Definition serverCredentialAccount (origin trustIdentity : string) : js_error + string :=
  do? validateServerCredentialBinding origin trustIdentity; inr (bound_name "borg-server-credential:" [origin; trustIdentity]).

(* src/src/config.ts 142-150 serverPendingEnrollmentAccount *)
Definition serverPendingEnrollmentAccount (origin trustIdentity : string) : js_error + string :=
  do? validateServerCredentialBinding origin trustIdentity; inr (bound_name "borg-server-enrollment-pending:" [origin; trustIdentity]).

(* src/src/config.ts 152-155 serverAcceptedEnrollmentAccount *)
Definition serverAcceptedEnrollmentAccount (origin : string) : string := bound_name "borg-server-enrollment-accepted:" [origin].

(* src/src/config.ts 157-160 serverEnrollmentRollbackAccount *)
Definition serverEnrollmentRollbackAccount (origin retryKey : string) : string :=
  bound_name "borg-server-enrollment-rollback:" [origin; retryKey].

(* src/src/config.ts 203-205 validateUuid *)
Definition validateUuid (value label : string) : js_error + unit := require (is_uuid value) ("invalid Borg server " +:+ label).

(* src/src/config.ts 207-212 validateServerCapabilities *)
Definition validateServerCapabilities (value : list string) : js_error + list string :=
  do? require ((length value <=? 1)%nat && forallb (String.eqb "create_cube") value) "invalid Borg server capabilities";
  inr value.

Definition name_char (c : ascii) : bool := is_alnum c || Ascii.eqb c " " || Ascii.eqb c "." || Ascii.eqb c "_" || Ascii.eqb c "-".

(* src/src/config.ts 214-223 validateClientName *)
Definition validateClientName (clientName : option string) : js_error + unit :=
  match clientName with
  | None => inr tt
  | Some s => require ((1 <=? String.length s)%nat && (String.length s <=? 120)%nat &&
      match s with String c rest => is_alnum c && string_forallb name_char rest | "" => false end) "invalid Borg server client name"
  end.

Definition base64url_char (c : ascii) : bool := is_alnum c || Ascii.eqb c "_" || Ascii.eqb c "-".

(* src/src/config.ts 225-233 validateInvitation *)
Definition validateInvitation (invitation : string) : js_error + unit :=
  require ((43 <=? String.length invitation)%nat && (String.length invitation <=? 1024)%nat && string_forallb base64url_char invitation)
    "invalid Borg server invitation".

Definition credential_form (s : string) : bool := (String.length s =? 43)%nat && string_forallb base64url_char s.

(* src/src/config.ts 235-239 validateEnrollmentCredential *)
Definition validateEnrollmentCredential (credential : string) : js_error + unit :=
  require (credential_form credential) "invalid Borg server credential".

(** ** Records *)

Definition credential_version : Z := 2.
Definition pending_version : Z := 3.
Definition legacy_pending_version : Z := 1.
Definition marker_version : Z := 1.

(** An active record of the origin, by its text. *)
Definition is_active (origin text : string) : bool :=
  match parse_text text with
  | Some v => has_version credential_version v && bool_decide (text_member "origin" v = Some origin)
  | None => false
  end.

Definition actives (origin : string) (m : accounts) : accounts := List.filter (fun kv => is_active origin (snd kv)) m.
Definition without_actives (origin : string) (m : accounts) : accounts := List.filter (fun kv => negb (is_active origin (snd kv))) m.

(** The entries sorted by [localeCompare] of their names, which have one prefix and
    differ in lower-case hexadecimal digits: the order of their characters. *)
Definition sorted_entries (m : accounts) : list (string * string) :=
  merge_sort (fun a b => Is_true (string_leb (fst a) (fst b))) m.

(* src/src/config.ts 162-174 digestAccountSnapshot *)
Definition digestAccountSnapshot (m : accounts) (origin : string) : string :=
  sha256_hex (json_compact (JArr (map (fun kv => JArr [JStr (fst kv); JStr (snd kv)]) (sorted_entries (actives origin m))))).

(* src/src/config.ts 51-57 ActiveServerCredentialRecord *)
Record active_record := ActiveRecord {
  ar_origin : string;
  ar_trustIdentity : string;
  ar_credential : string;
  ar_clientId : option string;
  ar_serverCapabilities : list string
}.

(* src/src/config.ts 379-388 encodeServerCredentialRecord *)
Definition encodeServerCredentialRecord (r : active_record) : string :=
  json_compact (JObj [("version", JNum credential_version); ("origin", JStr (ar_origin r)); ("trustIdentity", JStr (ar_trustIdentity r));
    ("credential", JStr (ar_credential r)); ("clientId", match ar_clientId r with Some c => JStr c | None => JNull end);
    ("serverCapabilities", JArr (map JStr (ar_serverCapabilities r)))]).

Definition texts (l : list json) : option (list string) := mapM (fun v => jstr (Some v)) l.

Definition bad_record : js_error := JsError "invalid Borg server credential record".

(* src/src/config.ts 390-416 decodeActiveServerCredentialRecord *)
Definition decodeActiveServerCredentialRecord (stored origin trustIdentity : string) : js_error + active_record :=
  let? record := json_of stored in
  if negb (has_version credential_version record && bool_decide (text_member "origin" record = Some origin) &&
           bool_decide (text_member "trustIdentity" record = Some trustIdentity)) then inl bad_record
  else
    match text_member "credential" record, jget "clientId" record, jget "serverCapabilities" record with
    | Some credential, Some clientId, Some (JArr capabilities) =>
        if negb (credential_form credential) then inl bad_record
        else
          match clientId, texts capabilities with
          | JNull, Some l => let? l' := validateServerCapabilities l in inr (ActiveRecord origin trustIdentity credential None l')
          | JStr c, Some l =>
              if is_uuid c then let? l' := validateServerCapabilities l in inr (ActiveRecord origin trustIdentity credential (Some c) l')
              else inl bad_record
          | _, _ => inl bad_record
          end
    | _, _, _ => inl bad_record
    end.

(** A parsed object is kept with its checked members. *)
(* src/src/enrollment-types.ts 1-6 EnrollmentTrustPointer *)
Record trust_pointer := TrustPointer { tp_value : json; tp_origin : string; tp_generationId : string; tp_trustIdentity : string }.

Definition pointer_of (origin generationId trustIdentity : string) : trust_pointer :=
  TrustPointer (JObj [("version", JNum 1); ("origin", JStr origin); ("generationId", JStr generationId);
    ("trustIdentity", JStr trustIdentity)]) origin generationId trustIdentity.

Definition checked_pointer (origin : string) (v : json) : option trust_pointer :=
  generationId ← text_member "generationId" v;
  trustIdentity ← text_member "trustIdentity" v;
  if has_version 1 v && bool_decide (text_member "origin" v = Some origin) && hex64 generationId
  then Some (TrustPointer v origin generationId trustIdentity) else None.

(* src/src/enrollment-types.ts 41-51 AcceptedEnrollmentMarker *)
Record accepted_marker := AcceptedMarker {
  am_value : json;
  am_origin : string;
  am_trustIdentity : string;
  am_generationId : string;
  am_previousPointer : option trust_pointer;
  am_activeDigest : string;
  am_rollbackAccount : string;
  am_rollbackDigest : string
}.

Definition marker_of (origin trustIdentity generationId : string) (previous : option trust_pointer)
    (activeDigest rollbackAccount rollbackDigest : string) : accepted_marker :=
  AcceptedMarker (JObj [("version", JNum marker_version); ("state", JStr "accepted"); ("origin", JStr origin);
      ("trustIdentity", JStr trustIdentity); ("generationId", JStr generationId);
      ("previousPointer", match previous with Some p => tp_value p | None => JNull end);
      ("activeDigest", JStr activeDigest); ("rollbackAccount", JStr rollbackAccount); ("rollbackDigest", JStr rollbackDigest)])
    origin trustIdentity generationId previous activeDigest rollbackAccount rollbackDigest.

Definition bad_marker : js_error := JsError "invalid Borg enrollment recovery marker".

Definition checked_previous (origin : string) (v : option json) : js_error + option trust_pointer :=
  match v with
  | Some JNull => inr None
  | Some p =>
      match checked_pointer origin p with
      | Some t => do? validateServerCredentialBinding origin (tp_trustIdentity t); inr (Some t)
      | None => inl bad_marker
      end
  | None => inl bad_marker
  end.

(* src/src/config.ts 418-442 decodeAcceptedEnrollmentMarker *)
Definition decodeAcceptedEnrollmentMarker (text : string) : js_error + accepted_marker :=
  let? v := json_of text in
  match text_member "origin" v, text_member "trustIdentity" v, text_member "generationId" v, text_member "activeDigest" v,
        text_member "rollbackAccount" v, text_member "rollbackDigest" v with
  | Some origin, Some trustIdentity, Some generationId, Some activeDigest, Some rollbackAccount, Some rollbackDigest =>
      if negb (has_version marker_version v && bool_decide (text_member "state" v = Some "accepted") && hex64 generationId &&
               hex64 activeDigest && hex64 rollbackDigest) then inl bad_marker
      else
        do? validateServerCredentialBinding origin trustIdentity;
        let? previous := checked_previous origin (jget "previousPointer" v) in
        inr (AcceptedMarker v origin trustIdentity generationId previous activeDigest rollbackAccount rollbackDigest)
  | _, _, _, _, _, _ => inl bad_marker
  end.

(** *** A pending enrollment

    A member that is a list of one string, which a regular expression converts to
    the string, is refused. *)

(* src/src/enrollment-types.ts 8-16 EnrollmentArtifactBinding *)
Record artifact_binding := ArtifactBinding {
  ab_value : json;
  ab_artifactDigest : string;
  ab_endpoint : string;
  ab_caSpkiSha256 : string;
  ab_trustIdentity : string;
  ab_stagedGenerationId : string
}.

(** [validateArtifactBinding]: the binding, when it is valid. *)
(* src/src/config.ts 176-187 validateArtifactBinding *)
Definition validateArtifactBinding (v : json) : option artifact_binding :=
  version ← jint (jget "artifactFormatVersion" v);
  artifactDigest ← text_member "artifactDigest" v;
  endpoint ← text_member "endpoint" v;
  spki ← text_member "caSpkiSha256" v;
  trustIdentity ← text_member "trustIdentity" v;
  authority ← text_member "expectedAuthority" v;
  staged ← text_member "stagedGenerationId" v;
  if binding_ok endpoint trustIdentity && is_safe_integer version && (1 <=? version) && hex64 artifactDigest && hex64 spki &&
     hex64 staged && (1 <=? String.length endpoint)%nat && (String.eqb authority "owner" || String.eqb authority "client")
  then Some (ArtifactBinding v artifactDigest endpoint spki trustIdentity staged) else None.

(* src/src/enrollment-types.ts 18-26 EnrollmentReplacementCapability *)
Record replacement_capability := ReplacementCapability {
  rp_value : json;
  rp_token : string;
  rp_priorAccountsDigest : string;
  rp_endpoint : string;
  rp_caSpkiSha256 : string;
  rp_trustIdentity : string;
  rp_retryKey : string;
  rp_artifactDigest : string
}.

(* src/src/config.ts 189-201 validateReplacementCapability *)
Definition validateReplacementCapability (v : json) : option replacement_capability :=
  token ← text_member "token" v;
  prior ← text_member "priorAccountsDigest" v;
  endpoint ← text_member "endpoint" v;
  spki ← text_member "caSpkiSha256" v;
  trustIdentity ← text_member "trustIdentity" v;
  retryKey ← text_member "retryKey" v;
  digest ← text_member "artifactDigest" v;
  if is_uuid token && binding_ok endpoint trustIdentity && hex64 prior && hex64 spki && hex64 digest && is_uuid retryKey
  then Some (ReplacementCapability v token prior endpoint spki trustIdentity retryKey digest) else None.

(* src/src/config.ts 59-68 PendingServerEnrollmentRecord *)
Record pending_record := PendingRecord {
  pe_origin : string;
  pe_trustIdentity : string;
  pe_invitation : string;
  pe_retryKey : string;
  pe_credential : string;
  pe_clientName : option string;
  pe_artifactBinding : option artifact_binding;
  pe_replacementCapability : option replacement_capability
}.

Definition pending_members (p : pending_record) : list (string * json) :=
  [("origin", JStr (pe_origin p)); ("trustIdentity", JStr (pe_trustIdentity p)); ("invitation", JStr (pe_invitation p));
   ("retryKey", JStr (pe_retryKey p)); ("credential", JStr (pe_credential p))] ++
  optional_field "clientName" (JStr <$> pe_clientName p) ++
  optional_field "artifactBinding" (ab_value <$> pe_artifactBinding p) ++
  optional_field "replacementCapability" (rp_value <$> pe_replacementCapability p).

Definition bad_pending : js_error := JsError "invalid".

(** A member that is absent, or valid. *)
Definition optional_member {A} (f : json -> option A) (v : option json) : option (option A) :=
  match v with None => Some None | Some x => Some <$> f x end.

Definition bindings_agree (origin trustIdentity retryKey : string) (b : option artifact_binding) (c : option replacement_capability) : bool :=
  match b with
  | None => true
  | Some b =>
      String.eqb (ab_endpoint b) origin && String.eqb (ab_trustIdentity b) trustIdentity &&
      match c with
      | None => true
      | Some c => String.eqb (rp_endpoint c) origin && String.eqb (rp_trustIdentity c) trustIdentity &&
          String.eqb (rp_retryKey c) retryKey && String.eqb (rp_artifactDigest c) (ab_artifactDigest b) &&
          String.eqb (rp_caSpkiSha256 c) (ab_caSpkiSha256 b)
      end
  end.

(* src/src/config.ts 594-641 decodePendingServerEnrollment *)
Definition decodePendingServerEnrollment (stored origin trustIdentity : string) : js_error + pending_record :=
  let? v := json_of stored in
  match text_member "invitation" v, text_member "retryKey" v, text_member "credential" v,
        optional_member (fun x => jstr (Some x)) (jget "clientName" v) with
  | Some invitation, Some retryKey, Some credential, Some clientName =>
      if negb ((has_version pending_version v || has_version legacy_pending_version v) &&
               bool_decide (text_member "state" v = Some "pending") && bool_decide (text_member "origin" v = Some origin) &&
               bool_decide (text_member "trustIdentity" v = Some trustIdentity) && is_uuid retryKey && credential_form credential)
      then inl bad_pending
      else
        do? validateInvitation invitation;
        do? validateClientName clientName;
        match optional_member validateArtifactBinding (jget "artifactBinding" v),
              optional_member validateReplacementCapability (jget "replacementCapability" v) with
        | Some b, Some c =>
            if bindings_agree origin trustIdentity retryKey b c
            then inr (PendingRecord origin trustIdentity invitation retryKey credential clientName b c) else inl bad_pending
        | _, _ => inl bad_pending
        end
  | _, _, _, _ => inl bad_pending
  end.

(** *** The snapshot that undoes an accepted enrollment *)

(* src/src/enrollment-types.ts 28-32 EnrollmentRollbackSnapshot *)
Record rollback_snapshot := RollbackSnapshot {
  rs_activeAccounts : accounts;
  rs_pendingAccount : string;
  rs_pendingValue : string
}.

Definition rollback_json (origin : string) (s : rollback_snapshot) : json :=
  JObj [("version", JNum 1); ("state", JStr "rollback-snapshot"); ("origin", JStr origin);
    ("snapshot", JObj [("activeAccounts", entries_json (rs_activeAccounts s));
       ("pendingAccount", JStr (rs_pendingAccount s)); ("pendingValue", JStr (rs_pendingValue s))])].

Definition bad_rollback : js_error := JsError "invalid Borg enrollment rollback snapshot".

(** The account is the one of the active record it holds. *)
Definition active_entry_ok (origin account text : string) : bool :=
  match parse_text text with
  | Some v =>
      has_version credential_version v && bool_decide (text_member "origin" v = Some origin) &&
      match text_member "trustIdentity" v with
      | Some trustIdentity => match serverCredentialAccount origin trustIdentity with inr a => String.eqb account a | inl _ => false end
      | None => false
      end
  | None => false
  end.

(** The pending record of the snapshot is the marker's. *)
Definition pending_of_marker (m : accepted_marker) (account text : string) : bool :=
  match parse_text text with
  | Some v =>
      match text_member "origin" v, text_member "trustIdentity" v with
      | Some origin, Some trustIdentity =>
          match decodePendingServerEnrollment text origin trustIdentity, serverPendingEnrollmentAccount (am_origin m) (am_trustIdentity m) with
          | inr p, inr a => String.eqb origin (am_origin m) && String.eqb trustIdentity (am_trustIdentity m) && String.eqb account a &&
              String.eqb (am_rollbackAccount m) (serverEnrollmentRollbackAccount (am_origin m) (pe_retryKey p))
          | _, _ => false
          end
      | _, _ => false
      end
  | None => false
  end.

(** [Object.entries] of an object; a list is one too, and has no valid entry. *)
Definition object_entries (v : option json) : option (list (string * json)) :=
  match v with Some (JObj fields) => Some fields | Some (JArr []) => Some [] | _ => None end.

(* src/src/config.ts 444-491 decodeRollbackRecord *)
Definition decodeRollbackRecord (value : string) (m : accepted_marker) : js_error + rollback_snapshot :=
  if negb (String.eqb (sha256_hex value) (am_rollbackDigest m)) then inl (JsError "Borg enrollment rollback snapshot digest is invalid")
  else
    let? record := json_of value in
    if negb (has_version 1 record && bool_decide (text_member "state" record = Some "rollback-snapshot") &&
             bool_decide (text_member "origin" record = Some (am_origin m))) then inl bad_rollback
    else
      match jget "snapshot" record with
      | Some snapshot =>
          match text_member "pendingAccount" snapshot, text_member "pendingValue" snapshot, object_entries (jget "activeAccounts" snapshot) with
          | Some account, Some text, Some fields =>
              match text_entries fields with
              | Some l =>
                  if forallb (fun kv => active_entry_ok (am_origin m) (fst kv) (snd kv)) l && pending_of_marker m account text
                  then inr (RollbackSnapshot l account text) else inl bad_rollback
              | None => inl bad_rollback
              end
          | _, _, _ => inl bad_rollback
          end
      | None => inl bad_rollback
      end.
End Accounts.
