(* ===== verification/EnrollmentOps.v ===== *)
(** * Enrollments: reading and changing the accounts ([config.ts])

    Each function takes the origin's lock, unless its caller [held] it, and the
    store's lock, and makes at most one change of the file.  A pending tuple becomes
    an active credential in one replacement, which also records how to undo it. *)

From S2P Require Import Prelude NodeLib JsDate Assoc JsonText Effects LeaseFs Sha256 LocalServerCursor SeatStore Enrollment.

Open Scope Z_scope.
Open Scope prog_scope.

#[local] Notation "'let?' x ':=' a 'in' b" := (sum_bind a (fun x => b)) (at level 10, x pattern, a at level 100, b at level 200).
#[local] Notation "'do?' a ';' b" := (sum_bind a (fun _ => b)) (at level 10, a at level 100, b at level 200).

Section Accounts.
Context `{UrlEnv}.

(** ** Reading *)

(* src/src/config.ts 493-500 markerForOriginUnlocked *)
Definition markerForOriginUnlocked (origin : string) : enrolling (option accepted_marker) :=
  let! stored := backend_get (serverAcceptedEnrollmentAccount origin) in
  match truthy stored with
  | None => Ret None
  | Some text => let! m := of_sum (decodeAcceptedEnrollmentMarker text) in Ret (Some m)
  end.

(** The check for an accepted enrollment that is not finalized. *)
Definition refuse_accepted (origin : string) : enrolling unit :=
  let! marker := markerForOriginUnlocked origin in
  match marker with Some _ => Throw InvitationArtifactRecoveryError | None => Ret tt end.

(* src/src/config.ts 527-542 getServerCredentialRecord *)
Definition getServerCredentialRecord (held : bool) (origin trustIdentity : string) : enrolling (option active_record) :=
  locked held origin (
    do! refuse_accepted origin;
    let! account := of_sum (serverCredentialAccount origin trustIdentity) in
    let! stored := backend_get account in
    match truthy stored with
    | None => Ret None
    | Some text => Ret (sum_option (decodeActiveServerCredentialRecord text origin trustIdentity))
    end).

(* src/src/config.ts 545-550 getServerCredential *)
Definition getServerCredential (held : bool) (origin trustIdentity : string) : enrolling (option string) :=
  let! r := getServerCredentialRecord held origin trustIdentity in Ret (ar_credential <$> r).

(* src/src/config.ts 552-567 hasServerCredentialForOrigin *)
Definition hasServerCredentialForOrigin (held : bool) (origin : string) : enrolling bool :=
  locked held origin (
    do! refuse_accepted origin;
    let! m := backend_entries in
    Ret (existsb (fun kv => is_active origin (snd kv)) m)).

(** The origin of a valid active record at its own account. *)
Definition credential_origin (account text : string) : option string :=
  v ← parse_text text;
  origin ← text_member "origin" v;
  trustIdentity ← text_member "trustIdentity" v;
  r ← sum_option (decodeActiveServerCredentialRecord text origin trustIdentity);
  own ← sum_option (serverCredentialAccount (ar_origin r) (ar_trustIdentity r));
  if String.eqb account own then Some origin else None.

(** [Array.prototype.sort] on a set of ASCII origins *)
Definition sorted_set (l : list string) : list string := merge_sort (fun a b => Is_true (string_leb a b)) (remove_dups l).

(* src/src/config.ts 569-592 listServerCredentialOrigins *)
Definition listServerCredentialOrigins (held : bool) (origin : string) : enrolling (list string) :=
  locked held origin (let! m := backend_entries in Ret (sorted_set (omap (fun kv => credential_origin (fst kv) (snd kv)) m))).

(* src/src/config.ts 644-661 getPendingServerEnrollment *)
Definition getPendingServerEnrollment (held : bool) (origin trustIdentity : string) : enrolling (option pending_record) :=
  do! of_sum (validateServerCredentialBinding origin trustIdentity);
  let! account := of_sum (serverPendingEnrollmentAccount origin trustIdentity) in
  locked held origin (
    do! refuse_accepted origin;
    let! stored := backend_get account in
    match truthy stored with
    | None => Ret None
    | Some text =>
        match decodePendingServerEnrollment text origin trustIdentity with
        | inr p => Ret (Some p)
        | inl _ => Throw (JsError "pending Borg server enrollment is corrupt")
        end
    end).

Definition is_accepted (v : json) : bool := has_version marker_version v && bool_decide (text_member "state" v = Some "accepted").
Definition is_pending (v : json) : bool :=
  (has_version pending_version v || has_version legacy_pending_version v) && bool_decide (text_member "state" v = Some "pending").

(** What one entry is: a marker or a pending enrollment at its own account.  An
    error is [inl] of whether it is a recovery error of its own. *)
Inductive entry_kind := MarkerAt (m : accepted_marker) | PendingAt (p : pending_record) | Unrelated.

Definition is_recovery (e : js_error) : bool := instance_of "InvitationArtifactRecoveryError" e.

(** The body of the loops over the entries, before its [catch]: the pending record is
    decoded before its account is compared, or after. *)
Definition read_entry (decode_first : bool) (account text : string) : js_error + entry_kind :=
  let? raw := json_of text in
  if is_accepted raw then
    let? m := decodeAcceptedEnrollmentMarker text in
    if String.eqb account (serverAcceptedEnrollmentAccount (am_origin m)) then inr (MarkerAt m) else inl MiskeyedRecoveryError
  else if is_pending raw then
    match text_member "origin" raw, text_member "trustIdentity" raw with
    | Some origin, Some trustIdentity =>
        let decoded := decodePendingServerEnrollment text origin trustIdentity in
        do? (if decode_first then do? decoded; inr tt else inr tt);
        let? own := serverPendingEnrollmentAccount origin trustIdentity in
        if String.eqb account own then let? p := decoded in inr (PendingAt p) else inl MiskeyedRecoveryError
    | _, _ => inr Unrelated
    end
  else inr Unrelated.

(** A broken entry at one of the accounts of an enrollment is an error, any other is
    left to its reader. *)
Definition or_unrelated (prefixes : list string) (account : string) (r : js_error + entry_kind) : js_error + entry_kind :=
  match r with
  | inr k => inr k
  | inl e => if is_recovery e then inl e
             else if existsb (fun p => starts_with p account) prefixes then inl InvitationArtifactRecoveryError else inr Unrelated
  end.

Fixpoint collect {A} (f : string -> string -> js_error + list A) (m : accounts) : js_error + list A :=
  match m with
  | [] => inr []
  | (account, text) :: rest => let? l := f account text in let? more := collect f rest in inr (l ++ more)
  end.

(* src/src/config.ts 664-704 findPendingServerEnrollment *)
Definition findPendingServerEnrollment : enrolling (option pending_record) :=
  withCredentialStoreLock (
    let! m := backend_entries in
    let! found := of_sum (collect (fun account text =>
      let? k := or_unrelated ["borg-server-enrollment-pending:"; "borg-server-enrollment-accepted:"] account (read_entry false account text) in
      match k with MarkerAt _ => inl InvitationArtifactRecoveryError | PendingAt p => inr [p] | Unrelated => inr [] end) m) in
    match found with
    | [] => Ret None
    | [p] => Ret (Some p)
    | _ => Throw (JsError "multiple pending Borg server enrollments require an explicit server endpoint")
    end).

(* src/src/config.ts 1015-1017 EnrollmentRecoveryTransaction *)
Inductive recovery_transaction := AcceptedTransaction (m : accepted_marker) | PendingTransaction (p : pending_record).

Definition selected (selectedOrigin : option string) (origin : string) : bool :=
  match selectedOrigin with None => true | Some o => String.eqb origin o end.

Definition canonical_https (origin : string) : js_error + unit :=
  match url_origin origin with
  | None => inl (JsError "invalid Borg server credential origin")
  | Some o => require (String.eqb o origin && starts_with "https://" origin) "Borg server credentials require a canonical HTTPS origin"
  end.

(* src/src/config.ts 1019-1072 findEnrollmentRecoveryTransaction *)
Definition findEnrollmentRecoveryTransaction (selectedOrigin : option string) : enrolling (option recovery_transaction) :=
  do! match selectedOrigin with None => Ret tt | Some o => of_sum (canonical_https o) end;
  withCredentialStoreLock (
    let! m := backend_entries in
    let! found := of_sum (collect (fun account text =>
      let? k := or_unrelated ["borg-server-enrollment-accepted:"; "borg-server-enrollment-pending:"; "borg-server-enrollment-rollback:"]
        account (read_entry true account text) in
      match k with
      | MarkerAt a => inr (if selected selectedOrigin (am_origin a) then [AcceptedTransaction a] else [])
      | PendingAt p => inr (if selected selectedOrigin (pe_origin p) then [PendingTransaction p] else [])
      | Unrelated => inr []
      end) m) in
    match found with
    | [] => Ret None
    | [t] => Ret (Some t)
    | _ => Throw (JsError "multiple Borg enrollment transactions require an explicit server endpoint")
    end).

(** ** Writing *)

(* src/src/config.ts 43-49 ServerCredentialRecord *)
Record credential_record := CredentialRecord {
  cr_origin : string;
  cr_trustIdentity : string;
  cr_credential : string;
  cr_clientId : option string;
  cr_serverCapabilities : option (list string)
}.

Definition already_enrolled : js_error := JsError "local Borg server enrollment already exists for this origin and replacement was not confirmed".

(** The file backend has [entries] and [replaceAccounts]. *)
(* src/src/config.ts 312-377 writeServerCredentialRecord *)
Definition writeServerCredentialRecord (r : credential_record) (allowReplacement : bool) : enrolling unit :=
  do! of_sum (validateServerCredentialBinding (cr_origin r) (cr_trustIdentity r));
  do! of_sum (validateEnrollmentCredential (cr_credential r));
  do! match cr_clientId r with Some c => of_sum (validateUuid c "client identity") | None => Ret tt end;
  let! capabilities := of_sum (validateServerCapabilities (default [] (cr_serverCapabilities r))) in
  let! account := of_sum (serverCredentialAccount (cr_origin r) (cr_trustIdentity r)) in
  let! existing := backend_get account in
  if bool_decide (is_Some existing) && negb allowReplacement then Throw already_enrolled
  else
    let! m := backend_entries in
    let conflicts := actives (cr_origin r) m in
    let text := encodeServerCredentialRecord (ActiveRecord (cr_origin r) (cr_trustIdentity r) (cr_credential r) (cr_clientId r) capabilities) in
    if (0 <? length conflicts)%nat then
      if negb allowReplacement then Throw already_enrolled
      else backend_replace (put account text (without_actives (cr_origin r) m))
    else backend_set account text.

(* src/src/config.ts 516-524 storeServerCredential *)
Definition storeServerCredential (held : bool) (r : credential_record) : enrolling unit :=
  locked held (cr_origin r) (writeServerCredentialRecord r false).

Definition pending_json (p : pending_record) : json :=
  JObj ([("version", JNum pending_version); ("state", JStr "pending")] ++ pending_members p).

Record enroll_input := EnrollInput {
  ei_origin : string;
  ei_trustIdentity : string;
  ei_invitation : string;
  ei_clientName : option string;
  ei_artifactBinding : option artifact_binding
}.

Definition optional_text (v : option json) : string := match v with Some x => json_compact x | None => "" end.

(** The stored tuple is the one of this request. *)
Definition resumes (input : enroll_input) (mint : bool) (p : pending_record) : bool :=
  String.eqb (pe_invitation p) (ei_invitation input) && bool_decide (pe_clientName p = ei_clientName input) &&
  String.eqb (optional_text (ab_value <$> pe_artifactBinding p)) (optional_text (ab_value <$> ei_artifactBinding input)) &&
  negb (mint && bool_decide (pe_replacementCapability p = None)).

Definition capability_of (token prior endpoint spki trustIdentity retryKey digest : string) : replacement_capability :=
  ReplacementCapability (JObj [("token", JStr token); ("priorAccountsDigest", JStr prior); ("endpoint", JStr endpoint);
    ("caSpkiSha256", JStr spki); ("trustIdentity", JStr trustIdentity); ("retryKey", JStr retryKey); ("artifactDigest", JStr digest)])
    token prior endpoint spki trustIdentity retryKey digest.

(** A fresh tuple; the capability is minted with the digest of the accounts it may replace. *)
Definition fresh_pending (input : enroll_input) (mint : bool) : enrolling pending_record :=
  let! retryKey := ask NewUuid in
  let! m := backend_entries in
  let! capability :=
    match mint, ei_artifactBinding input with
    | true, Some b =>
        let! token := ask NewUuid in
        Ret (Some (capability_of token (digestAccountSnapshot m (ei_origin input)) (ei_origin input) (ab_caSpkiSha256 b)
          (ei_trustIdentity input) retryKey (ab_artifactDigest b)))
    | _, _ => Ret None
    end in
  let! credential := ask NewSecret in
  Ret (PendingRecord (ei_origin input) (ei_trustIdentity input) (ei_invitation input) retryKey credential (ei_clientName input)
    (ei_artifactBinding input) capability).

(* src/src/config.ts 739-814 getOrCreatePendingServerEnrollmentInternal *)
Definition getOrCreatePendingServerEnrollmentInternal (held : bool) (input : enroll_input) (mint : bool) : enrolling pending_record :=
  do! of_sum (validateServerCredentialBinding (ei_origin input) (ei_trustIdentity input));
  do! of_sum (validateInvitation (ei_invitation input));
  do! of_sum (validateClientName (ei_clientName input));
  do! match ei_artifactBinding input with
      | None => Ret tt
      | Some b => match validateArtifactBinding (ab_value b) with
                  | Some _ => Ret tt
                  | None => Throw (JsError "invalid Borg enrollment artifact binding")
                  end
      end;
  do! match ei_artifactBinding input with
      | Some b => if String.eqb (sha256_hex (ei_invitation input)) (ab_artifactDigest b) then Ret tt
                  else Throw (JsError "enrollment invitation does not match its verified artifact binding")
      | None => if mint then Throw (JsError "replacement consent requires a verified invitation artifact binding") else Ret tt
      end;
  let! account := of_sum (serverPendingEnrollmentAccount (ei_origin input) (ei_trustIdentity input)) in
  locked held (ei_origin input) (
    let! stored := backend_get account in
    match truthy stored with
    | Some text =>
        match decodePendingServerEnrollment text (ei_origin input) (ei_trustIdentity input) with
        | inr p => if resumes input mint p then Ret p else Throw (JsError "pending Borg server enrollment does not match this request")
        | inl _ => Throw (JsError "pending Borg server enrollment does not match this request")
        end
    | None =>
        let! p := fresh_pending input mint in
        do! of_sum (validateEnrollmentCredential (pe_credential p));
        do! backend_set account (json_compact (pending_json p));
        Ret p
    end).

(* src/src/config.ts 711-721 getOrCreatePendingServerEnrollment *)
Definition getOrCreatePendingServerEnrollment (held : bool) (input : enroll_input) : enrolling pending_record :=
  getOrCreatePendingServerEnrollmentInternal held input false.

(* src/src/config.ts 727-737 createPendingServerEnrollmentWithReplacementConsent *)
Definition createPendingServerEnrollmentWithReplacementConsent (held : bool) (input : enroll_input) : enrolling pending_record :=
  getOrCreatePendingServerEnrollmentInternal held input true.

(* src/src/config.ts 1075-1094 clearPendingServerEnrollment *)
Definition clearPendingServerEnrollment (held : bool) (origin trustIdentity retryKey : string) : enrolling unit :=
  do! of_sum (validateUuid retryKey "enrollment retry key");
  let! account := of_sum (serverPendingEnrollmentAccount origin trustIdentity) in
  locked held origin (
    let! stored := backend_get account in
    match truthy stored with
    | None => Ret tt
    | Some text =>
        match decodePendingServerEnrollment text origin trustIdentity with
        | inr p => if String.eqb (pe_retryKey p) retryKey then backend_delete account else Ret tt
        | inl _ => Ret tt
        end
    end).

(* src/src/config.ts 1254-1261 clearServerCredential *)
Definition clearServerCredential (held : bool) (origin trustIdentity : string) : enrolling unit :=
  let! pendingAccount := of_sum (serverPendingEnrollmentAccount origin trustIdentity) in
  locked held origin (
    let! account := of_sum (serverCredentialAccount origin trustIdentity) in
    do! backend_delete account;
    backend_delete pendingAccount).

(* src/src/config.ts 1264-1302 clearEnrollmentTransaction *)
Definition clearEnrollmentTransaction (held : bool) (expected : pending_record) : enrolling bool :=
  do! of_sum (validateServerCredentialBinding (pe_origin expected) (pe_trustIdentity expected));
  let! account := of_sum (serverPendingEnrollmentAccount (pe_origin expected) (pe_trustIdentity expected)) in
  locked held (pe_origin expected) (
    do! refuse_accepted (pe_origin expected);
    let! m := backend_entries in
    match truthy (assoc account m) with
    | None => Ret false
    | Some text =>
        match decodePendingServerEnrollment text (pe_origin expected) (pe_trustIdentity expected) with
        | inl _ => Ret false
        | inr current =>
            if negb (same_json (JObj (pending_members current)) (JObj (pending_members expected))) then Ret false
            else
              do! backend_replace (drop_key account m);
              let! remaining := backend_get account in
              Ret (bool_decide (remaining = None))
        end
    end).

(** *** Activation *)

Record activation := Activation {
  av_origin : string;
  av_trustIdentity : string;
  av_retryKey : string;
  av_credential : string;
  av_clientId : string;
  av_serverCapabilities : list string;
  av_generationId : option string;
  av_previousPointer : option trust_pointer;
  av_token : option string
}.

Definition consent_mismatch : js_error := JsError "Borg enrollment replacement consent does not match this transaction".

(** The consent to replace the accounts there are. *)
Definition consents (v : activation) (p : pending_record) (m : accounts) : js_error + unit :=
  match actives (av_origin v) m, av_token v with
  | [], None => inr tt
  | [], Some _ => inl consent_mismatch
  | _ :: _, token =>
      match pe_replacementCapability p with
      | Some c =>
          do? require (bool_decide (token = Some (rp_token c)))
                "local Borg server enrollment already exists and replacement consent is missing";
          if String.eqb (rp_priorAccountsDigest c) (digestAccountSnapshot m (av_origin v)) && String.eqb (rp_endpoint c) (av_origin v) &&
             String.eqb (rp_trustIdentity c) (av_trustIdentity v) && String.eqb (rp_retryKey c) (av_retryKey v) &&
             bool_decide (Some (rp_artifactDigest c) = ab_artifactDigest <$> pe_artifactBinding p) &&
             bool_decide (Some (rp_caSpkiSha256 c) = ab_caSpkiSha256 <$> pe_artifactBinding p)
          then inr tt else inl consent_mismatch
      | None => inl (JsError "local Borg server enrollment already exists and replacement consent is missing")
      end
  end.

(** [input.generationId ?? pending.artifactBinding?.stagedGenerationId] *)
Definition activated_generation (v : activation) (p : pending_record) : js_error + option string :=
  let g := match av_generationId v with Some g => Some g | None => ab_stagedGenerationId <$> pe_artifactBinding p end in
  match pe_artifactBinding p with
  | Some b => if bool_decide (g = Some (ab_stagedGenerationId b)) then inr g
              else inl (JsError "pending Borg server enrollment generation does not match the verified response")
  | None => inr g
  end.

Definition activated_record (v : activation) : active_record :=
  ActiveRecord (av_origin v) (av_trustIdentity v) (av_credential v) (Some (av_clientId v)) (av_serverCapabilities v).

(** The accounts before the marker: the new credential in place of those of the origin. *)
Definition replaced_accounts (v : activation) (target pendingAccount : string) (m : accounts) : accounts :=
  drop_key pendingAccount (put target (encodeServerCredentialRecord (activated_record v)) (without_actives (av_origin v) m)).

Definition snapshot_text (v : activation) (pendingAccount stored : string) (m : accounts) : string :=
  json_compact (rollback_json (av_origin v) (RollbackSnapshot (actives (av_origin v) m) pendingAccount stored)).

Definition activation_marker (v : activation) (generationId pendingAccount stored : string) (m : accounts) : accepted_marker :=
  marker_of (av_origin v) (av_trustIdentity v) generationId (av_previousPointer v)
    (sha256_hex (encodeServerCredentialRecord (activated_record v))) (serverEnrollmentRollbackAccount (av_origin v) (av_retryKey v))
    (sha256_hex (snapshot_text v pendingAccount stored m)).

(** The accounts that replace [m], where [stored] is the pending tuple. *)
Definition activated_accounts (v : activation) (p : pending_record) (target pendingAccount stored : string) (m : accounts) : js_error + accounts :=
  do? consents v p m;
  let? g := activated_generation v p in
  let next := replaced_accounts v target pendingAccount m in
  match g with
  | None => inr next
  | Some generationId =>
      let marker := activation_marker v generationId pendingAccount stored m in
      inr (put (serverAcceptedEnrollmentAccount (av_origin v)) (json_compact (am_value marker))
            (put (am_rollbackAccount marker) (snapshot_text v pendingAccount stored m) next))
  end.

(* src/src/config.ts 817-933 activatePendingServerEnrollment *)
Definition activatePendingServerEnrollment (held : bool) (v : activation) : enrolling unit :=
  do! of_sum (validateServerCredentialBinding (av_origin v) (av_trustIdentity v));
  do! of_sum (validateUuid (av_retryKey v) "enrollment retry key");
  do! of_sum (validateEnrollmentCredential (av_credential v));
  do! of_sum (validateUuid (av_clientId v) "client identity");
  do! of_sum (validateServerCapabilities (av_serverCapabilities v));
  let! pendingAccount := of_sum (serverPendingEnrollmentAccount (av_origin v) (av_trustIdentity v)) in
  locked held (av_origin v) (
    let! found := backend_get pendingAccount in
    match truthy found with
    | None => Throw (JsError "pending Borg server enrollment is missing")
    | Some stored =>
        match decodePendingServerEnrollment stored (av_origin v) (av_trustIdentity v) with
        | inl _ => Throw (JsError "pending Borg server enrollment does not match the verified response")
        | inr p =>
            if negb (String.eqb (pe_retryKey p) (av_retryKey v) && String.eqb (pe_credential p) (av_credential v))
            then Throw (JsError "pending Borg server enrollment does not match the verified response")
            else
              let! m := backend_entries in
              let! target := of_sum (serverCredentialAccount (av_origin v) (av_trustIdentity v)) in
              let! next := of_sum (activated_accounts v p target pendingAccount stored m) in
              backend_replace next
        end
    end).

(* src/src/config.ts 935-942 getAcceptedEnrollmentMarker *)
Definition getAcceptedEnrollmentMarker (held : bool) (origin : string) : enrolling (option accepted_marker) :=
  locked held origin (markerForOriginUnlocked origin).

(** What finalizing makes of the accounts: nothing, where there is no marker. *)
Definition finalized_accounts (origin trustIdentity generationId : string) (m : accounts) : js_error + option accounts :=
  match truthy (assoc (serverAcceptedEnrollmentAccount origin) m) with
  | None => inr None
  | Some text =>
      let? marker := decodeAcceptedEnrollmentMarker text in
      do? require (String.eqb (am_trustIdentity marker) trustIdentity && String.eqb (am_generationId marker) generationId)
            "Borg enrollment recovery marker does not match committed trust";
      let? account := serverCredentialAccount origin trustIdentity in
      match truthy (assoc account m) with
      | None => inl (JsError "Borg enrollment recovery marker has no matching active credential")
      | Some active =>
          do? require (String.eqb (sha256_hex active) (am_activeDigest marker))
                "Borg enrollment recovery marker active credential does not match the committed transaction";
          match decodeActiveServerCredentialRecord active origin trustIdentity with
          | inl _ => inl (JsError "Borg enrollment recovery marker active credential is invalid")
          | inr _ => inr (Some (drop_key (am_rollbackAccount marker) (drop_key (serverAcceptedEnrollmentAccount origin) m)))
          end
      end
  end.

(* src/src/config.ts 945-977 finalizeAcceptedEnrollment *)
Definition finalizeAcceptedEnrollment (held : bool) (origin trustIdentity generationId : string) : enrolling unit :=
  locked held origin (
    let! m := backend_entries in
    let! next := of_sum (finalized_accounts origin trustIdentity generationId m) in
    match next with Some m' => backend_replace m' | None => Ret tt end).

(** The accounts of the snapshot in place of those of the origin. *)
Definition restored_accounts (marker : accepted_marker) (m : accounts) : js_error + accounts :=
  let changed := JsError "Borg enrollment recovery marker changed during rollback" in
  match truthy (assoc (serverAcceptedEnrollmentAccount (am_origin marker)) m) with
  | None => inl changed
  | Some text =>
      let? current := decodeAcceptedEnrollmentMarker text in
      if negb (same_json (am_value current) (am_value marker)) then inl changed
      else
        match truthy (assoc (am_rollbackAccount marker) m) with
        | None => inl (JsError "Borg enrollment rollback snapshot is missing")
        | Some rollback =>
            let? s := decodeRollbackRecord rollback marker in
            let next := foldl (fun n kv => put (fst kv) (snd kv) n) (without_actives (am_origin marker) m) (rs_activeAccounts s) in
            inr (drop_key (am_rollbackAccount marker) (drop_key (serverAcceptedEnrollmentAccount (am_origin marker))
              (put (rs_pendingAccount s) (rs_pendingValue s) next)))
        end
  end.

(* src/src/config.ts 980-1013 restoreAcceptedEnrollmentAccounts *)
Definition restoreAcceptedEnrollmentAccounts (held : bool) (marker : accepted_marker) : enrolling unit :=
  locked held (am_origin marker) (
    let! m := backend_entries in
    let! next := of_sum (restored_accounts marker m) in
    backend_replace next).

(** ** Creating a cube: one retry key per repository *)

(* src/src/config.ts 70-80 PendingServerCubeCreationRecord *)
Record cube_creation := CubeCreation {
  cc_origin : string;
  cc_trustIdentity : string;
  cc_clientId : string;
  cc_repositoryBinding : string;
  cc_retryKey : string;
  cc_name : string;
  cc_workingRepoName : string;
  cc_repository : string * string;
  cc_template : string
}.

(* src/src/config.ts 242-262 serverCubeRetryAccount *)
Definition serverCubeRetryAccount (origin trustIdentity clientId repositoryBinding : string) : js_error + string :=
  do? validateServerCredentialBinding origin trustIdentity;
  do? validateUuid clientId "client identity";
  do? require (hex64 repositoryBinding) "invalid Borg server repository binding";
  inr (bound_name "borg-server-cube-pending:" [origin; trustIdentity; clientId; repositoryBinding]).

(** The tuple that is stored, without the repository. *)
Definition creation_json (r : cube_creation) : json :=
  JObj [("version", JNum 3); ("state", JStr "pending"); ("origin", JStr (cc_origin r)); ("trustIdentity", JStr (cc_trustIdentity r));
    ("clientId", JStr (cc_clientId r)); ("repositoryBinding", JStr (cc_repositoryBinding r)); ("retryKey", JStr (cc_retryKey r));
    ("name", JStr (cc_name r)); ("workingRepoName", JStr (cc_workingRepoName r)); ("template", JStr (cc_template r))].

Definition with_key (r : cube_creation) (retryKey : string) : cube_creation :=
  CubeCreation (cc_origin r) (cc_trustIdentity r) (cc_clientId r) (cc_repositoryBinding r) retryKey (cc_name r) (cc_workingRepoName r)
    (cc_repository r) (cc_template r).

(** The retry key of a stored tuple for the same operation as [r]. *)
Definition same_operation (r : cube_creation) (v : json) : option string :=
  retryKey ← text_member "retryKey" v;
  if is_uuid retryKey && bool_decide (text_member "state" v = Some "pending") && bool_decide (text_member "origin" v = Some (cc_origin r)) &&
     bool_decide (text_member "trustIdentity" v = Some (cc_trustIdentity r)) && bool_decide (text_member "clientId" v = Some (cc_clientId r)) &&
     bool_decide (text_member "repositoryBinding" v = Some (cc_repositoryBinding r)) && bool_decide (text_member "name" v = Some (cc_name r)) &&
     bool_decide (text_member "workingRepoName" v = Some (cc_workingRepoName r))
  then Some retryKey else None.

Definition creation_mismatch : js_error := JsError "pending Borg server cube creation does not match this repository".

Definition valid_creation (r : cube_creation) : js_error + unit :=
  do? validateServerCredentialBinding (cc_origin r) (cc_trustIdentity r);
  do? validateUuid (cc_clientId r) "client identity";
  do? require ((String.eqb (fst (cc_repository r)) "origin" || String.eqb (fst (cc_repository r)) "local") && (1 <=? String.length (snd (cc_repository r)))%nat)
        "invalid Borg server repository binding";
  match validateClientName (Some (cc_name r)) with inr _ => inr tt | inl _ => inl (JsError "invalid Borg server cube name") end.

(** [input] has no retry key and no binding yet. *)
(* src/src/config.ts 1097-1229 getOrCreatePendingServerCubeCreation *)
Definition getOrCreatePendingServerCubeCreation (input : cube_creation) : enrolling cube_creation :=
  do! of_sum (valid_creation input);
  let binding := sha256_hex (join nul [fst (cc_repository input); snd (cc_repository input)]) in
  let r := CubeCreation (cc_origin input) (cc_trustIdentity input) (cc_clientId input) binding "" (cc_name input) (cc_workingRepoName input)
             (cc_repository input) (cc_template input) in
  let! account := of_sum (serverCubeRetryAccount (cc_origin r) (cc_trustIdentity r) (cc_clientId r) binding) in
  withCredentialStoreLock (
    let! stored := backend_get account in
    match truthy stored with
    | None =>
        let! retryKey := ask NewUuid in
        do! backend_set account (json_compact (creation_json (with_key r retryKey)));
        Ret (with_key r retryKey)
    | Some text =>
        match parse_text text with
        | Some (JObj fields) =>
            let v := JObj fields in
            let same_template := bool_decide (text_member "template" v = Some (cc_template r)) in
            match same_operation r v with
            | Some retryKey =>
                if has_version 3 v && same_template then Ret (with_key r retryKey)
                else if has_version 2 v then
                  if negb same_template && negb (bool_decide (text_member "template" v = Some "default")) then Throw creation_mismatch
                  else
                    let! key := if same_template then Ret retryKey else ask NewUuid in
                    do! backend_set account (json_compact (creation_json (with_key r key)));
                    Ret (with_key r key)
                else Throw creation_mismatch
            | None => Throw creation_mismatch
            end
        | _ => Throw creation_mismatch
        end
    end).

(* src/src/config.ts 1231-1252 clearPendingServerCubeCreation *)
Definition clearPendingServerCubeCreation (r : cube_creation) : enrolling unit :=
  let! account := of_sum (serverCubeRetryAccount (cc_origin r) (cc_trustIdentity r) (cc_clientId r) (cc_repositoryBinding r)) in
  withCredentialStoreLock (
    let! stored := backend_get account in
    match v ← (t ← truthy stored; parse_text t); text_member "retryKey" v with
    | Some retryKey => if String.eqb retryKey (cc_retryKey r) then backend_delete account else Ret tt
    | None => Ret tt
    end).
End Accounts.
