(* ===== verification/EnrollmentTrust.v ===== *)
(** * Enrollments: the trust of a server ([server-trust.ts])

    The certificate authority a client trusts for an origin is a generation, a
    directory named by the digest of what it holds; [current.json] points to the
    one in use.  Committing an accepted enrollment moves the pointer and the
    accounts together, recovering completes or undoes it, and
    [recover-enrollment] undoes the one the operator reviewed.

    The fault points of the tests are left out, and of a pinned [fetch] only the
    certificate it is bound to is kept. *)

From S2P Require Import Prelude NodeLib JsDate Assoc JsonText Effects LeaseFs Sha256 LocalServerCursor SeatStore Enrollment EnrollmentOps.

Open Scope Z_scope.
Open Scope prog_scope.

#[local] Notation "'let?' x ':=' a 'in' b" := (sum_bind a (fun x => b)) (at level 10, x pattern, a at level 100, b at level 200).
#[local] Notation "'do?' a ';' b" := (sum_bind a (fun _ => b)) (at level 10, a at level 100, b at level 200).

(** What [new X509Certificate] reads of a certificate, in PEM or in DER: whether it
    is an authority's, and its public key as DER. *)
Record x509 := X509 { x509_ca : bool; x509_spki : string }.

Class CertEnv := {
  x509_of_pem : string -> option x509;
  x509_of_der : string -> option x509
}.

(** The parts of a URL that [new URL] gives. *)
Record url_parts := UrlParts {
  url_protocol : string;
  url_username : string;
  url_password : string;
  url_hostname : string;
  url_pathname : string;
  url_search : string;
  url_hash : string;
  url_originOf : string
}.

(** Who runs the client, and where its files are. *)
Record trust_site := TrustSite {
  ts_home : string;
  ts_cwd : string;
  ts_dataDir : option string;
  ts_uid : option Z;
  ts_pid : Z
}.

Section Trust.
Context `{UrlEnv} `{CertEnv}.
Variable site : trust_site.

(** ** Paths *)

(* src/src/server-trust.ts 105-107 serverDataDirectory *)
Definition serverDataDirectory : string :=
  path_resolve (ts_cwd site) (default (path_join [ts_home site; ".borg"; "server"]) (ts_dataDir site)).

(* src/src/server-trust.ts 109-112 remoteTrustDirectory *)
Definition remoteTrustDirectory (origin : string) : string := path_join [ts_home site; ".borg"; "server-trust"; sha256_hex origin].

(* src/src/server-trust.ts 114-116 trustGenerationsDirectory *)
Definition trustGenerationsDirectory (origin : string) : string := path_join [remoteTrustDirectory origin; "generations"].

(* src/src/server-trust.ts 118-120 trustGenerationDirectory *)
Definition trustGenerationDirectory (origin generationId : string) : string :=
  path_join [trustGenerationsDirectory origin; generationId].

(** [current.json] in the origin's directory *)
(* src/src/server-trust.ts 122-124 trustPointerPath *)
Definition pointer_file : string := "current.json".

(* src/src/server-trust.ts 126-130 trustGenerationId *)
Definition trustGenerationId (origin certificate identity : string) : string := sha256_hex (join nul [origin; identity; certificate]).

(** ** Reading *)

(* src/src/server-trust.ts 132-139 trustFilesExist *)
Definition trustFilesExist (directory : string) : enrolling bool :=
  let! a := ask (AccessFile directory "ca.crt") in
  let! b := ask (AccessFile directory "server.json") in
  Ret (a && b).

(* src/src/server-trust.ts 141-144 remoteTrustStateExists *)
Definition remoteTrustStateExists (origin : string) : enrolling bool :=
  let! pointer := ask (AccessFile (remoteTrustDirectory origin) pointer_file) in
  if (pointer : bool) then Ret true else trustFilesExist (remoteTrustDirectory origin).

Definition foreign (m : meta) : bool := match ts_uid site with Some uid => negb (md_uid m =? uid) | None => false end.

Definition not_found : string := "Borg server trust files were not found".

(* src/src/server-trust.ts 146-168 readTrustFile *)
Definition readTrustFile (directory name : string) : enrolling string :=
  let! opened := attempt (perform (OpenTrust directory name)) in
  match opened with
  | inl e => Throw (JsError (if has_code ENOENT e then not_found else "Borg server trust files could not be opened safely"))
  | inr _ =>
      pfinally (
        let! m := perform (TrustStat directory name) in
        if negb (md_file m) || negb (others_bits (md_mode m) =? 0) then Throw (JsError "Borg server trust files must be private regular files")
        else if foreign m then Throw (JsError "Borg server trust files must be owned by the current user")
        else perform (TrustText directory name))
      (perform (TrustClose directory name))
  end.

(* src/src/server-trust.ts 170-178 assertPrivateDirectory *)
Definition assertPrivateDirectory (path : string) : enrolling unit :=
  let! m := perform (LstatDir path) in
  if negb (md_dir m) || md_link m || negb (others_bits (md_mode m) =? 0)
  then Throw (JsError "Borg server trust directories must be private real directories")
  else if foreign m then Throw (JsError "Borg server trust directories must be owned by the current user")
  else Ret tt.

(* src/src/server-trust.ts 189-204 decodeTrustConfig *)
Definition decodeTrustConfig (text : string) : js_error + string :=
  match parse_text text with
  | Some (JObj fields) =>
      match text_member "ca_spki_sha256" (JObj fields) with
      | Some fingerprint =>
          if (String.length fingerprint =? 64)%nat && string_forallb is_hex fingerprint then inr (to_lower fingerprint)
          else inl (JsError "Borg server trust metadata is missing a valid CA identity")
      | None => inl (JsError "Borg server trust metadata is missing a valid CA identity")
      end
  | _ => inl (JsError "Borg server trust metadata is invalid")
  end.

Definition spki_identity (digest : string) : string := "spki-sha256:" +:+ digest.

(** The two digests are compared as the bytes their digits are. *)
(* src/src/server-trust.ts 206-222 verifyCaIdentity *)
Definition verifyCaIdentity (certificate expected : string) : js_error + string :=
  match x509_of_pem certificate with
  | None => inl (JsError "Borg server CA certificate is invalid")
  | Some c =>
      if negb (x509_ca c) then inl (JsError "Borg server trust anchor is not a CA certificate")
      else if String.eqb (sha256_hex (x509_spki c)) expected then inr (spki_identity (sha256_hex (x509_spki c)))
      else inl (JsError "Borg server CA certificate does not match its pinned identity")
  end.

Record generation := Generation { g_certificate : string; g_identity : string }.

(* src/src/server-trust.ts 493-499 readLocalAuthorityTrust *)
Definition readLocalAuthorityTrust (directory : string) : enrolling generation :=
  let! certificate := readTrustFile directory "ca.crt" in
  let! config := readTrustFile directory "server.json" in
  let! identity := of_sum (let? expected := decodeTrustConfig config in verifyCaIdentity certificate expected) in
  Ret (Generation certificate identity).

(* src/src/server-trust.ts 224-240 readGeneration *)
Definition readGeneration (origin generationId : string) : enrolling generation :=
  if negb (hex64 generationId) then Throw (JsError "Borg server trust pointer is invalid")
  else
    let! g := readLocalAuthorityTrust (trustGenerationDirectory origin generationId) in
    if String.eqb (trustGenerationId origin (g_certificate g) (g_identity g)) generationId then Ret g
    else Throw (JsError "Borg server trust generation digest is invalid").

(* src/src/server-trust.ts 242-264 readTrustPointer *)
Definition readTrustPointer (origin : string) : enrolling (option trust_pointer) :=
  let! there := attempt (assertPrivateDirectory (remoteTrustDirectory origin)) in
  match there with
  | inl e => if has_code ENOENT e then Ret None else Throw e
  | inr _ =>
      let! raw := attempt (readTrustFile (remoteTrustDirectory origin) pointer_file) in
      match raw with
      | inl e => if includes "were not found" (message_of e) then Ret None else Throw e
      | inr text =>
          match (v ← parse_text text; checked_pointer origin v) with
          | Some p => Ret (Some p)
          | None => Throw (JsError "Borg server trust pointer is invalid")
          end
      end
  end.

(** ** Writing *)

Definition pointer_text (p : trust_pointer) : string := json_compact (tp_value p) +:+ newline.

(* src/src/server-trust.ts 266-272 publishTrustPointer *)
Definition publishTrustPointer (p : trust_pointer) : enrolling unit :=
  let root := remoteTrustDirectory (tp_origin p) in
  do! perform (MkdirAll root);
  do! assertPrivateDirectory root;
  do! perform (AtomicWrite root pointer_file (pointer_text p));
  ask (CacheDrop (tp_origin p)).

(* src/src/server-trust.ts 274-280 removeTrustPointer *)
Definition removeTrustPointer (origin : string) : enrolling unit :=
  let! r := attempt (perform (UnlinkIn (remoteTrustDirectory origin) pointer_file)) in
  do! match r with
      | inl e => if has_code ENOENT e then Ret tt else Throw e
      | inr _ => Ret tt
      end;
  do! perform (SyncPath (remoteTrustDirectory origin));
  ask (CacheDrop origin).

(** [identity.replace(/^spki-sha256:/, '')] *)
Definition bare_digest (identity : string) : string :=
  if starts_with "spki-sha256:" identity then string_drop 12 identity else identity.

Definition config_text (identity : string) : string := json_compact (JObj [("ca_spki_sha256", JStr (bare_digest identity))]).

(** The generation is there, and of this identity. *)
Definition verified_generation (origin generationId identity message : string) : enrolling unit :=
  let! g := readGeneration origin generationId in
  if String.eqb (g_identity g) identity then Ret tt else Throw (JsError message).

Definition identity_changed : string := "Borg server trust generation identity changed".

(* src/src/server-trust.ts 282-320 publishGeneration *)
Definition publishGeneration (origin certificate identity : string) : enrolling string :=
  let generationId := trustGenerationId origin certificate identity in
  let generations := trustGenerationsDirectory origin in
  let target := trustGenerationDirectory origin generationId in
  do! perform (MkdirAll generations);
  do! assertPrivateDirectory (path_resolve (ts_cwd site) (remoteTrustDirectory origin +:+ "/.."));
  do! assertPrivateDirectory (remoteTrustDirectory origin);
  do! assertPrivateDirectory generations;
  let! there := trustFilesExist target in
  if (there : bool) then
    do! verified_generation origin generationId identity identity_changed;
    Ret generationId
  else
    let! stamp := ask Stamp in
    let temporary := target +:+ ".tmp-" +:+ js_String (JNum (ts_pid site)) +:+ "-" +:+ stamp in
    pcatch (
      do! perform (MkdirNew temporary);
      do! perform (WriteNew temporary "ca.crt" certificate);
      do! perform (SyncPath (path_join [temporary; "ca.crt"]));
      do! perform (WriteNew temporary "server.json" (config_text identity));
      do! perform (SyncPath (path_join [temporary; "server.json"]));
      do! perform (SyncPath temporary);
      do! perform (RenameDir temporary target);
      do! perform (SyncPath generations);
      do! verified_generation origin generationId identity identity_changed;
      Ret generationId)
    (fun e => do! attempt (perform (RemoveDir temporary)); Throw e).

(* src/src/server-trust.ts 322-335 migrateLegacyRemoteTrust *)
Definition migrateLegacyRemoteTrust (origin : string) : enrolling (option trust_pointer) :=
  let directory := remoteTrustDirectory origin in
  let! there := trustFilesExist directory in
  if negb there then Ret None
  else
    let! g := readLocalAuthorityTrust directory in
    let! generationId := publishGeneration origin (g_certificate g) (g_identity g) in
    let pointer := pointer_of origin generationId (g_identity g) in
    do! publishTrustPointer pointer;
    Ret (Some pointer).

(** [await readTrustPointer(origin) ?? await migrateLegacyRemoteTrust(origin)] *)
Definition current_pointer (origin : string) : enrolling (option trust_pointer) :=
  let! found := readTrustPointer origin in
  match found with Some p => Ret (Some p) | None => migrateLegacyRemoteTrust origin end.

(** ** Undoing an accepted enrollment *)

(* src/src/server-trust.ts 668-687 restoreEnrollmentPointer *)
Definition restoreEnrollmentPointer (marker : accepted_marker) : enrolling unit :=
  match am_previousPointer marker with
  | None =>
      do! removeTrustPointer (am_origin marker);
      let! p := readTrustPointer (am_origin marker) in
      match p with Some _ => Throw (JsError "Borg trust pointer rollback failed") | None => Ret tt end
  | Some previous =>
      do! verified_generation (am_origin marker) (tp_generationId previous) (tp_trustIdentity previous)
            "Borg previous trust generation is invalid";
      do! publishTrustPointer previous;
      let! p := readTrustPointer (am_origin marker) in
      if bool_decide (tp_generationId <$> p = Some (tp_generationId previous)) then Ret tt
      else Throw (JsError "Borg trust pointer rollback failed")
  end.

(** The pointer first, the accounts after it. *)
Definition undo (marker : accepted_marker) : enrolling unit :=
  do! restoreEnrollmentPointer marker;
  restoreAcceptedEnrollmentAccounts true marker.

(* src/src/server-trust.ts 689-711 recoverAcceptedEnrollment *)
Definition recoverAcceptedEnrollment (origin : string) : enrolling unit :=
  let! found := getAcceptedEnrollmentMarker true origin in
  match found with
  | None => Ret tt
  | Some marker =>
      pcatch (
        do! verified_generation origin (am_generationId marker) (am_trustIdentity marker) "Borg enrollment generation identity changed";
        do! publishTrustPointer (pointer_of origin (am_generationId marker) (am_trustIdentity marker));
        finalizeAcceptedEnrollment true origin (am_trustIdentity marker) (am_generationId marker))
      (fun _ => do! attempt (undo marker); Throw InvitationArtifactRecoveryError)
  end.

(* src/src/server-trust.ts 737-745 restoreBorgServerEnrollment *)
Definition restoreBorgServerEnrollment (held : bool) (expected : accepted_marker) : enrolling bool :=
  withEnrollmentOriginLock held (am_origin expected) (
    let! found := getAcceptedEnrollmentMarker true (am_origin expected) in
    match found with
    | Some marker =>
        if same_json (am_value marker) (am_value expected) then do! undo expected; Ret true else Ret false
    | None => Ret false
    end).

(** ** Committing *)

(** [createPinnedServerFetch], of which the certificate is kept. *)
Definition pinned (origin certificate identity : string) : js_error + generation :=
  match url_origin origin with
  | None => inl (JsError "Invalid URL")
  | Some o => do? require (starts_with "https://" origin && String.eqb o origin) "Borg server trust requires a canonical HTTPS origin";
              inr (Generation certificate identity)
  end.

(* src/src/server-trust.ts 72-79 StagedBorgServerTrust *)
Record staged_trust := StagedTrust { sg_origin : string; sg_generationId : string; sg_trust : generation }.

(* src/src/server-trust.ts 602-612 stagedTrustFromGeneration *)
Definition stagedTrustFromGeneration (origin generationId identity certificate : string) : js_error + staged_trust :=
  let? g := pinned origin certificate identity in inr (StagedTrust origin generationId g).

(** The part of a commit before and the part after the accounts are known to be
    replaced. *)
Definition accept_accounts (s : staged_trust) (activate : option trust_pointer -> enrolling unit) (previous : option trust_pointer) : enrolling unit :=
  do! activate previous;
  let! found := getAcceptedEnrollmentMarker true (sg_origin s) in
  match found with
  | Some m =>
      if String.eqb (am_generationId m) (sg_generationId s) && String.eqb (am_trustIdentity m) (g_identity (sg_trust s)) then Ret tt
      else Throw (JsError "Borg enrollment activation did not publish its accepted marker")
  | None => Throw (JsError "Borg enrollment activation did not publish its accepted marker")
  end.

Definition switch_pointer (s : staged_trust) : enrolling unit :=
  do! publishTrustPointer (pointer_of (sg_origin s) (sg_generationId s) (g_identity (sg_trust s)));
  do! verified_generation (sg_origin s) (sg_generationId s) (g_identity (sg_trust s)) "published Borg trust generation changed";
  finalizeAcceptedEnrollment true (sg_origin s) (g_identity (sg_trust s)) (sg_generationId s).

(** The marker, not the error, says whether there is something to undo. *)
Definition abandon (s : staged_trust) (activated : bool) (e : js_error) : enrolling bool :=
  let! found := attempt (getAcceptedEnrollmentMarker true (sg_origin s)) in
  match found with
  | inl _ => Throw InvitationArtifactRecoveryError
  | inr None => if activated then Throw InvitationArtifactRecoveryError else Throw e
  | inr (Some marker) => do! attempt (undo marker); Throw InvitationArtifactRecoveryError
  end.

(** The answer is the new value of [finalized]. *)
(* src/src/server-trust.ts 613-655 commitTrust *)
Definition commitTrust (held : bool) (s : staged_trust) (finalized : bool) (activate : option trust_pointer -> enrolling unit) : enrolling bool :=
  if finalized then Ret true
  else
    withEnrollmentOriginLock held (sg_origin s) (
      let! previous := current_pointer (sg_origin s) in
      let! accepted := attempt (accept_accounts s activate previous) in
      match accepted with
      | inl e => abandon s false e
      | inr _ =>
          let! switched := attempt (switch_pointer s) in
          match switched with
          | inl e => abandon s true e
          | inr _ => Ret true
          end
      end).

(** What the exchange of an invitation passes to [commitTrust]. *)
Definition in_context (v : activation) (generationId : string) (previous : option trust_pointer) : activation :=
  Activation (av_origin v) (av_trustIdentity v) (av_retryKey v) (av_credential v) (av_clientId v) (av_serverCapabilities v)
    (Some generationId) previous (av_token v).

(* src/src/server-handshake.ts 618-630 activate *)
Definition activate_with (v : activation) (s : staged_trust) (previous : option trust_pointer) : enrolling unit :=
  activatePendingServerEnrollment true (in_context v (sg_generationId s) previous).

(** Removing a generation, unless the pointer is at it. *)
Definition remove_generation (origin generationId : string) : enrolling unit :=
  do! perform (RemoveDir (trustGenerationDirectory origin generationId));
  do! attempt (perform (SyncPath (trustGenerationsDirectory origin)));
  Ret tt.

Definition points_at (p : option trust_pointer) (generationId : string) : bool := bool_decide (tp_generationId <$> p = Some generationId).

(* src/src/server-trust.ts 656-664 discardTrust *)
Definition discardTrust (held : bool) (s : staged_trust) (finalized : bool) : enrolling unit :=
  if finalized then Ret tt
  else
    withEnrollmentOriginLock held (sg_origin s) (
      let! p := readTrustPointer (sg_origin s) in
      if points_at p (sg_generationId s) then Ret tt else remove_generation (sg_origin s) (sg_generationId s)).

(* src/src/server-trust.ts 747-760 clearStagedBorgServerTrust *)
Definition clearStagedBorgServerTrust (held : bool) (origin : string) (generationId : option string) : enrolling unit :=
  match generationId with
  | None | Some "" => Ret tt
  | Some g =>
      withEnrollmentOriginLock held origin (
        let! p := readTrustPointer origin in
        if points_at p g then Throw InvitationArtifactRecoveryError else remove_generation origin g)
  end.

(* src/src/server-trust.ts 772-777 clearBorgServerTrust *)
Definition clearBorgServerTrust (held : bool) (origin : string) : enrolling unit :=
  withEnrollmentOriginLock held origin (
    do! perform (RemoveDir (remoteTrustDirectory origin));
    ask (CacheDrop origin)).

(** ** Staging *)

(* src/src/server-trust.ts 587-600 stageBorgServerTrust *)
Definition stageBorgServerTrust (held : bool) (origin certificate identity : string) : enrolling staged_trust :=
  let! published := attempt (withEnrollmentOriginLock held origin (publishGeneration origin certificate identity)) in
  match published with
  | inl _ => Throw InvitationArtifactStorageError
  | inr generationId => of_sum (stagedTrustFromGeneration origin generationId identity certificate)
  end.

(** [Buffer.toString('base64')] *)
Definition base64_digit (c : ascii) : ascii := if Ascii.eqb c "-" then "+" else if Ascii.eqb c "_" then "/" else c.

Definition base64 (s : string) : string :=
  string_map base64_digit (base64url s) +:+ match (String.length s mod 3)%nat with 1%nat => "==" | 2%nat => "=" | _ => "" end.

(** [.match(/.{1,64}/g)]: the pieces of at most 64 digits. *)
Fixpoint pieces (fuel : nat) (s : string) : list string :=
  match fuel, s with
  | S n, String _ _ => String.substring 0 64 s :: pieces n (string_drop 64 s)
  | _, _ => []
  end.

(* src/src/server-trust.ts 517-520 pemCertificate *)
Definition pemCertificate (raw : string) : string :=
  let body := join newline (pieces (String.length (base64 raw)) (base64 raw)) in
  "-----BEGIN CERTIFICATE-----" +:+ newline +:+ body +:+ newline +:+ "-----END CERTIFICATE-----" +:+ newline.

(** The first authority of the chain that has the pinned key, or whether there was
    an authority at all. *)
Fixpoint pinned_authority (expected : string) (sawCa : bool) (chain : list string) : bool + string :=
  match chain with
  | [] => inl sawCa
  | raw :: rest =>
      match x509_of_der raw with
      | Some c => if negb (x509_ca c) then pinned_authority expected sawCa rest
                  else if String.eqb (sha256_hex (x509_spki c)) expected then inr raw else pinned_authority expected true rest
      | None => pinned_authority expected sawCa rest
      end
  end.

(* src/src/server-trust.ts 563-585 loadBorgServerTrustFromPresentedChain *)
Definition loadBorgServerTrustFromPresentedChain (held : bool) (origin caSpkiSha256 : string) : enrolling staged_trust :=
  let! chain := perform (PresentedChain origin) in
  match pinned_authority caSpkiSha256 false chain with
  | inr raw => stageBorgServerTrust held origin (pemCertificate raw) (spki_identity caSpkiSha256)
  | inl sawCa => Throw (if sawCa then InvitationArtifactTrustError else InvitationArtifactCompatibilityError)
  end.

(* src/src/server-trust.ts 714-734 loadStagedBorgServerTrust *)
Definition loadStagedBorgServerTrust (held : bool) (origin : string) (b : artifact_binding) : enrolling staged_trust :=
  withEnrollmentOriginLock held origin (
    if negb (String.eqb (ab_endpoint b) origin && String.eqb (ab_trustIdentity b) (spki_identity (ab_caSpkiSha256 b)))
    then Throw InvitationArtifactTrustError
    else
      let! found := attempt (readGeneration origin (ab_stagedGenerationId b)) in
      match found with
      | inl _ => Throw InvitationArtifactRecoveryError
      | inr g =>
          if String.eqb (g_identity g) (ab_trustIdentity b)
          then of_sum (stagedTrustFromGeneration origin (ab_stagedGenerationId b) (g_identity g) (g_certificate g))
          else Throw InvitationArtifactTrustError
      end).

(** ** Loading *)

(** The cache keeps what was loaded for a key; a failure is not kept. *)
Definition cached (key : string) (load : enrolling generation) : enrolling generation :=
  let! found := ask (CacheGet key) in
  match found with
  | Some (certificate, identity) => Ret (Generation certificate identity)
  | None =>
      let! g := load in
      do! ask (CachePut key (g_certificate g) (g_identity g));
      Ret g
  end.

Definition pin (origin : string) (g : generation) : enrolling generation := of_sum (pinned origin (g_certificate g) (g_identity g)).

Definition load_local (origin directory : string) : enrolling generation :=
  cached (join nul ["legacy"; directory; origin]) (let! g := readLocalAuthorityTrust directory in pin origin g).

Definition load_enrolled (held : bool) (origin : string) : enrolling generation :=
  withEnrollmentOriginLock held origin (
    do! recoverAcceptedEnrollment origin;
    let! found := current_pointer origin in
    match found with
    | None => Throw (JsError not_found)
    | Some p =>
        cached (join nul [origin; tp_generationId p; tp_trustIdentity p]) (
          let! g := readGeneration origin (tp_generationId p) in
          if negb (String.eqb (g_identity g) (tp_trustIdentity p))
          then Throw (JsError "Borg server trust pointer identity does not match its generation")
          else pin origin g)
    end).

(* src/src/server-trust.ts 450-491 loadBorgServerTrust *)
Definition loadBorgServerTrust (held : bool) (origin : string) (dataDirectory : option string) : enrolling generation :=
  match dataDirectory with
  | Some directory => load_local origin directory
  | None =>
      let! remote := remoteTrustStateExists origin in
      if (remote : bool) then load_enrolled held origin
      else
        let! local := trustFilesExist serverDataDirectory in
        if (local : bool) then load_local origin serverDataDirectory else load_enrolled held origin
  end.

(* src/src/server-trust.ts 510-515 readBorgServerTrustIdentity *)
Definition readBorgServerTrustIdentity (held : bool) (origin : string) : enrolling string :=
  let! remote := remoteTrustStateExists origin in
  let! local := if negb remote then trustFilesExist serverDataDirectory else Ret false in
  if (local : bool) then let! g := readLocalAuthorityTrust serverDataDirectory in Ret (g_identity g)
  else let! g := loadBorgServerTrust held origin None in Ret (g_identity g).

(** ** [borg recover-enrollment] *)

(** What the URL parser makes of a text. *)
Variable parse_url : string -> option url_parts.

Definition scheme_char (c : ascii) : bool := is_alnum c || Ascii.eqb c "+" || Ascii.eqb c "." || Ascii.eqb c "-".

(** [/^[a-z][a-z0-9+.-]*:\/\//i.test(raw)] *)
Fixpoint scheme_rest (s : string) : bool :=
  match s with
  | String c rest => if scheme_char c then scheme_rest rest else starts_with "://" s
  | "" => false
  end.

Definition has_scheme (raw : string) : bool := match raw with String c rest => is_alpha c && scheme_rest rest | "" => false end.

(** White space is trimmed as far as it is ASCII. *)
(* src/src/server-endpoint.ts 8-38 normalizeServerEndpoint *)
Definition normalizeServerEndpoint (input : string) : js_error + string :=
  let raw := trim input in
  do? require (negb (String.eqb raw "")) "--host requires a host or URL";
  match parse_url (if has_scheme raw then raw else "https://" +:+ raw) with
  | None => inl (JsError "invalid Borg server endpoint")
  | Some u =>
      do? require (String.eqb (url_protocol u) "https:") "Borg server endpoints must use https://";
      do? require (String.eqb (url_username u) "" && String.eqb (url_password u) "") "Borg server endpoints must not contain credentials";
      do? require (String.eqb (url_search u) "" && String.eqb (url_hash u) "")
            "Borg server endpoints must not contain a query string or fragment";
      do? require (String.eqb (url_pathname u) "/" || String.eqb (url_pathname u) "") "Borg server endpoints must not contain a path";
      do? require (negb (String.eqb (url_hostname u) "0.0.0.0" || String.eqb (url_hostname u) "[::]"))
            "Borg server endpoints must not use a wildcard address";
      inr (url_originOf u)
  end.

(* src/src/recover-enrollment-cmd.ts 10-13 RecoverEnrollmentFlags *)
Record recover_flags := RecoverFlags { rf_host : option string; rf_yes : bool }.

(* src/src/recover-enrollment-cmd.ts 15-33 parseRecoverEnrollmentArgs *)
Fixpoint parseRecoverEnrollmentArgs (f : recover_flags) (argv : list string) : string + recover_flags :=
  match argv with
  | [] => inr f
  | arg :: rest =>
      if String.eqb arg "--yes" || String.eqb arg "-y" then parseRecoverEnrollmentArgs (RecoverFlags (rf_host f) true) rest
      else if String.eqb arg "--host" || String.eqb arg "-h" then
        match rest with
        | [] | "" :: _ => inl "missing value for --host"
        | value :: rest' => parseRecoverEnrollmentArgs (RecoverFlags (Some value) (rf_yes f)) rest'
        end
      else if starts_with "--host=" arg then parseRecoverEnrollmentArgs (RecoverFlags (Some (string_drop 7 arg)) (rf_yes f)) rest
      else if String.eqb arg "--help" then inl "help"
      else inl ("unexpected argument: " +:+ arg)
  end.

Definition transaction_origin (t : recovery_transaction) : string :=
  match t with AcceptedTransaction m => am_origin m | PendingTransaction p => pe_origin p end.

Definition is_yes (answer : string) : bool := let a := to_lower (trim answer) in String.eqb a "y" || String.eqb a "yes".

Definition stderr (text : string) : enrolling unit := ask (Say true (text +:+ newline)).
Definition stdout (text : string) : enrolling unit := ask (Say false (text +:+ newline)).

Definition confirmed (flags : recover_flags) (t : recovery_transaction) : enrolling bool :=
  if rf_yes flags then Ret true
  else
    let! answer := perform (Prompt ((match t with AcceptedTransaction _ => "Restore the prior enrollment"
                                                | PendingTransaction _ => "Clear the failed enrollment transaction" end) +:+
      " for " +:+ transaction_origin t +:+ "? Other server enrollments and accounts will not be touched. [y/N]: ")) in
    Ret (is_yes answer).

(** Undoing the transaction the operator saw, under its origin's lock. *)
Definition undo_transaction (t : recovery_transaction) : enrolling unit :=
  withEnrollmentOriginLock false (transaction_origin t) (
    match t with
    | AcceptedTransaction m =>
        let! same := restoreBorgServerEnrollment true m in
        if (same : bool) then Ret tt else Throw RecoveryTransactionChangedError
    | PendingTransaction p =>
        let! same := clearEnrollmentTransaction true p in
        if (same : bool) then clearStagedBorgServerTrust true (pe_origin p) (ab_stagedGenerationId <$> pe_artifactBinding p)
        else Throw RecoveryTransactionChangedError
    end).

Definition recover_selected (flags : recover_flags) (selectedOrigin : option string) : enrolling Z :=
  let! found := findEnrollmentRecoveryTransaction selectedOrigin in
  match found with
  | None =>
      let! other := match selectedOrigin with None => Ret None | Some _ => findEnrollmentRecoveryTransaction None end in
      match other with
      | Some _ => do! stderr "The recovery host does not match the failed enrollment transaction. No state was changed. Re-run without `--host` to review the current transaction."; Ret 1
      | None => do! stderr "No recoverable Borg enrollment transaction was found. No state was changed."; Ret 1
      end
  | Some t =>
      let! yes := confirmed flags t in
      if negb yes then do! stderr "Enrollment recovery was not confirmed. No state was changed."; Ret 1
      else
        do! undo_transaction t;
        do! stdout ((match t with AcceptedTransaction _ => "Restored the prior enrollment state for "
                                | PendingTransaction _ => "Cleared the failed enrollment transaction for " end) +:+
          transaction_origin t +:+ "; other server enrollments and accounts were left unchanged.");
        Ret 0
  end.

(* src/src/recover-enrollment-cmd.ts 35-87 runRecoverEnrollment *)
Definition runRecoverEnrollment (flags : recover_flags) : enrolling Z :=
  match rf_host flags with
  | None => recover_selected flags None
  | Some host =>
      match normalizeServerEndpoint host with
      | inl e => do! stderr (message_of e); Ret 1
      | inr origin => recover_selected flags (Some origin)
      end
  end.
End Trust.
