(* ===== verification/EnrollmentFacts.v ===== *)
(** * Enrollments: what the records and the accounts satisfy

    Records read back as they were written, and undoing an activation gives back
    the accounts there were. *)

From S2P Require Import Prelude NodeLib JsDate Assoc JsonText Effects LeaseFs Sha256 LocalServerCursor SeatStore Enrollment EnrollmentOps.

Open Scope Z_scope.

(** ** Maps *)

Lemma assoc_filter {A} (f : string * A -> bool) k (l : list (string * A)) : NoDup (map fst l) ->
  assoc k (List.filter f l) = match assoc k l with Some v => if f (k, v) then Some v else None | None => None end.
Proof.
  intros Hn. destruct (assoc k l) as [v|] eqn:Ek.
  - apply assoc_in in Ek. destruct (f (k, v)) eqn:Ef.
    + apply in_assoc; [by apply filter_keys_nodup|]. by apply member_filter.
    + apply assoc_none. intros ([k' v'] & -> & Hin)%list_elem_of_fmap. cbn in Ek. apply member_filter in Hin as [Hin Hf].
      assert (Hv := in_assoc _ _ _ Hn Ek). cbn in Hv. rewrite (in_assoc _ _ _ Hn Hin) in Hv. injection Hv as ->. cbn in Ef. congruence.
  - apply assoc_none. apply assoc_none in Ek. intros ([k' v'] & -> & Hin)%list_elem_of_fmap. apply Ek.
    apply member_filter in Hin as [Hin _]. apply list_elem_of_fmap. by exists (k', v').
Qed.

Lemma assoc_puts {A} k (l m : list (string * A)) : NoDup (map fst l) ->
  assoc k (foldl (fun n kv => put (fst kv) (snd kv) n) m l) = match assoc k l with Some v => Some v | None => assoc k m end.
Proof.
  revert m. induction l as [|[k' v] l IH]; intros m; cbn [map fst snd foldl assoc]; [done|]. intros [Hk Hn]%NoDup_cons. rewrite IH by done.
  destruct (assoc k l) as [v'|] eqn:Ek.
  - destruct (String.eqb_spec k k') as [->|]; [|done]. destruct Hk. apply assoc_in in Ek. apply list_elem_of_fmap. exists (k', v'). done.
  - rewrite assoc_put. by destruct (String.eqb k k').
Qed.

Lemma drop_nodup {A} k (l : list (string * A)) : NoDup (map fst l) -> NoDup (map fst (drop_key k l)).
Proof. apply filter_keys_nodup. Qed.

Lemma puts_nodup {A} (l m : list (string * A)) : NoDup (map fst m) -> NoDup (map fst (foldl (fun n kv => put (fst kv) (snd kv) n) m l)).
Proof. revert m. induction l as [|[k v] l IH]; intros m Hm; cbn; [done|]. by apply IH, put_nodup. Qed.

(** The two hold the same accounts. *)
Definition same_accounts (m m' : accounts) : Prop := forall k, assoc k m = assoc k m'.

(** ** The file *)

Lemma text_entries_json m : text_entries (map (fun kv => (fst kv, JStr (snd kv))) m) = Some m.
Proof. unfold text_entries. induction m as [|[k v] m IH]; [done|]. cbn [map mapM fst snd]. by rewrite IH. Qed.

Lemma decode_encode m : decode_accounts (Some (encode_accounts m)) = inr m.
Proof. unfold decode_accounts, encode_accounts. cbn. by rewrite text_entries_json. Qed.

Lemma plain_entries m : NoDup (map fst m) -> plain (entries_json m).
Proof.
  intros Hn. cbn. split; [by rewrite map_map|]. induction m as [|[k v] m IH]; cbn; [done|].
  apply NoDup_cons in Hn as [_ Hn]. auto.
Qed.

(** ** Sums *)

Lemma sum_bind_inr {A B} (a : js_error + A) (f : A -> js_error + B) b : sum_bind a f = inr b -> exists x, a = inr x /\ f x = inr b.
Proof. destruct a as [e|x]; [done|]. eauto. Qed.

Lemma require_inr b m x : require b m = inr x -> b = true.
Proof. by destruct b. Qed.

Lemma hex64_sha s : hex64 (sha256_hex s) = true.
Proof. unfold hex64. by rewrite sha256_hex_length, sha256_hex_lower. Qed.

(** The names of an object literal differ. *)
Ltac distinct_names := apply (bool_decide_unpack _); vm_compute; exact I.

Section Facts.
Context `{UrlEnv}.

Lemma binding_ok_valid origin trustIdentity : binding_ok origin trustIdentity = true -> validateServerCredentialBinding origin trustIdentity = inr tt.
Proof. unfold binding_ok. by destruct (validateServerCredentialBinding origin trustIdentity) as [e|[]]. Qed.

(** ** Records *)

Lemma plain_active r : plain (JObj [("version", JNum credential_version); ("origin", JStr (ar_origin r)); ("trustIdentity", JStr (ar_trustIdentity r));
    ("credential", JStr (ar_credential r)); ("clientId", match ar_clientId r with Some c => JStr c | None => JNull end);
    ("serverCapabilities", JArr (map JStr (ar_serverCapabilities r)))]).
Proof.
  cbn. split; [distinct_names|]. repeat split; [by destruct (ar_clientId r)|].
  induction (ar_serverCapabilities r); cbn; auto.
Qed.

Lemma active_encoded r origin : is_active origin (encodeServerCredentialRecord r) = bool_decide (ar_origin r = origin).
Proof.
  unfold is_active, encodeServerCredentialRecord. rewrite parse_compact by apply plain_active. cbn.
  apply bool_decide_ext. naive_solver.
Qed.

Lemma texts_str l : texts (map JStr l) = Some l.
Proof. unfold texts. induction l as [|s l IH]; [done|]. cbn [map mapM]. by rewrite IH. Qed.

(** An activation whose response was checked. *)
Definition valid_activation (v : activation) : Prop :=
  binding_ok (av_origin v) (av_trustIdentity v) = true /\ credential_form (av_credential v) = true /\ is_uuid (av_clientId v) = true /\
  validateServerCapabilities (av_serverCapabilities v) = inr (av_serverCapabilities v).

Lemma active_decoded v : valid_activation v ->
  decodeActiveServerCredentialRecord (encodeServerCredentialRecord (activated_record v)) (av_origin v) (av_trustIdentity v) = inr (activated_record v).
Proof.
  intros (_ & Hc & Hu & Hcap). unfold decodeActiveServerCredentialRecord, encodeServerCredentialRecord, json_of.
  rewrite parse_compact by apply plain_active. cbn -[credential_form is_uuid validateServerCapabilities].
  rewrite !bool_decide_eq_true_2 by done. cbn -[credential_form is_uuid validateServerCapabilities].
  rewrite Hc. cbn -[is_uuid validateServerCapabilities]. rewrite texts_str, Hu, Hcap. done.
Qed.

(** *** Pointers and markers *)

(** A pointer this program has published for the origin. *)
Definition own_pointer (origin : string) (p : trust_pointer) : Prop :=
  p = pointer_of origin (tp_generationId p) (tp_trustIdentity p) /\ hex64 (tp_generationId p) = true /\
  binding_ok origin (tp_trustIdentity p) = true.

Lemma plain_pointer origin g i : plain (tp_value (pointer_of origin g i)).
Proof. cbn. split; [distinct_names|done]. Qed.

Lemma own_checked origin p : own_pointer origin p -> checked_pointer origin (tp_value p) = Some p.
Proof.
  destruct p as [val o g i]. unfold own_pointer, pointer_of. cbn [tp_value tp_generationId tp_trustIdentity].
  intros ([= -> ->] & Hg & _). unfold checked_pointer. cbn -[hex64]. rewrite bool_decide_eq_true_2 by done. by rewrite Hg.
Qed.

Definition own_marker (m : accepted_marker) : Prop :=
  m = marker_of (am_origin m) (am_trustIdentity m) (am_generationId m) (am_previousPointer m) (am_activeDigest m) (am_rollbackAccount m)
        (am_rollbackDigest m) /\
  binding_ok (am_origin m) (am_trustIdentity m) = true /\ hex64 (am_generationId m) = true /\ hex64 (am_activeDigest m) = true /\
  hex64 (am_rollbackDigest m) = true /\ match am_previousPointer m with Some p => own_pointer (am_origin m) p | None => True end.

Lemma own_marker_plain m : own_marker m -> plain (am_value m).
Proof.
  intros (Hm & _ & _ & _ & _ & Hp). rewrite Hm. cbn. split; [distinct_names|]. repeat split.
  destruct (am_previousPointer m) as [p|]; [|done]. destruct Hp as (-> & _). exact (plain_pointer _ _ _).
Qed.

Lemma own_previous origin previous : match previous with Some p => own_pointer origin p | None => True end ->
  checked_previous origin (Some (match previous with Some p => tp_value p | None => JNull end)) = inr previous.
Proof.
  destruct previous as [p|]; [|done]. intros Hp. unfold checked_previous. rewrite own_checked by done.
  destruct Hp as (-> & _ & Hb). cbn in Hb |- *. unfold sum_bind. by rewrite binding_ok_valid.
Qed.

(** A marker reads back as it was written. *)
Lemma own_marker_decoded m : own_marker m -> decodeAcceptedEnrollmentMarker (json_compact (am_value m)) = inr m.
Proof.
  intros Ho. unfold decodeAcceptedEnrollmentMarker, json_of. rewrite parse_compact by by apply own_marker_plain.
  destruct Ho as (Hm & Hb & Hg & Ha & Hr & Hp). rewrite Hm. unfold sum_bind, marker_of. cbn -[hex64 checked_previous validateServerCredentialBinding].
  rewrite bool_decide_eq_true_2 by done. rewrite Hg, Ha, Hr. cbn -[hex64 checked_previous validateServerCredentialBinding].
  rewrite binding_ok_valid by done. by rewrite own_previous.
Qed.

(** ** Accounts *)

Definition marker_account (origin : string) : string := serverAcceptedEnrollmentAccount origin.
Definition credential_account (origin trustIdentity : string) : string := bound_name "borg-server-credential:" [origin; trustIdentity].
Definition pending_account (origin trustIdentity : string) : string := bound_name "borg-server-enrollment-pending:" [origin; trustIdentity].

Lemma credential_account_valid origin trustIdentity : binding_ok origin trustIdentity = true ->
  serverCredentialAccount origin trustIdentity = inr (credential_account origin trustIdentity).
Proof. intros Hb. unfold serverCredentialAccount, sum_bind. by rewrite binding_ok_valid. Qed.

Lemma pending_account_valid origin trustIdentity : binding_ok origin trustIdentity = true ->
  serverPendingEnrollmentAccount origin trustIdentity = inr (pending_account origin trustIdentity).
Proof. intros Hb. unfold serverPendingEnrollmentAccount, sum_bind. by rewrite binding_ok_valid. Qed.

(** Accounts of different kinds have different names. *)
Lemma kinds_differ : forall a b,
  bound_name "borg-server-credential:" a <> bound_name "borg-server-enrollment-pending:" b /\
  bound_name "borg-server-credential:" a <> bound_name "borg-server-enrollment-accepted:" b /\
  bound_name "borg-server-credential:" a <> bound_name "borg-server-enrollment-rollback:" b /\
  bound_name "borg-server-enrollment-pending:" a <> bound_name "borg-server-enrollment-accepted:" b /\
  bound_name "borg-server-enrollment-pending:" a <> bound_name "borg-server-enrollment-rollback:" b /\
  bound_name "borg-server-enrollment-accepted:" a <> bound_name "borg-server-enrollment-rollback:" b.
Proof.
  intros a b. unfold bound_name. cbn [String.append]. generalize (sha256_hex (join nul a)), (sha256_hex (join nul b)). intros x y.
  repeat split; discriminate.
Qed.

(** An activation that goes through: the tuple [stored] is replaced by the
    credential, under a marker of the generation [g]. *)
Record accepts (v : activation) (stored g : string) (m m1 : accounts) : Prop := {
  ac_valid : valid_activation v;
  ac_hex : hex64 g = true;
  ac_stored : assoc (pending_account (av_origin v) (av_trustIdentity v)) m = Some stored;
  ac_nonempty : stored <> "";
  ac_next : m1 =
    put (marker_account (av_origin v)) (json_compact (am_value (activation_marker v g (pending_account (av_origin v) (av_trustIdentity v)) stored m)))
      (put (serverEnrollmentRollbackAccount (av_origin v) (av_retryKey v))
           (snapshot_text v (pending_account (av_origin v) (av_trustIdentity v)) stored m)
           (replaced_accounts v (credential_account (av_origin v) (av_trustIdentity v)) (pending_account (av_origin v) (av_trustIdentity v)) m))
}.

(** The accounts an enrollment starts from: none of an earlier one is left, and the
    credential's own account holds an active record or nothing. *)
Record fresh_accounts (v : activation) (m : accounts) : Prop := {
  fa_nodup : NoDup (map fst m);
  fa_marker : assoc (marker_account (av_origin v)) m = None;
  fa_rollback : assoc (serverEnrollmentRollbackAccount (av_origin v) (av_retryKey v)) m = None;
  fa_target : forall t, assoc (credential_account (av_origin v) (av_trustIdentity v)) m = Some t -> is_active (av_origin v) t = true
}.

Section Activated.
Variables (v : activation) (stored g : string) (m m1 : accounts).
Hypothesis Hac : accepts v stored g m m1.
Hypothesis Hfresh : fresh_accounts v m.

Let origin := av_origin v.
Let target := credential_account (av_origin v) (av_trustIdentity v).
Let pending := pending_account (av_origin v) (av_trustIdentity v).
Let rollback := serverEnrollmentRollbackAccount (av_origin v) (av_retryKey v).
Let marker := activation_marker v g pending stored m.

Lemma names_differ : target <> pending /\ target <> marker_account origin /\ target <> rollback /\ pending <> marker_account origin /\
  pending <> rollback /\ marker_account origin <> rollback.
Proof.
  subst target pending rollback origin. unfold credential_account, pending_account, marker_account, serverAcceptedEnrollmentAccount,
    serverEnrollmentRollbackAccount. repeat split; apply kinds_differ.
Qed.

(** What each account holds after the activation. *)
Lemma activated_at k : assoc k m1 =
  if String.eqb k (marker_account origin) then Some (json_compact (am_value marker))
  else if String.eqb k rollback then Some (snapshot_text v pending stored m)
  else if String.eqb k pending then None
  else if String.eqb k target then Some (encodeServerCredentialRecord (activated_record v))
  else match assoc k m with Some t => if is_active origin t then None else Some t | None => None end.
Proof.
  rewrite (ac_next _ _ _ _ _ Hac), !assoc_put. unfold replaced_accounts, without_actives. rewrite assoc_drop, assoc_put, assoc_filter by apply Hfresh.
  subst origin target pending rollback marker. cbn [fst snd].
  repeat (case_match; try done); cbn in *; congruence.
Qed.

Lemma activated_nodup : NoDup (map fst m1).
Proof.
  rewrite (ac_next _ _ _ _ _ Hac). unfold replaced_accounts, without_actives.
  repeat apply put_nodup. apply drop_nodup, put_nodup, filter_keys_nodup, Hfresh.
Qed.

Lemma snapshot_plain : plain (rollback_json origin (RollbackSnapshot (actives origin m) pending stored)).
Proof.
  unfold rollback_json. cbn [rs_activeAccounts rs_pendingAccount rs_pendingValue].
  assert (Ha : plain (entries_json (actives origin m))) by (apply plain_entries, filter_keys_nodup, Hfresh).
  revert Ha. generalize (entries_json (actives origin m)). intros j Hj. cbn. split; [distinct_names|].
  repeat split; try done. distinct_names.
Qed.

(** The snapshot reads back as what was there. *)
Lemma snapshot_decoded s : decodeRollbackRecord (snapshot_text v pending stored m) marker = inr s ->
  s = RollbackSnapshot (actives origin m) pending stored.
Proof.
  unfold decodeRollbackRecord. destruct (negb _); [done|]. intros (record & Hr & Hs)%sum_bind_inr.
  unfold snapshot_text, json_of in Hr. rewrite parse_compact in Hr by exact snapshot_plain. injection Hr as <-.
  revert Hs. unfold rollback_json. cbn -[entries_json forallb pending_of_marker has_version].
  destruct (negb _); [done|]. unfold entries_json. rewrite text_entries_json. destruct (_ && _); [|done]. by intros [= <-].
Qed.

Hypothesis Hown : own_marker marker.

Lemma marker_found : truthy (assoc (marker_account origin) m1) = Some (json_compact (am_value marker)).
Proof.
  rewrite activated_at, String.eqb_refl. assert (Hn := compact_nonempty _ (own_marker_plain _ Hown)).
  destruct (json_compact (am_value marker)); [cbn in Hn; lia|done].
Qed.

Lemma marker_read : decodeAcceptedEnrollmentMarker (json_compact (am_value marker)) = inr marker.
Proof. by apply own_marker_decoded. Qed.

(** Undoing the activation gives back the accounts there were. *)
Lemma undone m2 : restored_accounts marker m1 = inr m2 -> same_accounts m2 m /\ NoDup (map fst m2).
Proof.
  unfold restored_accounts. change (am_origin marker) with origin. fold (marker_account origin). rewrite marker_found, marker_read. cbn [sum_bind].
  destruct (negb _); [done|]. destruct (truthy (assoc (am_rollbackAccount marker) m1)) as [snap|] eqn:Es; [|done].
  change (am_rollbackAccount marker) with rollback in *.
  destruct names_differ as (H1 & H2 & H3 & H4 & H5 & H6).
  assert (snap = snapshot_text v pending stored m) as ->.
  { rewrite activated_at in Es. destruct (String.eqb_spec rollback (marker_account origin)) as [He|_]; [congruence|].
    rewrite String.eqb_refl in Es. unfold truthy in Es. case_match; by simplify_eq. }
  intros (s & Hs & [= <-])%sum_bind_inr. apply snapshot_decoded in Hs as ->. cbn [rs_activeAccounts rs_pendingAccount rs_pendingValue].
  assert (Hn1 := activated_nodup). assert (Hf := Hfresh). split.
  - intros k. rewrite !assoc_drop, assoc_put, assoc_puts by (apply filter_keys_nodup, Hf).
    unfold actives, without_actives. rewrite !assoc_filter by (done || apply Hf). cbn [snd]. rewrite activated_at.
    destruct (String.eqb_spec k rollback) as [->|Hk1]; [symmetry; exact (fa_rollback _ _ Hf)|].
    destruct (String.eqb_spec k (marker_account origin)) as [->|Hk2]; [symmetry; exact (fa_marker _ _ Hf)|].
    destruct (String.eqb_spec k pending) as [->|Hk3]; [symmetry; exact (ac_stored _ _ _ _ _ Hac)|].
    destruct (String.eqb_spec k target) as [->|Hk4].
    + rewrite active_encoded, bool_decide_eq_true_2 by done. cbn.
      destruct (assoc target m) as [t|] eqn:Et; [|done]. subst target origin. by rewrite (fa_target _ _ Hf t Et).
    + destruct (assoc k m) as [t|]; [|done]. destruct (is_active origin t) eqn:Ea; [done|]. by rewrite Ea.
  - repeat apply drop_nodup. apply put_nodup. apply puts_nodup, filter_keys_nodup, Hn1.
Qed.

Lemma activated_target : assoc target m1 = Some (encodeServerCredentialRecord (activated_record v)).
Proof.
  destruct names_differ as (H1 & H2 & H3 & _). rewrite activated_at.
  destruct (String.eqb_spec target (marker_account origin)); [done|]. destruct (String.eqb_spec target rollback); [done|].
  destruct (String.eqb_spec target pending); [done|]. by rewrite String.eqb_refl.
Qed.

(** Finalizing it leaves the credential, and nothing of the enrollment. *)
Lemma finalized : am_generationId marker = g /\ finalized_accounts origin (av_trustIdentity v) g m1 =
  inr (Some (drop_key rollback (drop_key (marker_account origin) m1))).
Proof.
  split; [done|]. unfold finalized_accounts. fold (marker_account origin). rewrite marker_found, marker_read. cbn [sum_bind].
  change (am_trustIdentity marker) with (av_trustIdentity v). change (am_generationId marker) with g. rewrite !String.eqb_refl. cbn [andb require sum_bind].
  destruct (ac_valid _ _ _ _ _ Hac) as (Hb & Hrest). rewrite credential_account_valid by done. cbn [sum_bind].
  change (credential_account origin (av_trustIdentity v)) with target.
  rewrite activated_target.
  assert (Hd := active_decoded v (ac_valid _ _ _ _ _ Hac)).
  assert (Hne : truthy (Some (encodeServerCredentialRecord (activated_record v))) = Some (encodeServerCredentialRecord (activated_record v))).
  { assert (Hn := compact_nonempty _ (plain_active (activated_record v))). unfold encodeServerCredentialRecord.
    destruct (json_compact _); [cbn in Hn; lia|done]. }
  rewrite Hne. change (am_activeDigest marker) with (sha256_hex (encodeServerCredentialRecord (activated_record v))). rewrite String.eqb_refl. cbn [require sum_bind].
  subst origin. by rewrite Hd.
Qed.
End Activated.
End Facts.
