(* ===== verification/EnrollmentSpec.v ===== *)
(** * Enrollments: all or nothing

    A commit moves two things that no single write can move together, the file of
    accounts and the pointer of the origin.  Whatever fails, and wherever the
    process is stopped, what is on the disk is the state before, the state after, or
    a state with a marker, which stops the readers of the credential until it is
    recovered.  A write may
    report an error although it took place. *)

From S2P Require Import Prelude NodeLib JsDate Assoc JsonText Effects LeaseFs Sha256 LocalServerCursor SeatStore Enrollment EnrollmentOps EnrollmentTrust EnrollmentFacts.

Open Scope Z_scope.
Open Scope prog_scope.


(** ** The disk *)

Record disk := Disk { dk_store : option content; dk_files : gmap (string * string) string }.

(** A write: it took place, or it reports an error; unless writes are [honest] it
    may have taken place even then. *)
Definition written (honest : bool) (done : disk) (w : disk) (x : js_error + unit) (w' : disk) : Prop :=
  match x with inr _ => w' = done | inl _ => w' = w \/ (honest = false /\ w' = done) end.

(** The message of an error of the system is not one of the program's. *)
Definition system_error (e : js_error) : Prop := includes "were not found" (message_of e) = false.

(** Nothing but files of the directories [d] has changed. *)
Definition only_in (d : string -> Prop) (w w' : disk) : Prop :=
  dk_store w' = dk_store w /\ forall k, ~ d (fst k) -> dk_files w' !! k = dk_files w !! k.

Definition inside (dir d : string) : Prop := d = dir \/ starts_with (dir +:+ "/") d = true.

Definition disk_act (honest : bool) (X : Type) (op : enroll_op X) (w : disk) : X -> disk -> Prop :=
  match op in enroll_op X return X -> disk -> Prop with
  | UnlockOrigin _ => fun x w' => w' = w /\ (honest = true -> x = inr tt)
  | UnlockStore => fun x w' => w' = w /\ (honest = true -> x = inr tt)
  | ReadStore => fun x w' => w' = w /\ match x with inr c => c = dk_store w | inl _ => True end
  | WriteStore c => fun x w' => written honest (Disk (Some c) (dk_files w)) w x w'
  | LstatDir dir => fun x w' => w' = w /\
      match x with inr _ => True | inl e => has_code ENOENT e = true -> forall name, dk_files w !! (dir, name) = None end
  | OpenTrust dir name => fun x w' => w' = w /\
      match x with inr _ => True | inl e => has_code ENOENT e = true -> dk_files w !! (dir, name) = None end
  | TrustStat _ _ => fun x w' => w' = w /\ match x with inr _ => True | inl e => system_error e end
  | TrustText dir name => fun x w' => w' = w /\ match x with inr t => dk_files w !! (dir, name) = Some t | inl e => system_error e end
  | TrustClose _ _ => fun x w' => w' = w /\ match x with inr _ => True | inl e => system_error e end
  | AtomicWrite dir name t => fun x w' => written honest (Disk (dk_store w) (<[(dir, name) := t]> (dk_files w))) w x w'
  | UnlinkIn dir name => fun x w' =>
      match x with
      | inl e => if has_code ENOENT e then w' = w /\ dk_files w !! (dir, name) = None
                 else written honest (Disk (dk_store w) (delete (dir, name) (dk_files w))) w x w'
      | inr _ => w' = Disk (dk_store w) (delete (dir, name) (dk_files w))
      end
  | WriteNew dir _ _ => fun _ w' => only_in (eq dir) w w'
  | RenameDir a b => fun _ w' => only_in (fun d => a = d \/ b = d) w w'
  | RemoveDir dir => fun _ w' => only_in (inside dir) w w'
  | _ => fun _ w' => w' = w
  end.

Section Commit.
Context `{UrlEnv} `{CertEnv}.
Variable site : trust_site.

(** The home is a directory in normal form, not the root. *)
Definition home_ok : Prop := exists l, Forall normal l /\ l <> [] /\ ts_home site = path_of l.

Definition pointer_key (origin : string) : string * string := (remoteTrustDirectory site origin, pointer_file).

(** The pointer of the origin is [p]. *)
Definition points (origin : string) (w : disk) (p : option trust_pointer) : Prop :=
  dk_files w !! pointer_key origin = pointer_text <$> p.

(** What the file of accounts holds. *)
Definition holds (w : disk) (m : accounts) : Prop := decode_accounts (dk_store w) = inr m.

(** *** Paths *)

Lemma hex64_normal s : hex64 s = true -> normal s.
Proof.
  unfold hex64. intros [Hl Hs]%andb_true_iff. apply hex_normal; [done|]. intros ->. done.
Qed.

Lemma trust_paths origin : home_ok -> exists l, Forall normal l /\ l <> [] /\ remoteTrustDirectory site origin = path_of l /\
  trustGenerationsDirectory site origin = path_of (l ++ ["generations"]) /\
  forall g, hex64 g = true -> trustGenerationDirectory site origin g = path_of (l ++ ["generations"; g]).
Proof.
  intros (h & Hh & Hne & Hhome). exists (h ++ [".borg"; "server-trust"; sha256_hex origin]).
  assert (Hk := hex64_normal _ (hex64_sha origin)).
  assert (Hroot : remoteTrustDirectory site origin = path_of (h ++ [".borg"; "server-trust"; sha256_hex origin])).
  { unfold remoteTrustDirectory. rewrite Hhome. apply path_join_normal; [done..|]. repeat constructor; apply Hk. }
  assert (Hn : Forall normal (h ++ [".borg"; "server-trust"; sha256_hex origin])) by (apply Forall_app; split; [done|]; repeat constructor; apply Hk).
  assert (Hn' : h ++ [".borg"; "server-trust"; sha256_hex origin] <> []) by (by intros []%app_eq_nil).
  assert (Hgen : trustGenerationsDirectory site origin = path_of ((h ++ [".borg"; "server-trust"; sha256_hex origin]) ++ ["generations"])).
  { unfold trustGenerationsDirectory. rewrite Hroot. apply path_join_normal; [done..|]. repeat constructor. }
  repeat split; [done..|]. intros g Hg. unfold trustGenerationDirectory. rewrite Hgen, path_join_normal.
  - by rewrite <-(app_assoc _ ["generations"] [g]).
  - apply Forall_app. split; [done|]. repeat constructor.
  - by intros []%app_eq_nil.
  - repeat constructor; by apply hex64_normal.
Qed.

Lemma path_of_length l l' : l <> [] -> l' <> [] -> (String.length (path_of l) < String.length (path_of (l ++ l')))%nat.
Proof.
  intros Hl Hl'. rewrite <-join_more by done. destruct l' as [|x l']; [done|]. cbn [join]. rewrite !append_length. cbn [String.length]. lia.
Qed.

Lemma prefix_length a b : starts_with a b = true -> (String.length a <= String.length b)%nat.
Proof.
  unfold starts_with. revert b. induction a as [|c a IH]; intros [|d b]; cbn; [lia..|done|]. destruct (ascii_dec c d); [|done].
  intros Hp%IH. lia.
Qed.

(** A directory longer than the origin's does not hold its pointer. *)
Lemma not_inside origin dir : (String.length (remoteTrustDirectory site origin) < String.length dir)%nat ->
  ~ inside dir (fst (pointer_key origin)).
Proof. intros Hl [Heq|Hp]; cbn in *; [subst; lia|]. apply prefix_length in Hp. rewrite append_length in Hp. lia. Qed.

(** *** Names of identities *)

Lemma hex_text s : string_forallb is_lower_hex s = true -> js_length s = String.length s /\ string_existsb is_c0_or_del s = false.
Proof.
  induction s as [|c s IH]; [done|]. cbn [string_forallb js_length String.length string_existsb]. intros [Hc Hs]%andb_true_iff.
  destruct (IH Hs) as [-> ->]. assert (Hchar : utf16_units c = 1%nat /\ is_c0_or_del c = false).
  { revert Hc. destruct c as [[] [] [] [] [] [] [] []]; vm_compute; done. }
  destruct Hchar as [-> ->]. done.
Qed.

(** The identity of a key is one an account can be bound to. *)
Lemma spki_binding origin trustIdentity d : binding_ok origin trustIdentity = true -> binding_ok origin (spki_identity (sha256_hex d)) = true.
Proof.
  unfold binding_ok, validateServerCredentialBinding. destruct (url_origin origin) as [o|]; [|done].
  destruct (require (String.eqb o origin && _) _) as [e|u]; [done|]. intros _. cbn [sum_bind].
  destruct (hex_text _ (sha256_hex_lower d)) as [Hl Hc]. rewrite sha256_hex_length in Hl.
  assert (Hlen : js_length (spki_identity (sha256_hex d)) = 76%nat).
  { change (js_length (spki_identity (sha256_hex d))) with (12 + js_length (sha256_hex d))%nat. by rewrite Hl. }
  assert (Hctl : string_existsb is_c0_or_del (spki_identity (sha256_hex d)) = false).
  { change (string_existsb is_c0_or_del (spki_identity (sha256_hex d))) with (string_existsb is_c0_or_del (sha256_hex d)). done. }
  by rewrite Hlen, Hctl.
Qed.

(** *** Single operations *)

Section Steps.
Variable honest : bool.
Variable I : disk -> Prop.

#[local] Abbreviation safe p w Q := (safely (disk_act honest) I p w Q).

Lemma safe_of_sum {A} (x : js_error + A) w Q : Q (match x with inl e => Failed e | inr a => Done a end) w -> safe (of_sum x) w Q.
Proof. by destruct x. Qed.

(** The errors of taking and releasing a lock are like any other. *)
Definition any_error {A} (Q : outcome A -> disk -> Prop) (w : disk) : Prop := forall e, Q (Failed e) w.

Lemma safe_store_lock {A} (body : enrolling A) w Q : I w -> any_error Q w ->
  safe body w (fun r w' => Q r w' /\ (honest = false -> any_error Q w')) -> safe (withCredentialStoreLock body) w Q.
Proof.
  intros HI Herr Hbody. unfold withCredentialStoreLock. apply safely_bind, safely_perform. intros x w' Hx. cbn in Hx. subst w'.
  split; [done|]. destruct x as [e|u]; [apply Herr|]. apply safely_finally. apply safely_keeps in Hbody; [|done].
  eapply safely_mono; [exact Hbody|]. cbv beta. intros r w' (HI' & HQ & He). apply safely_perform. intros x w1 [-> Hx].
  split; [done|]. destruct x as [e|u']; [|done]. apply He. destruct honest; [|done]. by specialize (Hx eq_refl).
Qed.

Lemma safe_held {A} origin (body : enrolling A) w Q : safe body w Q -> safe (withEnrollmentOriginLock true origin body) w Q.
Proof. done. Qed.

Lemma safe_origin_lock {A} held origin (body : enrolling A) w Q : I w -> any_error Q w ->
  safe body w (fun r w' => Q r w' /\ (honest = false -> held = false -> any_error Q w')) -> safe (withEnrollmentOriginLock held origin body) w Q.
Proof.
  intros HI Herr Hbody. unfold withEnrollmentOriginLock. destruct held.
  { eapply safely_mono; [exact Hbody|]. by intros r w' [HQ _]. }
  apply safely_bind, safely_perform. intros x w' Hx. cbn in Hx. subst w'.
  split; [done|]. destruct x as [e|u]; [apply Herr|]. apply safely_finally. apply safely_keeps in Hbody; [|done].
  eapply safely_mono; [exact Hbody|]. cbv beta. intros r w' (HI' & HQ & He). apply safely_perform. intros x w1 [-> Hx].
  split; [done|]. destruct x as [e|u']; [|done]. apply He; [|done]. destruct honest; [|done]. by specialize (Hx eq_refl).
Qed.

Lemma safe_entries m w Q : I w -> holds w m -> any_error Q w -> Q (Done m) w -> safe backend_entries w Q.
Proof.
  intros HI Hm Herr HQ. unfold backend_entries. apply safely_bind, safely_perform. intros x w' [-> Hx]. split; [done|].
  destruct x as [e|c]; [apply Herr|]. subst c. apply safe_of_sum. by rewrite Hm.
Qed.

Lemma safe_get m k w Q : I w -> holds w m -> any_error Q w -> Q (Done (assoc k m)) w -> safe (backend_get k) w Q.
Proof. intros HI Hm Herr HQ. unfold backend_get. apply safely_bind. by eapply safe_entries. Qed.

Definition with_accounts (w : disk) (m : accounts) : disk := Disk (Some (encode_accounts m)) (dk_files w).

Lemma holds_with w m : holds (with_accounts w m) m.
Proof. apply decode_encode. Qed.

Lemma safe_replace m w Q : I w -> any_error Q w -> I (with_accounts w m) -> Q (Done tt) (with_accounts w m) ->
  (honest = false -> any_error Q (with_accounts w m)) -> safe (backend_replace m) w Q.
Proof.
  intros HI Herr HI' HQ He. apply safely_perform. intros x w' Hx. cbn in Hx. unfold written in Hx.
  destruct x as [e|[]]; [|by subst w'; split]. destruct Hx as [->|[Hh ->]]; [by split|]. split; [done|]. by apply He.
Qed.

(** Reading the marker of accounts that hold a good one, or none. *)
Lemma safe_marker origin m found w Q : I w -> holds w m -> any_error Q w ->
  match truthy (assoc (marker_account origin) m) with None => found = None | Some t => exists mk, decodeAcceptedEnrollmentMarker t = inr mk /\ found = Some mk end ->
  Q (Done found) w -> safe (getAcceptedEnrollmentMarker true origin) w Q.
Proof.
  intros HI Hm Herr Hfound HQ. unfold getAcceptedEnrollmentMarker, locked. apply safe_held, safe_store_lock; [done..|].
  unfold markerForOriginUnlocked. apply safely_bind. eapply safe_get; [done..| |]; [by intros e|].
  fold (marker_account origin). destruct (truthy _) as [t|].
  - destruct Hfound as (mk & -> & ->). cbn. auto.
  - subst found. cbn. auto.
Qed.

(** *** Reading the trust files *)

Lemma safe_private dir w Q : I w -> Q (Done tt) w ->
  (forall e, (has_code ENOENT e = true -> forall name, dk_files w !! (dir, name) = None) -> Q (Failed e) w) -> safe (assertPrivateDirectory site dir) w Q.
Proof.
  intros HI HQ He. unfold assertPrivateDirectory. apply safely_bind, safely_perform. intros x w' [-> Hx]. split; [done|].
  destruct x as [e|mt]; [by apply He|]. destruct (_ || _); [by apply He|]. destruct (foreign site mt); [by apply He|done].
Qed.

Lemma safe_file dir name w Q : I w -> (forall t, dk_files w !! (dir, name) = Some t -> Q (Done t) w) ->
  (forall e, (includes "were not found" (message_of e) = true -> dk_files w !! (dir, name) = None) -> Q (Failed e) w) ->
  safe (readTrustFile site dir name) w Q.
Proof.
  intros HI HQ He. unfold readTrustFile. apply safely_bind, safely_attempt, safely_perform. intros x w' [-> Hx]. split; [done|].
  assert (Hsys : forall e, system_error e -> Q (Failed e) w) by (intros e Hs; apply He; unfold system_error in Hs; congruence).
  assert (Hclose : forall r, Q r w -> safe (perform (TrustClose dir name)) w (fun r' w'' => match r' with Done _ => Q r w'' | Failed e => Q (Failed e) w'' end)).
  { intros r Hr. apply safely_perform. intros x' w' [-> Hx']. split; [done|]. destruct x' as [e|u]; [by apply Hsys|done]. }
  destruct x as [e|u].
  { cbn. apply He. destruct (has_code ENOENT e); [auto|done]. }
  apply safely_finally, safely_bind, safely_perform. intros y w' [-> Hy]. split; [done|].
  destruct y as [e|mt]; [by apply Hclose, Hsys|].
  destruct (_ || _); [by apply Hclose, Hsys|]. destruct (foreign site mt); [by apply Hclose, Hsys|].
  apply safely_perform. intros z w' [-> Hz]. split; [done|]. destruct z as [e|t]; [by apply Hclose, Hsys|by apply Hclose, HQ].
Qed.

Lemma safe_authority dir w Q : I w -> any_error Q w ->
  (forall g, dk_files w !! (dir, "ca.crt") = Some (g_certificate g) -> (exists d, g_identity g = spki_identity (sha256_hex d)) -> Q (Done g) w) ->
  safe (readLocalAuthorityTrust site dir) w Q.
Proof.
  intros HI Herr HQ. unfold readLocalAuthorityTrust. apply safely_bind, safe_file; [done| |by intros e _].
  intros certificate Hc. apply safely_bind, safe_file; [done| |by intros e _]. intros config _. apply safely_bind, safe_of_sum.
  destruct (sum_bind _ _) as [e|identity] eqn:Ei; [apply Herr|]. apply HQ; [done|]. apply sum_bind_inr in Ei as (d & _ & Ei).
  unfold verifyCaIdentity in Ei. destruct (x509_of_pem certificate) as [c|]; [|done]. destruct (negb _); [done|].
  destruct (String.eqb _ d); [|done]. injection Ei as <-. by eexists.
Qed.

Lemma safe_verified origin g identity message w Q : I w -> any_error Q w -> Q (Done tt) w -> safe (verified_generation site origin g identity message) w Q.
Proof.
  intros HI Herr HQ. unfold verified_generation, readGeneration. apply safely_bind. destruct (negb _); [apply Herr|].
  apply safely_bind, safe_authority; [done..|]. intros g' _ _. case_match; cbn; [|apply Herr]. case_match; [done|apply Herr].
Qed.

(** Reading the pointer gives the pointer. *)
Lemma safe_pointer origin p w Q : I w -> points origin w p -> match p with Some q => own_pointer origin q | None => True end -> any_error Q w ->
  Q (Done p) w -> safe (readTrustPointer site origin) w Q.
Proof.
  intros HI Hp Hown Herr HQ. unfold readTrustPointer. apply safely_bind, safely_attempt, safe_private; [done| |].
  - apply safely_bind, safely_attempt, safe_file; [done| |].
    + intros t Ht. unfold points, pointer_key in Hp. rewrite Ht in Hp. destruct p as [q|]; [|done]. injection Hp as ->.
      unfold pointer_text. rewrite parse_compact_line by (destruct Hown as (-> & _); apply plain_pointer). cbn [mbind option_bind].
      by rewrite own_checked.
    + intros e He. destruct (includes _ _) eqn:Ei; [|apply Herr]. specialize (He eq_refl). unfold points, pointer_key in Hp. rewrite He in Hp.
      by destruct p.
  - intros e He. destruct (has_code ENOENT e) eqn:Ee; [|apply Herr]. specialize (He eq_refl pointer_file). unfold points, pointer_key in Hp.
    rewrite He in Hp. by destruct p.
Qed.
End Steps.

(** *** Moving the pointer *)

(** The pointer of the origin is now [p], and nothing else has changed. *)
Definition moved (origin : string) (w : disk) (p : option trust_pointer) (w' : disk) : Prop :=
  dk_store w' = dk_store w /\ points origin w' p /\ forall k, k <> pointer_key origin -> dk_files w' !! k = dk_files w !! k.

Lemma moved_insert origin w p : moved origin w (Some p) (Disk (dk_store w) (<[pointer_key origin := pointer_text p]> (dk_files w))).
Proof. split; [done|]. split; [unfold points; cbn; by rewrite lookup_insert_eq|]. intros k Hk. cbn. by rewrite lookup_insert_ne. Qed.

Lemma moved_delete origin w : moved origin w None (Disk (dk_store w) (delete (pointer_key origin) (dk_files w))).
Proof. split; [done|]. split; [unfold points; cbn; by rewrite lookup_delete_eq|]. intros k Hk. cbn. by rewrite lookup_delete_ne. Qed.

Section Moves.
Variable honest : bool.
Variable I : disk -> Prop.

#[local] Abbreviation safe p w Q := (safely (disk_act honest) I p w Q).

Lemma safe_publish p w Q : I w -> any_error Q w ->
  (forall w', moved (tp_origin p) w (Some p) w' -> I w' /\ Q (Done tt) w' /\ (honest = false -> any_error Q w')) ->
  safe (publishTrustPointer site p) w Q.
Proof.
  intros HI Herr HQ. unfold publishTrustPointer. apply safely_bind, safely_perform. intros x w' Hx. cbn in Hx. subst w'. split; [done|].
  destruct x as [e|u]; [apply Herr|]. apply safely_bind, safe_private; [done| |by intros e _].
  apply safely_bind, safely_perform. intros y w' Hy. cbn in Hy. unfold written in Hy.
  destruct (HQ _ (moved_insert (tp_origin p) w p)) as (HI' & HD & He).
  assert (Hend : forall z w', disk_act honest _ (CacheDrop (tp_origin p)) (Disk (dk_store w) (<[pointer_key (tp_origin p):=pointer_text p]> (dk_files w))) z w' ->
    I w' /\ Q (Done z) w') by (intros [] w1; cbn; by intros ->).
  destruct y as [e|u']; [|subst w'; split; [done|exact Hend]]. destruct Hy as [->|[Hh ->]]; [by split|]. split; [done|]. by apply He.
Qed.

Lemma safe_remove origin w Q : I w -> any_error Q w ->
  (forall w', moved origin w None w' -> I w' /\ Q (Done tt) w' /\ any_error Q w') -> safe (removeTrustPointer site origin) w Q.
Proof.
  intros HI Herr HQ. unfold removeTrustPointer. apply safely_bind, safely_attempt, safely_perform. intros x w' Hx.
  assert (Hend : forall w', moved origin w None w' ->
    safe (do! perform (SyncPath (remoteTrustDirectory site origin)); ask (CacheDrop origin)) w' Q).
  { intros w1 Hw1. destruct (HQ w1 Hw1) as (HI1 & HD & He). apply safely_bind, safely_perform. intros y w2 Hy. cbn in Hy. subst w2. split; [done|].
    destruct y as [e|u]; [apply He|]. intros [] w2 Hz. cbn in Hz. subst w2. done. }
  assert (Hdel := moved_delete origin w). destruct (HQ _ Hdel) as (HI' & _ & He'). cbn in Hx. destruct x as [e|u].
  - destruct (has_code ENOENT e) eqn:Ee.
    + destruct Hx as [-> Hnone]. split; [done|]. exact (Hend w (conj eq_refl (conj Hnone (fun _ _ => eq_refl)))).
    + destruct Hx as [->|[_ ->]]; (split; [done|]); [exact (Herr e)|exact (He' e)].
  - subst w'. split; [done|]. exact (Hend _ Hdel).
Qed.
End Moves.

(** What reads the trust files keeps every property of the disk. *)
Ltac keeps :=
  repeat first
    [ apply maintains_bind; [|intros ?] | apply maintains_catch; [|intros ?] | apply maintains_finally | apply maintains_attempt
    | apply maintains_value; exact I
    | apply maintains_perform; intros ? ? ? Hop; cbn in Hop; destruct_and?; subst; done
    | apply maintains_ask; intros ? ? ? Hop; cbn in Hop; destruct_and?; subst; done
    | case_match ].

Section Reads.
Variable honest : bool.
Variable J : disk -> Prop.
#[local] Abbreviation keep p := (maintains (disk_act honest) J p).

Lemma keep_private dir : keep (assertPrivateDirectory site dir).
Proof. unfold assertPrivateDirectory. keeps. Qed.

Lemma keep_file dir name : keep (readTrustFile site dir name).
Proof. unfold readTrustFile. keeps. Qed.

Lemma keep_exist dir : keep (trustFilesExist dir).
Proof. unfold trustFilesExist. keeps. Qed.

Lemma keep_verified o gid identity message : keep (verified_generation site o gid identity message).
Proof.
  unfold verified_generation, readGeneration, readLocalAuthorityTrust.
  repeat first [apply keep_file | apply maintains_bind; [|intros ?] | apply maintains_value; exact I | progress unfold of_sum | case_match].
Qed.
End Reads.

(** ** The states of a commit *)

Section Transaction.
Variables (v : activation) (g : string) (w0 : disk) (m0 : accounts) (p0 : option trust_pointer).

#[local] Abbreviation origin := (av_origin v).
#[local] Abbreviation new := (pointer_of (av_origin v) g (av_trustIdentity v)).

(** A pointer made from a certificate of the layout without generations. *)
Definition legacy (p : trust_pointer) : Prop :=
  own_pointer origin p /\ exists certificate, dk_files w0 !! (remoteTrustDirectory site origin, "ca.crt") = Some certificate /\
    tp_generationId p = trustGenerationId origin certificate (tp_trustIdentity p).

(** The pointer before the commit, once an old layout is converted. *)
Definition possible (p : option trust_pointer) : Prop := p = p0 \/ (p0 = None /\ exists q, p = Some q /\ legacy q).

Definition before (w : disk) : Prop := exists m p, holds w m /\ same_accounts m m0 /\ points origin w p /\ possible p.

(** A marker: the readers of the credential stop. *)
Definition gated (w : disk) : Prop := exists m t p,
  holds w m /\ assoc (marker_account origin) m = Some t /\ t <> "" /\ points origin w p /\ (possible p \/ p = Some new).

(** The accounts of the new enrollment: its credential in place of those of the
    origin and of the pending tuple, and everything else as it was. *)
Definition enrolled (m : accounts) : Prop := forall k, assoc k m =
  if String.eqb k (credential_account origin (av_trustIdentity v)) then Some (encodeServerCredentialRecord (activated_record v))
  else if String.eqb k (pending_account origin (av_trustIdentity v)) then None
  else match assoc k m0 with Some t => if is_active origin t then None else Some t | None => None end.

Definition after (w : disk) : Prop := exists m, holds w m /\ enrolled m /\ points origin w (Some new).

Definition commit_state (w : disk) : Prop := before w \/ gated w \/ after w.

(** *** What the steps make of it *)

Hypothesis Hfresh : fresh_accounts v m0.
Hypothesis Hhex : hex64 g = true.

Definition good_pointer (p : option trust_pointer) : Prop := match p with Some q => own_pointer origin q | None => True end.

(** The accounts are replaced, with [previous] in the marker. *)
Definition replaced (previous : option trust_pointer) (stored : string) (m1 : accounts) : Prop :=
  accepts (in_context v g previous) stored g m0 m1.

Definition the_marker (previous : option trust_pointer) (stored : string) : accepted_marker :=
  activation_marker (in_context v g previous) g (pending_account origin (av_trustIdentity v)) stored m0.

Definition final_accounts (m1 : accounts) : accounts :=
  drop_key (serverEnrollmentRollbackAccount origin (av_retryKey v)) (drop_key (marker_account origin) m1).

Lemma fresh_in_context previous : fresh_accounts (in_context v g previous) m0.
Proof. destruct Hfresh. by constructor. Qed.

Lemma marker_own previous stored m1 : replaced previous stored m1 -> good_pointer previous -> own_marker (the_marker previous stored).
Proof.
  intros Hr Hp. destruct (ac_valid _ _ _ _ _ Hr) as (Hb & _). split; [done|]. split; [exact Hb|]. split; [exact Hhex|].
  split; [apply hex64_sha|]. split; [apply hex64_sha|exact Hp].
Qed.

Definition gated_at (previous : option trust_pointer) (m1 : accounts) (w : disk) : Prop :=
  dk_store w = Some (encode_accounts m1) /\ (points origin w previous \/ points origin w (Some new)).

Lemma holds_store w m : dk_store w = Some (encode_accounts m) -> holds w m.
Proof. intros Hw. unfold holds. rewrite Hw. apply decode_encode. Qed.

Lemma gated_state previous stored m1 w : replaced previous stored m1 -> good_pointer previous -> possible previous ->
  gated_at previous m1 w -> commit_state w.
Proof.
  intros Hr Hg Hp [Hs Hpt]. right. left. assert (Ho := marker_own _ _ _ Hr Hg).
  assert (Hf := marker_found _ _ _ _ _ Hr (fresh_in_context previous) Ho). change (av_origin (in_context v g previous)) with origin in Hf.
  destruct (assoc (marker_account origin) m1) as [t|] eqn:Et; [|done].
  destruct Hpt as [Hpt|Hpt]; [exists m1, t, previous|exists m1, t, (Some new)]; (split; [by apply holds_store|]);
    (split; [done|]); (split; [by intros ->|]); auto.
Qed.

Lemma after_state previous stored m1 w : replaced previous stored m1 -> dk_store w = Some (encode_accounts (final_accounts m1)) ->
  points origin w (Some new) -> after w.
Proof.
  intros Hr Hs Hp. exists (final_accounts m1). split; [by apply holds_store|]. split; [|done]. intros k. unfold final_accounts.
  rewrite !assoc_drop, (activated_at _ _ _ _ _ Hr (fresh_in_context previous)).
  destruct (names_differ (in_context v g previous)) as (H1 & H2 & H3 & H4 & H5 & H6). cbn [in_context av_origin av_trustIdentity av_retryKey] in *.
  change (activated_record (in_context v g previous)) with (activated_record v).
  destruct (String.eqb_spec k (serverEnrollmentRollbackAccount origin (av_retryKey v))) as [->|Hk1].
  - destruct (String.eqb_spec (serverEnrollmentRollbackAccount origin (av_retryKey v)) (credential_account origin (av_trustIdentity v))); [congruence|].
    destruct (String.eqb_spec (serverEnrollmentRollbackAccount origin (av_retryKey v)) (pending_account origin (av_trustIdentity v))); [congruence|].
    by rewrite (fa_rollback _ _ Hfresh).
  - destruct (String.eqb_spec k (marker_account origin)) as [->|Hk2].
    + destruct (String.eqb_spec (marker_account origin) (credential_account origin (av_trustIdentity v))); [congruence|].
      destruct (String.eqb_spec (marker_account origin) (pending_account origin (av_trustIdentity v))); [congruence|].
      by rewrite (fa_marker _ _ Hfresh).
    + destruct (String.eqb_spec k (pending_account origin (av_trustIdentity v))) as [->|Hk3]; [|done].
      destruct (String.eqb_spec (pending_account origin (av_trustIdentity v)) (credential_account origin (av_trustIdentity v))); [congruence|done].
Qed.

Lemma before_state previous stored m1 m2 w : replaced previous stored m1 -> good_pointer previous -> possible previous ->
  restored_accounts (the_marker previous stored) m1 = inr m2 -> dk_store w = Some (encode_accounts m2) -> points origin w previous -> before w.
Proof.
  intros Hr Hg Hp Hm Hs Hpt. exists m2, previous. split; [by apply holds_store|]. split; [|done].
  exact (proj1 (undone _ _ _ _ _ Hr (fresh_in_context previous) (marker_own _ _ _ Hr Hg) m2 Hm)).
Qed.

Section Flows.
Variable honest : bool.

#[local] Abbreviation safe p w Q := (safely (disk_act honest) commit_state p w Q).

(** *** Undoing *)

Lemma moved_gated previous m1 w p w' : gated_at previous m1 w -> moved origin w p w' -> p = previous \/ p = Some new -> gated_at previous m1 w'.
Proof. intros [Hs _] (Hs' & Hpt & _) Hor. split; [by rewrite Hs'|]. destruct Hor as [<-|<-]; auto. Qed.

Section Gated.
Variables (previous : option trust_pointer) (stored : string) (m1 : accounts).
Hypothesis Hr : replaced previous stored m1.
Hypothesis Hg : good_pointer previous.
Hypothesis Hp : possible previous.

#[local] Abbreviation mk := (the_marker previous stored).

Lemma gated_marker w Q : gated_at previous m1 w -> any_error Q w -> Q (Done (Some mk)) w -> safe (getAcceptedEnrollmentMarker true origin) w Q.
Proof.
  intros Hw He HQ. eapply (safe_marker honest _ origin m1); [by eapply gated_state|apply holds_store, Hw|done| |exact HQ].
  assert (Hf := marker_found _ _ _ _ _ Hr (fresh_in_context previous) (marker_own _ _ _ Hr Hg)).
  change (av_origin (in_context v g previous)) with origin in Hf. rewrite Hf. eexists. split; [|done].
  apply own_marker_decoded. by eapply marker_own.
Qed.

Lemma undo_safe w : gated_at previous m1 w -> safe (undo site mk) w (fun _ _ => True).
Proof.
  intros Hw. assert (Hstate : forall w', gated_at previous m1 w' -> commit_state w') by (intros w'; by eapply gated_state).
  assert (Haccounts : forall w', gated_at previous m1 w' -> points origin w' previous ->
    safe (restoreAcceptedEnrollmentAccounts true mk) w' (fun _ _ => True)).
  { intros w' Hw' Hpt. unfold restoreAcceptedEnrollmentAccounts, locked. apply safe_held, safe_store_lock; [by apply Hstate|done|].
    apply safely_bind. eapply safe_entries; [by apply Hstate|apply holds_store, Hw'|done|].
    apply safely_bind, safe_of_sum. destruct (restored_accounts mk m1) as [e|m2] eqn:Em; [done|].
    apply safe_replace; [by apply Hstate|done| |done|done]. left. eapply before_state; [done..|]. exact Hpt. }
  unfold undo. apply safely_bind. unfold restoreEnrollmentPointer. change (am_previousPointer mk) with previous. change (am_origin mk) with origin.
  destruct previous as [p|] eqn:Eprev.
  - apply safely_bind, safe_verified; [by apply Hstate|done|]. apply safely_bind.
    assert (Horig : tp_origin p = origin) by (destruct Hg as (-> & _); done).
    apply safe_publish; [by apply Hstate|done|]. rewrite Horig. intros w' Hm. assert (Hw' : gated_at (Some p) m1 w') by (eapply moved_gated; eauto).
    split; [by apply Hstate|]. split; [|done]. apply safely_bind. eapply (safe_pointer honest _ origin (Some p)); [by apply Hstate|apply Hm|exact Hg|done|].
    rewrite bool_decide_eq_true_2 by done. apply Haccounts; [done|apply Hm].
  - apply safely_bind, safe_remove; [by apply Hstate|done|]. intros w' Hm. assert (Hw' : gated_at None m1 w') by (eapply moved_gated; eauto).
    split; [by apply Hstate|]. split; [|done]. apply safely_bind. eapply (safe_pointer honest _ origin None); [by apply Hstate|apply Hm|done|done|].
    apply Haccounts; [done|apply Hm].
Qed.

(** *** Going on *)

Definition is_after w : Prop := dk_store w = Some (encode_accounts (final_accounts m1)) /\ points origin w (Some new).

Lemma finalize_safe w : gated_at previous m1 w -> points origin w (Some new) ->
  safe (finalizeAcceptedEnrollment true origin (av_trustIdentity v) g) w
    (fun r w' => match r with Done _ => is_after w' | Failed _ => w' = w \/ honest = false /\ is_after w' end).
Proof.
  intros Hw Hpt. assert (Hs : commit_state w) by by eapply gated_state.
  unfold finalizeAcceptedEnrollment, locked. apply safe_held, safe_store_lock; [done|intros e; by left|].
  apply safely_bind. eapply safe_entries; [done|apply holds_store, Hw|intros e; split; [by left|intros _ e'; by left]|].
  apply safely_bind, safe_of_sum.
  destruct (finalized _ _ _ _ _ Hr (fresh_in_context previous) (marker_own _ _ _ Hr Hg)) as [_ Hf].
  change (av_origin (in_context v g previous)) with origin in Hf. change (av_trustIdentity (in_context v g previous)) with (av_trustIdentity v) in Hf.
  change (av_retryKey (in_context v g previous)) with (av_retryKey v) in Hf. rewrite Hf.
  assert (Ha : is_after (with_accounts w (final_accounts m1))) by done.
  apply safe_replace; [done|intros e; split; [by left|intros _ e'; by left]| |split; [done|]|].
  - right. right. eapply after_state; [exact Hr|apply Ha|apply Ha].
  - intros Hh e. right. by split.
  - intros Hh e. split; [right; by split|]. intros _ e'. right. by split.
Qed.

Lemma switch_safe s w : sg_origin s = origin -> sg_generationId s = g -> g_identity (sg_trust s) = av_trustIdentity v -> gated_at previous m1 w ->
  safe (switch_pointer site s) w (fun r w' => match r with Done _ => is_after w' | Failed _ => gated_at previous m1 w' \/ is_after w' end).
Proof.
  intros Ho Hgen Hi Hw. assert (Hstate : forall w', gated_at previous m1 w' -> commit_state w') by (intros w'; by eapply gated_state).
  unfold switch_pointer. rewrite Ho, Hgen, Hi. apply safely_bind, safe_publish; [by apply Hstate|intros e; by left|].
  intros w' Hm. assert (Hw' : gated_at previous m1 w') by (eapply moved_gated; eauto). split; [by apply Hstate|].
  split; [|intros _ e; by left]. apply safely_bind, safe_verified; [by apply Hstate|intros e; by left|].
  eapply safely_mono; [apply finalize_safe; [done|apply Hm]|]. intros [b|e] w1; [done|]. intros [->|[_ H1]]; auto.
Qed.
End Gated.

(** *** Activating *)

(** The accounts were replaced under a marker of the current pointer. *)
Definition accepted_at (previous : option trust_pointer) (w' : disk) : Prop :=
  exists stored m1, replaced previous stored m1 /\ gated_at previous m1 w' /\ points origin w' previous.

Definition untouched (w w' : disk) (previous : option trust_pointer) : Prop := w' = w \/ accepted_at previous w'.

Lemma capabilities_same l l' : validateServerCapabilities l = inr l' -> l' = l.
Proof. unfold validateServerCapabilities. intros (u & _ & [= <-])%sum_bind_inr. done. Qed.

Lemma activate_safe s previous w : sg_generationId s = g -> holds w m0 -> points origin w previous -> good_pointer previous -> possible previous ->
  safe (activate_with v s previous) w (fun r w' => match r with Done _ => accepted_at previous w' | Failed _ => untouched w w' previous end).
Proof.
  intros Hgen Hm Hpt Hg Hp. assert (Hs : commit_state w) by (left; by exists m0, previous).
  assert (Hlet : forall A (x : js_error + A) (k : A -> enrolling unit), (forall a, x = inr a -> safe (k a) w (fun r w' =>
      match r with Done _ => accepted_at previous w' | Failed _ => untouched w w' previous end)) ->
    safe (pbind (of_sum x) k) w (fun r w' => match r with Done _ => accepted_at previous w' | Failed _ => untouched w w' previous end)).
  { intros A x k Hk. apply safely_bind, safe_of_sum. destruct x as [e|a]; [by left|by apply Hk]. }
  unfold activate_with, activatePendingServerEnrollment. rewrite Hgen.
  change (av_origin (in_context v g previous)) with origin. change (av_trustIdentity (in_context v g previous)) with (av_trustIdentity v).
  apply Hlet. intros [] Hb. apply Hlet. intros [] _. apply Hlet. intros [] Hc. apply Hlet. intros [] Hu. apply Hlet. intros l Hl.
  assert (Hbind : binding_ok origin (av_trustIdentity v) = true) by (unfold binding_ok; by rewrite Hb).
  assert (Hvalid : valid_activation (in_context v g previous)).
  { split; [exact Hbind|]. split; [exact (require_inr _ _ _ Hc)|]. split; [exact (require_inr _ _ _ Hu)|].
    assert (He := capabilities_same _ _ Hl). cbn [in_context av_serverCapabilities] in *. by subst l. }
  apply Hlet. intros account Ha. rewrite pending_account_valid in Ha by done. injection Ha as <-.
  unfold locked. apply safe_held, safe_store_lock; [done|intros e; by left|].
  apply safely_bind. eapply safe_get; [done..|intros e; split; [by left|intros _ e'; by left]|].
  destruct (truthy _) as [stored|] eqn:Et; [|split; [by left|intros _ e'; by left]].
  destruct (decodePendingServerEnrollment _ _ _) as [e|p]; [split; [by left|intros _ e'; by left]|].
  destruct (negb _); [split; [by left|intros _ e'; by left]|].
  apply safely_bind. eapply safe_entries; [done..|intros e; split; [by left|intros _ e'; by left]|].
  apply safely_bind, safe_of_sum. rewrite credential_account_valid by done. apply safely_bind, safe_of_sum.
  destruct (activated_accounts _ _ _ _ _ _) as [e|m1] eqn:E1; [split; [by left|intros _ e'; by left]|].
  assert (Hr : replaced previous stored m1).
  { unfold activated_accounts in E1. apply sum_bind_inr in E1 as (u & _ & E1). apply sum_bind_inr in E1 as (g' & Hg' & E1).
    assert (g' = Some g) as ->.
    { unfold activated_generation in Hg'. cbn [in_context av_generationId] in Hg'. by case_all. }
    injection E1 as <-. split; [done|exact Hhex| | |done].
    - change (av_origin (in_context v g previous)) with origin. change (av_trustIdentity (in_context v g previous)) with (av_trustIdentity v).
      destruct (assoc _ m0) as [[|]|]; by simplify_eq/=.
    - intros ->. by destruct (assoc _ m0) as [[|]|]. }
  assert (Hw : accepted_at previous (with_accounts w m1)) by (exists stored, m1; split; [done|]; split; [split; [done|by left]|exact Hpt]).
  apply safe_replace; [done|intros e; split; [by left|intros _ e'; by left]| |split; [done|]|].
  - destruct Hw as (st & m1' & Hr' & Hga & _). by eapply gated_state.
  - intros _ e. by right.
  - intros _ e. split; [by right|]. intros _ e'. by right.
Qed.

(** *** The commit *)

Section CommitRun.
Variable s : staged_trust.
Hypothesis Ho : sg_origin s = origin.
Hypothesis Hgen : sg_generationId s = g.
Hypothesis Hi : g_identity (sg_trust s) = av_trustIdentity v.

Lemma accept_safe previous w : holds w m0 -> points origin w previous -> good_pointer previous -> possible previous ->
  safe (accept_accounts s (activate_with v s) previous) w
    (fun r w' => match r with Done _ => accepted_at previous w' | Failed _ => untouched w w' previous end).
Proof.
  intros Hm Hpt Hg Hp. unfold accept_accounts. apply safely_bind. eapply safely_mono; [by apply activate_safe|].
  intros [b|e] w1; [|done]. intros (stored & m1 & Hr & Hga & Hpt1). apply safely_bind. rewrite Ho.
  assert (Hacc : accepted_at previous w1) by by exists stored, m1.
  eapply gated_marker; [done..|intros e; by right|]. case_match; [done|by right].
Qed.

(** What a commit that throws leaves, unless it says that recovery is needed. *)
Definition thrown (r : outcome bool) (w' : disk) : Prop :=
  match r with Done _ => after w' | Failed e => is_recovery e = false -> before w' end.

Lemma abandon_gated activated e previous stored m1 w : replaced previous stored m1 -> good_pointer previous -> possible previous -> gated_at previous m1 w ->
  safe (abandon site s activated e) w thrown.
Proof.
  intros Hr Hg Hp Hw. unfold abandon. rewrite Ho. apply safely_bind, safely_attempt. eapply gated_marker; [done..|by intros e'|].
  cbn [safely]. apply safely_bind, safely_attempt. eapply safely_mono; [by eapply undo_safe|]. by intros [u|e'] w1 _.
Qed.

(** Converting an old layout touches neither the accounts nor, until it is done,
    the pointer. *)
Definition aside (w w' : disk) : Prop :=
  dk_store w' = dk_store w /\ dk_files w' !! pointer_key origin = dk_files w !! pointer_key origin.

Lemma aside_only_in d w w1 w' : aside w w1 -> ~ d (fst (pointer_key origin)) -> only_in d w1 w' -> aside w w'.
Proof. intros [Hs Hf] Hd [Hs' Hf']. split; [by rewrite Hs'|]. by rewrite Hf' by done. Qed.

Lemma generation_longer gid : home_ok -> hex64 gid = true ->
  (String.length (remoteTrustDirectory site origin) < String.length (trustGenerationDirectory site origin gid))%nat.
Proof.
  intros Hh Hg. destruct (trust_paths origin Hh) as (l & _ & Hne & -> & _ & Hgd). rewrite Hgd by done. by apply path_of_length.
Qed.

Lemma keep_publish certificate identity : home_ok ->
  maintains (disk_act honest) (aside w0) (publishGeneration site origin certificate identity).
Proof.
  intros Hh. unfold publishGeneration. set (gid := trustGenerationId origin certificate identity).
  assert (Hl := generation_longer gid Hh (hex64_sha _)).
  assert (Htmp : forall x, (String.length (remoteTrustDirectory site origin) < String.length (trustGenerationDirectory site origin gid +:+ x))%nat)
    by (intros x; rewrite append_length; lia).
  assert (Hno : forall x, ~ inside (trustGenerationDirectory site origin gid +:+ x) (fst (pointer_key origin))) by (intros x; apply not_inside, Htmp).
  assert (Hself : ~ inside (trustGenerationDirectory site origin gid) (fst (pointer_key origin))) by (by apply not_inside).
  assert (Hne : forall x, trustGenerationDirectory site origin gid +:+ x <> fst (pointer_key origin)) by (intros x Heq; apply (Hno x); by left).
  repeat first
    [ apply keep_private | apply keep_exist | apply keep_verified
    | apply maintains_bind; [|intros ?] | apply maintains_catch; [|intros ?] | apply maintains_attempt
    | apply maintains_value; exact I
    | apply maintains_perform; intros ? ? ? Hop Ha; cbn in Hop; first
        [ subst; exact Ha
        | refine (aside_only_in _ _ _ _ Ha _ Hop); first [apply Hne | apply Hno | intros [Hd|Hd]; [exact (Hne _ Hd)|apply Hself; by left]] ]
    | apply maintains_ask; intros ? ? ? Hop Ha; cbn in Hop; subst; exact Ha
    | case_match ].
Qed.

Lemma publish_returns certificate identity :
  returns (fun x => x = trustGenerationId origin certificate identity) (publishGeneration site origin certificate identity).
Proof.
  unfold publishGeneration. do 4 (apply returns_bind; intros ?). apply returns_bind. intros there. destruct there.
  - by apply returns_bind.
  - apply returns_bind. intros stamp. apply returns_catch; [|intros e; by apply returns_bind].
    do 9 (apply returns_bind; intros ?). done.
Qed.

Lemma current_safe Q : holds w0 m0 -> points origin w0 p0 -> good_pointer p0 -> home_ok -> binding_ok origin (av_trustIdentity v) = true ->
  (forall e w', before w' -> Q (Failed e) w') ->
  (forall previous w', holds w' m0 -> points origin w' previous -> good_pointer previous -> possible previous -> Q (Done previous) w') ->
  safe (current_pointer site origin) w0 Q.
Proof.
  intros Hm Hpt Hg Hhome Hbind He HQ.
  assert (Haside : forall w', aside w0 w' -> holds w' m0 /\ points origin w' p0).
  { intros w' [Hs Hf]. split; [unfold holds; by rewrite Hs|unfold points; by rewrite Hf]. }
  assert (Hb : forall w', aside w0 w' -> before w').
  { intros w' Ha. destruct (Haside w' Ha). exists m0, p0. split; [done|]. split; [done|]. split; [done|by left]. }
  assert (Hw0 : aside w0 w0) by done.
  assert (Hs : commit_state w0) by (left; by apply Hb).
  unfold current_pointer. apply safely_bind. eapply (safe_pointer honest _ origin p0); [done..|intros e; by apply He, Hb|].
  assert (Hcase : (exists p, p0 = Some p) \/ p0 = None) by (destruct p0; eauto).
  destruct Hcase as [[p Ep]|Hp0]; [rewrite Ep; cbn [safely]; rewrite <-Ep; apply HQ; [done..|by left]|rewrite Hp0].
  unfold migrateLegacyRemoteTrust. apply safely_bind. unfold trustFilesExist. apply safely_bind. intros a w' Hx. cbn in Hx. subst w'.
  split; [done|]. apply safely_bind. intros b w' Hx. cbn in Hx. subst w'. split; [done|]. cbn [safely].
  destruct (negb _); [cbn [safely]; rewrite <-Hp0; apply HQ; [done..|by left]|].
  apply safely_bind, safe_authority; [done|intros e; by apply He, Hb|]. intros gen Hcert (d & Hid).
  apply safely_bind. eapply safely_mono.
  { eapply safely_weaken; [|apply safely_returns, publish_returns; apply safely_keeps, keep_publish; done]. intros w' Ha. left. by apply Hb. }
  intros [gid|e] w1 [[Ha _] Hgid]; [|by apply He, Hb]. cbn in Hgid. subst gid.
  set (q := pointer_of origin (trustGenerationId origin (g_certificate gen) (g_identity gen)) (g_identity gen)).
  assert (Hown : own_pointer origin q).
  { split; [done|]. split; [apply hex64_sha|]. cbn [q pointer_of tp_trustIdentity]. rewrite Hid. by eapply spki_binding. }
  assert (Hleg : possible (Some q)) by (right; split; [done|]; exists q; split; [done|]; split; [done|]; by exists (g_certificate gen)).
  destruct (Haside w1 Ha) as [Hm1 Hpt1].
  apply safely_bind, safe_publish; [left; by apply Hb|intros e; by apply He, Hb|].
  intros w2 (Hs2 & Hpt2 & _). change (tp_origin q) with origin in Hpt2. assert (Hm2 : holds w2 m0) by (unfold holds; by rewrite Hs2).
  assert (Hb2 : before w2) by (exists m0, (Some q); done). split; [by left|]. split; [|intros _ e; by apply He].
  by apply HQ.
Qed.

(** The whole commit, from a disk with a good pointer or none. *)
Lemma commit_safe held : holds w0 m0 -> points origin w0 p0 -> good_pointer p0 -> home_ok -> binding_ok origin (av_trustIdentity v) = true ->
  safe (commitTrust site held s false (activate_with v s)) w0
    (fun r w' => match r with Done _ => after w' | Failed e => is_recovery e = false -> honest = true \/ held = true -> before w' end).
Proof.
  intros Hm Hpt Hg Hhome Hbind. assert (Hb0 : before w0) by (exists m0, p0; split; [done|]; split; [done|]; split; [done|by left]).
  unfold commitTrust. rewrite Ho. apply safe_origin_lock; [by left|by intros e|].
  assert (Hpost : forall p w, safe p w thrown -> safe p w (fun r w' =>
    match r with Done _ => after w' | Failed e => is_recovery e = false -> honest = true \/ held = true -> before w' end /\
    (honest = false -> held = false -> any_error (A := bool) (fun r w' => match r with Done _ => after w' | Failed e => is_recovery e = false -> honest = true \/ held = true -> before w' end) w'))).
  { intros p w Hsafe. eapply safely_mono; [exact Hsafe|]. intros r w' Ht. split; [by destruct r; [|intros Hr _; apply Ht]|].
    intros -> -> e _ [|]; done. }
  apply Hpost. apply safely_bind, current_safe; [done..| |].
  { intros e w' Hb _. exact Hb. }
  intros previous w Hmw Hptw Hgw Hposs. apply safely_bind, safely_attempt.
  eapply safely_mono; [by apply accept_safe|]. intros [u|e] w1; cbv beta.
  - intros (stored & m1 & Hr & Hga & _). apply safely_bind, safely_attempt.
    eapply safely_mono; [eapply switch_safe; done|]. intros [u'|e] w2; cbv beta.
    + intros [Ha1 Ha2]. by eapply after_state.
    + intros [Hga2|[Ha1 Ha2]]; [by eapply abandon_gated|].
      assert (Haft : after w2) by by eapply after_state. destruct Haft as (m & Hma & Hen & Hpa).
      unfold abandon. rewrite Ho. apply safely_bind, safely_attempt.
      eapply (safe_marker honest _ origin m None); [right; right; by exists m|done|by intros e'| |by intros ?].
      assert (Hnone : assoc (marker_account origin) m = None); [|by rewrite Hnone].
      rewrite Hen. destruct (names_differ v) as (_ & H2 & _ & H4 & _).
      destruct (String.eqb_spec (marker_account origin) (credential_account origin (av_trustIdentity v))); [congruence|].
      destruct (String.eqb_spec (marker_account origin) (pending_account origin (av_trustIdentity v))); [congruence|].
      by rewrite (fa_marker _ _ Hfresh).
  - intros [->|(stored & m1 & Hr & Hga & _)]; [|by eapply abandon_gated].
    unfold abandon. rewrite Ho. apply safely_bind, safely_attempt.
    assert (Hbw : before w) by by exists m0, previous.
    eapply (safe_marker honest _ origin m0 None); [by left|done|by intros e'|by rewrite (fa_marker _ _ Hfresh)|by intros _].
Qed.
End CommitRun.
End Flows.
End Transaction.

(** What a commit starts from: the accounts [m0] and the pointer [p0] on the disk
    [w0], a staged generation [s] and the verified response [v] for it. *)
Record commit_ready (v : activation) (s : staged_trust) (w0 : disk) (m0 : accounts) (p0 : option trust_pointer) : Prop := {
  cm_origin : sg_origin s = av_origin v;
  cm_identity : g_identity (sg_trust s) = av_trustIdentity v;
  cm_generation : hex64 (sg_generationId s) = true;
  cm_binding : binding_ok (av_origin v) (av_trustIdentity v) = true;
  cm_home : home_ok;
  cm_accounts : holds w0 m0;
  cm_fresh : fresh_accounts v m0;
  cm_pointer : points (av_origin v) w0 p0;
  cm_good : good_pointer v p0
}.

(** C8. Committing an enrollment is all or nothing.  Wherever [commitTrust] fails or is
    stopped, what it leaves is the accounts and the pointer there were, or those of
    the new enrollment, or accounts with a marker, which stops the readers of the credential.  When it
    returns the enrollment is complete, and when what it throws does not ask for
    recovery nothing has changed.  A write that reports an error may have taken place
    (where it did, and with it the release of the origin's lock, the last holds inside
    an operation that has that lock). *)
Theorem commit_is_all_or_nothing (honest held : bool) v s w0 m0 p0 : commit_ready v s w0 m0 p0 ->
  let commit := commitTrust site held s false (activate_with v s) in
  (forall w, passes (disk_act honest) commit w0 w -> commit_state v (sg_generationId s) w0 m0 p0 w) /\
  (forall r w, nrun (disk_act honest) commit w0 r w ->
     match r with
     | Done _ => after v (sg_generationId s) m0 w
     | Failed e => is_recovery e = false -> honest = true \/ held = true -> before v w0 m0 p0 w
     end).
Proof.
  intros [Ho Hi Hh Hb Hhome Hm Hf Hp Hg]. assert (Hs := commit_safe v (sg_generationId s) w0 m0 p0 Hf Hh honest s Ho eq_refl Hi held Hm Hp Hg Hhome Hb).
  split.
  - intros w Hw. eapply safely_passes; [exact Hs| |exact Hw]. left. exists m0, p0. split; [done|]. split; [done|]. split; [done|by left].
  - intros r w Hr. exact (safely_ends _ _ _ _ _ _ _ Hs Hr).
Qed.
End Commit.
