(* ===== verification/EnrollmentRecovery.v ===== *)
(** * Enrollments: stopped readers, recovery, and the operator's command

    Five operations of the credential store check for the marker of an accepted
    enrollment and do not get past it.  Recovering one either
    completes it or gives back what was there; [recover-enrollment] changes nothing
    of another origin.  A run of a commit, and one of a recovery whose last write
    reports an error although it took place, which leaves the new accounts with the
    old pointer. *)

From S2P Require Import Prelude NodeLib JsDate Assoc JsonText Effects LeaseFs Sha256 LocalServerCursor SeatStore Enrollment EnrollmentOps EnrollmentTrust EnrollmentFacts EnrollmentSpec.

Open Scope Z_scope.
Open Scope prog_scope.

Definition fails {A} (r : outcome A) : Prop := match r with Failed _ => True | Done _ => False end.

Section Recovery.
Context `{UrlEnv} `{CertEnv}.

(** ** Readers *)

Section Readers.
Variable honest : bool.
Variables (w : disk) (origin : string) (m : accounts) (t : string).
Hypothesis Hm : holds w m.
Hypothesis Ht : assoc (marker_account origin) m = Some t.
Hypothesis Hne : t <> "".

#[local] Abbreviation stops p := (safely (disk_act honest) (eq w) p w (fun r _ => fails r)).

Lemma stops_bind {A B} (p : enrolling A) (f : A -> enrolling B) : stops p -> stops (pbind p f).
Proof. intros Hp. apply safely_bind. eapply safely_mono; [exact Hp|]. by intros [a|e]. Qed.

Lemma stops_refused : stops (refuse_accepted origin).
Proof.
  unfold refuse_accepted, markerForOriginUnlocked. apply safely_bind, safely_bind. eapply safe_get; [done|exact Hm|by intros e|].
  fold (marker_account origin). rewrite Ht. destruct t as [|c t']; [done|]. cbn [truthy].
  apply safely_bind, safe_of_sum. by destruct (decodeAcceptedEnrollmentMarker _).
Qed.

Lemma stops_locked {A} held (body : enrolling A) : stops body -> stops (locked held origin body).
Proof.
  intros Hb. unfold locked. apply safe_origin_lock; [done|by intros e|]. apply safe_store_lock; [done|intros e; by split|].
  eapply safely_mono; [apply safely_keeps, Hb; done|]. intros r w' [_ Hr]. split; [split; [done|]|]; intros ? **; try intros e; done.
Qed.

Lemma stops_checked {A B} (x : js_error + A) (f : A -> enrolling B) : (forall a, stops (f a)) -> stops (pbind (of_sum x) f).
Proof. intros Hf. apply safely_bind, safe_of_sum. destruct x as [e|a]; [done|apply Hf]. Qed.
End Readers.

(** C32. While the accounts hold the marker of an accepted enrollment that is not
    finalized, the five operations that check for it fail for its origin and change
    nothing: [getServerCredentialRecord], [getServerCredential],
    [hasServerCredentialForOrigin], [getPendingServerEnrollment] and
    [clearEnrollmentTransaction].  Of the other operations on the accounts this says
    nothing; [getOrCreatePendingServerEnrollment], [clearPendingServerEnrollment] and
    [clearServerCredential] do not look for the marker. *)
Theorem accepted_enrollment_stops_readers (honest held : bool) (w : disk) (origin trustIdentity : string) (p : pending_record) (m : accounts) (t : string) :
  holds w m -> assoc (marker_account origin) m = Some t -> t <> "" -> pe_origin p = origin ->
  (forall r w', nrun (disk_act honest) (getServerCredentialRecord held origin trustIdentity) w r w' -> fails r /\ w' = w) /\
  (forall r w', nrun (disk_act honest) (getServerCredential held origin trustIdentity) w r w' -> fails r /\ w' = w) /\
  (forall r w', nrun (disk_act honest) (hasServerCredentialForOrigin held origin) w r w' -> fails r /\ w' = w) /\
  (forall r w', nrun (disk_act honest) (getPendingServerEnrollment held origin trustIdentity) w r w' -> fails r /\ w' = w) /\
  (forall r w', nrun (disk_act honest) (clearEnrollmentTransaction held p) w r w' -> fails r /\ w' = w).
Proof.
  intros Hm Ht Hne Hp.
  assert (Hend : forall A (q : enrolling A), safely (disk_act honest) (eq w) q w (fun r _ => fails r) ->
    forall r w', nrun (disk_act honest) q w r w' -> fails r /\ w' = w).
  { intros A q Hq r w' Hr. apply safely_keeps in Hq; [|done]. by destruct (safely_ends _ _ _ _ _ _ _ Hq Hr) as [<- Hf]. }
  assert (Hbody : forall A (f : unit -> enrolling A), safely (disk_act honest) (eq w) (locked held origin (pbind (refuse_accepted origin) f)) w (fun r _ => fails r)).
  { intros A f. apply stops_locked, stops_bind. by eapply stops_refused. }
  repeat split_and?; apply Hend.
  - apply Hbody.
  - apply stops_bind, Hbody.
  - apply Hbody.
  - apply stops_checked. intros _. apply stops_checked. intros account. apply Hbody.
  - unfold clearEnrollmentTransaction. rewrite Hp. apply stops_checked. intros _. apply stops_checked. intros account. apply Hbody.
Qed.

(** ** Recovery *)

(** A disk whose accounts an activation of [v] for the generation [g] replaced, while
    the pointer was [previous]. *)
Record recoverable (site : trust_site) (v : activation) (g : string) (w0 : disk) (m0 : accounts) (p0 previous : option trust_pointer)
    (stored : string) (m1 : accounts) (w : disk) : Prop := {
  rc_fresh : fresh_accounts v m0;
  rc_hex : hex64 g = true;
  rc_replaced : replaced v g m0 previous stored m1;
  rc_good : good_pointer v previous;
  rc_possible : possible site v w0 p0 previous;
  rc_gated : gated_at site v g previous m1 w
}.

Section Settles.
Variables (site : trust_site) (v : activation) (g : string) (w0 : disk) (m0 : accounts) (p0 previous : option trust_pointer).
Variables (stored : string) (m1 : accounts).

#[local] Abbreviation ready := (recoverable site v g w0 m0 p0 previous stored m1).
#[local] Abbreviation state := (commit_state site v g w0 m0 p0).

Lemma ready_state w : ready w -> state w.
Proof. intros [Hf Hh Hr Hg Hp Hw]. by eapply gated_state. Qed.

Lemma recover_safe w : ready w ->
  safely (disk_act true) state (recoverAcceptedEnrollment site (av_origin v)) w
    (fun r w' => match r with Done _ => after site v g m0 w' | Failed _ => True end).
Proof.
  intros Hrc. assert (Hs := ready_state w Hrc). destruct Hrc as [Hf Hh Hr Hg Hp Hw].
  assert (Hstate : forall w', gated_at site v g previous m1 w' -> state w') by (intros w' Hw'; by eapply gated_state).
  unfold recoverAcceptedEnrollment. apply safely_bind. eapply (gated_marker site v g w0 m0 p0); [done..|by intros e|].
  set (mk := the_marker v g m0 previous stored). change (am_generationId mk) with g. change (am_trustIdentity mk) with (av_trustIdentity v).
  apply safely_catch.
  assert (Hundo : forall w', gated_at site v g previous m1 w' ->
    safely (disk_act true) state (do! attempt (undo site mk); Throw InvitationArtifactRecoveryError) w'
      (fun (r : outcome unit) w'' => match r with Done _ => after site v g m0 w'' | Failed _ => True end)).
  { intros w' Hw'. apply safely_bind, safely_attempt. eapply safely_mono; [by eapply undo_safe|]. by intros [u|e]. }
  apply safely_bind, safe_verified; [done|intros e; by apply Hundo|].
  apply safely_bind, safe_publish; [done|intros e; by apply Hundo|].
  intros w' Hm. assert (Hw' : gated_at site v g previous m1 w') by (eapply moved_gated; [exact Hw|exact Hm|by right]).
  split; [by apply Hstate|]. split; [|done].
  eapply safely_mono; [eapply (finalize_safe site v g w0 m0 p0); [done..|apply Hm]|]. intros [u|e] w1; cbv beta.
  - intros [H1 H2]. by eapply after_state.
  - intros [->|[? _]]; [by apply Hundo|done].
Qed.

(** *** Without failures *)

(** Every operation succeeds, and every file and directory is private and the user's. *)
Definition answered {X} (op : enroll_op X) : X -> Prop :=
  match op in enroll_op X return X -> Prop with
  | LockOrigin _ => fun x => x = inr tt
  | UnlockOrigin _ => fun x => x = inr tt
  | LockStore => fun x => x = inr tt
  | UnlockStore => fun x => x = inr tt
  | ReadStore => fun x => exists c, x = inr c
  | WriteStore _ => fun x => x = inr tt
  | LstatDir _ => fun x => exists mt, x = inr mt /\ md_dir mt = true /\ md_link mt = false /\ others_bits (md_mode mt) = 0 /\ foreign site mt = false
  | OpenTrust _ _ => fun x => x = inr tt
  | TrustStat _ _ => fun x => exists mt, x = inr mt /\ md_file mt = true /\ others_bits (md_mode mt) = 0 /\ foreign site mt = false
  | TrustText _ _ => fun x => exists t, x = inr t
  | TrustClose _ _ => fun x => x = inr tt
  | MkdirAll _ => fun x => x = inr tt
  | AtomicWrite _ _ _ => fun x => x = inr tt
  | _ => fun _ => True
  end.

Definition healthy (X : Type) (op : enroll_op X) (w : disk) (x : X) (w' : disk) : Prop := disk_act true X op w x w' /\ answered op x.

#[local] Abbreviation runs p w Q := (will healthy p w Q).

Definition own_uid : Z := default 0 (ts_uid site).
Definition private_file : meta := Meta false false true 384 own_uid 0 0 0.
Definition private_dir : meta := Meta false true false 448 own_uid 0 0 0.

Lemma own_not_foreign mt : md_uid mt = own_uid -> foreign site mt = false.
Proof. unfold foreign, own_uid. intros ->. destruct (ts_uid site); [|done]. cbn. by rewrite Z.eqb_refl. Qed.

Lemma runs_tt (op : enroll_op (js_error + unit)) w w' (Q : outcome unit -> disk -> Prop) :
  healthy _ op w (inr tt) w' -> (forall x w1, healthy _ op w x w1 -> x = inr tt /\ w1 = w') -> Q (Done tt) w' -> runs (perform op) w Q.
Proof. intros Hop Hall HQ. apply will_perform; [eauto|]. intros x w1 Hx. by destruct (Hall x w1 Hx) as [-> ->]. Qed.

Ltac succeeds := eapply runs_tt; [split; [cbn; try split; done|done]|let Hd := fresh in let Ha := fresh in intros ? ? [Hd Ha]; cbn in Hd, Ha; destruct_and?; by subst|].

Lemma runs_store_lock {A} (body : enrolling A) w Q : runs body w Q -> runs (withCredentialStoreLock body) w Q.
Proof.
  intros Hb. unfold withCredentialStoreLock. apply will_bind. succeeds. apply will_finally. eapply will_mono; [exact Hb|].
  intros r w' HQ. by succeeds.
Qed.

Lemma runs_entries m w Q : holds w m -> Q (Done m) w -> runs backend_entries w Q.
Proof.
  intros Hm HQ. unfold backend_entries. apply will_bind, will_perform.
  - exists (inr (dk_store w)), w. split; [done|]. by eexists.
  - intros x w' [[-> Hx] [c ->]]. subst c. by rewrite Hm.
Qed.

Lemma runs_file dir name t w Q : dk_files w !! (dir, name) = Some t -> Q (Done t) w -> runs (readTrustFile site dir name) w Q.
Proof.
  intros Ht HQ. unfold readTrustFile. apply will_bind, will_attempt. succeeds. apply will_finally, will_bind, will_perform.
  - exists (inr private_file), w. split; [done|]. exists private_file. split; [done|]. split; [done|]. split; [done|by apply own_not_foreign].
  - intros x w' [[-> _] (mt & -> & Hfile & Hmode & Hfor)]. rewrite Hfile, Hmode, Hfor. cbn [negb orb Z.eqb]. apply will_perform.
    + exists (inr t), w. split; [done|by eexists].
    + intros x w' [[-> Hx] [t' ->]]. assert (t' = t) as -> by congruence. by succeeds.
Qed.

(** The generation can be read, and is of the identity. *)
Definition readable (w : disk) : Prop := exists certificate config expected,
  dk_files w !! (trustGenerationDirectory site (av_origin v) g, "ca.crt") = Some certificate /\
  dk_files w !! (trustGenerationDirectory site (av_origin v) g, "server.json") = Some config /\
  decodeTrustConfig config = inr expected /\ verifyCaIdentity certificate expected = inr (av_trustIdentity v) /\
  trustGenerationId (av_origin v) certificate (av_trustIdentity v) = g.

Lemma runs_verified message w Q : hex64 g = true -> readable w -> Q (Done tt) w ->
  runs (verified_generation site (av_origin v) g (av_trustIdentity v) message) w Q.
Proof.
  intros Hg (certificate & config & expected & Hc & Hj & Hd & Hv & Hid) HQ. unfold verified_generation, readGeneration. rewrite Hg. cbn [negb].
  apply will_bind, will_bind. unfold readLocalAuthorityTrust. apply will_bind. eapply runs_file; [exact Hc|].
  apply will_bind. eapply runs_file; [exact Hj|]. apply will_bind. rewrite Hd. cbn [sum_bind]. rewrite Hv. cbn [of_sum will g_certificate g_identity].
  rewrite Hid, String.eqb_refl. cbn [will g_identity]. by rewrite String.eqb_refl.
Qed.

Lemma runs_publish p w Q : (forall w', moved site (tp_origin p) w (Some p) w' -> Q (Done tt) w') -> runs (publishTrustPointer site p) w Q.
Proof.
  intros HQ. unfold publishTrustPointer. apply will_bind. succeeds. apply will_bind. unfold assertPrivateDirectory. apply will_bind, will_perform.
  - exists (inr private_dir), w. split; [done|]. exists private_dir. do 4 (split; [done|]). by apply own_not_foreign.
  - intros x w' [[-> _] (mt & -> & Hdir & Hlink & Hmode & Hfor)]. rewrite Hdir, Hlink, Hmode, Hfor. cbn [negb orb Z.eqb will].
    apply will_bind. eapply (runs_tt _ w (Disk (dk_store w) (<[pointer_key site (tp_origin p) := pointer_text p]> (dk_files w)))).
    + by split.
    + intros x w1 [Hx ->]. by split.
    + apply will_ask; [exists tt; eexists; by split|]. intros [] w' [-> _]. apply HQ, moved_insert.
Qed.

Lemma recover_runs w : ready w -> readable w -> runs (recoverAcceptedEnrollment site (av_origin v)) w (fun r w' => r = Done tt /\ after site v g m0 w').
Proof.
  intros [Hf Hh Hr Hg Hp Hw] Hread. assert (Hm : holds w m1) by (apply holds_store, Hw).
  assert (Hown := marker_own _ _ _ Hh _ _ _ Hr Hg).
  assert (Hfound := marker_found _ _ _ _ _ Hr (fresh_in_context _ _ _ Hf previous) Hown). change (av_origin (in_context v g previous)) with (av_origin v) in Hfound.
  unfold recoverAcceptedEnrollment, getAcceptedEnrollmentMarker, locked, withEnrollmentOriginLock. apply will_bind, runs_store_lock.
  unfold markerForOriginUnlocked, backend_get. apply will_bind, will_bind. eapply runs_entries; [exact Hm|].
  cbn [will]. fold (marker_account (av_origin v)). rewrite Hfound, own_marker_decoded by done. cbn [of_sum pbind will].
  set (mk := activation_marker (in_context v g previous) g (pending_account (av_origin v) (av_trustIdentity v)) stored m0).
  change (am_generationId mk) with g. change (am_trustIdentity mk) with (av_trustIdentity v).
  apply will_catch, will_bind. apply runs_verified; [done..|]. apply will_bind, runs_publish. intros w' Hmv.
  change (tp_origin _) with (av_origin v) in Hmv. assert (Hm' : holds w' m1) by (destruct Hmv as [Hs _]; unfold holds; by rewrite Hs).
  unfold finalizeAcceptedEnrollment, locked, withEnrollmentOriginLock. apply runs_store_lock, will_bind. eapply runs_entries; [exact Hm'|].
  apply will_bind. destruct (finalized _ _ _ _ _ Hr (fresh_in_context _ _ _ Hf previous) Hown) as [_ Hfin].
  change (av_origin (in_context v g previous)) with (av_origin v) in Hfin. change (av_trustIdentity (in_context v g previous)) with (av_trustIdentity v) in Hfin.
  change (av_retryKey (in_context v g previous)) with (av_retryKey v) in Hfin. match goal with |- context [finalized_accounts ?a ?b ?c ?d] => change (finalized_accounts a b c d) with (finalized_accounts (av_origin v) (av_trustIdentity v) g m1) end. rewrite Hfin. cbn [of_sum will].
  unfold backend_replace. eapply (runs_tt _ w' (with_accounts w' (final_accounts v m1))).
  - by split.
  - intros x w1 [Hx ->]. by split.
  - split; [done|]. eapply after_state; [exact Hf|exact Hr|done|apply Hmv].
Qed.
End Settles.

(** C23. Recovering an accepted enrollment.  With writes that report what they did,
    whatever fails and wherever it is stopped the disk is in one of the states of a
    commit, and where recovery returns the enrollment is complete; and where nothing
    fails and the generation can be read, it does return. *)
Theorem recovery_settles (site : trust_site) (v : activation) (g : string) (w0 w : disk) (m0 m1 : accounts) (p0 previous : option trust_pointer) (stored : string) :
  recoverable site v g w0 m0 p0 previous stored m1 w ->
  let recover := recoverAcceptedEnrollment site (av_origin v) in
  (forall w', passes (disk_act true) recover w w' -> commit_state site v g w0 m0 p0 w') /\
  (forall r w', nrun (disk_act true) recover w r w' -> r = Done tt -> after site v g m0 w') /\
  (readable site v g w -> will (healthy site) recover w (fun r w' => r = Done tt /\ after site v g m0 w')).
Proof.
  intros Hrc recover. assert (Hs := recover_safe _ _ _ _ _ _ _ _ _ _ Hrc). split_and!.
  - intros w' Hp. eapply safely_passes; [exact Hs|by eapply ready_state|exact Hp].
  - intros r w' Hr ->. exact (safely_ends _ _ _ _ _ _ _ Hs Hr).
  - intros Hread. by eapply recover_runs.
Qed.

(** ** [borg recover-enrollment] *)

(** An account of the origin: one of its enrollments, or one with an active record. *)
Definition owned (origin k : string) (text : option string) : Prop :=
  k = marker_account origin \/ (exists i, k = pending_account origin i) \/ (exists r, k = serverEnrollmentRollbackAccount origin r) \/
  exists t, text = Some t /\ is_active origin t = true.

(** Only accounts of the origin differ. *)
Definition spared (origin : string) (m m' : accounts) : Prop :=
  forall k, assoc k m' = assoc k m \/ owned origin k (assoc k m) \/ owned origin k (assoc k m').

Lemma puts_or {A} k (l m : list (string * A)) : let m' := foldl (fun n kv => put (fst kv) (snd kv) n) m l in
  assoc k m' = assoc k m \/ exists t, (k, t) ∈ l /\ assoc k m' = Some t.
Proof.
  cbv zeta. revert m. induction l as [|[k1 v1] l IH]; intros m; [by left|]. cbn [foldl fst snd].
  destruct (IH (put k1 v1 m)) as [He|(t & Hin & He)].
  - rewrite He, assoc_put. destruct (String.eqb_spec k k1) as [->|]; [|by left]. right. exists v1. split; [left|done].
  - right. exists t. split; [by right|done].
Qed.

Lemma snapshot_owned text marker s : decodeRollbackRecord text marker = inr s ->
  (forall k t, (k, t) ∈ rs_activeAccounts s -> is_active (am_origin marker) t = true) /\
  (exists i, rs_pendingAccount s = pending_account (am_origin marker) i) /\ (exists r, am_rollbackAccount marker = serverEnrollmentRollbackAccount (am_origin marker) r).
Proof.
  unfold decodeRollbackRecord. destruct (negb _); [done|]. intros (record & _ & Hd)%sum_bind_inr. destruct (negb _); [done|].
  destruct (jget "snapshot" record) as [snapshot|]; [|done]. destruct (text_member "pendingAccount" snapshot) as [account|]; [|done].
  destruct (text_member "pendingValue" snapshot) as [pt|]; [|done]. destruct (object_entries _) as [fields|]; [|done].
  destruct (text_entries fields) as [l|]; [|done]. destruct (forallb _ l && pending_of_marker marker account pt) eqn:Hok; [|done]. injection Hd as <-.
  apply andb_true_iff in Hok as [Hl Hp]. cbn [rs_activeAccounts rs_pendingAccount]. split.
  - intros k t Hin%list_elem_of_In. rewrite forallb_forall in Hl. specialize (Hl _ Hin). cbn [fst snd] in Hl. unfold active_entry_ok, is_active in *.
    destruct (parse_text t) as [j|]; [|done]. by apply andb_true_iff in Hl as [Hl _].
  - unfold pending_of_marker in Hp. destruct (parse_text pt) as [j|]; [|done]. destruct (text_member "origin" j) as [o|]; [|done].
    destruct (text_member "trustIdentity" j) as [i|]; [|done]. destruct (decodePendingServerEnrollment pt o i) as [|p]; [done|].
    destruct (serverPendingEnrollmentAccount _ _) as [e|a] eqn:Ea; [done|].
    apply andb_true_iff in Hp as [Hp Hr]. apply andb_true_iff in Hp as [_ Ha]. apply String.eqb_eq in Hr, Ha. subst a.
    apply sum_bind_inr in Ea as (_ & _ & [= Ea]). split; [exists (am_trustIdentity marker); by rewrite <-Ea|by eexists].
Qed.

Lemma restored_spared marker m m' : restored_accounts marker m = inr m' -> NoDup (map fst m) -> spared (am_origin marker) m m'.
Proof.
  intros Hr Hn k. unfold restored_accounts in Hr. destruct (truthy _) as [t|]; [|done]. apply sum_bind_inr in Hr as (c & _ & Hr).
  destruct (negb _); [done|]. destruct (truthy (assoc (am_rollbackAccount marker) m)) as [snap|]; [|done]. apply sum_bind_inr in Hr as (s & Hs & [= <-]).
  destruct (snapshot_owned _ _ _ Hs) as (Hact & (i & Hi) & (r & Hrb)). rewrite !assoc_drop, assoc_put.
  destruct (String.eqb_spec k (am_rollbackAccount marker)) as [->|_]; [right; left; right; right; left; eauto|].
  destruct (String.eqb_spec k (serverAcceptedEnrollmentAccount (am_origin marker))) as [->|_]; [right; left; by left|].
  destruct (String.eqb_spec k (rs_pendingAccount s)) as [->|_]; [right; left; right; left; eauto|].
  destruct (puts_or k (rs_activeAccounts s) (without_actives (am_origin marker) m)) as [->|(t1 & Hin & ->)].
  - unfold without_actives. rewrite assoc_filter by done. destruct (assoc k m) as [t1|] eqn:Ek; [|by left]. cbn [snd].
    destruct (is_active (am_origin marker) t1) eqn:Ea; [|by left]. right. left. right. right. right. eauto.
  - right. right. right. right. right. eauto.
Qed.

Section Command.
Variables (site : trust_site) (parse_url : string -> option url_parts) (honest : bool) (w0 : disk) (m : accounts).
Hypothesis Hm : holds w0 m.
Hypothesis Hn : NoDup (map fst m).

(** The file is as it was, or differs at accounts of this origin. *)
Definition same_store (w : disk) : Prop := dk_store w = dk_store w0.
Definition sparing (origin : string) (w : disk) : Prop := same_store w \/ exists m', holds w m' /\ spared origin m m'.

#[local] Abbreviation safe I p w := (safely (disk_act honest) I p w (fun _ _ => True)).
#[local] Abbreviation keep I p := (maintains (disk_act honest) I p).

Lemma same_holds w : same_store w -> holds w m.
Proof. unfold same_store, holds. by intros ->. Qed.

(** Whatever is done with the trust files leaves the accounts. *)
Ltac keeps_store :=
  repeat first
    [ apply keep_private | apply keep_file | apply keep_verified
    | apply maintains_bind; [|intros ?] | apply maintains_finally | apply maintains_attempt
    | apply maintains_value; exact I
    | apply maintains_perform; let Hop := fresh in intros ? x ? Hop ?; cbn in Hop; unfold only_in, written in Hop; destruct x; repeat case_match; naive_solver
    | apply maintains_ask; let Hop := fresh in intros ? ? ? Hop ?; cbn in Hop; subst; done
    | case_match ].

(** The accounts of a disk are a function of its store. *)
Definition of_store (P : option content -> Prop) (w : disk) : Prop := P (dk_store w).

Lemma keep_pointer (P : option content -> Prop) origin : keep (of_store P) (readTrustPointer site origin).
Proof. unfold readTrustPointer. keeps_store. Qed.

(** An operation that leaves the file of accounts. *)
Ltac leaves_store :=
  let Hop := fresh in intros ? ? ? Hop ?; cbn in Hop; unfold only_in, written in Hop; repeat case_match; destruct_or?; destruct_and?; subst; done.

Lemma keep_publish_pointer (P : option content -> Prop) p : keep (of_store P) (publishTrustPointer site p).
Proof.
  unfold publishTrustPointer. apply maintains_bind; [apply maintains_perform; leaves_store|intros _].
  apply maintains_bind; [apply keep_private|intros _]. apply maintains_bind; [apply maintains_perform; leaves_store|intros _].
  apply maintains_ask. leaves_store.
Qed.

Lemma keep_remove_pointer (P : option content -> Prop) origin : keep (of_store P) (removeTrustPointer site origin).
Proof.
  unfold removeTrustPointer. apply maintains_bind; [apply maintains_attempt, maintains_perform; leaves_store|intros r].
  apply maintains_bind; [repeat case_match; by apply maintains_value|intros _].
  apply maintains_bind; [apply maintains_perform; leaves_store|intros _]. apply maintains_ask. leaves_store.
Qed.

Lemma keep_restore_pointer (P : option content -> Prop) marker : keep (of_store P) (restoreEnrollmentPointer site marker).
Proof.
  unfold restoreEnrollmentPointer. destruct (am_previousPointer marker) as [p|].
  - apply maintains_bind; [apply keep_verified|intros _]. apply maintains_bind; [apply keep_publish_pointer|intros _].
    apply maintains_bind; [apply keep_pointer|intros r]. case_match; by apply maintains_value.
  - apply maintains_bind; [apply keep_remove_pointer|intros _].
    apply maintains_bind; [apply keep_pointer|intros r]. case_match; by apply maintains_value.
Qed.

Lemma keep_remove_generation (P : option content -> Prop) origin g : keep (of_store P) (remove_generation site origin g).
Proof.
  unfold remove_generation. repeat first [apply maintains_bind; [|intros ?] | apply maintains_attempt | by apply maintains_value];
    apply maintains_perform; intros w x w' Hx Hw; cbn in Hx; [destruct Hx as [Hs _]; unfold of_store; by rewrite Hs|by subst].
Qed.

(** *** The two transactions *)

Lemma safe_pointer_part {A} origin (p : enrolling A) w Q : keep (of_store (eq (dk_store w0))) p -> same_store w ->
  (forall r w', same_store w' -> Q r w') -> safely (disk_act honest) (sparing origin) p w Q.
Proof.
  intros Hk Hw HQ. eapply safely_mono; [eapply safely_weaken; [|apply safely_keeps, Hk]|].
  - intros w' Hw'. left. unfold of_store in Hw'. by symmetry in Hw'.
  - unfold of_store. by symmetry.
  - unfold of_store. by symmetry.
  - intros r w' [Hw' _]. apply HQ. unfold of_store in Hw'. by symmetry in Hw'.
Qed.

Lemma safe_undo_spares marker w : same_store w -> safe (sparing (am_origin marker)) (undo site marker) w.
Proof.
  intros Hw. unfold undo. apply safely_bind, safe_pointer_part; [apply keep_restore_pointer|done|]. intros [u|e] w1 Hw1; [|done].
  unfold restoreAcceptedEnrollmentAccounts, locked. apply safe_held, safe_store_lock; [by left|done|].
  apply safely_bind. eapply safe_entries; [by left|by apply same_holds|done|]. apply safely_bind, safe_of_sum.
  destruct (restored_accounts marker m) as [e|m'] eqn:Er; [done|].
  apply safe_replace; [by left|done| |done|done]. right. exists m'. split; [apply holds_with|]. by eapply restored_spared.
Qed.

(** The marker is read, whatever it is. *)
Lemma safe_any_marker origin o w (Q : outcome (option accepted_marker) -> disk -> Prop) : same_store w -> (forall r, Q r w) ->
  safely (disk_act honest) (sparing origin) (getAcceptedEnrollmentMarker true o) w Q.
Proof.
  intros Hw HQ. unfold getAcceptedEnrollmentMarker, locked. apply safe_held, safe_store_lock; [by left|intros e; by apply HQ|].
  unfold markerForOriginUnlocked. apply safely_bind. eapply safe_get; [by left|by apply same_holds|intros e; split; [by apply HQ|by intros _ e'; apply HQ]|].
  destruct (truthy _) as [t|]; [|split; [by apply HQ|by intros _ e'; apply HQ]]. apply safely_bind, safe_of_sum.
  destruct (decodeAcceptedEnrollmentMarker t); (split; [by apply HQ|by intros _ e'; apply HQ]).
Qed.

Lemma safe_clear p w : same_store w -> safe (sparing (pe_origin p)) (clearEnrollmentTransaction true p) w.
Proof.
  intros Hw. unfold clearEnrollmentTransaction.
  apply safely_bind, safe_of_sum. destruct (validateServerCredentialBinding _ _) as [e|u] eqn:Eb; [done|].
  apply safely_bind, safe_of_sum. destruct (serverPendingEnrollmentAccount _ _) as [e|account] eqn:Ea; [done|].
  unfold locked. apply safe_held, safe_store_lock; [by left|done|]. unfold refuse_accepted, markerForOriginUnlocked.
  eapply safely_mono with (Q := fun _ _ => True); [|done].
  apply safely_bind, safely_bind, safely_bind. eapply safe_get; [by left|by apply same_holds|by intros e|].
  cbn [safely]. destruct (truthy _) as [t|]; [apply safely_bind, safe_of_sum; by destruct (decodeAcceptedEnrollmentMarker t)|]. cbn [safely].
  apply safely_bind. eapply safe_entries; [by left|by apply same_holds|by intros e|].
  destruct (truthy _) as [t|]; [|done]. destruct (decodePendingServerEnrollment t _ _) as [|current]; [done|]. destruct (negb _); [done|].
  assert (Hsp : sparing (pe_origin p) (with_accounts w (drop_key account m))).
  { right. eexists. split; [apply holds_with|]. intros k. rewrite assoc_drop. destruct (String.eqb_spec k account) as [->|]; [|by left].
    right. left. right. left. exists (pe_trustIdentity p). apply sum_bind_inr in Ea as (_ & _ & [= <-]). done. }
  apply safely_bind. apply safe_replace; [by left|by intros e|done| |by intros _ e].
  apply safely_bind. eapply safe_get; [done|apply holds_with|by intros e|done].
Qed.

Lemma keep_clear_staged (P : option content -> Prop) o g : keep (of_store P) (clearStagedBorgServerTrust site true o g).
Proof.
  unfold clearStagedBorgServerTrust. destruct g as [[|c g]|]; try by apply maintains_value.
  cbn [withEnrollmentOriginLock]. apply maintains_bind; [apply keep_pointer|intros p]. case_match; [by apply maintains_value|apply keep_remove_generation].
Qed.

Lemma safe_undo_transaction t w : same_store w -> safe (sparing (transaction_origin t)) (undo_transaction site t) w.
Proof.
  intros Hw. unfold undo_transaction. apply safe_origin_lock; [by left|done|]. eapply safely_mono with (Q := fun _ _ => True); [|done].
  destruct t as [mk|p]; cbn [transaction_origin].
  - apply safely_bind. unfold restoreBorgServerEnrollment. apply safe_held, safely_bind, safe_any_marker; [done|].
    intros [[mk'|]|e]; [|done..]. case_match; [|done]. apply safely_bind. eapply safely_mono; [by apply safe_undo_spares|]. by intros [u|e].
  - apply safely_bind. eapply safely_mono; [apply safely_keeps, safe_clear; [by left|done]|]. intros [b|e] w1 [Hw1 _]; [|done]. destruct b; [|done].
    exact (keep_clear_staged (fun c => c = dk_store w0 \/ exists m', decode_accounts c = inr m' /\ spared (pe_origin p) m m') _ _ w1 Hw1).
Qed.

(** *** The command *)

Lemma collect_all {A} (P : A -> Prop) f (l : accounts) r : (forall a t r', f a t = inr r' -> Forall P r') -> collect f l = inr r -> Forall P r.
Proof.
  intros Hf. revert r. induction l as [|[a t] l IH]; intros r; cbn [collect]; [by intros [= <-]|].
  intros (x & Hx & Hr)%sum_bind_inr. apply sum_bind_inr in Hr as (more & Hmore & [= <-]). apply Forall_app. eauto.
Qed.

(** What is found is of the selected origin. *)
Lemma safe_find (I : disk -> Prop) sel w (Q : outcome (option recovery_transaction) -> disk -> Prop) : I w -> same_store w -> any_error Q w ->
  (forall t, match t with Some t => selected sel (transaction_origin t) = true | None => True end -> Q (Done t) w) ->
  safely (disk_act honest) I (findEnrollmentRecoveryTransaction sel) w Q.
Proof.
  intros HI Hw Herr HQ. unfold findEnrollmentRecoveryTransaction. apply safely_bind.
  assert (Hgo : safely (disk_act honest) I (match sel with None => Ret tt | Some o => of_sum (canonical_https o) end) w
    (fun r w' => w' = w)) by (destruct sel as [o|]; [apply safe_of_sum; by destruct (canonical_https o)|done]).
  eapply safely_mono; [exact Hgo|]. intros [u|e] w' ->; [|apply Herr].
  apply safe_store_lock; [done..|]. apply safely_bind. eapply safe_entries; [done|by apply same_holds|by intros e|].
  apply safely_bind, safe_of_sum. destruct (collect _ m) as [e|found] eqn:Ec; [done|].
  apply (collect_all (fun t => selected sel (transaction_origin t) = true)) in Ec.
  - destruct found as [|t [|t' rest]]; [split; [by apply HQ|done]| |split; [apply Herr|done]]. rewrite Forall_singleton in Ec. split; [exact (HQ (Some t) Ec)|done].
  - intros a t r Hr. apply sum_bind_inr in Hr as (k & _ & Hk).
    destruct k as [mk|p|]; injection Hk as <-; [| |done]; (destruct (selected _ _) eqn:Es; [|done]); by apply Forall_singleton.
Qed.

(** The origin the operator chose, if any. *)
Definition chosen (flags : recover_flags) (origin : string) : Prop :=
  match rf_host flags with None => True | Some host => normalizeServerEndpoint parse_url host = inr origin end.

Definition spared_all (flags : recover_flags) (w : disk) : Prop := same_store w \/ exists origin, chosen flags origin /\ sparing origin w.

Lemma safe_say b text (I : disk -> Prop) w : I w -> safely (disk_act honest) I (ask (Say b text)) w (fun r w' => w' = w /\ exists u, r = Done u).
Proof. intros HI x w' Hx. cbn in Hx. subst w'. split; [done|]. cbn. eauto. Qed.

Lemma safe_selected flags sel : (forall origin, selected sel origin = true -> chosen flags origin) ->
  safely (disk_act honest) (spared_all flags) (recover_selected site flags sel) w0 (fun _ _ => True).
Proof.
  intros Hsel. assert (Hw0 : spared_all flags w0) by by left.
  assert (Htell : forall b text, safely (disk_act honest) (spared_all flags) (do! ask (Say b text); Ret 1) w0 (fun _ _ => True)).
  { intros b text. apply safely_bind. eapply safely_mono; [by apply safe_say|]. by intros r w' [_ [u ->]]. }
  unfold recover_selected. apply safely_bind, safe_find; [done..|by intros e|]. intros [t|] Ht.
  - apply safely_bind. assert (Hconf : safely (disk_act honest) (spared_all flags) (confirmed flags t) w0 (fun r w' => w' = w0)).
    { unfold confirmed. destruct (rf_yes flags); [done|]. apply safely_bind, safely_perform. intros x w' Hx. cbn in Hx. subst w'. split; [done|]. by destruct x. }
    eapply safely_mono; [exact Hconf|]. intros [yes|e] w' ->; [|done]. destruct (negb yes); [apply Htell|].
    apply safely_bind. assert (Hch := Hsel _ Ht). eapply safely_mono.
    { eapply safely_weaken; [|apply safely_keeps, safe_undo_transaction]; [|by left|done]. intros w' Hw'. right. by exists (transaction_origin t). }
    intros [u|e] w1 [Hw1 _]; [|done]. apply safely_bind. eapply safely_mono; [apply safe_say; right; by exists (transaction_origin t)|].
    by intros r w2 [_ [u' ->]].
  - apply safely_bind. assert (Hother : safely (disk_act honest) (spared_all flags)
      (match sel with None => Ret None | Some _ => findEnrollmentRecoveryTransaction None end) w0 (fun _ w' => w' = w0)).
    { destruct sel as [o|]; [|done]. apply safe_find; done. }
    eapply safely_mono; [exact Hother|]. intros [[t|]|e] w' ->; [apply Htell..|done].
Qed.

Lemma safe_command flags : safely (disk_act honest) (spared_all flags) (runRecoverEnrollment site parse_url flags) w0 (fun _ _ => True).
Proof.
  unfold runRecoverEnrollment. destruct (rf_host flags) as [host|] eqn:Eh.
  - destruct (normalizeServerEndpoint parse_url host) as [e|o] eqn:En.
    + apply safely_bind. eapply safely_mono; [apply safe_say; by left|]. by intros r w' [_ [u ->]].
    + apply safe_selected. intros origin Ho%String.eqb_eq. subst o. unfold chosen. by rewrite Eh.
  - apply safe_selected. intros origin _. unfold chosen. by rewrite Eh.
Qed.
End Command.

(** C24. [borg recover-enrollment] leaves the other enrollments alone: whatever fails and
    wherever it is stopped, the file of accounts is the one there was, or differs from
    it only at accounts of one origin - the marker, the pending tuple and the snapshot
    of its enrollment and its active credentials - which is the one the operator
    named, where one was named. *)
Theorem recover_enrollment_spares_others (site : trust_site) (parse_url : string -> option url_parts) (honest : bool) (flags : recover_flags)
    (w w' : disk) (m : accounts) :
  holds w m -> NoDup (map fst m) -> passes (disk_act honest) (runRecoverEnrollment site parse_url flags) w w' ->
  dk_store w' = dk_store w \/
  exists origin m', holds w' m' /\ spared origin m m' /\
    match rf_host flags with None => True | Some host => normalizeServerEndpoint parse_url host = inr origin end.
Proof.
  intros Hm Hn Hp. assert (Hs := safely_passes _ _ _ _ _ _ (safe_command site parse_url honest w m Hm Hn flags) (or_introl eq_refl) Hp).
  destruct Hs as [Hs|(origin & Hc & [Hs|(m' & Hm' & Hsp)])]; [by left|by left|]. right. by exists origin, m'.
Qed.
End Recovery.

(** ** A run

    A machine that is enrolled with one key of the server and replaces that
    enrollment by one with another key. *)
Module EnrollmentRun.

(** A disk whose n-th write of the accounts reports an error although it takes place. *)
Definition answer {A} (x : A) (s : disk * option nat) : A * (disk * option nat) := (x, s).

Definition disk_do (X : Type) (op : enroll_op X) (s : disk * option nat) : X * (disk * option nat) :=
  let w := fst s in
  match op in enroll_op X return X * (disk * option nat) with
  | ReadStore => answer (inr (dk_store w)) s
  | WriteStore c =>
      let w' := Disk (Some c) (dk_files w) in
      match snd s with Some O => (inl (Errno "EIO"), (w', None)) | Some (S n) => (inr tt, (w', Some n)) | None => (inr tt, (w', None)) end
  | LstatDir _ => answer (inr (Meta false true false 448 0 0 0 0)) s
  | OpenTrust dir name => answer (match dk_files w !! (dir, name) with Some _ => inr tt | None => inl (Errno ENOENT) end) s
  | TrustStat _ _ => answer (inr (Meta false false true 384 0 0 0 0)) s
  | TrustText dir name => answer (match dk_files w !! (dir, name) with Some t => inr t | None => inl (Errno "EIO") end) s
  | TrustClose _ _ => answer (inr tt) s
  | AtomicWrite dir name t => (inr tt, (Disk (dk_store w) (<[(dir, name) := t]> (dk_files w)), snd s))
  | UnlinkIn dir name =>
      match dk_files w !! (dir, name) with
      | Some _ => (inr tt, (Disk (dk_store w) (delete (dir, name) (dk_files w)), snd s))
      | None => answer (inl (Errno ENOENT)) s
      end
  | AccessFile dir name => answer (bool_decide (is_Some (dk_files w !! (dir, name)))) s
  | LockOrigin _ => answer (inr tt) s
  | UnlockOrigin _ => answer (inr tt) s
  | LockStore => answer (inr tt) s
  | UnlockStore => answer (inr tt) s
  | MkdirAll _ => answer (inr tt) s
  | MkdirNew _ => answer (inl (Errno "EIO")) s
  | WriteNew _ _ _ => answer (inl (Errno "EIO")) s
  | SyncPath _ => answer (inr tt) s
  | RenameDir _ _ => answer (inl (Errno "EIO")) s
  | RemoveDir _ => answer (inl (Errno "EIO")) s
  | CacheGet _ => answer None s
  | CachePut _ _ _ => answer tt s
  | CacheDrop _ => answer tt s
  | PresentedChain _ => answer (inl (Errno "EIO")) s
  | NewUuid => answer "" s
  | NewSecret => answer "" s
  | Stamp => answer "" s
  | Prompt _ => answer (inr "y") s
  | Say _ _ => answer tt s
  end.

Lemma disk_do_allowed X (op : enroll_op X) s : disk_act false X op (fst s) (fst (disk_do X op s)) (fst (snd (disk_do X op s))).
Proof.
  destruct s as [w [n|]]; destruct op; cbn; unfold written, only_in; try done; try (destruct (dk_files w !! _) eqn:E; done); try (destruct n; cbn; auto; done);
    try (split; [done|]); repeat case_match; done.
Qed.

Lemma run_nrun {A} (p : enrolling A) s : nrun (disk_act false) p (fst s) (fst (run disk_do p s)) (fst (snd (run disk_do p s))).
Proof.
  revert s. induction p as [a|e|X op k IH]; intros s; [done..|]. cbn [nrun run].
  assert (Ha := disk_do_allowed X op s). destruct (disk_do X op s) as [x s']. exists x, (fst s'). split; [exact Ha|apply IH].
Qed.

#[local] Instance urls : UrlEnv := fun s => if starts_with "https://" s then Some s else None.
#[local] Instance certs : CertEnv := {|
  x509_of_pem := fun s => if starts_with "certificate of " s then Some (X509 true (string_drop 15 s)) else None;
  x509_of_der := fun _ => None
|}.

Definition site : trust_site := TrustSite "/home/u" "/" None (Some 0) 7.
Definition server : string := "https://borg.test:7777".
Definition old_identity : string := Eval vm_compute in spki_identity (sha256_hex "old").
Definition identity : string := Eval vm_compute in spki_identity (sha256_hex "new").
Definition old_generation : string := Eval vm_compute in trustGenerationId server "certificate of old" old_identity.
Definition generationId : string := Eval vm_compute in trustGenerationId server "certificate of new" identity.
Definition secret : string := "AAAAAAAAAAAAAAAAAAAAAAAAAAAAAAAAAAAAAAAAAAA".
Definition retryKey : string := "11111111-1111-4111-8111-111111111111".
Definition token : string := "22222222-2222-4222-8222-222222222222".

Definition old_accounts : accounts := Eval vm_compute in
  [(credential_account server old_identity, encodeServerCredentialRecord (ActiveRecord server old_identity secret None []));
   ("another", "left alone")].

Definition pending_text : string := Eval vm_compute in
  let spki := JStr (bare_digest identity) in
  let digest := JStr (sha256_hex secret) in
  json_compact (JObj [("version", JNum 3); ("state", JStr "pending"); ("origin", JStr server); ("trustIdentity", JStr identity);
    ("invitation", JStr secret); ("retryKey", JStr retryKey); ("credential", JStr secret);
    ("artifactBinding", JObj [("artifactFormatVersion", JNum 1); ("artifactDigest", digest); ("endpoint", JStr server); ("caSpkiSha256", spki);
       ("trustIdentity", JStr identity); ("expectedAuthority", JStr "client"); ("stagedGenerationId", JStr generationId)]);
    ("replacementCapability", JObj [("token", JStr token); ("priorAccountsDigest", JStr (digestAccountSnapshot old_accounts server));
       ("endpoint", JStr server); ("caSpkiSha256", spki); ("trustIdentity", JStr identity); ("retryKey", JStr retryKey); ("artifactDigest", digest)])]).

Definition all_accounts : accounts := Eval vm_compute in old_accounts ++ [(pending_account server identity, pending_text)].

Definition old_pointer : trust_pointer := pointer_of server old_generation old_identity.

Definition generation_files (certificate identity g : string) : list ((string * string) * string) :=
  [((trustGenerationDirectory site server g, "ca.crt"), certificate); ((trustGenerationDirectory site server g, "server.json"), config_text identity)].

Definition disk0 : disk :=
  Disk (Some (encode_accounts all_accounts))
    (list_to_map ((pointer_key site server, pointer_text old_pointer) ::
       generation_files "certificate of old" old_identity old_generation ++ generation_files "certificate of new" identity generationId)).

Definition response : activation := Activation server identity retryKey secret "33333333-3333-4333-8333-333333333333" [] None None (Some token).
Definition staged : staged_trust := StagedTrust server generationId (Generation "certificate of new" identity).

Definition the_commit : enrolling bool := commitTrust site false staged false (activate_with response staged).

Definition commit_ran : outcome bool * (disk * option nat) := run disk_do the_commit (disk0, None).

Lemma ready : commit_ready site response staged disk0 all_accounts (Some old_pointer).
Proof.
  split; try (vm_compute; reflexivity).
  - exists ["home"; "u"]. split; [repeat constructor|]. split; [done|reflexivity].
  - split; [apply (bool_decide_unpack _); vm_compute; exact I|vm_compute; reflexivity..|]. intros t Ht.
    assert (Hnone : assoc (credential_account server identity) all_accounts = None) by (vm_compute; reflexivity). exfalso.
    change (assoc (credential_account server identity) all_accounts = Some t) in Ht. congruence.
  - split; [reflexivity|]. split; vm_compute; reflexivity.
Qed.

Lemma commit_is_all_or_nothing_witness : commit_ready site response staged disk0 all_accounts (Some old_pointer) /\
  fst commit_ran = Done true /\ after site response generationId all_accounts (fst (snd commit_ran)).
Proof.
  split; [exact ready|]. assert (Hd : fst commit_ran = Done true) by (vm_compute; reflexivity). split; [exact Hd|].
  assert (Hr := run_nrun the_commit (disk0, None)). change (run disk_do the_commit (disk0, None)) with commit_ran in Hr. rewrite Hd in Hr.
  exact (proj2 (commit_is_all_or_nothing site false false response staged disk0 all_accounts (Some old_pointer) ready) _ _ Hr).
Defined.

(** *** A recovery *)

Definition context : activation := in_context response generationId (Some old_pointer).

Definition accepted_accounts : accounts :=
  put (marker_account server) (json_compact (am_value (activation_marker context generationId (pending_account server identity) pending_text all_accounts)))
      (put (serverEnrollmentRollbackAccount server retryKey) (snapshot_text context (pending_account server identity) pending_text all_accounts)
        (replaced_accounts context (credential_account server identity) (pending_account server identity) all_accounts)).

(** The process was stopped between the accounts and the pointer. *)
Definition stopped : disk := with_accounts disk0 accepted_accounts.

Lemma stopped_recoverable : recoverable site response generationId disk0 all_accounts (Some old_pointer) (Some old_pointer) pending_text accepted_accounts stopped.
Proof.
  split; [apply ready|vm_compute; reflexivity| |apply ready|by left|].
  - split; [|vm_compute; reflexivity..|vm_compute; discriminate|reflexivity]. split; [vm_compute; reflexivity|]. split; [vm_compute; reflexivity|].
    split; vm_compute; reflexivity.
  - split; [reflexivity|]. left. vm_compute. reflexivity.
Qed.

Lemma recovery_settles_witness :
  recoverable site response generationId disk0 all_accounts (Some old_pointer) (Some old_pointer) pending_text accepted_accounts stopped /\
  will (healthy site) (recoverAcceptedEnrollment site server) stopped (fun r w' => r = Done tt /\ after site response generationId all_accounts w').
Proof.
  split; [exact stopped_recoverable|].
  apply (proj2 (proj2 (recovery_settles site response generationId disk0 stopped all_accounts accepted_accounts (Some old_pointer) (Some old_pointer) pending_text
    stopped_recoverable))).
  exists "certificate of new", (config_text identity), (bare_digest identity). split_and!; vm_compute; reflexivity.
Defined.

(** The credential of the server is not read meanwhile. *)
Definition marker_text : string :=
  json_compact (am_value (activation_marker context generationId (pending_account server identity) pending_text all_accounts)).

Definition reader_ran : outcome (option active_record) * (disk * option nat) := run disk_do (getServerCredentialRecord false server identity) (stopped, None).

Lemma accepted_enrollment_stops_readers_witness : holds stopped accepted_accounts /\ assoc (marker_account server) accepted_accounts = Some marker_text /\
  fails (fst reader_ran) /\ fst (snd reader_ran) = stopped.
Proof.
  assert (Hm : holds stopped accepted_accounts) by apply holds_with.
  assert (Ht : assoc (marker_account server) accepted_accounts = Some marker_text) by (vm_compute; reflexivity).
  assert (Hne : String.eqb marker_text "" = false) by (vm_compute; reflexivity).
  split; [exact Hm|]. split; [exact Ht|].
  refine (proj1 (accepted_enrollment_stops_readers false false stopped server identity
    (PendingRecord server identity secret retryKey secret None None None) accepted_accounts marker_text Hm Ht (proj1 (String.eqb_neq _ _) Hne) eq_refl) _ _ _).
  exact (run_nrun (getServerCredentialRecord false server identity) (stopped, None)).
Defined.

(** The operator undoes it. *)
Definition operator_ran : outcome Z * (disk * option nat) := run disk_do (runRecoverEnrollment site (fun _ => None) (RecoverFlags None true)) (stopped, None).

Lemma recover_enrollment_spares_others_witness : fst operator_ran = Done 0 /\
  (dk_store (fst (snd operator_ran)) = dk_store stopped \/
   exists origin m', holds (fst (snd operator_ran)) m' /\ spared origin accepted_accounts m' /\ True).
Proof.
  split; [vm_compute; reflexivity|].
  apply (recover_enrollment_spares_others site (fun _ => None) false (RecoverFlags None true) stopped (fst (snd operator_ran)) accepted_accounts).
  - apply holds_with.
  - apply (bool_decide_unpack _). vm_compute. exact I.
  - eapply nrun_passes. exact (run_nrun (runRecoverEnrollment site (fun _ => None) (RecoverFlags None true)) (stopped, None)).
Defined.

(** *** A recovery whose last write reports an error *)

Definition recovery_ran : outcome unit * (disk * option nat) := run disk_do (recoverAcceptedEnrollment site server) (stopped, Some O).

Definition broken : disk := fst (snd recovery_ran).

Definition accounts_in (w : disk) : accounts := match decode_accounts (dk_store w) with inr m => m | inl _ => [] end.
Definition broken_accounts : accounts := accounts_in broken.

(** The replacement that finalizes the accounts takes place and reports an error.  The
    pointer is then moved back although there is nothing left to undo: the credential
    is of the new key and the trusted key the old one, whose credential is gone. *)
Example recovery_undoes_a_finished_enrollment :
  nrun (disk_act false) (recoverAcceptedEnrollment site server) stopped (Failed InvitationArtifactRecoveryError) broken /\
  commit_state site response generationId disk0 all_accounts (Some old_pointer) stopped /\
  ~ commit_state site response generationId disk0 all_accounts (Some old_pointer) broken.
Proof.
  split; [|split].
  - assert (Hr := run_nrun (recoverAcceptedEnrollment site server) (stopped, Some O)). change (run disk_do _ _) with recovery_ran in Hr.
    assert (He : fst recovery_ran = Failed InvitationArtifactRecoveryError) by (vm_compute; reflexivity). rewrite He in Hr. exact Hr.
  - eapply ready_state. exact stopped_recoverable.
  - assert (Hb : holds broken broken_accounts) by (vm_compute; reflexivity).
    assert (Hsame : forall m, holds broken m -> m = broken_accounts) by (unfold holds in *; intros m Hm; congruence).
    assert (Hp : points site server broken (Some old_pointer)) by (vm_compute; reflexivity).
    assert (Hnew_there : is_Some (assoc (credential_account server identity) broken_accounts)) by (apply (bool_decide_unpack _); vm_compute; exact I).
    assert (Hnew_not : assoc (credential_account server identity) all_accounts = None) by (vm_compute; reflexivity).
    assert (Hgone : assoc (marker_account server) broken_accounts = None) by (vm_compute; reflexivity).
    assert (Hdiffer : String.eqb (pointer_text old_pointer) (pointer_text (pointer_of server generationId identity)) = false) by (vm_compute; reflexivity).
    intros [(m & p & Hm & Heq & _)|[(m & t & p & Hm & Ht & _)|(m & Hm & _ & Hnew)]].
    + apply Hsame in Hm as ->. specialize (Heq (credential_account server identity)). destruct Hnew_there. congruence.
    + apply Hsame in Hm as ->. change (assoc (marker_account server) broken_accounts = Some t) in Ht. congruence.
    + unfold points in Hp, Hnew. apply String.eqb_neq in Hdiffer. apply Hdiffer.
      change (dk_files broken !! pointer_key site server = Some (pointer_text (pointer_of server generationId identity))) in Hnew.
      change (dk_files broken !! pointer_key site server = Some (pointer_text old_pointer)) in Hp. congruence.
Qed.
End EnrollmentRun.
